(* ===== verification/_CoqProject ===== *)
-Q . S2P
Prelude.v
Endian.v
Util.v
Glob.v
Intset.v
Dict.v
DictProofs.v
DictMap.v
DictScan.v
Adlist.v
AdlistProofs.v
Crc.v
Sha1.v
Sha1Proofs.v
Ziplist.v
ZiplistProofs.v
ZiplistNav.v
ZiplistUpdate.v
ZiplistDelete.v
ZiplistTheorems.v
Lzf.v
LzfProofs.v
Bitops.v
BitopsProofs.v
Object.v
Db.v
TString.v
ServerOk.v
Abstract.v
ServerSim.v
ValueSim.v
AString.v
StringSim.v
Keyspace.v
AKeyspace.v
Frame.v
KeyspaceSim.v
Server.v
ServerRefine.v
Sds.v
SdsProofs.v
Protocol.v
ProtocolProofs.v
Pipeline.v
Safety.v
Session.v
Effects.v
ServerTheorems.v
Limits.v
Rdb.v
RdbCodec.v
RdbLoad.v
RdbTheorems.v
Skiplist.v
SkiplistProofs.v
SkiplistDelete.v
SkiplistOrder.v
SkiplistTheorems.v
SkiplistRanges.v
SkiplistWitness.v
Signals.v
Multi.v
MultiProofs.v
MultiTheorems.v
MultiWitness.v
Pubsub.v
PubsubProofs.v
PubsubDeliver.v
PubsubTheorems.v
PubsubEvents.v
PubsubWitness.v
Hll.v
HllDense.v
HllSparse.v
HllTheorems.v
HllCommands.v
HllWitness.v
ServerWitness.v
