(* ===== verification/Prelude.v ===== *)
(** * Verification of the redis server of ZBot

    The repository holds a Discord bot written in JavaScript (lib/) and the
    database it keeps its state in, the C sources of redis 3.2 under
    redis/src/.  This library is about the database: its data structures and
    the path of a request through the server.  All file names below are
    those of redis/src/.

    ** The program

    A client sends bytes; the parser of the protocol (networking.c) cuts them
    into requests, lists of strings.  The server looks the command up in its
    table, checks that it may run and calls it (server.c).  A command works
    on the keyspace (db.c), which maps keys to reference-counted objects
    (object.c), keeps the expire times of keys, and is kept in hash tables
    with incremental rehashing (dict.c).  Objects share values and change
    their encoding to save memory: small integers are shared, short strings
    are embedded, small aggregates are packed (ziplist.c, intset.c).  The
    command answers the client through the reply functions of networking.c,
    and what it changed is given to the slaves and the append-only file.
    The databases are dumped to disk and loaded at the start (rdb.c) through
    a stream with a checksum (rio.c, crc64.c); strings in a dump are
    compressed with LZF (lzf_c.c, lzf_d.c).

    ** The files and what they model

    Shared
    - Prelude: faults and results, integers of a given width, bytes in
      memory, tactics.
    Data structures
    - Endian: the byte swaps of endianconv.c.
    - Util: numbers to text and back, memory amounts (util.c).
    - Glob: the pattern matcher stringmatchlen (util.c).
    - Intset: sets of integers in an array of 2, 4 or 8 byte elements
      (intset.c).
    - Dict: hash tables, incremental rehashing, the scan cursor (dict.c,
      dict.h); DictProofs, DictMap and DictScan prove that they are finite
      maps and that scans are complete.
    - Adlist: doubly linked lists as nodes in a store, with their pointers
      (adlist.c); AdlistProofs.
    - Ziplist: packed lists as bytes, entry headers, the cascade of header
      changes (ziplist.c); ZiplistProofs, ZiplistNav, ZiplistUpdate,
      ZiplistDelete, ZiplistTheorems.
    - Lzf: compression and decompression (lzf_c.c, lzf_d.c); LzfProofs.
    - Crc: CRC16, CRC64 and the hash slots of cluster.c.
    - Sha1: the SHA-1 digest (sha1.c); Sha1Proofs.
    - Bitops: population count, first bit, bit fields (bitops.c);
      BitopsProofs.
    - Skiplist: the skip list of sorted sets with its spans, ranks and ranges
      (t_zset.c); SkiplistProofs, SkiplistDelete, SkiplistOrder,
      SkiplistTheorems, SkiplistRanges, SkiplistWitness.
    - Hll: the registers of HyperLogLogs, sparse and dense, PFADD and PFMERGE
      as functions of the values of their keys (hyperloglog.c).  HllDense:
      registers of 6 bits in an array of bytes.  HllSparse: the list of
      opcodes.  HllTheorems: adding an element, conversion.  HllCommands: an
      object denotes a set; HllWitness.
    The server
    - Object: the state of the server and the objects (object.c).  A command
      is a function in the monad [M] on the record [server]: the heap of
      objects by address, the databases, the arguments of the client, the
      configuration, and a log of all that the server sends, counts, signals
      and propagates.
    - Db: replies (networking.c), lookup, expiry and change of keys (db.c).
    - TString: the string commands (t_string.c).
    - Keyspace: the commands on keys and expire times (db.c).
    - Server: the command table, processCommand, call, the start (server.c).
    - Sds: the string functions of the parser (sds.c); SdsProofs.
    - Protocol: the request parser and the input loop (networking.c);
      ProtocolProofs.
    - Rdb: the dump and its load, for databases of strings (rdb.c, rio.c).
    - Multi: transactions and watched keys for any number of clients
      (multi.c), over the specifications of the commands.
    - Pubsub: channels, patterns and keyspace events for any number of
      clients (pubsub.c, notify.c), over the same specifications.
    The specification of the server and the proofs
    - ServerOk: the invariant of the state: reference counts are exact.
    - Abstract, AString, AKeyspace: the specification: databases as maps from
      keys to plain values and to expire times, one function in the monad
      [AM] per command; [abs] maps a state of the server to a state of the
      specification, and [sim] is the simulation.
    - ServerSim, ValueSim, StringSim, Frame, KeyspaceSim: the commands
      simulate their specifications.
    - ServerRefine: the class [Implements], the interface between a command
      and the dispatcher; its instances for the 38 commands; processCommand
      simulates its specification for any table of such commands.
    - Pipeline: requests in the query buffer are served as a list of
      requests.  Safety: which faults the specifications can have.  Session:
      any bytes at all.  Effects: what commands that are not writes change.
    - ServerTheorems: the theorems about the server.  Limits: behaviours the
      code does not intend.
    - RdbCodec: the bytes that the functions of the dump write and read.
      RdbLoad: loading strings and keys into the server.  RdbTheorems: a
      dump that is saved is loaded.
    - Signals: every command but MOVE signals each key whose value it
      changes.  MultiProofs: the invariant of the watched keys.
      MultiTheorems: the theorems about transactions; MultiWitness: concrete
      runs.
    - PubsubProofs: the tables of the server are indexes of the subscriptions
      of the clients.  PubsubDeliver: the loops that send a message.
      PubsubTheorems, PubsubEvents: the theorems; PubsubWitness: concrete
      runs.
    - ServerWitness: the theorems about the server at concrete inputs.

    ** How C is modelled

    An int, long or size_t is a [Z], kept in the range of its type by
    [uwrap] and [swrap] where the C operation wraps.  A block of memory is a
    [list Z] of bytes, and every read and write of it checks its bounds.
    Code that can fail returns [res]: an access outside a block, a failed
    assertion, a division by zero, the overflow of a signed integer, another
    undefined operation or an allocation that cannot be served are values of
    the type [fault], never a made-up result.  The host is a 64 bit
    little-endian one.  Loops that are not structural recurse on fuel, and
    the theorems show that the fuel given is enough: no theorem about
    results leaves [OutOfFuel] open.  Its bounds: the length of the buffer
    that a loop walks through, plus one (parsers, ziplist, LZF), the number
    of arguments (commands), the number of buckets (dict), the number of
    nodes plus one (skip list), 20 digits (numbers), 64 bits (the hash of a
    HyperLogLog).  ALLOC_MAX, 2^47, is the size of the address space; the
    allocator aborts above it.  One integer is not kept in its range: the
    reference counter of an object, an int that the code increments without
    a check, is an unbounded number.  It is that of the code as long as fewer
    than 2^31 pointers share one object; reachable_ok shows so for states
    with at most 2^30, and the findings name the overflow beyond.

    ** What the theorems show

    - Requests: the bytes of requests have the effect that the specification
      gives to the list of requests (pipeline_refines, commands_refine); cuts
      in the byte stream do not show (multibulk_resume); quoting and
      splitting are inverse (splitargs_repr).
    - State: reference counts are exact and fit their int in every state
      reached with at most 2^30 pointers to one object, objects are well
      typed, nothing leaks and nothing is freed in use (reachable_ok,
      reachable_typed); no input at all makes the server access memory it
      must not, fail an assertion or loop (input_safe).
    - Clients: what was set is read (set_then_get), expired keys are not
      (expired_not_read), counters do not wrap (incrby_bounds), a read-only
      slave keeps its data (slave_keeps_data).
    - Dumps: what is saved is loaded but for expired keys (rdb_roundtrip),
      and a full device is reported (rdb_save_full), for strings shorter than
      2^31 bytes, where the ints that count the bytes do not change them
      (string_not_saved), and expire times other than -1.
    - Transactions: the lists of watched keys of the clients and of the
      databases agree in every reachable state (multi_invariant); a
      transaction executes only if no watched key was changed since it was
      watched (optimistic_lock), and EXEC runs the commands that were
      queued, in their order, with nothing in between (exec_runs_queue).
    - Publish/subscribe: the server with its tables of channels and patterns
      does what a specification without tables does (pubsub_refines,
      pubsub_invariant); messages and events of keys reach those that listen,
      and no other client (publish_delivers, events_delivered).
    - HyperLogLogs: the registers depend on the set of the added elements
      only, and PFADD and PFMERGE are insertion and union (pfadd_refines,
      pfmerge_refines).
    - Data structures: dict, ziplist, intset and adlist operations refine
      those of finite maps, lists and sets of plain values on every branch,
      rehashing completes, scans visit what stays; the skip list is the
      sorted list of its members and its ranks and ranges are those of the
      list (zslInsert_sorted, zslDelete_exact, zsl_ranks, zsl_delete_range,
      zsl_score_range, zsl_lex_range); compression round trips
      and decompression is safe on any input of at least one byte; checksums, digest, bit counts
      and the pattern matcher equal their definitions; numbers and bit
      fields read back.
    - Limits: requests on which the code does something else than intended
      (Limits, the findings in ZiplistTheorems, DictScan, Glob, LzfProofs,
      RdbTheorems, SkiplistWitness, MultiWitness, PubsubWitness, HllWitness).

    ** What is not modelled, and why

    The hash tables of the keyspace are taken as the maps that Dict shows
    them to be, so that the order of keys (KEYS, SCAN, RANDOMKEY) is not in
    the model.  The clock stands still while a command runs.  The spare
    space of strings is left out, as are statistics that nothing modelled
    reads.  The cluster, scripts, MONITOR and the memory limit are
    off, and clients are neither blocked nor paused.  The request path of
    Server is that of a client that is not in a transaction; Multi has the
    transactions, over the specifications of the commands, so that the
    references to queued arguments and to watched keys are not counted, and
    the keys a command signals are taken from its log; Pubsub has the
    subscriptions in the same way, with the events of a command from its
    log.  Transactions and subscriptions are two models of the same clients;
    their commands are not mixed.  A command name with a
    NUL byte in it is taken as unknown.  The contents of lists, sets, hashes
    and sorted sets are opaque to the string and key commands, and the
    commands on them are not modelled, nor is their part of a dump, which is
    a parameter of the code that calls it; nor are the floating point
    commands.  A dump is written to and read from a file on a device
    that takes a bounded number of bytes; fwrite reports an item that does
    not fit, and the buffer of the C library before the device, which may
    report it later, is left out.  Events served while a dump is loaded are
    not modelled.  The password, the role of the server and the time limit
    of scripts are read from the configuration, for all clients alike: a
    client is not authenticated, or known as the master, by itself.  The skip list has the strings of its members where
    the code has references to objects, and is not yet the value of a key;
    random() is the list of its results.  The estimate of a HyperLogLog
    (PFCOUNT) is computed with floating point numbers and is left out; PFADD
    and PFMERGE are not among the commands of Server, as the value of a key
    there has no spare space.
    Sockets, files, threads, signals, the event loop, replication, sentinel,
    the cluster bus, Lua, the configuration, the command line tools and the
    third-party code under deps/ are outside: they are input and output, or
    code that is not the repository's own. *)

From stdpp Require Export base numbers list option sets.
From Stdlib Require Export ZArith Lia.
From Stdlib Require Ascii String.
Export String.StringSyntax.

#[global] Open Scope Z_scope.

(** ** Faults and results

    C code that reads outside an object, fails an [assert] or does not
    return is not given a made-up value: a model of such code returns
    [Fault]. *)
Inductive fault : Type :=
  | OutOfBounds     (* a read or a write outside the object *)
  | AssertFailed    (* a failed assert(), or serverPanic() *)
  | NullDeref       (* access through a NULL pointer *)
  | DivByZero       (* division or remainder by zero *)
  | Undefined       (* another operation that C leaves undefined *)
  | Overflow        (* overflow of a signed integer *)
  | OutOfMemory     (* the allocator cannot serve a request and aborts *)
  | Exited          (* the server reported an error and called exit() *)
  | OutOfFuel.      (* the loop bound of the model was reached *)

Inductive res (A : Type) : Type :=
  | Ret (a : A)
  | Fault (f : fault).
Arguments Ret {A} _.
Arguments Fault {A} _.

#[export] Instance res_ret : MRet res := fun _ a => Ret a.
#[export] Instance res_bind : MBind res := fun _ _ k m =>
  match m with Ret a => k a | Fault f => Fault f end.
#[export] Instance fault_eq_dec : EqDecision fault.
Proof. solve_decision. Defined.
#[export] Instance res_eq_dec {A} `{EqDecision A} : EqDecision (res A).
Proof. solve_decision. Defined.

(** [of_opt f o] turns a missing value into the fault [f]. *)
Definition of_opt {A} (f : fault) (o : option A) : res A :=
  match o with Some a => Ret a | None => Fault f end.

Definition is_Ret {A} (r : res A) : bool :=
  match r with Ret _ => true | Fault _ => false end.

(** ** Machine integers

    An integer of the C program is a [Z]; the conversions to the C types
    are written where the code converts. *)
Definition uwrap (w : Z) (v : Z) : Z := v mod 2 ^ w.
Definition swrap (w : Z) (v : Z) : Z :=
  let m := v mod 2 ^ w in if m <? 2 ^ (w - 1) then m else m - 2 ^ w.

Abbreviation u8 := (uwrap 8).
Abbreviation u16 := (uwrap 16).
Abbreviation u32 := (uwrap 32).
Abbreviation u64 := (uwrap 64).
Abbreviation i8 := (swrap 8).
Abbreviation i16 := (swrap 16).
Abbreviation i32 := (swrap 32).
Abbreviation i64 := (swrap 64).

Definition INT8_MIN : Z := -128.
Definition INT8_MAX : Z := 127.
Definition INT16_MIN : Z := -32768.
Definition INT16_MAX : Z := 32767.
Definition INT32_MIN : Z := -2147483648.
Definition INT32_MAX : Z := 2147483647.
Definition LLONG_MIN : Z := -9223372036854775808.
Definition LLONG_MAX : Z := 9223372036854775807.
Definition ULLONG_MAX : Z := 18446744073709551615.
Definition UINT16_MAX : Z := 65535.

(** [in_s w v]: [v] is a value of the signed type of width [w];
    [in_u w v]: of the unsigned one. *)
Definition in_s (w v : Z) : Prop := - 2 ^ (w - 1) <= v < 2 ^ (w - 1).
Definition in_u (w v : Z) : Prop := 0 <= v < 2 ^ w.

Lemma uwrap_id w v : in_u w v -> uwrap w v = v.
Proof. unfold in_u, uwrap. intros. now apply Z.mod_small. Qed.

Lemma uwrap_add_r w a b : uwrap w (a + uwrap w b) = uwrap w (a + b).
Proof. unfold uwrap. apply Zplus_mod_idemp_r. Qed.

Lemma uwrap_range w v : 0 <= w -> in_u w (uwrap w v).
Proof. intros. unfold in_u, uwrap. apply Z.mod_pos_bound. lia. Qed.

Lemma pow2_pred w : 0 < w -> 2 ^ w = 2 * 2 ^ (w - 1).
Proof.
  intros. replace w with (Z.succ (w - 1)) at 1 by lia.
  rewrite Z.pow_succ_r by lia. reflexivity.
Qed.

Lemma swrap_range w v : 0 < w -> in_s w (swrap w v).
Proof.
  intros. unfold in_s, swrap. pose proof (pow2_pred w H).
  assert (0 < 2 ^ (w - 1)) by (apply Z.pow_pos_nonneg; lia).
  pose proof (Z.mod_pos_bound v (2 ^ w)).
  destruct (Z.ltb_spec (v mod 2 ^ w) (2 ^ (w - 1))); lia.
Qed.

Lemma swrap_id w v : 0 < w -> in_s w v -> swrap w v = v.
Proof.
  intros Hw Hv. unfold in_s, swrap in *. pose proof (pow2_pred w Hw).
  assert (0 < 2 ^ (w - 1)) by (apply Z.pow_pos_nonneg; lia).
  destruct (Z.lt_ge_cases v 0).
  - replace (v mod 2 ^ w) with (v + 2 ^ w).
    + destruct (Z.ltb_spec (v + 2 ^ w) (2 ^ (w - 1))); lia.
    + apply Z.mod_unique_pos with (-1); lia.
  - rewrite Z.mod_small by lia.
    destruct (Z.ltb_spec v (2 ^ (w - 1))); lia.
Qed.

Lemma in_s_weaken w w' v : 0 < w <= w' -> in_s w v -> in_s w' v.
Proof.
  intros Hw. unfold in_s. assert (2 ^ (w - 1) <= 2 ^ (w' - 1)) by (apply Z.pow_le_mono_r; lia). lia.
Qed.

Lemma swrap_uwrap w v : 0 < w -> swrap w (uwrap w v) = swrap w v.
Proof.
  intros. unfold swrap, uwrap. rewrite Z.mod_mod; [done|].
  apply Z.pow_nonzero; lia.
Qed.

Lemma uwrap_swrap w v : 0 < w -> uwrap w (swrap w v) = uwrap w v.
Proof.
  intros. unfold swrap, uwrap.
  assert (2 ^ w <> 0) by (apply Z.pow_nonzero; lia).
  destruct (_ <? _).
  - now apply Z.mod_mod.
  - rewrite Zminus_mod, Z_mod_same_full, Z.sub_0_r, !Z.mod_mod by done. done.
Qed.

Create HintDb redis.
Create Rewrite HintDb redis.

(** ** Bytes

    A byte is a [Z] between 0 and 255, a memory block a list of bytes. *)
Definition byte_ok (b : Z) : Prop := 0 <= b < 256.
Definition bytes_ok (bs : list Z) : Prop := Forall byte_ok bs.

(** The bytes of a C string literal. *)
Definition bytes_of_string (s : String.string) : list Z :=
  map (fun a => Z.of_N (Ascii.N_of_ascii a)) (String.list_ascii_of_string s).
Arguments bytes_of_string _%_string_scope.

(** Little-endian image of an integer, and back. *)
Fixpoint le_bytes (n : nat) (v : Z) : list Z :=
  match n with
  | O => []
  | S n => v mod 256 :: le_bytes n (v / 256)
  end.

Fixpoint le_value (bs : list Z) : Z :=
  match bs with
  | [] => 0
  | b :: bs => b + 256 * le_value bs
  end.

Lemma length_le_bytes n v : length (le_bytes n v) = n.
Proof. revert v; induction n; intros; simpl; auto. Qed.

Lemma le_bytes_ok n v : bytes_ok (le_bytes n v).
Proof.
  revert v; induction n as [|n IH]; intros; simpl; constructor; [|apply IH].
  apply Z.mod_pos_bound. lia.
Qed.

Lemma pow256_S n : 2 ^ (8 * Z.of_nat (S n)) = 256 * 2 ^ (8 * Z.of_nat n).
Proof.
  replace (8 * Z.of_nat (S n)) with (8 + 8 * Z.of_nat n) by lia.
  rewrite Z.pow_add_r by lia. reflexivity.
Qed.

Lemma le_value_bytes n v : le_value (le_bytes n v) = uwrap (8 * Z.of_nat n) v.
Proof.
  unfold uwrap. revert v; induction n as [|n IH]; intros v.
  - now rewrite Z.mod_1_r.
  - rewrite pow256_S. cbn [le_bytes le_value]. rewrite IH.
    assert (0 < 2 ^ (8 * Z.of_nat n)) by (apply Z.pow_pos_nonneg; lia).
    rewrite Z.rem_mul_r by lia. lia.
Qed.

Lemma le_value_range bs : bytes_ok bs -> 0 <= le_value bs < 2 ^ (8 * Z.of_nat (length bs)).
Proof.
  induction 1 as [|b bs Hb _ IH]; [simpl; lia|].
  change (length (b :: bs)) with (S (length bs)).
  rewrite pow256_S. unfold byte_ok in Hb. cbn [le_value]. lia.
Qed.

Lemma le_bytes_value bs : bytes_ok bs -> le_bytes (length bs) (le_value bs) = bs.
Proof.
  induction 1 as [|b bs Hb _ IH]; [done|]. unfold byte_ok in Hb.
  cbn [le_value le_bytes length]. f_equal.
  - rewrite Z.mul_comm, Z.mod_add by lia. now apply Z.mod_small.
  - rewrite (Z.mul_comm 256), Z.div_add by lia. rewrite Z.div_small by lia.
    now rewrite Z.add_0_l.
Qed.

Lemma le_bytes_uwrap n v : le_bytes n (uwrap (8 * Z.of_nat n) v) = le_bytes n v.
Proof.
  rewrite <- le_value_bytes, <- (length_le_bytes n v) at 1.
  apply le_bytes_value, le_bytes_ok.
Qed.

Lemma le_bytes_swrap n v :
  (0 < n)%nat -> le_bytes n (swrap (8 * Z.of_nat n) v) = le_bytes n v.
Proof.
  intros. rewrite <- le_bytes_uwrap, uwrap_swrap by lia. apply le_bytes_uwrap.
Qed.

(** ** Memory blocks *)

(** [rd m i]: the byte at offset [i]. *)
Definition rd (m : list Z) (i : Z) : res Z :=
  if i <? 0 then Fault OutOfBounds else of_opt OutOfBounds (m !! Z.to_nat i).

(** [wr m i b]: store the byte [b] at offset [i]. *)
Definition wr (m : list Z) (i b : Z) : res (list Z) :=
  if (i <? 0) || (Z.of_nat (length m) <=? i) then Fault OutOfBounds
  else Ret (<[Z.to_nat i := b]> m).

Lemma wr_at pre x post b i : i = Z.of_nat (length pre) ->
  wr (pre ++ x :: post) i b = Ret (pre ++ b :: post).
Proof.
  intros ->. unfold wr. rewrite length_app; cbn [length].
  destruct (Z.ltb_spec (Z.of_nat (length pre)) 0); [lia|].
  destruct (Z.leb_spec (Z.of_nat (length pre + S (length post))) (Z.of_nat (length pre))); [lia|].
  cbn. rewrite Nat2Z.id, insert_app_r_alt, Nat.sub_diag by lia. done.
Qed.

Lemma rd_at pre x post i : i = Z.of_nat (length pre) -> rd (pre ++ x :: post) i = Ret x.
Proof.
  intros ->. unfold rd. destruct (Z.ltb_spec (Z.of_nat (length pre)) 0); [lia|].
  rewrite Nat2Z.id, lookup_app_r, Nat.sub_diag by lia. done.
Qed.

Definition slice (m : list Z) (off len : nat) : list Z := take len (drop off m).

(** [blit m off bs] overwrites [length bs] bytes of [m] from offset [off]
    (memcpy with a destination inside [m]); total, the guard is in [wr]. *)
Definition blit (m : list Z) (off : nat) (bs : list Z) : list Z :=
  take off m ++ bs ++ drop (off + length bs) m.

Lemma length_blit m off bs :
  (off + length bs <= length m)%nat -> length (blit m off bs) = length m.
Proof. intros. unfold blit. rewrite !length_app, length_take, length_drop. lia. Qed.

Lemma length_slice m off len :
  (off + len <= length m)%nat -> length (slice m off len) = len.
Proof. intros. unfold slice. rewrite length_take, length_drop. lia. Qed.

Lemma slice_blit_same m off bs :
  (off + length bs <= length m)%nat -> slice (blit m off bs) off (length bs) = bs.
Proof.
  intros. unfold slice, blit.
  rewrite drop_app_ge by (rewrite length_take; lia).
  rewrite length_take, Nat.min_l, Nat.sub_diag, drop_0 by lia.
  rewrite take_app_le by lia. apply take_ge. lia.
Qed.

Lemma slice_blit_before m off bs o n :
  (off + length bs <= length m)%nat -> (o + n <= off)%nat ->
  slice (blit m off bs) o n = slice m o n.
Proof.
  intros. unfold slice, blit.
  rewrite drop_app_le by (rewrite length_take; lia).
  rewrite take_app_le by (rewrite length_drop, length_take; lia).
  rewrite skipn_firstn_comm, take_take. f_equal. lia.
Qed.

Lemma slice_blit_after m off bs o n :
  (off + length bs <= length m)%nat -> (off + length bs <= o)%nat ->
  slice (blit m off bs) o n = slice m o n.
Proof.
  intros. unfold slice, blit.
  rewrite drop_app_ge by (rewrite length_take; lia).
  rewrite length_take, Nat.min_l by lia.
  rewrite drop_app_ge by lia. rewrite drop_drop. do 2 f_equal. lia.
Qed.

(** memcpy out of and into a block, and realloc: the bytes a larger block
    gains have an unspecified value, the argument [junk]. *)
Definition memread (m : list Z) (off : Z) (n : nat) : res (list Z) :=
  if (off <? 0) || (Z.of_nat (length m) <? off + Z.of_nat n) then Fault OutOfBounds
  else Ret (slice m (Z.to_nat off) n).

Definition memwrite (m : list Z) (off : Z) (bs : list Z) : res (list Z) :=
  if (off <? 0) || (Z.of_nat (length m) <? off + Z.of_nat (length bs)) then Fault OutOfBounds
  else Ret (blit m (Z.to_nat off) bs).

Definition realloc (junk : Z) (m : list Z) (n : nat) : list Z :=
  take n m ++ replicate (n - length m) junk.

Lemma length_realloc junk m n : length (realloc junk m n) = n.
Proof. unfold realloc. rewrite length_app, length_take, length_replicate. lia. Qed.

Lemma take_realloc junk m n k : (k <= n)%nat -> (k <= length m)%nat ->
  take k (realloc junk m n) = take k m.
Proof.
  intros. unfold realloc. rewrite take_app_le by (rewrite length_take; lia).
  rewrite take_take. f_equal. lia.
Qed.

Lemma memread_ok m off n : (off + n <= length m)%nat ->
  memread m (Z.of_nat off) n = Ret (slice m off n).
Proof.
  intros. unfold memread. destruct (Z.ltb_spec (Z.of_nat off) 0); [lia|].
  destruct (Z.ltb_spec (Z.of_nat (length m)) (Z.of_nat off + Z.of_nat n)); [lia|].
  cbn [orb]. now rewrite Nat2Z.id.
Qed.

Lemma memwrite_ok m off bs : (off + length bs <= length m)%nat ->
  memwrite m (Z.of_nat off) bs = Ret (blit m off bs).
Proof.
  intros. unfold memwrite. destruct (Z.ltb_spec (Z.of_nat off) 0); [lia|].
  destruct (Z.ltb_spec (Z.of_nat (length m)) (Z.of_nat off + Z.of_nat (length bs))); [lia|].
  cbn [orb]. now rewrite Nat2Z.id.
Qed.

Lemma slice_app_mid a b c : slice (a ++ b ++ c) (length a) (length b) = b.
Proof.
  unfold slice. rewrite drop_app_length, take_app_le by lia. now apply take_ge.
Qed.

Lemma blit_app_mid a b c bs : length bs = length b ->
  blit (a ++ b ++ c) (length a) bs = a ++ bs ++ c.
Proof.
  intros H. unfold blit. rewrite take_app_length. do 2 f_equal.
  rewrite H, <- drop_drop, drop_app_length, drop_app_length. done.
Qed.

Lemma take_blit_before m off bs k : (k <= off)%nat -> (off <= length m)%nat ->
  take k (blit m off bs) = take k m.
Proof.
  intros. unfold blit. rewrite take_app_le by (rewrite length_take; lia).
  rewrite take_take. f_equal. lia.
Qed.

Lemma drop_blit_at m off bs : (off <= length m)%nat ->
  drop off (blit m off bs) = bs ++ drop (off + length bs) m.
Proof.
  intros. unfold blit. rewrite drop_app_ge by (rewrite length_take; lia).
  rewrite length_take, Nat.min_l, Nat.sub_diag by lia. done.
Qed.

Lemma bytes_ok_app a b : bytes_ok (a ++ b) <-> bytes_ok a /\ bytes_ok b.
Proof. apply Forall_app. Qed.

Lemma bytes_ok_take n m : bytes_ok m -> bytes_ok (take n m).
Proof. apply Forall_take. Qed.

Lemma bytes_ok_drop n m : bytes_ok m -> bytes_ok (drop n m).
Proof. apply Forall_drop. Qed.

Lemma bytes_ok_blit m off bs : bytes_ok m -> bytes_ok bs -> bytes_ok (blit m off bs).
Proof.
  intros. unfold blit. apply bytes_ok_app. split; [by apply bytes_ok_take|].
  apply bytes_ok_app. split; [done|]. by apply bytes_ok_drop.
Qed.

(** ** Bit operations *)

Lemma testbit_ones_low n i : 0 <= n -> 0 <= i -> Z.testbit (2 ^ n - 1) i = (i <? n).
Proof.
  intros. replace (2 ^ n - 1) with (Z.ones n) by (rewrite Z.ones_equiv; lia).
  rewrite Z.testbit_ones by lia.
  destruct (Z.leb_spec 0 i); [done|lia].
Qed.

Lemma land_mask v n : 0 <= n -> Z.land v (2 ^ n - 1) = v mod 2 ^ n.
Proof.
  intros. rewrite <- Z.land_ones by done. f_equal. rewrite Z.ones_equiv. lia.
Qed.

Lemma land_255 v : Z.land v 255 = v mod 256.
Proof. apply (land_mask v 8). lia. Qed.

(** Disjoint bit fields add up. *)
Lemma lor_add n x y : 0 <= n -> 0 <= y < 2 ^ n -> Z.lor (x * 2 ^ n) y = x * 2 ^ n + y.
Proof.
  intros Hn Hy. symmetry. apply Z.add_nocarry_lor.
  rewrite <- Z.shiftl_mul_pow2 by lia. apply Z.bits_inj'. intros j Hj.
  rewrite Z.land_spec, Z.bits_0, Z.shiftl_spec by done. destruct (Z.lt_ge_cases j n).
  - rewrite Z.testbit_neg_r by lia. done.
  - rewrite <- (Z.mod_small y (2 ^ n)), Z.mod_pow2_bits_high by lia. apply andb_false_r.
Qed.

(** The three pieces of a mask operation, as arithmetic. *)
Lemma lor_mask x y n : 0 <= n -> 0 <= y < 2 ^ n ->
  Z.lor (x * 2 ^ n + y) (2 ^ n - 1) = x * 2 ^ n + (2 ^ n - 1).
Proof.
  intros Hn Hy. rewrite <- (lor_add n x y), <- Z.lor_assoc by lia.
  rewrite <- (lor_add n x (2 ^ n - 1)) by lia. f_equal. apply Z.bits_inj'. intros j Hj.
  rewrite Z.lor_spec, testbit_ones_low by done. destruct (Z.ltb_spec j n); [apply orb_true_r|].
  rewrite <- (Z.mod_small y (2 ^ n)), Z.mod_pow2_bits_high by lia. done.
Qed.

Lemma land_unmask v n : 0 <= n -> Z.land v (Z.lnot (2 ^ n - 1)) = v / 2 ^ n * 2 ^ n.
Proof.
  intros. rewrite <- Z.shiftr_div_pow2, <- Z.shiftl_mul_pow2 by done.
  apply Z.bits_inj'. intros j Hj. rewrite Z.land_spec, Z.lnot_spec, testbit_ones_low by done.
  rewrite Z.shiftl_spec by done. destruct (Z.ltb_spec j n); cbn.
  - rewrite andb_false_r, Z.testbit_neg_r by lia. done.
  - rewrite andb_true_r, Z.shiftr_spec by lia. f_equal. lia.
Qed.

(** A value fits in [w] bits when masking does not change it. *)
Lemma in_u_land w v : 0 <= w -> in_u w v <-> Z.land v (Z.ones w) = v.
Proof.
  intros Hw. rewrite Z.land_ones by done. unfold in_u.
  assert (0 < 2 ^ w) by lia. split.
  - intros. now apply Z.mod_small.
  - intros <-. apply Z.mod_pos_bound. lia.
Qed.

Lemma in_u_lor w a b : 0 <= w -> in_u w a -> in_u w b -> in_u w (Z.lor a b).
Proof.
  intros Hw. rewrite !in_u_land by done. intros. rewrite Z.land_lor_distr_l. congruence.
Qed.

Lemma in_u_lxor w a b : 0 <= w -> in_u w a -> in_u w b -> in_u w (Z.lxor a b).
Proof.
  intros Hw. rewrite !in_u_land by done. intros Ha Hb.
  rewrite <- Ha, <- Hb at 2. apply Z.bits_inj'. intros i Hi.
  rewrite !Z.land_spec, !Z.lxor_spec, !Z.land_spec. destruct (Z.testbit (Z.ones w) i);
  now rewrite ?andb_true_r, ?andb_false_r.
Qed.

Lemma in_u_land_l w a b : 0 <= w -> in_u w a -> in_u w (Z.land a b).
Proof.
  intros Hw. rewrite !in_u_land by done. intros Ha.
  rewrite <- Ha at 2. rewrite <- !Z.land_assoc. f_equal. apply Z.land_comm.
Qed.

Lemma in_u_shiftr w a n : 0 <= n -> in_u w a -> in_u w (Z.shiftr a n).
Proof.
  unfold in_u. intros. rewrite Z.shiftr_div_pow2 by done.
  assert (0 < 2 ^ n) by lia. split; [apply Z.div_pos; lia|].
  apply Z.le_lt_trans with a; [|lia]. apply Z.div_le_upper_bound; nia.
Qed.

#[export] Hint Resolve uwrap_range in_u_lor in_u_lxor in_u_land_l in_u_shiftr : redis.

(** ** Automation *)
#[export] Hint Resolve le_bytes_ok bytes_ok_take bytes_ok_drop bytes_ok_blit
  length_le_bytes : redis.
#[export] Hint Rewrite length_le_bytes @length_app @length_take @length_drop
  @length_replicate @length_insert : redis.

(** Length goals over lists. *)
Ltac len := autorewrite with redis; simpl; try lia.

(** Case analysis on the integer comparison that the goal is stuck on. *)
Ltac zcase :=
  match goal with
  | |- context [?a <? ?b] => destruct (Z.ltb_spec a b)
  | |- context [?a <=? ?b] => destruct (Z.leb_spec a b)
  | |- context [?a =? ?b] => destruct (Z.eqb_spec a b)
  | |- context [?a >? ?b] => rewrite (Z.gtb_ltb a b); destruct (Z.ltb_spec b a)
  | |- context [?a >=? ?b] => rewrite (Z.geb_leb a b); destruct (Z.leb_spec b a)
  end.

(** The same, on the outermost conditional of the goal. *)
Ltac zif :=
  match goal with
  | |- context [if ?c then _ else _] =>
    match c with
    | ?a <? ?b => destruct (Z.ltb_spec a b)
    | ?a <=? ?b => destruct (Z.leb_spec a b)
    | ?a =? ?b => destruct (Z.eqb_spec a b)
    end
  end.
