(* ===== verification/Endian.v ===== *)
(** * Endian: byte order conversion (redis/src/endianconv.c)

    [memrev16], [memrev32] and [memrev64] swap bytes of a memory block in
    place, one exchange through a temporary at a time; [intrev16],
    [intrev32] and [intrev64] apply them to the in-memory image of an
    integer.  The image is the little-endian one: the model is that of a
    little-endian host, where the [...ifbe] macros of endianconv.h are the
    identity. *)

From S2P Require Import Prelude.

(** [t = x[i]; x[i] = x[j]; x[j] = t;] *)
Definition exchange (i j : nat) (x : list Z) : list Z :=
  match x !! i, x !! j with
  | Some t, Some u => <[j := t]> (<[i := u]> x)
  | _, _ => x
  end.

Definition memrev16 (x : list Z) : list Z := exchange 0 1 x.

Definition memrev32 (x : list Z) : list Z := exchange 1 2 (exchange 0 3 x).

Definition memrev64 (x : list Z) : list Z :=
  exchange 3 4 (exchange 2 5 (exchange 1 6 (exchange 0 7 x))).

Definition intrev16 (v : Z) : Z := le_value (memrev16 (le_bytes 2 v)).
Definition intrev32 (v : Z) : Z := le_value (memrev32 (le_bytes 4 v)).
Definition intrev64 (v : Z) : Z := le_value (memrev64 (le_bytes 8 v)).

Lemma intrev_involutive n (m : list Z -> list Z) v :
  (forall x, length x = n -> m x = rev x) ->
  in_u (8 * Z.of_nat n) v ->
  let f w := le_value (m (le_bytes n w)) in f (f v) = v.
Proof.
  intros Hm Hv. cbv beta zeta. rewrite !Hm by len.
  assert (length (rev (le_bytes n v)) = n) as Hl by (rewrite length_rev; len).
  rewrite <- Hl at 1. rewrite le_bytes_value.
  - rewrite rev_involutive, le_value_bytes. now apply uwrap_id.
  - apply Forall_rev, le_bytes_ok.
Qed.

Lemma memrev64_rev x t : length x = 8%nat -> memrev64 (x ++ t) = rev x ++ t.
Proof.
  intros. do 8 (destruct x as [|? x]; [discriminate|]).
  destruct x; [reflexivity|discriminate].
Qed.
Lemma memrev32_rev x t : length x = 4%nat -> memrev32 (x ++ t) = rev x ++ t.
Proof.
  intros. do 4 (destruct x as [|? x]; [discriminate|]).
  destruct x; [reflexivity|discriminate].
Qed.
Lemma memrev16_rev x t : length x = 2%nat -> memrev16 (x ++ t) = rev x ++ t.
Proof.
  intros. do 2 (destruct x as [|? x]; [discriminate|]).
  destruct x; [reflexivity|discriminate].
Qed.

(** the exchanges reverse exactly the first 2, 4 or 8 bytes and leave the
    rest of the block alone, and reversing an integer twice gives it back. *)
Theorem endian_reversal :
  (forall x t, length x = 2%nat -> memrev16 (x ++ t) = rev x ++ t) /\
  (forall x t, length x = 4%nat -> memrev32 (x ++ t) = rev x ++ t) /\
  (forall x t, length x = 8%nat -> memrev64 (x ++ t) = rev x ++ t) /\
  (forall v, in_u 16 v -> intrev16 (intrev16 v) = v) /\
  (forall v, in_u 32 v -> intrev32 (intrev32 v) = v) /\
  (forall v, in_u 64 v -> intrev64 (intrev64 v) = v).
Proof.
  split; [exact memrev16_rev|]. split; [exact memrev32_rev|].
  split; [exact memrev64_rev|].
  split; [|split]; intros v Hv.
  - apply (intrev_involutive 2); [|exact Hv]. intros x Hx.
    rewrite <- (app_nil_r x), memrev16_rev, !app_nil_r by done. done.
  - apply (intrev_involutive 4); [|exact Hv]. intros x Hx.
    rewrite <- (app_nil_r x), memrev32_rev, !app_nil_r by done. done.
  - apply (intrev_involutive 8); [|exact Hv]. intros x Hx.
    rewrite <- (app_nil_r x), memrev64_rev, !app_nil_r by done. done.
Qed.
