(* ===== verification/Util.v ===== *)
(** * Util: numbers and strings (redis/src/util.c)

    The decimal conversions every other component relies on: [digits10],
    [ll2string], [string2ll], [string2l], and the memory amounts of the
    configuration file, [memtoll].  A C string argument with its length is
    the list of its bytes. *)

From S2P Require Import Prelude.

(** ** The code *)

Definition isdigit (c : Z) : bool := (48 <=? c) && (c <=? 57).

Fixpoint digits10_rec (fuel : nat) (v : Z) : Z :=
  match fuel with
  | O => 0
  | S fuel =>
    if v <? 10 then 1
    else if v <? 100 then 2
    else if v <? 1000 then 3
    else if v <? 1000000000000 then
      if v <? 100000000 then
        if v <? 1000000 then
          if v <? 10000 then 4
          else 5 + Z.b2z (100000 <=? v)
        else 7 + Z.b2z (10000000 <=? v)
      else if v <? 10000000000 then 9 + Z.b2z (1000000000 <=? v)
      else 11 + Z.b2z (100000000000 <=? v)
    else 12 + digits10_rec fuel (v / 1000000000000)
  end.

(** Two activations are enough for a 64 bit value. *)
Definition digits10 (v : Z) : Z := digits10_rec 2 v.

(** [(uint64_t) LLONG_MAX) + 1] or [-v]: the magnitude of a negative value. *)
Definition magnitude (v : Z) : Z :=
  if negb (v =? LLONG_MIN) then u64 (- v) else u64 (LLONG_MAX + 1).

Definition sdigits10 (v : Z) : Z :=
  if v <? 0 then u32 (digits10 (magnitude v) + 1) else digits10 v.

Definition digits : list Z := bytes_of_string
  "00010203040506070809101112131415161718192021222324252627282930313233343536373839404142434445464748495051525354555657585960616263646566676869707172737475767778798081828384858687888990919293949596979899".

(** [while (value >= 100)]: two digits per turn, from the right. *)
Fixpoint ll2string_loop (fuel : nat) (dst : list Z) (next value : Z)
  : res (list Z * Z * Z) :=
  match fuel with
  | O => Fault OutOfFuel
  | S fuel =>
    if 100 <=? value then
      let i := (value mod 100) * 2 in
      let value := value / 100 in
      d1 ← rd digits (i + 1);
      dst ← wr dst next d1;
      d0 ← rd digits i;
      dst ← wr dst (u32 (next - 1)) d0;
      ll2string_loop fuel dst (u32 (next - 2)) value
    else Ret (dst, next, value)
  end.

(** "Handle last 1-2 digits." *)
Definition ll2string_last (dst : list Z) (next value : Z) : res (list Z) :=
  if value <? 10 then wr dst next (48 + value)
  else
    let i := value * 2 in
    d1 ← rd digits (i + 1);
    dst ← wr dst next d1;
    d0 ← rd digits i;
    wr dst (u32 (next - 1)) d0.

(** Ten turns are enough for a 64 bit value. *)
Definition ll2string (dst : list Z) (dstlen svalue : Z) : res (Z * list Z) :=
  let negative := svalue <? 0 in
  let value := if negative then magnitude svalue else svalue in
  let length := u32 (digits10 value + Z.b2z negative) in
  if dstlen <=? length then Ret (0, dst)
  else
    let next := length in
    dst ← wr dst next 0;
    let next := u32 (next - 1) in
    '(dst, next, value) ← ll2string_loop 10 dst next value;
    dst ← ll2string_last dst next value;
    dst ← (if negative then wr dst 0 45 else Ret dst);
    Ret (length, dst).

(** The digit loop of string2ll: [None] is the overflow [return 0];
    otherwise the value and the bytes not consumed. *)
Fixpoint string2ll_loop (p : list Z) (v : Z) : option (Z * list Z) :=
  match p with
  | c :: p' =>
    if isdigit c then
      if ULLONG_MAX / 10 <? v then None
      else
        let v := u64 (v * 10) in
        if ULLONG_MAX - (c - 48) <? v then None
        else string2ll_loop p' (u64 (v + (c - 48)))
    else Some (v, p)
  | [] => Some (v, [])
  end.

(** [Some v]: returned 1 and stored [v]; [None]: returned 0. *)
Definition string2ll (s : list Z) : option Z :=
  match s with
  | [] => None
  | c :: rest =>
    if (Nat.eqb (length s) 1) && (c =? 48) then Some 0
    else
      let negative := c =? 45 in
      let p := if negative then rest else s in
      match p with
      | [] => None
      | d :: p' =>
        if (49 <=? d) && (d <=? 57) then
          match string2ll_loop p' (d - 48) with
          | None => None
          | Some (v, unused) =>
            match unused with
            | _ :: _ => None
            | [] =>
              if negative then
                if u64 (- (LLONG_MIN + 1)) + 1 <? v then None
                else Some (i64 (u64 (- v)))
              else if LLONG_MAX <? v then None
              else Some v
            end
          end
        else if (d =? 48) && Nat.eqb (length s) 1 then Some 0
        else None
      end
  end.

(** [long] is 64 bits wide. *)
Definition LONG_MIN : Z := LLONG_MIN.
Definition LONG_MAX : Z := LLONG_MAX.

Definition string2l (s : list Z) : option Z :=
  match string2ll s with
  | None => None
  | Some llval =>
    if (llval <? LONG_MIN) || (LONG_MAX <? llval) then None
    else Some (i64 llval)
  end.

(** *** memtoll *)

Definition tolower (c : Z) : Z := if (65 <=? c) && (c <=? 90) then c + 32 else c.

Definition strcasecmp_eq (a b : list Z) : bool :=
  bool_decide (map tolower a = map tolower b).

(** The longest prefix of digits, and the rest. *)
Fixpoint span_digits (p : list Z) : list Z * list Z :=
  match p with
  | c :: p' => if isdigit c then let '(d, u) := span_digits p' in (c :: d, u)
               else ([], p)
  | [] => ([], [])
  end.

Definition digits_value (ds : list Z) : Z :=
  fold_left (fun a c => a * 10 + (c - 48)) ds 0.

(** Skip a leading minus sign. *)
Definition split_minus (p : list Z) : bool * list Z :=
  match p with
  | c :: q => if c =? 45 then (true, q) else (false, p)
  | [] => (false, p)
  end.

(** strtoll(buf,&endptr,10) on a buffer that is an optional minus and
    digits: the value, saturated, and the bytes from endptr on.  Without a
    digit nothing is converted and endptr is buf. *)
Definition strtoll10 (buf : list Z) : Z * list Z :=
  let '(neg, ds) := split_minus buf in
  match ds with
  | [] => (0, buf)
  | _ =>
    let v := if neg then - digits_value ds else digits_value ds in
    (Z.max LLONG_MIN (Z.min LLONG_MAX v), [])
  end.

Definition unit_of (u : list Z) : option Z :=
  if bool_decide (u = []) || strcasecmp_eq u (bytes_of_string "b") then Some 1
  else if strcasecmp_eq u (bytes_of_string "k") then Some 1000
  else if strcasecmp_eq u (bytes_of_string "kb") then Some 1024
  else if strcasecmp_eq u (bytes_of_string "m") then Some (1000 * 1000)
  else if strcasecmp_eq u (bytes_of_string "mb") then Some (1024 * 1024)
  else if strcasecmp_eq u (bytes_of_string "g") then Some (1000 * 1000 * 1000)
  else if strcasecmp_eq u (bytes_of_string "gb") then Some (1024 * 1024 * 1024)
  else None.

(** The returned value and [*err]. *)
Definition memtoll (p : list Z) : Z * bool :=
  let '(minus, q) := split_minus p in
  let '(ds, u) := span_digits q in
  match unit_of u with
  | None => (0, true)
  | Some mul =>
    let buf := (if minus then [45] else []) ++ ds in
    if 128 <=? Z.of_nat (length buf) then (0, true)
    else
      let '(val, endptr) := strtoll10 buf in
      if bool_decide (endptr <> []) then (0, true)
      else (i64 (val * mul), false)
  end.

(** ** Specification: canonical decimal notation *)

Fixpoint ndec_rec (fuel : nat) (n : Z) : list Z :=
  match fuel with
  | O => []
  | S fuel => if n <? 10 then [48 + n] else ndec_rec fuel (n / 10) ++ [48 + n mod 10]
  end.

(** The decimal digits of a natural number, and of an integer. *)
Definition ndec (n : Z) : list Z := ndec_rec (S (Z.to_nat (Z.log2 n))) n.
Definition decimal (v : Z) : list Z := if v <? 0 then 45 :: ndec (- v) else ndec v.

Lemma ndec_rec_fuel f1 : forall f2 n,
  0 <= n < 2 ^ Z.of_nat f1 -> n < 2 ^ Z.of_nat f2 -> (0 < f1)%nat -> (0 < f2)%nat ->
  ndec_rec f1 n = ndec_rec f2 n.
Proof.
  induction f1 as [|f1 IH]; intros [|f2] n H1 H2 ? ?; try lia.
  cbn [ndec_rec]. destruct (Z.ltb_spec n 10); [done|].
  rewrite Nat2Z.inj_succ, Z.pow_succ_r in H1, H2 by lia.
  f_equal. apply IH.
  - split; [apply Z.div_pos; lia|apply Z.div_lt_upper_bound; lia].
  - apply Z.div_lt_upper_bound; lia.
  - destruct f1; [simpl in H1; lia|lia].
  - destruct f2; [simpl in H2; lia|lia].
Qed.

Lemma log2_fuel n : 0 <= n -> n < 2 ^ Z.of_nat (S (Z.to_nat (Z.log2 n))).
Proof.
  intros. rewrite Nat2Z.inj_succ, Z2Nat.id by apply Z.log2_nonneg.
  destruct (Z.eq_dec n 0) as [->|]; [simpl; lia|]. apply Z.log2_spec. lia.
Qed.

Lemma ndec_eq n : 0 <= n ->
  ndec n = if n <? 10 then [48 + n] else ndec (n / 10) ++ [48 + n mod 10].
Proof.
  intros. unfold ndec at 1. cbn [ndec_rec]. destruct (Z.ltb_spec n 10); [done|].
  f_equal. assert (0 <= n / 10) by (apply Z.div_pos; lia).
  assert (0 < Z.to_nat (Z.log2 n))%nat.
  { assert (Z.log2 8 <= Z.log2 n) as Hl by (apply Z.log2_le_mono; lia).
    change (Z.log2 8) with 3 in Hl. lia. }
  apply ndec_rec_fuel; [split; [done|] | apply log2_fuel; lia | done | lia].
  pose proof (log2_fuel n ltac:(lia)) as Hn.
  rewrite Nat2Z.inj_succ, Z.pow_succ_r in Hn by lia.
  apply Z.div_lt_upper_bound; lia.
Qed.

Lemma nat_ind10 (P : Z -> Prop) :
  (forall n, 0 <= n < 10 -> P n) ->
  (forall n, 10 <= n -> P (n / 10) -> P n) -> forall n, 0 <= n -> P n.
Proof.
  intros H0 HS.
  apply (Zlt_0_ind P). intros n IH Hn.
  destruct (Z.lt_ge_cases n 10); [apply H0; lia|].
  apply HS; [lia|]. apply IH. split; [apply Z.div_pos; lia|].
  apply Z.div_lt_upper_bound; lia.
Qed.

Lemma isdigit_iff c : isdigit c = true <-> 48 <= c <= 57.
Proof. unfold isdigit. lia. Qed.

Lemma digits_value_snoc ds c : digits_value (ds ++ [c]) = digits_value ds * 10 + (c - 48).
Proof. unfold digits_value. now rewrite fold_left_app. Qed.

Lemma ndec_spec n : 0 <= n ->
  digits_value (ndec n) = n /\ Forall (fun c => isdigit c = true) (ndec n).
Proof.
  revert n. apply nat_ind10.
  - intros n Hn. rewrite ndec_eq by lia. destruct (Z.ltb_spec n 10); [|lia].
    unfold digits_value; cbn. split; [lia|].
    constructor; [apply isdigit_iff; lia|constructor].
  - intros n Hn [IH1 IH2]. rewrite ndec_eq by lia. destruct (Z.ltb_spec n 10); [lia|].
    rewrite digits_value_snoc, IH1. pose proof (Z.mod_pos_bound n 10).
    pose proof (Z.div_mod n 10). split; [lia|].
    apply Forall_app. split; [done|]. constructor; [apply isdigit_iff; lia|constructor].
Qed.

Lemma ndec_head n : 0 < n -> exists d t, ndec n = d :: t /\ 49 <= d <= 57.
Proof.
  intros Hn. assert (0 <= n) as Hn' by lia. revert n Hn' Hn.
  apply (nat_ind10 (fun n => 0 < n -> exists d t, ndec n = d :: t /\ 49 <= d <= 57)).
  - intros n H Hp. rewrite ndec_eq by lia. destruct (Z.ltb_spec n 10); [|lia].
    exists (48 + n), []. split; [done|lia].
  - intros n H IH _. rewrite ndec_eq by lia. destruct (Z.ltb_spec n 10); [lia|].
    destruct IH as (d & t & -> & Hd); [apply Z.div_str_pos; lia|]. eauto.
Qed.

Lemma ndec_digits_value d t :
  49 <= d <= 57 -> Forall (fun c => isdigit c = true) t ->
  0 < digits_value (d :: t) /\ ndec (digits_value (d :: t)) = d :: t.
Proof.
  intros Hd. induction t as [|c t IH] using rev_ind; intros Ht.
  - change (digits_value [d]) with (0 * 10 + (d - 48)). split; [lia|].
    rewrite ndec_eq by lia. destruct (Z.ltb_spec (0 * 10 + (d - 48)) 10); [|lia].
    f_equal. lia.
  - apply Forall_app in Ht as [Ht Hc]. apply Forall_inv, isdigit_iff in Hc.
    destruct (IH Ht) as [Hpos Heq]. rewrite app_comm_cons, digits_value_snoc.
    split; [lia|]. rewrite ndec_eq by lia.
    set (w := digits_value (d :: t)) in *.
    destruct (Z.ltb_spec (w * 10 + (c - 48)) 10); [lia|].
    replace ((w * 10 + (c - 48)) / 10) with w by (apply Z.div_unique with (c - 48); lia).
    replace ((w * 10 + (c - 48)) mod 10) with (c - 48)
      by (apply Z.mod_unique with w; lia).
    rewrite Heq. do 2 f_equal. lia.
Qed.

(** ** string2ll *)

(** Value of more digits after a value already read. *)
Definition digits_from (v : Z) (ds : list Z) : Z :=
  fold_left (fun a c => a * 10 + (c - 48)) ds v.

Lemma span_digits_spec p :
  let '(ds, u) := span_digits p in
  p = ds ++ u /\ Forall (fun c => isdigit c = true) ds /\
  match u with [] => True | c :: _ => isdigit c = false end.
Proof.
  induction p as [|c p IH]; [done|]. simpl. destruct (isdigit c) eqn:E.
  - destruct (span_digits p) as [ds u]. destruct IH as (-> & H1 & H2).
    repeat split; auto.
  - repeat split; auto.
Qed.

Lemma span_digits_all ds : Forall (fun c => isdigit c = true) ds ->
  span_digits ds = (ds, []).
Proof. induction 1 as [|c ds Hc _ IH]; [done|]. simpl. now rewrite Hc, IH. Qed.

Lemma span_digits_app ds u : Forall (fun c => isdigit c = true) ds ->
  match u with [] => True | c :: _ => isdigit c = false end ->
  span_digits (ds ++ u) = (ds, u).
Proof.
  intros H Hu. induction H as [|c ds Hc _ IH]; simpl.
  - destruct u; [done|]. simpl. now rewrite Hu.
  - now rewrite Hc, IH.
Qed.

Lemma digits_from_ge ds : forall v, 0 <= v ->
  Forall (fun c => isdigit c = true) ds -> v <= digits_from v ds.
Proof.
  induction ds as [|c ds IH]; intros v Hv Hds; [apply Z.le_refl|].
  inversion Hds as [|? ? Hc Hds']; subst. apply isdigit_iff in Hc.
  unfold digits_from in *. cbn [fold_left].
  specialize (IH (v * 10 + (c - 48)) ltac:(lia) Hds'). lia.
Qed.

Lemma string2ll_loop_spec p : forall v, 0 <= v <= ULLONG_MAX ->
  string2ll_loop p v =
  let '(ds, u) := span_digits p in
  if digits_from v ds <=? ULLONG_MAX then Some (digits_from v ds, u) else None.
Proof.
  induction p as [|c p IH]; intros v Hv.
  - simpl. unfold digits_from; simpl. destruct (Z.leb_spec v ULLONG_MAX); [done|lia].
  - pose proof (span_digits_spec p) as Hs. cbn [string2ll_loop span_digits].
    destruct (isdigit c) eqn:Ec.
    + apply isdigit_iff in Ec. destruct (span_digits p) as [ds u].
      destruct Hs as (_ & Hds & _).
      change (digits_from v (c :: ds)) with (digits_from (v * 10 + (c - 48)) ds).
      pose proof (digits_from_ge ds (v * 10 + (c - 48)) ltac:(lia) Hds) as Hge.
      change (ULLONG_MAX / 10) with 1844674407370955161.
      unfold uwrap. change (2 ^ 64) with (ULLONG_MAX + 1).
      unfold ULLONG_MAX in *.
      destruct (Z.ltb_spec 1844674407370955161 v).
      { destruct (Z.leb_spec (digits_from (v * 10 + (c - 48)) ds) 18446744073709551615);
          [lia|done]. }
      rewrite (Z.mod_small (v * 10)) by lia.
      destruct (Z.ltb_spec (18446744073709551615 - (c - 48)) (v * 10)).
      { destruct (Z.leb_spec (digits_from (v * 10 + (c - 48)) ds) 18446744073709551615);
          [lia|done]. }
      rewrite (Z.mod_small (v * 10 + (c - 48))) by lia. apply IH. lia.
    + unfold digits_from; simpl. destruct (Z.leb_spec v ULLONG_MAX); [done|lia].
Qed.

(** What the code computes from the first digit on, for either sign. *)
Lemma string2ll_digits d t : 49 <= d <= 57 ->
  string2ll_loop t (d - 48) =
  let '(ds, u) := span_digits t in
  if digits_value (d :: ds) <=? ULLONG_MAX then Some (digits_value (d :: ds), u) else None.
Proof.
  intros. rewrite string2ll_loop_spec by (unfold ULLONG_MAX; lia). reflexivity.
Qed.

Lemma first_digit_true d : 49 <= d <= 57 -> (49 <=? d) && (d <=? 57) = true.
Proof. lia. Qed.

Lemma i64_neg v : 0 <= v <= 2 ^ 63 -> i64 (u64 (- v)) = - v.
Proof.
  intros. rewrite swrap_uwrap by lia. apply swrap_id; [lia|]. unfold in_s.
  change (2 ^ (64 - 1)) with (2 ^ 63). lia.
Qed.

Lemma string2ll_sound s v : string2ll s = Some v -> in_s 64 v /\ s = decimal v.
Proof.
  unfold string2ll. destruct s as [|c rest]; [done|].
  destruct (_ && (c =? 48)) eqn:E0.
  { apply andb_true_iff in E0 as [El Ec]. intros [= <-]. apply Nat.eqb_eq in El.
    apply Z.eqb_eq in Ec as ->. destruct rest; [|discriminate].
    split; [unfold in_s; lia|reflexivity]. }
  set (neg := c =? 45). destruct (if neg then rest else c :: rest) as [|d p] eqn:Ep; [done|].
  destruct ((49 <=? d) && (d <=? 57)) eqn:Ed.
  - apply andb_true_iff in Ed. assert (49 <= d <= 57) as Hd by lia.
    rewrite string2ll_digits by done.
    pose proof (span_digits_spec p) as Hs. destruct (span_digits p) as [ds u].
    destruct Hs as (-> & Hds & _). destruct (ndec_digits_value d ds Hd Hds) as [Hpos Hn].
    destruct (Z.leb_spec (digits_value (d :: ds)) ULLONG_MAX); [|done].
    destruct u; [|done]. rewrite app_nil_r in Ep. unfold decimal, in_s.
    destruct neg eqn:En; unfold neg in En.
    + change (u64 (- (LLONG_MIN + 1)) + 1) with (2 ^ 63).
      destruct (Z.ltb_spec (2 ^ 63) (digits_value (d :: ds))); [done|].
      intros [= <-]. rewrite i64_neg by lia.
      destruct (Z.ltb_spec (- digits_value (d :: ds)) 0); [|lia].
      apply Z.eqb_eq in En as ->. rewrite Z.opp_involutive, Hn, Ep. split; [lia|done].
    + destruct (Z.ltb_spec LLONG_MAX (digits_value (d :: ds))); [done|].
      intros [= <-]. destruct (Z.ltb_spec (digits_value (d :: ds)) 0); [lia|].
      rewrite Hn, Ep. unfold LLONG_MAX in *. split; [lia|done].
  - destruct ((d =? 48) && _) eqn:E1; [|done]. exfalso.
    apply andb_true_iff in E1 as [Hd Hl]. apply Nat.eqb_eq in Hl.
    destruct rest; [|discriminate]. destruct neg; [discriminate|].
    injection Ep as -> _. apply Z.eqb_eq in Hd as ->. discriminate.
Qed.

Lemma string2ll_complete v : in_s 64 v -> string2ll (decimal v) = Some v.
Proof.
  unfold in_s, decimal. change (2 ^ (64 - 1)) with (2 ^ 63). intros Hv.
  destruct (Z.ltb_spec v 0) as [Hneg|Hneg].
  - destruct (ndec_head (- v) ltac:(lia)) as (d & t & Hdt & Hd).
    destruct (ndec_spec (- v) ltac:(lia)) as [Hval Hds]. rewrite Hdt in *.
    inversion Hds as [|? ? _ Ht]; subst.
    unfold string2ll. cbn -[digits_value string2ll_loop Z.leb Z.ltb LLONG_MIN LLONG_MAX uwrap swrap].
    rewrite first_digit_true, string2ll_digits, span_digits_all by done.
    rewrite Hval. destruct (Z.leb_spec (- v) ULLONG_MAX); [|unfold ULLONG_MAX in *; lia].
    change (u64 (- (LLONG_MIN + 1)) + 1) with (2 ^ 63).
    destruct (Z.ltb_spec (2 ^ 63) (- v)); [lia|].
    f_equal. rewrite i64_neg by lia. lia.
  - destruct (Z.eq_dec v 0) as [->|]; [reflexivity|].
    destruct (ndec_head v ltac:(lia)) as (d & t & Hdt & Hd).
    destruct (ndec_spec v ltac:(lia)) as [Hval Hds]. rewrite Hdt in *.
    inversion Hds as [|? ? _ Ht]; subst. unfold string2ll.
    replace (d =? 48) with false by lia. replace (d =? 45) with false by lia.
    rewrite andb_false_r, first_digit_true, string2ll_digits, span_digits_all by done.
    destruct (Z.leb_spec (digits_value (d :: t)) ULLONG_MAX); [|unfold ULLONG_MAX in *; lia].
    destruct (Z.ltb_spec LLONG_MAX (digits_value (d :: t))); [unfold LLONG_MAX in *; lia|done].
Qed.

(** string2ll succeeds exactly on the canonical decimal notation of the
    64 bit signed integers, and then stores the integer. *)
Theorem string2ll_iff s v : string2ll s = Some v <-> in_s 64 v /\ s = decimal v.
Proof.
  split; [apply string2ll_sound|]. intros [Hv ->]. now apply string2ll_complete.
Qed.

(** ** digits10 and ll2string *)

Lemma length_ndec_step v : 10 <= v -> length (ndec v) = S (length (ndec (v / 10))).
Proof.
  intros. rewrite (ndec_eq v) by lia. destruct (Z.ltb_spec v 10); [lia|].
  rewrite length_app. simpl. lia.
Qed.

Lemma length_ndec k : forall v, 10 ^ Z.of_nat k <= v < 10 ^ Z.of_nat (S k) ->
  length (ndec v) = S k.
Proof.
  induction k as [|k IH]; intros v Hv.
  - rewrite ndec_eq by (simpl in Hv; lia). destruct (Z.ltb_spec v 10); [done|].
    change (10 ^ Z.of_nat 1) with 10 in Hv. lia.
  - rewrite !Nat2Z.inj_succ, !Z.pow_succ_r in Hv by lia.
    assert (0 < 10 ^ Z.of_nat k) by (apply Z.pow_pos_nonneg; lia).
    rewrite length_ndec_step by nia. f_equal. apply IH.
    rewrite Nat2Z.inj_succ, Z.pow_succ_r by lia. split.
    + apply Z.div_le_lower_bound; lia.
    + apply Z.div_lt_upper_bound; lia.
Qed.

Lemma length_ndec_div12 v : 1000000000000 <= v ->
  length (ndec v) = (12 + length (ndec (v / 1000000000000)))%nat.
Proof.
  intros.
  replace (v / 1000000000000) with
    (v / 10 / 10 / 10 / 10 / 10 / 10 / 10 / 10 / 10 / 10 / 10 / 10)
    by (rewrite !Z.div_div by lia; reflexivity).
  do 12 (rewrite length_ndec_step by (rewrite ?Z.div_div by lia;
    try (apply Z.div_le_lower_bound; lia); lia)).
  reflexivity.
Qed.

Lemma digits10_rec_small f v : 0 <= v < 1000000000000 ->
  digits10_rec (S f) v = Z.of_nat (length (ndec v)).
Proof.
  intros. cbn [digits10_rec].
  repeat (zcase; [|]); try lia;
  first [ rewrite (ndec_eq v) by lia; zcase; [reflexivity|lia]
        | rewrite (length_ndec 1) by lia; reflexivity
        | rewrite (length_ndec 2) by lia; reflexivity
        | rewrite (length_ndec 3) by lia; reflexivity
        | rewrite (length_ndec 4) by lia; reflexivity
        | rewrite (length_ndec 5) by lia; reflexivity
        | rewrite (length_ndec 6) by lia; reflexivity
        | rewrite (length_ndec 7) by lia; reflexivity
        | rewrite (length_ndec 8) by lia; reflexivity
        | rewrite (length_ndec 9) by lia; reflexivity
        | rewrite (length_ndec 10) by lia; reflexivity
        | rewrite (length_ndec 11) by lia; reflexivity ].
Qed.

Lemma digits10_length v : in_u 64 v -> digits10 v = Z.of_nat (length (ndec v)).
Proof.
  unfold in_u. intros Hv. destruct (Z.lt_ge_cases v 1000000000000).
  { apply digits10_rec_small. lia. }
  unfold digits10. cbn [digits10_rec].
  do 3 (zcase; [lia|]). zcase; [lia|].
  assert (0 <= v / 1000000000000 < 1000000000000).
  { split; [apply Z.div_pos; lia|apply Z.div_lt_upper_bound; lia]. }
  fold (digits10_rec 1 (v / 1000000000000)).
  change (digits10_rec 1) with (digits10_rec (S 0)).
  rewrite (digits10_rec_small 0) by lia. rewrite (length_ndec_div12 v) by lia. lia.
Qed.

Lemma digits_table i : 0 <= i < 100 ->
  rd digits (i * 2) = Ret (48 + i / 10) /\ rd digits (i * 2 + 1) = Ret (48 + i mod 10).
Proof.
  intros Hi.
  assert (Forall (fun n => rd digits (Z.of_nat n * 2) = Ret (48 + Z.of_nat n / 10) /\
      rd digits (Z.of_nat n * 2 + 1) = Ret (48 + Z.of_nat n mod 10)) (seq 0 100)) as HF.
  { apply (bool_decide_unpack _). vm_compute. exact I. }
  rewrite Forall_forall in HF. specialize (HF (Z.to_nat i)).
  rewrite Z2Nat.id in HF by lia. apply HF, elem_of_seq. lia.
Qed.

Lemma ndec_two v : 10 <= v ->
  ndec v = (if v <? 100 then [] else ndec (v / 100)) ++ [48 + (v mod 100) / 10; 48 + (v mod 100) mod 10].
Proof.
  intros. rewrite ndec_eq by lia. destruct (Z.ltb_spec v 10); [lia|].
  assert (0 <= v / 10) by (apply Z.div_pos; lia).
  rewrite (ndec_eq (v / 10)) by done.
  pose proof (Z.div_mod v 10). pose proof (Z.div_mod v 100).
  pose proof (Z.mod_pos_bound v 10). pose proof (Z.mod_pos_bound v 100).
  replace ((v mod 100) mod 10) with (v mod 10) by (Z.div_mod_to_equations; lia).
  replace (v mod 100 / 10) with ((v / 10) mod 10) by (Z.div_mod_to_equations; lia).
  destruct (Z.ltb_spec v 100).
  - destruct (Z.ltb_spec (v / 10) 10); [|lia].
    rewrite (Z.mod_small (v / 10)) by lia. reflexivity.
  - destruct (Z.ltb_spec (v / 10) 10); [lia|].
    rewrite Z.div_div by lia. now rewrite <- app_assoc.
Qed.

Lemma destruct_hole (l : list Z) : (2 <= length l)%nat ->
  exists l' x y, l = l' ++ [x; y].
Proof.
  intros. destruct l as [|y l _] using rev_ind; [simpl in *; lia|].
  destruct l as [|x l _] using rev_ind; [simpl in *; lia|].
  exists l, x, y. now rewrite <- app_assoc.
Qed.

Lemma ll2string_loop_S fuel dst next value :
  ll2string_loop (S fuel) dst next value =
  if 100 <=? value then
    d1 ← rd digits (value mod 100 * 2 + 1);
    dst ← wr dst next d1;
    d0 ← rd digits (value mod 100 * 2);
    dst ← wr dst (u32 (next - 1)) d0;
    ll2string_loop fuel dst (u32 (next - 2)) (value / 100)
  else Ret (dst, next, value).
Proof. reflexivity. Qed.

(** The last one or two digits fill a hole of one or two bytes. *)
Lemma ll2string_last_fill pre hole post value next :
  0 <= value < 100 -> length hole = length (ndec value) ->
  next = Z.of_nat (length pre + length hole) - 1 -> next < 2 ^ 32 ->
  ll2string_last (pre ++ hole ++ post) next value = Ret (pre ++ ndec value ++ post).
Proof.
  intros Hv Hlen Hnext Hmax. unfold ll2string_last. destruct (Z.ltb_spec value 10).
  - rewrite ndec_eq in Hlen |- * by lia. destruct (Z.ltb_spec value 10); [|lia].
    destruct hole as [|h [|]]; try discriminate. cbn [length] in *.
    change ([h] ++ post) with (h :: post). rewrite wr_at by lia. reflexivity.
  - destruct (digits_table value) as [T0 T1]; [lia|]. rewrite T1, T0. cbn [mbind res_bind].
    rewrite ndec_two in Hlen |- * by lia. destruct (Z.ltb_spec value 100); [|lia].
    destruct hole as [|x0 [|x1 [|]]]; try discriminate. cbn [length] in *.
    rewrite (Z.mod_small value 100) by lia.
    replace (pre ++ [x0; x1] ++ post) with ((pre ++ [x0]) ++ x1 :: post)
      by (now rewrite <- app_assoc).
    rewrite wr_at by (rewrite length_app; cbn [length]; lia). cbn [mbind res_bind].
    rewrite <- app_assoc; cbn [app].
    rewrite wr_at by (rewrite uwrap_id; [lia|unfold in_u; lia]). reflexivity.
Qed.

(** Writing the digits of [value] right to left into a hole of the right
    size fills exactly the hole. *)
Lemma ll2string_fill fuel : forall pre hole post value next,
  0 <= value < 100 ^ Z.of_nat (S fuel) -> length hole = length (ndec value) ->
  next = Z.of_nat (length pre + length hole) - 1 -> next < 2 ^ 32 ->
  ('(dst, next, value) ← ll2string_loop (S fuel) (pre ++ hole ++ post) next value;
   ll2string_last dst next value) = Ret (pre ++ ndec value ++ post).
Proof.
  induction fuel as [|fuel IH]; intros pre hole post value next Hv Hlen Hnext Hmax;
    rewrite ll2string_loop_S; destruct (Z.leb_spec 100 value) as [Hbig|Hsmall];
    try (apply ll2string_last_fill; auto; lia); [cbn in Hv; lia|].
  pose proof (Z.mod_pos_bound value 100). destruct (digits_table (value mod 100)) as [T0 T1]; [lia|].
  rewrite T1, T0. cbn [mbind res_bind]. rewrite ndec_two in Hlen by lia.
  destruct (Z.ltb_spec value 100); [lia|]. rewrite length_app in Hlen; cbn [length] in Hlen.
  assert (0 < length (ndec (value / 100)))%nat as Hpos.
  { destruct (ndec_head (value / 100)) as (?&?&->&?); [apply Z.div_str_pos; lia|simpl; lia]. }
  destruct (destruct_hole hole) as (hole' & x0 & x1 & ->); [lia|].
  rewrite length_app in *; cbn [length] in *.
  replace (pre ++ (hole' ++ [x0; x1]) ++ post) with ((pre ++ hole' ++ [x0]) ++ x1 :: post)
    by (now rewrite <- !app_assoc).
  rewrite wr_at by (rewrite !length_app; cbn [length]; lia). cbn [mbind res_bind].
  replace ((pre ++ hole' ++ [x0]) ++ 48 + (value mod 100) mod 10 :: post)
    with ((pre ++ hole') ++ x0 :: (48 + (value mod 100) mod 10 :: post))
    by (now rewrite <- !app_assoc).
  rewrite wr_at by (rewrite uwrap_id; [rewrite length_app; lia|unfold in_u; lia]).
  cbn [mbind res_bind]. rewrite <- app_assoc.
  specialize (IH pre hole' (48 + value mod 100 / 10 :: 48 + (value mod 100) mod 10 :: post)
    (value / 100) (u32 (next - 2))).
  rewrite uwrap_id in * by (unfold in_u; lia).
  cbn [mbind res_bind] in IH. rewrite IH; try lia.
  - rewrite (ndec_two value) by lia. destruct (Z.ltb_spec value 100); [lia|].
    now rewrite <- !app_assoc.
  - rewrite Nat2Z.inj_succ, Z.pow_succ_r in Hv by lia.
    split; [apply Z.div_pos; lia|apply Z.div_lt_upper_bound; lia].
Qed.

Lemma magnitude_spec v : in_s 64 v -> v < 0 -> magnitude v = - v.
Proof.
  unfold in_s, magnitude. change (2 ^ (64 - 1)) with (2 ^ 63). intros.
  destruct (Z.eqb_spec v LLONG_MIN) as [->|]; [reflexivity|]. cbn [negb].
  apply uwrap_id. unfold in_u. lia.
Qed.

Lemma length_ndec_pos v : 0 <= v -> (0 < length (ndec v))%nat.
Proof.
  intros. destruct (Z.eq_dec v 0) as [->|]; [cbv; lia|].
  destruct (ndec_head v) as (?&?&->&_); simpl; lia.
Qed.

Lemma length_ndec_le20 v : in_u 64 v -> (length (ndec v) <= 20)%nat.
Proof.
  unfold in_u. intros [H0 H1]. destruct (Z.lt_ge_cases v 10) as [H|H].
  { rewrite ndec_eq by lia. zcase; [simpl; lia|lia]. }
  destruct (Nat.le_gt_cases (length (ndec v)) 20) as [|Hgt]; [done|]. exfalso.
  assert (digits10 v <= 20) as Hd.
  { unfold digits10. cbn [digits10_rec]. repeat zcase; simpl; try lia.
    all: try (assert (v / 1000000000000 < 18446745) by (apply Z.div_lt_upper_bound; lia)); lia. }
  rewrite digits10_length in Hd by (unfold in_u; lia). lia.
Qed.

(** A buffer with room for [j] bytes, [k] bytes and one more. *)
Lemma split_buffer (dst : list Z) j k : (j + k < length dst)%nat ->
  exists p0 hole x, dst = p0 ++ hole ++ x :: drop (S (j + k)) dst /\ length p0 = j /\ length hole = k.
Proof.
  intros. destruct (drop (j + k) dst) as [|x post] eqn:E.
  - apply (f_equal length) in E. rewrite length_drop in E. simpl in E. lia.
  - assert (drop (S (j + k)) dst = post) as ->.
    { replace (S (j + k)) with (j + k + 1)%nat by lia. rewrite <- drop_drop, E. done. }
    exists (take j dst), (take k (drop j dst)), x. repeat split.
    + rewrite <- E, <- drop_drop. now rewrite !take_drop.
    + rewrite length_take. lia.
    + rewrite length_take, length_drop. lia.
Qed.

(** The sign and magnitude the code works with. *)
Lemma sign_magnitude v : in_s 64 v ->
  let n := if v <? 0 then magnitude v else v in
  in_u 64 n /\ decimal v = (if v <? 0 then [45] else []) ++ ndec n.
Proof.
  unfold in_s, decimal. change (2 ^ (64 - 1)) with (2 ^ 63). intros Hv.
  destruct (Z.ltb_spec v 0); cbv zeta.
  - rewrite magnitude_spec by (unfold in_s; lia). split; [unfold in_u; lia|done].
  - split; [unfold in_u; lia|done].
Qed.

Lemma ll2string_fill64 pre hole post n next :
  in_u 64 n -> length hole = length (ndec n) -> (length pre <= 1)%nat ->
  next = Z.of_nat (length pre + length (ndec n)) ->
  ('(dst, next, value) ← ll2string_loop 10 (pre ++ hole ++ post) (u32 (next - 1)) n;
   ll2string_last dst next value) = Ret (pre ++ ndec n ++ post).
Proof.
  intros Hn Hl Hp ->. assert (0 <= n < 2 ^ 64) as Hn' by exact Hn.
  pose proof (length_ndec_le20 n Hn). pose proof (length_ndec_pos n ltac:(lia)).
  rewrite uwrap_id by (unfold in_u; lia).
  apply (ll2string_fill 9); lia.
Qed.

(** The digits are written from the end, in bounds. *)
Lemma ll2string_writes dst dstlen v :
  in_s 64 v -> 0 <= dstlen <= Z.of_nat (length dst) ->
  ll2string dst dstlen v =
  let s := decimal v in
  if dstlen <=? Z.of_nat (length s) then Ret (0, dst)
  else Ret (Z.of_nat (length s), s ++ 0 :: drop (S (length s)) dst).
Proof.
  intros Hv Hdst. destruct (sign_magnitude v Hv) as [Hn Hdec]. rewrite Hdec.
  unfold ll2string. set (n := if v <? 0 then magnitude v else v) in *.
  set (neg := v <? 0) in *. set (pre := if neg then [45] else []).
  assert (0 <= n < 2 ^ 64) as Hn' by exact Hn.
  pose proof (length_ndec_pos n ltac:(lia)) as Hpos. pose proof (length_ndec_le20 n Hn) as H20.
  rewrite digits10_length by done. cbv zeta.
  assert (Z.b2z neg = Z.of_nat (length pre)) as -> by (subst pre; now destruct neg).
  assert (length pre <= 1)%nat by (subst pre; destruct neg; simpl; lia).
  rewrite uwrap_id by (unfold in_u; lia).
  replace (Z.of_nat (length (ndec n)) + Z.of_nat (length pre))
    with (Z.of_nat (length (pre ++ ndec n))) by (rewrite length_app; lia).
  zcase; [done|]. rewrite length_app in *.
  destruct (split_buffer dst (length pre) (length (ndec n))) as (p0 & hole & x & Hd & Hp0 & Hh);
    [lia|]. rewrite Hd at 1. rewrite app_assoc, wr_at by (rewrite length_app; lia).
  cbn [mbind res_bind]. rewrite <- app_assoc.
  pose proof (ll2string_fill64 p0 hole (0 :: drop (S (length pre + length (ndec n))) dst) n
    (Z.of_nat (length pre + length (ndec n))) Hn Hh ltac:(lia) ltac:(lia)) as HF.
  destruct (ll2string_loop 10 _ _ n) as [[[d1 n1] v1]|f]; [|discriminate HF].
  cbn [mbind res_bind] in HF |- *. rewrite HF. cbn [mbind res_bind].
  subst pre. destruct neg; simpl in Hp0.
  - destruct p0 as [|y [|]]; try discriminate. reflexivity.
  - destruct p0; [|discriminate]. done.
Qed.

(** ll2string, for every 64 bit value and a buffer of at least [dstlen]
    bytes, stays in bounds and either refuses (0, nothing written) because
    the notation and its terminator do not fit, or writes exactly the
    canonical decimal notation followed by NUL and returns its length. *)
Theorem ll2string_decimal dst dstlen v :
  in_s 64 v -> 0 <= dstlen <= Z.of_nat (length dst) ->
  ll2string dst dstlen v =
  let s := decimal v in
  if dstlen <=? Z.of_nat (length s) then Ret (0, dst)
  else Ret (Z.of_nat (length s), s ++ 0 :: drop (S (length s)) dst).
Proof. apply ll2string_writes. Qed.

Lemma ll2string_decimal_witness :
  ll2string (replicate 4 1) 4 (-42) = Ret (3, [45; 52; 50; 0]) /\
  ll2string (replicate 4 1) 3 (-42) = Ret (0, replicate 4 1).
Proof.
  split.
  - rewrite (ll2string_decimal (replicate 4 1) 4 (-42));
      [reflexivity | unfold in_s; lia | simpl; lia].
  - rewrite (ll2string_decimal (replicate 4 1) 3 (-42));
      [reflexivity | unfold in_s; lia | simpl; lia].
Defined.

(** The bytes ll2string writes are read back by string2ll as the number. *)
Theorem ll2string_string2ll dst v :
  in_s 64 v -> (21 < length dst)%nat ->
  exists n dst', ll2string dst (Z.of_nat (length dst)) v = Ret (n, dst') /\
    length dst' = length dst /\ string2ll (take (Z.to_nat n) dst') = Some v.
Proof.
  intros Hv Hl. rewrite ll2string_writes by (done || lia). cbv zeta.
  destruct (sign_magnitude v Hv) as [Hn Hdec].
  assert (length (decimal v) <= 21)%nat as H21.
  { rewrite Hdec, length_app. pose proof (length_ndec_le20 _ Hn).
    destruct (v <? 0); simpl in *; lia. }
  zcase; [lia|]. eexists _, _. split; [done|]. rewrite Nat2Z.id. split.
  - rewrite length_app. cbn [length]. rewrite length_drop. lia.
  - rewrite take_app_length. now apply string2ll_complete.
Qed.

Lemma ll2string_string2ll_witness :
  exists n dst', ll2string (replicate 24 0) (Z.of_nat (length (replicate 24 0))) LLONG_MIN = Ret (n, dst') /\
    length dst' = length (replicate 24 0) /\ string2ll (take (Z.to_nat n) dst') = Some LLONG_MIN.
Proof.
  apply (ll2string_string2ll (replicate 24 0) LLONG_MIN);
    [unfold in_s, LLONG_MIN; lia | simpl; lia].
Defined.

(** ** memtoll *)

(** On digits followed by a unit, memtoll returns the amount times the
    unit, the amount saturated as strtoll does and the product a 64 bit
    one, and reports no error; on a suffix that is no unit it reports an
    error. *)
Theorem memtoll_spec (n : Z) (u : list Z) :
  0 <= n -> (length (ndec n) < 128)%nat ->
  match u with [] => True | c :: _ => isdigit c = false end ->
  memtoll (ndec n ++ u) =
  match unit_of u with
  | None => (0, true)
  | Some mul => (i64 (Z.min LLONG_MAX n * mul), false)
  end.
Proof.
  intros Hn Hlen Hu. destruct (ndec_spec n Hn) as [Hval Hds].
  assert (exists d t, ndec n = d :: t /\ isdigit d = true) as (d & t & Hdt & Hd).
  { pose proof (length_ndec_pos n Hn). destruct (ndec n) as [|d t]; [simpl in *; lia|].
    inversion Hds. eauto. }
  apply isdigit_iff in Hd. unfold memtoll, strtoll10.
  assert (forall w, split_minus (ndec n ++ w) = (false, ndec n ++ w)) as Hm.
  { intros w. rewrite Hdt. simpl. zcase; [lia|done]. }
  rewrite Hm, (span_digits_app _ _ Hds Hu).
  destruct (unit_of u) as [mul|]; [|done]. cbn [app]. zcase; [lia|].
  specialize (Hm []). rewrite app_nil_r in Hm. rewrite Hm, Hval, Hdt.
  cbn [bool_decide]. do 2 f_equal. unfold LLONG_MIN, LLONG_MAX. lia.
Qed.

Lemma memtoll_spec_witness :
  memtoll (bytes_of_string "100mb") = (104857600, false) /\
  memtoll (bytes_of_string "5x") = (0, true).
Proof.
  split.
  - apply (memtoll_spec 100 (bytes_of_string "mb")); [lia | vm_compute; lia | done].
  - apply (memtoll_spec 5 (bytes_of_string "x")); [lia | vm_compute; lia | done].
Defined.

(** An amount that does not fit in 64 bits is not reported: the product
    wraps around. *)
Example memtoll_wraps :
  memtoll (bytes_of_string "9223372036854775807gb") = (-1073741824, false).
Proof. vm_compute. reflexivity. Qed.
