(* ===== verification/Glob.v ===== *)
(** * Glob: glob-style matching (redis/src/util.c, stringmatchlen)

    The pattern and the string are NUL-terminated buffers; a pointer into
    one is an offset, a length is the C [int] the code decrements (it may
    become negative, as in the code).  A read past the terminator is the
    fault [OutOfBounds].  [char] is signed. *)

From S2P Require Import Prelude Util.

(** ** The code *)

(** The [char] at offset [i] of a NUL-terminated buffer. *)
Definition chr (m : list Z) (i : Z) : res Z :=
  if i =? Z.of_nat (length m) then Ret 0 else b ← rd m i; Ret (i8 b).

Definition char_eq (nocase : bool) (a b : Z) : bool :=
  if nocase then tolower a =? tolower b else a =? b.

(** while (pattern[1] == '*') \{ pattern++; patternLen--; \} *)
Fixpoint skip_stars (fuel : nat) (pat : list Z) (p plen : Z) : res (Z * Z) :=
  match fuel with
  | O => Fault OutOfFuel
  | S fuel =>
    c ← chr pat (p + 1);
    if c =? 42 then skip_stars fuel pat (p + 1) (plen - 1) else Ret (p, plen)
  end.

(** The trailing loop of an exhausted string: skip the pattern's stars. *)
Fixpoint trailing_stars (fuel : nat) (pat : list Z) (p plen : Z) : res (Z * Z) :=
  match fuel with
  | O => Fault OutOfFuel
  | S fuel =>
    c ← chr pat p;
    if c =? 42 then trailing_stars fuel pat (p + 1) (plen - 1) else Ret (p, plen)
  end.

(** The loop over the members of a bracket expression: the final pattern
    pointer and length, and whether the character was matched. *)
Fixpoint bracket (fuel : nat) (pat : list Z) (p plen : Z) (str : list Z) (s : Z)
    (nocase : bool) (found : bool) : res (Z * Z * bool) :=
  match fuel with
  | O => Fault OutOfFuel
  | S fuel =>
    c ← chr pat p;
    if c =? 92 then
      let p := p + 1 in
      let plen := plen - 1 in
      c ← chr pat p;
      sc ← chr str s;
      bracket fuel pat (p + 1) (plen - 1) str s nocase (if c =? sc then true else found)
    else if c =? 93 then Ret (p, plen, found)
    else if plen =? 0 then Ret (p - 1, plen + 1, found)
    else
      c1 ← chr pat (p + 1);
      if (c1 =? 45) && (3 <=? plen) then
        c2 ← chr pat (p + 2);
        sc ← chr str s;
        let '(start, stop) := if c2 <? c then (c2, c) else (c, c2) in
        let '(start, stop, ch) :=
          if nocase then (tolower start, tolower stop, tolower sc)
          else (start, stop, sc) in
        let p := p + 2 in
        let plen := plen - 2 in
        bracket fuel pat (p + 1) (plen - 1) str s nocase
          (if (start <=? ch) && (ch <=? stop) then true else found)
      else
        sc ← chr str s;
        bracket fuel pat (p + 1) (plen - 1) str s nocase
          (if char_eq nocase c sc then true else found)
  end.

(** while(stringLen) of the star: try the rest of the pattern at every
    position of the string. *)
Fixpoint star_loop (try : Z -> Z -> res bool) (fuel : nat) (s slen : Z) : res bool :=
  if slen =? 0 then Ret false
  else match fuel with
       | O => Fault OutOfFuel
       | S fuel =>
         b ← try s slen;
         if b : bool then Ret true else star_loop try fuel (s + 1) (slen - 1)
       end.

Fixpoint match_rec (fuel : nat) (pat : list Z) (p plen : Z) (str : list Z) (s slen : Z)
    (nocase : bool) : res bool :=
  match fuel with
  | O => Fault OutOfFuel
  | S fuel =>
    (* after the switch *)
    let continue p plen s slen :=
      let p := p + 1 in
      let plen := plen - 1 in
      if slen =? 0 then
        '(p, plen) ← trailing_stars (S (length pat)) pat p plen;
        Ret ((plen =? 0) && (slen =? 0))
      else match_rec fuel pat p plen str s slen nocase in
    if plen =? 0 then Ret ((plen =? 0) && (slen =? 0))
    else
      c ← chr pat p;
      if c =? 42 then
        '(p, plen) ← skip_stars (S (length pat)) pat p plen;
        if plen =? 1 then Ret true
        else star_loop (fun s slen => match_rec fuel pat (p + 1) (plen - 1) str s slen nocase)
               (2 + length str) s slen
      else if c =? 63 then
        if slen =? 0 then Ret false else continue p plen (s + 1) (slen - 1)
      else if c =? 91 then
        let p := p + 1 in
        let plen := plen - 1 in
        c ← chr pat p;
        let neg := c =? 94 in
        let '(p, plen) := if neg then (p + 1, plen - 1) else (p, plen) in
        '(p, plen, found) ← bracket (S (length pat)) pat p plen str s nocase false;
        let found := if neg then negb found else found in
        if negb found then Ret false else continue p plen (s + 1) (slen - 1)
      else
        let '(p, plen) := if (c =? 92) && (2 <=? plen) then (p + 1, plen - 1) else (p, plen) in
        c ← chr pat p;
        sc ← chr str s;
        if negb (char_eq nocase c sc) then Ret false
        else continue p plen (s + 1) (slen - 1)
  end.

Definition stringmatchlen (pattern string : list Z) (nocase : bool) : res bool :=
  match_rec (S (length pattern)) pattern 0 (Z.of_nat (length pattern))
    string 0 (Z.of_nat (length string)) nocase.

(** On C strings: the lengths are those strlen() finds. *)
Definition strlen_take (m : list Z) : list Z :=
  match list_find (fun b => b = 0) m with
  | Some (i, _) => take i m
  | None => m
  end.

Definition stringmatch (pattern string : list Z) (nocase : bool) : res bool :=
  stringmatchlen (strlen_take pattern) (strlen_take string) nocase.

(** ** Specification: patterns without bracket expressions *)

Inductive gtok : Type :=
  | GStar
  | GAny
  | GLit (c : Z).

Fixpoint gparse (p : list Z) : list gtok :=
  match p with
  | [] => []
  | c :: p =>
    if c =? 42 then GStar :: gparse p
    else if c =? 63 then GAny :: gparse p
    else if c =? 92 then
      match p with
      | d :: p => GLit d :: gparse p
      | [] => [GLit c]
      end
    else GLit c :: gparse p
  end.

Inductive glob (nocase : bool) : list gtok -> list Z -> Prop :=
  | glob_nil : glob nocase [] []
  | glob_star ts s1 s2 : glob nocase ts s2 -> glob nocase (GStar :: ts) (s1 ++ s2)
  | glob_any ts c s : glob nocase ts s -> glob nocase (GAny :: ts) (c :: s)
  | glob_lit ts c d s : char_eq nocase (i8 c) (i8 d) = true ->
      glob nocase ts s -> glob nocase (GLit c :: ts) (d :: s).

(** ** Reads *)

Lemma i8_eqb b k : byte_ok b -> 0 <= k < 128 -> (i8 b =? k) = (b =? k).
Proof.
  unfold byte_ok, swrap. intros. rewrite Z.mod_small by (simpl; lia).
  change (2 ^ (8 - 1)) with 128. change (2 ^ 8) with 256. repeat zcase; lia.
Qed.

Lemma chr_cons pre c l i : i = Z.of_nat (length pre) -> chr (pre ++ c :: l) i = Ret (i8 c).
Proof.
  intros ->. unfold chr. rewrite length_app; cbn [length].
  destruct (Z.eqb_spec (Z.of_nat (length pre)) (Z.of_nat (length pre + S (length l)))); [lia|].
  now rewrite rd_at.
Qed.

Lemma chr_nul l i : i = Z.of_nat (length l) -> chr l i = Ret 0.
Proof. intros ->. unfold chr. now rewrite Z.eqb_refl. Qed.

(** ** Runs of stars *)

Lemma skip_stars_spec fuel : forall pre c rest,
  bytes_ok rest -> (length rest < fuel)%nat ->
  exists n rest', rest = replicate n 42 ++ rest' /\ hd_error rest' <> Some 42 /\
    skip_stars fuel (pre ++ c :: rest) (Z.of_nat (length pre)) (Z.of_nat (S (length rest)))
    = Ret (Z.of_nat (length pre + n), Z.of_nat (S (length rest'))).
Proof.
  induction fuel as [|fuel IH]; intros pre c rest Hb Hl; [lia|].
  cbn [skip_stars].
  replace (pre ++ c :: rest) with ((pre ++ [c]) ++ rest) by (now rewrite <- app_assoc).
  destruct rest as [|d rest].
  - rewrite chr_nul by (rewrite app_nil_r, length_app; simpl; lia).
    exists 0%nat, []. rewrite Nat.add_0_r. done.
  - rewrite chr_cons by (rewrite length_app; simpl; lia).
    inversion Hb as [|? ? Hd Hb']; subst. cbn [mbind res_bind].
    rewrite i8_eqb by (done || lia). zcase.
    + subst d. destruct (IH (pre ++ [c]) 42 rest Hb' ltac:(simpl in Hl; lia))
        as (n & rest' & -> & Hh & E).
      exists (S n), rest'. split; [done|]. split; [done|].
      rewrite length_app in E. cbn [length] in *.
      replace (Z.of_nat (length pre) + 1) with (Z.of_nat (length pre + 1)) by lia.
      replace (Z.of_nat (S (S (length (replicate n 42 ++ rest')))) - 1)
        with (Z.of_nat (S (length (replicate n 42 ++ rest')))) by lia.
      rewrite E. do 2 f_equal. lia.
    + exists 0%nat, (d :: rest). rewrite Nat.add_0_r. split; [done|].
      split; [simpl; congruence|done].
Qed.

Lemma trailing_stars_spec fuel : forall pre rest,
  bytes_ok rest -> (length rest < fuel)%nat ->
  exists n rest', rest = replicate n 42 ++ rest' /\ hd_error rest' <> Some 42 /\
    trailing_stars fuel (pre ++ rest) (Z.of_nat (length pre)) (Z.of_nat (length rest))
    = Ret (Z.of_nat (length pre + n), Z.of_nat (length rest')).
Proof.
  induction fuel as [|fuel IH]; intros pre rest Hb Hl; [lia|].
  cbn [trailing_stars]. destruct rest as [|d rest].
  - rewrite app_nil_r, chr_nul by done.
    exists 0%nat, []. rewrite Nat.add_0_r. done.
  - rewrite chr_cons by done.
    inversion Hb as [|? ? Hd Hb']; subst. cbn [mbind res_bind].
    rewrite i8_eqb by (done || lia). zcase.
    + subst d. destruct (IH (pre ++ [42]) rest Hb' ltac:(simpl in Hl; lia))
        as (n & rest' & -> & Hh & E).
      exists (S n), rest'. split; [done|]. split; [done|].
      rewrite length_app, <- app_assoc in E. cbn [length app] in E.
      replace (Z.of_nat (length pre) + 1) with (Z.of_nat (length pre + 1)) by lia.
      cbn [length]. replace (Z.of_nat (S (length (replicate n 42 ++ rest'))) - 1)
        with (Z.of_nat (length (replicate n 42 ++ rest'))) by lia.
      rewrite E. do 2 f_equal. lia.
    + exists 0%nat, (d :: rest). rewrite Nat.add_0_r. split; [done|].
      split; [simpl; congruence|done].
Qed.

Lemma glob_star_iff nocase ts s :
  glob nocase (GStar :: ts) s <-> exists s1 s2, s = s1 ++ s2 /\ glob nocase ts s2.
Proof.
  split.
  - inversion 1; subst; eauto.
  - intros (s1 & s2 & -> & H). now constructor.
Qed.

Lemma glob_stars nocase n ts s :
  glob nocase (GStar :: replicate n GStar ++ ts) s <-> glob nocase (GStar :: ts) s.
Proof.
  induction n as [|n IH]; [done|]. simpl. rewrite <- IH. rewrite !glob_star_iff. split.
  - intros (s1 & s2 & -> & H). apply glob_star_iff in H as (s3 & s4 & -> & H).
    exists (s1 ++ s3), s4. split; [now rewrite app_assoc|done].
  - intros (s1 & s2 & -> & H). exists s1, s2. split; [done|].
    apply glob_star_iff. now exists [], s2.
Qed.

Lemma gparse_stars n r : gparse (replicate n 42 ++ r) = replicate n GStar ++ gparse r.
Proof. induction n as [|n IH]; [done|]. simpl. now rewrite IH. Qed.

Lemma glob_empty nocase n r :
  hd_error r <> Some 42 ->
  glob nocase (gparse (replicate n 42 ++ r)) [] <-> r = [].
Proof.
  intros Hr. rewrite gparse_stars. split.
  - induction n as [|n IH]; simpl; intros H.
    + destruct r as [|c r]; [done|]. exfalso. simpl in H, Hr.
      destruct (Z.eqb_spec c 42); [congruence|].
      destruct (c =? 63); [inversion H|]. destruct (c =? 92); [destruct r|]; inversion H.
    + apply glob_star_iff in H as (s1 & s2 & E & H).
      symmetry in E. apply app_eq_nil in E as [-> ->]. auto.
  - intros ->. simpl. rewrite app_nil_r. induction n; simpl; [constructor|].
    now apply (glob_star _ _ [] []).
Qed.

(** ** The matcher against the specification *)

Section Matcher.
Context (nocase : bool).

(** [decides r P]: the result [r] is a boolean that decides [P]. *)
Definition decides (r : res bool) (P : Prop) : Prop :=
  exists b : bool, r = Ret b /\ (b = true <-> P).

Definition pattern_ok (rest : list Z) : Prop :=
  bytes_ok rest /\ Forall (fun c => c <> 91) rest.

Definition match_ok (fuel : nat) : Prop :=
  forall pre rest spre t,
    pattern_ok rest -> (t <> [] \/ Forall (fun c => c <> 0) rest) ->
    (length rest < fuel)%nat ->
    decides (match_rec fuel (pre ++ rest) (Z.of_nat (length pre)) (Z.of_nat (length rest))
               (spre ++ t) (Z.of_nat (length spre)) (Z.of_nat (length t)) nocase)
      (glob nocase (gparse rest) t).

(** What follows the switch. *)
Lemma continue_ok fuel pat p plen str s slen pre rest spre t :
  match_ok fuel -> pattern_ok rest -> (length rest < fuel)%nat ->
  pat = pre ++ rest -> str = spre ++ t ->
  p + 1 = Z.of_nat (length pre) -> plen - 1 = Z.of_nat (length rest) ->
  s = Z.of_nat (length spre) -> slen = Z.of_nat (length t) ->
  decides (if slen =? 0 then
             '(p, plen) ← trailing_stars (S (length pat)) pat (p + 1) (plen - 1);
             Ret ((plen =? 0) && (slen =? 0))
           else match_rec fuel pat (p + 1) (plen - 1) str s slen nocase)
    (glob nocase (gparse rest) t).
Proof.
  intros IH Hp Hl -> -> -> -> -> ->. destruct t as [|x t].
  - cbn [length]. change (Z.of_nat 0 =? 0) with true. cbn iota.
    destruct (trailing_stars_spec (S (length (pre ++ rest))) pre rest) as (n & r & -> & Hr & ->).
    { apply Hp. } { rewrite length_app. lia. }
    cbn [mbind res_bind]. eexists. split; [done|]. rewrite glob_empty by done.
    rewrite andb_true_r. destruct r; simpl; split; intros; try done; lia.
  - zcase; [cbn [length] in *; lia|]. apply IH; auto.
Qed.

(** The loop of a star tries every non-empty suffix. *)
Lemma star_loop_ok (try : Z -> Z -> res bool) (P : list Z -> Prop) fuel : forall spre t,
  (forall s1 s2, t = s1 ++ s2 -> s2 <> [] ->
    decides (try (Z.of_nat (length (spre ++ s1))) (Z.of_nat (length s2))) (P s2)) ->
  (length t <= fuel)%nat ->
  decides (star_loop try fuel (Z.of_nat (length spre)) (Z.of_nat (length t)))
    (exists s1 s2, t = s1 ++ s2 /\ s2 <> [] /\ P s2).
Proof.
  induction fuel as [|fuel IH]; intros spre t Htry Hl.
  - destruct t; [|simpl in Hl; lia]. exists false. split; [done|].
    split; [done|]. intros (s1 & s2 & E & Hne & _). symmetry in E.
    apply app_eq_nil in E as [_ ->]. done.
  - destruct t as [|x t].
    { exists false. split; [done|]. split; [done|].
      intros (s1 & s2 & E & Hne & _). symmetry in E. apply app_eq_nil in E as [_ ->]. done. }
    cbn [star_loop]. zcase; [cbn [length] in *; lia|].
    destruct (Htry [] (x :: t) eq_refl ltac:(done)) as (b & Hb & HP).
    rewrite app_nil_r in Hb. rewrite Hb. cbn [mbind res_bind].
    destruct b.
    { exists true. split; [done|]. split; [|done]. intros _.
      exists [], (x :: t). split; [done|]. split; [done|]. now apply HP. }
    destruct (IH (spre ++ [x]) t) as (b & Hr & HQ).
    { intros s1 s2 -> Hne. rewrite <- app_assoc. apply (Htry (x :: s1)); done. }
    { simpl in Hl. lia. }
    rewrite length_app in Hr. cbn [length] in Hr |- *.
    replace (Z.of_nat (length spre) + 1) with (Z.of_nat (length spre + 1)) by lia.
    replace (Z.of_nat (S (length t)) - 1) with (Z.of_nat (length t)) by lia.
    rewrite Hr. exists b. split; [done|]. rewrite HQ. split.
    + intros (s1 & s2 & -> & Hne & Hs). exists (x :: s1), s2. done.
    + intros ([|y s1] & s2 & E & Hne & Hs).
      * simpl in E. subst s2. apply HP in Hs. done.
      * injection E as -> ->. eauto.
Qed.

Lemma char_eq_nul c : byte_ok c -> c <> 0 -> char_eq nocase (i8 c) 0 = false.
Proof.
  intros Hc Hn. assert (i8 c <> 0) as H.
  { rewrite <- Z.eqb_neq, i8_eqb by (done || lia). lia. }
  revert H. generalize (i8 c). intros x H. unfold char_eq, tolower.
  destruct nocase; [|lia]. change ((65 <=? 0) && (0 <=? 90)) with false. cbn iota.
  destruct ((65 <=? x) && (x <=? 90)) eqn:E; lia.
Qed.

Lemma pattern_ok_cons c rest : pattern_ok (c :: rest) -> byte_ok c /\ c <> 91 /\ pattern_ok rest.
Proof.
  intros [H1 H2]. inversion H1 as [|? ? Hc H1a]; inversion H2 as [|? ? Hn H2a]; subst.
  split; [exact Hc|]. split; [exact Hn|]. split; [exact H1a|exact H2a].
Qed.

Lemma pattern_ok_app_r a b : pattern_ok (a ++ b) -> pattern_ok b.
Proof.
  intros [H1 H2]. apply Forall_app in H1 as [_ H1]. apply Forall_app in H2 as [_ H2].
  split; auto.
Qed.

(** A literal of the pattern, plain or escaped, against the string. *)
Lemma literal_ok fuel pat str pre c rest spre t s :
  match_ok fuel -> pattern_ok rest -> (length rest < fuel)%nat -> byte_ok c ->
  (t <> [] \/ c <> 0) -> pat = pre ++ c :: rest -> str = spre ++ t ->
  s = Z.of_nat (length spre) ->
  decides (sc ← chr str s;
     if negb (char_eq nocase (i8 c) sc) then Ret false
     else let p := Z.of_nat (length pre) in let plen := Z.of_nat (length (c :: rest)) in
       let s := s + 1 in let slen := Z.of_nat (length t) - 1 in
       if slen =? 0 then
         '(p, plen) ← trailing_stars (S (length pat)) pat (p + 1) (plen - 1);
         Ret ((plen =? 0) && (slen =? 0))
       else match_rec fuel pat (p + 1) (plen - 1) str s slen nocase)
    (glob nocase (GLit c :: gparse rest) t).
Proof.
  intros IH Hp Hl Hc Ht -> -> ->. destruct t as [|x t].
  - rewrite app_nil_r, chr_nul by done. cbn [mbind res_bind].
    destruct Ht as [|Ht]; [done|]. rewrite char_eq_nul by done. exists false. split; [done|].
    split; [done|]. inversion 1.
  - rewrite chr_cons by done. cbn [mbind res_bind].
    destruct (char_eq nocase (i8 c) (i8 x)) eqn:E; cbn [negb].
    + cbv zeta. destruct (continue_ok fuel (pre ++ c :: rest) (Z.of_nat (length pre))
        (Z.of_nat (length (c :: rest))) (spre ++ x :: t)
        (Z.of_nat (length spre) + 1) (Z.of_nat (length (x :: t)) - 1)
        (pre ++ [c]) rest (spre ++ [x]) t) as (b & -> & Hb); auto.
      all: rewrite <- ?app_assoc, ?length_app; cbn [length app]; try done; try lia.
      exists b. split; [done|]. rewrite Hb. split; [now constructor|].
      inversion 1; subst; done.
    + exists false. split; [done|]. split; [done|]. inversion 1; congruence.
Qed.

Lemma star_ok fuel pre rest spre t :
  match_ok fuel -> pattern_ok rest -> (length rest < fuel)%nat ->
  decides ('(p, plen) ← skip_stars (S (length (pre ++ 42 :: rest))) (pre ++ 42 :: rest)
             (Z.of_nat (length pre)) (Z.of_nat (length (42 :: rest)));
           if plen =? 1 then Ret true
           else star_loop (fun s slen => match_rec fuel (pre ++ 42 :: rest) (p + 1) (plen - 1)
                                           (spre ++ t) s slen nocase)
                  (2 + length (spre ++ t)) (Z.of_nat (length spre)) (Z.of_nat (length t)))
    (glob nocase (GStar :: gparse rest) t).
Proof.
  intros IH Hp' Hl.
  destruct (skip_stars_spec (S (length (pre ++ 42 :: rest))) pre 42 rest)
      as (n & r & -> & Hr & E); [apply Hp'|rewrite length_app; simpl; lia|].
    cbn [length]. rewrite E. cbn [mbind res_bind]. zcase.
    - exists true. split; [done|]. split; [|done]. intros _.
      destruct r; [|cbn [length] in *; lia].
      rewrite gparse_stars, glob_stars. apply glob_star_iff. exists t, [].
      split; [now rewrite app_nil_r|constructor].
    - rewrite gparse_stars.
      destruct (star_loop_ok (fun s slen => match_rec fuel (pre ++ 42 :: replicate n 42 ++ r)
        (Z.of_nat (length pre + n) + 1) (Z.of_nat (S (length r)) - 1) (spre ++ t) s slen nocase)
        (glob nocase (gparse r)) (2 + length (spre ++ t)) spre t) as (b & -> & Hb).
      + intros s1 s2 -> Hne.
        replace (pre ++ 42 :: replicate n 42 ++ r) with ((pre ++ 42 :: replicate n 42) ++ r)
          by (now rewrite <- app_assoc).
        replace (Z.of_nat (length pre + n) + 1)
          with (Z.of_nat (length (pre ++ 42 :: replicate n 42)))
          by (rewrite length_app; cbn [length]; rewrite length_replicate; lia).
        replace (Z.of_nat (S (length r)) - 1) with (Z.of_nat (length r)) by lia.
        rewrite app_assoc. apply IH; [now apply pattern_ok_app_r in Hp'|now left|].
        rewrite length_app in Hl. lia.
      + rewrite length_app. lia.
      + exists b. split; [done|]. rewrite Hb, glob_stars, glob_star_iff. split.
        * intros (s1 & s2 & -> & _ & H). eauto.
        * intros (s1 & s2 & -> & H). exists s1, s2. repeat split; auto. intros ->.
          apply (glob_empty nocase 0) in H; [|done]. subst r. cbn [length] in *. lia.
Qed.

Lemma any_ok fuel pre rest spre t :
  match_ok fuel -> pattern_ok rest -> (length rest < fuel)%nat ->
  decides (if Z.of_nat (length t) =? 0 then Ret false
     else let p := Z.of_nat (length pre) in let plen := Z.of_nat (length (63 :: rest)) in
       let s := Z.of_nat (length spre) + 1 in let slen := Z.of_nat (length t) - 1 in
       if slen =? 0 then
         '(p, plen) ← trailing_stars (S (length (pre ++ 63 :: rest))) (pre ++ 63 :: rest) (p + 1) (plen - 1);
         Ret ((plen =? 0) && (slen =? 0))
       else match_rec fuel (pre ++ 63 :: rest) (p + 1) (plen - 1) (spre ++ t) s slen nocase)
    (glob nocase (GAny :: gparse rest) t).
Proof.
  intros IH Hp' Hl.
  destruct t as [|x t].
    { exists false. split; [done|]. split; [done|]. inversion 1. }
    zcase; [cbn [length] in *; lia|]. cbv zeta.
    destruct (continue_ok fuel (pre ++ 63 :: rest) (Z.of_nat (length pre))
      (Z.of_nat (length (63 :: rest))) (spre ++ x :: t)
      (Z.of_nat (length spre) + 1) (Z.of_nat (length (x :: t)) - 1)
      (pre ++ [63]) rest (spre ++ [x]) t) as (b & -> & Hb); auto; try lia.
    all: rewrite <- ?app_assoc, ?length_app; cbn [length app]; try done; try lia.
    exists b. split; [done|]. rewrite Hb. split; [now constructor|]. inversion 1; subst; done.
Qed.

Lemma match_rec_ok fuel : match_ok fuel.
Proof.
  induction fuel as [|fuel IH]; intros pre rest spre t Hp Ht Hl; [lia|].
  cbn [match_rec]. destruct rest as [|c rest].
  { cbn [length]. change (Z.of_nat 0 =? 0) with true. cbn iota. eexists. split; [done|].
    destruct t; simpl; split; intros H; try done; try constructor. inversion H. }
  destruct (Z.eqb_spec (Z.of_nat (length (c :: rest))) 0) as [|_]; [cbn [length] in *; lia|].
  rewrite (chr_cons pre c rest (Z.of_nat (length pre)) eq_refl). cbn [mbind res_bind].
  destruct (pattern_ok_cons _ _ Hp) as (Hc & H91 & Hp').
  rewrite !(i8_eqb c) by (done || lia). cbn [gparse]. cbn [length] in Hl.
  destruct (Z.eqb_spec c 42) as [->|H42].
  { apply star_ok; auto; lia. }
  destruct (Z.eqb_spec c 63) as [->|H63].
  { apply any_ok; auto; lia. }
  destruct (Z.eqb_spec c 91) as [|_]; [done|].
  assert (forall d, Forall (fun c => c <> 0) (c :: rest) -> d ∈ c :: rest -> d <> 0) as Hnz.
  { intros d HF HI. rewrite Forall_forall in HF. auto. }
  destruct (Z.eqb_spec c 92) as [->|H92]; cbn [andb].
  - destruct rest as [|d rest].
    + cbn [length]. change (2 <=? Z.of_nat 1) with false. cbn iota.
      rewrite chr_cons by done. cbn [mbind res_bind].
      apply (literal_ok fuel _ _ pre 92 [] spre t); auto; simpl; lia.
    + zcase; [|cbn [length] in *; lia]. destruct (pattern_ok_cons _ _ Hp') as (Hd & _ & Hp'').
      replace (pre ++ 92 :: d :: rest) with ((pre ++ [92]) ++ d :: rest)
        by (now rewrite <- app_assoc).
      rewrite chr_cons by (rewrite length_app; simpl; lia). cbn [mbind res_bind].
      replace (Z.of_nat (length pre) + 1) with (Z.of_nat (length (pre ++ [92])))
        by (rewrite length_app; simpl; lia).
      replace (Z.of_nat (length (92 :: d :: rest)) - 1) with (Z.of_nat (length (d :: rest)))
        by (simpl; lia).
      apply (literal_ok fuel _ _ (pre ++ [92]) d rest spre t); auto; [simpl in *; lia|].
      destruct Ht; [now left|right]. apply (Hnz d); [done|set_solver].
  - rewrite chr_cons by done. cbn [mbind res_bind].
    apply (literal_ok fuel _ _ pre c rest spre t); auto; [lia|].
    destruct Ht; [now left|right]. apply (Hnz c); [done|set_solver].
Qed.
End Matcher.

(** On a pattern without bracket expressions, and a string that is not empty
    or a pattern without NUL, stringmatchlen stays in its buffers, returns,
    and answers whether the string belongs to the language of the glob
    ([*]: any run, [?]: one character, backslash: the next character). *)
Theorem stringmatchlen_glob pattern string nocase :
  bytes_ok pattern -> Forall (fun c => c <> 91) pattern ->
  (string <> [] \/ Forall (fun c => c <> 0) pattern) ->
  decides (stringmatchlen pattern string nocase) (glob nocase (gparse pattern) string).
Proof.
  intros Hb H91 Hne. apply (match_rec_ok nocase (S (length pattern)) [] pattern [] string);
    [split; auto|auto|lia].
Qed.

Lemma stringmatchlen_glob_witness :
  decides (stringmatchlen (bytes_of_string "a*?c") (bytes_of_string "abbc") false)
    (glob false [GLit 97; GStar; GAny; GLit 99] (bytes_of_string "abbc")).
Proof.
  apply (stringmatchlen_glob (bytes_of_string "a*?c") (bytes_of_string "abbc") false).
  - repeat constructor; simpl; lia.
  - repeat constructor; simpl; lia.
  - left. discriminate.
Defined.

(** ** Memory safety with bracket expressions *)

Section Safety.
Context (pat str : list Z) (nocase : bool).
Context (Hbytes : bytes_ok pat) (Hesc : Forall (fun c => c <> 92) pat).
Let plast := Z.of_nat (length pat).
Let slast := Z.of_nat (length str).

Lemma chr_in m i : 0 <= i <= Z.of_nat (length m) -> exists c, chr m i = Ret c.
Proof.
  intros. unfold chr. zif; [eauto|]. unfold rd. zif; [lia|].
  destruct (lookup_lt_is_Some_2 m (Z.to_nat i)) as [b ->]; [lia|]. simpl. eauto.
Qed.

Lemma chr_pat i : 0 <= i <= plast -> exists c, chr pat i = Ret c /\ c <> 92.
Proof.
  intros. unfold chr. zif; [exists 0; split; [done|lia]|]. unfold rd. zif; [lia|].
  destruct (lookup_lt_is_Some_2 pat (Z.to_nat i)) as [b Hb]; [lia|]. rewrite Hb. simpl.
  eexists. split; [done|].
  pose proof (Forall_lookup_1 _ _ _ _ Hesc Hb). pose proof (Forall_lookup_1 _ _ _ _ Hbytes Hb).
  rewrite <- Z.eqb_neq, i8_eqb by (done || lia). simpl in *. lia.
Qed.

Lemma bracket_safe fuel : forall p plen s found,
  0 <= p -> p + plen = plast -> 0 <= plen < Z.of_nat fuel -> 0 <= s <= slast ->
  (plen = 0 -> 0 < p) ->
  exists p' plen' f, bracket fuel pat p plen str s nocase found = Ret (p', plen', f) /\
    p' + plen' = plast /\ 1 <= plen' <= Z.max 1 plen.
Proof.
  induction fuel as [|fuel IH]; intros p plen s found Hp Hsum Hlen Hs H0; [lia|].
  cbn [bracket]. destruct (chr_pat p) as (c & Hcp & Hc); [lia|].
  rewrite Hcp. cbn [mbind res_bind]. replace (c =? 92) with false by lia.
  destruct (c =? 93) eqn:E93.
  { destruct (Z.eq_dec plen 0); [|eexists _, _, _; split; [done|lia]].
    subst plen. exfalso. rewrite chr_nul in Hcp by lia. injection Hcp as <-. discriminate E93. }
  zif; [eexists _, _, _; split; [done|lia]|].
  destruct (chr_in pat (p + 1)) as (c1 & ->); [unfold plast in *; lia|]. cbn [mbind res_bind].
  destruct (chr_in str s) as (sc & Hsc); [unfold slast in *; lia|].
  destruct ((c1 =? 45) && (3 <=? plen)) eqn:Er.
  - apply andb_true_iff in Er as [_ Er].
    destruct (chr_in pat (p + 2)) as (c2 & ->); [unfold plast in *; lia|].
    cbn [mbind res_bind]. rewrite Hsc. cbn [mbind res_bind].
    destruct (if c2 <? c then (c2, c) else (c, c2)) as [start stop].
    destruct (if nocase then _ else _) as [[start' stop'] ch].
    edestruct (IH (p + 2 + 1) (plen - 2 - 1)) as (p' & plen' & f & E & ? & ?);
      [..|exists p', plen', f; split; [exact E|lia]]; lia.
  - rewrite Hsc. cbn [mbind res_bind].
    edestruct (IH (p + 1) (plen - 1)) as (p' & plen' & f & E & ? & ?);
      [..|exists p', plen', f; split; [exact E|lia]]; lia.
Qed.

Lemma skip_stars_safe fuel : forall p plen,
  0 <= p -> p + plen = plast -> 1 <= plen <= Z.of_nat fuel ->
  exists p' plen', skip_stars fuel pat p plen = Ret (p', plen') /\
    p <= p' /\ p' + plen' = plast /\ 1 <= plen' <= plen.
Proof.
  induction fuel as [|fuel IH]; intros p plen Hp Hsum Hlen; [lia|].
  cbn [skip_stars]. destruct (chr_pat (p + 1)) as (c & Hcp & Hc); [lia|].
  rewrite Hcp. cbn [mbind res_bind]. zif.
  - destruct (Z.eq_dec plen 1).
    + subst plen. rewrite chr_nul in Hcp by lia. injection Hcp as <-. done.
    + destruct (IH (p + 1) (plen - 1)) as (p' & plen' & -> & ?); [lia..|].
      eexists _, _. split; [done|lia].
  - eexists _, _. split; [done|lia].
Qed.

Lemma trailing_stars_safe fuel : forall p plen,
  0 <= p -> p + plen = plast -> 0 <= plen < Z.of_nat fuel ->
  exists p' plen', trailing_stars fuel pat p plen = Ret (p', plen').
Proof.
  induction fuel as [|fuel IH]; intros p plen Hp Hsum Hlen; [lia|].
  cbn [trailing_stars]. destruct (chr_pat p) as (c & Hcp & Hc); [lia|].
  rewrite Hcp. cbn [mbind res_bind]. zif; [|eauto].
  destruct (Z.eq_dec plen 0).
  - subst plen. rewrite chr_nul in Hcp by lia. injection Hcp as <-. done.
  - apply IH; lia.
Qed.

Lemma star_loop_safe (try : Z -> Z -> res bool) fuel : forall s slen,
  (forall s slen, 0 <= s -> s + slen = slast -> 0 < slen -> exists b, try s slen = Ret b) ->
  0 <= s -> s + slen = slast -> 0 <= slen <= Z.of_nat fuel ->
  exists b, star_loop try fuel s slen = Ret b.
Proof.
  induction fuel as [|fuel IH]; intros s slen Htry Hs Hsum Hlen; cbn [star_loop];
    (zif; [eauto|]); [lia|].
  destruct (Htry s slen) as (b & ->); [lia..|]. cbn [mbind res_bind].
  destruct b; [eauto|]. apply IH; auto; lia.
Qed.

Lemma match_rec_safe fuel : forall p plen s slen,
  0 <= p -> p + plen = plast -> 0 <= plen < Z.of_nat fuel ->
  0 <= s -> s + slen = slast -> 0 < slen ->
  exists b, match_rec fuel pat p plen str s slen nocase = Ret b.
Proof.
  induction fuel as [|fuel IH]; intros p plen s slen Hp Hsum Hlen Hs Hssum Hslen; [lia|].
  cbn [match_rec]. destruct (Z.eqb_spec plen 0) as [|Hne]; [eauto|].
  assert (forall p' plen', 0 <= p' -> p' + plen' = plast -> 1 <= plen' <= plen ->
    exists b, (if slen - 1 =? 0 then
      '(p, plen) ← trailing_stars (S (length pat)) pat (p' + 1) (plen' - 1);
      Ret ((plen =? 0) && (slen - 1 =? 0))
      else match_rec fuel pat (p' + 1) (plen' - 1) str (s + 1) (slen - 1) nocase) = Ret b)
    as Hcont.
  { intros p' plen' ? ? ?. destruct (Z.eqb_spec (slen - 1) 0).
    - destruct (trailing_stars_safe (S (length pat)) (p' + 1) (plen' - 1))
        as (p2 & plen2 & ->); [unfold plast in *; lia..|]. cbn [mbind res_bind]. eauto.
    - apply IH; lia. }
  destruct (chr_pat p) as (c & -> & Hc); [lia|]. cbn [mbind res_bind].
  destruct (c =? 42).
  { destruct (skip_stars_safe (S (length pat)) p plen) as (p' & plen' & -> & ?);
      [unfold plast in *; lia..|]. cbn [mbind res_bind]. zif; [eauto|].
    apply star_loop_safe; [|lia..|unfold slast in *; lia].
    intros. apply IH; lia. }
  destruct (c =? 63).
  { destruct (Z.eqb_spec slen 0); [lia|]. apply Hcont; lia. }
  destruct (c =? 91).
  { destruct (chr_pat (p + 1)) as (c1 & Hc1 & _); [lia|]. rewrite Hc1. cbn [mbind res_bind].
    assert (c1 = 94 -> 2 <= plen).
    { intros ->. destruct (Z.eq_dec plen 1); [|lia]. rewrite chr_nul in Hc1 by lia. done. }
    destruct (if c1 =? 94 then _ else _) as [p1 plen1] eqn:E1.
    assert (0 < p1 /\ p1 + plen1 = plast /\ 0 <= plen1 <= plen - 1) as (? & ? & ?).
    { destruct (Z.eqb_spec c1 94); injection E1 as <- <-; lia. }
    destruct (bracket_safe (S (length pat)) p1 plen1 s false) as (p2 & plen2 & f & -> & ? & ?);
      [unfold plast in *; lia..|]. cbn [mbind res_bind].
    destruct (negb (if c1 =? 94 then negb f else f)); [eauto|]. apply Hcont; lia. }
  replace (c =? 92) with false by lia. cbn [andb].
  destruct (chr_pat p) as (c' & -> & _); [lia|]. destruct (chr_in str s) as (sc & ->);
    [unfold slast in *; lia|]. cbn [mbind res_bind].
  destruct (negb _); [eauto|]. apply Hcont; lia.
Qed.
End Safety.

(** On a pattern without backslash and a string that is not empty,
    stringmatchlen never reads outside its two NUL-terminated buffers and
    always returns, whatever bracket expressions, closed or not, the
    pattern has. *)
Theorem stringmatchlen_safe pattern string nocase :
  bytes_ok pattern -> Forall (fun c => c <> 92) pattern -> string <> [] ->
  exists b, stringmatchlen pattern string nocase = Ret b.
Proof.
  intros Hb H92 Hne. apply match_rec_safe; auto; try lia.
  destruct string; [done|simpl; lia].
Qed.

Lemma stringmatchlen_safe_witness :
  exists b, stringmatchlen (bytes_of_string "x*[^a-") (bytes_of_string "xyz") true = Ret b.
Proof.
  apply (stringmatchlen_safe (bytes_of_string "x*[^a-") (bytes_of_string "xyz") true).
  - repeat constructor; simpl; lia.
  - repeat constructor; simpl; lia.
  - discriminate.
Defined.

(** The two hypotheses are needed.  A backslash that ends an open bracket
    expression makes the code read past the terminator of the pattern; a
    bracket expression on the empty string drives the remaining length
    below zero, so that a star then runs past the end of the string, and
    a pattern that requires one character accepts the empty string. *)
Theorem stringmatchlen_overreads :
  stringmatchlen [91; 92] (bytes_of_string "a") false = Fault OutOfBounds /\
  stringmatchlen (bytes_of_string "[^a]*b") [] false = Fault OutOfBounds /\
  stringmatchlen (bytes_of_string "[^a]*") [] false = Ret true.
Proof. repeat split. Qed.
