(* ===== verification/Intset.v ===== *)
(** * Intset: sorted sets of integers (redis/src/intset.c, intset.h)

    The C structure is a header with the width of the elements in bytes
    ([encoding]) and their number ([length]), followed by the bytes of the
    elements, little-endian, in increasing order.  The model keeps the
    bytes: an upgrade rewrites them in place, back to front, as the code
    does.  [junk] is the unspecified value of the bytes a realloc adds. *)

From Stdlib Require Import Sorted.
From S2P Require Import Prelude.

Record intset : Type := mk_intset {
  is_encoding : Z;
  is_length : Z;
  is_contents : list Z
}.

Definition INTSET_ENC_INT16 : Z := 2.
Definition INTSET_ENC_INT32 : Z := 4.
Definition INTSET_ENC_INT64 : Z := 8.

Section Code.
Context (junk : Z).

Definition _intsetValueEncoding (v : Z) : Z :=
  if (v <? INT32_MIN) || (INT32_MAX <? v) then INTSET_ENC_INT64
  else if (v <? INT16_MIN) || (INT16_MAX <? v) then INTSET_ENC_INT32
  else INTSET_ENC_INT16.

Definition _intsetGetEncoded (ist : intset) (pos enc : Z) : res Z :=
  if enc =? INTSET_ENC_INT64 then
    bs ← memread (is_contents ist) (pos * 8) 8; Ret (i64 (le_value bs))
  else if enc =? INTSET_ENC_INT32 then
    bs ← memread (is_contents ist) (pos * 4) 4; Ret (i32 (le_value bs))
  else
    bs ← memread (is_contents ist) (pos * 2) 2; Ret (i16 (le_value bs)).

Definition _intsetGet (ist : intset) (pos : Z) : res Z :=
  _intsetGetEncoded ist pos (is_encoding ist).

Definition set_contents (ist : intset) (bs : list Z) : intset :=
  mk_intset (is_encoding ist) (is_length ist) bs.
Definition set_length (ist : intset) (n : Z) : intset :=
  mk_intset (is_encoding ist) n (is_contents ist).
Definition set_encoding (ist : intset) (enc : Z) : intset :=
  mk_intset enc (is_length ist) (is_contents ist).

Definition _intsetSet (ist : intset) (pos value : Z) : res intset :=
  let encoding := is_encoding ist in
  if encoding =? INTSET_ENC_INT64 then
    m ← memwrite (is_contents ist) (pos * 8) (le_bytes 8 value); Ret (set_contents ist m)
  else if encoding =? INTSET_ENC_INT32 then
    m ← memwrite (is_contents ist) (pos * 4) (le_bytes 4 value); Ret (set_contents ist m)
  else
    m ← memwrite (is_contents ist) (pos * 2) (le_bytes 2 value); Ret (set_contents ist m).

Definition intsetNew : intset := mk_intset INTSET_ENC_INT16 0 [].

Definition intsetResize (ist : intset) (len : Z) : intset :=
  let size := u32 (len * is_encoding ist) in
  set_contents ist (realloc junk (is_contents ist) (Z.to_nat size)).

(** while(max >= min): the final [min], [mid] and [cur]. *)
Fixpoint search_loop (fuel : nat) (ist : intset) (value min max mid cur : Z)
  : res (Z * Z * Z) :=
  match fuel with
  | O => Fault OutOfFuel
  | S fuel =>
    if min <=? max then
      let mid := i32 (Z.shiftr (u32 (u32 min + u32 max)) 1) in
      cur ← _intsetGet ist mid;
      if cur <? value then search_loop fuel ist value (mid + 1) max mid cur
      else if value <? cur then search_loop fuel ist value min (mid - 1) mid cur
      else Ret (min, mid, cur)
    else Ret (min, mid, cur)
  end.

(** The result and [*pos]. *)
Definition intsetSearch (ist : intset) (value : Z) : res (bool * Z) :=
  let min := 0 in
  let max := i32 (is_length ist - 1) in
  let search :=
    '(min, mid, cur) ← search_loop (S (Z.to_nat (is_length ist))) ist value min max (-1) (-1);
    if value =? cur then Ret (true, u32 mid) else Ret (false, u32 min) in
  if is_length ist =? 0 then Ret (false, 0)
  else
    last ← _intsetGet ist (i32 (is_length ist - 1));
    if last <? value then Ret (false, is_length ist)
    else
      first ← _intsetGet ist 0;
      if value <? first then Ret (false, 0) else search.

(** while(length--), from the last element to the first. *)
Fixpoint upgrade_loop (length : nat) (ist : intset) (prepend curenc : Z) : res intset :=
  match length with
  | O => Ret ist
  | S length =>
    v ← _intsetGetEncoded ist (Z.of_nat length) curenc;
    ist ← _intsetSet ist (Z.of_nat length + prepend) v;
    upgrade_loop length ist prepend curenc
  end.

Definition intsetUpgradeAndAdd (ist : intset) (value : Z) : res intset :=
  let curenc := u8 (is_encoding ist) in
  let newenc := _intsetValueEncoding value in
  let length := i32 (is_length ist) in
  let prepend := if value <? 0 then 1 else 0 in
  let ist := set_encoding ist newenc in
  let ist := intsetResize ist (u32 (is_length ist + 1)) in
  ist ← upgrade_loop (Z.to_nat length) ist prepend curenc;
  ist ← (if prepend =? 0 then _intsetSet ist (is_length ist) value
        else _intsetSet ist 0 value);
  Ret (set_length ist (u32 (is_length ist + 1))).

Definition intsetMoveTail (ist : intset) (from to : Z) : res intset :=
  let bytes := u32 (is_length ist - from) in
  let encoding := is_encoding ist in
  let '(src, dst, bytes) :=
    if encoding =? INTSET_ENC_INT64 then (from * 8, to * 8, u32 (bytes * 8))
    else if encoding =? INTSET_ENC_INT32 then (from * 4, to * 4, u32 (bytes * 4))
    else (from * 2, to * 2, u32 (bytes * 2)) in
  bs ← memread (is_contents ist) src (Z.to_nat bytes);
  m ← memwrite (is_contents ist) dst bs;
  Ret (set_contents ist m).

(** The set and [*success]. *)
Definition intsetAdd (ist : intset) (value : Z) : res (intset * bool) :=
  let valenc := _intsetValueEncoding value in
  if is_encoding ist <? valenc then
    ist ← intsetUpgradeAndAdd ist value; Ret (ist, true)
  else
    '(found, pos) ← intsetSearch ist value;
    if found : bool then Ret (ist, false)
    else
      let ist := intsetResize ist (u32 (is_length ist + 1)) in
      ist ← (if pos <? is_length ist then intsetMoveTail ist pos (u32 (pos + 1)) else Ret ist);
      ist ← _intsetSet ist pos value;
      Ret (set_length ist (u32 (is_length ist + 1)), true).

Definition intsetRemove (ist : intset) (value : Z) : res (intset * bool) :=
  let valenc := _intsetValueEncoding value in
  if valenc <=? is_encoding ist then
    '(found, pos) ← intsetSearch ist value;
    if found : bool then
      let len := is_length ist in
      ist ← (if pos <? u32 (len - 1) then intsetMoveTail ist (u32 (pos + 1)) pos else Ret ist);
      let ist := intsetResize ist (u32 (len - 1)) in
      Ret (set_length ist (u32 (len - 1)), true)
    else Ret (ist, false)
  else Ret (ist, false).

Definition intsetFind (ist : intset) (value : Z) : res bool :=
  let valenc := _intsetValueEncoding value in
  if valenc <=? is_encoding ist then '(found, _) ← intsetSearch ist value; Ret found
  else Ret false.

(** [rnd] is the value of rand(). *)
Definition intsetRandom (rnd : Z) (ist : intset) : res Z :=
  if is_length ist =? 0 then Fault DivByZero
  else _intsetGet ist (rnd mod is_length ist).

Definition intsetGet (ist : intset) (pos : Z) : res (option Z) :=
  if pos <? is_length ist then v ← _intsetGet ist pos; Ret (Some v) else Ret None.

Definition intsetLen (ist : intset) : Z := is_length ist.

Definition intsetBlobLen (ist : intset) : Z := u64 (8 + u32 (is_length ist * is_encoding ist)).
End Code.

(** ** Representation *)

(** The bytes of a list of elements of [n] bytes each. *)
Definition flat (n : nat) (xs : list Z) : list Z := flat_map (le_bytes n) xs.

Lemma flat_app n xs ys : flat n (xs ++ ys) = flat n xs ++ flat n ys.
Proof. apply flat_map_app. Qed.

Lemma length_flat n xs : length (flat n xs) = (n * length xs)%nat.
Proof.
  induction xs as [|x xs IH]; [simpl; lia|].
  change (flat n (x :: xs)) with (le_bytes n x ++ flat n xs).
  rewrite length_app, length_le_bytes, IH. simpl. lia.
Qed.

Definition enc_ok (enc : Z) : Prop := enc = 2 \/ enc = 4 \/ enc = 8.

(** [ist] represents the increasing list [xs]: every element fits the
    encoding and the contents are its little-endian images. *)
Record intset_rep (ist : intset) (xs : list Z) : Prop := {
  rep_enc : enc_ok (is_encoding ist);
  rep_length : is_length ist = Z.of_nat (length xs);
  rep_contents : is_contents ist = flat (Z.to_nat (is_encoding ist)) xs;
  rep_fit : Forall (in_s (8 * is_encoding ist)) xs;
  rep_sorted : StronglySorted Z.lt xs;
  rep_bound : Z.of_nat (length xs) < 2 ^ 28
}.

Lemma get_slice ist i enc :
  enc_ok enc -> ((i + 1) * Z.to_nat enc <= length (is_contents ist))%nat ->
  _intsetGetEncoded ist (Z.of_nat i) enc =
  Ret (swrap (8 * enc) (le_value (slice (is_contents ist) (i * Z.to_nat enc) (Z.to_nat enc)))).
Proof.
  intros [->|[->| ->]] Hl; unfold _intsetGetEncoded; cbn -[Z.mul memread slice swrap];
    [replace (Z.of_nat i * 2) with (Z.of_nat (i * 2)) by lia
    |replace (Z.of_nat i * 4) with (Z.of_nat (i * 4)) by lia
    |replace (Z.of_nat i * 8) with (Z.of_nat (i * 8)) by lia];
    rewrite memread_ok by (simpl in *; lia); reflexivity.
Qed.

Lemma set_blit ist i v :
  enc_ok (is_encoding ist) -> ((i + 1) * Z.to_nat (is_encoding ist) <= length (is_contents ist))%nat ->
  _intsetSet ist (Z.of_nat i) v =
  Ret (set_contents ist (blit (is_contents ist) (i * Z.to_nat (is_encoding ist))
         (le_bytes (Z.to_nat (is_encoding ist)) v))).
Proof.
  unfold _intsetSet. intros He Hl. destruct He as [He|[He|He]]; rewrite He in *;
    cbn -[Z.mul memwrite blit le_bytes];
    [replace (Z.of_nat i * 2) with (Z.of_nat (i * 2)) by lia
    |replace (Z.of_nat i * 4) with (Z.of_nat (i * 4)) by lia
    |replace (Z.of_nat i * 8) with (Z.of_nat (i * 8)) by lia];
    rewrite memwrite_ok by (rewrite length_le_bytes; simpl in *; lia); reflexivity.
Qed.

Lemma enc_pos enc : enc_ok enc -> 0 < enc <= 8 /\ Z.of_nat (Z.to_nat enc) = enc.
Proof. intros [->|[->| ->]]; lia. Qed.

Lemma slice_flat n l x r : slice (flat n (l ++ x :: r)) (length l * n) n = le_bytes n x.
Proof.
  rewrite flat_app. change (flat n (x :: r)) with (le_bytes n x ++ flat n r).
  replace (length l * n)%nat with (length (flat n l)) by (rewrite length_flat; lia).
  pose proof (slice_app_mid (flat n l) (le_bytes n x) (flat n r)) as H.
  now rewrite length_le_bytes in H.
Qed.

Lemma swrap_le_bytes enc x : enc_ok enc -> in_s (8 * enc) x ->
  swrap (8 * enc) (le_value (le_bytes (Z.to_nat enc) x)) = x.
Proof.
  intros He Hx. destruct (enc_pos enc He) as [Hp Hn]. rewrite le_value_bytes, Hn.
  rewrite swrap_uwrap by lia. apply swrap_id; [lia|done].
Qed.

(** Reading an element whose bytes are in place. *)
Lemma get_at ist enc i x xs : enc_ok enc ->
  take ((i + 1) * Z.to_nat enc) (is_contents ist) = flat (Z.to_nat enc) (take (i + 1) xs) ->
  xs !! i = Some x -> in_s (8 * enc) x -> _intsetGetEncoded ist (Z.of_nat i) enc = Ret x.
Proof.
  intros He Hc Hx Hin. destruct (enc_pos enc He) as [Hp Hn].
  assert (i < length xs)%nat as Hi by (eapply lookup_lt_Some; eauto).
  assert (length (flat (Z.to_nat enc) (take (i + 1) xs)) = ((i + 1) * Z.to_nat enc)%nat) as Hl
    by (rewrite length_flat, length_take; nia).
  rewrite get_slice; [|done|].
  - f_equal. unfold slice.
    rewrite <- (take_drop ((i + 1) * Z.to_nat enc) (is_contents ist)), Hc.
    rewrite drop_app_le, take_app_le by (rewrite ?length_drop, Hl; nia).
    replace (i + 1)%nat with (S i) by lia. rewrite (take_S_r xs i x Hx).
    pose proof (slice_flat (Z.to_nat enc) (take i xs) x []) as Hs.
    rewrite length_take, Nat.min_l in Hs by lia. unfold slice in Hs. rewrite Hs.
    now apply swrap_le_bytes.
  - apply (f_equal length) in Hc. rewrite length_take, Hl in Hc. lia.
Qed.

Lemma get_rep ist xs i x : intset_rep ist xs -> xs !! i = Some x ->
  _intsetGet ist (Z.of_nat i) = Ret x.
Proof.
  intros R Hx. destruct R as [He Hl Hc Hf _ _].
  assert (i < length xs)%nat by (eapply lookup_lt_Some; eauto).
  apply (get_at ist (is_encoding ist) i x xs); auto; [|eapply Forall_lookup_1; eauto].
  rewrite Hc. rewrite <- (take_drop (i + 1) xs) at 1. rewrite flat_app.
  apply take_app_length'. rewrite length_flat, length_take. nia.
Qed.

(** ** Search *)

Inductive search_result (xs : list Z) (v : Z) : bool -> Z -> Prop :=
  | search_found l r : xs = l ++ v :: r -> search_result xs v true (Z.of_nat (length l))
  | search_absent l r : xs = l ++ r -> Forall (fun x => x < v) l -> Forall (fun x => v < x) r ->
      search_result xs v false (Z.of_nat (length l)).

Definition below (xs : list Z) (v k : Z) : Prop :=
  forall i x, xs !! i = Some x -> Z.of_nat i < k -> x < v.
Definition above (xs : list Z) (v k : Z) : Prop :=
  forall i x, xs !! i = Some x -> k < Z.of_nat i -> v < x.

Lemma sorted_lookup_lt xs i j x y : StronglySorted Z.lt xs ->
  xs !! i = Some x -> xs !! j = Some y -> (i < j)%nat -> x < y.
Proof.
  intros Hs. revert i j. induction Hs as [|a xs Hs IH Hf]; intros i j Hi Hj Hij; [done|].
  destruct i as [|i], j as [|j]; try lia; simpl in *.
  - injection Hi as ->. eapply Forall_lookup_1 in Hf; eauto.
  - eapply IH; eauto. lia.
Qed.

Lemma absent_split xs v m : 0 <= m <= Z.of_nat (length xs) ->
  below xs v m -> above xs v (m - 1) -> search_result xs v false m.
Proof.
  intros Hm Hb Ha. replace m with (Z.of_nat (length (take (Z.to_nat m) xs)))
    by (rewrite length_take; lia).
  apply search_absent with (drop (Z.to_nat m) xs); [symmetry; apply take_drop| |].
  - apply Forall_lookup_2. intros i x Hi.
    assert (i < Z.to_nat m)%nat
      by (apply lookup_lt_Some in Hi; rewrite length_take in Hi; lia).
    rewrite lookup_take in Hi. case_decide; [|done]. eapply Hb; eauto. lia.
  - apply Forall_lookup_2. intros i x Hi. rewrite lookup_drop in Hi.
    eapply Ha; eauto. lia.
Qed.

Lemma found_split xs v i : xs !! i = Some v -> search_result xs v true (Z.of_nat i).
Proof.
  intros Hi. assert (i < length xs)%nat by (eapply lookup_lt_Some; eauto).
  replace i with (length (take i xs)) by (rewrite length_take; lia).
  apply search_found with (drop (S i) xs). symmetry. now apply take_drop_middle.
Qed.

Lemma mid_spec min max : 0 <= min <= max -> max < 2 ^ 28 ->
  i32 (Z.shiftr (u32 (u32 min + u32 max)) 1) = (min + max) / 2 /\
  min <= (min + max) / 2 <= max.
Proof.
  intros. rewrite !(uwrap_id 32) by (unfold in_u; rewrite ?uwrap_id; unfold in_u; lia).
  rewrite Z.shiftr_div_pow2 by lia. change (2 ^ 1) with 2.
  assert (min <= (min + max) / 2 <= max) by (Z.div_mod_to_equations; lia).
  split; [|done]. apply swrap_id; [lia|]. unfold in_s. lia.
Qed.

Section Search.
Context (ist : intset) (xs : list Z) (v : Z) (R : intset_rep ist xs).

Lemma search_loop_ok fuel : forall min max mid cur,
  0 <= min -> max < Z.of_nat (length xs) -> min <= max + 1 -> max - min + 1 < Z.of_nat fuel ->
  below xs v min -> above xs v max -> (min <= max \/ cur <> v) ->
  exists min' mid' cur', search_loop fuel ist v min max mid cur = Ret (min', mid', cur') /\
    search_result xs v (v =? cur') (if v =? cur' then mid' else min') /\
    (0 <= (if v =? cur' then mid' else min') <= Z.of_nat (length xs)).
Proof.
  induction fuel as [|fuel IH]; intros min max mid cur Hmin Hmax Hle Hfuel Hb Ha Hcur; [lia|].
  pose proof (rep_bound _ _ R) as Hbound.
  cbn [search_loop]. destruct (Z.leb_spec min max) as [Hin|Hout].
  - destruct (mid_spec min max) as [-> Hmid]; [lia..|]. set (m := (min + max) / 2) in *.
    destruct (lookup_lt_is_Some_2 xs (Z.to_nat m)) as [x Hx]; [lia|].
    pose proof (get_rep ist xs (Z.to_nat m) x R Hx) as Hg. rewrite Z2Nat.id in Hg by lia.
    rewrite Hg. cbn [mbind res_bind].
    destruct (Z.ltb_spec x v); [|destruct (Z.ltb_spec v x)].
    + apply IH; try lia; [|auto]. intros i y Hi Hlt.
      destruct (decide (i = Z.to_nat m)); [congruence|].
      enough (y < x) by lia. eapply (sorted_lookup_lt xs i (Z.to_nat m));
        eauto using rep_sorted. lia.
    + apply IH; try lia; [auto|]. intros i y Hi Hlt.
      destruct (decide (i = Z.to_nat m)); [congruence|].
      enough (x < y) by lia. eapply (sorted_lookup_lt xs (Z.to_nat m) i);
        eauto using rep_sorted. lia.
    + assert (x = v) as -> by lia. eexists _, _, _. split; [done|]. rewrite Z.eqb_refl.
      split; [|lia]. rewrite <- (Z2Nat.id m) by lia. now apply found_split.
  - eexists _, _, _. split; [done|]. destruct (Z.eqb_spec v cur); [lia|].
    split; [|lia]. apply absent_split; [lia|done|]. now replace (min - 1) with max by lia.
Qed.

Lemma intsetSearch_ok : exists b pos, intsetSearch ist v = Ret (b, pos) /\ search_result xs v b pos.
Proof.
  unfold intsetSearch. rewrite (rep_length _ _ R). pose proof (rep_bound _ _ R).
  pose proof (rep_sorted _ _ R) as Hs.
  destruct (Z.eqb_spec (Z.of_nat (length xs)) 0).
  { destruct xs; [|simpl in *; lia]. eexists _, _. split; [done|].
    apply (search_absent [] v [] []); [done|constructor|constructor]. }
  rewrite swrap_id by (unfold in_s; lia).
  destruct (lookup_lt_is_Some_2 xs 0) as [x0 H0]; [lia|].
  destruct (lookup_lt_is_Some_2 xs (length xs - 1)) as [xl Hl]; [lia|].
  replace (Z.of_nat (length xs) - 1) with (Z.of_nat (length xs - 1)) by lia.
  rewrite (get_rep _ _ _ _ R Hl). cbn [mbind res_bind]. destruct (Z.ltb_spec xl v).
  { eexists _, _. split; [done|]. apply absent_split; [lia| |].
    - intros i x Hi _. destruct (decide (i = length xs - 1)%nat); [congruence|].
      apply lookup_lt_Some in Hi as Hi'.
      enough (x < xl) by lia. eapply (sorted_lookup_lt xs i); eauto. lia.
    - intros i x Hi. apply lookup_lt_Some in Hi. lia. }
  pose proof (get_rep _ _ 0%nat _ R H0) as Hg0. change (Z.of_nat 0) with 0 in Hg0.
  rewrite Hg0. cbn [mbind res_bind]. destruct (Z.ltb_spec v x0).
  { eexists _, _. split; [done|]. apply absent_split; [lia|intros ? ? ? ?; lia|].
    intros i x Hi _. destruct i; [congruence|].
    enough (x0 < x) by lia. eapply (sorted_lookup_lt xs 0); eauto. lia. }
  destruct (search_loop_ok (S (Z.to_nat (Z.of_nat (length xs)))) 0 (Z.of_nat (length xs - 1)) (-1) (-1))
    as (m & md & c & -> & Hr & Hrange); try lia.
  { intros ? ? ? ?. lia. }
  { intros i x Hi ?. apply lookup_lt_Some in Hi. lia. }
  cbn [mbind res_bind].
  destruct (v =? c); (rewrite uwrap_id by (unfold in_u; lia)); eauto.
Qed.
End Search.

(** ** Upgrade *)

Section Upgrade.
Context (xs : list Z) (cur new : Z) (pp : nat) (tail : list Z).
Context (Hcur : enc_ok cur) (Hnew : enc_ok new) (Hlt : cur < new) (Hpp : (pp <= 1)%nat).
Context (Hfit : Forall (in_s (8 * cur)) xs).
Let c := Z.to_nat cur.
Let n := Z.to_nat new.

(** After the elements from index [k] on have been rewritten: the first
    [k] are still there in the old encoding, the others are at their new
    place. *)
Definition upgraded (k : nat) (ist : intset) : Prop :=
  is_encoding ist = new /\ is_length ist = Z.of_nat (length xs) /\
  length (is_contents ist) = ((length xs + 1) * n)%nat /\
  take (k * c) (is_contents ist) = flat c (take k xs) /\
  drop ((k + pp) * n) (is_contents ist) = flat n (drop k xs) ++ tail.

Lemma upgrade_loop_ok k : forall ist, (k <= length xs)%nat -> upgraded k ist ->
  exists ist', upgrade_loop k ist (Z.of_nat pp) cur = Ret ist' /\ upgraded 0 ist'.
Proof.
  destruct (enc_pos cur Hcur) as [Hc Hc']. destruct (enc_pos new Hnew) as [Hn Hn'].
  assert (c < n)%nat as Hcn by (unfold c, n; lia).
  induction k as [|k IH]; intros ist Hk (He & Hlen & Hl & Ht & Hd).
  { exists ist. split; [done|]. repeat split; auto. }
  cbn [upgrade_loop]. destruct (lookup_lt_is_Some_2 xs k) as [x Hx]; [lia|].
  rewrite (get_at ist cur k x xs); [|done| |done|eapply Forall_lookup_1; eauto];
    [|replace (k + 1)%nat with (S k) by lia; exact Ht].
  cbn [mbind res_bind]. replace (Z.of_nat k + Z.of_nat pp) with (Z.of_nat (k + pp)) by lia.
  rewrite set_blit by (rewrite He; first [done | fold n; rewrite Hl; nia]).
  cbn [mbind res_bind]. rewrite He. fold n.
  apply IH; [lia|]. set (m := is_contents ist) in *.
  assert ((k + pp) * n + n <= length m)%nat by (rewrite Hl; nia).
  split; [done|]. split; [done|]. cbn [is_contents set_contents]. split; [|split].
  - rewrite length_blit; [done|]. rewrite length_le_bytes. lia.
  - rewrite take_blit_before by nia.
    replace (k * c)%nat with ((k * c) `min` (S k * c))%nat by lia.
    rewrite <- take_take, Ht, (take_S_r xs k x Hx), flat_app.
    rewrite take_app_le by (rewrite length_flat, length_take; nia).
    apply take_ge. rewrite length_flat, length_take. nia.
  - rewrite drop_blit_at by lia. rewrite length_le_bytes.
    replace ((k + pp) * n + n)%nat with ((S k + pp) * n)%nat by lia. rewrite Hd.
    rewrite app_assoc. f_equal. rewrite (drop_S xs x k Hx). reflexivity.
Qed.
End Upgrade.

Lemma value_encoding_spec v : in_s 64 v ->
  enc_ok (_intsetValueEncoding v) /\ in_s (8 * _intsetValueEncoding v) v /\
  (forall e, enc_ok e -> e < _intsetValueEncoding v ->
     v < - 2 ^ (8 * e - 1) \/ 2 ^ (8 * e - 1) <= v).
Proof.
  unfold _intsetValueEncoding, in_s, enc_ok, INTSET_ENC_INT64, INTSET_ENC_INT32, INTSET_ENC_INT16,
    INT32_MIN, INT32_MAX, INT16_MIN, INT16_MAX.
  change (2 ^ (64 - 1)) with (2 ^ 63). intros Hv.
  destruct ((v <? _) || (_ <? v)) eqn:E.
  - split; [auto|]. split; [lia|]. intros e [->|[->| ->]]; lia.
  - destruct ((v <? -32768) || (32767 <? v)) eqn:E'.
    + split; [auto|]. split; [lia|]. intros e [->|[->| ->]]; lia.
    + split; [auto|]. split; [lia|]. intros e [->|[->| ->]]; lia.
Qed.

Lemma in_s_mono e1 e2 x : 0 < e1 <= e2 -> in_s (8 * e1) x -> in_s (8 * e2) x.
Proof. intros H. apply in_s_weaken. lia. Qed.

Lemma StronglySorted_snoc xs v : StronglySorted Z.lt xs -> Forall (fun x => x < v) xs ->
  StronglySorted Z.lt (xs ++ [v]).
Proof.
  induction 1 as [|x xs Hs IH Hf]; intros Hv; simpl; [repeat constructor|].
  inversion Hv; subst. constructor; [auto|]. apply Forall_app. split; [done|]. by constructor.
Qed.

Lemma StronglySorted_insert l r v :
  StronglySorted Z.lt (l ++ r) -> Forall (fun x => x < v) l -> Forall (fun x => v < x) r ->
  StronglySorted Z.lt (l ++ v :: r).
Proof.
  induction l as [|x l IH]; simpl; intros Hs Hl Hr.
  - by constructor.
  - inversion Hs as [|? ? Hs' Hf]; inversion Hl; subst. constructor; [auto|].
    apply Forall_app in Hf as [Hf1 Hf2]. apply Forall_app. split; [done|]. by constructor.
Qed.

Lemma StronglySorted_remove l r v :
  StronglySorted Z.lt (l ++ v :: r) -> StronglySorted Z.lt (l ++ r) /\ v ∉ l ++ r.
Proof.
  induction l as [|x l IH]; simpl; intros Hs; inversion Hs as [|? ? Hs' Hf]; subst.
  - split; [done|]. intros Hin. rewrite Forall_forall in Hf.
    apply Hf in Hin. lia.
  - destruct (IH Hs') as [H1 H2]. apply Forall_app in Hf as [Hf1 Hf2].
    inversion Hf2; subst. split.
    + constructor; [done|]. apply Forall_app. done.
    + rewrite elem_of_cons. intros [->|]; [lia|done].
Qed.

(** ** Insertion *)

Lemma rep_intro ist enc xs : enc_ok enc ->
  is_encoding ist = enc -> is_length ist = Z.of_nat (length xs) ->
  is_contents ist = flat (Z.to_nat enc) xs -> Forall (in_s (8 * enc)) xs ->
  StronglySorted Z.lt xs -> Z.of_nat (length xs) < 2 ^ 28 -> intset_rep ist xs.
Proof. intros ? <-. constructor; auto. Qed.

Lemma length_contents ist xs : intset_rep ist xs ->
  length (is_contents ist) = (Z.to_nat (is_encoding ist) * length xs)%nat.
Proof. intros R. rewrite (rep_contents _ _ R). apply length_flat. Qed.

Lemma resize_eq junk ist len : enc_ok (is_encoding ist) -> 0 <= len < 2 ^ 28 ->
  intsetResize junk ist len =
  set_contents ist (realloc junk (is_contents ist) (Z.to_nat len * Z.to_nat (is_encoding ist))).
Proof.
  intros He Hl. unfold intsetResize. destruct (enc_pos _ He).
  rewrite uwrap_id by (unfold in_u; nia). do 2 f_equal. lia.
Qed.

(** A value that needs a wider encoding lies outside the stored values. *)
Lemma upgrade_outside ist xs v : intset_rep ist xs -> in_s 64 v ->
  is_encoding ist < _intsetValueEncoding v ->
  Forall (fun x => if v <? 0 then v < x else x < v) xs /\ (v ∉ xs).
Proof.
  intros R Hv Hlt. destruct (value_encoding_spec v Hv) as (_ & _ & Hout).
  specialize (Hout _ (rep_enc _ _ R) Hlt). destruct (enc_pos _ (rep_enc _ _ R)).
  assert (Forall (fun x => if v <? 0 then v < x else x < v) xs) as Hord.
  { eapply Forall_impl; [exact (rep_fit _ _ R)|]. unfold in_s. intros x Hx.
    assert (0 < 2 ^ (8 * is_encoding ist - 1)) by lia. zif; destruct Hout; lia. }
  split; [done|]. intros Hin. rewrite Forall_forall in Hord.
  apply Hord in Hin. destruct (v <? 0); lia.
Qed.

(** The state before the new element is written: the old elements are in
    the new encoding, with room before ([pp = 1]) or after them. *)
Lemma upgrade_rewrite junk ist xs new pp : intset_rep ist xs -> enc_ok new ->
  is_encoding ist < new -> (pp <= 1)%nat ->
  let n := Z.to_nat new in
  let m := realloc junk (is_contents ist) ((length xs + 1) * n) in
  exists ist', upgrade_loop (length xs) (mk_intset new (Z.of_nat (length xs)) m)
                 (Z.of_nat pp) (is_encoding ist) = Ret ist' /\
    is_encoding ist' = new /\ is_length ist' = Z.of_nat (length xs) /\
    length (is_contents ist') = ((length xs + 1) * n)%nat /\
    exists room, length room = ((1 - pp) * n)%nat /\
      drop (pp * n) (is_contents ist') = flat n xs ++ room.
Proof.
  intros R Hnew Hlt Hpp n m. pose proof (rep_enc _ _ R) as Hcur.
  destruct (enc_pos _ Hcur). destruct (enc_pos _ Hnew).
  pose proof (length_contents _ _ R) as Hlc.
  destruct (upgrade_loop_ok xs (is_encoding ist) new pp (drop ((length xs + pp) * n) m)
    Hcur Hnew Hlt Hpp (rep_fit _ _ R) (length xs) (mk_intset new (Z.of_nat (length xs)) m))
    as (ist' & E & He & Hl & Hlen & _ & Hd); [lia| |].
  { split; [done|]. split; [done|]. cbn [is_contents]. split; [apply length_realloc|].
    split; [|now rewrite drop_all].
    rewrite (firstn_all xs). unfold m. rewrite take_realloc by (fold n; nia).
    rewrite <- (rep_contents _ _ R). apply take_ge. lia. }
  rewrite Nat.add_0_l, drop_0 in Hd. fold n in Hd, Hlen.
  exists ist'. repeat (split; [done|]). eexists. split; [|exact Hd].
  unfold m. rewrite length_drop, length_realloc. nia.
Qed.

Lemma upgrade_ok junk ist xs v : intset_rep ist xs -> in_s 64 v ->
  Z.of_nat (length xs) + 1 < 2 ^ 28 -> is_encoding ist < _intsetValueEncoding v ->
  exists ist' xs', intsetUpgradeAndAdd junk ist v = Ret ist' /\ intset_rep ist' xs' /\
    (forall z, z ∈ xs' <-> z = v \/ z ∈ xs) /\ is_encoding ist' = _intsetValueEncoding v.
Proof.
  intros R Hv Hb Hlt. destruct (value_encoding_spec v Hv) as (Hnew & Hvin & _).
  destruct (upgrade_outside ist xs v R Hv Hlt) as [Hord _].
  destruct (enc_pos _ (rep_enc _ _ R)). destruct (enc_pos _ Hnew).
  unfold intsetUpgradeAndAdd. set (new := _intsetValueEncoding v) in *. set (n := Z.to_nat new).
  assert (Forall (in_s (8 * new)) xs) as Hfit.
  { eapply Forall_impl; [exact (rep_fit _ _ R)|]. intros x. apply in_s_mono. lia. }
  rewrite (rep_length _ _ R), (uwrap_id 8) by (unfold in_u; lia).
  rewrite (swrap_id 32) by (unfold in_s; lia).
  cbn [is_length set_encoding]. rewrite (rep_length _ _ R).
  rewrite (uwrap_id 32 (Z.of_nat _ + 1)) by (unfold in_u; lia).
  rewrite resize_eq by (done || lia). cbn [is_encoding is_contents set_encoding set_contents is_length].
  replace (Z.to_nat (Z.of_nat (length xs) + 1)) with (length xs + 1)%nat by lia.
  rewrite Nat2Z.id. unfold set_contents, set_encoding. cbn [is_encoding is_length].
  rewrite (rep_length _ _ R). fold n.
  destruct (Z.ltb_spec v 0) as [Hneg|Hneg].
  - destruct (upgrade_rewrite junk ist xs new 1 R Hnew Hlt ltac:(lia))
      as (ist' & E & He & Hl & Hlen & room & Hroom & Hd). change (Z.of_nat 1) with 1 in E.
    fold n in E, Hd, Hlen. rewrite E. cbn [mbind res_bind].
    change (_intsetSet ist' 0 v) with (_intsetSet ist' (Z.of_nat 0) v).
    rewrite set_blit by (rewrite He; first [done|fold n; lia]).
    rewrite He. fold n. cbn -[u32 blit]. eexists _, (v :: xs). split; [done|].
    split; [|split; [intros z; rewrite elem_of_cons; tauto|done]].
    rewrite uwrap_id by (unfold in_u; lia). apply (rep_intro _ new); cbn -[blit]; auto; try lia.
    + unfold blit. rewrite length_le_bytes. simpl. fold n. rewrite Nat.mul_1_l in Hd.
      rewrite Hd. destruct room; [now rewrite app_nil_r|simpl in Hroom; lia].
    + constructor; [apply rep_sorted with ist; done|done].
  - destruct (upgrade_rewrite junk ist xs new 0 R Hnew Hlt ltac:(lia))
      as (ist' & E & He & Hl & Hlen & room & Hroom & Hd). change (Z.of_nat 0) with 0 in E.
    fold n in E, Hd, Hlen. rewrite E. cbn [mbind res_bind Z.eqb]. rewrite Hl.
    rewrite set_blit by (rewrite He; first [done|fold n; lia]).
    rewrite He. fold n. cbn -[u32 blit]. eexists _, (xs ++ [v]). split; [done|].
    split; [|split; [intros z; rewrite elem_of_app, list_elem_of_singleton; tauto|done]].
    rewrite uwrap_id by (unfold in_u; lia).
    rewrite Nat.mul_0_l, drop_0 in Hd. rewrite Nat.mul_1_l in Hroom.
    apply (rep_intro _ new); cbn -[blit]; auto; try (rewrite length_app; cbn [length]; lia).
    + rewrite Hd, flat_app. fold n. change (flat n [v]) with (le_bytes n v ++ []).
      replace (length xs * n)%nat with (length (flat n xs)) by (rewrite length_flat; lia).
      rewrite <- (app_nil_r room). apply blit_app_mid. rewrite length_le_bytes. lia.
    + apply Forall_app. split; [done|]. by constructor.
    + apply StronglySorted_snoc; [apply rep_sorted with ist; done|done].
Qed.

Lemma moveTail_eq ist from to len : enc_ok (is_encoding ist) ->
  is_length ist = Z.of_nat len -> Z.of_nat len < 2 ^ 28 -> (from <= len)%nat ->
  let n := Z.to_nat (is_encoding ist) in
  (len * n <= length (is_contents ist))%nat -> ((to + (len - from)) * n <= length (is_contents ist))%nat ->
  intsetMoveTail ist (Z.of_nat from) (Z.of_nat to) =
  Ret (set_contents ist (blit (is_contents ist) (to * n)
         (slice (is_contents ist) (from * n) ((len - from) * n)))).
Proof.
  intros He Hl Hb Hf n H1 H2. unfold intsetMoveTail. rewrite Hl.
  rewrite (uwrap_id 32 (Z.of_nat len - _)) by (unfold in_u; lia).
  assert (forall k, is_encoding ist = Z.of_nat k -> (k <= 8)%nat ->
    (bs ← memread (is_contents ist) (Z.of_nat from * Z.of_nat k)
            (Z.to_nat (u32 ((Z.of_nat len - Z.of_nat from) * Z.of_nat k)));
     m ← memwrite (is_contents ist) (Z.of_nat to * Z.of_nat k) bs; Ret (set_contents ist m))
    = Ret (set_contents ist (blit (is_contents ist) (to * n)
         (slice (is_contents ist) (from * n) ((len - from) * n))))) as Hk.
  { intros k Ek Hk. assert (n = k) as -> by (unfold n; lia).
    rewrite uwrap_id by (unfold in_u; nia).
    replace (Z.to_nat ((Z.of_nat len - Z.of_nat from) * Z.of_nat k))
      with ((len - from) * k)%nat by nia.
    rewrite <- !Nat2Z.inj_mul, memread_ok by nia. cbn [mbind res_bind].
    rewrite memwrite_ok by (rewrite length_slice; nia). done. }
  destruct He as [He|[He|He]]; rewrite He; cbn [Z.eqb].
  - apply (Hk 2%nat); [done|lia].
  - apply (Hk 4%nat); [done|lia].
  - apply (Hk 8%nat); [done|lia].
Qed.

(** Opening a gap after [l] and writing the element there. *)
Lemma insert_bytes n l r v j : length j = n ->
  let m := flat n (l ++ r) ++ j in
  let gap := blit m ((length l + 1) * n) (slice m (length l * n) (length r * n)) in
  blit gap (length l * n) (le_bytes n v) = flat n (l ++ v :: r).
Proof.
  intros Hj m gap. assert (length (flat n l) = (length l * n)%nat) as Hl by (rewrite length_flat; lia).
  assert (length (flat n r) = (length r * n)%nat) as Hr by (rewrite length_flat; lia).
  assert (m = flat n l ++ flat n r ++ j) as Hm by (unfold m; rewrite flat_app, <- app_assoc; done).
  assert (length m = ((length l + length r + 1) * n)%nat) as Hml
    by (rewrite Hm, !length_app, Hl, Hr; lia).
  assert (slice m (length l * n) (length r * n) = flat n r) as Hs
    by (rewrite Hm, <- Hl, <- Hr; apply slice_app_mid).
  assert (gap = take ((length l + 1) * n) m ++ flat n r) as Hg.
  { unfold gap, blit. rewrite Hs, Hr, (drop_ge m) by lia. now rewrite app_nil_r. }
  unfold blit. rewrite Hg, length_le_bytes.
  rewrite (take_app_le (take _ m)) by (rewrite length_take; lia).
  rewrite take_take, Nat.min_l, drop_app_ge by (rewrite ?length_take; lia).
  rewrite length_take. replace (length l * n + n - _)%nat with 0%nat by lia.
  rewrite drop_0, Hm, <- Hl, take_app_length, flat_app. done.
Qed.

Lemma remove_bytes n l r v : let m := flat n (l ++ v :: r) in
  take ((length l + length r) * n)
    (blit m (length l * n) (slice m ((length l + 1) * n) (length r * n))) = flat n (l ++ r).
Proof.
  intros m. assert (length (flat n l) = (length l * n)%nat) as Hl by (rewrite length_flat; lia).
  assert (length (flat n r) = (length r * n)%nat) as Hr by (rewrite length_flat; lia).
  assert (m = (flat n l ++ le_bytes n v) ++ flat n r ++ []) as Hm
    by (unfold m; rewrite flat_app, <- app_assoc, app_nil_r; done).
  assert (slice m ((length l + 1) * n) (length r * n) = flat n r) as ->.
  { replace ((length l + 1) * n)%nat with (length (flat n l ++ le_bytes n v))
      by (rewrite length_app, length_le_bytes; lia).
    rewrite Hm, <- Hr. apply slice_app_mid. }
  unfold blit. rewrite app_assoc.
  assert (take (length l * n) m = flat n l) as ->
    by (rewrite Hm, <- app_assoc, <- Hl; apply take_app_length).
  rewrite flat_app. apply take_app_length'. rewrite length_app. lia.
Qed.

(** The gap for a value absent from [l ++ r] that goes between them. *)
Lemma open_gap ist l r v j : enc_ok (is_encoding ist) ->
  let n := Z.to_nat (is_encoding ist) in
  is_length ist = Z.of_nat (length l + length r) -> Z.of_nat (length l + length r) < 2 ^ 28 ->
  is_contents ist = flat n (l ++ r) ++ j -> length j = n ->
  exists m', (if Z.of_nat (length l) <? is_length ist
      then intsetMoveTail ist (Z.of_nat (length l)) (Z.of_nat (length l + 1))
      else Ret ist) = Ret (set_contents ist m') /\
    length m' = ((length l + length r + 1) * n)%nat /\
    blit m' (length l * n) (le_bytes n v) = flat n (l ++ v :: r).
Proof.
  intros He n Hlen Hb Hm Hj. rewrite Hlen.
  assert (length (is_contents ist) = ((length l + length r + 1) * n)%nat) as Hml
    by (rewrite Hm, length_app, length_flat, length_app, Hj; lia).
  zif.
  - rewrite (moveTail_eq _ _ _ (length l + length r)) by (fold n; auto; nia).
    fold n. eexists. split; [done|]. rewrite length_blit by (rewrite length_slice; nia).
    split; [done|]. replace (length l + length r - length l)%nat with (length r) by lia.
    rewrite Hm. now apply insert_bytes.
  - assert (r = []) as -> by (destruct r; [done|simpl in *; lia]).
    exists (is_contents ist). split; [now destruct ist|]. split; [done|].
    rewrite Hm, app_nil_r, flat_app.
    replace (length l * n)%nat with (length (flat n l)) by (rewrite length_flat; lia).
    rewrite <- (app_nil_r j). cbn [flat flat_map].
    apply blit_app_mid. now rewrite length_le_bytes.
Qed.

Lemma resize_grow junk ist xs : intset_rep ist xs -> Z.of_nat (length xs) + 1 < 2 ^ 28 ->
  intsetResize junk ist (Z.of_nat (length xs) + 1) =
  set_contents ist (flat (Z.to_nat (is_encoding ist)) xs ++ replicate (Z.to_nat (is_encoding ist)) junk).
Proof.
  intros R Hb. rewrite resize_eq by (first [apply (rep_enc _ _ R)|lia]). f_equal.
  unfold realloc. rewrite (rep_contents _ _ R), length_flat.
  f_equal; [apply take_ge; rewrite length_flat; lia|f_equal; lia].
Qed.

Lemma insert_absent_ok junk ist l r v : intset_rep ist (l ++ r) ->
  Forall (fun x => x < v) l -> Forall (fun x => v < x) r -> in_s (8 * is_encoding ist) v ->
  Z.of_nat (length (l ++ r)) + 1 < 2 ^ 28 ->
  exists ist', (let ist := intsetResize junk ist (u32 (is_length ist + 1)) in
     ist ← (if Z.of_nat (length l) <? is_length ist
            then intsetMoveTail ist (Z.of_nat (length l)) (u32 (Z.of_nat (length l) + 1)) else Ret ist);
     ist ← _intsetSet ist (Z.of_nat (length l)) v;
     Ret (set_length ist (u32 (is_length ist + 1)), true)) = Ret (ist', true) /\
    intset_rep ist' (l ++ v :: r) /\ is_encoding ist' = is_encoding ist.
Proof.
  intros R Hl Hr Hv Hb. pose proof (rep_enc _ _ R) as He. destruct (enc_pos _ He) as [Hp Hz].
  pose proof (rep_length _ _ R) as Hlen. rewrite Hlen.
  rewrite uwrap_id by (unfold in_u; lia). rewrite resize_grow by done.
  rewrite length_app in *. cbv zeta.
  rewrite (uwrap_id 32 (Z.of_nat (length l) + 1)) by (unfold in_u; lia).
  replace (Z.of_nat (length l) + 1) with (Z.of_nat (length l + 1)) by lia.
  set (ist1 := set_contents ist _).
  destruct (open_gap ist1 l r v (replicate (Z.to_nat (is_encoding ist)) junk))
    as (m' & E & Hm' & Hbl);
    [exact He | exact Hlen | lia | reflexivity | apply length_replicate |].
  rewrite E. cbn [mbind res_bind].
  rewrite set_blit by (cbn [set_contents ist1 is_encoding is_contents] in *; first [done|nia]).
  cbn [mbind res_bind set_contents ist1 is_encoding is_contents is_length set_length] in *.
  rewrite Hbl. eexists. split; [done|]. split; [|done].
  apply (rep_intro _ (is_encoding ist)); cbn [set_length is_encoding is_contents is_length]; auto.
  - rewrite Hlen, uwrap_id by (unfold in_u; lia). rewrite length_app. cbn [length]. lia.
  - destruct (proj1 (Forall_app _ _ _) (rep_fit _ _ R)) as [F1 F2]. apply Forall_app.
    split; [done|]. by constructor.
  - apply StronglySorted_insert; auto. apply rep_sorted with ist; done.
  - rewrite length_app. cbn [length]. lia.
Qed.

(** The least encoding from [enc] on that holds [v]. *)
Definition least_encoding (enc v e : Z) : Prop :=
  enc <= e /\ in_s (8 * e) v /\ forall e', enc_ok e' -> enc <= e' -> in_s (8 * e') v -> e <= e'.

Lemma least_value_encoding enc v : in_s 64 v -> enc <= _intsetValueEncoding v -> least_encoding enc v (_intsetValueEncoding v).
Proof.
  intros Hv Hle. destruct (value_encoding_spec v Hv) as (_ & Hin & Hmin). split; [done|]. split; [done|]. intros e' He' _ Hin'.
  destruct (Z.le_gt_cases (_intsetValueEncoding v) e') as [|Hlt]; [done|]. unfold in_s in Hin'. destruct (Hmin e' He' Hlt); lia.
Qed.

Lemma least_same enc v : in_s 64 v -> enc_ok enc -> _intsetValueEncoding v <= enc -> least_encoding enc v enc.
Proof.
  intros Hv He Hle. destruct (value_encoding_spec v Hv) as (Hn & Hin & _). destruct (enc_pos _ Hn). split; [done|].
  split; [eapply in_s_mono; [|exact Hin]; lia|]. intros e' _ Hge _. exact Hge.
Qed.

(** C34: intsetAdd on a set that represents [xs]: it stays in bounds, reports
    success exactly when the value was not in the set, and the result
    represents the increasing list of the old elements and the value; its
    encoding is the least one, from the old encoding on, that holds the
    value: a set is upgraded only when the value needs it, and not further. *)
Theorem intsetAdd_refines junk ist xs v :
  intset_rep ist xs -> in_s 64 v -> Z.of_nat (length xs) + 1 < 2 ^ 28 ->
  exists ist' xs', intsetAdd junk ist v = Ret (ist', negb (bool_decide (v ∈ xs))) /\
    intset_rep ist' xs' /\ (forall z, z ∈ xs' <-> z = v \/ z ∈ xs) /\
    least_encoding (is_encoding ist) v (is_encoding ist').
Proof.
  intros R Hv Hb. unfold intsetAdd. destruct (Z.ltb_spec (is_encoding ist) (_intsetValueEncoding v)).
  - destruct (upgrade_ok junk ist xs v R Hv Hb H) as (ist' & xs' & -> & R' & Hmem & He).
    destruct (upgrade_outside ist xs v R Hv H) as [_ Hn].
    exists ist', xs'. rewrite bool_decide_eq_false_2 by done. do 3 (split; [done|]). rewrite He. apply least_value_encoding; [done|lia].
  - destruct (intsetSearch_ok ist xs v R) as (b & pos & -> & Hres). cbn [mbind res_bind].
    assert (Hle : least_encoding (is_encoding ist) v (is_encoding ist)) by (apply least_same; [done|apply (rep_enc _ _ R)|lia]).
    destruct Hres as [l r ->|l r -> Hl Hr].
    + exists ist, (l ++ v :: r). rewrite bool_decide_eq_true_2 by set_solver.
      split; [done|]. split; [done|]. split; [set_solver|done].
    + rewrite bool_decide_eq_false_2.
      * destruct (value_encoding_spec v Hv) as (Hne & Hvi & _). destruct (enc_pos _ Hne).
        destruct (insert_absent_ok junk ist l r v R Hl Hr) as (ist' & E & R' & He);
          [eapply in_s_mono; [|exact Hvi]; lia|done|].
        exists ist', (l ++ v :: r). cbv zeta in E. cbn [negb]. rewrite E.
        split; [done|]. split; [done|]. split; [set_solver|by rewrite He].
      * rewrite Forall_forall in Hl, Hr. rewrite elem_of_app.
        intros [Hi|Hi]; [apply Hl in Hi|apply Hr in Hi]; lia.
Qed.

Lemma resize_shrink junk ist m len : enc_ok (is_encoding ist) -> Z.of_nat len < 2 ^ 28 ->
  (len * Z.to_nat (is_encoding ist) <= length m)%nat ->
  intsetResize junk (set_contents ist m) (Z.of_nat len) =
  set_contents ist (take (len * Z.to_nat (is_encoding ist)) m).
Proof.
  intros He Hb Hl. rewrite resize_eq by (done || lia).
  cbn [is_encoding is_contents set_contents]. unfold set_contents at 1 2; cbn. f_equal.
  unfold realloc. rewrite Nat2Z.id.
  replace (len * Z.to_nat (is_encoding ist) - length m)%nat with 0%nat by lia.
  now rewrite app_nil_r.
Qed.

Lemma remove_found_ok junk ist l r v : intset_rep ist (l ++ v :: r) ->
  exists ist', (let len := is_length ist in
     ist ← (if Z.of_nat (length l) <? u32 (len - 1)
            then intsetMoveTail ist (u32 (Z.of_nat (length l) + 1)) (Z.of_nat (length l)) else Ret ist);
     Ret (set_length (intsetResize junk ist (u32 (len - 1))) (u32 (len - 1)), true)) = Ret (ist', true) /\
    intset_rep ist' (l ++ r).
Proof.
  intros R. pose proof (rep_enc _ _ R) as He. destruct (enc_pos _ He) as [Hp Hz].
  pose proof (rep_length _ _ R) as Hlen. pose proof (rep_bound _ _ R) as Hb.
  pose proof (length_contents _ _ R) as Hlc.
  rewrite length_app in Hlen, Hb, Hlc. cbn [length] in Hlen, Hb, Hlc.
  set (n := Z.to_nat (is_encoding ist)) in *. cbv zeta. rewrite Hlen.
  replace (Z.of_nat (length l + S (length r)) - 1) with (Z.of_nat (length l + length r)) by lia.
  rewrite !uwrap_id by (unfold in_u; lia).
  assert (exists m', (if Z.of_nat (length l) <? Z.of_nat (length l + length r)
       then intsetMoveTail ist (Z.of_nat (length l) + 1) (Z.of_nat (length l)) else Ret ist)
       = Ret (set_contents ist m') /\ (length m' = (length l + length r + 1) * n)%nat /\
       take ((length l + length r) * n) m' = flat n (l ++ r)) as (m' & -> & Hm' & Ht).
  { zif.
    - replace (Z.of_nat (length l) + 1) with (Z.of_nat (length l + 1)) by lia.
      rewrite (moveTail_eq _ _ _ (length l + S (length r))) by (fold n; auto; nia).
      fold n. replace (length l + S (length r) - (length l + 1))%nat with (length r) by lia.
      eexists. split; [done|]. rewrite length_blit by (rewrite length_slice; nia).
      split; [lia|]. rewrite (rep_contents _ _ R). apply remove_bytes.
    - assert (r = []) as -> by (destruct r; [done|simpl in *; lia]).
      exists (is_contents ist). split; [now destruct ist|]. split; [simpl in *; lia|].
      rewrite (rep_contents _ _ R), flat_app, app_nil_r. fold n.
      apply take_app_length'. rewrite length_flat. simpl. lia. }
  cbn [mbind res_bind]. rewrite resize_shrink by (fold n; auto; nia). fold n. rewrite Ht.
  eexists. split; [done|].
  destruct (StronglySorted_remove l r v (rep_sorted _ _ R)) as [Hs _].
  destruct (proj1 (Forall_app _ _ _) (rep_fit _ _ R)) as [F1 F2]. inversion F2; subst.
  apply (rep_intro _ (is_encoding ist)); cbn [set_length set_contents is_encoding is_contents is_length];
    auto; rewrite ?length_app; try lia. apply Forall_app. done.
Qed.

(** intsetRemove reports success exactly when the value was in the set,
    stays in bounds, and the result represents the other elements. *)
Theorem intsetRemove_refines junk ist xs v :
  intset_rep ist xs -> in_s 64 v ->
  exists ist' xs', intsetRemove junk ist v = Ret (ist', bool_decide (v ∈ xs)) /\
    intset_rep ist' xs' /\ (forall z, z ∈ xs' <-> z <> v /\ z ∈ xs).
Proof.
  intros R Hv. unfold intsetRemove.
  destruct (Z.leb_spec (_intsetValueEncoding v) (is_encoding ist)).
  - destruct (intsetSearch_ok ist xs v R) as (b & pos & -> & Hres). cbn [mbind res_bind].
    destruct Hres as [l r ->|l r -> Hl Hr].
    + destruct (remove_found_ok junk ist l r v R) as (ist' & E & R'). cbv zeta in E.
      rewrite E. exists ist', (l ++ r). rewrite bool_decide_eq_true_2 by set_solver.
      split; [done|]. split; [done|].
      destruct (StronglySorted_remove l r v (rep_sorted _ _ R)) as [_ Hn]. set_solver.
    + exists ist, (l ++ r). assert (v ∉ l ++ r) as Hn.
      { rewrite Forall_forall in Hl, Hr. rewrite elem_of_app.
        intros [Hi|Hi]; [apply Hl in Hi|apply Hr in Hi]; lia. }
      rewrite bool_decide_eq_false_2 by done. split; [done|]. split; [done|]. set_solver.
  - destruct (upgrade_outside ist xs v R Hv) as [_ Hn]; [lia|]. exists ist, xs.
    rewrite bool_decide_eq_false_2 by done. split; [done|]. split; [done|]. set_solver.
Qed.

(** intsetFind decides membership; intsetGet reads the elements in
    increasing order and refuses positions out of range; intsetLen counts
    them; intsetRandom returns an element of a set that is not empty. *)
Theorem intset_queries ist xs v pos rnd :
  intset_rep ist xs -> in_s 64 v -> 0 <= pos -> 0 <= rnd ->
  intsetFind ist v = Ret (bool_decide (v ∈ xs)) /\
  intsetGet ist pos = Ret (xs !! Z.to_nat pos) /\
  intsetLen ist = Z.of_nat (length xs) /\
  intsetBlobLen ist = 8 + Z.of_nat (length (is_contents ist)) /\
  (xs <> [] -> exists x, intsetRandom rnd ist = Ret x /\ x ∈ xs).
Proof.
  intros R Hv Hpos Hrnd. pose proof (rep_bound _ _ R). pose proof (rep_length _ _ R) as Hl.
  destruct (enc_pos _ (rep_enc _ _ R)). split; [|split; [|split; [|split]]].
  - unfold intsetFind. zif.
    + destruct (intsetSearch_ok ist xs v R) as (b & p & -> & Hres). cbn [mbind res_bind].
      f_equal. destruct Hres as [l r ->|l r -> Hlt Hgt].
      * rewrite bool_decide_eq_true_2; [done|set_solver].
      * rewrite bool_decide_eq_false_2; [done|].
        rewrite Forall_forall in Hlt, Hgt. rewrite elem_of_app.
        intros [Hi|Hi]; [apply Hlt in Hi|apply Hgt in Hi]; lia.
    + destruct (upgrade_outside ist xs v R Hv) as [_ Hn]; [lia|].
      now rewrite bool_decide_eq_false_2.
  - unfold intsetGet. rewrite Hl. zif.
    + destruct (lookup_lt_is_Some_2 xs (Z.to_nat pos)) as [x Hx]; [lia|].
      pose proof (get_rep _ _ _ _ R Hx) as Hg. rewrite Z2Nat.id in Hg by done.
      rewrite Hg. cbn. now rewrite Hx.
    + now rewrite lookup_ge_None_2 by lia.
  - exact Hl.
  - unfold intsetBlobLen. rewrite (length_contents _ _ R), Hl.
    rewrite !uwrap_id by (unfold in_u; rewrite ?uwrap_id; unfold in_u; nia). nia.
  - intros Hne. unfold intsetRandom. rewrite Hl. destruct xs as [|y ys] eqn:Exs; [congruence|].
    rewrite <- Exs in *. destruct (Z.eqb_spec (Z.of_nat (length xs)) 0) as [Hz|_];
      [rewrite Exs in Hz; simpl in Hz; lia|].
    assert (0 < length xs)%nat by (rewrite Exs; simpl; lia).
    pose proof (Z.mod_pos_bound rnd (Z.of_nat (length xs)) ltac:(lia)).
    destruct (lookup_lt_is_Some_2 xs (Z.to_nat (rnd mod Z.of_nat (length xs)))) as [x Hx]; [lia|].
    pose proof (get_rep _ _ _ _ R Hx) as Hg. rewrite Z2Nat.id in Hg by lia.
    exists x. split; [done|]. eapply list_elem_of_lookup_2; exact Hx.
Qed.

(** ** Witnesses *)

Lemma intsetNew_rep : intset_rep intsetNew [].
Proof. constructor; cbn; auto; try constructor; try lia. auto. Qed.

(** The set \{-3, 5, 70000\}, 32 bit encoded. *)
Definition sample : intset :=
  mk_intset 4 3 (flat 4 [-3; 5; 70000]).

Lemma sample_rep : intset_rep sample [-3; 5; 70000].
Proof.
  constructor; cbn; try reflexivity; try lia.
  - unfold enc_ok. auto.
  - repeat constructor; cbn; lia.
  - repeat constructor; lia.
Qed.

Lemma intsetAdd_refines_witness :
  exists ist' xs', intsetAdd 0 sample (2 ^ 40) = Ret (ist', true) /\
    intset_rep ist' xs' /\ (forall z, z ∈ xs' <-> z = 2 ^ 40 \/ z ∈ [-3; 5; 70000]) /\
    least_encoding (is_encoding sample) (2 ^ 40) (is_encoding ist').
Proof.
  apply (intsetAdd_refines 0 sample [-3; 5; 70000] (2 ^ 40));
    [exact sample_rep | unfold in_s; lia | simpl; lia].
Defined.

Lemma intsetRemove_refines_witness :
  exists ist' xs', intsetRemove 0 sample 5 = Ret (ist', true) /\
    intset_rep ist' xs' /\ (forall z, z ∈ xs' <-> z <> 5 /\ z ∈ [-3; 5; 70000]).
Proof.
  apply (intsetRemove_refines 0 sample [-3; 5; 70000] 5); [exact sample_rep | unfold in_s; lia].
Defined.

Lemma intset_queries_witness :
  intsetFind sample 5 = Ret true /\ intsetGet sample 2 = Ret (Some 70000).
Proof.
  destruct (intset_queries sample [-3; 5; 70000] 5 2 0 sample_rep) as (H1 & H2 & _);
    [unfold in_s; lia | lia | lia |].
  split; [exact H1 | exact H2].
Defined.
