(* ===== verification/Dict.v ===== *)
(** * Dict: hash tables with incremental rehashing (redis/src/dict.c, dict.h)

    A dict has two tables of chained buckets; while it is rehashing, every
    operation moves one bucket from the first to the second.  A chain of
    entries linked by [next] is the list of its entries, head first; a
    table is the list of its chains, the empty list standing for the NULL
    table of a reset [dictht].  The callbacks of [dictType] are a record;
    two model keys are equal when they are the same object for the code.
    Freeing (dictFreeKey, dictFreeVal, zfree) has no counterpart. *)

From S2P Require Import Prelude Util.

(** ** Hash functions *)

(** Thomas Wang's 32 bit mix. *)
Definition dictIntHashFunction (key : Z) : Z :=
  let key := u32 (key + Z.lnot (Z.shiftl key 15)) in
  let key := Z.lxor key (Z.shiftr key 10) in
  let key := u32 (key + Z.shiftl key 3) in
  let key := Z.lxor key (Z.shiftr key 6) in
  let key := u32 (key + Z.lnot (Z.shiftl key 11)) in
  let key := Z.lxor key (Z.shiftr key 16) in
  key.

(** MurmurHash2: four bytes at a time, then the last three. *)
Definition murmur_m : Z := 0x5bd1e995.

Fixpoint murmur_loop (h : Z) (data : list Z) {struct data} : Z * list Z :=
  match data with
  | b0 :: b1 :: b2 :: b3 :: data =>
    let k := le_value [b0; b1; b2; b3] in
    let k := u32 (k * murmur_m) in
    let k := Z.lxor k (Z.shiftr k 24) in
    let k := u32 (k * murmur_m) in
    let h := u32 (h * murmur_m) in
    let h := Z.lxor h k in
    murmur_loop h data
  | _ => (h, data)
  end.

Definition dictGenHashFunction (seed : Z) (key : list Z) : Z :=
  let h := Z.lxor seed (u32 (Z.of_nat (length key))) in
  let '(h, data) := murmur_loop h key in
  let h := match data with
           | [b0; b1; b2] =>
             let h := Z.lxor h (Z.shiftl b2 16) in
             let h := Z.lxor h (Z.shiftl b1 8) in
             let h := Z.lxor h b0 in u32 (h * murmur_m)
           | [b0; b1] =>
             let h := Z.lxor h (Z.shiftl b1 8) in
             let h := Z.lxor h b0 in u32 (h * murmur_m)
           | [b0] => let h := Z.lxor h b0 in u32 (h * murmur_m)
           | _ => h
           end in
  let h := Z.lxor h (Z.shiftr h 13) in
  let h := u32 (h * murmur_m) in
  let h := Z.lxor h (Z.shiftr h 15) in
  h.

(** djb hash on the lower case of the bytes. *)
Definition dictGenCaseHashFunction (seed : Z) (buf : list Z) : Z :=
  fold_left (fun hash c => u32 (u32 (Z.shiftl hash 5) + hash + tolower c)) buf (u32 seed).

(** ** Data *)

Definition DICT_OK : Z := 0.
Definition DICT_ERR : Z := 1.
Definition DICT_HT_INITIAL_SIZE : Z := 4.
Definition dict_force_resize_ratio : Z := 5.

Record dictEntry (K V : Type) : Type := mk_entry { key : K; val : V }.
Arguments mk_entry {K V} _ _.
Arguments key {K V} _.
Arguments val {K V} _.

Record dictType (K V : Type) : Type := mk_type {
  hashFunction : K -> Z;
  keyDup : option (K -> K);
  valDup : option (V -> V);
  keyCompare : option (K -> K -> bool)
}.
Arguments mk_type {K V} _ _ _ _.
Arguments hashFunction {K V} _ _.
Arguments keyDup {K V} _.
Arguments valDup {K V} _.
Arguments keyCompare {K V} _.

Record dictht (K V : Type) : Type := mk_ht {
  table : list (list (dictEntry K V));
  size : Z;
  sizemask : Z;
  used : Z
}.
Arguments mk_ht {K V} _ _ _ _.
Arguments table {K V} _.
Arguments size {K V} _.
Arguments sizemask {K V} _.
Arguments used {K V} _.

Record dict (K V : Type) : Type := mk_dict {
  ht0 : dictht K V;
  ht1 : dictht K V;
  rehashidx : Z;
  iterators : Z
}.
Arguments mk_dict {K V} _ _ _ _.
Arguments ht0 {K V} _.
Arguments ht1 {K V} _.
Arguments rehashidx {K V} _.
Arguments iterators {K V} _.

Section Code.
Context {K V : Type} `{EqDecision K}.
Context (ty : dictType K V).
(** The global [dict_can_resize], and the value field of an entry that
    has just been allocated. *)
Context (dict_can_resize : bool) (uninit : V).

(** *** Macros of dict.h *)

Definition dictSetVal (v : V) : V :=
  match valDup ty with Some dup => dup v | None => v end.
Definition dictSetKey (k : K) : K :=
  match keyDup ty with Some dup => dup k | None => k end.
Definition dictCompareKeys (k1 k2 : K) : bool :=
  match keyCompare ty with Some cmp => cmp k1 k2 | None => bool_decide (k1 = k2) end.
Definition dictHashKey (k : K) : Z := hashFunction ty k.
Definition dictSlots (d : dict K V) : Z := u64 (size (ht0 d) + size (ht1 d)).
Definition dictSize (d : dict K V) : Z := u64 (used (ht0 d) + used (ht1 d)).
Definition dictIsRehashing (d : dict K V) : bool := negb (rehashidx d =? -1).

(** [key == he->key || dictCompareKeys(d, key, he->key)] *)
Definition same_key (k : K) (he : dictEntry K V) : bool :=
  bool_decide (k = key he) || dictCompareKeys k (key he).

(** [ht->table[idx]], and its assignment. *)
Definition bucket (ht : dictht K V) (idx : Z) : res (list (dictEntry K V)) :=
  if bool_decide (table ht = []) then Fault NullDeref
  else if idx <? 0 then Fault OutOfBounds
  else of_opt OutOfBounds (table ht !! Z.to_nat idx).
Definition set_bucket (ht : dictht K V) (idx : Z) (b : list (dictEntry K V)) : dictht K V :=
  mk_ht (<[Z.to_nat idx := b]> (table ht)) (size ht) (sizemask ht) (used ht).
Definition set_used (ht : dictht K V) (n : Z) : dictht K V :=
  mk_ht (table ht) (size ht) (sizemask ht) n.
Definition set_ht0 (d : dict K V) (ht : dictht K V) : dict K V :=
  mk_dict ht (ht1 d) (rehashidx d) (iterators d).
Definition set_ht1 (d : dict K V) (ht : dictht K V) : dict K V :=
  mk_dict (ht0 d) ht (rehashidx d) (iterators d).
Definition set_rehashidx (d : dict K V) (i : Z) : dict K V :=
  mk_dict (ht0 d) (ht1 d) i (iterators d).
Definition set_iterators (d : dict K V) (n : Z) : dict K V :=
  mk_dict (ht0 d) (ht1 d) (rehashidx d) n.

(** *** Creation and resizing *)

Definition _dictReset : dictht K V := mk_ht [] 0 0 0.

Definition _dictInit : dict K V := mk_dict _dictReset _dictReset (-1) 0.

Definition dictCreate : dict K V := _dictInit.

Fixpoint next_power_loop (fuel : nat) (i sz : Z) : res Z :=
  match fuel with
  | O => Fault OutOfFuel
  | S fuel => if sz <=? i then Ret i else next_power_loop fuel (u64 (i * 2)) sz
  end.

(** 64 turns double the initial size past any unsigned long. *)
Definition _dictNextPower (sz : Z) : res Z :=
  if LLONG_MAX <=? sz then Ret LLONG_MAX
  else next_power_loop 64 DICT_HT_INITIAL_SIZE sz.

Definition dictExpand (d : dict K V) (sz : Z) : res (dict K V * Z) :=
  realsize ← _dictNextPower sz;
  if dictIsRehashing d || (sz <? used (ht0 d)) then Ret (d, DICT_ERR)
  else if realsize =? size (ht0 d) then Ret (d, DICT_ERR)
  else
    let n := mk_ht (replicate (Z.to_nat realsize) []) realsize (u64 (realsize - 1)) 0 in
    if bool_decide (table (ht0 d) = []) then Ret (set_ht0 d n, DICT_OK)
    else Ret (set_rehashidx (set_ht1 d n) 0, DICT_OK).

Definition dictResize (d : dict K V) : res (dict K V * Z) :=
  if negb dict_can_resize || dictIsRehashing d then Ret (d, DICT_ERR)
  else
    let minimal := i32 (used (ht0 d)) in
    let minimal := if minimal <? DICT_HT_INITIAL_SIZE then DICT_HT_INITIAL_SIZE else minimal in
    dictExpand d (u64 minimal).

(** *** Incremental rehashing *)

(** while(table[rehashidx] == NULL): the new [rehashidx], the remaining
    [empty_visits], and whether the function returns 1 here. *)
Fixpoint skip_empty (empty_visits : nat) (ht : dictht K V) (idx : Z) : res (Z * nat * bool) :=
  b ← bucket ht idx;
  match b with
  | _ :: _ => Ret (idx, empty_visits, false)
  | [] =>
    match empty_visits with
    | O => Fault OutOfFuel
    | S O => Ret (idx + 1, O, true)
    | S empty_visits => skip_empty empty_visits ht (idx + 1)
    end
  end.

(** while(de): move the entries of a bucket to the second table. *)
Fixpoint move_chain (de : list (dictEntry K V)) (d : dict K V) : res (dict K V) :=
  match de with
  | [] => Ret d
  | e :: nextde =>
    let h := u32 (Z.land (dictHashKey (key e)) (sizemask (ht1 d))) in
    chain ← bucket (ht1 d) h;
    let d := set_ht1 d (set_bucket (ht1 d) h (e :: chain)) in
    let d := set_ht0 d (set_used (ht0 d) (u64 (used (ht0 d) - 1))) in
    let d := set_ht1 d (set_used (ht1 d) (u64 (used (ht1 d) + 1))) in
    move_chain nextde d
  end.

(** "Check if we already rehashed the whole table..." *)
Definition rehash_done (d : dict K V) : dict K V * Z :=
  if used (ht0 d) =? 0 then (mk_dict (ht1 d) _dictReset (-1) (iterators d), 0)
  else (d, 1).

(** while(n-- && used != 0), and what follows it. *)
Fixpoint rehash_loop (n : nat) (empty_visits : nat) (d : dict K V) : res (dict K V * Z) :=
  match n with
  | O => Ret (rehash_done d)
  | S n =>
    if used (ht0 d) =? 0 then Ret (rehash_done d)
    else if size (ht0 d) <=? u64 (rehashidx d) then Fault AssertFailed
    else
      '(idx, empty_visits, stop) ← skip_empty empty_visits (ht0 d) (rehashidx d);
      let d := set_rehashidx d idx in
      if stop : bool then Ret (d, 1)
      else
        de ← bucket (ht0 d) (rehashidx d);
        d ← move_chain de d;
        let d := set_ht0 d (set_bucket (ht0 d) (rehashidx d) []) in
        let d := set_rehashidx d (rehashidx d + 1) in
        rehash_loop n empty_visits d
  end.

Definition dictRehash (d : dict K V) (n : nat) : res (dict K V * Z) :=
  if negb (dictIsRehashing d) then Ret (d, 0)
  else rehash_loop n (n * 10) d.

Definition _dictRehashStep (d : dict K V) : res (dict K V) :=
  if iterators d =? 0 then '(d, _) ← dictRehash d 1; Ret d else Ret d.

(** The step at the head of every lookup and update. *)
Definition step_if_rehashing (d : dict K V) : res (dict K V) :=
  if dictIsRehashing d then _dictRehashStep d else Ret d.

(** *** Insertion *)

Definition _dictExpandIfNeeded (d : dict K V) : res (dict K V * Z) :=
  if dictIsRehashing d then Ret (d, DICT_OK)
  else if size (ht0 d) =? 0 then dictExpand d DICT_HT_INITIAL_SIZE
  else if (size (ht0 d) <=? used (ht0 d)) &&
          (dict_can_resize || (dict_force_resize_ratio <? used (ht0 d) / size (ht0 d)))
  then dictExpand d (u64 (used (ht0 d) * 2))
  else Ret (d, DICT_OK).

(** The loop over the two tables is unrolled. *)
Definition _dictKeyIndex (d : dict K V) (k : K) : res (dict K V * Z) :=
  '(d, r) ← _dictExpandIfNeeded d;
  if r =? DICT_ERR then Ret (d, -1)
  else
    let h := dictHashKey k in
    let idx := u32 (Z.land h (sizemask (ht0 d))) in
    he ← bucket (ht0 d) idx;
    if existsb (same_key k) he then Ret (d, -1)
    else if negb (dictIsRehashing d) then Ret (d, i32 idx)
    else
      let idx := u32 (Z.land h (sizemask (ht1 d))) in
      he ← bucket (ht1 d) idx;
      if existsb (same_key k) he then Ret (d, -1) else Ret (d, i32 idx).

(** A pointer to an entry: its table, bucket and place in the chain. *)
Record entry_ref : Type := mk_ref { er_second : bool; er_idx : Z; er_pos : nat }.

Definition the_ht (d : dict K V) (second : bool) : dictht K V :=
  if second then ht1 d else ht0 d.
Definition set_the_ht (d : dict K V) (second : bool) (ht : dictht K V) : dict K V :=
  if second then set_ht1 d ht else set_ht0 d ht.

Definition deref (d : dict K V) (r : entry_ref) : res (dictEntry K V) :=
  b ← bucket (the_ht d (er_second r)) (er_idx r); of_opt NullDeref (b !! er_pos r).

(** [entry->v.val = x] *)
Definition assign_val (d : dict K V) (r : entry_ref) (x : V) : res (dict K V) :=
  let ht := the_ht d (er_second r) in
  b ← bucket ht (er_idx r);
  Ret (set_the_ht d (er_second r)
    (set_bucket ht (er_idx r) (alter (fun e => mk_entry (key e) x) (er_pos r) b))).

Definition dictAddRaw (d : dict K V) (k : K) : res (dict K V * option entry_ref) :=
  d ← step_if_rehashing d;
  '(d, index) ← _dictKeyIndex d k;
  if index =? -1 then Ret (d, None)
  else
    let second := dictIsRehashing d in
    let ht := the_ht d second in
    chain ← bucket ht index;
    let ht := set_bucket ht index (mk_entry (dictSetKey k) uninit :: chain) in
    let ht := set_used ht (u64 (used ht + 1)) in
    Ret (set_the_ht d second ht, Some (mk_ref second index 0)).

Definition dictAdd (d : dict K V) (k : K) (v : V) : res (dict K V * Z) :=
  '(d, entry) ← dictAddRaw d k;
  match entry with
  | None => Ret (d, DICT_ERR)
  | Some entry => d ← assign_val d entry (dictSetVal v); Ret (d, DICT_OK)
  end.

(** *** Lookup *)

Definition find_in (ht : dictht K V) (k : K) : res (option (Z * nat)) :=
  let idx := u32 (Z.land (dictHashKey k) (sizemask ht)) in
  he ← bucket ht idx;
  match list_find (fun e => same_key k e = true) he with
  | Some (pos, _) => Ret (Some (idx, pos))
  | None => Ret None
  end.

Definition dictFind (d : dict K V) (k : K) : res (dict K V * option entry_ref) :=
  if u64 (used (ht0 d) + used (ht1 d)) =? 0 then Ret (d, None)
  else
    d ← step_if_rehashing d;
    r ← find_in (ht0 d) k;
    match r with
    | Some (idx, pos) => Ret (d, Some (mk_ref false idx pos))
    | None =>
      if negb (dictIsRehashing d) then Ret (d, None)
      else
        r ← find_in (ht1 d) k;
        match r with
        | Some (idx, pos) => Ret (d, Some (mk_ref true idx pos))
        | None => Ret (d, None)
        end
    end.

Definition dictFetchValue (d : dict K V) (k : K) : res (dict K V * option V) :=
  '(d, he) ← dictFind d k;
  match he with
  | Some r => e ← deref d r; Ret (d, Some (val e))
  | None => Ret (d, None)
  end.

(** 1 when the key was new, 0 when its value was replaced. *)
Definition dictReplace (d : dict K V) (k : K) (v : V) : res (dict K V * Z) :=
  '(d, r) ← dictAdd d k v;
  if r =? DICT_OK then Ret (d, 1)
  else
    '(d, entry) ← dictFind d k;
    match entry with
    | None => Fault NullDeref
    | Some entry => d ← assign_val d entry (dictSetVal v); Ret (d, 0)
    end.

Definition dictReplaceRaw (d : dict K V) (k : K) : res (dict K V * option entry_ref) :=
  '(d, entry) ← dictFind d k;
  match entry with
  | Some r => Ret (d, Some r)
  | None => dictAddRaw d k
  end.

(** *** Deletion *)

Definition unlink (ht : dictht K V) (idx : Z) (pos : nat) : res (dictht K V) :=
  he ← bucket ht idx;
  Ret (set_used (set_bucket ht idx (delete pos he)) (u64 (used ht - 1))).

Definition dictGenericDelete (d : dict K V) (k : K) : res (dict K V * Z) :=
  if size (ht0 d) =? 0 then Ret (d, DICT_ERR)
  else
    d ← step_if_rehashing d;
    r ← find_in (ht0 d) k;
    match r with
    | Some (idx, pos) => ht ← unlink (ht0 d) idx pos; Ret (set_ht0 d ht, DICT_OK)
    | None =>
      if negb (dictIsRehashing d) then Ret (d, DICT_ERR)
      else
        r ← find_in (ht1 d) k;
        match r with
        | Some (idx, pos) => ht ← unlink (ht1 d) idx pos; Ret (set_ht1 d ht, DICT_OK)
        | None => Ret (d, DICT_ERR)
        end
    end.

(** dictDelete and dictDeleteNoFree differ in what they free. *)
Definition dictDelete := dictGenericDelete.
Definition dictDeleteNoFree := dictGenericDelete.

(** for (i = 0; i < size && used > 0; i++): the entries freed, in order. *)
Fixpoint clear_loop (buckets : list (list (dictEntry K V))) (n : Z) : list (dictEntry K V) :=
  match buckets with
  | [] => []
  | b :: buckets =>
    if n <=? 0 then [] else b ++ clear_loop buckets (n - Z.of_nat (length b))
  end.

Definition _dictClear (ht : dictht K V) : dictht K V * list (dictEntry K V) :=
  (_dictReset, clear_loop (table ht) (used ht)).

(** The emptied dict and the entries freed. *)
Definition dictEmpty (d : dict K V) : dict K V * list (dictEntry K V) :=
  let '(h0, f0) := _dictClear (ht0 d) in
  let '(h1, f1) := _dictClear (ht1 d) in
  (mk_dict h0 h1 (-1) 0, f0 ++ f1).

(** *** Cursor scan *)

(** while ((s >>= 1) > 0) *)
Fixpoint rev_loop (fuel : nat) (s mask v : Z) : Z :=
  match fuel with
  | O => v
  | S fuel =>
    let s := Z.shiftr s 1 in
    if 0 <? s then
      let mask := Z.lxor mask (u64 (Z.shiftl mask s)) in
      let v := Z.lor (Z.land (Z.shiftr v s) mask)
                     (Z.land (u64 (Z.shiftl v s)) (u64 (Z.lnot mask))) in
      rev_loop fuel s mask v
    else v
  end.

(** [s] takes the values 32, 16, 8, 4, 2, 1. *)
Definition rev (v : Z) : Z := rev_loop 7 64 (u64 (Z.lnot 0)) v.

(** The do-while over the expansions of the cursor in the larger table:
    the entries emitted and the new cursor. *)
Fixpoint scan_expansions (fuel : nat) (t1 : dictht K V) (m0 m1 v : Z)
  : res (list (dictEntry K V) * Z) :=
  match fuel with
  | O => Fault OutOfFuel
  | S fuel =>
    de ← bucket t1 (Z.land v m1);
    let v := Z.lor (Z.land (u64 (Z.lor v m0 + 1)) (u64 (Z.lnot m0))) (Z.land v m0) in
    if Z.land v (Z.lxor m0 m1) =? 0 then Ret (de, v)
    else '(des, v) ← scan_expansions fuel t1 m0 m1 v; Ret (de ++ des, v)
  end.

(** The new cursor and the entries given to [fn], in order. *)
Definition dictScan (d : dict K V) (v : Z) : res (Z * list (dictEntry K V)) :=
  if dictSize d =? 0 then Ret (0, [])
  else
    '(v, m0, des) ←
      (if negb (dictIsRehashing d) then
         let m0 := sizemask (ht0 d) in
         de ← bucket (ht0 d) (Z.land v m0);
         Ret (v, m0, de)
       else
         let '(t0, t1) := if size (ht1 d) <? size (ht0 d) then (ht1 d, ht0 d)
                          else (ht0 d, ht1 d) in
         let m0 := sizemask t0 in
         let m1 := sizemask t1 in
         de ← bucket t0 (Z.land v m0);
         '(des, v) ← scan_expansions (Z.to_nat (size t1)) t1 m0 m1 v;
         Ret (v, m0, de ++ des));
    let v := Z.lor v (u64 (Z.lnot m0)) in
    let v := rev v in
    let v := u64 (v + 1) in
    let v := rev v in
    Ret (v, des).
End Code.
