(* ===== verification/DictProofs.v ===== *)
(** * DictProofs: a dict implements a finite map

    The invariant of dict.c (sizes are powers of two, every key is in the
    bucket its hash selects, no key occurs twice, [used] counts the
    entries, the buckets before [rehashidx] are empty) is preserved by
    every operation, and the operations compute the finite map operations
    on the set of entries, in every phase of an incremental rehash. *)

From stdpp Require Import gmap sorting.
From S2P Require Import Prelude Util Dict.

(** ** What a dict needs of its type *)

(** The contract between a dict and the callbacks of its [dictType]: the
    hash is an unsigned int, keys that compare equal are the same key, and
    a duplicated key is the same key. *)
Class LawfulType {K V : Type} `{EqDecision K} (ty : dictType K V) : Prop := {
  hash_range : forall k, in_u 32 (hashFunction ty k);
  compare_same : forall k1 k2, dictCompareKeys ty k1 k2 = true -> k1 = k2;
  dup_same : forall k, dictSetKey ty k = k
}.

(** Compute the projections of updated records. *)
Ltac dict_simp := cbn [set_rehashidx set_ht0 set_ht1 set_iterators set_bucket set_used
  ht0 ht1 rehashidx iterators table size sizemask used] in *.

Section Proofs.
Context {K V : Type} `{EqDecision K} (ty : dictType K V) `{!LawfulType ty}.
Implicit Types (ht : dictht K V) (d : dict K V) (k : K).

Lemma same_key_iff k e : same_key ty k e = true <-> k = key e.
Proof.
  unfold same_key. rewrite orb_true_iff, bool_decide_eq_true. split.
  - intros [|Hc]; [done|]. now apply compare_same in Hc.
  - intros ->. auto.
Qed.

(** ** Tables *)

Definition entries ht : list (dictEntry K V) := concat (table ht).

(** [slot ht k]: the bucket the code computes for a key. *)
Definition slot ht k : Z := u32 (Z.land (dictHashKey ty k) (sizemask ht)).

Record live ht : Prop := {
  live_exp : exists e, 2 <= e <= 31 /\ size ht = 2 ^ e;
  live_mask : sizemask ht = size ht - 1;
  live_length : Z.of_nat (length (table ht)) = size ht;
  live_used : used ht = Z.of_nat (length (entries ht));
  live_placed : forall i b e, table ht !! i = Some b -> e ∈ b -> slot ht (key e) = Z.of_nat i
}.

Lemma live_size ht : live ht -> 4 <= size ht <= 2 ^ 31.
Proof.
  intros [(e & He & ->) _ _ _ _]. split.
  - change 4 with (2 ^ 2). apply Z.pow_le_mono_r; lia.
  - apply Z.pow_le_mono_r; lia.
Qed.

Lemma slot_range ht k : live ht -> 0 <= slot ht k < size ht.
Proof.
  intros H. destruct (live_exp _ H) as (e & He & Hs). unfold slot.
  rewrite (live_mask _ H), Hs, land_mask by lia.
  pose proof (hash_range k). unfold dictHashKey.
  pose proof (Z.mod_pos_bound (hashFunction ty k) (2 ^ e) ltac:(lia)).
  pose proof (live_size _ H). rewrite uwrap_id; [lia|unfold in_u; lia].
Qed.

Lemma live_not_null ht : live ht -> table ht <> [].
Proof.
  intros H Hn. pose proof (live_length _ H). pose proof (live_size _ H).
  rewrite Hn in *. simpl in *. lia.
Qed.

Lemma bucket_live ht idx : live ht -> 0 <= idx < size ht ->
  exists b, bucket ht idx = Ret b /\ table ht !! Z.to_nat idx = Some b.
Proof.
  intros H Hi. unfold bucket. rewrite bool_decide_eq_false_2 by now apply live_not_null.
  zif; [lia|]. pose proof (live_length _ H).
  destruct (lookup_lt_is_Some_2 (table ht) (Z.to_nat idx)) as [b Hb]; [lia|].
  exists b. rewrite Hb. done.
Qed.

(** Replacing one bucket. *)
Lemma concat_insert (t : list (list (dictEntry K V))) i b :
  t !! i = Some b ->
  exists rest, concat t ≡ₚ b ++ rest /\ forall b', concat (<[i := b']> t) ≡ₚ b' ++ rest.
Proof.
  intros Hb. exists (concat (take i t) ++ concat (drop (S i) t)).
  assert (i < length t)%nat by (eapply lookup_lt_Some; eauto). split.
  - rewrite <- (take_drop_middle t i b Hb) at 1. rewrite concat_app. cbn [concat].
    rewrite !(Permutation_app_comm (concat (take i t))). now rewrite <- app_assoc.
  - intros b'. rewrite insert_take_drop by done. rewrite concat_app. cbn [concat].
    rewrite !(Permutation_app_comm (concat (take i t))). now rewrite <- app_assoc.
Qed.

Lemma live_set ht idx b b' n : live ht -> 0 <= idx ->
  table ht !! Z.to_nat idx = Some b ->
  (forall e, e ∈ b' -> slot ht (key e) = idx) ->
  n = used ht - Z.of_nat (length b) + Z.of_nat (length b') ->
  let ht' := set_used (set_bucket ht idx b') n in
  live ht' /\ exists rest, entries ht ≡ₚ b ++ rest /\ entries ht' ≡ₚ b' ++ rest.
Proof.
  intros H Hidx Hb Hp -> ht'.
  destruct (concat_insert (table ht) (Z.to_nat idx) b Hb) as (rest & R1 & R2).
  specialize (R2 b'). split; [|exists rest; done]. subst ht'. constructor.
  - apply H.
  - apply H.
  - cbn [table set_used set_bucket]. rewrite length_insert. apply H.
  - cbn [table used set_used set_bucket]. rewrite (live_used _ H). unfold entries at 2.
    cbn [table set_used set_bucket]. rewrite R2. unfold entries. rewrite R1, !length_app. lia.
  - cbn [table set_used set_bucket]. intros i c e Hc He.
    change (slot ht (key e) = Z.of_nat i).
    destruct (decide (i = Z.to_nat idx)) as [->|Hne].
    + rewrite list_lookup_insert_eq in Hc by (eapply lookup_lt_Some; eauto).
      injection Hc as <-. rewrite Hp by done. lia.
    + rewrite list_lookup_insert_ne in Hc by done. eapply live_placed; eauto.
Qed.

Lemma elem_of_entries ht e : live ht ->
  e ∈ entries ht <-> exists b, table ht !! Z.to_nat (slot ht (key e)) = Some b /\ e ∈ b.
Proof.
  intros H. unfold entries. rewrite list_elem_of_In, in_concat. split.
  - intros (b & Hb & He). apply list_elem_of_In in Hb, He.
    apply list_elem_of_lookup in Hb as (i & Hi).
    exists b. rewrite (live_placed _ H i b e Hi He), Nat2Z.id. done.
  - intros (b & Hb & He). exists b. rewrite <- !list_elem_of_In. split; [|done].
    eapply list_elem_of_lookup_2; eauto.
Qed.

(** ** The invariant *)

Definition all_entries d : list (dictEntry K V) := entries (ht0 d) ++ entries (ht1 d).

Definition idle d : Prop := rehashidx d = -1 /\ ht1 d = _dictReset.

Definition rehashing d : Prop :=
  live (ht0 d) /\ live (ht1 d) /\ 0 <= rehashidx d <= size (ht0 d) /\
  forall i, Z.of_nat i < rehashidx d -> table (ht0 d) !! i = Some [].

Record dict_wf d : Prop := {
  wf_ht0 : ht0 d = _dictReset \/ live (ht0 d);
  wf_phase : idle d \/ rehashing d;
  wf_nodup : NoDup (key <$> all_entries d);
  wf_bound : Z.of_nat (length (all_entries d)) < 2 ^ 62
}.

Lemma idle_iff d : dict_wf d -> dictIsRehashing d = false <-> idle d.
Proof.
  intros H. unfold dictIsRehashing. rewrite negb_false_iff, Z.eqb_eq. split.
  - intros. destruct (wf_phase _ H) as [|(_ & _ & ? & _)]; [done|lia].
  - now intros [? _].
Qed.

Lemma rehashing_iff d : dict_wf d -> dictIsRehashing d = true <-> rehashing d.
Proof.
  intros H. unfold dictIsRehashing. rewrite negb_true_iff, Z.eqb_neq. split.
  - intros. destruct (wf_phase _ H) as [[? _]|]; [lia|done].
  - intros (_ & _ & ? & _). lia.
Qed.

Lemma wf_used d : dict_wf d ->
  used (ht0 d) = Z.of_nat (length (entries (ht0 d))) /\
  used (ht1 d) = Z.of_nat (length (entries (ht1 d))).
Proof.
  intros H. split.
  - destruct (wf_ht0 _ H) as [->|Hl]; [done|apply Hl].
  - destruct (wf_phase _ H) as [[_ ->]|(_ & Hl & _)]; [done|apply Hl].
Qed.

Lemma wf_sum d : dict_wf d ->
  0 <= used (ht0 d) /\ 0 <= used (ht1 d) /\ used (ht0 d) + used (ht1 d) < 2 ^ 62.
Proof.
  intros H. destruct (wf_used d H) as [-> ->]. pose proof (wf_bound _ H) as Hb.
  unfold all_entries in Hb. rewrite length_app in Hb. lia.
Qed.

(** The entries are the same, up to order. *)
Definition same_entries d d' : Prop := all_entries d ≡ₚ all_entries d'.

#[local] Instance same_entries_equiv : Equivalence same_entries.
Proof.
  unfold same_entries. split.
  - intros d. reflexivity.
  - intros d d' H. now symmetry.
  - intros d1 d2 d3 H1 H2. now rewrite H1.
Qed.

#[local] Instance all_entries_proper : Proper (same_entries ==> (≡ₚ)) all_entries.
Proof. intros d d' H. exact H. Qed.

Lemma wf_same d d' : dict_wf d -> same_entries d d' ->
  (ht0 d' = _dictReset \/ live (ht0 d')) -> idle d' \/ rehashing d' -> dict_wf d'.
Proof.
  intros H E H0 H1. constructor; auto.
  - rewrite <- E. apply H.
  - rewrite <- E. apply H.
Qed.

(** ** Rehashing *)

Lemma move_chain_ok de : forall d,
  live (ht1 d) -> Z.of_nat (length de) <= used (ht0 d) < 2 ^ 62 ->
  used (ht1 d) + Z.of_nat (length de) < 2 ^ 62 ->
  exists h1, move_chain ty de d =
      Ret (mk_dict (set_used (ht0 d) (used (ht0 d) - Z.of_nat (length de))) h1
             (rehashidx d) (iterators d)) /\
    live h1 /\ size h1 = size (ht1 d) /\ entries h1 ≡ₚ de ++ entries (ht1 d).
Proof.
  induction de as [|e de IH]; intros d H1 Hu0 Hu1.
  - exists (ht1 d). cbn. rewrite Z.sub_0_r. destruct d as [[] ? ? ?]. done.
  - cbn [move_chain]. fold (slot (ht1 d) (key e)).
    pose proof (slot_range (ht1 d) (key e) H1) as Hr.
    destruct (bucket_live (ht1 d) (slot (ht1 d) (key e)) H1 Hr) as (b & -> & Hb).
    cbn [mbind res_bind]. pose proof (live_used _ H1) as Hused.
    destruct (live_set (ht1 d) _ b (e :: b) (used (ht1 d) + 1) H1 (proj1 Hr) Hb)
      as (L & rest & P1 & P2).
    { intros x [->|Hx]%elem_of_cons; [done|].
      rewrite (live_placed _ H1 _ b x Hb Hx). lia. }
    { cbn [length]. lia. }
    cbn [length] in Hu0, Hu1.
    set (d' := mk_dict (set_used (ht0 d) (used (ht0 d) - 1))
      (set_used (set_bucket (ht1 d) (slot (ht1 d) (key e)) (e :: b)) (used (ht1 d) + 1))
      (rehashidx d) (iterators d)).
    match goal with |- context [move_chain ty de ?x] => replace x with d' end.
    2: { unfold d', set_ht0, set_ht1, set_used, set_bucket; cbn.
         rewrite !(uwrap_id 64) by (unfold in_u; lia). reflexivity. }
    destruct (IH d') as (h1 & E & L1 & S1 & P); cbn [d' ht0 ht1 used set_used set_bucket];
      [done|lia|lia|].
    exists h1. rewrite E. split.
    { do 2 f_equal. unfold set_used; cbn. f_equal. lia. }
    cbn [d' ht1] in P.
    split; [done|]. split; [done|]. rewrite P, P2, P1. cbn [app].
    rewrite <- Permutation_middle. constructor. done.
Qed.

Lemma empty_prefix_used ht idx : live ht -> used ht <> 0 ->
  (forall i, Z.of_nat i < idx -> table ht !! i = Some []) ->
  exists j b, idx <= Z.of_nat j < size ht /\ table ht !! j = Some b /\ b <> [].
Proof.
  intros H Hu He. rewrite (live_used _ H) in Hu. destruct (entries ht) as [|x l] eqn:E; [done|].
  assert (x ∈ entries ht) as Hx by (rewrite E; constructor).
  apply elem_of_entries in Hx as (b & Hb & Hx); [|done].
  pose proof (slot_range ht (key x) H).
  exists (Z.to_nat (slot ht (key x))), b. split; [|split; [done|intros ->; now apply elem_of_nil in Hx]].
  split; [|lia]. destruct (Z.le_gt_cases idx (Z.of_nat (Z.to_nat (slot ht (key x))))) as [|Hlt]; [done|].
  apply He in Hlt. rewrite Hlt in Hb. injection Hb as <-. now apply elem_of_nil in Hx.
Qed.

Lemma skip_empty_ok ht : live ht -> used ht <> 0 -> forall ev idx, 0 <= idx -> (1 <= ev)%nat ->
  (forall i, Z.of_nat i < idx -> table ht !! i = Some []) ->
  exists idx' ev' stop, skip_empty ev ht idx = Ret (idx', ev', stop) /\
    0 <= idx' < size ht /\ idx + (if stop then 1 else 0) <= idx' /\
    (forall i, Z.of_nat i < idx' -> table ht !! i = Some []) /\
    (stop = false -> (1 <= ev')%nat /\ exists b, table ht !! Z.to_nat idx' = Some b).
Proof.
  intros H Hu ev. induction ev as [|ev IH]; intros idx Hidx Hev He; [lia|].
  destruct (empty_prefix_used ht idx H Hu He) as (j & bj & Hj & Hbj & Hne).
  destruct (bucket_live ht idx H) as (b & Hb & Hlk); [lia|].
  cbn [skip_empty]. rewrite Hb. cbn [mbind res_bind]. destruct b as [|e b].
  - assert (forall i, Z.of_nat i < idx + 1 -> table ht !! i = Some []) as He'.
    { intros i Hi. destruct (decide (i = Z.to_nat idx)) as [->|]; [done|]. apply He. lia. }
    destruct ev as [|ev].
    + exists (idx + 1), 0%nat, true. split; [done|]. split; [|split; [lia|done]].
      destruct (empty_prefix_used ht (idx + 1) H Hu He') as (j' & ? & Hj' & _). lia.
    + destruct (IH (idx + 1)) as (i' & ev' & stop & ? & ? & ? & ? & ?); [lia|lia|done|].
      exists i', ev', stop. split_and!; auto; lia.
  - exists idx, (S ev), false. split; [done|]. split; [lia|]. split; [lia|]. split; [done|].
    intros _. split; [lia|]. eauto.
Qed.

Lemma rehash_done_ok d : dict_wf d -> rehashing d ->
  let '(d', r) := rehash_done d in
  dict_wf d' /\ same_entries d d' /\ iterators d' = iterators d /\
  (r = 0 <-> idle d') /\ live (ht0 d').
Proof.
  intros H HR. unfold rehash_done. destruct HR as (L0 & L1 & Hi & He). zif.
  - assert (entries (ht0 d) = []) as E0
      by (apply length_zero_iff_nil; pose proof (live_used _ L0); lia).
    assert (same_entries d (mk_dict (ht1 d) _dictReset (-1) (iterators d))) as E.
    { unfold same_entries, all_entries. cbn [ht0 ht1]. rewrite E0. cbn [app].
      unfold entries at 3. cbn. now rewrite app_nil_r. }
    split; [|split; [done|split; [done|]]].
    + apply (wf_same d); [done|done|right; exact L1|left; done].
    + split; [done|exact L1].
  - split; [done|]. split; [reflexivity|]. split; [done|].
    split; [|exact L0]. split; [done|]. intros [? _]. lia.
Qed.

(** One turn of the main loop: the first bucket that is not empty moves. *)
Lemma move_bucket_ok d idx b : dict_wf d -> rehashing d -> 0 <= idx < size (ht0 d) ->
  (forall i, Z.of_nat i < idx -> table (ht0 d) !! i = Some []) ->
  table (ht0 d) !! Z.to_nat idx = Some b ->
  exists d', move_chain ty b (set_rehashidx d idx) = Ret d' /\
    let d'' := set_rehashidx (set_ht0 d' (set_bucket (ht0 d') (rehashidx d') [])) (rehashidx d' + 1) in
    dict_wf d'' /\ rehashing d'' /\ same_entries d d'' /\ iterators d'' = iterators d /\
    size (ht0 d'') = size (ht0 d) /\ rehashidx d'' = idx + 1.
Proof.
  intros H (L0 & L1 & _ & _) Hidx He Hb. pose proof (wf_sum d H) as (? & ? & ?).
  destruct (live_set (ht0 d) idx b [] (used (ht0 d) - Z.of_nat (length b)) L0 (proj1 Hidx) Hb)
    as (L0' & rest & P1 & P2).
  { intros x Hx. now apply elem_of_nil in Hx. }
  { cbn. lia. }
  cbn [app] in P2. pose proof (live_used _ L0) as Hu0. rewrite P1, length_app in Hu0.
  destruct (move_chain_ok b (set_rehashidx d idx)) as (h1 & E & L1' & S1 & P3);
    cbn [set_rehashidx ht0 ht1]; [done|lia|lia|].
  eexists. split; [exact E|]. cbn [set_rehashidx set_ht0 ht0 ht1 rehashidx iterators] in *.
  cbv zeta. match goal with |- dict_wf ?x /\ _ => set (d'' := x) end.
  assert (same_entries d d'') as Hs.
  { unfold same_entries, all_entries, d''; cbn [ht0 ht1]. rewrite P3, P1.
    change (entries (set_bucket _ idx [])) with (concat (<[Z.to_nat idx := []]> (table (ht0 d)))).
    unfold entries in P2. cbn [table set_used set_bucket] in P2. rewrite P2.
    rewrite (app_assoc rest), (Permutation_app_comm rest b). now rewrite <- app_assoc. }
  assert (rehashing d'') as HR.
  { unfold rehashing, d''. split; [exact L0'|]. split; [done|].
    dict_simp. split; [lia|]. intros i Hi.
    destruct (decide (i = Z.to_nat idx)) as [->|].
    - apply list_lookup_insert_eq. eapply lookup_lt_Some; eauto.
    - rewrite list_lookup_insert_ne by done. apply He. lia. }
  split; [|done]. apply (wf_same d); [done|done|right; apply HR|right; exact HR].
Qed.

Lemma rehash_loop_ok n : forall ev d, dict_wf d -> rehashing d -> (n = 0%nat \/ (1 <= ev)%nat) ->
  exists d' r, rehash_loop ty n ev d = Ret (d', r) /\ dict_wf d' /\ same_entries d d' /\
    iterators d' = iterators d /\ (r = 0 <-> idle d') /\ live (ht0 d').
Proof.
  induction n as [|n IH]; intros ev d H HR Hev.
  - pose proof (rehash_done_ok d H HR) as Hd. cbn [rehash_loop].
    destruct (rehash_done d) as [d' r]. eauto.
  - cbn [rehash_loop]. destruct (Z.eqb_spec (used (ht0 d)) 0).
    { pose proof (rehash_done_ok d H HR) as Hd. destruct (rehash_done d) as [d' r]. eauto. }
    pose proof HR as (L0 & L1 & Hi & He). pose proof (live_size _ L0).
    destruct (empty_prefix_used (ht0 d) (rehashidx d) L0) as (j & ? & Hj & _); [done|done|].
    rewrite uwrap_id by (unfold in_u; lia).
    destruct (Z.leb_spec (size (ht0 d)) (rehashidx d)); [lia|].
    destruct (skip_empty_ok (ht0 d) L0 ltac:(done) ev (rehashidx d))
      as (idx & ev' & stop & -> & Hidx & Hge & He' & Hstop); [lia|lia|done|].
    cbn [mbind res_bind]. destruct stop.
    + exists (set_rehashidx d idx), 1. split; [done|].
      assert (rehashing (set_rehashidx d idx)) as HR'.
      { split; [exact L0|]. split; [exact L1|]. dict_simp. split; [lia|done]. }
      assert (same_entries d (set_rehashidx d idx)) as HS by exact (reflexivity (all_entries d)).
      split; [apply (wf_same d); [done|done|right; exact L0|right; done]|].
      split; [done|]. split; [done|]. split; [|exact L0]. split; [done|].
      intros [Hx _]. cbn in Hx. lia.
    + destruct (Hstop eq_refl) as (Hev' & b & Hb).
      destruct (bucket_live (ht0 d) idx L0 Hidx) as (b' & Hbk & Hb').
      rewrite Hb in Hb'. injection Hb' as <-.
      cbn [set_rehashidx ht0 rehashidx]. rewrite Hbk. cbn [mbind res_bind].
      destruct (move_bucket_ok d idx b H HR Hidx He' Hb) as (d' & E & W & R & S & I & _).
      fold (set_rehashidx d idx). rewrite E. cbn [mbind res_bind].
      destruct (IH ev' _ W R ltac:(auto)) as (d2 & r & E2 & W2 & S2 & I2 & Hr).
      exists d2, r. split; [exact E2|]. split; [done|]. split; [etrans; eauto|].
      split; [congruence|done].
Qed.

Lemma dictRehash_ok d n : dict_wf d ->
  exists d' r, dictRehash ty d n = Ret (d', r) /\ dict_wf d' /\ same_entries d d' /\
    iterators d' = iterators d /\ (r = 0 <-> idle d') /\ (live (ht0 d) -> live (ht0 d')).
Proof.
  intros H. unfold dictRehash. destruct (dictIsRehashing d) eqn:E; cbn [negb].
  - destruct (rehash_loop_ok n (n * 10) d) as (d' & r & ? & ? & ? & ? & ? & ?);
      [done|now apply rehashing_iff|destruct n; [auto|right; lia]|].
    exists d', r. split_and!; auto.
  - exists d, 0. apply idle_iff in E; [|done]. split; [done|]. split; [done|].
    split; [reflexivity|]. done.
Qed.

(** A step makes progress: it finishes the rehash or advances [rehashidx]. *)
Lemma rehash_progress d : dict_wf d -> rehashing d ->
  exists d' r, dictRehash ty d 1 = Ret (d', r) /\
    (idle d' \/ (size (ht0 d') = size (ht0 d) /\ rehashidx d < rehashidx d')).
Proof.
  intros H HR. unfold dictRehash. rewrite (proj2 (rehashing_iff d H) HR). cbn [negb].
  change (1 * 10)%nat with 10%nat. generalize (eq_refl 10%nat). generalize 10%nat at 1 3.
  intros ev Hev. cbn [rehash_loop].
  assert (forall d', dict_wf d' -> rehashing d' -> size (ht0 d') = size (ht0 d) ->
    (used (ht0 d') = 0 \/ rehashidx d < rehashidx d') ->
    exists d'' r, Ret (rehash_done d') = Ret (d'', r) /\
      (idle d'' \/ (size (ht0 d'') = size (ht0 d) /\ rehashidx d < rehashidx d''))) as Hdone.
  { intros d' W R Hs Hc. unfold rehash_done. zif.
    - eexists _, _. split; [done|]. left. done.
    - eexists _, _. split; [done|]. right. split; [done|lia]. }
  destruct (Z.eqb_spec (used (ht0 d)) 0); [apply Hdone; auto|].
  pose proof HR as (L0 & L1 & Hi & He). pose proof (live_size _ L0).
  destruct (empty_prefix_used (ht0 d) (rehashidx d) L0) as (j & ? & Hj & _); [done|done|].
  rewrite uwrap_id by (unfold in_u; lia).
  destruct (Z.leb_spec (size (ht0 d)) (rehashidx d)); [lia|].
  destruct (skip_empty_ok (ht0 d) L0 ltac:(done) ev (rehashidx d))
    as (idx & ev' & stop & -> & Hidx & Hge & He' & Hstop); [lia|lia|done|].
  cbn [mbind res_bind]. destruct stop.
  - eexists _, _. split; [done|]. right. dict_simp. lia.
  - destruct (Hstop eq_refl) as (Hev' & b & Hb).
    destruct (bucket_live (ht0 d) idx L0 Hidx) as (b' & Hbk & Hb').
    rewrite Hb in Hb'. injection Hb' as <-.
    cbn [set_rehashidx ht0 rehashidx]. rewrite Hbk. cbn [mbind res_bind].
    destruct (move_bucket_ok d idx b H HR Hidx He' Hb) as (d' & E & W & R & S & I & Hs & Hx).
    fold (set_rehashidx d idx). rewrite E. cbn [mbind res_bind rehash_loop].
    apply Hdone; auto. right. dict_simp. lia.
Qed.

Lemma step_ok d : dict_wf d ->
  exists d', step_if_rehashing ty d = Ret d' /\ dict_wf d' /\ same_entries d d' /\
    iterators d' = iterators d /\ (idle d -> d' = d) /\ (live (ht0 d) -> live (ht0 d')).
Proof.
  intros H. unfold step_if_rehashing, _dictRehashStep. destruct (dictIsRehashing d) eqn:E.
  - assert (~ idle d) by (rewrite <- idle_iff by done; congruence). zif.
    + destruct (dictRehash_ok d 1 H) as (d' & r & -> & W & S & I & _ & L).
      cbn [mbind res_bind]. exists d'. split_and!; auto. tauto.
    + exists d. split_and!; auto; reflexivity.
  - exists d. split_and!; auto; reflexivity.
Qed.

(** ** Growing *)

Lemma next_power_loop_ok fuel : forall e sz, 0 <= e <= 63 -> sz <= 2 ^ 63 ->
  63 - e < Z.of_nat fuel ->
  exists e', e <= e' <= 63 /\ next_power_loop fuel (2 ^ e) sz = Ret (2 ^ e') /\
    sz <= 2 ^ e' /\ (e < e' -> 2 ^ (e' - 1) < sz).
Proof.
  induction fuel as [|fuel IH]; intros e sz He Hsz Hf; [lia|].
  cbn [next_power_loop]. zif.
  - exists e. split_and!; auto; lia.
  - assert (e < 63) by (destruct (Z.eq_dec e 63) as [->|]; lia).
    replace (2 ^ e * 2) with (2 ^ (e + 1)) by (rewrite Z.pow_add_r by lia; lia).
    assert (2 ^ (e + 1) <= 2 ^ 63) by (apply Z.pow_le_mono_r; lia).
    rewrite uwrap_id by (unfold in_u; lia).
    destruct (IH (e + 1) sz) as (e' & He' & -> & Hs & Hm); [lia..|].
    exists e'. split_and!; auto; try lia. intros _.
    destruct (Z.eq_dec (e + 1) e') as [<-|]; [|apply Hm; lia].
    now replace (e + 1 - 1) with e by lia.
Qed.

Lemma dictNextPower_ok sz : 0 <= sz < LLONG_MAX ->
  exists e, 2 <= e <= 63 /\ _dictNextPower sz = Ret (2 ^ e) /\ sz <= 2 ^ e /\
    (2 < e -> 2 ^ (e - 1) < sz).
Proof.
  intros H. unfold _dictNextPower, DICT_HT_INITIAL_SIZE. zif; [lia|].
  change 4 with (2 ^ 2). apply next_power_loop_ok; unfold LLONG_MAX in *; lia.
Qed.

Lemma live_fresh e : 2 <= e <= 31 ->
  live (mk_ht (replicate (Z.to_nat (2 ^ e)) []) (2 ^ e) (u64 (2 ^ e - 1)) 0) /\
  entries (mk_ht (replicate (Z.to_nat (2 ^ e)) []) (2 ^ e) (u64 (2 ^ e - 1)) 0) = [].
Proof.
  intros He. assert (2 ^ 2 <= 2 ^ e <= 2 ^ 31) by (split; apply Z.pow_le_mono_r; lia).
  rewrite uwrap_id by (unfold in_u; lia).
  assert (forall n, concat (replicate n (@nil (dictEntry K V))) = []) as Hc.
  { induction n; [done|]. simpl. done. }
  split; [|apply Hc]. constructor; cbn [table size sizemask used].
  - exists e. done.
  - done.
  - rewrite length_replicate. lia.
  - unfold entries. cbn [table]. now rewrite Hc.
  - intros i b x Hb Hx. apply lookup_replicate in Hb as [-> _]. now apply elem_of_nil in Hx.
Qed.

Lemma dictExpand_ok d sz : dict_wf d -> 0 <= sz <= 2 ^ 31 ->
  exists d' r, dictExpand d sz = Ret (d', r) /\ dict_wf d' /\ same_entries d d' /\
    iterators d' = iterators d /\
    (r = DICT_OK -> live (ht0 d')) /\ (r = DICT_ERR -> d' = d) /\ (r = DICT_OK \/ r = DICT_ERR) /\
    (idle d -> used (ht0 d) <= sz -> (ht0 d = _dictReset \/ size (ht0 d) < sz) -> r = DICT_OK).
Proof.
  intros H Hsz. unfold dictExpand.
  destruct (dictNextPower_ok sz) as (e & He & -> & Hle & Hmin); [unfold LLONG_MAX; lia|].
  cbn [mbind res_bind].
  assert (e <= 31).
  { destruct (Z.le_gt_cases e 31); [done|]. specialize (Hmin ltac:(lia)).
    assert (2 ^ 31 <= 2 ^ (e - 1)) by (apply Z.pow_le_mono_r; lia). lia. }
  assert (4 <= 2 ^ e) by (change 4 with (2 ^ 2); apply Z.pow_le_mono_r; lia).
  destruct (dictIsRehashing d || (sz <? used (ht0 d))) eqn:Eg.
  { exists d, DICT_ERR. split_and!; auto; try reflexivity; try done.
    intros Hi ? ?. apply idle_iff in Hi; [|done]. rewrite Hi in Eg. cbn in Eg. lia. }
  apply orb_false_iff in Eg as [Hi Hu]. apply idle_iff in Hi; [|done].
  destruct (Z.eqb_spec (2 ^ e) (size (ht0 d))).
  { exists d, DICT_ERR. split_and!; auto; try reflexivity; try done.
    intros _ _ [Hr|]; [rewrite Hr in *; cbn in *; lia|lia]. }
  destruct (live_fresh e ltac:(lia)) as [Ln En]. set (n' := mk_ht _ _ _ 0) in *.
  pose proof Hi as [Hi1 Hi2].
  destruct (wf_ht0 _ H) as [Hz|L0].
  - rewrite bool_decide_eq_true_2 by (now rewrite Hz).
    exists (set_ht0 d n'), DICT_OK.
    assert (same_entries d (set_ht0 d n')) as HS.
    { unfold same_entries, all_entries. dict_simp. rewrite Hz, En. done. }
    assert (dict_wf (set_ht0 d n')) by
      (apply (wf_same d); [done|done|right; exact Ln|left; split; done]).
    split_and!; auto; done.
  - rewrite bool_decide_eq_false_2 by now apply live_not_null.
    exists (set_rehashidx (set_ht1 d n') 0), DICT_OK.
    assert (same_entries d (set_rehashidx (set_ht1 d n') 0)) as HS.
    { unfold same_entries, all_entries. dict_simp. rewrite Hi2, En. done. }
    assert (dict_wf (set_rehashidx (set_ht1 d n') 0)).
    { apply (wf_same d); [done|done|right; exact L0|right]. pose proof (live_size _ L0).
      split; [exact L0|]. split; [exact Ln|]. dict_simp. split; [lia|]. intros i ?. lia. }
    split_and!; auto; done.
Qed.

Lemma expandIfNeeded_ok can d : dict_wf d -> used (ht0 d) <= 2 ^ 30 ->
  exists d', _dictExpandIfNeeded can d = Ret (d', DICT_OK) /\ dict_wf d' /\
    same_entries d d' /\ live (ht0 d') /\ iterators d' = iterators d.
Proof.
  intros H Hu. unfold _dictExpandIfNeeded. destruct (dictIsRehashing d) eqn:Er.
  { apply rehashing_iff in Er; [|done]. exists d. split_and!; auto; [reflexivity|apply Er]. }
  apply idle_iff in Er; [|done]. pose proof (wf_sum d H) as (Hu0 & _ & _).
  destruct (Z.eqb_spec (size (ht0 d)) 0).
  { destruct (dictExpand_ok d DICT_HT_INITIAL_SIZE H) as (d' & r & -> & W & S & I & L & _ & _ & Hok);
      [unfold DICT_HT_INITIAL_SIZE; lia|].
    destruct (wf_ht0 _ H) as [Hz|L0]; [|apply live_size in L0; lia].
    rewrite Hok in * by (auto; rewrite Hz; cbn; unfold DICT_HT_INITIAL_SIZE; lia).
    exists d'. split_and!; auto. }
  destruct (wf_ht0 _ H) as [Hz|L0]; [rewrite Hz in *; done|]. pose proof (live_size _ L0).
  destruct (_ && _) eqn:Eg; [|exists d; split_and!; auto; reflexivity].
  apply andb_true_iff in Eg as [Hge _]. rewrite uwrap_id by (unfold in_u; lia).
  destruct (dictExpand_ok d (used (ht0 d) * 2) H) as (d' & r & -> & W & S & I & L & _ & _ & Hok); [lia|].
  rewrite Hok in * by (auto; lia). exists d'. split_and!; auto.
Qed.

(** ** Lookup in one table *)

Definition keys_of (l : list (dictEntry K V)) : list K := key <$> l.

Lemma elem_of_keys l k : k ∈ keys_of l <-> exists e, e ∈ l /\ key e = k.
Proof.
  unfold keys_of. rewrite list_elem_of_fmap. split; intros (e & ? & ?); eauto.
Qed.

Lemma slot_bucket ht k : live ht -> exists b,
  bucket ht (slot ht k) = Ret b /\ table ht !! Z.to_nat (slot ht k) = Some b /\
  (k ∈ keys_of (entries ht) <-> exists e, e ∈ b /\ key e = k).
Proof.
  intros H. destruct (bucket_live ht (slot ht k) H (slot_range ht k H)) as (b & Hb & Hl).
  exists b. split_and!; auto. rewrite elem_of_keys. split.
  - intros (e & He & <-). apply elem_of_entries in He as (b' & Hb' & He); [|done].
    rewrite Hl in Hb'. injection Hb' as <-. eauto.
  - intros (e & He & <-). exists e. split; [|done]. apply elem_of_entries; [done|]. eauto.
Qed.

Lemma existsb_same_key b k : existsb (same_key ty k) b = true <-> exists e, e ∈ b /\ key e = k.
Proof.
  rewrite existsb_exists. split.
  - intros (e & He & Hs). apply same_key_iff in Hs. apply list_elem_of_In in He. eauto.
  - intros (e & He & <-). exists e. split; [now apply list_elem_of_In|now apply same_key_iff].
Qed.

Lemma find_in_ok ht k : live ht -> exists r, find_in ty ht k = Ret r /\
  match r with
  | Some (idx, pos) => idx = slot ht k /\
      exists b e, bucket ht idx = Ret b /\ table ht !! Z.to_nat idx = Some b /\
        b !! pos = Some e /\ key e = k
  | None => k ∉ keys_of (entries ht)
  end.
Proof.
  intros H. destruct (slot_bucket ht k H) as (b & Hb & Hl & Hk).
  unfold find_in. fold (slot ht k). rewrite Hb. cbn [mbind res_bind].
  destruct (list_find _ b) as [[pos e]|] eqn:E.
  - exists (Some (slot ht k, pos)). split; [done|]. split; [done|].
    apply list_find_Some in E as (Hp & Hs & _). apply same_key_iff in Hs. eauto 7.
  - exists None. split; [done|]. rewrite Hk. intros (e & He & <-).
    apply list_find_None in E. rewrite Forall_forall in E. apply E in He. apply He.
    now apply same_key_iff.
Qed.

(** ** Insertion *)

Definition target d : dictht K V := the_ht d (dictIsRehashing d).

Lemma target_live d : dict_wf d -> live (ht0 d) -> live (target d).
Proof.
  intros H L. unfold target. destruct (dictIsRehashing d) eqn:E; [|done].
  apply rehashing_iff in E; [|done]. apply E.
Qed.

Lemma keyIndex_ok can d k : dict_wf d -> used (ht0 d) <= 2 ^ 30 ->
  exists d' idx, _dictKeyIndex ty can d k = Ret (d', idx) /\ dict_wf d' /\
    same_entries d d' /\ live (ht0 d') /\ iterators d' = iterators d /\
    (k ∈ keys_of (all_entries d) -> idx = -1) /\
    (k ∉ keys_of (all_entries d) -> idx = slot (target d') k).
Proof.
  intros H Hu. unfold _dictKeyIndex.
  destruct (expandIfNeeded_ok can d H Hu) as (d' & -> & W & S & L & I).
  cbn [mbind res_bind]. change (DICT_OK =? DICT_ERR) with false. cbn iota.
  assert (forall x, x ∈ keys_of (all_entries d) <->
    x ∈ keys_of (entries (ht0 d')) \/ x ∈ keys_of (entries (ht1 d'))) as Hkeys.
  { intros x. unfold keys_of. rewrite S. unfold all_entries.
    now rewrite fmap_app, elem_of_app. }
  fold (slot (ht0 d') k) (slot (ht1 d') k).
  assert (forall ht, live ht -> i32 (slot ht k) = slot ht k) as Hi32.
  { intros ht Lh. pose proof (slot_range ht k Lh). pose proof (live_size ht Lh).
    apply swrap_id; [lia|]. unfold in_s. lia. }
  destruct (slot_bucket (ht0 d') k L) as (b & -> & _ & Hb). cbn [mbind res_bind].
  destruct (existsb (same_key ty k) b) eqn:Eb.
  { apply existsb_same_key, Hb in Eb. exists d', (-1). split_and!; auto.
    intros Hn. destruct Hn. apply Hkeys. auto. }
  assert (k ∉ keys_of (entries (ht0 d'))) as Hn0.
  { rewrite Hb, <- existsb_same_key. congruence. }
  assert (target d' = the_ht d' (dictIsRehashing d')) as HT by done.
  destruct (dictIsRehashing d') eqn:Er; cbn [negb the_ht] in *.
  - apply rehashing_iff in Er as (_ & L1 & _); [|done].
    destruct (slot_bucket (ht1 d') k L1) as (b1 & -> & _ & Hb1). cbn [mbind res_bind].
    destruct (existsb (same_key ty k) b1) eqn:Eb1.
    + apply existsb_same_key, Hb1 in Eb1. exists d', (-1). split_and!; auto.
      intros Hn. destruct Hn. apply Hkeys. auto.
    + exists d', (slot (ht1 d') k). rewrite Hi32, HT by done. split_and!; auto.
      intros [Hk|Hk]%Hkeys; [done|]. apply Hb1, existsb_same_key in Hk. congruence.
  - apply idle_iff in Er as [_ Hz]; [|done]. exists d', (slot (ht0 d') k).
    rewrite Hi32, HT by done. split_and!; auto. intros [Hk|Hk]%Hkeys; [done|].
    rewrite Hz in Hk. now apply elem_of_nil in Hk.
Qed.

(** ** Updating a bucket *)

(** The table is one the phase gives a meaning to. *)
Definition active d (second : bool) : Prop :=
  live (the_ht d second) /\ (second = true -> rehashing d).

Lemma the_set_the d second ht : the_ht (set_the_ht d second ht) second = ht.
Proof. now destruct second. Qed.
Lemma set_the_set_the d second ht ht' :
  set_the_ht (set_the_ht d second ht) second ht' = set_the_ht d second ht'.
Proof. now destruct second. Qed.
Lemma iterators_set_the d second ht : iterators (set_the_ht d second ht) = iterators d.
Proof. now destruct second. Qed.

Lemma active_used d second : dict_wf d -> 0 <= used (the_ht d second) < 2 ^ 62.
Proof. intros H. pose proof (wf_sum d H). destruct second; cbn; lia. Qed.

Lemma update_ok d second idx b b' n : dict_wf d -> active d second -> 0 <= idx ->
  table (the_ht d second) !! Z.to_nat idx = Some b ->
  (forall e, e ∈ b' -> slot (the_ht d second) (key e) = idx) ->
  n = used (the_ht d second) - Z.of_nat (length b) + Z.of_nat (length b') ->
  (second = false -> dictIsRehashing d = true -> b = [] -> b' = []) ->
  let d' := set_the_ht d second (set_used (set_bucket (the_ht d second) idx b') n) in
  exists rest, all_entries d ≡ₚ b ++ rest /\ all_entries d' ≡ₚ b' ++ rest /\
    live (the_ht d' second) /\
    (NoDup (keys_of (b' ++ rest)) -> Z.of_nat (length (b' ++ rest)) < 2 ^ 62 -> dict_wf d').
Proof.
  intros H [L HR] Hidx Hb Hp Hn Hempty d'.
  destruct (live_set (the_ht d second) idx b b' n L Hidx Hb Hp Hn) as (L' & rest & P1 & P2).
  set (ht' := set_used _ _) in *. destruct second; cbn [the_ht set_the_ht] in *.
  - exists (entries (ht0 d) ++ rest). destruct (HR eq_refl) as (L0 & L1 & Hi & He).
    assert (all_entries d' ≡ₚ b' ++ entries (ht0 d) ++ rest) as P.
    { unfold all_entries, d'. dict_simp. rewrite P2. apply Permutation_app_swap_app. }
    split; [unfold all_entries; rewrite P1; apply Permutation_app_swap_app|].
    split; [done|]. split; [done|]. intros Hnd Hlen. constructor.
    + right. exact L0.
    + right. split; [exact L0|]. split; [exact L'|]. split; [exact Hi|exact He].
    + rewrite P. done.
    + rewrite P. done.
  - exists (rest ++ entries (ht1 d)).
    assert (all_entries d' ≡ₚ b' ++ rest ++ entries (ht1 d)) as P.
    { unfold all_entries, d'. dict_simp. rewrite P2. now rewrite app_assoc. }
    split; [unfold all_entries; rewrite P1; now rewrite app_assoc|].
    split; [done|]. split; [done|]. intros Hnd Hlen. constructor.
    + right. exact L'.
    + destruct (wf_phase _ H) as [Hi|HR']; [left; exact Hi|right].
      pose proof HR' as (L0 & L1 & Hi & He).
      split; [exact L'|]. split; [exact L1|]. split; [exact Hi|].
      intros i Hlt. unfold d', ht'. dict_simp.
      destruct (decide (i = Z.to_nat idx)) as [->|Hne].
      * rewrite He in Hb by done. injection Hb as <-.
        rewrite Hempty by (auto; now apply rehashing_iff).
        rewrite list_insert_id; now apply He.
      * rewrite list_lookup_insert_ne by done. now apply He.
    + rewrite P. done.
    + rewrite P. done.
Qed.

(** A bucket just stored is read back. *)
Lemma bucket_set ht idx b n : live (set_used (set_bucket ht idx b) n) -> 0 <= idx ->
  (Z.to_nat idx < length (table ht))%nat -> bucket (set_used (set_bucket ht idx b) n) idx = Ret b.
Proof.
  intros L Hi Hl. destruct (bucket_live _ idx L) as (b' & -> & Hb').
  - pose proof (live_length _ L) as HL. dict_simp. rewrite length_insert in HL. lia.
  - dict_simp. rewrite list_lookup_insert_eq in Hb' by done. congruence.
Qed.

(** dictAddRaw followed by the assignment of a value. *)
Lemma add_entry_ok uninit can d k x : dict_wf d ->
  Z.of_nat (length (all_entries d)) <= 2 ^ 30 ->
  exists d' ref, dictAddRaw ty can uninit d k = Ret (d', ref) /\
    match ref with
    | None => (k ∈ keys_of (all_entries d)) /\ dict_wf d' /\ same_entries d d' /\
        iterators d' = iterators d
    | Some r => (k ∉ keys_of (all_entries d)) /\
        exists d'', assign_val d' r x = Ret d'' /\ dict_wf d'' /\
          all_entries d'' ≡ₚ mk_entry k x :: all_entries d /\ iterators d'' = iterators d
    end.
Proof.
  intros H Hb. unfold dictAddRaw.
  destruct (step_ok d H) as (d1 & -> & W1 & S1 & I1 & _). cbn [mbind res_bind].
  assert (used (ht0 d1) <= 2 ^ 30) as Hu1.
  { destruct (wf_used d1 W1) as [-> _]. rewrite S1 in Hb. unfold all_entries in Hb.
    rewrite length_app in Hb. lia. }
  destruct (keyIndex_ok can d1 k W1 Hu1) as (d2 & idx & -> & W2 & S2 & L2 & I2 & Hin & Hout).
  cbn [mbind res_bind].
  assert (same_entries d d2) as S by (etrans; eauto).
  assert (k ∈ keys_of (all_entries d) <-> k ∈ keys_of (all_entries d1)) as Hk.
  { unfold keys_of. now rewrite S1. }
  destruct (decide (k ∈ keys_of (all_entries d))) as [Hy|Hn].
  { rewrite Hin by tauto. exists d2, None. split; [done|]. split_and!; auto; congruence. }
  specialize (Hout ltac:(tauto)). subst idx. pose proof (target_live d2 W2 L2) as LT.
  pose proof (slot_range (target d2) k LT) as Hr. zif; [lia|].
  fold (target d2). destruct (slot_bucket (target d2) k LT) as (b & -> & Hl & _).
  cbn [mbind res_bind]. eexists _, (Some _). split; [done|]. split; [done|].
  pose proof (active_used d2 (dictIsRehashing d2) W2) as Hu2. fold (target d2) in Hu2.
  rewrite dup_same, uwrap_id by (cbn; unfold in_u; lia).
  assert (active d2 (dictIsRehashing d2)) as HA.
  { split; [exact LT|]. intros E. now apply rehashing_iff in E. }
  assert (forall y, exists rest, all_entries d2 ≡ₚ b ++ rest /\
    let d' := set_the_ht d2 (dictIsRehashing d2)
       (set_used (set_bucket (target d2) (slot (target d2) k) (mk_entry k y :: b)) (used (target d2) + 1)) in
    all_entries d' ≡ₚ (mk_entry k y :: b) ++ rest /\ live (the_ht d' (dictIsRehashing d2)) /\
    (NoDup (keys_of ((mk_entry k y :: b) ++ rest)) ->
     Z.of_nat (length ((mk_entry k y :: b) ++ rest)) < 2 ^ 62 -> dict_wf d')) as HU.
  { intros y. apply (update_ok d2 _ _ b (mk_entry k y :: b)); auto; [lia| | |congruence].
    - intros e [->|He]%elem_of_cons; [done|]. fold (target d2).
      rewrite (live_placed _ LT _ b e Hl He). lia.
    - cbn [length]. fold (target d2). lia. }
  destruct (HU uninit) as (_ & _ & _ & Lu & _). destruct (HU x) as (rest & P1 & P2 & _ & Hwf).
  eexists. split.
  { unfold assign_val. cbn [er_second er_idx er_pos]. rewrite the_set_the in Lu |- *.
    change (set_used (set_bucket ?h ?i ?c) (used (set_bucket ?h ?i ?c) + 1))
      with (set_used (set_bucket h i c) (used h + 1)).
    rewrite bucket_set by (done || lia || (eapply lookup_lt_Some; eauto)).
    cbn [mbind res_bind]. rewrite set_the_set_the. unfold set_bucket, set_used. cbn.
    rewrite list_insert_insert_eq. reflexivity. }
  fold (set_bucket (target d2) (slot (target d2) k) (mk_entry k x :: b)).
  match goal with |- dict_wf ?q /\ _ => change q with (set_the_ht d2 (dictIsRehashing d2)
    (set_used (set_bucket (target d2) (slot (target d2) k) (mk_entry k x :: b)) (used (target d2) + 1))) end.
  rewrite iterators_set_the. cbn zeta in P2, Hwf. rewrite P2. cbn [app] in *.
  split; [|split; [now rewrite S, P1|congruence]].
  apply Hwf; [|cbn [length]; rewrite <- P1, <- S; lia].
  cbn. constructor; [|rewrite <- P1, <- S; apply H].
  change (k ∉ keys_of (b ++ rest)). unfold keys_of. rewrite <- P1, <- S. exact Hn.
Qed.

(** ** Searching both tables *)

Lemma wf_live_ht0 d : dict_wf d -> all_entries d <> [] -> live (ht0 d).
Proof.
  intros H Hne. destruct (wf_ht0 _ H) as [Hz|]; [|done].
  destruct (wf_phase _ H) as [[_ Hz1]|(L & _)]; [|done].
  destruct Hne. unfold all_entries. now rewrite Hz, Hz1.
Qed.

(** [located d r e]: the pointer [r] is to the entry [e] of the dict. *)
Definition located d (r : entry_ref) (e : dictEntry K V) : Prop :=
  active d (er_second r) /\ er_idx r = slot (the_ht d (er_second r)) (key e) /\
  exists b, bucket (the_ht d (er_second r)) (er_idx r) = Ret b /\
    table (the_ht d (er_second r)) !! Z.to_nat (er_idx r) = Some b /\ b !! er_pos r = Some e.

Lemma located_in d r e : located d r e -> e ∈ all_entries d.
Proof.
  intros ([L _] & Hi & b & _ & Hb & He). unfold all_entries.
  assert (e ∈ entries (the_ht d (er_second r))) as Hin.
  { apply elem_of_entries; [done|]. exists b. rewrite <- Hi. split; [done|].
    eapply list_elem_of_lookup_2; eauto. }
  rewrite elem_of_app. destruct (er_second r); auto.
Qed.

Lemma located_deref d r e : located d r e -> deref d r = Ret e.
Proof.
  intros (_ & _ & b & Hb & _ & He). unfold deref. rewrite Hb. cbn. now rewrite He.
Qed.

(** The search shared by dictFind and dictGenericDelete. *)
Lemma search_ok d k : dict_wf d -> live (ht0 d) ->
  exists r0, find_in ty (ht0 d) k = Ret r0 /\
    match r0 with
    | Some (idx, pos) => exists e, key e = k /\ located d (mk_ref false idx pos) e
    | None =>
      if negb (dictIsRehashing d) then k ∉ keys_of (all_entries d)
      else exists r1, find_in ty (ht1 d) k = Ret r1 /\
        match r1 with
        | Some (idx, pos) => exists e, key e = k /\ located d (mk_ref true idx pos) e
        | None => k ∉ keys_of (all_entries d)
        end
    end.
Proof.
  intros H L. destruct (find_in_ok (ht0 d) k L) as ([[idx pos]|] & -> & H0); eexists;
    (split; [done|]).
  - destruct H0 as (-> & b & e & Hb & Hl & He & <-). exists e. split; [done|].
    split; [split; [exact L|done]|]. split; [done|]. eauto.
  - assert (forall x, x ∈ keys_of (all_entries d) <->
      x ∈ keys_of (entries (ht0 d)) \/ x ∈ keys_of (entries (ht1 d))) as Hkeys.
    { intros x. unfold keys_of, all_entries. now rewrite fmap_app, elem_of_app. }
    destruct (dictIsRehashing d) eqn:E; cbn [negb].
    + apply rehashing_iff in E as HR; [|done]. pose proof HR as (_ & L1 & _).
      destruct (find_in_ok (ht1 d) k L1) as ([[idx pos]|] & -> & H1); eexists; (split; [done|]).
      * destruct H1 as (-> & b & e & Hb & Hl & He & <-). exists e. split; [done|].
        split; [split; [exact L1|done]|]. split; [done|]. eauto.
      * cbv iota. rewrite Hkeys. tauto.
    + apply idle_iff in E as [_ Hz]; [|done]. rewrite Hkeys, Hz.
      intros [?|Hx]; [done|now apply elem_of_nil in Hx].
Qed.

Lemma dictFind_ok d k : dict_wf d ->
  exists d' ref, dictFind ty d k = Ret (d', ref) /\ dict_wf d' /\ same_entries d d' /\
    iterators d' = iterators d /\
    match ref with
    | Some r => exists e, key e = k /\ located d' r e
    | None => k ∉ keys_of (all_entries d)
    end.
Proof.
  intros H. unfold dictFind. pose proof (wf_sum d H). destruct (wf_used d H) as [U0 U1].
  rewrite uwrap_id by (unfold in_u; lia). zif.
  { exists d, None. split_and!; auto; [reflexivity|].
    assert (all_entries d = []) as ->; [|now apply not_elem_of_nil].
    apply length_zero_iff_nil. unfold all_entries. rewrite length_app. lia. }
  destruct (step_ok d H) as (d1 & -> & W & S & I & _). cbn [mbind res_bind].
  assert (live (ht0 d1)) as L.
  { apply wf_live_ht0; [done|]. intros E. apply (f_equal length) in E. rewrite <- S in E.
    unfold all_entries in E. rewrite length_app in E. cbn in E. lia. }
  assert (forall x, x ∈ keys_of (all_entries d) <-> x ∈ keys_of (all_entries d1)) as HS
    by (intros; unfold keys_of; now rewrite S).
  destruct (search_ok d1 k W L) as ([[idx pos]|] & -> & Hr); cbn [mbind res_bind].
  { eexists _, (Some _). split_and!; eauto. }
  destruct (negb _).
  { exists d1, None. rewrite HS. split_and!; auto. }
  destruct Hr as ([[idx pos]|] & -> & Hr); cbn [mbind res_bind].
  - eexists _, (Some _). split_and!; eauto.
  - exists d1, None. rewrite HS. split_and!; auto.
Qed.

Lemma delete_alter_nth (f : dictEntry K V -> dictEntry K V) (i : nat) : forall b : list (dictEntry K V),
  delete i (alter f i b) = delete i b.
Proof. induction i as [|i IH]; intros [|x b]; cbn; [done..|]. f_equal. apply IH. Qed.

(** Assigning through a pointer to an entry. *)
Lemma assign_ok d r e x : dict_wf d -> located d r e ->
  exists d', assign_val d r x = Ret d' /\ dict_wf d' /\ iterators d' = iterators d /\
    exists rest, all_entries d ≡ₚ e :: rest /\ all_entries d' ≡ₚ mk_entry (key e) x :: rest.
Proof.
  intros H (HA & Hi & b & Hb & Hl & He). destruct r as [second idx pos].
  cbn [er_second er_idx er_pos] in *. set (f := fun y : dictEntry K V => mk_entry (key y) x).
  assert (b ≡ₚ e :: delete pos b) as PB by now apply delete_Permutation.
  assert (alter f pos b ≡ₚ f e :: delete pos b) as PA.
  { rewrite <- (delete_alter_nth f pos b). apply delete_Permutation.
    rewrite list_lookup_alter_eq, He. done. }
  assert (length (alter f pos b) = length b) as HL by apply length_alter.
  pose proof HA as [L _]. pose proof (slot_range (the_ht d second) (key e) L) as Hr.
  destruct (update_ok d second idx b (alter f pos b) (used (the_ht d second)) H HA)
    as (rest & P1 & P2 & L' & Hwf); [lia|done| | | |].
  { intros y Hy. assert (exists z, z ∈ b /\ key y = key z) as (z & Hz & ->).
    { rewrite PA in Hy. apply elem_of_cons in Hy as [->|Hy].
      - exists e. split; [eapply list_elem_of_lookup_2; eauto|done].
      - exists y. split; [rewrite PB; now right|done]. }
    rewrite (live_placed _ L _ b z Hl Hz). lia. }
  { rewrite HL. lia. }
  { intros _ _ ->. now rewrite lookup_nil in He. }
  exists (set_the_ht d second (set_bucket (the_ht d second) idx (alter f pos b))).
  assert (set_used (set_bucket (the_ht d second) idx (alter f pos b)) (used (the_ht d second))
    = set_bucket (the_ht d second) idx (alter f pos b)) as HE by done.
  rewrite HE in *. split.
  { unfold assign_val. cbn [er_second er_idx er_pos]. rewrite Hb. done. }
  assert (length (all_entries d) = length b + length rest)%nat as Hlen
    by (rewrite P1; apply length_app).
  pose proof (wf_bound _ H). split; [apply Hwf|split; [apply iterators_set_the|]].
  - unfold keys_of. rewrite PA. pose proof (wf_nodup _ H) as Hnd. rewrite P1, PB in Hnd. exact Hnd.
  - rewrite length_app, HL. lia.
  - exists (delete pos b ++ rest). rewrite P1, P2, PA. split; [|done].
    now rewrite PB at 1.
Qed.

Lemma unlink_ok d r e : dict_wf d -> located d r e ->
  exists ht, unlink (the_ht d (er_second r)) (er_idx r) (er_pos r) = Ret ht /\
    let d' := set_the_ht d (er_second r) ht in
    dict_wf d' /\ iterators d' = iterators d /\ all_entries d ≡ₚ e :: all_entries d'.
Proof.
  intros H (HA & Hi & b & Hb & Hl & He). destruct r as [second idx pos].
  cbn [er_second er_idx er_pos] in *.
  assert (b ≡ₚ e :: delete pos b) as PB by now apply delete_Permutation.
  assert (length b = S (length (delete pos b))) as HL by now rewrite PB at 1.
  pose proof HA as [L _]. pose proof (slot_range (the_ht d second) (key e) L) as Hr.
  destruct (update_ok d second idx b (delete pos b) (used (the_ht d second) - 1) H HA)
    as (rest & P1 & P2 & L' & Hwf); [lia|done| | | |].
  { intros y Hy. rewrite (live_placed _ L _ b y Hl); [lia|]. rewrite PB. now right. }
  { lia. }
  { intros _ _ ->. done. }
  assert (length (all_entries d) = length b + length rest)%nat as Hlen
    by (rewrite P1; apply length_app).
  assert (1 <= used (the_ht d second)).
  { rewrite (live_used _ L). unfold entries.
    destruct (concat_insert _ _ _ Hl) as (q & -> & _). rewrite length_app. lia. }
  pose proof (active_used d second H).
  eexists. split.
  { unfold unlink. rewrite Hb. cbn [mbind res_bind]. rewrite uwrap_id by (unfold in_u; lia). done. }
  cbv zeta. pose proof (wf_bound _ H). split; [apply Hwf|split; [apply iterators_set_the|]].
  - pose proof (wf_nodup _ H) as Hnd. rewrite P1, PB in Hnd. now apply NoDup_cons in Hnd as [_ ?].
  - rewrite length_app. lia.
  - rewrite P2, P1, PB at 1. done.
Qed.

Lemma dictGenericDelete_ok d k : dict_wf d ->
  exists d' r, dictGenericDelete ty d k = Ret (d', r) /\ dict_wf d' /\
    iterators d' = iterators d /\
    ((r = DICT_ERR /\ (k ∉ keys_of (all_entries d)) /\ same_entries d d') \/
     (r = DICT_OK /\ exists e, key e = k /\ all_entries d ≡ₚ e :: all_entries d')).
Proof.
  intros H. unfold dictGenericDelete. zif.
  { exists d, DICT_ERR. split_and!; auto. left. split; [done|]. split; [|reflexivity].
    destruct (all_entries d) eqn:E; [apply not_elem_of_nil|].
    pose proof (wf_live_ht0 d H ltac:(congruence)) as L. apply live_size in L. lia. }
  assert (live (ht0 d)) as L0 by (destruct (wf_ht0 _ H) as [Hz|]; [now rewrite Hz in *|done]).
  destruct (step_ok d H) as (d1 & -> & W & S & I & _ & L). cbn [mbind res_bind].
  specialize (L L0).
  assert (forall x, x ∈ keys_of (all_entries d) <-> x ∈ keys_of (all_entries d1)) as HS
    by (intros; unfold keys_of; now rewrite S).
  assert (forall r e, key e = k -> located d1 r e ->
    exists ht, unlink (the_ht d1 (er_second r)) (er_idx r) (er_pos r) = Ret ht /\
      let d' := set_the_ht d1 (er_second r) ht in
      dict_wf d' /\ iterators d' = iterators d /\
      exists e, key e = k /\ all_entries d ≡ₚ e :: all_entries d') as HU.
  { intros r e He Hl. destruct (unlink_ok d1 r e W Hl) as (ht & ? & W' & I' & P).
    exists ht. split; [done|]. split; [done|]. split; [congruence|].
    exists e. split; [done|]. now rewrite S, P. }
  destruct (search_ok d1 k W L) as ([[idx pos]|] & -> & Hr); cbn [mbind res_bind].
  { destruct Hr as (e & He & Hl). destruct (HU _ _ He Hl) as (ht & Hht & W' & I' & P).
    cbn [er_second er_idx er_pos the_ht set_the_ht] in *. rewrite Hht. cbn [mbind res_bind].
    eexists _, _. split_and!; eauto. }
  destruct (negb _).
  { exists d1, DICT_ERR. rewrite HS. split_and!; auto. }
  destruct Hr as ([[idx pos]|] & -> & Hr); cbn [mbind res_bind].
  - destruct Hr as (e & He & Hl). destruct (HU _ _ He Hl) as (ht & Hht & W' & I' & P).
    cbn [er_second er_idx er_pos the_ht set_the_ht] in *. rewrite Hht. cbn [mbind res_bind].
    eexists _, _. split_and!; eauto.
  - exists d1, DICT_ERR. rewrite HS. split_and!; auto.
Qed.

End Proofs.
