(* ===== verification/DictMap.v ===== *)
(** * DictMap: the dict as a finite map, and the server's string keys

    The abstraction function [dict_map] of a dict, and the refinement of
    each operation of dict.c to the operation of a finite map; the
    database type of server.c is one of the lawful types. *)

From stdpp Require Import gmap fin_maps.
From S2P Require Import Prelude Util Glob Dict DictProofs.

Section Map.
Context {K V : Type} `{Countable K} (ty : dictType K V) `{!LawfulType ty}.
Implicit Types (d : dict K V) (k : K).

Definition pair_of (e : dictEntry K V) : K * V := (key e, val e).

Definition dict_map d : gmap K V := list_to_map (pair_of <$> all_entries d).

Lemma fst_pair_of (l : list (dictEntry K V)) : (pair_of <$> l).*1 = keys_of l.
Proof. unfold keys_of. rewrite <- list_fmap_compose. now apply list_fmap_ext. Qed.

Lemma wf_keys d : dict_wf ty d -> NoDup (pair_of <$> all_entries d).*1.
Proof. intros W. rewrite fst_pair_of. apply W. Qed.

Lemma same_map d d' : dict_wf ty d -> same_entries d d' -> dict_map d' = dict_map d.
Proof.
  intros W S. symmetry. apply list_to_map_proper; [now apply wf_keys|].
  unfold same_entries in S. now rewrite S.
Qed.

Lemma cons_map d d' e : dict_wf ty d' -> all_entries d' ≡ₚ e :: all_entries d ->
  dict_map d' = <[key e := val e]> (dict_map d).
Proof.
  intros W P. unfold dict_map.
  rewrite (list_to_map_proper _ (pair_of <$> e :: all_entries d)); [done|now apply wf_keys|].
  now rewrite P.
Qed.

Lemma in_map d k : dict_wf ty d -> k ∈ keys_of (all_entries d) <-> is_Some (dict_map d !! k).
Proof.
  intros W. rewrite <- fst_pair_of, <- not_eq_None_Some.
  unfold dict_map. rewrite <- not_elem_of_list_to_map. split; [auto|].
  intros Hn. destruct (decide (k ∈ (pair_of <$> all_entries d).*1)); tauto.
Qed.

Lemma not_in_map d k : dict_wf ty d -> k ∉ keys_of (all_entries d) <-> dict_map d !! k = None.
Proof. intros W. rewrite in_map, <- eq_None_not_Some by done. done. Qed.

Lemma located_map d r e : dict_wf ty d -> located ty d r e -> dict_map d !! key e = Some (val e).
Proof.
  intros W L. apply located_in in L. apply elem_of_list_to_map_1; [now apply wf_keys|].
  apply list_elem_of_fmap. exists e. done.
Qed.

Lemma length_map d : dict_wf ty d -> length (all_entries d) = base.size (dict_map d).
Proof.
  intros W. unfold dict_map. rewrite <- length_map_to_list, map_to_list_to_map by now apply wf_keys.
  now rewrite length_fmap.
Qed.

Lemma dictSize_map d : dict_wf ty d -> dictSize d = Z.of_nat (base.size (dict_map d)).
Proof.
  intros W. rewrite <- length_map by done. unfold dictSize.
  pose proof (wf_sum ty d W). destruct (wf_used ty d W) as [U0 U1].
  rewrite uwrap_id by (unfold in_u; lia). unfold all_entries. rewrite length_app. lia.
Qed.

(** ** Refinement *)

(** [refines d' m]: the dict is well formed and has the contents [m]. *)
Definition refines d' (m : gmap K V) : Prop := dict_wf ty d' /\ dict_map d' = m.

Lemma add_refines uninit can d k v : dict_wf ty d ->
  Z.of_nat (base.size (dict_map d)) <= 2 ^ 30 ->
  exists d' r, dictAdd ty can uninit d k v = Ret (d', r) /\ iterators d' = iterators d /\
    match dict_map d !! k with
    | Some _ => r = DICT_ERR /\ refines d' (dict_map d)
    | None => r = DICT_OK /\ refines d' (<[k := dictSetVal ty v]> (dict_map d))
    end.
Proof.
  intros W Hb. rewrite <- length_map in Hb by done. unfold dictAdd.
  destruct (add_entry_ok ty uninit can d k (dictSetVal ty v) W Hb) as (d' & [r|] & -> & Hr);
    cbn [mbind res_bind].
  - destruct Hr as (Hn & d'' & -> & W' & P & I). cbn [mbind res_bind].
    apply not_in_map in Hn; [|done]. rewrite Hn. eexists _, _. split_and!; eauto. split; [done|].
    now apply (cons_map d d'') in P.
  - destruct Hr as (Hy & W' & S & I). apply in_map in Hy as [x ->]; [|done].
    eexists _, _. split_and!; eauto. split; [done|]. now apply same_map.
Qed.

Lemma find_refines d k : dict_wf ty d ->
  exists d' ref, dictFind ty d k = Ret (d', ref) /\ refines d' (dict_map d) /\
    iterators d' = iterators d /\
    match ref with
    | Some r => exists e, key e = k /\ located ty d' r e /\ dict_map d !! k = Some (val e)
    | None => dict_map d !! k = None
    end.
Proof.
  intros W. destruct (dictFind_ok ty d k W) as (d' & ref & -> & W' & S & I & Hr).
  pose proof (same_map d d' W S) as HM. exists d', ref. split_and!; auto; [split; done|].
  destruct ref as [r|]; [|now apply not_in_map].
  destruct Hr as (e & <- & L). exists e. split_and!; auto. rewrite <- HM.
  eapply located_map; eauto.
Qed.

Lemma assign_refines d r e x : dict_wf ty d -> located ty d r e ->
  exists d', assign_val d r x = Ret d' /\ iterators d' = iterators d /\
    refines d' (<[key e := x]> (dict_map d)).
Proof.
  intros W L. destruct (assign_ok ty d r e x W L) as (d' & -> & W' & I & rest & P & P').
  exists d'. split_and!; auto. split; [done|].
  unfold dict_map. rewrite (list_to_map_proper (pair_of <$> all_entries d') (pair_of <$> mk_entry (key e) x :: rest))
    by (now apply wf_keys || now rewrite P').
  rewrite (list_to_map_proper (pair_of <$> all_entries d) (pair_of <$> e :: rest))
    by (now apply wf_keys || now rewrite P).
  cbn. now rewrite insert_insert_eq.
Qed.

(** dictEmpty frees every entry. *)
Lemma clear_loop_all (bs : list (list (dictEntry K V))) n :
  n = Z.of_nat (length (concat bs)) -> clear_loop bs n = concat bs.
Proof.
  revert n. induction bs as [|b bs IH]; intros n ->; [done|]. cbn [clear_loop concat].
  rewrite length_app. zif.
  - destruct b; [|cbn in *; lia]. destruct (concat bs) eqn:E; [done|cbn in *; lia].
  - f_equal. apply IH. lia.
Qed.

(** ** The theorems *)

(** A new dict is empty. *)
Lemma create_refines : refines dictCreate ∅.
Proof.
  split; [|done]. constructor; [now left|now left|constructor|cbn; lia].
Qed.

(** C26: dictAdd inserts a key that is absent and refuses one that is
    present, leaving the contents alone, in every phase of a rehash. *)
Theorem dictAdd_refines uninit can d k v : dict_wf ty d ->
  Z.of_nat (base.size (dict_map d)) <= 2 ^ 30 ->
  exists d' r, dictAdd ty can uninit d k v = Ret (d', r) /\
    match dict_map d !! k with
    | Some _ => r = DICT_ERR /\ refines d' (dict_map d)
    | None => r = DICT_OK /\ refines d' (<[k := dictSetVal ty v]> (dict_map d))
    end.
Proof.
  intros W Hb. destruct (add_refines uninit can d k v W Hb) as (d' & r & ? & _ & ?). eauto.
Qed.

(** dictFetchValue and dictFind return the value of the key, with no
    effect on the contents; dictSize is the number of keys. *)
Theorem dictFind_refines d k : dict_wf ty d ->
  (exists d' ref, dictFind ty d k = Ret (d', ref) /\ refines d' (dict_map d) /\
    match ref with
    | Some r => exists v, deref d' r = Ret (mk_entry k v) /\ dict_map d !! k = Some v
    | None => dict_map d !! k = None
    end) /\
  (exists d', dictFetchValue ty d k = Ret (d', dict_map d !! k) /\ refines d' (dict_map d)) /\
  dictSize d = Z.of_nat (base.size (dict_map d)).
Proof.
  intros W. destruct (find_refines d k W) as (d' & ref & E & R & I & Hr). split_and!.
  - exists d', ref. split_and!; auto. destruct ref as [r|]; [|done].
    destruct Hr as (e & <- & L & Hm). exists (val e). split; [|done].
    rewrite (located_deref _ _ _ _ L). now destruct e.
  - unfold dictFetchValue. rewrite E. cbn [mbind res_bind]. exists d'. destruct ref as [r|].
    + destruct Hr as (e & <- & L & ->). rewrite (located_deref _ _ _ _ L). done.
    + rewrite Hr. done.
  - now apply dictSize_map.
Qed.

(** dictReplace sets the value of the key and says whether it was new. *)
Theorem dictReplace_refines uninit can d k v : dict_wf ty d ->
  Z.of_nat (base.size (dict_map d)) <= 2 ^ 30 ->
  exists d', dictReplace ty can uninit d k v =
      Ret (d', match dict_map d !! k with Some _ => 0 | None => 1 end) /\
    refines d' (<[k := dictSetVal ty v]> (dict_map d)).
Proof.
  intros W Hb. unfold dictReplace.
  destruct (add_refines uninit can d k v W Hb) as (d1 & r & -> & _ & Hr). cbn [mbind res_bind].
  destruct (dict_map d !! k) as [x|] eqn:Ek; destruct Hr as [-> [W1 M1]]; cbn [Z.eqb DICT_ERR DICT_OK].
  - change (1 =? 0) with false. cbn iota.
    destruct (find_refines d1 k W1) as (d2 & ref & -> & [W2 M2] & _ & Hf). cbn [mbind res_bind].
    rewrite M1, Ek in Hf. destruct ref as [r|]; [|done].
    destruct Hf as (e & <- & L & _).
    destruct (assign_refines d2 r e (dictSetVal ty v) W2 L) as (d3 & -> & _ & R3).
    cbn [mbind res_bind]. exists d3. split; [done|]. now rewrite M2, M1 in R3.
  - exists d1. done.
Qed.

(** dictDelete removes the key and answers DICT_OK exactly when it was
    there. *)
Theorem dictDelete_refines d k : dict_wf ty d ->
  exists d', dictDelete ty d k =
      Ret (d', match dict_map d !! k with Some _ => DICT_OK | None => DICT_ERR end) /\
    refines d' (delete k (dict_map d)).
Proof.
  intros W. unfold dictDelete.
  destruct (dictGenericDelete_ok ty d k W) as (d' & r & -> & W' & _ & [(-> & Hn & S)|(-> & e & <- & P)]).
  - apply not_in_map in Hn; [|done]. rewrite Hn. exists d'. split; [done|]. split; [done|].
    rewrite (same_map d d' W S), delete_id by done. done.
  - pose proof (cons_map d' d e W P) as HM. rewrite HM, lookup_insert_eq. exists d'.
    split; [done|]. split; [done|]. rewrite delete_insert_id; [done|].
    apply not_in_map; [done|]. pose proof (wf_nodup _ _ W) as Hnd. rewrite P in Hnd.
    now apply NoDup_cons in Hnd as [? _].
Qed.

(** dictEmpty frees each entry once and leaves an empty dict. *)
Theorem dictEmpty_frees d : dict_wf ty d ->
  let '(d', freed) := dictEmpty d in
  refines d' ∅ /\ freed = all_entries d.
Proof.
  intros W. unfold dictEmpty, _dictClear. destruct (wf_used ty d W) as [U0 U1].
  rewrite !clear_loop_all by done. split; [apply create_refines|done].
Qed.

(** [n] calls of _dictRehashStep. *)
Fixpoint rehash_steps (n : nat) d : res (dict K V) :=
  match n with
  | O => Ret d
  | S n => d ← _dictRehashStep ty d; rehash_steps n d
  end.

(** C27: an incremental rehash ends: with no iterator, as many steps as
    the old table has buckets left, and one, complete it, the contents
    unchanged at every step. *)
Theorem rehash_completes d n : dict_wf ty d -> iterators d = 0 ->
  Dict.size (ht0 d) - rehashidx d < Z.of_nat n ->
  exists d', rehash_steps n d = Ret d' /\ refines d' (dict_map d) /\ dictIsRehashing d' = false.
Proof.
  intros W I Hn. assert (idle d \/ Dict.size (ht0 d) - rehashidx d < Z.of_nat n) as Hc by auto.
  clear Hn. revert d W I Hc. induction n as [|n IH]; intros d W I Hc.
  - exists d. assert (idle d) as Hi.
    { destruct Hc as [|]; [done|]. destruct (wf_phase _ _ W) as [|(_ & _ & ? & _)]; [done|lia]. }
    split; [done|]. split; [done|]. now apply (idle_iff ty).
  - cbn [rehash_steps]. unfold _dictRehashStep. rewrite I. cbn [Z.eqb].
    destruct (dictRehash_ok ty d 1 W) as (d1 & r & E & W1 & S1 & I1 & Hr & _).
    rewrite E. cbn [mbind res_bind].
    destruct (IH d1 W1 ltac:(congruence)) as (d2 & E2 & [W2 M2] & Hi).
    + destruct (wf_phase _ _ W) as [Hi|HR].
      * left. rewrite <- Hr. unfold dictRehash in E.
        rewrite (proj2 (idle_iff ty d W) Hi) in E. cbn in E. congruence.
      * destruct (rehash_progress ty d W HR) as (d1' & r' & E' & Hp).
        rewrite E in E'. injection E' as <- <-. destruct Hp as [|[? ?]]; [auto|].
        destruct Hc as [[? _]|]; [|right; lia]. destruct HR as (_ & _ & ? & _). lia.
    + exists d2. split_and!; auto. split; [done|]. rewrite M2. now apply same_map.
Qed.

(** dictResize refuses while resizing is disabled or a rehash is under
    way; otherwise it starts a rehash to the smallest power of two that
    holds the entries, unless the table has that size.  The contents stay. *)
Theorem dictResize_refines can d : dict_wf ty d -> Dict.used (ht0 d) < 2 ^ 31 ->
  exists d' r, dictResize can d = Ret (d', r) /\ refines d' (dict_map d) /\
    (can = false \/ dictIsRehashing d = true -> r = DICT_ERR /\ d' = d) /\
    (r = DICT_OK -> dictIsRehashing d' = negb (bool_decide (table (ht0 d) = [])) /\
      let sz := Dict.size (the_ht d' (dictIsRehashing d')) in
      Z.max 4 (Dict.used (ht0 d)) <= sz < Z.max 5 (2 * Dict.used (ht0 d))).
Proof.
  intros W Hu. pose proof (wf_sum ty d W) as (Hu0 & _ & _). unfold dictResize.
  destruct (negb can || dictIsRehashing d) eqn:Eg.
  { exists d, DICT_ERR. split_and!; auto; [split; done|done]. }
  apply orb_false_iff in Eg as [Ec Er]. apply negb_false_iff in Ec as ->.
  rewrite swrap_id by (unfold in_s; lia). set (mn := if _ : bool then _ else _).
  assert (mn = Z.max 4 (Dict.used (ht0 d))) as ->.
  { unfold mn, DICT_HT_INITIAL_SIZE. zif; lia. }
  rewrite uwrap_id by (unfold in_u; lia).
  destruct (dictExpand_ok ty d (Z.max 4 (Dict.used (ht0 d))) W) as (d' & r & E & W' & S' & _); [lia|].
  exists d', r. split; [done|]. split; [split; [done|now apply same_map]|].
  split; [intros [|]; congruence|]. intros ->. unfold dictExpand in E.
  destruct (dictNextPower_ok (Z.max 4 (Dict.used (ht0 d)))) as (e & He & Hp & Hle & Hmin);
    [unfold LLONG_MAX; lia|]. rewrite Hp, Er in E. cbn [mbind res_bind orb] in E.
  assert (2 ^ e < Z.max 5 (2 * Dict.used (ht0 d))).
  { destruct (Z.eq_dec e 2) as [->|]; [lia|]. specialize (Hmin ltac:(lia)).
    assert (4 <= 2 ^ (e - 1)) by (change 4 with (2 ^ 2); apply Z.pow_le_mono_r; lia).
    rewrite (pow2_pred e) by lia. lia. }
  destruct (_ <? _); [done|]. destruct (_ =? _); [done|].
  destruct (bool_decide (table (ht0 d) = [])); injection E as <-.
  - change (dictIsRehashing (set_ht0 d _)) with (dictIsRehashing d). rewrite Er.
    cbn [negb the_ht]. dict_simp. lia.
  - cbn [negb dictIsRehashing the_ht]. unfold dictIsRehashing. dict_simp.
    split; [done|]. cbn. lia.
Qed.
End Map.

(** ** The server's string keys (server.c)

    An sds key is the list of its bytes; it is shorter than 512 MB, so the
    [int] lengths of the callbacks do not truncate.  [seed] is
    [dict_hash_function_seed]. *)

Definition dictSdsKeyCompare (key1 key2 : list Z) : bool :=
  let l1 := length key1 in
  let l2 := length key2 in
  if negb (Nat.eqb l1 l2) then false
  else bool_decide (take l1 key1 = take l1 key2).

Definition dictSdsHash (seed : Z) (key : list Z) : Z := dictGenHashFunction seed key.

Definition dbDictType (V : Type) (seed : Z) : dictType (list Z) V :=
  mk_type (dictSdsHash seed) None None (Some dictSdsKeyCompare).

Definition dictSdsKeyCaseCompare (key1 key2 : list Z) : bool :=
  strcasecmp_eq (strlen_take key1) (strlen_take key2).

Definition dictSdsCaseHash (seed : Z) (key : list Z) : Z := dictGenCaseHashFunction seed key.

Definition HASHTABLE_MIN_FILL : Z := 10.

Definition htNeedsResize {K V} (d : dict K V) : bool :=
  let sz := dictSlots d in
  let n := dictSize d in
  (DICT_HT_INITIAL_SIZE <? sz) && (Z.quot (n * 100) sz <? HASHTABLE_MIN_FILL).

Lemma dictGenHashFunction_range seed k : in_u 32 (dictGenHashFunction seed k).
Proof.
  unfold dictGenHashFunction. destruct (murmur_loop _ _) as [h data].
  auto with redis lia.
Qed.

#[export] Instance dbDictType_lawful V seed : LawfulType (dbDictType V seed).
Proof.
  split.
  - intros k. apply dictGenHashFunction_range.
  - intros k1 k2. cbn. unfold dictSdsKeyCompare. destruct (Nat.eqb_spec (length k1) (length k2)); [|done].
    cbn. rewrite bool_decide_eq_true. rewrite take_ge, take_ge by lia. done.
  - done.
Qed.

Lemma strlen_take_id k : 0 ∉ k -> strlen_take k = k.
Proof.
  intros Hn. unfold strlen_take. destruct (list_find _ k) as [[i x]|] eqn:E; [|done].
  apply list_find_Some in E as (Hi & -> & _). destruct Hn. eapply list_elem_of_lookup_2; eauto.
Qed.

(** keys of the command table that compare equal hash equally, as a
    dict needs of its type, as long as they have no NUL byte. *)
Theorem case_hash_coherent seed k1 k2 : 0 ∉ k1 -> 0 ∉ k2 ->
  dictSdsKeyCaseCompare k1 k2 = true -> dictSdsCaseHash seed k1 = dictSdsCaseHash seed k2.
Proof.
  unfold dictSdsKeyCaseCompare, dictSdsCaseHash, strcasecmp_eq. intros H1 H2.
  rewrite !strlen_take_id by done. rewrite bool_decide_eq_true. intros E.
  unfold dictGenCaseHashFunction. generalize (u32 seed). revert k2 H2 E.
  induction k1 as [|c1 k1 IH]; intros [|c2 k2] H2 E h; cbn in E; try discriminate; [done|].
  injection E as Ec E. apply not_elem_of_cons in H1 as [_ H1], H2 as [_ H2].
  cbn [fold_left]. rewrite Ec. now apply IH.
Qed.

Lemma case_hash_coherent_witness :
  dictSdsCaseHash 5381 (bytes_of_string "GetSet") = dictSdsCaseHash 5381 (bytes_of_string "gEtSeT").
Proof.
  apply (case_hash_coherent 5381).
  - apply (bool_decide_unpack _). vm_compute. exact I.
  - apply (bool_decide_unpack _). vm_compute. exact I.
  - vm_compute. reflexivity.
Defined.

(** ** A dict in the middle of a rehash *)

Section Sample.
Context {K V : Type} `{Countable K} (ty : dictType K V) `{!LawfulType ty}.

Fixpoint add_all (can : bool) (uninit : V) (d : dict K V) (kvs : list (K * V)) : res (dict K V) :=
  match kvs with
  | [] => Ret d
  | (k, v) :: kvs => '(d, _) ← dictAdd ty can uninit d k v; add_all can uninit d kvs
  end.

Lemma add_all_wf can uninit kvs : forall d, dict_wf ty d ->
  Z.of_nat (base.size (dict_map d)) + Z.of_nat (length kvs) <= 2 ^ 30 ->
  exists d', add_all can uninit d kvs = Ret d' /\ dict_wf ty d'.
Proof.
  induction kvs as [|[k v] kvs IH]; intros d W Hb; [eauto|]. cbn [add_all length] in *.
  destruct (add_refines ty uninit can d k v W) as (d' & r & -> & _ & Hr); [lia|].
  cbn [mbind res_bind]. destruct (dict_map d !! k) eqn:Ek; destruct Hr as [_ [W' M]].
  - apply IH; [done|]. rewrite M. lia.
  - apply IH; [done|]. rewrite M, map_size_insert_None by done. lia.
Qed.
End Sample.

Definition dict_of (kvs : list (list Z * Z)) : dict (list Z) Z :=
  match add_all (dbDictType Z 5381) true 0 dictCreate kvs with Ret d => d | Fault _ => dictCreate end.

Lemma dict_of_wf kvs : Z.of_nat (length kvs) <= 2 ^ 30 -> dict_wf (dbDictType Z 5381) (dict_of kvs).
Proof.
  intros Hl. unfold dict_of.
  destruct (add_all_wf (dbDictType Z 5381) true 0 kvs dictCreate) as (d' & -> & W).
  - apply (create_refines (dbDictType Z 5381)).
  - exact Hl.
  - exact W.
Qed.

(** Five keys: the table of four buckets is being rehashed to eight. *)
Definition sample : dict (list Z) Z :=
  dict_of [([97], 1); ([98], 2); ([99], 3); ([100], 4); ([101], 5)].

Lemma sample_wf : dict_wf (dbDictType Z 5381) sample.
Proof. apply dict_of_wf. cbn. lia. Qed.

Lemma dictAdd_refines_witness :
  dictIsRehashing sample = true /\
  exists d' r, dictAdd (dbDictType Z 5381) true 0 sample [102] 6 = Ret (d', r) /\
    match dict_map sample !! [102] with
    | Some _ => r = DICT_ERR /\ refines (dbDictType Z 5381) d' (dict_map sample)
    | None => r = DICT_OK /\ refines (dbDictType Z 5381) d' (<[[102] := 6]> (dict_map sample))
    end.
Proof.
  split; [vm_compute; reflexivity|].
  apply (dictAdd_refines (dbDictType Z 5381) 0 true sample [102] 6); [apply sample_wf|].
  vm_compute. discriminate.
Defined.

Lemma dictFind_refines_witness :
  exists d', dictFetchValue (dbDictType Z 5381) sample [99] = Ret (d', Some 3) /\
    refines (dbDictType Z 5381) d' (dict_map sample).
Proof.
  destruct (dictFind_refines (dbDictType Z 5381) sample [99] sample_wf) as (_ & (d' & E & R) & _).
  exists d'. split; [|exact R]. rewrite E. vm_compute. reflexivity.
Defined.

Lemma dictReplace_refines_witness :
  exists d', dictReplace (dbDictType Z 5381) true 0 sample [97] 7 = Ret (d', 0) /\
    refines (dbDictType Z 5381) d' (<[[97] := 7]> (dict_map sample)).
Proof.
  destruct (dictReplace_refines (dbDictType Z 5381) 0 true sample [97] 7 sample_wf) as (d' & E & R).
  - vm_compute. discriminate.
  - exists d'. split; [|exact R]. rewrite E. vm_compute. reflexivity.
Defined.

Lemma dictDelete_refines_witness :
  exists d', dictDelete (dbDictType Z 5381) sample [101] = Ret (d', DICT_OK) /\
    refines (dbDictType Z 5381) d' (delete [101] (dict_map sample)).
Proof.
  destruct (dictDelete_refines (dbDictType Z 5381) sample [101] sample_wf) as (d' & E & R).
  exists d'. split; [|exact R]. rewrite E. vm_compute. reflexivity.
Defined.

Lemma dictEmpty_frees_witness :
  let '(d', freed) := dictEmpty sample in
  refines (dbDictType Z 5381) d' ∅ /\ freed = all_entries sample.
Proof. apply (dictEmpty_frees (dbDictType Z 5381) sample sample_wf). Defined.

Lemma rehash_completes_witness :
  exists d', rehash_steps (dbDictType Z 5381) 5 sample = Ret d' /\
    refines (dbDictType Z 5381) d' (dict_map sample) /\ dictIsRehashing d' = false.
Proof.
  apply (rehash_completes (dbDictType Z 5381) sample 5 sample_wf); vm_compute; reflexivity.
Defined.

Lemma dictResize_refines_witness :
  exists d' r, dictResize true (dict_of [([97], 1)]) = Ret (d', r) /\
    refines (dbDictType Z 5381) d' (dict_map (dict_of [([97], 1)])) /\ r = DICT_ERR.
Proof.
  destruct (dictResize_refines (dbDictType Z 5381) true (dict_of [([97], 1)])) as (d' & r & E & R & _).
  - apply dict_of_wf. cbn. lia.
  - vm_compute. reflexivity.
  - exists d', r. split; [exact E|]. split; [exact R|]. vm_compute in E. injection E as _ <-. reflexivity.
Defined.
