(* ===== verification/DictScan.v ===== *)
(** * DictScan: the guarantee of the stateless cursor of dictScan

    The cursor counts with its bits reversed.  Read through [rev], a call
    visits an interval of hash positions that starts no later than the
    cursor and returns the end of that interval, whatever the sizes of the
    tables; so a scan that runs from 0 back to 0 has returned every key
    that was in the dict all along.  While a dict is rehashed this needs
    the cursor to fit the smaller table. *)

From stdpp Require Import gmap.
From S2P Require Import Prelude Util Glob Dict DictProofs DictMap.

(** ** Bit reversal *)

Definition rev_round (s mask v : Z) : Z :=
  Z.lor (Z.land (Z.shiftr v s) mask) (Z.land (u64 (Z.shiftl v s)) (u64 (Z.lnot mask))).

Definition idx64 : list Z := map Z.of_nat (seq 0 64).

Lemma idx64_in i : 0 <= i < 64 -> In i idx64.
Proof.
  intros. unfold idx64. apply in_map_iff. exists (Z.to_nat i). split; [lia|]. apply in_seq. lia.
Qed.

Lemma u64_testbit v i : 0 <= i < 64 -> Z.testbit (u64 v) i = Z.testbit v i.
Proof. intros. unfold uwrap. apply Z.mod_pow2_bits_low. lia. Qed.

Lemma testbit_high v i : in_u 64 v -> 64 <= i -> Z.testbit v i = false.
Proof.
  intros Hv Hi. rewrite <- (Z.mod_small v (2 ^ 64)) by exact Hv.
  apply Z.mod_pow2_bits_high. lia.
Qed.

(** The mask of a round selects the positions whose bit [s] is clear, and
    the round exchanges each position with its neighbour at distance [s]. *)
Definition mask_ok (s mask : Z) : bool :=
  forallb (fun i => if Z.testbit mask i then (Z.lxor i s =? i + s) && (i + s <? 64)
                    else (Z.lxor i s =? i - s) && (0 <=? i - s)) idx64.

Lemma rev_round_testbit s mask v i : mask_ok s mask = true -> 0 < s -> 0 <= i < 64 -> in_u 64 v ->
  Z.testbit (rev_round s mask v) i = Z.testbit v (Z.lxor i s).
Proof.
  intros Hm Hs Hi Hv. unfold mask_ok in Hm. rewrite forallb_forall in Hm.
  specialize (Hm i (idx64_in i Hi)). unfold rev_round.
  rewrite Z.lor_spec, !Z.land_spec, !u64_testbit, Z.lnot_spec by lia.
  rewrite Z.shiftr_spec by lia.
  destruct (Z.testbit mask i); apply andb_true_iff in Hm as [Hx%Z.eqb_eq Hr]; rewrite Hx; cbn [negb].
  - now rewrite andb_true_r, andb_false_r, orb_false_r.
  - rewrite andb_false_r, andb_true_r, orb_false_l. rewrite Z.shiftl_spec by lia. done.
Qed.

Lemma rev_round_range s mask v : in_u 64 v -> in_u 64 mask -> 0 <= s -> in_u 64 (rev_round s mask v).
Proof.
  intros Hv Hm Hs.
  assert (u64 (rev_round s mask v) = rev_round s mask v) as <-; [|now apply uwrap_range].
  apply Z.bits_inj'. intros i Hi. unfold uwrap.
  destruct (Z.lt_ge_cases i 64); [now apply Z.mod_pow2_bits_low|].
  rewrite Z.mod_pow2_bits_high by lia. unfold rev_round.
  rewrite Z.lor_spec, !Z.land_spec, (testbit_high mask) by (done || lia).
  rewrite (testbit_high (u64 (Z.lnot mask))) by (lia || now apply uwrap_range).
  now rewrite !andb_false_r.
Qed.

Lemma rev_rounds v : rev v =
  rev_round 1 0x5555555555555555 (rev_round 2 0x3333333333333333
  (rev_round 4 0x0f0f0f0f0f0f0f0f (rev_round 8 0x00ff00ff00ff00ff
  (rev_round 16 0x0000ffff0000ffff (rev_round 32 0x00000000ffffffff v))))).
Proof. reflexivity. Qed.

Lemma rev_range v : in_u 64 v -> in_u 64 (rev v).
Proof.
  intros. rewrite rev_rounds. repeat apply rev_round_range; try done; unfold in_u; lia.
Qed.

Lemma rev_testbit v i : in_u 64 v -> 0 <= i < 64 -> Z.testbit (rev v) i = Z.testbit v (63 - i).
Proof.
  intros Hv Hi. rewrite rev_rounds.
  assert (forall s j, 0 <= j < 64 -> 0 <= s < 64 -> 0 <= Z.lxor j s < 64) as Hx.
  { intros s j Hj Hs. assert (0 <= Z.lxor j s) by (apply Z.lxor_nonneg; lia). split; [done|].
    destruct (Z.eq_dec (Z.lxor j s) 0) as [->|]; [lia|]. apply (Z.log2_lt_pow2 _ 6); [lia|].
    pose proof (Z.log2_lxor j s ltac:(lia) ltac:(lia)).
    assert (forall x, 0 <= x < 64 -> Z.log2 x < 6) as Hl.
    { intros x ?. destruct (Z.eq_dec x 0) as [->|]; [done|]. apply Z.log2_lt_pow2; lia. }
    pose proof (Hl j Hj). pose proof (Hl s Hs). lia. }
  rewrite !rev_round_testbit; repeat first
    [ reflexivity | lia | done | apply Hx | apply rev_round_range | (unfold in_u; lia) ].
  f_equal. rewrite !Z.lxor_assoc.
  change (Z.lxor 1 (Z.lxor 2 (Z.lxor 4 (Z.lxor 8 (Z.lxor 16 32))))) with 63.
  assert (forallb (fun i => Z.lxor i 63 =? 63 - i) idx64 = true) as H by reflexivity.
  rewrite forallb_forall in H. apply Z.eqb_eq, H, idx64_in, Hi.
Qed.

Lemma rev_rev v : in_u 64 v -> rev (rev v) = v.
Proof.
  intros Hv. pose proof (rev_range v Hv). apply Z.bits_inj'. intros i Hi.
  destruct (Z.lt_ge_cases i 64).
  - rewrite !rev_testbit by (done || lia). f_equal. lia.
  - rewrite !testbit_high; [done|done|done|now apply rev_range|done].
Qed.

Lemma rev_0 : rev 0 = 0.
Proof. reflexivity. Qed.

#[local] Opaque rev.

(** ** Positions and intervals

    [B e] is the number of positions of one bucket in a table of [2 ^ e]. *)

Definition B (e : Z) : Z := 2 ^ (64 - e).

Lemma B_pos e : 0 <= e <= 64 -> 0 < B e.
Proof. intros. apply Z.pow_pos_nonneg; lia. Qed.

Lemma B_split e : 0 <= e <= 64 -> 2 ^ 64 = 2 ^ e * B e.
Proof. intros. unfold B. rewrite <- Z.pow_add_r by lia. f_equal. lia. Qed.

Lemma rev_div_testbit e v j : 0 <= e <= 64 -> in_u 64 v -> 0 <= j ->
  Z.testbit (rev v / B e) j = (j <? e) && Z.testbit v (e - 1 - j).
Proof.
  intros He Hv Hj. unfold B. rewrite <- Z.shiftr_div_pow2, Z.shiftr_spec by lia.
  destruct (Z.ltb_spec j e); cbn [andb].
  - rewrite rev_testbit by (done || lia). f_equal. lia.
  - rewrite testbit_high; [done|now apply rev_range|lia].
Qed.

(** Two hashes select the same bucket when their positions are in the same
    interval. *)
Lemma rev_match e h v : 0 <= e <= 64 -> in_u 64 h -> in_u 64 v ->
  h mod 2 ^ e = v mod 2 ^ e <-> rev h / B e = rev v / B e.
Proof.
  intros He Hh Hv. split; intros E; apply Z.bits_inj'; intros j Hj.
  - rewrite !rev_div_testbit by done. destruct (Z.ltb_spec j e); [cbn|done].
    rewrite <- (Z.mod_pow2_bits_low h e), <- (Z.mod_pow2_bits_low v e) by lia. now rewrite E.
  - destruct (Z.lt_ge_cases j e); [|now rewrite !Z.mod_pow2_bits_high by lia].
    rewrite !Z.mod_pow2_bits_low by lia.
    assert (Z.testbit (rev h / B e) (e - 1 - j) = Z.testbit (rev v / B e) (e - 1 - j)) as Hb by now rewrite E.
    rewrite !rev_div_testbit in Hb by (done || lia).
    destruct (Z.ltb_spec (e - 1 - j) e); [|lia]. cbn in Hb.
    now replace (e - 1 - (e - 1 - j)) with j in Hb by lia.
Qed.

Lemma lor_mask_range e v : in_u 64 v -> in_u 64 (Z.lor v (u64 (Z.lnot (2 ^ e - 1)))).
Proof.
  intros Hv. apply in_u_land; [lia|]. apply in_u_land in Hv; [|lia].
  rewrite Z.land_lor_distr_l, Hv. f_equal. apply in_u_land; [lia|]. now apply uwrap_range.
Qed.

Lemma rev_ones e v : 0 <= e <= 64 -> in_u 64 v ->
  rev (Z.lor v (u64 (Z.lnot (2 ^ e - 1)))) + 1 = (rev v / B e + 1) * B e.
Proof.
  intros He Hv. pose proof (B_pos e He). set (x := Z.lor _ _).
  assert (in_u 64 x) as Hx by now apply lor_mask_range.
  assert (rev x / B e = rev v / B e) as Hq.
  { apply rev_match; [done|done|done|]. apply Z.bits_inj'. intros j Hj.
    destruct (Z.lt_ge_cases j e); [|now rewrite !Z.mod_pow2_bits_high by lia].
    rewrite !Z.mod_pow2_bits_low by lia. unfold x.
    rewrite Z.lor_spec, u64_testbit, Z.lnot_spec, testbit_ones_low by lia.
    destruct (Z.ltb_spec j e); [|lia]. now rewrite orb_false_r. }
  assert (rev x mod B e = B e - 1) as Hm.
  { unfold B. replace (2 ^ (64 - e) - 1) with (Z.ones (64 - e)) by (rewrite Z.ones_equiv; lia).
    apply Z.bits_inj'. intros j Hj. destruct (Z.lt_ge_cases j (64 - e)).
    - rewrite Z.mod_pow2_bits_low, Z.ones_spec_low, rev_testbit by (done || lia). unfold x.
      rewrite Z.lor_spec, u64_testbit, Z.lnot_spec, testbit_ones_low by lia.
      destruct (Z.ltb_spec (63 - j) e); [lia|]. apply orb_true_r.
    - now rewrite Z.mod_pow2_bits_high, Z.ones_spec_high by lia. }
  pose proof (Z.div_mod (rev x) (B e) ltac:(lia)). rewrite Hq, Hm in *. lia.
Qed.

Definition next_cursor (m0 v : Z) : Z := rev (u64 (rev (Z.lor v (u64 (Z.lnot m0))) + 1)).

Lemma next_cursor_ok e v : 0 <= e <= 64 -> in_u 64 v ->
  in_u 64 (next_cursor (2 ^ e - 1) v) /\
  rev (next_cursor (2 ^ e - 1) v) = u64 ((rev v / B e + 1) * B e) /\
  rev v / B e < 2 ^ e.
Proof.
  intros He Hv. unfold next_cursor. rewrite rev_ones by done. pose proof (B_pos e He).
  pose proof (uwrap_range 64 ((rev v / B e + 1) * B e) ltac:(lia)) as Hr.
  split; [now apply rev_range|]. split; [now apply rev_rev|].
  apply Z.div_lt_upper_bound; [lia|]. rewrite Z.mul_comm, <- B_split by done. now apply rev_range.
Qed.

(** The next cursor has no bit above the mask. *)
Lemma next_cursor_fits e v : 0 <= e <= 64 -> in_u 64 v -> 0 <= next_cursor (2 ^ e - 1) v < 2 ^ e.
Proof.
  intros He Hv. destruct (next_cursor_ok e v He Hv) as (Hr & Hv' & Hq).
  set (w := next_cursor _ _) in *. pose proof (B_pos e He).
  assert (rev w mod B e = 0) as Hm.
  { rewrite Hv'. unfold uwrap. rewrite (B_split e He), (Z.mul_comm (2 ^ e)).
    rewrite (Z.mul_comm _ (B e)), Z.mul_mod_distr_l by lia. rewrite Z.mul_comm. apply Z_mod_mult. }
  split; [apply Hr|]. apply Z.lt_nge. intros Hge.
  assert (w = w mod 2 ^ e) as Hw; [|pose proof (Z.mod_pos_bound w (2 ^ e) ltac:(lia)); lia].
  apply Z.bits_inj'. intros j Hj. destruct (Z.lt_ge_cases j e).
  - now rewrite Z.mod_pow2_bits_low by lia.
  - rewrite Z.mod_pow2_bits_high by lia. destruct (Z.lt_ge_cases j 64); [|now apply testbit_high].
    rewrite <- (rev_rev w Hr), rev_testbit by (lia || now apply rev_range).
    unfold B in Hm. rewrite <- (Z.mod_pow2_bits_low _ (64 - e)), Hm by lia. apply Z.bits_0.
Qed.

(** ** One call *)

(** The position one past the interval a call has covered. *)
Definition cursor_end (v : Z) : Z := if v =? 0 then 2 ^ 64 else rev v.

Lemma cursor_end_next e v : 0 <= e <= 64 -> in_u 64 v ->
  cursor_end (next_cursor (2 ^ e - 1) v) = (rev v / B e + 1) * B e.
Proof.
  intros He Hv. destruct (next_cursor_ok e v He Hv) as (Hr & Hv' & Hq).
  pose proof (B_pos e He). pose proof (B_split e He) as HB. pose proof (rev_range v Hv) as [? _].
  assert (0 <= rev v / B e) by (apply Z.div_pos; lia).
  set (w := next_cursor (2 ^ e - 1) v) in *. clearbody w. unfold cursor_end.
  destruct (Z.eqb_spec w 0) as [E0|Hne].
  - rewrite E0, rev_0 in Hv'. unfold uwrap in Hv'. symmetry in Hv'.
    apply Z.mod_divide in Hv' as [c Hc]; [|lia]. assert (0 < c) by nia. assert (c <= 1); nia.
  - rewrite Hv'. apply uwrap_id. split; [nia|].
    destruct (Z.eq_dec (rev v / B e + 1) (2 ^ e)) as [Eq|]; [|nia].
    destruct Hne. rewrite Eq, <- HB in Hv'. unfold uwrap in Hv'. rewrite Z_mod_same_full in Hv'.
    rewrite <- (rev_rev w Hr), Hv'. apply rev_0.
Qed.

(** The interval of a call: from [rev v] rounded down, to the new cursor. *)
Lemma cursor_interval e v p : 0 <= e <= 64 -> in_u 64 v -> in_u 64 p ->
  rev v < cursor_end (next_cursor (2 ^ e - 1) v) /\
  (rev v <= p < cursor_end (next_cursor (2 ^ e - 1) v) -> p / B e = rev v / B e) /\
  (p / B e = rev v / B e -> p < cursor_end (next_cursor (2 ^ e - 1) v)).
Proof.
  intros He Hv Hp. destruct (next_cursor_ok e v He Hv) as (Hr & Hv' & Hq).
  pose proof (B_pos e He). pose proof (B_split e He) as HB.
  rewrite cursor_end_next by done. set (q := rev v / B e) in *.
  pose proof (Z.div_mod (rev v) (B e) ltac:(lia)) as Dv. fold q in Dv.
  pose proof (Z.mod_pos_bound (rev v) (B e) ltac:(lia)).
  pose proof (Z.div_mod p (B e) ltac:(lia)) as Dp.
  pose proof (Z.mod_pos_bound p (B e) ltac:(lia)).
  split; [nia|]. split.
  - intros [Hlo Hhi]. assert (p / B e < q + 1) by nia. assert (q <= p / B e); [|lia].
    apply Z.div_le_mono; lia.
  - intros Eq. rewrite Eq in Dp. nia.
Qed.

(** The expansions of a cursor that fits the small table. *)
Lemma expansion_step e0 hi w : 0 <= e0 <= 31 -> 0 <= w < 2 ^ e0 -> 0 <= hi < 2 ^ 32 ->
  let v := hi * 2 ^ e0 + w in
  Z.lor (Z.land (u64 (Z.lor v (2 ^ e0 - 1) + 1)) (u64 (Z.lnot (2 ^ e0 - 1)))) (Z.land v (2 ^ e0 - 1))
  = (hi + 1) * 2 ^ e0 + w.
Proof.
  intros He Hw Hhi v. assert (0 < 2 ^ e0 <= 2 ^ 31) by (split; [lia|apply Z.pow_le_mono_r; lia]).
  unfold v. rewrite lor_mask, land_mask by lia.
  replace (hi * 2 ^ e0 + (2 ^ e0 - 1) + 1) with ((hi + 1) * 2 ^ e0) by lia.
  rewrite (uwrap_id 64 ((hi + 1) * 2 ^ e0)) by (unfold in_u; nia).
  assert (Z.land ((hi + 1) * 2 ^ e0) (u64 (Z.lnot (2 ^ e0 - 1))) = (hi + 1) * 2 ^ e0) as ->.
  { rewrite <- (Z.div_mul (hi + 1) (2 ^ e0)) at 2 by lia. rewrite <- land_unmask by lia.
    apply Z.bits_inj'. intros j Hj. rewrite !Z.land_spec. destruct (Z.lt_ge_cases j 64).
    - now rewrite u64_testbit by lia.
    - rewrite (testbit_high ((hi + 1) * 2 ^ e0)) by (lia || (unfold in_u; nia)). done. }
  rewrite (Z.add_comm (hi * _) w), Z_mod_plus_full, (Z.mod_small w) by lia. apply lor_add; lia.
Qed.

Lemma expansion_done e0 e1 hi w : 0 <= e0 <= e1 -> 0 <= w < 2 ^ e0 -> 0 <= hi ->
  Z.land (hi * 2 ^ e0 + w) (Z.lxor (2 ^ e0 - 1) (2 ^ e1 - 1)) = 0 <-> hi mod 2 ^ (e1 - e0) = 0.
Proof.
  intros He Hw Hhi. set (v := hi * 2 ^ e0 + w).
  assert (forall j, 0 <= j -> Z.testbit v (j + e0) = Z.testbit hi j) as Hv.
  { intros j Hj. unfold v. rewrite <- lor_add, Z.lor_spec by lia.
    rewrite <- (Z.mod_small w (2 ^ e0)), Z.mod_pow2_bits_high by lia.
    rewrite orb_false_r, <- Z.shiftl_mul_pow2, Z.shiftl_spec by lia. f_equal. lia. }
  assert (forall j, 0 <= j -> Z.testbit (Z.land v (Z.lxor (2 ^ e0 - 1) (2 ^ e1 - 1))) j =
    (e0 <=? j) && (j <? e1) && Z.testbit hi (j - e0)) as Hb.
  { intros j Hj. rewrite Z.land_spec, Z.lxor_spec, !testbit_ones_low by lia.
    destruct (Z.leb_spec e0 j), (Z.ltb_spec j e0), (Z.ltb_spec j e1); cbn; try lia;
      rewrite ?andb_false_r, ?andb_true_r; try done.
    rewrite <- Hv by lia. f_equal. lia. }
  split; intros E; apply Z.bits_inj'; intros j Hj; rewrite Z.bits_0.
  - destruct (Z.lt_ge_cases j (e1 - e0)); [|now rewrite Z.mod_pow2_bits_high by lia].
    rewrite Z.mod_pow2_bits_low by lia.
    assert (Z.testbit 0 (j + e0) = false) as Ht by apply Z.bits_0. rewrite <- E, Hb in Ht by lia.
    destruct (Z.leb_spec e0 (j + e0)), (Z.ltb_spec (j + e0) e1); try lia. cbn in Ht.
    now replace (j + e0 - e0) with j in Ht by lia.
  - rewrite Hb by done. destruct (Z.leb_spec e0 j), (Z.ltb_spec j e1); try done. cbn.
    rewrite <- (Z.mod_pow2_bits_low hi (e1 - e0)), E by lia. apply Z.bits_0.
Qed.

Section Scan.
Context {K V : Type} `{EqDecision K} (ty : dictType K V) `{!LawfulType ty}.
Implicit Types (ht : dictht K V) (d : dict K V) (e : dictEntry K V).

(** The position of an entry in the order of the scan. *)
Definition position e : Z := rev (dictHashKey ty (key e)).

Lemma hash64 k : in_u 64 (dictHashKey ty k).
Proof. pose proof (hash_range k) as Hk. unfold in_u, dictHashKey in *. lia. Qed.

Lemma slot_mod ht x k : live ty ht -> size ht = 2 ^ x -> 0 <= x <= 31 ->
  slot ty ht k = dictHashKey ty k mod 2 ^ x.
Proof.
  intros L Hs Hx. unfold slot. rewrite (live_mask _ _ L), Hs, land_mask by lia.
  pose proof (Z.mod_pos_bound (dictHashKey ty k) (2 ^ x) ltac:(lia)).
  assert (2 ^ x <= 2 ^ 31) by (apply Z.pow_le_mono_r; lia).
  apply uwrap_id. unfold in_u. lia.
Qed.

(** A bucket holds the entries whose hash ends in its index. *)
Lemma bucket_entries ht x idx : live ty ht -> size ht = 2 ^ x -> 0 <= x <= 31 -> 0 <= idx < 2 ^ x ->
  exists b, bucket ht idx = Ret b /\
    forall e, e ∈ b <-> e ∈ entries ht /\ dictHashKey ty (key e) mod 2 ^ x = idx.
Proof.
  intros L Hs Hx Hi. destruct (bucket_live ty ht idx L) as (b & -> & Hb); [lia|].
  exists b. split; [done|]. intros e. split.
  - intros He. pose proof (live_placed _ _ L _ b e Hb He) as Hp.
    rewrite (slot_mod ht x) in Hp by done. split; [|lia].
    apply (elem_of_entries ty); [done|]. rewrite (slot_mod ht x), Hp, Nat2Z.id by done. eauto.
  - intros [He Hh]. apply (elem_of_entries ty) in He as (b' & Hb' & He); [|done].
    rewrite (slot_mod ht x), Hh in Hb' by done. congruence.
Qed.

(** The hash in the large table is an expansion of the one in the small. *)
Lemma split_index (e0 e1 w x hi : Z) : 0 <= e0 <= e1 -> 0 <= w < 2 ^ e0 ->
  x mod 2 ^ e1 = hi * 2 ^ e0 + w <-> x mod 2 ^ e0 = w /\ x mod 2 ^ e1 / 2 ^ e0 = hi.
Proof.
  intros He Hw. assert (x mod 2 ^ e1 mod 2 ^ e0 = x mod 2 ^ e0) as <-.
  { apply Z.mod_mod_divide. exists (2 ^ (e1 - e0)). rewrite <- Z.pow_add_r by lia. f_equal. lia. }
  set (y := x mod 2 ^ e1). split.
  - intros ->. rewrite Z.add_comm, Z_mod_plus_full, Z.mod_small, Z_div_plus, Z.div_small by lia. lia.
  - intros [<- <-]. rewrite Z.mul_comm. apply Z.div_mod. lia.
Qed.

Lemma expansions_ok t1 (e0 e1 w : Z) : live ty t1 -> size t1 = 2 ^ e1 -> 0 <= e0 <= e1 -> e1 <= 31 ->
  0 <= w < 2 ^ e0 ->
  forall fuel hi, 0 <= hi < 2 ^ (e1 - e0) -> 2 ^ (e1 - e0) - hi <= Z.of_nat fuel ->
  exists des v', scan_expansions fuel t1 (2 ^ e0 - 1) (2 ^ e1 - 1) (hi * 2 ^ e0 + w) = Ret (des, v') /\
    in_u 64 v' /\ v' mod 2 ^ e0 = w /\
    forall e, e ∈ des <-> e ∈ entries t1 /\ dictHashKey ty (key e) mod 2 ^ e0 = w /\
      hi <= dictHashKey ty (key e) mod 2 ^ e1 / 2 ^ e0.
Proof.
  intros L Hs He He1 Hw. assert (0 < 2 ^ e0) by lia.
  assert (2 ^ e1 = 2 ^ (e1 - e0) * 2 ^ e0) as Hpow by (rewrite <- Z.pow_add_r by lia; f_equal; lia).
  assert (2 ^ e1 <= 2 ^ 31) by (apply Z.pow_le_mono_r; lia).
  induction fuel as [|fuel IH]; intros hi Hhi Hf; [lia|]. cbn [scan_expansions].
  assert (0 <= hi * 2 ^ e0 + w < 2 ^ e1) by nia.
  rewrite (land_mask _ e1), (Z.mod_small _ (2 ^ e1)) by lia.
  destruct (bucket_entries t1 e1 (hi * 2 ^ e0 + w)) as (b & -> & Hb); [done|done|lia|lia|].
  cbn [mbind res_bind]. rewrite expansion_step by nia.
  assert (forall e, e ∈ b <-> e ∈ entries t1 /\ dictHashKey ty (key e) mod 2 ^ e0 = w /\
    dictHashKey ty (key e) mod 2 ^ e1 / 2 ^ e0 = hi) as Hb'
    by (intros e; rewrite Hb, split_index by lia; done).
  pose proof (expansion_done e0 e1 (hi + 1) w ltac:(lia) Hw ltac:(lia)) as Hd.
  destruct (Z.eqb_spec (Z.land ((hi + 1) * 2 ^ e0 + w) (Z.lxor (2 ^ e0 - 1) (2 ^ e1 - 1))) 0) as [E|E].
  - assert (hi + 1 = 2 ^ (e1 - e0)) as Hlast.
    { apply Hd in E. destruct (Z.lt_ge_cases (hi + 1) (2 ^ (e1 - e0))); [|lia].
      rewrite Z.mod_small in E by lia. lia. }
    eexists _, _. split; [done|]. split; [unfold in_u; nia|]. split.
    { rewrite Z.add_comm, Z_mod_plus_full. now apply Z.mod_small. }
    intros e. rewrite Hb'. split; [intros (? & ? & <-); auto with lia|].
    intros (Hin & Hlo & Hge). split_and!; auto.
    assert (dictHashKey ty (key e) mod 2 ^ e1 / 2 ^ e0 < 2 ^ (e1 - e0)); [|lia].
    apply Z.div_lt_upper_bound; [lia|]. rewrite (Z.mul_comm (2 ^ e0)), <- Hpow.
    apply Z.mod_pos_bound. lia.
  - assert (hi + 1 < 2 ^ (e1 - e0)) as Hmore.
    { destruct (Z.eq_dec (hi + 1) (2 ^ (e1 - e0))) as [Eq|]; [|lia].
      destruct E. apply Hd. rewrite Eq. apply Z_mod_same_full. }
    destruct (IH (hi + 1)) as (des & v' & -> & Hr & Hm & Hdes); [lia|lia|].
    cbn [mbind res_bind]. eexists _, _. split; [done|]. split; [done|]. split; [done|].
    intros e. rewrite elem_of_app, Hb', Hdes.
    destruct (Z.eq_dec (dictHashKey ty (key e) mod 2 ^ e1 / 2 ^ e0) hi); intuition lia.
Qed.

(** ** The step *)

(** The size of the smaller table a call looks at. *)
Definition scan_size d : Z :=
  if dictIsRehashing d then Z.min (size (ht0 d)) (size (ht1 d)) else size (ht0 d).

Lemma next_cursor_low x v v' : 0 <= x <= 64 -> in_u 64 v -> in_u 64 v' ->
  v mod 2 ^ x = v' mod 2 ^ x -> next_cursor (2 ^ x - 1) v = next_cursor (2 ^ x - 1) v'.
Proof.
  intros Hx Hv Hv' E. unfold next_cursor. rewrite !rev_ones by done.
  apply rev_match in E as ->; done.
Qed.

Lemma dictScan_ok d v : dict_wf ty d -> all_entries d <> [] -> in_u 64 v ->
  (dictIsRehashing d = true -> v < scan_size d) ->
  exists x des, 2 <= x <= 31 /\ scan_size d = 2 ^ x /\
    dictScan d v = Ret (next_cursor (2 ^ x - 1) v, des) /\
    forall e, e ∈ des <-> e ∈ all_entries d /\ dictHashKey ty (key e) mod 2 ^ x = v mod 2 ^ x.
Proof.
  intros W Hne Hv Hfit. unfold dictScan.
  assert ((dictSize d =? 0) = false) as ->.
  { pose proof (wf_sum ty d W). destruct (wf_used ty d W) as [U0 U1]. unfold dictSize.
    rewrite uwrap_id by (unfold in_u; lia). apply Z.eqb_neq. intros E. apply Hne.
    apply length_zero_iff_nil. unfold all_entries. rewrite length_app. lia. }
  pose proof (wf_live_ht0 ty d W Hne) as L0. destruct (live_exp _ _ L0) as (x0 & Hx0 & Hs0).
  unfold scan_size in *. destruct (dictIsRehashing d) eqn:Er; cbn [negb].
  - apply (rehashing_iff ty) in Er as (_ & L1 & _); [|done].
    destruct (live_exp _ _ L1) as (x1 & Hx1 & Hs1). specialize (Hfit eq_refl).
    set (p := if _ : bool then (ht1 d, ht0 d) else _).
    assert (exists t0 t1 (e0 e1 : Z), p = (t0, t1) /\ live ty t0 /\ live ty t1 /\ size t0 = 2 ^ e0 /\
      size t1 = 2 ^ e1 /\ 2 <= e0 <= e1 /\ e1 <= 31 /\ Z.min (size (ht0 d)) (size (ht1 d)) = 2 ^ e0 /\
      forall e, e ∈ all_entries d <-> e ∈ entries t0 \/ e ∈ entries t1)
      as (t0 & t1 & e0 & e1 & -> & Lt0 & Lt1 & Ht0 & Ht1 & He0 & He1 & Hmin & Hall).
    { unfold p. zif.
      - exists (ht1 d), (ht0 d), x1, x0. split_and!; auto; try lia.
        + rewrite Hs0, Hs1 in *. apply Z.lt_le_incl, (Z.pow_lt_mono_r_iff 2); lia.
        + intros e. unfold all_entries. rewrite elem_of_app. tauto.
      - exists (ht0 d), (ht1 d), x0, x1. split_and!; auto; try lia.
        + rewrite Hs0, Hs1 in *. apply (Z.pow_le_mono_r_iff 2); lia.
        + intros e. unfold all_entries. apply elem_of_app. }
    rewrite (live_mask _ _ Lt0), (live_mask _ _ Lt1), Ht0, Ht1, land_mask by lia.
    rewrite Hmin in *. destruct Hv as [Hv0 Hv1].
    rewrite Z.mod_small by lia.
    destruct (bucket_entries t0 e0 v) as (b & -> & Hb); [done|done|lia|lia|]. cbn [mbind res_bind].
    destruct (expansions_ok t1 e0 e1 v Lt1 Ht1 ltac:(lia) ltac:(lia) ltac:(lia) (Z.to_nat (2 ^ e1)) 0)
      as (des & v' & E & Hv' & Hm & Hdes).
    { split; [lia|]. apply Z.pow_pos_nonneg; lia. }
    { assert (2 ^ (e1 - e0) <= 2 ^ e1) by (apply Z.pow_le_mono_r; lia). lia. }
    rewrite Z.mul_0_l, Z.add_0_l in E. rewrite E. cbn [mbind res_bind].
    exists e0, (b ++ des). split; [lia|]. split; [done|]. split.
    { do 2 f_equal. fold (next_cursor (2 ^ e0 - 1) v').
      apply next_cursor_low; [lia|done|unfold in_u; lia|]. now rewrite Hm, Z.mod_small by lia. }
    intros e. rewrite (Z.mod_small v) by lia. rewrite elem_of_app, Hb, Hdes, Hall.
    assert (0 <= dictHashKey ty (key e) mod 2 ^ e1 / 2 ^ e0).
    { apply Z.div_pos; [|lia]. apply Z.mod_pos_bound. lia. }
    tauto.
  - rewrite (live_mask _ _ L0), Hs0, land_mask by lia.
    destruct (bucket_entries (ht0 d) x0 (v mod 2 ^ x0)) as (b & -> & Hb); [done|done|lia| |].
    { apply Z.mod_pos_bound. lia. }
    cbn [mbind res_bind]. exists x0, b. split_and!; auto; [lia..|].
    intros e. rewrite Hb. apply (idle_iff ty) in Er as [_ Hz]; [|done].
    unfold all_entries. rewrite Hz, elem_of_app. split; [tauto|].
    intros [[?|Hin] ?]; [done|]. now apply elem_of_nil in Hin.
Qed.

(** a call of dictScan emits entries of the dict, among them every one
    whose position is between the cursor and the returned cursor, and the
    cursor advances; a returned cursor fits the smaller table. *)
Theorem dictScan_step d v : dict_wf ty d -> in_u 64 v ->
  (dictIsRehashing d = true -> v < scan_size d) ->
  exists v' des, dictScan d v = Ret (v', des) /\ in_u 64 v' /\ (v' = 0 \/ v' < scan_size d) /\
    rev v < cursor_end v' /\
    (forall e, e ∈ des -> e ∈ all_entries d) /\
    (forall e, e ∈ all_entries d -> rev v <= position e < cursor_end v' -> e ∈ des).
Proof.
  intros W Hv Hfit. pose proof (rev_range v Hv) as [Hr0 Hr1].
  destruct (decide (length (all_entries d) = 0%nat)) as [E|Hne].
  - apply length_zero_iff_nil in E. unfold dictScan. assert ((dictSize d =? 0) = true) as ->.
    { unfold dictSize. destruct (wf_used ty d W) as [-> ->]. unfold all_entries in E.
      apply app_eq_nil in E as [-> ->]. done. }
    exists 0, []. split; [done|]. split; [unfold in_u; lia|]. split; [auto|]. split; [done|].
    rewrite E. split; [done|]. intros e He. now apply elem_of_nil in He.
  - destruct (dictScan_ok d v W ltac:(intros Hz; now rewrite Hz in Hne) Hv Hfit)
      as (x & des & Hx & Hs & -> & Hdes).
    exists (next_cursor (2 ^ x - 1) v), des.
    pose proof (next_cursor_fits x v ltac:(lia) Hv). destruct (next_cursor_ok x v ltac:(lia) Hv) as (Hr & _ & _).
    split; [done|]. split; [done|]. split; [right; lia|].
    split; [now apply (cursor_interval x v 0); [lia|done|unfold in_u; lia]|]. split.
    + intros e He. now apply Hdes.
    + intros e He Hp. apply Hdes. split; [done|]. apply rev_match; [lia|apply hash64|done|].
      apply cursor_interval; [lia|done|apply rev_range, hash64|done].
Qed.

(** ** A whole scan *)

(** Calls on successive states of the dict, from a given cursor: the last
    cursor and everything emitted. *)
Fixpoint scan_run (ds : list (dict K V)) (v : Z) : res (Z * list (dictEntry K V)) :=
  match ds with
  | [] => Ret (v, [])
  | d :: ds =>
    '(v, des) ← dictScan d v;
    '(v, rest) ← scan_run ds v;
    Ret (v, des ++ rest)
  end.

(** No call finds the dict rehashing to or from a table smaller than the
    one the cursor was made for. *)
Fixpoint steady (sz : Z) (ds : list (dict K V)) : Prop :=
  match ds with
  | [] => True
  | d :: ds => (dictIsRehashing d = true -> sz <= scan_size d) /\ steady (scan_size d) ds
  end.

Lemma scan_size_pos d : dict_wf ty d -> dictIsRehashing d = true -> 0 < scan_size d.
Proof.
  intros W E. unfold scan_size. rewrite E. apply (rehashing_iff ty) in E as (L0 & L1 & _); [|done].
  apply live_size in L0, L1; auto. lia.
Qed.

Lemma scan_run_covers ds : forall v sz, Forall (dict_wf ty) ds -> in_u 64 v ->
  v = 0 \/ v < sz -> steady sz ds ->
  exists v' out, scan_run ds v = Ret (v', out) /\
    (v' = 0 -> ds <> [] -> forall k,
      rev v <= rev (dictHashKey ty k) -> Forall (fun d => k ∈ keys_of (all_entries d)) ds ->
      k ∈ keys_of out).
Proof.
  induction ds as [|d ds IH]; intros v sz HW Hv Hfit Hst; [exists v, []; done|].
  apply Forall_cons in HW as [W HW]. destruct Hst as [Hs Hst]. cbn [scan_run].
  destruct (dictScan_step d v W Hv) as (v1 & des & -> & Hv1 & Hfit1 & Hlt & _ & Hcov).
  { intros E. pose proof (scan_size_pos d W E). specialize (Hs E). destruct Hfit; lia. }
  cbn [mbind res_bind].
  destruct (IH v1 (scan_size d) HW Hv1 Hfit1 Hst) as (v' & out & E & Hout).
  rewrite E. cbn [mbind res_bind]. exists v', (des ++ out). split; [done|].
  intros Hz _ k Hk Hall. apply Forall_cons in Hall as [Hkd Hall].
  unfold keys_of. rewrite fmap_app, elem_of_app.
  pose proof (rev_range _ (hash64 k)) as [Hp0 Hp1].
  destruct (Z.lt_ge_cases (rev (dictHashKey ty k)) (cursor_end v1)) as [Hin|Hafter].
  - left. apply elem_of_keys in Hkd as (e & He & <-). apply elem_of_keys.
    exists e. split; [|done]. apply Hcov; [done|]. unfold position. lia.
  - right. unfold cursor_end in Hafter. destruct (Z.eqb_spec v1 0); [lia|].
    apply Hout; auto. intros ->. cbn in E. injection E as <- <-. done.
Qed.

(** C28: a scan made of any number of calls on successive states of the
    dict, resized and modified in between, that starts with the cursor 0
    and is given back 0, has returned every key that was in the dict at
    each call, provided the table does not shrink under it. *)
Theorem scan_complete ds : Forall (dict_wf ty) ds -> ds <> [] -> steady 0 ds ->
  exists v' out, scan_run ds 0 = Ret (v', out) /\
    (v' = 0 -> forall k, Forall (fun d => k ∈ keys_of (all_entries d)) ds -> k ∈ keys_of out).
Proof.
  intros HW Hne Hst. destruct (scan_run_covers ds 0 0 HW) as (v' & out & E & Hout);
    [unfold in_u; lia|auto|done|].
  exists v', out. split; [done|]. intros Hz k Hk. apply Hout; auto. rewrite rev_0.
  apply rev_range, hash64.
Qed.

(** The cursor of a dict that does not change counts the intervals. *)
Lemma scan_run_counts d x : dict_wf ty d -> all_entries d <> [] -> 2 <= x <= 31 ->
  scan_size d = 2 ^ x -> forall n i v, 0 <= i -> i + Z.of_nat n = 2 ^ x -> (1 <= n)%nat ->
  in_u 64 v -> rev v = i * B x -> (v = 0 \/ v < scan_size d) ->
  exists out, scan_run (replicate n d) v = Ret (0, out).
Proof.
  intros W Hne Hx Hsz. pose proof (B_pos x ltac:(lia)). pose proof (B_split x ltac:(lia)) as HB.
  induction n as [|n IH]; intros i v Hi Hn H1 Hv Hrv Hfit; [lia|]. cbn [replicate scan_run].
  destruct (dictScan_ok d v W Hne Hv) as (x' & des & Hx' & Hsz' & -> & _).
  { intros E. pose proof (scan_size_pos d W E). lia. }
  assert (x' = x) as -> by (apply (Z.pow_inj_r 2); lia). cbn [mbind res_bind].
  destruct (next_cursor_ok x v ltac:(lia) Hv) as (Hr & Hnext & _).
  pose proof (next_cursor_fits x v ltac:(lia) Hv).
  rewrite Hrv, Z.div_mul in Hnext by lia.
  destruct n as [|n].
  - assert (i + 1 = 2 ^ x) as Ei by lia. rewrite Ei, <- HB in Hnext. unfold uwrap in Hnext.
    rewrite Z_mod_same_full in Hnext. exists (des ++ []). cbn [replicate scan_run mbind res_bind].
    do 2 f_equal. rewrite <- (rev_rev _ Hr), Hnext. apply rev_0.
  - rewrite uwrap_id in Hnext by (unfold in_u; nia).
    destruct (IH (i + 1) (next_cursor (2 ^ x - 1) v)) as (out & ->); try done; try lia.
    exists (des ++ out). done.
Qed.

Lemma steady_replicate d n sz : sz <= scan_size d -> steady sz (replicate n d).
Proof. revert sz. induction n; intros; cbn; [done|]. split; [done|]. apply IHn. lia. Qed.

(** C29: a scan of a dict that does not change comes back to the cursor 0
    after as many calls as the smaller table has buckets (one, if the
    dict is empty), having returned every key. *)
Theorem scan_terminates d : dict_wf ty d ->
  exists n out, (n = 1%nat \/ Z.of_nat n = scan_size d) /\
    scan_run (replicate n d) 0 = Ret (0, out) /\
    (forall k, k ∈ keys_of (all_entries d) -> k ∈ keys_of out).
Proof.
  intros W. destruct (decide (length (all_entries d) = 0%nat)) as [E|Hne].
  - apply length_zero_iff_nil in E. exists 1%nat, []. split; [auto|]. cbn. unfold dictScan.
    assert ((dictSize d =? 0) = true) as ->.
    { unfold dictSize. destruct (wf_used ty d W) as [-> ->]. unfold all_entries in E.
      apply app_eq_nil in E as [-> ->]. done. }
    split; [done|]. now rewrite E.
  - assert (all_entries d <> []) as Hne' by (intros Hz; now rewrite Hz in Hne).
    destruct (dictScan_ok d 0 W Hne') as (x & _ & Hx & Hsz & _); [unfold in_u; lia| |].
    { intros Er. now apply scan_size_pos. }
    assert (0 < 2 ^ x) by lia.
    destruct (scan_run_counts d x W Hne' Hx Hsz (Z.to_nat (2 ^ x)) 0 0) as (out & E);
      try lia; [unfold in_u; lia|rewrite rev_0; lia|].
    exists (Z.to_nat (2 ^ x)), out. split; [right; lia|]. split; [done|]. intros k Hk.
    destruct (scan_run_covers (replicate (Z.to_nat (2 ^ x)) d) 0 0) as (v' & out' & E' & Hout).
    + apply Forall_replicate. done.
    + unfold in_u. lia.
    + auto.
    + apply steady_replicate. lia.
    + rewrite E in E'. injection E' as <- <-. apply Hout; auto.
      * intros Hz. apply (f_equal length) in Hz. rewrite length_replicate in Hz. cbn in Hz. lia.
      * rewrite rev_0. apply rev_range, hash64.
      * apply Forall_replicate. done.
Qed.
End Scan.

Lemma dictScan_step_witness :
  exists v' des, dictScan sample 0 = Ret (v', des) /\ in_u 64 v' /\
    (forall e, e ∈ all_entries sample ->
      rev 0 <= position (dbDictType Z 5381) e < cursor_end v' -> e ∈ des).
Proof.
  destruct (dictScan_step (dbDictType Z 5381) sample 0 sample_wf) as (v' & des & E & Hv & _ & _ & _ & Hc).
  - unfold in_u. lia.
  - intros _. vm_compute. reflexivity.
  - exists v', des. split; [exact E|]. split; [exact Hv|exact Hc].
Defined.

Lemma scan_complete_witness :
  exists v' out, scan_run [dict_of [([97], 1)]; sample; sample; sample; sample] 0 = Ret (v', out) /\
    (v' = 0 -> forall k, Forall (fun d => k ∈ keys_of (all_entries d))
        [dict_of [([97], 1)]; sample; sample; sample; sample] -> k ∈ keys_of out).
Proof.
  apply (scan_complete (dbDictType Z 5381)).
  - repeat (apply Forall_cons; split; [apply dict_of_wf; cbn; lia|]). apply Forall_nil. exact I.
  - discriminate.
  - cbn [steady]. repeat split; vm_compute; intros; discriminate.
Defined.

Lemma scan_terminates_witness :
  exists n out, (n = 1%nat \/ Z.of_nat n = scan_size sample) /\
    scan_run (replicate n sample) 0 = Ret (0, out) /\
    (forall k, k ∈ keys_of (all_entries sample) -> k ∈ keys_of out).
Proof. apply (scan_terminates (dbDictType Z 5381) sample sample_wf). Defined.

(** ** A key that a scan misses when the table shrinks *)

(** Keys are integers and their own hash. *)
Definition intType : dictType Z Z := mk_type u32 None None None.

#[export] Instance intType_lawful : LawfulType intType.
Proof.
  split; [intros; now apply uwrap_range| |done].
  intros k1 k2. cbn. now rewrite bool_decide_eq_true.
Qed.

Definition ret_or {A} (r : res A) (a : A) : A := match r with Ret x => x | Fault _ => a end.

(** Sixteen keys in a table of sixteen buckets, its rehash completed. *)
Definition wide : dict Z Z :=
  fst (ret_or (dictRehash intType (ret_or (add_all intType true 0 dictCreate
    (map (fun i => (Z.of_nat i, 0)) (seq 0 16))) dictCreate) 100) (dictCreate, 0)).

(** The same dict, all the keys but 5 deleted and dictResize called. *)
Definition narrowed : dict Z Z :=
  fst (ret_or (dictResize true (fold_left (fun d k => fst (ret_or (dictDelete intType d k) (d, 0)))
    [0; 1; 2; 3; 4; 6; 7; 8; 9; 10; 11; 12; 13; 14; 15] wide)) (dictCreate, 0)).

(** the guarantee fails when the table shrinks under the scan: the key 5
      is in the dict at each of the eleven calls of a scan that starts
      and ends at 0, and is not returned.  The expansions of the cursor are
      counted up from the cursor's own high bits, in plain instead of
      reversed order. *)
Theorem scan_misses_when_shrinking :
  let ds := replicate 9 wide ++ replicate 2 narrowed in
  5 ∈ keys_of (all_entries wide) /\ 5 ∈ keys_of (all_entries narrowed) /\
  dictIsRehashing narrowed = true /\
  exists out, scan_run ds 0 = Ret (0, out) /\ 5 ∉ keys_of out.
Proof.
  split; [apply (bool_decide_unpack _); vm_compute; exact I|].
  split; [apply (bool_decide_unpack _); vm_compute; exact I|].
  split; [vm_compute; reflexivity|]. eexists. split; [vm_compute; reflexivity|].
  apply (bool_decide_unpack _). vm_compute. exact I.
Qed.
