(* ===== verification/Adlist.v ===== *)
(** * Adlist: generic doubly linked lists (redis/src/adlist.c, adlist.h)

    Nodes live in a heap, a finite map from addresses to nodes; NULL is
    [None].  Reading or writing through NULL or a freed address is a
    fault.  [zmalloc] returns an address that is not in use and does not
    fail (the allocator of the server aborts instead).  The three methods
    of a list are fields; of the free method only whether it is set
    matters, and the operations that call it return the values it was
    given. *)

From stdpp Require Import gmap fin_maps.
From S2P Require Import Prelude.

Definition addr : Type := positive.

Record listNode (V : Type) : Type := mk_node {
  prev : option addr;
  next : option addr;
  value : V
}.
Arguments mk_node {V} _ _ _.
Arguments prev {V} _.
Arguments next {V} _.
Arguments value {V} _.

Inductive direction : Type := AL_START_HEAD | AL_START_TAIL.

Record listIter : Type := mk_iter { iter_next : option addr; iter_direction : direction }.

Record list_hdr (V : Type) : Type := mk_list {
  head : option addr;
  tail : option addr;
  dup : option (V -> option V);
  free : bool;
  match_ : option (V -> V -> bool);
  len : Z
}.
Arguments mk_list {V} _ _ _ _ _ _.
Arguments head {V} _.
Arguments tail {V} _.
Arguments dup {V} _.
Arguments free {V} _.
Arguments match_ {V} _.
Arguments len {V} _.

Abbreviation heap V := (gmap addr (listNode V)).

Section Code.
Context {V : Type} `{EqDecision V}.
Implicit Types (h : heap V) (l : list_hdr V).

(** *** Memory *)

Definition zmalloc h : addr := fresh (dom h).

Definition load h (p : option addr) : res (listNode V) :=
  match p with
  | None => Fault NullDeref
  | Some a => of_opt OutOfBounds (h !! a)
  end.

(** Assignments to a field through a pointer. *)
Definition set_prev h (p q : option addr) : res (heap V) :=
  match p with
  | None => Fault NullDeref
  | Some a => n ← load h p; Ret (<[a := mk_node q (next n) (value n)]> h)
  end.
Definition set_next h (p q : option addr) : res (heap V) :=
  match p with
  | None => Fault NullDeref
  | Some a => n ← load h p; Ret (<[a := mk_node (prev n) q (value n)]> h)
  end.
Definition set_head l p := mk_list p (tail l) (dup l) (free l) (match_ l) (len l).
Definition set_tail l p := mk_list (head l) p (dup l) (free l) (match_ l) (len l).
Definition set_len l n := mk_list (head l) (tail l) (dup l) (free l) (match_ l) n.

(** *** Operations *)

Definition listCreate : list_hdr V := mk_list None None None false None 0.

Definition listLength l : Z := len l.

Definition listAddNodeHead h l (v : V) : res (heap V * list_hdr V) :=
  let node := zmalloc h in
  if len l =? 0 then
    let h := <[node := mk_node None None v]> h in
    Ret (h, set_len (set_tail (set_head l (Some node)) (Some node)) (u64 (len l + 1)))
  else
    let h := <[node := mk_node None (head l) v]> h in
    h ← set_prev h (head l) (Some node);
    Ret (h, set_len (set_head l (Some node)) (u64 (len l + 1))).

Definition listAddNodeTail h l (v : V) : res (heap V * list_hdr V) :=
  let node := zmalloc h in
  if len l =? 0 then
    let h := <[node := mk_node None None v]> h in
    Ret (h, set_len (set_tail (set_head l (Some node)) (Some node)) (u64 (len l + 1)))
  else
    let h := <[node := mk_node (tail l) None v]> h in
    h ← set_next h (tail l) (Some node);
    Ret (h, set_len (set_tail l (Some node)) (u64 (len l + 1))).

Definition listInsertNode h l (old_node : addr) (v : V) (after : bool)
  : res (heap V * list_hdr V) :=
  let node := zmalloc h in
  old ← load h (Some old_node);
  let '(nprev, nnext, l) :=
    if after then
      (Some old_node, next old,
       if bool_decide (tail l = Some old_node) then set_tail l (Some node) else l)
    else
      (prev old, Some old_node,
       if bool_decide (head l = Some old_node) then set_head l (Some node) else l) in
  let h := <[node := mk_node nprev nnext v]> h in
  h ← (if bool_decide (nprev = None) then Ret h else set_next h nprev (Some node));
  h ← (if bool_decide (nnext = None) then Ret h else set_prev h nnext (Some node));
  Ret (h, set_len l (u64 (len l + 1))).

(** The heap, the list, and the values given to the free method. *)
Definition listDelNode h l (node : addr) : res (heap V * list_hdr V * list V) :=
  n ← load h (Some node);
  '(h, l) ← (if bool_decide (prev n = None) then Ret (h, set_head l (next n))
             else h ← set_next h (prev n) (next n); Ret (h, l));
  n ← load h (Some node);
  '(h, l) ← (if bool_decide (next n = None) then Ret (h, set_tail l (prev n))
             else h ← set_prev h (next n) (prev n); Ret (h, l));
  n ← load h (Some node);
  let freed := if free l then [value n] else [] in
  Ret (delete node h, set_len l (u64 (len l - 1)), freed).

(** while(len--): free the nodes from [current] on. *)
Fixpoint release_loop (n : nat) h (with_free : bool) (current : option addr)
  : res (heap V * list V) :=
  match n with
  | O => Ret (h, [])
  | S n =>
    node ← load h current;
    let freed := if with_free then [value node] else [] in
    let h := match current with Some a => delete a h | None => h end in
    '(h, more) ← release_loop n h with_free (next node);
    Ret (h, freed ++ more)
  end.

Definition listRelease h l : res (heap V * list V) :=
  release_loop (Z.to_nat (len l)) h (free l) (head l).

(** *** Iteration *)

Definition listGetIterator l (dir : direction) : listIter :=
  match dir with
  | AL_START_HEAD => mk_iter (head l) dir
  | AL_START_TAIL => mk_iter (tail l) dir
  end.

Definition listRewind l : listIter := mk_iter (head l) AL_START_HEAD.
Definition listRewindTail l : listIter := mk_iter (tail l) AL_START_TAIL.

Definition listNext h (iter : listIter) : res (listIter * option addr) :=
  match iter_next iter with
  | None => Ret (iter, None)
  | Some a =>
    n ← load h (Some a);
    let nx := match iter_direction iter with
              | AL_START_HEAD => next n
              | AL_START_TAIL => prev n
              end in
    Ret (mk_iter nx (iter_direction iter), Some a)
  end.

(** *** Copy, search, index, rotation *)

(** while((node = listNext(&iter)) != NULL); [None]: the dup method failed
    and the copy was released. *)
Fixpoint dup_loop (fuel : nat) h (copy : list_hdr V) (iter : listIter)
  : res (heap V * option (list_hdr V)) :=
  match fuel with
  | O => Fault OutOfFuel
  | S fuel =>
    '(iter, node) ← listNext h iter;
    match node with
    | None => Ret (h, Some copy)
    | Some a =>
      n ← load h (Some a);
      match (match dup copy with Some f => f (value n) | None => Some (value n) end) with
      | None => '(h, _) ← listRelease h copy; Ret (h, None)
      | Some v => '(h, copy) ← listAddNodeTail h copy v; dup_loop fuel h copy iter
      end
    end
  end.

Definition listDup h (orig : list_hdr V) : res (heap V * option (list_hdr V)) :=
  let copy := mk_list None None (dup orig) (free orig) (match_ orig) 0 in
  dup_loop (S (Z.to_nat (len orig))) h copy (listRewind orig).

Fixpoint search_key_loop (fuel : nat) h l (k : V) (iter : listIter) : res (option addr) :=
  match fuel with
  | O => Fault OutOfFuel
  | S fuel =>
    '(iter, node) ← listNext h iter;
    match node with
    | None => Ret None
    | Some a =>
      n ← load h (Some a);
      if (match match_ l with
          | Some f => f (value n) k
          | None => bool_decide (k = value n)
          end)
      then Ret (Some a) else search_key_loop fuel h l k iter
    end
  end.

Definition listSearchKey h l (k : V) : res (option addr) :=
  search_key_loop (S (Z.to_nat (len l))) h l k (listRewind l).

(** while(index-- && n) *)
Fixpoint index_loop (back : bool) (index : nat) h (n : option addr) : res (option addr) :=
  match index, n with
  | O, _ => Ret n
  | _, None => Ret n
  | S index, Some _ =>
    nd ← load h n;
    index_loop back index h (if back then prev nd else next nd)
  end.

Definition listIndex h l (index : Z) : res (option addr) :=
  if index <? 0 then index_loop true (Z.to_nat (i64 (i64 (- index) - 1))) h (tail l)
  else index_loop false (Z.to_nat index) h (head l).

Definition listRotate h l : res (heap V * list_hdr V) :=
  let t := tail l in
  if listLength l <=? 1 then Ret (h, l)
  else
    tn ← load h t;
    let l := set_tail l (prev tn) in
    h ← set_next h (tail l) None;
    h ← set_prev h (head l) t;
    h ← set_prev h t None;
    h ← set_next h t (head l);
    Ret (h, set_head l t).
End Code.
