(* ===== verification/AdlistProofs.v ===== *)
(** * AdlistProofs: a linked list represents a sequence

    [list_rep h l ns]: the nodes of [l] in the heap [h], from head to
    tail, are at the addresses and with the values of [ns], linked both
    ways.  Every operation of adlist.c is a sequence operation on [ns],
    without faults, and touches no node outside the list. *)

From stdpp Require Import gmap fin_maps.
From S2P Require Import Prelude Adlist.

(** Compute the projections of updated headers. *)
Ltac hdr_simp := cbn [head tail dup free match_ len set_len set_head set_tail].

Section Proofs.
Context {V : Type} `{EqDecision V}.
Implicit Types (h : heap V) (l : list_hdr V) (ns xs ys : list (addr * V)) (a b : addr).

(** ** Linked segments *)

Definition hd_or (q : option addr) ns : option addr :=
  match ns with [] => q | (a, _) :: _ => Some a end.

Definition last_or (p : option addr) ns : option addr :=
  match last ns with None => p | Some (a, _) => Some a end.

(** The nodes of [ns] in order, [p] before the first, [q] after the last. *)
Fixpoint seg h (p : option addr) ns (q : option addr) : Prop :=
  match ns with
  | [] => True
  | (a, v) :: ns => h !! a = Some (mk_node p (hd_or q ns) v) /\ seg h (Some a) ns q
  end.

Lemma last_or_cons p a v ns : last_or p ((a, v) :: ns) = last_or (Some a) ns.
Proof. unfold last_or. rewrite last_cons. now destruct (last ns) as [[]|]. Qed.

Lemma last_or_snoc p xs a v : last_or p (xs ++ [(a, v)]) = Some a.
Proof. unfold last_or. now rewrite last_snoc. Qed.

Lemma hd_or_app q xs ys : hd_or q (xs ++ ys) = hd_or (hd_or q ys) xs.
Proof. now destruct xs as [|[]]. Qed.

Lemma seg_app h q ys : forall p xs,
  seg h p (xs ++ ys) q <-> seg h p xs (hd_or q ys) /\ seg h (last_or p xs) ys q.
Proof.
  intros p xs. revert p. induction xs as [|[a v] xs IH]; intros p; cbn [app seg].
  - cbn. tauto.
  - rewrite hd_or_app, IH, last_or_cons. tauto.
Qed.

(** A segment depends only on its own nodes. *)
Lemma seg_frame h h' ns : forall p q, (forall a, a ∈ ns.*1 -> h' !! a = h !! a) ->
  seg h p ns q -> seg h' p ns q.
Proof.
  induction ns as [|[a v] ns IH]; intros p q Hf; [done|]. cbn [seg]. intros [Ha Hs]. split.
  - rewrite Hf; [done|]. cbn. constructor.
  - apply IH; [|done]. intros b Hb. apply Hf. cbn. now right.
Qed.

Lemma seg_insert_out h a n ns p q : a ∉ ns.*1 -> seg h p ns q -> seg (<[a := n]> h) p ns q.
Proof.
  intros Ha. apply seg_frame. intros b Hb. apply lookup_insert_ne. intros ->. done.
Qed.

Lemma seg_delete_out h a ns p q : a ∉ ns.*1 -> seg h p ns q -> seg (delete a h) p ns q.
Proof.
  intros Ha. apply seg_frame. intros b Hb. apply lookup_delete_ne. intros ->. done.
Qed.

Lemma seg_elem h p ns q a v : seg h p ns q -> (a, v) ∈ ns -> exists x y, h !! a = Some (mk_node x y v).
Proof.
  revert p. induction ns as [|[b w] ns IH]; intros p; [intros _ He; now apply elem_of_nil in He|].
  cbn [seg]. intros [Hb Hs] [Heq|He]%elem_of_cons; [injection Heq as -> ->; eauto|eauto].
Qed.

Lemma seg_dom h p ns q a : seg h p ns q -> a ∈ ns.*1 -> a ∈ dom h.
Proof.
  intros Hs ([b v] & -> & Hin)%list_elem_of_fmap. apply elem_of_dom. cbn.
  destruct (seg_elem _ _ _ _ _ _ Hs Hin) as (x & y & ->). eauto.
Qed.

Lemma zmalloc_fresh h : h !! zmalloc h = None.
Proof. apply not_elem_of_dom. apply is_fresh. Qed.

Lemma zmalloc_out h p ns q : seg h p ns q -> zmalloc h ∉ ns.*1.
Proof.
  intros Hs Hin. apply (seg_dom _ _ _ _ _ Hs) in Hin. apply elem_of_dom in Hin as [? Hx].
  now rewrite zmalloc_fresh in Hx.
Qed.

(** Relinking the ends of a segment. *)
Lemma seg_set_next h p xs a v q q' : (a ∉ xs.*1) -> seg h p (xs ++ [(a, v)]) q ->
  set_next h (Some a) q' = Ret (<[a := mk_node (last_or p xs) q' v]> h) /\
  seg (<[a := mk_node (last_or p xs) q' v]> h) p (xs ++ [(a, v)]) q'.
Proof.
  intros Ha. rewrite !seg_app. cbn [seg hd_or]. intros (Hx & Hl & _).
  unfold set_next, load. rewrite Hl. cbn. split; [done|]. split_and!; auto.
  - now apply seg_insert_out.
  - now rewrite lookup_insert_eq.
Qed.

Lemma seg_set_prev h p ys a v q p' : (a ∉ ys.*1) -> seg h p ((a, v) :: ys) q ->
  set_prev h (Some a) p' = Ret (<[a := mk_node p' (hd_or q ys) v]> h) /\
  seg (<[a := mk_node p' (hd_or q ys) v]> h) p' ((a, v) :: ys) q.
Proof.
  intros Ha. cbn [seg]. intros (Hl & Hs). unfold set_prev, load. rewrite Hl. cbn.
  split; [done|]. split; [now rewrite lookup_insert_eq|]. now apply seg_insert_out.
Qed.

(** ** The representation *)

Record list_rep h l ns : Prop := {
  rep_seg : seg h None ns None;
  rep_nodup : NoDup ns.*1;
  rep_head : head l = hd_or None ns;
  rep_tail : tail l = last_or None ns;
  rep_len : len l = Z.of_nat (length ns);
  rep_bound : Z.of_nat (length ns) < 2 ^ 64
}.

(** The nodes outside a set of addresses are untouched. *)
Definition frame (A : list addr) h h' : Prop := forall b, b ∉ A -> h' !! b = h !! b.

Lemma frame_insert A h h' a n : a ∈ A -> frame A h h' -> frame A h (<[a := n]> h').
Proof. intros Ha Hf b Hb. rewrite lookup_insert_ne; [now apply Hf|]. intros ->. done. Qed.
Lemma frame_delete A h h' a : a ∈ A -> frame A h h' -> frame A h (delete a h').
Proof. intros Ha Hf b Hb. rewrite lookup_delete_ne; [now apply Hf|]. intros ->. done. Qed.
Lemma frame_refl A h : frame A h h.
Proof. now intros b _. Qed.
Hint Resolve frame_insert frame_delete frame_refl : redis.
Hint Extern 1 (_ ∈ _) => set_solver : redis.

(** A list untouched by an operation on another one. *)
Lemma rep_frame A h h' l ns : frame A h h' -> (forall a, a ∈ ns.*1 -> a ∉ A) ->
  list_rep h l ns -> list_rep h' l ns.
Proof.
  intros Hf Hd [Hs Hn Hh Ht Hl Hb]. split; auto. revert Hs. apply seg_frame. intros a Ha.
  now apply Hf, Hd.
Qed.

(** A list is determined up to its nodes by the parts of its header. *)
Lemma list_rep_intro h l ns : seg h None ns None -> NoDup ns.*1 -> head l = hd_or None ns ->
  tail l = last_or None ns -> len l = Z.of_nat (length ns) -> Z.of_nat (length ns) < 2 ^ 64 ->
  list_rep h l ns.
Proof. split; auto. Qed.

Lemma nil_or_snoc ns : ns = [] \/ exists xs a v, ns = xs ++ [(a, v)].
Proof. destruct ns as [|x ns _] using rev_ind; [auto|]. destruct x. right. eauto. Qed.

(** ** Insertion *)

Lemma addHead_ok h l ns v : list_rep h l ns -> Z.of_nat (length ns) + 1 < 2 ^ 64 ->
  exists h' l', listAddNodeHead h l v = Ret (h', l') /\
    list_rep h' l' ((zmalloc h, v) :: ns) /\ frame (zmalloc h :: ns.*1) h h' /\
    dup l' = dup l /\ free l' = free l /\ match_ l' = match_ l.
Proof.
  intros R Hb. destruct R as [Hs Hn Hh Ht Hl Hb']. unfold listAddNodeHead.
  pose proof (zmalloc_out _ _ _ _ Hs) as Hz. set (a := zmalloc h) in *. rewrite Hl.
  rewrite uwrap_id by (unfold in_u; lia). destruct ns as [|[b w] ns].
  - eexists _, _. split; [done|]. split_and!; auto with redis. apply list_rep_intro; try done.
    + cbn. now rewrite lookup_insert_eq.
    + cbn. apply NoDup_singleton.
  - zif; [cbn [length] in *; lia|]. rewrite Hh. cbn [hd_or]. cbn in Hz, Hn.
    apply not_elem_of_cons in Hz as [Hne Hz]. apply NoDup_cons in Hn as [Hb0 Hn].
    destruct (seg_set_prev (<[a := mk_node None (Some b) v]> h) None ns b w None (Some a))
      as [-> Hs']; [done|apply seg_insert_out; [cbn; set_solver|done]|].
    cbn [mbind res_bind]. eexists _, _. split; [done|]. split_and!; auto with redis.
    apply list_rep_intro; hdr_simp; try done.
    + cbn [seg hd_or]. split; [|exact Hs']. rewrite lookup_insert_ne by done. now rewrite lookup_insert_eq.
    + cbn. constructor; [set_solver|]. now constructor.
    + cbn [length]. lia.
    + cbn [length] in *. lia.
Qed.

Lemma addTail_ok h l ns v : list_rep h l ns -> Z.of_nat (length ns) + 1 < 2 ^ 64 ->
  exists h' l', listAddNodeTail h l v = Ret (h', l') /\
    list_rep h' l' (ns ++ [(zmalloc h, v)]) /\ frame (zmalloc h :: ns.*1) h h' /\
    dup l' = dup l /\ free l' = free l /\ match_ l' = match_ l.
Proof.
  intros R Hb. destruct R as [Hs Hn Hh Ht Hl Hb']. unfold listAddNodeTail.
  pose proof (zmalloc_out _ _ _ _ Hs) as Hz. set (a := zmalloc h) in *. rewrite Hl.
  rewrite uwrap_id by (unfold in_u; lia). destruct (nil_or_snoc ns) as [->|(xs & b & w & ->)].
  - eexists _, _. split; [done|]. split_and!; auto with redis. apply list_rep_intro; try done.
    + cbn. now rewrite lookup_insert_eq.
    + cbn. apply NoDup_singleton.
  - zif; [rewrite length_app in *; cbn [length] in *; lia|]. rewrite Ht, last_or_snoc.
    rewrite fmap_app in Hz, Hn |- *. cbn in Hz, Hn. cbn [fmap list_fmap fst].
    assert (a <> b /\ a ∉ xs.*1) as [Hne Hz'] by (split; set_solver).
    assert (b ∉ xs.*1) as Hbx by (apply NoDup_app in Hn as (_ & Hx & _); set_solver).
    destruct (seg_set_next (<[a := mk_node (Some b) None v]> h) None xs b w None (Some a))
      as [-> Hs']; [done|apply seg_insert_out; [rewrite fmap_app; cbn; set_solver|done]|].
    cbn [mbind res_bind]. eexists _, _. split; [done|]. split_and!; auto with redis.
    apply list_rep_intro; hdr_simp; try done.
    + apply seg_app. split; [exact Hs'|]. rewrite last_or_snoc. cbn. split; [|done].
      rewrite lookup_insert_ne by done. now rewrite lookup_insert_eq.
    + rewrite !fmap_app. cbn. apply NoDup_app. split_and!; auto using NoDup_singleton.
      set_solver.
    + rewrite hd_or_app, Hh. rewrite !hd_or_app. now destruct xs as [|[]].
    + now rewrite last_or_snoc.
    + rewrite !length_app in *. cbn. lia.
    + rewrite !length_app in *. cbn in *. lia.
Qed.

(** if (prev) prev->next = q', on a segment that ends at prev. *)
Lemma link_next_ok h xs q q' : NoDup xs.*1 -> seg h None xs q ->
  exists h', (if bool_decide (last_or None xs = None) then Ret h else set_next h (last_or None xs) q') = Ret h' /\
    seg h' None xs q' /\ frame xs.*1 h h'.
Proof.
  intros Hn Hs. destruct (nil_or_snoc xs) as [->|(ys & a & v & ->)].
  - exists h. split_and!; auto with redis.
  - rewrite last_or_snoc. cbn [bool_decide option_eq_dec]. rewrite bool_decide_eq_false_2 by done.
    rewrite fmap_app in Hn. apply NoDup_app in Hn as (_ & Hd & _).
    destruct (seg_set_next h None ys a v q q') as [-> Hs']; [set_solver|done|].
    eexists. split_and!; [done|exact Hs'|]. apply frame_insert; auto with redis.
    rewrite fmap_app. set_solver.
Qed.

(** if (next) next->prev = p', on a segment that starts at next. *)
Lemma link_prev_ok h p ys p' : NoDup ys.*1 -> seg h p ys None ->
  exists h', (if bool_decide (hd_or None ys = None) then Ret h else set_prev h (hd_or None ys) p') = Ret h' /\
    seg h' p' ys None /\ frame ys.*1 h h'.
Proof.
  intros Hn Hs. destruct ys as [|[a v] ys].
  - exists h. split_and!; auto with redis.
  - cbn [hd_or]. rewrite bool_decide_eq_false_2 by done. cbn in Hn. apply NoDup_cons in Hn as [Ha Hn].
    destruct (seg_set_prev h p ys a v None p') as [-> Hs']; [done|done|].
    eexists. split_and!; [done|exact Hs'|]. apply frame_insert; auto with redis.
Qed.

Lemma frame_trans A h1 h2 h3 : frame A h1 h2 -> frame A h2 h3 -> frame A h1 h3.
Proof. intros F1 F2 b Hb. now rewrite F2, F1. Qed.

Lemma frame_mono A A' h h' : (forall a, a ∈ A -> a ∈ A') -> frame A h h' -> frame A' h h'.
Proof. intros Hs F b Hb. apply F. auto. Qed.

(** What a list is made of around a node. *)
Lemma seg_node h xs a v ys : seg h None (xs ++ (a, v) :: ys) None ->
  h !! a = Some (mk_node (last_or None xs) (hd_or None ys) v) /\
  seg h None xs (Some a) /\ seg h (Some a) ys None.
Proof. rewrite seg_app. cbn [seg hd_or]. tauto. Qed.

Lemma nodup_split xs a (v : V) ys : NoDup (xs ++ (a, v) :: ys).*1 ->
  NoDup xs.*1 /\ NoDup ys.*1 /\ (a ∉ xs.*1) /\ (a ∉ ys.*1) /\ (forall b, b ∈ xs.*1 -> b ∉ ys.*1).
Proof.
  rewrite fmap_app. cbn. rewrite NoDup_app, NoDup_cons. intros (? & Hd & ? & ?).
  split_and!; auto; set_solver.
Qed.

(** Linking a node between two segments. *)
Lemma splice_ok h xs ys a v q p : NoDup (xs ++ ys).*1 -> (a ∉ (xs ++ ys).*1) ->
  seg h None xs q -> seg h p ys None ->
  exists h1 h2,
    (if bool_decide (last_or None xs = None) then Ret (<[a := mk_node (last_or None xs) (hd_or None ys) v]> h)
     else set_next (<[a := mk_node (last_or None xs) (hd_or None ys) v]> h) (last_or None xs) (Some a)) = Ret h1 /\
    (if bool_decide (hd_or None ys = None) then Ret h1 else set_prev h1 (hd_or None ys) (Some a)) = Ret h2 /\
    seg h2 None (xs ++ (a, v) :: ys) None /\ frame (a :: (xs ++ ys).*1) h h2.
Proof.
  rewrite fmap_app, NoDup_app, not_elem_of_app. intros (Nx & Hd & Ny) [Hax Hay] Hx Hy.
  set (h0 := <[a := _]> h).
  destruct (link_next_ok h0 xs q (Some a) Nx) as (h1 & E1 & S1 & F1); [now apply seg_insert_out|].
  exists h1. destruct (link_prev_ok h1 p ys (Some a) Ny) as (h2 & E2 & S2 & F2).
  { apply (seg_frame h); [|done]. intros b Hb. rewrite F1 by set_solver.
    apply lookup_insert_ne. intros ->. done. }
  exists h2. split_and!; auto.
  - apply seg_app. cbn [seg hd_or]. split_and!.
    + apply (seg_frame h1); [|done]. intros b Hb. apply F2. set_solver.
    + rewrite F2, F1 by done. apply lookup_insert_eq.
    + exact S2.
  - apply (frame_trans _ _ h0); [apply frame_insert; auto with redis; set_solver|].
    apply (frame_trans _ _ h1); [apply (frame_mono xs.*1)|apply (frame_mono ys.*1)]; set_solver.
Qed.

Lemma insertNode_ok h l xs o w ys v (after : bool) : list_rep h l (xs ++ (o, w) :: ys) ->
  Z.of_nat (length (xs ++ (o, w) :: ys)) + 1 < 2 ^ 64 ->
  exists h' l', listInsertNode h l o v after = Ret (h', l') /\
    list_rep h' l' (if after then xs ++ (o, w) :: (zmalloc h, v) :: ys
                    else xs ++ (zmalloc h, v) :: (o, w) :: ys) /\
    frame (zmalloc h :: (xs ++ (o, w) :: ys).*1) h h'.
Proof.
  intros [Hs Hn Hh Ht Hl Hb'] Hb. unfold listInsertNode. cbn [load].
  pose proof (zmalloc_out _ _ _ _ Hs) as Hz. pose proof (nodup_split _ _ _ _ Hn) as (Nx & Ny & Hox & Hoy & Hd).
  destruct (seg_node _ _ _ _ _ Hs) as (Ho & Sx & Sy). rewrite Ho. cbn [of_opt mbind res_bind prev next].
  set (a := zmalloc h) in *. destruct after.
  - assert (xs ++ (o, w) :: ys = (xs ++ [(o, w)]) ++ ys) as Happ by now rewrite <- app_assoc.
    assert (seg h None (xs ++ [(o, w)]) (hd_or None ys)) as Sx'.
    { apply seg_app. cbn. split_and!; auto. }
    rewrite Happ in Hn, Hz.
    destruct (splice_ok h (xs ++ [(o, w)]) ys a v _ _ Hn Hz Sx' Sy) as (h1 & h2 & E1 & E2 & S2 & F2).
    rewrite last_or_snoc in E1. rewrite E1. cbn [mbind res_bind]. rewrite E2. cbn [mbind res_bind].
    eexists _, _. split; [done|]. split; [|now rewrite Happ].
    rewrite <- app_assoc in S2. rewrite <- Happ in Hn, Hz. apply list_rep_intro; [exact S2|..].
    + rewrite fmap_app in *. cbn in *. rewrite NoDup_app, !NoDup_cons in *. set_solver.
    + destruct (bool_decide (tail l = Some o)); hdr_simp; rewrite Hh; now destruct xs as [|[]].
    + destruct (bool_decide_reflect (tail l = Some o)) as [Et|Et]; hdr_simp.
      * rewrite Ht in Et. destruct (nil_or_snoc ys) as [->|(ys' & b & u & ->)].
        -- change [(o, w); (a, v)] with ([(o, w)] ++ [(a, v)]). now rewrite app_assoc, last_or_snoc.
        -- exfalso. rewrite app_comm_cons, app_assoc, last_or_snoc in Et. injection Et as ->.
           rewrite fmap_app in Hoy. set_solver.
      * rewrite Ht in Et |- *. destruct (nil_or_snoc ys) as [->|(ys' & b & u & ->)].
        -- now rewrite last_or_snoc in Et.
        -- rewrite !app_comm_cons, !app_assoc, !last_or_snoc. done.
    + destruct (bool_decide (tail l = Some o)); hdr_simp; rewrite Hl, uwrap_id by (unfold in_u; lia);
        rewrite !length_app; cbn [length]; lia.
    + rewrite length_app in *. cbn [length] in *. lia.
  - assert (seg h (last_or None xs) ((o, w) :: ys) None) as Sy' by (cbn; auto).
    destruct (splice_ok h xs ((o, w) :: ys) a v _ _ Hn Hz Sx Sy') as (h1 & h2 & E1 & E2 & S2 & F2).
    cbn [hd_or] in E1, E2. rewrite E1. cbn [mbind res_bind]. rewrite E2. cbn [mbind res_bind].
    eexists _, _. split; [done|]. split; [|done]. apply list_rep_intro; [exact S2|..].
    + rewrite fmap_app in *. cbn in *. rewrite NoDup_app, !NoDup_cons in *. set_solver.
    + destruct (bool_decide_reflect (head l = Some o)) as [Et|Et]; hdr_simp; rewrite Hh in *.
      * destruct xs as [|[b u] xs]; [done|]. cbn in Et. injection Et as ->. cbn in Hox. set_solver.
      * now destruct xs as [|[b u] xs].
    + assert (forall x, last_or None (xs ++ x :: (o, w) :: ys) = last_or None (xs ++ (o, w) :: ys)) as Hlast.
      { intros x. unfold last_or. now rewrite !last_app. }
      destruct (bool_decide (head l = Some o)); hdr_simp; now rewrite Ht, Hlast.
    + destruct (bool_decide (head l = Some o)); hdr_simp; rewrite Hl, uwrap_id by (unfold in_u; lia);
        rewrite !length_app; cbn [length]; lia.
    + rewrite length_app in *. cbn [length] in *. lia.
Qed.

(** ** Deletion and rotation *)

Lemma delNode_ok h l xs a v ys : list_rep h l (xs ++ (a, v) :: ys) ->
  exists h' l', listDelNode h l a = Ret (h', l', if free l then [v] else []) /\
    list_rep h' l' (xs ++ ys) /\ h' !! a = None /\ frame (xs ++ (a, v) :: ys).*1 h h' /\
    free l' = free l.
Proof.
  intros [Hs Hn Hh Ht Hl Hb]. pose proof (nodup_split _ _ _ _ Hn) as (Nx & Ny & Hax & Hay & Hd).
  destruct (seg_node _ _ _ _ _ Hs) as (Ha & Sx & Sy). unfold listDelNode.
  destruct (link_next_ok h xs (Some a) (hd_or None ys) Nx Sx) as (h1 & E1 & S1 & F1).
  assert (seg h1 (Some a) ys None) as Sy1.
  { apply (seg_frame h); [|done]. intros b Hb'. apply F1. set_solver. }
  destruct (link_prev_ok h1 (Some a) ys (last_or None xs) Ny Sy1) as (h2 & E2 & S2 & F2).
  assert (h1 !! a = h !! a) as Ha1 by now apply F1.
  assert (h2 !! a = h !! a) as Ha2 by (rewrite F2 by done; done).
  cbn [load]. rewrite Ha. cbn [of_opt mbind res_bind prev next].
  assert (exists l1, (if bool_decide (last_or None xs = None) then Ret (h, set_head l (hd_or None ys))
      else h0 ← set_next h (last_or None xs) (hd_or None ys); Ret (h0, l)) = Ret (h1, l1) /\
    head l1 = hd_or None (xs ++ ys) /\ tail l1 = tail l /\ len l1 = len l /\ free l1 = free l)
    as (l1 & -> & Hh1 & Ht1 & Hl1 & Hf1).
  { destruct (bool_decide (last_or None xs = None)) eqn:E.
    - injection E1 as <-. eexists. split; [done|]. hdr_simp. split_and!; auto.
      apply bool_decide_eq_true in E. destruct (nil_or_snoc xs) as [->|(? & ? & ? & ->)]; [done|].
      now rewrite last_or_snoc in E.
    - rewrite E1. cbn [mbind res_bind]. exists l. split_and!; auto. rewrite Hh.
      now destruct xs as [|[]]. }
  cbn [mbind res_bind]. rewrite Ha1, Ha. cbn [of_opt mbind res_bind prev next].
  assert (exists l2, (if bool_decide (hd_or None ys = None) then Ret (h1, set_tail l1 (last_or None xs))
      else h0 ← set_prev h1 (hd_or None ys) (last_or None xs); Ret (h0, l1)) = Ret (h2, l2) /\
    head l2 = hd_or None (xs ++ ys) /\ tail l2 = last_or None (xs ++ ys) /\ len l2 = len l /\ free l2 = free l)
    as (l2 & -> & Hh2 & Ht2 & Hl2 & Hf2).
  { destruct (bool_decide (hd_or None ys = None)) eqn:E.
    - injection E2 as <-. eexists. split; [done|]. hdr_simp. split_and!; auto.
      apply bool_decide_eq_true in E. destruct ys as [|[]]; [now rewrite app_nil_r|done].
    - rewrite E2. cbn [mbind res_bind]. exists l1. split_and!; auto. rewrite Ht1, Ht.
      destruct ys as [|y ys]; [now rewrite bool_decide_eq_true_2 in E|].
      unfold last_or. rewrite !last_app. cbn [last]. destruct (last (y :: ys)) eqn:El; [done|].
      now apply last_None in El. }
  cbn [mbind res_bind]. rewrite Ha2, Ha. cbn [of_opt mbind res_bind value]. rewrite Hf2.
  eexists _, _. split; [done|]. split; [|split; [apply lookup_delete_eq|split; [|done]]].
  - rewrite length_app in Hl, Hb. cbn [length] in Hl, Hb. apply list_rep_intro; hdr_simp; auto.
    + apply seg_delete_out; [rewrite fmap_app; set_solver|]. apply seg_app. split; [|exact S2].
      apply (seg_frame h1); [|exact S1]. intros b Hb'. apply F2. set_solver.
    + rewrite fmap_app. apply NoDup_app. auto.
    + rewrite Hl2, Hl, uwrap_id by (unfold in_u; lia). rewrite length_app. lia.
    + rewrite length_app. lia.
  - rewrite fmap_app. cbn. apply frame_delete; [set_solver|].
    apply (frame_trans _ _ h1); [apply (frame_mono xs.*1)|apply (frame_mono ys.*1)]; set_solver.
Qed.

Lemma rotate_ok h l ns : list_rep h l ns ->
  exists h' l', listRotate h l = Ret (h', l') /\
    list_rep h' l' (match last ns with Some x => x :: removelast ns | None => [] end) /\
    frame ns.*1 h h'.
Proof.
  intros R. pose proof R as [Hs Hn Hh Ht Hl Hb]. unfold listRotate, listLength. zif.
  { exists h, l. split; [done|]. destruct ns as [|x [|y ns]]; [done|done|cbn in *; lia]. }
  destruct (nil_or_snoc ns) as [->|(xs & t & v & ->)]; [cbn in *; lia|].
  rewrite last_snoc, removelast_last, Ht, last_or_snoc. cbn [load].
  apply seg_app in Hs as [Sx St]. cbn [seg hd_or] in St. destruct St as [Htn _].
  cbn [hd_or] in Sx. rewrite Htn. cbn [of_opt mbind res_bind prev]. hdr_simp.
  rewrite fmap_app in Hn. cbn in Hn. apply NoDup_app in Hn as (Nx & Hd & _).
  assert (t ∉ xs.*1) as Htx by set_solver.
  destruct (nil_or_snoc xs) as [->|(ys & b & u & Exs)]; [cbn in *; lia|].
  destruct (link_next_ok h xs (Some t) None Nx Sx) as (h1 & E1 & S1 & F1).
  destruct (link_prev_ok h1 None xs (Some t) Nx S1) as (h2 & E2 & S2 & F2).
  assert (last_or None xs = Some b) as Hlast by (now rewrite Exs, last_or_snoc).
  assert (exists c, hd_or None xs = Some c) as (c & Hc) by (rewrite Exs; destruct ys as [|[]]; cbn; eauto).
  assert (hd_or None (xs ++ [(t, v)]) = Some c) as Hc' by (rewrite hd_or_app; destruct xs as [|[]]; done).
  rewrite Hlast in E1, Htn |- *. rewrite bool_decide_eq_false_2 in E1 by done.
  rewrite Hc in E2. rewrite bool_decide_eq_false_2 in E2 by done.
  rewrite E1. cbn [mbind res_bind]. rewrite Hh, Hc', E2. cbn [mbind res_bind].
  assert (h2 !! t = Some (mk_node (Some b) None v)) as H2 by (rewrite F2, F1; auto).
  unfold set_prev at 1. cbn [load]. rewrite H2. cbn [of_opt mbind res_bind next value].
  unfold set_next. cbn [load]. rewrite lookup_insert_eq. cbn [of_opt mbind res_bind prev value].
  rewrite insert_insert_eq. eexists _, _. split; [done|]. split.
  - apply list_rep_intro; hdr_simp.
    + cbn [seg]. rewrite Hc. split; [apply lookup_insert_eq|]. now apply seg_insert_out.
    + cbn. now apply NoDup_cons.
    + done.
    + rewrite last_or_cons, Exs, last_or_snoc. done.
    + rewrite Hl, length_app. cbn [length]. lia.
    + rewrite length_app in Hb. cbn [length] in *. lia.
  - rewrite fmap_app. cbn. apply frame_insert; [set_solver|].
    apply (frame_trans _ _ h1); (apply (frame_mono xs.*1); [intros; apply elem_of_app; now left|done]).
Qed.

(** ** Index and search *)

Lemma index_forward h ns : forall i p, seg h p ns None ->
  index_loop false i h (hd_or None ns) = Ret (fst <$> ns !! i).
Proof.
  induction ns as [|[a v] ns IH]; intros i p Hs; [now destruct i|].
  cbn [seg] in Hs. destruct Hs as [Ha Hs]. destruct i as [|i]; [done|]. cbn [index_loop hd_or load].
  rewrite Ha. cbn [of_opt mbind res_bind next]. eauto.
Qed.

Lemma index_backward h ns : forall i q, seg h None ns q ->
  index_loop true i h (last_or None ns) = Ret (fst <$> reverse ns !! i).
Proof.
  induction ns as [|[a v] ns IH] using rev_ind; intros i q Hs; [now destruct i|].
  apply seg_app in Hs as [Hs Ha]. cbn [seg] in Ha. destruct Ha as [Ha _].
  rewrite last_or_snoc, reverse_snoc. destruct i as [|i]; [done|]. cbn [index_loop load].
  rewrite Ha. cbn [of_opt mbind res_bind prev]. eauto.
Qed.

Definition matches l (k : V) (x : addr * V) : bool :=
  match match_ l with Some f => f x.2 k | None => bool_decide (k = x.2) end.

Lemma search_key_ok h l k ns : forall fuel p, seg h p ns None -> (length ns < fuel)%nat ->
  search_key_loop fuel h l k (mk_iter (hd_or None ns) AL_START_HEAD) =
  Ret (fst <$> (snd <$> list_find (fun x => matches l k x = true) ns)).
Proof.
  induction ns as [|[a v] ns IH]; intros [|fuel] p Hs Hf; cbn [length] in Hf; try lia; [done|].
  cbn [seg] in Hs. destruct Hs as [Ha Hs]. cbn [search_key_loop hd_or]. unfold listNext.
  cbn [iter_next iter_direction load]. rewrite Ha. cbn [of_opt mbind res_bind next load].
  rewrite Ha. cbn [of_opt mbind res_bind value].
  change (match match_ l with Some f => f v k | None => bool_decide (k = v) end) with (matches l k (a, v)).
  cbn [list_find]. destruct (matches l k (a, v)) eqn:E.
  - now rewrite decide_True by done.
  - rewrite decide_False by congruence. rewrite (IH fuel (Some a) Hs ltac:(lia)).
    destruct (list_find _ ns) as [[]|]; done.
Qed.

(** ** Iteration *)

(** The loop of the clients: visit every node, deleting those whose value
    [p] selects; the addresses visited. *)
Fixpoint sweep (fuel : nat) h l (p : V -> bool) (iter : listIter)
  : res (heap V * list_hdr V * list addr) :=
  match fuel with
  | O => Fault OutOfFuel
  | S fuel =>
    '(iter, node) ← listNext h iter;
    match node with
    | None => Ret (h, l, [])
    | Some a =>
      n ← load h (Some a);
      '(h, l) ← (if p (value n) then '(h, l, _) ← listDelNode h l a; Ret (h, l) else Ret (h, l));
      '(h, l, visited) ← sweep fuel h l p iter;
      Ret (h, l, a :: visited)
    end
  end.

Definition keep (p : V -> bool) ns : list (addr * V) :=
  List.filter (fun x => negb (p x.2)) ns.

Lemma sweep_ok p ys : forall fuel h l xs, list_rep h l (xs ++ ys) -> (length ys < fuel)%nat ->
  exists h' l', sweep fuel h l p (mk_iter (hd_or None ys) AL_START_HEAD) = Ret (h', l', ys.*1) /\
    list_rep h' l' (xs ++ keep p ys) /\ frame (xs ++ ys).*1 h h'.
Proof.
  induction ys as [|[a v] ys IH]; intros [|fuel] h l xs R Hf; cbn [length] in Hf; try lia.
  { exists h, l. split_and!; auto with redis. }
  pose proof (seg_node _ _ _ _ _ (rep_seg _ _ _ R)) as (Ha & _ & _).
  cbn [sweep hd_or]. unfold listNext. cbn [iter_next iter_direction load]. rewrite Ha.
  cbn [of_opt mbind res_bind next load]. rewrite Ha. cbn [of_opt mbind res_bind value keep List.filter snd].
  destruct (p v); cbn [negb].
  - destruct (delNode_ok h l xs a v ys R) as (h1 & l1 & -> & R1 & _ & F1 & _). cbn [mbind res_bind].
    destruct (IH fuel h1 l1 xs R1 ltac:(lia)) as (h' & l' & -> & R' & F'). cbn [mbind res_bind].
    exists h', l'. split_and!; auto. apply (frame_trans _ _ h1); [done|].
    revert F'. apply frame_mono. intros b. rewrite !fmap_app, !elem_of_app, fmap_cons, elem_of_cons. tauto.
  - cbn [mbind res_bind]. rewrite (app_assoc xs [(a, v)] ys : xs ++ (a, v) :: ys = _) in R.
    destruct (IH fuel h l _ R ltac:(lia)) as (h' & l' & -> & R' & F'). cbn [mbind res_bind].
    exists h', l'. rewrite <- app_assoc in R', F'. split_and!; auto.
Qed.

(** ** Release and copy *)

Lemma release_loop_ok wf ns : forall h p, seg h p ns None -> NoDup ns.*1 ->
  exists h', release_loop (length ns) h wf (hd_or None ns) = Ret (h', if wf then ns.*2 else []) /\
    (forall a, a ∈ ns.*1 -> h' !! a = None) /\ frame ns.*1 h h'.
Proof.
  induction ns as [|[a v] ns IH]; intros h p Hs Hn.
  { exists h. cbn. split; [now destruct wf|]. split; [intros ? Ha; now apply elem_of_nil in Ha|auto with redis]. }
  cbn [seg] in Hs. destruct Hs as [Ha Hs]. cbn in Hn. apply NoDup_cons in Hn as [Hna Hn].
  cbn [length release_loop hd_or load]. rewrite Ha. cbn [of_opt mbind res_bind next value].
  destruct (IH (delete a h) (Some a)) as (h' & -> & Hgone & F); [now apply seg_delete_out|done|].
  cbn [mbind res_bind]. exists h'. split_and!.
  - now destruct wf.
  - intros b. cbn. rewrite elem_of_cons. intros [->|Hb]; [|auto].
    rewrite F by done. apply lookup_delete_eq.
  - cbn. intros b Hb. apply not_elem_of_cons in Hb as [Hne Hb]. rewrite F by done.
    now apply lookup_delete_ne.
Qed.

Lemma release_ok h l ns : list_rep h l ns ->
  exists h', listRelease h l = Ret (h', if free l then ns.*2 else []) /\
    (forall a, a ∈ ns.*1 -> h' !! a = None) /\ frame ns.*1 h h'.
Proof.
  intros [Hs Hn Hh Ht Hl Hb]. unfold listRelease. rewrite Hl, Hh, Nat2Z.id.
  eapply release_loop_ok; eauto.
Qed.

Definition dup_value l (v : V) : option V :=
  match dup l with Some f => f v | None => Some v end.

Lemma dup_loop_ok d ys : forall fuel h h0 (copy : list_hdr V) p cs,
  seg h p ys None -> list_rep h copy cs -> dup copy = d ->
  (forall a, a ∈ cs.*1 -> a ∉ ys.*1) ->
  (forall a, a ∈ cs.*1 -> h0 !! a = None) -> (forall a, a ∉ cs.*1 -> h !! a = h0 !! a) ->
  Z.of_nat (length cs) + Z.of_nat (length ys) < 2 ^ 64 -> (length ys < fuel)%nat ->
  exists h' r, dup_loop fuel h copy (mk_iter (hd_or None ys) AL_START_HEAD) = Ret (h', r) /\
    match mapM (fun x => match d with Some f => f x.2 | None => Some x.2 end) ys with
    | None => r = None /\ h' = h0
    | Some vs => exists c ds, r = Some c /\ list_rep h' c ds /\ ds.*2 = cs.*2 ++ vs /\
        (forall a, a ∈ ds.*1 -> h0 !! a = None) /\ (forall a, a ∉ ds.*1 -> h' !! a = h0 !! a)
    end.
Proof.
  induction ys as [|[a v] ys IH]; intros [|fuel] h h0 copy p cs Hs R Hd Hdj Hnew Hold Hb Hf;
    cbn [length] in *; try lia.
  { exists h, (Some copy). split; [done|]. cbn. exists copy, cs. rewrite app_nil_r. split_and!; auto. }
  cbn [seg] in Hs. destruct Hs as [Ha Hs]. cbn [dup_loop hd_or]. unfold listNext.
  cbn [iter_next iter_direction load]. rewrite Ha. cbn [of_opt mbind res_bind next load].
  rewrite Ha. cbn [of_opt mbind res_bind value mapM]. rewrite Hd. cbn [snd].
  destruct (match d with Some f => f v | None => Some v end) as [w|]; cbn [mbind option_bind].
  - destruct (addTail_ok h copy cs w R ltac:(lia)) as (h1 & c1 & -> & R1 & F1 & Hd1 & _).
    cbn [mbind res_bind]. set (z := zmalloc h) in *.
    assert ((z ∉ ys.*1) /\ z <> a) as [Hz Hza].
    { assert (h !! z = None) as Hz by apply zmalloc_fresh. split.
      - exact (zmalloc_out _ _ _ _ Hs).
      - intros ->. congruence. }
    assert (z ∉ cs.*1) as Hzc by (intros Hin; exact (zmalloc_out _ _ _ _ (rep_seg _ _ _ R) Hin)).
    destruct (IH fuel h1 h0 c1 (Some a) (cs ++ [(z, w)])) as (h' & r & -> & Hr); auto.
    + apply (seg_frame h); [|done]. intros b Hb'. apply F1. intros [->|Hc]%elem_of_cons; [done|].
      apply (Hdj b Hc). cbn. now right.
    + congruence.
    + intros b. rewrite fmap_app, elem_of_app. intros [Hc|Hc].
      * specialize (Hdj b Hc). cbn in Hdj. now apply not_elem_of_cons in Hdj as [_ ?].
      * apply list_elem_of_singleton in Hc as ->. done.
    + intros b. rewrite fmap_app, elem_of_app. intros [Hc|Hc]; [auto|].
      apply list_elem_of_singleton in Hc as ->. cbn. rewrite <- Hold by done. apply zmalloc_fresh.
    + intros b. rewrite fmap_app, not_elem_of_app. intros [Hc Hz']. cbn in Hz'.
      rewrite F1; [now apply Hold|]. rewrite not_elem_of_cons. split; [|done].
      intros ->. apply Hz'. constructor.
    + rewrite length_app. cbn [length]. lia.
    + lia.
    + exists h', r. split; [done|].
      destruct (mapM _ ys) as [vs|]; cbn [mbind option_bind]; [|done].
      destruct Hr as (c & ds & -> & Rc & Hds & ? & ?). exists c, ds. split_and!; auto.
      rewrite Hds, fmap_app, <- app_assoc. done.
  - destruct (release_ok h copy cs R) as (h' & -> & Hgone & F). cbn [mbind res_bind].
    exists h', None. split_and!; auto. apply map_eq. intros b.
    destruct (decide (b ∈ cs.*1)) as [Hin|Hin]; [now rewrite Hgone, Hnew|].
    rewrite F by done. now apply Hold.
Qed.

(** ** The theorems *)

(** Insertion at the head, at the tail and next to a node of a list puts a
    new node with the value at that place of the sequence; no node outside
    the list changes. *)
Theorem list_insertions h l xs o w ys v after :
  list_rep h l (xs ++ (o, w) :: ys) -> Z.of_nat (length (xs ++ (o, w) :: ys)) + 1 < 2 ^ 64 ->
  (exists h' l', listAddNodeHead h l v = Ret (h', l') /\
    list_rep h' l' ((zmalloc h, v) :: xs ++ (o, w) :: ys) /\
    frame (zmalloc h :: (xs ++ (o, w) :: ys).*1) h h') /\
  (exists h' l', listAddNodeTail h l v = Ret (h', l') /\
    list_rep h' l' (xs ++ (o, w) :: ys ++ [(zmalloc h, v)]) /\
    frame (zmalloc h :: (xs ++ (o, w) :: ys).*1) h h') /\
  (exists h' l', listInsertNode h l o v after = Ret (h', l') /\
    list_rep h' l' (if after then xs ++ (o, w) :: (zmalloc h, v) :: ys
                    else xs ++ (zmalloc h, v) :: (o, w) :: ys) /\
    frame (zmalloc h :: (xs ++ (o, w) :: ys).*1) h h').
Proof.
  intros R Hb. split_and!.
  - destruct (addHead_ok h l _ v R Hb) as (h' & l' & ? & ? & ? & _). eauto.
  - destruct (addTail_ok h l _ v R Hb) as (h' & l' & ? & R' & ? & _).
    rewrite <- app_assoc, <- app_comm_cons in R'. eauto.
  - now apply insertNode_ok.
Qed.

(** Deletion unlinks and frees the node, whatever its place, and calls the
    free method on its value; rotation moves the last node to the front. *)
Theorem list_delete_rotate h l xs a v ys : list_rep h l (xs ++ (a, v) :: ys) ->
  (exists h' l', listDelNode h l a = Ret (h', l', if free l then [v] else []) /\
    list_rep h' l' (xs ++ ys) /\ h' !! a = None /\ frame (xs ++ (a, v) :: ys).*1 h h') /\
  (ys = [] -> exists h' l', listRotate h l = Ret (h', l') /\
    list_rep h' l' ((a, v) :: xs) /\ frame (xs ++ (a, v) :: ys).*1 h h').
Proof.
  intros R. split.
  - destruct (delNode_ok h l xs a v ys R) as (h' & l' & ? & ? & ? & ? & _). eauto 6.
  - intros ->. destruct (rotate_ok h l _ R) as (h' & l' & ? & R' & ?).
    rewrite last_snoc, removelast_last in R'. eauto.
Qed.

(** listIndex returns the node at a position counted from the head, or from
    the tail when negative, and NULL out of range; listSearchKey returns
    the first node that matches. *)
Theorem list_queries h l ns index k : list_rep h l ns -> in_s 64 index ->
  listIndex h l index =
    Ret (fst <$> (if index <? 0 then reverse ns !! Z.to_nat (- index - 1) else ns !! Z.to_nat index)) /\
  listSearchKey h l k = Ret (fst <$> (snd <$> list_find (fun x => matches l k x = true) ns)) /\
  listLength l = Z.of_nat (length ns).
Proof.
  intros [Hs Hn Hh Ht Hl Hb] Hi. unfold in_s in Hi. split_and!; [| |done].
  - unfold listIndex. zif.
    + assert (i64 (i64 (- index) - 1) = - index - 1) as ->.
      { destruct (Z.eq_dec index (- 2 ^ 63)) as [->|]; [reflexivity|].
        rewrite (swrap_id 64 (- index)) by (unfold in_s; lia). apply swrap_id; unfold in_s; lia. }
      rewrite Ht. eapply index_backward; eauto.
    + rewrite Hh. eapply index_forward; eauto.
  - unfold listSearchKey, listRewind. rewrite Hh. eapply search_key_ok; eauto. lia.
Qed.

(** A loop over listNext may delete the node it was just given: it visits
    each node once, in order, and leaves the nodes it did not delete. *)
Theorem list_iteration_delete h l ns p : list_rep h l ns ->
  exists h' l', sweep (S (length ns)) h l p (listRewind l) = Ret (h', l', ns.*1) /\
    list_rep h' l' (keep p ns) /\ frame ns.*1 h h'.
Proof.
  intros R. unfold listRewind. rewrite (rep_head _ _ _ R).
  apply (sweep_ok p ns (S (length ns)) h l []); [exact R|lia].
Qed.

(** listDup makes a list of the duplicated values from new nodes, the
    original untouched; when the dup method fails on a value, everything
    allocated has been released.  listRelease frees exactly the nodes of
    the list, giving each value to the free method. *)
Theorem list_dup_release h l ns : list_rep h l ns ->
  (exists h' r, listDup h l = Ret (h', r) /\
    match mapM (fun x => dup_value l x.2) ns with
    | None => r = None /\ h' = h
    | Some vs => exists c ds, r = Some c /\ list_rep h' c ds /\ ds.*2 = vs /\ list_rep h' l ns /\
        (forall a, a ∈ ds.*1 -> h !! a = None) /\ frame ds.*1 h h'
    end) /\
  (exists h', listRelease h l = Ret (h', if free l then ns.*2 else []) /\
    (forall a, a ∈ ns.*1 -> h' !! a = None) /\ frame ns.*1 h h').
Proof.
  intros R. split; [|now apply release_ok]. pose proof R as [Hs Hn Hh Ht Hl Hb].
  unfold listDup, listRewind. rewrite Hh, Hl, Nat2Z.id.
  destruct (dup_loop_ok (dup l) ns (S (length ns)) h h
    (mk_list None None (dup l) (free l) (match_ l) 0) None []) as (h' & r & E & Hr);
    auto; try (intros a Ha; now apply elem_of_nil in Ha).
  { apply list_rep_intro; cbn; try done. constructor. }
  exists h', r. split; [exact E|]. unfold dup_value. destruct (mapM _ ns) as [vs|]; [|done].
  destruct Hr as (c & ds & -> & Rc & Hds & Hnew & Hold). exists c, ds. split_and!; auto.
  apply (rep_frame ds.*1 h); [exact Hold| |exact R]. intros a Ha Hin.
  apply (seg_dom _ _ _ _ _ Hs), elem_of_dom in Ha as [? Hx]. now rewrite Hnew in Hx.
Qed.
End Proofs.

(** ** A concrete list *)

Definition demo : res (heap Z * list_hdr Z) :=
  '(h, l) ← listAddNodeTail ∅ listCreate 10;
  '(h, l) ← listAddNodeTail h l 20;
  listAddNodeTail h l 30.

Definition demo_heap : heap Z := match demo with Ret (h, _) => h | Fault _ => ∅ end.
Definition demo_list : list_hdr Z := match demo with Ret (_, l) => l | Fault _ => listCreate end.
Definition demo_nodes : list (addr * Z) := [(1%positive, 10); (2%positive, 20); (3%positive, 30)].

Lemma demo_rep : list_rep demo_heap demo_list demo_nodes.
Proof.
  apply list_rep_intro; try (vm_compute; reflexivity).
  - vm_compute. auto.
  - apply (bool_decide_unpack _). vm_compute. exact I.
Qed.

Lemma list_insertions_witness :
  exists h' l', listInsertNode demo_heap demo_list 2%positive 25 true = Ret (h', l') /\
    list_rep h' l' [(1%positive, 10); (2%positive, 20); (zmalloc demo_heap, 25); (3%positive, 30)].
Proof.
  destruct (list_insertions demo_heap demo_list [(1%positive, 10)] 2%positive 20 [(3%positive, 30)] 25 true
    demo_rep) as (_ & _ & h' & l' & E & R & _).
  - cbn. lia.
  - exists h', l'. split; [exact E|exact R].
Defined.

Lemma list_delete_rotate_witness :
  exists h' l', listRotate demo_heap demo_list = Ret (h', l') /\
    list_rep h' l' [(3%positive, 30); (1%positive, 10); (2%positive, 20)].
Proof.
  destruct (list_delete_rotate demo_heap demo_list [(1%positive, 10); (2%positive, 20)] 3%positive 30 []
    demo_rep) as (_ & H).
  destruct (H eq_refl) as (h' & l' & E & R & _). exists h', l'. split; [exact E|exact R].
Defined.

Lemma list_queries_witness :
  listIndex demo_heap demo_list (-1) = Ret (Some 3%positive) /\
  listSearchKey demo_heap demo_list 20 = Ret (Some 2%positive).
Proof.
  destruct (list_queries demo_heap demo_list demo_nodes (-1) 20 demo_rep) as (-> & -> & _).
  - unfold in_s. lia.
  - split; vm_compute; reflexivity.
Defined.

Lemma list_iteration_delete_witness :
  exists h' l', sweep 4 demo_heap demo_list (fun v => v =? 20) (listRewind demo_list)
      = Ret (h', l', [1; 2; 3]%positive) /\
    list_rep h' l' [(1%positive, 10); (3%positive, 30)].
Proof.
  destruct (list_iteration_delete demo_heap demo_list demo_nodes (fun v => v =? 20) demo_rep)
    as (h' & l' & E & R & _).
  exists h', l'. split; [exact E|exact R].
Defined.

Lemma list_dup_release_witness :
  exists h', listRelease demo_heap demo_list = Ret (h', []) /\
    (forall a, a ∈ demo_nodes.*1 -> h' !! a = None).
Proof.
  destruct (list_dup_release demo_heap demo_list demo_nodes demo_rep) as (_ & h' & E & H & _).
  exists h'. split; [exact E|exact H].
Defined.
