(* ===== verification/Crc.v ===== *)
(** * Crc: CRC16, CRC64 and the hash slot of a key
    (redis/src/crc16.c, crc64.c, cluster.c)

    The table driven routines are the bit by bit division by the
    polynomials their comments name, can be fed a message in pieces, and
    detect every change of a single byte; the slot of a key depends on its
    hash tag alone. *)

From S2P Require Import Prelude.

(** ** CRC16 *)

Definition crc16tab : list Z := [
  0x0000; 0x1021; 0x2042; 0x3063; 0x4084; 0x50a5; 0x60c6; 0x70e7;
  0x8108; 0x9129; 0xa14a; 0xb16b; 0xc18c; 0xd1ad; 0xe1ce; 0xf1ef;
  0x1231; 0x0210; 0x3273; 0x2252; 0x52b5; 0x4294; 0x72f7; 0x62d6;
  0x9339; 0x8318; 0xb37b; 0xa35a; 0xd3bd; 0xc39c; 0xf3ff; 0xe3de;
  0x2462; 0x3443; 0x0420; 0x1401; 0x64e6; 0x74c7; 0x44a4; 0x5485;
  0xa56a; 0xb54b; 0x8528; 0x9509; 0xe5ee; 0xf5cf; 0xc5ac; 0xd58d;
  0x3653; 0x2672; 0x1611; 0x0630; 0x76d7; 0x66f6; 0x5695; 0x46b4;
  0xb75b; 0xa77a; 0x9719; 0x8738; 0xf7df; 0xe7fe; 0xd79d; 0xc7bc;
  0x48c4; 0x58e5; 0x6886; 0x78a7; 0x0840; 0x1861; 0x2802; 0x3823;
  0xc9cc; 0xd9ed; 0xe98e; 0xf9af; 0x8948; 0x9969; 0xa90a; 0xb92b;
  0x5af5; 0x4ad4; 0x7ab7; 0x6a96; 0x1a71; 0x0a50; 0x3a33; 0x2a12;
  0xdbfd; 0xcbdc; 0xfbbf; 0xeb9e; 0x9b79; 0x8b58; 0xbb3b; 0xab1a;
  0x6ca6; 0x7c87; 0x4ce4; 0x5cc5; 0x2c22; 0x3c03; 0x0c60; 0x1c41;
  0xedae; 0xfd8f; 0xcdec; 0xddcd; 0xad2a; 0xbd0b; 0x8d68; 0x9d49;
  0x7e97; 0x6eb6; 0x5ed5; 0x4ef4; 0x3e13; 0x2e32; 0x1e51; 0x0e70;
  0xff9f; 0xefbe; 0xdfdd; 0xcffc; 0xbf1b; 0xaf3a; 0x9f59; 0x8f78;
  0x9188; 0x81a9; 0xb1ca; 0xa1eb; 0xd10c; 0xc12d; 0xf14e; 0xe16f;
  0x1080; 0x00a1; 0x30c2; 0x20e3; 0x5004; 0x4025; 0x7046; 0x6067;
  0x83b9; 0x9398; 0xa3fb; 0xb3da; 0xc33d; 0xd31c; 0xe37f; 0xf35e;
  0x02b1; 0x1290; 0x22f3; 0x32d2; 0x4235; 0x5214; 0x6277; 0x7256;
  0xb5ea; 0xa5cb; 0x95a8; 0x8589; 0xf56e; 0xe54f; 0xd52c; 0xc50d;
  0x34e2; 0x24c3; 0x14a0; 0x0481; 0x7466; 0x6447; 0x5424; 0x4405;
  0xa7db; 0xb7fa; 0x8799; 0x97b8; 0xe75f; 0xf77e; 0xc71d; 0xd73c;
  0x26d3; 0x36f2; 0x0691; 0x16b0; 0x6657; 0x7676; 0x4615; 0x5634;
  0xd94c; 0xc96d; 0xf90e; 0xe92f; 0x99c8; 0x89e9; 0xb98a; 0xa9ab;
  0x5844; 0x4865; 0x7806; 0x6827; 0x18c0; 0x08e1; 0x3882; 0x28a3;
  0xcb7d; 0xdb5c; 0xeb3f; 0xfb1e; 0x8bf9; 0x9bd8; 0xabbb; 0xbb9a;
  0x4a75; 0x5a54; 0x6a37; 0x7a16; 0x0af1; 0x1ad0; 0x2ab3; 0x3a92;
  0xfd2e; 0xed0f; 0xdd6c; 0xcd4d; 0xbdaa; 0xad8b; 0x9de8; 0x8dc9;
  0x7c26; 0x6c07; 0x5c64; 0x4c45; 0x3ca2; 0x2c83; 0x1ce0; 0x0cc1;
  0xef1f; 0xff3e; 0xcf5d; 0xdf7c; 0xaf9b; 0xbfba; 0x8fd9; 0x9ff8;
  0x6e17; 0x7e36; 0x4e55; 0x5e74; 0x2e93; 0x3eb2; 0x0ed1; 0x1ef0
].

(** [*buf] is a char, so its value is sign extended before it is masked. *)
Definition crc16_update (crc b : Z) : res Z :=
  t ← of_opt OutOfBounds (crc16tab !! Z.to_nat (Z.land (Z.lxor (Z.shiftr crc 8) (i8 b)) 0x00FF));
  Ret (u16 (Z.lxor (Z.shiftl crc 8) t)).

Fixpoint crc16_loop (crc : Z) (buf : list Z) : res Z :=
  match buf with
  | [] => Ret crc
  | b :: buf => crc ← crc16_update crc b; crc16_loop crc buf
  end.

Definition crc16 (buf : list Z) : res Z := crc16_loop 0 buf.

(** ** CRC64 *)

Definition crc64_tab : list Z := [
  0x0000000000000000; 0x7ad870c830358979; 0xf5b0e190606b12f2; 0x8f689158505e9b8b;
  0xc038e5739841b68f; 0xbae095bba8743ff6; 0x358804e3f82aa47d; 0x4f50742bc81f2d04;
  0xab28ecb46814fe75; 0xd1f09c7c5821770c; 0x5e980d24087fec87; 0x24407dec384a65fe;
  0x6b1009c7f05548fa; 0x11c8790fc060c183; 0x9ea0e857903e5a08; 0xe478989fa00bd371;
  0x7d08ff3b88be6f81; 0x07d08ff3b88be6f8; 0x88b81eabe8d57d73; 0xf2606e63d8e0f40a;
  0xbd301a4810ffd90e; 0xc7e86a8020ca5077; 0x4880fbd87094cbfc; 0x32588b1040a14285;
  0xd620138fe0aa91f4; 0xacf86347d09f188d; 0x2390f21f80c18306; 0x594882d7b0f40a7f;
  0x1618f6fc78eb277b; 0x6cc0863448deae02; 0xe3a8176c18803589; 0x997067a428b5bcf0;
  0xfa11fe77117cdf02; 0x80c98ebf2149567b; 0x0fa11fe77117cdf0; 0x75796f2f41224489;
  0x3a291b04893d698d; 0x40f16bccb908e0f4; 0xcf99fa94e9567b7f; 0xb5418a5cd963f206;
  0x513912c379682177; 0x2be1620b495da80e; 0xa489f35319033385; 0xde51839b2936bafc;
  0x9101f7b0e12997f8; 0xebd98778d11c1e81; 0x64b116208142850a; 0x1e6966e8b1770c73;
  0x8719014c99c2b083; 0xfdc17184a9f739fa; 0x72a9e0dcf9a9a271; 0x08719014c99c2b08;
  0x4721e43f0183060c; 0x3df994f731b68f75; 0xb29105af61e814fe; 0xc849756751dd9d87;
  0x2c31edf8f1d64ef6; 0x56e99d30c1e3c78f; 0xd9810c6891bd5c04; 0xa3597ca0a188d57d;
  0xec09088b6997f879; 0x96d1784359a27100; 0x19b9e91b09fcea8b; 0x636199d339c963f2;
  0xdf7adabd7a6e2d6f; 0xa5a2aa754a5ba416; 0x2aca3b2d1a053f9d; 0x50124be52a30b6e4;
  0x1f423fcee22f9be0; 0x659a4f06d21a1299; 0xeaf2de5e82448912; 0x902aae96b271006b;
  0x74523609127ad31a; 0x0e8a46c1224f5a63; 0x81e2d7997211c1e8; 0xfb3aa75142244891;
  0xb46ad37a8a3b6595; 0xceb2a3b2ba0eecec; 0x41da32eaea507767; 0x3b024222da65fe1e;
  0xa2722586f2d042ee; 0xd8aa554ec2e5cb97; 0x57c2c41692bb501c; 0x2d1ab4dea28ed965;
  0x624ac0f56a91f461; 0x1892b03d5aa47d18; 0x97fa21650afae693; 0xed2251ad3acf6fea;
  0x095ac9329ac4bc9b; 0x7382b9faaaf135e2; 0xfcea28a2faafae69; 0x8632586aca9a2710;
  0xc9622c4102850a14; 0xb3ba5c8932b0836d; 0x3cd2cdd162ee18e6; 0x460abd1952db919f;
  0x256b24ca6b12f26d; 0x5fb354025b277b14; 0xd0dbc55a0b79e09f; 0xaa03b5923b4c69e6;
  0xe553c1b9f35344e2; 0x9f8bb171c366cd9b; 0x10e3202993385610; 0x6a3b50e1a30ddf69;
  0x8e43c87e03060c18; 0xf49bb8b633338561; 0x7bf329ee636d1eea; 0x012b592653589793;
  0x4e7b2d0d9b47ba97; 0x34a35dc5ab7233ee; 0xbbcbcc9dfb2ca865; 0xc113bc55cb19211c;
  0x5863dbf1e3ac9dec; 0x22bbab39d3991495; 0xadd33a6183c78f1e; 0xd70b4aa9b3f20667;
  0x985b3e827bed2b63; 0xe2834e4a4bd8a21a; 0x6debdf121b863991; 0x1733afda2bb3b0e8;
  0xf34b37458bb86399; 0x8993478dbb8deae0; 0x06fbd6d5ebd3716b; 0x7c23a61ddbe6f812;
  0x3373d23613f9d516; 0x49aba2fe23cc5c6f; 0xc6c333a67392c7e4; 0xbc1b436e43a74e9d;
  0x95ac9329ac4bc9b5; 0xef74e3e19c7e40cc; 0x601c72b9cc20db47; 0x1ac40271fc15523e;
  0x5594765a340a7f3a; 0x2f4c0692043ff643; 0xa02497ca54616dc8; 0xdafce7026454e4b1;
  0x3e847f9dc45f37c0; 0x445c0f55f46abeb9; 0xcb349e0da4342532; 0xb1eceec59401ac4b;
  0xfebc9aee5c1e814f; 0x8464ea266c2b0836; 0x0b0c7b7e3c7593bd; 0x71d40bb60c401ac4;
  0xe8a46c1224f5a634; 0x927c1cda14c02f4d; 0x1d148d82449eb4c6; 0x67ccfd4a74ab3dbf;
  0x289c8961bcb410bb; 0x5244f9a98c8199c2; 0xdd2c68f1dcdf0249; 0xa7f41839ecea8b30;
  0x438c80a64ce15841; 0x3954f06e7cd4d138; 0xb63c61362c8a4ab3; 0xcce411fe1cbfc3ca;
  0x83b465d5d4a0eece; 0xf96c151de49567b7; 0x76048445b4cbfc3c; 0x0cdcf48d84fe7545;
  0x6fbd6d5ebd3716b7; 0x15651d968d029fce; 0x9a0d8ccedd5c0445; 0xe0d5fc06ed698d3c;
  0xaf85882d2576a038; 0xd55df8e515432941; 0x5a3569bd451db2ca; 0x20ed197575283bb3;
  0xc49581ead523e8c2; 0xbe4df122e51661bb; 0x3125607ab548fa30; 0x4bfd10b2857d7349;
  0x04ad64994d625e4d; 0x7e7514517d57d734; 0xf11d85092d094cbf; 0x8bc5f5c11d3cc5c6;
  0x12b5926535897936; 0x686de2ad05bcf04f; 0xe70573f555e26bc4; 0x9ddd033d65d7e2bd;
  0xd28d7716adc8cfb9; 0xa85507de9dfd46c0; 0x273d9686cda3dd4b; 0x5de5e64efd965432;
  0xb99d7ed15d9d8743; 0xc3450e196da80e3a; 0x4c2d9f413df695b1; 0x36f5ef890dc31cc8;
  0x79a59ba2c5dc31cc; 0x037deb6af5e9b8b5; 0x8c157a32a5b7233e; 0xf6cd0afa9582aa47;
  0x4ad64994d625e4da; 0x300e395ce6106da3; 0xbf66a804b64ef628; 0xc5bed8cc867b7f51;
  0x8aeeace74e645255; 0xf036dc2f7e51db2c; 0x7f5e4d772e0f40a7; 0x05863dbf1e3ac9de;
  0xe1fea520be311aaf; 0x9b26d5e88e0493d6; 0x144e44b0de5a085d; 0x6e963478ee6f8124;
  0x21c640532670ac20; 0x5b1e309b16452559; 0xd476a1c3461bbed2; 0xaeaed10b762e37ab;
  0x37deb6af5e9b8b5b; 0x4d06c6676eae0222; 0xc26e573f3ef099a9; 0xb8b627f70ec510d0;
  0xf7e653dcc6da3dd4; 0x8d3e2314f6efb4ad; 0x0256b24ca6b12f26; 0x788ec2849684a65f;
  0x9cf65a1b368f752e; 0xe62e2ad306bafc57; 0x6946bb8b56e467dc; 0x139ecb4366d1eea5;
  0x5ccebf68aecec3a1; 0x2616cfa09efb4ad8; 0xa97e5ef8cea5d153; 0xd3a62e30fe90582a;
  0xb0c7b7e3c7593bd8; 0xca1fc72bf76cb2a1; 0x45775673a732292a; 0x3faf26bb9707a053;
  0x70ff52905f188d57; 0x0a2722586f2d042e; 0x854fb3003f739fa5; 0xff97c3c80f4616dc;
  0x1bef5b57af4dc5ad; 0x61372b9f9f784cd4; 0xee5fbac7cf26d75f; 0x9487ca0fff135e26;
  0xdbd7be24370c7322; 0xa10fceec0739fa5b; 0x2e675fb4576761d0; 0x54bf2f7c6752e8a9;
  0xcdcf48d84fe75459; 0xb71738107fd2dd20; 0x387fa9482f8c46ab; 0x42a7d9801fb9cfd2;
  0x0df7adabd7a6e2d6; 0x772fdd63e7936baf; 0xf8474c3bb7cdf024; 0x829f3cf387f8795d;
  0x66e7a46c27f3aa2c; 0x1c3fd4a417c62355; 0x935745fc4798b8de; 0xe98f353477ad31a7;
  0xa6df411fbfb21ca3; 0xdc0731d78f8795da; 0x536fa08fdfd90e51; 0x29b7d047efec8728
].

Fixpoint crc64 (crc : Z) (s : list Z) : res Z :=
  match s with
  | [] => Ret crc
  | byte :: s =>
    t ← of_opt OutOfBounds (crc64_tab !! Z.to_nat (Z.lxor (u8 crc) byte));
    crc64 (Z.lxor t (Z.shiftr crc 8)) s
  end.

(** ** Hash slots *)

(** for (; i < keylen; i++) if (key[i] == c) break; *)
Fixpoint scan_for (c : Z) (key : list Z) (i : nat) : nat :=
  match key with
  | [] => i
  | b :: key => if b =? c then i else scan_for c key (S i)
  end.

Definition keyHashSlot (key : list Z) : res Z :=
  let keylen := length key in
  let s := scan_for 123 key 0 in
  if Nat.eqb s keylen then crc ← crc16 key; Ret (Z.land crc 0x3FFF)
  else
    let e := scan_for 125 (drop (s + 1) key) (s + 1) in
    if Nat.eqb e keylen || Nat.eqb e (s + 1) then crc ← crc16 key; Ret (Z.land crc 0x3FFF)
    else crc ← crc16 (take (e - s - 1) (drop (s + 1) key)); Ret (Z.land crc 0x3FFF).

(** ** Reference: division of polynomials over GF(2), a bit at a time *)

(** CRC-16/XMODEM: x^16 + x^12 + x^5 + 1, most significant bit first. *)
Definition crc16_bit (c : Z) : Z :=
  Z.lxor (u16 (Z.shiftl c 1)) (if Z.testbit c 15 then 0x1021 else 0).
Definition crc16_byte (c b : Z) : Z := Nat.iter 8 crc16_bit (Z.lxor c (Z.shiftl b 8)).

(** CRC-64-Jones: the polynomial 0xad93d23594c935a9 reflected, least
    significant bit first. *)
Definition reflect (w : nat) (v : Z) : Z :=
  fold_left (fun a i => 2 * a + Z.b2z (Z.testbit v (Z.of_nat i))) (seq 0 w) 0.
Definition crc64_poly : Z := 0x95ac9329ac4bc9b5.
Lemma crc64_poly_reflected : crc64_poly = reflect 64 0xad93d23594c935a9.
Proof. vm_compute. reflexivity. Qed.

Definition crc64_bit (c : Z) : Z :=
  Z.lxor (Z.shiftr c 1) (if Z.testbit c 0 then crc64_poly else 0).
Definition crc64_byte (c b : Z) : Z := Nat.iter 8 crc64_bit (Z.lxor c b).

(** ** Lemmas *)

Definition bytes256 : list Z := map Z.of_nat (seq 0 256).

Lemma bytes256_in b : byte_ok b -> In b bytes256.
Proof.
  intros H. unfold byte_ok in H. apply in_map_iff. exists (Z.to_nat b). split; [lia|].
  apply in_seq. lia.
Qed.

(** A fact about bytes, checked for each of them. *)
Lemma byte_cases (P : Z -> bool) b : forallb P bytes256 = true -> byte_ok b -> P b = true.
Proof. rewrite forallb_forall. intros H Hb. apply H, bytes256_in, Hb. Qed.

Lemma uwrap_lxor w a b : 0 <= w -> uwrap w (Z.lxor a b) = Z.lxor (uwrap w a) (uwrap w b).
Proof.
  intros Hw. unfold uwrap. apply Z.bits_inj'. intros i Hi. destruct (Z.lt_ge_cases i w).
  - rewrite Z.mod_pow2_bits_low, !Z.lxor_spec, !Z.mod_pow2_bits_low by lia. done.
  - rewrite Z.mod_pow2_bits_high, Z.lxor_spec, !Z.mod_pow2_bits_high by lia. done.
Qed.

Lemma lxor_byte a b : byte_ok a -> byte_ok b -> byte_ok (Z.lxor a b).
Proof.
  intros Ha Hb. change (in_u 8 (Z.lxor a b)). apply in_u_lxor; [lia|exact Ha|exact Hb].
Qed.

Lemma lxor_cancel a b c : Z.lxor a b = Z.lxor a c -> b = c.
Proof.
  intros H. apply (f_equal (Z.lxor a)) in H. rewrite <- !Z.lxor_assoc, Z.lxor_nilpotent in H.
  now rewrite !Z.lxor_0_l in H.
Qed.

Section Linear.
Context (bit : Z -> Z) (bit_lxor : forall a b, bit (Z.lxor a b) = Z.lxor (bit a) (bit b)).

Lemma iter_lxor n : forall a b, Nat.iter n bit (Z.lxor a b) = Z.lxor (Nat.iter n bit a) (Nat.iter n bit b).
Proof. induction n as [|n IH]; intros a b; [done|]. now rewrite !Nat.iter_succ, IH, bit_lxor. Qed.
End Linear.

Lemma crc16_bit_lxor a b : crc16_bit (Z.lxor a b) = Z.lxor (crc16_bit a) (crc16_bit b).
Proof.
  unfold crc16_bit. rewrite Z.shiftl_lxor, uwrap_lxor, Z.lxor_spec by lia.
  destruct (Z.testbit a 15), (Z.testbit b 15); cbn [xorb]; rewrite ?Z.lxor_0_r;
    rewrite <- ?Z.lxor_assoc; try done.
  - rewrite (Z.lxor_assoc _ _ (u16 (Z.shiftl b 1))), (Z.lxor_comm 4129), <- Z.lxor_assoc.
    now rewrite (Z.lxor_assoc _ 4129 4129), Z.lxor_nilpotent, Z.lxor_0_r.
  - now rewrite (Z.lxor_assoc _ _ (u16 (Z.shiftl b 1))), (Z.lxor_comm 4129), <- Z.lxor_assoc.
Qed.

Lemma crc64_bit_lxor a b : crc64_bit (Z.lxor a b) = Z.lxor (crc64_bit a) (crc64_bit b).
Proof.
  unfold crc64_bit. rewrite Z.shiftr_lxor, Z.lxor_spec. generalize crc64_poly. intros P.
  destruct (Z.testbit a 0), (Z.testbit b 0); cbn [xorb]; rewrite ?Z.lxor_0_r;
    rewrite <- ?Z.lxor_assoc; try done.
  - rewrite (Z.lxor_assoc _ _ (Z.shiftr b 1)), (Z.lxor_comm P), <- Z.lxor_assoc.
    now rewrite (Z.lxor_assoc _ P P), Z.lxor_nilpotent, Z.lxor_0_r.
  - now rewrite (Z.lxor_assoc _ _ (Z.shiftr b 1)), (Z.lxor_comm P), <- Z.lxor_assoc.
Qed.

(** The tables hold the eight steps of each byte. *)
Lemma crc16tab_spec b : byte_ok b ->
  crc16tab !! Z.to_nat b = Some (Nat.iter 8 crc16_bit (Z.shiftl b 8)).
Proof.
  intros Hb. pose (P := fun b => bool_decide (crc16tab !! Z.to_nat b = Some (Nat.iter 8 crc16_bit (Z.shiftl b 8)))).
  apply (bool_decide_eq_true _). apply (byte_cases P); [vm_compute; reflexivity|done].
Qed.

Lemma crc64_tab_spec b : byte_ok b -> crc64_tab !! Z.to_nat b = Some (Nat.iter 8 crc64_bit b).
Proof.
  intros Hb. pose (P := fun b => bool_decide (crc64_tab !! Z.to_nat b = Some (Nat.iter 8 crc64_bit b))).
  apply (bool_decide_eq_true _). apply (byte_cases P); [vm_compute; reflexivity|done].
Qed.

(** The two halves of a state. *)
Lemma split_byte c : c = Z.lxor (Z.shiftl (Z.shiftr c 8) 8) (u8 c).
Proof.
  rewrite <- Z.add_nocarry_lxor.
  - rewrite Z.shiftl_mul_pow2, Z.shiftr_div_pow2 by lia. unfold uwrap.
    pose proof (Z.div_mod c (2 ^ 8)). lia.
  - apply Z.bits_inj'. intros i Hi. rewrite Z.land_spec, Z.bits_0, Z.shiftl_spec by done.
    unfold uwrap. destruct (Z.lt_ge_cases i 8).
    + rewrite Z.testbit_neg_r by lia. done.
    + rewrite (Z.mod_pow2_bits_high c 8) by lia. apply andb_false_r.
Qed.

Lemma crc64_shift y : Nat.iter 8 crc64_bit (Z.shiftl y 8) = y.
Proof.
  assert (forall n, Nat.iter n crc64_bit (Z.shiftl y (Z.of_nat n)) = y) as H; [|apply (H 8%nat)].
  induction n as [|n IH]; [apply Z.shiftl_0_r|]. rewrite Nat.iter_succ_r. rewrite <- IH at 2. f_equal.
  unfold crc64_bit. rewrite Z.shiftl_spec_low by lia.
  rewrite Z.lxor_0_r, Z.shiftr_shiftl_l by lia. f_equal. lia.
Qed.

Lemma crc64_step c b : byte_ok b ->
  crc64_tab !! Z.to_nat (Z.lxor (u8 c) b) = Some (Nat.iter 8 crc64_bit (Z.lxor (u8 c) b)) /\
  crc64_byte c b = Z.lxor (Nat.iter 8 crc64_bit (Z.lxor (u8 c) b)) (Z.shiftr c 8).
Proof.
  intros Hb. assert (byte_ok (u8 c)) as Hc by (apply (uwrap_range 8); lia). split.
  - apply crc64_tab_spec. now apply lxor_byte.
  - unfold crc64_byte. rewrite (split_byte c) at 1. rewrite Z.lxor_assoc.
    rewrite (iter_lxor _ crc64_bit_lxor), crc64_shift. apply Z.lxor_comm.
Qed.

Lemma crc16_low lo : byte_ok lo -> Nat.iter 8 crc16_bit lo = Z.shiftl lo 8.
Proof.
  intros Hb. pose (P := fun b => Nat.iter 8 crc16_bit b =? Z.shiftl b 8).
  apply Z.eqb_eq. apply (byte_cases P); [vm_compute; reflexivity|done].
Qed.

Lemma crc16_index c b : in_u 16 c -> byte_ok b ->
  Z.land (Z.lxor (Z.shiftr c 8) (i8 b)) 0x00FF = Z.lxor (Z.shiftr c 8) b /\ byte_ok (Z.shiftr c 8).
Proof.
  intros Hc Hb. assert (byte_ok (Z.shiftr c 8)) as Hh.
  { unfold byte_ok, in_u in *. rewrite Z.shiftr_div_pow2 by lia.
    split; [apply Z.div_pos; lia|apply Z.div_lt_upper_bound; lia]. }
  split; [|done]. change 0x00FF with (2 ^ 8 - 1). rewrite land_mask by lia.
  change (u8 (Z.lxor (Z.shiftr c 8) (i8 b)) = Z.lxor (Z.shiftr c 8) b).
  rewrite uwrap_lxor, uwrap_swrap, !(uwrap_id 8) by (lia || assumption). done.
Qed.

Lemma crc16_step c b : in_u 16 c -> byte_ok b ->
  crc16_update c b = Ret (crc16_byte c b) /\ in_u 16 (crc16_byte c b) /\
  crc16_byte c b = Z.lxor (Z.shiftl (u8 c) 8) (Nat.iter 8 crc16_bit (Z.shiftl (Z.lxor (Z.shiftr c 8) b) 8)).
Proof.
  intros Hc Hb. destruct (crc16_index c b Hc Hb) as [Hi Hh].
  assert (byte_ok (u8 c)) as Hlo by (apply (uwrap_range 8); lia).
  pose proof (lxor_byte _ _ Hh Hb) as Hx.
  assert (crc16_byte c b = Z.lxor (Z.shiftl (u8 c) 8)
    (Nat.iter 8 crc16_bit (Z.shiftl (Z.lxor (Z.shiftr c 8) b) 8))) as E.
  { unfold crc16_byte. rewrite (split_byte c) at 1.
    rewrite (Z.lxor_comm _ (u8 c)), Z.lxor_assoc, <- Z.shiftl_lxor.
    now rewrite (iter_lxor _ crc16_bit_lxor), crc16_low. }
  assert (in_u 16 (Z.shiftl (u8 c) 8)) as Hs.
  { unfold in_u, byte_ok in *. rewrite Z.shiftl_mul_pow2 by lia. lia. }
  assert (in_u 16 (Nat.iter 8 crc16_bit (Z.shiftl (Z.lxor (Z.shiftr c 8) b) 8))) as Ht.
  { rewrite Nat.iter_succ. unfold crc16_bit at 1. apply in_u_lxor; [lia|apply uwrap_range; lia|].
    destruct (Z.testbit _ 15); unfold in_u; lia. }
  split_and!; [|rewrite E; apply in_u_lxor; [lia|exact Hs|exact Ht]|exact E].
  unfold crc16_update. rewrite Hi, crc16tab_spec by done. cbn [of_opt mbind res_bind].
  rewrite E. set (t := Nat.iter 8 crc16_bit _) in *. clearbody t. clear E Hi Hx.
  rewrite uwrap_lxor by lia. rewrite (uwrap_id 16 t) by done. do 2 f_equal.
  rewrite (split_byte c) at 1. rewrite Z.shiftl_lxor, uwrap_lxor, Z.shiftl_shiftl by lia.
  rewrite (uwrap_id 16 (Z.shiftl (u8 c) 8)) by done.
  assert (u16 (Z.shiftl (Z.shiftr c 8) (8 + 8)) = 0) as ->; [|apply Z.lxor_0_l].
  unfold uwrap. rewrite Z.shiftl_mul_pow2 by lia. apply Z_mod_mult.
Qed.

Lemma crc16_loop_cons c c' b buf : crc16_update c b = Ret c' -> crc16_loop c (b :: buf) = crc16_loop c' buf.
Proof. intros E. cbn [crc16_loop]. rewrite E. reflexivity. Qed.

Lemma crc64_cons c t b buf : crc64_tab !! Z.to_nat (Z.lxor (u8 c) b) = Some t ->
  crc64 c (b :: buf) = crc64 (Z.lxor t (Z.shiftr c 8)) buf.
Proof. intros E. cbn [crc64]. rewrite E. reflexivity. Qed.

Lemma fold_cons (f : Z -> Z -> Z) c b buf : fold_left f (b :: buf) c = fold_left f buf (f c b).
Proof. reflexivity. Qed.

Lemma crc16_loop_ref buf : forall c, in_u 16 c -> bytes_ok buf ->
  crc16_loop c buf = Ret (fold_left crc16_byte buf c) /\ in_u 16 (fold_left crc16_byte buf c).
Proof.
  induction buf as [|b buf IH]; intros c Hc Hb; [done|]. apply Forall_cons in Hb as [Hb Hbs].
  destruct (crc16_step c b Hc Hb) as (E & Hr & _). rewrite (crc16_loop_cons _ _ _ _ E), fold_cons.
  apply IH; assumption.
Qed.

Lemma crc64_ref buf : forall c, bytes_ok buf -> crc64 c buf = Ret (fold_left crc64_byte buf c).
Proof.
  induction buf as [|b buf IH]; intros c Hb; [done|]. apply Forall_cons in Hb as [Hb Hbs].
  destruct (crc64_step c b Hb) as [Et E]. rewrite (crc64_cons _ _ _ _ Et), fold_cons, <- E.
  apply IH; assumption.
Qed.

(** ** One wrong byte is detected *)

Section Detect.
Context (ok : Z -> Prop) (step : Z -> Z -> Z).
Context (step_ok : forall c b, ok c -> byte_ok b -> ok (step c b)).
Context (step_state : forall c c' b, ok c -> ok c' -> byte_ok b -> step c b = step c' b -> c = c').
Context (step_byte : forall c a b, ok c -> byte_ok a -> byte_ok b -> step c a = step c b -> a = b).

Lemma fold_ok buf : forall c, ok c -> bytes_ok buf -> ok (fold_left step buf c).
Proof.
  induction buf as [|b buf IH]; intros c Hc Hb; [done|]. apply Forall_cons in Hb as [? ?]. cbn. auto.
Qed.

Lemma fold_inj buf : forall c c', ok c -> ok c' -> bytes_ok buf ->
  fold_left step buf c = fold_left step buf c' -> c = c'.
Proof.
  induction buf as [|b buf IH]; intros c c' Hc Hc' Hb E; [done|]. apply Forall_cons in Hb as [? ?].
  cbn in E. apply (step_state c c' b); auto.
Qed.

Lemma fold_detects c p a b s : ok c -> bytes_ok p -> byte_ok a -> byte_ok b -> bytes_ok s -> a <> b ->
  fold_left step (p ++ a :: s) c <> fold_left step (p ++ b :: s) c.
Proof.
  intros Hc Hp Ha Hb Hs Hne E. rewrite !fold_left_app in E. cbn in E. apply Hne.
  pose proof (fold_ok p c Hc Hp). apply (step_byte (fold_left step p c)); auto.
  apply (fold_inj s); auto.
Qed.
End Detect.

(** An entry of the tables is determined by one of its bytes. *)
Lemma nodup_map_inj (f : Z -> Z) (l : list Z) x y :
  NoDup (map f l) -> In x l -> In y l -> f x = f y -> x = y.
Proof.
  induction l as [|z l IH]; [done|]. cbn [map]. rewrite NoDup_cons. intros [Hn Hd] Hx Hy E.
  destruct Hx as [->|Hx], Hy as [->|Hy]; auto; destruct Hn; apply list_elem_of_In.
  - rewrite E. now apply in_map.
  - rewrite <- E. now apply in_map.
Qed.

Lemma crc16_entry_inj x y : byte_ok x -> byte_ok y ->
  u8 (Nat.iter 8 crc16_bit (Z.shiftl x 8)) = u8 (Nat.iter 8 crc16_bit (Z.shiftl y 8)) -> x = y.
Proof.
  intros Hx Hy. apply (nodup_map_inj (fun x => u8 (Nat.iter 8 crc16_bit (Z.shiftl x 8))) bytes256);
    [|now apply bytes256_in..].
  apply (bool_decide_unpack _). vm_compute. exact I.
Qed.

Lemma crc64_entry_inj x y : byte_ok x -> byte_ok y ->
  Z.shiftr (Nat.iter 8 crc64_bit x) 56 = Z.shiftr (Nat.iter 8 crc64_bit y) 56 -> x = y.
Proof.
  intros Hx Hy. apply (nodup_map_inj (fun x => Z.shiftr (Nat.iter 8 crc64_bit x) 56) bytes256);
    [|now apply bytes256_in..].
  apply (bool_decide_unpack _). vm_compute. exact I.
Qed.

Lemma crc16_byte_ok c b : in_u 16 c -> byte_ok b -> in_u 16 (crc16_byte c b).
Proof. intros Hc Hb. apply (crc16_step c b Hc Hb). Qed.

(** A state is its two halves. *)
Lemma halves_inj c c' : u8 c = u8 c' -> Z.shiftr c 8 = Z.shiftr c' 8 -> c = c'.
Proof. intros E1 E2. rewrite (split_byte c), (split_byte c'). now rewrite E1, E2. Qed.

Lemma u8_lxor_shift y t : u8 (Z.lxor (Z.shiftl y 8) t) = u8 t.
Proof.
  rewrite uwrap_lxor by lia. replace (u8 (Z.shiftl y 8)) with 0; [apply Z.lxor_0_l|].
  unfold uwrap. rewrite Z.shiftl_mul_pow2 by lia. now rewrite Z_mod_mult.
Qed.

Lemma crc16_parts c b : in_u 16 c -> byte_ok b ->
  exists x, byte_ok x /\ x = Z.lxor (Z.shiftr c 8) b /\
    crc16_byte c b = Z.lxor (Z.shiftl (u8 c) 8) (Nat.iter 8 crc16_bit (Z.shiftl x 8)).
Proof.
  intros Hc Hb. destruct (crc16_index c b Hc Hb) as [_ Hh].
  destruct (crc16_step c b Hc Hb) as (_ & _ & E).
  exists (Z.lxor (Z.shiftr c 8) b). split; [now apply lxor_byte|]. split; [reflexivity|exact E].
Qed.

(** Equal steps have equal table entries and equal remaining halves. *)
Lemma crc16_step_inj c c' b b' : in_u 16 c -> in_u 16 c' -> byte_ok b -> byte_ok b' ->
  crc16_byte c b = crc16_byte c' b' ->
  Z.lxor (Z.shiftr c 8) b = Z.lxor (Z.shiftr c' 8) b' /\ u8 c = u8 c'.
Proof.
  intros Hc Hc' Hb Hb' E. destruct (crc16_parts c b Hc Hb) as (x & Hx & <- & Ex).
  destruct (crc16_parts c' b' Hc' Hb') as (y & Hy & <- & Ey). rewrite Ex, Ey in E.
  assert (x = y) as ->.
  { apply crc16_entry_inj; auto. apply (f_equal (fun z => u8 z)) in E. now rewrite !u8_lxor_shift in E. }
  split; [reflexivity|]. rewrite !(Z.lxor_comm (Z.shiftl _ 8)) in E. apply lxor_cancel in E.
  rewrite !Z.shiftl_mul_pow2 in E by lia. lia.
Qed.

Lemma crc64_bit_range c : in_u 64 c -> in_u 64 (crc64_bit c).
Proof.
  intros Hc. apply in_u_lxor; [lia|apply in_u_shiftr; [lia|exact Hc]|].
  destruct (Z.testbit c 0); unfold in_u, crc64_poly; lia.
Qed.

Lemma crc64_byte_ok c b : in_u 64 c -> byte_ok b -> in_u 64 (crc64_byte c b).
Proof.
  intros Hc Hb. assert (in_u 64 (Z.lxor c b)) as Hx
    by (apply in_u_lxor; [lia|exact Hc|unfold in_u, byte_ok in *; lia]).
  change (in_u 64 (Nat.iter 8 crc64_bit (Z.lxor c b))). revert Hx. generalize (Z.lxor c b) 8%nat.
  intros z n Hz. induction n as [|n IH]; [exact Hz|]. rewrite Nat.iter_succ. now apply crc64_bit_range.
Qed.

Lemma crc64_step_inj c c' b b' : in_u 64 c -> in_u 64 c' -> byte_ok b -> byte_ok b' ->
  crc64_byte c b = crc64_byte c' b' ->
  Z.lxor (u8 c) b = Z.lxor (u8 c') b' /\ Z.shiftr c 8 = Z.shiftr c' 8.
Proof.
  intros Hc Hc' Hb Hb' E.
  destruct (crc64_step c b Hb) as [_ Ex]. destruct (crc64_step c' b' Hb') as [_ Ey].
  rewrite Ex, Ey in E. clear Ex Ey.
  assert (forall z, in_u 64 z -> Z.shiftr (Z.shiftr z 8) 56 = 0) as Hz.
  { intros z Hz. unfold in_u in Hz. rewrite Z.shiftr_shiftr, Z.shiftr_div_pow2 by lia. apply Z.div_small. exact Hz. }
  assert (Z.lxor (u8 c) b = Z.lxor (u8 c') b') as Hx.
  { apply crc64_entry_inj.
    - apply lxor_byte; [apply (uwrap_range 8); lia|exact Hb].
    - apply lxor_byte; [apply (uwrap_range 8); lia|exact Hb'].
    - apply (f_equal (fun z => Z.shiftr z 56)) in E. rewrite !Z.shiftr_lxor in E.
      rewrite (Hz c Hc), (Hz c' Hc'), !Z.lxor_0_r in E. exact E. }
  split; [exact Hx|]. rewrite Hx in E. now apply lxor_cancel in E.
Qed.

(** ** The theorems *)

(** The table driven CRCs never index outside their tables and compute the
    bit by bit division by the polynomials named in the comments; CRC64 of
    a message is that of its second part started from that of its first;
    both have the check values given for "123456789". *)
Theorem crc_reference buf buf' c : in_u 64 c -> bytes_ok buf -> bytes_ok buf' ->
  crc16 buf = Ret (fold_left crc16_byte buf 0) /\
  crc64 c buf = Ret (fold_left crc64_byte buf c) /\
  crc64 c (buf ++ buf') = (c' ← crc64 c buf; crc64 c' buf') /\
  crc16 (bytes_of_string "123456789") = Ret 0x31C3 /\
  crc64 0 (bytes_of_string "123456789") = Ret 0xe9c6d914c4b8d9ca.
Proof.
  intros Hc Hb Hb'. split_and!.
  - apply crc16_loop_ref; [unfold in_u; lia|exact Hb].
  - now apply crc64_ref.
  - rewrite (crc64_ref (buf ++ buf')), (crc64_ref buf), fold_left_app by (try apply bytes_ok_app; auto).
    cbn [mbind res_bind]. symmetry. now apply crc64_ref.
  - vm_compute. reflexivity.
  - vm_compute. reflexivity.
Qed.

Lemma crc_reference_witness :
  crc64 5 ([1; 2] ++ [3]) = (c' ← crc64 5 [1; 2]; crc64 c' [3]).
Proof.
  apply (crc_reference [1; 2] [3] 5); [unfold in_u; lia| |];
    repeat constructor; unfold byte_ok; lia.
Defined.

(** Two messages that differ in exactly one byte have different CRCs, the
    guarantee the RDB checksum gives against a corrupted byte. *)
Theorem crc_detects_byte c p a b s : in_u 64 c -> bytes_ok p -> byte_ok a -> byte_ok b ->
  bytes_ok s -> a <> b ->
  crc64 c (p ++ a :: s) <> crc64 c (p ++ b :: s) /\ crc16 (p ++ a :: s) <> crc16 (p ++ b :: s).
Proof.
  intros Hc Hp Ha Hb Hs Hne.
  assert (forall x, byte_ok x -> bytes_ok (p ++ x :: s)) as Hm.
  { intros x Hx. apply bytes_ok_app. split; [exact Hp|]. now constructor. }
  split.
  - rewrite !crc64_ref by auto. intros [= E]. revert E. apply (fold_detects (in_u 64)); auto.
    + apply crc64_byte_ok.
    + intros x y z Hx Hy Hz E. destruct (crc64_step_inj x y z z Hx Hy Hz Hz E) as [E1 E2].
      apply halves_inj; [|exact E2]. rewrite !(Z.lxor_comm _ z) in E1. now apply lxor_cancel in E1.
    + intros z x y Hz Hx Hy E. destruct (crc64_step_inj z z x y Hz Hz Hx Hy E) as [E1 _].
      now apply lxor_cancel in E1.
  - unfold crc16. destruct (crc16_loop_ref (p ++ a :: s) 0) as [-> _]; [unfold in_u; lia|auto|].
    destruct (crc16_loop_ref (p ++ b :: s) 0) as [-> _]; [unfold in_u; lia|auto|].
    intros [= E]. revert E. apply (fold_detects (in_u 16)); auto; [| | |unfold in_u; lia].
    + apply crc16_byte_ok.
    + intros x y z Hx Hy Hz E. destruct (crc16_step_inj x y z z Hx Hy Hz Hz E) as [E1 E2].
      apply halves_inj; [exact E2|]. rewrite !(Z.lxor_comm _ z) in E1. now apply lxor_cancel in E1.
    + intros z x y Hz Hx Hy E. destruct (crc16_step_inj z z x y Hz Hz Hx Hy E) as [E1 _].
      now apply lxor_cancel in E1.
Qed.

Lemma crc_detects_byte_witness : crc16 [1; 2; 3] <> crc16 [1; 7; 3].
Proof.
  apply (crc_detects_byte 0 [1] 2 7 [3]); try (unfold in_u, byte_ok; lia);
    repeat constructor; unfold byte_ok; lia.
Defined.

(** ** Hash slots *)

Lemma scan_for_app c xs ys : forall i, c ∉ xs -> scan_for c (xs ++ ys) i = scan_for c ys (length xs + i).
Proof.
  induction xs as [|x xs IH]; intros i Hn; [done|]. apply not_elem_of_cons in Hn as [Hx Hn].
  cbn [app scan_for length]. zif; [congruence|]. rewrite IH by done. f_equal. lia.
Qed.

Lemma scan_for_none c xs i : c ∉ xs -> scan_for c xs i = (length xs + i)%nat.
Proof. intros Hn. rewrite <- (app_nil_r xs) at 1. now rewrite scan_for_app. Qed.

Lemma slot_of_crc buf : bytes_ok buf ->
  exists s, (crc ← crc16 buf; Ret (Z.land crc 0x3FFF)) = Ret s /\ 0 <= s < 16384.
Proof.
  intros Hb. destruct (crc16_loop_ref buf 0) as [E _]; [unfold in_u; lia|done|].
  unfold crc16. rewrite E. cbn [mbind res_bind]. eexists. split; [reflexivity|].
  change 0x3FFF with (2 ^ 14 - 1). rewrite land_mask by lia. apply Z.mod_pos_bound. lia.
Qed.

(** What is between the first opening brace and the closing brace that
    follows it. *)
Lemma keyHashSlot_tag pre tag post : 123 ∉ pre -> 125 ∉ tag ->
  keyHashSlot (pre ++ 123 :: tag ++ 125 :: post) =
  (crc ← crc16 (match tag with [] => pre ++ 123 :: tag ++ 125 :: post | _ => tag end); Ret (Z.land crc 0x3FFF)).
Proof.
  intros Hp Ht. unfold keyHashSlot. rewrite scan_for_app by done. cbn [scan_for Z.eqb Pos.eqb].
  rewrite length_app. cbn [length]. rewrite length_app. cbn [length].
  destruct (Nat.eqb_spec (length pre + 0) (length pre + S (length tag + S (length post)))); [lia|].
  assert (drop (length pre + 0 + 1) (pre ++ 123 :: tag ++ 125 :: post) = tag ++ 125 :: post) as ->.
  { rewrite drop_app_ge by lia. replace (length pre + 0 + 1 - length pre)%nat with 1%nat by lia. done. }
  rewrite scan_for_app by done. cbn [scan_for Z.eqb Pos.eqb].
  destruct (Nat.eqb_spec (length tag + (length pre + 0 + 1)) (length pre + S (length tag + S (length post)))); [lia|].
  cbn [orb]. destruct tag as [|x tag].
  - cbn [length Nat.add]. now rewrite Nat.eqb_refl.
  - cbn [length]. destruct (Nat.eqb_spec (S (length tag) + (length pre + 0 + 1)) (length pre + 0 + 1)); [lia|].
    replace (S (length tag) + (length pre + 0 + 1) - (length pre + 0) - 1)%nat with (length (x :: tag)) by (cbn; lia).
    now rewrite take_app_length.
Qed.

(** The slot of every key is one of the 16384; keys with the same non-empty
    hash tag are in the same slot, that of the tag; a key with no braces
    is hashed whole. *)
Theorem keyHashSlot_spec pre tag post pre' post' key : bytes_ok key ->
  (123 ∉ pre) -> (123 ∉ pre') -> (125 ∉ tag) -> (123 ∉ tag) -> tag <> [] ->
  (exists s, keyHashSlot key = Ret s /\ 0 <= s < 16384) /\
  keyHashSlot (pre ++ 123 :: tag ++ 125 :: post) = keyHashSlot (pre' ++ 123 :: tag ++ 125 :: post') /\
  keyHashSlot (pre ++ 123 :: tag ++ 125 :: post) = keyHashSlot tag.
Proof.
  intros Hk Hp Hp' Ht Ht' Hne. split_and!.
  - unfold keyHashSlot. repeat (zif || destruct (Nat.eqb _ _) || destruct (_ || _)); cbn [orb];
      apply slot_of_crc; auto using bytes_ok_take, bytes_ok_drop.
  - rewrite !keyHashSlot_tag by done. now destruct tag.
  - rewrite keyHashSlot_tag by done. unfold keyHashSlot. rewrite scan_for_none by done.
    rewrite Nat.add_0_r, Nat.eqb_refl. now destruct tag.
Qed.

Lemma keyHashSlot_spec_witness :
  keyHashSlot (bytes_of_string "{user1000}.following") = keyHashSlot (bytes_of_string "x{user1000}.followers") /\
  keyHashSlot (bytes_of_string "{user1000}.following") = keyHashSlot (bytes_of_string "user1000").
Proof.
  apply (keyHashSlot_spec [] (bytes_of_string "user1000") (bytes_of_string ".following")
    (bytes_of_string "x") (bytes_of_string ".followers") (bytes_of_string "k"));
    try (apply (bool_decide_unpack _); vm_compute; exact I).
Defined.
