(* ===== verification/Sha1Proofs.v ===== *)
(** * Sha1Proofs: sha1.c computes the digest of FIPS 180 *)

From S2P Require Import Prelude Sha1.

(** ** Words *)

Definition idx32 : list Z := map Z.of_nat (seq 0 32).

Lemma idx32_in i : 0 <= i < 32 -> In i idx32.
Proof.
  intros. apply in_map_iff. exists (Z.to_nat i). split; [lia|]. apply in_seq. lia.
Qed.

Lemma bit_high w v i : in_u w v -> 0 <= w <= i -> Z.testbit v i = false.
Proof.
  intros Hv Hi. rewrite <- (Z.mod_small v (2 ^ w)) by exact Hv. apply Z.mod_pow2_bits_high. lia.
Qed.

Lemma rol_range x n : in_u 32 x -> 0 <= n <= 32 -> in_u 32 (rol x n).
Proof.
  intros Hx Hn. apply in_u_lor; [lia|apply uwrap_range; lia|]. apply in_u_shiftr; [lia|done].
Qed.

Lemma rol_testbit x n i : in_u 32 x -> 0 < n < 32 -> 0 <= i < 32 ->
  Z.testbit (rol x n) i = Z.testbit x ((i - n) mod 32).
Proof.
  intros Hx Hn Hi. unfold rol, uwrap. rewrite Z.lor_spec, Z.mod_pow2_bits_low by lia.
  rewrite Z.shiftl_spec, Z.shiftr_spec by lia. destruct (Z.lt_ge_cases i n).
  - rewrite Z.testbit_neg_r by lia. cbn [orb]. f_equal.
    rewrite <- (Z_mod_plus_full (i - n) 1 32), Z.mod_small by lia. lia.
  - rewrite (bit_high 32 x (i + (32 - n))) by (done || lia). rewrite orb_false_r, Z.mod_small by lia. done.
Qed.

Lemma bytes_testbit bs : forall i, bytes_ok bs -> 0 <= i ->
  Z.testbit (le_value bs) i = Z.testbit (nth (Z.to_nat (i / 8)) bs 0) (i mod 8).
Proof.
  induction bs as [|b bs IH]; intros i Hb Hi.
  { cbn. rewrite Z.bits_0. destruct (Z.to_nat (i / 8)); now rewrite Z.bits_0. }
  apply Forall_cons in Hb as [Hb Hbs]. unfold byte_ok in Hb. cbn [le_value].
  assert ((b + 256 * le_value bs) mod 2 ^ 8 = b /\ (b + 256 * le_value bs) / 2 ^ 8 = le_value bs) as [E1 E2].
  { change (2 ^ 8) with 256. rewrite (Z.mul_comm 256), Z_mod_plus_full, Z_div_plus by lia.
    rewrite Z.mod_small, Z.div_small by lia. lia. }
  set (x := b + 256 * le_value bs) in *. clearbody x. destruct (Z.lt_ge_cases i 8).
  - rewrite Z.div_small, (Z.mod_small i) by lia. change (Z.to_nat 0) with 0%nat. cbn [nth].
    rewrite <- E1. now rewrite Z.mod_pow2_bits_low by lia.
  - replace i with (i - 8 + 8) at 1 by lia. rewrite <- Z.div_pow2_bits, E2, IH by (done || lia).
    replace (i / 8) with ((i - 8) / 8 + 1) by (rewrite <- (Z_div_plus (i - 8) 1 8) by lia; f_equal; lia).
    pose proof (Z.div_pos (i - 8) 8 ltac:(lia) ltac:(lia)).
    rewrite Z2Nat.inj_add, Nat.add_comm by lia. change (Z.to_nat 1) with 1%nat. cbn [nth Nat.add].
    f_equal. rewrite <- (Z_mod_plus_full (i - 8) 1 8). f_equal. lia.
Qed.

Definition bswap (x : Z) : Z :=
  Z.lor (Z.land (rol x 24) 0xFF00FF00) (Z.land (rol x 8) 0x00FF00FF).

Definition swap_ok (i : Z) : bool :=
  let s := 8 * (3 - i / 8) + i mod 8 in
  if Z.testbit 0xFF00FF00 i then ((i - 24) mod 32 =? s) && negb (Z.testbit 0x00FF00FF i)
  else ((i - 8) mod 32 =? s) && Z.testbit 0x00FF00FF i.

Lemma bswap_testbit x i : in_u 32 x -> 0 <= i < 32 ->
  Z.testbit (bswap x) i = Z.testbit x (8 * (3 - i / 8) + i mod 8).
Proof.
  intros Hx Hi. assert (swap_ok i = true) as H.
  { assert (forallb swap_ok idx32 = true) as H by reflexivity.
    rewrite forallb_forall in H. apply H, idx32_in, Hi. }
  unfold swap_ok in H. unfold bswap. rewrite Z.lor_spec, !Z.land_spec, !rol_testbit by (done || lia).
  destruct (Z.testbit 0xFF00FF00 i); apply andb_true_iff in H as [E M]; apply Z.eqb_eq in E;
    [apply negb_true_iff in M|]; rewrite M, E, ?andb_true_r, ?andb_false_r, ?orb_false_r, ?orb_false_l; done.
Qed.

Lemma bswap_range x : in_u 32 x -> in_u 32 (bswap x).
Proof.
  intros Hx. apply in_u_lor; [lia|apply in_u_land_l; [lia|]..]; apply rol_range; (done || lia).
Qed.

Lemma le_value_32 bs : bytes_ok bs -> (length bs <= 4)%nat -> in_u 32 (le_value bs).
Proof.
  intros Hb Hl. destruct bs as [|b0 [|b1 [|b2 [|b3 [|]]]]]; cbn [length] in Hl; try lia;
    unfold bytes_ok, byte_ok in Hb; rewrite ?Forall_cons in Hb; unfold in_u; cbn [le_value]; lia.
Qed.

(** The swap of a little-endian word is the big-endian word. *)
Lemma bswap_word bs : bytes_ok bs -> length bs = 4%nat -> bswap (le_value bs) = be_word bs.
Proof.
  intros Hb Hl. assert (in_u 32 (le_value bs)) as Hx by (apply le_value_32; (done || lia)).
  assert (bytes_ok (reverse bs)) as Hr by (apply Forall_reverse; done).
  assert (in_u 32 (be_word bs)) as Hy.
  { apply le_value_32; [done|]. rewrite length_reverse. lia. }
  apply Z.bits_inj'. intros i Hi. destruct (Z.lt_ge_cases i 32).
  - pose proof (Z.mod_pos_bound i 8 ltac:(lia)).
    assert (0 <= i / 8 <= 3) by (split; [apply Z.div_pos; lia|]; assert (i / 8 < 4); [apply Z.div_lt_upper_bound; lia|lia]).
    rewrite bswap_testbit by (done || lia). unfold be_word. rewrite !bytes_testbit by (done || lia).
    rewrite (Z.mul_comm 8), (Z.add_comm (_ * 8)), Z_mod_plus_full, Z.mod_mod, Z_div_plus by lia.
    rewrite (Z.div_small (i mod 8)), Z.add_0_l by lia. f_equal.
    destruct bs as [|b0 [|b1 [|b2 [|b3 [|]]]]]; cbn [length] in Hl; try lia.
    assert (i / 8 = 0 \/ i / 8 = 1 \/ i / 8 = 2 \/ i / 8 = 3) as [->|[->|[->| ->]]] by lia; reflexivity.
  - rewrite (bit_high 32), (bit_high 32 (be_word bs)); (done || lia || now apply bswap_range).
Qed.

(** ** The round functions *)

Ltac bitwise := apply Z.bits_inj'; intros i Hi;
  rewrite ?Z.lxor_spec, ?Z.lor_spec, ?Z.land_spec, ?Z.lxor_spec, ?Z.lor_spec, ?Z.land_spec, ?Z.lnot_spec by done.

Lemma R01_Ch w x y : R01 w x y = Ch w x y.
Proof.
  unfold R01, Ch. bitwise. now destruct (Z.testbit w i), (Z.testbit x i), (Z.testbit y i).
Qed.

Lemma R3_Maj w x y : R3 w x y = Maj w x y.
Proof.
  unfold R3, Maj. bitwise. now destruct (Z.testbit w i), (Z.testbit x i), (Z.testbit y i).
Qed.

(** ** The message schedule *)

Lemma extend_length n : forall ws, length (extend n ws) = (length ws + n)%nat.
Proof. induction n as [|n IH]; intros ws; cbn [extend]; [lia|]. rewrite IH, length_app. cbn. lia. Qed.

Lemma extend_old n : forall ws t, (t < length ws)%nat -> nth t (extend n ws) 0 = nth t ws 0.
Proof.
  induction n as [|n IH]; intros ws t Ht; [done|]. cbn [extend].
  rewrite IH by (rewrite length_app; cbn; lia). now apply app_nth1.
Qed.

Lemma extend_new n : forall ws t, (16 <= length ws)%nat -> (length ws <= t < length ws + n)%nat ->
  let W k := nth k (extend n ws) 0 in
  W t = rol (Z.lxor (Z.lxor (Z.lxor (W (t - 3)%nat) (W (t - 8)%nat)) (W (t - 14)%nat)) (W (t - 16)%nat)) 1.
Proof.
  induction n as [|n IH]; intros ws t Hw Ht; [lia|]. cbn [extend]. cbv zeta.
  destruct (decide (t = length ws)) as [->|Hne].
  - rewrite !extend_old by (rewrite length_app; cbn; lia).
    rewrite app_nth2, Nat.sub_diag by lia. cbn [nth]. unfold next_word. cbv zeta.
    rewrite !app_nth1 by lia. done.
  - apply IH; rewrite length_app; cbn; lia.
Qed.

#[local] Opaque extend.

(** ** The transform *)

Lemma land15 k : Nat.land k 15 = (k mod 16)%nat.
Proof. change 15%nat with (Nat.ones 4). now rewrite Nat.land_ones. Qed.

Lemma mod16_shift k : ((k + 16) mod 16 = k mod 16)%nat.
Proof. now rewrite <- (Nat.Div0.mod_add k 1 16). Qed.

Lemma mod16_inj k n : (k mod 16 = n mod 16)%nat -> (k <= n < k + 16)%nat -> k = n.
Proof.
  intros E H. pose proof (Nat.div_mod_eq k 16). pose proof (Nat.div_mod_eq n 16). lia.
Qed.

Lemma nth_insert (l : list Z) i j x : (i < length l)%nat ->
  nth j (<[i := x]> l) 0 = if (j =? i)%nat then x else nth j l 0.
Proof.
  intros Hi. destruct (Nat.eqb_spec j i) as [->|Hne].
  - apply nth_lookup_Some. now apply list_lookup_insert_eq.
  - rewrite !nth_lookup, list_lookup_insert_ne by done. done.
Qed.

Section Transform.
Context (block : list Z) (Hlen : length block = 64%nat) (Hok : bytes_ok block).
Let W k := nth k (schedule block) 0.
Let l0 := load_block block.

Lemma word_at k : (k < 16)%nat -> bswap (nth k l0 0) = W k.
Proof.
  intros Hk. unfold W, schedule. rewrite extend_old by (rewrite length_map, length_seq; lia).
  unfold l0, load_block.
  rewrite !(nth_indep _ 0 (le_value (take 4 (drop (4 * 0) block)))) by (rewrite length_map, length_seq; lia).
  rewrite (map_nth (fun i => le_value (take 4 (drop (4 * i) block)))).
  rewrite (nth_indep _ (le_value _) (be_word (take 4 (drop (4 * 0) block)))) by (rewrite length_map, length_seq; lia).
  rewrite (map_nth (fun i => be_word (take 4 (drop (4 * i) block)))), !seq_nth by lia. cbn [Nat.add].
  apply bswap_word; [auto using bytes_ok_take, bytes_ok_drop|].
  rewrite length_take, length_drop. lia.
Qed.

Definition tracks (n : nat) (l : list Z) : Prop :=
  length l = 16%nat /\
  (forall k, (k < n)%nat -> (n <= k + 16)%nat -> nth (k mod 16) l 0 = W k) /\
  (forall k, (n <= k < 16)%nat -> nth k l 0 = nth k l0 0).

Lemma blk0_ok n l : (n < 16)%nat -> tracks n l ->
  exists l', blk0 l n = (l', W n) /\ tracks (S n) l'.
Proof.
  intros Hn (Hl & Hold & Hraw). unfold blk0. fold (bswap (nth n l 0)).
  rewrite (Hraw n), word_at by lia. eexists. split; [done|]. split_and!.
  - now rewrite length_insert.
  - intros k Hk _. rewrite nth_insert by lia. rewrite Nat.mod_small by lia.
    destruct (Nat.eqb_spec k n) as [->|]; [done|]. rewrite <- Hold by lia. now rewrite Nat.mod_small by lia.
  - intros k Hk. rewrite nth_insert by lia. destruct (Nat.eqb_spec k n); [lia|]. apply Hraw. lia.
Qed.

Lemma blk_ok n l : (16 <= n < 80)%nat -> tracks n l ->
  exists l', blk l n = (l', W n) /\ tracks (S n) l'.
Proof.
  intros Hn (Hl & Hold & Hraw). unfold blk. rewrite !land15. cbv zeta.
  replace (n + 13)%nat with (n - 3 + 16)%nat by lia. replace (n + 8)%nat with (n - 8 + 16)%nat by lia.
  replace (n + 2)%nat with (n - 14 + 16)%nat by lia. rewrite !mod16_shift.
  assert (nth (n mod 16) l 0 = W (n - 16)) as ->.
  { replace n with (n - 16 + 16)%nat at 1 by lia. rewrite mod16_shift. apply Hold; lia. }
  rewrite !Hold by lia.
  assert (W n = rol (Z.lxor (Z.lxor (Z.lxor (W (n - 3)) (W (n - 8))) (W (n - 14))) (W (n - 16))) 1) as <-.
  { unfold W, schedule. set (ws := map _ (seq 0 16)).
    assert (length ws = 16%nat) as Hws by (unfold ws; now rewrite length_map, length_seq).
    apply (extend_new 64 ws n); lia. }
  eexists. split; [done|]. split_and!.
  - now rewrite length_insert.
  - intros k Hk Hk'. pose proof (Nat.mod_upper_bound n 16). rewrite nth_insert by (rewrite Hl; lia).
    destruct (Nat.eqb_spec (k mod 16) (n mod 16)) as [E|].
    + apply mod16_inj in E as ->; [done|lia].
    + apply Hold; [|lia]. destruct (decide (k = n)) as [->|]; [done|lia].
  - intros k Hk. lia.
Qed.

Lemma round_fips (f K b v w x y z : Z) :
  (u32 (z + (f + b + K + rol v 5)), v, rol w 30, x, y) = (u32 (rol v 5 + f + z + K + b), v, rol w 30, x, y).
Proof. replace (z + (f + b + K + rol v 5)) with (rol v 5 + f + z + K + b) by lia. reflexivity. Qed.

Lemma transform_rounds st n : (n <= 80)%nat ->
  exists l, fold_left transform_step (seq 0 n) (st, l0) =
      (fold_left (fips_step (schedule block)) (seq 0 n) st, l) /\ tracks n l.
Proof.
  induction n as [|n IH]; intros Hn.
  - exists l0. split; [done|]. split_and!; [unfold l0, load_block; now rewrite length_map|lia|done].
  - destruct (IH ltac:(lia)) as (l & E & T). rewrite seq_S, !fold_left_app, E. cbn [fold_left Nat.add].
    set (r := fold_left (fips_step _) _ st). clearbody r. clear E IH.
    destruct r as [[[[v w] x] y] z]. unfold transform_step, fips_step, round.
    destruct (Nat.ltb_spec n 16).
    + destruct (blk0_ok n l ltac:(lia) T) as (l' & -> & T'). exists l'. split; [|done].
      destruct (Nat.ltb_spec n 20); [|lia]. rewrite R01_Ch. apply (f_equal (fun r => (r, l'))), round_fips.
    + destruct (blk_ok n l ltac:(lia) T) as (l' & -> & T'). exists l'. fold (W n).
      destruct (Nat.ltb_spec n 20); [|destruct (Nat.ltb_spec n 40); [|destruct (Nat.ltb_spec n 60)]];
        (split; [|done]); rewrite ?R01_Ch, ?R3_Maj; apply (f_equal (fun r => (r, l'))), round_fips.
Qed.

Lemma transform_compress st : SHA1Transform st block = compress st block.
Proof.
  unfold SHA1Transform, compress. fold l0.
  destruct (transform_rounds st 80 ltac:(lia)) as (l & -> & _). done.
Qed.
End Transform.

#[local] Opaque SHA1Transform compress.

(** ** Hashing blocks *)

Lemma hash_blocks_snoc k : forall H m,
  hash_blocks (S k) H m = compress (hash_blocks k H m) (take 64 (drop (64 * k) m)).
Proof.
  induction k as [|k IH]; intros H m; [now rewrite drop_0|].
  change (hash_blocks (S (S k)) H m) with (hash_blocks (S k) (compress H (take 64 m)) (drop 64 m)).
  rewrite IH, drop_drop. cbn [hash_blocks]. do 3 f_equal. lia.
Qed.

(** Only the first blocks matter. *)
Lemma hash_blocks_app k : forall H m m', (64 * k <= length m)%nat ->
  hash_blocks k H (m ++ m') = hash_blocks k H m.
Proof.
  induction k as [|k IH]; intros H m m' Hl; [done|]. cbn [hash_blocks].
  rewrite take_app_le, drop_app_le by lia. apply IH. rewrite length_drop. lia.
Qed.

(** ** The context *)

(** [ctx] has been given the bytes [m]. *)
Record ctx_rep (ctx : SHA1_CTX) (m : list Z) : Prop := {
  rep_count0 : count0 ctx = (8 * Z.of_nat (length m)) mod 2 ^ 32;
  rep_count1 : count1 ctx = (8 * Z.of_nat (length m) / 2 ^ 32) mod 2 ^ 32;
  rep_buffer : length (buffer ctx) = 64%nat;
  rep_state : state ctx = hash_blocks (length m / 64) H0 m;
  rep_tail : take (length m mod 64) (buffer ctx) = drop (64 * (length m / 64)) m;
  rep_bytes : bytes_ok m
}.

Lemma count_add a b : 0 <= a -> 0 <= b < 2 ^ 32 ->
  let M := 2 ^ 32 in
  let c0 := u32 ((8 * a) mod M + u32 (Z.shiftl b 3)) in
  c0 = (8 * (a + b)) mod M /\
  u32 ((if c0 <? (8 * a) mod M then u32 ((8 * a / M) mod M + 1) else (8 * a / M) mod M) + Z.shiftr b 29)
  = (8 * (a + b) / M) mod M.
Proof.
  intros Ha Hb M. assert (0 < M) by (unfold M; lia). unfold uwrap. fold M.
  rewrite Z.shiftl_mul_pow2, Z.shiftr_div_pow2 by lia. change (2 ^ 3) with 8.
  replace (b / 2 ^ 29) with (8 * b / M).
  2: { unfold M. change (2 ^ 32) with (8 * 2 ^ 29). now rewrite Z.div_mul_cancel_l by lia. }
  rewrite (Z.mul_comm b 8). set (x := 8 * a). set (y := 8 * b).
  replace (8 * (a + b)) with (x + y) by (unfold x, y; lia). cbv zeta.
  pose proof (Z.div_mod x M ltac:(lia)) as Dx. pose proof (Z.mod_pos_bound x M ltac:(lia)).
  pose proof (Z.div_mod y M ltac:(lia)) as Dy. pose proof (Z.mod_pos_bound y M ltac:(lia)).
  set (p := x mod M) in *. set (q := y mod M) in *. set (X := x / M) in *. set (Y := y / M) in *.
  assert ((p + q) mod M = (x + y) mod M /\ (x + y) / M = X + Y + (p + q) / M) as [E1 E2].
  { replace (x + y) with (p + q + (X + Y) * M) by lia.
    rewrite Z_mod_plus_full, Z_div_plus by lia. lia. }
  split; [exact E1|]. rewrite E2. destruct (Z.lt_ge_cases (p + q) M).
  - rewrite (Z.mod_small (p + q)), (Z.div_small (p + q)) by lia. zif; [lia|].
    rewrite Zplus_mod_idemp_l. f_equal. lia.
  - assert ((p + q) / M = 1) as -> by (symmetry; apply Z.div_unique_pos with (p + q - M); lia).
    assert ((p + q) mod M = p + q - M) as -> by (symmetry; apply Z.mod_unique_pos with 1; lia).
    zif; [|lia]. rewrite Zplus_mod_idemp_l. rewrite <- Zplus_mod_idemp_l, Zplus_mod_idemp_l.
    rewrite <- Z.add_assoc, Zplus_mod_idemp_l. f_equal. lia.
Qed.

Lemma count_pos n : 0 <= n -> Z.land (Z.shiftr ((8 * n) mod 2 ^ 32) 3) 63 = n mod 64.
Proof.
  intros Hn. change 63 with (2 ^ 6 - 1). rewrite land_mask, Z.shiftr_div_pow2 by lia.
  change (2 ^ 32) with (8 * 2 ^ 29). rewrite Z.mul_mod_distr_l by lia.
  rewrite Z.mul_comm. change (2 ^ 3) with 8. rewrite Z.div_mul by lia.
  apply Z.mod_mod_divide. exists (2 ^ 23). reflexivity.
Qed.

Lemma update_loop_ok m data : bytes_ok (m ++ data) -> Z.of_nat (length data) < 2 ^ 32 - 64 ->
  forall fuel i k, (length m + i = 64 * k)%nat -> (i <= length data)%nat -> (length data - i < fuel)%nat ->
  exists i' k', update_loop fuel (hash_blocks k H0 (m ++ data)) data (Z.of_nat i) (Z.of_nat (length data)) =
      Ret (hash_blocks k' H0 (m ++ data), Z.of_nat i') /\
    (length m + i' = 64 * k')%nat /\ (i' <= length data < i' + 64)%nat.
Proof.
  intros Hok Hlen. induction fuel as [|fuel IH]; intros i k Hk Hi Hf; [lia|]. cbn [update_loop].
  rewrite uwrap_id by (unfold in_u; lia). zif.
  - assert (memread data (Z.of_nat i) 64 = Ret (slice data i 64)) as -> by (apply memread_ok; lia).
    cbn [mbind res_bind]. rewrite uwrap_id by (unfold in_u; lia).
    replace (Z.of_nat i + 64) with (Z.of_nat (i + 64)) by lia.
    assert (slice data i 64 = take 64 (drop (64 * k) (m ++ data))) as Hs.
    { unfold slice. rewrite drop_app_ge by lia. do 2 f_equal. lia. }
    rewrite Hs, transform_compress, <- hash_blocks_snoc.
    + apply IH; lia.
    + rewrite length_take, length_drop, length_app. lia.
    + now apply bytes_ok_take, bytes_ok_drop.
  - exists i, k. split_and!; auto; lia.
Qed.

Lemma sha1_update_ok ctx m data : ctx_rep ctx m -> bytes_ok data -> Z.of_nat (length data) < 2 ^ 32 - 64 ->
  exists ctx', SHA1Update ctx data = Ret ctx' /\ ctx_rep ctx' (m ++ data).
Proof.
  intros [C0 C1 HB HS HT HM] Hd Hlen. unfold SHA1Update.
  set (len := Z.of_nat (length data)) in *.
  destruct (count_add (Z.of_nat (length m)) len ltac:(lia) ltac:(lia)) as [E0 E1].
  cbv zeta in E0, E1. rewrite C0, C1.
  replace (Z.of_nat (length m) + len) with (Z.of_nat (length (m ++ data))) in E0, E1 by (rewrite length_app; lia).
  set (c1 := u32 (_ + Z.shiftr len 29)). change c1 with (u32 ((if u32 ((8 * Z.of_nat (length m)) mod 2 ^ 32 +
    u32 (Z.shiftl len 3)) <? (8 * Z.of_nat (length m)) mod 2 ^ 32
    then u32 ((8 * Z.of_nat (length m) / 2 ^ 32) mod 2 ^ 32 + 1)
    else (8 * Z.of_nat (length m) / 2 ^ 32) mod 2 ^ 32) + Z.shiftr len 29)). rewrite E1, E0. clear c1 E0 E1.
  rewrite count_pos by lia. cbv zeta.
  set (j := (length m mod 64)%nat) in *. set (q := (length m / 64)%nat) in *.
  assert (length m = 64 * q + j /\ j < 64)%nat as [Hm Hj].
  { split; [apply Nat.div_mod_eq|now apply Nat.mod_upper_bound]. }
  assert (Z.of_nat (length m) mod 64 = Z.of_nat j) as ->.
  { symmetry. apply Z.mod_unique_pos with (Z.of_nat q); lia. }
  rewrite uwrap_id by (unfold in_u; lia).
  assert (bytes_ok (m ++ data)) as Hok by now apply bytes_ok_app.
  assert (forall i k, (length m + i = 64 * k)%nat -> (i <= length data < i + 64)%nat ->
    (length (m ++ data) / 64 = k)%nat /\ (length (m ++ data) mod 64 = length data - i)%nat) as Hpos.
  { intros i k Hk Hi. rewrite length_app.
    assert (length m + length data = 64 * k + (length data - i))%nat as -> by lia.
    split; [symmetry; apply Nat.div_unique with (length data - i)%nat; lia|].
    symmetry. apply Nat.mod_unique with k; lia. }
  zif.
  - assert (memread data 0 (Z.to_nat (64 - Z.of_nat j)) = Ret (take (64 - j) data)) as ->.
    { replace (Z.to_nat (64 - Z.of_nat j)) with (64 - j)%nat by lia.
      change 0 with (Z.of_nat 0). rewrite memread_ok by lia. unfold slice. now rewrite drop_0. }
    cbn [mbind res_bind]. rewrite memwrite_ok by (rewrite length_take; lia). cbn [mbind res_bind].
    assert (blit (buffer ctx) j (take (64 - j) data) = take 64 (drop (64 * q) (m ++ data))) as Hblk.
    { unfold blit. rewrite HT, drop_app_le by lia. rewrite (drop_ge (buffer ctx)) by (rewrite length_take; lia).
      rewrite app_nil_r, take_app. rewrite (take_ge (drop (64 * q) m)) by (rewrite length_drop; lia).
      do 2 f_equal. rewrite length_drop. lia. }
    rewrite Hblk, transform_compress; [|rewrite length_take, length_drop, length_app; lia|now apply bytes_ok_take, bytes_ok_drop].
    rewrite HS. rewrite <- (hash_blocks_app q H0 m data) by lia. rewrite <- hash_blocks_snoc.
    replace (64 - Z.of_nat j) with (Z.of_nat (64 - j)) by lia.
    destruct (update_loop_ok m data Hok Hlen (S (length data)) (64 - j) (S q)) as (i & k & E & Hk & Hi); [lia..|].
    fold len in E. rewrite E. cbn [mbind res_bind]. rewrite uwrap_id by (unfold in_u; lia).
    replace (Z.to_nat (len - Z.of_nat i)) with (length data - i)%nat by lia.
    rewrite memread_ok by lia. cbn [mbind res_bind]. destruct (Hpos i k Hk Hi) as [P1 P2].
    assert (slice data i (length data - i) = drop i data) as ->
      by (unfold slice; apply take_ge; rewrite length_drop; lia).
    change 0 with (Z.of_nat 0). rewrite memwrite_ok.
    2: { rewrite length_drop, length_take, length_drop, length_app. lia. }
    eexists. split; [reflexivity|]. constructor; cbn [count0 count1 buffer state]; rewrite ?P1, ?P2; auto.
    + rewrite length_blit; rewrite ?length_drop, ?length_take, ?length_drop, ?length_app; lia.
    + unfold blit. rewrite take_0. cbn [app]. rewrite take_app_le by (rewrite length_drop; lia).
      rewrite take_ge by (rewrite length_drop; lia). rewrite drop_app_ge by lia. f_equal. lia.
  - cbn [mbind res_bind]. rewrite Z.sub_0_r, uwrap_id by (unfold in_u; lia).
    change 0 with (Z.of_nat 0). unfold len. rewrite Nat2Z.id, memread_ok by lia. cbn [mbind res_bind].
    assert (slice data 0 (length data) = data) as -> by (unfold slice; rewrite drop_0; now apply take_ge).
    rewrite memwrite_ok by lia. eexists. split; [reflexivity|].
    assert (length (m ++ data) / 64 = q /\ length (m ++ data) mod 64 = j + length data)%nat as [P1 P2].
    { rewrite length_app. replace (length m + length data)%nat with (64 * q + (j + length data))%nat by lia.
      split; [symmetry; apply Nat.div_unique with (j + length data)%nat; lia|].
      symmetry. apply Nat.mod_unique with q; lia. }
    constructor; cbn [count0 count1 buffer state]; rewrite ?P1, ?P2; auto.
    + rewrite length_blit; lia.
    + rewrite HS. symmetry. apply hash_blocks_app. lia.
    + unfold blit. rewrite HT, app_assoc. rewrite take_app_le by (rewrite length_app, length_drop; lia).
      rewrite take_ge by (rewrite length_app, length_drop; lia). now rewrite drop_app_le by lia.
Qed.

(** ** Padding *)

Lemma land504 c : Z.land c 504 = 8 * Z.land (Z.shiftr c 3) 63.
Proof.
  replace (8 * Z.land (Z.shiftr c 3) 63) with (Z.shiftl (Z.land (Z.shiftr c 3) 63) 3)
    by (rewrite Z.shiftl_mul_pow2 by lia; lia).
  rewrite Z.shiftl_land. change (Z.shiftl 63 3) with 504. apply Z.bits_inj'. intros i Hi.
  rewrite !Z.land_spec. destruct (Z.lt_ge_cases i 3).
  - assert (i = 0 \/ i = 1 \/ i = 2) as [->|[->| ->]] by lia; now rewrite !andb_false_r.
  - rewrite Z.shiftl_spec, Z.shiftr_spec by lia. do 2 f_equal. lia.
Qed.

Lemma pad_loop_ok fuel : forall ctx m, ctx_rep ctx m ->
  (Z.to_nat ((56 - Z.of_nat (length m)) mod 64) < fuel)%nat ->
  exists ctx', pad_loop fuel ctx = Ret ctx' /\
    ctx_rep ctx' (m ++ replicate (Z.to_nat ((56 - Z.of_nat (length m)) mod 64)) 0).
Proof.
  induction fuel as [|fuel IH]; intros ctx m R Hf; [lia|]. cbn [pad_loop].
  rewrite land504, (rep_count0 _ _ R), count_pos by lia.
  pose proof (Z.mod_pos_bound (Z.of_nat (length m)) 64 ltac:(lia)).
  pose proof (Z.div_mod (Z.of_nat (length m)) 64 ltac:(lia)).
  set (n := Z.of_nat (length m)) in *. zif.
  - assert ((56 - n) mod 64 = 0) as -> by (symmetry; apply Z.mod_unique_pos with (- (n / 64)); lia).
    exists ctx. rewrite app_nil_r. done.
  - destruct (sha1_update_ok ctx m [0]) as (ctx1 & -> & R1); [done|repeat constructor; unfold byte_ok; lia|cbn; lia|].
    cbn [mbind res_bind].
    assert ((56 - n) mod 64 = (56 - (n + 1)) mod 64 + 1) as E.
    { pose proof (Z.mod_pos_bound (56 - n) 64 ltac:(lia)). pose proof (Z.div_mod (56 - n) 64 ltac:(lia)).
      assert ((56 - n) mod 64 <> 0).
      { intros Hz. assert (n mod 64 = 56); [|lia]. symmetry. apply Z.mod_unique_pos with (- ((56 - n) / 64)); lia. }
      assert ((56 - (n + 1)) mod 64 = (56 - n) mod 64 - 1); [|lia].
      symmetry. apply Z.mod_unique_pos with ((56 - n) / 64); lia. }
    pose proof (Z.mod_pos_bound (56 - (n + 1)) 64 ltac:(lia)).
    assert (Z.of_nat (length (m ++ [0])) = n + 1) as Hn by (rewrite length_app; cbn; lia).
    destruct (IH ctx1 (m ++ [0]) R1) as (ctx' & E' & R'); [rewrite Hn; lia|].
    exists ctx'. split; [exact E'|]. rewrite Hn, <- app_assoc in R'. rewrite E.
    replace (Z.to_nat ((56 - (n + 1)) mod 64 + 1)) with (S (Z.to_nat ((56 - (n + 1)) mod 64))) by lia.
    exact R'.
Qed.

(** A byte of a word cut out of a number. *)
Lemma byte_of v k : 0 <= k -> Z.land (Z.shiftr v k) 255 = v / 2 ^ k mod 256.
Proof. intros. change 255 with (2 ^ 8 - 1). now rewrite land_mask, Z.shiftr_div_pow2 by lia. Qed.

Lemma byte_of_low v k : 0 <= k <= 24 -> Z.land (Z.shiftr (v mod 2 ^ 32) k) 255 = v / 2 ^ k mod 256.
Proof.
  intros Hk. rewrite byte_of by lia. rewrite <- !Z.shiftr_div_pow2 by lia.
  change 256 with (2 ^ 8). apply Z.bits_inj'. intros i Hi. destruct (Z.lt_ge_cases i 8).
  - rewrite !Z.mod_pow2_bits_low, !Z.shiftr_spec, Z.mod_pow2_bits_low by lia. done.
  - now rewrite !Z.mod_pow2_bits_high by lia.
Qed.

Lemma be_bytes_4 v : be_bytes 4 v =
  map (fun k => Z.land (Z.shiftr v ((3 - k) * 8)) 255) [0; 1; 2; 3].
Proof.
  unfold be_bytes. cbn [le_bytes map reverse rev_append]. rewrite !byte_of, !Z.div_div by lia.
  cbn [reverse rev_append]. unfold reverse. cbn [rev_append]. rewrite Z.div_1_r. reflexivity.
Qed.

Lemma finalcount_ok ctx m : ctx_rep ctx m -> finalcount ctx = be_bytes 8 (8 * Z.of_nat (length m)).
Proof.
  intros R. unfold finalcount. rewrite (rep_count0 _ _ R), (rep_count1 _ _ R).
  set (v := 8 * Z.of_nat (length m)). unfold be_bytes, reverse. cbn [le_bytes rev_append map].
  rewrite !Z.div_div by lia. cbn [Z.leb Z.compare Pos.compare Pos.compare_cont].
  rewrite !byte_of_low by (vm_compute; intuition discriminate). rewrite !Z.div_div by (vm_compute; done).
  rewrite Z.div_1_r. reflexivity.
Qed.

(** ** The digest *)

Lemma init_rep buf : length buf = 64%nat -> ctx_rep (SHA1Init buf) [].
Proof. intros Hb. constructor; cbn; try done. constructor. Qed.

Lemma pad_split m : pad m =
  ((m ++ [128]) ++ replicate (Z.to_nat ((56 - Z.of_nat (length (m ++ [128]))) mod 64)) 0)
  ++ be_bytes 8 (8 * Z.of_nat (length m)).
Proof.
  unfold pad. rewrite length_app. cbn [length]. rewrite <- !app_assoc. cbn [app].
  replace (56 - Z.of_nat (length m + 1)) with (55 - Z.of_nat (length m)) by lia. reflexivity.
Qed.

Lemma be_bytes_ok n v : bytes_ok (be_bytes n v) /\ length (be_bytes n v) = n.
Proof.
  unfold be_bytes. split; [apply Forall_reverse, le_bytes_ok|]. now rewrite length_reverse, length_le_bytes.
Qed.

Lemma final_ok ctx m : ctx_rep ctx m -> SHA1Final ctx = Ret (sha1 m).
Proof.
  intros R. unfold SHA1Final. rewrite (finalcount_ok ctx m R).
  destruct (sha1_update_ok ctx m [128] R) as (c1 & -> & R1); [repeat constructor; unfold byte_ok; lia|cbn; lia|].
  cbn [mbind res_bind].
  pose proof (Z.mod_pos_bound (56 - Z.of_nat (length (m ++ [128]))) 64 ltac:(lia)).
  destruct (pad_loop_ok 65 c1 _ R1) as (c2 & -> & R2); [lia|]. cbn [mbind res_bind].
  destruct (be_bytes_ok 8 (8 * Z.of_nat (length m))) as [Hb Hl].
  destruct (sha1_update_ok c2 _ _ R2 Hb) as (c3 & -> & R3); [rewrite Hl; lia|]. cbn [mbind res_bind].
  rewrite <- pad_split in R3. rewrite (rep_state _ _ R3). unfold sha1, digest_of.
  destruct (hash_blocks _ H0 (pad m)) as [[[[a b] c] d] e]. f_equal.
  cbn [flat_map]. now rewrite <- !be_bytes_4.
Qed.

(** SHA1Update for each piece of a message in turn. *)
Fixpoint update_all (ctx : SHA1_CTX) (pieces : list (list Z)) : res SHA1_CTX :=
  match pieces with
  | [] => Ret ctx
  | p :: pieces => ctx ← SHA1Update ctx p; update_all ctx pieces
  end.

Lemma update_all_ok pieces : forall ctx m, ctx_rep ctx m ->
  Forall (fun p => bytes_ok p /\ Z.of_nat (length p) < 2 ^ 32 - 64) pieces ->
  exists ctx', update_all ctx pieces = Ret ctx' /\ ctx_rep ctx' (m ++ concat pieces).
Proof.
  induction pieces as [|p pieces IH]; intros ctx m R Hp.
  - exists ctx. cbn. now rewrite app_nil_r.
  - apply Forall_cons in Hp as [[Hb Hl] Hp]. cbn [update_all concat].
    destruct (sha1_update_ok ctx m p R Hb Hl) as (c1 & -> & R1). cbn [mbind res_bind].
    destruct (IH c1 _ R1 Hp) as (c2 & -> & R2). exists c2. now rewrite app_assoc.
Qed.

(** C35: SHA1Init, any number of SHA1Update calls and SHA1Final, on pieces
    each shorter than 2^32 - 64 bytes, stay in bounds and return the FIPS 180
    digest of the concatenation of the pieces.  (In longer pieces [i + 63] of
    SHA1Update wraps around.) *)
Theorem sha1_correct buf pieces : length buf = 64%nat ->
  Forall (fun p => bytes_ok p /\ Z.of_nat (length p) < 2 ^ 32 - 64) pieces ->
  exists ctx, update_all (SHA1Init buf) pieces = Ret ctx /\ SHA1Final ctx = Ret (sha1 (concat pieces)).
Proof.
  intros Hb Hp. destruct (update_all_ok pieces _ [] (init_rep buf Hb) Hp) as (ctx & E & R).
  exists ctx. split; [exact E|]. now apply final_ok.
Qed.

Lemma sha1_correct_witness :
  exists ctx, update_all (SHA1Init (replicate 64 255)) [bytes_of_string "a"; []; bytes_of_string "bc"] = Ret ctx /\
    SHA1Final ctx = Ret [0xA9; 0x99; 0x3E; 0x36; 0x47; 0x06; 0x81; 0x6A; 0xBA; 0x3E;
                         0x25; 0x71; 0x78; 0x50; 0xC2; 0x6C; 0x9C; 0xD0; 0xD8; 0x9D].
Proof.
  destruct (sha1_correct (replicate 64 255) [bytes_of_string "a"; []; bytes_of_string "bc"]) as (ctx & E & F).
  - reflexivity.
  - repeat constructor; unfold byte_ok; cbn; lia.
  - exists ctx. split; [exact E|]. rewrite F. vm_compute. reflexivity.
Defined.
