(* ===== verification/Ziplist.v ===== *)
(** * Ziplist: lists packed in one memory block (redis/src/ziplist.c)

    A ziplist is a block of bytes; pointers into it are offsets.  Every
    access goes through the bounds of the block, so that a definition that
    returns shows the code stays inside it.  The host is little-endian, the
    conversion macros are the identity.  [junk] is the value of the bytes
    zrealloc adds. *)

From S2P Require Import Prelude Util.

Definition ZIP_END : Z := 255.
Definition ZIP_BIGLEN : Z := 254.
Definition ZIP_STR_MASK : Z := 0xc0.
Definition ZIP_STR_06B : Z := 0x00.
Definition ZIP_STR_14B : Z := 0x40.
Definition ZIP_STR_32B : Z := 0x80.
Definition ZIP_INT_16B : Z := 0xc0.
Definition ZIP_INT_32B : Z := 0xd0.
Definition ZIP_INT_64B : Z := 0xe0.
Definition ZIP_INT_24B : Z := 0xf0.
Definition ZIP_INT_8B : Z := 0xfe.
Definition ZIP_INT_IMM_MASK : Z := 0x0f.
Definition ZIP_INT_IMM_MIN : Z := 0xf1.
Definition ZIP_INT_IMM_MAX : Z := 0xfd.
Definition INT24_MAX : Z := 0x7fffff.
Definition INT24_MIN : Z := - INT24_MAX - 1.

Definition ZIP_IS_STR (enc : Z) : bool := Z.land enc ZIP_STR_MASK <? ZIP_STR_MASK.

(** ** Header fields *)

Definition ZIPLIST_HEADER_SIZE : Z := 10.
Definition ZIPLIST_END_SIZE : Z := 1.

Definition get_le (zl : list Z) (off : Z) (n : nat) : res Z :=
  b ← memread zl off n; Ret (le_value b).

Definition ZIPLIST_BYTES (zl : list Z) : res Z := get_le zl 0 4.
Definition ZIPLIST_TAIL_OFFSET (zl : list Z) : res Z := get_le zl 4 4.
Definition ZIPLIST_LENGTH (zl : list Z) : res Z := get_le zl 8 2.
Definition set_BYTES (zl : list Z) (v : Z) : res (list Z) := memwrite zl 0 (le_bytes 4 v).
Definition set_TAIL_OFFSET (zl : list Z) (v : Z) : res (list Z) := memwrite zl 4 (le_bytes 4 v).
Definition set_LENGTH (zl : list Z) (v : Z) : res (list Z) := memwrite zl 8 (le_bytes 2 v).

Definition ZIPLIST_ENTRY_HEAD : Z := ZIPLIST_HEADER_SIZE.
Definition ZIPLIST_ENTRY_TAIL (zl : list Z) : res Z := ZIPLIST_TAIL_OFFSET zl.
Definition ZIPLIST_ENTRY_END (zl : list Z) : res Z := n ← ZIPLIST_BYTES zl; Ret (n - 1).

Definition ZIPLIST_INCR_LENGTH (zl : list Z) (incr : Z) : res (list Z) :=
  n ← ZIPLIST_LENGTH zl;
  if n <? UINT16_MAX then set_LENGTH zl (u16 (n + incr)) else Ret zl.

(** memmove inside the block. *)
Definition memmove (zl : list Z) (dst src n : Z) : res (list Z) :=
  if n <? 0 then Fault OutOfBounds
  else b ← memread zl src (Z.to_nat n); memwrite zl dst b.

(** ** Encoding of entries *)

Definition zipIntSize (encoding : Z) : Z :=
  if encoding =? ZIP_INT_8B then 1
  else if encoding =? ZIP_INT_16B then 2
  else if encoding =? ZIP_INT_24B then 3
  else if encoding =? ZIP_INT_32B then 4
  else if encoding =? ZIP_INT_64B then 8
  else 0.

Definition ZIP_ENTRY_ENCODING (zl : list Z) (ptr : Z) : res Z :=
  e ← rd zl ptr;
  Ret (if e <? ZIP_STR_MASK then Z.land e ZIP_STR_MASK else e).

(** The bytes [buf] that zipEncodeLength stores. *)
Definition length_buf (encoding rawlen : Z) : list Z :=
  if ZIP_IS_STR encoding then
    if rawlen <=? 0x3f then [u8 (Z.lor ZIP_STR_06B rawlen)]
    else if rawlen <=? 0x3fff then
      [Z.lor ZIP_STR_14B (Z.land (Z.shiftr rawlen 8) 0x3f); Z.land rawlen 0xff]
    else [ZIP_STR_32B; Z.land (Z.shiftr rawlen 24) 0xff; Z.land (Z.shiftr rawlen 16) 0xff;
          Z.land (Z.shiftr rawlen 8) 0xff; Z.land rawlen 0xff]
  else [encoding].

(** With [None] for a NULL [p] only the size is computed. *)
Definition zipEncodeLength (zl : list Z) (p : option Z) (encoding rawlen : Z) : res (list Z * Z) :=
  let buf := length_buf encoding rawlen in
  let len := Z.of_nat (length buf) in
  match p with
  | None => Ret (zl, len)
  | Some p => zl ← memwrite zl p buf; Ret (zl, len)
  end.

(** The encoding, [lensize] and [len]. *)
Definition ZIP_DECODE_LENGTH (zl : list Z) (ptr : Z) : res (Z * Z * Z) :=
  encoding ← ZIP_ENTRY_ENCODING zl ptr;
  if encoding <? ZIP_STR_MASK then
    if encoding =? ZIP_STR_06B then
      b0 ← rd zl ptr; Ret (encoding, 1, Z.land b0 0x3f)
    else if encoding =? ZIP_STR_14B then
      b0 ← rd zl ptr; b1 ← rd zl (ptr + 1);
      Ret (encoding, 2, Z.lor (Z.shiftl (Z.land b0 0x3f) 8) b1)
    else if encoding =? ZIP_STR_32B then
      b1 ← rd zl (ptr + 1); b2 ← rd zl (ptr + 2); b3 ← rd zl (ptr + 3); b4 ← rd zl (ptr + 4);
      Ret (encoding, 5,
        u32 (Z.lor (Z.lor (Z.lor (Z.shiftl b1 24) (Z.shiftl b2 16)) (Z.shiftl b3 8)) b4))
    else Fault AssertFailed
  else Ret (encoding, 1, zipIntSize encoding).

Definition zipPrevEncodeLength (zl : list Z) (p : option Z) (len : Z) : res (list Z * Z) :=
  match p with
  | None => Ret (zl, if len <? ZIP_BIGLEN then 1 else 5)
  | Some p =>
    if len <? ZIP_BIGLEN then zl ← wr zl p len; Ret (zl, 1)
    else zl ← wr zl p ZIP_BIGLEN; zl ← memwrite zl (p + 1) (le_bytes 4 len); Ret (zl, 5)
  end.

Definition zipPrevEncodeLengthForceLarge (zl : list Z) (p : Z) (len : Z) : res (list Z) :=
  zl ← wr zl p ZIP_BIGLEN;
  memwrite zl (p + 1) (le_bytes 4 len).

Definition ZIP_DECODE_PREVLENSIZE (zl : list Z) (ptr : Z) : res Z :=
  b ← rd zl ptr; Ret (if b <? ZIP_BIGLEN then 1 else 5).

(** [prevlensize] and [prevlen]. *)
Definition ZIP_DECODE_PREVLEN (zl : list Z) (ptr : Z) : res (Z * Z) :=
  prevlensize ← ZIP_DECODE_PREVLENSIZE zl ptr;
  if prevlensize =? 1 then b ← rd zl ptr; Ret (prevlensize, b)
  else prevlen ← get_le zl (ptr + 1) 4; Ret (prevlensize, prevlen).

Definition zipPrevLenByteDiff (zl : list Z) (p len : Z) : res Z :=
  prevlensize ← ZIP_DECODE_PREVLENSIZE zl p;
  '(_, n) ← zipPrevEncodeLength zl None len;
  Ret (i32 (u32 (n - prevlensize))).

Definition zipRawEntryLength (zl : list Z) (p : Z) : res Z :=
  prevlensize ← ZIP_DECODE_PREVLENSIZE zl p;
  '(_, lensize, len) ← ZIP_DECODE_LENGTH zl (p + prevlensize);
  Ret (u32 (prevlensize + lensize + len)).

(** The value and the encoding. *)
Definition zipTryEncoding (entry : list Z) : option (Z * Z) :=
  let entrylen := Z.of_nat (length entry) in
  if (32 <=? entrylen) || (entrylen =? 0) then None
  else
    match string2ll entry with
    | None => None
    | Some value =>
      let encoding :=
        if (0 <=? value) && (value <=? 12) then ZIP_INT_IMM_MIN + value
        else if (INT8_MIN <=? value) && (value <=? INT8_MAX) then ZIP_INT_8B
        else if (INT16_MIN <=? value) && (value <=? INT16_MAX) then ZIP_INT_16B
        else if (INT24_MIN <=? value) && (value <=? INT24_MAX) then ZIP_INT_24B
        else if (INT32_MIN <=? value) && (value <=? INT32_MAX) then ZIP_INT_32B
        else ZIP_INT_64B in
      Some (value, encoding)
    end.

Definition zipSaveInteger (zl : list Z) (p value encoding : Z) : res (list Z) :=
  if encoding =? ZIP_INT_8B then memwrite zl p (le_bytes 1 value)
  else if encoding =? ZIP_INT_16B then memwrite zl p (le_bytes 2 value)
  else if encoding =? ZIP_INT_24B then
    let i := i32 (Z.shiftl value 8) in
    memwrite zl p (drop 1 (le_bytes 4 i))
  else if encoding =? ZIP_INT_32B then memwrite zl p (le_bytes 4 value)
  else if encoding =? ZIP_INT_64B then memwrite zl p (le_bytes 8 value)
  else if (ZIP_INT_IMM_MIN <=? encoding) && (encoding <=? ZIP_INT_IMM_MAX) then Ret zl
  else Fault AssertFailed.

Definition zipLoadInteger (zl : list Z) (p encoding : Z) : res Z :=
  if encoding =? ZIP_INT_8B then b ← memread zl p 1; Ret (i8 (le_value b))
  else if encoding =? ZIP_INT_16B then b ← memread zl p 2; Ret (i16 (le_value b))
  else if encoding =? ZIP_INT_32B then b ← memread zl p 4; Ret (i32 (le_value b))
  else if encoding =? ZIP_INT_24B then
    b ← memread zl p 3;
    Ret (Z.shiftr (i32 (le_value (0 :: b))) 8)
  else if encoding =? ZIP_INT_64B then b ← memread zl p 8; Ret (i64 (le_value b))
  else if (ZIP_INT_IMM_MIN <=? encoding) && (encoding <=? ZIP_INT_IMM_MAX)
  then Ret (Z.land encoding ZIP_INT_IMM_MASK - 1)
  else Fault AssertFailed.

Record zlentry : Type := mk_zlentry {
  prevrawlensize : Z;
  prevrawlen : Z;
  lensize : Z;
  zlen : Z;
  headersize : Z;
  encoding : Z;
  zp : Z
}.

Definition zipEntry (zl : list Z) (p : Z) : res zlentry :=
  '(prevrawlensize, prevrawlen) ← ZIP_DECODE_PREVLEN zl p;
  '(enc, lensize, len) ← ZIP_DECODE_LENGTH zl (p + prevrawlensize);
  Ret (mk_zlentry prevrawlensize prevrawlen lensize len (prevrawlensize + lensize) enc p).

(** ** Updates *)

Section Code.
Context (junk : Z).

Definition ziplistNew : res (list Z) :=
  let bytes := ZIPLIST_HEADER_SIZE + 1 in
  let zl := replicate (Z.to_nat bytes) junk in
  zl ← set_BYTES zl bytes;
  zl ← set_TAIL_OFFSET zl ZIPLIST_HEADER_SIZE;
  zl ← set_LENGTH zl 0;
  wr zl (bytes - 1) ZIP_END.

Definition ziplistResize (zl : list Z) (len : Z) : res (list Z) :=
  let zl := realloc junk zl (Z.to_nat (u32 len)) in
  zl ← set_BYTES zl (u32 len);
  wr zl (u32 len - 1) ZIP_END.

(** while (p[0] != ZIP_END): one entry per turn, so the length of the block
    bounds the turns. *)
Fixpoint cascade_loop (fuel : nat) (zl : list Z) (p curlen : Z) : res (list Z) :=
  match fuel with
  | O => Fault OutOfFuel
  | S fuel =>
    b ← rd zl p;
    if b =? ZIP_END then Ret zl
    else
      cur ← zipEntry zl p;
      let rawlen := u32 (headersize cur + zlen cur) in
      '(_, rawlensize) ← zipPrevEncodeLength zl None rawlen;
      b ← rd zl (p + rawlen);
      if b =? ZIP_END then Ret zl
      else
        nxt ← zipEntry zl (p + rawlen);
        if prevrawlen nxt =? rawlen then Ret zl
        else if prevrawlensize nxt <? rawlensize then
          let extra := rawlensize - prevrawlensize nxt in
          zl ← ziplistResize zl (curlen + extra);
          let np := p + rawlen in
          tail ← ZIPLIST_TAIL_OFFSET zl;
          zl ← (if negb (tail =? np) then set_TAIL_OFFSET zl (u32 (tail + extra)) else Ret zl);
          zl ← memmove zl (np + rawlensize) (np + prevrawlensize nxt)
                 (curlen - np - prevrawlensize nxt - 1);
          '(zl, _) ← zipPrevEncodeLength zl (Some np) rawlen;
          cascade_loop fuel zl (p + rawlen) (curlen + extra)
        else if rawlensize <? prevrawlensize nxt then
          zipPrevEncodeLengthForceLarge zl (p + rawlen) rawlen
        else '(zl, _) ← zipPrevEncodeLength zl (Some (p + rawlen)) rawlen; Ret zl
  end.

Definition __ziplistCascadeUpdate (zl : list Z) (p : Z) : res (list Z) :=
  curlen ← ZIPLIST_BYTES zl;
  cascade_loop (length zl) zl p curlen.

(** for (i = 0; p[0] != ZIP_END && i < num; i++): the pointer after the
    entries and how many they are. *)
Fixpoint skip_entries (fuel : nat) (zl : list Z) (p i num : Z) : res (Z * Z) :=
  match fuel with
  | O => Fault OutOfFuel
  | S fuel =>
    b ← rd zl p;
    if (b =? ZIP_END) || (num <=? i) then Ret (p, i)
    else n ← zipRawEntryLength zl p; skip_entries fuel zl (p + n) (i + 1) num
  end.

Definition __ziplistDelete (zl : list Z) (p num : Z) : res (list Z) :=
  first ← zipEntry zl p;
  '(p, deleted) ← skip_entries (S (length zl)) zl p 0 num;
  let totlen := u32 (p - zp first) in
  if 0 <? totlen then
    b ← rd zl p;
    '(zl, nextdiff) ←
      (if negb (b =? ZIP_END) then
         nextdiff ← zipPrevLenByteDiff zl p (prevrawlen first);
         let p := p - nextdiff in
         '(zl, _) ← zipPrevEncodeLength zl (Some p) (prevrawlen first);
         t ← ZIPLIST_TAIL_OFFSET zl;
         zl ← set_TAIL_OFFSET zl (u32 (t - totlen));
         tail ← zipEntry zl p;
         b ← rd zl (p + headersize tail + zlen tail);
         zl ← (if negb (b =? ZIP_END)
               then t ← ZIPLIST_TAIL_OFFSET zl; set_TAIL_OFFSET zl (u32 (t + nextdiff))
               else Ret zl);
         n ← ZIPLIST_BYTES zl;
         zl ← memmove zl (zp first) p (n - p - 1);
         Ret (zl, nextdiff)
       else
         zl ← set_TAIL_OFFSET zl (u32 (zp first - prevrawlen first));
         Ret (zl, 0));
    let offset := zp first in
    n ← ZIPLIST_BYTES zl;
    zl ← ziplistResize zl (n - totlen + nextdiff);
    zl ← ZIPLIST_INCR_LENGTH zl (- deleted);
    if negb (nextdiff =? 0) then __ziplistCascadeUpdate zl offset else Ret zl
  else Ret zl.

Definition __ziplistInsert (zl : list Z) (p : Z) (s : list Z) : res (list Z) :=
  let slen := Z.of_nat (length s) in
  curlen ← ZIPLIST_BYTES zl;
  b ← rd zl p;
  prevlen ←
    (if negb (b =? ZIP_END) then '(_, prevlen) ← ZIP_DECODE_PREVLEN zl p; Ret prevlen
     else
       ptail ← ZIPLIST_ENTRY_TAIL zl;
       t ← rd zl ptail;
       if negb (t =? ZIP_END) then zipRawEntryLength zl ptail else Ret 0);
  let '(value, enc, reqlen) :=
    match zipTryEncoding s with
    | Some (value, enc) => (value, enc, zipIntSize enc)
    | None => (123456789, 0, slen)
    end in
  '(_, n) ← zipPrevEncodeLength zl None prevlen;
  let reqlen := reqlen + n in
  '(_, n) ← zipEncodeLength zl None enc slen;
  let reqlen := reqlen + n in
  nextdiff ← (if negb (b =? ZIP_END) then zipPrevLenByteDiff zl p reqlen else Ret 0);
  let offset := p in
  zl ← ziplistResize zl (curlen + reqlen + nextdiff);
  b ← rd zl p;
  zl ←
    (if negb (b =? ZIP_END) then
       zl ← memmove zl (p + reqlen) (p - nextdiff) (curlen - offset - 1 + nextdiff);
       '(zl, _) ← zipPrevEncodeLength zl (Some (p + reqlen)) reqlen;
       t ← ZIPLIST_TAIL_OFFSET zl;
       zl ← set_TAIL_OFFSET zl (u32 (t + reqlen));
       tail ← zipEntry zl (p + reqlen);
       b ← rd zl (p + reqlen + headersize tail + zlen tail);
       (if negb (b =? ZIP_END)
        then t ← ZIPLIST_TAIL_OFFSET zl; set_TAIL_OFFSET zl (u32 (t + nextdiff))
        else Ret zl)
     else set_TAIL_OFFSET zl (u32 p));
  zl ← (if negb (nextdiff =? 0) then __ziplistCascadeUpdate zl (p + reqlen) else Ret zl);
  '(zl, n) ← zipPrevEncodeLength zl (Some p) prevlen;
  let p := p + n in
  '(zl, n) ← zipEncodeLength zl (Some p) enc slen;
  let p := p + n in
  zl ← (if ZIP_IS_STR enc then memwrite zl p s else zipSaveInteger zl p value enc);
  ZIPLIST_INCR_LENGTH zl 1.

Inductive where_ : Type := ZIPLIST_HEAD | ZIPLIST_TAIL.

Definition ziplistPush (zl : list Z) (s : list Z) (w : where_) : res (list Z) :=
  p ← (match w with ZIPLIST_HEAD => Ret ZIPLIST_ENTRY_HEAD | ZIPLIST_TAIL => ZIPLIST_ENTRY_END zl end);
  __ziplistInsert zl p s.

Definition ziplistInsert (zl : list Z) (p : Z) (s : list Z) : res (list Z) := __ziplistInsert zl p s.

(** The offset of [*p] stays the same. *)
Definition ziplistDelete (zl : list Z) (p : Z) : res (list Z * Z) :=
  let offset := p in
  zl ← __ziplistDelete zl p 1;
  Ret (zl, offset).

(** [None] is a NULL list; [same] tells whether the two pointers are equal.
    The return value and what [*first] and [*second] become. *)
Definition ziplistMerge (first second : option (list Z)) (same : bool) :
  res (option (list Z) * option (list Z) * option (list Z)) :=
  match first, second with
  | Some first, Some second =>
    if same then Ret (None, Some first, Some second)
    else
      first_bytes ← ZIPLIST_BYTES first;
      first_len ← ZIPLIST_LENGTH first;
      second_bytes ← ZIPLIST_BYTES second;
      second_len ← ZIPLIST_LENGTH second;
      let append := second_len <=? first_len in
      let '(target, target_bytes, source, source_bytes) :=
        if append then (first, first_bytes, second, second_bytes)
        else (second, second_bytes, first, first_bytes) in
      let zlbytes := first_bytes + second_bytes - ZIPLIST_HEADER_SIZE - ZIPLIST_END_SIZE in
      let zllength := first_len + second_len in
      let zllength := if zllength <? UINT16_MAX then zllength else UINT16_MAX in
      first_offset ← ZIPLIST_TAIL_OFFSET first;
      second_offset ← ZIPLIST_TAIL_OFFSET second;
      let target := realloc junk target (Z.to_nat zlbytes) in
      target ←
        (if append then
           b ← memread source ZIPLIST_HEADER_SIZE (Z.to_nat (source_bytes - ZIPLIST_HEADER_SIZE));
           memwrite target (target_bytes - ZIPLIST_END_SIZE) b
         else
           target ← memmove target (source_bytes - ZIPLIST_END_SIZE) ZIPLIST_HEADER_SIZE
                      (target_bytes - ZIPLIST_HEADER_SIZE);
           b ← memread source 0 (Z.to_nat (source_bytes - ZIPLIST_END_SIZE));
           memwrite target 0 b);
      target ← set_BYTES target (u32 zlbytes);
      target ← set_LENGTH target (u16 zllength);
      target ← set_TAIL_OFFSET target
        (u32 ((first_bytes - ZIPLIST_END_SIZE) + (second_offset - ZIPLIST_HEADER_SIZE)));
      target ← __ziplistCascadeUpdate target first_offset;
      Ret (if append then (Some target, Some target, None) else (Some target, None, Some target))
  | _, _ => Ret (None, first, second)
  end.
End Code.

(** ** Navigation and queries *)

(** while (prevlen > 0 && index--) *)
Fixpoint index_back (fuel : nat) (zl : list Z) (p prevlen index : Z) : res (Z * Z) :=
  match fuel with
  | O => Fault OutOfFuel
  | S fuel =>
    if 0 <? prevlen then
      if index =? 0 then Ret (p, index - 1)
      else
        let p := p - prevlen in
        '(_, prevlen) ← ZIP_DECODE_PREVLEN zl p;
        index_back fuel zl p prevlen (index - 1)
    else Ret (p, index)
  end.

(** while (p[0] != ZIP_END && index--) *)
Fixpoint index_forward (fuel : nat) (zl : list Z) (p index : Z) : res (Z * Z) :=
  match fuel with
  | O => Fault OutOfFuel
  | S fuel =>
    b ← rd zl p;
    if negb (b =? ZIP_END) then
      if index =? 0 then Ret (p, index - 1)
      else n ← zipRawEntryLength zl p; index_forward fuel zl (p + n) (index - 1)
    else Ret (p, index)
  end.

Definition ziplistIndex (zl : list Z) (index : Z) : res (option Z) :=
  '(p, index) ←
    (if index <? 0 then
       let index := i32 (i32 (- index) - 1) in
       p ← ZIPLIST_ENTRY_TAIL zl;
       b ← rd zl p;
       if negb (b =? ZIP_END)
       then '(_, prevlen) ← ZIP_DECODE_PREVLEN zl p; index_back (length zl) zl p prevlen index
       else Ret (p, index)
     else index_forward (length zl) zl ZIPLIST_ENTRY_HEAD index);
  b ← rd zl p;
  Ret (if (b =? ZIP_END) || (0 <? index) then None else Some p).

Definition ziplistNext (zl : list Z) (p : Z) : res (option Z) :=
  b ← rd zl p;
  if b =? ZIP_END then Ret None
  else
    n ← zipRawEntryLength zl p;
    let p := p + n in
    b ← rd zl p;
    Ret (if b =? ZIP_END then None else Some p).

Definition ziplistPrev (zl : list Z) (p : Z) : res (option Z) :=
  b ← rd zl p;
  if b =? ZIP_END then
    p ← ZIPLIST_ENTRY_TAIL zl;
    b ← rd zl p;
    Ret (if b =? ZIP_END then None else Some p)
  else if p =? ZIPLIST_ENTRY_HEAD then Ret None
  else
    '(_, prevlen) ← ZIP_DECODE_PREVLEN zl p;
    if 0 <? prevlen then Ret (Some (p - prevlen)) else Fault AssertFailed.

(** What ziplistGet stores: a string or an integer. *)
Inductive zvalue : Type := ZStr (s : list Z) | ZInt (v : Z).

Definition ziplistGet (zl : list Z) (p : option Z) : res (option zvalue) :=
  match p with
  | None => Ret None
  | Some p =>
    b ← rd zl p;
    if b =? ZIP_END then Ret None
    else
      entry ← zipEntry zl p;
      if ZIP_IS_STR (encoding entry)
      then s ← memread zl (p + headersize entry) (Z.to_nat (zlen entry)); Ret (Some (ZStr s))
      else v ← zipLoadInteger zl (p + headersize entry) (encoding entry); Ret (Some (ZInt v))
  end.

Definition ziplistDeleteRange (junk : Z) (zl : list Z) (index num : Z) : res (list Z) :=
  p ← ziplistIndex zl index;
  match p with None => Ret zl | Some p => __ziplistDelete junk zl p num end.

Definition ziplistCompare (zl : list Z) (p : Z) (sstr : list Z) : res bool :=
  b ← rd zl p;
  if b =? ZIP_END then Ret false
  else
    entry ← zipEntry zl p;
    if ZIP_IS_STR (encoding entry) then
      if zlen entry =? Z.of_nat (length sstr) then
        s ← memread zl (p + headersize entry) (length sstr); Ret (bool_decide (s = sstr))
      else Ret false
    else
      match zipTryEncoding sstr with
      | Some (sval, _) =>
        zval ← zipLoadInteger zl (p + headersize entry) (encoding entry); Ret (zval =? sval)
      | None => Ret false
      end.

(** [vcache] is the state of [vencoding] and [vll]: not yet tried, or the
    result of zipTryEncoding. *)
Fixpoint find_loop (fuel : nat) (zl : list Z) (p : Z) (vstr : list Z) (skip skipcnt : Z)
  (vcache : option (option Z)) : res (option Z) :=
  match fuel with
  | O => Fault OutOfFuel
  | S fuel =>
    b ← rd zl p;
    if b =? ZIP_END then Ret None
    else
      prevlensize ← ZIP_DECODE_PREVLENSIZE zl p;
      '(enc, lensize, len) ← ZIP_DECODE_LENGTH zl (p + prevlensize);
      let q := p + prevlensize + lensize in
      if skipcnt =? 0 then
        '(found, vcache) ←
          (if ZIP_IS_STR enc then
             if len =? Z.of_nat (length vstr)
             then s ← memread zl q (length vstr); Ret (bool_decide (s = vstr), vcache)
             else Ret (false, vcache)
           else
             let v := match vcache with
                      | Some v => v
                      | None => fst <$> zipTryEncoding vstr
                      end in
             match v with
             | Some vll => ll ← zipLoadInteger zl q enc; Ret (ll =? vll, Some v)
             | None => Ret (false, Some v)
             end);
        if found : bool then Ret (Some p)
        else find_loop fuel zl (q + len) vstr skip skip vcache
      else find_loop fuel zl (q + len) vstr skip (skipcnt - 1) vcache
  end.

Definition ziplistFind (zl : list Z) (p : Z) (vstr : list Z) (skip : Z) : res (option Z) :=
  find_loop (length zl) zl p vstr skip 0 None.

(** while (p[0] != ZIP_END) *)
Fixpoint count_entries (fuel : nat) (zl : list Z) (p len : Z) : res Z :=
  match fuel with
  | O => Fault OutOfFuel
  | S fuel =>
    b ← rd zl p;
    if b =? ZIP_END then Ret len
    else n ← zipRawEntryLength zl p; count_entries fuel zl (p + n) (u32 (len + 1))
  end.

(** The length, and the block with the length stored again if it fits. *)
Definition ziplistLen (zl : list Z) : res (Z * list Z) :=
  n ← ZIPLIST_LENGTH zl;
  if n <? UINT16_MAX then Ret (n, zl)
  else
    len ← count_entries (length zl) zl ZIPLIST_HEADER_SIZE 0;
    zl ← (if len <? UINT16_MAX then set_LENGTH zl (u16 len) else Ret zl);
    Ret (len, zl).

Definition ziplistBlobLen (zl : list Z) : res Z := ZIPLIST_BYTES zl.
