(* ===== verification/ZiplistProofs.v ===== *)
(** * ZiplistProofs: what the bytes of a ziplist mean

    The logical entries of a ziplist and their byte image; every decoding
    macro and routine of ziplist.c reads the image back, and the
    navigation and query functions are those of a list of strings. *)

From S2P Require Import Prelude Util Ziplist.

(** ** Logical entries *)

(** An integer entry has its encoding; a string entry is one that could
    not be encoded. *)
Inductive content : Type :=
  | CStr (s : list Z)
  | CInt (enc v : Z).

(** [e_large]: the length of the previous entry is kept in five bytes even
    if it is small. *)
Record zent : Type := mk_zent { e_large : bool; e_val : content }.

Definition int_ok (enc v : Z) : Prop :=
  (ZIP_INT_IMM_MIN <= enc <= ZIP_INT_IMM_MAX /\ v = enc - ZIP_INT_IMM_MIN) \/
  (enc = ZIP_INT_8B /\ in_s 8 v) \/ (enc = ZIP_INT_16B /\ in_s 16 v) \/
  (enc = ZIP_INT_24B /\ in_s 24 v) \/ (enc = ZIP_INT_32B /\ in_s 32 v) \/
  (enc = ZIP_INT_64B /\ in_s 64 v).

Definition content_ok (c : content) : Prop :=
  match c with
  | CStr s => bytes_ok s /\ Z.of_nat (length s) < 2 ^ 32 /\ zipTryEncoding s = None
  | CInt enc v => int_ok enc v
  end.

(** The string an entry stands for. *)
Definition text (c : content) : list Z :=
  match c with CStr s => s | CInt _ v => decimal v end.

(** ** Byte images *)

Definition int_image (enc v : Z) : list Z := le_bytes (Z.to_nat (zipIntSize enc)) v.

Definition content_enc (c : content) : Z :=
  match c with
  | CStr s => if Z.of_nat (length s) <=? 0x3f then ZIP_STR_06B
              else if Z.of_nat (length s) <=? 0x3fff then ZIP_STR_14B else ZIP_STR_32B
  | CInt enc _ => enc
  end.
Definition content_head (c : content) : list Z :=
  match c with CStr s => length_buf 0 (Z.of_nat (length s)) | CInt enc _ => [enc] end.
Definition content_body (c : content) : list Z :=
  match c with CStr s => s | CInt enc v => int_image enc v end.
Definition content_image (c : content) : list Z := content_head c ++ content_body c.

Definition prev_image (large : bool) (n : Z) : list Z :=
  if large || (ZIP_BIGLEN <=? n) then ZIP_BIGLEN :: le_bytes 4 n else [n].

Definition entry_image (prev : Z) (e : zent) : list Z :=
  prev_image (e_large e) prev ++ content_image (e_val e).

(** ** Elementary facts *)

Lemma length_prev_image large n :
  Z.of_nat (length (prev_image large n)) = if large || (ZIP_BIGLEN <=? n) then 5 else 1.
Proof. unfold prev_image. destruct (_ || _); [|done]. cbn [length]. rewrite length_le_bytes. done. Qed.

Lemma int_size_nonneg enc : 0 <= zipIntSize enc <= 8.
Proof. unfold zipIntSize. repeat zif; lia. Qed.

Lemma length_int_image enc v : Z.of_nat (length (int_image enc v)) = zipIntSize enc.
Proof. unfold int_image. rewrite length_le_bytes. pose proof (int_size_nonneg enc). lia. Qed.

Lemma memread_mid pre b post p n : p = Z.of_nat (length pre) -> n = length b ->
  memread (pre ++ b ++ post) p n = Ret b.
Proof.
  intros -> ->. rewrite memread_ok by (rewrite !length_app; lia). f_equal. apply slice_app_mid.
Qed.

Lemma get_le_mid pre b post p n : p = Z.of_nat (length pre) -> n = length b ->
  get_le (pre ++ b ++ post) p n = Ret (le_value b).
Proof. intros Hp Hn. unfold get_le. rewrite (memread_mid pre b post) by done. done. Qed.

Lemma rd_mid pre x post p : p = Z.of_nat (length pre) -> rd (pre ++ x :: post) p = Ret x.
Proof. apply rd_at. Qed.

(** Reading the byte at a distance inside a piece. *)
Lemma rd_in pre b post p k x : p = Z.of_nat (length pre) + Z.of_nat k -> b !! k = Some x ->
  rd (pre ++ b ++ post) p = Ret x.
Proof.
  intros -> Hk. unfold rd. zif; [lia|].
  replace (Z.to_nat (Z.of_nat (length pre) + Z.of_nat k)) with (length pre + k)%nat by lia.
  rewrite lookup_app_r by lia. replace (length pre + k - length pre)%nat with k by lia.
  rewrite lookup_app_l by (eapply lookup_lt_Some; eauto). now rewrite Hk.
Qed.

(** ** Decoding the length of the previous entry *)

Lemma decode_prevlensize pre large n post p : p = Z.of_nat (length pre) -> 0 <= n ->
  ZIP_DECODE_PREVLENSIZE (pre ++ prev_image large n ++ post) p =
  Ret (Z.of_nat (length (prev_image large n))).
Proof.
  intros Hp Hn. unfold ZIP_DECODE_PREVLENSIZE. rewrite length_prev_image. unfold prev_image.
  destruct (large || (ZIP_BIGLEN <=? n)) eqn:E.
  - cbn [app]. rewrite rd_mid by done. reflexivity.
  - apply orb_false_iff in E as [_ E]. cbn [app]. rewrite rd_mid by done. cbn [mbind res_bind].
    unfold ZIP_BIGLEN in *. zif; [done|lia].
Qed.

Lemma decode_prevlen pre large n post p : p = Z.of_nat (length pre) -> 0 <= n < 2 ^ 32 ->
  ZIP_DECODE_PREVLEN (pre ++ prev_image large n ++ post) p =
  Ret (Z.of_nat (length (prev_image large n)), n).
Proof.
  intros Hp Hn. unfold ZIP_DECODE_PREVLEN. rewrite decode_prevlensize by (done || lia).
  cbn [mbind res_bind]. rewrite length_prev_image. unfold prev_image.
  destruct (large || (ZIP_BIGLEN <=? n)) eqn:E.
  - change (5 =? 1) with false. cbn iota. cbn [app].
    rewrite (app_assoc pre [ZIP_BIGLEN] (le_bytes 4 n ++ post) : pre ++ ZIP_BIGLEN :: _ = _).
    rewrite get_le_mid; [|rewrite length_app; cbn; lia|now rewrite length_le_bytes].
    cbn [mbind res_bind]. rewrite le_value_bytes, uwrap_id by (unfold in_u; exact Hn). done.
  - change (1 =? 1) with true. cbn iota. cbn [app]. rewrite rd_mid by done. done.
Qed.

(** ** Decoding the encoding and the length *)

Lemma land_63 v : Z.land v 0x3f = v mod 64.
Proof. change 0x3f with (2 ^ 6 - 1). now rewrite land_mask. Qed.
(** The two high bits of a byte. *)
Lemma land_c0 b : 0 <= b < 256 -> Z.land b 0xc0 = b / 64 * 64.
Proof.
  intros Hb. assert (Z.land b (Z.lnot (2 ^ 6 - 1)) = b / 2 ^ 6 * 2 ^ 6) as H by (apply land_unmask; lia).
  change (2 ^ 6) with 64 in H. rewrite <- H. apply Z.bits_inj'. intros i Hi.
  rewrite !Z.land_spec. destruct (Z.lt_ge_cases i 8).
  - assert (i = 0 \/ i = 1 \/ i = 2 \/ i = 3 \/ i = 4 \/ i = 5 \/ i = 6 \/ i = 7) as Hc by lia.
    repeat destruct Hc as [->|Hc]; [..|subst i]; reflexivity.
  - rewrite <- (Z.mod_small b (2 ^ 8)), Z.mod_pow2_bits_high by lia. done.
Qed.

Lemma lor_fields a b n : 0 <= n -> 0 <= b < 2 ^ n -> Z.lor (Z.shiftl a n) b = a * 2 ^ n + b.
Proof. intros Hn Hb. rewrite Z.shiftl_mul_pow2 by done. now apply lor_add. Qed.

Definition lensize_of (c : content) : Z := Z.of_nat (length (content_head c)).
Definition len_of (c : content) : Z := Z.of_nat (length (content_body c)).

Lemma length_buf_str n : 0 <= n -> length_buf 0 n =
  if n <=? 0x3f then [n]
  else if n <=? 0x3fff then [64 + n / 256 mod 64; n mod 256]
  else [128; n / 2 ^ 24 mod 256; n / 2 ^ 16 mod 256; n / 2 ^ 8 mod 256; n mod 256].
Proof.
  intros Hn. unfold length_buf. change (ZIP_IS_STR 0) with true. cbn iota.
  unfold ZIP_STR_06B, ZIP_STR_14B, ZIP_STR_32B. zif.
  - rewrite Z.lor_0_l, uwrap_id by (unfold in_u; lia). done.
  - zif; [|now rewrite !land_255, !Z.shiftr_div_pow2 by lia].
    rewrite land_63, land_255, Z.shiftr_div_pow2 by lia. change (2 ^ 8) with 256.
    change 64 with (1 * 2 ^ 6) at 1. rewrite (lor_add 6 1); [done|lia|apply Z.mod_pos_bound; lia].
Qed.

Lemma int_enc_range enc v : int_ok enc v -> ZIP_STR_MASK <= enc <= 254.
Proof.
  unfold int_ok, ZIP_INT_IMM_MIN, ZIP_INT_IMM_MAX, ZIP_INT_8B, ZIP_INT_16B, ZIP_INT_24B, ZIP_INT_32B,
    ZIP_INT_64B, ZIP_STR_MASK. lia.
Qed.

Lemma decode_length pre c post p : content_ok c -> p = Z.of_nat (length pre) ->
  ZIP_DECODE_LENGTH (pre ++ content_image c ++ post) p = Ret (content_enc c, lensize_of c, len_of c).
Proof.
  intros Hc Hp. unfold ZIP_DECODE_LENGTH, ZIP_ENTRY_ENCODING, content_image. rewrite <- app_assoc.
  destruct c as [s|enc v].
  - destruct Hc as (_ & Hl & _). unfold lensize_of, len_of. cbn [content_head content_body content_enc].
    rewrite length_buf_str by lia. set (n := Z.of_nat (length s)) in *.
    unfold ZIP_STR_MASK, ZIP_STR_06B, ZIP_STR_14B, ZIP_STR_32B.
    destruct (Z.leb_spec n 0x3f); [|destruct (Z.leb_spec n 0x3fff)].
    + cbn [app]. rewrite rd_mid by done. cbn [mbind res_bind].
      destruct (Z.ltb_spec n 0xc0); [|lia]. rewrite land_c0, (Z.div_small n 64) by lia. cbn iota.
      change (0 * 64) with 0. cbn [Z.ltb Z.eqb Z.compare]. rewrite land_63, Z.mod_small by lia. done.
    + set (q := n / 256 mod 64). pose proof (Z.mod_pos_bound (n / 256) 64 ltac:(lia)) as Hq. fold q in Hq.
      pose proof (Z.mod_pos_bound n 256 ltac:(lia)).
      rewrite (rd_in pre [64 + q; n mod 256] (s ++ post) p 0 (64 + q)) by (done || lia).
      rewrite (rd_in pre [64 + q; n mod 256] (s ++ post) (p + 1) 1 (n mod 256)) by (done || lia).
      cbn [mbind res_bind]. destruct (Z.ltb_spec (64 + q) 0xc0); [|lia].
      assert ((64 + q) / 64 = 1) as Hd by (symmetry; apply Z.div_unique_pos with q; lia).
      rewrite land_c0, Hd by lia. cbn [Z.mul Z.ltb Z.eqb Z.compare Pos.compare Pos.compare_cont Pos.eqb].
      assert ((64 + q) mod 64 = q) as Hm by (symmetry; apply Z.mod_unique_pos with 1; lia).
      rewrite land_63, Hm, lor_fields by lia. do 2 f_equal. change (2 ^ 8) with 256.
      unfold q. rewrite (Z.mod_small (n / 256)).
      * pose proof (Z.div_mod n 256). lia.
      * split; [apply Z.div_pos; lia|apply Z.div_lt_upper_bound; lia].
    + set (b1 := n / 2 ^ 24 mod 256). set (b2 := n / 2 ^ 16 mod 256). set (b3 := n / 2 ^ 8 mod 256).
      set (b4 := n mod 256).
      rewrite (rd_in pre [128; b1; b2; b3; b4] (s ++ post) p 0 128) by (done || lia).
      rewrite (rd_in pre [128; b1; b2; b3; b4] (s ++ post) (p + 1) 1 b1) by (done || lia).
      rewrite (rd_in pre [128; b1; b2; b3; b4] (s ++ post) (p + 2) 2 b2) by (done || lia).
      rewrite (rd_in pre [128; b1; b2; b3; b4] (s ++ post) (p + 3) 3 b3) by (done || lia).
      rewrite (rd_in pre [128; b1; b2; b3; b4] (s ++ post) (p + 4) 4 b4) by (done || lia).
      cbn [mbind res_bind]. change (Z.land 128 0xc0) with 128.
      cbn [Z.ltb Z.eqb Z.compare Pos.compare Pos.compare_cont Pos.eqb].
      assert (0 <= b1 < 256 /\ 0 <= b2 < 256 /\ 0 <= b3 < 256 /\ 0 <= b4 < 256) as (? & ? & ? & ?)
        by (split_and!; apply Z.mod_pos_bound; lia).
      assert (Z.lor (Z.lor (Z.lor (Z.shiftl b1 24) (Z.shiftl b2 16)) (Z.shiftl b3 8)) b4 = n) as ->.
      { rewrite !Z.shiftl_mul_pow2 by lia.
        rewrite (lor_add 24 b1 (b2 * 2 ^ 16)) by lia.
        replace (b1 * 2 ^ 24 + b2 * 2 ^ 16) with ((b1 * 2 ^ 8 + b2) * 2 ^ 16) by lia.
        rewrite (lor_add 16 _ (b3 * 2 ^ 8)) by lia.
        replace ((b1 * 2 ^ 8 + b2) * 2 ^ 16 + b3 * 2 ^ 8) with (((b1 * 2 ^ 8 + b2) * 2 ^ 8 + b3) * 2 ^ 8) by lia.
        rewrite lor_add by lia. unfold b1, b2, b3, b4. change (2 ^ 24) with (2 ^ 8 * (2 ^ 8 * 2 ^ 8)).
        change (2 ^ 16) with (2 ^ 8 * 2 ^ 8). rewrite <- !Z.div_div by lia. change (2 ^ 8) with 256.
        rewrite (Z.mod_small (n / 256 / 256 / 256)).
        - pose proof (Z.div_mod n 256). pose proof (Z.div_mod (n / 256) 256).
          pose proof (Z.div_mod (n / 256 / 256) 256). lia.
        - split; [repeat apply Z.div_pos; lia|]. rewrite !Z.div_div by lia.
          apply Z.div_lt_upper_bound; lia. }
      rewrite uwrap_id by (unfold in_u; lia). done.
  - pose proof (int_enc_range enc v Hc) as He. cbn [content_head content_body content_enc app].
    rewrite rd_mid by done. cbn [mbind res_bind].
    destruct (Z.ltb_spec enc ZIP_STR_MASK); [lia|]. cbn iota.
    destruct (Z.ltb_spec enc ZIP_STR_MASK); [lia|].
    unfold lensize_of, len_of. cbn [content_head content_body length].
    now rewrite length_int_image.
Qed.

(** ** Entries *)

Definition raw_len (prev : Z) (e : zent) : Z := Z.of_nat (length (entry_image prev e)).

Lemma raw_len_parts prev e : raw_len prev e =
  Z.of_nat (length (prev_image (e_large e) prev)) + lensize_of (e_val e) + len_of (e_val e).
Proof.
  unfold raw_len, entry_image, content_image, lensize_of, len_of. rewrite !length_app. lia.
Qed.

Lemma lensize_pos c : content_ok c -> 1 <= lensize_of c <= 5.
Proof.
  unfold lensize_of. destruct c as [s|]; cbn [content_head]; [|cbn; lia].
  intros _. rewrite length_buf_str by lia. repeat zif; cbn; lia.
Qed.

Lemma raw_len_pos prev e : content_ok (e_val e) -> 2 <= raw_len prev e.
Proof.
  intros Hc. rewrite raw_len_parts, length_prev_image. pose proof (lensize_pos _ Hc).
  unfold len_of. destruct (_ || _); lia.
Qed.

Definition decoded (prev : Z) (e : zent) (p : Z) : zlentry :=
  let ps := Z.of_nat (length (prev_image (e_large e) prev)) in
  mk_zlentry ps prev (lensize_of (e_val e)) (len_of (e_val e)) (ps + lensize_of (e_val e))
    (content_enc (e_val e)) p.

Lemma zipEntry_ok pre prev e post p : content_ok (e_val e) -> p = Z.of_nat (length pre) ->
  0 <= prev < 2 ^ 32 -> zipEntry (pre ++ entry_image prev e ++ post) p = Ret (decoded prev e p).
Proof.
  intros Hc Hp Hprev. unfold zipEntry, entry_image. rewrite <- app_assoc.
  rewrite decode_prevlen by done. cbn [mbind res_bind]. rewrite app_assoc.
  rewrite decode_length; [done|done|rewrite length_app; lia].
Qed.

Lemma zipRawEntryLength_ok pre prev e post p : content_ok (e_val e) -> p = Z.of_nat (length pre) ->
  0 <= prev -> raw_len prev e < 2 ^ 32 ->
  zipRawEntryLength (pre ++ entry_image prev e ++ post) p = Ret (raw_len prev e).
Proof.
  intros Hc Hp Hprev Hr. unfold zipRawEntryLength, entry_image. rewrite <- app_assoc.
  rewrite decode_prevlensize by done. cbn [mbind res_bind]. rewrite app_assoc.
  rewrite decode_length; [|done|rewrite length_app; lia]. cbn [mbind res_bind].
  rewrite <- raw_len_parts, uwrap_id; [done|]. pose proof (raw_len_pos prev e Hc). unfold in_u. lia.
Qed.

(** The first byte of an entry is not the end marker. *)
Lemma entry_not_end pre prev e post p : p = Z.of_nat (length pre) -> 0 <= prev ->
  exists b, rd (pre ++ entry_image prev e ++ post) p = Ret b /\ (b =? ZIP_END) = false.
Proof.
  intros Hp Hprev. unfold entry_image, prev_image. destruct (_ || _) eqn:E.
  - exists ZIP_BIGLEN. cbn [app]. now rewrite rd_mid by done.
  - exists prev. cbn [app]. rewrite rd_mid by done. split; [done|].
    apply orb_false_iff in E as [_ E]. unfold ZIP_BIGLEN, ZIP_END in *. apply Z.eqb_neq. lia.
Qed.

(** ** Integers *)

Lemma shift8_i32 v : in_s 24 v -> i32 (256 * uwrap 24 v) = 256 * v.
Proof.
  intros Hv. unfold in_s in Hv. replace (256 * uwrap 24 v) with (uwrap 32 (256 * v)).
  - rewrite swrap_uwrap by lia. apply swrap_id; [lia|]. unfold in_s. lia.
  - unfold uwrap. change (2 ^ 32) with (256 * 2 ^ 24). now rewrite Z.mul_mod_distr_l by lia.
Qed.

Lemma load_int pre enc v post p : int_ok enc v -> p = Z.of_nat (length pre) ->
  zipLoadInteger (pre ++ int_image enc v ++ post) p enc = Ret v.
Proof.
  intros Hok Hp. unfold zipLoadInteger, int_image.
  assert (forall n, memread (pre ++ le_bytes n v ++ post) p n = Ret (le_bytes n v)) as Hrd.
  { intros n. apply memread_mid; [done|now rewrite length_le_bytes]. }
  destruct Hok as [[He ->]|[[-> Hv]|[[-> Hv]|[[-> Hv]|[[-> Hv]|[-> Hv]]]]]].
  - unfold zipIntSize, ZIP_INT_IMM_MIN, ZIP_INT_IMM_MAX, ZIP_INT_8B, ZIP_INT_16B, ZIP_INT_24B, ZIP_INT_32B,
      ZIP_INT_64B, ZIP_INT_IMM_MASK in *.
    repeat (zif; [lia|]). destruct (Z.leb_spec 0xf1 enc); [|lia]. destruct (Z.leb_spec enc 0xfd); [|lia].
    cbn [andb]. f_equal. change 0x0f with (2 ^ 4 - 1). rewrite land_mask by lia.
    assert (enc mod 2 ^ 4 = enc - 240); [|lia]. symmetry. apply Z.mod_unique_pos with 15; lia.
  - change (Z.to_nat (zipIntSize ZIP_INT_8B)) with 1%nat. cbn [Z.eqb ZIP_INT_8B Pos.eqb].
    rewrite Hrd. cbn [mbind res_bind]. rewrite le_value_bytes, swrap_uwrap, swrap_id by (done || lia). done.
  - change (Z.to_nat (zipIntSize ZIP_INT_16B)) with 2%nat. cbn [Z.eqb ZIP_INT_8B ZIP_INT_16B Pos.eqb].
    rewrite Hrd. cbn [mbind res_bind]. rewrite le_value_bytes, swrap_uwrap, swrap_id by (done || lia). done.
  - change (Z.to_nat (zipIntSize ZIP_INT_24B)) with 3%nat.
    cbn [Z.eqb ZIP_INT_8B ZIP_INT_16B ZIP_INT_32B ZIP_INT_24B Pos.eqb].
    rewrite Hrd. cbn [mbind res_bind le_value]. rewrite Z.add_0_l.
    change (le_bytes 3 v) with (le_bytes 3 v). rewrite le_value_bytes.
    change (8 * Z.of_nat 3) with 24. rewrite shift8_i32 by done.
    rewrite Z.shiftr_div_pow2 by lia. change (2 ^ 8) with 256. rewrite Z.mul_comm, Z.div_mul by lia. done.
  - change (Z.to_nat (zipIntSize ZIP_INT_32B)) with 4%nat. cbn [Z.eqb ZIP_INT_8B ZIP_INT_16B ZIP_INT_32B Pos.eqb].
    rewrite Hrd. cbn [mbind res_bind]. rewrite le_value_bytes, swrap_uwrap, swrap_id by (done || lia). done.
  - change (Z.to_nat (zipIntSize ZIP_INT_64B)) with 8%nat.
    cbn [Z.eqb ZIP_INT_8B ZIP_INT_16B ZIP_INT_32B ZIP_INT_24B ZIP_INT_64B Pos.eqb].
    rewrite Hrd. cbn [mbind res_bind]. rewrite le_value_bytes, swrap_uwrap, swrap_id by (done || lia). done.
Qed.

Lemma save_int pre hole enc v post p : int_ok enc v -> p = Z.of_nat (length pre) ->
  Z.of_nat (length hole) = zipIntSize enc ->
  zipSaveInteger (pre ++ hole ++ post) p v enc = Ret (pre ++ int_image enc v ++ post).
Proof.
  intros Hok Hp Hh. unfold zipSaveInteger, int_image.
  assert (forall b, length b = length hole -> memwrite (pre ++ hole ++ post) p b = Ret (pre ++ b ++ post)) as Hwr.
  { intros b Hb. rewrite Hp, memwrite_ok by (rewrite !length_app; lia). f_equal. now apply blit_app_mid. }
  destruct Hok as [[He ->]|[[-> Hv]|[[-> Hv]|[[-> Hv]|[[-> Hv]|[-> Hv]]]]]].
  - unfold zipIntSize, ZIP_INT_IMM_MIN, ZIP_INT_IMM_MAX, ZIP_INT_8B, ZIP_INT_16B, ZIP_INT_24B, ZIP_INT_32B,
      ZIP_INT_64B in *.
    repeat (zif; [lia|]). destruct (Z.leb_spec 0xf1 enc); [|lia]. destruct (Z.leb_spec enc 0xfd); [|lia].
    cbn [andb]. repeat (destruct (Z.eqb_spec enc _) in Hh; [lia|]).
    destruct hole; [done|cbn in Hh; lia].
  - change (zipIntSize ZIP_INT_8B) with 1 in *. cbn [Z.eqb ZIP_INT_8B Pos.eqb]. apply Hwr.
    rewrite length_le_bytes. lia.
  - change (zipIntSize ZIP_INT_16B) with 2 in *. cbn [Z.eqb ZIP_INT_8B ZIP_INT_16B Pos.eqb]. apply Hwr.
    rewrite length_le_bytes. lia.
  - change (zipIntSize ZIP_INT_24B) with 3 in *. cbn [Z.eqb ZIP_INT_8B ZIP_INT_16B ZIP_INT_24B Pos.eqb].
    assert (drop 1 (le_bytes 4 (i32 (Z.shiftl v 8))) = le_bytes 3 v) as ->.
    { rewrite (le_bytes_swrap 4) by lia. cbn [le_bytes drop]. rewrite Z.shiftl_mul_pow2 by lia.
      change (2 ^ 8) with 256. rewrite Z.div_mul by lia. done. }
    apply Hwr. rewrite length_le_bytes. lia.
  - change (zipIntSize ZIP_INT_32B) with 4 in *.
    cbn [Z.eqb ZIP_INT_8B ZIP_INT_16B ZIP_INT_24B ZIP_INT_32B Pos.eqb]. apply Hwr.
    rewrite length_le_bytes. lia.
  - change (zipIntSize ZIP_INT_64B) with 8 in *.
    cbn [Z.eqb ZIP_INT_8B ZIP_INT_16B ZIP_INT_24B ZIP_INT_32B ZIP_INT_64B Pos.eqb]. apply Hwr.
    rewrite length_le_bytes. lia.
Qed.

(** ** Choosing an encoding *)

Lemma try_encoding_some s v enc : zipTryEncoding s = Some (v, enc) ->
  int_ok enc v /\ in_s 64 v /\ s = decimal v.
Proof.
  unfold zipTryEncoding. destruct (_ || _); [done|].
  destruct (string2ll s) as [w|] eqn:E; [|done]. apply string2ll_sound in E as [Hw ->].
  intros [= <- <-]. split; [|done]. unfold int_ok, ZIP_INT_IMM_MIN, ZIP_INT_IMM_MAX, in_s in *.
  unfold INT8_MIN, INT8_MAX, INT16_MIN, INT16_MAX, INT24_MIN, INT24_MAX, INT32_MIN, INT32_MAX.
  do 5 (match goal with |- context [if ?b then _ else _] => destruct b eqn:? end; [left; lia|right]).
  auto.
Qed.

Lemma int_ok_64 enc v : int_ok enc v -> in_s 64 v.
Proof. unfold int_ok, in_s, ZIP_INT_IMM_MIN, ZIP_INT_IMM_MAX. lia. Qed.

Lemma try_encoding_decimal v : in_s 64 v -> exists enc, zipTryEncoding (decimal v) = Some (v, enc).
Proof.
  intros Hv. unfold zipTryEncoding. rewrite string2ll_complete by done.
  destruct (sign_magnitude v Hv) as [Hn Hdec].
  assert (0 < length (decimal v) <= 21)%nat.
  { rewrite Hdec, length_app. pose proof (length_ndec_le20 _ Hn).
    pose proof (length_ndec_pos (if v <? 0 then magnitude v else v) ltac:(destruct Hn; lia)).
    destruct (v <? 0); simpl in *; lia. }
  destruct (Z.leb_spec 32 (Z.of_nat (length (decimal v)))); [lia|].
  destruct (Z.eqb_spec (Z.of_nat (length (decimal v))) 0); [lia|]. cbn [orb]. eauto.
Qed.

(** The content insertion stores for a string. *)
Definition content_of (s : list Z) : content :=
  match zipTryEncoding s with Some (v, enc) => CInt enc v | None => CStr s end.

Lemma content_of_ok s : bytes_ok s -> Z.of_nat (length s) < 2 ^ 32 ->
  content_ok (content_of s) /\ text (content_of s) = s.
Proof.
  intros Hb Hl. unfold content_of. destruct (zipTryEncoding s) as [[v enc]|] eqn:E; [|done].
  apply try_encoding_some in E as (Hok & _ & ->). done.
Qed.

(** Equality of an entry with a string is what the comparison computes. *)
Lemma text_eq c s : content_ok c ->
  text c = s <-> match c with
                 | CStr s' => s' = s
                 | CInt _ v => fst <$> zipTryEncoding s = Some v
                 end.
Proof.
  destruct c as [s'|enc v]; cbn [text content_ok]; intros Hc; [done|]. split.
  - intros <-. destruct (try_encoding_decimal v (int_ok_64 _ _ Hc)) as (enc' & ->). done.
  - destruct (zipTryEncoding s) as [[w e]|] eqn:E; [|done]. intros [= ->].
    now apply try_encoding_some in E as (_ & _ & ->).
Qed.

(** ** Whole lists *)

Fixpoint entries_image (prev : Z) (es : list zent) : list Z :=
  match es with
  | [] => []
  | e :: es => entry_image prev e ++ entries_image (raw_len prev e) es
  end.

(** The raw length of the last entry. *)
Fixpoint last_raw (prev : Z) (es : list zent) : Z :=
  match es with
  | [] => prev
  | e :: es => last_raw (raw_len prev e) es
  end.

Lemma entries_image_app prev xs ys :
  entries_image prev (xs ++ ys) = entries_image prev xs ++ entries_image (last_raw prev xs) ys.
Proof.
  revert prev. induction xs as [|e xs IH]; intros prev; [done|]. cbn. rewrite IH. now rewrite app_assoc.
Qed.

Lemma last_raw_app prev xs ys : last_raw prev (xs ++ ys) = last_raw (last_raw prev xs) ys.
Proof. revert prev. induction xs as [|e xs IH]; intros prev; [done|]. cbn. apply IH. Qed.

Definition es_ok (es : list zent) : Prop := Forall (fun e => content_ok (e_val e)) es.

Lemma last_raw_nonneg xs : forall prev, 0 <= prev -> 0 <= last_raw prev xs.
Proof. induction xs as [|e xs IH]; intros prev Hp; [done|]. cbn. apply IH. unfold raw_len. lia. Qed.

Lemma last_raw_le xs : forall prev, 0 <= prev ->
  last_raw prev xs <= prev + Z.of_nat (length (entries_image prev xs)).
Proof.
  induction xs as [|e xs IH]; intros prev Hp; [cbn; lia|]. cbn [last_raw entries_image].
  rewrite length_app. specialize (IH (raw_len prev e) ltac:(unfold raw_len; lia)). unfold raw_len in *. lia.
Qed.

Lemma entries_length xs : forall prev, es_ok xs ->
  2 * Z.of_nat (length xs) <= Z.of_nat (length (entries_image prev xs)).
Proof.
  induction xs as [|e xs IH]; intros prev Hx; [done|]. apply Forall_cons in Hx as [He Hx].
  cbn [length entries_image]. rewrite length_app. pose proof (raw_len_pos prev e He).
  specialize (IH (raw_len prev e) Hx). unfold raw_len in *. lia.
Qed.

(** The offset of the entry after [xs]. *)
Definition offset (xs : list zent) : Z := ZIPLIST_HEADER_SIZE + Z.of_nat (length (entries_image 0 xs)).

Definition header (total tail cnt : Z) : list Z := le_bytes 4 total ++ le_bytes 4 tail ++ le_bytes 2 cnt.

Lemma length_header total tail cnt : length (header total tail cnt) = 10%nat.
Proof. unfold header. rewrite !length_app, !length_le_bytes. done. Qed.

(** [zl] is the ziplist with the entries [es]. *)
Record ziplist_rep (zl : list Z) (es : list zent) : Prop := {
  zr_image : exists cnt, zl = header (Z.of_nat (length zl)) (offset es - last_raw 0 es) cnt
                              ++ entries_image 0 es ++ [ZIP_END] /\
             (cnt = UINT16_MAX \/ cnt = Z.of_nat (length es) /\ cnt < UINT16_MAX);
  zr_ok : es_ok es;
  zr_size : Z.of_nat (length zl) < 2 ^ 32
}.

Section Navigation.
Context (zl : list Z) (es : list zent) (R : ziplist_rep zl es).

Lemma zl_length : Z.of_nat (length zl) = offset es + 1.
Proof.
  destruct (zr_image _ _ R) as (cnt & E & _). rewrite E at 1. rewrite !length_app, length_header.
  unfold offset, ZIPLIST_HEADER_SIZE. cbn. lia.
Qed.

(** Between two parts of the list. *)
Lemma split_at xs ys : es = xs ++ ys -> exists pre,
  zl = pre ++ entries_image (last_raw 0 xs) ys ++ [ZIP_END] /\ Z.of_nat (length pre) = offset xs.
Proof.
  intros ->. destruct (zr_image _ _ R) as (cnt & E & _). rewrite entries_image_app in E.
  eexists (header _ _ cnt ++ entries_image 0 xs). rewrite E at 1. rewrite <- !app_assoc.
  split; [reflexivity|]. rewrite length_app, length_header. unfold offset, ZIPLIST_HEADER_SIZE. lia.
Qed.

Lemma split_entry xs e ys : es = xs ++ e :: ys -> exists pre post,
  zl = pre ++ entry_image (last_raw 0 xs) e ++ post /\ Z.of_nat (length pre) = offset xs /\
  post = entries_image (raw_len (last_raw 0 xs) e) ys ++ [ZIP_END] /\
  content_ok (e_val e) /\ 0 <= last_raw 0 xs < 2 ^ 32 /\ raw_len (last_raw 0 xs) e < 2 ^ 32 /\
  offset (xs ++ [e]) = offset xs + raw_len (last_raw 0 xs) e.
Proof.
  intros E. destruct (split_at xs (e :: ys) E) as (pre & Hz & Hp). cbn [entries_image] in Hz.
  rewrite <- app_assoc in Hz. exists pre. eexists. split; [exact Hz|]. split; [done|]. split; [done|].
  pose proof (zr_ok _ _ R) as Hok. rewrite E in Hok. apply Forall_app in Hok as [_ Hok].
  apply Forall_cons in Hok as [He _]. split; [done|].
  pose proof (zr_size _ _ R) as Hs. pose proof (last_raw_nonneg xs 0 ltac:(lia)).
  pose proof (last_raw_le xs 0 ltac:(lia)).
  assert (offset (xs ++ [e]) = offset xs + raw_len (last_raw 0 xs) e) as Ho.
  { unfold offset. rewrite entries_image_app, length_app. cbn [entries_image]. rewrite app_nil_r.
    unfold raw_len. lia. }
  assert (Z.of_nat (length zl) >= offset xs + raw_len (last_raw 0 xs) e) as Hz'.
  { rewrite Hz, !length_app. unfold raw_len. lia. }
  unfold offset, ZIPLIST_HEADER_SIZE in *. pose proof (raw_len_pos (last_raw 0 xs) e He).
  split_and!; auto; lia.
Qed.

Lemma get_le_app (a b c : list Z) p n : p = Z.of_nat (length a) -> n = length b ->
  get_le (a ++ b ++ c) p n = Ret (le_value b).
Proof. apply get_le_mid. Qed.

Lemma read_header : exists cnt,
  ZIPLIST_BYTES zl = Ret (Z.of_nat (length zl)) /\
  ZIPLIST_TAIL_OFFSET zl = Ret (offset es - last_raw 0 es) /\
  ZIPLIST_LENGTH zl = Ret cnt /\
  (cnt = UINT16_MAX \/ cnt = Z.of_nat (length es) /\ cnt < UINT16_MAX).
Proof.
  destruct (zr_image _ _ R) as (cnt & E & Hc). exists cnt.
  pose proof (zr_size _ _ R). pose proof zl_length as Hl. pose proof (last_raw_nonneg es 0 ltac:(lia)).
  pose proof (last_raw_le es 0 ltac:(lia)).
  assert (0 <= cnt < 2 ^ 16) by (unfold UINT16_MAX in *; lia).
  unfold ZIPLIST_BYTES, ZIPLIST_TAIL_OFFSET, ZIPLIST_LENGTH, header in *.
  set (total := Z.of_nat (length zl)) in *. set (tl := offset es - last_raw 0 es) in *.
  assert (0 <= tl < 2 ^ 32) by (unfold tl, offset, ZIPLIST_HEADER_SIZE in *; lia).
  rewrite <- !app_assoc in E. rewrite E. split_and!; auto.
  - etrans; [apply (get_le_app [] (le_bytes 4 total)); [done|now rewrite length_le_bytes]|].
    rewrite le_value_bytes, uwrap_id; [done|unfold in_u; cbn; lia].
  - rewrite (get_le_app (le_bytes 4 total) (le_bytes 4 tl)) by now rewrite length_le_bytes.
    rewrite le_value_bytes, uwrap_id; [done|unfold in_u; cbn; lia].
  - rewrite (app_assoc (le_bytes 4 total)).
    rewrite (get_le_app (le_bytes 4 total ++ le_bytes 4 tl) (le_bytes 2 cnt))
      by (rewrite ?length_app, !length_le_bytes; done).
    rewrite le_value_bytes, uwrap_id; [done|unfold in_u; cbn; lia].
Qed.

(** The byte at a boundary tells whether the list goes on. *)
Lemma rd_boundary xs ys : es = xs ++ ys -> exists b, rd zl (offset xs) = Ret b /\
  (b =? ZIP_END) = match ys with [] => true | _ => false end.
Proof.
  intros E. destruct ys as [|e ys].
  - destruct (split_at xs [] E) as (pre & Hz & Hp). exists ZIP_END. rewrite Hz. cbn [entries_image app].
    rewrite rd_mid by done. done.
  - destruct (split_entry xs e ys E) as (pre & post & Hz & Hp & _ & _ & Hr & _). rewrite Hz.
    destruct (entry_not_end pre (last_raw 0 xs) e post (offset xs)) as (b & Hb & He); [done|lia|eauto].
Qed.

Lemma entry_here xs e ys : es = xs ++ e :: ys ->
  zipEntry zl (offset xs) = Ret (decoded (last_raw 0 xs) e (offset xs)) /\
  zipRawEntryLength zl (offset xs) = Ret (raw_len (last_raw 0 xs) e) /\
  ZIP_DECODE_PREVLEN zl (offset xs) =
    Ret (Z.of_nat (length (prev_image (e_large e) (last_raw 0 xs))), last_raw 0 xs) /\
  ZIP_DECODE_PREVLENSIZE zl (offset xs) = Ret (Z.of_nat (length (prev_image (e_large e) (last_raw 0 xs)))) /\
  ZIP_DECODE_LENGTH zl (offset xs + Z.of_nat (length (prev_image (e_large e) (last_raw 0 xs)))) =
    Ret (content_enc (e_val e), lensize_of (e_val e), len_of (e_val e)).
Proof.
  intros E. destruct (split_entry xs e ys E) as (pre & post & Hz & Hp & _ & Hc & Hr & Hlt & _). rewrite Hz.
  split_and!.
  - apply zipEntry_ok; auto.
  - apply zipRawEntryLength_ok; auto; lia.
  - unfold entry_image. rewrite <- app_assoc. apply decode_prevlen; auto.
  - unfold entry_image. rewrite <- app_assoc. apply decode_prevlensize; auto; lia.
  - unfold entry_image. rewrite <- app_assoc, app_assoc. apply decode_length; [done|]. rewrite length_app. lia.
Qed.

Lemma offset_snoc xs e ys : es = xs ++ e :: ys ->
  offset (xs ++ [e]) = offset xs + raw_len (last_raw 0 xs) e.
Proof. intros E. now destruct (split_entry xs e ys E) as (? & ? & _ & _ & _ & _ & _ & _ & ?). Qed.
End Navigation.
