(* ===== verification/ZiplistNav.v ===== *)
(** * ZiplistNav: navigation and queries on a well-formed ziplist *)

From S2P Require Import Prelude Util Ziplist ZiplistProofs.

(** Read the byte at a boundary and decide whether it is the end. *)
Ltac boundary H :=
  let b := fresh "b" in let Hb := fresh "Hb" in let He := fresh "He" in
  destruct H as (b & Hb & He); rewrite Hb; cbn [mbind res_bind]; rewrite He; cbn [negb orb].

Lemma nil_or_last {A} (l : list A) : l = [] \/ exists xs x, l = xs ++ [x].
Proof. destruct l as [|x l _] using rev_ind; eauto. Qed.

Section Nav.
Context (zl : list Z) (es : list zent) (R : ziplist_rep zl es).
Implicit Types (xs ys : list zent) (e : zent).

Lemma fuel_enough : (length es < length zl)%nat.
Proof.
  pose proof (zl_length zl es R) as Hl. pose proof (entries_length es 0 (zr_ok _ _ R)).
  unfold offset, ZIPLIST_HEADER_SIZE in Hl. lia.
Qed.

Lemma split_nth (i : nat) xs ys e : es = xs ++ ys -> ys !! i = Some e ->
  es = (xs ++ take i ys) ++ e :: drop (S i) ys.
Proof.
  intros E Hi. rewrite E, <- app_assoc. f_equal. symmetry. now apply take_drop_middle.
Qed.

Lemma index_forward_ok ys : forall fuel xs (i : nat), es = xs ++ ys -> (length ys < fuel)%nat ->
  index_forward fuel zl (offset xs) (Z.of_nat i) =
  Ret (offset (xs ++ take i ys),
       if (i <? length ys)%nat then -1 else Z.of_nat i - Z.of_nat (length ys)).
Proof.
  induction ys as [|e ys IH]; intros [|fuel] xs i E Hf; cbn [length] in Hf; try lia; cbn [index_forward];
    boundary (rd_boundary zl es R xs _ E).
  - rewrite take_nil, app_nil_r. cbn [length]. destruct (Nat.ltb_spec i 0); [lia|]. now rewrite Z.sub_0_r.
  - destruct (Z.eqb_spec (Z.of_nat i) 0).
    + assert (i = 0%nat) as -> by lia. now rewrite take_0, app_nil_r.
    + destruct (entry_here zl es R xs e ys E) as (_ & -> & _). cbn [mbind res_bind].
      rewrite <- (offset_snoc zl es R xs e ys E). destruct i as [|i]; [lia|].
      replace (Z.of_nat (S i) - 1) with (Z.of_nat i) by lia.
      rewrite (IH fuel (xs ++ [e]) i) by (rewrite <- ?app_assoc; (done || lia)).
      rewrite <- app_assoc. cbn [take app length]. do 2 f_equal.
      destruct (Nat.ltb_spec i (length ys)), (Nat.ltb_spec (S i) (S (length ys))); lia.
Qed.

Lemma offset_back xs e' ys : es = (xs ++ [e']) ++ ys ->
  offset (xs ++ [e']) - last_raw 0 (xs ++ [e']) = offset xs /\ 0 < last_raw 0 (xs ++ [e']).
Proof.
  intros E. rewrite <- app_assoc in E. pose proof (offset_snoc zl es R xs e' ys E) as Ho.
  destruct (split_entry zl es R xs e' ys E) as (? & ? & _ & _ & _ & Hc & _).
  rewrite last_raw_app. cbn [last_raw]. pose proof (raw_len_pos (last_raw 0 xs) e' Hc). lia.
Qed.

Lemma index_back_ok xs : forall fuel e ys (i : nat), es = xs ++ e :: ys -> (length xs < fuel)%nat ->
  exists j, index_back fuel zl (offset xs) (last_raw 0 xs) (Z.of_nat i) =
      Ret (offset (take (length xs - i) xs), j) /\ (0 < j <-> (length xs < i)%nat).
Proof.
  induction xs as [|e' xs IH] using rev_ind; intros [|fuel] e ys i E Hf; try lia; cbn [index_back].
  - cbn [last_raw Z.ltb Z.compare]. exists (Z.of_nat i). rewrite take_nil. split; [done|]. cbn. lia.
  - destruct (offset_back xs e' (e :: ys) E) as [Ho Hpos].
    destruct (Z.ltb_spec 0 (last_raw 0 (xs ++ [e']))); [|lia].
    rewrite length_app in *. cbn [length] in *. destruct (Z.eqb_spec (Z.of_nat i) 0).
    + exists (Z.of_nat i - 1). rewrite take_ge by (rewrite length_app; cbn; lia). split; [done|]. lia.
    + rewrite Ho. rewrite <- app_assoc in E. destruct (entry_here zl es R xs e' (e :: ys) E) as (_ & _ & -> & _).
      cbn [mbind res_bind]. destruct i as [|i]; [lia|].
      replace (Z.of_nat (S i) - 1) with (Z.of_nat i) by lia.
      destruct (IH fuel e' (e :: ys) i E ltac:(lia)) as (j & -> & Hj). exists j. split; [|lia].
      do 2 f_equal. replace (length xs + 1 - S i)%nat with (length xs - i)%nat by lia.
      now rewrite take_app_le by lia.
Qed.

Definition position (index : Z) : option nat :=
  let n := Z.of_nat (length es) in
  let i := if index <? 0 then n + index else index in
  if (0 <=? i) && (i <? n) then Some (Z.to_nat i) else None.

Lemma ziplistIndex_ok index : in_s 32 index ->
  ziplistIndex zl index = Ret ((fun i => offset (take i es)) <$> position index).
Proof.
  intros Hi. unfold in_s in Hi. unfold ziplistIndex, position. pose proof fuel_enough as Hfuel.
  destruct (Z.ltb_spec index 0).
  - assert (i32 (i32 (- index) - 1) = - index - 1) as ->.
    { destruct (Z.eq_dec index (- 2 ^ 31)) as [->|]; [reflexivity|].
      rewrite (swrap_id 32 (- index)) by (unfold in_s; lia). apply swrap_id; unfold in_s; lia. }
    unfold ZIPLIST_ENTRY_TAIL. destruct (read_header zl es R) as (cnt & _ & -> & _). cbn [mbind res_bind].
    destruct (nil_or_last es) as [E|(xs & e & E)].
    + assert (offset es - last_raw 0 es = offset []) as -> by (rewrite E; cbn; lia).
      pose proof (rd_boundary zl es R [] [] E) as Hend. boundary Hend. cbn [mbind res_bind]. rewrite Hb.
      cbn [mbind res_bind]. rewrite He. cbn [orb]. rewrite E. cbn [length].
      destruct (Z.leb_spec 0 (Z.of_nat 0 + index)); [lia|done].
    + assert (offset es - last_raw 0 es = offset xs) as ->.
      { rewrite E. rewrite (offset_snoc zl es R xs e [] E), last_raw_app. cbn [last_raw]. lia. }
      boundary (rd_boundary zl es R xs [e] E).
      destruct (entry_here zl es R xs e [] E) as (_ & _ & -> & _). cbn [mbind res_bind].
      assert (length es = S (length xs)) as Hlen by (rewrite E, length_app; cbn; lia).
      replace (- index - 1) with (Z.of_nat (Z.to_nat (- index - 1))) by lia.
      set (k := Z.to_nat (- index - 1)). assert (Z.of_nat k = - index - 1) as Hk by (unfold k; lia).
      clearbody k.
      destruct (index_back_ok xs (length zl) e [] k E ltac:(lia)) as (j & -> & Hj). cbn [mbind res_bind].
      assert (es = take (length xs - k) xs ++ drop (length xs - k) xs ++ [e]) as E'
        by (now rewrite app_assoc, take_drop).
      destruct (rd_boundary zl es R _ _ E') as (b' & -> & He'). cbn [mbind res_bind]. rewrite He'.
      assert (take (length xs - k) xs = take (length xs - k) es) as Htk by (rewrite E, take_app_le by lia; done).
      destruct (drop (length xs - k) xs ++ [e]) eqn:Ed; [now apply app_eq_nil in Ed as [_ ?]|]. cbn [orb].
      destruct (Z.ltb_spec 0 j), (Z.leb_spec 0 (Z.of_nat (length es) + index)),
        (Z.ltb_spec (Z.of_nat (length es) + index) (Z.of_nat (length es))); cbn [andb fmap option_fmap]; try lia; try done.
      rewrite Htk. cbn [option_map]. do 4 f_equal. lia.
  - replace index with (Z.of_nat (Z.to_nat index)) at 1 by lia.
    set (k := Z.to_nat index). assert (Z.of_nat k = index) as Hk by (unfold k; lia).
    change ZIPLIST_ENTRY_HEAD with (offset []). rewrite (index_forward_ok es (length zl) [] k eq_refl Hfuel).
    cbn [mbind res_bind app].
    destruct (rd_boundary zl es R (take k es) (drop k es)) as (b & -> & He); [now rewrite take_drop|].
    cbn [mbind res_bind]. rewrite He.
    destruct (Z.leb_spec 0 index); [|lia]. cbn [andb].
    destruct (Nat.ltb_spec k (length es)), (Z.ltb_spec index (Z.of_nat (length es))); try lia.
    + destruct (drop k es) eqn:Ed; [|done]. apply (f_equal length) in Ed. rewrite length_drop in Ed. cbn in Ed. lia.
    + rewrite drop_ge by lia. done.
Qed.

(** ** Neighbours *)

Lemma ziplistNext_ok xs e ys : es = xs ++ e :: ys ->
  ziplistNext zl (offset xs) = Ret (match ys with [] => None | _ => Some (offset (xs ++ [e])) end).
Proof.
  intros E. unfold ziplistNext. boundary (rd_boundary zl es R xs _ E).
  destruct (entry_here zl es R xs e ys E) as (_ & -> & _). cbn [mbind res_bind].
  rewrite <- (offset_snoc zl es R xs e ys E).
  destruct (rd_boundary zl es R (xs ++ [e]) ys) as (b' & -> & He'); [now rewrite <- app_assoc|].
  cbn [mbind res_bind]. rewrite He'. now destruct ys.
Qed.

Lemma ziplistPrev_ok xs ys : es = xs ++ ys ->
  ziplistPrev zl (offset xs) = Ret (match last xs with None => None | Some _ => Some (offset (removelast xs)) end).
Proof.
  intros E. unfold ziplistPrev. boundary (rd_boundary zl es R xs ys E).
  destruct (nil_or_last xs) as [->|(xs' & e' & ->)].
  - cbn [last]. destruct ys as [|e ys].
    + unfold ZIPLIST_ENTRY_TAIL. destruct (read_header zl es R) as (cnt & _ & -> & _). cbn [mbind res_bind].
      assert (offset es - last_raw 0 es = offset []) as -> by (rewrite E; cbn; lia).
      boundary (rd_boundary zl es R [] [] E). done.
    + change ZIPLIST_ENTRY_HEAD with (offset []). now rewrite Z.eqb_refl.
  - rewrite last_snoc, removelast_last. destruct (offset_back xs' e' ys E) as [Ho Hpos].
    destruct ys as [|e ys].
    + unfold ZIPLIST_ENTRY_TAIL. destruct (read_header zl es R) as (cnt & _ & -> & _). cbn [mbind res_bind].
      rewrite app_nil_r in E. rewrite <- E in Ho. rewrite Ho.
      boundary (rd_boundary zl es R xs' [e'] E). done.
    + destruct (Z.eqb_spec (offset (xs' ++ [e'])) ZIPLIST_ENTRY_HEAD) as [Eq|].
      { exfalso. pose proof (last_raw_le (xs' ++ [e']) 0 ltac:(lia)) as Hle.
        unfold offset, ZIPLIST_ENTRY_HEAD, ZIPLIST_HEADER_SIZE in *. lia. }
      destruct (entry_here zl es R (xs' ++ [e']) e ys E) as (_ & _ & -> & _). cbn [mbind res_bind].
      destruct (Z.ltb_spec 0 (last_raw 0 (xs' ++ [e']))); [|lia]. now rewrite Ho.
Qed.

(** ** Contents *)

(** Where the body of an entry is. *)
Lemma body_at xs e ys : es = xs ++ e :: ys -> exists pre post,
  zl = pre ++ content_body (e_val e) ++ post /\
  Z.of_nat (length pre) = offset xs + Z.of_nat (length (prev_image (e_large e) (last_raw 0 xs))) + lensize_of (e_val e) /\
  content_ok (e_val e).
Proof.
  intros E. destruct (split_entry zl es R xs e ys E) as (pre & post & Hz & Hp & _ & Hc & _).
  exists (pre ++ prev_image (e_large e) (last_raw 0 xs) ++ content_head (e_val e)), post.
  split; [|split; [|done]].
  - rewrite Hz. unfold entry_image, content_image. now rewrite <- !app_assoc.
  - rewrite !length_app. unfold lensize_of. lia.
Qed.

Lemma is_str c : content_ok c -> ZIP_IS_STR (content_enc c) = match c with CStr _ => true | CInt _ _ => false end.
Proof.
  destruct c as [s|enc v]; cbn [content_ok content_enc]; intros Hc.
  - repeat zif; reflexivity.
  - pose proof (int_enc_range enc v Hc) as He. unfold ZIP_IS_STR, ZIP_STR_MASK in *.
    rewrite land_c0 by lia. assert (enc / 64 = 3) as ->; [|reflexivity].
    symmetry. apply Z.div_unique_pos with (enc - 192); lia.
Qed.

Definition stored (c : content) : zvalue := match c with CStr s => ZStr s | CInt _ v => ZInt v end.

Lemma ziplistGet_ok xs e ys : es = xs ++ e :: ys ->
  ziplistGet zl (Some (offset xs)) = Ret (Some (stored (e_val e))).
Proof.
  intros E. unfold ziplistGet. boundary (rd_boundary zl es R xs _ E).
  destruct (entry_here zl es R xs e ys E) as (-> & _). cbn [mbind res_bind encoding decoded headersize zlen].
  destruct (body_at xs e ys E) as (pre & post & Hz & Hp & Hc). rewrite is_str by done. unfold len_of.
  rewrite Z.add_assoc, <- Hp. destruct (e_val e) as [s|enc v]; cbn [content_body content_enc stored] in *.
  - rewrite Hz, Nat2Z.id, memread_mid by done. done.
  - rewrite Hz, load_int by done. done.
Qed.

Lemma ziplistCompare_ok xs e ys s : es = xs ++ e :: ys ->
  ziplistCompare zl (offset xs) s = Ret (bool_decide (text (e_val e) = s)).
Proof.
  intros E. unfold ziplistCompare. boundary (rd_boundary zl es R xs _ E).
  destruct (entry_here zl es R xs e ys E) as (-> & _). cbn [mbind res_bind encoding decoded headersize zlen].
  destruct (body_at xs e ys E) as (pre & post & Hz & Hp & Hc). rewrite is_str by done. unfold len_of.
  rewrite Z.add_assoc, <- Hp. destruct (e_val e) as [s'|enc v]; cbn [content_body content_enc] in *.
  - destruct (Z.eqb_spec (Z.of_nat (length s')) (Z.of_nat (length s))) as [Hl|Hl].
    + rewrite Hz. replace (length s) with (length s') by lia. rewrite memread_mid by done. done.
    + rewrite bool_decide_eq_false_2; [done|]. cbn [text]. intros ->. done.
  - rewrite (bool_decide_ext _ (fst <$> zipTryEncoding s = Some v) (text_eq (CInt enc v) s Hc)).
    destruct (zipTryEncoding s) as [[w enc']|]; cbn [fmap option_fmap option_map fst].
    + rewrite Hz, load_int by done. cbn [mbind res_bind]. f_equal.
      destruct (Z.eqb_spec v w) as [->|Hne]; symmetry.
      * now apply bool_decide_eq_true_2.
      * apply bool_decide_eq_false_2. congruence.
    + now rewrite bool_decide_eq_false_2.
Qed.

(** ziplistFind compares every [skip + 1]-th string. *)
Fixpoint find_text (skip cnt : nat) (s : list Z) (ts : list (list Z)) : option nat :=
  match ts with
  | [] => None
  | t :: ts =>
    match cnt with
    | S cnt => S <$> find_text skip cnt s ts
    | O => if bool_decide (t = s) then Some 0%nat else S <$> find_text skip skip s ts
    end
  end.

Definition texts (l : list zent) : list (list Z) := map (fun e => text (e_val e)) l.

Lemma find_loop_ok s skip ys : forall fuel xs (cnt : nat) vc, es = xs ++ ys -> (length ys < fuel)%nat ->
  (vc = None \/ vc = Some (fst <$> zipTryEncoding s)) ->
  find_loop fuel zl (offset xs) s (Z.of_nat skip) (Z.of_nat cnt) vc =
  Ret ((fun i => offset (xs ++ take i ys)) <$> find_text skip cnt s (texts ys)).
Proof.
  induction ys as [|e ys IH]; intros [|fuel] xs cnt vc E Hf Hv; cbn [length] in Hf; try lia; cbn [find_loop];
    boundary (rd_boundary zl es R xs _ E); [done|].
  destruct (entry_here zl es R xs e ys E) as (_ & _ & _ & -> & Hdec). cbn [mbind res_bind].
  rewrite Hdec. cbn [mbind res_bind].
  destruct (body_at xs e ys E) as (pre & post & Hz & Hp & Hc). rewrite <- Hp.
  assert (Z.of_nat (length pre) + len_of (e_val e) = offset (xs ++ [e])) as Hnext.
  { rewrite Hp, (offset_snoc zl es R xs e ys E), raw_len_parts. lia. }
  rewrite Hnext. rewrite is_str by done.
  assert (es = (xs ++ [e]) ++ ys) as E' by (now rewrite <- app_assoc).
  assert (forall o : option nat, (fun i => offset (xs ++ take i (e :: ys))) <$> (S <$> o) =
    (fun i => offset ((xs ++ [e]) ++ take i ys)) <$> o) as Hshift.
  { intros [i|]; [|done]. cbn. now rewrite <- app_assoc. }
  cbn [texts map find_text]. fold (texts ys). destruct cnt as [|cnt]; cbn [Z.of_nat Z.eqb].
  2: { change (Z.pos (Pos.of_succ_nat cnt)) with (Z.of_nat (S cnt)).
       replace (Z.of_nat (S cnt) - 1) with (Z.of_nat cnt) by lia.
       rewrite (IH fuel (xs ++ [e]) cnt vc E') by (done || lia). now rewrite Hshift. }
  set (found := bool_decide (text (e_val e) = s)).
  assert (exists vc', (vc' = None \/ vc' = Some (fst <$> zipTryEncoding s)) /\
    (if match e_val e with CStr _ => true | CInt _ _ => false end
     then if len_of (e_val e) =? Z.of_nat (length s)
          then s0 ← memread zl (Z.of_nat (length pre)) (length s); Ret (bool_decide (s0 = s), vc)
          else Ret (false, vc)
     else match (match vc with Some v => v | None => fst <$> zipTryEncoding s end) with
          | Some vll => ll ← zipLoadInteger zl (Z.of_nat (length pre)) (content_enc (e_val e));
              Ret (ll =? vll, Some (match vc with Some v => v | None => fst <$> zipTryEncoding s end))
          | None => Ret (false, Some (match vc with Some v => v | None => fst <$> zipTryEncoding s end))
          end) = Ret (found, vc')) as (vc' & Hv' & Hcmp).
  { unfold found, len_of. destruct (e_val e) as [s'|enc v]; cbn [content_body content_enc] in *.
    - exists vc. split; [done|]. destruct (Z.eqb_spec (Z.of_nat (length s')) (Z.of_nat (length s))) as [Hl|Hl].
      + rewrite Hz. replace (length s) with (length s') by lia. rewrite memread_mid by done. done.
      + rewrite bool_decide_eq_false_2; [done|]. cbn [text]. intros ->. done.
    - rewrite (bool_decide_ext _ (fst <$> zipTryEncoding s = Some v) (text_eq (CInt enc v) s Hc)).
      exists (Some (fst <$> zipTryEncoding s)). split; [auto|].
      assert (match vc with Some v => v | None => fst <$> zipTryEncoding s end = fst <$> zipTryEncoding s) as ->
        by (destruct Hv as [->| ->]; done).
      destruct (fst <$> zipTryEncoding s) as [w|]; [|now rewrite bool_decide_eq_false_2].
      rewrite Hz, load_int by done. cbn [mbind res_bind]. do 2 f_equal.
      destruct (Z.eqb_spec v w) as [->|Hne]; symmetry.
      + now apply bool_decide_eq_true_2.
      + apply bool_decide_eq_false_2. congruence. }
  rewrite Hcmp. cbn [mbind res_bind]. fold found. destruct found.
  - cbn. now rewrite app_nil_r.
  - rewrite (IH fuel (xs ++ [e]) skip vc' E') by (done || lia). now rewrite Hshift.
Qed.

(** ** Length *)

Lemma count_entries_ok ys : forall fuel xs n, es = xs ++ ys -> (length ys < fuel)%nat ->
  0 <= n -> n + Z.of_nat (length ys) < 2 ^ 32 ->
  count_entries fuel zl (offset xs) n = Ret (n + Z.of_nat (length ys)).
Proof.
  induction ys as [|e ys IH]; intros [|fuel] xs n E Hf Hn Hb; cbn [length] in *; try lia; cbn [count_entries];
    boundary (rd_boundary zl es R xs _ E); [f_equal; lia|].
  destruct (entry_here zl es R xs e ys E) as (_ & -> & _). cbn [mbind res_bind].
  rewrite <- (offset_snoc zl es R xs e ys E), uwrap_id by (unfold in_u; lia).
  rewrite (IH fuel (xs ++ [e])) by (rewrite <- ?app_assoc; (done || lia)). f_equal. lia.
Qed.

Lemma ziplistLen_ok : exists zl', ziplistLen zl = Ret (Z.of_nat (length es), zl') /\ ziplist_rep zl' es.
Proof.
  unfold ziplistLen. destruct (read_header zl es R) as (cnt & _ & _ & Hc & Hcnt). rewrite Hc.
  cbn [mbind res_bind]. zif.
  - exists zl. split; [|done]. destruct Hcnt as [->|[-> _]]; [lia|done].
  - pose proof (zr_size _ _ R) as Hsz. pose proof fuel_enough as Hfuel.
    change ZIPLIST_HEADER_SIZE with (offset []). rewrite (count_entries_ok es (length zl) [] 0 eq_refl Hfuel) by lia. cbn [mbind res_bind].
    rewrite Z.add_0_l. zif; [|exists zl; done].
    destruct (zr_image _ _ R) as (cnt' & Hz & _). unfold header in Hz.
    remember (le_bytes 4 (Z.of_nat (length zl)) ++ le_bytes 4 (offset es - last_raw 0 es)) as a eqn:Ea.
    assert (length a = 8%nat) as Ha by (rewrite Ea, length_app, !length_le_bytes; done).
    assert (zl = a ++ le_bytes 2 cnt' ++ entries_image 0 es ++ [ZIP_END]) as Hz'
      by (etrans; [exact Hz|]; rewrite Ea; now rewrite <- !app_assoc).
    clear Hz. rename Hz' into Hz. unfold set_LENGTH.
    rewrite (uwrap_id 16) by (unfold in_u, UINT16_MAX in *; lia).
    assert (memwrite zl 8 (le_bytes 2 (Z.of_nat (length es))) =
      Ret (a ++ le_bytes 2 (Z.of_nat (length es)) ++ entries_image 0 es ++ [ZIP_END])) as ->.
    { rewrite Hz. change 8 with (Z.of_nat 8). rewrite <- Ha, memwrite_ok by (rewrite !length_app, !length_le_bytes; lia).
      now rewrite blit_app_mid by (now rewrite !length_le_bytes). }
    cbn [mbind res_bind].
    eexists. split; [reflexivity|].
    assert (length (a ++ le_bytes 2 (Z.of_nat (length es)) ++ entries_image 0 es ++ [ZIP_END]) = length zl) as Hlen.
    { rewrite Hz, !length_app, !length_le_bytes. done. }
    constructor; [|apply R|rewrite Hlen; apply R]. exists (Z.of_nat (length es)). rewrite Hlen.
    split; [|right; auto]. unfold header. rewrite Ea. now rewrite <- !app_assoc.
Qed.
End Nav.
