(* ===== verification/ZiplistUpdate.v ===== *)
(** * ZiplistUpdate: insertion, deletion and merging of ziplists

    The cascade of length updates terminates and restores the links
    between entries; insertion, deletion and merging are the operations
    on lists of strings.  Insertion is correct outside one case, in which
    the block is shrunk before its contents are moved. *)

From S2P Require Import Prelude Util Ziplist ZiplistProofs ZiplistNav.

(** ** Header fields *)

Section Header.
Context (t l c : Z) (r : list Z).

Lemma get_bytes : in_u 32 t -> ZIPLIST_BYTES (header t l c ++ r) = Ret t.
Proof.
  intros Ht. unfold ZIPLIST_BYTES, header. rewrite <- !app_assoc.
  etrans; [apply (get_le_mid [] (le_bytes 4 t)); [done|now rewrite length_le_bytes]|].
  now rewrite le_value_bytes, uwrap_id.
Qed.

Lemma get_tail : in_u 32 l -> ZIPLIST_TAIL_OFFSET (header t l c ++ r) = Ret l.
Proof.
  intros Ht. unfold ZIPLIST_TAIL_OFFSET, header. rewrite <- !app_assoc.
  rewrite (get_le_mid (le_bytes 4 t) (le_bytes 4 l)) by now rewrite length_le_bytes.
  now rewrite le_value_bytes, uwrap_id.
Qed.

Lemma get_length : in_u 16 c -> ZIPLIST_LENGTH (header t l c ++ r) = Ret c.
Proof.
  intros Ht. unfold ZIPLIST_LENGTH, header. rewrite <- !app_assoc, app_assoc.
  rewrite (get_le_mid (le_bytes 4 t ++ le_bytes 4 l) (le_bytes 2 c))
    by (rewrite ?length_app, !length_le_bytes; done).
  now rewrite le_value_bytes, uwrap_id.
Qed.

Lemma write_mid pre b b' post p : p = Z.of_nat (length pre) -> length b' = length b ->
  memwrite (pre ++ b ++ post) p b' = Ret (pre ++ b' ++ post).
Proof.
  intros -> Hb. rewrite memwrite_ok by (rewrite !length_app; lia). f_equal. now apply blit_app_mid.
Qed.

Lemma put_bytes v : set_BYTES (header t l c ++ r) v = Ret (header v l c ++ r).
Proof.
  unfold set_BYTES, header. rewrite <- !app_assoc.
  apply (write_mid [] (le_bytes 4 t) (le_bytes 4 v)); [done|now rewrite !length_le_bytes].
Qed.

Lemma put_tail v : set_TAIL_OFFSET (header t l c ++ r) v = Ret (header t v c ++ r).
Proof.
  unfold set_TAIL_OFFSET, header. rewrite <- !app_assoc.
  apply (write_mid (le_bytes 4 t) (le_bytes 4 l) (le_bytes 4 v)); now rewrite !length_le_bytes.
Qed.

Lemma put_length v : set_LENGTH (header t l c ++ r) v = Ret (header t l v ++ r).
Proof.
  unfold set_LENGTH, header. rewrite <- !app_assoc, (app_assoc (le_bytes 4 t)).
  rewrite (write_mid (le_bytes 4 t ++ le_bytes 4 l) (le_bytes 2 c) (le_bytes 2 v))
    by (rewrite ?length_app, !length_le_bytes; done).
  now rewrite <- app_assoc.
Qed.

Lemma incr_length v : in_u 16 c ->
  ZIPLIST_INCR_LENGTH (header t l c ++ r) v =
  Ret (header t l (if c <? UINT16_MAX then u16 (c + v) else c) ++ r).
Proof.
  intros Hc. unfold ZIPLIST_INCR_LENGTH. rewrite get_length by done. cbn [mbind res_bind].
  zif; [apply put_length|done].
Qed.

End Header.

(** Resizing keeps what fits before the new end marker. *)
Lemma resize_ok t l c r junk n : (1 <= n)%nat -> Z.of_nat (10 + n) < 2 ^ 32 ->
  ziplistResize junk (header t l c ++ r) (Z.of_nat (10 + n)) =
  Ret (header (Z.of_nat (10 + n)) l c ++ take (n - 1) (r ++ replicate n junk) ++ [ZIP_END]).
Proof.
  intros Hn Hs. unfold ziplistResize. rewrite uwrap_id by (unfold in_u; lia). rewrite Nat2Z.id.
  assert (realloc junk (header t l c ++ r) (10 + n) = header t l c ++ take n (r ++ replicate n junk)) as ->.
  { unfold realloc. rewrite length_app, length_header.
    rewrite take_app_ge, length_header by (rewrite length_header; lia).
    replace (10 + n - 10)%nat with n by lia. rewrite <- app_assoc. f_equal.
    rewrite take_app. f_equal. rewrite take_replicate. f_equal. lia. }
  rewrite put_bytes. cbn [mbind res_bind].
  assert (exists x, take n (r ++ replicate n junk) = take (n - 1) (r ++ replicate n junk) ++ [x]) as (x & ->).
  { destruct (lookup_lt_is_Some_2 (r ++ replicate n junk) (n - 1)) as [x Hx];
      [rewrite length_app, length_replicate; lia|].
    exists x. replace n with (S (n - 1)) at 1 by lia. now apply take_S_r. }
  rewrite app_assoc, wr_at; [now rewrite <- app_assoc|].
  rewrite length_app, length_header, length_take, length_app, length_replicate. lia.
Qed.

(** ** Writing the previous length *)

Lemma prev_encode_size zl len : zipPrevEncodeLength zl None len = Ret (zl, Z.of_nat (length (prev_image false len))).
Proof.
  cbn [zipPrevEncodeLength]. rewrite length_prev_image. cbn [orb]. unfold ZIP_BIGLEN.
  destruct (Z.ltb_spec len 254), (Z.leb_spec 254 len); (lia || done).
Qed.

Lemma prev_encode_write pre h post p len : p = Z.of_nat (length pre) ->
  length h = length (prev_image false len) ->
  zipPrevEncodeLength (pre ++ h ++ post) (Some p) len =
  Ret (pre ++ prev_image false len ++ post, Z.of_nat (length (prev_image false len))).
Proof.
  intros Hp Hh. cbn [zipPrevEncodeLength]. unfold prev_image in *. cbn [orb] in *. unfold ZIP_BIGLEN in *.
  destruct (Z.ltb_spec len 254), (Z.leb_spec 254 len); try lia.
  - destruct h as [|x [|]]; try discriminate. cbn [app]. rewrite wr_at by done. done.
  - destruct h as [|x h]; [discriminate|]. cbn [app length] in *. rewrite wr_at by done. cbn [mbind res_bind].
    rewrite (app_assoc pre [254] (h ++ post) : pre ++ 254 :: _ = _).
    rewrite write_mid; [|rewrite length_app; cbn [length]; lia|congruence]. cbn [mbind res_bind].
    rewrite <- app_assoc. cbn [app]. rewrite length_le_bytes. done.
Qed.

Lemma prev_encode_large pre h post p len : p = Z.of_nat (length pre) -> length h = 5%nat ->
  zipPrevEncodeLengthForceLarge (pre ++ h ++ post) p len = Ret (pre ++ prev_image true len ++ post).
Proof.
  intros Hp Hh. unfold zipPrevEncodeLengthForceLarge, prev_image. cbn [orb].
  destruct h as [|x h]; [discriminate|]. cbn [app length] in *. rewrite wr_at by done. cbn [mbind res_bind].
  rewrite (app_assoc pre [ZIP_BIGLEN] (h ++ post) : pre ++ ZIP_BIGLEN :: _ = _).
  rewrite write_mid; [|rewrite length_app; cbn [length]; lia|rewrite length_le_bytes; lia].
  now rewrite <- app_assoc.
Qed.

(** ** The cascade *)

(** The same strings; only the width of the previous length may differ. *)
Definition same_vals (es es' : list zent) : Prop := map e_val es = map e_val es'.

Lemma same_vals_ok es es' : same_vals es es' -> es_ok es -> es_ok es'.
Proof.
  unfold same_vals, es_ok. revert es'. induction es as [|e es IH]; intros [|e' es'] E; try done.
  injection E as E1 E2. rewrite !Forall_cons. rewrite E1. intros [? ?]. auto.
Qed.

Lemma raw_len_change prev prev' (e e' : zent) : e_val e = e_val e' ->
  raw_len prev' e' = raw_len prev e - Z.of_nat (length (prev_image (e_large e) prev))
                     + Z.of_nat (length (prev_image (e_large e') prev')).
Proof. intros E. rewrite !raw_len_parts, E. lia. Qed.

(** The distance from the first entry to the last one. *)
Fixpoint last_off (prev : Z) (es : list zent) : Z :=
  match es with
  | [] => 0
  | e :: es =>
    match es with [] => 0 | _ :: _ => raw_len prev e + last_off (raw_len prev e) es end
  end.

Lemma last_off_cons prev e es : es <> [] ->
  last_off prev (e :: es) = raw_len prev e + last_off (raw_len prev e) es.
Proof. now destruct es. Qed.

Lemma last_off_nonneg es : forall prev, 0 <= last_off prev es.
Proof.
  induction es as [|e [|e' es] IH]; intros prev; [done|done|]. rewrite last_off_cons by done.
  specialize (IH (raw_len prev e)). unfold raw_len in *. lia.
Qed.

Lemma last_off_image prev es : es <> [] ->
  last_off prev es = Z.of_nat (length (entries_image prev es)) - last_raw prev es.
Proof.
  revert prev. induction es as [|e es IH]; intros prev Hn; [done|]. destruct es as [|e' es].
  - cbn. rewrite app_nil_r. unfold raw_len. lia.
  - rewrite last_off_cons, IH by done. cbn [entries_image last_raw]. rewrite !length_app.
    unfold raw_len. lia.
Qed.

Lemma last_off_le es prev : 0 <= prev -> last_off prev es <= Z.of_nat (length (entries_image prev es)).
Proof.
  intros Hp. destruct es as [|e es]; [done|]. rewrite last_off_image by done.
  pose proof (last_raw_nonneg (e :: es) prev Hp). lia.
Qed.

(** ** Moving bytes *)

Lemma memmove_ok m (dst src n : nat) : (src + n <= length m)%nat -> (dst + n <= length m)%nat ->
  memmove m (Z.of_nat dst) (Z.of_nat src) (Z.of_nat n) =
  Ret (take dst m ++ slice m src n ++ drop (dst + n) m).
Proof.
  intros Hs Hd. unfold memmove. destruct (Z.ltb_spec (Z.of_nat n) 0); [lia|].
  rewrite Nat2Z.id, memread_ok by done. cbn [mbind res_bind].
  rewrite memwrite_ok by (rewrite length_slice; lia). unfold blit. now rewrite length_slice.
Qed.

(** [b] moves up by the length of [k]; the bytes before it stay. *)
Lemma move_up a b c k (dst src n : Z) : src = Z.of_nat (length a) -> n = Z.of_nat (length b) ->
  dst = src + Z.of_nat k -> (k <= length c)%nat ->
  memmove (a ++ b ++ c) dst src n = Ret (a ++ take k (b ++ c) ++ b ++ drop k c).
Proof.
  intros -> -> -> Hk. replace (Z.of_nat (length a) + Z.of_nat k) with (Z.of_nat (length a + k)) by lia.
  rewrite memmove_ok by (rewrite !length_app; lia). rewrite slice_app_mid. f_equal.
  rewrite take_app_add, <- app_assoc. do 3 f_equal.
  rewrite <- Nat.add_assoc, <- drop_drop, drop_app_length, Nat.add_comm.
  now rewrite <- drop_drop, drop_app_length.
Qed.

(** [b] moves down over [d]. *)
Lemma move_down a d b c (dst src n : Z) : dst = Z.of_nat (length a) ->
  src = dst + Z.of_nat (length d) -> n = Z.of_nat (length b) -> exists h,
  length h = length d /\ memmove (a ++ d ++ b ++ c) dst src n = Ret (a ++ b ++ h ++ c).
Proof.
  intros -> -> ->. exists (drop (length b) (d ++ b)). split; [len|].
  replace (Z.of_nat (length a) + Z.of_nat (length d)) with (Z.of_nat (length (a ++ d))) by len.
  rewrite memmove_ok by (rewrite !length_app; lia). f_equal. rewrite take_app_length. f_equal.
  rewrite app_assoc, slice_app_mid, <- app_assoc. f_equal.
  rewrite <- drop_drop, drop_app_length, app_assoc. apply drop_app_le. len.
Qed.

Lemma slice_back a b c k : (k <= length a)%nat ->
  slice (a ++ b ++ c) (length a - k) (k + length b) = drop (length a - k) a ++ b.
Proof.
  intros Hk. unfold slice. rewrite drop_app_le by lia. rewrite take_app_ge by (rewrite length_drop; lia).
  f_equal. rewrite length_drop. replace (_ - _)%nat with (length b) by lia.
  rewrite take_app_le by lia. now apply take_ge.
Qed.

(** The move of __ziplistInsert: [b] moves [r] bytes away from [a], and the
    field [f] before it gets the length of [g]. *)
Lemma move_gap a f b c (r g : nat) dst src n :
  length c = (r + g - length f)%nat -> (length f <= r + g)%nat -> (g <= length a + length f)%nat ->
  dst = Z.of_nat (length a + r) -> src = Z.of_nat (length a + length f - g) ->
  n = Z.of_nat (g + length b) -> exists hole fld, length hole = r /\ length fld = g /\
  memmove (a ++ f ++ b ++ c ++ [ZIP_END]) dst src n = Ret (a ++ hole ++ fld ++ b ++ [ZIP_END]).
Proof.
  intros Hc Hf Hg -> -> ->.
  exists (take r (f ++ b ++ c ++ [ZIP_END])), (drop (length (a ++ f) - g) (a ++ f)).
  split; [len|]. split; [len|].
  rewrite memmove_ok by (rewrite !length_app; cbn [length]; lia). f_equal.
  rewrite take_app_add, <- !app_assoc. do 2 f_equal.
  rewrite !(app_assoc a f), <- (length_app a f).
  rewrite slice_back by (rewrite length_app; lia). rewrite <- !app_assoc. do 2 f_equal.
  replace (a ++ f ++ b ++ c ++ [ZIP_END]) with ((a ++ f ++ b ++ c) ++ [ZIP_END]) by now rewrite <- !app_assoc.
  rewrite drop_app_ge by (rewrite !length_app; lia).
  replace (_ - _)%nat with 0%nat by (rewrite !length_app; lia). done.
Qed.

(** Growing the block by [k] bytes: the old end marker is the first. *)
Lemma zl_resize_grow t l c body junk (k : nat) n :
  n = 11 + Z.of_nat (length body) + Z.of_nat k -> n < 2 ^ 32 ->
  ziplistResize junk (header t l c ++ body ++ [ZIP_END]) n =
  Ret (header n l c ++ body ++ take k (ZIP_END :: replicate k junk) ++ [ZIP_END]).
Proof.
  intros -> Hn. replace (11 + Z.of_nat (length body) + Z.of_nat k)
    with (Z.of_nat (10 + (length body + k + 1))) in * by lia.
  rewrite resize_ok by lia. do 2 f_equal. replace (length body + k + 1 - 1)%nat with (length body + k)%nat by lia.
  rewrite <- app_assoc, take_app_add, <- app_assoc. do 2 f_equal. cbn [app].
  destruct k; [done|]. rewrite !firstn_cons, !take_replicate. do 2 f_equal. lia.
Qed.

(** Shrinking: what is beyond the new end is lost. *)
Lemma zl_resize_shrink t l c body rest junk n : rest <> [] ->
  n = 11 + Z.of_nat (length body) -> n < 2 ^ 32 ->
  ziplistResize junk (header t l c ++ body ++ rest) n = Ret (header n l c ++ body ++ [ZIP_END]).
Proof.
  intros Hr -> Hn. replace (11 + Z.of_nat (length body)) with (Z.of_nat (10 + (length body + 1))) in * by lia.
  rewrite resize_ok by lia. do 2 f_equal. replace (length body + 1 - 1)%nat with (length body) by lia.
  rewrite <- app_assoc. now rewrite take_app_length.
Qed.

(** ** The cascade *)

Lemma prev_size_cases large n : 0 <= n ->
  (length (prev_image large n) = 1%nat /\ large = false /\ n < ZIP_BIGLEN) \/
  (length (prev_image large n) = 5%nat /\ (large = true \/ ZIP_BIGLEN <= n)).
Proof.
  intros Hn. pose proof (length_prev_image large n) as H. unfold ZIP_BIGLEN in *.
  destruct large; cbn [orb] in H; [right; lia|]. destruct (Z.leb_spec 254 n); [right|left]; lia.
Qed.

Lemma same_size_image prev prev' e e' : e_val e = e_val e' ->
  length (prev_image (e_large e) prev) = length (prev_image (e_large e') prev') ->
  raw_len prev' e' = raw_len prev e.
Proof. intros Hv Hl. rewrite (raw_len_change prev prev' e e' Hv). lia. Qed.

Section Cascade.
Context (junk : Z).

(** One entry grows by four bytes: resize, tail, move, write. *)
Lemma cascade_grow T L c pre y q r post (last : bool) (k : list Z -> res (list Z)) zl np curlen :
  zl = header T L c ++ pre ++ entry_image q y ++ post ++ [ZIP_END] ->
  np = 10 + Z.of_nat (length pre) ->
  curlen = Z.of_nat (length zl) ->
  curlen + 4 < 2 ^ 32 -> 0 <= L < 2 ^ 32 - 4 ->
  length (prev_image (e_large y) q) = 1%nat -> length (prev_image (e_large y) r) = 5%nat ->
  e_large y = false -> (L =? np) = last ->
  (zl ← ziplistResize junk zl (curlen + 4);
   tail ← ZIPLIST_TAIL_OFFSET zl;
   zl ← (if negb (tail =? np) then set_TAIL_OFFSET zl (u32 (tail + 4)) else Ret zl);
   zl ← memmove zl (np + 5) (np + 1) (curlen - np - 1 - 1);
   '(zl, _) ← zipPrevEncodeLength zl (Some np) r;
   k zl) =
  k (header (curlen + 4) (if last then L else L + 4) c ++ pre ++ entry_image r y ++ post ++ [ZIP_END]).
Proof.
  intros Hz Hnp Hcz Hc HL H1 H5 Hy Hlast. unfold entry_image in *.
  assert (curlen = 11 + Z.of_nat (length (pre ++ (prev_image (e_large y) q ++ content_image (e_val y)) ++ post)))
    as Hcl by (rewrite Hcz, Hz; rewrite !length_app, length_header; cbn; lia).
  assert (zl = header T L c ++ (pre ++ (prev_image (e_large y) q ++ content_image (e_val y)) ++ post) ++ [ZIP_END])
    as -> by (rewrite Hz; now rewrite <- !app_assoc).
  clear Hcz. rewrite (zl_resize_grow _ _ _ _ _ 4) by lia. cbn [mbind res_bind].
  rewrite get_tail by (unfold in_u; lia). cbn [mbind res_bind]. rewrite Hlast.
  assert (forall rest, (if negb last then set_TAIL_OFFSET (header (curlen + 4) L c ++ rest) (u32 (L + 4))
          else Ret (header (curlen + 4) L c ++ rest)) =
          Ret (header (curlen + 4) (if last then L else L + 4) c ++ rest)) as Htail.
  { intros rest. destruct last; [done|]. cbn [negb]. rewrite put_tail, uwrap_id by (unfold in_u; lia). done. }
  rewrite Htail. cbn [mbind res_bind]. clear Htail.
  set (hd := header _ _ c). assert (length hd = 10%nat) as Hhd by apply length_header.
  revert H1 Hcl. destruct (prev_image (e_large y) q) as [|x [|]]; intros H1 Hcl; try discriminate.
  replace (hd ++ (pre ++ ([x] ++ content_image (e_val y)) ++ post) ++ _) with
    ((hd ++ pre ++ [x]) ++ (content_image (e_val y) ++ post) ++
     (take 4 (ZIP_END :: replicate 4 junk) ++ [ZIP_END])) by now rewrite <- !app_assoc.
  rewrite (move_up _ _ _ 4); [|len; rewrite Hhd; lia| |lia|cbn; lia].
  2: { rewrite Hcl, Hnp, <- !app_assoc. rewrite !length_app. cbn [length]. lia. }
  cbn [mbind res_bind]. set (g := take 4 (_ ++ _)).
  assert (length g = 4%nat) as Hg by (unfold g; autorewrite with redis; cbn [length]; autorewrite with redis; lia).
  replace ((hd ++ pre ++ [x]) ++ g ++ _) with
    ((hd ++ pre) ++ ([x] ++ g) ++ (content_image (e_val y) ++ post) ++ [ZIP_END])
    by (rewrite <- !app_assoc; done).
  rewrite Hy in *.
  rewrite prev_encode_write; [|len; rewrite Hhd; lia|rewrite length_app, Hg, H5; done].
  cbn [mbind res_bind]. rewrite <- !app_assoc. done.
Qed.

Section Head.
Context (fuel : nat) (pre : list Z) (q0 : Z) (e : zent) (p r : Z).
Context (He : content_ok (e_val e)) (Hq0 : 0 <= q0 < 2 ^ 32) (Hp : p = Z.of_nat (length pre)).
Context (Hr : r = raw_len q0 e) (Hr32 : r < 2 ^ 32).

Lemma cascade_end T : cascade_loop junk (S fuel) (pre ++ entry_image q0 e ++ [ZIP_END]) p T =
  Ret (pre ++ entry_image q0 e ++ [ZIP_END]).
Proof.
  cbn [cascade_loop]. boundary (entry_not_end pre q0 e [ZIP_END] p Hp ltac:(lia)).
  rewrite zipEntry_ok by done. cbn [mbind res_bind decoded headersize zlen].
  rewrite <- raw_len_parts, <- Hr, uwrap_id by (unfold in_u, raw_len in *; lia).
  rewrite prev_encode_size. cbn [mbind res_bind].
  rewrite app_assoc, rd_mid; [done|]. rewrite length_app. unfold raw_len in Hr. lia.
Qed.

Lemma cascade_next T q y post : content_ok (e_val y) -> 0 <= q < 2 ^ 32 ->
  let zl := pre ++ entry_image q0 e ++ entry_image q y ++ post in
  let psize := Z.of_nat (length (prev_image (e_large y) q)) in
  let rsize := Z.of_nat (length (prev_image false r)) in
  cascade_loop junk (S fuel) zl p T =
  if q =? r then Ret zl
  else if psize <? rsize then
    zl ← ziplistResize junk zl (T + (rsize - psize));
    tail ← ZIPLIST_TAIL_OFFSET zl;
    zl ← (if negb (tail =? p + r) then set_TAIL_OFFSET zl (u32 (tail + (rsize - psize))) else Ret zl);
    zl ← memmove zl (p + r + rsize) (p + r + psize) (T - (p + r) - psize - 1);
    '(zl, _) ← zipPrevEncodeLength zl (Some (p + r)) r;
    cascade_loop junk fuel zl (p + r) (T + (rsize - psize))
  else if rsize <? psize then zipPrevEncodeLengthForceLarge zl (p + r) r
  else '(zl, _) ← zipPrevEncodeLength zl (Some (p + r)) r; Ret zl.
Proof.
  intros Hy Hq zl psize rsize. cbn [cascade_loop]. unfold zl.
  boundary (entry_not_end pre q0 e (entry_image q y ++ post) p Hp ltac:(lia)).
  rewrite zipEntry_ok by done. cbn [mbind res_bind decoded headersize zlen].
  rewrite <- raw_len_parts, <- Hr, uwrap_id by (unfold in_u, raw_len in *; lia).
  rewrite prev_encode_size. cbn [mbind res_bind].
  assert (p + r = Z.of_nat (length (pre ++ entry_image q0 e))) as Hnp
    by (rewrite length_app; unfold raw_len in Hr; lia).
  destruct (entry_not_end (pre ++ entry_image q0 e) q y post (p + r) Hnp ltac:(lia)) as (b' & Hb' & He').
  rewrite <- app_assoc in Hb'. rewrite Hb'. cbn [mbind res_bind]. rewrite He'.
  pose proof (zipEntry_ok (pre ++ entry_image q0 e) q y post (p + r) Hy Hnp Hq) as Hn.
  rewrite <- app_assoc in Hn. rewrite Hn. reflexivity.
Qed.
End Head.

(** The loop restores the links after an entry [e] whose length is not the
    one [q] its successor records. *)
Lemma cascade_loop_ok ys : forall fuel T L c pre q0 e q base,
  let r := raw_len q0 e in
  let zl := header T L c ++ pre ++ entry_image q0 e ++ entries_image q ys ++ [ZIP_END] in
  es_ok (e :: ys) -> 0 <= q0 < 2 ^ 32 -> 0 <= q < 2 ^ 32 ->
  T = Z.of_nat (length zl) -> T + 4 * Z.of_nat (length ys) < 2 ^ 32 ->
  (ys <> [] -> base = 10 + Z.of_nat (length pre) + r) -> L = base + last_off q ys ->
  (length ys < fuel)%nat ->
  exists ys', same_vals ys ys' /\
    Z.of_nat (length (entries_image r ys')) <= Z.of_nat (length (entries_image q ys)) + 4 * Z.of_nat (length ys) /\
    cascade_loop junk fuel zl (10 + Z.of_nat (length pre)) T =
    Ret (header (11 + Z.of_nat (length pre) + r + Z.of_nat (length (entries_image r ys')))
           (base + last_off r ys') c ++
         pre ++ entry_image q0 e ++ entries_image r ys' ++ [ZIP_END]).
Proof.
  induction ys as [|y ys IH]; intros fuel T L c pre q0 e q base r zl Hok Hq0 Hq HT Hs Hbase HL Hf;
    (destruct fuel as [|fuel]; [cbn in Hf; lia|]); apply Forall_cons in Hok as [He Hok];
    pose proof (raw_len_pos q0 e He) as Hr; fold r in Hr;
    assert (length (header T L c) = 10%nat) as Hhd by apply length_header;
    set (p := 10 + Z.of_nat (length pre));
    assert (p = Z.of_nat (length (header T L c ++ pre))) as Hp by (rewrite length_app, Hhd; lia).
  - exists []. split; [done|]. split; [cbn; lia|]. unfold zl in *. cbn [entries_image app last_off length] in *.
    rewrite !length_app, Hhd in HT. cbn [length] in HT. unfold r, raw_len in *. rewrite app_assoc.
    rewrite cascade_end with (r := raw_len q0 e); auto; [|unfold raw_len; lia].
    rewrite <- app_assoc. do 3 f_equal; lia.
  - apply Forall_cons in Hok as [Hy Hok]. cbn [length] in Hs, Hf.
    set (post := entries_image (raw_len q y) ys ++ [ZIP_END]).
    assert (zl = (header T L c ++ pre) ++ entry_image q0 e ++ entry_image q y ++ post) as Hz
      by (unfold zl, post; cbn [entries_image]; now rewrite <- !app_assoc).
    assert (T = 11 + Z.of_nat (length pre) + r + raw_len q y +
                Z.of_nat (length (entries_image (raw_len q y) ys))) as HT'
      by (rewrite HT, Hz; unfold post, r, raw_len; rewrite !length_app, Hhd; cbn [length]; lia).
    specialize (Hbase ltac:(done)). pose proof (raw_len_pos q y Hy) as Hry.
    rewrite Hz, (cascade_next fuel _ q0 e p r) by (auto; lia).
    destruct (Z.eqb_spec q r) as [->|Hqr].
    { exists (y :: ys). split; [done|]. split; [lia|]. rewrite <- Hz. unfold zl. do 3 f_equal; [|done].
      cbn [entries_image]. rewrite length_app. unfold raw_len in *. lia. }
    assert (forall y' C, e_val y' = e_val y ->
      length (prev_image (e_large y') r) = length (prev_image (e_large y) q) ->
      C = Ret ((header T L c ++ pre) ++ entry_image q0 e ++ entry_image r y' ++ post) ->
      exists ys', same_vals (y :: ys) ys' /\
        Z.of_nat (length (entries_image r ys')) <=
          Z.of_nat (length (entries_image q (y :: ys))) + 4 * Z.of_nat (S (length ys)) /\
        C = Ret (header (11 + Z.of_nat (length pre) + r + Z.of_nat (length (entries_image r ys')))
                 (base + last_off r ys') c ++ pre ++ entry_image q0 e ++ entries_image r ys' ++ [ZIP_END]))
      as Hfin.
    { intros y' C Hv Hl ->. exists (y' :: ys).
      pose proof (same_size_image q r y y' ltac:(done) ltac:(done)) as Hrl.
      split; [unfold same_vals; cbn [map]; congruence|]. cbn [entries_image]. rewrite Hrl, !length_app.
      fold (raw_len r y') (raw_len q y).
      split; [unfold raw_len in *; lia|]. unfold post. rewrite <- !app_assoc. do 3 f_equal.
      - unfold raw_len in *; lia.
      - rewrite HL. destruct ys; [done|]. rewrite (last_off_cons q y), (last_off_cons r y') by done. now rewrite Hrl. }
    assert (p + r = Z.of_nat (length ((header T L c ++ pre) ++ entry_image q0 e))) as Hpr
      by (rewrite length_app; unfold r, raw_len; lia).
    rewrite <- Hz. destruct (prev_size_cases false r) as [(H5 & _ & Hr5)|(H5 & [?|Hr5])]; [lia| |done|];
    rewrite H5; (destruct (prev_size_cases (e_large y) q) as [(H1 & Hl1 & Hq1)|(H1 & Hq1)]; [lia| |]);
    rewrite H1; change (Z.of_nat 1) with 1; change (Z.of_nat 5) with 5;
    cbn [Z.ltb Z.compare Pos.compare Pos.compare_cont].
    + apply (Hfin y); [done|rewrite H1, Hl1; exact H5|]. rewrite Hz, app_assoc. unfold entry_image at 2.
      rewrite <- (app_assoc (prev_image _ _)), prev_encode_write; [|done|congruence]. cbn [mbind res_bind].
      unfold entry_image. rewrite Hl1. now rewrite <- !app_assoc.
    + apply (Hfin (mk_zent true (e_val y))); [done|now rewrite H1|]. rewrite Hz, app_assoc. unfold entry_image at 2.
      rewrite <- (app_assoc (prev_image _ _)), prev_encode_large; [|done|congruence].
      unfold entry_image. cbn [e_large e_val]. now rewrite <- !app_assoc.
    + assert (length (prev_image (e_large y) r) = 5%nat) as H5' by now rewrite Hl1.
      assert (raw_len r y = raw_len q y + 4) as Hg by (rewrite (raw_len_change q r y y) by done; lia).
      set (last := match ys with [] => true | _ => false end).
      assert ((L =? p + r) = last /\ L = base + (if last then 0 else raw_len q y + last_off (raw_len q y) ys))
        as [Hlast HL'].
      { pose proof (last_off_nonneg ys (raw_len q y)). unfold last. destruct ys as [|y' ys].
        - cbn [last_off] in HL. split; [apply Z.eqb_eq|]; lia.
        - rewrite last_off_cons in HL by done. split; [apply Z.eqb_neq|]; lia. }
      destruct (IH fuel (T + 4) (if last then L else L + 4) c (pre ++ entry_image q0 e) r y (raw_len q y)
        (if last then base else base + raw_len r y)) as (ys' & Hv & Hle & Hrun).
      * now apply Forall_cons.
      * lia.
      * lia.
      * rewrite !length_app, length_header. unfold r, raw_len in *. cbn [length]. lia.
      * lia.
      * unfold last. destruct ys; [done|]. intros _. rewrite length_app. unfold r, raw_len in *. lia.
      * rewrite HL'. unfold last. destruct ys; cbn [last_off]; lia.
      * lia.
      * exists (y :: ys'). split; [unfold same_vals in *; cbn [map]; congruence|].
        split; [cbn [entries_image length]; rewrite !length_app; unfold raw_len in *; lia|].
        assert (zl = header T L c ++ (pre ++ entry_image q0 e) ++ entry_image q y ++
                     entries_image (raw_len q y) ys ++ [ZIP_END]) as Hz2
          by (rewrite Hz; unfold post; now rewrite <- !app_assoc).
        assert (p + r = 10 + Z.of_nat (length (pre ++ entry_image q0 e))) as Hpr2
          by (rewrite length_app; unfold r, raw_len; lia).
        pose proof (last_off_le (y :: ys) q ltac:(lia)) as Hlo. cbn [entries_image] in Hlo.
        rewrite length_app in Hlo. fold (raw_len q y) in Hlo. pose proof (last_off_nonneg (y :: ys) q).
        assert (0 <= L < 2 ^ 32 - 4) by (unfold raw_len in *; lia).
        change (5 - 1) with 4.
        rewrite (cascade_grow T L c (pre ++ entry_image q0 e) y q r (entries_image (raw_len q y) ys) last
          (fun zl => cascade_loop junk fuel zl (p + r) (T + 4)) zl (p + r) T) by (auto || lia).
        rewrite Hpr2, Hrun.
        cbn [entries_image]. rewrite <- !app_assoc. do 3 f_equal.
        -- rewrite !length_app. unfold r, raw_len in *. lia.
        -- unfold last. destruct ys as [|y' ys], ys' as [|z' ys']; try discriminate; [done|].
           rewrite (last_off_cons r y) by done. lia.
    + assert (prev_image (e_large y) r = prev_image false r) as Hpi.
      { unfold prev_image. destruct (Z.leb_spec ZIP_BIGLEN r); [|lia]. now rewrite !orb_true_r. }
      apply (Hfin y); [done|congruence|]. rewrite Hz, app_assoc. unfold entry_image at 2.
      rewrite <- (app_assoc (prev_image _ _)), prev_encode_write; [|done|congruence]. cbn [mbind res_bind].
      unfold entry_image. rewrite Hpi. now rewrite <- !app_assoc.
Qed.

End Cascade.

(** ** Assembling a representation *)

Definition cnt_ok (c : Z) (es : list zent) : Prop :=
  c = UINT16_MAX \/ c = Z.of_nat (length es) /\ c < UINT16_MAX.

(** The block of the entries [xs ++ ys], [ys] not empty. *)
Definition block (c : Z) (xs ys : list zent) : list Z :=
  header (11 + Z.of_nat (length (entries_image 0 (xs ++ ys)))) (offset xs + last_off (last_raw 0 xs) ys) c ++
  entries_image 0 (xs ++ ys) ++ [ZIP_END].

Lemma length_block c xs ys :
  Z.of_nat (length (block c xs ys)) = 11 + Z.of_nat (length (entries_image 0 (xs ++ ys))).
Proof. unfold block. rewrite !length_app, length_header. cbn [length]. lia. Qed.

Lemma block_split c xs ys :
  block c xs ys =
  header (11 + Z.of_nat (length (entries_image 0 xs)) + Z.of_nat (length (entries_image (last_raw 0 xs) ys)))
    (offset xs + last_off (last_raw 0 xs) ys) c ++
  entries_image 0 xs ++ entries_image (last_raw 0 xs) ys ++ [ZIP_END].
Proof.
  unfold block. rewrite entries_image_app, length_app, <- app_assoc. do 2 f_equal. lia.
Qed.

Lemma tail_block xs ys : ys <> [] ->
  offset (xs ++ ys) - last_raw 0 (xs ++ ys) = offset xs + last_off (last_raw 0 xs) ys.
Proof.
  intros Hn. rewrite last_off_image, last_raw_app by done. unfold offset.
  rewrite entries_image_app, length_app. lia.
Qed.

Lemma block_rep c xs ys : ys <> [] -> es_ok (xs ++ ys) -> cnt_ok c (xs ++ ys) ->
  Z.of_nat (length (block c xs ys)) < 2 ^ 32 -> ziplist_rep (block c xs ys) (xs ++ ys).
Proof.
  intros Hn Hok Hc Hs. split; [|done|done]. exists c. split; [|done].
  now rewrite length_block, tail_block.
Qed.

Lemma rep_block zl xs ys : ziplist_rep zl (xs ++ ys) -> ys <> [] ->
  exists c, zl = block c xs ys /\ cnt_ok c (xs ++ ys).
Proof.
  intros R Hn. pose proof (zl_length _ _ R) as Hl. destruct (zr_image _ _ R) as (c & E & Hc).
  exists c. split; [|done]. rewrite E. unfold block. rewrite tail_block by done. do 2 f_equal.
  unfold offset, ZIPLIST_HEADER_SIZE in Hl. lia.
Qed.

Lemma cnt_u16 c es : cnt_ok c es -> in_u 16 c.
Proof. unfold cnt_ok, in_u, UINT16_MAX. lia. Qed.

Lemma same_vals_texts es es' : same_vals es es' -> texts es = texts es'.
Proof.
  unfold same_vals, texts. intros E. rewrite <- !(map_map e_val text). now rewrite E.
Qed.

Lemma same_vals_length es es' : same_vals es es' -> length es = length es'.
Proof. unfold same_vals. intros E. rewrite <- (length_map e_val es), E. apply length_map. Qed.

(** ** Steps shared by insertion and deletion *)

(** Adjusting the tail: by [a], and by [nd] when the entry [y] is not the
    last one. *)
Lemma fix_tail T L c pre q y post ys p a nd {A} (k : list Z -> res A) :
  content_ok (e_val y) -> 0 <= q < 2 ^ 32 -> p = 10 + Z.of_nat (length pre) ->
  post = entries_image (raw_len q y - nd) ys ++ [ZIP_END] -> 0 <= raw_len q y - nd ->
  in_u 32 L -> in_u 32 (L + a) -> (ys <> [] -> in_u 32 (L + a + nd)) ->
  (t ← ZIPLIST_TAIL_OFFSET (header T L c ++ pre ++ entry_image q y ++ post);
   zl ← set_TAIL_OFFSET (header T L c ++ pre ++ entry_image q y ++ post) (u32 (t + a));
   tail ← zipEntry zl p;
   b ← rd zl (p + headersize tail + zlen tail);
   zl ← (if negb (b =? ZIP_END)
         then t ← ZIPLIST_TAIL_OFFSET zl; set_TAIL_OFFSET zl (u32 (t + nd))
         else Ret zl);
   k zl) =
  k (header T (L + a + (match ys with [] => 0 | _ => nd end)) c ++ pre ++ entry_image q y ++ post).
Proof.
  intros Hy Hq Hp -> Hnn HL HLa HLn. rewrite get_tail by done. cbn [mbind res_bind].
  rewrite put_tail, (uwrap_id 32 (L + a)) by done. cbn [mbind res_bind].
  assert (length (header T (L + a) c) = 10%nat) as Hh by apply length_header.
  set (hd := header T (L + a) c) in *.
  assert (zipEntry (hd ++ pre ++ entry_image q y ++ entries_image (raw_len q y - nd) ys ++ [ZIP_END]) p =
    Ret (decoded q y p)) as ->.
  { rewrite app_assoc. apply zipEntry_ok; [done| |done]. rewrite length_app. lia. }
  cbn [mbind res_bind decoded headersize zlen]. rewrite Z.add_assoc, <- !(Z.add_assoc p), <- raw_len_parts.
  replace (hd ++ pre ++ entry_image q y ++ entries_image (raw_len q y - nd) ys ++ [ZIP_END])
    with (((hd ++ pre) ++ entry_image q y) ++ entries_image (raw_len q y - nd) ys ++ [ZIP_END])
    by now rewrite <- !app_assoc.
  assert (p + raw_len q y = Z.of_nat (length ((hd ++ pre) ++ entry_image q y))) as Hn
    by (rewrite !length_app, Hh; unfold raw_len; lia).
  destruct ys as [|y2 ys]; cbn [entries_image].
  - cbn [app]. rewrite rd_mid by done. change (ZIP_END =? ZIP_END) with true. cbn [negb mbind res_bind].
    rewrite Z.add_0_r. now rewrite <- !app_assoc.
  - rewrite <- (app_assoc (entry_image _ y2)).
    boundary (entry_not_end ((hd ++ pre) ++ entry_image q y) (raw_len q y - nd) y2 (entries_image
      (raw_len (raw_len q y - nd) y2) ys ++ [ZIP_END]) (p + raw_len q y) Hn Hnn).
    unfold hd. rewrite <- !app_assoc. rewrite get_tail by done. cbn [mbind res_bind].
    rewrite put_tail, uwrap_id by auto. done.
Qed.

Lemma fix_tail_ret T L c pre q y post ys p a nd :
  content_ok (e_val y) -> 0 <= q < 2 ^ 32 -> p = 10 + Z.of_nat (length pre) ->
  post = entries_image (raw_len q y - nd) ys ++ [ZIP_END] -> 0 <= raw_len q y - nd ->
  in_u 32 L -> in_u 32 (L + a) -> (ys <> [] -> in_u 32 (L + a + nd)) ->
  (t ← ZIPLIST_TAIL_OFFSET (header T L c ++ pre ++ entry_image q y ++ post);
   zl ← set_TAIL_OFFSET (header T L c ++ pre ++ entry_image q y ++ post) (u32 (t + a));
   tail ← zipEntry zl p;
   b ← rd zl (p + headersize tail + zlen tail);
   (if negb (b =? ZIP_END)
    then t ← ZIPLIST_TAIL_OFFSET zl; set_TAIL_OFFSET zl (u32 (t + nd))
    else Ret zl)) =
  Ret (header T (L + a + (match ys with [] => 0 | _ => nd end)) c ++ pre ++ entry_image q y ++ post).
Proof.
  intros. rewrite <- (fix_tail T L c pre q y post ys p a nd Ret) by done.
  do 4 (match goal with |- ?m ≫= _ = ?m ≫= _ => destruct m; [cbn [mbind res_bind]|done] end).
  destruct (negb _); [|done]. destruct (ZIPLIST_TAIL_OFFSET _); [cbn [mbind res_bind]|done].
  now destruct (set_TAIL_OFFSET _ _).
Qed.

(** The cascade from the entry [e], whose successors record [q] as its
    length. *)
Lemma cascade_run junk T L c pre q0 e q ys p :
  let r := raw_len q0 e in
  es_ok (e :: ys) -> 0 <= q0 < 2 ^ 32 -> 0 <= q < 2 ^ 32 ->
  p = 10 + Z.of_nat (length pre) ->
  T = 11 + Z.of_nat (length pre) + r + Z.of_nat (length (entries_image q ys)) ->
  T + 4 * Z.of_nat (length ys) < 2 ^ 32 ->
  L = p + (match ys with [] => 0 | _ => r + last_off q ys end) ->
  exists ys', same_vals ys ys' /\
    Z.of_nat (length (entries_image r ys')) <= Z.of_nat (length (entries_image q ys)) + 4 * Z.of_nat (length ys) /\
    __ziplistCascadeUpdate junk (header T L c ++ pre ++ entry_image q0 e ++ entries_image q ys ++ [ZIP_END]) p =
    Ret (header (11 + Z.of_nat (length pre) + Z.of_nat (length (entries_image q0 (e :: ys'))))
           (p + last_off q0 (e :: ys')) c ++
         pre ++ entries_image q0 (e :: ys') ++ [ZIP_END]).
Proof.
  intros r Hok Hq0 Hq Hp HT Hs HL. cbn [entries_image].
  unfold __ziplistCascadeUpdate.
  rewrite get_bytes by (unfold in_u, r, raw_len in *; lia). cbn [mbind res_bind].
  assert (T = Z.of_nat (length (header T L c ++ pre ++ entry_image q0 e ++ entries_image q ys ++ [ZIP_END]))) as HTl.
  { rewrite HT. rewrite !length_app, length_header. unfold r, raw_len. cbn [length]. lia. }
  destruct (cascade_loop_ok junk ys (length (header T L c ++ pre ++ entry_image q0 e ++ entries_image q ys ++ [ZIP_END]))
    T L c pre q0 e q (p + match ys with [] => 0 | _ => r end)) as (ys' & Hv & Hle & Hrun); auto.
  - destruct ys; [done|]. fold r. lia.
  - rewrite HL. destruct ys; cbn [last_off]; lia.
  - apply Forall_cons in Hok as [He Hok]. pose proof (entries_length ys q Hok).
    pose proof (raw_len_pos q0 e He) as Hr. fold r in Hr. lia.
  - fold r in Hle, Hrun. exists ys'. split; [done|]. split; [done|]. rewrite Hp, Hrun.
    rewrite <- (Z.add_assoc p). rewrite Hp, <- !app_assoc. do 3 f_equal.
    + rewrite length_app. unfold r, raw_len in *. lia.
    + f_equal. destruct ys, ys'; try discriminate; [done|]. now rewrite (last_off_cons q0 e).
Qed.

(** The same, when the code first tests whether the length has changed. *)
Lemma cascade_after junk T L c pre q0 e q ys p :
  let r := raw_len q0 e in
  es_ok (e :: ys) -> 0 <= q0 < 2 ^ 32 -> 0 <= q < 2 ^ 32 ->
  p = 10 + Z.of_nat (length pre) ->
  T = 11 + Z.of_nat (length pre) + r + Z.of_nat (length (entries_image q ys)) ->
  T + 4 * Z.of_nat (length ys) < 2 ^ 32 ->
  L = p + (match ys with [] => 0 | _ => r + last_off q ys end) ->
  exists ys', same_vals ys ys' /\
    Z.of_nat (length (entries_image r ys')) <= Z.of_nat (length (entries_image q ys)) + 4 * Z.of_nat (length ys) /\
    (if negb (r - q =? 0)
     then __ziplistCascadeUpdate junk (header T L c ++ pre ++ entry_image q0 e ++ entries_image q ys ++ [ZIP_END]) p
     else Ret (header T L c ++ pre ++ entry_image q0 e ++ entries_image q ys ++ [ZIP_END])) =
    Ret (header (11 + Z.of_nat (length pre) + Z.of_nat (length (entries_image q0 (e :: ys'))))
           (p + last_off q0 (e :: ys')) c ++
         pre ++ entries_image q0 (e :: ys') ++ [ZIP_END]).
Proof.
  intros r Hok Hq0 Hq Hp HT Hs HL. destruct (Z.eqb_spec (r - q) 0); cbn [negb]; [|now apply cascade_run].
  assert (q = r) as -> by lia. exists ys. split; [done|]. split; [lia|]. cbn [entries_image]. rewrite <- !app_assoc.
  do 3 f_equal; [rewrite length_app; unfold r, raw_len in *; lia|].
  rewrite HL. destruct ys; [done|]. now rewrite (last_off_cons q0 e).
Qed.

(** ** Insertion *)

Section Insert.
Context (junk : Z) (s : list Z) (prev : Z).
Context (Hs : bytes_ok s) (Hs32 : Z.of_nat (length s) < 2 ^ 32) (Hprev : 0 <= prev < 2 ^ 32).

Definition new_ent : zent := mk_zent false (content_of s).

(** The value, the encoding and the body length __ziplistInsert computes. *)
Definition plan : Z * Z * Z :=
  match zipTryEncoding s with
  | Some (value, enc) => (value, enc, zipIntSize enc)
  | None => (123456789, 0, Z.of_nat (length s))
  end.

Lemma int_enc_not_str enc v : int_ok enc v -> ZIP_IS_STR enc = false.
Proof. intros H. apply (is_str (CInt enc v) H). Qed.

Lemma plan_size value enc n : plan = (value, enc, n) ->
  n + Z.of_nat (length (prev_image false prev)) + Z.of_nat (length (length_buf enc (Z.of_nat (length s)))) =
  raw_len prev new_ent.
Proof.
  unfold plan, new_ent, content_of. rewrite raw_len_parts. cbn [e_val e_large].
  destruct (zipTryEncoding s) as [[v e]|] eqn:E; intros [= <- <- <-]; unfold lensize_of, len_of;
    cbn [content_head content_body]; [|lia].
  apply try_encoding_some in E as (Hi & _ & _). unfold length_buf. rewrite (int_enc_not_str e v) by done.
  rewrite length_int_image. cbn [length]. lia.
Qed.

(** Storing the entry in the space made for it. *)
Lemma write_entry pre hole post p value enc n (k : list Z -> res (list Z)) : plan = (value, enc, n) ->
  p = Z.of_nat (length pre) -> Z.of_nat (length hole) = raw_len prev new_ent ->
  ('(zl, n) ← zipPrevEncodeLength (pre ++ hole ++ post) (Some p) prev;
   let p := p + n in
   '(zl, n) ← zipEncodeLength zl (Some p) enc (Z.of_nat (length s));
   let p := p + n in
   zl ← (if ZIP_IS_STR enc then memwrite zl p s else zipSaveInteger zl p value enc);
   k zl) =
  k (pre ++ entry_image prev new_ent ++ post).
Proof.
  intros Hpl Hp Hh. pose proof (plan_size value enc n Hpl) as Hsize. rewrite <- Hh in Hsize.
  set (lb := length_buf enc (Z.of_nat (length s))) in *.
  set (pi := prev_image false prev) in *.
  assert (exists h1 h2 h3, hole = h1 ++ h2 ++ h3 /\ length h1 = length pi /\ length h2 = length lb /\
    Z.of_nat (length h3) = n) as (h1 & h2 & h3 & -> & H1 & H2 & H3).
  { assert (0 <= n) by (unfold plan in Hpl; destruct (zipTryEncoding s) as [[v e]|]; injection Hpl as _ _ <-;
      [pose proof (int_size_nonneg e)|]; lia).
    exists (take (length pi) hole), (take (length lb) (drop (length pi) hole)), (drop (length lb) (drop (length pi) hole)).
    rewrite !take_drop. split; [done|]. rewrite !length_take, !length_drop. lia. }
  rewrite <- !app_assoc. rewrite prev_encode_write by done. cbn [mbind res_bind]. cbv zeta. fold pi.
  cbn [zipEncodeLength]. fold lb. rewrite (app_assoc pre).
  rewrite write_mid by (rewrite ?length_app; lia). cbn [mbind res_bind]. rewrite (app_assoc (pre ++ pi)).
  assert (forall zl' : list Z, zl' = (pre ++ entry_image prev new_ent ++ post) -> k zl' = k (pre ++ entry_image prev new_ent ++ post))
    as Hk by now intros ? ->.
  assert (Z.of_nat (length ((pre ++ pi) ++ lb)) = p + Z.of_nat (length pi) + Z.of_nat (length lb)) as Hp3
    by (rewrite !length_app; lia).
  unfold plan in Hpl. unfold new_ent, content_of, entry_image in *.
  destruct (zipTryEncoding s) as [[v e]|] eqn:E; injection Hpl as <- <- <-.
  - apply try_encoding_some in E as (Hi & _ & _). rewrite (int_enc_not_str e v) by done.
    rewrite save_int by done. cbn [mbind res_bind]. apply Hk. unfold content_image. cbn [e_val e_large content_head content_body].
    unfold lb, length_buf. rewrite (int_enc_not_str e v) by done. now rewrite <- !app_assoc.
  - change (ZIP_IS_STR 0) with true. cbn iota. rewrite write_mid by (done || lia). cbn [mbind res_bind]. apply Hk.
    unfold content_image. cbn [e_val e_large content_head content_body]. now rewrite <- !app_assoc.
Qed.

(** In the middle of the list: the block grows, the entries move, the next
    one gets the new length, the cascade follows. *)
Lemma zl_open_gap c X y ys L r T p nd (k : list Z -> res (list Z)) :
  let B := content_image (e_val y) ++ entries_image (raw_len prev y) ys in
  let Y := entry_image prev y ++ entries_image (raw_len prev y) ys in
  let y' := mk_zent false (e_val y) in
  es_ok (y :: ys) -> 2 <= r ->
  nd = Z.of_nat (length (prev_image false r)) - Z.of_nat (length (prev_image (e_large y) prev)) ->
  0 <= r + nd -> p = 10 + Z.of_nat (length X) -> L = p + last_off prev (y :: ys) ->
  T = 11 + Z.of_nat (length X) + Z.of_nat (length Y) ->
  T + r + 4 + 4 * Z.of_nat (length ys) < 2 ^ 32 ->
  exists ys' hole, same_vals ys ys' /\ Z.of_nat (length hole) = r /\
    Z.of_nat (length (entries_image r (y' :: ys'))) <= Z.of_nat (length Y) + nd + 4 * Z.of_nat (length ys) /\
  (zl ← ziplistResize junk (header T L c ++ X ++ Y ++ [ZIP_END]) (T + r + nd);
   b ← rd zl p;
   zl ←
     (if negb (b =? ZIP_END) then
        zl ← memmove zl (p + r) (p - nd) (T - p - 1 + nd);
        '(zl, _) ← zipPrevEncodeLength zl (Some (p + r)) r;
        t ← ZIPLIST_TAIL_OFFSET zl;
        zl ← set_TAIL_OFFSET zl (u32 (t + r));
        tail ← zipEntry zl (p + r);
        b ← rd zl (p + r + headersize tail + zlen tail);
        (if negb (b =? ZIP_END)
         then t ← ZIPLIST_TAIL_OFFSET zl; set_TAIL_OFFSET zl (u32 (t + nd))
         else Ret zl)
      else set_TAIL_OFFSET zl (u32 p));
   zl ← (if negb (nd =? 0) then __ziplistCascadeUpdate junk zl (p + r) else Ret zl);
   k zl) =
  k (header (11 + Z.of_nat (length X) + r + Z.of_nat (length (entries_image r (y' :: ys'))))
       (p + r + last_off r (y' :: ys')) c ++ X ++ hole ++ entries_image r (y' :: ys') ++ [ZIP_END]).
Proof.
  intros B Y y' Hok Hr Hnd Hgrow Hp HL HT Hbnd. apply Forall_cons in Hok as [Hy Hok].
  pose proof (prev_size_cases false r ltac:(lia)) as Hrs. pose proof (prev_size_cases (e_large y) prev ltac:(lia)) as Hps.
  assert (-4 <= nd <= 4) as Hnd4 by lia. clear Hrs Hps.
  set (P := prev_image (e_large y) prev) in *.
  assert (Y = P ++ B) as HY by (unfold Y, B, P, entry_image; now rewrite <- app_assoc).
  rewrite (app_assoc X). rewrite (zl_resize_grow _ _ _ _ _ (Z.to_nat (r + nd)))
    by (rewrite ?length_app; lia).
  cbn [mbind res_bind]. set (C := take _ (_ :: _)).
  assert (length C = Z.to_nat (r + nd)) as HC by (unfold C; autorewrite with redis; cbn [length]; autorewrite with redis; lia).
  set (hd := header (T + r + nd) L c).
  assert (length hd = 10%nat) as Hhd by apply length_header.
  replace (hd ++ (X ++ Y) ++ C ++ [ZIP_END]) with
    ((hd ++ X) ++ entry_image prev y ++ entries_image (raw_len prev y) ys ++ C ++ [ZIP_END])
    by (unfold Y; now rewrite <- !app_assoc).
  boundary (entry_not_end (hd ++ X) prev y (entries_image (raw_len prev y) ys ++ C ++ [ZIP_END]) p
    ltac:(rewrite length_app; lia) ltac:(lia)).
  replace ((hd ++ X) ++ entry_image prev y ++ entries_image (raw_len prev y) ys ++ C ++ [ZIP_END]) with
    ((hd ++ X) ++ P ++ B ++ C ++ [ZIP_END]) by (unfold B, P, entry_image; now rewrite <- !app_assoc).
  pose proof (length_prev_image false r) as Hsz. cbn [orb] in Hsz.
  assert (length (prev_image false r) <= 5)%nat as Hg5 by (destruct (ZIP_BIGLEN <=? r); lia).
  destruct (move_gap (hd ++ X) P B C (Z.to_nat r) (length (prev_image false r)) (p + r) (p - nd) (T - p - 1 + nd))
    as (hole & fld & Hhole & Hfld & Hmv); [rewrite ?length_app, ?Hhd; try lia..|].
  { rewrite HT, HY, length_app. lia. }
  rewrite Hmv. cbn [mbind res_bind]. clear Hmv.
  rewrite (app_assoc (hd ++ X)), prev_encode_write by (rewrite ?length_app; (done || lia)). cbn [mbind res_bind].
  pose proof (raw_len_change prev r y y' ltac:(done)) as Hrl. cbn [y' e_large] in Hrl. fold P in Hrl.
  assert (raw_len r y' - nd = raw_len prev y) as Hq by lia.
  replace (((hd ++ X) ++ hole) ++ prev_image false r ++ B ++ [ZIP_END]) with
    (hd ++ (X ++ hole) ++ entry_image r y' ++ entries_image (raw_len r y' - nd) ys ++ [ZIP_END])
    by (rewrite Hq; unfold B, entry_image, y'; cbn [e_large e_val]; now rewrite <- !app_assoc).
  unfold hd.
  assert (Z.of_nat (length (X ++ hole)) = Z.of_nat (length X) + r) as HXh by (rewrite length_app; lia).
  pose proof (last_off_le (y :: ys) prev ltac:(lia)) as Hlo. pose proof (last_off_nonneg (y :: ys) prev).
  cbn [entries_image] in Hlo. fold Y in Hlo. pose proof (raw_len_pos prev y Hy).
  rewrite (fix_tail_ret (T + r + nd) L c (X ++ hole) r y' _ ys); try (done || lia).
  all: try (unfold in_u; lia).
  cbn [mbind res_bind]. rewrite Hq.
  destruct (cascade_after junk (T + r + nd) (L + r + match ys with [] => 0 | _ => nd end) c (X ++ hole) r y'
    (raw_len prev y) ys (p + r)) as (ys' & Hv & Hle & Hrun); try lia.
  - now apply Forall_cons.
  - unfold Y in HT. rewrite length_app in HT. unfold raw_len in *. lia.
  - rewrite HXh. unfold Y in *. rewrite length_app in HT. unfold raw_len in *. lia.
  - rewrite HL. destruct ys as [|y2 ys]; [cbn [last_off]; lia|]. rewrite (last_off_cons prev y) by done. lia.
  - exists ys', hole. split; [done|]. split; [lia|]. split.
    { cbn [entries_image]. unfold Y in *. rewrite !length_app. unfold raw_len in *. lia. }
    replace nd with (raw_len r y' - raw_len prev y) at 1 by lia. rewrite Hrun. cbn [mbind res_bind].
    rewrite HXh, <- app_assoc, !Z.add_assoc. done.
Qed.

End Insert.

(** The case the code gets wrong: the entry at the insertion point keeps a
    five-byte field it does not need, and the new entry takes less than
    the four bytes that field gives back. *)
Definition insert_safe (prev : Z) (s : list Z) (ys : list zent) : Prop :=
  match ys with
  | [] => True
  | y :: _ => e_large y = true -> 4 <= raw_len prev (new_ent s)
  end.

Lemma prevlen_end zl es : ziplist_rep zl es ->
  (ptail ← ZIPLIST_ENTRY_TAIL zl;
   t ← rd zl ptail;
   if negb (t =? ZIP_END) then zipRawEntryLength zl ptail else Ret 0) = Ret (last_raw 0 es).
Proof.
  intros R. destruct (read_header zl es R) as (cnt & _ & Ht & _). unfold ZIPLIST_ENTRY_TAIL. rewrite Ht.
  cbn [mbind res_bind]. destruct (nil_or_last es) as [->|(xs & e & ->)].
  - replace (offset [] - last_raw 0 []) with (offset []) by (cbn; lia).
    boundary (rd_boundary zl [] R [] [] eq_refl). done.
  - replace (offset (xs ++ [e]) - last_raw 0 (xs ++ [e])) with (offset xs).
    + boundary (rd_boundary zl _ R xs [e] eq_refl).
      destruct (entry_here zl _ R xs e [] eq_refl) as (_ & -> & _). now rewrite last_raw_app.
    + rewrite (offset_snoc zl _ R xs e [] eq_refl), last_raw_app. cbn [last_raw]. lia.
Qed.

Lemma cnt_incr c es es' : cnt_ok c es -> length es' = S (length es) ->
  cnt_ok (if c <? UINT16_MAX then u16 (c + 1) else c) es'.
Proof.
  unfold cnt_ok, UINT16_MAX. intros H ->. destruct H as [->|[-> H]]; [now left|].
  destruct (Z.ltb_spec (Z.of_nat (length es)) 65535); [|lia].
  rewrite uwrap_id by (unfold in_u; lia). lia.
Qed.

(** How much the field of the next entry grows. *)
Definition next_diff (prev r : Z) (ys : list zent) : Z :=
  match ys with
  | [] => 0
  | y :: _ => Z.of_nat (length (prev_image false r)) - Z.of_nat (length (prev_image (e_large y) prev))
  end.

Lemma next_diff_le prev r ys : 0 <= prev -> 0 <= r -> -4 <= next_diff prev r ys <= 4.
Proof.
  intros Hp Hr. destruct ys as [|y ys]; cbn [next_diff]; [lia|].
  pose proof (prev_size_cases false r Hr). pose proof (prev_size_cases (e_large y) prev Hp). lia.
Qed.

Lemma byte_diff_ok zl xs y ys r : ziplist_rep zl (xs ++ y :: ys) -> 0 <= r ->
  zipPrevLenByteDiff zl (offset xs) r = Ret (next_diff (last_raw 0 xs) r (y :: ys)).
Proof.
  intros R Hr. unfold zipPrevLenByteDiff. destruct (entry_here zl _ R xs y ys eq_refl) as (_ & _ & _ & -> & _).
  cbn [mbind res_bind]. rewrite prev_encode_size. cbn [mbind res_bind next_diff].
  pose proof (prev_size_cases false r Hr). destruct (split_entry zl _ R xs y ys eq_refl) as (_ & _ & _ & _ & _ & _ & Hp & _).
  pose proof (prev_size_cases (e_large y) (last_raw 0 xs) ltac:(lia)).
  rewrite swrap_uwrap, swrap_id by (unfold in_s; lia). done.
Qed.

Lemma short_of_raw s prev : raw_len prev (new_ent s) < 2 ^ 32 -> Z.of_nat (length s) < 2 ^ 32.
Proof.
  rewrite raw_len_parts. unfold new_ent, content_of, len_of. cbn [e_val].
  destruct (zipTryEncoding s) as [[v e]|] eqn:E; [|unfold lensize_of; cbn [content_body]; lia].
  intros _. unfold zipTryEncoding in E. destruct (Z.leb_spec 32 (Z.of_nat (length s))); [done|]. lia.
Qed.

Lemma prev_range zl xs ys : ziplist_rep zl (xs ++ ys) ->
  0 <= last_raw 0 xs < 2 ^ 32 /\ offset xs = 10 + Z.of_nat (length (entries_image 0 xs)).
Proof.
  intros R. pose proof (zr_size _ _ R). pose proof (zl_length _ _ R) as Hl.
  pose proof (last_raw_nonneg xs 0 ltac:(lia)). pose proof (last_raw_le xs 0 ltac:(lia)).
  unfold offset, ZIPLIST_HEADER_SIZE in *. rewrite entries_image_app, length_app in Hl. lia.
Qed.

Lemma safe_grow prev s ys : 0 <= prev -> content_ok (content_of s) -> insert_safe prev s ys ->
  let r := raw_len prev (new_ent s) in 0 <= r + next_diff prev r ys.
Proof.
  intros Hp Hok Hsafe r. destruct ys as [|y ys]; cbn [next_diff insert_safe] in *; [unfold r, raw_len; lia|].
  pose proof (prev_size_cases false r ltac:(unfold r, raw_len; lia)).
  pose proof (prev_size_cases (e_large y) prev Hp) as [(? & _)|(H5 & [?|Hbig])];
    [unfold r, raw_len in *; lia|fold r in Hsafe; specialize (Hsafe ltac:(done)); lia|].
  enough (5 <= r) by lia. unfold r. rewrite raw_len_parts, length_prev_image. cbn [new_ent e_large e_val orb].
  pose proof (lensize_pos _ Hok). unfold len_of. destruct (Z.leb_spec ZIP_BIGLEN prev); lia.
Qed.

(** The end of the insertion, when the space for the entry is there. *)
Lemma insert_finish zl' T L c X hole post s prev p value enc n xs es' :
  bytes_ok s -> Z.of_nat (length s) < 2 ^ 32 -> 0 <= prev < 2 ^ 32 -> plan s = (value, enc, n) ->
  p = 10 + Z.of_nat (length X) -> Z.of_nat (length hole) = raw_len prev (new_ent s) ->
  X = entries_image 0 xs -> prev = last_raw 0 xs ->
  post = entries_image (raw_len prev (new_ent s)) es' ->
  T = 11 + Z.of_nat (length X) + raw_len prev (new_ent s) + Z.of_nat (length post) -> T < 2 ^ 32 ->
  L = p + last_off prev (new_ent s :: es') ->
  (exists es, cnt_ok c es /\ S (length es) = length (xs ++ new_ent s :: es')) ->
  es_ok (xs ++ es') -> zl' = header T L c ++ X ++ hole ++ post ++ [ZIP_END] ->
  exists zl'', ('(zl, n) ← zipPrevEncodeLength zl' (Some p) prev;
     let p := p + n in
     '(zl, n) ← zipEncodeLength zl (Some p) enc (Z.of_nat (length s));
     let p := p + n in
     zl ← (if ZIP_IS_STR enc then memwrite zl p s else zipSaveInteger zl p value enc);
     ZIPLIST_INCR_LENGTH zl 1) = Ret zl'' /\ ziplist_rep zl'' (xs ++ new_ent s :: es').
Proof.
  intros Hs Hs32 Hprev Hpl Hp Hh HX Hpx Hpost HT HT32 HL (es & Hc & Hlen) Hok ->.
  destruct (content_of_ok s Hs Hs32) as [Hnew _].
  rewrite (app_assoc (header T L c)).
  rewrite (write_entry s prev (header T L c ++ X) hole (post ++ [ZIP_END]) p value enc n
    (fun zl => ZIPLIST_INCR_LENGTH zl 1)); [|done| |done].
  2: { rewrite length_app, length_header. lia. }
  rewrite <- app_assoc, incr_length by (eapply cnt_u16; eauto). eexists. split; [done|].
  set (c' := if c <? UINT16_MAX then _ else _).
  assert (Z.of_nat (length (entries_image 0 (xs ++ new_ent s :: es'))) =
    Z.of_nat (length X) + raw_len prev (new_ent s) + Z.of_nat (length post)) as Hi.
  { rewrite entries_image_app, length_app. cbn [entries_image]. rewrite length_app, <- Hpx, <- Hpost, HX.
    unfold raw_len. lia. }
  replace (header T L c' ++ _) with (block c' xs (new_ent s :: es')).
  - apply block_rep; [done| | |rewrite length_block; lia].
    + apply Forall_app in Hok as [? ?]. apply Forall_app. split; [done|]. now apply Forall_cons.
    + eapply cnt_incr; eauto.
  - rewrite block_split. cbn [entries_image]. rewrite <- Hpx, <- Hpost, <- HX, length_app, <- !app_assoc. f_equal.
    rewrite HL, HT, Hp. unfold offset, ZIPLIST_HEADER_SIZE. rewrite <- HX. unfold raw_len. f_equal; lia.
Qed.

Lemma insert_ok junk zl xs ys s : ziplist_rep zl (xs ++ ys) -> bytes_ok s ->
  insert_safe (last_raw 0 xs) s ys ->
  Z.of_nat (length zl) + raw_len (last_raw 0 xs) (new_ent s) + 4 * Z.of_nat (length ys) < 2 ^ 32 ->
  exists zl' ys', __ziplistInsert junk zl (offset xs) s = Ret zl' /\
    ziplist_rep zl' (xs ++ new_ent s :: ys') /\ same_vals ys ys'.
Proof.
  intros R Hs Hsafe Hbnd. set (prev := last_raw 0 xs) in *. set (r := raw_len prev (new_ent s)) in *.
  destruct (prev_range zl xs ys R) as [Hprev Hoff]. fold prev in Hprev.
  pose proof (zr_size _ _ R) as Hsz. pose proof (short_of_raw s prev ltac:(lia)) as Hs32.
  destruct (content_of_ok s Hs Hs32) as [Hnew Htext].
  assert (2 <= r) as Hr by now apply raw_len_pos.
  destruct (read_header zl _ R) as (cnt & HT & Ht & _). unfold __ziplistInsert. rewrite HT. cbn [mbind res_bind].
  destruct (rd_boundary zl _ R xs ys eq_refl) as (b & Hb & He). rewrite Hb. cbn [mbind res_bind]. rewrite He.
  assert ((if negb match ys with [] => true | _ => false end
           then '(_, prevlen) ← ZIP_DECODE_PREVLEN zl (offset xs); Ret prevlen
           else ptail ← ZIPLIST_ENTRY_TAIL zl; t ← rd zl ptail;
             if negb (t =? ZIP_END) then zipRawEntryLength zl ptail else Ret 0) = Ret prev) as ->.
  { destruct ys as [|y ys]; cbn [negb].
    - rewrite app_nil_r in R. apply (prevlen_end zl xs R).
    - destruct (entry_here zl _ R xs y ys eq_refl) as (_ & _ & -> & _). done. }
  cbn [mbind res_bind].
  match goal with |- context [match zipTryEncoding s with _ => _ end] =>
    change (match zipTryEncoding s with
            | Some (value, enc) => (value, enc, zipIntSize enc)
            | None => (123456789, 0, Z.of_nat (length s))
            end) with (plan s) end.
  destruct (plan s) as [[value enc] n] eqn:Hpl. rewrite prev_encode_size. cbn [mbind res_bind zipEncodeLength].
  rewrite (plan_size s prev value enc n Hpl). fold r.
  assert ((if negb match ys with [] => true | _ => false end then zipPrevLenByteDiff zl (offset xs) r else Ret 0) =
    Ret (next_diff prev r ys)) as ->.
  { destruct ys as [|y ys]; cbn [negb]; [done|]. apply (byte_diff_ok zl xs y ys r R). lia. }
  cbn [mbind res_bind].
  assert (es_ok (xs ++ ys)) as Hok by apply (zr_ok _ _ R).
  destruct ys as [|y ys].
  - rewrite app_nil_r in *. destruct (zr_image _ _ R) as (c & E & Hc).
    replace (offset xs - last_raw 0 xs) with (offset xs - prev) in E by done.
    set (T := Z.of_nat (length zl)) in *. rewrite E. cbn [next_diff].
    pose proof (zl_length _ _ R) as Hl. fold T in Hl.
    rewrite (zl_resize_grow _ _ _ _ _ (Z.to_nat r)) by lia. cbn [mbind res_bind].
    assert (take (Z.to_nat r) (ZIP_END :: replicate (Z.to_nat r) junk) =
      ZIP_END :: replicate (Z.to_nat r - 1) junk) as ->.
    { replace (Z.to_nat r) with (S (Z.to_nat r - 1)) at 1 by lia. rewrite firstn_cons, take_replicate. do 2 f_equal. lia. }
    cbn [app]. rewrite (app_assoc (header _ _ c)), rd_mid by (rewrite length_app, length_header; lia).
    cbn [mbind res_bind]. change (ZIP_END =? ZIP_END) with true. change (0 =? 0) with true. cbn [negb].
    rewrite <- app_assoc, put_tail, uwrap_id by (unfold in_u; lia). cbn [mbind res_bind].
    edestruct (insert_finish (header (T + r + 0) (offset xs) c ++ entries_image 0 xs ++
        ZIP_END :: replicate (Z.to_nat r - 1) junk ++ [ZIP_END]) (T + r + 0) (offset xs) c (entries_image 0 xs)
        (ZIP_END :: replicate (Z.to_nat r - 1) junk) [] s prev (offset xs) value enc n xs []) as (zl'' & Hrun & HR);
      eauto; try lia; try (cbn; lia).
    + cbn [length]. rewrite length_replicate. fold r. lia.
    + exists xs. split; [done|]. rewrite length_app. cbn. lia.
    + now rewrite app_nil_r.
    + exists zl'', []. done.
  - destruct (rep_block zl xs (y :: ys) R ltac:(done)) as (c & E & Hc).
    set (T := Z.of_nat (length zl)) in *. pose proof (length_block c xs (y :: ys)) as Hl. rewrite <- E in Hl. fold T in Hl.
    rewrite E. unfold block. rewrite <- Hl. rewrite entries_image_app in Hl |- *. rewrite length_app in Hl. fold prev in Hl |- *.
    cbn [entries_image length] in Hl, Hbnd |- *. rewrite <- !(app_assoc (entries_image 0 xs)).
    destruct (zl_open_gap junk s prev Hprev c (entries_image 0 xs) y ys (offset xs + last_off prev (y :: ys)) r T (offset xs)
      (next_diff prev r (y :: ys)) (fun zl =>
       '(zl, n) ← zipPrevEncodeLength zl (Some (offset xs)) prev;
       let p := offset xs + n in
       '(zl, n) ← zipEncodeLength zl (Some p) enc (Z.of_nat (length s));
       let p := p + n in
       zl ← (if ZIP_IS_STR enc then memwrite zl p s else zipSaveInteger zl p value enc);
       ZIPLIST_INCR_LENGTH zl 1)) as (ys' & hole & Hv & Hh & Hle & Hgap); try (done || lia).
    + apply Forall_app in Hok as [_ Hok]. done.
    + now apply safe_grow.
    + set (y' := mk_zent false (e_val y)) in *.
      set (T' := 11 + Z.of_nat (length (entries_image 0 xs)) + r + Z.of_nat (length (entries_image r (y' :: ys')))) in *.
      set (L' := offset xs + r + last_off r (y' :: ys')) in *.
      destruct (insert_finish (header T' L' c ++ entries_image 0 xs ++ hole ++ entries_image r (y' :: ys') ++ [ZIP_END])
        T' L' c (entries_image 0 xs) hole (entries_image r (y' :: ys')) s prev (offset xs)
        value enc n xs (y' :: ys') Hs Hs32 Hprev Hpl) as (zl'' & Hrun & HR); try done.
      * pose proof (next_diff_le prev r (y :: ys) ltac:(lia) ltac:(lia)). unfold T'. lia.
      * unfold L'. rewrite (last_off_cons prev) by done. fold r. lia.
      * exists (xs ++ y :: ys). split; [done|]. rewrite !length_app. cbn [length].
        rewrite (same_vals_length _ _ Hv). lia.
      * apply Forall_app in Hok as [Hx Hok]. apply Forall_cons in Hok as [Hy Hok]. apply Forall_app. split; [done|].
        apply Forall_cons. split; [done|]. now apply (same_vals_ok ys).
      * exists zl'', (y' :: ys'). split; [etrans; [exact Hgap|exact Hrun]|]. split; [done|].
        unfold same_vals in *. cbn [map]. now rewrite Hv.
Qed.
