(* ===== verification/ZiplistDelete.v ===== *)
(** * ZiplistDelete: deletion and merging

    Deleting entries links the entry after them to the one before, which
    may change its width and start a cascade. *)

From S2P Require Import Prelude Util Ziplist ZiplistProofs ZiplistNav ZiplistUpdate.

(** ** Skipping the entries to delete *)

Lemma skip_ok zl es (R : ziplist_rep zl es) rest : forall fuel xs i num, es = xs ++ rest ->
  (length rest < fuel)%nat -> 0 <= i <= num ->
  skip_entries fuel zl (offset xs) i num =
  Ret (offset (xs ++ take (Z.to_nat (num - i)) rest), i + Z.of_nat (length (take (Z.to_nat (num - i)) rest))).
Proof.
  induction rest as [|e rest IH]; intros [|fuel] xs i num E Hf Hi; cbn [length] in Hf; try lia;
    cbn [skip_entries]; boundary (rd_boundary zl es R xs _ E).
  - rewrite take_nil, app_nil_r. cbn [length]. do 2 f_equal. lia.
  - destruct (Z.leb_spec num i).
    + replace (Z.to_nat (num - i)) with 0%nat by lia. rewrite take_0, app_nil_r. cbn [length]. do 2 f_equal. lia.
    + destruct (entry_here zl es R xs e rest E) as (_ & -> & _). cbn [mbind res_bind].
      rewrite <- (offset_snoc zl es R xs e rest E). rewrite (IH fuel (xs ++ [e]))
        by (rewrite <- ?app_assoc; (done || lia)).
      replace (Z.to_nat (num - i)) with (S (Z.to_nat (num - (i + 1)))) by lia.
      rewrite firstn_cons, <- app_assoc. cbn [length app]. do 2 f_equal. lia.
Qed.

Lemma offset_app xs ds : offset (xs ++ ds) = offset xs + Z.of_nat (length (entries_image (last_raw 0 xs) ds)).
Proof. unfold offset. rewrite entries_image_app, length_app. lia. Qed.

Lemma cnt_decr c es es' n : cnt_ok c es -> Z.of_nat (length es) = Z.of_nat (length es') + n -> 0 <= n ->
  cnt_ok (if c <? UINT16_MAX then u16 (c + - n) else c) es'.
Proof.
  unfold cnt_ok, UINT16_MAX. intros H Hl Hn. destruct H as [->|[-> H]]; [now left|].
  destruct (Z.ltb_spec (Z.of_nat (length es)) 65535); [|lia].
  rewrite uwrap_id by (unfold in_u; lia). lia.
Qed.

(** The first deleted entry is long enough for the field of the next one. *)
Lemma deleted_room prev d ds : content_ok (e_val d) -> 0 <= prev ->
  Z.of_nat (length (prev_image false prev)) + 1 <= Z.of_nat (length (entries_image prev (d :: ds))).
Proof.
  intros Hd Hp. cbn [entries_image]. rewrite length_app. fold (raw_len prev d).
  pose proof (raw_len_parts prev d) as Hr. pose proof (lensize_pos _ Hd).
  assert (length (prev_image false prev) <= length (prev_image (e_large d) prev))%nat.
  { destruct (prev_size_cases false prev Hp) as [(? & _ & ?)|(? & [?|?])];
    destruct (prev_size_cases (e_large d) prev Hp) as [(? & _ & ?)|(? & ?)]; (done || lia). }
  unfold raw_len, len_of in *. lia.
Qed.

(** Writing the new previous length over the end of what is deleted. *)
Lemma link_next pre D f b p nd len : p = Z.of_nat (length (pre ++ D)) ->
  nd = Z.of_nat (length (prev_image false len)) - Z.of_nat (length f) ->
  nd <= Z.of_nat (length D) -> exists D', Z.of_nat (length D') = Z.of_nat (length D) - nd /\
  zipPrevEncodeLength (pre ++ D ++ f ++ b) (Some (p - nd)) len =
  Ret (pre ++ D' ++ prev_image false len ++ b, Z.of_nat (length (prev_image false len))).
Proof.
  intros Hp Hnd Hle. rewrite length_app in Hp. set (g := length (prev_image false len)) in *.
  exists (take (Z.to_nat (Z.of_nat (length D) - nd)) (D ++ f)).
  assert (length (take (Z.to_nat (Z.of_nat (length D) - nd)) (D ++ f)) = Z.to_nat (Z.of_nat (length D) - nd)) as Hl
    by (rewrite length_take, length_app; lia).
  split; [lia|]. set (n := Z.to_nat (Z.of_nat (length D) - nd)) in *.
  rewrite (app_assoc D), <- (take_drop n (D ++ f)) at 1. rewrite <- app_assoc, (app_assoc pre).
  rewrite prev_encode_write; [now rewrite <- app_assoc| |].
  - rewrite length_app, Hl. lia.
  - rewrite length_drop, length_app. fold g. lia.
Qed.

(** The tail, and the move of what follows over the deleted entries. *)
Lemma unlink_move T L c X D y q ys p p2 d nd :
  let rest := entries_image (raw_len q y - nd) ys in
  let zl := header T L c ++ (X ++ D) ++ entry_image q y ++ rest ++ [ZIP_END] in
  content_ok (e_val y) -> 0 <= q < 2 ^ 32 -> 0 <= raw_len q y - nd ->
  p = 10 + Z.of_nat (length X) -> p2 = p + Z.of_nat (length D) ->
  T = 11 + Z.of_nat (length X) + Z.of_nat (length D) + raw_len q y + Z.of_nat (length rest) -> in_u 32 T ->
  in_u 32 L -> in_u 32 (L - d) -> (ys <> [] -> in_u 32 (L - d + nd)) ->
  exists h, length h = length D /\
  (t ← ZIPLIST_TAIL_OFFSET zl;
   zl ← set_TAIL_OFFSET zl (u32 (t - d));
   tail ← zipEntry zl p2;
   b ← rd zl (p2 + headersize tail + zlen tail);
   zl ← (if negb (b =? ZIP_END)
         then t ← ZIPLIST_TAIL_OFFSET zl; set_TAIL_OFFSET zl (u32 (t + nd))
         else Ret zl);
   n ← ZIPLIST_BYTES zl;
   zl ← memmove zl p p2 (n - p2 - 1);
   Ret (zl, nd)) =
  Ret (header T (L - d + (match ys with [] => 0 | _ => nd end)) c ++ (X ++ entry_image q y ++ rest) ++ h ++ [ZIP_END], nd).
Proof.
  intros rest zl Hy Hq Hnn Hp Hp2 HT HT32 HL HLd HLn.
  set (hd := header T (L - d + match ys with [] => 0 | _ => nd end) c).
  assert (length hd = 10%nat) as Hhd by apply length_header.
  destruct (move_down (hd ++ X) D (entry_image q y ++ rest) [ZIP_END] p p2 (T - p2 - 1)) as (h & Hh & Hmv).
  - rewrite length_app. lia.
  - lia.
  - rewrite length_app. unfold raw_len in *. lia.
  - exists h. split; [done|].
    etrans; [apply (fix_tail T L c (X ++ D) q y (rest ++ [ZIP_END]) ys p2 (- d) nd
      (fun zl => n ← ZIPLIST_BYTES zl; zl ← memmove zl p p2 (n - p2 - 1); Ret (zl, nd))); try done;
      rewrite ?length_app; lia|].
    rewrite get_bytes by done. cbn [mbind res_bind]. rewrite Z.add_opp_r. fold hd.
    replace (hd ++ (X ++ D) ++ entry_image q y ++ rest ++ [ZIP_END]) with
      ((hd ++ X) ++ D ++ (entry_image q y ++ rest) ++ [ZIP_END]) by now rewrite <- !app_assoc.
    rewrite Hmv. cbn [mbind res_bind]. now rewrite <- !app_assoc.
Qed.

(** The entries move over the deleted ones. *)
Lemma relink_ok junk T L c X D y q prev ys p nd deleted :
  let y' := mk_zent false (e_val y) in
  let c' := if c <? UINT16_MAX then u16 (c + - deleted) else c in
  es_ok (y :: ys) -> 0 <= q < 2 ^ 32 -> 0 <= prev < 2 ^ 32 -> in_u 16 c ->
  p = 10 + Z.of_nat (length X) -> 0 < Z.of_nat (length D) ->
  nd = Z.of_nat (length (prev_image false prev)) - Z.of_nat (length (prev_image (e_large y) q)) ->
  nd <= Z.of_nat (length D) ->
  T = 11 + Z.of_nat (length X) + Z.of_nat (length D) + Z.of_nat (length (entries_image q (y :: ys))) ->
  T + 4 * Z.of_nat (length ys) < 2 ^ 32 ->
  L = p + Z.of_nat (length D) + last_off q (y :: ys) ->
  exists ys', same_vals ys ys' /\
    11 + Z.of_nat (length X) + Z.of_nat (length (entries_image prev (y' :: ys'))) < 2 ^ 32 /\
  ('(zl, nextdiff) ←
     ('(zl, _) ← zipPrevEncodeLength (header T L c ++ X ++ D ++ entries_image q (y :: ys) ++ [ZIP_END])
                   (Some (p + Z.of_nat (length D) - nd)) prev;
      t ← ZIPLIST_TAIL_OFFSET zl;
      zl ← set_TAIL_OFFSET zl (u32 (t - Z.of_nat (length D)));
      tail ← zipEntry zl (p + Z.of_nat (length D) - nd);
      b ← rd zl (p + Z.of_nat (length D) - nd + headersize tail + zlen tail);
      zl ← (if negb (b =? ZIP_END)
            then t ← ZIPLIST_TAIL_OFFSET zl; set_TAIL_OFFSET zl (u32 (t + nd))
            else Ret zl);
      n ← ZIPLIST_BYTES zl;
      zl ← memmove zl p (p + Z.of_nat (length D) - nd) (n - (p + Z.of_nat (length D) - nd) - 1);
      Ret (zl, nd));
   n ← ZIPLIST_BYTES zl;
   zl ← ziplistResize junk zl (n - Z.of_nat (length D) + nextdiff);
   zl ← ZIPLIST_INCR_LENGTH zl (- deleted);
   if negb (nextdiff =? 0) then __ziplistCascadeUpdate junk zl p else Ret zl) =
  Ret (header (11 + Z.of_nat (length X) + Z.of_nat (length (entries_image prev (y' :: ys'))))
         (p + last_off prev (y' :: ys')) c' ++ X ++ entries_image prev (y' :: ys') ++ [ZIP_END]).
Proof.
  intros y' c' Hok Hq Hprev Hc Hp HD Hnd Hle HT Hbnd HL. apply Forall_cons in Hok as [Hy Hok].
  pose proof (raw_len_change q prev y y' ltac:(done)) as Hrl. cbn [y' e_large] in Hrl.
  pose proof (raw_len_pos q y Hy) as Hrp. assert (raw_len prev y' - nd = raw_len q y) as Hq' by lia.
  cbn [entries_image] in *. rewrite length_app, Nat2Z.inj_add in HT. fold (raw_len q y) in HT.
  pose proof (last_off_le (y :: ys) q ltac:(lia)) as Hlo. pose proof (last_off_nonneg (y :: ys) q).
  cbn [entries_image] in Hlo. rewrite length_app, Nat2Z.inj_add in Hlo. fold (raw_len q y) in Hlo.
  pose proof (next_diff_le q prev (y :: ys) ltac:(lia) ltac:(lia)) as Hnd4. cbn [next_diff] in Hnd4. rewrite <- Hnd in Hnd4.
  set (rest := entries_image (raw_len q y) ys ++ [ZIP_END]).
  replace (header T L c ++ X ++ D ++ _) with
    ((header T L c ++ X) ++ D ++ prev_image (e_large y) q ++ content_image (e_val y) ++ rest)
    by (unfold rest, entry_image; now rewrite <- !app_assoc).
  destruct (link_next (header T L c ++ X) D (prev_image (e_large y) q) (content_image (e_val y) ++ rest)
    (p + Z.of_nat (length D)) nd prev) as (D' & HD' & ->);
    [rewrite !length_app, length_header; lia|done|done|].
  cbn [mbind res_bind].
  set (p2 := p + Z.of_nat (length D) - nd).
  assert (p2 = 10 + Z.of_nat (length (X ++ D'))) as Hp2 by (unfold p2; rewrite length_app; lia).
  replace ((header T L c ++ X) ++ D' ++ prev_image false prev ++ content_image (e_val y) ++ rest) with
    (header T L c ++ (X ++ D') ++ entry_image prev y' ++ rest)
    by (unfold rest, entry_image; now rewrite <- !app_assoc).
  destruct (unlink_move T L c X D' y' prev ys p p2 (Z.of_nat (length D)) nd) as (h & Hh & Hmv);
    rewrite ?Hq'; try (done || lia); try (unfold in_u; lia).
  rewrite Hq' in Hmv. unfold rest. rewrite Hmv. cbn [mbind res_bind]. clear Hmv.
  rewrite get_bytes by (unfold in_u; lia). cbn [mbind res_bind].
  rewrite zl_resize_shrink; [|destruct h; done| |lia].
  2: { rewrite !length_app. fold (raw_len prev y'). unfold raw_len in *. lia. }
  cbn [mbind res_bind]. rewrite incr_length by done. cbn [mbind res_bind]. fold c'.
  destruct (cascade_after junk (T - Z.of_nat (length D) + nd) (L - Z.of_nat (length D) + match ys with [] => 0 | _ => nd end)
    c' X prev y' (raw_len q y) ys p) as (ys' & Hv & Hle' & Hrun); try (done || lia).
  - now apply Forall_cons.
  - rewrite HL. destruct ys as [|y2 ys]; [cbn [last_off]; lia|]. rewrite (last_off_cons q y) by done. lia.
  - exists ys'. split; [done|]. split; [cbn [entries_image]; rewrite length_app; unfold raw_len in *; lia|].
    replace (nd =? 0) with (raw_len prev y' - raw_len q y =? 0) by (f_equal; lia).
    rewrite <- !app_assoc. etrans; [exact Hrun|]. cbn [entries_image]. now rewrite <- !app_assoc.
Qed.

(** Deleting up to the end. *)
Lemma delete_end junk zl xs ds :
  ziplist_rep zl (xs ++ ds) -> ds <> [] ->
  let prev := last_raw 0 xs in let D := entries_image prev ds in
  exists zl',
  ('(zl, nextdiff) ← (zl ← set_TAIL_OFFSET zl (u32 (offset xs - prev)); Ret (zl, 0));
   n ← ZIPLIST_BYTES zl;
   zl ← ziplistResize junk zl (n - Z.of_nat (length D) + nextdiff);
   zl ← ZIPLIST_INCR_LENGTH zl (- Z.of_nat (length ds));
   if negb (nextdiff =? 0) then __ziplistCascadeUpdate junk zl (offset xs) else Ret zl) = Ret zl' /\
  ziplist_rep zl' xs.
Proof.
  intros R Hne prev D. destruct (prev_range zl xs ds R) as [Hprev Hoff]. fold prev in Hprev.
  pose proof (zr_size _ _ R) as Hsz. pose proof (zr_ok _ _ R) as Hok. apply Forall_app in Hok as [Hox _].
  pose proof (zl_length _ _ R) as Hl. rewrite offset_app in Hl. fold prev D in Hl.
  pose proof (last_raw_le xs 0 ltac:(lia)) as Hle. fold prev in Hle.
  destruct (zr_image _ _ R) as (c & E & Hc). set (T := Z.of_nat (length zl)) in *. rewrite E.
  rewrite put_tail, (uwrap_id 32) by (unfold in_u; lia). cbn [mbind res_bind].
  rewrite get_bytes by (unfold in_u; lia). cbn [mbind res_bind].
  rewrite entries_image_app, <- app_assoc. fold prev D.
  rewrite zl_resize_shrink; [|now destruct D|lia|lia]. cbn [mbind res_bind].
  rewrite incr_length by (eapply cnt_u16; eauto). cbn [mbind res_bind]. eexists. split; [done|].
  split; [|done|].
  - exists (if c <? UINT16_MAX then u16 (c + - Z.of_nat (length ds)) else c).
    split; [|apply (cnt_decr c (xs ++ ds)); [done|rewrite length_app; lia|lia]].
    f_equal. f_equal. rewrite !length_app, length_header. cbn [length]. lia.
  - rewrite !length_app, length_header. cbn [length]. lia.
Qed.

Lemma delete_ok junk zl xs d rest num : ziplist_rep zl (xs ++ d :: rest) -> 0 <= num ->
  Z.of_nat (length zl) + 4 * Z.of_nat (length rest) < 2 ^ 32 ->
  exists zl' ys', __ziplistDelete junk zl (offset xs) num = Ret zl' /\ ziplist_rep zl' (xs ++ ys') /\
    same_vals (drop (Z.to_nat num) (d :: rest)) ys' /\ (e_large <$> head ys' = Some true -> num = 0 /\ ys' = d :: rest).
Proof.
  intros R Hnum Hbnd. set (prev := last_raw 0 xs). destruct (prev_range zl xs _ R) as [Hprev Hoff]. fold prev in Hprev.
  pose proof (zr_size _ _ R) as Hsz. pose proof (zr_ok _ _ R) as Hok.
  unfold __ziplistDelete. destruct (entry_here zl _ R xs d rest eq_refl) as (-> & _). cbn [mbind res_bind].
  pose proof (fuel_enough zl _ R) as Hfuel. rewrite length_app in Hfuel.
  rewrite (skip_ok zl _ R (d :: rest)) by (done || lia). cbn [mbind res_bind decoded zp prevrawlen].
  rewrite Z.sub_0_r. set (n := Z.to_nat num). set (ds := take n (d :: rest)). set (ys := drop n (d :: rest)).
  assert (d :: rest = ds ++ ys) as Hrest by (symmetry; apply take_drop).
  rewrite Hrest in R, Hok. fold prev. rewrite offset_app. fold prev.
  set (D := entries_image prev ds).
  pose proof (zl_length _ _ R) as Hl. rewrite !offset_app, entries_image_app, length_app in Hl. fold prev D in Hl.
  replace (offset xs + Z.of_nat (length D) - offset xs) with (Z.of_nat (length D)) by lia.
  rewrite uwrap_id by (unfold in_u; lia).
  assert (n = Z.to_nat num) as Hn by done. clearbody n. destruct n as [|n].
  { change ds with (@nil zent) in *. change ys with (d :: rest) in *. cbn [D entries_image length]. change (0 <? Z.of_nat 0) with false. cbn iota.
    exists zl, (d :: rest). do 3 (split; [done|]). intros _. split; [lia|done]. }
  assert (ds = d :: take n rest) as Hds by done.
  apply Forall_app in Hok as [Hox Hok]. apply Forall_app in Hok as [Hod Hoy].
  assert (content_ok (e_val d)) as Hd by (rewrite Hds in Hod; now apply Forall_cons in Hod as [? _]).
  pose proof (deleted_room prev d (take n rest) Hd ltac:(lia)) as Hroom. rewrite <- Hds in Hroom. fold D in Hroom.
  destruct (Z.ltb_spec 0 (Z.of_nat (length D))) as [HD|]; [|lia].
  assert (length rest = length (take n rest) + length ys)%nat as Hlen
    by (rewrite <- (take_drop n rest) at 1; now rewrite length_app).
  rewrite app_assoc in R. destruct (rd_boundary zl _ R (xs ++ ds) ys eq_refl) as (b & Hb & He). rewrite offset_app in Hb. fold prev D in Hb.
  rewrite Hb. cbn [mbind res_bind]. rewrite He. clear Hb He. clearbody ys.
  destruct ys as [|y ys]; cbn [negb].
  - rewrite app_nil_r in R. destruct (delete_end junk zl xs ds R ltac:(rewrite Hds; done)) as (zl' & Hrun & HR).
    exists zl', []. rewrite app_nil_r. split; [exact Hrun|]. done.
  - destruct (rep_block zl (xs ++ ds) (y :: ys) R ltac:(done)) as (c & E & Hc).
    set (T := Z.of_nat (length zl)) in *. pose proof (length_block c (xs ++ ds) (y :: ys)) as HT. rewrite <- E in HT. fold T in HT.
    pose proof (byte_diff_ok zl (xs ++ ds) y ys prev R ltac:(lia)) as Hdiff. rewrite offset_app in Hdiff. fold prev D in Hdiff.
    rewrite Hdiff. cbn [mbind res_bind]. set (q := last_raw 0 (xs ++ ds)) in *.
    rewrite E. unfold block. rewrite <- HT. rewrite !entries_image_app, <- !app_assoc. fold prev D q.
    destruct (prev_range zl (xs ++ ds) _ R) as [Hq Hoff2]. fold q in Hq. rewrite offset_app in *. fold prev D in Hoff2 |- *.
    assert (last_raw prev ds = q) as Hqe by (unfold q; now rewrite last_raw_app). rewrite Hqe in Hl.
    pose proof (next_diff_le q prev (y :: ys) ltac:(lia) ltac:(lia)).
    destruct (relink_ok junk T (offset xs + Z.of_nat (length D) + last_off q (y :: ys)) c (entries_image 0 xs) D y q prev ys
      (offset xs) (next_diff q prev (y :: ys)) (0 + Z.of_nat (length ds))) as (ys' & Hv & Hb32 & Hrun);
      try (done || lia).
    + eapply cnt_u16; eauto.
    + cbn [next_diff]. lia.
    + cbn [length] in Hlen. lia.
    + set (y' := mk_zent false (e_val y)) in *.
      eexists _, (y' :: ys'). split; [exact Hrun|]. apply Forall_cons in Hoy as [Hy Hoy].
      set (c' := if c <? UINT16_MAX then _ else _).
      pose proof (block_split c' xs (y' :: ys')) as Hbs. fold prev in Hbs. rewrite <- Hbs.
      split; [apply block_rep; [done| | |]|split].
      * apply Forall_app. split; [done|]. apply Forall_cons. split; [done|]. now apply (same_vals_ok ys).
      * apply (cnt_decr c ((xs ++ ds) ++ y :: ys)); [done| |lia]. rewrite !length_app. cbn [length].
        rewrite (same_vals_length _ _ Hv). lia.
      * rewrite length_block, entries_image_app, length_app. fold prev. lia.
      * unfold same_vals in *. cbn [map]. now rewrite Hv.
      * done.
Qed.

(** ** Merging *)

(** Joining the bytes of the two lists: the header of one of them is kept
    and then rewritten. *)
Lemma join_append junk t l c X t2 l2 c2 Y :
  (b ← memread (header t2 l2 c2 ++ Y ++ [ZIP_END]) ZIPLIST_HEADER_SIZE
         (Z.to_nat (11 + Z.of_nat (length Y) - ZIPLIST_HEADER_SIZE));
   memwrite (realloc junk (header t l c ++ X ++ [ZIP_END]) (Z.to_nat (11 + Z.of_nat (length X) + Z.of_nat (length Y))))
     (11 + Z.of_nat (length X) - ZIPLIST_END_SIZE) b) =
  Ret (header t l c ++ X ++ Y ++ [ZIP_END]).
Proof.
  unfold ZIPLIST_HEADER_SIZE, ZIPLIST_END_SIZE.
  rewrite <- (app_nil_r (header t2 l2 c2 ++ Y ++ [ZIP_END])), <- app_assoc.
  rewrite memread_mid; [|now rewrite length_header|rewrite length_app; cbn [length]; lia].
  cbn [mbind res_bind]. unfold realloc.
  rewrite take_ge by (rewrite !length_app, length_header; cbn [length]; lia).
  set (j := replicate _ junk).
  assert (length j = length Y) as Hj
    by (unfold j; rewrite length_replicate, !length_app, length_header; cbn [length]; lia).
  replace ((header t l c ++ X ++ [ZIP_END]) ++ j) with ((header t l c ++ X) ++ ([ZIP_END] ++ j) ++ [])
    by (rewrite app_nil_r, <- !app_assoc; done).
  rewrite write_mid; [now rewrite app_nil_r, <- app_assoc| |].
  - rewrite length_app, length_header. lia.
  - rewrite !length_app, Hj. cbn [length]. lia.
Qed.

Lemma join_prepend junk t l c X t2 l2 c2 Y :
  (target ← memmove (realloc junk (header t2 l2 c2 ++ Y ++ [ZIP_END])
                       (Z.to_nat (11 + Z.of_nat (length X) + Z.of_nat (length Y))))
              (11 + Z.of_nat (length X) - ZIPLIST_END_SIZE) ZIPLIST_HEADER_SIZE
              (11 + Z.of_nat (length Y) - ZIPLIST_HEADER_SIZE);
   b ← memread (header t l c ++ X ++ [ZIP_END]) 0 (Z.to_nat (11 + Z.of_nat (length X) - ZIPLIST_END_SIZE));
   memwrite target 0 b) =
  Ret (header t l c ++ X ++ Y ++ [ZIP_END]).
Proof.
  unfold ZIPLIST_HEADER_SIZE, ZIPLIST_END_SIZE, realloc.
  rewrite take_ge by (rewrite !length_app, length_header; cbn [length]; lia).
  set (j := replicate _ junk).
  assert (length j = length X) as Hj
    by (unfold j; rewrite length_replicate, !length_app, length_header; cbn [length]; lia).
  rewrite <- app_assoc, (move_up _ _ _ (length X)); [|now rewrite length_header| |lia|lia].
  2: { rewrite length_app. cbn [length]. lia. }
  cbn [mbind res_bind]. rewrite drop_ge, app_nil_r by lia.
  set (g := take _ _). assert (length g = length X) as Hg by (unfold g; len).
  rewrite (app_assoc (header t l c)).
  rewrite (memread_mid [] (header t l c ++ X) [ZIP_END]); [|done|rewrite length_app, length_header; lia].
  cbn [mbind res_bind]. rewrite app_assoc. etrans; [apply (write_mid [] (header t2 l2 c2 ++ g)); [done|]|].
  - rewrite !length_app, !length_header. lia.
  - cbn [app]. now rewrite <- app_assoc.
Qed.

(** The lengths of the two lists, as stored, add up. *)
Lemma cnt_sum c1 c2 es1 es2 es : cnt_ok c1 es1 -> cnt_ok c2 es2 -> (length es = length es1 + length es2)%nat ->
  let n := if c1 + c2 <? UINT16_MAX then c1 + c2 else UINT16_MAX in in_u 16 n /\ cnt_ok n es.
Proof.
  unfold cnt_ok, in_u, UINT16_MAX. intros H1 H2 Hl. destruct (Z.ltb_spec (c1 + c2) 65535); lia.
Qed.

(** The cascade over the seam. *)
Lemma seam_ok junk es1 es2 c : es_ok es1 -> es_ok es2 -> es2 <> [] ->
  let X := entries_image 0 es1 in let Y := entries_image 0 es2 in
  let T := 11 + Z.of_nat (length X) + Z.of_nat (length Y) in
  T + 4 * Z.of_nat (length es2) < 2 ^ 32 ->
  exists xs ys, ys <> [] /\ same_vals (es1 ++ es2) (xs ++ ys) /\ head (xs ++ ys) = head (es1 ++ es2) /\
    Z.of_nat (length (block c xs ys)) < 2 ^ 32 /\
    __ziplistCascadeUpdate junk (header T (offset es1 + last_off 0 es2) c ++ X ++ Y ++ [ZIP_END])
      (offset es1 - last_raw 0 es1) = Ret (block c xs ys).
Proof.
  intros Hok1 Hok2 Hne X Y T HT. destruct (nil_or_last es1) as [->|(xs & e & ->)].
  - destruct es2 as [|e es2]; [done|]. subst T X Y. cbn [entries_image app length last_raw] in *.
    replace (offset [] - 0) with 10 by done. rewrite length_app, Nat2Z.inj_add in HT |- *. fold (raw_len 0 e) in HT |- *.
    rewrite <- app_assoc. apply Forall_cons in Hok2 as [He Hok2]. pose proof (raw_len_pos 0 e He).
    destruct (cascade_run junk (11 + Z.of_nat 0 + (raw_len 0 e + Z.of_nat (length (entries_image (raw_len 0 e) es2))))
      (offset [] + last_off 0 (e :: es2)) c [] 0 e (raw_len 0 e) es2 10) as (ys & Hv & Hle & Hrun); try (cbn [length]; lia).
    + now apply Forall_cons.
    + destruct es2; [done|]. rewrite (last_off_cons 0 e) by done. done.
    + exists [], (e :: ys). split; [done|]. split; [unfold same_vals in *; cbn [map app]; congruence|].
      split; [done|]. split.
      * rewrite length_block. cbn [app entries_image]. rewrite length_app. unfold raw_len in *. lia.
      * etrans; [exact Hrun|]. rewrite block_split. done.
  - rewrite last_raw_app. cbn [last_raw]. set (prev := last_raw 0 xs).
    assert (X = entries_image 0 xs ++ entry_image prev e) as HX
      by (unfold X; rewrite entries_image_app; cbn [entries_image]; now rewrite app_nil_r).
    assert (offset (xs ++ [e]) = offset xs + raw_len prev e) as Hoff.
    { rewrite offset_app. cbn [entries_image]. rewrite app_nil_r. done. }
    rewrite Hoff. replace (offset xs + raw_len prev e - raw_len prev e) with (offset xs) by lia.
    apply Forall_app in Hok1 as [Hokx Hoke]. apply Forall_cons in Hoke as [He _].
    pose proof (raw_len_pos prev e He). pose proof (last_raw_nonneg xs 0 ltac:(lia)) as Hp0.
    pose proof (last_raw_le xs 0 ltac:(lia)) as Hp1. fold prev in Hp0, Hp1.
    subst T. rewrite HX, <- !app_assoc in *. rewrite length_app, Nat2Z.inj_add in HT |- *. fold (raw_len prev e) in HT |- *.
    destruct (cascade_run junk (11 + (Z.of_nat (length (entries_image 0 xs)) + raw_len prev e) + Z.of_nat (length Y))
      (offset xs + raw_len prev e + last_off 0 es2) c (entries_image 0 xs) prev e 0 es2 (offset xs))
      as (ys & Hv & Hle & Hrun); try (unfold Y in *; lia); try done.
    + now apply Forall_cons.
    + destruct es2; [done|lia].
    + exists xs, (e :: ys). split; [done|]. split.
      { unfold same_vals in *. rewrite !map_app. cbn [map app]. now rewrite Hv. }
      split; [now destruct xs|]. split.
      * rewrite length_block, entries_image_app, length_app. cbn [entries_image]. rewrite length_app.
        fold prev. unfold Y, raw_len in *. lia.
      * etrans; [exact Hrun|]. now rewrite block_split.
Qed.

(** The header of the joined list and the cascade. *)
Lemma merge_finish junk t l c es1 es2 c1 c2 {A} (k : list Z -> res A) :
  es_ok es1 -> es_ok es2 -> es2 <> [] -> cnt_ok c1 es1 -> cnt_ok c2 es2 ->
  let X := entries_image 0 es1 in let Y := entries_image 0 es2 in
  let T := 11 + Z.of_nat (length X) + Z.of_nat (length Y) in
  T + 4 * Z.of_nat (length es2) < 2 ^ 32 ->
  exists zl es, ziplist_rep zl es /\ same_vals (es1 ++ es2) es /\ head es = head (es1 ++ es2) /\
  (target ← set_BYTES (header t l c ++ X ++ Y ++ [ZIP_END]) (u32 T);
   target ← set_LENGTH target (u16 (if c1 + c2 <? UINT16_MAX then c1 + c2 else UINT16_MAX));
   target ← set_TAIL_OFFSET target (u32 (offset es1 + last_off 0 es2));
   target ← __ziplistCascadeUpdate junk target (offset es1 - last_raw 0 es1);
   k target) = k zl.
Proof.
  intros Hok1 Hok2 Hne Hc1 Hc2 X Y T HT.
  destruct (cnt_sum c1 c2 es1 es2 (es1 ++ es2) Hc1 Hc2 ltac:(now rewrite length_app)) as [Hu Hc].
  set (n := if c1 + c2 <? UINT16_MAX then c1 + c2 else UINT16_MAX) in *.
  destruct (seam_ok junk es1 es2 n Hok1 Hok2 Hne HT) as (xs & ys & Hys & Hv & Hhead & Hb & Hrun).
  exists (block n xs ys), (xs ++ ys).
  assert (es_ok (es1 ++ es2)) as Hok by now apply Forall_app.
  split; [|split; [done|split; [done|]]].
  - apply block_rep; auto; [now apply (same_vals_ok (es1 ++ es2))|].
    unfold cnt_ok in *. now rewrite <- (same_vals_length _ _ Hv).
  - pose proof (last_off_le es2 0 ltac:(lia)). pose proof (last_off_nonneg es2 0).
    assert (offset es1 = 10 + Z.of_nat (length X)) as Ho by done. fold Y in H.
    rewrite put_bytes, (uwrap_id 32 T) by (unfold in_u, T; lia). cbn [mbind res_bind].
    rewrite put_length, (uwrap_id 16) by done. cbn [mbind res_bind].
    rewrite put_tail, (uwrap_id 32) by (unfold in_u; lia). cbn [mbind res_bind].
    fold X Y T in Hrun. rewrite Hrun. done.
Qed.

Lemma merge_ok junk zl1 zl2 es1 es2 : ziplist_rep zl1 es1 -> ziplist_rep zl2 es2 -> es2 <> [] ->
  Z.of_nat (length zl1) + Z.of_nat (length zl2) + 4 * Z.of_nat (length es2) < 2 ^ 32 ->
  exists zl es first second, ziplistMerge junk (Some zl1) (Some zl2) false = Ret (Some zl, first, second) /\
    ziplist_rep zl es /\ same_vals (es1 ++ es2) es /\ head es = head (es1 ++ es2) /\
    (first = Some zl /\ second = None \/ first = None /\ second = Some zl).
Proof.
  intros R1 R2 Hne Hbnd. cbn [ziplistMerge].
  destruct (zr_image _ _ R1) as (c1 & E1 & Hc1). destruct (zr_image _ _ R2) as (c2 & E2 & Hc2).
  pose proof (zl_length _ _ R1) as Hl1. pose proof (zl_length _ _ R2) as Hl2.
  pose proof (zr_size _ _ R1) as Hs1. pose proof (zr_size _ _ R2) as Hs2.
  pose proof (last_raw_nonneg es1 0 ltac:(lia)). pose proof (last_raw_nonneg es2 0 ltac:(lia)).
  pose proof (last_raw_le es1 0 ltac:(lia)). pose proof (last_raw_le es2 0 ltac:(lia)).
  assert (offset es1 = 10 + Z.of_nat (length (entries_image 0 es1))) as Ho1 by done.
  assert (offset es2 = 10 + Z.of_nat (length (entries_image 0 es2))) as Ho2 by done.
  pose proof (tail_block [] es2 Hne) as Ht2. cbn [app last_raw] in Ht2.
  rewrite E1, E2. rewrite !get_bytes, !get_tail by (unfold in_u; lia). cbn [mbind res_bind].
  rewrite !get_length by (eapply cnt_u16; eauto). cbn [mbind res_bind].
  set (X := entries_image 0 es1) in *. set (Y := entries_image 0 es2) in *.
  assert (Z.of_nat (length zl1) = 11 + Z.of_nat (length X)) as -> by lia.
  assert (Z.of_nat (length zl2) = 11 + Z.of_nat (length Y)) as HlY by lia. rewrite HlY.
  replace (11 + Z.of_nat (length X) - ZIPLIST_END_SIZE + (offset es2 - last_raw 0 es2 - ZIPLIST_HEADER_SIZE))
    with (offset es1 + last_off 0 es2)
    by (rewrite Ht2, Ho1; unfold offset, ZIPLIST_HEADER_SIZE, ZIPLIST_END_SIZE; cbn [entries_image length]; lia).
  replace (11 + Z.of_nat (length X) + (11 + Z.of_nat (length Y)) - ZIPLIST_HEADER_SIZE - ZIPLIST_END_SIZE)
    with (11 + Z.of_nat (length X) + Z.of_nat (length Y)) by (unfold ZIPLIST_HEADER_SIZE, ZIPLIST_END_SIZE; lia).
  destruct (merge_finish junk (11 + Z.of_nat (length X)) (offset es1 - last_raw 0 es1) c1 es1 es2 c1 c2
    (fun target4 => Ret (if c2 <=? c1 then (Some target4, Some target4, None) else (Some target4, None, Some target4)))
    (zr_ok _ _ R1) (zr_ok _ _ R2) Hne Hc1 Hc2 ltac:(unfold X, Y in *; lia)) as (zl & es & HR & Htx & Hhead & Hrun).
  fold X Y in Hrun. exists zl, es. destruct (c2 <=? c1).
  - exists (Some zl), None. rewrite join_append. cbn [mbind res_bind]. rewrite Hrun. do 4 (split; [done|]). auto.
  - exists None, (Some zl). rewrite join_prepend. cbn [mbind res_bind]. rewrite Hrun. do 4 (split; [done|]). auto.
Qed.
