(* ===== verification/ZiplistTheorems.v ===== *)
(** * ZiplistTheorems: a ziplist is a list of strings

    The operations of ziplist.c against lists of strings: navigation,
    queries, insertion, deletion and merging, and the two cases in which
    the code does not implement the list operation. *)

From S2P Require Import Prelude Util Ziplist ZiplistProofs ZiplistNav ZiplistUpdate ZiplistDelete.

(** The first entry never keeps a five-byte previous length. *)
Definition head_small (es : list zent) : Prop := e_large <$> head es <> Some true.

(** [zl] is a ziplist with the entries [es]; all operations keep this. *)
Definition ziplist_wf (zl : list Z) (es : list zent) : Prop := ziplist_rep zl es /\ head_small es.

(** The pointer to entry [i], or to the end marker. *)
Definition ptr (es : list zent) (i : nat) : Z := offset (take i es).

Lemma ptr_split es xs ys : es = xs ++ ys -> ptr es (length xs) = offset xs.
Proof. intros ->. unfold ptr. now rewrite take_app_length. Qed.

Lemma head_small_app xs ys : head_small (xs ++ ys) <-> (xs = [] -> head_small ys) /\ head_small xs.
Proof. unfold head_small. destruct xs; cbn; naive_solver. Qed.

Lemma head_small_insert xs s ys ys' : head_small (xs ++ ys) -> head_small (xs ++ new_ent s :: ys').
Proof. rewrite !head_small_app. intros [_ Hx]. split; [|done]. intros _. done. Qed.

(** ** Construction and insertion *)

Lemma new_wf junk : exists zl, ziplistNew junk = Ret zl /\ ziplist_wf zl [].
Proof.
  eexists. split; [vm_compute; reflexivity|]. split; [|done].
  split; [|constructor|vm_compute; done]. exists 0. split; [vm_compute; done|]. right. done.
Qed.

Lemma text_new s : bytes_ok s -> Z.of_nat (length s) < 2 ^ 32 -> text (e_val (new_ent s)) = s.
Proof. intros Hs Hl. now apply content_of_ok. Qed.

Lemma texts_app xs ys : texts (xs ++ ys) = texts xs ++ texts ys.
Proof. apply map_app. Qed.

Lemma insert_refines junk zl es (i : nat) s : ziplist_wf zl es -> (i <= length es)%nat -> bytes_ok s ->
  insert_safe (last_raw 0 (take i es)) s (drop i es) ->
  Z.of_nat (length zl) + raw_len (last_raw 0 (take i es)) (new_ent s) + 4 * Z.of_nat (length es) < 2 ^ 32 ->
  exists zl' es', __ziplistInsert junk zl (ptr es i) s = Ret zl' /\ ziplist_wf zl' es' /\
    texts es' = take i (texts es) ++ [s] ++ drop i (texts es).
Proof.
  intros [R Hh] Hi Hs Hsafe Hbnd.
  rewrite <- (take_drop i es) in R, Hh. set (xs := take i es) in *. set (ys := drop i es) in *.
  assert (length ys <= length es)%nat by (unfold ys; rewrite length_drop; lia).
  destruct (insert_ok junk zl xs ys s R Hs Hsafe ltac:(lia)) as (zl' & ys' & Hrun & HR & Hv).
  exists zl', (xs ++ new_ent s :: ys'). split; [done|]. split; [split; [done|now apply (head_small_insert _ _ ys)]|].
  unfold texts at 2 3. rewrite firstn_map, skipn_map. fold xs ys. change (map _ xs) with (texts xs).
  rewrite texts_app. f_equal. change (map _ ys) with (texts ys). rewrite (same_vals_texts _ _ Hv).
  cbn [texts map app]. f_equal. apply text_new; [done|]. apply (short_of_raw s (last_raw 0 xs)). lia.
Qed.

Lemma safe_head zl es s : ziplist_wf zl es -> insert_safe (last_raw 0 []) s es.
Proof. intros [_ Hh]. destruct es as [|e es]; [done|]. unfold head_small in Hh. cbn in *. congruence. Qed.

Lemma raw_new_le prev s : bytes_ok s -> Z.of_nat (length s) < 2 ^ 32 ->
  raw_len prev (new_ent s) <= Z.of_nat (length s) + 18.
Proof.
  intros Hs Hl. destruct (content_of_ok s Hs Hl) as [Hc _]. rewrite raw_len_parts, length_prev_image.
  cbn [new_ent e_val e_large]. pose proof (lensize_pos _ Hc).
  assert (len_of (content_of s) <= Z.of_nat (length s) + 8).
  { unfold content_of, len_of. destruct (zipTryEncoding s) as [[v e]|]; cbn [content_body]; [|lia].
    rewrite length_int_image. pose proof (int_size_nonneg e). lia. }
  destruct (_ || _); lia.
Qed.

(** C30: ziplistPush adds a string at either end, whatever the history of the
    list. *)
Theorem ziplistPush_refines junk zl es s w : ziplist_wf zl es -> bytes_ok s ->
  Z.of_nat (length zl) + Z.of_nat (length s) + 18 + 4 * Z.of_nat (length es) < 2 ^ 32 ->
  exists zl' es', ziplistPush junk zl s w = Ret zl' /\ ziplist_wf zl' es' /\
    texts es' = match w with ZIPLIST_HEAD => s :: texts es | ZIPLIST_TAIL => texts es ++ [s] end.
Proof.
  intros W Hs Hbnd. pose proof (proj1 W) as R.
  assert (exists i, (i <= length es)%nat /\ insert_safe (last_raw 0 (take i es)) s (drop i es) /\
    ziplistPush junk zl s w = __ziplistInsert junk zl (ptr es i) s /\
    take i (texts es) ++ [s] ++ drop i (texts es) =
      match w with ZIPLIST_HEAD => s :: texts es | ZIPLIST_TAIL => texts es ++ [s] end) as (i & Hi & Hsafe & Hp & Ht).
  { destruct w.
    - exists 0%nat. split; [lia|]. rewrite take_0, drop_0. split; [now apply (safe_head zl)|]. done.
    - exists (length es). split; [lia|]. rewrite (drop_ge es), take_ge, take_ge, drop_ge by (unfold texts; rewrite ?length_map; lia).
      split; [done|]. split; [|done]. unfold ziplistPush, ZIPLIST_ENTRY_END.
      destruct (read_header zl es R) as (cnt & -> & _). cbn [mbind res_bind].
      rewrite (zl_length zl es R). unfold ptr. rewrite take_ge by lia. f_equal. lia. }
  pose proof (raw_new_le (last_raw 0 (take i es)) s Hs ltac:(lia)). rewrite Hp, <- Ht.
  now apply insert_refines; try lia.
Qed.

(** ** Deletion *)

Lemma delete_refines junk zl es (i : nat) num : ziplist_wf zl es -> (i < length es)%nat -> 0 <= num ->
  Z.of_nat (length zl) + 4 * Z.of_nat (length es) < 2 ^ 32 ->
  exists zl' es', __ziplistDelete junk zl (ptr es i) num = Ret zl' /\ ziplist_wf zl' es' /\
    take i es' = take i es /\ texts es' = take i (texts es) ++ drop (i + Z.to_nat num) (texts es).
Proof.
  intros [R Hh] Hi Hnum Hbnd. destruct (drop i es) as [|d rest] eqn:Ed.
  { apply (f_equal length) in Ed. rewrite length_drop in Ed. cbn in Ed. lia. }
  assert (es = take i es ++ d :: rest) as E by (now rewrite <- Ed, take_drop).
  set (xs := take i es) in *. assert (length rest <= length es)%nat by (rewrite E, length_app; cbn [length]; lia).
  rewrite E in R, Hh. destruct (delete_ok junk zl xs d rest num R Hnum ltac:(lia)) as (zl' & ys' & Hrun & HR & Hv & Hl).
  exists zl', (xs ++ ys'). split; [done|]. split; [split; [done|]|split].
  - apply head_small_app in Hh as [Hn Hx]. apply head_small_app. split; [|done]. intros Hxs. specialize (Hn Hxs).
    unfold head_small in *. intros Ht. destruct (Hl Ht) as [_ ->]. done.
  - assert (length xs = i) as Hxl by (unfold xs; rewrite length_take; lia). rewrite <- Hxl at 1. apply take_app_length.
  - rewrite texts_app. unfold texts at 3 4. rewrite firstn_map, skipn_map. fold xs. f_equal.
    rewrite <- drop_drop, Ed. apply (same_vals_texts _ _) in Hv. symmetry. exact Hv.
Qed.

(** ziplistDeleteRange removes [num] strings from [index] on, and nothing
    when there is no such index. *)
Theorem ziplistDeleteRange_refines junk zl es index num : ziplist_wf zl es -> in_s 32 index -> in_u 32 num ->
  Z.of_nat (length zl) + 4 * Z.of_nat (length es) < 2 ^ 32 ->
  exists zl' es', ziplistDeleteRange junk zl index num = Ret zl' /\ ziplist_wf zl' es' /\
    texts es' = match position es index with
                | Some i => take i (texts es) ++ drop (i + Z.to_nat num) (texts es)
                | None => texts es
                end.
Proof.
  intros W Hi Hnum Hbnd. unfold ziplistDeleteRange. rewrite (ziplistIndex_ok zl es (proj1 W)) by done.
  cbn [mbind res_bind]. unfold position. destruct (_ && _) eqn:Hc; cbn [fmap option_fmap option_map].
  - destruct (delete_refines junk zl es (Z.to_nat (if index <? 0 then Z.of_nat (length es) + index else index)) num W)
      as (zl' & es' & Hrun & HW & _ & Ht); [lia|unfold in_u in Hnum; lia|lia|]. eauto.
  - eauto.
Qed.

(** ** Merging *)

(** The merge of two lists, the second not empty, is their concatenation;
    one of the arguments becomes NULL. *)
Theorem ziplistMerge_refines junk zl1 zl2 es1 es2 : ziplist_wf zl1 es1 -> ziplist_wf zl2 es2 -> es2 <> [] ->
  Z.of_nat (length zl1) + Z.of_nat (length zl2) + 4 * Z.of_nat (length es2) < 2 ^ 32 ->
  exists zl es first second, ziplistMerge junk (Some zl1) (Some zl2) false = Ret (Some zl, first, second) /\
    ziplist_wf zl es /\ texts es = texts es1 ++ texts es2 /\
    (first = Some zl /\ second = None \/ first = None /\ second = Some zl).
Proof.
  intros [R1 H1] [R2 H2] Hne Hbnd.
  destruct (merge_ok junk zl1 zl2 es1 es2 R1 R2 Hne Hbnd) as (zl & es & first & second & Hrun & HR & Hv & Hh & Hp).
  exists zl, es, first, second. split; [done|]. split; [split; [done|]|split; [|done]].
  - unfold head_small. rewrite Hh. apply head_small_app. auto.
  - rewrite <- (same_vals_texts _ _ Hv). apply texts_app.
Qed.

(** ** Navigation and queries *)

Lemma at_index (es : list zent) (i : nat) e : es !! i = Some e -> es = take i es ++ e :: drop (S i) es.
Proof. intros H. symmetry. now apply take_drop_middle. Qed.

(** Walking over a ziplist is walking over the list: the index, counted
    from either end, the next and the previous entry. *)
Theorem ziplist_navigation zl es : ziplist_wf zl es ->
  (forall index, in_s 32 index -> ziplistIndex zl index = Ret (ptr es <$> position es index)) /\
  (forall i, (i < length es)%nat ->
     ziplistNext zl (ptr es i) = Ret (if (S i <? length es)%nat then Some (ptr es (S i)) else None)) /\
  (forall i, (i <= length es)%nat ->
     ziplistPrev zl (ptr es i) = Ret (match i with O => None | S j => Some (ptr es j) end)).
Proof.
  intros [R _]. split; [|split].
  - intros index Hi. now rewrite (ziplistIndex_ok zl es R).
  - intros i Hi. destruct (lookup_lt_is_Some_2 es i Hi) as [e He]. unfold ptr.
    rewrite (ziplistNext_ok zl es R _ e _ (at_index es i e He)), <- (take_S_r es i e He). f_equal.
    destruct (drop (S i) es) eqn:Ed; apply (f_equal length) in Ed; rewrite length_drop in Ed; cbn [length] in Ed;
      destruct (Nat.ltb_spec (S i) (length es)); (done || lia).
  - intros i Hi. unfold ptr. rewrite (ziplistPrev_ok zl es R (take i es) (drop i es)) by now rewrite take_drop.
    destruct i as [|j]; [done|]. destruct (lookup_lt_is_Some_2 es j Hi) as [e He].
    now rewrite (take_S_r es j e He), last_snoc, removelast_last.
Qed.

(** The string a value returned by ziplistGet stands for. *)
Definition shown (v : zvalue) : list Z := match v with ZStr s => s | ZInt v => decimal v end.

(** Reading, comparing and searching see the strings of the list, and the
    length is the length of the list, also when the header does not hold
    it. *)
Theorem ziplist_queries zl es : ziplist_wf zl es ->
  (forall (i : nat) (t : list Z), texts es !! i = Some t ->
     (exists v, ziplistGet zl (Some (ptr es i)) = Ret (Some v) /\ shown v = t) /\
     (forall s, ziplistCompare zl (ptr es i) s = Ret (bool_decide (t = s)))) /\
  (forall i s (skip : nat), (i <= length es)%nat ->
     ziplistFind zl (ptr es i) s (Z.of_nat skip) =
     Ret ((fun k => ptr es (i + k)) <$> find_text skip 0 s (drop i (texts es)))) /\
  (exists zl', ziplistLen zl = Ret (Z.of_nat (length es), zl') /\ ziplist_wf zl' es).
Proof.
  intros [R Hh]. split; [|split].
  - intros i t Ht. unfold texts in Ht. rewrite list_lookup_fmap in Ht.
    destruct (es !! i) as [e|] eqn:He; [|done]. injection Ht as <-. pose proof (at_index es i e He) as E. split.
    + exists (stored (e_val e)). split; [apply (ziplistGet_ok zl es R _ e _ E)|]. now destruct (e_val e).
    + intros s. apply (ziplistCompare_ok zl es R _ e _ s E).
  - intros i s skip Hi. unfold ziplistFind, ptr. pose proof (fuel_enough zl es R).
    change 0 with (Z.of_nat 0). rewrite (find_loop_ok zl es R s skip (drop i es) (length zl) (take i es) 0 None);
      [|now rewrite take_drop|rewrite length_drop; lia|now left].
    unfold texts at 2. rewrite skipn_map. fold (texts (drop i es)). f_equal. apply option_fmap_ext. intros k.
    f_equal. apply take_take_drop.
  - destruct (ziplistLen_ok zl es R) as (zl' & Hrun & HR). exists zl'. done.
Qed.

(** ziplistInsert puts the string before the entry the pointer is at. *)
Theorem ziplistInsert_refines junk zl es (i : nat) s : ziplist_wf zl es -> (i <= length es)%nat -> bytes_ok s ->
  insert_safe (last_raw 0 (take i es)) s (drop i es) ->
  Z.of_nat (length zl) + Z.of_nat (length s) + 18 + 4 * Z.of_nat (length es) < 2 ^ 32 ->
  exists zl' es', ziplistInsert junk zl (ptr es i) s = Ret zl' /\ ziplist_wf zl' es' /\
    texts es' = take i (texts es) ++ [s] ++ drop i (texts es).
Proof.
  intros W Hi Hs Hsafe Hbnd. pose proof (raw_new_le (last_raw 0 (take i es)) s Hs ltac:(lia)).
  apply insert_refines; auto; lia.
Qed.

(** C31: ziplistDelete removes the entry and leaves the pointer at the one
    after it. *)
Theorem ziplistDelete_refines junk zl es (i : nat) : ziplist_wf zl es -> (i < length es)%nat ->
  Z.of_nat (length zl) + 4 * Z.of_nat (length es) < 2 ^ 32 ->
  exists zl' es', ziplistDelete junk zl (ptr es i) = Ret (zl', ptr es' i) /\ ziplist_wf zl' es' /\
    texts es' = delete i (texts es).
Proof.
  intros W Hi Hbnd. destruct (delete_refines junk zl es i 1 W Hi ltac:(lia) Hbnd) as (zl' & es' & Hrun & HW & Hp & Ht).
  exists zl', es'. unfold ziplistDelete. rewrite Hrun. cbn [mbind res_bind]. unfold ptr. rewrite Hp.
  do 2 (split; [done|]). rewrite Ht, delete_take_drop. now rewrite Nat.add_1_r.
Qed.

(** ** Concrete lists *)

(** The strings "ab", "1024" and "ab". *)
Definition sample : list zent :=
  [mk_zent false (CStr [97; 98]); mk_zent false (CInt ZIP_INT_16B 1024); mk_zent false (CStr [97; 98])].
Definition sample_zl : list Z := block 3 [] sample.

Lemma zl_sample_wf : ziplist_wf sample_zl sample.
Proof.
  split; [|done]. apply (block_rep 3 [] sample); [done| |unfold cnt_ok; right; done|vm_compute; done].
  assert (content_ok (CStr [97; 98])) by (split_and!; [repeat constructor; done|done|reflexivity]).
  apply Forall_cons; split; [done|]. apply Forall_cons; split; [|apply Forall_cons; split; [done|constructor]].
  unfold content_ok, int_ok. cbn [e_val]. right; right; left. split; [done|]. unfold in_s. lia.
Qed.

Lemma ziplistPush_refines_witness : exists zl' es', ziplistPush 0 sample_zl [45; 49] ZIPLIST_HEAD = Ret zl' /\
  ziplist_wf zl' es' /\ texts es' = [45; 49] :: texts sample.
Proof.
  apply (ziplistPush_refines 0 sample_zl sample [45; 49] ZIPLIST_HEAD zl_sample_wf);
    [repeat constructor; done|vm_compute; done].
Defined.

Lemma ziplistInsert_refines_witness : exists zl' es',
  ziplistInsert 0 sample_zl (ptr sample 1) [99] = Ret zl' /\ ziplist_wf zl' es' /\
  texts es' = [[97; 98]; [99]; [49; 48; 50; 52]; [97; 98]].
Proof.
  apply (ziplistInsert_refines 0 sample_zl sample 1 [99] zl_sample_wf);
    [cbn; lia|repeat constructor; done|cbn; done|vm_compute; done].
Defined.

Lemma ziplistDelete_refines_witness : exists zl' es',
  ziplistDelete 0 sample_zl (ptr sample 1) = Ret (zl', ptr es' 1) /\ ziplist_wf zl' es' /\
  texts es' = [[97; 98]; [97; 98]].
Proof.
  apply (ziplistDelete_refines 0 sample_zl sample 1 zl_sample_wf); [cbn; lia|vm_compute; done].
Defined.

Lemma ziplistDeleteRange_refines_witness : exists zl' es',
  ziplistDeleteRange 0 sample_zl (-2) 2 = Ret zl' /\ ziplist_wf zl' es' /\ texts es' = [[97; 98]].
Proof.
  apply (ziplistDeleteRange_refines 0 sample_zl sample (-2) 2 zl_sample_wf);
    [unfold in_s; lia|unfold in_u; lia|vm_compute; done].
Defined.

Lemma ziplistMerge_refines_witness : exists zl es first second,
  ziplistMerge 0 (Some sample_zl) (Some sample_zl) false = Ret (Some zl, first, second) /\
  ziplist_wf zl es /\ texts es = texts sample ++ texts sample /\
  (first = Some zl /\ second = None \/ first = None /\ second = Some zl).
Proof.
  apply (ziplistMerge_refines 0 sample_zl sample_zl sample sample zl_sample_wf zl_sample_wf); [done|vm_compute; done].
Defined.

Lemma ziplist_navigation_witness : ziplistIndex sample_zl (-1) = Ret (Some 18) /\
  ziplistPrev sample_zl 18 = Ret (Some 14).
Proof.
  destruct (ziplist_navigation sample_zl sample zl_sample_wf) as (Hi & _ & Hp). split.
  - apply (Hi (-1)). unfold in_s. lia.
  - apply (Hp 2%nat). cbn. lia.
Defined.

Lemma ziplist_queries_witness : ziplistFind sample_zl 10 [49; 48; 50; 52] 0 = Ret (Some 14) /\
  ziplistFind sample_zl 14 [97; 98] 0 = Ret (Some 18).
Proof.
  destruct (ziplist_queries sample_zl sample zl_sample_wf) as (_ & Hf & _). split.
  - apply (Hf 0%nat [49; 48; 50; 52] 0%nat). lia.
  - apply (Hf 1%nat [97; 98] 0%nat). cbn. lia.
Defined.

(** ** Where the code departs from the list operations *)

(** The strings "a", 300 times "x", 248 times "y" and "z", pushed in this
    order, and the second one deleted: the last entry keeps a five-byte
    field for a length that fits in one byte. *)
Definition shrunk : res (list Z) :=
  zl ← ziplistNew 0;
  zl ← ziplistPush 0 zl [97] ZIPLIST_TAIL;
  zl ← ziplistPush 0 zl (replicate 300 120) ZIPLIST_TAIL;
  zl ← ziplistPush 0 zl (replicate 248 121) ZIPLIST_TAIL;
  zl ← ziplistPush 0 zl [122] ZIPLIST_TAIL;
  ziplistDeleteRange 0 zl 1 1.

(** Inserting "5" before that entry: the new entry needs two bytes, the
    field gives four back, the block is made two bytes shorter before its
    contents are moved, and the move reads past its end. *)
Theorem ziplistInsert_out_of_bounds :
  (zl ← shrunk; p ← ziplistIndex zl 2; Ret p) = Ret (Some 264) /\
  (zl ← shrunk; ziplistInsert 0 zl 264 [53]) = Fault OutOfBounds.
Proof. split; vm_compute; reflexivity. Qed.

(** Merging with an empty second list leaves a tail offset at the end
    marker: the list has one entry, and no last one. *)
Theorem ziplistMerge_empty_tail :
  (e ← ziplistNew 0;
   zl ← ziplistPush 0 e [97] ZIPLIST_TAIL;
   '(m, _, _) ← ziplistMerge 0 (Some zl) (Some e) false;
   m ← of_opt NullDeref m;
   first ← ziplistIndex m 0;
   last ← ziplistIndex m (-1);
   '(len, _) ← ziplistLen m;
   Ret (first, last, len)) = Ret (Some 10, None, 1).
Proof. vm_compute. reflexivity. Qed.
