(* ===== verification/Lzf.v ===== *)
(** * Lzf: the compression of strings and list nodes (lzf_c.c, lzf_d.c)

    Pointers into the input and the output are offsets; every read and
    write goes through the bounds of its block.  The configuration is the
    one of lzfP.h on a 64 bit x86 host: HLOG 16, VERY_FAST, no alignment
    restriction, offsets in the hash table, and a hash table that is not
    initialised: its first contents are the argument [htab]. *)

From S2P Require Import Prelude.

Definition HLOG : Z := 16.
Definition HSIZE : Z := 2 ^ HLOG.
Definition MAX_LIT : Z := 2 ^ 5.
Definition MAX_OFF : Z := 2 ^ 13.
Definition MAX_REF : Z := 2 ^ 8 + 2 ^ 3.

(** ** Compression *)

Section Compress.
Context (in_data : list Z).
Let in_end : Z := Z.of_nat (length in_data).

Definition FRST (p : Z) : res Z :=
  b0 ← rd in_data p; b1 ← rd in_data (p + 1); Ret (Z.lor (Z.shiftl b0 8) b1).
Definition NEXT (v p : Z) : res Z :=
  b2 ← rd in_data (p + 2); Ret (u32 (Z.lor (Z.shiftl v 8) b2)).
Definition IDX (h : Z) : Z := Z.land (u32 (Z.shiftr h (3 * 8 - HLOG) - u32 (h * 5))) (HSIZE - 1).

Definition hset (htab : Z -> Z) (i v : Z) : Z -> Z := fun j => if j =? i then v else htab j.

(** len++; if (ref[len] != ip[len]) break; [n] times.  The flag tells that
    no break was taken. *)
Fixpoint unrolled (n : nat) (ref ip len : Z) : res (Z * bool) :=
  match n with
  | O => Ret (len, true)
  | S n =>
    let len := len + 1 in
    a ← rd in_data (ref + len); b ← rd in_data (ip + len);
    if a =? b then unrolled n ref ip len else Ret (len, false)
  end.

(** do len++; while (len < maxlen && ref[len] == ip[len]); *)
Fixpoint extend_match (fuel : nat) (ref ip maxlen len : Z) : res Z :=
  match fuel with
  | O => Fault OutOfFuel
  | S fuel =>
    let len := len + 1 in
    if len <? maxlen then
      a ← rd in_data (ref + len); b ← rd in_data (ip + len);
      if a =? b then extend_match fuel ref ip maxlen len else Ret len
    else Ret len
  end.

(** The loop for (;;) after a match of three octets at [ref]. *)
Definition match_len (ref ip maxlen : Z) : res Z :=
  '(len, more) ← (if 16 <? maxlen then unrolled 16 ref ip 2 else Ret (2, true));
  if more : bool then extend_match (S (Z.to_nat MAX_REF)) ref ip maxlen len else Ret len.

Record cstate : Type := mk_cstate {
  c_ip : Z; c_op : Z; c_lit : Z; c_hval : Z; c_htab : Z -> Z; c_out : list Z
}.

(** How the body of the main loop ends. *)
Inductive flow : Type := Return0 (out : list Z) | Break (s : cstate) | Continue (s : cstate).

(** The four tests for a match. *)
Definition is_match (ref ip : Z) : res bool :=
  let off := u64 (ip - ref - 1) in
  if negb (off <? MAX_OFF) then Ret false
  else if negb (0 <? ref) then Ret false
  else
    r2 ← rd in_data (ref + 2); i2 ← rd in_data (ip + 2);
    if negb (r2 =? i2) then Ret false
    else
      r ← memread in_data ref 2; i ← memread in_data ip 2;
      Ret (bool_decide (r = i)).

(** lit++; *op++ = *ip++; and the end of a full run. *)
Definition put_lit (s : cstate) : res cstate :=
  b ← rd in_data (c_ip s);
  out ← wr (c_out s) (c_op s) b;
  let lit := c_lit s + 1 in let op := c_op s + 1 in let ip := c_ip s + 1 in
  if lit =? MAX_LIT then
    out ← wr out (op - lit - 1) (u8 (lit - 1));
    Ret (mk_cstate ip (op + 1) 0 (c_hval s) (c_htab s) out)
  else Ret (mk_cstate ip op lit (c_hval s) (c_htab s) out).

(** The reference [off], [len] after the match. *)
Definition put_ref (out : list Z) (op off len : Z) : res (list Z * Z) :=
  '(out, op) ←
    (if len <? 7 then
       out ← wr out op (u8 (Z.shiftr off 8 + Z.shiftl len 5)); Ret (out, op + 1)
     else
       out ← wr out op (u8 (Z.shiftr off 8 + Z.shiftl 7 5));
       out ← wr out (op + 1) (u8 (len - 7));
       Ret (out, op + 2));
  out ← wr out op (u8 off);
  Ret (out, op + 1).

(** The hash table entries of the last two octets of a match. *)
Definition rehash_last (ip : Z) (htab : Z -> Z) : res (Z * (Z -> Z)) :=
  let ip := ip - 2 in
  hval ← FRST ip;
  hval ← NEXT hval ip;
  let htab := hset htab (IDX hval) ip in
  let ip := ip + 1 in
  hval ← NEXT hval ip;
  Ret (hval, hset htab (IDX hval) ip).

Definition compress_step (out_end : Z) (s : cstate) : res flow :=
  let ip := c_ip s in let op := c_op s in let lit := c_lit s in
  hval ← NEXT (c_hval s) ip;
  let slot := IDX hval in
  let ref := c_htab s slot in
  let htab := hset (c_htab s) slot (u32 ip) in
  let off := u64 (ip - ref - 1) in
  m ← is_match ref ip;
  if m : bool then
    let maxlen := u32 (in_end - ip - 2) in
    let maxlen := if MAX_REF <? maxlen then MAX_REF else maxlen in
    let notlit := if lit =? 0 then 1 else 0 in
    if (out_end <=? op + 3 + 1) && (out_end <=? op - notlit + 3 + 1) then Ret (Return0 (c_out s))
    else
      out ← wr (c_out s) (op - lit - 1) (u8 (lit - 1));
      let op := op - notlit in
      len ← match_len ref ip maxlen;
      let len := len - 2 in
      '(out, op) ← put_ref out op off len;
      let op := op + 1 in
      let ip := ip + 1 + (len + 1) in
      if in_end - 2 <=? ip then Ret (Break (mk_cstate ip op 0 hval htab out))
      else
        '(hval, htab) ← rehash_last ip htab;
        Ret (Continue (mk_cstate ip op 0 hval htab out))
  else if out_end <=? op then Ret (Return0 (c_out s))
  else s ← put_lit (mk_cstate ip op lit hval htab (c_out s)); Ret (Continue s).

(** while (ip < in_end - 2): every turn consumes input.  [inl] is return 0
    and the output block at that point. *)
Fixpoint compress_loop (fuel : nat) (out_end : Z) (s : cstate) : res (list Z + cstate) :=
  match fuel with
  | O => Fault OutOfFuel
  | S fuel =>
    if c_ip s <? in_end - 2 then
      f ← compress_step out_end s;
      match f with
      | Return0 out => Ret (inl out)
      | Break s => Ret (inr s)
      | Continue s => compress_loop fuel out_end s
      end
    else Ret (inr s)
  end.

(** while (ip < in_end) *)
Fixpoint rest_loop (fuel : nat) (s : cstate) : res cstate :=
  match fuel with
  | O => Fault OutOfFuel
  | S fuel =>
    if c_ip s <? in_end then s ← put_lit s; rest_loop fuel s else Ret s
  end.

(** The number of octets written, 0 for failure, and the output block. *)
Definition lzf_compress (htab : Z -> Z) (out_data : list Z) : res (Z * list Z) :=
  let out_end := Z.of_nat (length out_data) in
  if (in_end =? 0) || (out_end =? 0) then Ret (0, out_data)
  else
    hval ← FRST 0;
    r ← compress_loop (S (length in_data)) out_end (mk_cstate 0 1 0 hval htab out_data);
    match r with
    | inl out => Ret (0, out)
    | inr s =>
      if out_end <? c_op s + 3 then Ret (0, c_out s)
      else
        s ← rest_loop (S (length in_data)) s;
        out ← wr (c_out s) (c_op s - c_lit s - 1) (u8 (c_lit s - 1));
        let op := c_op s - (if c_lit s =? 0 then 1 else 0) in
        Ret (op, out)
    end.
End Compress.

(** ** Decompression *)

(** The values of errno the routine sets. *)
Inductive lzf_errno : Type := E2BIG | EINVAL.

Section Decompress.
Context (in_data : list Z).
Let in_end : Z := Z.of_nat (length in_data).

(** *op++ = *ip++; [n] times. *)
Fixpoint copy_in (n : nat) (ip op : Z) (out : list Z) : res (list Z) :=
  match n with
  | O => Ret out
  | S n => b ← rd in_data ip; out ← wr out op b; copy_in n (ip + 1) (op + 1) out
  end.

(** *op++ = *ref++; [n] times. *)
Fixpoint copy_ref (n : nat) (ref op : Z) (out : list Z) : res (list Z) :=
  match n with
  | O => Ret out
  | S n => b ← rd out ref; out ← wr out op b; copy_ref n (ref + 1) (op + 1) out
  end.

(** One turn of the loop: the new [ip], [op] and output, or an error. *)
Definition decompress_step (ip op : Z) (out : list Z) : res (lzf_errno + (Z * Z * list Z)) :=
  let out_end := Z.of_nat (length out) in
  ctrl ← rd in_data ip;
  let ip := ip + 1 in
  if ctrl <? Z.shiftl 1 5 then
    let ctrl := ctrl + 1 in
    if out_end <? op + ctrl then Ret (inl E2BIG)
    else if in_end <? ip + ctrl then Ret (inl EINVAL)
    else
      out ← copy_in (Z.to_nat ctrl) ip op out;
      Ret (inr (ip + ctrl, op + ctrl, out))
  else
    let len := Z.shiftr ctrl 5 in
    let ref := op - Z.shiftl (Z.land ctrl 0x1f) 8 - 1 in
    if in_end <=? ip then Ret (inl EINVAL)
    else
      '(len, ip) ← (if len =? 7 then l ← rd in_data ip; Ret (len + l, ip + 1) else Ret (len, ip));
      if (Z.shiftr ctrl 5 =? 7) && (in_end <=? ip) then Ret (inl EINVAL)
      else
        r ← rd in_data ip;
        let ref := ref - r in
        let ip := ip + 1 in
        if out_end <? op + len + 2 then Ret (inl E2BIG)
        else if ref <? 0 then Ret (inl EINVAL)
        else
          out ←
            (if (len <=? 9) then copy_ref (Z.to_nat (len + 2)) ref op out
             else
               let len := len + 2 in
               if ref + len <=? op then b ← memread out ref (Z.to_nat len); memwrite out op b
               else copy_ref (Z.to_nat len) ref op out);
          Ret (inr (ip, op + len + 2, out)).

(** do ... while (ip < in_end): every turn consumes input. *)
Fixpoint decompress_loop (fuel : nat) (ip op : Z) (out : list Z) : res (lzf_errno + (Z * list Z)) :=
  match fuel with
  | O => Fault OutOfFuel
  | S fuel =>
    r ← decompress_step ip op out;
    match r with
    | inl e => Ret (inl e)
    | inr (ip, op, out) => if ip <? in_end then decompress_loop fuel ip op out else Ret (inr (op, out))
    end
  end.

(** The number of octets written and the output; an error is return 0. *)
Definition lzf_decompress (out_data : list Z) : res (lzf_errno + (Z * list Z)) :=
  decompress_loop (S (length in_data)) 0 0 out_data.
End Decompress.
