(* ===== verification/LzfProofs.v ===== *)
(** * LzfProofs: compression followed by decompression is the identity

    The compressed format as a list of items, what the decompressor does
    on each, and the invariant of the compressor: what it has written is
    the image of items that expand to the input it has consumed. *)

From S2P Require Import Prelude Lzf.

(** ** The format *)

Inductive item : Type := Lit (l : list Z) | Ref (off : Z) (len : Z).

Definition enc (it : item) : list Z :=
  match it with
  | Lit l => (Z.of_nat (length l) - 1) :: l
  | Ref off len =>
    if len <? 7 then [off / 256 + len * 32; off mod 256] else [off / 256 + 224; len - 7; off mod 256]
  end.

(** [n] octets copied one by one from distance [off + 1]. *)
Fixpoint copyk (n : nat) (off : nat) (d : list Z) : list Z :=
  match n with
  | O => d
  | S n => copyk n off (d ++ [nth (length d - off - 1) d 0])
  end.

Definition expand (d : list Z) (it : item) : list Z :=
  match it with
  | Lit l => d ++ l
  | Ref off len => copyk (Z.to_nat (len + 2)) (Z.to_nat off) d
  end.

Definition ok_item (d : list Z) (it : item) : Prop :=
  match it with
  | Lit l => (1 <= length l <= 32)%nat
  | Ref off len => 1 <= len <= 262 /\ 0 <= off < 2 ^ 13 /\ off < Z.of_nat (length d)
  end.

Fixpoint valid (d : list Z) (its : list item) : Prop :=
  match its with
  | [] => True
  | it :: its => ok_item d it /\ valid (expand d it) its
  end.

Definition enc_all (its : list item) : list Z := concat (map enc its).
Definition expand_all (d : list Z) (its : list item) : list Z := fold_left expand its d.

Lemma enc_all_app a b : enc_all (a ++ b) = enc_all a ++ enc_all b.
Proof. unfold enc_all. now rewrite map_app, concat_app. Qed.

Lemma expand_all_app d a b : expand_all d (a ++ b) = expand_all (expand_all d a) b.
Proof. apply fold_left_app. Qed.

Lemma valid_app a : forall d b, valid d (a ++ b) <-> valid d a /\ valid (expand_all d a) b.
Proof. induction a as [|it a IH]; intros d b; cbn; [tauto|]. rewrite IH. tauto. Qed.

Lemma length_copyk n off : forall d, length (copyk n off d) = (length d + n)%nat.
Proof. induction n as [|n IH]; intros d; cbn; [lia|]. rewrite IH, length_app. cbn. lia. Qed.

Lemma expand_grows d it : ok_item d it -> (length d < length (expand d it))%nat.
Proof. destruct it; cbn [expand ok_item]; intros H; rewrite ?length_app, ?length_copyk; lia. Qed.

Lemma expand_all_length its : forall d, valid d its -> (length d <= length (expand_all d its))%nat.
Proof.
  induction its as [|it its IH]; intros d Hv; [cbn; lia|]. destruct Hv as [H1 H2].
  change (expand_all d (it :: its)) with (expand_all (expand d it) its).
  pose proof (expand_grows d it H1). specialize (IH _ H2). lia.
Qed.

(** Copying without overlap is copying a slice. *)
Lemma copyk_slice n off : forall d, (off < length d)%nat -> (n <= S off)%nat ->
  copyk n off d = d ++ slice d (length d - off - 1) n.
Proof.
  induction n as [|n IH]; intros d Hd Hn; cbn [copyk].
  - unfold slice. now rewrite take_0, app_nil_r.
  - rewrite IH by (rewrite ?length_app; cbn; lia). rewrite <- app_assoc. f_equal. cbn [app].
    rewrite length_app. cbn [length]. unfold slice.
    rewrite (drop_S d (nth (length d - off - 1) d 0) (length d - off - 1)).
    + rewrite firstn_cons. f_equal. replace (length d + 1 - off - 1)%nat with (S (length d - off - 1)) by lia.
      rewrite drop_app_le by lia. apply take_app_le. rewrite length_drop. lia.
    + destruct (nth_lookup_or_length d (length d - off - 1) 0); [done|lia].
Qed.

(** If the input repeats itself, the copy continues it. *)
Lemma copyk_repeat inp (n : nat) : forall (ip off : nat), (off < ip)%nat -> (ip + n <= length inp)%nat ->
  (forall k, (k < n)%nat -> inp !! (ip - off - 1 + k)%nat = inp !! (ip + k)%nat) ->
  copyk n off (take ip inp) = take (ip + n) inp.
Proof.
  induction n as [|n IH]; intros ip off Ho Hl Hk; cbn [copyk]; [now rewrite Nat.add_0_r|].
  assert (length (take ip inp) = ip) as Hlen by (rewrite length_take; lia). rewrite Hlen.
  destruct (lookup_lt_is_Some_2 inp ip ltac:(lia)) as [x Hx].
  assert (nth (ip - off - 1) (take ip inp) 0 = x) as ->.
  { specialize (Hk 0%nat ltac:(lia)). rewrite !Nat.add_0_r, Hx in Hk.
    rewrite nth_lookup, lookup_take_lt by lia. now rewrite Hk. }
  rewrite <- (take_S_r inp ip x Hx). rewrite IH; [f_equal; lia|lia|lia|].
  intros k Hkn. specialize (Hk (S k) ltac:(lia)).
  replace (S ip - off - 1 + k)%nat with (ip - off - 1 + S k)%nat by lia.
  rewrite Hk. f_equal. lia.
Qed.

(** ** Decompression of an item *)

Section Decode.
Context (inp : list Z).

Lemma copy_in_ok l : forall pre suf d rest ip op, inp = pre ++ l ++ suf ->
  ip = Z.of_nat (length pre) -> op = Z.of_nat (length d) -> (length l <= length rest)%nat ->
  copy_in inp (length l) ip op (d ++ rest) = Ret ((d ++ l) ++ drop (length l) rest).
Proof.
  induction l as [|b l IH]; intros pre suf d rest ip op E Hip Hop Hl; cbn [copy_in length].
  - now rewrite app_nil_r, drop_0.
  - destruct rest as [|x rest]; cbn [length] in Hl; [lia|].
    assert (rd inp ip = Ret b) as -> by (rewrite E; now apply rd_at). cbn [mbind res_bind].
    rewrite wr_at by done. cbn [mbind res_bind].
    replace (d ++ b :: rest) with ((d ++ [b]) ++ rest) by now rewrite <- app_assoc.
    rewrite (IH (pre ++ [b]) suf (d ++ [b]) rest); [now rewrite <- !app_assoc|now rewrite <- app_assoc|..];
      rewrite ?length_app; cbn [length]; lia.
Qed.

Lemma copy_ref_ok n off : forall d rest ref op, op = Z.of_nat (length d) -> (off < length d)%nat ->
  ref = op - Z.of_nat off - 1 -> (n <= length rest)%nat ->
  copy_ref n ref op (d ++ rest) = Ret (copyk n off d ++ drop n rest).
Proof.
  induction n as [|n IH]; intros d rest ref op Hop Hoff Href Hl; cbn [copy_ref copyk]; [now rewrite drop_0|].
  destruct rest as [|x rest]; cbn [length] in Hl; [lia|].
  set (b := nth (length d - off - 1) d 0).
  assert (rd (d ++ x :: rest) ref = Ret b) as ->.
  { unfold rd. destruct (Z.ltb_spec ref 0); [lia|]. rewrite lookup_app_l by lia.
    replace (Z.to_nat ref) with (length d - off - 1)%nat by lia.
    unfold b. destruct (nth_lookup_or_length d (length d - off - 1) 0) as [->|]; [done|lia]. }
  cbn [mbind res_bind]. rewrite wr_at by done. cbn [mbind res_bind].
  replace (d ++ b :: rest) with ((d ++ [b]) ++ rest) by now rewrite <- app_assoc.
  apply IH; rewrite ?length_app; cbn [length]; lia.
Qed.

Lemma memcpy_ref_ok n off d rest ref op : op = Z.of_nat (length d) -> (off < length d)%nat ->
  ref = op - Z.of_nat off - 1 -> (n <= length rest)%nat -> ref + Z.of_nat n <= op ->
  (b ← memread (d ++ rest) ref n; memwrite (d ++ rest) op b) = Ret (copyk n off d ++ drop n rest).
Proof.
  intros Hop Hoff Href Hl Hdis. replace ref with (Z.of_nat (length d - off - 1)) by lia.
  rewrite memread_ok by (rewrite length_app; lia). cbn [mbind res_bind].
  assert (slice (d ++ rest) (length d - off - 1) n = slice d (length d - off - 1) n) as ->.
  { unfold slice. rewrite drop_app_le by lia. apply take_app_le. rewrite length_drop. lia. }
  rewrite Hop, memwrite_ok by (rewrite length_slice, length_app; lia).
  f_equal. rewrite copyk_slice by lia. unfold blit.
  rewrite take_app_length, length_slice, <- app_assoc by lia. do 2 f_equal.
  rewrite <- drop_drop. now rewrite drop_app_length.
Qed.

Lemma ctrl_fields a k : 0 <= a < 32 -> Z.shiftr (a + k * 32) 5 = k /\ Z.land (a + k * 32) 0x1f = a.
Proof.
  intros Ha. split.
  - rewrite Z.shiftr_div_pow2 by lia. symmetry. apply Z.div_unique_pos with a; lia.
  - change 0x1f with (2 ^ 5 - 1). rewrite land_mask by lia. symmetry. apply Z.mod_unique_pos with k; lia.
Qed.

(** The copy of a back reference, on each of its three paths. *)
Lemma ref_copy_ok d rest len off ref op : op = Z.of_nat (length d) -> 0 <= len -> 0 <= off < Z.of_nat (length d) ->
  ref = op - off - 1 -> len + 2 <= Z.of_nat (length rest) ->
  (if len <=? 9 then copy_ref (Z.to_nat (len + 2)) ref op (d ++ rest)
   else let len := len + 2 in
     if ref + len <=? op then b ← memread (d ++ rest) ref (Z.to_nat len); memwrite (d ++ rest) op b
     else copy_ref (Z.to_nat len) ref op (d ++ rest)) =
  Ret (expand d (Ref off len) ++ drop (Z.to_nat (len + 2)) rest).
Proof.
  intros Hop Hlen Hoff Href Hl. cbn [expand]. cbv zeta.
  assert (copy_ref (Z.to_nat (len + 2)) ref op (d ++ rest) =
    Ret (copyk (Z.to_nat (len + 2)) (Z.to_nat off) d ++ drop (Z.to_nat (len + 2)) rest)) as Hc
    by (apply copy_ref_ok; lia).
  destruct (len <=? 9); [done|]. destruct (Z.leb_spec (ref + (len + 2)) op); [|done].
  apply memcpy_ref_ok; lia.
Qed.

Lemma rd_nth pre l suf ip (k : nat) x : inp = pre ++ l ++ suf -> ip = Z.of_nat (length pre) + Z.of_nat k ->
  l !! k = Some x -> rd inp ip = Ret x.
Proof.
  intros -> -> Hk. unfold rd. destruct (Z.ltb_spec (Z.of_nat (length pre) + Z.of_nat k) 0); [lia|].
  replace (Z.to_nat (Z.of_nat (length pre) + Z.of_nat k)) with (length pre + k)%nat by lia.
  rewrite lookup_app_r by lia. replace (length pre + k - length pre)%nat with k by lia.
  rewrite lookup_app_l by (eapply lookup_lt_Some; eauto). now rewrite Hk.
Qed.

Lemma step_item it pre suf d rest ip op : inp = pre ++ enc it ++ suf ->
  ip = Z.of_nat (length pre) -> op = Z.of_nat (length d) -> ok_item d it ->
  (length (expand d it) <= length (d ++ rest))%nat ->
  decompress_step inp ip op (d ++ rest) =
  Ret (inr (Z.of_nat (length (pre ++ enc it)), Z.of_nat (length (expand d it)),
            expand d it ++ drop (length (expand d it) - length d) rest)).
Proof.
  intros E Hip Hop Hok Hfit. unfold decompress_step.
  assert (length inp = (length pre + length (enc it) + length suf)%nat) as Hin by (rewrite E, !length_app; lia).
  rewrite length_app in Hfit. destruct it as [l|off len]; cbn [ok_item] in Hok.
  - cbn [expand] in *. rewrite length_app in *. cbn [enc length] in Hin, E |- *.
    assert (rd inp ip = Ret (Z.of_nat (length l) - 1)) as -> by (rewrite E; now apply rd_at).
    cbn [mbind res_bind]. destruct (Z.ltb_spec (Z.of_nat (length l) - 1) (Z.shiftl 1 5)) as [_|H];
      [|change (Z.shiftl 1 5) with 32 in H; lia].
    rewrite Z.sub_add, length_app. destruct (Z.ltb_spec (Z.of_nat (length d + length rest)) (op + Z.of_nat (length l))); [lia|].
    destruct (Z.ltb_spec (Z.of_nat (length inp)) (ip + 1 + Z.of_nat (length l))); [lia|].
    rewrite Nat2Z.id, (copy_in_ok l (pre ++ [Z.of_nat (length l) - 1]) suf d rest);
      [|rewrite E; now rewrite <- app_assoc|rewrite length_app; cbn [length]; lia|done|lia].
    cbn [mbind res_bind]. rewrite length_app. cbn [length]. do 2 f_equal. f_equal; [f_equal; lia|].
    do 2 f_equal. lia.
  - destruct Hok as (Hlen & Hoff & Hd). cbn [enc] in E, Hin |- *.
    assert (0 <= off / 256 < 32) as Hhi by (split; [apply Z.div_pos; lia|apply Z.div_lt_upper_bound; lia]).
    pose proof (Z.div_mod off 256 ltac:(lia)) as Hdm. pose proof (Z.mod_pos_bound off 256 ltac:(lia)).
    assert (length (expand d (Ref off len)) - length d = Z.to_nat (len + 2))%nat as Hel
      by (cbn [expand]; rewrite length_copyk; lia).
    rewrite Hel. set (k := if len <? 7 then len else 7).
    assert (Z.of_nat (length (expand d (Ref off len))) = op + len + 2) as HeZ
      by (cbn [expand]; rewrite length_copyk; lia).
    assert (1 <= k <= 7) as Hk by (unfold k; destruct (Z.ltb_spec len 7); lia).
    assert (rd inp ip = Ret (off / 256 + k * 32)) as ->.
    { unfold k. eapply (rd_nth pre _ suf ip 0); [exact E|lia|]. destruct (len <? 7); done. }
    cbn [mbind res_bind]. destruct (ctrl_fields (off / 256) k Hhi) as [-> ->].
    destruct (Z.ltb_spec (off / 256 + k * 32) (Z.shiftl 1 5)) as [H5|_]; [change (Z.shiftl 1 5) with 32 in H5; lia|].
    rewrite Z.shiftl_mul_pow2 by lia. change (2 ^ 8) with 256.
    rewrite length_app. destruct (Z.leb_spec (Z.of_nat (length inp)) (ip + 1));
      [destruct (len <? 7) in Hin; cbn [length] in Hin; lia|].
    unfold k in *. destruct (Z.ltb_spec len 7).
    + destruct (Z.eqb_spec len 7); [lia|]. cbn [mbind res_bind andb].
      rewrite (rd_nth pre [off / 256 + len * 32; off mod 256] suf (ip + 1) 1 (off mod 256)) by (done || lia).
      cbn [mbind res_bind]. cbn [length] in Hin.
      destruct (Z.ltb_spec (Z.of_nat (length d + length rest)) (op + len + 2)); [lia|].
      destruct (Z.ltb_spec (op - off / 256 * 256 - 1 - off mod 256) 0); [lia|].
      rewrite (ref_copy_ok d rest len off) by lia. cbn [mbind res_bind].
      rewrite HeZ, length_app. cbn [length]. do 3 f_equal. f_equal. lia.
    + change (7 =? 7) with true. cbn [andb].
      rewrite (rd_nth pre [off / 256 + 224; len - 7; off mod 256] suf (ip + 1) 1 (len - 7)) by (done || lia).
      cbn [mbind res_bind]. cbn [length] in Hin. destruct (Z.leb_spec (Z.of_nat (length inp)) (ip + 1 + 1)); [lia|].
      rewrite (rd_nth pre [off / 256 + 224; len - 7; off mod 256] suf (ip + 1 + 1) 2 (off mod 256)) by (done || lia).
      cbn [mbind res_bind]. replace (7 + (len - 7)) with len by lia.
      destruct (Z.ltb_spec (Z.of_nat (length d + length rest)) (op + len + 2)); [lia|].
      destruct (Z.ltb_spec (op - off / 256 * 256 - 1 - off mod 256) 0); [lia|].
      rewrite (ref_copy_ok d rest len off) by lia. cbn [mbind res_bind].
      rewrite HeZ, length_app. cbn [length]. do 3 f_equal. f_equal. lia.
Qed.

Lemma enc_nonempty it : (1 <= length (enc it))%nat.
Proof. destruct it; cbn [enc]; [cbn; lia|]. destruct (len <? 7); cbn; lia. Qed.

Lemma decode_all its : forall fuel pre d rest, inp = pre ++ enc_all its -> its <> [] -> valid d its ->
  (length (expand_all d its) <= length (d ++ rest))%nat -> (length its <= fuel)%nat ->
  decompress_loop inp fuel (Z.of_nat (length pre)) (Z.of_nat (length d)) (d ++ rest) =
  Ret (inr (Z.of_nat (length (expand_all d its)), expand_all d its ++ drop (length (expand_all d its) - length d) rest)).
Proof.
  induction its as [|it its IH]; intros fuel pre d rest E Hne Hv Hfit Hf; [done|]. destruct Hv as [Hok Hv].
  destruct fuel as [|fuel]; cbn [length] in Hf; [lia|]. cbn [decompress_loop].
  change (expand_all d (it :: its)) with (expand_all (expand d it) its) in *.
  pose proof (expand_all_length its _ Hv). pose proof (expand_grows d it Hok). rewrite length_app in Hfit.
  unfold enc_all in E. cbn [map concat] in E. fold (enc_all its) in E.
  rewrite (step_item it pre (enc_all its) d rest); [|done..|rewrite length_app; lia]. cbn [mbind res_bind].
  destruct its as [|it2 its].
  - unfold enc_all in E. cbn [map concat] in E. rewrite app_nil_r in E. rewrite E, Z.ltb_irrefl. done.
  - pose proof (enc_nonempty it2). rewrite E at 1.
    destruct (Z.ltb_spec (Z.of_nat (length (pre ++ enc it))) (Z.of_nat (length (pre ++ enc it ++ enc_all (it2 :: its)))));
      [|unfold enc_all in *; cbn [map concat] in *; rewrite !length_app in *; lia].
    rewrite (IH fuel (pre ++ enc it) (expand d it)); [|now rewrite <- app_assoc|done|done|rewrite length_app, length_drop; lia|lia].
    rewrite drop_drop. do 4 f_equal. f_equal. lia.
Qed.

End Decode.

(** What the compressor must produce: the image of valid items. *)
Lemma decompress_items its inp blk : its <> [] -> valid [] its -> expand_all [] its = inp ->
  (length inp <= length blk)%nat ->
  lzf_decompress (enc_all its) blk = Ret (inr (Z.of_nat (length inp), inp ++ drop (length inp) blk)).
Proof.
  intros Hne Hv <- Hl. unfold lzf_decompress.
  rewrite (decode_all (enc_all its) its _ [] [] blk); cbn [app length]; auto; [|].
  - now rewrite Nat.sub_0_r.
  - clear. induction its as [|it its IH]; [cbn; lia|]. unfold enc_all in *. cbn [map concat length].
    rewrite length_app. pose proof (enc_nonempty it). lia.
Qed.

(** ** Matches *)

Section Compress.
Context (inp : list Z) (Hin32 : Z.of_nat (length inp) < 2 ^ 32).

(** [n] octets at [ref] and at [ip] agree. *)
Definition agree (ref ip n : nat) : Prop := forall k, (k < n)%nat -> inp !! (ref + k)%nat = inp !! (ip + k)%nat.

Lemma rd_nat (i : nat) : (i < length inp)%nat -> exists x, rd inp (Z.of_nat i) = Ret x /\ inp !! i = Some x.
Proof.
  intros Hi. destruct (lookup_lt_is_Some_2 inp i Hi) as [x Hx]. exists x. split; [|done].
  unfold rd. destruct (Z.ltb_spec (Z.of_nat i) 0); [lia|]. now rewrite Nat2Z.id, Hx.
Qed.

(** Comparing the octets at distance [len]. *)
Lemma compare_ok {A} (ref ip len : nat) (k1 k2 : res A) (P : res A -> Prop) :
  (ref < ip)%nat -> (ip + len < length inp)%nat -> agree ref ip len ->
  (agree ref ip (S len) -> P k1) -> P k2 ->
  P (a ← rd inp (Z.of_nat ref + Z.of_nat len); b ← rd inp (Z.of_nat ip + Z.of_nat len); if a =? b then k1 else k2).
Proof.
  intros Hlt Hl Ha H1 H2.
  destruct (rd_nat (ref + len) ltac:(lia)) as (x & Hx & Hx'). destruct (rd_nat (ip + len) ltac:(lia)) as (y & Hy & Hy').
  rewrite Nat2Z.inj_add in Hx, Hy. rewrite Hx, Hy. cbn [mbind res_bind]. destruct (Z.eqb_spec x y) as [->|]; [|done].
  apply H1. intros k Hk. destruct (decide (k = len)) as [->|]; [congruence|]. apply Ha. lia.
Qed.

Lemma unrolled_ok n : forall ref ip len : nat, (ref < ip)%nat -> (ip + len + n < length inp)%nat ->
  agree ref ip (S len) ->
  exists (len' : nat) b, unrolled inp n (Z.of_nat ref) (Z.of_nat ip) (Z.of_nat len) = Ret (Z.of_nat len', b) /\
    (len <= len' <= len + n)%nat /\
    if b : bool then len' = (len + n)%nat /\ agree ref ip (S len') else (len < len')%nat /\ agree ref ip len'.
Proof.
  induction n as [|n IH]; intros ref ip len Hlt Hl Ha; cbn [unrolled].
  - exists len, true. split; [done|]. split; [lia|]. split; [lia|done].
  - replace (Z.of_nat len + 1) with (Z.of_nat (S len)) by lia. apply compare_ok; [lia|lia|done| |].
    + intros Ha'. destruct (IH ref ip (S len) Hlt ltac:(lia) Ha') as (len' & b & -> & Hb & Hc).
      exists len', b. split; [done|]. split; [lia|]. destruct b; [|split; [lia|apply Hc]].
      destruct Hc. split; [lia|done].
    + exists (S len), false. split; [done|]. split; [lia|]. split; [lia|done].
Qed.

Lemma extend_ok fuel : forall ref ip maxlen len : nat, (ref < ip)%nat -> (ip + maxlen <= length inp)%nat ->
  (maxlen - len < fuel)%nat -> agree ref ip (S len) ->
  exists L : nat, extend_match inp fuel (Z.of_nat ref) (Z.of_nat ip) (Z.of_nat maxlen) (Z.of_nat len) = Ret (Z.of_nat L) /\
    (len < L)%nat /\ (L <= Nat.max maxlen (S len))%nat /\ agree ref ip L.
Proof.
  induction fuel as [|fuel IH]; intros ref ip maxlen len Hlt Hl Hf Ha; [lia|]. cbn [extend_match].
  replace (Z.of_nat len + 1) with (Z.of_nat (S len)) by lia.
  destruct (Z.ltb_spec (Z.of_nat (S len)) (Z.of_nat maxlen)); [|exists (S len); split; [done|]; split; [lia|]; split; [lia|done]].
  apply compare_ok; [lia|lia|done| |].
  - intros Ha'. destruct (IH ref ip maxlen (S len) Hlt Hl ltac:(lia) Ha') as (L & -> & ? & ? & ?).
    exists L. split; [done|]. split; [lia|]. split; [lia|done].
  - exists (S len). split; [done|]. split; [lia|]. split; [lia|done].
Qed.

Lemma match_len_ok (ref ip : nat) maxlen : (ref < ip)%nat -> (ip + 2 < length inp)%nat -> agree ref ip 3 ->
  maxlen = Z.min (Z.of_nat (length inp) - Z.of_nat ip - 2) MAX_REF ->
  exists L : nat, match_len inp (Z.of_nat ref) (Z.of_nat ip) maxlen = Ret (Z.of_nat L) /\
    (3 <= L <= 264)%nat /\ (ip + L <= length inp)%nat /\ agree ref ip L.
Proof.
  intros Hlt Hl Ha Hm. change MAX_REF with 264 in *. unfold match_len. change (S (Z.to_nat MAX_REF)) with 265%nat.
  assert (maxlen = Z.of_nat (Z.to_nat maxlen)) as -> by lia. set (mx := Z.to_nat maxlen) in *.
  assert (forall len : nat, (2 <= len <= 18)%nat -> (len = 18 -> 17 <= mx)%nat -> (len = 2 \/ len = 18)%nat -> agree ref ip (S len) ->
    exists L : nat, extend_match inp 265 (Z.of_nat ref) (Z.of_nat ip) (Z.of_nat mx) (Z.of_nat len) = Ret (Z.of_nat L) /\
      (3 <= L <= 264)%nat /\ (ip + L <= length inp)%nat /\ agree ref ip L) as Hext.
  { intros len Hlen H18 Hor Ha'. destruct (extend_ok 265 ref ip mx len Hlt ltac:(lia) ltac:(lia) Ha') as (L & HL & ? & ? & ?).
    exists L. split; [exact HL|]. split; [lia|]. split; [lia|done]. }
  change 2 with (Z.of_nat 2). destruct (Z.ltb_spec 16 (Z.of_nat mx)).
  - destruct (unrolled_ok 16 ref ip 2 Hlt ltac:(lia) Ha) as (len & b & -> & Hb & Hc). cbn [mbind res_bind].
    destruct b; [apply Hext; [lia|lia|lia|apply Hc]|].
    exists len. split; [done|]. split; [lia|]. split; [lia|apply Hc].
  - cbn [mbind res_bind]. apply Hext; [lia|lia|lia|done].
Qed.

Lemma is_match_ok ref (ip : nat) : in_u 32 ref -> (ip + 2 < length inp)%nat ->
  exists b, is_match inp ref (Z.of_nat ip) = Ret b /\
    (b = true -> exists r : nat, ref = Z.of_nat r /\ (r < ip)%nat /\ u64 (Z.of_nat ip - ref - 1) = Z.of_nat (ip - r - 1) /\
       Z.of_nat (ip - r - 1) < 8192 /\ agree r ip 3).
Proof.
  intros Hr Hip. unfold is_match. destruct (Z.ltb_spec (u64 (Z.of_nat ip - ref - 1)) MAX_OFF) as [Ho|]; cbn [negb];
    [|exists false; split; [done|discriminate]].
  destruct (Z.ltb_spec 0 ref); cbn [negb]; [|exists false; split; [done|discriminate]].
  change MAX_OFF with 8192 in Ho. unfold in_u in Hr.
  assert (ref < Z.of_nat ip) as Hlt.
  { destruct (Z.lt_ge_cases ref (Z.of_nat ip)); [done|]. exfalso. unfold uwrap in Ho.
    rewrite <- (Z.mod_add _ 1) in Ho by lia. rewrite Z.mod_small in Ho; lia. }
  assert (u64 (Z.of_nat ip - ref - 1) = Z.of_nat ip - ref - 1) as Hoff by (apply uwrap_id; unfold in_u; lia).
  rewrite Hoff in *. set (r := Z.to_nat ref). assert (ref = Z.of_nat r) as Hrr by (unfold r; lia).
  clearbody r. subst ref.
  destruct (rd_nat (r + 2) ltac:(lia)) as (x & Hx & Hx'). destruct (rd_nat (ip + 2) ltac:(lia)) as (y & Hy & Hy').
  rewrite Nat2Z.inj_add in Hx, Hy. change (Z.of_nat 2) with 2 in *. rewrite Hx, Hy. cbn [mbind res_bind].
  destruct (Z.eqb_spec x y) as [->|]; cbn [negb]; [|exists false; split; [done|discriminate]].
  rewrite !memread_ok by lia. cbn [mbind res_bind]. eexists. split; [done|]. intros Hb. apply bool_decide_eq_true in Hb.
  exists r. split; [done|]. split; [lia|]. split; [lia|]. split; [lia|].
  assert (forall k, (k < 2)%nat -> inp !! (r + k)%nat = inp !! (ip + k)%nat) as H2.
  { intros k Hk. unfold slice in Hb. apply (f_equal (fun l => l !! k)) in Hb.
    rewrite !lookup_take_lt, !lookup_drop in Hb by lia. done. }
  intros k Hk. destruct (decide (k = 2%nat)) as [->|]; [congruence|]. apply H2. lia.
Qed.

(** ** The state of the compressor *)

(** The octets written are items that expand to the input consumed before
    the current run of literals, which is stored after the place of its
    control octet. *)
Record inv (out_len : nat) (s : cstate) (its : list item) (lits : list Z) : Prop := {
  i_valid : valid [] its;
  i_in : exists todo, inp = expand_all [] its ++ lits ++ todo;
  i_ip : c_ip s = Z.of_nat (length (expand_all [] its) + length lits);
  i_lit : c_lit s = Z.of_nat (length lits) /\ (length lits < 32)%nat;
  i_op : c_op s = Z.of_nat (length (enc_all its)) + 1 + Z.of_nat (length lits);
  i_out : exists t, c_out s = enc_all its ++ t /\ (lits = [] \/ exists x rest, t = x :: lits ++ rest);
  i_len : length (c_out s) = out_len;
  i_htab : forall i, in_u 32 (c_htab s i)
}.

(** There is room for the next octet of the run. *)
Lemma run_room out_len s its lits : inv out_len s its lits -> c_op s < Z.of_nat out_len ->
  exists x y rest, c_out s = enc_all its ++ x :: lits ++ y :: rest.
Proof.
  intros I Hop. pose proof (i_op _ _ _ _ I) as Ho. pose proof (i_len _ _ _ _ I) as Hl.
  destruct (i_out _ _ _ _ I) as (t & Ht & Hc). rewrite Ht, length_app in Hl.
  destruct Hc as [->|(x & rest & ->)].
  - cbn [length] in Ho. destruct t as [|x [|y rest]]; cbn [length] in Hl; try lia. now exists x, y, rest.
  - cbn [length] in Hl. rewrite length_app in Hl. destruct rest as [|y rest]; cbn [length] in Hl; [lia|].
    now exists x, y, rest.
Qed.

Lemma put_lit_ok out_len s its lits : inv out_len s its lits -> c_op s < Z.of_nat out_len ->
  c_ip s < Z.of_nat (length inp) ->
  exists s' its' lits', put_lit inp s = Ret s' /\ inv out_len s' its' lits' /\ c_ip s' = c_ip s + 1 /\
    (if c_lit s =? 31 then c_op s' = c_op s + 2 /\ c_lit s' = 0 else c_op s' = c_op s + 1 /\ c_lit s' = c_lit s + 1).
Proof.
  intros I Hop Hip. destruct (run_room _ _ _ _ I Hop) as (x & y & rest & Hout).
  destruct I as [Hv [todo Hin] Hipe [Hlit Hl32] Hope _ Hlen Hht]. unfold put_lit.
  destruct todo as [|b todo]; [rewrite Hin, app_nil_r, length_app in Hip; lia|].
  assert (rd inp (c_ip s) = Ret b) as ->.
  { rewrite Hin, app_assoc. apply rd_at. rewrite length_app. lia. }
  cbn [mbind res_bind]. rewrite Hout.
  replace (enc_all its ++ x :: lits ++ y :: rest) with ((enc_all its ++ x :: lits) ++ y :: rest) by now rewrite <- app_assoc.
  rewrite wr_at by (rewrite length_app; cbn [length]; lia). cbn [mbind res_bind]. rewrite <- app_assoc. cbn [app].
  rewrite Hout in Hlen. rewrite !length_app in Hlen. cbn [length] in Hlen. rewrite length_app in Hlen. cbn [length] in Hlen.
  change MAX_LIT with 32. destruct (Z.eqb_spec (c_lit s) 31), (Z.eqb_spec (c_lit s + 1) 32); try lia.
  - rewrite wr_at by lia. cbn [mbind res_bind].
    assert (length (lits ++ [b]) = 32%nat) as H32 by (rewrite length_app; cbn [length]; lia).
    eexists _, (its ++ [Lit (lits ++ [b])]), []. split; [reflexivity|]. split; [|cbn [c_ip c_op c_lit]; lia].
    assert (enc_all (its ++ [Lit (lits ++ [b])]) = enc_all its ++ u8 (c_lit s + 1 - 1) :: lits ++ [b]) as Henc.
    { rewrite enc_all_app. f_equal. unfold enc_all. cbn [map concat enc]. rewrite app_nil_r, H32.
      rewrite uwrap_id by (unfold in_u; lia). f_equal. lia. }
    assert (expand_all [] (its ++ [Lit (lits ++ [b])]) = expand_all [] its ++ lits ++ [b]) as Hexp
      by now rewrite expand_all_app.
    split; cbn [c_ip c_op c_lit c_out c_htab]; auto.
    + apply valid_app. split; [done|]. cbn [valid ok_item]. rewrite H32. split; [lia|done].
    + exists todo. rewrite Hexp, Hin, <- !app_assoc. done.
    + rewrite Hexp, !length_app. cbn [length]. lia.
    + cbn [length]. lia.
    + rewrite Henc, length_app. cbn [length]. rewrite H32. lia.
    + exists rest. split; [|now left]. rewrite Henc, <- app_assoc. cbn [app]. now rewrite <- app_assoc.
    + rewrite !length_app. cbn [length]. rewrite length_app. cbn [length]. lia.
  - eexists _, its, (lits ++ [b]). split; [reflexivity|]. split; [|cbn [c_ip c_op c_lit]; lia].
    split; cbn [c_ip c_op c_lit c_out c_htab]; auto; rewrite ?length_app; cbn [length]; try lia.
    + exists todo. rewrite Hin, <- !app_assoc. done.
    + eexists. split; [reflexivity|]. right. exists x, rest. now rewrite <- app_assoc.
    + rewrite length_app. cbn [length]. lia.
Qed.

(** Ending a run, or undoing it when it is empty. *)
Lemma flush_ok out_len s its lits : inv out_len s its lits ->
  let notlit := if c_lit s =? 0 then 1 else 0 in
  c_op s - notlit < Z.of_nat out_len + 1 -> c_op s - c_lit s - 1 < Z.of_nat out_len ->
  exists its1 rest, wr (c_out s) (c_op s - c_lit s - 1) (u8 (c_lit s - 1)) = Ret (enc_all its1 ++ rest) /\
    c_op s - notlit = Z.of_nat (length (enc_all its1)) /\ valid [] its1 /\
    expand_all [] its1 = expand_all [] its ++ lits /\ length (enc_all its1 ++ rest) = out_len.
Proof.
  intros I notlit Hop Hctl. destruct I as [Hv [todo Hin] Hipe [Hlit Hl32] Hope (t & Hout & Ht) Hlen Hht].
  rewrite Hout in *. rewrite length_app in Hlen. destruct lits as [|l0 lits].
  - cbn [length] in *. destruct t as [|x t]; cbn [length] in Hlen; [lia|]. unfold notlit in *.
    rewrite Hlit in *. change (Z.of_nat 0 =? 0) with true in *. cbn iota in *.
    rewrite wr_at by lia. exists its, (u8 (Z.of_nat 0 - 1) :: t). rewrite app_nil_r. split_and!; auto; [lia|].
    rewrite length_app. cbn [length]. lia.
  - destruct Ht as [?|(x & rest & ->)]; [done|]. set (l := l0 :: lits) in *.
    assert (1 <= length l)%nat as Hl1 by (cbn; lia). unfold notlit in *.
    destruct (Z.eqb_spec (c_lit s) 0); [lia|]. rewrite wr_at by lia. exists (its ++ [Lit l]), rest.
    assert (enc_all (its ++ [Lit l]) = enc_all its ++ u8 (c_lit s - 1) :: l) as Henc.
    { rewrite enc_all_app. f_equal. unfold enc_all. cbn [map concat enc]. rewrite app_nil_r, uwrap_id by (unfold in_u; lia).
      f_equal. lia. }
    rewrite Henc, <- app_assoc. split; [done|]. split; [rewrite length_app; cbn [length]; lia|].
    split; [apply valid_app; split; [done|]; cbn [valid ok_item]; split; [lia|done]|].
    split; [now rewrite expand_all_app|]. rewrite length_app. cbn [app length] in *. lia.
Qed.

Lemma put_ref_ok its rest op off len : op = Z.of_nat (length (enc_all its)) -> (3 <= length rest)%nat ->
  1 <= len <= 262 -> 0 <= off < 8192 ->
  exists rest', put_ref (enc_all its ++ rest) op off len =
    Ret (enc_all (its ++ [Ref off len]) ++ rest', Z.of_nat (length (enc_all (its ++ [Ref off len])))) /\
  length (enc_all (its ++ [Ref off len]) ++ rest') = length (enc_all its ++ rest).
Proof.
  intros Hop Hrest Hlen Hoff. destruct rest as [|x [|y [|z rest]]]; cbn [length] in Hrest; try lia.
  unfold put_ref. rewrite enc_all_app.
  replace (enc_all [Ref off len]) with (enc (Ref off len)) by (unfold enc_all; cbn [map concat]; now rewrite app_nil_r).
  cbn [enc].
  assert (0 <= off / 256 < 32) as Hhi by (split; [apply Z.div_pos; lia|apply Z.div_lt_upper_bound; lia]).
  assert (u8 off = off mod 256) as Hlo by done.
  rewrite !Z.shiftr_div_pow2, !Z.shiftl_mul_pow2 by lia. change (2 ^ 8) with 256. change (2 ^ 5) with 32.
  destruct (Z.ltb_spec len 7).
  - rewrite wr_at by done. cbn [mbind res_bind]. rewrite (uwrap_id 8 (off / 256 + len * 32)) by (unfold in_u; lia).
    rewrite (app_assoc (enc_all its) [off / 256 + len * 32] (y :: z :: rest) : enc_all its ++ _ :: _ = _).
    rewrite wr_at by (rewrite length_app; cbn [length]; lia). cbn [mbind res_bind]. rewrite Hlo.
    exists (z :: rest). rewrite <- !app_assoc. cbn [app]. split; [|rewrite !length_app; cbn [length]; lia].
    do 2 f_equal. rewrite length_app. cbn [length]. lia.
  - rewrite wr_at by done. cbn [mbind res_bind]. rewrite (uwrap_id 8 (off / 256 + 7 * 32)) by (unfold in_u; lia).
    rewrite (app_assoc (enc_all its) [off / 256 + 7 * 32] (y :: z :: rest) : enc_all its ++ _ :: _ = _).
    rewrite wr_at by (rewrite length_app; cbn [length]; lia). cbn [mbind res_bind]. rewrite (uwrap_id 8 (len - 7)) by (unfold in_u; lia).
    rewrite (app_assoc (enc_all its ++ [off / 256 + 7 * 32]) [len - 7] (z :: rest) : _ ++ _ :: _ = _).
    rewrite wr_at by (rewrite !length_app; cbn [length]; lia). cbn [mbind res_bind]. rewrite Hlo.
    exists rest. rewrite <- !app_assoc. cbn [app]. split; [|rewrite !length_app; cbn [length]; lia].
    do 2 f_equal. rewrite length_app. cbn [length]. lia.
Qed.

Lemma next_ok v (ip : nat) : (ip + 2 < length inp)%nat -> exists h, NEXT inp v (Z.of_nat ip) = Ret h.
Proof.
  intros Hi. unfold NEXT. destruct (rd_nat (ip + 2) Hi) as (x & Hx & _). rewrite Nat2Z.inj_add in Hx.
  change (Z.of_nat 2) with 2 in Hx. rewrite Hx. eauto.
Qed.

Lemma frst_ok (ip : nat) : (ip + 1 < length inp)%nat -> exists h, FRST inp (Z.of_nat ip) = Ret h.
Proof.
  intros Hi. unfold FRST. destruct (rd_nat ip ltac:(lia)) as (x & -> & _). destruct (rd_nat (ip + 1) Hi) as (y & Hy & _).
  cbn [mbind res_bind]. rewrite Nat2Z.inj_add in Hy. change (Z.of_nat 1) with 1 in Hy. rewrite Hy. eauto.
Qed.

Lemma hset_ok htab i v : (forall j, in_u 32 (htab j)) -> in_u 32 v -> forall j, in_u 32 (hset htab i v j).
Proof. intros Hh Hv j. unfold hset. now destruct (j =? i). Qed.

Lemma rehash_ok (ip : nat) htab : (2 <= ip)%nat -> (ip + 2 < length inp)%nat -> (forall j, in_u 32 (htab j)) ->
  exists h htab', rehash_last inp (Z.of_nat ip) htab = Ret (h, htab') /\ forall j, in_u 32 (htab' j).
Proof.
  intros H2 Hip Hh. unfold rehash_last. replace (Z.of_nat ip - 2) with (Z.of_nat (ip - 2)) by lia.
  destruct (frst_ok (ip - 2) ltac:(lia)) as (h1 & ->). cbn [mbind res_bind].
  destruct (next_ok h1 (ip - 2) ltac:(lia)) as (h2 & ->). cbn [mbind res_bind].
  replace (Z.of_nat (ip - 2) + 1) with (Z.of_nat (ip - 1)) by lia.
  destruct (next_ok h2 (ip - 1) ltac:(lia)) as (h3 & ->). cbn [mbind res_bind].
  eexists _, _. split; [reflexivity|]. apply hset_ok; [apply hset_ok; [done|]|]; unfold in_u; lia.
Qed.

(** The state after a match of [L] octets at distance [off + 1]. *)
Lemma inv_match out_len its rest ip (off L : nat) hval htab :
  valid [] its -> expand_all [] its = take ip inp -> (off < ip)%nat -> (3 <= L <= 264)%nat -> Z.of_nat off < 8192 ->
  (ip + L <= length inp)%nat -> agree (ip - off - 1) ip L -> (forall j, in_u 32 (htab j)) ->
  let its' := its ++ [Ref (Z.of_nat off) (Z.of_nat L - 2)] in
  length (enc_all its' ++ rest) = out_len ->
  inv out_len (mk_cstate (Z.of_nat (ip + L)) (Z.of_nat (length (enc_all its')) + 1) 0 hval htab (enc_all its' ++ rest)) its' [].
Proof.
  intros Hv Hex Hoff HL Ho8 Hl Ha Hh its' Hlen.
  assert (expand_all [] its' = take (ip + L) inp) as Hex'.
  { unfold its'. rewrite expand_all_app, Hex. cbn [expand_all fold_left expand].
    replace (Z.to_nat (Z.of_nat L - 2 + 2)) with L by lia. rewrite Nat2Z.id. apply copyk_repeat; [lia|done|].
    intros k Hk. apply Ha. lia. }
  split; cbn [c_ip c_op c_lit c_out c_htab]; auto.
  - unfold its'. apply valid_app. split; [done|]. cbn [valid ok_item]. split; [|done]. rewrite Hex, length_take. lia.
  - exists (drop (ip + L) inp). rewrite Hex'. cbn [app]. now rewrite take_drop.
  - rewrite Hex', length_take. cbn [length]. lia.
  - cbn [length]. lia.
  - cbn [length]. lia.
  - eexists. split; [reflexivity|]. now left.
Qed.

Definition step_post (out_len : nat) (s : cstate) (f : flow) : Prop :=
  match f with
  | Return0 out => length out = out_len
  | Break s' => (exists its lits, inv out_len s' its lits) /\ Z.of_nat (length inp) - 2 <= c_ip s' <= Z.of_nat (length inp)
  | Continue s' => (exists its lits, inv out_len s' its lits) /\ c_ip s < c_ip s' <= Z.of_nat (length inp)
  end.

Lemma compress_step_ok out_len s its lits : inv out_len s its lits -> c_ip s < Z.of_nat (length inp) - 2 ->
  exists f, compress_step inp (Z.of_nat out_len) s = Ret f /\ step_post out_len s f.
Proof.
  intros I Hip. unfold compress_step. pose proof (i_ip _ _ _ _ I) as Hipe. pose proof (i_htab _ _ _ _ I) as Hh.
  set (ip := (length (expand_all [] its) + length lits)%nat) in *. rewrite Hipe.
  destruct (next_ok (c_hval s) ip ltac:(lia)) as (hval & ->). cbn [mbind res_bind].
  set (ref := c_htab s (IDX hval)). set (htab := hset (c_htab s) (IDX hval) (u32 (Z.of_nat ip))).
  assert (forall j, in_u 32 (htab j)) as Hh' by (apply hset_ok; [done|]; apply uwrap_range; lia).
  destruct (is_match_ok ref ip (Hh _) ltac:(lia)) as (b & -> & Hb). cbn [mbind res_bind]. destruct b.
  - destruct (Hb eq_refl) as (r & Hr & Hlt & Hoff & Ho8 & Ha). rewrite Hoff, Hr.
    set (notlit := if c_lit s =? 0 then 1 else 0).
    destruct (_ && _) eqn:Hroom; [eexists; split; [reflexivity|]; apply (i_len _ _ _ _ I)|].
    pose proof (i_op _ _ _ _ I) as Hop. pose proof (i_lit _ _ _ _ I) as [Hlit _].
    assert (0 <= notlit <= 1) as Hn01 by (unfold notlit; destruct (c_lit s =? 0); lia).
    assert (c_op s - notlit + 4 < Z.of_nat out_len) as Hroom' by lia.
    destruct (flush_ok out_len s its lits I ltac:(fold notlit; lia) ltac:(unfold notlit in *; destruct (Z.eqb_spec (c_lit s) 0); lia))
      as (its1 & rest & -> & Hop1 & Hv1 & Hex1 & Hlen1). fold notlit in Hop1. cbn [mbind res_bind]. rewrite Hop1 in *.
    assert (expand_all [] its1 = take ip inp) as Htk.
    { destruct (i_in _ _ _ _ I) as [todo Hin]. rewrite Hex1, Hin, app_assoc. rewrite take_app_le by (rewrite length_app; lia).
      symmetry. apply take_ge. rewrite length_app. lia. }
    assert (u32 (Z.of_nat (length inp) - Z.of_nat ip - 2) = Z.of_nat (length inp) - Z.of_nat ip - 2) as ->
      by (apply uwrap_id; unfold in_u; lia).
    destruct (match_len_ok r ip (if MAX_REF <? Z.of_nat (length inp) - Z.of_nat ip - 2 then MAX_REF
      else Z.of_nat (length inp) - Z.of_nat ip - 2) Hlt ltac:(lia) Ha) as (L & -> & HL & HipL & HaL).
    { destruct (Z.ltb_spec MAX_REF (Z.of_nat (length inp) - Z.of_nat ip - 2)); lia. }
    cbn [mbind res_bind]. rewrite length_app in Hlen1.
    destruct (put_ref_ok its1 rest (Z.of_nat (length (enc_all its1))) (Z.of_nat (ip - r - 1)) (Z.of_nat L - 2))
      as (rest' & -> & Hlen2); [done|lia|lia|lia|]. cbn [mbind res_bind].
    rewrite (length_app (enc_all its1)), Hlen1 in Hlen2.
    replace (Z.of_nat ip + 1 + (Z.of_nat L - 2 + 1)) with (Z.of_nat (ip + L)) by lia.
    assert (forall h ht, (forall j, in_u 32 (ht j)) -> exists its lits, inv out_len (mk_cstate (Z.of_nat (ip + L))
      (Z.of_nat (length (enc_all (its1 ++ [Ref (Z.of_nat (ip - r - 1)) (Z.of_nat L - 2)]))) + 1) 0 h ht
      (enc_all (its1 ++ [Ref (Z.of_nat (ip - r - 1)) (Z.of_nat L - 2)]) ++ rest')) its lits) as HI.
    { intros h ht Hht. eexists _, []. apply inv_match; auto; [lia|]. now replace (ip - (ip - r - 1) - 1)%nat with r by lia. }
    destruct (Z.leb_spec (Z.of_nat (length inp) - 2) (Z.of_nat (ip + L))).
    + eexists. split; [reflexivity|]. split; [now apply HI|]. cbn [c_ip]. lia.
    + destruct (rehash_ok (ip + L) htab ltac:(lia) ltac:(lia) Hh') as (h & ht & -> & Hht). cbn [mbind res_bind].
      eexists. split; [reflexivity|]. split; [now apply HI|]. cbn [c_ip]. lia.
  - clear Hb. destruct (Z.leb_spec (Z.of_nat out_len) (c_op s)); [eexists; split; [reflexivity|]; apply (i_len _ _ _ _ I)|].
    assert (inv out_len (mk_cstate (Z.of_nat ip) (c_op s) (c_lit s) hval htab (c_out s)) its lits) as I'
      by (destruct I; split; auto).
    destruct (put_lit_ok out_len _ its lits I' ltac:(done) ltac:(cbn [c_ip]; lia)) as (s' & its' & lits' & -> & HI & Hip' & _).
    cbn [mbind res_bind]. eexists. split; [reflexivity|]. split; [eauto|]. cbn [c_ip] in Hip'. lia.
Qed.

Lemma compress_loop_ok fuel : forall out_len s its lits, inv out_len s its lits ->
  Z.of_nat (length inp) - c_ip s < Z.of_nat fuel ->
  exists r, compress_loop inp fuel (Z.of_nat out_len) s = Ret r /\
    match r with
    | inl out => length out = out_len
    | inr s' => (exists its lits, inv out_len s' its lits) /\ Z.of_nat (length inp) - 2 <= c_ip s'
    end.
Proof.
  induction fuel as [|fuel IH]; intros out_len s its lits I Hf.
  { exfalso. pose proof (i_ip _ _ _ _ I). destruct (i_in _ _ _ _ I) as [todo Hin].
    apply (f_equal length) in Hin. rewrite !length_app in Hin. lia. }
  cbn [compress_loop]. destruct (Z.ltb_spec (c_ip s) (Z.of_nat (length inp) - 2)); [|eexists; split; [reflexivity|]; split; [eauto|lia]].
  destruct (compress_step_ok out_len s its lits I ltac:(done)) as (f & -> & Hpost). cbn [mbind res_bind].
  destruct f as [out|s'|s']; cbn [step_post] in Hpost.
  - eauto.
  - eexists. split; [reflexivity|]. split; [apply Hpost|lia].
  - destruct Hpost as [(its' & lits' & I') Hip']. apply (IH out_len s' its' lits' I'). lia.
Qed.

Lemma rest_loop_ok fuel : forall out_len s its lits, inv out_len s its lits ->
  let m := Z.of_nat (length inp) - c_ip s in
  m < Z.of_nat fuel -> 0 <= m < 32 -> c_op s + m + (if 32 <=? c_lit s + m then 1 else 0) <= Z.of_nat out_len ->
  exists s' its' lits', rest_loop inp fuel s = Ret s' /\ inv out_len s' its' lits' /\
    c_ip s' = Z.of_nat (length inp) /\ c_op s' <= Z.of_nat out_len.
Proof.
  induction fuel as [|fuel IH]; intros out_len s its lits I m Hf Hm Hop; [lia|]. cbn [rest_loop].
  pose proof (i_lit _ _ _ _ I) as [Hlit Hl32].
  destruct (Z.ltb_spec (c_ip s) (Z.of_nat (length inp))).
  - destruct (put_lit_ok out_len s its lits I) as (s' & its' & lits' & -> & I' & Hip' & Hst);
      [unfold m in *; destruct (32 <=? _); lia|done|]. cbn [mbind res_bind].
    apply (IH out_len s' its' lits' I'); [unfold m in *; lia|unfold m in *; lia|].
    rewrite Hip'. unfold m in *.
    destruct (Z.eqb_spec (c_lit s) 31); destruct Hst as [-> ->];
      repeat match goal with H : context [?a <=? ?b] |- _ => destruct (Z.leb_spec a b) in H
             | |- context [?a <=? ?b] => destruct (Z.leb_spec a b) end; lia.
  - exists s, its, lits. split; [done|]. split; [done|]. unfold m in *. split; [lia|].
    destruct (32 <=? _); lia.
Qed.

Lemma inv_start out_data htab hval : (forall i, in_u 32 (htab i)) ->
  inv (length out_data) (mk_cstate 0 1 0 hval htab out_data) [] [].
Proof.
  intros Hh. split; cbn; auto.
  - now exists inp.
  - split; [done|lia].
  - eexists. split; [reflexivity|]. now left.
Qed.

(** The result of a compression is the image of items that expand to the
    input. *)
Lemma compress_items htab out_data : (2 <= length inp)%nat -> (forall i, in_u 32 (htab i)) ->
  exists n out, lzf_compress inp htab out_data = Ret (n, out) /\ length out = length out_data /\
    (n = 0 \/ exists its, n = Z.of_nat (length (enc_all its)) /\ take (Z.to_nat n) out = enc_all its /\
       its <> [] /\ valid [] its /\ expand_all [] its = inp /\ 0 < n <= Z.of_nat (length out_data)).
Proof.
  intros H2 Hh. unfold lzf_compress. destruct (Z.eqb_spec (Z.of_nat (length inp)) 0); [lia|]. cbn [orb].
  destruct (Z.eqb_spec (Z.of_nat (length out_data)) 0); [eauto 10|].
  destruct (frst_ok 0 ltac:(lia)) as (h & Hfr). change (Z.of_nat 0) with 0 in Hfr. rewrite Hfr. cbn [mbind res_bind].
  destruct (compress_loop_ok (S (length inp)) _ _ _ _ (inv_start out_data htab h Hh) ltac:(cbn [c_ip]; lia)) as (r & -> & Hr).
  cbn [mbind res_bind]. destruct r as [out|s]; [eauto 10|]. destruct Hr as [(its & lits & I) Hip].
  destruct (Z.ltb_spec (Z.of_nat (length out_data)) (c_op s + 3));
    [exists 0, (c_out s); split; [done|]; split; [apply (i_len _ _ _ _ I)|]; now left|].
  assert (c_ip s <= Z.of_nat (length inp)) as Hip2.
  { rewrite (i_ip _ _ _ _ I). destruct (i_in _ _ _ _ I) as [todo Hin]. apply (f_equal length) in Hin.
    rewrite !length_app in Hin. lia. }
  destruct (rest_loop_ok (S (length inp)) _ s its lits I) as (s' & its' & lits' & -> & I' & Hip' & Hop');
    [lia|lia|destruct (32 <=? _); lia|].
  cbn [mbind res_bind]. pose proof (i_lit _ _ _ _ I') as [Hlit _]. pose proof (i_op _ _ _ _ I') as Hop.
  destruct (flush_ok _ s' its' lits' I') as (its1 & rest & -> & Hn & Hv & Hex & Hlen);
    [destruct (c_lit s' =? 0); lia|lia|]. cbn [mbind res_bind].
  eexists _, _. split; [reflexivity|]. split; [done|]. right. exists its1. rewrite Hn.
  assert (expand_all [] its1 = inp) as Hall.
  { rewrite Hex. destruct (i_in _ _ _ _ I') as [todo Hin]. rewrite (i_ip _ _ _ _ I') in Hip'.
    destruct todo; [now rewrite app_nil_r in Hin|].
    apply (f_equal length) in Hin. rewrite !length_app in Hin. cbn [length] in Hin. lia. }
  assert (its1 <> []) as Hne by (intros ->; cbn in Hall; rewrite <- Hall in H2; cbn in H2; lia).
  split; [done|]. split; [rewrite Nat2Z.id; apply take_app_length|]. do 3 (split; [done|]).
  rewrite length_app in Hlen. destruct its1 as [|it its1]; [done|]. pose proof (enc_nonempty it).
  unfold enc_all in *. cbn [map concat] in *. rewrite length_app in *. lia.
Qed.

End Compress.

(** ** Theorems *)

(** C32: Compressing stays inside both blocks whatever the hash table held
    before, and decompressing what it has written gives the input back. *)
Theorem lzf_roundtrip inp htab out_data : (2 <= length inp)%nat -> Z.of_nat (length inp) < 2 ^ 32 ->
  (forall i, in_u 32 (htab i)) ->
  exists n out, lzf_compress inp htab out_data = Ret (n, out) /\ length out = length out_data /\
    0 <= n <= Z.of_nat (length out_data) /\
    (n <> 0 -> forall blk, (length inp <= length blk)%nat ->
       lzf_decompress (take (Z.to_nat n) out) blk =
       Ret (inr (Z.of_nat (length inp), inp ++ drop (length inp) blk))).
Proof.
  intros H2 H32 Hh. destruct (compress_items inp H32 htab out_data H2 Hh) as (n & out & -> & Hlen & Hc).
  exists n, out. split; [done|]. split; [done|]. destruct Hc as [->|(its & Hn & Ht & Hne & Hv & Hex & Hb)]; [split; [lia|done]|].
  split; [lia|]. intros _ blk Hblk. rewrite Ht. now apply decompress_items.
Qed.

Section Safety.
Context (inp : list Z) (Hbytes : bytes_ok inp).

Lemma rd_byte i : 0 <= i < Z.of_nat (length inp) -> exists x, rd inp i = Ret x /\ 0 <= x < 256.
Proof.
  intros Hi. destruct (rd_nat inp (Z.to_nat i) ltac:(lia)) as (x & Hx & Hl). rewrite Z2Nat.id in Hx by lia.
  exists x. split; [done|]. unfold bytes_ok in Hbytes. rewrite Forall_lookup in Hbytes. apply (Hbytes _ _ Hl).
Qed.

Definition decoded_to (ip op : Z) (out : list Z) (r : lzf_errno + (Z * Z * list Z)) : Prop :=
  match r with
  | inl _ => True
  | inr (ip', op', out') =>
    ip < ip' <= Z.of_nat (length inp) /\ op < op' <= Z.of_nat (length out) /\ length out' = length out
  end.

Lemma literal_safe ip op out c : 0 <= ip -> 0 <= op -> 0 <= c ->
  op + (c + 1) <= Z.of_nat (length out) -> ip + 1 + (c + 1) <= Z.of_nat (length inp) ->
  exists out', copy_in inp (Z.to_nat (c + 1)) (ip + 1) op out = Ret out' /\ length out' = length out.
Proof.
  intros Hip Hop Hc Ho Hi. assert (out = take (Z.to_nat op) out ++ drop (Z.to_nat op) out) as Eo by now rewrite take_drop.
  set (l := slice inp (Z.to_nat (ip + 1)) (Z.to_nat (c + 1))).
  assert (length l = Z.to_nat (c + 1)) as Hl by (apply length_slice; lia). rewrite <- Hl.
  assert (inp = take (Z.to_nat (ip + 1)) inp ++ l ++ drop (Z.to_nat (c + 1)) (drop (Z.to_nat (ip + 1)) inp)) as E
    by (unfold l, slice; now rewrite !take_drop).
  eexists. rewrite Eo at 1. split.
  - eapply copy_in_ok; [exact E|rewrite length_take; lia|rewrite length_take; lia|rewrite length_drop; lia].
  - rewrite !length_app, length_take, !length_drop. lia.
Qed.

Lemma ref_safe op out len off ref : 0 <= op -> 0 <= len -> op + len + 2 <= Z.of_nat (length out) ->
  0 <= off -> ref = op - off - 1 -> 0 <= ref ->
  exists out', (if len <=? 9 then copy_ref (Z.to_nat (len + 2)) ref op out
   else
     if ref + (len + 2) <=? op then b ← memread out ref (Z.to_nat (len + 2)); memwrite out op b
     else copy_ref (Z.to_nat (len + 2)) ref op out) = Ret out' /\ length out' = length out.
Proof.
  intros Hop Hlen Ho Hoff Href H0. rewrite <- (take_drop (Z.to_nat op) out).
  pose proof (ref_copy_ok (take (Z.to_nat op) out) (drop (Z.to_nat op) out) len off ref op) as Hc.
  cbv zeta in Hc. rewrite Hc by (rewrite ?length_take, ?length_drop; lia).
  eexists. split; [reflexivity|]. cbn [expand].
  rewrite length_app, length_copyk, length_take, !length_drop, length_app, length_take, length_drop. lia.
Qed.

Lemma step_safe ip op out : 0 <= ip < Z.of_nat (length inp) -> 0 <= op <= Z.of_nat (length out) ->
  exists r, decompress_step inp ip op out = Ret r /\ decoded_to ip op out r.
Proof.
  intros Hip Hop. unfold decompress_step. destruct (rd_byte ip Hip) as (ctrl & -> & Hctrl). cbn [mbind res_bind].
  destruct (Z.ltb_spec ctrl (Z.shiftl 1 5)) as [_|H5].
  - destruct (Z.ltb_spec (Z.of_nat (length out)) (op + (ctrl + 1))); [now eexists|].
    destruct (Z.ltb_spec (Z.of_nat (length inp)) (ip + 1 + (ctrl + 1))); [now eexists|].
    destruct (literal_safe ip op out ctrl) as (out' & -> & Hl); try lia. cbn [mbind res_bind].
    eexists. split; [reflexivity|]. cbn [decoded_to]. lia.
  - change (Z.shiftl 1 5) with 32 in H5.
    destruct (Z.leb_spec (Z.of_nat (length inp)) (ip + 1)); [now eexists|].
    rewrite (Z.shiftr_div_pow2 ctrl) by lia. change (2 ^ 5) with 32. set (k := ctrl / 32).
    assert (1 <= k <= 7) as Hk by (unfold k; split; [apply Z.div_le_lower_bound; lia|apply Z.lt_succ_r, Z.div_lt_upper_bound; lia]).
    rewrite Z.shiftl_mul_pow2 by lia. change (2 ^ 8) with 256.
    assert (0 <= Z.land ctrl 0x1f) as Hhi by (apply Z.land_nonneg; lia).
    assert (exists len ip', (if k =? 7 then l ← rd inp (ip + 1); Ret (k + l, ip + 1 + 1) else Ret (k, ip + 1)) = Ret (len, ip') /\
      1 <= len /\ ip < ip' /\ (ip' = ip + 1 \/ k = 7 /\ ip' = ip + 2)) as (len & ip' & -> & Hlen & Hipl & Hip').
    { destruct (Z.eqb_spec k 7).
      - destruct (rd_byte (ip + 1)) as (l & -> & Hl); [lia|]. cbn [mbind res_bind]. eexists _, _. split; [reflexivity|]. lia.
      - eexists _, _. split; [reflexivity|]. lia. }
    cbn [mbind res_bind]. destruct (_ && _) eqn:Hchk; [now eexists|].
    assert (ip' < Z.of_nat (length inp)) as Hlt by lia.
    destruct (rd_byte ip') as (r & -> & Hr); [lia|]. cbn [mbind res_bind].
    destruct (Z.ltb_spec (Z.of_nat (length out)) (op + len + 2)); [now eexists|].
    destruct (Z.ltb_spec (op - Z.land ctrl 31 * 256 - 1 - r) 0); [now eexists|].
    destruct (ref_safe op out len (Z.land ctrl 31 * 256 + r) (op - Z.land ctrl 31 * 256 - 1 - r)) as (out' & -> & Hl); try lia.
    cbn [mbind res_bind]. eexists. split; [reflexivity|]. cbn [decoded_to]. lia.
Qed.

Lemma loop_safe fuel : forall ip op out, 0 <= ip < Z.of_nat (length inp) -> 0 <= op <= Z.of_nat (length out) ->
  Z.of_nat (length inp) - ip < Z.of_nat fuel ->
  exists r, decompress_loop inp fuel ip op out = Ret r /\
    match r with inl _ => True | inr (n, out') => op < n <= Z.of_nat (length out) /\ length out' = length out end.
Proof.
  induction fuel as [|fuel IH]; intros ip op out Hip Hop Hf; [lia|]. cbn [decompress_loop].
  destruct (step_safe ip op out Hip Hop) as ([e|[[ip' op'] out']] & -> & Hr); cbn [mbind res_bind]; [now eexists|].
  cbn [decoded_to] in Hr. destruct (Z.ltb_spec ip' (Z.of_nat (length inp))); [|eexists; split; [reflexivity|]; cbn iota; lia].
  destruct (IH ip' op' out') as ([e|[n out'']] & -> & Hres); [lia|lia|lia|now eexists|].
  eexists. split; [reflexivity|]. destruct Hr as (_ & ? & Hl). rewrite Hl in Hres. cbn iota. lia.
Qed.
End Safety.

(** C33: Decompressing any non-empty sequence of octets, also a damaged one,
    terminates, stays inside both blocks and either reports an error or fills
    at most the output block.  (With no octet at all the code reads the first
    one before it looks at the length.) *)
Theorem lzf_decompress_safe inp out_data : bytes_ok inp -> inp <> [] ->
  exists r, lzf_decompress inp out_data = Ret r /\
    match r with
    | inl _ => True
    | inr (n, out) => 0 < n <= Z.of_nat (length out_data) /\ length out = length out_data
    end.
Proof.
  intros Hb Hne. apply (loop_safe inp Hb); [|lia|lia]. destruct inp; [done|]. cbn [length]. lia.
Qed.

(** An input of one octet: FRST reads the octet after it. *)
Theorem lzf_compress_one_octet htab : lzf_compress [65] htab [0; 0; 0; 0; 0] = Fault OutOfBounds.
Proof. reflexivity. Qed.

(** A repetitive input and a table of leftovers. *)
Lemma lzf_roundtrip_witness : exists n out,
  lzf_compress (concat (replicate 12 [97; 98; 99])) (fun i => i mod 2 ^ 32) (replicate 20 0) = Ret (n, out) /\
  n = 11 /\ lzf_decompress (take 11 out) (replicate 36 0) = Ret (inr (36, concat (replicate 12 [97; 98; 99]))).
Proof.
  destruct (lzf_roundtrip (concat (replicate 12 [97; 98; 99])) (fun i => i mod 2 ^ 32) (replicate 20 0))
    as (n & out & Hrun & _ & _ & Hdec); [cbn; lia|done|intros i; apply Z.mod_pos_bound; lia|].
  exists n, out. split; [exact Hrun|]. assert (n = 11) as -> by (vm_compute in Hrun; congruence).
  split; [done|]. apply (Hdec ltac:(done) (replicate 36 0)). cbn. lia.
Defined.

Lemma lzf_decompress_safe_witness : exists r, lzf_decompress [224; 255; 3; 7] (replicate 300 0) = Ret r /\
  match r with inl _ => True | inr (n, out) => 0 < n <= 300 /\ length out = length (replicate 300 0) end.
Proof.
  apply (lzf_decompress_safe [224; 255; 3; 7] (replicate 300 0)); [repeat constructor; done|done].
Defined.
