(* ===== verification/Bitops.v ===== *)
(** * Bitops: bit strings, bit counting and bit fields (bitops.c)

    The helpers under BITCOUNT, BITPOS and BITFIELD.  A string value is a
    memory block [m] that starts at the address [addr] (the counting loops
    depend on its alignment); words are read little-endian, as on the
    host.  Bit 0 of a string is the most significant bit of its first
    byte. *)

From S2P Require Import Prelude.

(** ** Bit strings: the reference view *)

(** [be_bits n v]: the [n] low bits of [v], the most significant first. *)
Fixpoint be_bits (n : nat) (v : Z) : list bool :=
  match n with
  | O => []
  | S n => Z.testbit v (Z.of_nat n) :: be_bits n v
  end.

(** The number that a list of bits writes in base 2. *)
Fixpoint be_value (l : list bool) : Z :=
  match l with
  | [] => 0
  | b :: l => Z.b2z b * 2 ^ Z.of_nat (length l) + be_value l
  end.

(** The bits of a string, in the order SETBIT numbers them. *)
Definition bits_of (m : list Z) : list bool := concat (map (be_bits 8) m).

(** How many of them are one. *)
Definition ones_in (l : list bool) : Z := foldr (fun b n => Z.b2z b + n) 0 l.

(** The index of the first [b], if there is one. *)
Fixpoint first_bit (b : bool) (l : list bool) : option Z :=
  match l with
  | [] => None
  | x :: l => if Bool.eqb x b then Some 0 else Z.succ <$> first_bit b l
  end.

(** ** redisPopcount *)

Definition bitsinbyte : list Z :=
  [0; 1; 1; 2; 1; 2; 2; 3; 1; 2; 2; 3; 2; 3; 3; 4;
   1; 2; 2; 3; 2; 3; 3; 4; 2; 3; 3; 4; 3; 4; 4; 5;
   1; 2; 2; 3; 2; 3; 3; 4; 2; 3; 3; 4; 3; 4; 4; 5;
   2; 3; 3; 4; 3; 4; 4; 5; 3; 4; 4; 5; 4; 5; 5; 6;
   1; 2; 2; 3; 2; 3; 3; 4; 2; 3; 3; 4; 3; 4; 4; 5;
   2; 3; 3; 4; 3; 4; 4; 5; 3; 4; 4; 5; 4; 5; 5; 6;
   2; 3; 3; 4; 3; 4; 4; 5; 3; 4; 4; 5; 4; 5; 5; 6;
   3; 4; 4; 5; 4; 5; 5; 6; 4; 5; 5; 6; 5; 6; 6; 7;
   1; 2; 2; 3; 2; 3; 3; 4; 2; 3; 3; 4; 3; 4; 4; 5;
   2; 3; 3; 4; 3; 4; 4; 5; 3; 4; 4; 5; 4; 5; 5; 6;
   2; 3; 3; 4; 3; 4; 4; 5; 3; 4; 4; 5; 4; 5; 5; 6;
   3; 4; 4; 5; 4; 5; 5; 6; 4; 5; 5; 6; 5; 6; 6; 7;
   2; 3; 3; 4; 3; 4; 4; 5; 3; 4; 4; 5; 4; 5; 5; 6;
   3; 4; 4; 5; 4; 5; 5; 6; 4; 5; 5; 6; 5; 6; 6; 7;
   3; 4; 4; 5; 4; 5; 5; 6; 4; 5; 5; 6; 5; 6; 6; 7;
   4; 5; 5; 6; 5; 6; 6; 7; 5; 6; 6; 7; 6; 7; 7; 8].

(** The two loops that count byte by byte: [while((unsigned long)p & 3 &&
    count)] before the words and [while(count--)] after them. *)
Fixpoint pop_prefix (fuel : nat) (addr : Z) (m : list Z) (p count bits : Z) : res (Z * Z * Z) :=
  if negb (Z.land (addr + p) 3 =? 0) && negb (count =? 0) then
    match fuel with
    | O => Fault OutOfFuel
    | S fuel =>
        b ← rd m p; n ← rd bitsinbyte b;
        pop_prefix fuel addr m (p + 1) (count - 1) (u64 (bits + n))
    end
  else Ret (p, count, bits).

Fixpoint pop_rest (fuel : nat) (m : list Z) (p count bits : Z) : res Z :=
  if count =? 0 then Ret bits
  else match fuel with
  | O => Fault OutOfFuel
  | S fuel =>
      b ← rd m p; n ← rd bitsinbyte b;
      pop_rest fuel m (p + 1) (count - 1) (u64 (bits + n))
  end.

(** [*p4] and [*l]: loads of 32 and of 64 bits. *)
Definition rd32 (m : list Z) (p : Z) : res Z := bs ← memread m p 4; Ret (le_value bs).
Definition rd64 (m : list Z) (p : Z) : res Z := bs ← memread m p 8; Ret (le_value bs).

(** The two assignments made to each of aux1 ... aux7: every four bits
    become the count of their ones. *)
Definition swar_nibbles (aux : Z) : Z :=
  let aux := u32 (aux - Z.land (Z.shiftr aux 1) 0x55555555) in
  u32 (Z.land aux 0x33333333 + Z.land (Z.shiftr aux 2) 0x33333333).

Definition swar_bytes (aux : Z) : Z :=
  Z.land (u32 (aux + Z.shiftr aux 4)) 0x0F0F0F0F.

Definition pop_block (m : list Z) (p4 : Z) : res Z :=
  aux1 ← rd32 m p4;
  aux2 ← rd32 m (p4 + 4);
  aux3 ← rd32 m (p4 + 8);
  aux4 ← rd32 m (p4 + 12);
  aux5 ← rd32 m (p4 + 16);
  aux6 ← rd32 m (p4 + 20);
  aux7 ← rd32 m (p4 + 24);
  let sum := u32 (swar_bytes (swar_nibbles aux1) + swar_bytes (swar_nibbles aux2) +
                  swar_bytes (swar_nibbles aux3) + swar_bytes (swar_nibbles aux4) +
                  swar_bytes (swar_nibbles aux5) + swar_bytes (swar_nibbles aux6) +
                  swar_bytes (swar_nibbles aux7)) in
  Ret (Z.shiftr (u32 (sum * 0x01010101)) 24).

Fixpoint pop_words (fuel : nat) (m : list Z) (p4 count bits : Z) : res (Z * Z * Z) :=
  if 28 <=? count then
    match fuel with
    | O => Fault OutOfFuel
    | S fuel =>
        n ← pop_block m p4;
        pop_words fuel m (p4 + 28) (count - 28) (u64 (bits + n))
    end
  else Ret (p4, count, bits).

(** Every iteration of the three loops reads the block further on, so the
    length of the block bounds them. *)
Definition redisPopcount (addr : Z) (m : list Z) (s count : Z) : res Z :=
  let fuel := S (length m) in
  '(p, count, bits) ← pop_prefix fuel addr m s count 0;
  '(p, count, bits) ← pop_words fuel m p count bits;
  pop_rest fuel m p count bits.

(** ** redisBitpos *)

Definition ULONG_MAX : Z := 0xFFFFFFFFFFFFFFFF.

Fixpoint pos_prefix (fuel : nat) (addr : Z) (m : list Z) (skipval c count pos : Z)
    : res (Z * Z * Z) :=
  if negb (Z.land (addr + c) 7 =? 0) && negb (count =? 0) then
    match fuel with
    | O => Fault OutOfFuel
    | S fuel =>
        b ← rd m c;
        if negb (b =? skipval) then Ret (c, count, pos)
        else pos_prefix fuel addr m skipval (c + 1) (count - 1) (i64 (pos + 8))
    end
  else Ret (c, count, pos).

Fixpoint pos_words (fuel : nat) (m : list Z) (skipval l count pos : Z) : res (Z * Z * Z) :=
  if 8 <=? count then
    match fuel with
    | O => Fault OutOfFuel
    | S fuel =>
        w ← rd64 m l;
        if negb (w =? skipval) then Ret (l, count, pos)
        else pos_words fuel m skipval (l + 8) (count - 8) (i64 (pos + 64))
    end
  else Ret (l, count, pos).

(** [for (j = 0; j < sizeof( *l); j++)]: the last bytes, as a big-endian
    word padded with zeros; [j] counts down. *)
Fixpoint pos_load (j : nat) (m : list Z) (c count word : Z) : res Z :=
  match j with
  | O => Ret word
  | S j =>
      let word := u64 (Z.shiftl word 8) in
      if negb (count =? 0) then
        b ← rd m c; pos_load j m (c + 1) (count - 1) (Z.lor word b)
      else pos_load j m c count word
  end.

(** [while(one)]: [one] is a single bit shifted right, 64 times at most. *)
Fixpoint pos_scan (fuel : nat) (one word bit pos : Z) : res Z :=
  if one =? 0 then Fault AssertFailed
  else match fuel with
  | O => Fault OutOfFuel
  | S fuel =>
      if Z.b2z (negb (Z.land one word =? 0)) =? bit then Ret pos
      else pos_scan fuel (Z.shiftr one 1) word bit (i64 (pos + 1))
  end.

Definition redisBitpos (addr : Z) (m : list Z) (s count bit : Z) : res Z :=
  let fuel := S (length m) in
  '(c, count, pos) ← pos_prefix fuel addr m (if bit =? 0 then 255 else 0) s count 0;
  '(l, count, pos) ← pos_words fuel m (if bit =? 0 then ULONG_MAX else 0) c count pos;
  word ← pos_load 8 m l count 0;
  if (bit =? 1) && (word =? 0) then Ret (-1)
  else
    let one := Z.shiftr ULONG_MAX 1 in
    let one := u64 (Z.lnot one) in
    pos_scan 64 one word bit pos.

(** ** Bit fields *)

Definition setbit_byte (byteval bit bitval : Z) : Z :=
  let byteval := Z.land byteval (Z.lnot (Z.shiftl 1 bit)) in
  let byteval := Z.lor byteval (Z.shiftl bitval bit) in
  Z.land byteval 0xff.

(** The loop on [j]; [todo] is [bits - j]. *)
Fixpoint set_bits_loop (todo : nat) (p : list Z) (offset value : Z) : res (list Z) :=
  match todo with
  | O => Ret p
  | S todo =>
      let bitval := Z.b2z (negb (Z.land value (Z.shiftl 1 (Z.of_nat todo)) =? 0)) in
      let byte := Z.shiftr offset 3 in
      let bit := 7 - Z.land offset 7 in
      byteval ← rd p byte;
      p ← wr p byte (setbit_byte byteval bit bitval);
      set_bits_loop todo p (u64 (offset + 1)) value
  end.

Definition setUnsignedBitfield (p : list Z) (offset bits value : Z) : res (list Z) :=
  if 64 <? bits then Fault Undefined (* the first shift is by [bits - 1] *)
  else set_bits_loop (Z.to_nat bits) p offset value.

Definition setSignedBitfield (p : list Z) (offset bits value : Z) : res (list Z) :=
  setUnsignedBitfield p offset bits (u64 value).

Fixpoint get_bits_loop (todo : nat) (p : list Z) (offset value : Z) : res Z :=
  match todo with
  | O => Ret value
  | S todo =>
      let byte := Z.shiftr offset 3 in
      let bit := 7 - Z.land offset 7 in
      byteval ← rd p byte;
      let bitval := Z.land (Z.shiftr byteval bit) 1 in
      get_bits_loop todo p (u64 (offset + 1)) (Z.lor (u64 (Z.shiftl value 1)) bitval)
  end.

Definition getUnsignedBitfield (p : list Z) (offset bits : Z) : res Z :=
  get_bits_loop (Z.to_nat bits) p offset 0.

(** [x << n] on 64 bits is undefined unless [0 <= n < 64]. *)
Definition shl64 (x n : Z) : res Z :=
  if (0 <=? n) && (n <? 64) then Ret (u64 (Z.shiftl x n)) else Fault Undefined.

Definition getSignedBitfield (p : list Z) (offset bits : Z) : res Z :=
  u ← getUnsignedBitfield p offset bits;
  let value := i64 u in
  msb ← shl64 1 (bits - 1);
  if negb (Z.land (u64 value) msb =? 0) then
    mask ← shl64 ULONG_MAX bits;
    Ret (i64 (Z.lor (u64 value) mask))
  else Ret value.

(** ** Overflow of a bit field *)

Inductive bfoverflow : Type := BFOVERFLOW_WRAP | BFOVERFLOW_SAT | BFOVERFLOW_FAIL.

#[export] Instance bfoverflow_eq_dec : EqDecision bfoverflow.
Proof. solve_decision. Defined.

(** What the two checks return: the code, and the value stored through
    the pointer [limit], if one is. *)
Definition checkUnsignedBitfieldOverflow (value incr bits : Z) (owtype : bfoverflow)
    (limit : bool) : res (Z * option Z) :=
  one ← (if bits =? 64 then Ret 0 else shl64 1 bits);
  let max := if bits =? 64 then ULONG_MAX else u64 (one - 1) in
  let maxincr := i64 (max - value) in
  let minincr := i64 (- value) in
  let handle_wrap :=
    mask ← shl64 ULONG_MAX bits;
    let res := u64 (value + incr) in
    Ret (1, Some (Z.land res (u64 (Z.lnot mask)))) in
  if (max <? value) || ((0 <? incr) && (maxincr <? incr)) then
    if limit then
      match owtype with
      | BFOVERFLOW_WRAP => handle_wrap
      | BFOVERFLOW_SAT => Ret (1, Some max)
      | BFOVERFLOW_FAIL => Ret (1, None)
      end
    else Ret (1, None)
  else if (incr <? 0) && (incr <? minincr) then
    if limit then
      match owtype with
      | BFOVERFLOW_WRAP => handle_wrap
      | BFOVERFLOW_SAT => Ret (-1, Some 0)
      | BFOVERFLOW_FAIL => Ret (-1, None)
      end
    else Ret (-1, None)
  else Ret (0, None).

(** [maxincr] and [minincr] may overflow, as the comment in the code says;
    they are given the two's complement value. *)
Definition checkSignedBitfieldOverflow (value incr bits : Z) (owtype : bfoverflow)
    (limit : bool) : res (Z * option Z) :=
  one ← (if bits =? 64 then Ret 0 else shl64 1 (bits - 1));
  let max := if bits =? 64 then LLONG_MAX else i64 (one - 1) in
  let min := - max - 1 in
  let maxincr := i64 (max - value) in
  let minincr := i64 (min - value) in
  let handle_wrap :=
    mask ← shl64 ULONG_MAX bits;
    msb ← shl64 1 (bits - 1);
    let c := u64 (u64 value + u64 incr) in
    let c := if negb (Z.land c msb =? 0) then Z.lor c mask
             else Z.land c (u64 (Z.lnot mask)) in
    Ret (1, Some (i64 c)) in
  if (max <? value) || (negb (bits =? 64) && (maxincr <? incr)) ||
     ((0 <=? value) && (0 <? incr) && (maxincr <? incr)) then
    if limit then
      match owtype with
      | BFOVERFLOW_WRAP => handle_wrap
      | BFOVERFLOW_SAT => Ret (1, Some max)
      | BFOVERFLOW_FAIL => Ret (1, None)
      end
    else Ret (1, None)
  else if (value <? min) || (negb (bits =? 64) && (incr <? minincr)) ||
     ((value <? 0) && (incr <? 0) && (incr <? minincr)) then
    if limit then
      match owtype with
      | BFOVERFLOW_WRAP => handle_wrap
      | BFOVERFLOW_SAT => Ret (-1, Some min)
      | BFOVERFLOW_FAIL => Ret (-1, None)
      end
    else Ret (-1, None)
  else Ret (0, None).
