(* ===== verification/BitopsProofs.v ===== *)
(** * BitopsProofs: the bit helpers against the bit string view

    [redisPopcount] counts the ones of the bytes it is given,
    [redisBitpos] finds the first bit of a value, whatever the alignment
    of the string; the bit field functions read and write a slice of the
    bits of the string; the overflow checks compare the exact sum with the
    range of the field. *)

From Stdlib Require Import Btauto.
From S2P Require Import Prelude Bitops.

(** ** Bit strings *)

Lemma length_be_bits n v : length (be_bits n v) = n.
Proof. induction n; simpl; auto. Qed.

Lemma bits_of_app a b : bits_of (a ++ b) = bits_of a ++ bits_of b.
Proof. unfold bits_of. by rewrite map_app, concat_app. Qed.

Lemma bits_of_cons x m : bits_of (x :: m) = be_bits 8 x ++ bits_of m.
Proof. done. Qed.

Lemma length_bits_of m : length (bits_of m) = (8 * length m)%nat.
Proof.
  induction m as [|x m IH]; [done|]. rewrite bits_of_cons, length_app, length_be_bits, IH.
  cbn [length]. lia.
Qed.

Lemma ones_in_app a b : ones_in (a ++ b) = ones_in a + ones_in b.
Proof.
  induction a as [|x a IH]; [done|]. cbn [app]. unfold ones_in in *. cbn [foldr].
  rewrite IH. lia.
Qed.

Lemma ones_in_range l : 0 <= ones_in l <= Z.of_nat (length l).
Proof.
  induction l as [|x l IH]; [done|]. unfold ones_in in *. cbn [foldr length].
  destruct x; cbn [Z.b2z]; lia.
Qed.

Lemma be_value_range l : 0 <= be_value l < 2 ^ Z.of_nat (length l).
Proof.
  induction l as [|x l IH]; [simpl; lia|]. cbn [be_value length].
  rewrite Nat2Z.inj_succ, Z.pow_succ_r by lia. destruct x; cbn [Z.b2z]; lia.
Qed.

Lemma be_value_snoc l b : be_value (l ++ [b]) = 2 * be_value l + Z.b2z b.
Proof.
  induction l as [|x l IH]; [simpl; lia|]. cbn [app be_value]. rewrite IH, length_app. cbn [length].
  rewrite Nat2Z.inj_add, Z.pow_add_r by lia. change (2 ^ Z.of_nat 1) with 2. lia.
Qed.

Lemma be_value_bits n v : be_value (be_bits n v) = uwrap (Z.of_nat n) v.
Proof.
  unfold uwrap. induction n as [|n IH]; [simpl; by rewrite Z.mod_1_r|].
  cbn [be_bits be_value]. rewrite IH, length_be_bits, Nat2Z.inj_succ, Z.pow_succ_r by lia.
  rewrite (Z.mul_comm 2 (2 ^ _)), Z.rem_mul_r by lia.
  rewrite Z.testbit_spec' by lia. lia.
Qed.

Lemma be_bits_ext n v w :
  (forall i, 0 <= i < Z.of_nat n -> Z.testbit v i = Z.testbit w i) -> be_bits n v = be_bits n w.
Proof.
  induction n as [|n IH]; intros H; [done|]. cbn [be_bits]. f_equal; [apply H; lia|].
  apply IH. intros i Hi. apply H. lia.
Qed.

Lemma be_bits_uwrap n w v : Z.of_nat n <= w -> be_bits n (uwrap w v) = be_bits n v.
Proof.
  intros Hw. apply be_bits_ext. intros i Hi. unfold uwrap.
  rewrite Z.mod_pow2_bits_low by lia. done.
Qed.

Lemma be_bits_add n x y k : (n <= k)%nat -> be_bits n (y * 2 ^ Z.of_nat k + x) = be_bits n x.
Proof.
  intros Hk. rewrite <- (be_bits_uwrap n (Z.of_nat k)) by lia.
  rewrite <- (be_bits_uwrap n (Z.of_nat k) x) by lia. f_equal. unfold uwrap.
  rewrite Z.add_comm, Z.mod_add by (apply Z.pow_nonzero; lia). done.
Qed.

Lemma be_bits_value l : be_bits (length l) (be_value l) = l.
Proof.
  induction l as [|x l IH]; [done|]. cbn [length be_bits be_value].
  rewrite be_bits_add, IH by lia. f_equal.
  rewrite <- (Z.add_0_l (Z.of_nat (length l))) at 2. rewrite <- Z.div_pow2_bits by lia.
  pose proof (be_value_range l).
  rewrite Z.div_add_l, Z.div_small, Z.add_0_r by lia. by destruct x.
Qed.

(** A byte, checked value by value. *)
Lemma bit_byte_cases (P : Z -> bool) :
  forallb P (map Z.of_nat (seq 0 256)) = true -> forall b, byte_ok b -> P b = true.
Proof.
  intros H b Hb. rewrite forallb_forall in H. apply H. apply in_map_iff.
  exists (Z.to_nat b). unfold byte_ok in Hb. split; [lia|]. apply in_seq. lia.
Qed.

(** ** redisPopcount *)

Definition pop8 (b : Z) : Z := ones_in (be_bits 8 b).

Lemma ones_bits_cons x m : ones_in (bits_of (x :: m)) = pop8 x + ones_in (bits_of m).
Proof. by rewrite bits_of_cons, ones_in_app. Qed.

Lemma pop8_range b : 0 <= pop8 b <= 8.
Proof. pose proof (ones_in_range (be_bits 8 b)). unfold pop8. rewrite length_be_bits in H. lia. Qed.

Lemma bitsinbyte_ok b : byte_ok b -> rd bitsinbyte b = Ret (pop8 b).
Proof.
  intros Hb.
  pose proof (bit_byte_cases (fun b => match rd bitsinbyte b with Ret n => n =? pop8 b | _ => false end)
    ltac:(vm_compute; reflexivity) b Hb) as H. cbv beta in H.
  destruct (rd bitsinbyte b); [|done]. apply Z.eqb_eq in H. by subst.
Qed.

(** Shifting a word right and masking each byte does not mix bytes, when
    the mask drops what comes from the byte above. *)
Lemma land_shift_bytes b w k mb mw : byte_ok b -> 0 <= k <= 8 -> 0 <= mb < 2 ^ (8 - k) ->
  Z.land (Z.shiftr (b + 256 * w) k) (mb + 256 * mw) =
  Z.land (Z.shiftr b k) mb + 256 * Z.land (Z.shiftr w k) mw.
Proof.
  intros Hb Hk Hm. unfold byte_ok in Hb.
  assert (0 <= Z.land (Z.shiftr b k) mb < 256).
  { split; [apply Z.land_nonneg; right; lia|].
    assert (2 ^ (8 - k) <= 2 ^ 8) by (apply Z.pow_le_mono_r; lia).
    apply in_u_land_l with (w := 8); [lia|]. apply in_u_shiftr; [lia|]. unfold in_u. lia. }
  assert (Hmb : mb < 256) by (assert (2 ^ (8 - k) <= 2 ^ 8) by (apply Z.pow_le_mono_r; lia); lia).
  assert (Hlor : forall x y, 0 <= x < 256 -> x + 256 * y = Z.lor (Z.shiftl y 8) x).
  { intros. rewrite Z.shiftl_mul_pow2, (lor_add 8) by lia. lia. }
  assert (Hhi : forall x i, 0 <= x < 256 -> 8 <= i -> Z.testbit x i = false).
  { intros x i Hx Hi. rewrite <- (Z.mod_small x (2 ^ 8)) by lia.
    apply Z.mod_pow2_bits_high. lia. }
  rewrite !Hlor by lia. apply Z.bits_inj'. intros i Hi.
  rewrite Z.land_spec, Z.shiftr_spec, !Z.lor_spec, !Z.land_spec, !Z.shiftr_spec by lia.
  rewrite !Z.shiftl_spec by lia. destruct (Z.lt_ge_cases i 8).
  - rewrite !(Z.testbit_neg_r _ (i - 8)) by lia. cbn [orb].
    destruct (Z.lt_ge_cases (i + k) 8).
    + rewrite (Z.testbit_neg_r _ (i + k - 8)) by lia. done.
    + replace (Z.testbit mb i) with false; [by rewrite !andb_false_r|].
      rewrite <- (Z.mod_small mb (2 ^ (8 - k))), Z.mod_pow2_bits_high by lia. done.
  - rewrite !(Hhi _ i), (Hhi b (i + k)) by lia. rewrite !orb_false_r, Z.land_spec, Z.shiftr_spec by lia.
    replace (i - 8 + k) with (i + k - 8) by lia. done.
Qed.

Definition word4 (b0 b1 b2 b3 : Z) : Z := b0 + 256 * (b1 + 256 * (b2 + 256 * b3)).

Lemma land4 b0 b1 b2 b3 k c :
  byte_ok b0 -> byte_ok b1 -> byte_ok b2 -> 0 <= k <= 8 -> 0 <= c < 2 ^ (8 - k) ->
  Z.land (Z.shiftr (word4 b0 b1 b2 b3) k) (word4 c c c c) =
  word4 (Z.land (Z.shiftr b0 k) c) (Z.land (Z.shiftr b1 k) c)
        (Z.land (Z.shiftr b2 k) c) (Z.land (Z.shiftr b3 k) c).
Proof. intros. unfold word4. by rewrite !land_shift_bytes. Qed.

(** One byte of [swar_nibbles]. *)
Definition nib1 (b : Z) : Z := b - Z.land (Z.shiftr b 1) 0x55.
Definition nib (b : Z) : Z := Z.land (nib1 b) 0x33 + Z.land (Z.shiftr (nib1 b) 2) 0x33.

Lemma nib_ok b : byte_ok b ->
  byte_ok (nib1 b) /\ 0 <= nib b mod 16 <= 4 /\ 0 <= nib b / 16 <= 4 /\
  nib b mod 16 + nib b / 16 = pop8 b.
Proof.
  intros Hb.
  pose proof (bit_byte_cases (fun b => (0 <=? nib1 b) && (nib1 b <? 256) &&
     ((0 <=? nib b mod 16) && (nib b mod 16 <=? 4)) &&
     ((0 <=? nib b / 16) && (nib b / 16 <=? 4)) && (nib b mod 16 + nib b / 16 =? pop8 b))
    ltac:(vm_compute; reflexivity) b Hb) as H. cbv beta in H.
  rewrite !andb_true_iff, !Z.leb_le, !Z.ltb_lt, Z.eqb_eq in H. unfold byte_ok. tauto.
Qed.

Lemma swar_nibbles_ok b0 b1 b2 b3 : byte_ok b0 -> byte_ok b1 -> byte_ok b2 -> byte_ok b3 ->
  swar_nibbles (word4 b0 b1 b2 b3) = word4 (nib b0) (nib b1) (nib b2) (nib b3).
Proof.
  intros H0 H1 H2 H3.
  destruct (nib_ok b0 H0) as (N0 & L0 & M0 & _), (nib_ok b1 H1) as (N1 & L1 & M1 & _),
    (nib_ok b2 H2) as (N2 & L2 & M2 & _), (nib_ok b3 H3) as (N3 & L3 & M3 & _).
  unfold swar_nibbles. change 0x55555555 with (word4 0x55 0x55 0x55 0x55).
  change 0x33333333 with (word4 0x33 0x33 0x33 0x33). rewrite land4 by (done || lia).
  assert (Hsub : u32 (word4 b0 b1 b2 b3 - word4 (Z.land (Z.shiftr b0 1) 85)
     (Z.land (Z.shiftr b1 1) 85) (Z.land (Z.shiftr b2 1) 85) (Z.land (Z.shiftr b3 1) 85)) =
     word4 (nib1 b0) (nib1 b1) (nib1 b2) (nib1 b3)).
  { unfold nib1, byte_ok in *. rewrite uwrap_id; unfold in_u, word4 in *; lia. }
  rewrite Hsub. rewrite land4 by (done || lia).
  rewrite <- (Z.shiftr_0_r (word4 (nib1 _) _ _ _)). rewrite land4 by (done || lia).
  rewrite !Z.shiftr_0_r. unfold nib in *. rewrite uwrap_id; unfold in_u, word4 in *; [lia|].
  pose proof (Z.div_mod (nib b0) 16). pose proof (Z.div_mod (nib b1) 16).
  pose proof (Z.div_mod (nib b2) 16). pose proof (Z.div_mod (nib b3) 16). unfold nib in *. lia.
Qed.

Lemma swar_bytes_ok n0 n1 n2 n3 :
  (forall n, n ∈ [n0; n1; n2; n3] -> 0 <= n mod 16 <= 4 /\ 0 <= n / 16 <= 4) ->
  swar_bytes (word4 n0 n1 n2 n3) =
  word4 (n0 mod 16 + n0 / 16) (n1 mod 16 + n1 / 16) (n2 mod 16 + n2 / 16) (n3 mod 16 + n3 / 16).
Proof.
  intros H. destruct (H n0 ltac:(set_solver)), (H n1 ltac:(set_solver)),
    (H n2 ltac:(set_solver)), (H n3 ltac:(set_solver)). clear H.
  pose proof (Z.div_mod n0 16 ltac:(lia)). pose proof (Z.div_mod n1 16 ltac:(lia)).
  pose proof (Z.div_mod n2 16 ltac:(lia)). pose proof (Z.div_mod n3 16 ltac:(lia)).
  remember (n0 mod 16) as l0. remember (n0 / 16) as h0. remember (n1 mod 16) as l1.
  remember (n1 / 16) as h1. remember (n2 mod 16) as l2. remember (n2 / 16) as h2.
  remember (n3 mod 16) as l3. remember (n3 / 16) as h3.
  unfold swar_bytes. change 0x0F0F0F0F with (word4 15 15 15 15).
  assert (Hs : u32 (word4 n0 n1 n2 n3 + Z.shiftr (word4 n0 n1 n2 n3) 4) =
    word4 (l0 + h0 + 16 * (h0 + l1)) (l1 + h1 + 16 * (h1 + l2)) (l2 + h2 + 16 * (h2 + l3))
          (l3 + h3 + 16 * h3)).
  { rewrite Z.shiftr_div_pow2 by lia. change (2 ^ 4) with 16.
    rewrite <- (Z.div_unique_pos (word4 n0 n1 n2 n3) 16
      (word4 (h0 + 16 * l1) (h1 + 16 * l2) (h2 + 16 * l3) h3) l0); unfold word4; [|lia|lia].
    rewrite uwrap_id; unfold in_u; lia. }
  rewrite Hs. rewrite <- (Z.shiftr_0_r (word4 (l0 + h0 + _) _ _ _)).
  rewrite land4 by (unfold byte_ok; lia). rewrite !Z.shiftr_0_r.
  change 15 with (2 ^ 4 - 1). rewrite !land_mask by lia. change (2 ^ 4) with 16.
  assert (Hm : forall x y, 0 <= x < 16 -> (x + 16 * y) mod 16 = x).
  { intros. rewrite Z.mul_comm, Z.mod_add by lia. by apply Z.mod_small. }
  rewrite !Hm by lia. done.
Qed.

(** The four counts of a word, and their sum. *)
Lemma swar_ok s : length s = 4%nat -> bytes_ok s ->
  exists x0 x1 x2 x3, swar_bytes (swar_nibbles (le_value s)) = word4 x0 x1 x2 x3 /\
    0 <= x0 <= 8 /\ 0 <= x1 <= 8 /\ 0 <= x2 <= 8 /\ 0 <= x3 <= 8 /\
    ones_in (bits_of s) = x0 + x1 + x2 + x3.
Proof.
  intros Hl Hb. destruct s as [|b0 [|b1 [|b2 [|b3 [|]]]]]; try done.
  unfold bytes_ok in Hb. rewrite !Forall_cons in Hb. destruct Hb as (H0 & H1 & H2 & H3 & _).
  exists (pop8 b0), (pop8 b1), (pop8 b2), (pop8 b3).
  split; [|repeat (split; [apply pop8_range|]); rewrite !ones_bits_cons; cbn; lia].
  replace (le_value _) with (word4 b0 b1 b2 b3) by (unfold word4; cbn [le_value]; lia).
  rewrite swar_nibbles_ok by done.
  destruct (nib_ok b0 H0) as (_ & L0 & M0 & E0), (nib_ok b1 H1) as (_ & L1 & M1 & E1),
    (nib_ok b2 H2) as (_ & L2 & M2 & E2), (nib_ok b3 H3) as (_ & L3 & M3 & E3).
  rewrite swar_bytes_ok by set_solver. congruence.
Qed.

(** The multiplication adds the four bytes into the highest one. *)
Lemma fold_bytes s0 s1 s2 s3 : 0 <= s0 -> 0 <= s1 -> 0 <= s2 -> 0 <= s3 ->
  s0 + s1 + s2 + s3 < 256 ->
  Z.shiftr (u32 (u32 (word4 s0 s1 s2 s3) * 0x01010101)) 24 = s0 + s1 + s2 + s3.
Proof.
  intros. rewrite (uwrap_id 32 (word4 _ _ _ _)) by (unfold in_u, word4; lia).
  unfold uwrap. rewrite <- (Z.mod_unique_pos (word4 s0 s1 s2 s3 * 16843009) (2 ^ 32)
    (s1 + s2 + s3 + 256 * (s2 + s3) + 65536 * s3) (word4 s0 (s0 + s1) (s0 + s1 + s2) (s0 + s1 + s2 + s3)));
    [|unfold word4; lia..].
  rewrite Z.shiftr_div_pow2 by lia. symmetry.
  apply Z.div_unique_pos with (s0 + 256 * (s0 + s1) + 65536 * (s0 + s1 + s2)); unfold word4; lia.
Qed.

Lemma rd32_ok pre bs post p : p = Z.of_nat (length pre) -> length bs = 4%nat ->
  rd32 (pre ++ bs ++ post) p = Ret (le_value bs).
Proof.
  intros -> H. unfold rd32. rewrite memread_ok by (rewrite !length_app; lia).
  rewrite <- H, slice_app_mid. done.
Qed.

Lemma rd64_ok pre bs post p : p = Z.of_nat (length pre) -> length bs = 8%nat ->
  rd64 (pre ++ bs ++ post) p = Ret (le_value bs).
Proof.
  intros -> H. unfold rd64. rewrite memread_ok by (rewrite !length_app; lia).
  rewrite <- H, slice_app_mid. done.
Qed.

Lemma rd32_sub pre bs post p i : p = Z.of_nat (length pre) -> (i + 4 <= length bs)%nat ->
  rd32 (pre ++ bs ++ post) (p + Z.of_nat i) = Ret (le_value (slice bs i 4)).
Proof.
  intros -> H.
  replace (pre ++ bs ++ post) with
    ((pre ++ take i bs) ++ slice bs i 4 ++ (drop 4 (drop i bs) ++ post)).
  2:{ unfold slice. rewrite (app_assoc (take 4 _)), take_drop, <- app_assoc.
      by rewrite (app_assoc (take i _)), take_drop. }
  apply rd32_ok.
  - rewrite length_app, length_take. lia.
  - apply length_slice. lia.
Qed.

Lemma pop_block_ok pre bs post p : p = Z.of_nat (length pre) -> length bs = 28%nat ->
  bytes_ok bs -> pop_block (pre ++ bs ++ post) p = Ret (ones_in (bits_of bs)).
Proof.
  intros Hp Hl Hb. unfold pop_block.
  assert (Hr := fun i => rd32_sub pre bs post p i Hp).
  rewrite <- (Z.add_0_r p) at 1. change (p + 0) with (p + Z.of_nat 0).
  rewrite Hr by lia. cbn [mbind res_bind].
  change (p + 4) with (p + Z.of_nat 4). change (p + 8) with (p + Z.of_nat 8).
  change (p + 12) with (p + Z.of_nat 12). change (p + 16) with (p + Z.of_nat 16).
  change (p + 20) with (p + Z.of_nat 20). change (p + 24) with (p + Z.of_nat 24).
  rewrite !Hr by lia. clear Hr. cbn [mbind res_bind].
  pose proof (fun i (Hi : (i + 4 <= 28)%nat) =>
    swar_ok (slice bs i 4) (length_slice bs i 4 ltac:(lia))
      (bytes_ok_take 4 _ (bytes_ok_drop i bs Hb))) as Hs.
  assert (Hones : ones_in (bits_of bs) = ones_in (bits_of (slice bs 0 4)) +
    ones_in (bits_of (slice bs 4 4)) + ones_in (bits_of (slice bs 8 4)) +
    ones_in (bits_of (slice bs 12 4)) + ones_in (bits_of (slice bs 16 4)) +
    ones_in (bits_of (slice bs 20 4)) + ones_in (bits_of (slice bs 24 4))).
  { do 28 (destruct bs as [|? bs]; [done|]). destruct bs; [|done].
    rewrite !ones_bits_cons. unfold slice. cbn [take drop]. rewrite !ones_bits_cons. cbn [bits_of concat map ones_in foldr].
    lia. }
  rewrite Hones. clear Hones.
  destruct (Hs 0%nat ltac:(lia)) as (a0 & a1 & a2 & a3 & -> & ? & ? & ? & ? & ->).
  destruct (Hs 4%nat ltac:(lia)) as (b0 & b1 & b2 & b3 & -> & ? & ? & ? & ? & ->).
  destruct (Hs 8%nat ltac:(lia)) as (c0 & c1 & c2 & c3 & -> & ? & ? & ? & ? & ->).
  destruct (Hs 12%nat ltac:(lia)) as (d0 & d1 & d2 & d3 & -> & ? & ? & ? & ? & ->).
  destruct (Hs 16%nat ltac:(lia)) as (e0 & e1 & e2 & e3 & -> & ? & ? & ? & ? & ->).
  destruct (Hs 20%nat ltac:(lia)) as (f0 & f1 & f2 & f3 & -> & ? & ? & ? & ? & ->).
  destruct (Hs 24%nat ltac:(lia)) as (g0 & g1 & g2 & g3 & -> & ? & ? & ? & ? & ->).
  replace (word4 a0 a1 a2 a3 + word4 b0 b1 b2 b3 + word4 c0 c1 c2 c3 + word4 d0 d1 d2 d3 +
    word4 e0 e1 e2 e3 + word4 f0 f1 f2 f3 + word4 g0 g1 g2 g3) with
    (word4 (a0+b0+c0+d0+e0+f0+g0) (a1+b1+c1+d1+e1+f1+g1) (a2+b2+c2+d2+e2+f2+g2) (a3+b3+c3+d3+e3+f3+g3))
    by (unfold word4; lia).
  rewrite fold_bytes by lia. f_equal. lia.
Qed.

(** Two triples of integers with equal components. *)
Ltac ret3 :=
  match goal with
  | |- Ret (?a, ?b, ?c) = Ret (?a', ?b', ?c') =>
      replace a' with a by (cbn [length]; lia);
      replace b' with b by (cbn [length]; lia);
      replace c' with c by (change (ones_in (bits_of [])) with 0; cbn [length]; lia);
      reflexivity
  end.

Lemma bits_split_at (n : nat) (l : list Z) : (n <= length l)%nat ->
  exists x y, l = x ++ y /\ length x = n.
Proof. intros. exists (take n l), (drop n l). rewrite take_drop, length_take. split; [done|lia]. Qed.

(** The loops: what is left to count is a segment of the block. *)
Lemma pop_prefix_ok addr pre bs post fuel bits p count :
  p = Z.of_nat (length pre) -> count = Z.of_nat (length bs) -> bytes_ok bs ->
  (length bs < fuel)%nat -> 0 <= bits -> bits + ones_in (bits_of bs) < 2 ^ 64 ->
  exists a b, bs = a ++ b /\ pop_prefix fuel addr (pre ++ bs ++ post) p count bits =
    Ret (p + Z.of_nat (length a), Z.of_nat (length b), bits + ones_in (bits_of a)).
Proof.
  revert pre bs bits p count. induction fuel as [|fuel IH]; [lia|].
  intros pre bs bits p count -> -> Hb Hf H0 H1. cbn [pop_prefix].
  destruct (Z.land (addr + _) 3 =? 0); cbn [negb andb].
  { exists [], bs. split; [done|]. ret3. }
  destruct bs as [|b bs].
  { exists [], []. split; [done|]. change (Z.of_nat (length []) =? 0) with true. cbn [negb]. ret3. }
  destruct (Z.eqb_spec (Z.of_nat (length (b :: bs))) 0); [cbn [length] in *; lia|]. cbn [negb andb app].
  rewrite rd_at by done. cbn [mbind res_bind]. apply Forall_cons in Hb as [Hb Hbs].
  rewrite bitsinbyte_ok by done. cbn [mbind res_bind]. rewrite ones_bits_cons in H1.
  pose proof (pop8_range b). pose proof (ones_in_range (bits_of bs)).
  rewrite uwrap_id by (unfold in_u; lia). cbn [length] in *.
  destruct (IH (pre ++ [b]) bs (bits + pop8 b) (Z.of_nat (length pre) + 1)
    (Z.of_nat (S (length bs)) - 1)) as (a' & b' & -> & Hr); try (rewrite ?length_app; cbn [length]; lia); [done|].
  exists (b :: a'), b'. split; [done|]. rewrite <- app_assoc in Hr. cbn [app] in Hr.
  rewrite Hr, ones_bits_cons. cbn [length]. ret3.
Qed.

Lemma pop_words_ok fuel pre bs post bits p count :
  p = Z.of_nat (length pre) -> count = Z.of_nat (length bs) -> bytes_ok bs ->
  (length bs < fuel)%nat -> 0 <= bits -> bits + ones_in (bits_of bs) < 2 ^ 64 ->
  exists a b, bs = a ++ b /\ pop_words fuel (pre ++ bs ++ post) p count bits =
    Ret (p + Z.of_nat (length a), Z.of_nat (length b), bits + ones_in (bits_of a)).
Proof.
  revert pre bs bits p count. induction fuel as [|fuel IH]; [lia|].
  intros pre bs bits p count Hp -> Hb Hf H0 H1. cbn [pop_words].
  destruct (Z.leb_spec 28 (Z.of_nat (length bs))) as [H28|]; cycle 1.
  { exists [], bs. split; [done|]. ret3. }
  destruct (bits_split_at 28 bs) as (x & y & -> & Hx); [lia|].
  apply bytes_ok_app in Hb as [Hbx Hby]. rewrite <- app_assoc.
  rewrite pop_block_ok by done. cbn [mbind res_bind]. rewrite bits_of_app, ones_in_app in H1.
  pose proof (ones_in_range (bits_of x)). pose proof (ones_in_range (bits_of y)).
  rewrite uwrap_id by (unfold in_u; lia). rewrite length_app in *.
  destruct (IH (pre ++ x) y (bits + ones_in (bits_of x)) (p + 28)
    (Z.of_nat (length x + length y) - 28)) as (a' & b' & -> & Hr); try (rewrite ?length_app; lia); [done|].
  exists (x ++ a'), b'. split; [by rewrite app_assoc|]. rewrite <- app_assoc in Hr.
  rewrite Hr, bits_of_app, ones_in_app, length_app. ret3.
Qed.

Lemma pop_rest_ok fuel pre bs post bits p count :
  p = Z.of_nat (length pre) -> count = Z.of_nat (length bs) -> bytes_ok bs ->
  (length bs < fuel)%nat -> 0 <= bits -> bits + ones_in (bits_of bs) < 2 ^ 64 ->
  pop_rest fuel (pre ++ bs ++ post) p count bits = Ret (bits + ones_in (bits_of bs)).
Proof.
  revert pre bs bits p count. induction fuel as [|fuel IH]; [lia|].
  intros pre bs bits p count -> -> Hb Hf H0 H1. cbn [pop_rest].
  destruct bs as [|b bs]; [cbn; f_equal; lia|].
  destruct (Z.eqb_spec (Z.of_nat (length (b :: bs))) 0); [cbn [length] in *; lia|]. cbn [app].
  rewrite rd_at by done. cbn [mbind res_bind]. apply Forall_cons in Hb as [Hb Hbs].
  rewrite bitsinbyte_ok by done. cbn [mbind res_bind]. rewrite ones_bits_cons in *.
  pose proof (pop8_range b). pose proof (ones_in_range (bits_of bs)).
  rewrite uwrap_id by (unfold in_u; lia). cbn [length] in *.
  replace (pre ++ b :: bs ++ post) with ((pre ++ [b]) ++ bs ++ post) by (by rewrite <- app_assoc).
  rewrite IH; [f_equal; lia|rewrite ?length_app; cbn [length]; lia..|done|lia|lia|lia].
Qed.

(** redisPopcount, which counts the bytes up to a four-byte boundary one
    by one, then 28 bytes a turn with bit-parallel additions, then the rest,
    returns the number of bits set in the string, wherever the string lies
    in memory, and reads no byte outside of it. *)
Theorem redisPopcount_counts addr pre bs post :
  bytes_ok bs -> 8 * Z.of_nat (length bs) < 2 ^ 64 ->
  redisPopcount addr (pre ++ bs ++ post) (Z.of_nat (length pre)) (Z.of_nat (length bs)) =
  Ret (ones_in (bits_of bs)).
Proof.
  intros Hb Hl. unfold redisPopcount. pose proof (ones_in_range (bits_of bs)).
  rewrite length_bits_of in H.
  destruct (pop_prefix_ok addr pre bs post (S (length (pre ++ bs ++ post))) 0 _ _ eq_refl eq_refl Hb)
    as (a & r & -> & ->); [rewrite !length_app; lia|lia|lia|].
  cbn [mbind res_bind]. apply bytes_ok_app in Hb as [Ha Hr].
  rewrite bits_of_app, ones_in_app in *.
  pose proof (ones_in_range (bits_of a)). pose proof (ones_in_range (bits_of r)).
  rewrite <- (app_assoc a r post), (app_assoc pre a).
  destruct (pop_words_ok (S (length ((pre ++ a) ++ r ++ post))) (pre ++ a) r post (0 + ones_in (bits_of a))
    (Z.of_nat (length pre) + Z.of_nat (length a)) _ ltac:(rewrite length_app; lia) eq_refl Hr)
    as (b & c & -> & ->); [rewrite !length_app; lia|lia|lia|].
  cbn [mbind res_bind]. apply bytes_ok_app in Hr as [Hb Hc].
  rewrite bits_of_app, ones_in_app in *.
  pose proof (ones_in_range (bits_of b)). pose proof (ones_in_range (bits_of c)).
  rewrite <- (app_assoc b c post), (app_assoc _ b).
  rewrite pop_rest_ok; [f_equal; lia|rewrite !length_app; lia|done|done|rewrite !length_app; lia|lia|lia].
Qed.

(** ** redisBitpos *)

(** The byte all of whose bits differ from [bit]. *)
Definition skip_byte (bit : bool) : Z := if bit then 0 else 255.

Lemma first_bit_app b l r :
  first_bit b (l ++ r) =
  match first_bit b l with
  | Some i => Some i
  | None => Z.add (Z.of_nat (length l)) <$> first_bit b r
  end.
Proof.
  induction l as [|x l IH]; [simpl; destruct (first_bit b r); simpl; f_equal; lia|].
  cbn [app first_bit]. destruct (Bool.eqb x b); [done|]. rewrite IH.
  destruct (first_bit b l); [done|]. destruct (first_bit b r); cbn [fmap option_fmap option_map length]; f_equal; lia.
Qed.

Lemma first_bit_byte b x : byte_ok x -> first_bit b (be_bits 8 x) = None <-> x = skip_byte b.
Proof.
  intros Hx.
  pose proof (bit_byte_cases (fun x => forallb (fun b =>
    Bool.eqb (match first_bit b (be_bits 8 x) with Some _ => false | None => true end) (x =? skip_byte b)) [true; false])
    ltac:(vm_compute; reflexivity) x Hx) as H. cbv beta in H. cbn [forallb] in H.
  rewrite !andb_true_iff, !eqb_true_iff in H. destruct H as (H1 & H2 & _).
  destruct b; [rewrite <- Z.eqb_eq, <- H1; destruct (first_bit true (be_bits 8 x))
    |rewrite <- Z.eqb_eq, <- H2; destruct (first_bit false (be_bits 8 x))]; split; done.
Qed.

Lemma first_bit_none b m : bytes_ok m ->
  first_bit b (bits_of m) = None <-> m = replicate (length m) (skip_byte b).
Proof.
  induction 1 as [|x m Hx Hm IH]; [done|]. rewrite bits_of_cons, first_bit_app.
  cbn [length replicate]. destruct (first_bit b (be_bits 8 x)) eqn:E.
  - split; [done|]. intros [= -> _]. by rewrite (proj2 (first_bit_byte b _ Hx)) in E.
  - apply first_bit_byte in E as ->; [|done]. rewrite fmap_None, IH.
    split; [by intros <-|by intros [= <-]].
Qed.

(** A word is the skip value when all its bytes are. *)
Lemma skip_word (b : bool) m : bytes_ok m -> length m = 8%nat ->
  le_value m = (if b then 0 else ULONG_MAX) <-> first_bit b (bits_of m) = None.
Proof.
  intros Hm Hl. rewrite first_bit_none, Hl by done.
  assert (E : (if b then 0 else ULONG_MAX) = le_value (replicate 8 (skip_byte b))) by (by destruct b).
  rewrite E. split; [|by intros ->]. intros H.
  rewrite <- (le_bytes_value m), H, Hl by done. by destruct b.
Qed.

Lemma first_bit_range b l i : first_bit b l = Some i -> 0 <= i < Z.of_nat (length l).
Proof.
  revert i. induction l as [|x l IH]; intros i H; [done|]. cbn [first_bit length] in *.
  destruct (Bool.eqb x b); [injection H as <-; lia|].
  destruct (first_bit b l) as [k|]; [|done]. injection H as <-. specialize (IH k eq_refl). lia.
Qed.

Lemma pos_prefix_ok addr bit fuel pre bs post pos p count :
  p = Z.of_nat (length pre) -> count = Z.of_nat (length bs) ->
  (length bs < fuel)%nat -> 0 <= pos -> pos + 8 * Z.of_nat (length bs) < 2 ^ 63 ->
  exists a b, bs = a ++ b /\ a = replicate (length a) (skip_byte bit) /\
    pos_prefix fuel addr (pre ++ bs ++ post) (skip_byte bit) p count pos =
    Ret (p + Z.of_nat (length a), Z.of_nat (length b), pos + 8 * Z.of_nat (length a)).
Proof.
  revert pre bs pos p count. induction fuel as [|fuel IH]; [lia|].
  intros pre bs pos p count -> -> Hf H0 H1. cbn [pos_prefix].
  destruct (Z.land (addr + _) 7 =? 0); cbn [negb andb].
  { exists [], bs. do 2 (split; [done|]). ret3. }
  destruct bs as [|b bs].
  { exists [], []. do 2 (split; [done|]). change (Z.of_nat (length []) =? 0) with true. cbn [negb]. ret3. }
  destruct (Z.eqb_spec (Z.of_nat (length (b :: bs))) 0); [cbn [length] in *; lia|]. cbn [negb andb app].
  rewrite rd_at by done. cbn [mbind res_bind].
  destruct (Z.eqb_spec b (skip_byte bit)) as [->|]; cbn [negb].
  2: { exists [], (b :: bs). do 2 (split; [done|]). ret3. }
  cbn [length] in *. rewrite swrap_id by (unfold in_s; lia).
  destruct (IH (pre ++ [skip_byte bit]) bs (pos + 8) (Z.of_nat (length pre) + 1)
    (Z.of_nat (S (length bs)) - 1)) as (a' & b' & -> & Ha & Hr); try (rewrite ?length_app; cbn [length]; lia).
  exists (skip_byte bit :: a'), b'. split; [done|]. split; [cbn [length replicate]; by f_equal|].
  rewrite <- app_assoc in Hr. cbn [app] in Hr. rewrite Hr. ret3.
Qed.

Lemma pos_words_ok (bit : bool) fuel pre bs post pos p count :
  p = Z.of_nat (length pre) -> count = Z.of_nat (length bs) -> bytes_ok bs ->
  (length bs < fuel)%nat -> 0 <= pos -> pos + 8 * Z.of_nat (length bs) < 2 ^ 63 ->
  exists a b, bs = a ++ b /\ first_bit bit (bits_of a) = None /\
    ((8 <= length b)%nat -> first_bit bit (bits_of (take 8 b)) <> None) /\
    pos_words fuel (pre ++ bs ++ post) (if bit then 0 else ULONG_MAX) p count pos =
    Ret (p + Z.of_nat (length a), Z.of_nat (length b), pos + 8 * Z.of_nat (length a)).
Proof.
  revert pre bs pos p count. induction fuel as [|fuel IH]; [lia|].
  intros pre bs pos p count Hp -> Hb Hf H0 H1. cbn [pos_words].
  destruct (Z.leb_spec 8 (Z.of_nat (length bs))) as [H8|]; cycle 1.
  { exists [], bs. do 2 (split; [done|]). split; [lia|]. ret3. }
  destruct (bits_split_at 8 bs) as (x & y & -> & Hx); [lia|].
  apply bytes_ok_app in Hb as [Hbx Hby]. rewrite <- app_assoc.
  rewrite rd64_ok by done. cbn [mbind res_bind].
  destruct (Z.eqb_spec (le_value x) (if bit then 0 else ULONG_MAX)) as [Hs|Hs]; rewrite skip_word in Hs by done; cbn [negb].
  2: { exists [], (x ++ y). do 2 (split; [done|]). split; [by rewrite <- Hx, take_app_length|]. ret3. }
  rewrite length_app in *. rewrite swrap_id by (unfold in_s; lia).
  destruct (IH (pre ++ x) y (pos + 64) (p + 8) (Z.of_nat (length x + length y) - 8))
    as (a' & b' & -> & Ha & Hn & Hr); try (rewrite ?length_app; lia); [done|].
  exists (x ++ a'), b'. split; [by rewrite app_assoc|].
  split; [by rewrite bits_of_app, first_bit_app, Hs, Ha|]. split; [done|].
  rewrite <- app_assoc in Hr. rewrite Hr, length_app. ret3.
Qed.

Lemma be_value_app l r : be_value (l ++ r) = be_value l * 2 ^ Z.of_nat (length r) + be_value r.
Proof.
  induction l as [|x l IH]; [done|]. cbn [app be_value]. rewrite IH, length_app, Nat2Z.inj_add, Z.pow_add_r by lia.
  lia.
Qed.

(** The bytes loaded into the last word. *)
Definition pad (j : nat) (bs : list Z) : list Z := take j bs ++ replicate (j - length bs) 0.

Lemma bytes_ok_pad j bs : bytes_ok bs -> bytes_ok (pad j bs) /\ length (pad j bs) = j.
Proof.
  intros Hb. unfold pad. rewrite length_app, length_take, length_replicate. split; [|lia].
  apply bytes_ok_app. split; [by apply bytes_ok_take|].
  apply Forall_replicate. unfold byte_ok. lia.
Qed.

Lemma be_value_byte b : byte_ok b -> be_value (be_bits 8 b) = b.
Proof. intros. rewrite be_value_bits. apply uwrap_id. done. Qed.

Lemma pos_load_ok j pre bs post c count word :
  c = Z.of_nat (length pre) -> count = Z.of_nat (length bs) -> bytes_ok bs ->
  0 <= word -> (word + 1) * 2 ^ (8 * Z.of_nat j) <= 2 ^ 64 ->
  pos_load j (pre ++ bs ++ post) c count word =
  Ret (word * 2 ^ (8 * Z.of_nat j) + be_value (bits_of (pad j bs))).
Proof.
  revert pre bs c count word. induction j as [|j IH]; intros pre bs c count word -> -> Hb H0 H1.
  { unfold pad. cbn [pos_load take]. replace (0 - length bs)%nat with O by lia.
    change (2 ^ (8 * Z.of_nat 0)) with 1. change (be_value _) with 0. f_equal. lia. }
  rewrite pow256_S in *. cbn [pos_load]. rewrite Z.shiftl_mul_pow2 by lia. change (2 ^ 8) with 256.
  assert (0 < 2 ^ (8 * Z.of_nat j)) by lia.
  rewrite uwrap_id by (unfold in_u; nia). destruct bs as [|b bs].
  - change (Z.of_nat (length []) =? 0) with true. cbn [negb].
    rewrite (IH pre []) by (done || nia). f_equal. unfold pad. rewrite take_nil. cbn [app].
    rewrite !take_nil. cbn [length app]. rewrite !Nat.sub_0_r. cbn [replicate].
    rewrite bits_of_cons, be_value_app. cbn [be_bits be_value Z.testbit]. rewrite !Z.testbit_0_l. cbn. lia.
  - destruct (Z.eqb_spec (Z.of_nat (length (b :: bs))) 0); [cbn [length] in *; lia|]. cbn [negb app].
    rewrite rd_at by done. cbn [mbind res_bind]. apply Forall_cons in Hb as [Hb Hbs].
    unfold byte_ok in Hb. rewrite (lor_add 8) by lia. change (2 ^ 8) with 256.
    replace (pre ++ b :: bs ++ post) with ((pre ++ [b]) ++ bs ++ post) by (by rewrite <- app_assoc).
    rewrite (IH (pre ++ [b]) bs); [|rewrite ?length_app; cbn [length]; lia..|done|lia|nia].
    f_equal. unfold pad. cbn [take length app Nat.sub]. rewrite bits_of_cons, be_value_app, length_bits_of.
    rewrite be_value_byte by done. fold (pad j bs). rewrite (proj2 (bytes_ok_pad j bs Hbs)).
    rewrite Nat2Z.inj_mul. change (Z.of_nat 8) with 8. lia.
Qed.

Lemma land_pow2 k v : 0 <= k -> negb (Z.land (2 ^ k) v =? 0) = Z.testbit v k.
Proof.
  intros Hk. destruct (Z.testbit v k) eqn:E.
  - apply negb_true_iff, Z.eqb_neq. intros H. apply (f_equal (fun x => Z.testbit x k)) in H.
    rewrite Z.land_spec, Z.pow2_bits_true, E, Z.bits_0 in H by done. done.
  - apply negb_false_iff, Z.eqb_eq. apply Z.bits_inj'. intros i Hi.
    rewrite Z.land_spec, Z.bits_0. destruct (decide (i = k)) as [->|].
    + by rewrite E, andb_false_r.
    + by rewrite Z.pow2_bits_false.
Qed.

Lemma pos_scan_step fuel k word bit pos : 0 <= k ->
  pos_scan (S fuel) (2 ^ k) word (Z.b2z bit) pos =
  if Bool.eqb (Z.testbit word k) bit then Ret pos
  else pos_scan fuel (Z.shiftr (2 ^ k) 1) word (Z.b2z bit) (i64 (pos + 1)).
Proof.
  intros Hk. cbn [pos_scan]. rewrite land_pow2 by done.
  destruct (Z.eqb_spec (2 ^ k) 0); [lia|]. by destruct (Z.testbit word k), bit.
Qed.

Lemma pos_scan_ok k word bit pos : 0 <= pos -> pos + Z.of_nat k + 1 < 2 ^ 63 ->
  pos_scan (S k) (2 ^ Z.of_nat k) word (Z.b2z bit) pos =
  match first_bit bit (be_bits (S k) word) with
  | Some i => Ret (pos + i)
  | None => Fault AssertFailed
  end.
Proof.
  revert pos. induction k as [|k IH]; intros pos H0 H1;
    rewrite pos_scan_step by lia; rewrite swrap_id by (unfold in_s; lia).
  - cbn. destruct (Bool.eqb _ _); [f_equal; lia|done].
  - rewrite Nat2Z.inj_succ, Z.pow_succ_r, Z.shiftr_div_pow2, (Z.mul_comm 2), Z.div_mul by lia.
    rewrite IH by lia. remember (be_bits (S k)) as g eqn:Eg.
    change (be_bits (S (S k)) word) with (Z.testbit word (Z.of_nat (S k)) :: be_bits (S k) word).
    rewrite <- Eg, Nat2Z.inj_succ. cbn [first_bit]. destruct (Bool.eqb _ _); [f_equal; lia|].
    destruct (first_bit bit (g word)); cbn [fmap option_fmap option_map]; [f_equal; lia|done].
Qed.

(** What BITPOS looks for. *)
Definition bitpos_spec (bit : bool) (bs : list Z) : Z :=
  match first_bit bit (bits_of bs) with
  | Some i => i
  | None => if bit then -1 else 8 * Z.of_nat (length bs)
  end.

(** The last word holds the first bit, or the end of the string. *)
Lemma first_bit_pad bit r : bytes_ok r ->
  ((8 <= length r)%nat -> first_bit bit (bits_of (take 8 r)) <> None) ->
  first_bit bit (bits_of (pad 8 r)) =
  match first_bit bit (bits_of r) with
  | Some i => Some i
  | None => if bit then None else Some (8 * Z.of_nat (length r))
  end.
Proof.
  intros Hr Hn. unfold pad. rewrite bits_of_app, first_bit_app.
  destruct (Nat.le_gt_cases 8 (length r)) as [H8|H8].
  - specialize (Hn H8). replace (bits_of r) with (bits_of (take 8 r ++ drop 8 r)) by (by rewrite take_drop).
    rewrite bits_of_app, first_bit_app.
    by destruct (first_bit bit (bits_of (take 8 r))).
  - rewrite take_ge by lia. destruct (first_bit bit (bits_of r)); [done|].
    destruct (8 - length r)%nat as [|k] eqn:E; [lia|]. destruct bit.
    + assert (Hz : first_bit true (bits_of (replicate (S k) 0)) = None); [|by rewrite Hz].
      apply first_bit_none; [apply Forall_replicate; unfold byte_ok; lia|by rewrite length_replicate].
    + change (first_bit false (bits_of (replicate (S k) 0))) with (Some 0).
      cbn [fmap option_fmap option_map]. rewrite length_bits_of. f_equal. lia.
Qed.

Lemma be_value_zero l : be_value l = 0 <-> first_bit true l = None.
Proof.
  induction l as [|x l IH]; [done|]. cbn [be_value first_bit]. pose proof (be_value_range l).
  destruct x; cbn [Z.b2z Bool.eqb].
  - split; [lia|done].
  - rewrite fmap_None, <- IH. lia.
Qed.

(** redisBitpos, which skips bytes to an eight-byte boundary, then whole
    words, then finds the bit in one word, returns the position of the first
    bit with the given value, or -1 when there is no bit set, or the number
    of bits when there is no clear one.  It reads nothing outside the
    string. *)
Theorem redisBitpos_first addr pre bs post bit :
  bytes_ok bs -> 8 * Z.of_nat (length bs) + 64 < 2 ^ 63 ->
  redisBitpos addr (pre ++ bs ++ post) (Z.of_nat (length pre)) (Z.of_nat (length bs)) (Z.b2z bit) =
  Ret (bitpos_spec bit bs).
Proof.
  intros Hb Hl. unfold redisBitpos.
  replace (if Z.b2z bit =? 0 then 255 else 0) with (skip_byte bit) by (by destruct bit).
  replace (if Z.b2z bit =? 0 then ULONG_MAX else 0) with (if bit then 0 else ULONG_MAX) by (by destruct bit).
  destruct (pos_prefix_ok addr bit (S (length (pre ++ bs ++ post))) pre bs post 0 _ _ eq_refl eq_refl)
    as (a & r & -> & Ha & ->); [rewrite !length_app; lia|lia|lia|].
  cbn [mbind res_bind]. rewrite length_app in Hl. apply bytes_ok_app in Hb as [Hba Hr].
  rewrite <- (app_assoc a r post), (app_assoc pre a).
  destruct (pos_words_ok bit (S (length ((pre ++ a) ++ r ++ post))) (pre ++ a) r post (0 + 8 * Z.of_nat (length a))
    (Z.of_nat (length pre) + Z.of_nat (length a)) _ ltac:(rewrite length_app; lia) eq_refl Hr)
    as (b & c & -> & Hnb & Hc & ->); [rewrite !length_app; lia|lia|lia|].
  cbn [mbind res_bind]. rewrite length_app in Hl. apply bytes_ok_app in Hr as [Hbb Hbc].
  rewrite <- (app_assoc b c post), (app_assoc _ b).
  rewrite pos_load_ok; [|rewrite !length_app; lia|done|done|lia|lia].
  cbn [mbind res_bind]. rewrite Z.mul_0_l, Z.add_0_l.
  apply first_bit_none in Ha; [|done].
  assert (Hpad := first_bit_pad bit c Hbc Hc).
  unfold bitpos_spec. rewrite !bits_of_app, !first_bit_app, Ha, Hnb, !length_bits_of.
  replace (Z.b2z bit =? 1) with bit by (by destruct bit).
  destruct (bit && (be_value (bits_of (pad 8 c)) =? 0)) eqn:Hz.
  - apply andb_true_iff in Hz as [-> Hz%Z.eqb_eq]. apply be_value_zero in Hz.
    rewrite Hz in Hpad. by destruct (first_bit true (bits_of c)).
  - change (u64 (Z.lnot (Z.shiftr ULONG_MAX 1))) with (2 ^ Z.of_nat 63).
    rewrite (pos_scan_ok 63) by lia.
    assert (H64 : be_bits 64 (be_value (bits_of (pad 8 c))) = bits_of (pad 8 c)).
    { rewrite <- be_bits_value. f_equal. rewrite length_bits_of, (proj2 (bytes_ok_pad 8 c Hbc)). done. }
    rewrite H64, Hpad. rewrite !length_app.
    destruct (first_bit bit (bits_of c)); cbn [fmap option_fmap option_map]; [f_equal; lia|].
    destruct bit; [|f_equal; lia]. cbn [andb] in Hz. apply Z.eqb_neq in Hz.
    contradict Hz. by apply be_value_zero.
Qed.

(** ** Bit fields *)

(** Bit [o] of a string is in byte [o / 8]. *)
Lemma bit_position o (p : list Z) : (o < 8 * length p)%nat ->
  exists q r x, o = (8 * q + r)%nat /\ (r < 8)%nat /\ p !! q = Some x /\
    Z.shiftr (Z.of_nat o) 3 = Z.of_nat q /\ 7 - Z.land (Z.of_nat o) 7 = Z.of_nat (7 - r).
Proof.
  intros Ho. pose proof (Nat.div_mod o 8 ltac:(lia)). pose proof (Nat.mod_upper_bound o 8 ltac:(lia)).
  assert (Hq : (o / 8 < length p)%nat) by lia.
  destruct (lookup_lt_is_Some_2 p _ Hq) as [x Hx].
  exists (o / 8)%nat, (o mod 8)%nat, x. split_and!; [lia|lia|done| |].
  - rewrite Z.shiftr_div_pow2 by lia. change (2 ^ 3) with (Z.of_nat 8). by rewrite <- Nat2Z.inj_div.
  - change 7 with (2 ^ 3 - 1) at 2. rewrite land_mask by lia. change (2 ^ 3) with (Z.of_nat 8).
    rewrite <- Nat2Z.inj_mod. lia.
Qed.

Lemma lookup_bits_of p q r x : p !! q = Some x -> (r < 8)%nat ->
  bits_of p !! (8 * q + r)%nat = Some (Z.testbit x (Z.of_nat (7 - r))).
Proof.
  revert q. induction p as [|y p IH]; intros q Hq Hr; [done|]. rewrite bits_of_cons.
  destruct q as [|q].
  - injection Hq as ->. rewrite lookup_app_l by (rewrite length_be_bits; lia).
    do 8 (destruct r as [|r]; [done|]). lia.
  - rewrite lookup_app_r, length_be_bits by (rewrite length_be_bits; lia).
    rewrite <- (IH q) by done. f_equal. lia.
Qed.

Definition setbit_check (x : Z) (r : nat) (b : bool) : bool :=
  bool_decide (be_bits 8 (setbit_byte x (Z.of_nat (7 - r)) (Z.b2z b)) = <[r := b]> (be_bits 8 x)).

Lemma setbit_byte_ok x r b : byte_ok x -> (r < 8)%nat ->
  byte_ok (setbit_byte x (Z.of_nat (7 - r)) (Z.b2z b)) /\
  be_bits 8 (setbit_byte x (Z.of_nat (7 - r)) (Z.b2z b)) = <[r := b]> (be_bits 8 x).
Proof.
  intros Hx Hr. split.
  { unfold setbit_byte. change 255 with (2 ^ 8 - 1). rewrite land_mask by lia. apply Z.mod_pos_bound. lia. }
  pose proof (bit_byte_cases (fun x => forallb (fun r => forallb (setbit_check x r) [true; false])
    (seq 0 8)) ltac:(vm_compute; reflexivity) x Hx) as H. cbv beta in H.
  rewrite forallb_forall in H. specialize (H r ltac:(apply in_seq; lia)).
  rewrite forallb_forall in H. specialize (H b ltac:(destruct b; simpl; tauto)).
  by apply bool_decide_eq_true in H.
Qed.

Lemma bits_of_insert p q r x y b : p !! q = Some x -> (r < 8)%nat ->
  be_bits 8 y = <[r := b]> (be_bits 8 x) ->
  bits_of (<[q := y]> p) = <[(8 * q + r)%nat := b]> (bits_of p).
Proof.
  revert q. induction p as [|z p IH]; intros q Hq Hr Hy; [done|]. destruct q as [|q].
  - injection Hq as ->. change (<[0%nat := y]> (x :: p)) with (y :: p). rewrite !bits_of_cons, Hy.
    rewrite insert_app_l by (rewrite length_be_bits; lia). done.
  - change (<[S q := y]> (z :: p)) with (z :: <[q := y]> p). rewrite !bits_of_cons.
    rewrite insert_app_r_alt by (rewrite length_be_bits; lia). f_equal. rewrite length_be_bits.
    rewrite (IH q) by done. f_equal. lia.
Qed.

Lemma rd_lookup (m : list Z) q x : m !! q = Some x -> rd m (Z.of_nat q) = Ret x.
Proof. intros H. unfold rd. destruct (Z.ltb_spec (Z.of_nat q) 0); [lia|]. by rewrite Nat2Z.id, H. Qed.

Lemma wr_lookup (m : list Z) q y : (q < length m)%nat -> wr m (Z.of_nat q) y = Ret (<[q := y]> m).
Proof.
  intros H. unfold wr. destruct (Z.ltb_spec (Z.of_nat q) 0); [lia|].
  destruct (Z.leb_spec (Z.of_nat (length m)) (Z.of_nat q)); [lia|]. cbn [orb]. by rewrite Nat2Z.id.
Qed.

Lemma set_bits_loop_ok n p o v : bytes_ok p -> (o + n <= 8 * length p)%nat ->
  Z.of_nat (o + n) < 2 ^ 64 ->
  exists p', set_bits_loop n p (Z.of_nat o) v = Ret p' /\ length p' = length p /\ bytes_ok p' /\
    bits_of p' = list_inserts o (be_bits n v) (bits_of p).
Proof.
  revert p o. induction n as [|n IH]; intros p o Hp Ho Hw; [by exists p|]. cbn [set_bits_loop].
  destruct (bit_position o p) as (q & r & x & -> & Hr & Hx & -> & ->); [lia|].
  rewrite Z.shiftl_1_l, Z.land_comm, land_pow2 by lia.
  rewrite (rd_lookup _ _ _ Hx). cbn [mbind res_bind].
  assert (Hbx : byte_ok x) by (eapply Forall_lookup_1; done).
  destruct (setbit_byte_ok x r (Z.testbit v (Z.of_nat n)) Hbx Hr) as [Hy Hbits].
  rewrite wr_lookup by (by eapply lookup_lt_Some). cbn [mbind res_bind].
  set (p1 := <[q := _]> p). rewrite uwrap_id by (unfold in_u; lia).
  replace (Z.of_nat (8 * q + r) + 1) with (Z.of_nat (S (8 * q + r))) by lia.
  assert (Hl1 : length p1 = length p) by apply length_insert.
  destruct (IH p1 (S (8 * q + r))) as (p' & -> & Hl & Hp' & Hb); [by apply Forall_insert|lia|lia|].
  exists p'. split; [done|]. split; [congruence|]. split; [done|]. rewrite Hb. cbn [be_bits list_inserts].
  subst p1. rewrite (bits_of_insert p q r x _ (Z.testbit v (Z.of_nat n))) by done.
  symmetry. apply list_insert_inserts_lt. lia.
Qed.

Lemma get_bits_loop_ok n p o value : (o + n <= 8 * length p)%nat -> Z.of_nat (o + n) < 2 ^ 64 ->
  0 <= value -> (value + 1) * 2 ^ Z.of_nat n <= 2 ^ 64 ->
  get_bits_loop n p (Z.of_nat o) value =
  Ret (value * 2 ^ Z.of_nat n + be_value (take n (drop o (bits_of p)))).
Proof.
  revert o value. induction n as [|n IH]; intros o value Ho Hw H0 H1.
  { change (be_value (take 0 _)) with 0. change (2 ^ Z.of_nat 0) with 1. cbn [get_bits_loop]. f_equal. lia. }
  cbn [get_bits_loop]. rewrite Nat2Z.inj_succ, Z.pow_succ_r in * by lia.
  destruct (bit_position o p) as (q & r & x & -> & Hr & Hx & -> & ->); [lia|].
  rewrite (rd_lookup _ _ _ Hx). cbn [mbind res_bind].
  pose proof (lookup_bits_of p q r x Hx Hr) as Hb. set (b := Z.testbit x _) in Hb.
  rewrite (drop_S _ _ _ Hb). cbn [take be_value].
  assert (Hland : forall v, Z.land v 1 = v mod 2) by (intros v; apply (land_mask v 1); lia).
  rewrite Hland, Z.shiftr_div_pow2, <- Z.testbit_spec' by lia. fold b.
  rewrite Z.shiftl_mul_pow2 by lia. assert (0 < 2 ^ Z.of_nat n) by lia.
  rewrite (uwrap_id 64 (value * 2 ^ 1)) by (unfold in_u; nia).
  rewrite (lor_add 1) by (destruct b; simpl; lia). rewrite (uwrap_id 64) by (unfold in_u; lia).
  replace (Z.of_nat (8 * q + r) + 1) with (Z.of_nat (S (8 * q + r))) by lia.
  rewrite IH; [|lia|lia|destruct b; cbn [Z.b2z]; lia|destruct b; cbn [Z.b2z]; nia].
  f_equal. rewrite length_take, length_drop, length_bits_of, Nat.min_l by lia. lia.
Qed.

Lemma inserts_here {A} (l L : list A) o : (o + length l <= length L)%nat ->
  take (length l) (drop o (list_inserts o l L)) = l.
Proof.
  intros H. apply list_eq. intros i. destruct (Nat.lt_ge_cases i (length l)).
  - rewrite lookup_take_lt, lookup_drop, list_lookup_inserts by lia. f_equal. lia.
  - rewrite !lookup_ge_None_2; [done|lia|rewrite length_take; lia].
Qed.

(** Bits of a string from the outside of a field. *)
Lemma inserts_elsewhere {A} (l L : list A) o i : ~ (o <= i < o + length l)%nat ->
  list_inserts o l L !! i = L !! i.
Proof.
  intros H. destruct (Nat.lt_ge_cases i o).
  - by apply list_lookup_inserts_lt.
  - apply list_lookup_inserts_ge. lia.
Qed.

Lemma shl64_one n : 0 <= n < 64 -> shl64 1 n = Ret (2 ^ n).
Proof.
  intros H. unfold shl64. destruct (Z.leb_spec 0 n), (Z.ltb_spec n 64); try lia. cbn [andb].
  rewrite Z.shiftl_1_l, uwrap_id; [done|]. unfold in_u. split; [lia|]. apply Z.pow_lt_mono_r; lia.
Qed.

(** The mask of the sign extension. *)
Lemma shl64_ones n : 1 <= n < 64 -> shl64 ULONG_MAX n = Ret ((2 ^ (64 - n) - 1) * 2 ^ n).
Proof.
  intros H. unfold shl64. destruct (Z.leb_spec 0 n), (Z.ltb_spec n 64); try lia.
  cbn [andb]. f_equal. unfold uwrap.
  rewrite Z.shiftl_mul_pow2 by lia. symmetry.
  assert (2 ^ 64 = 2 ^ (64 - n) * 2 ^ n) by (rewrite <- Z.pow_add_r by lia; f_equal; lia).
  assert (0 < 2 ^ (64 - n)) by lia. assert (0 < 2 ^ n) by lia.
  apply Z.mod_unique_pos with (2 ^ n - 1); [nia|].
  change ULONG_MAX with (2 ^ 64 - 1). nia.
Qed.

Lemma testbit_top u k : 0 <= k -> 0 <= u < 2 * 2 ^ k -> Z.testbit u k = (2 ^ k <=? u).
Proof.
  intros Hk Hu. apply eq_true_iff_eq. rewrite Z.testbit_true, Z.leb_le by done. split.
  - intros H. destruct (Z.lt_ge_cases u (2 ^ k)); [|done].
    rewrite Z.div_small in H by lia. done.
  - intros H. rewrite <- (Z.div_unique_pos u (2 ^ k) 1 (u - 2 ^ k)); [done|lia|lia].
Qed.

Section Bitfields.
Context (p : list Z) (o bits : nat).
Hypothesis Hp : bytes_ok p.
Hypothesis Hfit : (o + bits <= 8 * length p)%nat.
Hypothesis Hoff : Z.of_nat (o + bits) < 2 ^ 64.
Hypothesis Hbits : (1 <= bits <= 64)%nat.

Definition field : list bool := take bits (drop o (bits_of p)).

Lemma length_field : length field = bits.
Proof. unfold field. rewrite length_take, length_drop, length_bits_of. lia. Qed.

Lemma setUnsigned_ok v :
  exists p', setUnsignedBitfield p (Z.of_nat o) (Z.of_nat bits) v = Ret p' /\
    length p' = length p /\ bytes_ok p' /\
    bits_of p' = list_inserts o (be_bits bits v) (bits_of p).
Proof.
  unfold setUnsignedBitfield. destruct (Z.ltb_spec 64 (Z.of_nat bits)); [lia|].
  rewrite Nat2Z.id. by apply set_bits_loop_ok.
Qed.

Lemma getUnsigned_ok :
  getUnsignedBitfield p (Z.of_nat o) (Z.of_nat bits) = Ret (be_value field).
Proof.
  unfold getUnsignedBitfield. rewrite Nat2Z.id, get_bits_loop_ok; [f_equal; lia|done|done|lia|].
  assert (2 ^ Z.of_nat bits <= 2 ^ 64) by (apply Z.pow_le_mono_r; lia). lia.
Qed.

Lemma getSigned_ok :
  getSignedBitfield p (Z.of_nat o) (Z.of_nat bits) =
  if decide (bits = 64%nat /\ 2 ^ 63 <= be_value field) then Fault Undefined
  else Ret (swrap (Z.of_nat bits) (be_value field)).
Proof.
  unfold getSignedBitfield. rewrite getUnsigned_ok. cbn [mbind res_bind].
  pose proof (be_value_range field) as Hr. rewrite length_field in Hr. set (u := be_value field) in *.
  set (B := Z.of_nat bits) in *. assert (HB : 1 <= B <= 64) by lia.
  assert (HBB : 2 ^ B = 2 * 2 ^ (B - 1)) by (apply pow2_pred; lia).
  assert (H64 : 2 ^ B <= 2 ^ 64) by (apply Z.pow_le_mono_r; lia).
  rewrite uwrap_swrap, uwrap_id by (unfold in_u; lia).
  rewrite shl64_one by lia. cbn [mbind res_bind]. rewrite Z.land_comm, land_pow2 by lia.
  rewrite testbit_top by lia. destruct (Z.leb_spec (2 ^ (B - 1)) u) as [Hge|Hlt].
  - destruct (decide (bits = 64%nat /\ 2 ^ 63 <= u)) as [[-> Hu]|Hn]; [done|].
    assert (Hb : (bits < 64)%nat).
    { destruct (decide (bits = 64%nat)) as [E|]; [|lia]. exfalso. apply Hn.
      subst B. rewrite E in Hge. split; [done|exact Hge]. }
    subst B. rewrite shl64_ones by lia. set (B := Z.of_nat bits) in *. cbn [mbind res_bind].
    rewrite Z.lor_comm, lor_add by lia. f_equal.
    assert (Hp2 : 2 ^ 64 = 2 ^ (64 - B) * 2 ^ B) by (rewrite <- Z.pow_add_r by lia; f_equal; lia).
    assert (2 ^ B <= 2 ^ 63) by (apply Z.pow_le_mono_r; lia).
    unfold swrap. rewrite (Z.mod_small u) by lia. destruct (Z.ltb_spec u (2 ^ (B - 1))); [lia|].
    rewrite Z.mod_small by nia.
    destruct (Z.ltb_spec ((2 ^ (64 - B) - 1) * 2 ^ B + u) (2 ^ (64 - 1))); [exfalso|]; lia.
  - destruct (decide (bits = 64%nat /\ 2 ^ 63 <= u)) as [[E Hu]|Hn].
    { exfalso. subst B. rewrite E in Hlt. change (2 ^ (Z.of_nat 64 - 1)) with (2 ^ 63) in Hlt. lia. }
    f_equal. assert (2 ^ (B - 1) <= 2 ^ 63) by (apply Z.pow_le_mono_r; lia).
    rewrite !swrap_id by (unfold in_s; lia). done.
Qed.
End Bitfields.

(** C36: BITFIELD SET and GET of any width: the field reads back the value
    modulo its width, as an unsigned or (below 64 bits) as a signed
    number, no other bit of the string changes. *)
Theorem bitfield_roundtrip p o bits v :
  bytes_ok p -> (o + bits <= 8 * length p)%nat -> Z.of_nat (o + bits) < 2 ^ 64 ->
  (1 <= bits <= 64)%nat ->
  exists p', setUnsignedBitfield p (Z.of_nat o) (Z.of_nat bits) (u64 v) = Ret p' /\
    setSignedBitfield p (Z.of_nat o) (Z.of_nat bits) v = Ret p' /\
    length p' = length p /\ bytes_ok p' /\
    (forall i, ~ (o <= i < o + bits)%nat -> bits_of p' !! i = bits_of p !! i) /\
    getUnsignedBitfield p' (Z.of_nat o) (Z.of_nat bits) = Ret (uwrap (Z.of_nat bits) v) /\
    ((bits < 64)%nat -> getSignedBitfield p' (Z.of_nat o) (Z.of_nat bits) = Ret (swrap (Z.of_nat bits) v)).
Proof.
  intros Hp Hf Ho Hb.
  destruct (setUnsigned_ok p o bits Hp Hf Ho Hb (u64 v)) as (p' & Hs & Hl & Hp' & Hbits).
  rewrite be_bits_uwrap in Hbits by lia.
  assert (Hfield : field p' o bits = be_bits bits v).
  { unfold field. rewrite Hbits, <- (length_be_bits bits v) at 1. apply inserts_here.
    rewrite length_be_bits, length_bits_of. lia. }
  exists p'. split; [done|]. split; [done|]. split; [done|]. split; [done|]. split; [|split].
  - intros i Hi. rewrite Hbits. apply inserts_elsewhere. by rewrite length_be_bits.
  - rewrite getUnsigned_ok by (rewrite ?Hl; done). by rewrite Hfield, be_value_bits.
  - intros H64. rewrite getSigned_ok by (rewrite ?Hl; done). rewrite Hfield, be_value_bits.
    destruct (decide _); [lia|]. by rewrite swrap_uwrap by lia.
Qed.

(** A 64 bit signed field with a negative value: the sign extension
    shifts by 64, which C leaves undefined. *)
Lemma getSigned_64_undefined p o v :
  bytes_ok p -> (o + 64 <= 8 * length p)%nat -> Z.of_nat (o + 64) < 2 ^ 64 -> in_s 64 v -> v < 0 ->
  exists p', setSignedBitfield p (Z.of_nat o) 64 v = Ret p' /\
    getSignedBitfield p' (Z.of_nat o) 64 = Fault Undefined.
Proof.
  intros Hp Hf Ho Hv Hneg.
  destruct (setUnsigned_ok p o 64 Hp Hf Ho ltac:(lia) (u64 v)) as (p' & Hs & Hl & Hp' & Hbits).
  exists p'. split; [done|]. change 64 with (Z.of_nat 64).
  rewrite getSigned_ok by (rewrite ?Hl; done || lia).
  assert (Hfield : field p' o 64 = be_bits 64 (u64 v)).
  { unfold field. rewrite Hbits, <- (length_be_bits 64 (u64 v)) at 1. apply inserts_here.
    rewrite length_be_bits, length_bits_of. lia. }
  rewrite Hfield, be_value_bits. change (Z.of_nat 64) with 64.
  rewrite (uwrap_id 64 (u64 v)) by (by apply uwrap_range).
  rewrite decide_True; [done|]. split; [done|]. unfold uwrap, in_s in *.
  rewrite <- (Z.mod_unique_pos v (2 ^ 64) (-1) (v + 2 ^ 64)); lia.
Qed.

(** ** Overflow checks *)

(** What an overflow past the end [limit] of the range stores; [w] is the
    wrapped value, [past] the code of the direction. *)
Definition overflow_result (owtype : bfoverflow) (past limit : Z) (w : res Z) : res (Z * option Z) :=
  match owtype with
  | BFOVERFLOW_WRAP => w ← w; Ret (1, Some w)
  | BFOVERFLOW_SAT => Ret (past, Some limit)
  | BFOVERFLOW_FAIL => Ret (past, None)
  end.

(** The exact sum against the range [lo .. hi]. *)
Definition overflow_spec (lo hi sum : Z) (owtype : bfoverflow) (w : res Z) : res (Z * option Z) :=
  if hi <? sum then overflow_result owtype 1 hi w
  else if sum <? lo then overflow_result owtype (-1) lo w
  else Ret (0, None).

(** The complement of that mask keeps the [n] low bits. *)
Lemma low_mask n v : 1 <= n < 64 -> in_u 64 v ->
  Z.land v (u64 (Z.lnot ((2 ^ (64 - n) - 1) * 2 ^ n))) = uwrap n v.
Proof.
  intros Hn Hv. assert (2 ^ 64 = 2 ^ (64 - n) * 2 ^ n) by (rewrite <- Z.pow_add_r by lia; f_equal; lia).
  replace (u64 _) with (2 ^ n - 1); [apply land_mask; lia|].
  unfold uwrap. assert (0 < 2 ^ n) by lia. assert (2 ^ n < 2 ^ 64) by (apply Z.pow_lt_mono_r; lia).
  apply Z.mod_unique_pos with (-1); [lia|]. unfold Z.lnot. lia.
Qed.

Lemma uwrap_u64 n v : 0 <= n <= 64 -> uwrap n (u64 v) = uwrap n v.
Proof.
  intros Hn. unfold uwrap. apply Z.mod_mod_divide.
  exists (2 ^ (64 - n)). rewrite <- Z.pow_add_r by lia. f_equal. lia.
Qed.

Lemma swrap_u64 n v : 0 < n <= 64 -> swrap n (u64 v) = swrap n v.
Proof. intros Hn. rewrite <- (swrap_uwrap n), uwrap_u64, swrap_uwrap by lia. done. Qed.

Lemma unsigned_overflow_ok value incr bits owtype :
  1 <= bits <= 63 -> in_u 64 value -> in_s 64 incr -> (value < 2 ^ bits \/ incr = 0) ->
  checkUnsignedBitfieldOverflow value incr bits owtype true =
  overflow_spec 0 (2 ^ bits - 1) (value + incr) owtype (Ret (uwrap bits (value + incr))).
Proof.
  intros Hb Hv Hi Hor. unfold checkUnsignedBitfieldOverflow.
  destruct (Z.eqb_spec bits 64); [lia|]. rewrite shl64_one by lia. cbn [mbind res_bind].
  assert (Hp : 2 ^ bits <= 2 ^ 63) by (apply Z.pow_le_mono_r; lia).
  assert (0 < 2 ^ bits) by lia. unfold in_u, in_s in *.
  rewrite (uwrap_id 64 (2 ^ bits - 1)) by (unfold in_u; lia).
  rewrite shl64_ones by lia. cbn [mbind res_bind].
  rewrite low_mask by (try lia; apply uwrap_range; lia).
  rewrite uwrap_u64 by lia.
  unfold overflow_spec, overflow_result. destruct (Z.ltb_spec (2 ^ bits - 1) value).
  - cbn [orb]. destruct (Z.ltb_spec (2 ^ bits - 1) (value + incr)); [|lia]. by destruct owtype.
  - rewrite !swrap_id by (unfold in_s; lia). cbn [orb].
    destruct (Z.ltb_spec (2 ^ bits - 1) (value + incr)).
    + destruct (Z.ltb_spec 0 incr); [|lia]. destruct (Z.ltb_spec (2 ^ bits - 1 - value) incr); [|lia].
      by destruct owtype.
    + destruct ((0 <? incr) && (2 ^ bits - 1 - value <? incr)) eqn:E; [lia|].
      destruct (Z.ltb_spec (value + incr) 0).
      * destruct (Z.ltb_spec incr 0); [|lia]. destruct (Z.ltb_spec incr (- value)); [|lia].
        by destruct owtype.
      * destruct ((incr <? 0) && (incr <? - value)) eqn:E2; [lia|done].
Qed.

(** The wrapped signed value: the sign bit copied, or the high bits
    cleared. *)
Lemma signed_wrap bits c : 1 <= bits < 64 -> in_u 64 c ->
  i64 (if Z.testbit c (bits - 1) then Z.lor c ((2 ^ (64 - bits) - 1) * 2 ^ bits) else uwrap bits c)
  = swrap bits c.
Proof.
  intros Hb Hc. unfold in_u in Hc.
  assert (Hp2 : 2 ^ 64 = 2 ^ (64 - bits) * 2 ^ bits) by (rewrite <- Z.pow_add_r by lia; f_equal; lia).
  assert (Hpp : 2 ^ bits = 2 * 2 ^ (bits - 1)) by (apply pow2_pred; lia).
  assert (2 ^ bits <= 2 ^ 63) by (apply Z.pow_le_mono_r; lia).
  assert (0 < 2 ^ (bits - 1)) by lia.
  set (l := uwrap bits c). assert (Hl : in_u bits l) by (apply uwrap_range; lia). unfold in_u in Hl.
  assert (Ht : Z.testbit c (bits - 1) = (2 ^ (bits - 1) <=? l)).
  { rewrite <- testbit_top by lia. subst l. unfold uwrap. rewrite Z.mod_pow2_bits_low by lia. done. }
  rewrite Ht. unfold swrap at 2. fold (uwrap bits c). fold l.
  destruct (Z.leb_spec (2 ^ (bits - 1)) l); destruct (Z.ltb_spec l (2 ^ (bits - 1))); try lia.
  - replace (Z.lor c _) with ((2 ^ (64 - bits) - 1) * 2 ^ bits + l).
    + unfold swrap. rewrite Z.mod_small by nia.
      destruct (Z.ltb_spec ((2 ^ (64 - bits) - 1) * 2 ^ bits + l) (2 ^ (64 - 1))); [exfalso|]; lia.
    + rewrite <- lor_add by lia. subst l. apply Z.bits_inj'. intros i Hi. unfold uwrap.
      rewrite !Z.lor_spec. destruct (Z.lt_ge_cases i bits).
      * rewrite Z.mul_pow2_bits_low, Z.mod_pow2_bits_low by lia. btauto.
      * rewrite Z.mul_pow2_bits, Z.mod_pow2_bits_high by lia.
        destruct (Z.lt_ge_cases i 64).
        -- rewrite testbit_ones_low by lia. destruct (Z.ltb_spec (i - bits) (64 - bits)); [btauto|lia].
        -- rewrite <- (Z.mod_small c (2 ^ 64)), Z.mod_pow2_bits_high by lia. btauto.
  - apply swrap_id; [lia|]. unfold in_s. change (64 - 1) with 63. lia.
Qed.

Lemma wrapped_sum bits value incr : 1 <= bits < 64 ->
  let c := u64 (u64 value + u64 incr) in
  let mask := (2 ^ (64 - bits) - 1) * 2 ^ bits in
  i64 (if negb (Z.land c (2 ^ (bits - 1)) =? 0) then Z.lor c mask else Z.land c (u64 (Z.lnot mask)))
  = swrap bits (value + incr).
Proof.
  intros Hb c mask. assert (Hc : in_u 64 c) by (apply uwrap_range; lia).
  unfold mask. rewrite low_mask, Z.land_comm, land_pow2, signed_wrap by (done || lia).
  subst c. rewrite swrap_u64 by lia.
  rewrite <- (swrap_u64 bits (u64 value + u64 incr)), <- (swrap_u64 bits (value + incr)) by lia.
  f_equal. unfold uwrap. symmetry. apply Zplus_mod.
Qed.

Lemma signed_overflow_ok value incr bits owtype :
  1 <= bits <= 64 -> - 2 ^ (bits - 1) <= value < 2 ^ (bits - 1) -> in_s 64 incr ->
  checkSignedBitfieldOverflow value incr bits owtype true =
  overflow_spec (- 2 ^ (bits - 1)) (2 ^ (bits - 1) - 1) (value + incr) owtype
    (if bits =? 64 then Fault Undefined else Ret (swrap bits (value + incr))).
Proof.
  intros Hb Hv Hi. unfold checkSignedBitfieldOverflow, in_s in *.
  assert (Hp : 2 ^ (bits - 1) <= 2 ^ 63) by (apply Z.pow_le_mono_r; lia).
  assert (0 < 2 ^ (bits - 1)) by lia. unfold overflow_spec, overflow_result.
  destruct (Z.eqb_spec bits 64) as [->|Hne]; cbn [mbind res_bind negb andb orb].
  - change (2 ^ (64 - 1)) with (LLONG_MAX + 1) in *. set (M := LLONG_MAX) in *.
    assert (HM : M = 2 ^ 63 - 1) by reflexivity. clearbody M.
    replace (- M - 1) with (- (M + 1)) by lia. replace (M + 1 - 1) with M by lia.
    destruct (Z.ltb_spec M value); [lia|]. destruct (Z.ltb_spec value (- (M + 1))); [lia|]. cbn [orb].
    destruct (Z.ltb_spec M (value + incr)).
    + rewrite (swrap_id 64 (M - value)) by (unfold in_s; lia).
      replace ((0 <=? value) && (0 <? incr) && (M - value <? incr)) with true by lia.
      by destruct owtype.
    + replace ((0 <=? value) && (0 <? incr) && (i64 (M - value) <? incr)) with false.
      2: { destruct (Z.leb_spec 0 value); [|done]. rewrite swrap_id by (unfold in_s; lia). lia. }
      destruct (Z.ltb_spec (value + incr) (- (M + 1))).
      * rewrite (swrap_id 64 (- (M + 1) - value)) by (unfold in_s; lia).
        replace ((value <? 0) && (incr <? 0) && (- (M + 1) - value <? incr)) with false by lia.
        replace ((value <? 0) && (incr <? 0) && (incr <? - (M + 1) - value)) with true by lia.
        by destruct owtype.
      * replace ((value <? 0) && (incr <? 0) && (incr <? i64 (- (M + 1) - value))) with false; [done|].
        destruct (Z.ltb_spec value 0); [|done]. rewrite swrap_id by (unfold in_s; lia). lia.
  - rewrite !shl64_one, shl64_ones by lia. cbn [mbind res_bind].
    assert (2 ^ (bits - 1) <= 2 ^ 62) by (apply Z.pow_le_mono_r; lia).
    rewrite (swrap_id 64 (2 ^ (bits - 1) - 1)) by (unfold in_s; lia).
    rewrite wrapped_sum by lia. set (P := 2 ^ (bits - 1)) in *. replace (- (P - 1) - 1) with (- P) by lia.
    rewrite (swrap_id 64 (P - 1 - value)), (swrap_id 64 (- P - value)) by (unfold in_s; lia).
    destruct (Z.ltb_spec (P - 1) value); [lia|]. destruct (Z.ltb_spec value (- P)); [lia|]. cbn [orb].
    destruct (Z.ltb_spec (P - 1) (value + incr)).
    + destruct (Z.ltb_spec (P - 1 - value) incr); [|lia]. by destruct owtype.
    + destruct (Z.ltb_spec (P - 1 - value) incr); [lia|]. rewrite ?andb_false_r. cbn [orb andb negb]. rewrite ?andb_false_r. cbn [orb].
      destruct (Z.ltb_spec (value + incr) (- P)).
      * destruct (Z.ltb_spec incr (- P - value)); [|lia]. by destruct owtype.
      * destruct (Z.ltb_spec incr (- P - value)); [lia|]. by rewrite ?andb_false_r.
Qed.

(** The check and the value stored as one expression, for a field of any
    width and a value that the field can hold. *)
Lemma overflow_checks value incr bits owtype : in_s 64 incr ->
  (1 <= bits <= 63 -> 0 <= value < 2 ^ bits ->
    checkUnsignedBitfieldOverflow value incr bits owtype true =
    overflow_spec 0 (2 ^ bits - 1) (value + incr) owtype (Ret (uwrap bits (value + incr)))) /\
  (1 <= bits <= 64 -> - 2 ^ (bits - 1) <= value < 2 ^ (bits - 1) ->
    checkSignedBitfieldOverflow value incr bits owtype true =
    overflow_spec (- 2 ^ (bits - 1)) (2 ^ (bits - 1) - 1) (value + incr) owtype
      (if bits =? 64 then Fault Undefined else Ret (swrap bits (value + incr)))).
Proof.
  intros Hi. split; intros Hb Hv; [|by apply signed_overflow_ok].
  assert (2 ^ bits <= 2 ^ 63) by (apply Z.pow_le_mono_r; lia).
  apply unsigned_overflow_ok; [done|unfold in_u; lia|done|lia].
Qed.

(** A signed field of 64 bits that wraps shifts a 64 bit value by 64, which is
    undefined. *)
Lemma i64_wrap_undefined value incr : in_s 64 value -> in_s 64 incr -> ~ in_s 64 (value + incr) ->
  checkSignedBitfieldOverflow value incr 64 BFOVERFLOW_WRAP true = Fault Undefined.
Proof.
  unfold in_s. intros Hv Hi Ho. rewrite signed_overflow_ok by (unfold in_s; lia).
  unfold overflow_spec. cbn [Z.eqb Pos.eqb]. unfold overflow_result. cbn [mbind res_bind].
  destruct (Z.ltb_spec (2 ^ (64 - 1) - 1) (value + incr)); [done|].
  destruct (Z.ltb_spec (value + incr) (- 2 ^ (64 - 1))); [done|]. lia.
Qed.

(** What a check promises of the result [r] and the value to store [l] when
    the field holds [lo .. hi] and its width wraps the sum to [w]: the result
    is 0 exactly when the sum is in the range, the value otherwise is the
    nearest bound, none or [w], and but for WRAP the sign of the result
    tells on which side the sum is. *)
Definition overflow_ok (lo hi sum w : Z) (owtype : bfoverflow) (r : Z) (l : option Z) : Prop :=
  (r = 0 <-> lo <= sum <= hi) /\
  (r <> 0 -> l = match owtype with
                 | BFOVERFLOW_WRAP => Some w
                 | BFOVERFLOW_SAT => Some (Z.max lo (Z.min hi sum))
                 | BFOVERFLOW_FAIL => None
                 end) /\
  (owtype <> BFOVERFLOW_WRAP -> (r = 1 <-> hi < sum) /\ (r = -1 <-> sum < lo)).

Lemma overflow_spec_ok lo hi sum w owtype o : lo <= hi ->
  (owtype = BFOVERFLOW_WRAP -> ~ lo <= sum <= hi -> o = Ret w) ->
  exists r l, overflow_spec lo hi sum owtype o = Ret (r, l) /\ overflow_ok lo hi sum w owtype r l.
Proof.
  intros Hr Ho. unfold overflow_spec, overflow_result, overflow_ok.
  destruct (Z.ltb_spec hi sum); [|destruct (Z.ltb_spec sum lo)]; destruct owtype;
    try rewrite Ho by (done || lia); cbn [mbind res_bind]; do 2 eexists; (split; [reflexivity|]);
    repeat split; try done; try lia; intros; f_equal; lia.
Qed.

(** C37: the overflow checks of BITFIELD INCRBY.  For an unsigned field of up
    to 63 bits or a signed one of up to 64 bits, a value that the field can
    hold and any 64 bit increment, the check returns 0 exactly when the sum is
    in the field's range; otherwise the value to store is the nearest bound
    under SAT, none under FAIL, and the sum modulo the width under WRAP, and
    under SAT and FAIL the result is 1 above the range and -1 below it.  A
    signed field of 64 bits whose sum is out of range is left out under WRAP
    ([i64_wrap_undefined]). *)
Theorem bitfield_overflow value incr bits owtype : in_s 64 incr ->
  (1 <= bits <= 63 -> 0 <= value < 2 ^ bits ->
    exists r l, checkUnsignedBitfieldOverflow value incr bits owtype true = Ret (r, l) /\
      overflow_ok 0 (2 ^ bits - 1) (value + incr) (uwrap bits (value + incr)) owtype r l) /\
  (1 <= bits <= 64 -> - 2 ^ (bits - 1) <= value < 2 ^ (bits - 1) ->
    bits < 64 \/ owtype <> BFOVERFLOW_WRAP \/ in_s 64 (value + incr) ->
    exists r l, checkSignedBitfieldOverflow value incr bits owtype true = Ret (r, l) /\
      overflow_ok (- 2 ^ (bits - 1)) (2 ^ (bits - 1) - 1) (value + incr) (swrap bits (value + incr)) owtype r l).
Proof.
  intros Hi. destruct (overflow_checks value incr bits owtype Hi) as [Hu Hs]. split.
  - intros Hb Hv. rewrite Hu by done. by apply overflow_spec_ok; [lia|].
  - intros Hb Hv Hw. rewrite Hs by done. apply overflow_spec_ok; [lia|]. intros -> Ho.
    destruct (Z.eqb_spec bits 64) as [->|]; [|done]. exfalso.
    destruct Hw as [Hw|[Hw|Hw]]; [lia|done|]. apply Ho. unfold in_s in Hw. change (64 - 1) with 63 in *. lia.
Qed.

(** ** Concrete inputs *)

Lemma redisPopcount_counts_witness : redisPopcount 3 ([1] ++ [255; 3; 0; 1; 7] ++ [9]) 1 5 = Ret 14.
Proof. apply (redisPopcount_counts 3 [1] [255; 3; 0; 1; 7] [9]); [repeat constructor; lia|cbn; lia]. Defined.

Lemma redisBitpos_first_witness : redisBitpos 3 ([1] ++ [0; 0; 16; 1; 7] ++ [9]) 1 5 1 = Ret 19.
Proof. apply (redisBitpos_first 3 [1] [0; 0; 16; 1; 7] [9] true); [repeat constructor; lia|cbn; lia]. Defined.

Lemma bitfield_roundtrip_witness : exists p', setSignedBitfield [0; 0] 4 6 (-5) = Ret p' /\
  getSignedBitfield p' 4 6 = Ret (-5).
Proof.
  destruct (bitfield_roundtrip [0; 0] 4 6 (-5)) as (p' & _ & H1 & _ & _ & _ & _ & H2);
    [repeat constructor; lia|cbn; lia|cbn; lia|lia|]. exists p'. split; [exact H1|]. exact (H2 ltac:(lia)).
Defined.

Lemma bitfield_overflow_witness :
  (exists l, checkUnsignedBitfieldOverflow 250 10 8 BFOVERFLOW_SAT true = Ret (1, l) /\ l = Some 255) /\
  (exists l, checkSignedBitfieldOverflow 120 10 8 BFOVERFLOW_WRAP true = Ret (1, l) /\ l = Some (-126)).
Proof.
  split.
  - destruct (bitfield_overflow 250 10 8 BFOVERFLOW_SAT) as [H1 _]; [unfold in_s; lia|].
    destruct H1 as (r & l & E & H0 & H & Hr); [lia|lia|]. vm_compute in E. injection E as <- <-.
    eexists. split; [reflexivity|]. apply H. done.
  - destruct (bitfield_overflow 120 10 8 BFOVERFLOW_WRAP) as [_ H2]; [unfold in_s; lia|].
    destruct H2 as (r & l & E & H0 & H & Hr); [lia|lia|lia|]. vm_compute in E. injection E as <- <-.
    eexists. split; [reflexivity|]. apply H. done.
Defined.

(** A value outside the field with no increment, and the wrong bound. *)
Lemma saturates_to_wrong_bound : checkSignedBitfieldOverflow LLONG_MIN 0 8 BFOVERFLOW_SAT true = Ret (1, Some 127).
Proof. reflexivity. Qed.
