(* ===== verification/Object.v ===== *)
(** * Object: the server state and the reference-counted objects (object.c)

    The state a command runs in: the heap of objects, the databases, the
    arguments of the client, and what the command produces (output,
    keyspace events, propagated commands).  Values are shared: a key of a
    database, an argument of the client and the table of small integers may
    all point to one object, so objects live in a heap at addresses and
    carry their reference count, as in the code.

    The contents of aggregate values (lists, sets, hashes, sorted sets) are
    opaque here; a string holds its bytes, the spare allocation of the sds
    is left out (it is not observable). *)

From stdpp Require Export gmap.
From S2P Require Import Prelude Util.
#[global] Open Scope Z_scope.

(** ** Data *)

Inductive otype : Type := OBJ_STRING | OBJ_LIST | OBJ_SET | OBJ_ZSET | OBJ_HASH.

Inductive oencoding : Type :=
  | OBJ_ENCODING_RAW | OBJ_ENCODING_INT | OBJ_ENCODING_HT | OBJ_ENCODING_ZIPMAP
  | OBJ_ENCODING_LINKEDLIST | OBJ_ENCODING_ZIPLIST | OBJ_ENCODING_INTSET
  | OBJ_ENCODING_SKIPLIST | OBJ_ENCODING_EMBSTR | OBJ_ENCODING_QUICKLIST.

#[export] Instance otype_eq_dec : EqDecision otype.
Proof. solve_decision. Defined.
#[export] Instance oencoding_eq_dec : EqDecision oencoding.
Proof. solve_decision. Defined.

(** What the pointer of an object holds: an sds string, a number stored in
    the pointer itself, or the structure of an aggregate. *)
Inductive optr : Type :=
  | PSds (s : list Z)
  | PLong (v : Z)
  | PAgg (id : Z).

(** The counter is an int in the source.  Here it is not bounded: an object
    would need 2^31 pointers to overflow it. *)
Record robj : Type := mk_robj {
  type : otype;
  encoding : oencoding;
  lru : Z;
  refcount : Z;
  ptr : optr
}.

Abbreviation key := (list Z).
Abbreviation addr := Z.

(** A database: the keyspace and the expire times of its volatile keys.
    The two hash tables are taken as the maps that the dict component
    implements. *)
Record redisDb : Type := mk_db {
  dict : gmap key addr;
  expires : gmap key Z
}.

(** The conditions under which processCommand refuses a command. *)
Record gates : Type := mk_gates {
  noauth : bool;                   (* server.requirepass && !c->authenticated *)
  write_error : option (list Z);   (* the error sent while the disk cannot be written *)
  few_slaves : bool;               (* repl_good_slaves_count < repl_min_slaves_to_write,
                                      and the option is on *)
  slave_ro : bool;                 (* server.repl_slave_ro *)
  master_client : bool;            (* c->flags & CLIENT_MASTER *)
  pubsub_client : bool;            (* c->flags & CLIENT_PUBSUB *)
  master_down : bool;              (* repl_state != REPL_STATE_CONNECTED and
                                      repl_serve_stale_data == 0 *)
  lua_timedout : bool
}.

(** What the server is told: configuration, role and clock.  The clock does
    not move while a command runs. *)
Record conf : Type := mk_conf {
  mstime : Z;             (* mstime() *)
  lruclock : Z;           (* LRU_CLOCK() *)
  loading : bool;         (* server.loading *)
  masterhost : bool;      (* server.masterhost != NULL: this is a slave *)
  lua_caller : bool;      (* server.lua_caller != NULL *)
  lua_time_start : Z;
  child_running : bool;   (* an RDB or AOF child is running *)
  readonly_client : bool; (* the current client is not the master and its
                             command is flagged CMD_READONLY *)
  lru_policy : bool;      (* maxmemory is set with an LRU policy *)
  save_params : bool;     (* server.saveparamslen > 0 *)
  cmd_name : list Z;      (* c->cmd->name *)
  gt : gates
}.

(** A keyspace event: class, name, key, database. *)
Inductive notify_class : Type := NOTIFY_STRING | NOTIFY_GENERIC | NOTIFY_EXPIRED.

(** What the server records and what the client is sent. *)
Record log : Type := mk_log {
  dirty : Z;
  stat_expiredkeys : Z;
  stat_keyspace_hits : Z;
  stat_keyspace_misses : Z;
  events : list (notify_class * list Z * key * Z);
  touched : list (Z * key);     (* keys signalled to the watching clients *)
  flushed : list Z;             (* databases signalled as flushed *)
  propagated : list (Z * list (list Z)); (* commands given to the slaves and the AOF *)
  output : list Z               (* bytes queued for the client *)
}.

Record server : Type := mk_server {
  heap : gmap addr robj;
  brk : addr;                   (* the next address malloc returns *)
  dbs : list redisDb;
  argv : list addr;             (* c->argv *)
  curdb : Z;                    (* c->db *)
  cf : conf;
  lg : log
}.

(** ** The monad of the server's code *)

Definition M (A : Type) : Type := server -> res (A * server).

#[export] Instance M_ret : MRet M := fun _ a s => Ret (a, s).
#[export] Instance M_bind : MBind M := fun _ _ k m s =>
  match m s with
  | Ret (a, s) => k a s
  | Fault f => Fault f
  end.

Definition fail {A} (f : fault) : M A := fun _ => Fault f.
Definition get {A} (f : server -> A) : M A := fun s => Ret (f s, s).
Definition serverAssert (b : bool) : M unit := if b then mret tt else fail AssertFailed.

Definition with_heap (h : gmap addr robj) (s : server) : server :=
  mk_server h (brk s) (dbs s) (argv s) (curdb s) (cf s) (lg s).
Definition with_dbs (d : list redisDb) (s : server) : server :=
  mk_server (heap s) (brk s) d (argv s) (curdb s) (cf s) (lg s).
Definition with_argv (v : list addr) (s : server) : server :=
  mk_server (heap s) (brk s) (dbs s) v (curdb s) (cf s) (lg s).
Definition with_curdb (d : Z) (s : server) : server :=
  mk_server (heap s) (brk s) (dbs s) (argv s) d (cf s) (lg s).
Definition with_cf (c : conf) (s : server) : server :=
  mk_server (heap s) (brk s) (dbs s) (argv s) (curdb s) c (lg s).
Definition with_lg (f : log -> log) (s : server) : server :=
  mk_server (heap s) (brk s) (dbs s) (argv s) (curdb s) (cf s) (f (lg s)).

Definition record (f : log -> log) : M unit := fun s => Ret (tt, with_lg f s).

Definition add_dirty (n : Z) (l : log) : log :=
  mk_log (dirty l + n) (stat_expiredkeys l) (stat_keyspace_hits l) (stat_keyspace_misses l)
    (events l) (touched l) (flushed l) (propagated l) (output l).
Definition set_dirty (n : Z) (l : log) : log :=
  mk_log n (stat_expiredkeys l) (stat_keyspace_hits l) (stat_keyspace_misses l)
    (events l) (touched l) (flushed l) (propagated l) (output l).
Definition add_expired (l : log) : log :=
  mk_log (dirty l) (stat_expiredkeys l + 1) (stat_keyspace_hits l) (stat_keyspace_misses l)
    (events l) (touched l) (flushed l) (propagated l) (output l).
Definition add_hit (l : log) : log :=
  mk_log (dirty l) (stat_expiredkeys l) (stat_keyspace_hits l + 1) (stat_keyspace_misses l)
    (events l) (touched l) (flushed l) (propagated l) (output l).
Definition add_miss (l : log) : log :=
  mk_log (dirty l) (stat_expiredkeys l) (stat_keyspace_hits l) (stat_keyspace_misses l + 1)
    (events l) (touched l) (flushed l) (propagated l) (output l).
Definition add_event (e : notify_class * list Z * key * Z) (l : log) : log :=
  mk_log (dirty l) (stat_expiredkeys l) (stat_keyspace_hits l) (stat_keyspace_misses l)
    (events l ++ [e]) (touched l) (flushed l) (propagated l) (output l).
Definition add_touched (d : Z) (k : key) (l : log) : log :=
  mk_log (dirty l) (stat_expiredkeys l) (stat_keyspace_hits l) (stat_keyspace_misses l)
    (events l) (touched l ++ [(d, k)]) (flushed l) (propagated l) (output l).
Definition add_flushed (d : Z) (l : log) : log :=
  mk_log (dirty l) (stat_expiredkeys l) (stat_keyspace_hits l) (stat_keyspace_misses l)
    (events l) (touched l) (flushed l ++ [d]) (propagated l) (output l).
Definition add_propagated (d : Z) (v : list (list Z)) (l : log) : log :=
  mk_log (dirty l) (stat_expiredkeys l) (stat_keyspace_hits l) (stat_keyspace_misses l)
    (events l) (touched l) (flushed l) (propagated l ++ [(d, v)]) (output l).
Definition add_output (bs : list Z) (l : log) : log :=
  mk_log (dirty l) (stat_expiredkeys l) (stat_keyspace_hits l) (stat_keyspace_misses l)
    (events l) (touched l) (flushed l) (propagated l) (output l ++ bs).

(** [c->cmd = cmd]: its name, and whether the command of a client that is
    not the master is flagged CMD_READONLY. *)
Definition with_cmd (name : list Z) (ro : bool) (c : conf) : conf :=
  mk_conf (mstime c) (lruclock c) (loading c) (masterhost c) (lua_caller c) (lua_time_start c)
    (child_running c) ro (lru_policy c) (save_params c) name (gt c).
Definition set_cmd (name : list Z) (ro : bool) : M unit := fun s =>
  Ret (tt, with_cf (with_cmd name ro (cf s)) s).

(** Access through a pointer to an object; an address with no object is a
    freed one. *)
Definition obj (a : addr) : M robj := fun s =>
  match heap s !! a with
  | Some o => Ret (o, s)
  | None => Fault Undefined
  end.

Definition set_obj (a : addr) (o : robj) : M unit := fun s =>
  match heap s !! a with
  | Some _ => Ret (tt, with_heap (<[a := o]> (heap s)) s)
  | None => Fault Undefined
  end.

Definition malloc (o : robj) : M addr := fun s =>
  Ret (brk s, mk_server (<[brk s := o]> (heap s)) (brk s + 1) (dbs s) (argv s) (curdb s) (cf s) (lg s)).

Definition zfree (a : addr) : M unit := fun s =>
  match heap s !! a with
  | Some _ => Ret (tt, with_heap (delete a (heap s)) s)
  | None => Fault Undefined
  end.

(** [o->ptr] used as an sds string or as a number. *)
Definition sds_of (a : addr) : M (list Z) :=
  o ← obj a; match ptr o with PSds x => mret x | _ => fail Undefined end.

Definition long_of (a : addr) : M Z :=
  o ← obj a; match ptr o with PLong v => mret v | _ => fail Undefined end.

(** The arguments of the client. *)
Definition arg (j : nat) : M addr := fun s =>
  match argv s !! j with Some a => Ret (a, s) | None => Fault OutOfBounds end.
Definition set_arg (j : nat) (a : addr) : M unit := fun s =>
  match argv s !! j with
  | Some _ => Ret (tt, with_argv (<[j := a]> (argv s)) s)
  | None => Fault OutOfBounds
  end.
Definition argc : M Z := get (fun s => Z.of_nat (length (argv s))).

(** ** Creation and release *)

(** The memory allocator aborts the server when it cannot serve a request;
    no request above the address space of the host is served. *)
Definition ALLOC_MAX : Z := 2 ^ 47.

Definition with_ptr (e : oencoding) (p : optr) (o : robj) : robj :=
  mk_robj (type o) e (lru o) (refcount o) p.
Definition with_refcount (n : Z) (o : robj) : robj :=
  mk_robj (type o) (encoding o) (lru o) n (ptr o).
Definition with_lru (n : Z) (o : robj) : robj :=
  mk_robj (type o) (encoding o) n (refcount o) (ptr o).

Definition OBJ_SHARED_INTEGERS : Z := 10000.
Definition OBJ_ENCODING_EMBSTR_SIZE_LIMIT : Z := 44.

(** The table of small integers is at the first addresses. *)
Definition shared_integers (value : Z) : addr := value.

Definition createObject (t : otype) (p : optr) : M addr :=
  clock ← get (fun s => lruclock (cf s));
  malloc (mk_robj t OBJ_ENCODING_RAW clock 1 p).

Definition createRawStringObject (s : list Z) : M addr := createObject OBJ_STRING (PSds s).

(** The length goes to a field of 8 bits. *)
Definition createEmbeddedStringObject (s : list Z) : M addr :=
  clock ← get (fun s => lruclock (cf s));
  if Z.of_nat (length s) <=? 255 then
    malloc (mk_robj OBJ_STRING OBJ_ENCODING_EMBSTR clock 1 (PSds s))
  else fail Undefined.

Definition createStringObject (s : list Z) : M addr :=
  if Z.of_nat (length s) <=? OBJ_ENCODING_EMBSTR_SIZE_LIMIT then createEmbeddedStringObject s
  else createRawStringObject s.

(** [o->refcount++]; the overflow of the int, with 2^31 pointers to one
    object, is not modelled. *)
Definition incrRefCount (a : addr) : M unit :=
  o ← obj a; set_obj a (with_refcount (refcount o + 1) o).

(** The releases of the five types: only the encodings each accepts. *)
Definition freeStringObject (o : robj) : M unit :=
  match encoding o, ptr o with
  | OBJ_ENCODING_RAW, PSds _ => mret tt
  | OBJ_ENCODING_RAW, _ => fail Undefined
  | _, _ => mret tt
  end.
Definition freeListObject (o : robj) : M unit :=
  match encoding o with OBJ_ENCODING_QUICKLIST => mret tt | _ => fail AssertFailed end.
Definition freeSetObject (o : robj) : M unit :=
  match encoding o with
  | OBJ_ENCODING_HT | OBJ_ENCODING_INTSET => mret tt
  | _ => fail AssertFailed
  end.
Definition freeZsetObject (o : robj) : M unit :=
  match encoding o with
  | OBJ_ENCODING_SKIPLIST | OBJ_ENCODING_ZIPLIST => mret tt
  | _ => fail AssertFailed
  end.
Definition freeHashObject (o : robj) : M unit :=
  match encoding o with
  | OBJ_ENCODING_HT | OBJ_ENCODING_ZIPLIST => mret tt
  | _ => fail AssertFailed
  end.

Definition decrRefCount (a : addr) : M unit :=
  o ← obj a;
  if refcount o <=? 0 then fail AssertFailed
  else if refcount o =? 1 then
    _ ← (match type o with
         | OBJ_STRING => freeStringObject o
         | OBJ_LIST => freeListObject o
         | OBJ_SET => freeSetObject o
         | OBJ_ZSET => freeZsetObject o
         | OBJ_HASH => freeHashObject o
         end);
    zfree a
  else set_obj a (with_refcount (refcount o - 1) o).

Definition sdsEncodedObject (o : robj) : bool :=
  bool_decide (encoding o = OBJ_ENCODING_RAW) || bool_decide (encoding o = OBJ_ENCODING_EMBSTR).

Definition createStringObjectFromLongLong (value : Z) : M addr :=
  if (0 <=? value) && (value <? OBJ_SHARED_INTEGERS) then
    _ ← incrRefCount (shared_integers value);
    mret (shared_integers value)
  else if (LONG_MIN <=? value) && (value <=? LONG_MAX) then
    a ← createObject OBJ_STRING (PSds []);
    o ← obj a;
    _ ← set_obj a (with_ptr OBJ_ENCODING_INT (PLong value) o);
    mret a
  else createObject OBJ_STRING (PSds (decimal value)).

Definition dupStringObject (a : addr) : M addr :=
  o ← obj a;
  _ ← serverAssert (bool_decide (type o = OBJ_STRING));
  match encoding o with
  | OBJ_ENCODING_RAW => s ← sds_of a; createRawStringObject s
  | OBJ_ENCODING_EMBSTR => s ← sds_of a; createEmbeddedStringObject s
  | OBJ_ENCODING_INT =>
      d ← createObject OBJ_STRING (PSds []);
      o' ← obj d;
      _ ← set_obj d (with_ptr OBJ_ENCODING_INT (ptr o) o');
      mret d
  | _ => fail AssertFailed
  end.

(** ** Encoding *)

Definition tryObjectEncoding (a : addr) : M addr :=
  o ← obj a;
  _ ← serverAssert (bool_decide (type o = OBJ_STRING));
  if negb (sdsEncodedObject o) then mret a
  else if 1 <? refcount o then mret a
  else
    s ← sds_of a;
    let len := Z.of_nat (length s) in
    match (if len <=? 20 then string2l s else None) with
    | Some value =>
        lru_policy ← get (fun s => lru_policy (cf s));
        if negb lru_policy && (0 <=? value) && (value <? OBJ_SHARED_INTEGERS) then
          _ ← decrRefCount a;
          _ ← incrRefCount (shared_integers value);
          mret (shared_integers value)
        else
          _ ← set_obj a (with_ptr OBJ_ENCODING_INT (PLong value) o);
          mret a
    | None =>
        if len <=? OBJ_ENCODING_EMBSTR_SIZE_LIMIT then
          if bool_decide (encoding o = OBJ_ENCODING_EMBSTR) then mret a
          else
            emb ← createEmbeddedStringObject s;
            _ ← decrRefCount a;
            mret emb
        else
          (* sdsRemoveFreeSpace changes the allocation only *)
          mret a
    end.

(** [ll2string(buf,32,v)], as the string it leaves in the buffer. *)
Definition ll2sds (v : Z) : M (list Z) :=
  match ll2string (replicate 32 0) 32 v with
  | Ret (n, buf) => mret (take (Z.to_nat n) buf)
  | Fault f => fail f
  end.

Definition getDecodedObject (a : addr) : M addr :=
  o ← obj a;
  if sdsEncodedObject o then _ ← incrRefCount a; mret a
  else if bool_decide (type o = OBJ_STRING) && bool_decide (encoding o = OBJ_ENCODING_INT) then
    v ← long_of a;
    buf ← ll2sds v;
    createStringObject buf
  else fail AssertFailed.

(** The characters of a string object, as the comparison and the reply
    functions take them. *)
Definition string_bytes (a : addr) : M (list Z) :=
  o ← obj a;
  if sdsEncodedObject o then sds_of a else v ← long_of a; ll2sds v.

(** memcmp() on the common prefix, then the difference of the lengths; the
    sign is what the callers use. *)
Fixpoint memcmp_min (a b : list Z) : Z :=
  match a, b with
  | x :: a, y :: b => if x =? y then memcmp_min a b else x - y
  | _, _ => 0
  end.

Definition compareStringObjects (a b : addr) : M Z :=
  oa ← obj a; ob ← obj b;
  _ ← serverAssert (bool_decide (type oa = OBJ_STRING) && bool_decide (type ob = OBJ_STRING));
  if a =? b then mret 0
  else
    astr ← string_bytes a; bstr ← string_bytes b;
    let cmp := memcmp_min astr bstr in
    if cmp =? 0 then mret (i32 (Z.of_nat (length astr) - Z.of_nat (length bstr)))
    else mret cmp.

Definition equalStringObjects (a b : addr) : M bool :=
  oa ← obj a; ob ← obj b;
  if bool_decide (encoding oa = OBJ_ENCODING_INT) && bool_decide (encoding ob = OBJ_ENCODING_INT) then
    x ← long_of a; y ← long_of b; mret (x =? y)
  else c ← compareStringObjects a b; mret (c =? 0).

Definition stringObjectLen (a : addr) : M Z :=
  o ← obj a;
  _ ← serverAssert (bool_decide (type o = OBJ_STRING));
  if sdsEncodedObject o then s ← sds_of a; mret (Z.of_nat (length s))
  else v ← long_of a; mret (sdigits10 v).

(** [None] is C_ERR; a NULL object counts as zero. *)
Definition getLongLongFromObject (a : option addr) : M (option Z) :=
  match a with
  | None => mret (Some 0)
  | Some a =>
      o ← obj a;
      _ ← serverAssert (bool_decide (type o = OBJ_STRING));
      if sdsEncodedObject o then s ← sds_of a; mret (string2ll s)
      else if bool_decide (encoding o = OBJ_ENCODING_INT) then v ← long_of a; mret (Some v)
      else fail AssertFailed
  end.

Definition isObjectRepresentableAsLongLong (a : addr) : M (option Z) :=
  o ← obj a;
  _ ← serverAssert (bool_decide (type o = OBJ_STRING));
  if bool_decide (encoding o = OBJ_ENCODING_INT) then v ← long_of a; mret (Some v)
  else s ← sds_of a; mret (string2ll s).
