(* ===== verification/Db.v ===== *)
(** * Db: replies, the keyspace and the expires (networking.c, db.c)

    The functions the commands are made of: the ones that queue a reply,
    the ones that look up, add, overwrite and delete keys, and the expire
    machinery.  The server is not in cluster mode and the client accepts
    replies. *)

From S2P Require Import Prelude Util Object.

(** ** Replies (networking.c) *)

Definition addReplyString (bs : list Z) : M unit := record (add_output bs).

(** The shared protocol strings of createSharedObjects. *)
Definition shared_crlf : list Z := [13; 10].
Definition crlf (s : String.string) : list Z := bytes_of_string s ++ shared_crlf.
Arguments crlf _%_string_scope.
Definition shared_ok : list Z := crlf "+OK".
Definition shared_czero : list Z := crlf ":0".
Definition shared_cone : list Z := crlf ":1".
Definition shared_nullbulk : list Z := crlf "$-1".
Definition shared_emptybulk : list Z := crlf "$0" ++ shared_crlf.
Definition shared_colon : list Z := bytes_of_string ":".
Definition shared_wrongtypeerr : list Z :=
  crlf "-WRONGTYPE Operation against a key holding the wrong kind of value".
Definition shared_nokeyerr : list Z := crlf "-ERR no such key".
Definition shared_syntaxerr : list Z := crlf "-ERR syntax error".
Definition shared_sameobjecterr : list Z := crlf "-ERR source and destination objects are the same".
Definition shared_outofrangeerr : list Z := crlf "-ERR index out of range".

Definition addReply (a : addr) : M unit :=
  o ← obj a;
  if sdsEncodedObject o then s ← sds_of a; addReplyString s
  else if bool_decide (encoding o = OBJ_ENCODING_INT) then
    v ← long_of a; s ← ll2sds v; addReplyString s
  else fail AssertFailed.

Definition addReplyError (err : list Z) : M unit :=
  _ ← addReplyString (bytes_of_string "-ERR ");
  _ ← addReplyString err;
  addReplyString shared_crlf.

Definition addReplyStatus (status : list Z) : M unit :=
  _ ← addReplyString (bytes_of_string "+");
  _ ← addReplyString status;
  addReplyString shared_crlf.

(** The shared headers for small numbers hold the same bytes. *)
Definition addReplyLongLongWithPrefix (ll prefix : Z) : M unit :=
  s ← ll2sds ll;
  addReplyString (prefix :: s ++ shared_crlf).

Definition addReplyLongLong (ll : Z) : M unit :=
  if ll =? 0 then addReplyString shared_czero
  else if ll =? 1 then addReplyString shared_cone
  else addReplyLongLongWithPrefix ll 58.

Definition addReplyMultiBulkLen (length : Z) : M unit :=
  if length <? 0 then fail OutOfBounds (* shared.mbulkhdr[length] *)
  else addReplyLongLongWithPrefix length 42.

(** [while((n = n/10) != 0) len++]; a number of 64 bits has at most 19
    digits. *)
Fixpoint count_digits (fuel : nat) (n len : Z) : Z :=
  let n := Z.quot n 10 in
  if n =? 0 then len
  else match fuel with
  | O => len
  | S fuel => count_digits fuel n (len + 1)
  end.

Definition addReplyBulkLen (a : addr) : M unit :=
  o ← obj a;
  len ← (if sdsEncodedObject o then s ← sds_of a; mret (Z.of_nat (length s))
         else
           n ← long_of a;
           if n <? 0 then mret (count_digits 20 (i64 (- n)) 2)
           else mret (count_digits 20 n 1));
  addReplyLongLongWithPrefix len 36.

Definition addReplyBulk (a : addr) : M unit :=
  _ ← addReplyBulkLen a;
  _ ← addReply a;
  addReplyString shared_crlf.

Definition addReplyBulkCBuffer (p : list Z) : M unit :=
  _ ← addReplyLongLongWithPrefix (Z.of_nat (length p)) 36;
  _ ← addReplyString p;
  addReplyString shared_crlf.

(** ** Conversions that reply on error (object.c) *)

Definition getLongLongFromObjectOrReply (a : option addr) (msg : option (list Z)) : M (option Z) :=
  v ← getLongLongFromObject a;
  match v with
  | None =>
      _ ← addReplyError (default (bytes_of_string "value is not an integer or out of range") msg);
      mret None
  | Some v => mret (Some v)
  end.

Definition getLongFromObjectOrReply (a : option addr) (msg : option (list Z)) : M (option Z) :=
  v ← getLongLongFromObjectOrReply a msg;
  match v with
  | None => mret None
  | Some v =>
      if (v <? LONG_MIN) || (LONG_MAX <? v) then
        _ ← addReplyError (default (bytes_of_string "value is out of range") msg);
        mret None
      else mret (Some v)
  end.

(** [true] when the type is wrong (and the error was sent). *)
Definition checkType (a : addr) (t : otype) : M bool :=
  o ← obj a;
  if bool_decide (type o = t) then mret false
  else _ ← addReplyString shared_wrongtypeerr; mret true.

(** ** The keyspace (db.c) *)

Definition get_db (d : Z) : M redisDb := fun s =>
  if d <? 0 then Fault OutOfBounds
  else match dbs s !! Z.to_nat d with
  | Some db => Ret (db, s)
  | None => Fault OutOfBounds
  end.

Definition set_db (d : Z) (db : redisDb) : M unit := fun s =>
  if d <? 0 then Fault OutOfBounds
  else match dbs s !! Z.to_nat d with
  | Some _ => Ret (tt, with_dbs (<[Z.to_nat d := db]> (dbs s)) s)
  | None => Fault OutOfBounds
  end.

Definition cur_db : M Z := get curdb.

(** The dict operations on the keyspace; [dbDictType] frees a value by
    dropping a reference. *)
Definition dict_find (d : Z) (k : key) : M (option addr) :=
  db ← get_db d; mret (dict db !! k).

Definition dict_add (d : Z) (k : key) (v : addr) : M bool :=
  db ← get_db d;
  match dict db !! k with
  | Some _ => mret false
  | None => _ ← set_db d (mk_db (<[k := v]> (dict db)) (expires db)); mret true
  end.

Definition dict_replace (d : Z) (k : key) (v : addr) : M unit :=
  db ← get_db d;
  _ ← set_db d (mk_db (<[k := v]> (dict db)) (expires db));
  match dict db !! k with
  | Some old => decrRefCount old
  | None => mret tt
  end.

Definition dict_delete (d : Z) (k : key) : M bool :=
  db ← get_db d;
  match dict db !! k with
  | Some old =>
      _ ← set_db d (mk_db (delete k (dict db)) (expires db));
      _ ← decrRefCount old;
      mret true
  | None => mret false
  end.

Definition expires_delete (d : Z) (k : key) : M bool :=
  db ← get_db d;
  _ ← set_db d (mk_db (dict db) (delete k (expires db)));
  mret (bool_decide (is_Some (expires db !! k))).

Definition notifyKeyspaceEvent (c : notify_class) (event : list Z) (k : key) (d : Z) : M unit :=
  record (add_event (c, event, k, d)).

Definition signalModifiedKey (d : Z) (k : key) : M unit := record (add_touched d k).
Definition signalFlushedDb (d : Z) : M unit := record (add_flushed d).

(** [touch] is the absence of LOOKUP_NOTOUCH. *)
Definition lookupKey (d : Z) (key : addr) (touch : bool) : M (option addr) :=
  k ← sds_of key;
  de ← dict_find d k;
  match de with
  | Some val =>
      child ← get (fun s => child_running (cf s));
      _ ← (if negb child && touch then
             o ← obj val;
             clock ← get (fun s => lruclock (cf s));
             set_obj val (with_lru clock o)
           else mret tt);
      mret (Some val)
  | None => mret None
  end.

Definition getExpire (d : Z) (key : addr) : M Z :=
  k ← sds_of key;
  db ← get_db d;
  match expires db !! k with
  | None => mret (-1)
  | Some when =>
      _ ← serverAssert (bool_decide (is_Some (dict db !! k)));
      mret when
  end.

(** The value's reference is dropped with its entry. *)
Definition dbDelete (d : Z) (key : addr) : M bool :=
  k ← sds_of key;
  db ← get_db d;
  _ ← (if bool_decide (expires db = ∅) then mret false else expires_delete d k);
  dict_delete d k.

(** The DEL given to the AOF and to the slaves; the object shared.del is
    not modelled, its reference is taken and dropped here. *)
Definition propagateExpire (d : Z) (key : addr) : M unit :=
  _ ← incrRefCount key;
  k ← sds_of key;
  _ ← record (add_propagated d [bytes_of_string "DEL"; k]);
  decrRefCount key.

(** The value returned is 0 or 1. *)
Definition expireIfNeeded (d : Z) (key : addr) : M bool :=
  when ← getExpire d key;
  c ← get cf;
  if when <? 0 then mret false
  else if loading c then mret false
  else
    let now := if lua_caller c then lua_time_start c else mstime c in
    if masterhost c then mret (when <? now)
    else if now <=? when then mret false
    else
      _ ← record add_expired;
      _ ← propagateExpire d key;
      k ← sds_of key;
      _ ← notifyKeyspaceEvent NOTIFY_EXPIRED (bytes_of_string "expired") k d;
      dbDelete d key.

Definition lookupKeyReadWithFlags (d : Z) (key : addr) (touch : bool) : M (option addr) :=
  expired ← expireIfNeeded d key;
  c ← get cf;
  if expired && (negb (masterhost c) || readonly_client c) then mret None
  else
    val ← lookupKey d key touch;
    _ ← record (match val with None => add_miss | Some _ => add_hit end);
    mret val.

Definition lookupKeyRead (d : Z) (key : addr) : M (option addr) := lookupKeyReadWithFlags d key true.

Definition lookupKeyWrite (d : Z) (key : addr) : M (option addr) :=
  _ ← expireIfNeeded d key;
  lookupKey d key true.

Definition lookupKeyReadOrReply (key : addr) (reply : list Z) : M (option addr) :=
  d ← cur_db;
  o ← lookupKeyRead d key;
  _ ← (match o with None => addReplyString reply | Some _ => mret tt end);
  mret o.

Definition lookupKeyWriteOrReply (key : addr) (reply : list Z) : M (option addr) :=
  d ← cur_db;
  o ← lookupKeyWrite d key;
  _ ← (match o with None => addReplyString reply | Some _ => mret tt end);
  mret o.

(** signalListAsReady, for a list value, concerns clients blocked on the
    key and is not modelled. *)
Definition dbAdd (d : Z) (key : addr) (val : addr) : M unit :=
  copy ← sds_of key;
  retval ← dict_add d copy val;
  serverAssert retval.

Definition dbOverwrite (d : Z) (key : addr) (val : addr) : M unit :=
  k ← sds_of key;
  de ← dict_find d k;
  _ ← serverAssert (bool_decide (is_Some de));
  dict_replace d k val.

Definition removeExpire (d : Z) (key : addr) : M bool :=
  k ← sds_of key;
  de ← dict_find d k;
  _ ← serverAssert (bool_decide (is_Some de));
  expires_delete d k.

Definition setExpire (d : Z) (key : addr) (when : Z) : M unit :=
  k ← sds_of key;
  kde ← dict_find d k;
  _ ← serverAssert (bool_decide (is_Some kde));
  db ← get_db d;
  set_db d (mk_db (dict db) (<[k := when]> (expires db))).

Definition setKey (d : Z) (key : addr) (val : addr) : M unit :=
  o ← lookupKeyWrite d key;
  _ ← (match o with
       | None => dbAdd d key val
       | Some _ => dbOverwrite d key val
       end);
  _ ← incrRefCount val;
  _ ← removeExpire d key;
  k ← sds_of key;
  signalModifiedKey d k.

Definition dbExists (d : Z) (key : addr) : M bool :=
  k ← sds_of key;
  de ← dict_find d k;
  mret (bool_decide (is_Some de)).

Definition dbUnshareStringValue (d : Z) (key : addr) (a : addr) : M addr :=
  o ← obj a;
  _ ← serverAssert (bool_decide (type o = OBJ_STRING));
  if negb (refcount o =? 1) || negb (bool_decide (encoding o = OBJ_ENCODING_RAW)) then
    decoded ← getDecodedObject a;
    s ← sds_of decoded;
    a' ← createRawStringObject s;
    _ ← decrRefCount decoded;
    _ ← dbOverwrite d key a';
    mret a'
  else mret a.

Definition selectDb (id : Z) : M bool :=
  dbnum ← get (fun s => Z.of_nat (length (dbs s)));
  if (id <? 0) || (dbnum <=? id) then mret false
  else fun s => Ret (true, with_curdb id s).
