(* ===== verification/TString.v ===== *)
(** * TString: the string commands (t_string.c)

    One definition per command, with its guards, its error replies and
    every change of the state.  INCRBYFLOAT, which computes with long
    doubles, is left out. *)

From S2P Require Import Prelude Util Object Db.

(** A result of signed 64 bit arithmetic; C leaves overflow undefined. *)
Definition ll_of (v : Z) : M Z :=
  if (LLONG_MIN <=? v) && (v <=? LLONG_MAX) then mret v else fail Overflow.

(** [true] is C_OK. *)
Definition checkStringLength (size : Z) : M bool :=
  if 512 * 1024 * 1024 <? size then
    _ ← addReplyError (bytes_of_string "string exceeds maximum allowed size (512MB)");
    mret false
  else mret true.

(** sdsnewlen(NULL,n) and sdsgrowzero(s,n). *)
Definition sdsnewlen_zero (n : Z) : M (list Z) :=
  if ALLOC_MAX <? n then fail OutOfMemory else mret (replicate (Z.to_nat n) 0).
Definition sdsgrowzero (s : list Z) (n : Z) : M (list Z) :=
  if n <=? Z.of_nat (length s) then mret s
  else if ALLOC_MAX <? n then fail OutOfMemory
  else mret (s ++ replicate (Z.to_nat n - length s) 0).

Definition set_sds (a : addr) (s : list Z) : M unit :=
  o ← obj a; set_obj a (with_ptr (encoding o) (PSds s) o).

(** ** SET and its variants *)

Definition OBJ_SET_NO_FLAGS : Z := 0.
Definition OBJ_SET_NX : Z := 1.
Definition OBJ_SET_XX : Z := 2.
Definition OBJ_SET_EX : Z := 4.
Definition OBJ_SET_PX : Z := 8.
Definition has (flags f : Z) : bool := negb (Z.land flags f =? 0).

Inductive time_unit : Type := UNIT_SECONDS | UNIT_MILLISECONDS.

(** The first guard of setGenericCommand: [None] when an error was sent. *)
Definition set_expire_arg (expire : option addr) (tu : time_unit) : M (option Z) :=
  match expire with
  | None => mret (Some 0)
  | Some e =>
      ms ← getLongLongFromObjectOrReply (Some e) None;
      match ms with
      | None => mret None
      | Some ms =>
          if ms <=? 0 then
            name ← get (fun s => cmd_name (cf s));
            _ ← addReplyError (bytes_of_string "invalid expire time in " ++ name);
            mret None
          else
            ms ← (match tu with UNIT_SECONDS => ll_of (ms * 1000) | UNIT_MILLISECONDS => mret ms end);
            mret (Some ms)
      end
  end.

(** [true] when NX or XX forbids the operation. *)
Definition set_forbidden (flags : Z) (key : addr) : M bool :=
  d ← cur_db;
  nx ← (if has flags OBJ_SET_NX then
          o ← lookupKeyWrite d key; mret (bool_decide (is_Some o))
        else mret false);
  if (nx : bool) then mret true
  else if has flags OBJ_SET_XX then
    o ← lookupKeyWrite d key; mret (bool_decide (o = None))
  else mret false.

Definition setGenericCommand (flags : Z) (key val : addr) (expire : option addr)
    (tu : time_unit) (ok_reply abort_reply : option (list Z)) : M unit :=
  ms ← set_expire_arg expire tu;
  match ms with
  | None => mret tt
  | Some milliseconds =>
      forbidden ← set_forbidden flags key;
      if (forbidden : bool) then addReplyString (default shared_nullbulk abort_reply)
      else
        d ← cur_db;
        _ ← setKey d key val;
        _ ← record (add_dirty 1);
        now ← get (fun s => mstime (cf s));
        _ ← (match expire with
             | Some _ => when ← ll_of (now + milliseconds); setExpire d key when
             | None => mret tt
             end);
        k ← sds_of key;
        _ ← notifyKeyspaceEvent NOTIFY_STRING (bytes_of_string "set") k d;
        _ ← (match expire with
             | Some _ => notifyKeyspaceEvent NOTIFY_GENERIC (bytes_of_string "expire") k d
             | None => mret tt
             end);
        addReplyString (default shared_ok ok_reply)
  end.

(** [a[i]] of a NUL terminated string. *)
Definition char_at (s : list Z) (i : nat) : Z := nth i s 0.

(** The option [xy], in either case: [a[0] == 'x' || ...]. *)
Definition is_opt (a : list Z) (x y : Z) : bool :=
  ((char_at a 0 =? x) || (char_at a 0 =? x - 32)) &&
  ((char_at a 1 =? y) || (char_at a 1 =? y - 32)) && (char_at a 2 =? 0).

(** The loop over the options of SET; the result is [None] after a syntax
    error.  Each iteration takes at least one argument. *)
Fixpoint set_options (fuel : nat) (j : nat) (flags : Z) (tu : time_unit) (expire : option addr)
    : M (option (Z * time_unit * option addr)) :=
  n ← argc;
  if negb (Z.of_nat j <? n) then mret (Some (flags, tu, expire))
  else match fuel with
  | O => fail OutOfFuel
  | S fuel =>
      aj ← arg j;
      a ← sds_of aj;
      next ← (if Z.of_nat j =? n - 1 then mret None else x ← arg (S j); mret (Some x));
      if is_opt a 110 120 && negb (has flags OBJ_SET_XX) then
        set_options fuel (S j) (Z.lor flags OBJ_SET_NX) tu expire
      else if is_opt a 120 120 && negb (has flags OBJ_SET_NX) then
        set_options fuel (S j) (Z.lor flags OBJ_SET_XX) tu expire
      else if is_opt a 101 120 && negb (has flags OBJ_SET_PX) && bool_decide (is_Some next) then
        set_options fuel (S (S j)) (Z.lor flags OBJ_SET_EX) UNIT_SECONDS next
      else if is_opt a 112 120 && negb (has flags OBJ_SET_EX) && bool_decide (is_Some next) then
        set_options fuel (S (S j)) (Z.lor flags OBJ_SET_PX) UNIT_MILLISECONDS next
      else _ ← addReplyString shared_syntaxerr; mret None
  end.

(** [c->argv[j] = tryObjectEncoding(c->argv[j])]. *)
Definition encode_arg (j : nat) : M addr :=
  a ← arg j;
  a' ← tryObjectEncoding a;
  _ ← set_arg j a';
  mret a'.

Definition setCommand : M unit :=
  n ← argc;
  opts ← set_options (Z.to_nat n) 3 OBJ_SET_NO_FLAGS UNIT_SECONDS None;
  match opts with
  | None => mret tt
  | Some (flags, tu, expire) =>
      val ← encode_arg 2;
      key ← arg 1;
      setGenericCommand flags key val expire tu None None
  end.

Definition setnxCommand : M unit :=
  val ← encode_arg 2;
  key ← arg 1;
  setGenericCommand OBJ_SET_NX key val None UNIT_SECONDS (Some shared_cone) (Some shared_czero).

Definition setexCommand : M unit :=
  val ← encode_arg 3;
  key ← arg 1; expire ← arg 2;
  setGenericCommand OBJ_SET_NO_FLAGS key val (Some expire) UNIT_SECONDS None None.

Definition psetexCommand : M unit :=
  val ← encode_arg 3;
  key ← arg 1; expire ← arg 2;
  setGenericCommand OBJ_SET_NO_FLAGS key val (Some expire) UNIT_MILLISECONDS None None.

(** ** GET and GETSET *)

(** [true] is C_OK. *)
Definition getGenericCommand : M bool :=
  key ← arg 1;
  o ← lookupKeyReadOrReply key shared_nullbulk;
  match o with
  | None => mret true
  | Some a =>
      o ← obj a;
      if negb (bool_decide (type o = OBJ_STRING)) then
        _ ← addReplyString shared_wrongtypeerr; mret false
      else _ ← addReplyBulk a; mret true
  end.

Definition getCommand : M unit := _ ← getGenericCommand; mret tt.

Definition getsetCommand : M unit :=
  ok ← getGenericCommand;
  if negb ok then mret tt
  else
    val ← encode_arg 2;
    key ← arg 1;
    d ← cur_db;
    _ ← setKey d key val;
    k ← sds_of key;
    _ ← notifyKeyspaceEvent NOTIFY_STRING (bytes_of_string "set") k d;
    record (add_dirty 1).

(** ** SETRANGE and GETRANGE *)

(** The last part of SETRANGE: grow the string and copy the value. *)
Definition setrange_write (d : Z) (key a : addr) (offset : Z) (value : list Z) : M unit :=
  _ ← (if 0 <? Z.of_nat (length value) then
         s ← sds_of a;
         s ← sdsgrowzero s (u64 (offset + Z.of_nat (length value)));
         s ← (match memwrite s offset value with Ret s => mret s | Fault f => fail f end);
         _ ← set_sds a s;
         k ← sds_of key;
         _ ← signalModifiedKey d k;
         _ ← notifyKeyspaceEvent NOTIFY_STRING (bytes_of_string "setrange") k d;
         record (add_dirty 1)
       else mret tt);
  s ← sds_of a;
  addReplyLongLong (Z.of_nat (length s)).

Definition setrangeCommand : M unit :=
  a3 ← arg 3;
  value ← sds_of a3;
  a2 ← arg 2;
  offset ← getLongFromObjectOrReply (Some a2) None;
  match offset with
  | None => mret tt
  | Some offset =>
      if offset <? 0 then addReplyError (bytes_of_string "offset is out of range")
      else
        d ← cur_db;
        key ← arg 1;
        o ← lookupKeyWrite d key;
        let size := u64 (offset + Z.of_nat (length value)) in
        match o with
        | None =>
            if Z.of_nat (length value) =? 0 then addReplyString shared_czero
            else
              ok ← checkStringLength (i64 size);
              if negb ok then mret tt
              else
                s ← sdsnewlen_zero size;
                a ← createObject OBJ_STRING (PSds s);
                _ ← dbAdd d key a;
                setrange_write d key a offset value
        | Some a =>
            wrong ← checkType a OBJ_STRING;
            if (wrong : bool) then mret tt
            else
              olen ← stringObjectLen a;
              if Z.of_nat (length value) =? 0 then addReplyLongLong olen
              else
                ok ← checkStringLength (i64 size);
                if negb ok then mret tt
                else
                  a ← dbUnshareStringValue d key a;
                  setrange_write d key a offset value
        end
  end.

(** The slice GETRANGE replies with; [None] when it is empty. *)
Definition range_bounds (start end_ strlen : Z) : option (Z * Z) :=
  if (start <? 0) && (end_ <? 0) && (end_ <? start) then None
  else
    let start := if start <? 0 then i64 (u64 (strlen + start)) else start in
    let end_ := if end_ <? 0 then i64 (u64 (strlen + end_)) else end_ in
    let start := if start <? 0 then 0 else start in
    let end_ := if end_ <? 0 then 0 else end_ in
    let end_ := if strlen <=? u64 end_ then i64 (u64 (strlen - 1)) else end_ in
    if (end_ <? start) || (strlen =? 0) then None else Some (start, end_).

Definition getrangeCommand : M unit :=
  a2 ← arg 2;
  start ← getLongLongFromObjectOrReply (Some a2) None;
  match start with
  | None => mret tt
  | Some start =>
      a3 ← arg 3;
      end_ ← getLongLongFromObjectOrReply (Some a3) None;
      match end_ with
      | None => mret tt
      | Some end_ =>
          key ← arg 1;
          o ← lookupKeyReadOrReply key shared_emptybulk;
          match o with
          | None => mret tt
          | Some a =>
              wrong ← checkType a OBJ_STRING;
              if (wrong : bool) then mret tt
              else
                o ← obj a;
                str ← (if bool_decide (encoding o = OBJ_ENCODING_INT) then v ← long_of a; ll2sds v
                       else sds_of a);
                match range_bounds start end_ (Z.of_nat (length str)) with
                | None => addReplyString shared_emptybulk
                | Some (start, end_) =>
                    match memread str start (Z.to_nat (end_ - start + 1)) with
                    | Ret p => addReplyBulkCBuffer p
                    | Fault f => fail f
                    end
                end
          end
      end
  end.

(** ** MGET and MSET *)

Fixpoint mget_loop (fuel j : nat) : M unit :=
  match fuel with
  | O => mret tt
  | S fuel =>
      d ← cur_db;
      key ← arg j;
      o ← lookupKeyRead d key;
      _ ← (match o with
           | None => addReplyString shared_nullbulk
           | Some a =>
               o ← obj a;
               if negb (bool_decide (type o = OBJ_STRING)) then addReplyString shared_nullbulk
               else addReplyBulk a
           end);
      mget_loop fuel (S j)
  end.

(** The loop makes argc - 1 turns. *)
Definition mgetCommand : M unit :=
  n ← argc;
  _ ← addReplyMultiBulkLen (n - 1);
  mget_loop (Z.to_nat (n - 1)) 1.

(** The keys at [j], [j + 2], ...; [fuel] is the number of pairs. *)
Fixpoint busy_loop (fuel j : nat) (busykeys : Z) : M Z :=
  match fuel with
  | O => mret busykeys
  | S fuel =>
      d ← cur_db;
      key ← arg j;
      o ← lookupKeyWrite d key;
      busy_loop fuel (S (S j)) (match o with Some _ => busykeys + 1 | None => busykeys end)
  end.

Fixpoint mset_loop (fuel j : nat) : M unit :=
  match fuel with
  | O => mret tt
  | S fuel =>
      val ← encode_arg (S j);
      d ← cur_db;
      key ← arg j;
      _ ← setKey d key val;
      k ← sds_of key;
      _ ← notifyKeyspaceEvent NOTIFY_STRING (bytes_of_string "set") k d;
      mset_loop fuel (S (S j))
  end.

Definition msetGenericCommand (nx : bool) : M unit :=
  n ← argc;
  if Z.even n then addReplyError (bytes_of_string "wrong number of arguments for MSET")
  else
    let pairs := Z.to_nat ((n - 1) / 2) in
    busykeys ← (if nx then busy_loop pairs 1 0 else mret 0);
    if negb (busykeys =? 0) then addReplyString shared_czero
    else
      _ ← mset_loop pairs 1;
      _ ← record (add_dirty ((n - 1) / 2));
      addReplyString (if nx then shared_cone else shared_ok).

Definition msetCommand : M unit := msetGenericCommand false.
Definition msetnxCommand : M unit := msetGenericCommand true.

(** ** INCR and DECR *)

Definition incrDecrCommand (incr : Z) : M unit :=
  d ← cur_db;
  key ← arg 1;
  o ← lookupKeyWrite d key;
  wrong ← (match o with Some a => checkType a OBJ_STRING | None => mret false end);
  if (wrong : bool) then mret tt
  else
    value ← getLongLongFromObjectOrReply o None;
    match value with
    | None => mret tt
    | Some oldvalue =>
        if ((incr <? 0) && (oldvalue <? 0) && (incr <? LLONG_MIN - oldvalue)) ||
           ((0 <? incr) && (0 <? oldvalue) && (LLONG_MAX - oldvalue <? incr)) then
          addReplyError (bytes_of_string "increment or decrement would overflow")
        else
          value ← ll_of (oldvalue + incr);
          inplace ← (match o with
                     | None => mret false
                     | Some a =>
                         r ← obj a;
                         mret ((refcount r =? 1) && bool_decide (encoding r = OBJ_ENCODING_INT) &&
                               ((value <? 0) || (OBJ_SHARED_INTEGERS <=? value)) &&
                               (LONG_MIN <=? value) && (value <=? LONG_MAX))
                     end);
          new ← (match o with
                 | Some a =>
                     if (inplace : bool) then
                       r ← obj a;
                       _ ← set_obj a (with_ptr (encoding r) (PLong value) r);
                       mret a
                     else
                       new ← createStringObjectFromLongLong value;
                       _ ← dbOverwrite d key new;
                       mret new
                 | None =>
                     new ← createStringObjectFromLongLong value;
                     _ ← dbAdd d key new;
                     mret new
                 end);
          k ← sds_of key;
          _ ← signalModifiedKey d k;
          _ ← notifyKeyspaceEvent NOTIFY_STRING (bytes_of_string "incrby") k d;
          _ ← record (add_dirty 1);
          _ ← addReplyString shared_colon;
          _ ← addReply new;
          addReplyString shared_crlf
    end.

Definition incrCommand : M unit := incrDecrCommand 1.
Definition decrCommand : M unit := incrDecrCommand (-1).

Definition incrbyCommand : M unit :=
  a2 ← arg 2;
  incr ← getLongLongFromObjectOrReply (Some a2) None;
  match incr with
  | None => mret tt
  | Some incr => incrDecrCommand incr
  end.

Definition decrbyCommand : M unit :=
  a2 ← arg 2;
  incr ← getLongLongFromObjectOrReply (Some a2) None;
  match incr with
  | None => mret tt
  | Some incr => neg ← ll_of (- incr); incrDecrCommand neg
  end.

(** ** APPEND and STRLEN *)

Definition appendCommand : M unit :=
  d ← cur_db;
  key ← arg 1;
  o ← lookupKeyWrite d key;
  totlen ← (match o with
            | None =>
                val ← encode_arg 2;
                _ ← dbAdd d key val;
                _ ← incrRefCount val;
                n ← stringObjectLen val;
                mret (Some n)
            | Some a =>
                wrong ← checkType a OBJ_STRING;
                if (wrong : bool) then mret None
                else
                  append ← arg 2;
                  x ← sds_of append;
                  olen ← stringObjectLen a;
                  ok ← checkStringLength (i64 (u64 (olen + Z.of_nat (length x))));
                  if negb ok then mret None
                  else
                    a ← dbUnshareStringValue d key a;
                    s ← sds_of a;
                    _ ← set_sds a (s ++ x);
                    s ← sds_of a;
                    mret (Some (Z.of_nat (length s)))
            end);
  match totlen with
  | None => mret tt
  | Some totlen =>
      k ← sds_of key;
      _ ← signalModifiedKey d k;
      _ ← notifyKeyspaceEvent NOTIFY_STRING (bytes_of_string "append") k d;
      _ ← record (add_dirty 1);
      addReplyLongLong totlen
  end.

Definition strlenCommand : M unit :=
  key ← arg 1;
  o ← lookupKeyReadOrReply key shared_czero;
  match o with
  | None => mret tt
  | Some a =>
      wrong ← checkType a OBJ_STRING;
      if (wrong : bool) then mret tt
      else n ← stringObjectLen a; addReplyLongLong n
  end.
