(* ===== verification/ServerOk.v ===== *)
(** * ServerOk: reference counts are the numbers of references

    The invariant of the server state.  Every object that a database, the
    arguments of the client or the table of shared integers points to is in
    the heap, the arguments are strings, and the reference count of an
    object is the number of those pointers: no object is freed too early,
    and none is left that nothing points to.  The invariant takes a correction [x], the references that
    the code holds in local variables at a point (positive), or that it has
    stored before counting them (negative). *)

From S2P Require Import Prelude Util Object Db.

(** ** Counting references *)

Definition tok (a b : addr) : Z := if decide (b = a) then 1 else 0.

Definition count_dict (m : gmap key addr) (a : addr) : Z :=
  Z.of_nat (size (filter (fun kv : key * addr => kv.2 = a) m)).

Fixpoint db_refs (l : list redisDb) (a : addr) : Z :=
  match l with
  | [] => 0
  | db :: l => count_dict (dict db) a + db_refs l a
  end.

Fixpoint argv_refs (v : list addr) (a : addr) : Z :=
  match v with
  | [] => 0
  | b :: v => tok b a + argv_refs v a
  end.

Definition shared_ref (a : addr) : Z :=
  if decide (0 <= a < OBJ_SHARED_INTEGERS) then 1 else 0.

Definition refs (s : server) (a : addr) : Z :=
  db_refs (dbs s) a + argv_refs (argv s) a + shared_ref a.

(** ** Well-formed objects *)

(** The encodings each type may have; a string is in memory. *)
Definition obj_ok (o : robj) : Prop :=
  match type o, encoding o, ptr o with
  | OBJ_STRING, (OBJ_ENCODING_RAW | OBJ_ENCODING_EMBSTR), PSds s => Z.of_nat (length s) <= ALLOC_MAX
  | OBJ_STRING, OBJ_ENCODING_INT, PLong v => in_s 64 v
  | OBJ_LIST, OBJ_ENCODING_QUICKLIST, PAgg _ => True
  | OBJ_SET, (OBJ_ENCODING_HT | OBJ_ENCODING_INTSET), PAgg _ => True
  | OBJ_ZSET, (OBJ_ENCODING_SKIPLIST | OBJ_ENCODING_ZIPLIST), PAgg _ => True
  | OBJ_HASH, (OBJ_ENCODING_HT | OBJ_ENCODING_ZIPLIST), PAgg _ => True
  | _, _, _ => False
  end.

Definition db_ok (db : redisDb) : Prop := dom (expires db) ⊆ dom (dict db).

Record ok (x : addr -> Z) (s : server) : Prop := mk_ok {
  ok_obj : forall a o, heap s !! a = Some o -> obj_ok o;
  ok_brk : forall a o, heap s !! a = Some o -> a < brk s;
  ok_count : forall a o, heap s !! a = Some o -> 1 <= refcount o /\ refs s a + x a = refcount o;
  ok_live : forall a, 0 < refs s a \/ x a <> 0 -> is_Some (heap s !! a);
  ok_shared : forall i, 0 <= i < OBJ_SHARED_INTEGERS ->
    exists o, heap s !! i = Some o /\ type o = OBJ_STRING /\
      encoding o = OBJ_ENCODING_INT /\ ptr o = PLong i;
  ok_base : OBJ_SHARED_INTEGERS <= brk s;
  ok_dbs : Forall db_ok (dbs s);
  ok_cur : 0 <= curdb s < Z.of_nat (length (dbs s));
  ok_args : forall a o, a ∈ argv s -> heap s !! a = Some o -> type o = OBJ_STRING
}.

(** The invariant between commands: nothing is held or owed. *)
Definition server_ok (s : server) : Prop := ok (fun _ => 0) s.

Lemma ok_ext x y s : (forall a, x a = y a) -> ok x s -> ok y s.
Proof.
  intros E [H1 H2 H3 H4 H5 H6 H7 H8 H9]. constructor; auto.
  - intros a o Ho. rewrite <- E. eauto.
  - intros a Ha. rewrite <- E in Ha. eauto.
Qed.

(** ** Arithmetic of the counts *)

Lemma tok_range a b : 0 <= tok a b <= 1.
Proof. unfold tok. destruct (decide _); lia. Qed.

Lemma count_dict_nonneg m a : 0 <= count_dict m a.
Proof. unfold count_dict. lia. Qed.

Lemma db_refs_nonneg l a : 0 <= db_refs l a.
Proof. induction l as [|db l IH]; cbn; [lia|]. pose proof (count_dict_nonneg (dict db) a). lia. Qed.

Lemma argv_refs_nonneg v a : 0 <= argv_refs v a.
Proof. induction v as [|b v IH]; cbn; [lia|]. pose proof (tok_range b a). lia. Qed.

Lemma shared_ref_range a : 0 <= shared_ref a <= 1.
Proof. unfold shared_ref. destruct (decide _); lia. Qed.

Lemma refs_nonneg s a : 0 <= refs s a.
Proof.
  pose proof (db_refs_nonneg (dbs s) a). pose proof (argv_refs_nonneg (argv s) a).
  pose proof (shared_ref_range a). unfold refs. lia.
Qed.

Definition old_tok (o : option addr) (a : addr) : Z :=
  match o with Some b => tok b a | None => 0 end.

Lemma count_dict_delete m k a : count_dict (delete k m) a = count_dict m a - old_tok (m !! k) a.
Proof.
  unfold count_dict. rewrite map_filter_delete. destruct (m !! k) as [b|] eqn:E; cbn.
  - unfold tok. destruct (decide (a = b)) as [->|Hne].
    + rewrite map_size_delete_Some by (eexists; by apply map_lookup_filter_Some_2).
      assert (size (filter (fun kv : key * addr => kv.2 = b) m) <> 0%nat); [|lia].
      rewrite map_size_ne_0_lookup. exists k. eexists. by apply map_lookup_filter_Some_2.
    + rewrite map_size_delete_None; [lia|]. apply map_lookup_filter_None_2. right. cbn. congruence.
  - rewrite map_size_delete_None; [lia|]. apply map_lookup_filter_None_2. by left.
Qed.

Lemma count_dict_insert m k v a :
  count_dict (<[k := v]> m) a = count_dict m a + tok v a - old_tok (m !! k) a.
Proof.
  rewrite <- insert_delete_eq.
  assert (E : count_dict (<[k := v]> (delete k m)) a = count_dict (delete k m) a + tok v a).
  { unfold count_dict, tok. destruct (decide (a = v)) as [->|Hne].
    - rewrite map_filter_insert_True by done. rewrite map_size_insert_None; [lia|].
      apply map_lookup_filter_None_2. left. apply lookup_delete_eq.
    - rewrite map_filter_insert_False by (cbn; congruence). rewrite delete_delete_eq. lia. }
  rewrite E, count_dict_delete. lia.
Qed.

Lemma db_refs_insert l i db db' a : l !! i = Some db ->
  db_refs (<[i := db']> l) a = db_refs l a - count_dict (dict db) a + count_dict (dict db') a.
Proof.
  revert i. induction l as [|y l IH]; intros [|i] H; try done; cbn [lookup] in H.
  - injection H as ->. cbn. lia.
  - change (<[S i := db']> (y :: l)) with (y :: <[i := db']> l). cbn [db_refs]. rewrite (IH _ H). lia.
Qed.

Lemma argv_refs_insert v j b c a : v !! j = Some b ->
  argv_refs (<[j := c]> v) a = argv_refs v a - tok b a + tok c a.
Proof.
  revert j. induction v as [|y v IH]; intros [|j] H; try done; cbn [lookup] in H.
  - injection H as ->. cbn. lia.
  - change (<[S j := c]> (y :: v)) with (y :: <[j := c]> v). cbn [argv_refs]. rewrite (IH _ H). lia.
Qed.

Lemma tok_eq a : tok a a = 1.
Proof. unfold tok. by rewrite decide_True. Qed.

Lemma tok_ne a b : b <> a -> tok a b = 0.
Proof. intros. unfold tok. by rewrite decide_False. Qed.

(** Pointers found in the state are counted. *)
Lemma count_dict_lookup m k a : m !! k = Some a -> 1 <= count_dict m a.
Proof.
  intros H. pose proof (count_dict_delete m k a) as E. rewrite H in E. cbn in E. rewrite tok_eq in E.
  pose proof (count_dict_nonneg (delete k m) a). lia.
Qed.

Lemma db_refs_lookup l i db k a : l !! i = Some db -> dict db !! k = Some a -> 1 <= db_refs l a.
Proof.
  revert i. induction l as [|y l IH]; intros [|i] H Hk; try done; cbn in *.
  - injection H as ->. pose proof (count_dict_lookup _ _ _ Hk). pose proof (db_refs_nonneg l a). lia.
  - pose proof (IH _ H Hk). pose proof (count_dict_nonneg (dict y) a). lia.
Qed.

Lemma argv_refs_lookup v j a : v !! j = Some a -> 1 <= argv_refs v a.
Proof.
  revert j. induction v as [|y v IH]; intros [|j] H; try done; cbn in *.
  - injection H as ->. rewrite tok_eq. pose proof (argv_refs_nonneg v a). lia.
  - pose proof (IH _ H). pose proof (tok_range y a). lia.
Qed.

Lemma argv_refs_in v a : a ∈ v -> 1 <= argv_refs v a.
Proof. intros [j H]%list_elem_of_lookup. by eapply argv_refs_lookup. Qed.

Lemma refs_arg s a : a ∈ argv s -> 1 <= refs s a.
Proof.
  intros H%argv_refs_in. unfold refs. pose proof (db_refs_nonneg (dbs s) a).
  pose proof (shared_ref_range a). lia.
Qed.

Lemma refs_dict s i db k a : dbs s !! i = Some db -> dict db !! k = Some a -> 1 <= refs s a.
Proof.
  intros H Hk. pose proof (db_refs_lookup _ _ _ _ _ H Hk). unfold refs.
  pose proof (argv_refs_nonneg (argv s) a). pose proof (shared_ref_range a). lia.
Qed.
