(* ===== verification/Abstract.v ===== *)
(** * Abstract: the keyspace as a client sees it

    The specification of the string and key commands: databases map keys to
    values (bytes, or an opaque aggregate) and to expire times; there are no
    objects, addresses, reference counts, encodings or shared values.  The
    state keeps the configuration and the log of the server, so that a
    command of the code and its specification can be compared in all they
    do: data, replies, events, counters.

    [abs] maps a state of the server to the specification's, and [sim]
    relates a piece of the code to a piece of the specification. *)

From S2P Require Import Prelude Util Object Db ServerOk.

(** ** Abstract state *)

Inductive sval : Type :=
  | AStr (s : list Z)
  | AAgg (t : otype) (id : Z).

#[export] Instance sval_eq_dec : EqDecision sval.
Proof. solve_decision. Defined.

Record adb : Type := mk_adb { adict : gmap key sval; aexpires : gmap key Z }.

Record astate : Type := mk_astate {
  adbs : list adb;
  aargs : list (list Z);
  acur : Z;
  acf : conf;
  alg : log
}.

(** What a string object says, whatever its encoding. *)
Definition view (o : robj) : sval :=
  match ptr o with
  | PSds s => AStr s
  | PLong v => AStr (decimal v)
  | PAgg id => AAgg (type o) id
  end.

Definition abs_dict (h : gmap addr robj) (m : gmap key addr) : gmap key sval :=
  omap (fun a => view <$> h !! a) m.
Definition abs_db (h : gmap addr robj) (db : redisDb) : adb :=
  mk_adb (abs_dict h (dict db)) (expires db).
Definition abs_arg (h : gmap addr robj) (a : addr) : list Z :=
  match view <$> h !! a with Some (AStr s) => s | _ => [] end.
Definition abs (s : server) : astate :=
  mk_astate (abs_db (heap s) <$> dbs s) (abs_arg (heap s) <$> argv s) (curdb s) (cf s) (lg s).

(** ** The abstract monad *)

Definition AM (A : Type) : Type := astate -> res (A * astate).

#[export] Instance AM_ret : MRet AM := fun _ a s => Ret (a, s).
#[export] Instance AM_bind : MBind AM := fun _ _ k m s =>
  match m s with
  | Ret (a, s) => k a s
  | Fault f => Fault f
  end.

Definition afail {A} (f : fault) : AM A := fun _ => Fault f.
Definition aget {A} (f : astate -> A) : AM A := fun t => Ret (f t, t).
Definition arecord (f : log -> log) : AM unit := fun t =>
  Ret (tt, mk_astate (adbs t) (aargs t) (acur t) (acf t) (f (alg t))).
Definition areply (bs : list Z) : AM unit := arecord (add_output bs).
Definition aget_db (d : Z) : AM adb := fun t =>
  if d <? 0 then Fault OutOfBounds
  else match adbs t !! Z.to_nat d with
  | Some db => Ret (db, t)
  | None => Fault OutOfBounds
  end.
Definition aset_db (d : Z) (db : adb) : AM unit := fun t =>
  Ret (tt, mk_astate (<[Z.to_nat d := db]> (adbs t)) (aargs t) (acur t) (acf t) (alg t)).
Definition aarg (j : nat) : AM (list Z) := fun t =>
  match aargs t !! j with Some a => Ret (a, t) | None => Fault OutOfBounds end.
Definition aargc : AM Z := aget (fun t => Z.of_nat (length (aargs t))).

(** ** Keyspace operations *)

(** The expire time has passed and this server may remove the key. *)
Definition expired_at (c : conf) (when : option Z) : bool :=
  match when with
  | Some when =>
      (0 <=? when) && negb (loading c) &&
      (when <? (if lua_caller c then lua_time_start c else mstime c))
  | None => false
  end.

Definition adelete (d : Z) (k : key) : AM bool :=
  db ← aget_db d;
  _ ← aset_db d (mk_adb (delete k (adict db)) (delete k (aexpires db)));
  mret (bool_decide (is_Some (adict db !! k))).

(** Look at the expire time of [k]: a master removes an expired key, a
    slave only tells. *)
Definition aexpireIfNeeded (d : Z) (k : key) : AM bool :=
  db ← aget_db d;
  c ← aget acf;
  if expired_at c (aexpires db !! k) then
    if masterhost c then mret true
    else
      _ ← arecord add_expired;
      _ ← arecord (add_propagated d [bytes_of_string "DEL"; k]);
      _ ← arecord (add_event (NOTIFY_EXPIRED, bytes_of_string "expired", k, d));
      adelete d k
  else mret false.

Definition alookup (d : Z) (k : key) : AM (option sval) :=
  db ← aget_db d; mret (adict db !! k).

Definition alookupRead (d : Z) (k : key) : AM (option sval) :=
  expired ← aexpireIfNeeded d k;
  c ← aget acf;
  if expired && (negb (masterhost c) || readonly_client c) then mret None
  else
    v ← alookup d k;
    _ ← arecord (match v with None => add_miss | Some _ => add_hit end);
    mret v.

Definition alookupWrite (d : Z) (k : key) : AM (option sval) :=
  _ ← aexpireIfNeeded d k; alookup d k.

Definition alookupReadOrReply (k : key) (reply : list Z) : AM (option sval) :=
  d ← aget acur;
  v ← alookupRead d k;
  _ ← (match v with None => areply reply | Some _ => mret tt end);
  mret v.

Definition alookupWriteOrReply (k : key) (reply : list Z) : AM (option sval) :=
  d ← aget acur;
  v ← alookupWrite d k;
  _ ← (match v with None => areply reply | Some _ => mret tt end);
  mret v.

(** Store a value; the expire time of the key stays. *)
Definition astore (d : Z) (k : key) (v : sval) : AM unit :=
  db ← aget_db d; aset_db d (mk_adb (<[k := v]> (adict db)) (aexpires db)).

Definition aset_expire (d : Z) (k : key) (when : option Z) : AM unit :=
  db ← aget_db d;
  aset_db d (mk_adb (adict db)
    (match when with Some w => <[k := w]> (aexpires db) | None => delete k (aexpires db) end)).

Definition asetKey (d : Z) (k : key) (v : sval) : AM unit :=
  _ ← alookupWrite d k;
  _ ← astore d k v;
  _ ← aset_expire d k None;
  arecord (add_touched d k).

(** ** Replies: the protocol encodings *)

Definition alen_header (prefix n : Z) : list Z := prefix :: decimal n ++ shared_crlf.

Definition aReplyBulk (s : list Z) : AM unit :=
  _ ← areply (alen_header 36 (Z.of_nat (length s)));
  _ ← areply s;
  areply shared_crlf.
Definition aReplyLongLong (n : Z) : AM unit := areply (alen_header 58 n).
Definition aReplyMultiBulkLen (n : Z) : AM unit := areply (alen_header 42 n).
Definition aReplyError (err : list Z) : AM unit :=
  _ ← areply (bytes_of_string "-ERR ");
  _ ← areply err;
  areply shared_crlf.
Definition aReplyStatus (status : list Z) : AM unit :=
  _ ← areply (bytes_of_string "+");
  _ ← areply status;
  areply shared_crlf.

(** A number argument; [None] after the error reply. *)
Definition aLongLongOrReply (s : list Z) (msg : option (list Z)) : AM (option Z) :=
  match string2ll s with
  | Some v => mret (Some v)
  | None =>
      _ ← aReplyError (default (bytes_of_string "value is not an integer or out of range") msg);
      mret None
  end.

(** ** Simulation *)

(** Run from [s] and from its abstraction, [m] and [am] fault together or
    end in corresponding states with results related by [Q]. *)
Definition sim {A B} (s : server) (m : M A) (am : AM B) (Q : server -> A -> B -> Prop) : Prop :=
  match m s with
  | Ret (a, s') => exists b, am (abs s) = Ret (b, abs s') /\ Q s' a b
  | Fault f => am (abs s) = Fault f
  end.

Lemma sim_bind {A B C D} s (m : M A) (am : AM B) (k : A -> M C) (ak : B -> AM D) P Q :
  sim s m am P -> (forall s' a b, P s' a b -> sim s' (k a) (ak b) Q) ->
  sim s (m ≫= k) (am ≫= ak) Q.
Proof.
  intros H K. unfold sim in *. unfold mbind, M_bind, AM_bind.
  destruct (m s) as [[a s']|f] eqn:E; [|by rewrite H].
  destruct H as (b & -> & HP). exact (K _ _ _ HP).
Qed.

Lemma sim_ret {A B} s (a : A) (b : B) (Q : server -> A -> B -> Prop) :
  Q s a b -> sim s (mret a) (mret b) Q.
Proof. intros H. exists b. done. Qed.

Lemma sim_conseq {A B} s (m : M A) (am : AM B) (P Q : server -> A -> B -> Prop) :
  sim s m am P -> (forall s' a b, P s' a b -> Q s' a b) -> sim s m am Q.
Proof.
  intros H K. unfold sim in *. destruct (m s) as [[a s']|f]; [|done].
  destruct H as (b & E & HP). exists b. auto.
Qed.

(** A step of the code that the specification does not see. *)
Lemma sim_left {A B C} s s' (m : M A) (a : A) (k : A -> M C) (am : AM B) Q :
  m s = Ret (a, s') -> abs s' = abs s -> sim s' (k a) am Q -> sim s (m ≫= k) am Q.
Proof. intros H E K. unfold sim, mbind, M_bind in *. rewrite H. rewrite <- E. exact K. Qed.

(** A step of the specification that does not change its state. *)
Lemma sim_right {A B D} s (m : M A) (am : AM D) (b : D) (ak : D -> AM B) Q :
  am (abs s) = Ret (b, abs s) -> sim s m (ak b) Q -> sim s m (am ≫= ak) Q.
Proof.
  intros H K. unfold sim in *. destruct (m s) as [[a s']|f]; unfold mbind, AM_bind; by rewrite H.
Qed.

Lemma sim_mret_r {A B} s (m : M A) (am : AM B) Q : sim s m (am ≫= mret) Q -> sim s m am Q.
Proof.
  unfold sim, mbind, AM_bind. destruct (m s) as [[a s']|f], (am (abs s)) as [[b t]|g]; done.
Qed.

Lemma sim_mret_r' {A} s (m : M A) (am : AM unit) Q : sim s m (_ ← am; mret tt) Q -> sim s m am Q.
Proof.
  unfold sim, mbind, AM_bind. destruct (m s) as [[a s']|f], (am (abs s)) as [[[] t]|g]; done.
Qed.

Lemma sim_fail {A B} s f (Q : server -> A -> B -> Prop) : sim s (fail f) (afail f) Q.
Proof. done. Qed.

(** Associativity, to reach the first step. *)
Lemma M_assoc {A B C} (m : M A) (f : A -> M B) (g : B -> M C) :
  forall s, ((m ≫= f) ≫= g) s = (m ≫= (fun a => f a ≫= g)) s.
Proof. intros s. unfold mbind, M_bind. destruct (m s) as [[a s']|]; done. Qed.

Lemma AM_assoc {A B C} (m : AM A) (f : A -> AM B) (g : B -> AM C) :
  forall s, ((m ≫= f) ≫= g) s = (m ≫= (fun a => f a ≫= g)) s.
Proof. intros s. unfold mbind, AM_bind. destruct (m s) as [[a s']|]; done. Qed.

Lemma sim_assoc_l {A B C D} s (m : M A) (f : A -> M B) (g : B -> M C) (am : AM D) Q :
  sim s (m ≫= (fun a => f a ≫= g)) am Q -> sim s ((m ≫= f) ≫= g) am Q.
Proof. unfold sim. rewrite M_assoc. auto. Qed.

Lemma sim_unassoc {A B C D} s (m : M A) (f : A -> M B) (g : B -> M C) (am : AM D) Q :
  sim s ((m ≫= f) ≫= g) am Q -> sim s (m ≫= (fun a => f a ≫= g)) am Q.
Proof. unfold sim. rewrite M_assoc. auto. Qed.

Lemma sim_assoc_r {A B C D} s (m : M D) (am : AM A) (f : A -> AM B) (g : B -> AM C) Q :
  sim s m (am ≫= (fun a => f a ≫= g)) Q -> sim s m ((am ≫= f) ≫= g) Q.
Proof. unfold sim. destruct (m s) as [[a s']|f0]; rewrite AM_assoc; auto. Qed.
