(* ===== verification/ServerSim.v ===== *)
(** * ServerSim: the keyspace functions implement the abstract ones

    Each function of object.c and db.c that the commands call keeps the
    reference counts sound ([ok]) and has on the abstraction the effect the
    specification gives it, or none. *)

From S2P Require Import Prelude Util Object Db ServerOk Abstract.

(** ** Frames *)

Definition same_obj (o o' : robj) : Prop :=
  type o' = type o /\ encoding o' = encoding o /\ ptr o' = ptr o.

(** What no function of the keyspace changes. *)
Definition kept (s s' : server) : Prop :=
  argv s' = argv s /\ curdb s' = curdb s /\ cf s' = cf s /\ length (dbs s') = length (dbs s) /\
  forall a o, a ∈ argv s -> heap s !! a = Some o -> exists o', heap s' !! a = Some o' /\ same_obj o o'.

#[export] Instance same_obj_preorder : PreOrder same_obj.
Proof.
  split.
  - intros o. done.
  - intros a b c (H1 & H2 & H3) (H4 & H5 & H6). repeat split; congruence.
Qed.

#[export] Instance kept_preorder : PreOrder kept.
Proof.
  split.
  - intros s. repeat split; try done. intros a o _ H. exists o. done.
  - intros s1 s2 s3 (A1 & C1 & F1 & L1 & H1) (A2 & C2 & F2 & L2 & H2).
    repeat split; try congruence. intros a o Ha Ho. destruct (H1 a o Ha Ho) as (o1 & Ho1 & S1).
    destruct (H2 a o1) as (o2 & Ho2 & S2); [congruence|done|]. exists o2. split; [done|].
    by etrans.
Qed.

Lemma view_same o o' : same_obj o o' -> view o' = view o.
Proof. intros (H1 & H2 & H3). unfold view. by rewrite H1, H3. Qed.

(** ** Abstraction and heap changes *)

Lemma abs_dict_ext h h' m :
  (forall a, (exists k, m !! k = Some a) -> view <$> h' !! a = view <$> h !! a) ->
  abs_dict h' m = abs_dict h m.
Proof.
  intros H. unfold abs_dict. apply map_eq. intros k. rewrite !lookup_omap.
  destruct (m !! k) as [a|] eqn:E; [|done]. cbn. apply H. eauto.
Qed.

Lemma abs_heap h' s :
  (forall a, 0 < refs s a -> view <$> h' !! a = view <$> heap s !! a) ->
  abs (with_heap h' s) = abs s.
Proof.
  intros H. unfold abs, with_heap. cbn. f_equal.
  - apply list_fmap_ext. intros i db Hi. unfold abs_db. f_equal. apply abs_dict_ext.
    intros a [k Hk]. apply H. pose proof (refs_dict s i db k a Hi Hk). lia.
  - apply list_fmap_ext. intros i a Hi. unfold abs_arg. rewrite H; [done|].
    pose proof (refs_arg s a (list_elem_of_lookup_2 _ _ _ Hi)). lia.
Qed.

Lemma refs_with_heap h s a : refs (with_heap h s) a = refs s a.
Proof. done. Qed.

(** Replacing an object in the heap. *)
Lemma set_obj_ok x y s a o o' :
  ok x s -> heap s !! a = Some o -> obj_ok o' -> type o' = type o -> (0 <= a < OBJ_SHARED_INTEGERS -> same_obj o o') ->
  1 <= refcount o' -> refs s a + y a = refcount o' -> (forall b, b <> a -> y b = x b) ->
  ok y (with_heap (<[a := o']> (heap s)) s).
Proof.
  intros [H1 H2 H3 H4 H5 H6 H7 H8 H9] Ho Ho' Hty Hs Hr Hc Hy.
  constructor; try done; cbn [with_heap heap brk dbs curdb].
  - intros b ob. rewrite lookup_insert_Some. intros [[<- <-]|[Hne Hb]]; eauto.
  - intros b ob. rewrite lookup_insert_Some. intros [[<- <-]|[Hne Hb]]; eauto.
  - intros b ob. rewrite lookup_insert_Some, refs_with_heap.
    intros [[<- <-]|[Hne Hb]]; [done|]. rewrite Hy by done. eauto.
  - intros b Hb. rewrite lookup_insert_is_Some. destruct (decide (a = b)) as [|Hne]; [by left|right].
    split; [done|]. apply H4. rewrite <- Hy by done. exact Hb.
  - intros i Hi. destruct (decide (a = i)) as [->|Hne].
    + rewrite lookup_insert_eq. exists o'. split; [done|].
      destruct (Hs Hi) as (E1 & E2 & E3). destruct (H5 i Hi) as (oi & Ho2 & ?).
      rewrite Ho in Ho2. injection Ho2 as <-. rewrite E1, E2, E3. done.
    + rewrite lookup_insert_ne by done. auto.
  - intros b ob Hb. rewrite lookup_insert_Some. intros [[<- <-]|[Hne Hob]]; [|eauto]. rewrite Hty. eauto.
Qed.

Lemma set_obj_kept s a o o' : heap s !! a = Some o -> same_obj o o' ->
  kept s (with_heap (<[a := o']> (heap s)) s) /\ abs (with_heap (<[a := o']> (heap s)) s) = abs s.
Proof.
  intros Ho Hs. split.
  - repeat split; try done. intros b ob Hb Hob. cbn. destruct (decide (a = b)) as [->|Hne].
    + rewrite lookup_insert_eq. exists o'. split; [done|]. congruence.
    + rewrite lookup_insert_ne by done. exists ob. done.
  - apply abs_heap. intros b _. destruct (decide (a = b)) as [->|Hne].
    + rewrite lookup_insert_eq, Ho. cbn. f_equal. by apply view_same.
    + by rewrite lookup_insert_ne.
Qed.

(** ** Reference counts *)

Lemma incr_spec x s a o : ok x s -> heap s !! a = Some o ->
  exists s', incrRefCount a s = Ret (tt, s') /\ s' = with_heap (<[a := with_refcount (refcount o + 1) o]> (heap s)) s /\
    ok (fun b => x b + tok a b) s' /\ abs s' = abs s /\ kept s s'.
Proof.
  intros Hok Ho. eexists. split.
  { unfold incrRefCount, mbind, M_bind, obj, set_obj. rewrite Ho. rewrite Ho. done. }
  split; [done|]. assert (Hs : same_obj o (with_refcount (refcount o + 1) o)) by done.
  destruct (set_obj_kept s a o _ Ho Hs) as [Hk Ha]. split; [|done].
  destruct (ok_count _ _ Hok a o Ho) as [Hr Hc].
  apply set_obj_ok with x o; try done.
  - exact (ok_obj _ _ Hok a o Ho).
  - cbn. lia.
  - cbn. rewrite tok_eq. lia.
  - intros b Hb. rewrite tok_ne by done. lia.
Qed.

Lemma free_ok o s : obj_ok o ->
  (match type o with
   | OBJ_STRING => freeStringObject o
   | OBJ_LIST => freeListObject o
   | OBJ_SET => freeSetObject o
   | OBJ_ZSET => freeZsetObject o
   | OBJ_HASH => freeHashObject o
   end) s = Ret (tt, s).
Proof.
  destruct o as [[] [] l r []]; unfold obj_ok; cbn; done.
Qed.

Lemma decr_spec x s a o : ok x s -> heap s !! a = Some o -> (refcount o = 1 -> refs s a = 0) ->
  exists s', decrRefCount a s = Ret (tt, s') /\ ok (fun b => x b - tok a b) s' /\
    abs s' = abs s /\ kept s s' /\ dbs s' = dbs s /\
    (forall b, b <> a -> heap s' !! b = heap s !! b) /\
    (refcount o <> 1 -> heap s' !! a = Some (with_refcount (refcount o - 1) o)).
Proof.
  intros Hok Ho Hz. destruct (ok_count _ _ Hok a o Ho) as [Hr Hc].
  unfold decrRefCount. unfold mbind at 1, M_bind at 1, obj. rewrite Ho.
  destruct (Z.leb_spec (refcount o) 0); [lia|].
  destruct (Z.eqb_spec (refcount o) 1) as [E|E].
  - unfold mbind, M_bind. rewrite free_ok by exact (ok_obj _ _ Hok a o Ho).
    unfold zfree. rewrite Ho. eexists. split; [done|]. specialize (Hz E).
    assert (Hsh : ~ (0 <= a < OBJ_SHARED_INTEGERS)).
    { intros Hi. unfold refs, shared_ref in Hz. rewrite decide_True in Hz by done.
      pose proof (db_refs_nonneg (dbs s) a). pose proof (argv_refs_nonneg (argv s) a). lia. }
    split; [|split; [|split; [|split; [done|split]]]].
    + destruct Hok as [H1 H2 H3 H4 H5 H6 H7 H8 H9]. constructor; try done; cbn [with_heap heap brk].
      * intros b ob. rewrite lookup_delete_Some. intros [_ Hb]. eauto.
      * intros b ob. rewrite lookup_delete_Some. intros [_ Hb]. eauto.
      * intros b ob. rewrite lookup_delete_Some, refs_with_heap. intros [Hne Hb].
        rewrite tok_ne by done. destruct (H3 b ob Hb). lia.
      * intros b. rewrite refs_with_heap. intros Hb. destruct (decide (b = a)) as [->|Hne].
        { rewrite tok_eq in Hb. lia. }
        rewrite lookup_delete_ne by done. apply H4. rewrite tok_ne in Hb by done. lia.
      * intros i Hi. rewrite lookup_delete_ne by (intros ->; done). auto.
      * intros b ob Hb. rewrite lookup_delete_Some. intros [_ Hob]. eauto.
    + apply abs_heap. intros b Hb. rewrite lookup_delete_ne; [done|]. intros ->. lia.
    + repeat split; try done. intros b ob Hb Hob. cbn. exists ob. split; [|done].
      rewrite lookup_delete_ne; [done|]. intros ->. pose proof (refs_arg s b Hb). lia.
    + intros b Hb. cbn. by rewrite lookup_delete_ne.
    + lia.
  - unfold set_obj. rewrite Ho. eexists. split; [done|].
    assert (Hs : same_obj o (with_refcount (refcount o - 1) o)) by done.
    destruct (set_obj_kept s a o _ Ho Hs) as [Hk Ha]. split; [|split; [done|split; [done|split; [done|split]]]].
    + apply set_obj_ok with x o; try done.
      * exact (ok_obj _ _ Hok a o Ho).
      * cbn. lia.
      * cbn. rewrite tok_eq. lia.
      * intros b Hb. rewrite tok_ne by done. lia.
    + intros b Hb. cbn. by rewrite lookup_insert_ne.
    + intros _. cbn. by rewrite lookup_insert_eq.
Qed.

(** Dropping a reference that the code holds. *)
Lemma decr_held x s a o : ok x s -> heap s !! a = Some o -> 0 < x a ->
  exists s', decrRefCount a s = Ret (tt, s') /\ ok (fun b => x b - tok a b) s' /\
    abs s' = abs s /\ kept s s' /\ dbs s' = dbs s /\
    (forall b, b <> a -> heap s' !! b = heap s !! b) /\
    (refcount o <> 1 -> heap s' !! a = Some (with_refcount (refcount o - 1) o)).
Proof.
  intros Hok Ho Hx. apply decr_spec; [done|done|]. intros E.
  destruct (ok_count _ _ Hok a o Ho) as [_ Hc]. pose proof (refs_nonneg s a). lia.
Qed.

Lemma malloc_spec x s o : ok x s -> obj_ok o -> refcount o = 1 ->
  exists s', malloc o s = Ret (brk s, s') /\ ok (fun b => x b + tok (brk s) b) s' /\
    abs s' = abs s /\ kept s s' /\ dbs s' = dbs s /\ heap s' = <[brk s := o]> (heap s) /\
    heap s !! brk s = None /\ lg s' = lg s.
Proof.
  intros Hok Ho Hr. destruct Hok as [H1 H2 H3 H4 H5 H6 H7 H8 H9].
  assert (Hn : heap s !! brk s = None).
  { destruct (heap s !! brk s) as [o'|] eqn:E; [|done]. specialize (H2 _ _ E). lia. }
  assert (Hz : ~ (0 < refs s (brk s) \/ x (brk s) <> 0)).
  { intros [? E]%H4. congruence. }
  assert (Hz0 : refs s (brk s) + x (brk s) = 0) by (pose proof (refs_nonneg s (brk s)); lia).
  eexists. split; [done|]. cbn. split; [|split; [|split; [|done]]].
  - constructor; try done; cbn [heap brk].
    + intros b ob. rewrite lookup_insert_Some. intros [[<- <-]|[Hne Hb]]; eauto.
    + intros b ob. rewrite lookup_insert_Some. intros [[<- <-]|[Hne Hb]]; [lia|]. specialize (H2 _ _ Hb). lia.
    + intros b ob. rewrite lookup_insert_Some.
      change (refs (mk_server _ _ _ _ _ _ _) b) with (refs s b).
      intros [[<- <-]|[Hne Hb]]; [rewrite tok_eq; lia|]. rewrite tok_ne by done.
      destruct (H3 b ob Hb). lia.
    + intros b. change (refs (mk_server _ _ _ _ _ _ _) b) with (refs s b). intros Hb.
      rewrite lookup_insert_is_Some. destruct (decide (brk s = b)) as [|Hne]; [by left|right].
      split; [done|]. apply H4. rewrite tok_ne in Hb by done. lia.
    + intros i Hi. rewrite lookup_insert_ne by lia. auto.
    + lia.
    + intros b ob Hb. rewrite lookup_insert_Some. intros [[<- <-]|[Hne Hob]]; [|eauto].
      exfalso. apply Hz. left. pose proof (refs_arg s (brk s) Hb). lia.
  - change (abs (with_heap (<[brk s := o]> (heap s)) s) = abs s). apply abs_heap.
    intros b Hb. rewrite lookup_insert_ne; [done|]. intros E. rewrite <- E in Hb. tauto.
  - repeat split; try done. intros b ob Hb Hob. cbn. exists ob. split; [|done].
    rewrite lookup_insert_ne; [done|]. intros E. rewrite <- E in Hob. congruence.
Qed.

(** ** Databases *)

Definition db_at (s : server) (d : Z) (db : redisDb) : Prop :=
  0 <= d /\ dbs s !! Z.to_nat d = Some db.

Definition db_exists (s : server) (d : Z) : Prop := 0 <= d < Z.of_nat (length (dbs s)).

Lemma db_at_exists s d : db_exists s d -> exists db, db_at s d db.
Proof.
  intros [H1 H2]. destruct (lookup_lt_is_Some_2 (dbs s) (Z.to_nat d)) as [db Hdb]; [lia|].
  exists db. split; done.
Qed.

Lemma db_exists_kept s s' d : kept s s' -> db_exists s d -> db_exists s' d.
Proof. intros (_ & _ & _ & L & _). unfold db_exists. by rewrite L. Qed.

Lemma get_db_at s d db : db_at s d db -> get_db d s = Ret (db, s).
Proof. intros [H1 H2]. unfold get_db. destruct (Z.ltb_spec d 0); [lia|]. by rewrite H2. Qed.

Lemma aget_db_at s d db : db_at s d db -> aget_db d (abs s) = Ret (abs_db (heap s) db, abs s).
Proof.
  intros [H1 H2]. unfold aget_db. destruct (Z.ltb_spec d 0); [lia|]. cbn [abs adbs].
  by rewrite list_lookup_fmap, H2.
Qed.

Definition put_db (d : Z) (db' : redisDb) (s : server) : server :=
  with_dbs (<[Z.to_nat d := db']> (dbs s)) s.

Lemma set_db_at s d db db' : db_at s d db -> set_db d db' s = Ret (tt, put_db d db' s).
Proof. intros [H1 H2]. unfold set_db. destruct (Z.ltb_spec d 0); [lia|]. by rewrite H2. Qed.

Lemma db_at_put s d db db' : db_at s d db -> db_at (put_db d db' s) d db'.
Proof.
  intros [H1 H2]. split; [done|]. cbn. apply list_lookup_insert_eq. by eapply lookup_lt_Some.
Qed.

Lemma aset_db_put s d db' : aset_db d (abs_db (heap s) db') (abs s) = Ret (tt, abs (put_db d db' s)).
Proof. unfold aset_db, put_db, abs. cbn. by rewrite list_fmap_insert. Qed.

Lemma put_kept s d db' : kept s (put_db d db' s).
Proof.
  repeat split; try done; cbn; [by rewrite length_insert|]. intros a o _ H. exists o. done.
Qed.

Lemma count_dict_pos m a : 0 < count_dict m a -> exists k, m !! k = Some a.
Proof.
  unfold count_dict. intros H. assert (size (filter (fun kv : key * addr => kv.2 = a) m) <> 0%nat) by lia.
  apply map_size_ne_0_lookup in H0 as (k & b & Hk). apply map_lookup_filter_Some in Hk as [Hk E].
  cbn in E. subst b. eauto.
Qed.

Lemma refs_put s d db db' a : db_at s d db ->
  refs (put_db d db' s) a = refs s a - count_dict (dict db) a + count_dict (dict db') a.
Proof. intros [_ H]. unfold refs. cbn. rewrite (db_refs_insert _ _ _ _ _ H). lia. Qed.

Lemma count_dict_refs s d db a : db_at s d db -> count_dict (dict db) a <= refs s a.
Proof.
  intros [H1 H2]. unfold refs. pose proof (argv_refs_nonneg (argv s) a). pose proof (shared_ref_range a).
  assert (count_dict (dict db) a <= db_refs (dbs s) a); [|lia]. clear - H2.
  revert H2. generalize (Z.to_nat d). induction (dbs s) as [|y l IH]; intros [|n] H; try done; cbn in *.
  - injection H as ->. pose proof (db_refs_nonneg l a). lia.
  - pose proof (IH _ H). pose proof (count_dict_nonneg (dict y) a). lia.
Qed.

Lemma put_db_ok x y s d db db' : ok x s -> db_at s d db -> db_ok db' ->
  (forall a, y a = x a + count_dict (dict db) a - count_dict (dict db') a) ->
  (forall k a, dict db' !! k = Some a -> is_Some (heap s !! a)) ->
  ok y (put_db d db' s).
Proof.
  intros [H1 H2 H3 H4 H5 H6 H7 H8 H9] Hd Hdb Hy Hl. constructor; try done.
  - intros a o Ho. rewrite (refs_put s d db), Hy by done. destruct (H3 a o Ho). lia.
  - intros a. rewrite (refs_put s d db), Hy by done. intros Ha. cbn.
    pose proof (count_dict_refs s d db a Hd).
    destruct (Z.lt_ge_cases 0 (count_dict (dict db') a)) as [Hp|Hp].
    + apply count_dict_pos in Hp as [k Hk]. eauto.
    + pose proof (count_dict_nonneg (dict db) a). pose proof (count_dict_nonneg (dict db') a). apply H4. lia.
  - cbn. apply Forall_insert; done.
  - cbn. by rewrite length_insert.
Qed.

Lemma dict_live x s d db k a : ok x s -> db_at s d db -> dict db !! k = Some a ->
  exists o, heap s !! a = Some o /\ obj_ok o.
Proof.
  intros Hok [H1 H2] Hk. pose proof (refs_dict s _ _ _ _ H2 Hk).
  destruct (ok_live _ _ Hok a) as [o Ho]; [lia|]. exists o. split; [done|]. by eapply ok_obj.
Qed.

Lemma db_at_ok x s d db : ok x s -> db_at s d db -> db_ok db.
Proof. intros Hok [H1 H2]. exact (Forall_lookup_1 _ _ _ _ (ok_dbs _ _ Hok) H2). Qed.

Lemma abs_dict_lookup x s d db k : ok x s -> db_at s d db ->
  abs_dict (heap s) (dict db) !! k =
  match dict db !! k with Some a => view <$> heap s !! a | None => None end.
Proof. intros. unfold abs_dict. rewrite lookup_omap. by destruct (dict db !! k). Qed.

Lemma abs_dict_is_Some x s d db k : ok x s -> db_at s d db ->
  is_Some (abs_dict (heap s) (dict db) !! k) <-> is_Some (dict db !! k).
Proof.
  intros Hok Hd. rewrite (abs_dict_lookup x s d) by done. destruct (dict db !! k) as [a|] eqn:E; [|done].
  destruct (dict_live x s d db k a Hok Hd E) as (o & -> & _). cbn. split; eauto.
Qed.

Lemma abs_dict_insert h m k a o : h !! a = Some o ->
  abs_dict h (<[k := a]> m) = <[k := view o]> (abs_dict h m).
Proof. intros H. unfold abs_dict. apply omap_insert_Some. by rewrite H. Qed.

Lemma abs_dict_delete h m k : abs_dict h (delete k m) = delete k (abs_dict h m).
Proof. apply omap_delete. Qed.

(** ** Sds arguments *)

Definition is_sds (s : server) (a : addr) (k : list Z) : Prop :=
  exists o, heap s !! a = Some o /\ type o = OBJ_STRING /\ sdsEncodedObject o = true /\ ptr o = PSds k.

Lemma sds_of_at s a k : is_sds s a k -> sds_of a s = Ret (k, s).
Proof. intros (o & Ho & _ & _ & Hp). unfold sds_of, mbind, M_bind, obj. by rewrite Ho, Hp. Qed.

Lemma is_sds_kept s s' a k : kept s s' -> a ∈ argv s -> is_sds s a k -> is_sds s' a k.
Proof.
  intros (_ & _ & _ & _ & H) Ha (o & Ho & Ht & He & Hp). destruct (H a o Ha Ho) as (o' & Ho' & E1 & E2 & E3).
  exists o'. unfold sdsEncodedObject in *. rewrite E1, E2, E3. done.
Qed.

(** A key argument. *)
Definition is_key (s : server) (a : addr) (k : key) : Prop := a ∈ argv s /\ is_sds s a k.

Lemma is_key_kept s s' a k : kept s s' -> is_key s a k -> is_key s' a k.
Proof.
  intros H [Ha Hs]. split; [|by apply (is_sds_kept s s')]. destruct H as (-> & _). done.
Qed.

(** Steps that only read. *)
Lemma sim_read {A B C} s (m : M A) (a : A) (k : A -> M C) (am : AM B) Q :
  m s = Ret (a, s) -> sim s (k a) am Q -> sim s (m ≫= k) am Q.
Proof. intros. by apply sim_left with s a. Qed.

Lemma sim_record x s f (Q : server -> unit -> unit -> Prop) : ok x s ->
  (ok x (with_lg f s) -> kept s (with_lg f s) -> Q (with_lg f s) tt tt) ->
  sim s (record f) (arecord f) Q.
Proof.
  intros Hok HQ. exists tt. split; [done|]. apply HQ.
  - destruct Hok. constructor; done.
  - repeat split; try done. intros a o _ H. exists o. done.
Qed.

Lemma sim_rec x s f : ok x s ->
  sim s (record f) (arecord f)
    (fun s' _ _ => ok x s' /\ kept s s' /\ heap s' = heap s /\ dbs s' = dbs s).
Proof. intros Hok. by apply (sim_record x). Qed.

Lemma sim_assert {A B} s b (k : unit -> M A) (am : AM B) Q : b = true ->
  sim s (k tt) am Q -> sim s (serverAssert b ≫= k) am Q.
Proof. intros ->. by apply sim_read. Qed.

(** ** Deleting and expiring keys *)

Lemma getExpire_at x s d key k db : ok x s -> is_sds s key k -> db_at s d db ->
  getExpire d key s = Ret (default (-1) (expires db !! k), s).
Proof.
  intros Hok Hk Hd. unfold getExpire, mbind, M_bind. rewrite (sds_of_at _ _ _ Hk), (get_db_at _ _ _ Hd).
  destruct (expires db !! k) as [w|] eqn:E; [|done]. cbn [default].
  assert (is_Some (dict db !! k)) as Hs.
  { apply elem_of_dom. apply (db_at_ok _ _ _ _ Hok Hd). apply elem_of_dom. eauto. }
  rewrite bool_decide_true by done. done.
Qed.

(** No reference is owed. *)
Definition held (x : addr -> Z) : Prop := forall a, 0 <= x a.

Lemma put_put d db1 db2 s : put_db d db2 (put_db d db1 s) = put_db d db2 s.
Proof. unfold put_db, with_dbs. cbn. by rewrite list_insert_insert_eq. Qed.

Lemma put_same s d db : db_at s d db -> put_db d db s = s.
Proof.
  intros [H1 H2]. unfold put_db, with_dbs. rewrite list_insert_id by done. by destruct s.
Qed.

(** An entry without an expire time leaves the keyspace, its reference is
    dropped. *)
Lemma dict_delete_spec x s d db k : ok x s -> held x -> db_at s d db -> expires db !! k = None ->
  exists s', dict_delete d k s = Ret (bool_decide (is_Some (dict db !! k)), s') /\
    ok x s' /\ kept s s' /\ abs s' = abs (put_db d (mk_db (delete k (dict db)) (expires db)) s).
Proof.
  intros Hok Hx Hd He. unfold dict_delete, mbind, M_bind. rewrite (get_db_at _ _ _ Hd).
  destruct (dict db !! k) as [a|] eqn:Ek.
  - rewrite (set_db_at _ _ _ _ Hd). set (db' := mk_db _ _).
    assert (Hok' : ok (fun b => x b + tok a b) (put_db d db' s)).
    { apply put_db_ok with x db; [done|done| | |].
      - pose proof (db_at_ok _ _ _ _ Hok Hd) as Hdb. unfold db_ok in *. cbn. rewrite dom_delete_L.
        apply not_elem_of_dom in He. set_solver.
      - intros b. cbn. rewrite count_dict_delete, Ek. cbn. lia.
      - cbn. intros k' b. rewrite lookup_delete_Some. intros [_ Hb].
        destruct (dict_live x s d db k' b Hok Hd Hb) as (o & -> & _). eauto. }
    destruct (dict_live x s d db k a Hok Hd Ek) as (o & Ho & _).
    destruct (decr_held _ (put_db d db' s) a o Hok' Ho) as (s' & -> & Hok2 & Habs & Hkept & _).
    { rewrite tok_eq. specialize (Hx a). lia. }
    exists s'. split; [done|]. split; [|split; [|done]].
    + eapply ok_ext; [|exact Hok2]. intros b. cbn. lia.
    + etrans; [apply put_kept|done].
  - exists s. split; [done|]. split; [done|]. split; [done|].
    rewrite delete_id by done. destruct db. by rewrite put_same.
Qed.

(** [db->expires] loses a key. *)
Lemma expires_delete_ok x s d db k : ok x s -> db_at s d db ->
  ok x (put_db d (mk_db (dict db) (delete k (expires db))) s).
Proof.
  intros Hok Hd. apply put_db_ok with x db; try done.
  - pose proof (db_at_ok _ _ _ _ Hok Hd). unfold db_ok in *. cbn. rewrite dom_delete_L. set_solver.
  - intros a. cbn. lia.
  - intros k' a Ha. destruct (dict_live x s d db k' a Hok Hd Ha) as (o & -> & _). eauto.
Qed.

Lemma dbDelete_sim x s d key k : ok x s -> held x -> is_sds s key k -> db_exists s d ->
  sim s (dbDelete d key) (adelete d k) (fun s' b b' => b' = b /\ ok x s' /\ kept s s').
Proof.
  intros Hok Hx Hk He. destruct (db_at_exists s d He) as [db Hd].
  unfold dbDelete. eapply sim_read; [by apply sds_of_at|]. eapply sim_read; [by apply get_db_at|].
  set (db1 := mk_db (dict db) (delete k (expires db))).
  assert (Hexp : (if bool_decide (expires db = ∅) then mret false else expires_delete d k) s =
    Ret (bool_decide (is_Some (expires db !! k)), put_db d db1 s)).
  { case_bool_decide as E.
    - subst db1. rewrite E, lookup_empty, delete_empty, <- E. rewrite put_same by (by destruct db). done.
    - unfold expires_delete, mbind, M_bind. rewrite (get_db_at _ _ _ Hd), (set_db_at _ _ _ _ Hd). done. }
  pose proof (expires_delete_ok x s d db k Hok Hd) as Hok1. fold db1 in Hok1.
  pose proof (db_at_put s d db db1 Hd) as Hd1.
  destruct (dict_delete_spec x _ d db1 k Hok1 Hx Hd1) as (s' & Hdel & Hok' & Hkept & Habs).
  { apply lookup_delete_eq. }
  rewrite put_put in Habs. unfold sim, adelete, mbind, M_bind, AM_bind. rewrite Hexp, Hdel.
  rewrite (aget_db_at _ _ _ Hd). cbn [adict aexpires abs_db]. rewrite <- abs_dict_delete.
  set (db2 := mk_db (delete k (dict db)) (delete k (expires db))).
  change (mk_adb _ _) with (abs_db (heap s) db2). rewrite aset_db_put. eexists. split.
  - rewrite Habs. done.
  - split; [|split; [done|]]; [|etrans; [apply put_kept|done]].
    apply bool_decide_ext. exact (abs_dict_is_Some x s d db k Hok Hd).
Qed.

Lemma incr_decr s a x o : ok x s -> heap s !! a = Some o ->
  exists s1, incrRefCount a s = Ret (tt, s1) /\ forall f, decrRefCount a (with_lg f s1) = Ret (tt, with_lg f s).
Proof.
  intros Hok Ho. destruct (incr_spec x s a o Hok Ho) as (s1 & H1 & -> & _). eexists. split; [done|].
  intros f. destruct (ok_count _ _ Hok a o Ho). unfold decrRefCount, mbind, M_bind, obj, set_obj.
  cbn [with_lg with_heap heap]. rewrite lookup_insert_eq. cbn [refcount with_refcount].
  destruct (Z.leb_spec (refcount o + 1) 0); [lia|]. destruct (Z.eqb_spec (refcount o + 1) 1); [lia|].
  cbn [with_lg with_heap heap]. rewrite lookup_insert_eq, insert_insert_eq. unfold with_lg, with_heap. cbn. do 3 f_equal.
  apply insert_id. rewrite Ho. f_equal. destruct o. unfold with_refcount. cbn. f_equal. lia.
Qed.

Lemma propagateExpire_sim x s d key k : ok x s -> is_key s key k ->
  sim s (propagateExpire d key) (arecord (add_propagated d [bytes_of_string "DEL"; k]))
    (fun s' _ _ => ok x s' /\ kept s s' /\ heap s' = heap s /\ dbs s' = dbs s).
Proof.
  intros Hok [Ha Hk]. destruct Hk as (o & Ho & Hrest).
  destruct (incr_decr s key x o Hok Ho) as (s1 & H1 & H2).
  destruct (incr_spec x s key o Hok Ho) as (s1' & H1' & _ & _ & _ & Hk1).
  rewrite H1 in H1'. injection H1' as <-.
  unfold propagateExpire, sim, mbind, M_bind. rewrite H1.
  rewrite (sds_of_at s1 key k) by (apply (is_sds_kept s); [done|done|by exists o]).
  cbn [record]. unfold record. rewrite H2. exists tt. split; [done|].
  pose proof (sim_rec x s (add_propagated d [bytes_of_string "DEL"; k]) Hok) as Hr. cbn in Hr. destruct Hr as (b & _ & Hr). done.
Qed.

Lemma expireIfNeeded_sim x s d key k : ok x s -> held x -> is_key s key k -> db_exists s d ->
  sim s (expireIfNeeded d key) (aexpireIfNeeded d k) (fun s' b b' => b' = b /\ ok x s' /\ kept s s').
Proof.
  intros Hok Hx [Ha Hk] He. destruct (db_at_exists s d He) as [db Hd].
  unfold expireIfNeeded, aexpireIfNeeded.
  eapply sim_read; [by eapply getExpire_at|]. eapply sim_read; [done|].
  eapply sim_right; [by apply aget_db_at|]. eapply sim_right; [done|]. cbn [aexpires abs_db acf abs].
  unfold expired_at.
  assert (Hret : forall b : bool, sim s (mret b) (mret b) (fun s' b b' => b' = b /\ ok x s' /\ kept s s')).
  { intros b. apply sim_ret. done. }
  destruct (expires db !! k) as [w|] eqn:Ew; [|apply Hret].
  change (default (-1) (Some w)) with w.
  destruct (Z.ltb_spec w 0), (Z.leb_spec 0 w); try lia; cbn [andb]; [apply Hret|].
  destruct (loading (cf s)); cbn [negb andb]; [apply Hret|].
  set (now := if lua_caller (cf s) then _ else _).
  destruct (masterhost (cf s)) eqn:Em.
  - destruct (w <? now); apply Hret.
  - destruct (Z.leb_spec now w), (Z.ltb_spec w now); try lia; [apply Hret|].
    eapply sim_bind; [eapply sim_rec; exact Hok|]. intros s1 [] [] (Hok1 & Hk1 & _).
    assert (Hkey1 : is_key s1 key k) by (by apply (is_key_kept s)).
    eapply sim_bind; [by eapply propagateExpire_sim|]. intros s2 [] [] (Hok2 & Hk2 & _).
    eapply sim_read; [apply sds_of_at, (is_key_kept s1); done|].
    eapply sim_bind; [eapply sim_rec; exact Hok2|]. intros s3 [] [] (Hok3 & Hk3 & _).
    assert (Hk03 : kept s s3) by (do 2 (etrans; [eassumption|]); done).
    eapply sim_conseq; [apply (dbDelete_sim x)|]; try done.
    + by apply (is_sds_kept s).
    + by apply (db_exists_kept s).
    + intros s4 b b' (-> & ? & ?). split_and!; [done|done|]. by etrans.
Qed.

(** ** Looking up keys *)

(** The object [o] found at [k], and the value [v] it stands for. *)
Definition found (s : server) (d : Z) (k : key) (o : option addr) (v : option sval) : Prop :=
  exists db, db_at s d db /\ dict db !! k = o /\
    match o with
    | Some a => exists r, heap s !! a = Some r /\ obj_ok r /\ v = Some (view r)
    | None => v = None
    end.

Lemma found_ext s s' d k o v : heap s' = heap s -> dbs s' = dbs s -> found s d k o v -> found s' d k o v.
Proof.
  intros Hh Hd (db & [H1 H2] & H3 & H4). exists db. unfold db_at. rewrite Hd, Hh. done.
Qed.

Lemma found_is_Some s d k o v : found s d k o v -> is_Some o <-> is_Some v.
Proof.
  intros (db & _ & _ & H). destruct o; [destruct H as (r & _ & _ & ->); split; by eexists|by rewrite H].
Qed.

Lemma touch_spec x s a o clock : ok x s -> heap s !! a = Some o ->
  exists s', set_obj a (with_lru clock o) s = Ret (tt, s') /\ ok x s' /\ kept s s' /\ abs s' = abs s /\
    dbs s' = dbs s /\ heap s' = <[a := with_lru clock o]> (heap s).
Proof.
  intros Hok Ho. unfold set_obj. rewrite Ho. eexists. split; [done|].
  destruct (set_obj_kept s a o (with_lru clock o) Ho) as [Hk Habs]; [done|].
  destruct (ok_count _ _ Hok a o Ho). split; [|done].
  apply set_obj_ok with x o; try done. exact (ok_obj _ _ Hok a o Ho).
Qed.

Lemma lookupKey_sim x s d key k touch : ok x s -> is_sds s key k -> db_exists s d ->
  sim s (lookupKey d key touch) (alookup d k)
    (fun s' o v => found s' d k o v /\ ok x s' /\ kept s s' /\ dbs s' = dbs s).
Proof.
  intros Hok Hk He. destruct (db_at_exists s d He) as [db Hd]. unfold lookupKey, alookup.
  eapply sim_read; [by apply sds_of_at|].
  eapply sim_read; [unfold dict_find, mbind, M_bind; by rewrite (get_db_at _ _ _ Hd)|].
  eapply sim_right; [by apply aget_db_at|]. cbn [adict abs_db].
  rewrite (abs_dict_lookup x s d) by done.
  destruct (dict db !! k) as [a|] eqn:Ea.
  - destruct (dict_live x s d db k a Hok Hd Ea) as (o & Ho & Hoo). rewrite Ho.
    eapply sim_read; [done|]. destruct (negb _ && touch).
    + destruct (touch_spec x s a o (lruclock (cf s)) Hok Ho) as (s' & Hs & Hok' & Hk' & Habs & Hdb & Hh).
      eapply sim_left; [|exact Habs|].
      { unfold mbind, M_bind, obj, get. rewrite Ho. exact Hs. }
      apply sim_ret. split; [|done]. exists db. split; [|split; [done|]].
      * unfold db_at. by rewrite Hdb.
      * exists (with_lru (lruclock (cf s)) o). rewrite Hh, lookup_insert_eq. done.
    + eapply sim_read; [done|]. apply sim_ret. split; [|done]. exists db. split; [done|].
      split; [done|]. exists o. done.
  - apply sim_ret. split; [|done]. exists db. done.
Qed.

Lemma lookupKeyReadWithFlags_sim x s d key k touch : ok x s -> held x -> is_key s key k -> db_exists s d ->
  sim s (lookupKeyReadWithFlags d key touch) (alookupRead d k)
    (fun s' o v => match v with Some _ => found s' d k o v | None => o = None end /\ ok x s' /\ kept s s').
Proof.
  intros Hok Hx Hk He. unfold lookupKeyReadWithFlags, alookupRead.
  eapply sim_bind; [by apply (expireIfNeeded_sim x)|]. intros s1 b b' (-> & Hok1 & Hk1).
  eapply sim_read; [done|]. eapply sim_right; [done|]. cbn [acf abs].
  destruct (b && _).
  { apply sim_ret. done. }
  destruct (is_key_kept _ _ _ _ Hk1 Hk) as [_ Hs1].
  eapply sim_bind; [apply (lookupKey_sim x); [done|done|by apply (db_exists_kept s)]|].
  intros s2 o v (Hf & Hok2 & Hk2 & _).
  assert (Hrec : match o with None => add_miss | Some _ => add_hit end =
                 match v with None => add_miss | Some _ => add_hit end).
  { apply found_is_Some in Hf. destruct o, v; try done; destruct Hf as [H1 H2];
      [destruct H1|destruct H2]; eauto; done. }
  rewrite Hrec. eapply sim_bind; [by apply (sim_rec x)|]. intros s3 [] [] (Hok3 & Hk3 & Hh & Hdb).
  apply sim_ret. split; [|split; [done|]].
  - apply (found_ext s2 s3) in Hf; [|done|done]. destruct v; [done|].
    destruct Hf as (db & _ & _ & Hf). destruct o; [|done]. destruct Hf as (r & _ & _ & ?). done.
  - do 2 (etrans; [eassumption|]). done.
Qed.

Lemma lookupKeyWrite_sim x s d key k : ok x s -> held x -> is_key s key k -> db_exists s d ->
  sim s (lookupKeyWrite d key) (alookupWrite d k)
    (fun s' o v => found s' d k o v /\ ok x s' /\ kept s s').
Proof.
  intros Hok Hx Hk He. unfold lookupKeyWrite, alookupWrite.
  eapply sim_bind; [by apply (expireIfNeeded_sim x)|]. intros s1 b b' (-> & Hok1 & Hk1).
  destruct (is_key_kept _ _ _ _ Hk1 Hk) as [_ Hs1].
  eapply sim_conseq; [apply (lookupKey_sim x); [done|done|by apply (db_exists_kept s)]|].
  intros s2 o v (Hf & Hok2 & Hk2 & _). split; [done|]. split; [done|]. by etrans.
Qed.

Lemma cur_exists x s : ok x s -> db_exists s (curdb s).
Proof. intros Hok. exact (ok_cur _ _ Hok). Qed.

Lemma lookupKeyReadOrReply_sim x s key k reply : ok x s -> held x -> is_key s key k ->
  sim s (lookupKeyReadOrReply key reply) (alookupReadOrReply k reply)
    (fun s' o v => match v with Some _ => found s' (curdb s) k o v | None => o = None end /\ ok x s' /\ kept s s').
Proof.
  intros Hok Hx Hk. unfold lookupKeyReadOrReply, alookupReadOrReply.
  eapply sim_read; [done|]. eapply sim_right; [done|]. cbn [acur abs].
  eapply sim_bind; [apply (lookupKeyReadWithFlags_sim x); try done; by apply (cur_exists x)|].
  intros s1 o v (Hf & Hok1 & Hk1). destruct v as [v|].
  - assert (exists a, o = Some a) as [a ->].
    { destruct o as [a|]; [by exists a|]. destruct Hf as (db & _ & _ & ?). done. }
    eapply sim_read; [done|]. eapply sim_right; [done|]. apply sim_ret. done.
  - subst o. eapply sim_bind; [by apply (sim_rec x)|]. intros s2 [] [] (Hok2 & Hk2 & _).
    apply sim_ret. split; [done|]. split; [done|]. by etrans.
Qed.

Lemma lookupKeyWriteOrReply_sim x s key k reply : ok x s -> held x -> is_key s key k ->
  sim s (lookupKeyWriteOrReply key reply) (alookupWriteOrReply k reply)
    (fun s' o v => found s' (curdb s) k o v /\ ok x s' /\ kept s s').
Proof.
  intros Hok Hx Hk. unfold lookupKeyWriteOrReply, alookupWriteOrReply.
  eapply sim_read; [done|]. eapply sim_right; [done|]. cbn [acur abs].
  eapply sim_bind; [apply (lookupKeyWrite_sim x); try done; by apply (cur_exists x)|].
  intros s1 o v (Hf & Hok1 & Hk1). pose proof (found_is_Some _ _ _ _ _ Hf) as His. destruct v as [v|], o as [a|].
  - eapply sim_read; [done|]. eapply sim_right; [done|]. apply sim_ret. done.
  - destruct His as [_ His]. destruct His; [by eexists|done].
  - destruct His as [His _]. destruct His; [by eexists|done].
  - eapply sim_bind; [by apply (sim_rec x)|]. intros s2 [] [] (Hok2 & Hk2 & Hh & Hdb).
    apply sim_ret. split; [by apply (found_ext s1)|]. split; [done|]. by etrans.
Qed.

(** ** Storing values and expire times *)

Lemma astore_put s d db k a r : db_at s d db -> heap s !! a = Some r ->
  astore d k (view r) (abs s) = Ret (tt, abs (put_db d (mk_db (<[k := a]> (dict db)) (expires db)) s)).
Proof.
  intros Hd Hr. unfold astore, mbind, AM_bind. rewrite (aget_db_at _ _ _ Hd). cbn [adict aexpires abs_db].
  rewrite <- (abs_dict_insert _ _ _ _ _ Hr). apply aset_db_put with (db' := mk_db _ _).
Qed.

Lemma aset_expire_put s d db k w : db_at s d db ->
  aset_expire d k w (abs s) = Ret (tt, abs (put_db d (mk_db (dict db)
    (match w with Some w => <[k := w]> (expires db) | None => delete k (expires db) end)) s)).
Proof.
  intros Hd. unfold aset_expire, mbind, AM_bind. rewrite (aget_db_at _ _ _ Hd).
  apply aset_db_put with (db' := mk_db _ _).
Qed.

(** The entry [k] now holds [a]; a reference to [a] is owed, one to the old
    value is held. *)
Lemma insert_entry_ok x s d db k a r : ok x s -> db_at s d db -> heap s !! a = Some r ->
  ok (fun b => x b - tok a b + old_tok (dict db !! k) b)
    (put_db d (mk_db (<[k := a]> (dict db)) (expires db)) s).
Proof.
  intros Hok Hd Hr. apply put_db_ok with x db; [done|done| | |].
  - pose proof (db_at_ok _ _ _ _ Hok Hd). unfold db_ok in *. cbn. rewrite dom_insert_L. set_solver.
  - intros b. cbn. rewrite count_dict_insert. lia.
  - cbn. intros k' b. rewrite lookup_insert_Some. intros [[_ <-]|[_ Hb]]; [eauto|].
    destruct (dict_live x s d db k' b Hok Hd Hb) as (o & -> & _). eauto.
Qed.

(** The result of storing [a] at [k]. *)
Definition stored (s s' : server) (d : Z) (k : key) (a : addr) (r : robj) : Prop :=
  kept s s' /\ exists db r', db_at s' d db /\ dict db !! k = Some a /\
    heap s' !! a = Some r' /\ same_obj r r' /\ refcount r' <= refcount r.

Lemma dbAdd_sim x s d key k a r v : ok x s -> is_sds s key k -> found s d k None v ->
  heap s !! a = Some r ->
  sim s (dbAdd d key a) (astore d k (view r))
    (fun s' _ _ => ok (fun b => x b - tok a b) s' /\ stored s s' d k a r /\ heap s' = heap s).
Proof.
  intros Hok Hk (db & Hd & Hn & _) Hr. set (db' := mk_db (<[k := a]> (dict db)) (expires db)).
  assert (E : dbAdd d key a s = Ret (tt, put_db d db' s)).
  { unfold dbAdd, dict_add, mbind, M_bind.
    rewrite (sds_of_at _ _ _ Hk), (get_db_at _ _ _ Hd), Hn, (set_db_at _ _ _ _ Hd). done. }
  unfold sim. rewrite E. exists tt. split; [by apply astore_put|]. split; [|split; [|done]].
  - eapply ok_ext; [|by eapply insert_entry_ok]. intros b. rewrite Hn. cbn. lia.
  - split; [apply put_kept|]. exists db', r. split; [by eapply db_at_put|].
    split; [apply lookup_insert_eq|]. done.
Qed.

Lemma refs_two s d db k a : db_at s d db -> dict db !! k = Some a -> a ∈ argv s -> 2 <= refs s a.
Proof.
  intros [_ H] Hk Ha. unfold refs. pose proof (db_refs_lookup _ _ _ _ _ H Hk).
  pose proof (argv_refs_in _ _ Ha). pose proof (shared_ref_range a). lia.
Qed.

Lemma dict_replace_spec x s d db k a r old : ok x s -> held x -> db_at s d db -> dict db !! k = Some old ->
  heap s !! a = Some r -> 1 <= x a \/ a ∈ argv s ->
  exists s', dict_replace d k a s = Ret (tt, s') /\ ok (fun b => x b - tok a b) s' /\
    abs s' = abs (put_db d (mk_db (<[k := a]> (dict db)) (expires db)) s) /\
    stored s s' d k a r.
Proof.
  intros Hok Hx Hd Hold Hr Ha. set (db' := mk_db (<[k := a]> (dict db)) (expires db)).
  pose proof (insert_entry_ok x s d db k a r Hok Hd Hr) as Hok1. fold db' in Hok1. rewrite Hold in Hok1.
  cbn [old_tok] in Hok1. destruct (dict_live x s d db k old Hok Hd Hold) as (ro & Hro & _).
  assert (Hsame : old = a -> 2 <= refcount ro).
  { intros ->. destruct (ok_count _ _ Hok a ro Hro) as [_ Hc]. destruct Ha as [Ha|Ha].
    - pose proof (refs_dict s (Z.to_nat d) db k a (proj2 Hd) Hold). lia.
    - pose proof (refs_two s d db k a Hd Hold Ha). specialize (Hx a). lia. }
  destruct (decr_spec _ (put_db d db' s) old ro Hok1 Hro) as (s' & Hs' & Hok' & Habs & Hkept & Hdbs & Hne & Hge).
  { intros E1. destruct (ok_count _ _ Hok1 old ro Hro) as [_ Hc]. rewrite tok_eq in Hc.
    specialize (Hx old). pose proof (refs_nonneg (put_db d db' s) old). unfold tok in Hc.
    destruct (decide (old = a)) as [E2|]; [specialize (Hsame E2)|]; lia. }
  exists s'. split; [|split; [|split; [exact Habs|split]]].
  - unfold dict_replace, mbind, M_bind. rewrite (get_db_at _ _ _ Hd), (set_db_at _ _ _ _ Hd), Hold. exact Hs'.
  - eapply ok_ext; [|exact Hok']. intros b. cbn. lia.
  - etrans; [apply put_kept|exact Hkept].
  - exists db'. destruct (decide (a = old)) as [E2|Hna].
    + subst old. specialize (Hsame eq_refl). rewrite Hr in Hro. injection Hro as <-.
      exists (with_refcount (refcount r - 1) r). split; [|split; [apply lookup_insert_eq|split; [apply Hge; lia|split; [done|cbn; lia]]]].
      unfold db_at. rewrite Hdbs. by eapply db_at_put.
    + exists r. split; [|split; [apply lookup_insert_eq|split; [rewrite Hne by done; exact Hr|done]]].
      unfold db_at. rewrite Hdbs. by eapply db_at_put.
Qed.

Lemma dbOverwrite_sim x s d key k a r old v : ok x s -> held x -> is_sds s key k ->
  found s d k (Some old) v -> heap s !! a = Some r -> 1 <= x a \/ a ∈ argv s ->
  sim s (dbOverwrite d key a) (astore d k (view r))
    (fun s' _ _ => ok (fun b => x b - tok a b) s' /\ stored s s' d k a r).
Proof.
  intros Hok Hx Hk (db & Hd & Hold & _) Hr Ha.
  destruct (dict_replace_spec x s d db k a r old Hok Hx Hd Hold Hr Ha) as (s' & E & Hok' & Habs & Hst).
  unfold sim, dbOverwrite, dict_find, mbind, M_bind.
  rewrite (sds_of_at _ _ _ Hk), (get_db_at _ _ _ Hd). cbn. rewrite Hold.
  rewrite bool_decide_true by (by eexists). cbn. rewrite E. exists tt. split; [|done].
  rewrite Habs. by apply astore_put.
Qed.

Lemma expires_sim x s d db k w : ok x s -> db_at s d db -> is_Some (dict db !! k) ->
  ok x (put_db d (mk_db (dict db) (<[k := w]> (expires db))) s).
Proof.
  intros Hok Hd Hk. apply put_db_ok with x db; try done.
  - pose proof (db_at_ok _ _ _ _ Hok Hd). unfold db_ok in *. cbn. rewrite dom_insert_L.
    apply elem_of_dom in Hk. set_solver.
  - intros a. cbn. lia.
  - intros k' a Ha. destruct (dict_live x s d db k' a Hok Hd Ha) as (o & -> & _). eauto.
Qed.

Lemma setExpire_sim x s d key k w db a : ok x s -> is_sds s key k -> db_at s d db -> dict db !! k = Some a ->
  sim s (setExpire d key w) (aset_expire d k (Some w))
    (fun s' _ _ => ok x s' /\ kept s s' /\ heap s' = heap s /\
       db_at s' d (mk_db (dict db) (<[k := w]> (expires db)))).
Proof.
  intros Hok Hk Hd Ha. unfold sim, setExpire, dict_find, mbind, M_bind.
  rewrite (sds_of_at _ _ _ Hk), (get_db_at _ _ _ Hd). cbn. rewrite Ha, bool_decide_true by (by eexists). cbn.
  rewrite (get_db_at _ _ _ Hd), (set_db_at _ _ _ _ Hd). exists tt. split; [by apply aset_expire_put|].
  split; [apply expires_sim; [done|done|by eexists]|]. split; [apply put_kept|]. split; [done|by eapply db_at_put].
Qed.

Lemma removeExpire_sim x s d key k db a : ok x s -> is_sds s key k -> db_at s d db -> dict db !! k = Some a ->
  sim s (removeExpire d key) (aset_expire d k None)
    (fun s' b _ => b = bool_decide (is_Some (expires db !! k)) /\ ok x s' /\ kept s s' /\ heap s' = heap s /\
       db_at s' d (mk_db (dict db) (delete k (expires db)))).
Proof.
  intros Hok Hk Hd Ha. unfold sim, removeExpire, dict_find, expires_delete, mbind, M_bind.
  rewrite (sds_of_at _ _ _ Hk), (get_db_at _ _ _ Hd). cbn. rewrite Ha, bool_decide_true by (by eexists). cbn.
  rewrite (get_db_at _ _ _ Hd), (set_db_at _ _ _ _ Hd). exists tt. split; [by apply (aset_expire_put s d db k None)|].
  split; [done|]. split; [by apply expires_delete_ok|]. split; [apply put_kept|]. split; [done|by eapply db_at_put].
Qed.

(** [setKey], with a value that is an argument of the client. *)
Lemma setKey_sim x s d key k a r : ok x s -> held x -> is_key s key k -> db_exists s d ->
  a ∈ argv s -> heap s !! a = Some r ->
  sim s (setKey d key a) (asetKey d k (view r))
    (fun s' _ _ => ok x s' /\ kept s s' /\
       exists db r', db_at s' d db /\ dict db !! k = Some a /\ heap s' !! a = Some r' /\ same_obj r r').
Proof.
  intros Hok Hx Hk He Ha Hr. unfold setKey, asetKey.
  eapply sim_bind; [by apply (lookupKeyWrite_sim x)|]. intros s1 o v (Hf & Hok1 & Hk1).
  destruct (is_key_kept _ _ _ _ Hk1 Hk) as [Hka1 Hs1].
  destruct (proj2 (proj2 (proj2 (proj2 Hk1))) a r Ha Hr) as (r1 & Hr1 & Hrr1).
  assert (Ha1 : a ∈ argv s1) by (by destruct Hk1 as (-> & _)).
  rewrite <- (view_same _ _ Hrr1).
  eapply (sim_bind _ _ _ _ _ (fun s' _ _ => ok (fun b => x b - tok a b) s' /\ stored s1 s' d k a r1)).
  { destruct o as [old|]; [by eapply dbOverwrite_sim; eauto|].
    eapply sim_conseq; [by eapply dbAdd_sim|]. intros s' [] [] (? & ? & ?). done. }
  intros s2 [] [] (Hok2 & Hk2 & db & r2 & Hd2 & Hdk & Hr2 & Hrr2 & _).
  destruct (incr_spec _ s2 a r2 Hok2 Hr2) as (s3 & E3 & Es3 & Hok3 & Habs3 & Hk3).
  eapply sim_left; [exact E3|exact Habs3|].
  assert (Hd3 : db_at s3 d db) by (subst s3; exact Hd2).
  assert (Hs3 : is_key s3 key k) by (apply (is_key_kept s2), (is_key_kept s1); done).
  assert (Hr3 : heap s3 !! a = Some (with_refcount (refcount r2 + 1) r2)) by (subst s3; apply lookup_insert_eq).
  clear Es3. apply (ok_ext _ x) in Hok3; [|intros b; cbn; lia].
  eapply sim_bind; [eapply removeExpire_sim; [done|apply Hs3|done|done]|].
  intros s4 b [] (_ & Hok4 & Hk4 & Hh4 & Hd4).
  eapply sim_read; [apply sds_of_at, (is_key_kept s3 s4 _ _ Hk4 Hs3)|].
  eapply sim_conseq; [by apply (sim_rec x)|]. intros s5 [] [] (Hok5 & Hk5 & Hh5 & Hdb5).
  split; [done|]. split; [do 4 (etrans; [eassumption|]); done|].
  eexists _, _. split; [unfold db_at; rewrite Hdb5; exact Hd4|]. split; [exact Hdk|].
  rewrite Hh5, Hh4. split; [exact Hr3|]. etrans; [exact Hrr1|]. etrans; [exact Hrr2|]. done.
Qed.

(** Evaluate the monadic steps whose results are known. *)
Ltac run := unfold serverAssert, mbind, M_bind, mret, M_ret, get; cbv beta iota zeta.

(** ** Numbers and decoded strings *)

Lemma decimal_length v : in_s 64 v -> (length (decimal v) <= 21)%nat.
Proof.
  intros Hv. destruct (sign_magnitude v Hv) as [Hn ->]. rewrite length_app.
  pose proof (length_ndec_le20 _ Hn). destruct (v <? 0); simpl in *; lia.
Qed.

Lemma ll2sds_at v s : in_s 64 v -> ll2sds v s = Ret (decimal v, s).
Proof.
  intros Hv. unfold ll2sds. rewrite ll2string_writes by (try done; cbn; lia). cbv zeta.
  pose proof (decimal_length v Hv). destruct (Z.leb_spec 32 (Z.of_nat (length (decimal v)))); [lia|].
  rewrite Nat2Z.id, take_app_length. done.
Qed.

(** The characters of a string object. *)
Definition string_of (o : robj) : list Z :=
  match ptr o with PSds s => s | PLong v => decimal v | PAgg _ => [] end.

Lemma obj_string o : obj_ok o -> type o = OBJ_STRING ->
  view o = AStr (string_of o) /\
  ((sdsEncodedObject o = true /\ ptr o = PSds (string_of o)) \/
   (sdsEncodedObject o = false /\ encoding o = OBJ_ENCODING_INT /\ exists v, ptr o = PLong v /\ in_s 64 v)).
Proof.
  destruct o as [t e l r p]. intros H Ht. cbn [type] in Ht. subst t. unfold obj_ok in H.
  cbn [type encoding ptr] in H. unfold view, string_of, sdsEncodedObject. cbn [type encoding ptr].
  destruct e, p; try (exfalso; exact H); (split; [reflexivity|]);
    try (left; split; reflexivity). right. split; [reflexivity|]. split; [reflexivity|]. by exists v.
Qed.

Lemma obj_at s a o : heap s !! a = Some o -> obj a s = Ret (o, s).
Proof. intros H. unfold obj. by rewrite H. Qed.

Lemma sds_at s a o x : heap s !! a = Some o -> ptr o = PSds x -> sds_of a s = Ret (x, s).
Proof. intros H Hp. unfold sds_of, mbind, M_bind. rewrite (obj_at _ _ _ H), Hp. done. Qed.

Lemma long_at s a o v : heap s !! a = Some o -> ptr o = PLong v -> long_of a s = Ret (v, s).
Proof. intros H Hp. unfold long_of, mbind, M_bind. rewrite (obj_at _ _ _ H), Hp. done. Qed.

Lemma length_ndec_small n : 0 <= n < 10 -> length (ndec n) = 1%nat.
Proof.
  intros H. destruct (Z.eq_dec n 0) as [->|]; [done|].
  apply (length_ndec 0). cbn. lia.
Qed.

Lemma count_digits_ok fuel n len : Z.abs n < 10 ^ Z.of_nat (S fuel) ->
  count_digits fuel n len = len - 1 + Z.of_nat (length (ndec (Z.abs n))).
Proof.
  revert n len. induction fuel as [|fuel IH]; intros n len Hn; cbn [count_digits].
  - change (10 ^ Z.of_nat 1) with 10 in Hn. rewrite length_ndec_small by lia.
    destruct (Z.eqb_spec (Z.quot n 10) 0); lia.
  - assert (Hq : Z.abs (Z.quot n 10) = Z.abs n / 10).
    { rewrite <- Z.quot_div_nonneg by lia. rewrite <- Z.quot_abs by lia. done. }
    destruct (Z.eqb_spec (Z.quot n 10) 0) as [E|E].
    + rewrite length_ndec_small; [lia|]. rewrite E in Hq. cbn in Hq.
      pose proof (Z.div_mod (Z.abs n) 10). pose proof (Z.mod_pos_bound (Z.abs n) 10). lia.
    + assert (10 <= Z.abs n).
      { destruct (Z.lt_ge_cases (Z.abs n) 10); [|done]. rewrite Z.div_small in Hq by lia. lia. }
      rewrite IH, Hq, (length_ndec_step (Z.abs n)) by
        (try (rewrite Hq; rewrite Nat2Z.inj_succ, Z.pow_succ_r in Hn by lia; apply Z.div_lt_upper_bound; lia); lia).
      lia.
Qed.

Lemma bulk_digits v : in_s 64 v ->
  (if v <? 0 then count_digits 20 (i64 (- v)) 2 else count_digits 20 v 1) = Z.of_nat (length (decimal v)).
Proof.
  intros Hv. unfold decimal. unfold in_s in Hv. change (64 - 1) with 63 in Hv.
  assert (Hpow : 2 ^ 63 < 10 ^ Z.of_nat 21) by (vm_compute; reflexivity).
  destruct (Z.ltb_spec v 0).
  - cbn [length]. assert (Hab : Z.abs (i64 (- v)) = - v).
    { destruct (Z.eq_dec v (- 2 ^ 63)) as [->|]; [by vm_compute|].
      rewrite swrap_id by (unfold in_s; change (64 - 1) with 63; lia). lia. }
    rewrite count_digits_ok, Hab by (rewrite Hab; lia). lia.
  - rewrite count_digits_ok by lia. rewrite Z.abs_eq by lia. lia.
Qed.

Lemma sdigits10_ok v : in_s 64 v -> sdigits10 v = Z.of_nat (length (decimal v)).
Proof.
  intros Hv. unfold sdigits10, decimal. pose proof (sign_magnitude v Hv) as [Hn _].
  unfold in_s in Hv. change (64 - 1) with 63 in Hv. destruct (Z.ltb_spec v 0).
  - rewrite magnitude_spec in * by (unfold in_s; change (64 - 1) with 63; lia).
    assert (Hu : in_u 64 (- v)) by (unfold in_u; lia).
    rewrite digits10_length by done. pose proof (length_ndec_le20 _ Hu).
    rewrite uwrap_id by (unfold in_u; lia). cbn [length]. lia.
  - apply digits10_length. unfold in_u. lia.
Qed.

Lemma stringObjectLen_at s a o : heap s !! a = Some o -> obj_ok o -> type o = OBJ_STRING ->
  stringObjectLen a s = Ret (Z.of_nat (length (string_of o)), s).
Proof.
  intros Ho Hok Ht. unfold stringObjectLen. run. rewrite (obj_at _ _ _ Ho), Ht, bool_decide_true by done. run.
  destruct (obj_string o Hok Ht) as (_ & [[-> Hp]|(-> & _ & v & Hp & Hv)]).
  - rewrite (sds_at _ _ _ _ Ho Hp). done.
  - rewrite (long_at _ _ _ _ Ho Hp). unfold string_of. rewrite Hp. by rewrite sdigits10_ok.
Qed.

Lemma getLongLong_at s a o : heap s !! a = Some o -> obj_ok o -> type o = OBJ_STRING ->
  getLongLongFromObject (Some a) s = Ret (string2ll (string_of o), s).
Proof.
  intros Ho Hok Ht. unfold getLongLongFromObject. run. rewrite (obj_at _ _ _ Ho), Ht, bool_decide_true by done. run.
  destruct (obj_string o Hok Ht) as (_ & [[-> Hp]|(-> & He & v & Hp & Hv)]).
  - rewrite (sds_at _ _ _ _ Ho Hp). done.
  - rewrite He, bool_decide_true by done. run. rewrite (long_at _ _ _ _ Ho Hp). unfold string_of. rewrite Hp.
    by rewrite string2ll_complete.
Qed.
