(* ===== verification/ValueSim.v ===== *)
(** * ValueSim: replies, conversions and values changed in place

    The reply functions send what the specification sends, whatever the
    encoding of the object; a string is unshared before it is changed, so
    that the change reaches one key only; encoding an argument keeps its
    characters. *)

From S2P Require Import Prelude Util Object Db ServerOk Abstract ServerSim TString.

(** ** Replies *)

(** The state after steps that only write to the log. *)
Definition logged (x : addr -> Z) (s s' : server) : Prop :=
  ok x s' /\ kept s s' /\ heap s' = heap s /\ dbs s' = dbs s.

Lemma logged_trans x s1 s2 s3 : logged x s1 s2 -> logged x s2 s3 -> logged x s1 s3.
Proof.
  intros (A1 & B1 & C1 & D1) (A2 & B2 & C2 & D2). split; [done|]. split; [by etrans|]. split; congruence.
Qed.

Lemma logged_refl x s : ok x s -> logged x s s.
Proof. by intros. Qed.

Lemma sim_log x s f : ok x s -> sim s (record f) (arecord f) (fun s' _ _ => logged x s s').
Proof. intros. by apply sim_rec. Qed.

Lemma sim_log_then {A B} x s f (k : unit -> M A) (ak : unit -> AM B) (Q : server -> A -> B -> Prop) : ok x s ->
  (forall s', logged x s s' -> sim s' (k tt) (ak tt) Q) ->
  sim s (record f ≫= k) (arecord f ≫= ak) Q.
Proof. intros Hok K. eapply sim_bind; [by apply (sim_log x)|]. intros s' [] [] H. by apply K. Qed.

Lemma addReplyError_sim x s err : ok x s ->
  sim s (addReplyError err) (aReplyError err) (fun s' _ _ => logged x s s').
Proof.
  intros Hok. unfold addReplyError, aReplyError, addReplyString, areply.
  apply (sim_log_then x); [done|]. intros s1 H1. apply (sim_log_then x); [apply H1|]. intros s2 H2.
  eapply sim_conseq; [apply (sim_log x), H2|]. intros s3 [] [] H3. by do 2 (eapply logged_trans; [eassumption|]).
Qed.

Lemma addReplyStatus_sim x s st : ok x s ->
  sim s (addReplyStatus st) (aReplyStatus st) (fun s' _ _ => logged x s s').
Proof.
  intros Hok. unfold addReplyStatus, aReplyStatus, addReplyString, areply.
  apply (sim_log_then x); [done|]. intros s1 H1. apply (sim_log_then x); [apply H1|]. intros s2 H2.
  eapply sim_conseq; [apply (sim_log x), H2|]. intros s3 [] [] H3. by do 2 (eapply logged_trans; [eassumption|]).
Qed.

Lemma addReplyLongLongWithPrefix_at ll prefix s : in_s 64 ll ->
  addReplyLongLongWithPrefix ll prefix s = record (add_output (alen_header prefix ll)) s.
Proof.
  intros H. unfold addReplyLongLongWithPrefix. unfold mbind, M_bind. rewrite ll2sds_at by done. done.
Qed.

Lemma addReplyLongLong_sim x s ll : ok x s -> in_s 64 ll ->
  sim s (addReplyLongLong ll) (aReplyLongLong ll) (fun s' _ _ => logged x s s').
Proof.
  intros Hok Hl. unfold sim, addReplyLongLong, aReplyLongLong, areply.
  destruct (Z.eqb_spec ll 0) as [->|]; [exact (sim_log x s (add_output (alen_header 58 0)) Hok)|].
  destruct (Z.eqb_spec ll 1) as [->|]; [exact (sim_log x s (add_output (alen_header 58 1)) Hok)|].
  rewrite addReplyLongLongWithPrefix_at by done. exact (sim_log x s _ Hok).
Qed.

Lemma addReplyMultiBulkLen_sim x s n : ok x s -> 0 <= n -> in_s 64 n ->
  sim s (addReplyMultiBulkLen n) (aReplyMultiBulkLen n) (fun s' _ _ => logged x s s').
Proof.
  intros Hok H0 Hn. unfold sim, addReplyMultiBulkLen, aReplyMultiBulkLen, areply.
  destruct (Z.ltb_spec n 0); [lia|].
  rewrite addReplyLongLongWithPrefix_at by done. exact (sim_log x s _ Hok).
Qed.

(** A string object in the heap. *)
Definition str_at (s : server) (a : addr) (r : robj) : Prop :=
  heap s !! a = Some r /\ obj_ok r /\ type r = OBJ_STRING.

Lemma addReply_at s a r : str_at s a r -> addReply a s = record (add_output (string_of r)) s.
Proof.
  intros (Ho & Hok & Ht). unfold addReply. run. rewrite (obj_at _ _ _ Ho).
  destruct (obj_string r Hok Ht) as (_ & [[-> Hp]|(-> & He & v & Hp & Hv)]).
  - rewrite (sds_at _ _ _ _ Ho Hp). done.
  - rewrite He, bool_decide_true by done. rewrite (long_at _ _ _ _ Ho Hp), ll2sds_at by done.
    unfold string_of. by rewrite Hp.
Qed.

Lemma addReplyBulkLen_at s a r : str_at s a r -> Z.of_nat (length (string_of r)) < 2 ^ 63 ->
  addReplyBulkLen a s = record (add_output (alen_header 36 (Z.of_nat (length (string_of r))))) s.
Proof.
  intros (Ho & Hok & Ht) Hl.
  assert (Hin : in_s 64 (Z.of_nat (length (string_of r)))) by (unfold in_s; change (64 - 1) with 63; lia).
  unfold addReplyBulkLen. run. rewrite (obj_at _ _ _ Ho).
  destruct (obj_string r Hok Ht) as (_ & [[-> Hp]|(-> & He & v & Hp & Hv)]).
  - rewrite (sds_at _ _ _ _ Ho Hp). by apply addReplyLongLongWithPrefix_at.
  - rewrite (long_at _ _ _ _ Ho Hp). unfold string_of in *. rewrite Hp in *.
    pose proof (bulk_digits v Hv) as E. destruct (v <? 0); rewrite E;
      apply addReplyLongLongWithPrefix_at; done.
Qed.

Lemma addReplyBulk_sim x s a r : ok x s -> str_at s a r -> Z.of_nat (length (string_of r)) < 2 ^ 63 ->
  sim s (addReplyBulk a) (aReplyBulk (string_of r)) (fun s' _ _ => logged x s s').
Proof.
  intros Hok Hr Hl. unfold addReplyBulk, aReplyBulk, areply.
  eapply sim_bind.
  { unfold sim. rewrite (addReplyBulkLen_at s a r) by done. exact (sim_log x s _ Hok). }
  intros s1 [] [] H1. destruct H1 as (Hok1 & Hk1 & Hh1 & Hd1).
  assert (Hr1 : str_at s1 a r) by (unfold str_at; by rewrite Hh1).
  eapply sim_bind.
  { unfold sim. rewrite (addReply_at s1 a r) by done. exact (sim_log x s1 _ Hok1). }
  intros s2 [] [] H2. eapply sim_conseq; [apply (sim_log x), H2|]. intros s3 [] [] H3.
  eapply logged_trans; [by repeat (split; [done|])|]. eapply logged_trans; eassumption.
Qed.

Lemma addReplyBulkCBuffer_sim x s p : ok x s -> Z.of_nat (length p) < 2 ^ 63 ->
  sim s (addReplyBulkCBuffer p) (aReplyBulk p) (fun s' _ _ => logged x s s').
Proof.
  intros Hok Hl. unfold addReplyBulkCBuffer, aReplyBulk, areply.
  eapply sim_bind.
  { unfold sim. rewrite addReplyLongLongWithPrefix_at by (unfold in_s; change (64 - 1) with 63; lia).
    exact (sim_log x s _ Hok). }
  intros s1 [] [] H1. apply (sim_log_then x); [apply H1|]. intros s2 H2.
  eapply sim_conseq; [apply (sim_log x), H2|]. intros s3 [] [] H3. by do 2 (eapply logged_trans; [eassumption|]).
Qed.

(** A number read from an object, with the error reply. *)
Lemma getLongLongOrReply_sim x s a r msg : ok x s -> str_at s a r ->
  sim s (getLongLongFromObjectOrReply (Some a) msg) (aLongLongOrReply (string_of r) msg)
    (fun s' v v' => v' = v /\ v = string2ll (string_of r) /\ logged x s s').
Proof.
  intros Hok (Ho & Hoo & Ht). unfold getLongLongFromObjectOrReply, aLongLongOrReply.
  eapply sim_read; [by apply getLongLong_at|]. destruct (string2ll (string_of r)) eqn:E.
  - apply sim_ret. split; [done|]. split; [done|]. by apply logged_refl.
  - eapply sim_bind; [by apply (addReplyError_sim x)|]. intros s1 [] [] H1. by apply sim_ret.
Qed.

Lemma getLongOrReply_sim x s a r msg : ok x s -> str_at s a r ->
  sim s (getLongFromObjectOrReply (Some a) msg) (aLongLongOrReply (string_of r) msg)
    (fun s' v v' => v' = v /\ v = string2ll (string_of r) /\ logged x s s').
Proof.
  intros Hok Hr. unfold getLongFromObjectOrReply.
  apply sim_mret_r.
  eapply sim_bind; [by apply (getLongLongOrReply_sim x)|]. intros s1 v v' (-> & Hv & H1).
  destruct v as [v|]; [|by apply sim_ret].
  assert (Hin : in_s 64 v) by (symmetry in Hv; apply string2ll_sound in Hv; tauto).
  unfold in_s in Hin. change (64 - 1) with 63 in Hin.
  replace ((v <? LONG_MIN) || (LONG_MAX <? v)) with false; [by apply sim_ret|].
  unfold LONG_MIN, LONG_MAX, LLONG_MIN, LLONG_MAX. symmetry. apply orb_false_iff. lia.
Qed.

Lemma checkType_at s a r t : heap s !! a = Some r ->
  checkType a t s =
  if bool_decide (type r = t) then Ret (false, s)
  else Ret (true, with_lg (add_output shared_wrongtypeerr) s).
Proof.
  intros H. unfold checkType. run. rewrite (obj_at _ _ _ H). by case_bool_decide.
Qed.

(** ** Changing a value in place *)

(** An object with one reference, from the entry [k], is reached from
    nowhere else. *)
Lemma sole_entry s d db k a : db_at s d db -> dict db !! k = Some a -> refs s a <= 1 ->
  refs (put_db d (mk_db (delete k (dict db)) (expires db)) s) a = 0.
Proof.
  intros Hd Hk Hr. pose proof (refs_nonneg (put_db d (mk_db (delete k (dict db)) (expires db)) s) a).
  rewrite (refs_put s d db) in * by done. cbn [dict] in *. rewrite count_dict_delete, Hk in *.
  cbn [old_tok] in *. rewrite tok_eq in *. lia.
Qed.

Lemma astore_inplace s d db k a r' : db_at s d db -> dict db !! k = Some a -> refs s a <= 1 ->
  astore d k (view r') (abs s) = Ret (tt, abs (with_heap (<[a := r']> (heap s)) s)).
Proof.
  intros Hd Hk Hr. pose proof (sole_entry s d db k a Hd Hk Hr) as H0.
  set (db0 := mk_db (delete k (dict db)) (expires db)) in *. set (h' := <[a := r']> (heap s)).
  assert (E0 : abs (with_heap h' (put_db d db0 s)) = abs (put_db d db0 s)).
  { apply abs_heap. intros b Hb. subst h'. cbn. rewrite lookup_insert_ne; [done|]. intros ->. lia. }
  assert (Ed : abs_dict h' (delete k (dict db)) = abs_dict (heap s) (delete k (dict db))).
  { apply abs_dict_ext. intros b [k' Hb]. subst h'. rewrite lookup_insert_ne; [done|]. intros <-.
    pose proof (refs_dict (put_db d db0 s) (Z.to_nat d) db0 k' a (proj2 (db_at_put s d db db0 Hd)) Hb). lia. }
  assert (Es : with_heap h' s = put_db d db (with_heap h' (put_db d db0 s))).
  { unfold put_db, with_heap, with_dbs. cbn. rewrite list_insert_insert_eq, list_insert_id by apply Hd.
    by destruct s. }
  unfold astore, mbind, AM_bind. rewrite (aget_db_at _ _ _ Hd). cbn [adict aexpires abs_db].
  assert (Ea : mk_adb (<[k := view r']> (abs_dict (heap s) (dict db))) (expires db) = abs_db h' db).
  { unfold abs_db. f_equal. rewrite <- (insert_delete_id (dict db) k a Hk) at 2.
    rewrite (abs_dict_insert h' _ k a r') by apply lookup_insert_eq.
    by rewrite Ed, abs_dict_delete, insert_delete_eq. }
  rewrite Ea, Es. change h' with (heap (with_heap h' (put_db d db0 s))) at 1.
  rewrite <- (aset_db_put (with_heap h' (put_db d db0 s)) d db), E0.
  unfold aset_db, abs, put_db. cbn. rewrite list_fmap_insert, list_insert_insert_eq. done.
Qed.

(** Storing the value that is there. *)
Lemma astore_same x s d db k v : ok x s -> db_at s d db -> abs_dict (heap s) (dict db) !! k = Some v ->
  astore d k v (abs s) = Ret (tt, abs s).
Proof.
  intros Hok Hd Hk. unfold astore, mbind, AM_bind. rewrite (aget_db_at _ _ _ Hd). cbn [adict aexpires abs_db].
  rewrite insert_id by done. change (mk_adb _ _) with (abs_db (heap s) db).
  by rewrite aset_db_put, put_same.
Qed.

(** A string that only the entry [k] refers to gets new characters. *)
Lemma inplace_sim x s d db k a r p : ok x s -> held x -> db_at s d db -> dict db !! k = Some a ->
  heap s !! a = Some r -> refcount r = 1 -> obj_ok (with_ptr (encoding r) p r) ->
  sim s (set_obj a (with_ptr (encoding r) p r)) (astore d k (view (with_ptr (encoding r) p r)))
    (fun s' _ _ => ok x s' /\ kept s s' /\ dbs s' = dbs s /\
       heap s' = <[a := with_ptr (encoding r) p r]> (heap s)).
Proof.
  intros Hok Hx Hd Hk Hr H1 Hp. unfold sim, set_obj. rewrite Hr.
  destruct (ok_count _ _ Hok a r Hr) as [_ Hc]. specialize (Hx a).
  pose proof (refs_dict s (Z.to_nat d) db k a (proj2 Hd) Hk) as Hge.
  exists tt. split; [apply astore_inplace with db; [done|done|lia]|].
  assert (Hna : a ∉ argv s).
  { intros Ha. pose proof (refs_two s d db k a Hd Hk Ha). lia. }
  split; [|split; [|done]].
  - apply set_obj_ok with x r; try done; cbn; try lia.
    intros Hi. exfalso. unfold refs in *. pose proof (db_refs_lookup _ _ _ _ _ (proj2 Hd) Hk).
    pose proof (argv_refs_nonneg (argv s) a). unfold shared_ref in *. rewrite decide_True in * by done. lia.
  - repeat split; try done. intros b ob Hb Hob. cbn. exists ob. split; [|done].
    rewrite lookup_insert_ne; [done|]. intros ->. done.
Qed.

(** ** Fresh strings *)

Lemma createObject_spec x s p : ok x s -> obj_ok (mk_robj OBJ_STRING OBJ_ENCODING_RAW 0 1 p) ->
  exists s' r, createObject OBJ_STRING p s = Ret (brk s, s') /\ r = mk_robj OBJ_STRING OBJ_ENCODING_RAW (lruclock (cf s)) 1 p /\
    ok (fun b => x b + tok (brk s) b) s' /\ abs s' = abs s /\ kept s s' /\ dbs s' = dbs s /\
    heap s' = <[brk s := r]> (heap s) /\ heap s !! brk s = None.
Proof.
  intros Hok Hp. destruct (malloc_spec x s (mk_robj OBJ_STRING OBJ_ENCODING_RAW (lruclock (cf s)) 1 p) Hok)
    as (s' & E & H1 & H2 & H3 & H4 & H5 & H6 & _); [exact Hp|done|].
  exists s', (mk_robj OBJ_STRING OBJ_ENCODING_RAW (lruclock (cf s)) 1 p). split; [exact E|]. by split_and!.
Qed.

(** A string that fits gets one of the two sds encodings. *)
Lemma createStringObject_spec x s str : ok x s -> Z.of_nat (length str) <= ALLOC_MAX ->
  exists s' r, createStringObject str s = Ret (brk s, s') /\ type r = OBJ_STRING /\ refcount r = 1 /\
    sdsEncodedObject r = true /\ ptr r = PSds str /\ obj_ok r /\
    ok (fun b => x b + tok (brk s) b) s' /\ abs s' = abs s /\ kept s s' /\ dbs s' = dbs s /\
    heap s' = <[brk s := r]> (heap s) /\ heap s !! brk s = None.
Proof.
  intros Hok Hmax. unfold createStringObject. destruct (Z.leb_spec (Z.of_nat (length str)) OBJ_ENCODING_EMBSTR_SIZE_LIMIT) as [Hl|Hl].
  - destruct (malloc_spec x s (mk_robj OBJ_STRING OBJ_ENCODING_EMBSTR (lruclock (cf s)) 1 (PSds str)) Hok)
      as (s' & E & H1 & H2 & H3 & H4 & H5 & H6 & _); [done|done|].
    unfold createEmbeddedStringObject. run.
    unfold OBJ_ENCODING_EMBSTR_SIZE_LIMIT in Hl. destruct (Z.leb_spec (Z.of_nat (length str)) 255); [|lia].
    exists s', (mk_robj OBJ_STRING OBJ_ENCODING_EMBSTR (lruclock (cf s)) 1 (PSds str)). split; [exact E|]. by split_and!.
  - destruct (createObject_spec x s (PSds str) Hok) as (s' & r & E & -> & H1 & H2 & H3 & H4 & H5 & H6); [done|].
    exists s', (mk_robj OBJ_STRING OBJ_ENCODING_RAW (lruclock (cf s)) 1 (PSds str)). split; [exact E|]. by split_and!.
Qed.

Lemma decimal_alloc v : in_s 64 v -> Z.of_nat (length (decimal v)) <= ALLOC_MAX.
Proof. intros Hv. pose proof (decimal_length v Hv). unfold ALLOC_MAX. lia. Qed.

Lemma string_alloc r : obj_ok r -> type r = OBJ_STRING -> Z.of_nat (length (string_of r)) <= ALLOC_MAX.
Proof.
  intros Hr Ht. destruct (obj_string r Hr Ht) as (_ & [[_ Hp]|(_ & _ & v & Hp & Hv)]).
  - destruct r as [t e l c p]. cbn in Ht, Hp. subst t. rewrite Hp in Hr. unfold obj_ok in Hr. cbn in Hr.
    destruct e; try done.
  - unfold string_of. rewrite Hp. by apply decimal_alloc.
Qed.

Lemma getDecodedObject_spec x s a r : ok x s -> str_at s a r ->
  exists s' b rb, getDecodedObject a s = Ret (b, s') /\ heap s' !! b = Some rb /\ ptr rb = PSds (string_of r) /\
    ok (fun c => x c + tok b c) s' /\ abs s' = abs s /\ kept s s' /\ dbs s' = dbs s /\
    exists r', heap s' !! a = Some r' /\ same_obj r r'.
Proof.
  intros Hok (Ho & Hoo & Ht). unfold getDecodedObject. run. rewrite (obj_at _ _ _ Ho).
  destruct (obj_string r Hoo Ht) as (_ & [[-> Hp]|(-> & He & v & Hp & Hv)]).
  - destruct (incr_spec x s a r Hok Ho) as (s' & -> & Es & Hok' & Habs & Hk).
    exists s', a, (with_refcount (refcount r + 1) r).
    assert (heap s' !! a = Some (with_refcount (refcount r + 1) r)) by (subst s'; apply lookup_insert_eq).
    split; [done|]. split; [done|]. split; [done|]. split; [done|]. split; [done|]. split; [done|].
    split; [by subst s'|]. eexists. split; done.
  - rewrite Ht, He, !bool_decide_true by done. cbn [andb]. rewrite (long_at _ _ _ _ Ho Hp), ll2sds_at by done.
    destruct (createStringObject_spec x s (decimal v) Hok (decimal_alloc v Hv)) as (s' & rb & E & Hrt & Hrc & Hrs & Hrp & Hro & Hok' & Habs & Hk & Hd & Hh & Hn).
    exists s', (brk s), rb. rewrite Hh. split; [exact E|]. split; [apply lookup_insert_eq|].
    split; [unfold string_of; by rewrite Hp|]. split; [done|]. split; [done|]. split; [done|]. split; [done|].
    exists r. rewrite lookup_insert_ne; [done|]. intros E2. rewrite E2 in Hn. congruence.
Qed.

(** After dbUnshareStringValue the entry holds a raw string with one
    reference, with the same characters. *)
Lemma dbUnshare_spec x s d key k db a r : ok x s -> held x -> is_key s key k -> db_at s d db ->
  dict db !! k = Some a -> str_at s a r ->
  exists s' a' r' db', dbUnshareStringValue d key a s = Ret (a', s') /\ ok x s' /\ kept s s' /\ abs s' = abs s /\
    db_at s' d db' /\ dict db' !! k = Some a' /\ str_at s' a' r' /\ refcount r' = 1 /\
    encoding r' = OBJ_ENCODING_RAW /\ ptr r' = PSds (string_of r).
Proof.
  intros Hok Hx Hk Hd Ha Hr. pose proof Hr as (Ho & Hoo & Ht).
  unfold dbUnshareStringValue. run. rewrite (obj_at _ _ _ Ho), Ht, bool_decide_true by done.
  destruct (negb (refcount r =? 1) || negb (bool_decide (encoding r = OBJ_ENCODING_RAW))) eqn:Eg.
  - destruct (getDecodedObject_spec x s a r Hok Hr) as (s1 & b & rb & -> & Hb & Hpb & Hok1 & Habs1 & Hk1 & Hd1 & r1 & Hr1 & Hsame1).
    rewrite (sds_at _ _ _ _ Hb Hpb).
    destruct (createObject_spec _ s1 (PSds (string_of r)) Hok1) as (s2 & r2 & E2 & Er2 & Hok2 & Habs2 & Hk2 & Hd2 & Hh2 & Hn2); [by apply string_alloc|].
    unfold createRawStringObject. rewrite E2. set (c := brk s1) in *.
    assert (Hbc : b <> c) by (intros ->; congruence).
    assert (Hb2 : heap s2 !! b = Some rb) by (rewrite Hh2, lookup_insert_ne by done; exact Hb).
    destruct (decr_held _ s2 b rb Hok2 Hb2) as (s3 & -> & Hok3 & Habs3 & Hk3 & Hd3 & Hne3 & _).
    { rewrite tok_eq. specialize (Hx b). pose proof (tok_range c b). lia. }
    assert (Hk03 : kept s s3) by (do 2 (etrans; [eassumption|]); done).
    assert (Hc3 : heap s3 !! c = Some r2) by (rewrite Hne3 by done; rewrite Hh2; apply lookup_insert_eq).
    apply (ok_ext _ (fun z => x z + tok c z)) in Hok3; [|intros z; cbn; lia].
    assert (Hdb3 : db_at s3 d db) by (unfold db_at; rewrite Hd3, Hd2, Hd1; exact Hd).
    assert (Hkey3 : is_key s3 key k) by (by apply (is_key_kept s)).
    destruct (dict_live _ s3 d db k a Hok3 Hdb3 Ha) as (ra3 & Hra3 & Hoa3).
    assert (Hx3 : held (fun z => x z + tok c z)) by (intros z; specialize (Hx z); pose proof (tok_range c z); lia).
    pose proof (dbOverwrite_sim _ s3 d key k c r2 a (Some (view ra3)) Hok3 Hx3 (proj2 Hkey3)) as Hov.
    specialize (Hov ltac:(exists db; split; [done|]; split; [done|]; by exists ra3) Hc3).
    specialize (Hov ltac:(left; rewrite tok_eq; specialize (Hx c); lia)).
    unfold sim in Hov. destruct (dbOverwrite d key c s3) as [[[] s4]|f] eqn:E4.
    2: { exfalso. rewrite (astore_put s3 d db k c r2) in Hov by done. done. }
    destruct Hov as ([] & Hst & Hok4 & Hk4 & db4 & r4 & Hd4 & Hdk4 & Hr4 & Hs4 & Hc4).
    exists s4, c, r4, db4. split; [done|]. destruct Hs4 as (S1 & S2 & S3). rewrite Er2 in S1, S2, S3, Hc4.
    cbn in S1, S2, S3, Hc4.
    apply (ok_ext _ x) in Hok4; [|intros z; cbn; lia].
    split; [done|]. split; [by etrans|]. split; [|split; [done|split; [done|]]].
    + assert (Eabs : abs s3 = abs s) by congruence. rewrite Eabs in Hst.
      rewrite (astore_same x s d db k (view r2)) in Hst; [congruence|done|done|].
      rewrite (abs_dict_lookup x s d) by done. rewrite Ha, Ho, Er2. cbn. f_equal.
      by destruct (obj_string r Hoo Ht) as [-> _].
    + assert (Hoo4 : obj_ok r4) by exact (ok_obj _ _ Hok4 c r4 Hr4).
      split; [by split; [|split]|]. split; [|done].
      destruct (ok_count _ _ Hok4 c r4 Hr4). lia.
  - apply orb_false_iff in Eg as [E1%negb_false_iff%Z.eqb_eq E2%negb_false_iff%bool_decide_eq_true].
    exists s, a, r, db. do 4 (split; [done|]). do 3 (split; [done|]). split; [done|]. split; [done|].
    destruct (obj_string r Hoo Ht) as (_ & [[_ Hp]|(Hf & He & _)]); [done|congruence].
Qed.

(** ** Numbers as objects *)

Lemma createFromLongLong_spec x s value : ok x s -> in_s 64 value ->
  exists s' a r, createStringObjectFromLongLong value s = Ret (a, s') /\ str_at s' a r /\
    string_of r = decimal value /\ ok (fun b => x b + tok a b) s' /\ abs s' = abs s /\
    kept s s' /\ dbs s' = dbs s.
Proof.
  intros Hok Hv. unfold createStringObjectFromLongLong.
  destruct ((0 <=? value) && (value <? OBJ_SHARED_INTEGERS)) eqn:E.
  - apply andb_true_iff in E as [E1%Z.leb_le E2%Z.ltb_lt]. unfold shared_integers.
    destruct (ok_shared _ _ Hok value) as (r & Hr & Ht & He & Hp); [lia|].
    destruct (incr_spec x s value r Hok Hr) as (s' & Ei & Es & Hok' & Habs & Hk).
    exists s', value, (with_refcount (refcount r + 1) r). run. rewrite Ei.
    assert (Hr' : heap s' !! value = Some (with_refcount (refcount r + 1) r)) by (subst s'; apply lookup_insert_eq).
    split; [done|]. split; [split; [done|split; [exact (ok_obj _ _ Hok' _ _ Hr')|exact Ht]]|].
    split; [unfold string_of; cbn; by rewrite Hp|]. split; [done|]. split; [done|]. split; [done|]. by subst s'.
  - clear E. unfold in_s in Hv. change (64 - 1) with 63 in Hv.
    replace ((LONG_MIN <=? value) && (value <=? LONG_MAX)) with true.
    2: { symmetry. apply andb_true_iff. unfold LONG_MIN, LONG_MAX, LLONG_MIN, LLONG_MAX.
         rewrite !Z.leb_le. lia. }
    destruct (createObject_spec x s (PSds []) Hok) as (s1 & r1 & E1 & Er1 & Hok1 & Habs1 & Hk1 & Hd1 & Hh1 & Hn1); [done|].
    run. rewrite E1. set (a := brk s) in *.
    assert (Hr1 : heap s1 !! a = Some r1) by (rewrite Hh1; apply lookup_insert_eq).
    rewrite (obj_at _ _ _ Hr1). unfold set_obj. rewrite Hr1.
    set (r2 := with_ptr OBJ_ENCODING_INT (PLong value) r1).
    assert (Hno : forall b, 0 < refs s1 b -> b <> a).
    { intros b Hb ->. change (refs s1 a) with (refs s1 a) in Hb.
      assert (refs s1 a = refs s a) as Er.
      { unfold refs. rewrite Hd1. destruct Hk1 as (-> & _). done. }
      destruct (ok_live _ _ Hok a) as [? Hs]; [lia|]. congruence. }
    exists (with_heap (<[a := r2]> (heap s1)) s1), a, r2.
    assert (Hok2 : ok (fun b => x b + tok a b) (with_heap (<[a := r2]> (heap s1)) s1)).
    { destruct (ok_count _ _ Hok1 a r1 Hr1) as [Hc1 Hc2].
      apply set_obj_ok with (fun b => x b + tok a b) r1; try done; subst r2.
      - rewrite Er1. unfold obj_ok. cbn. unfold in_s. change (64 - 1) with 63. lia.
      - intros Hi. exfalso. pose proof (ok_base _ _ Hok). subst a. lia. }
    split; [done|]. split; [split; [apply lookup_insert_eq|split; [|by subst r1]]|].
    { exact (ok_obj _ _ Hok2 a r2 (lookup_insert_eq _ _ _)). }
    split; [done|]. split; [done|]. split; [|split; [|done]].
    + rewrite <- Habs1. apply abs_heap. intros b Hb. rewrite lookup_insert_ne; [done|].
      intros E. symmetry in E. exact (Hno b Hb E).
    + etrans; [exact Hk1|]. repeat split; try done. intros b ob Hb Hob. cbn. exists ob. split; [|done].
      rewrite lookup_insert_ne; [done|]. pose proof (refs_arg s1 b Hb). intros E. symmetry in E.
      apply (Hno b); [lia|done].
Qed.

(** ** Encoding an argument *)

(** An argument changed to one with the same characters; the others keep
    their objects. *)
Definition rearg (s s' : server) (j : nat) (a' : addr) : Prop :=
  argv s' = <[j := a']> (argv s) /\ curdb s' = curdb s /\ cf s' = cf s /\ dbs s' = dbs s /\
  forall i b o, i <> j -> argv s !! i = Some b -> heap s !! b = Some o ->
    exists o', heap s' !! b = Some o' /\ same_obj o o'.

(** The slot [j] now holds [a']. *)
Definition put_arg (j : nat) (a' : addr) (s : server) : server := with_argv (<[j := a']> (argv s)) s.

Lemma refs_put_arg s j a a' b : argv s !! j = Some a -> refs (put_arg j a' s) b = refs s b - tok a b + tok a' b.
Proof. intros H. unfold refs. cbn. rewrite (argv_refs_insert _ _ _ _ _ H). lia. Qed.

Lemma put_arg_ok x s j a a' : ok x s -> argv s !! j = Some a -> (exists r, heap s !! a' = Some r /\ type r = OBJ_STRING) ->
  ok (fun b => x b + tok a b - tok a' b) (put_arg j a' s).
Proof.
  intros [H1 H2 H3 H4 H5 H6 H7 H8 H9] Hj (r & Ha & Hta). constructor; try done.
  - intros b o Hb. rewrite (refs_put_arg s j a) by done. destruct (H3 b o Hb). lia.
  - intros b. rewrite (refs_put_arg s j a) by done. intros Hb. cbn.
    destruct (decide (b = a')) as [->|Hn]; [by eexists|]. rewrite (tok_ne a' b) in Hb by done.
    apply H4. destruct (decide (b = a)) as [->|Hn2].
    + pose proof (argv_refs_lookup _ _ _ Hj). left. unfold refs.
      pose proof (db_refs_nonneg (dbs s) a). pose proof (shared_ref_range a). lia.
    + rewrite (tok_ne a b) in Hb by done. lia.
  - intros b ob Hb Hob. cbn in Hb, Hob. apply list_elem_of_lookup in Hb as [i Hi].
    destruct (decide (i = j)) as [->|Hn].
    + rewrite list_lookup_insert_eq in Hi by (by eapply lookup_lt_Some). congruence.
    + rewrite list_lookup_insert_ne in Hi by done. apply (H9 b); [by eapply list_elem_of_lookup_2|done].
Qed.

Lemma abs_put_arg s j a a' : argv s !! j = Some a -> abs_arg (heap s) a' = abs_arg (heap s) a ->
  abs (put_arg j a' s) = abs s.
Proof.
  intros Hj E. unfold abs, put_arg. cbn. f_equal. rewrite list_fmap_insert, E.
  apply list_insert_id. by rewrite list_lookup_fmap, Hj.
Qed.

Lemma abs_arg_str h a r : h !! a = Some r -> obj_ok r -> type r = OBJ_STRING -> abs_arg h a = string_of r.
Proof.
  intros H Ho Ht. unfold abs_arg. rewrite H. cbn. by destruct (obj_string r Ho Ht) as [-> _].
Qed.

Lemma decr_free s a o : heap s !! a = Some o -> obj_ok o -> refcount o = 1 ->
  decrRefCount a s = Ret (tt, with_heap (delete a (heap s)) s).
Proof.
  intros Ho Hok H1. unfold decrRefCount. unfold mbind at 1, M_bind at 1, obj. rewrite Ho.
  destruct (Z.leb_spec (refcount o) 0); [lia|]. destruct (Z.eqb_spec (refcount o) 1); [|lia].
  unfold mbind, M_bind. rewrite free_ok by done. unfold zfree. by rewrite Ho.
Qed.

Lemma argv_unique v i j a : argv_refs v a <= 1 -> v !! j = Some a -> i <> j -> v !! i <> Some a.
Proof.
  intros Hr Hj Hij Hi. pose proof (argv_refs_insert v i a (a + 1) a Hi) as E.
  rewrite tok_eq, (tok_ne (a + 1) a) in E by lia.
  assert (<[i := a + 1]> v !! j = Some a) as Hj' by (by rewrite list_lookup_insert_ne).
  pose proof (argv_refs_lookup _ _ _ Hj'). lia.
Qed.

Lemma string2l_sound s v : string2l s = Some v -> in_s 64 v /\ s = decimal v.
Proof.
  unfold string2l. destruct (string2ll s) as [w|] eqn:E; [|done].
  apply string2ll_sound in E as [Hw ->]. destruct (_ || _); [done|]. intros [= <-].
  rewrite swrap_id by (done || lia). done.
Qed.

Section EncodeArg.
Context (x : addr -> Z) (s : server) (j : nat) (a : addr) (v : list Z) (o : robj).
Hypothesis Hok : ok x s.
Hypothesis Hx : held x.
Hypothesis Hj : argv s !! j = Some a.
Hypothesis Ho : heap s !! a = Some o.
Hypothesis Ht : type o = OBJ_STRING.
Hypothesis He : sdsEncodedObject o = true.
Hypothesis Hp : ptr o = PSds v.

Definition encoded (s' : server) (a' : addr) : Prop :=
  ok x s' /\ abs s' = abs s /\ rearg s s' j a' /\
  exists r', str_at s' a' r' /\ string_of r' = v.

Lemma arg_string : string_of o = v.
Proof. unfold string_of. by rewrite Hp. Qed.

Lemma arg_not_shared : ~ (0 <= a < OBJ_SHARED_INTEGERS).
Proof.
  intros Hi. destruct (ok_shared _ _ Hok a Hi) as (o' & Ho' & _ & He' & _).
  rewrite Ho in Ho'. injection Ho' as <-. unfold sdsEncodedObject in He. rewrite He' in He. done.
Qed.

Lemma encoded_same : encoded s a.
Proof.
  split; [done|]. split; [done|]. split.
  - split; [by rewrite list_insert_id|]. do 3 (split; [done|]). intros i b ob _ _ Hb. by exists ob.
  - exists o. split; [split; [done|split; [by eapply ok_obj|done]]|]. apply arg_string.
Qed.

Section Sole.
Hypothesis H1 : refcount o = 1.

Lemma arg_sole i b : i <> j -> argv s !! i = Some b -> b <> a.
Proof.
  intros Hi Hb ->. destruct (ok_count _ _ Hok a o Ho) as [_ Hc]. specialize (Hx a).
  apply (argv_unique (argv s) i j a); try done. unfold refs in Hc.
  pose proof (db_refs_nonneg (dbs s) a). pose proof (shared_ref_range a). lia.
Qed.

(** The characters move to the object [b], the argument's is freed. *)
Lemma encoded_moved s1 b r : ok (fun z => x z + tok b z) s1 -> abs s1 = abs s -> kept s s1 -> dbs s1 = dbs s ->
  heap s1 !! a = Some o -> heap s1 !! b = Some r -> b <> a ->
  type r = OBJ_STRING -> string_of r = v ->
  encoded (with_heap (delete a (heap s1)) (put_arg j b s1)) b.
Proof.
  intros Hok1 Habs1 Hk1 Hd1 Ha1 Hb1 Hne Htr Hsr. pose proof Hk1 as (Harg & Hcur & Hcf & _ & Hobj).
  assert (Hj1 : argv s1 !! j = Some a) by congruence.
  assert (Hok2 : ok (fun z => x z + tok a z) (put_arg j b s1)).
  { eapply ok_ext; [|apply (put_arg_ok _ s1 j a b Hok1 Hj1); by eexists]. intros z. cbn. lia. }
  assert (Hoo : obj_ok o) by (by eapply ok_obj). assert (Hor : obj_ok r) by (by eapply ok_obj).
  assert (Habs2 : abs (put_arg j b s1) = abs s1).
  { apply abs_put_arg with a; [done|]. rewrite (abs_arg_str _ _ r), (abs_arg_str _ _ o) by done.
    by rewrite arg_string. }
  destruct (decr_held _ (put_arg j b s1) a o Hok2 Ha1) as (s3 & E3 & Hok3 & Habs3 & Hk3 & _).
  { rewrite tok_eq. specialize (Hx a). lia. }
  rewrite (decr_free (put_arg j b s1) a o) in E3 by done. injection E3 as <-.
  split; [eapply ok_ext; [|exact Hok3]; intros z; cbn; lia|]. split; [congruence|]. split.
  - split; [cbn; by rewrite Harg|]. do 3 (split; [done|]). intros i c oc Hi Hc Hoc.
    destruct (Hobj c oc (list_elem_of_lookup_2 _ _ _ Hc) Hoc) as (oc' & Hoc' & Hs). exists oc'. split; [|done].
    cbn. rewrite lookup_delete_ne; [done|]. intros E. by apply (arg_sole i c Hi Hc).
  - exists r. split; [|done]. split; [|done]. cbn. by rewrite lookup_delete_ne.
Qed.

Lemma encoded_inplace value : in_s 64 value -> v = decimal value ->
  encoded (with_heap (<[a := with_ptr OBJ_ENCODING_INT (PLong value) o]> (heap s)) s) a.
Proof.
  intros Hv Ev. set (o' := with_ptr OBJ_ENCODING_INT (PLong value) o).
  assert (Hoo' : obj_ok o') by (subst o'; unfold obj_ok; cbn; by rewrite Ht).
  destruct (ok_count _ _ Hok a o Ho).
  split; [|split; [|split]].
  - apply set_obj_ok with x o; try done. intros Hi. by apply arg_not_shared in Hi.
  - apply abs_heap. intros b _. destruct (decide (b = a)) as [->|]; [|by rewrite lookup_insert_ne].
    rewrite lookup_insert_eq, Ho. cbn. f_equal. unfold view. rewrite Hp. cbn. by rewrite Ev.
  - split; [cbn; by rewrite list_insert_id|]. do 3 (split; [done|]). intros i b ob Hi Hb Hob.
    exists ob. split; [|done]. cbn. rewrite lookup_insert_ne; [done|].
    intros E. symmetry in E. by apply (arg_sole i b Hi Hb).
  - exists o'. split; [|by rewrite Ev]. split; [apply lookup_insert_eq|]. done.
Qed.
End Sole.

Lemma set_arg_at s1 b : argv s1 !! j = Some a -> set_arg j b s1 = Ret (tt, put_arg j b s1).
Proof. intros H. unfold set_arg. by rewrite H. Qed.

Lemma put_arg_same s1 : argv s1 !! j = Some a -> put_arg j a s1 = s1.
Proof. intros H. unfold put_arg, with_argv. rewrite list_insert_id by done. by destruct s1. Qed.

Lemma encode_arg_spec : exists s' a', encode_arg j s = Ret (a', s') /\ encoded s' a'.
Proof.
  assert (Hoo : obj_ok o) by (by eapply ok_obj).
  unfold encode_arg, arg. run. rewrite Hj. unfold tryObjectEncoding. run.
  rewrite (obj_at _ _ _ Ho), Ht, bool_decide_true by done. rewrite He. cbn [negb].
  assert (Hsame : (match set_arg j a s with Ret (_, s0) => Ret (a, s0) | Fault f => Fault f end) = Ret (a, s)).
  { rewrite set_arg_at, put_arg_same by done. done. }
  destruct (Z.ltb_spec 1 (refcount o)).
  { exists s, a. split; [exact Hsame|]. apply encoded_same. }
  assert (H1 : refcount o = 1) by (destruct (ok_count _ _ Hok a o Ho); lia).
  rewrite (sds_at _ _ _ _ Ho Hp).
  destruct (if Z.of_nat (length v) <=? 20 then string2l v else None) as [value|] eqn:Es.
  - assert (string2l v = Some value) as Es' by (destruct (_ <=? 20); done).
    apply string2l_sound in Es' as [Hv Ev]. clear Es.
    destruct (negb (lru_policy (cf s)) && (0 <=? value) && (value <? OBJ_SHARED_INTEGERS)) eqn:Eg.
    + apply andb_true_iff in Eg as [[_ E1%Z.leb_le]%andb_true_iff E2%Z.ltb_lt].
      rewrite (decr_free s a o) by done. unfold shared_integers.
      destruct (ok_shared _ _ Hok value) as (r & Hr & Htr & Her & Hpr); [lia|].
      assert (Hne : value <> a) by (intros ->; apply arg_not_shared; lia).
      destruct (incr_spec x s value r Hok Hr) as (s1 & E3 & Es1 & Hok1 & Habs1 & Hk1).
      set (r1 := with_refcount (refcount r + 1) r) in *.
      assert (Ei : incrRefCount value (with_heap (delete a (heap s)) s) =
        Ret (tt, with_heap (delete a (heap s1)) s)).
      { unfold incrRefCount. run. unfold obj, set_obj. cbn [with_heap heap].
        rewrite lookup_delete_ne, Hr by done. cbn [with_heap heap]. rewrite lookup_delete_ne, Hr by done.
        subst s1. cbn. unfold with_heap. cbn. fold r1. by rewrite delete_insert_ne by done. }
      rewrite Ei, set_arg_at by done. eexists _, _. split; [reflexivity|].
      replace (put_arg j value (with_heap (delete a (heap s1)) s)) with
        (with_heap (delete a (heap s1)) (put_arg j value s1)) by (by subst s1).
      apply encoded_moved with r1; try done.
      * by subst s1.
      * subst s1. cbn. by rewrite lookup_insert_ne.
      * subst s1. apply lookup_insert_eq.
      * unfold string_of. cbn. by rewrite Hpr, Ev.
    + unfold set_obj. rewrite Ho. rewrite set_arg_at by done. eexists _, _. split; [reflexivity|].
      rewrite put_arg_same by done. by apply encoded_inplace.
  - destruct (Z.leb_spec (Z.of_nat (length v)) OBJ_ENCODING_EMBSTR_SIZE_LIMIT) as [Hl|Hl].
    + case_bool_decide as Ee.
      { exists s, a. split; [exact Hsame|]. apply encoded_same. }
      destruct (malloc_spec x s (mk_robj OBJ_STRING OBJ_ENCODING_EMBSTR (lruclock (cf s)) 1 (PSds v)) Hok)
        as (s1 & E1 & Hok1 & Habs1 & Hk1 & Hd1 & Hh1 & Hn1 & _).
      { unfold OBJ_ENCODING_EMBSTR_SIZE_LIMIT in Hl. unfold obj_ok, ALLOC_MAX. cbn [type encoding ptr]. lia. }
      { done. }
      unfold createEmbeddedStringObject. run. unfold OBJ_ENCODING_EMBSTR_SIZE_LIMIT in Hl.
      destruct (Z.leb_spec (Z.of_nat (length v)) 255); [|lia]. rewrite E1.
      assert (Hne : brk s <> a) by (intros E; rewrite E in Hn1; congruence).
      assert (Ha1 : heap s1 !! a = Some o) by (rewrite Hh1, lookup_insert_ne by done; exact Ho).
      rewrite (decr_free s1 a o) by done.
      rewrite set_arg_at by (cbn; destruct Hk1 as (-> & _); done).
      eexists _, _. split; [reflexivity|].
      change (put_arg j (brk s) (with_heap (delete a (heap s1)) s1)) with
        (with_heap (delete a (heap s1)) (put_arg j (brk s) s1)).
      apply encoded_moved with (r := mk_robj OBJ_STRING OBJ_ENCODING_EMBSTR (lruclock (cf s)) 1 (PSds v)); try done.
      rewrite Hh1. apply lookup_insert_eq.
    + exists s, a. split; [exact Hsame|]. apply encoded_same.
Qed.
End EncodeArg.
