(* ===== verification/AString.v ===== *)
(** * AString: the specification of the string commands

    What each string command does to the keyspace and replies, on plain
    values. *)

From S2P Require Import Prelude Util Object Db ServerOk Abstract TString.

Definition all_of (v : Z) : AM Z :=
  if (LLONG_MIN <=? v) && (v <=? LLONG_MAX) then mret v else afail Overflow.

Definition anotify (c : notify_class) (event : list Z) (k : key) (d : Z) : AM unit :=
  arecord (add_event (c, event, k, d)).

(** ** SET *)

Definition aSetExpire (expire : option (list Z)) (tu : time_unit) : AM (option Z) :=
  match expire with
  | None => mret (Some 0)
  | Some e =>
      ms ← aLongLongOrReply e None;
      match ms with
      | None => mret None
      | Some ms =>
          if ms <=? 0 then
            name ← aget (fun t => cmd_name (acf t));
            _ ← aReplyError (bytes_of_string "invalid expire time in " ++ name);
            mret None
          else
            ms ← (match tu with UNIT_SECONDS => all_of (ms * 1000) | UNIT_MILLISECONDS => mret ms end);
            mret (Some ms)
      end
  end.

(** NX wants no value at the key, XX wants one. *)
Definition aSetForbidden (flags : Z) (k : key) : AM bool :=
  d ← aget acur;
  nx ← (if has flags OBJ_SET_NX then
          o ← alookupWrite d k; mret (bool_decide (is_Some o))
        else mret false);
  if (nx : bool) then mret true
  else if has flags OBJ_SET_XX then
    o ← alookupWrite d k; mret (bool_decide (o = None))
  else mret false.

Definition aSetGeneric (flags : Z) (k : key) (v : list Z) (expire : option (list Z))
    (tu : time_unit) (ok_reply abort_reply : option (list Z)) : AM unit :=
  ms ← aSetExpire expire tu;
  match ms with
  | None => mret tt
  | Some milliseconds =>
      forbidden ← aSetForbidden flags k;
      if (forbidden : bool) then areply (default shared_nullbulk abort_reply)
      else
        d ← aget acur;
        _ ← asetKey d k (AStr v);
        _ ← arecord (add_dirty 1);
        now ← aget (fun t => mstime (acf t));
        _ ← (match expire with
             | Some _ => when ← all_of (now + milliseconds); aset_expire d k (Some when)
             | None => mret tt
             end);
        _ ← anotify NOTIFY_STRING (bytes_of_string "set") k d;
        _ ← (match expire with
             | Some _ => anotify NOTIFY_GENERIC (bytes_of_string "expire") k d
             | None => mret tt
             end);
        areply (default shared_ok ok_reply)
  end.

Fixpoint aSetOptions (fuel : nat) (j : nat) (flags : Z) (tu : time_unit) (expire : option (list Z))
    : AM (option (Z * time_unit * option (list Z))) :=
  n ← aargc;
  if negb (Z.of_nat j <? n) then mret (Some (flags, tu, expire))
  else match fuel with
  | O => afail OutOfFuel
  | S fuel =>
      a ← aarg j;
      next ← (if Z.of_nat j =? n - 1 then mret None else x ← aarg (S j); mret (Some x));
      if is_opt a 110 120 && negb (has flags OBJ_SET_XX) then
        aSetOptions fuel (S j) (Z.lor flags OBJ_SET_NX) tu expire
      else if is_opt a 120 120 && negb (has flags OBJ_SET_NX) then
        aSetOptions fuel (S j) (Z.lor flags OBJ_SET_XX) tu expire
      else if is_opt a 101 120 && negb (has flags OBJ_SET_PX) && bool_decide (is_Some next) then
        aSetOptions fuel (S (S j)) (Z.lor flags OBJ_SET_EX) UNIT_SECONDS next
      else if is_opt a 112 120 && negb (has flags OBJ_SET_EX) && bool_decide (is_Some next) then
        aSetOptions fuel (S (S j)) (Z.lor flags OBJ_SET_PX) UNIT_MILLISECONDS next
      else _ ← areply shared_syntaxerr; mret None
  end.

Definition aSET : AM unit :=
  n ← aargc;
  opts ← aSetOptions (Z.to_nat n) 3 OBJ_SET_NO_FLAGS UNIT_SECONDS None;
  match opts with
  | None => mret tt
  | Some (flags, tu, expire) =>
      v ← aarg 2; k ← aarg 1;
      aSetGeneric flags k v expire tu None None
  end.

Definition aSETNX : AM unit :=
  v ← aarg 2; k ← aarg 1;
  aSetGeneric OBJ_SET_NX k v None UNIT_SECONDS (Some shared_cone) (Some shared_czero).

Definition aSETEX (tu : time_unit) : AM unit :=
  v ← aarg 3; k ← aarg 1; e ← aarg 2;
  aSetGeneric OBJ_SET_NO_FLAGS k v (Some e) tu None None.

(** ** GET, GETSET, GETRANGE, STRLEN, MGET *)

Definition aGetGeneric : AM bool :=
  k ← aarg 1;
  v ← alookupReadOrReply k shared_nullbulk;
  match v with
  | None => mret true
  | Some (AStr s) => _ ← aReplyBulk s; mret true
  | Some (AAgg _ _) => _ ← areply shared_wrongtypeerr; mret false
  end.

Definition aGET : AM unit := _ ← aGetGeneric; mret tt.

Definition aGETSET : AM unit :=
  ok ← aGetGeneric;
  if negb ok then mret tt
  else
    v ← aarg 2; k ← aarg 1; d ← aget acur;
    _ ← asetKey d k (AStr v);
    _ ← anotify NOTIFY_STRING (bytes_of_string "set") k d;
    arecord (add_dirty 1).

(** The slice [start .. end_] of a string, with negative positions from
    the end. *)
Definition arange (start end_ : Z) (s : list Z) : list Z :=
  let n := Z.of_nat (length s) in
  let from := Z.max 0 (if start <? 0 then n + start else start) in
  let upto := Z.min (n - 1) (Z.max 0 (if end_ <? 0 then n + end_ else end_)) in
  if (start <? 0) && (end_ <? 0) && (end_ <? start) then []
  else take (Z.to_nat (upto - from + 1)) (drop (Z.to_nat from) s).

Definition aGETRANGE : AM unit :=
  a2 ← aarg 2;
  start ← aLongLongOrReply a2 None;
  match start with
  | None => mret tt
  | Some start =>
      a3 ← aarg 3;
      end_ ← aLongLongOrReply a3 None;
      match end_ with
      | None => mret tt
      | Some end_ =>
          k ← aarg 1;
          v ← alookupReadOrReply k shared_emptybulk;
          match v with
          | None => mret tt
          | Some (AAgg _ _) => areply shared_wrongtypeerr
          | Some (AStr s) =>
              match arange start end_ s with
              | [] => areply shared_emptybulk
              | p => aReplyBulk p
              end
          end
      end
  end.

Definition aSTRLEN : AM unit :=
  k ← aarg 1;
  v ← alookupReadOrReply k shared_czero;
  match v with
  | None => mret tt
  | Some (AAgg _ _) => areply shared_wrongtypeerr
  | Some (AStr s) => aReplyLongLong (Z.of_nat (length s))
  end.

Fixpoint aMgetLoop (fuel j : nat) : AM unit :=
  match fuel with
  | O => mret tt
  | S fuel =>
      d ← aget acur;
      k ← aarg j;
      v ← alookupRead d k;
      _ ← (match v with Some (AStr s) => aReplyBulk s | _ => areply shared_nullbulk end);
      aMgetLoop fuel (S j)
  end.

Definition aMGET : AM unit :=
  n ← aargc;
  _ ← aReplyMultiBulkLen (n - 1);
  aMgetLoop (Z.to_nat (n - 1)) 1.

(** ** MSET *)

Fixpoint aBusyLoop (fuel j : nat) (busykeys : Z) : AM Z :=
  match fuel with
  | O => mret busykeys
  | S fuel =>
      d ← aget acur;
      k ← aarg j;
      v ← alookupWrite d k;
      aBusyLoop fuel (S (S j)) (match v with Some _ => busykeys + 1 | None => busykeys end)
  end.

Fixpoint aMsetLoop (fuel j : nat) : AM unit :=
  match fuel with
  | O => mret tt
  | S fuel =>
      v ← aarg (S j);
      d ← aget acur;
      k ← aarg j;
      _ ← asetKey d k (AStr v);
      _ ← anotify NOTIFY_STRING (bytes_of_string "set") k d;
      aMsetLoop fuel (S (S j))
  end.

Definition aMSET (nx : bool) : AM unit :=
  n ← aargc;
  if Z.even n then aReplyError (bytes_of_string "wrong number of arguments for MSET")
  else
    let pairs := Z.to_nat ((n - 1) / 2) in
    busykeys ← (if nx then aBusyLoop pairs 1 0 else mret 0);
    if negb (busykeys =? 0) then areply shared_czero
    else
      _ ← aMsetLoop pairs 1;
      _ ← arecord (add_dirty ((n - 1) / 2));
      areply (if nx then shared_cone else shared_ok).

(** ** SETRANGE, APPEND, INCR *)

(** A change of the value at [k] that keeps its expire time. *)
Definition amodify (d : Z) (k : key) (s : list Z) (event : list Z) : AM unit :=
  _ ← astore d k (AStr s);
  _ ← arecord (add_touched d k);
  _ ← anotify NOTIFY_STRING event k d;
  arecord (add_dirty 1).

Definition asize_ok (size : Z) : AM bool :=
  if 512 * 1024 * 1024 <? size then
    _ ← aReplyError (bytes_of_string "string exceeds maximum allowed size (512MB)");
    mret false
  else mret true.

(** The string after SETRANGE: zero bytes up to [offset] if it was shorter. *)
Definition aoverwrite (s : list Z) (offset : Z) (value : list Z) : list Z :=
  let n := Z.to_nat offset in
  let s := s ++ replicate (n + length value - length s) 0 in
  take n s ++ value ++ drop (n + length value) s.

Definition aSETRANGE : AM unit :=
  value ← aarg 3;
  a2 ← aarg 2;
  offset ← aLongLongOrReply a2 None;
  match offset with
  | None => mret tt
  | Some offset =>
      if offset <? 0 then aReplyError (bytes_of_string "offset is out of range")
      else
        d ← aget acur;
        k ← aarg 1;
        v ← alookupWrite d k;
        match v with
        | Some (AAgg _ _) => areply shared_wrongtypeerr
        | _ =>
            let s := match v with Some (AStr s) => s | _ => [] end in
            if Z.of_nat (length value) =? 0 then aReplyLongLong (Z.of_nat (length s))
            else
              let size := offset + Z.of_nat (length value) in
              ok ← asize_ok (i64 size);
              if negb ok then mret tt
              else if ALLOC_MAX <? size then afail OutOfMemory
              else
                _ ← amodify d k (aoverwrite s offset value) (bytes_of_string "setrange");
                aReplyLongLong (Z.of_nat (length (aoverwrite s offset value)))
        end
  end.

Definition aAPPEND : AM unit :=
  d ← aget acur;
  k ← aarg 1;
  v ← alookupWrite d k;
  match v with
  | Some (AAgg _ _) => areply shared_wrongtypeerr
  | None =>
      x ← aarg 2;
      _ ← amodify d k x (bytes_of_string "append");
      aReplyLongLong (Z.of_nat (length x))
  | Some (AStr s) =>
      x ← aarg 2;
      ok ← asize_ok (Z.of_nat (length (s ++ x)));
      if negb ok then mret tt
      else
        _ ← amodify d k (s ++ x) (bytes_of_string "append");
        aReplyLongLong (Z.of_nat (length (s ++ x)))
  end.

(** Add to the number at the key; an absent key counts as zero. *)
Definition aINCR (incr : Z) : AM unit :=
  d ← aget acur;
  k ← aarg 1;
  v ← alookupWrite d k;
  match v with
  | Some (AAgg _ _) => areply shared_wrongtypeerr
  | _ =>
      old ← (match v with Some (AStr s) => aLongLongOrReply s None | _ => mret (Some 0) end);
      match old with
      | None => mret tt
      | Some old =>
          if (old + incr <? LLONG_MIN) || (LLONG_MAX <? old + incr) then
            aReplyError (bytes_of_string "increment or decrement would overflow")
          else
            _ ← amodify d k (decimal (old + incr)) (bytes_of_string "incrby");
            _ ← areply shared_colon;
            _ ← areply (decimal (old + incr));
            areply shared_crlf
      end
  end.

Definition aINCRBY (sign : Z) : AM unit :=
  a2 ← aarg 2;
  incr ← aLongLongOrReply a2 None;
  match incr with
  | None => mret tt
  | Some incr => n ← all_of (sign * incr); aINCR n
  end.
