(* ===== verification/StringSim.v ===== *)
(** * StringSim: the string commands implement their specification *)

From S2P Require Import Prelude Util Object Db ServerOk Abstract ServerSim TString ValueSim AString.

(** ** Arguments *)

(** The arguments at the positions [P] are sds strings, as the protocol
    parser creates them. *)
Definition raw_args (P : nat -> Prop) (s : server) : Prop :=
  forall i a, P i -> argv s !! i = Some a -> exists k, is_sds s a k.

Lemma raw_kept P s s' : kept s s' -> raw_args P s -> raw_args P s'.
Proof.
  intros Hk H i a Hi Ha. pose proof Hk as (Harg & _). rewrite Harg in Ha.
  destruct (H i a Hi Ha) as [k Hs]. exists k.
  apply (is_sds_kept s); [done|by eapply list_elem_of_lookup_2|done].
Qed.

Lemma is_sds_str x s a k : ok x s -> is_sds s a k -> exists r, str_at s a r /\ string_of r = k.
Proof.
  intros Hok (r & Hr & Ht & He & Hp). exists r. split; [|unfold string_of; by rewrite Hp].
  split; [done|]. split; [by eapply ok_obj|done].
Qed.

Lemma aarg_at x s j a k : ok x s -> argv s !! j = Some a -> is_sds s a k -> aarg j (abs s) = Ret (k, abs s).
Proof.
  intros Hok Hj Hk. destruct (is_sds_str x s a k Hok Hk) as (r & (Hr & Hor & Ht) & <-).
  unfold aarg. cbn [aargs abs]. rewrite list_lookup_fmap, Hj. cbn [fmap option_fmap option_map].
  by rewrite (abs_arg_str _ _ r).
Qed.

Lemma sim_arg {A B} x P s j (f : addr -> M A) (g : list Z -> AM B) Q : ok x s -> raw_args P s -> P j ->
  (forall a k, argv s !! j = Some a -> is_key s a k -> sim s (f a) (g k) Q) ->
  sim s (arg j ≫= f) (aarg j ≫= g) Q.
Proof.
  intros Hok Hraw Hj K. destruct (argv s !! j) as [a|] eqn:E.
  - destruct (Hraw j a Hj E) as [k Hk].
    eapply sim_read; [unfold arg; by rewrite E|]. eapply sim_right; [by eapply aarg_at|].
    apply K; [done|]. split; [by eapply list_elem_of_lookup_2|done].
  - unfold sim, mbind, M_bind, AM_bind, arg, aarg. cbn [aargs abs]. by rewrite E, list_lookup_fmap, E.
Qed.

Lemma argc_at s : argc s = Ret (Z.of_nat (length (argv s)), s).
Proof. done. Qed.

Lemma aargc_at s : aargc (abs s) = Ret (Z.of_nat (length (argv s)), abs s).
Proof. unfold aargc, aget. cbn [aargs abs]. by rewrite length_fmap. Qed.

Lemma sim_argc {A B} s (f : Z -> M A) (g : Z -> AM B) Q :
  sim s (f (Z.of_nat (length (argv s)))) (g (Z.of_nat (length (argv s)))) Q ->
  sim s (argc ≫= f) (aargc ≫= g) Q.
Proof. intros H. eapply sim_read; [apply argc_at|]. eapply sim_right; [apply aargc_at|]. done. Qed.

Lemma raw_rearg P s s' j a' : rearg s s' j a' -> raw_args P s -> raw_args (fun i => P i /\ i <> j) s'.
Proof.
  intros (Harg & _ & _ & _ & Hobj) H i a [Hi Hij] Ha. rewrite Harg, list_lookup_insert_ne in Ha by done.
  destruct (H i a Hi Ha) as (k & o & Ho & Ht & He & Hp).
  destruct (Hobj i a o Hij Ha Ho) as (o' & Ho' & S1 & S2 & S3). exists k, o'.
  unfold sdsEncodedObject in *. rewrite S1, S2, S3. done.
Qed.

Lemma sim_encode {A B} x P s j (f : addr -> M A) (g : list Z -> AM B) Q :
  ok x s -> held x -> raw_args P s -> P j ->
  (forall s' a r, ok x s' -> raw_args (fun i => P i /\ i <> j) s' -> rearg s s' j a -> a ∈ argv s' ->
     str_at s' a r -> sim s' (f a) (g (string_of r)) Q) ->
  sim s (encode_arg j ≫= f) (aarg j ≫= g) Q.
Proof.
  intros Hok Hx Hraw Hj K. destruct (argv s !! j) as [a|] eqn:E.
  - destruct (Hraw j a Hj E) as (k & o & Ho & Ht & He & Hp).
    destruct (encode_arg_spec x s j a k o Hok Hx E Ho Ht He Hp) as (s' & a' & Ee & Hok' & Habs & Hre & r & Hr & Hs).
    eapply sim_left; [exact Ee|exact Habs|]. eapply sim_right.
    { rewrite Habs. apply (aarg_at x s j a); [done|done|]. by exists o. }
    rewrite <- Hs. apply K; [done|by eapply raw_rearg|done| |done].
    destruct Hre as (-> & _). apply list_elem_of_lookup_2 with j. apply list_lookup_insert_eq.
    by eapply lookup_lt_Some.
  - unfold sim, encode_arg, mbind, M_bind, AM_bind, arg, aarg. cbn [aargs abs]. by rewrite E, list_lookup_fmap, E.
Qed.

Lemma ll_of_sim x s v : ok x s -> sim s (ll_of v) (all_of v) (fun s' w w' => s' = s /\ w' = w /\ w = v /\ in_s 64 v).
Proof.
  intros Hok. unfold ll_of, all_of, LLONG_MIN, LLONG_MAX.
  destruct ((-9223372036854775808 <=? v) && (v <=? 9223372036854775807)) eqn:E; [|done].
  apply sim_ret. do 3 (split; [done|]). apply andb_true_iff in E as [E1%Z.leb_le E2%Z.leb_le].
  unfold in_s. change (64 - 1) with 63. lia.
Qed.

(** What a command leaves. *)
Definition done_ok {A B} (s : server) (_ : A) (_ : B) : Prop := server_ok s.

Abbreviation x0 := (fun _ : addr => 0).

Lemma held_x0 : held x0.
Proof. intros a. lia. Qed.

#[export] Hint Resolve held_x0 : redis.

(** An optional argument, at one of the positions [P]. *)
Definition arg_rel (P : nat -> Prop) (s : server) (x : option addr) (y : option (list Z)) : Prop :=
  match x, y with
  | Some a, Some w => exists i, P i /\ argv s !! i = Some a /\ is_sds s a w
  | None, None => True
  | _, _ => False
  end.

Lemma arg_rel_kept P s s' x y : kept s s' -> arg_rel P s x y -> arg_rel P s' x y.
Proof.
  intros Hk. destruct x as [a|], y as [w|]; try done. intros (i & Hi & Ha & Hs). exists i.
  split; [done|]. pose proof (is_sds_kept s s' a w Hk (list_elem_of_lookup_2 _ _ _ Ha) Hs).
  by destruct Hk as (-> & _).
Qed.

Lemma arg_rel_rearg P s s' j b x y : rearg s s' j b -> ~ P j -> arg_rel P s x y -> arg_rel P s' x y.
Proof.
  intros (Harg & _ & _ & _ & Hobj) Hj. destruct x as [a|], y as [w|]; try done. intros (i & Hi & Ha & o & Ho & Ht & He & Hp).
  assert (Hij : i <> j) by (intros ->; done). exists i. split; [done|].
  destruct (Hobj i a o Hij Ha Ho) as (o' & Ho' & S1 & S2 & S3).
  split; [by rewrite Harg, list_lookup_insert_ne|]. exists o'. unfold sdsEncodedObject in *. by rewrite S1, S2, S3.
Qed.

Lemma arg_rel_key P s a w : arg_rel P s (Some a) (Some w) -> is_key s a w.
Proof. intros (i & _ & Ha & Hs). split; [by eapply list_elem_of_lookup_2|done]. Qed.

(** ** SET *)

Lemma set_expire_arg_sim P s expire e tu : ok x0 s -> arg_rel P s expire e ->
  sim s (set_expire_arg expire tu) (aSetExpire e tu)
    (fun s' ms ms' => ms' = ms /\ logged x0 s s' /\ match ms with Some m => in_s 64 m | None => True end).
Proof.
  intros Hok He. unfold set_expire_arg, aSetExpire.
  destruct expire as [a|], e as [k|]; try done; cycle 1.
  { apply sim_ret. split; [done|]. split; [by apply logged_refl|]. unfold in_s. lia. }
  apply arg_rel_key in He as [Ha Hk]. destruct (is_sds_str x0 s a k Hok Hk) as (r & Hr & <-).
  eapply sim_bind; [by apply (getLongLongOrReply_sim x0)|]. intros s1 v v' (-> & Hv & H1).
  destruct v as [v|]; [|by apply sim_ret].
  assert (Hin : in_s 64 v) by (symmetry in Hv; apply string2ll_sound in Hv; tauto).
  destruct (Z.leb_spec v 0).
  - eapply sim_read; [done|]. eapply sim_right; [done|]. cbn [acf abs].
    eapply sim_bind; [apply (addReplyError_sim x0), H1|]. intros s2 [] [] H2. apply sim_ret.
    split; [done|]. split; [|done]. by eapply logged_trans.
  - destruct tu.
    + eapply sim_bind; [by apply (ll_of_sim x0), H1|]. intros s2 w w' (-> & -> & -> & Hw). by apply sim_ret.
    + eapply sim_read; [done|]. eapply sim_right; [done|]. by apply sim_ret.
Qed.

Lemma found_none s d k o v : found s d k o v -> bool_decide (o = None) = bool_decide (v = None).
Proof.
  intros H%found_is_Some. apply bool_decide_ext. rewrite <- !not_eq_None_Some in H.
  destruct o, v; split; try done; intros; exfalso; destruct H as [H1 H2]; [by apply H1|by apply H2].
Qed.

Lemma found_some s d k o v : found s d k o v -> bool_decide (is_Some o) = bool_decide (is_Some v).
Proof. intros H%found_is_Some. by apply bool_decide_ext. Qed.

Lemma set_forbidden_sim s flags key k : ok x0 s -> is_key s key k ->
  sim s (set_forbidden flags key) (aSetForbidden flags k)
    (fun s' b b' => b' = b /\ ok x0 s' /\ kept s s').
Proof.
  intros Hok Hk. unfold set_forbidden, aSetForbidden.
  eapply sim_read; [done|]. eapply sim_right; [done|]. cbn [acur abs].
  eapply (sim_bind _ _ _ _ _ (fun s' b b' => b' = b /\ ok x0 s' /\ kept s s')).
  { destruct (has flags OBJ_SET_NX); [|by apply sim_ret].
    eapply sim_bind; [apply (lookupKeyWrite_sim x0); auto with redis; by apply (cur_exists x0)|].
    intros s1 o v (Hf & Hok1 & Hk1). apply sim_ret. split; [|done]. by rewrite (found_some _ _ _ _ _ Hf). }
  intros s1 b b' (-> & Hok1 & Hk1). destruct b; [by apply sim_ret|].
  destruct (has flags OBJ_SET_XX); [|by apply sim_ret].
  eapply sim_bind.
  { apply (lookupKeyWrite_sim x0); auto with redis; [by apply (is_key_kept s)|].
    apply (db_exists_kept s); [done|by apply (cur_exists x0)]. }
  intros s2 o v (Hf & Hok2 & Hk2). apply sim_ret. split; [|split; [done|by etrans]].
  by rewrite (found_none _ _ _ _ _ Hf).
Qed.

Lemma str_kept x s s' a r : kept s s' -> ok x s' -> a ∈ argv s -> str_at s a r ->
  exists r', str_at s' a r' /\ string_of r' = string_of r.
Proof.
  intros (_ & _ & _ & _ & H) Hok' Ha (Hr & Ho & Ht). destruct (H a r Ha Hr) as (r' & Hr' & S1 & S2 & S3).
  exists r'. split; [|unfold string_of; by rewrite S3]. split; [done|]. split; [by eapply ok_obj|congruence].
Qed.

Lemma view_str s a r : str_at s a r -> view r = AStr (string_of r).
Proof. intros (_ & Ho & Ht). by destruct (obj_string r Ho Ht). Qed.

Lemma cur_kept s s' : kept s s' -> curdb s' = curdb s.
Proof. intros (_ & H & _). done. Qed.

Lemma arg_kept s s' a : kept s s' -> a ∈ argv s -> a ∈ argv s'.
Proof. by intros (-> & _). Qed.

#[export] Hint Resolve is_key_kept arg_kept raw_kept : redis.

Lemma setGeneric_sim P s flags key k val r expire e tu okr abr :
  ok x0 s -> is_key s key k -> val ∈ argv s -> str_at s val r -> arg_rel P s expire e ->
  sim s (setGenericCommand flags key val expire tu okr abr)
    (aSetGeneric flags k (string_of r) e tu okr abr) done_ok.
Proof.
  intros Hok Hk Hv Hr He. unfold setGenericCommand, aSetGeneric.
  eapply sim_bind; [by eapply set_expire_arg_sim|].
  intros s1 ms ms' (-> & (Hok1 & Hk1 & _) & _). destruct ms as [ms|]; [|by apply sim_ret].
  eapply sim_bind; [apply set_forbidden_sim; [done|by apply (is_key_kept s)]|].
  intros s2 b b' (-> & Hok2 & Hk2). assert (Hk02 : kept s s2) by (by etrans).
  destruct b. { eapply sim_conseq; [by apply (sim_log x0)|]. intros s3 [] [] H3. apply H3. }
  eapply sim_read; [done|]. eapply sim_right; [done|]. cbn [acur abs].
  destruct (str_kept _ s s2 val r Hk02 Hok2 Hv Hr) as (r2 & Hr2 & Hs2).
  rewrite <- Hs2, <- (view_str s2 val r2) by done.
  eapply sim_bind.
  { apply (setKey_sim x0); auto with redis; [by apply (is_key_kept s)|by apply (cur_exists x0)|
      by apply (arg_kept s)|apply Hr2]. }
  intros s3 [] [] (Hok3 & Hk3 & db & r3 & Hd3 & Hdk3 & Hr3 & _).
  apply (sim_log_then x0); [done|]. intros s4 (Hok4 & Hk4 & Hh4 & Hd4).
  assert (Hk04 : kept s s4) by (etrans; [exact Hk02|]; by etrans).
  eapply sim_read; [done|]. eapply sim_right; [done|]. cbn [acf abs].
  eapply (sim_bind _ _ _ _ _ (fun s' _ _ => ok x0 s' /\ kept s4 s')).
  { destruct expire as [a|], e as [w|]; try done; [|by apply sim_ret].
    eapply sim_bind; [by apply (ll_of_sim x0)|]. intros s5 w5 w5' (-> & -> & -> & _).
    eapply sim_conseq; [eapply (setExpire_sim x0); [done| |unfold db_at; rewrite Hd4; exact Hd3|exact Hdk3]|].
    - eapply is_key_kept; [exact Hk04|done].
    - intros s6 [] [] (? & ? & _). done. }
  intros s5 [] [] (Hok5 & Hk5). assert (Hk05 : kept s s5) by (by etrans).
  eapply sim_read; [apply sds_of_at, (is_key_kept s s5 _ _ Hk05 Hk)|].
  apply (sim_log_then x0); [done|]. intros s6 (Hok6 & _).
  eapply (sim_bind _ _ _ _ _ (fun s' _ _ => ok x0 s')).
  { destruct expire as [a|], e as [w|]; try done; [|by apply sim_ret].
    eapply sim_conseq; [by apply (sim_log x0)|]. intros s7 [] [] H7. apply H7. }
  intros s7 [] [] Hok7. eapply sim_conseq; [by apply (sim_log x0)|]. intros s8 [] [] H8. apply H8.
Qed.

Lemma set_options_sim P s fuel j flags tu expire e : ok x0 s -> raw_args P s -> (forall i, (3 <= i)%nat -> P i) ->
  (3 <= j)%nat -> arg_rel (fun i => (3 <= i)%nat) s expire e ->
  sim s (set_options fuel j flags tu expire) (aSetOptions fuel j flags tu e)
    (fun s' r r' => logged x0 s s' /\
       match r, r' with
       | Some (f, t, x), Some (f', t', y) => f' = f /\ t' = t /\ arg_rel (fun i => (3 <= i)%nat) s x y
       | None, None => True
       | _, _ => False
       end).
Proof.
  intros Hok Hraw HP. revert j flags tu expire e.
  induction fuel as [|fuel IH]; intros j flags tu expire e Hj He; cbn [set_options aSetOptions];
    apply sim_argc; destruct (negb _);
    try (apply sim_ret; split; [by apply logged_refl|done]); [done|].
  eapply (sim_arg x0 P); [done|done|by apply HP|]. intros a k Ha Hk.
  eapply sim_read; [by apply sds_of_at, Hk|].
  eapply (sim_bind _ _ _ _ _ (fun s' n n' => s' = s /\ arg_rel (fun i => (3 <= i)%nat) s n n')).
  { destruct (_ =? _); [by apply sim_ret|]. eapply (sim_arg x0 P); [done|done|apply HP; lia|].
    intros b w Hb Hw. apply sim_ret. split; [done|]. exists (S j). split; [lia|]. split; [done|apply Hw]. }
  intros s1 n n' (-> & Hn).
  assert (Hnn : bool_decide (is_Some n) = bool_decide (is_Some n')).
  { apply bool_decide_ext. destruct n, n'; try done; split; eauto. }
  rewrite Hnn. destruct (is_opt k 110 120 && _); [apply IH; [lia|done]|].
  destruct (is_opt k 120 120 && _); [apply IH; [lia|done]|].
  destruct (is_opt k 101 120 && _ && _); [apply IH; [lia|done]|].
  destruct (is_opt k 112 120 && _ && _); [apply IH; [lia|done]|].
  eapply sim_bind; [by apply (sim_log x0)|]. intros s2 [] [] H2. by apply sim_ret.
Qed.

(** The state in which the server calls a command. *)
Definition client_ok (s : server) : Prop := server_ok s /\ raw_args (fun _ => True) s.

Lemma setCommand_sim s : client_ok s -> sim s setCommand aSET done_ok.
Proof.
  intros [Hok Hraw]. unfold setCommand, aSET. apply sim_argc.
  eapply sim_bind; [by apply (set_options_sim (fun _ => True)); auto|].
  intros s1 r r' ((Hok1 & Hk1 & _) & Hr). destruct r as [[[f t] e]|], r' as [[[f' t'] e']|]; try done; [|by apply sim_ret].
  destruct Hr as (-> & -> & He).
  eapply (sim_encode x0 (fun _ => True)); [done|apply held_x0|by eapply raw_kept|done|].
  intros s2 a r2 Hok2 Hraw2 Hre Ha Hr2. eapply (sim_arg x0); [done|exact Hraw2|by split|].
  intros key k Hkey Hk. apply (setGeneric_sim (fun i => (3 <= i)%nat)); try done.
  eapply arg_rel_rearg; [exact Hre|lia|by eapply arg_rel_kept].
Qed.

Lemma setnxCommand_sim s : client_ok s -> sim s setnxCommand aSETNX done_ok.
Proof.
  intros [Hok Hraw]. unfold setnxCommand, aSETNX. eapply (sim_encode x0 (fun _ => True)); [done|apply held_x0|done|done|].
  intros s2 a r2 Hok2 Hraw2 Hre Ha Hr2. eapply (sim_arg x0); [done|exact Hraw2|by split|].
  intros key k Hkey Hk. by apply (setGeneric_sim (fun _ => True)).
Qed.

Lemma setex_sim s tu : client_ok s ->
  sim s (val ← encode_arg 3; key ← arg 1; expire ← arg 2;
         setGenericCommand OBJ_SET_NO_FLAGS key val (Some expire) tu None None) (aSETEX tu) done_ok.
Proof.
  intros [Hok Hraw]. unfold aSETEX. eapply (sim_encode x0 (fun _ => True)); [done|apply held_x0|done|done|].
  intros s2 a r2 Hok2 Hraw2 Hre Ha Hr2. eapply (sim_arg x0); [done|exact Hraw2|by split|].
  intros key k Hkey Hk. eapply (sim_arg x0); [done|exact Hraw2|by split|]. intros e w He Hw.
  apply (setGeneric_sim (fun _ => True)); try done. exists 2%nat. split; [done|]. split; [done|apply Hw].
Qed.

(** ** GET and its relatives *)

Lemma found_value s d k a v : found s d k (Some a) (Some v) ->
  exists r, heap s !! a = Some r /\ obj_ok r /\
    ((type r = OBJ_STRING /\ v = AStr (string_of r)) \/ (type r <> OBJ_STRING /\ exists t i, v = AAgg t i)).
Proof.
  intros (db & _ & _ & r & Hr & Ho & [= ->]). exists r. split; [done|]. split; [done|].
  destruct (decide (type r = OBJ_STRING)) as [Ht|Ht].
  - left. split; [done|]. by destruct (obj_string r Ho Ht).
  - right. split; [done|]. destruct r as [[] [] l c []]; unfold obj_ok in Ho; cbn in *; try done; eauto.
Qed.

Lemma str_len s a r : str_at s a r -> Z.of_nat (length (string_of r)) < 2 ^ 63.
Proof. intros (_ & Ho & Ht). pose proof (string_alloc r Ho Ht). unfold ALLOC_MAX in *. lia. Qed.

(** What a read found: nothing, or a value in the heap. *)
Definition read_rel (s : server) (o : option addr) (v : option sval) : Prop :=
  match o, v with
  | None, None => True
  | Some a, Some v => exists r, heap s !! a = Some r /\ obj_ok r /\
      ((type r = OBJ_STRING /\ v = AStr (string_of r)) \/ (type r <> OBJ_STRING /\ exists t i, v = AAgg t i))
  | _, _ => False
  end.

Lemma found_read s d k o v : found s d k o v -> read_rel s o v.
Proof.
  intros H. destruct o as [a|], v as [v|].
  - by apply found_value in H.
  - destruct H as (? & _ & _ & ? & _ & _ & ?). done.
  - destruct H as (? & _ & _ & ?). done.
  - done.
Qed.

Lemma read_sim s d key k touch : ok x0 s -> is_key s key k -> db_exists s d ->
  sim s (lookupKeyReadWithFlags d key touch) (alookupRead d k)
    (fun s' o v => read_rel s' o v /\ ok x0 s' /\ kept s s').
Proof.
  intros Hok Hk He. eapply sim_conseq; [apply (lookupKeyReadWithFlags_sim x0); auto with redis|].
  intros s1 o v (Hf & Hok1 & Hk1). split; [|done]. destruct v; [by eapply found_read|by subst o].
Qed.

Lemma readOrReply_sim s key k reply : ok x0 s -> is_key s key k ->
  sim s (lookupKeyReadOrReply key reply) (alookupReadOrReply k reply)
    (fun s' o v => read_rel s' o v /\ ok x0 s' /\ kept s s').
Proof.
  intros Hok Hk. eapply sim_conseq; [apply (lookupKeyReadOrReply_sim x0); auto with redis|].
  intros s1 o v (Hf & Hok1 & Hk1). split; [|done]. destruct v; [by eapply found_read|by subst o].
Qed.

Lemma getGeneric_sim s : ok x0 s -> raw_args (fun _ => True) s ->
  sim s getGenericCommand aGetGeneric (fun s' b b' => b' = b /\ ok x0 s' /\ kept s s').
Proof.
  intros Hok Hraw. unfold getGenericCommand, aGetGeneric.
  eapply (sim_arg x0 (fun _ => True)); [done|done|done|]. intros key k _ Hk.
  eapply sim_bind; [by apply readOrReply_sim|]. intros s1 o v (Hr & Hok1 & Hk1).
  destruct o as [a|], v as [v|]; try done; [|by apply sim_ret].
  destruct Hr as (r & Hh & Ho & Hc). eapply sim_read; [by apply obj_at|].
  destruct Hc as [[Ht ->]|[Ht (t & i & ->)]].
  - rewrite bool_decide_true by done. cbn [negb]. assert (Hst : str_at s1 a r) by done.
    eapply sim_bind; [apply (addReplyBulk_sim x0); [done|done|by eapply str_len]|].
    intros s2 [] [] (Hok2 & Hk2 & _). apply sim_ret. split; [done|]. split; [done|by etrans].
  - rewrite bool_decide_false by done. cbn [negb].
    eapply sim_bind; [by apply (sim_log x0)|]. intros s2 [] [] (Hok2 & Hk2 & _).
    apply sim_ret. split; [done|]. split; [done|by etrans].
Qed.

Lemma getCommand_sim s : client_ok s -> sim s getCommand aGET done_ok.
Proof.
  intros [Hok Hraw]. unfold getCommand, aGET. eapply sim_bind; [by apply getGeneric_sim|].
  intros s1 b b' (_ & Hok1 & _). by apply sim_ret.
Qed.

Lemma getsetCommand_sim s : client_ok s -> sim s getsetCommand aGETSET done_ok.
Proof.
  intros [Hok Hraw]. unfold getsetCommand, aGETSET. eapply sim_bind; [by apply getGeneric_sim|].
  intros s1 b b' (-> & Hok1 & Hk1). destruct b; cbn [negb]; [|by apply sim_ret].
  eapply (sim_encode x0 (fun _ => True)); [done|apply held_x0|by eapply raw_kept|done|].
  intros s2 a r2 Hok2 Hraw2 Hre Ha Hr2. eapply (sim_arg x0); [done|exact Hraw2|by split|]. intros key k _ Hk.
  eapply sim_read; [done|]. eapply sim_right; [done|]. cbn [acur abs].
  rewrite <- (view_str s2 a r2) by done.
  eapply sim_bind; [apply (setKey_sim x0); auto with redis; [by apply (cur_exists x0)|apply Hr2]|].
  intros s3 [] [] (Hok3 & Hk3 & _). eapply sim_read; [apply sds_of_at, (is_key_kept s2 s3 _ _ Hk3 Hk)|].
  apply (sim_log_then x0); [done|]. intros s4 (Hok4 & _).
  eapply sim_conseq; [by apply (sim_log x0)|]. intros s5 [] [] H5. apply H5.
Qed.

(** The type test of a value that was read. *)
Lemma checkType_sim {A} s a r v (f : M A) (g : sval -> AM A) (w : A) Q :
  ok x0 s -> heap s !! a = Some r -> obj_ok r ->
  ((type r = OBJ_STRING /\ v = AStr (string_of r)) \/ (type r <> OBJ_STRING /\ exists t i, v = AAgg t i)) ->
  (type r = OBJ_STRING -> v = AStr (string_of r) -> sim s f (g v) Q) ->
  (forall t i s', v = AAgg t i -> logged x0 s s' ->
     s' = with_lg (add_output shared_wrongtypeerr) s -> g v (abs s) = Ret (w, abs s') /\ Q s' w w) ->
  sim s (wrong ← checkType a OBJ_STRING; if (wrong : bool) then mret w else f) (g v) Q.
Proof.
  intros Hok Hr Ho Hc Hstr Hagg. unfold sim, mbind, M_bind. rewrite (checkType_at _ _ _ _ Hr).
  destruct Hc as [[Ht Hv]|[Ht (t & i & Hv)]].
  - rewrite bool_decide_true by done. by apply Hstr.
  - rewrite bool_decide_false by done. cbn.
    pose proof (sim_log x0 s (add_output shared_wrongtypeerr) Hok) as Hl. cbn in Hl.
    destruct Hl as (b & _ & Hl). destruct (Hagg t i _ Hv Hl eq_refl) as [H1 H2]. exists w. done.
Qed.

Lemma strlenCommand_sim s : client_ok s -> sim s strlenCommand aSTRLEN done_ok.
Proof.
  intros [Hok Hraw]. unfold strlenCommand, aSTRLEN.
  eapply (sim_arg x0 (fun _ => True)); [done|done|done|]. intros key k _ Hk.
  eapply sim_bind; [by apply readOrReply_sim|]. intros s1 o v (Hr & Hok1 & Hk1).
  destruct o as [a|], v as [v|]; try done; [|by apply sim_ret].
  destruct Hr as (r & Hh & Ho & Hc).
  apply (checkType_sim s1 a r v _ (fun v => match v with AStr s => aReplyLongLong (Z.of_nat (length s))
    | AAgg _ _ => areply shared_wrongtypeerr end)); try done.
  - intros Ht ->. eapply sim_read; [by apply stringObjectLen_at|].
    assert (Hst : str_at s1 a r) by done. pose proof (str_len _ _ _ Hst).
    eapply sim_conseq; [apply (addReplyLongLong_sim x0); [done|unfold in_s; change (64 - 1) with 63; lia]|].
    intros s2 [] [] H2. apply H2.
  - intros t i s' -> Hl ->. split; [done|]. apply Hl.
Qed.

(** The bounds GETRANGE computes delimit the slice of the specification. *)
Lemma range_bounds_ok start end_ str : in_s 64 start -> in_s 64 end_ -> Z.of_nat (length str) <= ALLOC_MAX ->
  match range_bounds start end_ (Z.of_nat (length str)) with
  | None => arange start end_ str = []
  | Some (f, t) => memread str f (Z.to_nat (t - f + 1)) = Ret (arange start end_ str) /\
      arange start end_ str <> []
  end.
Proof.
  intros Hs He Hn. unfold in_s in *. change (64 - 1) with 63 in *. unfold ALLOC_MAX in Hn.
  unfold range_bounds, arange. set (n := Z.of_nat (length str)) in *.
  destruct ((start <? 0) && (end_ <? 0) && (end_ <? start)); [done|].
  assert (Hwrap : forall v, v < 0 -> - 2 ^ 63 <= v -> i64 (u64 (n + v)) = n + v).
  { intros v H1 H2. rewrite swrap_uwrap by lia. apply swrap_id; [lia|]. unfold in_s. change (64 - 1) with 63. lia. }
  assert (Ef : (if (if start <? 0 then i64 (u64 (n + start)) else start) <? 0 then 0
     else if start <? 0 then i64 (u64 (n + start)) else start) =
     Z.max 0 (if start <? 0 then n + start else start)).
  { destruct (Z.ltb_spec start 0); [rewrite Hwrap by lia|];
    repeat match goal with |- context [?a <? ?b] => destruct (Z.ltb_spec a b) end; lia. }
  assert (Et : (if (if end_ <? 0 then i64 (u64 (n + end_)) else end_) <? 0 then 0
     else if end_ <? 0 then i64 (u64 (n + end_)) else end_) =
     Z.max 0 (if end_ <? 0 then n + end_ else end_)).
  { destruct (Z.ltb_spec end_ 0); [rewrite Hwrap by lia|];
    repeat match goal with |- context [?a <? ?b] => destruct (Z.ltb_spec a b) end; lia. }
  rewrite Ef, Et. set (f := Z.max 0 (if start <? 0 then _ else _)).
  set (t := Z.max 0 (if end_ <? 0 then _ else _)).
  assert (Hf : 0 <= f) by lia.
  assert (Ht : 0 <= t < 2 ^ 63) by (subst t; destruct (Z.ltb_spec end_ 0); lia). clearbody f t.
  rewrite (uwrap_id 64 t) by (unfold in_u; lia).
  assert (Em : (if n <=? t then i64 (u64 (n - 1)) else t) = Z.min (n - 1) t).
  { destruct (Z.leb_spec n t); [|lia]. rewrite swrap_uwrap, swrap_id by (unfold in_s; change (64 - 1) with 63; lia). lia. }
  rewrite Em. set (m := Z.min (n - 1) t). destruct ((m <? f) || (n =? 0)) eqn:E.
  - apply orb_true_iff in E as [E%Z.ltb_lt|E%Z.eqb_eq].
    + replace (Z.to_nat (m - f + 1)) with 0%nat by lia. done.
    + destruct str; [|subst n; cbn [length] in E; lia]. rewrite drop_nil. apply take_nil.
  - apply orb_false_iff in E as [E1%Z.ltb_ge E2%Z.eqb_neq]. split.
    + rewrite <- (Z2Nat.id f) at 1 by lia. rewrite memread_ok by lia. done.
    + intros Hnil. apply (f_equal length) in Hnil. rewrite length_take, length_drop in Hnil. cbn in Hnil. lia.
Qed.

Lemma getrangeCommand_sim s : client_ok s -> sim s getrangeCommand aGETRANGE done_ok.
Proof.
  intros [Hok Hraw]. unfold getrangeCommand, aGETRANGE.
  eapply (sim_arg x0 (fun _ => True)); [done|done|done|]. intros a2 k2 _ [_ Hk2].
  destruct (is_sds_str x0 s a2 k2 Hok Hk2) as (r2 & Hr2 & <-).
  eapply sim_bind; [by apply (getLongLongOrReply_sim x0)|]. intros s1 start st' (-> & Hst & Hok1 & Hkp1 & _).
  destruct start as [start|]; [|by apply sim_ret]. symmetry in Hst. apply string2ll_sound in Hst as [Hst _].
  assert (Hraw1 : raw_args (fun _ => True) s1) by (by eapply raw_kept).
  eapply (sim_arg x0 (fun _ => True)); [done|done|done|]. intros a3 k3 _ [_ Hk3].
  destruct (is_sds_str x0 s1 a3 k3 Hok1 Hk3) as (r3 & Hr3 & <-).
  eapply sim_bind; [by apply (getLongLongOrReply_sim x0)|]. intros s2 end_ en' (-> & Hen & Hok2 & Hkp2 & _).
  destruct end_ as [end_|]; [|by apply sim_ret]. symmetry in Hen. apply string2ll_sound in Hen as [Hen _].
  eapply (sim_arg x0 (fun _ => True)); [done|by eapply raw_kept|done|]. intros key k _ Hk.
  eapply sim_bind; [by apply readOrReply_sim|]. intros s3 o v (Hr & Hok3 & Hk3').
  destruct o as [a|], v as [v|]; try done; [|by apply sim_ret].
  destruct Hr as (r & Hh & Ho & Hc).
  apply (checkType_sim s3 a r v _ (fun v => match v with
    | AStr s => match arange start end_ s with [] => areply shared_emptybulk | p => aReplyBulk p end
    | AAgg _ _ => areply shared_wrongtypeerr end)); try done.
  - intros Ht ->. eapply sim_read; [by apply obj_at|].
    eapply sim_read.
    { instantiate (1 := string_of r).
      destruct (obj_string r Ho Ht) as (_ & [[He Hp]|(He & Hi & v & Hp & Hv)]).
      - rewrite bool_decide_false; [by eapply sds_at|]. intros E. unfold sdsEncodedObject in He. by rewrite E in He.
      - rewrite bool_decide_true by done. unfold mbind, M_bind. rewrite (long_at _ _ _ _ Hh Hp).
        rewrite ll2sds_at by done. unfold string_of. by rewrite Hp. }
    pose proof (string_alloc r Ho Ht) as Hal.
    pose proof (range_bounds_ok start end_ (string_of r) Hst Hen Hal) as Hb.
    destruct (range_bounds _ _ _) as [[f t]|].
    + destruct Hb as [-> Hne]. destruct (arange start end_ (string_of r)) as [|b p] eqn:E; [done|].
      eapply sim_conseq; [apply (addReplyBulkCBuffer_sim x0); [done|]|intros s4 [] [] H4; apply H4].
      rewrite <- E. unfold arange. destruct (_ && _); [cbn; lia|]. rewrite length_take, length_drop.
      unfold ALLOC_MAX in Hal. lia.
    + rewrite Hb. eapply sim_conseq; [by apply (sim_log x0)|]. intros s4 [] [] H4. apply H4.
  - intros t i s' -> Hl ->. split; [done|]. apply Hl.
Qed.

Lemma mget_loop_sim fuel j s : ok x0 s -> raw_args (fun _ => True) s ->
  sim s (mget_loop fuel j) (aMgetLoop fuel j) done_ok.
Proof.
  revert j s. induction fuel as [|fuel IH]; intros j s Hok Hraw; cbn [mget_loop aMgetLoop]; [by apply sim_ret|].
  eapply sim_read; [done|]. eapply sim_right; [done|]. cbn [acur abs].
  eapply (sim_arg x0 (fun _ => True)); [done|done|done|]. intros key k _ Hk.
  eapply sim_bind; [apply read_sim; [done|done|by apply (cur_exists x0)]|]. intros s1 o v (Hr & Hok1 & Hk1).
  eapply (sim_bind _ _ _ _ _ (fun s' _ _ => logged x0 s1 s')).
  { destruct o as [a|], v as [v|]; try done; [|by apply (sim_log x0)].
    destruct Hr as (r & Hh & Ho & Hc). eapply sim_read; [by apply obj_at|].
    destruct Hc as [[Ht ->]|[Ht (t & i & ->)]].
    - rewrite bool_decide_true by done. assert (Hst : str_at s1 a r) by done.
      apply (addReplyBulk_sim x0); [done|done|by eapply str_len].
    - rewrite bool_decide_false by done. by apply (sim_log x0). }
  intros s2 [] [] (Hok2 & Hk2 & _). apply IH; [done|].
  eapply raw_kept; [|exact Hraw]. by etrans.
Qed.

Lemma mgetCommand_sim s : client_ok s -> Z.of_nat (length (argv s)) < 2 ^ 31 -> (1 <= length (argv s))%nat ->
  sim s mgetCommand aMGET done_ok.
Proof.
  intros [Hok Hraw] Hl H1. unfold mgetCommand, aMGET. apply sim_argc.
  eapply sim_bind; [apply (addReplyMultiBulkLen_sim x0); [done|lia|unfold in_s; change (64 - 1) with 63; lia]|].
  intros s1 [] [] (Hok1 & Hk1 & _). apply mget_loop_sim; [done|by eapply raw_kept].
Qed.

(** ** MSET *)

Lemma raw_mono (P Q : nat -> Prop) s : (forall i, Q i -> P i) -> raw_args P s -> raw_args Q s.
Proof. intros H Hr i a Hi Ha. eapply Hr; eauto. Qed.

Lemma busy_loop_sim fuel j n s : ok x0 s -> raw_args (fun _ => True) s ->
  sim s (busy_loop fuel j n) (aBusyLoop fuel j n) (fun s' m m' => m' = m /\ ok x0 s' /\ kept s s').
Proof.
  revert j n s. induction fuel as [|fuel IH]; intros j n s Hok Hraw; cbn [busy_loop aBusyLoop]; [by apply sim_ret|].
  eapply sim_read; [done|]. eapply sim_right; [done|]. cbn [acur abs].
  eapply (sim_arg x0 (fun _ => True)); [done|done|done|]. intros key k _ Hk.
  eapply sim_bind; [apply (lookupKeyWrite_sim x0); auto with redis; by apply (cur_exists x0)|].
  intros s1 o v (Hf & Hok1 & Hk1).
  replace (match v with Some _ => n + 1 | None => n end) with (match o with Some _ => n + 1 | None => n end).
  2: { apply found_is_Some in Hf. destruct o, v; try done; destruct Hf as [H1 H2];
       [destruct H1|destruct H2]; eauto; done. }
  eapply sim_conseq; [apply IH; [done|by eapply raw_kept]|]. intros s2 m m' (-> & ? & ?).
  split; [done|]. split; [done|by etrans].
Qed.

Lemma mset_loop_sim fuel j s : ok x0 s -> raw_args (fun i => (j <= i)%nat) s ->
  sim s (mset_loop fuel j) (aMsetLoop fuel j) (fun s' _ _ => ok x0 s').
Proof.
  revert j s. induction fuel as [|fuel IH]; intros j s Hok Hraw; cbn [mset_loop aMsetLoop]; [by apply sim_ret|].
  eapply (sim_encode x0 (fun i => (j <= i)%nat)); [done|apply held_x0|done|lia|].
  intros s2 a r2 Hok2 Hraw2 Hre Ha Hr2.
  eapply sim_read; [done|]. eapply sim_right; [done|]. cbn [acur abs].
  eapply (sim_arg x0); [done|exact Hraw2|by cbn; lia|]. intros key k _ Hk.
  rewrite <- (view_str s2 a r2) by done.
  eapply sim_bind; [apply (setKey_sim x0); auto with redis; [by apply (cur_exists x0)|apply Hr2]|].
  intros s3 [] [] (Hok3 & Hk3 & _). eapply sim_read; [apply sds_of_at, (is_key_kept s2 s3 _ _ Hk3 Hk)|].
  apply (sim_log_then x0); [done|]. intros s4 (Hok4 & Hk4 & _). apply IH; [done|].
  eapply raw_mono; [|eapply raw_kept; [|exact Hraw2]; by etrans]. cbn. lia.
Qed.

Lemma msetGeneric_sim s nx : client_ok s -> sim s (msetGenericCommand nx) (aMSET nx) done_ok.
Proof.
  intros [Hok Hraw]. unfold msetGenericCommand, aMSET. apply sim_argc. destruct (Z.even _).
  { eapply sim_conseq; [by apply (addReplyError_sim x0)|]. intros s1 [] [] H. apply H. }
  eapply (sim_bind _ _ _ _ _ (fun s' m m' => m' = m /\ ok x0 s' /\ kept s s')).
  { destruct nx; [by apply busy_loop_sim|by apply sim_ret]. }
  intros s1 m m' (-> & Hok1 & Hk1). destruct (negb _).
  { eapply sim_conseq; [by apply (sim_log x0)|]. intros s2 [] [] H. apply H. }
  eapply sim_bind; [apply mset_loop_sim; [done|eapply raw_mono; [|by eapply raw_kept]; done]|].
  intros s2 [] [] Hok2. apply (sim_log_then x0); [done|]. intros s3 (Hok3 & _).
  eapply sim_conseq; [by apply (sim_log x0)|]. intros s4 [] [] H. apply H.
Qed.

(** ** Changing a string in place *)

Lemma checkStringLength_sim s size : ok x0 s ->
  sim s (checkStringLength size) (asize_ok size)
    (fun s' b b' => b' = b /\ b = negb (512 * 1024 * 1024 <? size) /\ logged x0 s s' /\ (b = true -> s' = s)).
Proof.
  intros Hok. unfold checkStringLength, asize_ok. destruct (_ <? size); [|by apply sim_ret].
  eapply sim_bind; [by apply (addReplyError_sim x0)|]. intros s1 [] [] H1. by apply sim_ret.
Qed.

(** The entry [k] of database [d] holds a raw string that only it refers
    to. *)
Definition private_str (s : server) (d : Z) (k : key) (a : addr) (str : list Z) : Prop :=
  exists db r, db_at s d db /\ dict db !! k = Some a /\ heap s !! a = Some r /\ type r = OBJ_STRING /\
    refcount r = 1 /\ encoding r = OBJ_ENCODING_RAW /\ ptr r = PSds str.

Lemma set_sds_sim s d k a str new : ok x0 s -> private_str s d k a str -> Z.of_nat (length new) <= ALLOC_MAX ->
  sim s (set_sds a new) (astore d k (AStr new))
    (fun s' _ _ => ok x0 s' /\ kept s s' /\ private_str s' d k a new).
Proof.
  intros Hok (db & r & Hd & Hk & Hr & Ht & Hc & He & Hp) Hn. unfold set_sds.
  eapply sim_read; [by apply obj_at|].
  change (AStr new) with (view (with_ptr (encoding r) (PSds new) r)).
  eapply sim_conseq; [apply (inplace_sim x0 s d db k a r (PSds new)); auto with redis|].
  - unfold obj_ok. cbn [with_ptr type encoding ptr]. by rewrite Ht, He.
  - intros s' [] [] (Hok' & Hkp & Hd' & Hh'). split; [done|]. split; [done|].
    exists db, (with_ptr (encoding r) (PSds new) r). unfold db_at. rewrite Hd', Hh', lookup_insert_eq. done.
Qed.

Lemma private_sds s d k a str : private_str s d k a str -> sds_of a s = Ret (str, s).
Proof. intros (db & r & _ & _ & Hr & _ & _ & _ & Hp). by eapply sds_at. Qed.

Lemma private_ext s s' d k a str : heap s' = heap s -> dbs s' = dbs s ->
  private_str s d k a str -> private_str s' d k a str.
Proof. intros Hh Hd. unfold private_str, db_at. by rewrite Hh, Hd. Qed.

Lemma length_aoverwrite str offset value : 0 <= offset ->
  Z.of_nat (length (aoverwrite str offset value)) =
  Z.max (Z.of_nat (length str)) (offset + Z.of_nat (length value)).
Proof.
  intros H. unfold aoverwrite. rewrite !length_app, length_take, length_drop, length_app, length_replicate. lia.
Qed.

Lemma grow_write str offset value : 0 <= offset -> offset + Z.of_nat (length value) <= ALLOC_MAX ->
  forall s, (s1 ← sdsgrowzero str (u64 (offset + Z.of_nat (length value)));
    match memwrite s1 offset value with Ret s => mret s | Fault f => fail f end) s =
  Ret (aoverwrite str offset value, s).
Proof.
  intros H0 Hm s. unfold ALLOC_MAX in Hm. rewrite uwrap_id by (unfold in_u; lia).
  unfold sdsgrowzero, mbind, M_bind. unfold ALLOC_MAX.
  assert (Hg : forall g, g = str ++ replicate (Z.to_nat offset + length value - length str) 0 ->
    memwrite g offset value = Ret (aoverwrite str offset value)).
  { intros g ->. pose proof (memwrite_ok (str ++ replicate (Z.to_nat offset + length value - length str) 0)
      (Z.to_nat offset) value) as E. rewrite Z2Nat.id in E by lia. apply E.
    rewrite length_app, length_replicate. lia. }
  destruct (Z.leb_spec (offset + Z.of_nat (length value)) (Z.of_nat (length str))).
  - cbn. rewrite Hg; [done|]. replace (Z.to_nat offset + length value - length str)%nat with 0%nat by lia.
    by rewrite app_nil_r.
  - destruct (Z.ltb_spec (2 ^ 47) (offset + Z.of_nat (length value))); [lia|]. cbn.
    rewrite Hg; [done|]. do 2 f_equal. lia.
Qed.

Lemma setrange_write_sim s d key k a str offset value : ok x0 s -> is_key s key k -> private_str s d k a str ->
  Z.of_nat (length str) <= ALLOC_MAX -> 0 <= offset -> (0 < length value)%nat ->
  offset + Z.of_nat (length value) <= ALLOC_MAX ->
  sim s (setrange_write d key a offset value)
    (_ ← amodify d k (aoverwrite str offset value) (bytes_of_string "setrange");
     aReplyLongLong (Z.of_nat (length (aoverwrite str offset value)))) done_ok.
Proof.
  intros Hok Hk Hpr Hl H0 Hv Hm. unfold setrange_write, amodify.
  destruct (Z.ltb_spec 0 (Z.of_nat (length value))); [|lia].
  pose proof (length_aoverwrite str offset value H0) as Hlen.
  eapply (sim_bind _ _ _ _ _ (fun s' _ _ => ok x0 s' /\ private_str s' d k a (aoverwrite str offset value))).
  - eapply sim_read; [by eapply private_sds|].
    apply (sim_unassoc s (sdsgrowzero str (u64 (offset + Z.of_nat (length value))))
      (fun s1 => match memwrite s1 offset value with Ret s => mret s | Fault f => fail f end)).
    eapply sim_read; [by apply grow_write|].
    eapply sim_bind; [apply (set_sds_sim s d k a str); [done|done|lia]|]. intros s1 [] [] (Hok1 & Hk1 & Hp1).
    eapply sim_read; [apply sds_of_at, (is_key_kept s s1 _ _ Hk1 Hk)|].
    apply (sim_log_then x0); [done|]. intros s2 (Hok2 & Hk2 & Hh2 & Hd2).
    apply (sim_log_then x0); [done|]. intros s3 (Hok3 & Hk3 & Hh3 & Hd3).
    eapply sim_conseq; [by apply (sim_log x0)|]. intros s4 [] [] (Hok4 & _ & Hh4 & Hd4). split; [done|].
    apply (private_ext s1); [congruence|congruence|done].
  - intros s1 [] [] (Hok1 & Hp1). eapply sim_read; [by eapply private_sds|].
    eapply sim_conseq; [apply (addReplyLongLong_sim x0); [done|]|intros s2 [] [] H2; apply H2].
    unfold in_s, ALLOC_MAX in *. change (64 - 1) with 63. lia.
Qed.

(** Storing twice is storing once. *)
Lemma sim_astore_twice {A B} s (m : M A) d k v1 v2 (g : unit -> AM B) Q :
  sim s m (_ ← astore d k v1; _ ← astore d k v2; g tt) Q -> sim s m (_ ← astore d k v2; g tt) Q.
Proof.
  assert (E : forall t, (_ ← astore d k v1; _ ← astore d k v2; g tt) t = (_ ← astore d k v2; g tt) t).
  { intros t. unfold mbind, AM_bind, astore, mbind, AM_bind, aget_db, aset_db.
    destruct (Z.ltb_spec d 0); [done|]. destruct (adbs t !! Z.to_nat d) as [db|] eqn:Ed; [|done]. cbn.
    rewrite list_lookup_insert_eq by (by eapply lookup_lt_Some). cbn.
    by rewrite insert_insert_eq, list_insert_insert_eq. }
  unfold sim. intros H. destruct (m s) as [[a s']|f]; by rewrite <- E.
Qed.

Lemma aoverwrite_new offset value : 0 <= offset ->
  aoverwrite (replicate (Z.to_nat (offset + Z.of_nat (length value))) 0) offset value = aoverwrite [] offset value.
Proof.
  intros H. unfold aoverwrite. rewrite length_replicate. cbn [length app].
  replace (Z.to_nat offset + length value - Z.to_nat (offset + Z.of_nat (length value)))%nat with 0%nat by lia.
  rewrite app_nil_r. do 3 f_equal; f_equal; lia.
Qed.

Lemma checkType_str s a r : heap s !! a = Some r -> type r = OBJ_STRING ->
  checkType a OBJ_STRING s = Ret (false, s).
Proof. intros Hr Ht. rewrite (checkType_at _ _ _ _ Hr). by rewrite bool_decide_true. Qed.

Lemma checkType_agg s a r (f : M unit) : ok x0 s -> heap s !! a = Some r -> type r <> OBJ_STRING ->
  sim s (wrong ← checkType a OBJ_STRING; if (wrong : bool) then mret tt else f)
    (areply shared_wrongtypeerr) done_ok.
Proof.
  intros Hok Hr Ht. unfold sim, mbind, M_bind. rewrite (checkType_at _ _ _ _ Hr), bool_decide_false by done.
  pose proof (sim_log x0 s (add_output shared_wrongtypeerr) Hok) as (b & E & Hl & _). exists tt. done.
Qed.

Section Setrange.
Context (s : server) (d : Z) (key : addr) (k : list Z) (offset : Z) (value : list Z).
Hypothesis Hok : ok x0 s.
Hypothesis Hk : is_key s key k.
Hypothesis Hin : 0 <= offset < 2 ^ 63.
Hypothesis Hpos : (0 < length value)%nat.
Hypothesis Hvl : Z.of_nat (length value) <= ALLOC_MAX.

(** What the specification does once the size was accepted. *)
Definition asetrange_tail (str : list Z) : AM unit :=
  if ALLOC_MAX <? offset + Z.of_nat (length value) then afail OutOfMemory
  else
    _ ← amodify d k (aoverwrite str offset value) (bytes_of_string "setrange");
    aReplyLongLong (Z.of_nat (length (aoverwrite str offset value))).

Lemma setrange_existing db a r : db_at s d db -> dict db !! k = Some a -> str_at s a r ->
  sim s (a ← dbUnshareStringValue d key a; setrange_write d key a offset value)
    (asetrange_tail (string_of r)) done_ok.
Proof.
  intros Hdb Hdk Hst. pose proof Hst as (Hr & Ho & Ht).
  destruct (dbUnshare_spec x0 s d key k db a r) as (s2 & a2 & r2 & db2 & E2 & Hok2 & Hk2 & Habs2 & Hd2 & Hdk2 & (Hr2 & Ho2 & Ht2) & Hc2 & He2 & Hp2); auto with redis.
  eapply sim_left; [exact E2|exact Habs2|].
  assert (Hpr : private_str s2 d k a2 (string_of r)) by (by exists db2, r2).
  pose proof (string_alloc r Ho Ht) as Hsl. unfold asetrange_tail.
  destruct (Z.ltb_spec ALLOC_MAX (offset + Z.of_nat (length value))) as [Hgt|Hle].
  - unfold sim, setrange_write. destruct (Z.ltb_spec 0 (Z.of_nat (length value))); [|lia].
    unfold mbind, M_bind. rewrite (private_sds _ _ _ _ _ Hpr). unfold sdsgrowzero.
    rewrite uwrap_id by (unfold in_u, ALLOC_MAX in *; lia).
    destruct (Z.leb_spec (offset + Z.of_nat (length value)) (Z.of_nat (length (string_of r)))); [lia|].
    destruct (Z.ltb_spec ALLOC_MAX (offset + Z.of_nat (length value))); [done|lia].
  - apply setrange_write_sim; try done; [by apply (is_key_kept s)|lia].
Qed.

Lemma setrange_new : found s d k None None ->
  sim s (z ← sdsnewlen_zero (u64 (offset + Z.of_nat (length value)));
         a ← createObject OBJ_STRING (PSds z);
         _ ← dbAdd d key a;
         setrange_write d key a offset value) (asetrange_tail []) done_ok.
Proof.
  intros Hf. unfold asetrange_tail, sdsnewlen_zero. rewrite uwrap_id by (unfold in_u, ALLOC_MAX in *; lia).
  destruct (Z.ltb_spec ALLOC_MAX (offset + Z.of_nat (length value))) as [Hgt|Hle]; [done|].
  eapply sim_read; [done|]. set (z := replicate _ 0).
  assert (Hz : Z.of_nat (length z) <= ALLOC_MAX) by (subst z; rewrite length_replicate; lia).
  destruct (createObject_spec x0 s (PSds z) Hok) as (s2 & r2 & E2 & Er2 & Hok2 & Habs2 & Hk2 & Hd2 & Hh2 & Hn2); [done|].
  eapply sim_left; [exact E2|exact Habs2|]. set (a := brk s) in *.
  assert (Hr2 : heap s2 !! a = Some r2) by (rewrite Hh2; apply lookup_insert_eq).
  destruct (is_key_kept _ _ _ _ Hk2 Hk) as [_ Hs2].
  unfold amodify. apply sim_assoc_r.
  apply (sim_astore_twice s2 _ d k (AStr z) _ (fun _ => (_ ← (_ ← arecord (add_touched d k);
     _ ← anotify NOTIFY_STRING (bytes_of_string "setrange") k d; arecord (add_dirty 1));
     aReplyLongLong (Z.of_nat (length (aoverwrite [] offset value)))))).
  replace (AStr z) with (view r2) by (by rewrite Er2). rewrite <- (aoverwrite_new offset value) by lia. fold z.
  eapply sim_bind; [apply (dbAdd_sim _ s2 d key k a r2 None Hok2 Hs2); [|done]|].
  { destruct Hf as (db & Hdb & Hdk & _). exists db. unfold db_at. rewrite Hd2. done. }
  intros s3 [] [] (Hok3 & (Hk3 & db3 & r3 & Hd3 & Hdk3 & Hr3 & (S1 & S2 & S3) & Hc3) & Hh3).
  apply (ok_ext _ x0) in Hok3; [|intros b; cbn; lia].
  assert (Hpr : private_str s3 d k a z).
  { exists db3, r3. rewrite Er2 in S1, S2, S3, Hc3. cbn in S1, S2, S3, Hc3.
    destruct (ok_count _ _ Hok3 a r3 Hr3). split_and!; try done; lia. }
  pose proof (setrange_write_sim s3 d key k a z offset value Hok3
    (is_key_kept _ _ _ _ Hk3 (is_key_kept _ _ _ _ Hk2 Hk)) Hpr Hz ltac:(lia) Hpos Hle) as Hw.
  unfold amodify in Hw. unfold sim in *. destruct (setrange_write d key a offset value s3) as [[u s4]|f].
  - destruct Hw as (b & E & HQ). exists b. split; [|done]. rewrite <- E. by rewrite AM_assoc.
  - rewrite <- Hw. by rewrite AM_assoc.
Qed.
End Setrange.

Lemma setrangeCommand_sim s : client_ok s -> sim s setrangeCommand aSETRANGE done_ok.
Proof.
  intros [Hok Hraw]. unfold setrangeCommand, aSETRANGE.
  eapply (sim_arg x0 (fun _ => True)); [done|done|done|]. intros a3 value _ Hk3.
  eapply sim_read; [apply sds_of_at, Hk3|].
  assert (Hvl : Z.of_nat (length value) <= ALLOC_MAX).
  { destruct (is_sds_str x0 s a3 value Hok (proj2 Hk3)) as (r & (Hr & Ho & Ht) & <-). by apply string_alloc. }
  eapply (sim_arg x0 (fun _ => True)); [done|done|done|]. intros a2 k2 _ [_ Hk2].
  destruct (is_sds_str x0 s a2 k2 Hok Hk2) as (r2 & Hr2 & <-).
  eapply sim_bind; [by apply (getLongOrReply_sim x0)|]. intros s1 offset of' (-> & Hst & Hok1 & Hkp1 & _).
  destruct offset as [offset|]; [|by apply sim_ret]. symmetry in Hst. apply string2ll_sound in Hst as [Hin _].
  unfold in_s in Hin. change (64 - 1) with 63 in Hin.
  destruct (Z.ltb_spec offset 0).
  { eapply sim_conseq; [by apply (addReplyError_sim x0)|]. intros s2 [] [] H2. apply H2. }
  eapply sim_read; [done|]. eapply sim_right; [done|]. cbn [acur abs].
  eapply (sim_arg x0 (fun _ => True)); [done|by eapply raw_kept|done|]. intros key k _ Hk.
  eapply sim_bind; [apply (lookupKeyWrite_sim x0); auto with redis; by apply (cur_exists x0)|].
  intros s2 o v (Hf & Hok2 & Hkp2). assert (Hk' : is_key s2 key k) by (by apply (is_key_kept s1)).
  cbv zeta. assert (Hal : ALLOC_MAX = 2 ^ 47) by done.
  replace (i64 (u64 (offset + Z.of_nat (length value)))) with (i64 (offset + Z.of_nat (length value)))
    by (by rewrite swrap_uwrap).
  destruct o as [a|].
  - destruct v as [v|]; [|destruct Hf as (? & _ & _ & ? & _ & _ & ?); done].
    pose proof Hf as (db & Hdb & Hdk & _). destruct (found_value _ _ _ _ _ Hf) as (r & Hr & Ho & Hc).
    destruct Hc as [[Ht ->]|[Ht (t & i & ->)]]; [|by apply (checkType_agg s2 a r)].
    assert (Hst : str_at s2 a r) by done. pose proof (str_len _ _ _ Hst).
    eapply sim_read; [by eapply checkType_str|]. eapply sim_read; [by apply stringObjectLen_at|].
    destruct (Z.eqb_spec (Z.of_nat (length value)) 0).
    { eapply sim_conseq; [apply (addReplyLongLong_sim x0); [done|]|intros s3 [] [] H3; apply H3].
      unfold in_s. change (64 - 1) with 63. lia. }
    eapply sim_bind; [by apply checkStringLength_sim|]. intros s3 b b' (-> & _ & Hl & Hb).
    destruct b; cbn [negb]; [|apply sim_ret; apply Hl]. rewrite Hb by done.
    eapply (setrange_existing s2 (curdb s1) key k offset value Hok2 Hk'); [lia|lia|done|exact Hdb|done|done].
  - assert (v = None) as -> by (destruct Hf as (? & _ & _ & ?); done).
    destruct (Z.eqb_spec (Z.of_nat (length value)) 0).
    { eapply sim_conseq; [by apply (sim_log x0)|intros s3 [] [] H3; apply H3]. }
    eapply sim_bind; [by apply checkStringLength_sim|]. intros s3 b b' (-> & _ & Hl & Hb).
    destruct b; cbn [negb]; [|apply sim_ret; apply Hl]. rewrite Hb by done.
    apply (setrange_new s2 (curdb s1) key k offset value Hok2 Hk'); [lia|lia|done|done].
Qed.

(** ** APPEND *)

(** The common end of APPEND: signal, notify, count, reply. *)
Lemma modified_sim s d key k event totlen : ok x0 s -> is_key s key k -> in_s 64 totlen ->
  sim s (k ← sds_of key;
         _ ← signalModifiedKey d k;
         _ ← notifyKeyspaceEvent NOTIFY_STRING event k d;
         _ ← record (add_dirty 1);
         addReplyLongLong totlen)
    (_ ← (_ ← arecord (add_touched d k);
          _ ← anotify NOTIFY_STRING event k d; arecord (add_dirty 1));
     aReplyLongLong totlen) done_ok.
Proof.
  intros Hok Hk Hn. eapply sim_read; [apply sds_of_at, Hk|]. apply sim_assoc_r.
  apply (sim_log_then x0); [done|]. intros s1 (Hok1 & _). apply sim_assoc_r.
  apply (sim_log_then x0); [done|]. intros s2 (Hok2 & _).
  apply (sim_log_then x0); [done|]. intros s3 (Hok3 & _).
  eapply sim_conseq; [by apply (addReplyLongLong_sim x0)|]. intros s4 [] [] H4. apply H4.
Qed.

Lemma append_new s d key k : ok x0 s -> raw_args (fun _ => True) s -> argv s !! 1%nat = Some key ->
  found s d k None None -> is_key s key k ->
  sim s (totlen ← (val ← encode_arg 2;
                   _ ← dbAdd d key val;
                   _ ← incrRefCount val;
                   n ← stringObjectLen val;
                   mret (Some n));
         match totlen with
         | None => mret tt
         | Some totlen =>
             k ← sds_of key;
             _ ← signalModifiedKey d k;
             _ ← notifyKeyspaceEvent NOTIFY_STRING (bytes_of_string "append") k d;
             _ ← record (add_dirty 1);
             addReplyLongLong totlen
         end)
    (x ← aarg 2;
     _ ← amodify d k x (bytes_of_string "append");
     aReplyLongLong (Z.of_nat (length x))) done_ok.
Proof.
  intros Hok Hraw Hkey Hf Hk. apply sim_assoc_l.
  eapply (sim_encode x0 (fun _ => True)); [done|apply held_x0|done|done|].
  intros s2 a r2 Hok2 Hraw2 Hre Ha Hr2. pose proof Hr2 as (Hh2 & Ho2 & Ht2).
  assert (Hk2 : is_key s2 key k).
  { assert (Hrel : arg_rel (fun i => i = 1%nat) s (Some key) (Some k)) by (exists 1%nat; split; [done|]; split; [done|apply Hk]).
    eapply arg_rel_key, (arg_rel_rearg (fun i => i = 1%nat) s s2 2 a); [done|cbv beta; lia|done]. }
  assert (Hf2 : found s2 d k None None).
  { destruct Hf as (db & Hdb & Hdk & _). exists db. unfold db_at. destruct Hre as (_ & _ & _ & -> & _). done. }
  unfold amodify. apply sim_assoc_l, sim_assoc_r. rewrite <- (view_str s2 a r2) by done.
  eapply sim_bind; [apply (dbAdd_sim x0 s2 d key k a r2 None); [done|apply Hk2|done|done]|].
  intros s3 [] [] (Hok3 & (Hk3 & db3 & r3 & Hd3 & Hdk3 & Hr3 & (S1 & S2 & S3) & _) & Hh3).
  destruct (incr_spec _ s3 a r3 Hok3 Hr3) as (s4 & E4 & Es4 & Hok4 & Habs4 & Hk4).
  apply sim_assoc_l. eapply sim_left; [exact E4|exact Habs4|].
  apply (ok_ext _ x0) in Hok4; [|intros b; cbn; lia].
  assert (Hr4 : heap s4 !! a = Some (with_refcount (refcount r3 + 1) r3)) by (subst s4; apply lookup_insert_eq).
  assert (Hs4 : string_of (with_refcount (refcount r3 + 1) r3) = string_of r2) by (unfold string_of; cbn; by rewrite S3).
  apply sim_assoc_l. eapply sim_read.
  { apply stringObjectLen_at; [exact Hr4| |cbn; congruence]. by eapply ok_obj. }
  eapply sim_read; [done|]. rewrite Hs4.
  apply modified_sim; [done|apply (is_key_kept s3), (is_key_kept s2); done|].
  pose proof (str_len _ _ _ Hr2). unfold in_s. change (64 - 1) with 63. lia.
Qed.

Lemma appendCommand_sim s : client_ok s -> sim s appendCommand aAPPEND done_ok.
Proof.
  intros [Hok Hraw]. unfold appendCommand, aAPPEND.
  eapply sim_read; [done|]. eapply sim_right; [done|]. cbn [acur abs].
  eapply (sim_arg x0 (fun _ => True)); [done|done|done|]. intros key k Hkey Hk.
  eapply sim_bind; [apply (lookupKeyWrite_sim x0); auto with redis; by apply (cur_exists x0)|].
  intros s1 o v (Hf & Hok1 & Hk1). assert (Hraw1 : raw_args (fun _ => True) s1) by (by eapply raw_kept).
  assert (Hkey1 : argv s1 !! 1%nat = Some key) by (by destruct Hk1 as (-> & _)).
  assert (Hk' : is_key s1 key k) by (by apply (is_key_kept s)).
  destruct o as [a|].
  - destruct v as [v|]; [|destruct Hf as (? & _ & _ & ? & _ & _ & ?); done].
    pose proof Hf as (db & Hdb & Hdk & _). destruct (found_value _ _ _ _ _ Hf) as (r & Hr & Ho & Hc).
    destruct Hc as [[Ht ->]|[Ht (t & i & ->)]]; cycle 1.
    { unfold sim, mbind, M_bind. rewrite (checkType_at _ _ _ _ Hr), bool_decide_false by done. run.
      pose proof (sim_log x0 s1 (add_output shared_wrongtypeerr) Hok1) as (b & E & Hl & _). exists tt. done. }
    assert (Hst : str_at s1 a r) by done. pose proof (string_alloc r Ho Ht) as Hal.
    apply sim_assoc_l. eapply sim_read; [by eapply checkType_str|]. apply sim_assoc_l.
    eapply (sim_arg x0 (fun _ => True)); [done|done|done|]. intros ap x _ Hx. apply sim_assoc_l.
    eapply sim_read; [apply sds_of_at, Hx|]. apply sim_assoc_l. eapply sim_read; [by apply stringObjectLen_at|].
    assert (Hxl : Z.of_nat (length x) <= ALLOC_MAX).
    { destruct (is_sds_str x0 s1 ap x Hok1 (proj2 Hx)) as (rx & (Hrx & Hox & Htx) & <-). by apply string_alloc. }
    assert (Hm : ALLOC_MAX = 2 ^ 47) by done.
    replace (i64 (u64 (Z.of_nat (length (string_of r)) + Z.of_nat (length x)))) with (Z.of_nat (length (string_of r ++ x))).
    2: { rewrite length_app, swrap_uwrap by lia. rewrite swrap_id by (unfold in_s; change (64 - 1) with 63; lia). lia. }
    apply sim_assoc_l. eapply sim_bind; [by apply checkStringLength_sim|]. intros s2 b b' (-> & Hbv & Hl & Hb).
    destruct b; cbn [negb]; [|eapply sim_read; [done|]; apply sim_ret; apply Hl]. rewrite Hb by done.
    assert (Hsz : Z.of_nat (length (string_of r ++ x)) <= ALLOC_MAX).
    { symmetry in Hbv. apply negb_true_iff, Z.ltb_ge in Hbv. lia. }
    destruct (dbUnshare_spec x0 s1 (curdb s) key k db a r) as (s3 & a3 & r3 & db3 & E3 & Hok3 & Hk3 & Habs3 & Hd3 & Hdk3 & (Hr3 & Ho3 & Ht3) & Hc3 & He3 & Hp3); auto with redis.
    apply sim_assoc_l. eapply sim_left; [exact E3|exact Habs3|].
    assert (Hpr : private_str s3 (curdb s) k a3 (string_of r)) by (by exists db3, r3).
    apply sim_assoc_l. eapply sim_read; [by eapply private_sds|].
    unfold amodify. apply sim_assoc_l, sim_assoc_r.
    eapply sim_bind; [by apply (set_sds_sim s3 (curdb s) k a3 (string_of r))|]. intros s4 [] [] (Hok4 & Hk4 & Hp4).
    apply sim_assoc_l. eapply sim_read; [by eapply private_sds|]. eapply sim_read; [done|].
    apply modified_sim; [done|apply (is_key_kept s3), (is_key_kept s1); done|].
    unfold in_s. change (64 - 1) with 63. lia.
  - assert (v = None) as -> by (destruct Hf as (? & _ & _ & ?); done). by apply append_new.
Qed.

(** ** INCR *)

Lemma incr_overflow old incr : in_s 64 old -> in_s 64 incr ->
  ((incr <? 0) && (old <? 0) && (incr <? LLONG_MIN - old)) ||
  ((0 <? incr) && (0 <? old) && (LLONG_MAX - old <? incr)) =
  (old + incr <? LLONG_MIN) || (LLONG_MAX <? old + incr).
Proof.
  intros H1 H2. unfold in_s, LLONG_MIN, LLONG_MAX in *. change (64 - 1) with 63 in *.
  apply eq_true_iff_eq. rewrite !orb_true_iff, !andb_true_iff, !Z.ltb_lt. lia.
Qed.

(** The object that holds the new number: the old one in place, or a new
    one stored at the key. *)
Lemma incr_store s d key k o v value : ok x0 s -> is_key s key k -> found s d k o v ->
  (match v with Some (AAgg _ _) => False | _ => True end) -> in_s 64 value ->
  sim s (inplace ← (match o with
                    | None => mret false
                    | Some a =>
                        r ← obj a;
                        mret ((refcount r =? 1) && bool_decide (encoding r = OBJ_ENCODING_INT) &&
                              ((value <? 0) || (OBJ_SHARED_INTEGERS <=? value)) &&
                              (LONG_MIN <=? value) && (value <=? LONG_MAX))
                    end);
         match o with
         | Some a =>
             if (inplace : bool) then
               r ← obj a;
               _ ← set_obj a (with_ptr (encoding r) (PLong value) r);
               mret a
             else
               new ← createStringObjectFromLongLong value;
               _ ← dbOverwrite d key new;
               mret new
         | None =>
             new ← createStringObjectFromLongLong value;
             _ ← dbAdd d key new;
             mret new
         end)
    (astore d k (AStr (decimal value)))
    (fun s' a _ => ok x0 s' /\ kept s s' /\ exists r, str_at s' a r /\ string_of r = decimal value).
Proof.
  intros Hok Hk Hf Hv Hin. destruct Hk as [Hka Hks].
  destruct o as [a|]; cycle 1.
  - eapply sim_read; [done|].
    destruct (createFromLongLong_spec x0 s value Hok Hin) as (s1 & n & r & E1 & Hr & Hs & Hok1 & Habs1 & Hk1 & Hd1).
    eapply sim_left; [exact E1|exact Habs1|]. rewrite <- Hs, <- (view_str s1 n r) by done.
    apply sim_mret_r'. eapply sim_bind; [apply (dbAdd_sim _ s1 d key k n r None Hok1); [| |apply Hr]|].
    + by apply (is_sds_kept s).
    + destruct Hf as (db & Hdb & Hdk & _). exists db. unfold db_at. rewrite Hd1. done.
    + intros s2 [] [] (Hok2 & (Hk2 & db2 & r2 & _ & _ & Hr2 & (S1 & S2 & S3) & _) & _). apply sim_ret.
      split; [eapply ok_ext; [|exact Hok2]; intros b; cbn; lia|]. split; [by etrans|].
      exists r2. split; [|unfold string_of in *; by rewrite S3]. destruct Hr as (_ & _ & Ht).
      split; [done|]. split; [by eapply ok_obj|congruence].
  - destruct v as [v|]; [|destruct Hf as (? & _ & _ & ? & _ & _ & ?); done].
    pose proof Hf as (db & Hdb & Hdk & _). destruct (found_value _ _ _ _ _ Hf) as (r & Hr & Ho & Hc).
    destruct Hc as [[Ht ->]|[Ht (t & i & ->)]]; [|done].
    apply sim_assoc_l. eapply sim_read; [by apply obj_at|]. eapply sim_read; [done|].
    destruct (_ && _ && _ && _ && _) eqn:Eg.
    + rewrite !andb_true_iff in Eg. destruct Eg as ((((E1%Z.eqb_eq & E2%bool_decide_eq_true) & _) & _) & _).
      eapply sim_read; [by apply obj_at|].
      change (AStr (decimal value)) with (view (with_ptr (encoding r) (PLong value) r)).
      assert (Ho' : obj_ok (with_ptr (encoding r) (PLong value) r)).
      { unfold obj_ok. cbn [with_ptr type encoding ptr]. by rewrite Ht, E2. }
      apply sim_mret_r'. eapply sim_bind; [apply (inplace_sim x0 s d db k a r (PLong value)); auto with redis|].
      intros s1 [] [] (Hok1 & Hk1 & Hd1 & Hh1). apply sim_ret. split; [done|]. split; [done|].
      exists (with_ptr (encoding r) (PLong value) r). split; [|done]. split; [rewrite Hh1; apply lookup_insert_eq|done].
    + destruct (createFromLongLong_spec x0 s value Hok Hin) as (s1 & n & r1 & E1 & Hr1 & Hs & Hok1 & Habs1 & Hk1 & Hd1).
      eapply sim_left; [exact E1|exact Habs1|]. rewrite <- Hs, <- (view_str s1 n r1) by done.
      assert (Hdb1 : db_at s1 d db) by (unfold db_at; rewrite Hd1; exact Hdb).
      destruct (dict_live _ s1 d db k a Hok1 Hdb1 Hdk) as (ra & Hra & Hoa).
      apply sim_mret_r'. eapply sim_bind.
      { apply (dbOverwrite_sim _ s1 d key k n r1 a (Some (view ra)) Hok1); [|by apply (is_sds_kept s)| |apply Hr1|left; rewrite tok_eq; lia].
        - intros b. pose proof (tok_range n b). lia.
        - exists db. split; [done|]. split; [done|]. by exists ra. }
      intros s2 [] [] (Hok2 & Hk2 & db2 & r2 & _ & _ & Hr2 & (S1 & S2 & S3) & _). apply sim_ret.
      split; [eapply ok_ext; [|exact Hok2]; intros b; cbn; lia|]. split; [by etrans|].
      exists r2. split; [|unfold string_of in *; by rewrite S3]. destruct Hr1 as (_ & _ & Ht1).
      split; [done|]. split; [by eapply ok_obj|congruence].
Qed.

Lemma incrDecr_sim s incr : client_ok s -> in_s 64 incr -> sim s (incrDecrCommand incr) (aINCR incr) done_ok.
Proof.
  intros [Hok Hraw] Hinc. unfold incrDecrCommand, aINCR.
  eapply sim_read; [done|]. eapply sim_right; [done|]. cbn [acur abs].
  eapply (sim_arg x0 (fun _ => True)); [done|done|done|]. intros key k _ Hk.
  eapply sim_bind; [apply (lookupKeyWrite_sim x0); auto with redis; by apply (cur_exists x0)|].
  intros s1 o v (Hf & Hok1 & Hk1). assert (Hk' : is_key s1 key k) by (by apply (is_key_kept s)).
  assert (Hagg : (exists a r, o = Some a /\ heap s1 !! a = Some r /\ type r <> OBJ_STRING /\ exists t i, v = Some (AAgg t i)) \/
    ((match v with Some (AAgg _ _) => False | _ => True end) /\
     (match o with Some a => checkType a OBJ_STRING | None => mret false end) s1 = Ret (false, s1) /\
     match o, v with
     | Some a, Some (AStr str) => exists r, str_at s1 a r /\ str = string_of r
     | None, None => True
     | _, _ => False
     end)).
  { destruct o as [a|].
    - destruct v as [v|]; [|destruct Hf as (? & _ & _ & ? & _ & _ & ?); done].
      destruct (found_value _ _ _ _ _ Hf) as (r & Hr & Ho & [[Ht ->]|[Ht (t & i & ->)]]).
      + right. split; [done|]. split; [by eapply checkType_str|]. by exists r.
      + left. exists a, r. split_and!; eauto.
    - right. assert (v = None) as -> by (destruct Hf as (? & _ & _ & ?); done). done. }
  destruct Hagg as [(a & r & -> & Hr & Ht & t & i & ->)|(Hv & Hck & Hov)]; [by apply (checkType_agg s1 a r)|].
  eapply sim_read; [exact Hck|].
  assert (Habs : forall (body : AM unit), match v with Some (AAgg _ _) => areply shared_wrongtypeerr | _ => body end = body).
  { intros body. destruct v as [[]|]; done. }
  rewrite Habs. clear Habs.
  eapply (sim_bind _ _ _ _ _ (fun s' w w' => w' = w /\ logged x0 s1 s' /\ match w with Some z => in_s 64 z | None => True end)).
  { destruct o as [a|], v as [[str|]|]; try done.
    - destruct Hov as (r & Hr & ->). eapply sim_conseq; [by apply (getLongLongOrReply_sim x0)|].
      intros s2 w w' (-> & Hw & Hl). split; [done|]. split; [done|]. destruct w as [w|]; [|done].
      symmetry in Hw. by apply string2ll_sound in Hw as [? _].
    - apply sim_ret. split; [done|]. split; [by apply logged_refl|]. unfold in_s. lia. }
  intros s2 w w' (-> & (Hok2 & Hk2 & Hh2 & Hd2) & Hin). destruct w as [old|]; [|by apply sim_ret].
  rewrite incr_overflow by done. destruct ((_ <? _) || (_ <? _)) eqn:Eov.
  { eapply sim_conseq; [by apply (addReplyError_sim x0)|]. intros s3 [] [] H3. apply H3. }
  apply orb_false_iff in Eov as [E1%Z.ltb_ge E2%Z.ltb_ge].
  assert (Hsum : in_s 64 (old + incr)).
  { unfold in_s, LLONG_MIN, LLONG_MAX in *. change (64 - 1) with 63. lia. }
  eapply sim_read.
  { unfold ll_of. destruct (Z.leb_spec LLONG_MIN (old + incr)); [|lia].
    destruct (Z.leb_spec (old + incr) LLONG_MAX); [|lia]. done. }
  apply (found_ext s1 s2) in Hf; [|done|done].
  unfold amodify. apply sim_assoc_r. apply sim_unassoc.
  eapply sim_bind; [apply (incr_store s2 (curdb s) key k o v (old + incr)); try done; by apply (is_key_kept s1)|].
  intros s3 a [] (Hok3 & Hk3 & r & Hr & Hs).
  eapply sim_read; [apply sds_of_at, (is_key_kept s2 s3 _ _ Hk3), (is_key_kept s1 s2 _ _ Hk2), Hk'|].
  apply sim_assoc_r. apply (sim_log_then x0); [done|]. intros s4 (Hok4 & _ & Hh4 & _). apply sim_assoc_r.
  apply (sim_log_then x0); [done|]. intros s5 (Hok5 & _ & Hh5 & _).
  apply (sim_log_then x0); [done|]. intros s6 (Hok6 & _ & Hh6 & _).
  apply (sim_log_then x0); [done|]. intros s7 (Hok7 & _ & Hh7 & _).
  rewrite <- Hs.
  assert (Hr7 : str_at s7 a r) by (unfold str_at; rewrite Hh7, Hh6, Hh5, Hh4; exact Hr).
  eapply (sim_bind _ _ _ _ _ (fun s' _ _ => logged x0 s7 s')).
  { unfold sim. rewrite (addReply_at s7 a r) by done. exact (sim_log x0 s7 _ Hok7). }
  intros s8 [] [] (Hok8 & _). eapply sim_conseq; [by apply (sim_log x0)|]. intros s9 [] [] H9. apply H9.
Qed.

Lemma incrby_sim s (neg : bool) : client_ok s ->
  sim s (a2 ← arg 2;
         incr ← getLongLongFromObjectOrReply (Some a2) None;
         match incr with
         | None => mret tt
         | Some incr => n ← ll_of (if neg then - incr else incr); incrDecrCommand n
         end) (aINCRBY (if neg then -1 else 1)) done_ok.
Proof.
  intros [Hok Hraw]. unfold aINCRBY. eapply (sim_arg x0 (fun _ => True)); [done|done|done|]. intros a2 k2 _ [_ Hk2].
  destruct (is_sds_str x0 s a2 k2 Hok Hk2) as (r2 & Hr2 & <-).
  eapply sim_bind; [by apply (getLongLongOrReply_sim x0)|]. intros s1 w w' (-> & Hw & Hok1 & Hk1 & _).
  destruct w as [w|]; [|by apply sim_ret].
  replace ((if neg then -1 else 1) * w) with (if neg then - w else w) by (destruct neg; lia).
  eapply sim_bind; [by apply (ll_of_sim x0)|]. intros s2 n n' (-> & -> & -> & Hn).
  apply incrDecr_sim; [|done]. split; [done|by eapply raw_kept].
Qed.

Lemma incrbyCommand_sim s : client_ok s -> sim s incrbyCommand (aINCRBY 1) done_ok.
Proof.
  intros H. pose proof (incrby_sim s false H) as Hs.
  assert (E : (a2 ← arg 2; incr ← getLongLongFromObjectOrReply (Some a2) None;
     match incr with None => mret tt | Some incr => n ← ll_of incr; incrDecrCommand n end) s = incrbyCommand s).
  { unfold incrbyCommand, mbind, M_bind. unfold arg. destruct (argv s !! 2%nat) as [a2|] eqn:E2; [|done].
    destruct H as [Hok Hraw]. destruct (Hraw 2%nat a2 I E2) as [k2 Hk2].
    destruct (is_sds_str x0 s a2 k2 Hok Hk2) as (r2 & (Hr2 & Ho2 & Ht2) & _).
    unfold getLongLongFromObjectOrReply, mbind, M_bind. rewrite (getLongLong_at _ _ _ Hr2 Ho2 Ht2).
    destruct (string2ll (string_of r2)) as [w|] eqn:Ew; [|done].
    apply string2ll_sound in Ew as [Hw _]. unfold in_s in Hw. change (64 - 1) with 63 in Hw.
    unfold mret, M_ret. cbv beta iota. unfold ll_of, LLONG_MIN, LLONG_MAX.
    destruct (Z.leb_spec (-9223372036854775808) w); [|lia]. destruct (Z.leb_spec w 9223372036854775807); [|lia]. done. }
  unfold sim in *. by rewrite <- E.
Qed.
