(* ===== verification/Keyspace.v ===== *)
(** * Keyspace: the commands on keys (db.c)

    DEL, EXISTS, TYPE, RENAME, MOVE, the EXPIRE and TTL families, PERSIST,
    TOUCH, DBSIZE, FLUSHDB and SELECT. *)

From S2P Require Import Prelude Util Object Db TString.

(** ** Deleting and testing *)

(** The loop makes argc - 1 turns. *)
Fixpoint del_loop (fuel j : nat) (deleted : Z) : M Z :=
  match fuel with
  | O => mret deleted
  | S fuel =>
      d ← cur_db;
      key ← arg j;
      _ ← expireIfNeeded d key;
      b ← dbDelete d key;
      if (b : bool) then
        k ← sds_of key;
        _ ← signalModifiedKey d k;
        _ ← notifyKeyspaceEvent NOTIFY_GENERIC (bytes_of_string "del") k d;
        _ ← record (add_dirty 1);
        del_loop fuel (S j) (deleted + 1)
      else del_loop fuel (S j) deleted
  end.

Definition delCommand : M unit :=
  n ← argc;
  deleted ← del_loop (Z.to_nat (n - 1)) 1 0;
  addReplyLongLong deleted.

Fixpoint exists_loop (fuel j : nat) (count : Z) : M Z :=
  match fuel with
  | O => mret count
  | S fuel =>
      d ← cur_db;
      key ← arg j;
      _ ← expireIfNeeded d key;
      b ← dbExists d key;
      exists_loop fuel (S j) (if (b : bool) then count + 1 else count)
  end.

Definition existsCommand : M unit :=
  n ← argc;
  count ← exists_loop (Z.to_nat (n - 1)) 1 0;
  addReplyLongLong count.

Fixpoint touch_loop (fuel j : nat) (count : Z) : M Z :=
  match fuel with
  | O => mret count
  | S fuel =>
      d ← cur_db;
      key ← arg j;
      o ← lookupKeyRead d key;
      touch_loop fuel (S j) (match o with Some _ => count + 1 | None => count end)
  end.

Definition touchCommand : M unit :=
  n ← argc;
  touched ← touch_loop (Z.to_nat (n - 1)) 1 0;
  addReplyLongLong touched.

Definition type_name (t : otype) : list Z :=
  match t with
  | OBJ_STRING => bytes_of_string "string"
  | OBJ_LIST => bytes_of_string "list"
  | OBJ_SET => bytes_of_string "set"
  | OBJ_ZSET => bytes_of_string "zset"
  | OBJ_HASH => bytes_of_string "hash"
  end.

Definition typeCommand : M unit :=
  d ← cur_db;
  key ← arg 1;
  o ← lookupKeyReadWithFlags d key false;
  match o with
  | None => addReplyStatus (bytes_of_string "none")
  | Some a => r ← obj a; addReplyStatus (type_name (type r))
  end.

(** dictSize is an unsigned long. *)
Definition dbsizeCommand : M unit :=
  d ← cur_db;
  db ← get_db d;
  addReplyLongLong (i64 (Z.of_nat (size (dict db)))).

(** dictEmpty: every entry is unlinked and the reference of its value is
    dropped. *)
Fixpoint release_all (l : list addr) : M unit :=
  match l with
  | [] => mret tt
  | a :: l => _ ← decrRefCount a; release_all l
  end.

Definition dict_empty (d : Z) : M unit :=
  db ← get_db d;
  _ ← set_db d (mk_db ∅ ∅);
  release_all (map snd (map_to_list (dict db))).

Definition flushdbCommand : M unit :=
  d ← cur_db;
  db ← get_db d;
  _ ← record (add_dirty (Z.of_nat (size (dict db))));
  _ ← signalFlushedDb d;
  _ ← dict_empty d;
  addReplyString shared_ok.

(** The loop over the databases from [j] on. *)
Fixpoint empty_loop (fuel j : nat) (removed : Z) : M Z :=
  match fuel with
  | O => mret removed
  | S fuel =>
      db ← get_db (Z.of_nat j);
      _ ← dict_empty (Z.of_nat j);
      empty_loop fuel (S j) (removed + Z.of_nat (size (dict db)))
  end.

Definition emptyDb : M Z :=
  dbnum ← get (fun s => length (dbs s));
  empty_loop dbnum 0 0.

(** The child that saves is killed and the snapshot is written, which the
    state does not show; saved_dirty is an int. *)
Definition flushallCommand : M unit :=
  _ ← signalFlushedDb (-1);
  removed ← emptyDb;
  _ ← record (add_dirty removed);
  _ ← addReplyString shared_ok;
  c ← get cf;
  _ ← (if save_params c then
         dirty ← get (fun s => dirty (lg s));
         record (set_dirty (i32 dirty))
       else mret tt);
  record (add_dirty 1).

(** ** RENAME and MOVE *)

Definition renameGenericCommand (nx : bool) : M unit :=
  a1 ← arg 1; a2 ← arg 2;
  k1 ← sds_of a1; k2 ← sds_of a2;
  let samekey := bool_decide (k1 = k2) in
  d ← cur_db;
  o ← lookupKeyWriteOrReply a1 shared_nokeyerr;
  match o with
  | None => mret tt
  | Some o =>
      if samekey then addReplyString (if nx then shared_czero else shared_ok)
      else
        _ ← incrRefCount o;
        expire ← getExpire d a1;
        dst ← lookupKeyWrite d a2;
        if bool_decide (is_Some dst) && nx then
          _ ← decrRefCount o;
          addReplyString shared_czero
        else
          _ ← (match dst with Some _ => dbDelete d a2 | None => mret false end);
          _ ← dbAdd d a2 o;
          _ ← (if negb (expire =? -1) then setExpire d a2 expire else mret tt);
          _ ← dbDelete d a1;
          k1 ← sds_of a1; k2 ← sds_of a2;
          _ ← signalModifiedKey d k1;
          _ ← signalModifiedKey d k2;
          _ ← notifyKeyspaceEvent NOTIFY_GENERIC (bytes_of_string "rename_from") k1 d;
          _ ← notifyKeyspaceEvent NOTIFY_GENERIC (bytes_of_string "rename_to") k2 d;
          _ ← record (add_dirty 1);
          addReplyString (if nx then shared_cone else shared_ok)
  end.

Definition renameCommand : M unit := renameGenericCommand false.
Definition renamenxCommand : M unit := renameGenericCommand true.

Definition INT_MIN : Z := INT32_MIN.
Definition INT_MAX : Z := INT32_MAX.

Definition moveCommand : M unit :=
  src ← cur_db;
  a2 ← arg 2;
  dbid ← getLongLongFromObject (Some a2);
  ok ← (match dbid with
        | Some dbid =>
            if (dbid <? INT_MIN) || (INT_MAX <? dbid) then mret false else selectDb dbid
        | None => mret false
        end);
  if negb ok then addReplyString shared_outofrangeerr
  else
    dst ← cur_db;
    _ ← selectDb src;
    if src =? dst then addReplyString shared_sameobjecterr
    else
      a1 ← arg 1;
      o ← lookupKeyWrite src a1;
      match o with
      | None => addReplyString shared_czero
      | Some o =>
          expire ← getExpire src a1;
          there ← lookupKeyWrite dst a1;
          match there with
          | Some _ => addReplyString shared_czero
          | None =>
              _ ← dbAdd dst a1 o;
              _ ← (if negb (expire =? -1) then setExpire dst a1 expire else mret tt);
              _ ← incrRefCount o;
              _ ← dbDelete src a1;
              _ ← record (add_dirty 1);
              addReplyString shared_cone
          end
      end.

Definition selectCommand : M unit :=
  a1 ← arg 1;
  id ← getLongFromObjectOrReply (Some a1) (Some (bytes_of_string "invalid DB index"));
  match id with
  | None => mret tt
  | Some id =>
      (* the parameter of selectDb is an int *)
      ok ← selectDb (i32 id);
      if negb ok then addReplyError (bytes_of_string "invalid DB index")
      else addReplyString shared_ok
  end.

(** ** Expire times *)

(** rewriteClientCommandVector: the new arguments are referenced before the
    old ones are released.  The new command is looked up by its name. *)
Fixpoint retain_all (l : list addr) : M unit :=
  match l with
  | [] => mret tt
  | a :: l => _ ← incrRefCount a; retain_all l
  end.

Definition set_argv (v : list addr) : M unit := fun s => Ret (tt, with_argv v s).

Definition rewriteClientCommandVector (v : list addr) (name : list Z) (ro : bool) : M unit :=
  _ ← retain_all v;
  old ← get argv;
  _ ← release_all old;
  _ ← set_argv v;
  set_cmd name ro.

Definition expireGenericCommand (basetime : Z) (tu : time_unit) : M unit :=
  key ← arg 1; param ← arg 2;
  when ← getLongLongFromObjectOrReply (Some param) None;
  match when with
  | None => mret tt
  | Some when =>
      when ← (match tu with UNIT_SECONDS => ll_of (when * 1000) | UNIT_MILLISECONDS => mret when end);
      when ← ll_of (when + basetime);
      d ← cur_db;
      o ← lookupKeyWrite d key;
      match o with
      | None => addReplyString shared_czero
      | Some _ =>
          c ← get cf;
          if (when <=? mstime c) && negb (loading c) && negb (masterhost c) then
            b ← dbDelete d key;
            _ ← serverAssert b;
            _ ← record (add_dirty 1);
            aux ← createStringObject (bytes_of_string "DEL");
            _ ← rewriteClientCommandVector [aux; key] (bytes_of_string "del") false;
            _ ← decrRefCount aux;
            k ← sds_of key;
            _ ← signalModifiedKey d k;
            _ ← notifyKeyspaceEvent NOTIFY_GENERIC (bytes_of_string "del") k d;
            addReplyString shared_cone
          else
            _ ← setExpire d key when;
            _ ← addReplyString shared_cone;
            k ← sds_of key;
            _ ← signalModifiedKey d k;
            _ ← notifyKeyspaceEvent NOTIFY_GENERIC (bytes_of_string "expire") k d;
            record (add_dirty 1)
      end
  end.

Definition expireCommand : M unit := now ← get (fun s => mstime (cf s)); expireGenericCommand now UNIT_SECONDS.
Definition expireatCommand : M unit := expireGenericCommand 0 UNIT_SECONDS.
Definition pexpireCommand : M unit := now ← get (fun s => mstime (cf s)); expireGenericCommand now UNIT_MILLISECONDS.
Definition pexpireatCommand : M unit := expireGenericCommand 0 UNIT_MILLISECONDS.

Definition ttlGenericCommand (output_ms : bool) : M unit :=
  d ← cur_db;
  key ← arg 1;
  o ← lookupKeyReadWithFlags d key false;
  match o with
  | None => addReplyLongLong (-2)
  | Some _ =>
      expire ← getExpire d key;
      now ← get (fun s => mstime (cf s));
      ttl ← (if negb (expire =? -1) then
               ttl ← ll_of (expire - now);
               mret (if ttl <? 0 then 0 else ttl)
             else mret (-1));
      if ttl =? -1 then addReplyLongLong (-1)
      else if output_ms then addReplyLongLong ttl
      else t ← ll_of (ttl + 500); addReplyLongLong (Z.quot t 1000)
  end.

Definition ttlCommand : M unit := ttlGenericCommand false.
Definition pttlCommand : M unit := ttlGenericCommand true.

Definition persistCommand : M unit :=
  d ← cur_db;
  key ← arg 1;
  k ← sds_of key;
  de ← dict_find d k;
  match de with
  | None => addReplyString shared_czero
  | Some _ =>
      b ← removeExpire d key;
      if (b : bool) then
        _ ← addReplyString shared_cone;
        record (add_dirty 1)
      else addReplyString shared_czero
  end.
