(* ===== verification/AKeyspace.v ===== *)
(** * AKeyspace: the specification of the key commands

    What the commands on keys do to the keyspace and reply, on plain
    values. *)

From S2P Require Import Prelude Util Object Db ServerOk Abstract TString AString Keyspace.

(** ** Deleting and testing *)

Fixpoint aDelLoop (fuel j : nat) (deleted : Z) : AM Z :=
  match fuel with
  | O => mret deleted
  | S fuel =>
      d ← aget acur;
      k ← aarg j;
      _ ← aexpireIfNeeded d k;
      b ← adelete d k;
      if (b : bool) then
        _ ← arecord (add_touched d k);
        _ ← anotify NOTIFY_GENERIC (bytes_of_string "del") k d;
        _ ← arecord (add_dirty 1);
        aDelLoop fuel (S j) (deleted + 1)
      else aDelLoop fuel (S j) deleted
  end.

Definition aDEL : AM unit :=
  n ← aargc;
  deleted ← aDelLoop (Z.to_nat (n - 1)) 1 0;
  aReplyLongLong deleted.

(** EXISTS and TOUCH count the keys that are there. *)
Fixpoint aCountLoop (look : Z -> key -> AM (option sval)) (fuel j : nat) (count : Z) : AM Z :=
  match fuel with
  | O => mret count
  | S fuel =>
      d ← aget acur;
      k ← aarg j;
      v ← look d k;
      aCountLoop look fuel (S j) (match v with Some _ => count + 1 | None => count end)
  end.

Definition aCOUNT (look : Z -> key -> AM (option sval)) : AM unit :=
  n ← aargc;
  count ← aCountLoop look (Z.to_nat (n - 1)) 1 0;
  aReplyLongLong count.

Definition aEXISTS : AM unit := aCOUNT alookupWrite.
Definition aTOUCH : AM unit := aCOUNT alookupRead.

Definition atype (v : option sval) : list Z :=
  match v with
  | None => bytes_of_string "none"
  | Some (AStr _) => bytes_of_string "string"
  | Some (AAgg t _) => type_name t
  end.

Definition aTYPE : AM unit :=
  d ← aget acur;
  k ← aarg 1;
  v ← alookupRead d k;
  aReplyStatus (atype v).

Definition aDBSIZE : AM unit :=
  d ← aget acur;
  db ← aget_db d;
  aReplyLongLong (i64 (Z.of_nat (size (adict db)))).

Definition aFLUSHDB : AM unit :=
  d ← aget acur;
  db ← aget_db d;
  _ ← arecord (add_dirty (Z.of_nat (size (adict db))));
  _ ← arecord (add_flushed d);
  _ ← aset_db d (mk_adb ∅ ∅);
  areply shared_ok.

(** Empty every database; the result is the number of keys there were. *)
Definition aempty_all : AM Z := fun t =>
  Ret (foldr (fun db n => Z.of_nat (size (adict db)) + n) 0 (adbs t),
       mk_astate ((fun _ => mk_adb ∅ ∅) <$> adbs t) (aargs t) (acur t) (acf t) (alg t)).

Definition aFLUSHALL : AM unit :=
  _ ← arecord (add_flushed (-1));
  removed ← aempty_all;
  _ ← arecord (add_dirty removed);
  _ ← areply shared_ok;
  c ← aget acf;
  _ ← (if save_params c then
         n ← aget (fun t => dirty (alg t));
         arecord (set_dirty (i32 n))
       else mret tt);
  arecord (add_dirty 1).

(** ** RENAME and MOVE *)

(** The expire time that goes with a value to its new key; -1 stands for
    none. *)
Definition aexpire (d : Z) (k : key) : AM (option Z) :=
  db ← aget_db d;
  mret (match aexpires db !! k with
        | Some w => if w =? -1 then None else Some w
        | None => None
        end).

Definition aRENAME (nx : bool) : AM unit :=
  k1 ← aarg 1; k2 ← aarg 2;
  d ← aget acur;
  v ← alookupWriteOrReply k1 shared_nokeyerr;
  match v with
  | None => mret tt
  | Some v =>
      if bool_decide (k1 = k2) then areply (if nx then shared_czero else shared_ok)
      else
        when ← aexpire d k1;
        dst ← alookupWrite d k2;
        if bool_decide (is_Some dst) && nx then areply shared_czero
        else
          _ ← astore d k2 v;
          _ ← aset_expire d k2 when;
          _ ← adelete d k1;
          _ ← arecord (add_touched d k1);
          _ ← arecord (add_touched d k2);
          _ ← anotify NOTIFY_GENERIC (bytes_of_string "rename_from") k1 d;
          _ ← anotify NOTIFY_GENERIC (bytes_of_string "rename_to") k2 d;
          _ ← arecord (add_dirty 1);
          areply (if nx then shared_cone else shared_ok)
  end.

Definition aselect (id : Z) : AM bool := fun t =>
  if (0 <=? id) && (id <? Z.of_nat (length (adbs t))) then
    Ret (true, mk_astate (adbs t) (aargs t) id (acf t) (alg t))
  else Ret (false, t).

Definition aMOVE : AM unit :=
  src ← aget acur;
  a2 ← aarg 2;
  dbnum ← aget (fun t => Z.of_nat (length (adbs t)));
  match string2ll a2 with
  | Some dst =>
      if (dst <? 0) || (INT_MAX <? dst) || (dbnum <=? dst) then areply shared_outofrangeerr
      else if src =? dst then areply shared_sameobjecterr
      else
        k ← aarg 1;
        v ← alookupWrite src k;
        match v with
        | None => areply shared_czero
        | Some v =>
            when ← aexpire src k;
            there ← alookupWrite dst k;
            match there with
            | Some _ => areply shared_czero
            | None =>
                _ ← astore dst k v;
                _ ← aset_expire dst k when;
                _ ← adelete src k;
                _ ← arecord (add_dirty 1);
                areply shared_cone
            end
        end
  | None => areply shared_outofrangeerr
  end.

Definition aSELECT : AM unit :=
  a1 ← aarg 1;
  id ← aLongLongOrReply a1 (Some (bytes_of_string "invalid DB index"));
  match id with
  | None => mret tt
  | Some id =>
      ok ← aselect (i32 id);
      if negb ok then aReplyError (bytes_of_string "invalid DB index")
      else areply shared_ok
  end.

(** ** Expire times *)

Definition aset_args (v : list (list Z)) : AM unit := fun t =>
  Ret (tt, mk_astate (adbs t) v (acur t) (acf t) (alg t)).
Definition aset_cmd (name : list Z) (ro : bool) : AM unit := fun t =>
  Ret (tt, mk_astate (adbs t) (aargs t) (acur t) (with_cmd name ro (acf t)) (alg t)).

(** [relative] is the EXPIRE and PEXPIRE form.  A time in the past deletes
    the key on a master, which then goes to the slaves as a DEL. *)
Definition aEXPIRE (relative : bool) (tu : time_unit) : AM unit :=
  now ← aget (fun t => mstime (acf t));
  k ← aarg 1; param ← aarg 2;
  w ← aLongLongOrReply param None;
  match w with
  | None => mret tt
  | Some w =>
      w ← (match tu with UNIT_SECONDS => all_of (w * 1000) | UNIT_MILLISECONDS => mret w end);
      when ← all_of (w + (if relative then now else 0));
      d ← aget acur;
      v ← alookupWrite d k;
      match v with
      | None => areply shared_czero
      | Some _ =>
          c ← aget acf;
          if (when <=? mstime c) && negb (loading c) && negb (masterhost c) then
            _ ← adelete d k;
            _ ← arecord (add_dirty 1);
            _ ← aset_args [bytes_of_string "DEL"; k];
            _ ← aset_cmd (bytes_of_string "del") false;
            _ ← arecord (add_touched d k);
            _ ← anotify NOTIFY_GENERIC (bytes_of_string "del") k d;
            areply shared_cone
          else
            _ ← aset_expire d k (Some when);
            _ ← areply shared_cone;
            _ ← arecord (add_touched d k);
            _ ← anotify NOTIFY_GENERIC (bytes_of_string "expire") k d;
            arecord (add_dirty 1)
      end
  end.

(** -2 for no key, -1 for a key that stays, else the time that is left,
    in milliseconds or rounded to seconds. *)
Definition aTTL (output_ms : bool) : AM unit :=
  d ← aget acur;
  k ← aarg 1;
  v ← alookupRead d k;
  match v with
  | None => aReplyLongLong (-2)
  | Some _ =>
      when ← aexpire d k;
      match when with
      | None => aReplyLongLong (-1)
      | Some when =>
          now ← aget (fun t => mstime (acf t));
          ttl ← all_of (when - now);
          if output_ms then aReplyLongLong (Z.max 0 ttl)
          else t ← all_of (Z.max 0 ttl + 500); aReplyLongLong (t / 1000)
      end
  end.

Definition aPERSIST : AM unit :=
  d ← aget acur;
  k ← aarg 1;
  db ← aget_db d;
  if bool_decide (is_Some (adict db !! k)) && bool_decide (is_Some (aexpires db !! k)) then
    _ ← aset_expire d k None;
    _ ← areply shared_cone;
    arecord (add_dirty 1)
  else areply shared_czero.
