(* ===== verification/Frame.v ===== *)
(** * Frame: what a piece of the code does not touch

    Code that does not look at the arguments of the client runs the same
    whatever they are ([noargs]); code on one database leaves the others
    alone, and the objects that stay keep their contents ([pres]). *)

From S2P Require Import Prelude Util Object Db ServerOk Abstract ServerSim TString ValueSim Keyspace.

(** ** Independence of the arguments *)

Definition rewith {A} (v : list addr) (r : res (A * server)) : res (A * server) :=
  match r with
  | Ret (a, s) => Ret (a, with_argv v s)
  | Fault f => Fault f
  end.

Definition noargs {A} (m : M A) : Prop := forall v s, m (with_argv v s) = rewith v (m s).

Create HintDb frame.

Lemma noargs_ret {A} (a : A) : noargs (mret a).
Proof. done. Qed.
Lemma noargs_fail {A} f : noargs (fail (A := A) f).
Proof. done. Qed.
Lemma noargs_bind {A B} (m : M A) (k : A -> M B) : noargs m -> (forall a, noargs (k a)) -> noargs (m ≫= k).
Proof.
  intros Hm Hk v s. unfold mbind, M_bind. rewrite (Hm v s). destruct (m s) as [[a s']|f]; cbn; [apply Hk|done].
Qed.
Lemma noargs_obj a : noargs (obj a).
Proof. intros v s. unfold obj. cbn. by destruct (heap s !! a). Qed.
Lemma noargs_set_obj a o : noargs (set_obj a o).
Proof. intros v s. unfold set_obj. cbn. by destruct (heap s !! a). Qed.
Lemma noargs_zfree a : noargs (zfree a).
Proof. intros v s. unfold zfree. cbn. by destruct (heap s !! a). Qed.
Lemma noargs_record f : noargs (record f).
Proof. done. Qed.
Lemma noargs_cf {A} (f : conf -> A) : noargs (get (fun s => f (cf s))).
Proof. done. Qed.
Lemma noargs_get_cf : noargs (get cf).
Proof. done. Qed.

#[export] Hint Resolve noargs_ret noargs_fail noargs_bind noargs_obj noargs_set_obj noargs_zfree noargs_record
  noargs_cf noargs_get_cf : frame.

Ltac noargs := repeat first [progress intros | solve [auto with frame] | apply noargs_bind
  | match goal with |- noargs (match ?e with _ => _ end) => destruct e end].

Lemma noargs_decr a : noargs (decrRefCount a).
Proof.
  unfold decrRefCount, freeStringObject, freeListObject, freeSetObject, freeZsetObject, freeHashObject. noargs.
Qed.
Lemma noargs_incr a : noargs (incrRefCount a).
Proof. unfold incrRefCount. noargs. Qed.
Lemma noargs_sds a : noargs (sds_of a).
Proof. unfold sds_of. noargs. Qed.
#[export] Hint Resolve noargs_decr noargs_incr noargs_sds : frame.

Lemma noargs_release l : noargs (release_all l).
Proof. induction l as [|a l IH]; cbn [release_all]; noargs. Qed.

(** ** Code that leaves a part of the state *)

(** Only the database [d] may change, and an object that is still there
    says what it said. *)
Record leaves (d : Z) (s s' : server) : Prop := mk_leaves {
  leaves_dbs : forall i, i <> Z.to_nat d -> dbs s' !! i = dbs s !! i;
  leaves_brk : brk s <= brk s';
  leaves_objs : forall a o', a < brk s -> heap s' !! a = Some o' ->
    exists o, heap s !! a = Some o /\ same_obj o o'
}.

#[export] Instance leaves_preorder d : PreOrder (leaves d).
Proof.
  split.
  - intros s. split; [done|lia|]. intros a o _ H. by exists o.
  - intros s1 s2 s3 [A1 A2 A3] [B1 B2 B3]. split; [|lia|].
    + intros i Hi. by rewrite B1, A1.
    + intros a o3 Ha H3. destruct (B3 a o3) as (o2 & H2 & S2); [lia|done|].
      destruct (A3 a o2) as (o1 & H1 & S1); [done|done|]. exists o1. split; [done|by etrans].
Qed.

Definition pres {A} (d : Z) (m : M A) : Prop := forall s a s', m s = Ret (a, s') -> leaves d s s'.

Lemma pres_same d s : leaves d s s.
Proof. done. Qed.

Section pres.
  Context (d : Z).

Lemma pres_ret {A} (a : A) : pres d (mret a).
Proof. intros s b s' [= <- <-]. apply pres_same. Qed.
Lemma pres_fail {A} f : pres d (fail (A := A) f).
Proof. done. Qed.
Lemma pres_bind {A B} (m : M A) (k : A -> M B) : pres d m -> (forall a, pres d (k a)) -> pres d (m ≫= k).
Proof.
  intros Hm Hk s b s'. unfold mbind, M_bind. destruct (m s) as [[a s1]|f] eqn:E; [|done].
  intros H. etrans; [by eapply Hm|by eapply Hk].
Qed.
Lemma pres_obj a : pres d (obj a).
Proof. intros s b s'. unfold obj. destruct (heap s !! a); [|done]. intros [= <- <-]. apply pres_same. Qed.
Lemma pres_record f : pres d (record f).
Proof. intros s b s' [= <- <-]. split; [done|cbn; lia|]. intros a o _ H. by exists o. Qed.
Lemma pres_get {A} (f : server -> A) : pres d (get f).
Proof. intros s b s' [= <- <-]. apply pres_same. Qed.
Lemma pres_get_db e : pres d (get_db e).
Proof.
  intros s b s'. unfold get_db. destruct (e <? 0); [done|]. destruct (dbs s !! Z.to_nat e); [|done].
  intros [= <- <-]. apply pres_same.
Qed.
Lemma pres_set_db db : pres d (set_db d db).
Proof.
  intros s b s'. unfold set_db. destruct (d <? 0); [done|]. destruct (dbs s !! Z.to_nat d); [|done].
  intros [= <- <-]. split; [|cbn; lia|intros a o _ H; by exists o].
  intros i Hi. cbn. by rewrite list_lookup_insert_ne.
Qed.
Lemma pres_zfree a : pres d (zfree a).
Proof.
  intros s b s'. unfold zfree. destruct (heap s !! a); [|done]. intros [= <- <-]. split; [done|cbn; lia|].
  intros c o _ H. cbn in H. apply lookup_delete_Some in H as [_ H]. by exists o.
Qed.

(** An object read and written back with the same contents. *)
Lemma leaves_set s a o o' : heap s !! a = Some o -> same_obj o o' -> leaves d s (with_heap (<[a := o']> (heap s)) s).
Proof.
  intros Ho Hs. split; [done|cbn; lia|]. intros b ob _ Hb. cbn in Hb.
  apply lookup_insert_Some in Hb as [[<- <-]|[_ Hb]]; [by exists o|by exists ob].
Qed.
Lemma pres_update a (f : robj -> robj) : (forall o, same_obj o (f o)) -> pres d (o ← obj a; set_obj a (f o)).
Proof.
  intros Hf s b s'. unfold mbind, M_bind, obj, set_obj. destruct (heap s !! a) as [o|] eqn:E; [|done].
  rewrite E. intros [= <- <-]. by apply leaves_set with o.
Qed.
End pres.

#[export] Hint Resolve pres_ret pres_fail pres_obj pres_zfree pres_record pres_get pres_get_db pres_set_db : frame.

Ltac pres := repeat first [progress intros | solve [auto with frame] | apply pres_bind
  | match goal with |- pres _ (match ?e with _ => _ end) => destruct e end].

Lemma pres_incr d a : pres d (incrRefCount a).
Proof. by apply pres_update. Qed.

Lemma pres_decr d a : pres d (decrRefCount a).
Proof.
  intros s b s'. unfold decrRefCount. unfold mbind at 1, M_bind at 1, obj. destruct (heap s !! a) as [o|] eqn:E; [|done].
  destruct (refcount o <=? 0); [done|]. destruct (refcount o =? 1).
  - assert (H : pres d (_ ← (match type o with
      | OBJ_STRING => freeStringObject o | OBJ_LIST => freeListObject o | OBJ_SET => freeSetObject o
      | OBJ_ZSET => freeZsetObject o | OBJ_HASH => freeHashObject o end); zfree a)); [|apply H].
    unfold freeStringObject, freeListObject, freeSetObject, freeZsetObject, freeHashObject. pres.
  - unfold set_obj. rewrite E. intros [= <- <-]. by apply leaves_set with o.
Qed.
Lemma pres_sds d a : pres d (sds_of a).
Proof. unfold sds_of. pres. Qed.
#[export] Hint Resolve pres_incr pres_decr pres_sds : frame.

Lemma pres_touch d a : pres d (o ← obj a; clock ← get (fun s => lruclock (cf s)); set_obj a (with_lru clock o)).
Proof.
  intros s b s'. unfold mbind, M_bind, obj, get, set_obj. destruct (heap s !! a) as [o|] eqn:E; [|done].
  rewrite E. intros [= <- <-]. by apply leaves_set with o.
Qed.
#[export] Hint Resolve pres_touch : frame.

Lemma pres_dbDelete d a : pres d (dbDelete d a).
Proof. unfold dbDelete, expires_delete, dict_delete. pres. Qed.
#[export] Hint Resolve pres_dbDelete : frame.

Lemma pres_lookupKeyWrite d a : pres d (lookupKeyWrite d a).
Proof.
  unfold lookupKeyWrite, lookupKey, dict_find, expireIfNeeded, getExpire, propagateExpire, notifyKeyspaceEvent,
    serverAssert. pres.
Qed.

(** While the code holds a reference to [a], its object is there and says
    what it said. *)
Lemma pres_held {A B} x d (m : M A) (am : AM B) s a o P : pres d m -> ok x s -> 0 < x a -> heap s !! a = Some o ->
  sim s m am (fun s' y z => P s' y z /\ ok x s') ->
  sim s m am (fun s' y z => (P s' y z /\ ok x s') /\ exists o', heap s' !! a = Some o' /\ same_obj o o').
Proof.
  intros Hm Hok Ha Ho H. unfold sim in *. destruct (m s) as [[y s']|f] eqn:E; [|done].
  destruct H as (b & Eb & HP & Hok'). exists b. split; [done|]. split; [done|].
  destruct (ok_live _ _ Hok' a) as [o' Ho']; [right; lia|]. exists o'. split; [done|].
  destruct (leaves_objs _ _ _ (Hm _ _ _ E) a o') as (o1 & Ho1 & Hs); [by eapply ok_brk|done|]. congruence.
Qed.

(** ** Arguments and held references *)

Lemma refs_argv s v a : refs (with_argv v s) a = refs s a - argv_refs (argv s) a + argv_refs v a.
Proof. unfold refs. cbn. lia. Qed.

Lemma argv_refs_app v w a : argv_refs (v ++ w) a = argv_refs v a + argv_refs w a.
Proof. induction v as [|b v IH]; cbn; [done|]. rewrite IH. lia. Qed.

Lemma argv_refs_elem v a : 0 < argv_refs v a <-> a ∈ v.
Proof.
  induction v as [|b v IH]; cbn; [split; [lia|by intros ?%elem_of_nil]|].
  pose proof (argv_refs_nonneg v a). rewrite elem_of_cons, <- IH. unfold tok.
  destruct (decide (a = b)) as [->|Hn]; naive_solver lia.
Qed.

(** The arguments replaced: what the old ones referenced is now held. *)
Lemma with_argv_ok x s v : ok x s -> (forall a, a ∈ v -> exists o, heap s !! a = Some o /\ type o = OBJ_STRING) ->
  ok (fun a => x a + argv_refs (argv s) a - argv_refs v a) (with_argv v s).
Proof.
  intros [H1 H2 H3 H4 H5 H6 H7 H8 H9] Hv. constructor; try done.
  - intros b o Hb. rewrite refs_argv. destruct (H3 b o Hb). lia.
  - intros b. rewrite refs_argv. intros Hb. cbn.
    destruct (decide (0 < argv_refs v b)) as [H|H]; [|].
    { apply argv_refs_elem in H. destruct (Hv b H) as (o & ? & _). by eexists. }
    apply H4. pose proof (argv_refs_nonneg v b). pose proof (argv_refs_nonneg (argv s) b).
    pose proof (db_refs_nonneg (dbs s) b). pose proof (shared_ref_range b).
    assert (argv_refs v b = 0) by lia. unfold refs in *. lia.
  - intros b o Hb Hob. cbn in Hb, Hob. destruct (Hv b Hb) as (o' & ? & ?). congruence.
Qed.

Lemma release_spec l x s : held x -> ok (fun a => x a + argv_refs l a) s ->
  exists s', release_all l s = Ret (tt, s') /\ ok x s' /\ abs s' = abs s /\ kept s s' /\ dbs s' = dbs s.
Proof.
  revert s. induction l as [|a l IH]; intros s Hx Hok.
  - exists s. split; [done|]. split; [|done]. eapply ok_ext; [|exact Hok]. intros b. cbn. lia.
  - cbn [release_all argv_refs] in *. pose proof (argv_refs_nonneg l a). specialize (Hx a) as Hxa.
    destruct (ok_live _ _ Hok a) as [o Ho]; [rewrite tok_eq; lia|].
    destruct (decr_held _ s a o Hok Ho) as (s1 & E1 & Hok1 & Ha1 & Hk1 & Hd1 & _); [rewrite tok_eq; lia|].
    destruct (IH s1 Hx) as (s2 & E2 & Hok2 & Ha2 & Hk2 & Hd2).
    { eapply ok_ext; [|exact Hok1]. intros b. cbn. lia. }
    exists s2. unfold mbind, M_bind. rewrite E1, E2. split; [done|]. split; [done|].
    split; [congruence|]. split; [by etrans|congruence].
Qed.
