(* ===== verification/KeyspaceSim.v ===== *)
(** * KeyspaceSim: the key commands implement their specification *)

From S2P Require Import Prelude Util Object Db ServerOk Abstract ServerSim TString ValueSim AString StringSim.
From S2P Require Import Keyspace AKeyspace Frame.

(** ** Steps that read the same on both sides *)

Lemma sim_cur {A B} s (f : Z -> M A) (g : Z -> AM B) Q :
  sim s (f (curdb s)) (g (curdb s)) Q -> sim s (cur_db ≫= f) (aget acur ≫= g) Q.
Proof. intros H. eapply sim_read; [done|]. by eapply sim_right. Qed.

Lemma sim_cf {A B} s (f : conf -> M A) (g : conf -> AM B) Q :
  sim s (f (cf s)) (g (cf s)) Q -> sim s (get cf ≫= f) (aget acf ≫= g) Q.
Proof. intros H. eapply sim_read; [done|]. by eapply sim_right. Qed.

Lemma sim_sds {A B} s key k (f : list Z -> M A) (am : AM B) Q : is_sds s key k ->
  sim s (f k) am Q -> sim s (sds_of key ≫= f) am Q.
Proof. intros H. apply sim_read. by apply sds_of_at. Qed.

(** A last step that logs. *)
Lemma sim_last s f : ok x0 s -> sim s (record f) (arecord f) done_ok.
Proof. intros H. eapply sim_conseq; [by apply (sim_log x0)|]. intros s' [] [] H'. apply H'. Qed.

Lemma sim_logged {A B} s (m : M A) (am : AM B) : sim s m am (fun s' _ _ => logged x0 s s') -> sim s m am done_ok.
Proof. intros H. eapply sim_conseq; [exact H|]. intros s' a b H'. apply H'. Qed.

#[export] Hint Resolve sim_last : redis.

Abbreviation any := (fun _ : nat => True).

(** The step [arg j], where every argument is a string. *)
Ltac sim_key ka k Hk := eapply (sim_arg x0 any); [done|done|done|]; intros ka k _ Hk.

(** ** DEL, EXISTS, TOUCH, TYPE, DBSIZE *)

Lemma del_loop_sim fuel j n s : ok x0 s -> raw_args any s ->
  sim s (del_loop fuel j n) (aDelLoop fuel j n)
    (fun s' m m' => m' = m /\ n <= m <= n + Z.of_nat fuel /\ ok x0 s').
Proof.
  revert j n s. induction fuel as [|fuel IH]; intros j n s Hok Hraw; cbn [del_loop aDelLoop].
  { apply sim_ret. split; [done|]. split; [lia|done]. }
  apply sim_cur. sim_key ka k Hk. pose proof (cur_exists x0 s Hok) as Hd.
  eapply sim_bind; [by apply (expireIfNeeded_sim x0); auto with redis|]. intros s1 b1 b1' (_ & Hok1 & Hk1).
  eapply sim_bind.
  { apply (dbDelete_sim x0); auto with redis; [by apply (is_key_kept s)|by apply (db_exists_kept s)]. }
  intros s2 b b' (-> & Hok2 & Hk2). assert (Hk02 : kept s s2) by (by etrans). destruct b.
  - eapply sim_sds; [by apply (is_key_kept s)|].
    apply (sim_log_then x0); [done|]. intros s3 (Hok3 & Hk3 & _).
    apply (sim_log_then x0); [done|]. intros s4 (Hok4 & Hk4 & _).
    apply (sim_log_then x0); [done|]. intros s5 (Hok5 & Hk5 & _).
    eapply sim_conseq; [apply IH; [done|]|].
    + eapply raw_kept; [|exact Hraw]. do 3 (etrans; [eassumption|]). done.
    + intros s6 m m' (? & ? & ?). split; [done|]. split; [lia|done].
  - eapply sim_conseq; [apply IH; [done|by eapply raw_kept]|].
    intros s6 m m' (? & ? & ?). split; [done|]. split; [lia|done].
Qed.

(** The arguments that the protocol allows. *)
Definition argc_ok (s : server) : Prop := 1 <= Z.of_nat (length (argv s)) < 2 ^ 31.

Lemma count_in n m s : argc_ok s -> n = Z.of_nat (length (argv s)) -> 0 <= m <= 0 + Z.of_nat (Z.to_nat (n - 1)) ->
  in_s 64 m.
Proof. unfold argc_ok, in_s. change (64 - 1) with 63. lia. Qed.

Lemma delCommand_sim s : client_ok s -> argc_ok s -> sim s delCommand aDEL done_ok.
Proof.
  intros [Hok Hraw] Hn. unfold delCommand, aDEL. apply sim_argc.
  eapply sim_bind; [by apply del_loop_sim|]. intros s1 m m' (-> & Hm & Hok1).
  apply sim_logged, (addReplyLongLong_sim x0); [done|]. by eapply count_in.
Qed.

Lemma exists_loop_sim fuel j n s : ok x0 s -> raw_args any s ->
  sim s (exists_loop fuel j n) (aCountLoop alookupWrite fuel j n)
    (fun s' m m' => m' = m /\ n <= m <= n + Z.of_nat fuel /\ ok x0 s').
Proof.
  revert j n s. induction fuel as [|fuel IH]; intros j n s Hok Hraw; cbn [exists_loop aCountLoop].
  { apply sim_ret. split; [done|]. split; [lia|done]. }
  apply sim_cur. sim_key ka k Hk. pose proof (cur_exists x0 s Hok) as Hd.
  unfold alookupWrite. apply sim_assoc_r.
  eapply sim_bind; [by apply (expireIfNeeded_sim x0); auto with redis|]. intros s1 b1 b1' (_ & Hok1 & Hk1).
  unfold dbExists, dict_find, alookup. apply sim_assoc_l. eapply sim_sds; [by apply (is_key_kept s)|].
  destruct (db_at_exists s1 (curdb s)) as [db Hdb]; [by apply (db_exists_kept s)|].
  do 2 apply sim_assoc_l. eapply sim_read; [by apply get_db_at|].
  apply sim_assoc_r. eapply sim_right; [by apply aget_db_at|]. cbn [abs_db adict].
  eapply sim_read; [done|]. eapply sim_read; [done|]. eapply sim_right; [done|].
  pose proof (abs_dict_is_Some x0 s1 (curdb s) db k Hok1 Hdb) as Hs.
  assert (E : (if bool_decide (is_Some (dict db !! k)) then n + 1 else n) =
    match abs_dict (heap s1) (dict db) !! k with Some _ => n + 1 | None => n end).
  { destruct (abs_dict (heap s1) (dict db) !! k) as [v|].
    - rewrite bool_decide_true; [done|]. apply Hs. by eexists.
    - rewrite bool_decide_false; [done|]. intros H%Hs. by apply is_Some_None in H. }
  rewrite E. eapply sim_conseq; [apply IH; [done|by eapply raw_kept]|].
  intros s6 m m' (? & ? & ?). split; [done|]. split; [|done].
  destruct (abs_dict (heap s1) (dict db) !! k); lia.
Qed.

Lemma existsCommand_sim s : client_ok s -> argc_ok s -> sim s existsCommand aEXISTS done_ok.
Proof.
  intros [Hok Hraw] Hn. unfold existsCommand, aEXISTS, aCOUNT. apply sim_argc.
  eapply sim_bind; [by apply exists_loop_sim|]. intros s1 m m' (-> & Hm & Hok1).
  apply sim_logged, (addReplyLongLong_sim x0); [done|]. by eapply count_in.
Qed.

Lemma touch_loop_sim fuel j n s : ok x0 s -> raw_args any s ->
  sim s (touch_loop fuel j n) (aCountLoop alookupRead fuel j n)
    (fun s' m m' => m' = m /\ n <= m <= n + Z.of_nat fuel /\ ok x0 s').
Proof.
  revert j n s. induction fuel as [|fuel IH]; intros j n s Hok Hraw; cbn [touch_loop aCountLoop].
  { apply sim_ret. split; [done|]. split; [lia|done]. }
  apply sim_cur. sim_key ka k Hk.
  eapply sim_bind; [apply read_sim; [done|done|by apply (cur_exists x0)]|]. intros s1 o v (Hr & Hok1 & Hk1).
  assert (E : match o with Some _ => n + 1 | None => n end = match v with Some _ => n + 1 | None => n end)
    by (by destruct o, v).
  rewrite E. eapply sim_conseq; [apply IH; [done|by eapply raw_kept]|].
  intros s6 m m' (? & ? & ?). split; [done|]. split; [|done]. destruct v; lia.
Qed.

Lemma touchCommand_sim s : client_ok s -> argc_ok s -> sim s touchCommand aTOUCH done_ok.
Proof.
  intros [Hok Hraw] Hn. unfold touchCommand, aTOUCH, aCOUNT. apply sim_argc.
  eapply sim_bind; [by apply touch_loop_sim|]. intros s1 m m' (-> & Hm & Hok1).
  apply sim_logged, (addReplyLongLong_sim x0); [done|]. by eapply count_in.
Qed.

Lemma typeCommand_sim s : client_ok s -> sim s typeCommand aTYPE done_ok.
Proof.
  intros [Hok Hraw]. unfold typeCommand, aTYPE. apply sim_cur. sim_key ka k Hk.
  eapply sim_bind; [apply (lookupKeyReadWithFlags_sim x0); auto with redis; by apply (cur_exists x0)|].
  intros s1 o v (Hf & Hok1 & Hk1). destruct v as [v|]; [|subst o; by apply sim_logged, (addReplyStatus_sim x0)].
  destruct o as [a|]; [|by destruct Hf as (db & _ & _ & ?)].
  destruct Hf as (db & _ & _ & r & Hr & Ho & [= ->]). eapply sim_read; [by apply obj_at|].
  assert (E : type_name (type r) = atype (Some (view r))).
  { destruct r as [[] [] ? ? []]; unfold obj_ok in Ho; cbn in *; done. }
  rewrite E. by apply sim_logged, (addReplyStatus_sim x0).
Qed.

Lemma abs_dict_size x s d db : ok x s -> db_at s d db -> size (abs_dict (heap s) (dict db)) = size (dict db).
Proof.
  intros Hok Hd. rewrite <- !size_dom. f_equal. apply set_eq. intros k. rewrite !elem_of_dom.
  by eapply abs_dict_is_Some.
Qed.

Lemma dbsizeCommand_sim s : client_ok s -> sim s dbsizeCommand aDBSIZE done_ok.
Proof.
  intros [Hok Hraw]. unfold dbsizeCommand, aDBSIZE. apply sim_cur.
  destruct (db_at_exists s (curdb s)) as [db Hdb]; [by apply (cur_exists x0)|].
  eapply sim_read; [by apply get_db_at|]. eapply sim_right; [by apply aget_db_at|]. cbn [abs_db adict].
  rewrite (abs_dict_size x0 s (curdb s)) by done.
  apply sim_logged, (addReplyLongLong_sim x0); [done|by apply swrap_range].
Qed.

(** ** FLUSHDB and FLUSHALL *)

Lemma argv_refs_perm v w a : Permutation v w -> argv_refs v a = argv_refs w a.
Proof. induction 1; cbn; lia. Qed.

Lemma count_values m a : argv_refs (map snd (map_to_list m)) a = count_dict m a.
Proof.
  induction m as [|k v m Hk IH] using map_ind; [done|].
  rewrite (argv_refs_perm _ (v :: map snd (map_to_list m))).
  - cbn. rewrite count_dict_insert, Hk, IH. cbn. lia.
  - change (v :: map snd (map_to_list m)) with (map snd ((k, v) :: map_to_list m)).
    apply fmap_Permutation. by apply map_to_list_insert.
Qed.

Lemma dict_empty_sim s d : ok x0 s -> db_exists s d ->
  sim s (dict_empty d) (aset_db d (mk_adb ∅ ∅))
    (fun s' _ _ => ok x0 s' /\ kept s s' /\ dbs s' = <[Z.to_nat d := mk_db ∅ ∅]> (dbs s)).
Proof.
  intros Hok Hd. destruct (db_at_exists s d Hd) as [db Hdb]. unfold dict_empty.
  eapply sim_read; [by apply get_db_at|].
  assert (Hok1 : ok (fun a => 0 + argv_refs (map snd (map_to_list (dict db))) a) (put_db d (mk_db ∅ ∅) s)).
  { eapply put_db_ok; [exact Hok|exact Hdb|done| |by intros ? ? ?].
    intros a. rewrite count_values. change (count_dict (dict (mk_db ∅ ∅)) a) with 0. lia. }
  destruct (release_spec _ x0 _ held_x0 Hok1) as (s2 & E & Hok2 & Ha2 & Hk2 & Hd2).
  unfold sim, mbind, M_bind. rewrite (set_db_at s d db) by done. rewrite E. exists tt. split; [|split; [done|split]].
  - rewrite Ha2. exact (aset_db_put s d (mk_db ∅ ∅)).
  - etrans; [apply put_kept|exact Hk2].
  - rewrite Hd2. done.
Qed.

Lemma flushdbCommand_sim s : client_ok s -> sim s flushdbCommand aFLUSHDB done_ok.
Proof.
  intros [Hok Hraw]. unfold flushdbCommand, aFLUSHDB. apply sim_cur.
  pose proof (cur_exists x0 s Hok) as Hd. destruct (db_at_exists s (curdb s) Hd) as [db Hdb].
  eapply sim_read; [by apply get_db_at|]. eapply sim_right; [by apply aget_db_at|]. cbn [abs_db adict].
  rewrite (abs_dict_size x0 s (curdb s)) by done.
  apply (sim_log_then x0); [done|]. intros s1 (Hok1 & Hk1 & _).
  apply (sim_log_then x0); [done|]. intros s2 (Hok2 & Hk2 & _).
  eapply sim_bind; [apply dict_empty_sim; [done|]|].
  { apply (db_exists_kept s); [|done]. by etrans. }
  intros s3 [] [] (Hok3 & _). by apply sim_last.
Qed.

(** The number of keys from database [j] on, and the databases after the
    loop has emptied [j], [j+1], ... *)
Definition keys_from (j : nat) (l : list redisDb) : Z :=
  foldr (fun db n => Z.of_nat (size (dict db)) + n) 0 (drop j l).

Lemma empty_loop_spec fuel j removed s : ok x0 s -> (j + fuel = length (dbs s))%nat ->
  exists s', empty_loop fuel j removed s = Ret (removed + keys_from j (dbs s), s') /\ ok x0 s' /\
    abs s' = mk_astate (take j (adbs (abs s)) ++ replicate fuel (mk_adb ∅ ∅))
      (aargs (abs s)) (acur (abs s)) (acf (abs s)) (alg (abs s)).
Proof.
  revert j removed s. induction fuel as [|fuel IH]; intros j removed s Hok Hj.
  - exists s. unfold keys_from. rewrite drop_ge by lia. cbn [empty_loop foldr]. rewrite Z.add_0_r.
    split; [done|]. split; [done|]. rewrite app_nil_r, take_ge; [done|]. cbn. rewrite length_fmap. lia.
  - cbn [empty_loop]. assert (Hd : db_exists s (Z.of_nat j)) by (unfold db_exists; lia).
    destruct (db_at_exists s (Z.of_nat j) Hd) as [db Hdb]. pose proof Hdb as [_ Hl]. rewrite Nat2Z.id in Hl.
    pose proof (dict_empty_sim s (Z.of_nat j) Hok Hd) as Hs. unfold sim in Hs.
    unfold mbind, M_bind. rewrite (get_db_at _ _ _ Hdb).
    destruct (dict_empty (Z.of_nat j) s) as [[[] s1]|f] eqn:E; [|done].
    destruct Hs as ([] & Ea & Hok1 & Hk1 & Hd1). rewrite Nat2Z.id in Hd1.
    destruct (IH (S j) (removed + Z.of_nat (size (dict db))) s1 Hok1) as (s2 & E2 & Hok2 & Ha2).
    { rewrite Hd1, length_insert. lia. }
    exists s2. rewrite E2. split; [|split; [done|]].
    + unfold keys_from. rewrite Hd1, drop_insert_lt by lia. rewrite (drop_S _ _ _ Hl). cbn [foldr].
      do 2 f_equal. lia.
    + unfold aset_db in Ea. assert (Ea' : abs s1 = mk_astate (<[Z.to_nat (Z.of_nat j) := mk_adb ∅ ∅]> (adbs (abs s)))
        (aargs (abs s)) (acur (abs s)) (acf (abs s)) (alg (abs s))) by congruence.
      rewrite Ha2, Ea'. cbn [adbs aargs acur acf alg]. f_equal.
      rewrite Nat2Z.id, (take_S_r _ _ (mk_adb ∅ ∅)).
      * rewrite take_insert_ge, <- app_assoc by lia. done.
      * apply list_lookup_insert_eq. cbn. rewrite length_fmap. by eapply lookup_lt_Some.
Qed.

Lemma keys_abs h l : (forall db, db ∈ l -> size (abs_dict h (dict db)) = size (dict db)) ->
  foldr (fun db n => Z.of_nat (size (adict db)) + n) 0 (abs_db h <$> l) =
  foldr (fun db n => Z.of_nat (size (dict db)) + n) 0 l.
Proof.
  induction l as [|db l IH]; intros H; [done|]. cbn. rewrite H by (by left). rewrite IH; [done|].
  intros db' Hd. apply H. by right.
Qed.

Lemma emptyDb_sim s : ok x0 s -> sim s emptyDb aempty_all (fun s' n n' => n' = n /\ ok x0 s').
Proof.
  intros Hok. unfold emptyDb. eapply sim_read; [done|].
  destruct (empty_loop_spec (length (dbs s)) 0 0 s Hok) as (s' & E & Hok' & Ha); [lia|].
  unfold sim. rewrite E. eexists. unfold aempty_all. cbn in Ha |- *. rewrite Ha. split; [|split; [|exact Hok']].
  - do 3 f_equal. by rewrite <- list_fmap_compose, (const_fmap _ _ (mk_adb ∅ ∅)).
  - unfold keys_from. rewrite drop_0. apply keys_abs. intros db [i Hi]%list_elem_of_lookup.
    apply (abs_dict_size x0 s (Z.of_nat i)); [done|]. split; [lia|by rewrite Nat2Z.id].
Qed.

Lemma flushallCommand_sim s : client_ok s -> sim s flushallCommand aFLUSHALL done_ok.
Proof.
  intros [Hok Hraw]. unfold flushallCommand, aFLUSHALL.
  apply (sim_log_then x0); [done|]. intros s1 (Hok1 & _).
  eapply sim_bind; [by apply emptyDb_sim|]. intros s2 n n' (-> & Hok2).
  apply (sim_log_then x0); [done|]. intros s3 (Hok3 & _).
  apply (sim_log_then x0); [done|]. intros s4 (Hok4 & _). apply sim_cf.
  eapply (sim_bind _ _ _ _ _ (fun s' _ _ => ok x0 s')); [|intros s5 [] [] Hok5; by apply sim_last].
  destruct (save_params (cf s4)); [|by apply sim_ret]. eapply sim_read; [done|]. eapply sim_right; [done|].
  by apply sim_last.
Qed.

(** ** RENAME and MOVE *)

Lemma sim_spec {A B} s (m : M A) (am am' : AM B) Q : (forall t, am t = am' t) -> sim s m am Q -> sim s m am' Q.
Proof. intros E H. unfold sim in *. by rewrite <- E. Qed.

(** The expire time as the commands carry it along. *)
Definition carried (w : option Z) : option Z :=
  match w with Some w => if w =? -1 then None else Some w | None => None end.

Lemma carried_code d ka w :
  (if negb (default (-1) w =? -1) then setExpire d ka (default (-1) w) else mret tt) =
  match carried w with Some w => setExpire d ka w | None => mret tt end.
Proof. destruct w as [w|]; [|done]. cbn. by destruct (w =? -1). Qed.

Lemma sim_expire {A B} x s d key k (f : Z -> M A) (g : option Z -> AM B) Q : ok x s -> is_sds s key k -> db_exists s d ->
  (forall w, sim s (f (default (-1) w)) (g (carried w)) Q) ->
  sim s (getExpire d key ≫= f) (aexpire d k ≫= g) Q.
Proof.
  intros Hok Hk Hd K. destruct (db_at_exists s d Hd) as [db Hdb].
  eapply sim_read; [by eapply getExpire_at|]. eapply sim_right; [|apply (K (expires db !! k))].
  unfold aexpire, mbind, AM_bind. by rewrite (aget_db_at s d db).
Qed.

(** Storing a value over another, with its own expire time, is removing the
    key first. *)
Lemma aover {B} d k v when (K : unit -> AM B) t :
  (_ ← adelete d k; _ ← astore d k v;
   (match when with Some w => aset_expire d k (Some w) | None => mret tt end) ≫= K) t =
  (_ ← astore d k v; aset_expire d k when ≫= K) t.
Proof.
  unfold adelete, astore, aset_expire, aset_db, mbind, AM_bind, mret, AM_ret, aget_db.
  destruct (Z.ltb_spec d 0); [done|]. destruct (adbs t !! Z.to_nat d) as [db|] eqn:E; [|done].
  cbn [adbs aargs acur acf alg adict aexpires].
  assert (Hl : (Z.to_nat d < length (adbs t))%nat) by (by eapply lookup_lt_Some).
  rewrite !list_lookup_insert_eq by done. destruct when as [w|];
    cbn [adbs aargs acur acf alg adict aexpires];
    rewrite ?list_lookup_insert_eq by (by rewrite ?length_insert); cbn [adbs aargs acur acf alg adict aexpires];
    by rewrite !list_insert_insert_eq, ?insert_delete_eq.
Qed.

Lemma adelete_none x s d k v : ok x s -> found s d k None v -> adelete d k (abs s) = Ret (false, abs s).
Proof.
  intros Hok (db & Hdb & Hk & _). unfold adelete, mbind, AM_bind. rewrite (aget_db_at s d db) by done.
  assert (He : expires db !! k = None).
  { apply not_elem_of_dom. intros H. apply (db_at_ok x s d db Hok Hdb) in H. by apply not_elem_of_dom in Hk. }
  cbn [abs_db adict aexpires]. rewrite (delete_id (expires db) k) by done. rewrite <- abs_dict_delete, delete_id by done.
  change (mk_adb (abs_dict (heap s) (dict db)) (expires db)) with (abs_db (heap s) db).
  rewrite aset_db_put, put_same by done. unfold mret, AM_ret. do 3 f_equal. apply bool_decide_eq_false_2.
  rewrite (abs_dict_is_Some x s d db k) by done. rewrite Hk. by intros ?%is_Some_None.
Qed.

Lemma sim_incr {A B} x s a r (k : unit -> M A) (am : AM B) Q : ok x s -> heap s !! a = Some r ->
  (forall s', ok (fun b => x b + tok a b) s' -> kept s s' -> heap s' !! a = Some (with_refcount (refcount r + 1) r) ->
     dbs s' = dbs s -> sim s' (k tt) am Q) ->
  sim s (incrRefCount a ≫= k) am Q.
Proof.
  intros Hok Hr K. destruct (incr_spec x s a r Hok Hr) as (s' & E & Es & Hok' & Ha & Hk').
  eapply sim_left; [exact E|exact Ha|]. apply K; [done|done| |by subst s']. subst s'. cbn. apply lookup_insert_eq.
Qed.

Lemma tok_held x a : held x -> held (fun b => x b + tok a b).
Proof. intros H b. pose proof (H b). pose proof (tok_range a b). lia. Qed.

(** After its deletion the key is not there. *)
Lemma dbDelete_gone x s d key k : ok x s -> held x -> is_sds s key k -> db_exists s d ->
  sim s (dbDelete d key) (adelete d k) (fun s' _ _ => found s' d k None None /\ ok x s' /\ kept s s').
Proof.
  intros Hok Hx Hk Hd. pose proof (dbDelete_sim x s d key k Hok Hx Hk Hd) as H. unfold sim in *.
  destruct (dbDelete d key s) as [[b s']|f]; [|done]. destruct H as (b' & E & _ & Hok' & Hs').
  exists b'. split; [done|]. split; [|done]. destruct (db_at_exists s d Hd) as [db Hdb].
  destruct (db_at_exists s' d) as [db' Hdb']; [by apply (db_exists_kept s)|].
  exists db'. split; [done|]. split; [|done]. apply eq_None_not_Some. rewrite <- (abs_dict_is_Some x s' d db' k) by done.
  unfold adelete, mbind, AM_bind in E. rewrite (aget_db_at s d db) in E by done.
  unfold aset_db, mret, AM_ret in E. injection E as _ E _ _ _ _.
  apply (f_equal (fun l => l !! Z.to_nat d)) in E. rewrite list_lookup_insert_eq in E.
  - rewrite list_lookup_fmap, (proj2 Hdb') in E. injection E as E1 E2. rewrite <- E1, lookup_delete_eq.
    by intros ?%is_Some_None.
  - cbn. rewrite length_fmap. eapply lookup_lt_Some, Hdb.
Qed.

Lemma renameGeneric_sim nx s : client_ok s -> sim s (renameGenericCommand nx) (aRENAME nx) done_ok.
Proof.
  intros [Hok Hraw]. unfold renameGenericCommand, aRENAME. sim_key a1 k1 Hk1. sim_key a2 k2 Hk2.
  eapply sim_sds; [apply Hk1|]. eapply sim_sds; [apply Hk2|]. apply sim_cur.
  eapply sim_bind; [by apply (lookupKeyWriteOrReply_sim x0); auto with redis|].
  intros s1 o v (Hf & Hok1 & Hs1). pose proof Hf as (db1 & Hdb1 & Hdk & Hv).
  destruct o as [o|]; [destruct Hv as (r & Hr & Hor & ->)|subst v; by apply sim_ret].
  destruct (bool_decide (k1 = k2)) eqn:Ek; [by apply sim_last|].
  eapply sim_incr; [done|exact Hr|]. intros s2 Hok2 Hs2 Hr2 Hd2.
  assert (H02 : kept s s2) by (by etrans). pose proof (cur_exists x0 s Hok) as Hd.
  assert (Hd2' : db_exists s2 (curdb s)) by (by apply (db_exists_kept s)).
  eapply sim_expire; [exact Hok2|by apply (is_key_kept s)|done|]. intros w.
  eapply sim_bind.
  { eapply (pres_held (fun b => x0 b + tok o b) (curdb s) _ _ _ o); [apply pres_lookupKeyWrite|exact Hok2|rewrite tok_eq; lia|exact Hr2|].
    eapply sim_conseq; [apply lookupKeyWrite_sim; [exact Hok2|apply tok_held, held_x0|by apply (is_key_kept s s2)|done]|].
    intros s3 y z (A & B & C). exact (conj (conj A C) B). }
  intros s3 dst dv (((Hf3 & Hs3) & Hok3) & r3 & Hr3 & Hsame).
  rewrite (found_some _ _ _ _ _ Hf3). assert (H03 : kept s s3) by (by etrans).
  destruct (bool_decide (is_Some dv) && nx) eqn:Enx.
  - destruct (decr_held _ s3 o r3 Hok3 Hr3) as (s4 & E4 & Hok4 & Ha4 & _); [rewrite tok_eq; lia|].
    eapply sim_left; [exact E4|exact Ha4|]. apply sim_last. eapply ok_ext; [|exact Hok4]. intros b. cbn. lia.
  - rewrite carried_code. eapply sim_spec; [apply aover|].
    eapply (sim_bind _ _ _ _ _ (fun s' _ _ => found s' (curdb s) k2 None None /\ ok (fun b => x0 b + tok o b) s' /\
      kept s3 s' /\ exists r', heap s' !! o = Some r' /\ same_obj r3 r')).
    { destruct dst as [dst|].
      - eapply sim_conseq;
          [eapply (pres_held (fun b => x0 b + tok o b) (curdb s) _ _ _ o); [apply pres_dbDelete|exact Hok3|rewrite tok_eq; lia|exact Hr3|]|].
        + eapply sim_conseq; [apply dbDelete_gone; [exact Hok3|apply tok_held, held_x0|by apply (is_key_kept s)|
            by apply (db_exists_kept s)]|]. intros s4 y z (A & B & C). exact (conj (conj A C) B).
        + intros s4 b b' (((? & ?) & ?) & r4 & ? & ?). eauto 6.
      - unfold sim. exists false. rewrite (adelete_none _ _ _ _ _ Hok3 Hf3). split; [done|].
        destruct Hf3 as (db3 & ? & ? & ->). split; [by exists db3|]. split; [done|]. split; [done|by exists r3]. }
    intros s4 b4 b4' (Hf4 & Hok4 & Hs4 & r4 & Hr4 & Hsame4). assert (H04 : kept s s4) by (by etrans).
    assert (Ev : view r = view r4).
    { rewrite (view_same _ _ Hsame4), (view_same _ _ Hsame). done. }
    rewrite Ev. eapply sim_bind; [eapply dbAdd_sim; [exact Hok4|by apply (is_key_kept s)|exact Hf4|exact Hr4]|].
    intros s5 [] [] (Hok5 & (Hs5 & db5 & r5 & Hdb5 & Hdk5 & _) & _).
    assert (Hok5' : ok x0 s5) by (eapply ok_ext; [|exact Hok5]; intros b; cbn; lia).
    assert (H05 : kept s s5) by (by etrans).
    eapply (sim_bind _ _ _ _ _ (fun s' _ _ => ok x0 s' /\ kept s5 s')).
    { destruct (carried w) as [w'|]; [|by apply sim_ret].
      eapply sim_conseq; [eapply (setExpire_sim x0); [done|by apply (is_key_kept s)|exact Hdb5|exact Hdk5]|].
      intros s6 [] [] (? & ? & _). done. }
    intros s6 [] [] (Hok6 & Hs6). assert (H06 : kept s s6) by (by etrans).
    eapply sim_bind.
    { apply (dbDelete_sim x0); auto with redis; [by apply (is_key_kept s)|by apply (db_exists_kept s)]. }
    intros s7 b b' (_ & Hok7 & Hs7). assert (H07 : kept s s7) by (by etrans).
    eapply sim_sds; [by apply (is_key_kept s)|]. eapply sim_sds; [by apply (is_key_kept s)|].
    do 5 (apply (sim_log_then x0); [done|]; clear Hok7; intros ? (Hok7 & _)).
    by apply sim_last.
Qed.

Lemma alookupWrite_other d k t v t' i : alookupWrite d k t = Ret (v, t') -> i <> Z.to_nat d ->
  adbs t' !! i = adbs t !! i.
Proof.
  intros E Hi. unfold alookupWrite, aexpireIfNeeded, alookup, adelete, aset_db, arecord, aget, aget_db, mbind, AM_bind,
    mret, AM_ret in E. destruct (d <? 0); [done|]. destruct (adbs t !! Z.to_nat d) as [db|] eqn:Ed; [|done].
  destruct (expired_at _ _); [destruct (masterhost _)|]; cbn in E; repeat (rewrite Ed in E; cbn in E);
    try (by injection E as _ <-).
  destruct (<[_ := _]> (adbs t) !! Z.to_nat d); [|done]. injection E as _ <-. cbn. by apply list_lookup_insert_ne.
Qed.

(** A lookup in one database does not disturb what was found in another. *)
Lemma lookupKeyWrite_other s src dst ka k k' o v : ok x0 s -> is_key s ka k -> db_exists s dst ->
  found s src k' o v -> src <> dst -> 0 <= src ->
  sim s (lookupKeyWrite dst ka) (alookupWrite dst k)
    (fun s' o' v' => found s' dst k o' v' /\ ok x0 s' /\ kept s s' /\ found s' src k' o v).
Proof.
  intros Hok Hk Hd (db & Hdb & Hdk & Hv) Hne Hs. pose proof (lookupKeyWrite_sim x0 s dst ka k Hok held_x0 Hk Hd) as H.
  assert (Hi : Z.to_nat src <> Z.to_nat dst) by (unfold db_exists in Hd; lia).
  unfold sim in *. destruct (lookupKeyWrite dst ka s) as [[o' s']|f] eqn:E; [|done].
  destruct H as (v' & Ea & Hf & Hok' & Hkept). exists v'. do 4 (split; [done|]). clear Hf.
  assert (Hdb' : db_at s' src db).
  { split; [done|]. rewrite (leaves_dbs _ _ _ (pres_lookupKeyWrite _ _ _ _ _ E)) by done. apply Hdb. }
  exists db. split; [done|]. split; [done|]. destruct o as [a|]; [|done]. destruct Hv as (r & Hr & _ & ->).
  pose proof (alookupWrite_other _ _ _ _ _ _ Ea Hi) as Eo. cbn in Eo.
  rewrite !list_lookup_fmap, (proj2 Hdb), (proj2 Hdb') in Eo. injection Eo as Eo.
  apply (f_equal (fun m => m !! k')) in Eo. rewrite (abs_dict_lookup x0 s' src db), (abs_dict_lookup x0 s src db) in Eo by done.
  rewrite Hdk, Hr in Eo. destruct (heap s' !! a) as [r'|] eqn:Hr'; [|done]. exists r'.
  split; [done|]. split; [by eapply ok_obj|]. symmetry. exact Eo.
Qed.

Lemma selectDb_bad s d : ~ db_exists s d -> selectDb d s = Ret (false, s).
Proof.
  intros H. unfold selectDb, mbind, M_bind, get, mret, M_ret.
  assert (E : (d <? 0) || (Z.of_nat (length (dbs s)) <=? d) = true) by (unfold db_exists in H; lia). by rewrite E.
Qed.

Lemma selectDb_at s d : db_exists s d -> selectDb d s = Ret (true, with_curdb d s).
Proof.
  intros H. unfold selectDb, mbind, M_bind, get, mret, M_ret.
  assert (E : (d <? 0) || (Z.of_nat (length (dbs s)) <=? d) = false) by (unfold db_exists in H; lia). by rewrite E.
Qed.

(** Select the target to get at it, and go back. *)
Lemma select_back {A} s d (bad : M A) (k : Z -> M A) : ok x0 s -> db_exists s d ->
  (ok ← selectDb d; if negb ok then bad else dst ← cur_db; _ ← selectDb (curdb s); k dst) s = k d s.
Proof.
  intros Hok Hd. unfold mbind at 1, M_bind at 1. rewrite selectDb_at by done. cbn [negb].
  unfold mbind at 1, M_bind at 1, cur_db, get. cbn [curdb with_curdb].
  unfold mbind, M_bind. rewrite selectDb_at by exact (cur_exists x0 s Hok). by destruct s.
Qed.

Lemma sim_code {A B} s (m m' : M A) (am : AM B) Q : m s = m' s -> sim s m' am Q -> sim s m am Q.
Proof. unfold sim. by intros ->. Qed.

(** The value goes from [src] to [dst] with its expire time. *)
Lemma move_value_sim s src dst ka k o v w : ok x0 s -> is_key s ka k -> db_exists s src -> db_exists s dst ->
  found s src k (Some o) (Some v) -> found s dst k None None ->
  sim s (_ ← dbAdd dst ka o;
         _ ← (if negb (default (-1) w =? -1) then setExpire dst ka (default (-1) w) else mret tt);
         _ ← incrRefCount o;
         _ ← dbDelete src ka;
         _ ← record (add_dirty 1);
         addReplyString shared_cone)
    (_ ← astore dst k v; _ ← aset_expire dst k (carried w); _ ← adelete src k;
     _ ← arecord (add_dirty 1); areply shared_cone) done_ok.
Proof.
  intros Hok Hk Hsrc Hdst (db & _ & _ & r & Hr & _ & [= ->]) Hf.
  rewrite carried_code. eapply sim_spec; [apply aover|].
  eapply sim_right; [by eapply adelete_none|].
  eapply sim_bind; [eapply dbAdd_sim; [exact Hok|apply Hk|exact Hf|exact Hr]|].
  intros s1 [] [] (Hok1 & (Hs1 & db1 & r1 & Hdb1 & Hdk1 & _) & Hh1).
  eapply (sim_bind _ _ _ _ _ (fun s' _ _ => ok (fun b => x0 b - tok o b) s' /\ kept s1 s' /\ heap s' = heap s)).
  { destruct (carried w) as [w'|]; [|by apply sim_ret].
    eapply sim_conseq; [eapply setExpire_sim; [exact Hok1|by apply (is_key_kept s)|exact Hdb1|exact Hdk1]|].
    intros s2 [] [] (? & ? & ? & _). split; [done|]. split; [done|congruence]. }
  intros s2 [] [] (Hok2 & Hs2 & Hh2). eapply sim_incr; [exact Hok2|by rewrite Hh2|]. intros s3 Hok3 Hs3 _ _.
  assert (H03 : kept s s3) by (etrans; [exact Hs1|]; by etrans).
  assert (Hok3' : ok x0 s3) by (eapply ok_ext; [|exact Hok3]; intros b; cbn; lia).
  eapply sim_bind.
  { apply (dbDelete_sim x0); auto with redis; [by apply (is_key_kept s)|by apply (db_exists_kept s)]. }
  intros s4 b b' (_ & Hok4 & _). apply (sim_log_then x0); [done|]. intros s5 (Hok5 & _). by apply sim_last.
Qed.

Lemma moveCommand_sim s : client_ok s -> sim s moveCommand aMOVE done_ok.
Proof.
  intros [Hok Hraw]. unfold moveCommand, aMOVE. apply sim_cur. sim_key a2 k2 Hk2.
  destruct (is_sds_str x0 s a2 k2 Hok) as (r2 & Hr2 & Es2); [apply Hk2|].
  eapply sim_read; [by apply getLongLong_at; apply Hr2|]. rewrite Es2.
  eapply sim_right; [done|]. cbn [adbs abs]. rewrite length_fmap.
  destruct (string2ll k2) as [dst|]; [|by apply sim_last].
  unfold INT_MIN, INT_MAX, INT32_MIN, INT32_MAX.
  destruct ((dst <? 0) || (2147483647 <? dst) || (Z.of_nat (length (dbs s)) <=? dst)) eqn:Ebad.
  { eapply (sim_read _ _ false); [|by apply sim_last]. destruct ((dst <? -2147483648) || (2147483647 <? dst)) eqn:E1; [done|].
    apply selectDb_bad. unfold db_exists. lia. }
  assert (E1 : (dst <? -2147483648) || (2147483647 <? dst) = false) by lia. rewrite E1.
  assert (Hdst : db_exists s dst) by (unfold db_exists; lia). pose proof (cur_exists x0 s Hok) as Hsrc.
  eapply sim_code; [by apply select_back|]. cbv beta. destruct (Z.eqb_spec (curdb s) dst) as [|Hne]; [by apply sim_last|].
  sim_key a1 k1 Hk1.
  eapply sim_bind; [by apply (lookupKeyWrite_sim x0); auto with redis|]. intros s1 o v (Hf & Hok1 & Hs1).
  pose proof Hf as (db1 & Hdb1 & _ & Hv). destruct o as [o|]; [destruct Hv as (r & _ & _ & ->)|subst v; by apply sim_last].
  eapply sim_expire; [exact Hok1|by apply (is_key_kept s)|by apply (db_exists_kept s)|]. intros w.
  eapply sim_bind.
  { apply lookupKeyWrite_other; [done|by apply (is_key_kept s)|by apply (db_exists_kept s)|exact Hf|done|apply Hdb1]. }
  intros s2 there v' (Hf2 & Hok2 & Hs2 & Hfs2). pose proof Hf2 as (_ & _ & _ & Hv').
  destruct there as [a|]; [destruct Hv' as (? & _ & _ & ->); by apply sim_last|]. subst v'.
  assert (H02 : kept s s2) by (by etrans).
  eapply move_value_sim; [done|by apply (is_key_kept s)|by apply (db_exists_kept s)|by apply (db_exists_kept s)|done|done].
Qed.

(** ** SELECT *)

Lemma select_sim s d : ok x0 s ->
  sim s (selectDb d) (aselect d) (fun s' b b' => b' = b /\ ok x0 s').
Proof.
  intros Hok. unfold sim. destruct (decide (db_exists s d)) as [H|H].
  - rewrite selectDb_at by done. exists true. unfold aselect. cbn [adbs abs]. rewrite length_fmap.
    assert (E : (0 <=? d) && (d <? Z.of_nat (length (dbs s))) = true) by (unfold db_exists in H; lia).
    rewrite E. split; [done|]. split; [done|]. destruct Hok. by constructor.
  - rewrite selectDb_bad by done. exists false. unfold aselect. cbn [adbs abs]. rewrite length_fmap.
    assert (E : (0 <=? d) && (d <? Z.of_nat (length (dbs s))) = false) by (unfold db_exists in H; lia). by rewrite E.
Qed.

Lemma selectCommand_sim s : client_ok s -> sim s selectCommand aSELECT done_ok.
Proof.
  intros [Hok Hraw]. unfold selectCommand, aSELECT. sim_key a1 k1 Hk1.
  destruct (is_sds_str x0 s a1 k1 Hok) as (r1 & Hr1 & <-); [apply Hk1|].
  eapply sim_bind; [by apply (getLongOrReply_sim x0)|]. intros s1 id id' (-> & _ & Hok1 & _).
  destruct id as [id|]; [|by apply sim_ret].
  eapply sim_bind; [by apply select_sim|]. intros s2 b b' (-> & Hok2).
  destruct b; cbn [negb]; [by apply sim_last|by apply sim_logged, (addReplyError_sim x0)].
Qed.

(** ** EXPIRE *)

Lemma retain_spec v x s : ok x s -> (forall a, a ∈ v -> is_Some (heap s !! a)) ->
  exists s', retain_all v s = Ret (tt, s') /\ ok (fun a => x a + argv_refs v a) s' /\ abs s' = abs s /\
    kept s s' /\ forall a o, heap s !! a = Some o -> exists o', heap s' !! a = Some o' /\ same_obj o o'.
Proof.
  revert x s. induction v as [|a v IH]; intros x s Hok Hv.
  - exists s. split; [done|]. split; [eapply ok_ext; [|exact Hok]; intros b; cbn; lia|]. do 2 (split; [done|]). intros a o Ho. by exists o.
  - destruct (Hv a) as [o Ho]; [by left|].
    destruct (incr_spec x s a o Hok Ho) as (s1 & E1 & Es1 & Hok1 & Ha1 & Hk1).
    assert (Hsame : forall b ob, heap s !! b = Some ob -> exists ob', heap s1 !! b = Some ob' /\ same_obj ob ob').
    { intros b ob Hb. subst s1. cbn. destruct (decide (b = a)) as [->|Hn].
      - rewrite lookup_insert_eq. eexists. split; [done|]. simplify_eq. done.
      - rewrite lookup_insert_ne by done. by exists ob. }
    destruct (IH _ s1 Hok1) as (s2 & E2 & Hok2 & Ha2 & Hk2 & Hs2).
    { intros b Hb. destruct (Hv b) as [ob Hob]; [by right|]. destruct (Hsame _ _ Hob) as (? & ? & _). by eexists. }
    exists s2. cbn [retain_all]. unfold mbind, M_bind. rewrite E1, E2. split; [done|].
    split; [eapply ok_ext; [|exact Hok2]; intros b; cbn; lia|]. split; [congruence|]. split; [by etrans|].
    intros b ob Hb. destruct (Hsame _ _ Hb) as (o1 & Ho1 & ?). destruct (Hs2 _ _ Ho1) as (o2 & ? & ?).
    exists o2. split; [done|by etrans].
Qed.

Lemma ok_with_cf x s c : ok x s -> ok x (with_cf c s).
Proof. intros []. by constructor. Qed.

(** The arguments are replaced by [v], which the specification sees by
    their characters. *)
Lemma rewrite_spec x s v name ro : ok x s -> held x ->
  (forall a, a ∈ v -> exists o, heap s !! a = Some o /\ type o = OBJ_STRING) ->
  exists s', rewriteClientCommandVector v name ro s = Ret (tt, s') /\ ok x s' /\ argv s' = v /\
    abs s' = mk_astate (adbs (abs s)) (abs_arg (heap s) <$> v) (curdb s) (with_cmd name ro (cf s)) (lg s) /\
    forall a o, a ∈ v -> heap s !! a = Some o -> exists o', heap s' !! a = Some o' /\ same_obj o o'.
Proof.
  intros Hok Hx Hv. unfold rewriteClientCommandVector.
  destruct (retain_spec v x s Hok) as (s1 & E1 & Hok1 & Ha1 & Hk1 & Hs1).
  { intros a Ha. destruct (Hv a Ha) as (o & ? & _). by eexists. }
  assert (Hv1 : forall a, a ∈ v -> exists o, heap s1 !! a = Some o /\ type o = OBJ_STRING).
  { intros a Ha. destruct (Hv a Ha) as (o & Ho & Ht). destruct (Hs1 a o Ho) as (o' & ? & E & _). exists o'.
    split; [done|congruence]. }
  pose proof (with_argv_ok _ s1 v Hok1 Hv1) as Hokv.
  destruct (release_spec (argv s1) x (with_argv v s1) Hx) as (s2 & E2 & Hok2 & Ha2 & Hk2 & _).
  { eapply ok_ext; [|exact Hokv]. intros a. cbn. lia. }
  rewrite (noargs_release (argv s1) v s1) in E2.
  destruct (release_all (argv s1) s1) as [[[] s3]|f] eqn:E3; [|done]. cbn in E2. injection E2 as <-.
  exists (with_cf (with_cmd name ro (cf s3)) (with_argv v s3)).
  unfold mbind, M_bind, get. rewrite E1. unfold mbind, M_bind in E3. rewrite E3.
  split; [done|]. split; [by apply ok_with_cf|]. split; [done|].
  pose proof Hk2 as (_ & Hc & Hcf & _ & Hobj). pose proof Hk1 as (_ & Hc1 & Hcf1 & _). cbn in Hc, Hcf.
  split.
  - unfold abs in Ha2 |- *. cbn in Ha2 |- *. injection Ha2 as Hdb Harg _ _ Hlg.
    unfold abs in Ha1. injection Ha1 as Hdb1 _ _ _ Hlg1. rewrite Hdb, Harg, Hcf, Hc, Hlg, Hdb1, Hcf1, Hc1, Hlg1.
    f_equal. apply list_fmap_ext. intros i a Hi. unfold abs_arg. apply list_elem_of_lookup_2 in Hi.
    destruct (Hv a Hi) as (o & Ho & _). destruct (Hs1 a o Ho) as (o' & Ho' & Hsame).
    rewrite Ho, Ho'. cbn. by rewrite (view_same _ _ Hsame).
  - intros a o Ha Ho. destruct (Hs1 a o Ho) as (o1 & Ho1 & ?).
    destruct (Hobj a o1) as (o2 & ? & ?); [done|done|]. exists o2. split; [done|by etrans].
Qed.

(** A key that was found is deleted. *)
Lemma dbDelete_found x s d key k o v : ok x s -> held x -> is_sds s key k -> db_exists s d -> found s d k (Some o) v ->
  sim s (dbDelete d key) (adelete d k) (fun s' b _ => b = true /\ ok x s' /\ kept s s').
Proof.
  intros Hok Hx Hk Hd Hf. pose proof (dbDelete_sim x s d key k Hok Hx Hk Hd) as H. unfold sim in *.
  destruct (dbDelete d key s) as [[b s']|f]; [|done]. destruct H as (b' & E & -> & Hok' & Hs').
  exists b. split; [done|]. split; [|done]. destruct Hf as (db & Hdb & Hdk & _).
  unfold adelete, mbind, AM_bind in E. rewrite (aget_db_at s d db) in E by done.
  unfold aset_db, mret, AM_ret in E. injection E as <- _ _ _ _ _. apply bool_decide_eq_true_2.
  cbn. rewrite (abs_dict_is_Some x s d db k) by done. by rewrite Hdk.
Qed.

Lemma sim_both {A B C D} s s' (m : M A) (am : AM B) a b (k : A -> M C) (ak : B -> AM D) Q :
  m s = Ret (a, s') -> am (abs s) = Ret (b, abs s') -> sim s' (k a) (ak b) Q -> sim s (m ≫= k) (am ≫= ak) Q.
Proof. intros E Ea H. eapply sim_bind; [|intros ? ? ? Hx; exact Hx]. unfold sim. rewrite E. eauto. Qed.

Lemma sim_unassoc_r {A B C D} s (m : M D) (am : AM A) (f : A -> AM B) (g : B -> AM C) Q :
  sim s m ((am ≫= f) ≫= g) Q -> sim s m (am ≫= (fun a => f a ≫= g)) Q.
Proof. apply sim_spec. intros t. apply AM_assoc. Qed.

(** The tail of EXPIRE that deletes. *)
Lemma expire_past_sim s d ka k o v : ok x0 s -> is_key s ka k -> db_exists s d -> found s d k (Some o) v ->
  sim s (b ← dbDelete d ka;
         _ ← serverAssert b;
         _ ← record (add_dirty 1);
         aux ← createStringObject (bytes_of_string "DEL");
         _ ← rewriteClientCommandVector [aux; ka] (bytes_of_string "del") false;
         _ ← decrRefCount aux;
         k ← sds_of ka;
         _ ← signalModifiedKey d k;
         _ ← notifyKeyspaceEvent NOTIFY_GENERIC (bytes_of_string "del") k d;
         addReplyString shared_cone)
    (_ ← adelete d k;
     _ ← arecord (add_dirty 1);
     _ ← aset_args [bytes_of_string "DEL"; k];
     _ ← aset_cmd (bytes_of_string "del") false;
     _ ← arecord (add_touched d k);
     _ ← anotify NOTIFY_GENERIC (bytes_of_string "del") k d;
     areply shared_cone) done_ok.
Proof.
  intros Hok Hk Hd Hf.
  eapply sim_bind; [by eapply (dbDelete_found x0); [|auto with redis|apply Hk| |]|]. intros s1 b b' (-> & Hok1 & Hs1).
  apply sim_assert; [done|]. apply (sim_log_then x0); [done|]. intros s2 (Hok2 & Hs2 & _).
  set (del := bytes_of_string "DEL").
  destruct (createStringObject_spec x0 s2 del Hok2)
    as (s3 & r & E3 & Ht & _ & He & Hp & Hor & Hok3 & Ha3 & Hs3 & _ & Hh3 & _); [done|].
  eapply sim_left; [exact E3|exact Ha3|]. set (aux := brk s2) in *.
  assert (Haux : is_sds s3 aux del) by (exists r; rewrite Hh3, lookup_insert_eq; done).
  assert (H03 : kept s s3) by (etrans; [exact Hs1|]; by etrans).
  assert (Hk3 : is_key s3 ka k) by (by apply (is_key_kept s)).
  destruct (rewrite_spec _ s3 [aux; ka] (bytes_of_string "del") false Hok3) as (s4 & E4 & Hok4 & Hv4 & Ha4 & Hobj4).
  { apply tok_held, held_x0. }
  { intros a Ha. destruct Haux as (? & ? & ? & _), Hk3 as [_ (? & ? & ? & _)].
    apply elem_of_cons in Ha as [->|Ha]; [by eexists|]. apply list_elem_of_singleton in Ha as ->. by eexists. }
  assert (Hk4 : is_key s4 ka k).
  { split; [rewrite Hv4; by right; left|]. destruct Hk3 as [_ (rk & Hrk & Htk & Hek & Hpk)].
    destruct (Hobj4 ka rk) as (rk4 & Hrk4 & S1 & S2 & S3); [by right; left|done|].
    exists rk4. unfold sdsEncodedObject in *. rewrite S1, S2, S3. done. }
  assert (Eargs : abs_arg (heap s3) <$> [aux; ka] = [del; k]).
  { destruct (is_sds_str _ _ _ _ Hok3 Haux) as (r1 & (? & ? & ?) & <-).
    destruct (is_sds_str _ _ _ _ Hok3 (proj2 Hk3)) as (r2 & (? & ? & ?) & <-).
    cbn. by rewrite (abs_arg_str _ _ r1), (abs_arg_str _ _ r2). }
  rewrite Eargs in Ha4. apply sim_unassoc_r. eapply sim_both; [exact E4|by rewrite Ha4|].
  destruct (ok_live _ _ Hok4 aux) as [ra Hra]; [right; rewrite tok_eq; lia|].
  destruct (decr_held _ s4 aux ra Hok4 Hra) as (s5 & E5 & Hok5 & Ha5 & Hs5 & _); [rewrite tok_eq; lia|].
  eapply sim_left; [exact E5|exact Ha5|]. eapply sim_sds; [by apply (is_key_kept s4)|].
  assert (Hok5' : ok x0 s5) by (eapply ok_ext; [|exact Hok5]; intros b; cbn; lia).
  apply (sim_log_then x0); [done|]. intros s6 (Hok6 & _).
  apply (sim_log_then x0); [done|]. intros s7 (Hok7 & _). by apply sim_last.
Qed.

Lemma expireGeneric_sim relative tu s : client_ok s ->
  sim s (expireGenericCommand (if relative : bool then mstime (cf s) else 0) tu) (aEXPIRE relative tu) done_ok.
Proof.
  intros [Hok Hraw]. unfold expireGenericCommand, aEXPIRE. eapply sim_right; [done|]. cbn [acf abs].
  sim_key ka k Hk. sim_key kp p Hp. destruct (is_sds_str x0 s kp p Hok) as (rp & Hrp & <-); [apply Hp|].
  eapply sim_bind; [by apply (getLongLongOrReply_sim x0)|]. intros s1 w w' (-> & Hw & Hok1 & Hs1 & _).
  destruct w as [w|]; [|by apply sim_ret].
  eapply (sim_bind _ _ _ _ _ (fun s' y y' => s' = s1 /\ y' = y)).
  { destruct tu; [|by apply sim_ret]. eapply sim_conseq; [by apply (ll_of_sim x0)|]. intros ? ? ? (-> & -> & _). done. }
  intros s2 y y' (-> & ->). eapply sim_bind; [by apply (ll_of_sim x0)|]. intros s2 when when' (-> & -> & _).
  apply sim_cur. pose proof (cur_exists x0 s1 Hok1) as Hd. assert (Hk1 : is_key s1 ka k) by (by apply (is_key_kept s)).
  eapply sim_bind; [by apply (lookupKeyWrite_sim x0); auto with redis|]. intros s2 o v (Hf & Hok2 & Hs2).
  pose proof Hf as (db & Hdb & Hdk & Hv). destruct o as [o|]; [destruct Hv as (r & _ & _ & ->)|subst v; by apply sim_last].
  assert (Hk2 : is_key s2 ka k) by (by apply (is_key_kept s1)). apply sim_cf.
  destruct (_ && _ && _).
  - eapply expire_past_sim; [done|done|by apply (db_exists_kept s1)|exact Hf].
  - eapply sim_bind; [eapply (setExpire_sim x0); [done|apply Hk2|exact Hdb|exact Hdk]|].
    intros s3 [] [] (Hok3 & Hs3 & _). apply (sim_log_then x0); [done|]. intros s4 (Hok4 & Hs4 & _).
    eapply sim_sds; [apply (is_key_kept s2); [by etrans|done]|].
    apply (sim_log_then x0); [done|]. intros s5 (Hok5 & _).
    apply (sim_log_then x0); [done|]. intros s6 (Hok6 & _). by apply sim_last.
Qed.

(** ** TTL and PERSIST *)

Lemma ttl_in ttl : in_s 64 ttl -> in_s 64 (Z.max 0 ttl).
Proof. unfold in_s. change (64 - 1) with 63. lia. Qed.

Lemma ttlGeneric_sim ms s : client_ok s -> sim s (ttlGenericCommand ms) (aTTL ms) done_ok.
Proof.
  intros [Hok Hraw]. unfold ttlGenericCommand, aTTL. apply sim_cur. sim_key ka k Hk.
  eapply sim_bind; [apply (lookupKeyReadWithFlags_sim x0); auto with redis; by apply (cur_exists x0)|].
  intros s1 o v (Hf & Hok1 & Hs1).
  assert (Hneg : forall n, in_s 64 n -> sim s1 (addReplyLongLong n) (aReplyLongLong n) done_ok).
  { intros n Hn. by apply sim_logged, (addReplyLongLong_sim x0). }
  destruct v as [v|]; [|subst o; by apply Hneg].
  destruct o as [a|]; [|by destruct Hf as (db & _ & _ & ?)].
  eapply sim_expire; [exact Hok1|by apply (is_key_kept s)|apply (db_exists_kept s); [done|by apply (cur_exists x0)]|].
  intros w. eapply sim_read; [done|]. destruct (carried w) as [e|] eqn:Ew.
  - assert (Ee : default (-1) w = e /\ e <> -1).
    { destruct w as [w|]; [|done]. cbn in Ew |- *. destruct (Z.eqb_spec w (-1)); [done|]. by injection Ew as <-. }
    destruct Ee as [-> Hne]. destruct (Z.eqb_spec e (-1)); [done|]. cbn [negb]. apply sim_assoc_l.
    eapply sim_right; [done|]. cbn [acf abs]. eapply sim_bind; [by apply (ll_of_sim x0)|].
    intros s2 ttl ttl' (-> & -> & -> & Hin). eapply sim_read; [done|]. set (t := e - mstime (cf s1)) in *.
    replace (if t <? 0 then 0 else t) with (Z.max 0 t) by (destruct (Z.ltb_spec t 0); lia).
    destruct (Z.eqb_spec (Z.max 0 t) (-1)); [lia|]. destruct ms; [by apply Hneg, ttl_in|].
    eapply sim_bind; [by apply (ll_of_sim x0)|]. intros s3 u u' (-> & -> & -> & Hu).
    rewrite Z.quot_div_nonneg by lia. apply Hneg. unfold in_s in *. change (64 - 1) with 63 in *.
    split; [|apply Z.div_lt_upper_bound; lia]. apply Z.le_trans with 0; [lia|]. apply Z.div_pos; lia.
  - assert (Ee : default (-1) w = -1).
    { destruct w as [w|]; [|done]. cbn in Ew |- *. by destruct (Z.eqb_spec w (-1)). }
    rewrite Ee. eapply sim_read; [done|]. by apply Hneg.
Qed.

Lemma sim_unright {A B D} s (m : M A) (am : AM D) (b : D) (ak : D -> AM B) Q :
  am (abs s) = Ret (b, abs s) -> sim s m (am ≫= ak) Q -> sim s m (ak b) Q.
Proof. intros E. unfold sim, mbind, AM_bind. rewrite E. done. Qed.

Lemma persistCommand_sim s : client_ok s -> sim s persistCommand aPERSIST done_ok.
Proof.
  intros [Hok Hraw]. unfold persistCommand, aPERSIST. apply sim_cur. sim_key ka k Hk.
  destruct (db_at_exists s (curdb s)) as [db Hdb]; [by apply (cur_exists x0)|].
  eapply sim_sds; [apply Hk|]. unfold dict_find. apply sim_assoc_l. eapply sim_read; [by apply get_db_at|].
  eapply sim_read; [done|]. eapply sim_right; [by apply aget_db_at|]. cbn [abs_db adict aexpires].
  rewrite (bool_decide_ext _ _ (abs_dict_is_Some x0 s (curdb s) db k Hok Hdb)).
  destruct (dict db !! k) as [a|] eqn:Edk; [|by apply sim_last]. rewrite bool_decide_true by done. cbn [andb].
  pose proof (removeExpire_sim x0 s (curdb s) ka k db a Hok (proj2 Hk) Hdb Edk) as Hre.
  destruct (bool_decide (is_Some (expires db !! k))) eqn:Ee.
  - eapply sim_bind; [exact Hre|]. intros s1 b [] (-> & Hok1 & _).
    apply (sim_log_then x0); [done|]. intros s2 (Hok2 & _). by apply sim_last.
  - apply bool_decide_eq_false in Ee. apply (sim_unright _ _ (aset_expire (curdb s) k None) tt (fun _ => areply shared_czero)).
    + rewrite (aset_expire_put s (curdb s) db) by done. rewrite delete_id by (by apply eq_None_not_Some).
      by rewrite put_same by (by destruct db).
    + eapply sim_bind; [exact Hre|]. intros s1 b [] (-> & Hok1 & _). by apply sim_last.
Qed.
