(* ===== verification/Server.v ===== *)
(** * Server: the command table and the execution of a request (server.c)

    [processCommand] finds the command of a request, checks that it may
    run, and calls it; [call] gives a command that changed the data to the
    slaves and the AOF; [resetClient] releases the arguments. *)

From S2P Require Import Prelude Util Object Db TString Keyspace.

(** ** PING and ECHO *)

(** The string up to its first NUL, as [%s] and strcasecmp() see it. *)
Fixpoint cstr (s : list Z) : list Z :=
  match s with
  | [] => []
  | c :: s => if c =? 0 then [] else c :: cstr s
  end.

(** addReplyErrorFormat, with the message already formatted. *)
Definition no_newlines (s : list Z) : list Z :=
  map (fun c => if (c =? 13) || (c =? 10) then 32 else c) s.
Definition addReplyErrorFormat (msg : list Z) : M unit := addReplyError (no_newlines msg).

Definition wrong_arity (name : list Z) : list Z :=
  bytes_of_string "wrong number of arguments for '" ++ name ++ bytes_of_string "' command".

Definition pingCommand : M unit :=
  n ← argc;
  c ← get cf;
  if 2 <? n then addReplyErrorFormat (wrong_arity (cmd_name c))
  else if pubsub_client (gt c) then
    _ ← addReplyMultiBulkLen 2;
    _ ← addReplyBulkCBuffer (bytes_of_string "pong");
    if n =? 1 then addReplyBulkCBuffer []
    else a ← arg 1; addReplyBulk a
  else if n =? 1 then addReplyString (crlf "+PONG")
  else a ← arg 1; addReplyBulk a.

Definition echoCommand : M unit := a ← arg 1; addReplyBulk a.

(** ** The command table *)

(** The fields that the code below uses. *)
Record redisCommand : Type := mk_command {
  name : list Z;
  proc : M unit;
  arity : Z;
  sflags : list Z
}.

(** A flag of the command, by its letter (populateCommandTable). *)
Definition cmd_flag (f : Z) (c : redisCommand) : bool := existsb (Z.eqb f) (sflags c).
Definition CMD_WRITE : redisCommand -> bool := cmd_flag 119.
Definition CMD_READONLY : redisCommand -> bool := cmd_flag 114.
Definition CMD_LOADING : redisCommand -> bool := cmd_flag 108.
Definition CMD_STALE : redisCommand -> bool := cmd_flag 116.

Definition entry (n : String.string) (p : M unit) (a : Z) (f : String.string) : redisCommand :=
  mk_command (bytes_of_string n) p a (bytes_of_string f).
Arguments entry _%_string_scope _ _ _%_string_scope.

(** The entries of redisCommandTable for the commands that are modelled. *)
Definition redisCommandTable : list redisCommand := [
  entry "get" getCommand 2 "rF";
  entry "set" setCommand (-3) "wm";
  entry "setnx" setnxCommand 3 "wmF";
  entry "setex" setexCommand 4 "wm";
  entry "psetex" psetexCommand 4 "wm";
  entry "append" appendCommand 3 "wm";
  entry "strlen" strlenCommand 2 "rF";
  entry "del" delCommand (-2) "w";
  entry "exists" existsCommand (-2) "rF";
  entry "setrange" setrangeCommand 4 "wm";
  entry "getrange" getrangeCommand 4 "r";
  entry "substr" getrangeCommand 4 "r";
  entry "incr" incrCommand 2 "wmF";
  entry "decr" decrCommand 2 "wmF";
  entry "mget" mgetCommand (-2) "r";
  entry "incrby" incrbyCommand 3 "wmF";
  entry "decrby" decrbyCommand 3 "wmF";
  entry "getset" getsetCommand 3 "wm";
  entry "mset" msetCommand (-3) "wm";
  entry "msetnx" msetnxCommand (-3) "wm";
  entry "select" selectCommand 2 "lF";
  entry "move" moveCommand 3 "wF";
  entry "rename" renameCommand 3 "w";
  entry "renamenx" renamenxCommand 3 "wF";
  entry "expire" expireCommand 3 "wF";
  entry "expireat" expireatCommand 3 "wF";
  entry "pexpire" pexpireCommand 3 "wF";
  entry "pexpireat" pexpireatCommand 3 "wF";
  entry "dbsize" dbsizeCommand 1 "rF";
  entry "ping" pingCommand (-1) "tF";
  entry "echo" echoCommand 2 "F";
  entry "type" typeCommand 2 "rF";
  entry "flushdb" flushdbCommand 1 "w";
  entry "flushall" flushallCommand 1 "w";
  entry "ttl" ttlCommand 2 "rF";
  entry "touch" touchCommand (-2) "rF";
  entry "pttl" pttlCommand 2 "rF";
  entry "persist" persistCommand 2 "wF"].

(** The table of commands is a dict whose keys compare without case.  A
    name with a NUL in it, which the comparison of the dict cuts and its
    hash function does not, is taken as no command. *)
Definition lookupCommand (table : list redisCommand) (n : list Z) : option redisCommand :=
  list_find (fun c => map tolower (name c) = map tolower n) table ≫= (fun p => Some p.2).

(** ** Execution *)

(** The arguments as they go to the slaves and the AOF. *)
Fixpoint arg_strings (l : list addr) : M (list (list Z)) :=
  match l with
  | [] => mret []
  | a :: l => s ← string_bytes a; rest ← arg_strings l; mret (s :: rest)
  end.

Definition propagate : M unit :=
  d ← cur_db;
  v ← get argv;
  strings ← arg_strings v;
  record (add_propagated d strings).

(** No command of the table forces or prevents its propagation, and none
    adds commands of its own. *)
Definition call (cmd : redisCommand) : M unit :=
  before ← get (fun s => dirty (lg s));
  _ ← proc cmd;
  after ← get (fun s => dirty (lg s));
  let dirty := Z.max 0 (after - before) in
  if negb (dirty =? 0) then propagate else mret tt.

Definition shared_noautherr : list Z := crlf "-NOAUTH Authentication required.".
Definition shared_noreplicaserr : list Z := crlf "-NOREPLICAS Not enough good slaves to write.".
Definition shared_roslaveerr : list Z := crlf "-READONLY You can't write against a read only slave.".
Definition shared_masterdownerr : list Z :=
  crlf "-MASTERDOWN Link with MASTER is down and slave-serve-stale-data is set to 'no'.".
Definition shared_loadingerr : list Z := crlf "-LOADING Redis is loading the dataset in memory".
Definition shared_slowscripterr : list Z :=
  crlf "-BUSY Redis is busy running a script. You can only call SCRIPT KILL or SHUTDOWN NOSAVE.".

Definition error_line (msg : list Z) : list Z := bytes_of_string "-ERR " ++ msg ++ shared_crlf.

Definition is_ping (cmd : redisCommand) : bool := bool_decide (name cmd = bytes_of_string "ping").

(** The checks before a command runs, in order: the error it is refused
    with, if it is. *)
Definition refuse (cmd : redisCommand) (argc : Z) (c : conf) : option (list Z) :=
  let g := gt c in
  if ((0 <? arity cmd) && negb (arity cmd =? argc)) || (argc <? - arity cmd) then
    Some (error_line (no_newlines (wrong_arity (name cmd))))
  else if noauth g then Some shared_noautherr
  else if bool_decide (is_Some (write_error g)) && negb (masterhost c) && (CMD_WRITE cmd || is_ping cmd) then write_error g
  else if negb (masterhost c) && few_slaves g && CMD_WRITE cmd then Some shared_noreplicaserr
  else if masterhost c && slave_ro g && negb (master_client g) && CMD_WRITE cmd then Some shared_roslaveerr
  else if pubsub_client g && negb (is_ping cmd) then
    Some (error_line (bytes_of_string "only (P)SUBSCRIBE / (P)UNSUBSCRIBE / PING / QUIT allowed in this context"))
  else if masterhost c && master_down g && negb (CMD_STALE cmd) then Some shared_masterdownerr
  else if loading c && negb (CMD_LOADING cmd) then Some shared_loadingerr
  else if lua_timedout g then Some shared_slowscripterr
  else None.

Inductive outcome : Type := C_OK | CLOSE_AFTER_REPLY.

(** The cluster is off, there is no memory limit and the client is not in a
    transaction.  [table] is the table of commands. *)
Definition processCommand (table : list redisCommand) : M outcome :=
  a0 ← arg 0;
  n0 ← sds_of a0;
  if bool_decide (map tolower (cstr n0) = bytes_of_string "quit") then
    _ ← addReplyString shared_ok; mret CLOSE_AFTER_REPLY
  else match lookupCommand table n0 with
  | None =>
      _ ← addReplyErrorFormat (bytes_of_string "unknown command '" ++ cstr n0 ++ bytes_of_string "'");
      mret C_OK
  | Some cmd =>
      c ← get cf;
      _ ← set_cmd (name cmd) (CMD_READONLY cmd && negb (master_client (gt c)));
      n ← argc;
      match refuse cmd n c with
      | Some err => _ ← addReplyString err; mret C_OK
      | None => _ ← call cmd; mret C_OK
      end
  end.

(** freeClientArgv: the objects are released, then there are none. *)
Definition resetClient : M unit :=
  v ← get argv;
  _ ← release_all v;
  set_argv [].

(** ** The start of the server *)

(** createSharedObjects: the table of small integers. *)
Definition shared_object (i : Z) : robj := mk_robj OBJ_STRING OBJ_ENCODING_INT 0 1 (PLong i).
Definition shared_heap : gmap addr robj :=
  list_to_map ((fun i => (i, shared_object i)) <$> seqZ 0 OBJ_SHARED_INTEGERS).

Definition empty_log : log := mk_log 0 0 0 0 [] [] [] [] [].

(** initServer: [dbnum] empty databases. *)
Definition initServer (dbnum : nat) (c : conf) : server :=
  mk_server shared_heap OBJ_SHARED_INTEGERS (replicate dbnum (mk_db ∅ ∅)) [] 0 c empty_log.
