(* ===== verification/ServerRefine.v ===== *)
(** * ServerRefine: the execution of a request implements its specification

    What a command promises to the server is the class [Implements]: run
    on a well-formed state it does what its specification does.
    processCommand is proved against that interface, for any table of
    commands that implement their specifications; the table of the server
    is an instance. *)

From S2P Require Import Prelude Util Object Db ServerOk Abstract ServerSim TString ValueSim AString StringSim.
From S2P Require Import Keyspace AKeyspace Frame KeyspaceSim Server.

(** ** Specification *)

Definition aPING : AM unit :=
  n ← aargc;
  c ← aget acf;
  if 2 <? n then aReplyError (no_newlines (wrong_arity (cmd_name c)))
  else if pubsub_client (gt c) then
    _ ← aReplyMultiBulkLen 2;
    _ ← aReplyBulk (bytes_of_string "pong");
    if n =? 1 then aReplyBulk [] else m ← aarg 1; aReplyBulk m
  else if n =? 1 then areply (crlf "+PONG")
  else m ← aarg 1; aReplyBulk m.

Definition aECHO : AM unit := m ← aarg 1; aReplyBulk m.

(** What each entry of the table does. *)
Definition command_specs : list (AM unit) := [
  aGET; aSET; aSETNX; aSETEX UNIT_SECONDS; aSETEX UNIT_MILLISECONDS; aAPPEND; aSTRLEN; aDEL; aEXISTS;
  aSETRANGE; aGETRANGE; aGETRANGE; aINCR 1; aINCR (-1); aMGET; aINCRBY 1; aINCRBY (-1); aGETSET;
  aMSET false; aMSET true; aSELECT; aMOVE; aRENAME false; aRENAME true;
  aEXPIRE true UNIT_SECONDS; aEXPIRE false UNIT_SECONDS; aEXPIRE true UNIT_MILLISECONDS;
  aEXPIRE false UNIT_MILLISECONDS; aDBSIZE; aPING; aECHO; aTYPE; aFLUSHDB; aFLUSHALL;
  aTTL false; aTOUCH; aTTL true; aPERSIST].

(** A table of commands with their specifications. *)
Abbreviation spec_table := (list (redisCommand * AM unit)).

Definition specified_table : spec_table := zip redisCommandTable command_specs.

Definition alookupCommand (table : spec_table) (n : list Z) : option (redisCommand * AM unit) :=
  list_find (fun c => map tolower (name c.1) = map tolower n) table ≫= (fun p => Some p.2).

Definition apropagate : AM unit :=
  d ← aget acur;
  v ← aget aargs;
  arecord (add_propagated d v).

Definition acall (spec : AM unit) : AM unit :=
  before ← aget (fun t => dirty (alg t));
  _ ← spec;
  after ← aget (fun t => dirty (alg t));
  if before <? after then apropagate else mret tt.

Definition aprocessCommand (table : spec_table) : AM outcome :=
  n0 ← aarg 0;
  if bool_decide (map tolower (cstr n0) = bytes_of_string "quit") then
    _ ← areply shared_ok; mret CLOSE_AFTER_REPLY
  else match alookupCommand table n0 with
  | None =>
      _ ← aReplyError (no_newlines (bytes_of_string "unknown command '" ++ cstr n0 ++ bytes_of_string "'"));
      mret C_OK
  | Some (cmd, spec) =>
      c ← aget acf;
      _ ← aset_cmd (name cmd) (CMD_READONLY cmd && negb (master_client (gt c)));
      n ← aargc;
      match refuse cmd n c with
      | Some err => _ ← areply err; mret C_OK
      | None => _ ← acall spec; mret C_OK
      end
  end.

(** ** The interface of a command *)

Class Implements (p : M unit) (spec : AM unit) : Prop :=
  implements : forall s, client_ok s -> argc_ok s -> sim s p spec done_ok.

#[export] Instance get_implements : Implements getCommand aGET.
Proof. intros s H _. by apply getCommand_sim. Qed.
#[export] Instance set_implements : Implements setCommand aSET.
Proof. intros s H _. by apply setCommand_sim. Qed.
#[export] Instance setnx_implements : Implements setnxCommand aSETNX.
Proof. intros s H _. by apply setnxCommand_sim. Qed.
#[export] Instance setex_implements : Implements setexCommand (aSETEX UNIT_SECONDS).
Proof. intros s H _. by apply setex_sim. Qed.
#[export] Instance psetex_implements : Implements psetexCommand (aSETEX UNIT_MILLISECONDS).
Proof. intros s H _. by apply setex_sim. Qed.
#[export] Instance append_implements : Implements appendCommand aAPPEND.
Proof. intros s H _. by apply appendCommand_sim. Qed.
#[export] Instance strlen_implements : Implements strlenCommand aSTRLEN.
Proof. intros s H _. by apply strlenCommand_sim. Qed.
#[export] Instance del_implements : Implements delCommand aDEL.
Proof. intros s H H'. by apply delCommand_sim. Qed.
#[export] Instance exists_implements : Implements existsCommand aEXISTS.
Proof. intros s H H'. by apply existsCommand_sim. Qed.
#[export] Instance setrange_implements : Implements setrangeCommand aSETRANGE.
Proof. intros s H _. by apply setrangeCommand_sim. Qed.
#[export] Instance getrange_implements : Implements getrangeCommand aGETRANGE.
Proof. intros s H _. by apply getrangeCommand_sim. Qed.
#[export] Instance incr_implements : Implements incrCommand (aINCR 1).
Proof. intros s H _. by apply incrDecr_sim. Qed.
#[export] Instance decr_implements : Implements decrCommand (aINCR (-1)).
Proof. intros s H _. by apply incrDecr_sim. Qed.
#[export] Instance mget_implements : Implements mgetCommand aMGET.
Proof. intros s H H'. unfold argc_ok in H'. apply mgetCommand_sim; [done|lia|lia]. Qed.
#[export] Instance incrby_implements : Implements incrbyCommand (aINCRBY 1).
Proof. intros s H _. by apply incrbyCommand_sim. Qed.
#[export] Instance decrby_implements : Implements decrbyCommand (aINCRBY (-1)).
Proof. intros s H _. exact (incrby_sim s true H). Qed.
#[export] Instance getset_implements : Implements getsetCommand aGETSET.
Proof. intros s H _. by apply getsetCommand_sim. Qed.
#[export] Instance mset_implements : Implements msetCommand (aMSET false).
Proof. intros s H _. by apply msetGeneric_sim. Qed.
#[export] Instance msetnx_implements : Implements msetnxCommand (aMSET true).
Proof. intros s H _. by apply msetGeneric_sim. Qed.
#[export] Instance select_implements : Implements selectCommand aSELECT.
Proof. intros s H _. by apply selectCommand_sim. Qed.
#[export] Instance move_implements : Implements moveCommand aMOVE.
Proof. intros s H _. by apply moveCommand_sim. Qed.
#[export] Instance rename_implements : Implements renameCommand (aRENAME false).
Proof. intros s H _. by apply renameGeneric_sim. Qed.
#[export] Instance renamenx_implements : Implements renamenxCommand (aRENAME true).
Proof. intros s H _. by apply renameGeneric_sim. Qed.
#[export] Instance expire_implements : Implements expireCommand (aEXPIRE true UNIT_SECONDS).
Proof. intros s H _. eapply sim_read; [done|]. exact (expireGeneric_sim true UNIT_SECONDS s H). Qed.
#[export] Instance expireat_implements : Implements expireatCommand (aEXPIRE false UNIT_SECONDS).
Proof. intros s H _. exact (expireGeneric_sim false UNIT_SECONDS s H). Qed.
#[export] Instance pexpire_implements : Implements pexpireCommand (aEXPIRE true UNIT_MILLISECONDS).
Proof. intros s H _. eapply sim_read; [done|]. exact (expireGeneric_sim true UNIT_MILLISECONDS s H). Qed.
#[export] Instance pexpireat_implements : Implements pexpireatCommand (aEXPIRE false UNIT_MILLISECONDS).
Proof. intros s H _. exact (expireGeneric_sim false UNIT_MILLISECONDS s H). Qed.
#[export] Instance dbsize_implements : Implements dbsizeCommand aDBSIZE.
Proof. intros s H _. by apply dbsizeCommand_sim. Qed.
#[export] Instance type_implements : Implements typeCommand aTYPE.
Proof. intros s H _. by apply typeCommand_sim. Qed.
#[export] Instance flushdb_implements : Implements flushdbCommand aFLUSHDB.
Proof. intros s H _. by apply flushdbCommand_sim. Qed.
#[export] Instance flushall_implements : Implements flushallCommand aFLUSHALL.
Proof. intros s H _. by apply flushallCommand_sim. Qed.
#[export] Instance ttl_implements : Implements ttlCommand (aTTL false).
Proof. intros s H _. by apply ttlGeneric_sim. Qed.
#[export] Instance touch_implements : Implements touchCommand aTOUCH.
Proof. intros s H H'. by apply touchCommand_sim. Qed.
#[export] Instance pttl_implements : Implements pttlCommand (aTTL true).
Proof. intros s H _. by apply ttlGeneric_sim. Qed.
#[export] Instance persist_implements : Implements persistCommand aPERSIST.
Proof. intros s H _. by apply persistCommand_sim. Qed.

Lemma bulk_arg_sim s ka k : ok x0 s -> is_key s ka k -> sim s (addReplyBulk ka) (aReplyBulk k) done_ok.
Proof.
  intros Hok [_ Hk]. destruct (is_sds_str x0 s ka k Hok Hk) as (r & Hr & <-).
  apply sim_logged, (addReplyBulk_sim x0); [done|done|by eapply str_len].
Qed.

#[export] Instance echo_implements : Implements echoCommand aECHO.
Proof. intros s [Hok Hraw] _. unfold echoCommand, aECHO. sim_key ka k Hk. by apply bulk_arg_sim. Qed.

#[export] Instance ping_implements : Implements pingCommand aPING.
Proof.
  intros s [Hok Hraw] Hn. unfold pingCommand, aPING. apply sim_argc. apply sim_cf.
  destruct (2 <? _); [by apply sim_logged, (addReplyError_sim x0)|].
  destruct (pubsub_client _).
  - eapply sim_bind; [by apply (addReplyMultiBulkLen_sim x0)|]. intros s1 [] [] (Hok1 & Hk1 & _).
    eapply sim_bind; [by apply (addReplyBulkCBuffer_sim x0)|]. intros s2 [] [] (Hok2 & Hk2 & _).
    destruct (_ =? 1); [by apply sim_logged, (addReplyBulkCBuffer_sim x0)|].
    assert (Hraw2 : raw_args any s2) by (eapply raw_kept; [|exact Hraw]; by etrans).
    sim_key ka k Hk. by apply bulk_arg_sim.
  - destruct (_ =? 1); [by apply sim_last|]. sim_key ka k Hk. by apply bulk_arg_sim.
Qed.

Definition table_ok (table : spec_table) : Prop := Forall (fun p => Implements (proc p.1) p.2) table.

Lemma specified_table_ok : table_ok specified_table.
Proof. repeat (apply Forall_cons; split; [apply _|]). apply Forall_nil. done. Qed.

(** ** Execution *)

Lemma arg_string_at s a o : ok x0 s -> a ∈ argv s -> heap s !! a = Some o ->
  string_bytes a s = Ret (abs_arg (heap s) a, s).
Proof.
  intros Hok Ha Ho. pose proof (ok_obj _ _ Hok a o Ho) as Hoo. pose proof (ok_args _ _ Hok a o Ha Ho) as Ht.
  rewrite (abs_arg_str _ _ o) by done. unfold string_bytes, mbind, M_bind. rewrite (obj_at _ _ _ Ho).
  destruct (obj_string o Hoo Ht) as [_ [[-> Hp]|(-> & _ & v & Hp & Hv)]].
  - by rewrite (sds_at s a o (string_of o)).
  - rewrite (long_at s a o v) by done. rewrite ll2sds_at by done. unfold string_of. by rewrite Hp.
Qed.

Lemma args_live x s a : ok x s -> a ∈ argv s -> exists o, heap s !! a = Some o.
Proof.
  intros Hok Ha. eapply ok_live; [exact Hok|]. left. pose proof (refs_arg s a Ha). lia.
Qed.

Lemma arg_strings_at s l : ok x0 s -> (forall a, a ∈ l -> a ∈ argv s) ->
  arg_strings l s = Ret (abs_arg (heap s) <$> l, s).
Proof.
  intros Hok. induction l as [|a l IH]; intros Hl; [done|]. cbn [arg_strings fmap list_fmap].
  destruct (args_live x0 s a Hok) as [o Ho]; [apply Hl; by left|].
  unfold mbind, M_bind. rewrite (arg_string_at s a o); [|done|apply Hl; by left|done].
  unfold mbind, M_bind in IH. rewrite IH by (intros b Hb; apply Hl; by right). done.
Qed.

Lemma propagate_sim s : ok x0 s -> sim s propagate apropagate done_ok.
Proof.
  intros Hok. unfold propagate, apropagate. apply sim_cur. eapply sim_read; [done|].
  eapply sim_right; [done|]. eapply sim_read; [by apply arg_strings_at|]. by apply sim_last.
Qed.

Lemma call_sim s p spec : Implements p spec -> client_ok s -> argc_ok s ->
  forall c, proc c = p -> sim s (call c) (acall spec) done_ok.
Proof.
  intros Hi Hc Hn c <-. unfold call, acall. eapply sim_read; [done|]. eapply sim_right; [done|].
  eapply sim_bind; [by apply Hi|]. intros s1 [] [] Hok1.
  eapply sim_read; [done|]. eapply sim_right; [done|]. cbn [alg abs]. cbv zeta.
  replace (negb (Z.max 0 (dirty (lg s1) - dirty (lg s)) =? 0)) with (dirty (lg s) <? dirty (lg s1)) by lia.
  destruct (_ <? _); [by apply propagate_sim|by apply sim_ret].
Qed.

Lemma lookup_agree (table : spec_table) n :
  lookupCommand (map fst table) n = fst <$> alookupCommand table n.
Proof.
  unfold lookupCommand, alookupCommand. induction table as [|[c spec] table IH]; [done|]. cbn.
  destruct (decide (map tolower (name c) = map tolower n)); [done|].
  destruct (list_find _ (map fst table)) as [[i x]|], (list_find _ table) as [[j [y z]]|]; cbn in *; congruence.
Qed.

Lemma lookup_implements (table : spec_table) n c spec : table_ok table ->
  alookupCommand table n = Some (c, spec) -> Implements (proc c) spec.
Proof.
  intros Hok E. unfold alookupCommand in E.
  destruct (list_find _ table) as [[i p]|] eqn:El; [|done]. injection E as ->.
  apply list_find_Some in El as (Hi & _). by apply (Forall_lookup_1 _ _ _ _ Hok) in Hi.
Qed.

Lemma client_with_cf s c : client_ok s -> client_ok (with_cf c s).
Proof. intros [H1 H2]. split; [by apply ok_with_cf|exact H2]. Qed.

Lemma processCommand_sim table s : table_ok table -> client_ok s -> argc_ok s ->
  sim s (processCommand (map fst table)) (aprocessCommand table) (fun s' o o' => o' = o /\ server_ok s').
Proof.
  intros Ht Hc Hn. pose proof Hc as [Hok Hraw]. unfold processCommand, aprocessCommand. sim_key a0 n0 Hk.
  eapply sim_sds; [apply Hk|]. destruct (bool_decide _).
  { eapply sim_bind; [by apply sim_last|]. intros s1 [] [] H. by apply sim_ret. }
  rewrite lookup_agree. destruct (alookupCommand table n0) as [[c spec]|] eqn:E; cbn [fmap option_fmap option_map fst].
  - apply sim_cf. eapply sim_both; [done|done|]. pose proof (client_with_cf s (with_cmd (name c)
      (CMD_READONLY c && negb (master_client (gt (cf s)))) (cf s)) Hc) as Hc'. apply sim_argc. cbn [with_cf argv].
    destruct (refuse _ _ _).
    + eapply sim_bind; [apply sim_last, Hc'|]. intros s1 [] [] H. by apply sim_ret.
    + eapply sim_bind; [eapply call_sim; [by eapply lookup_implements|exact Hc'|exact Hn|done]|].
      intros s1 [] [] H. by apply sim_ret.
  - eapply sim_bind; [by apply (addReplyError_sim x0)|]. intros s1 [] [] H. apply sim_ret. split; [done|apply H].
Qed.

Lemma resetClient_sim s : server_ok s ->
  sim s resetClient (aset_args []) (fun s' _ _ => server_ok s' /\ argv s' = []).
Proof.
  intros Hok. unfold resetClient. eapply sim_read; [done|].
  pose proof (with_argv_ok x0 s [] Hok) as Hok0.
  destruct (release_spec (argv s) x0 (with_argv [] s) held_x0) as (s2 & E2 & Hok2 & Ha2 & Hk2 & _).
  { eapply ok_ext; [|apply Hok0; by intros a Ha%elem_of_nil]. intros a. cbn. lia. }
  rewrite (noargs_release (argv s) [] s) in E2.
  destruct (release_all (argv s) s) as [[[] s3]|f] eqn:E3; [|done]. cbn in E2. injection E2 as <-.
  unfold sim, mbind, M_bind. rewrite E3. exists tt. split; [|done]. by rewrite Ha2.
Qed.
