(* ===== verification/Sds.v ===== *)
(** * Sds: quoting and splitting of strings (sds.c)

    sdscatrepr writes a string between quotes, sdssplitargs splits a line
    into arguments that may be quoted: the protocol parser uses it for the
    commands typed by hand.  sdsrange cuts a string in place. *)

From S2P Require Import Prelude Util.

(** ** Characters *)

(** isspace() and isprint() of the C locale. *)
Definition isspace (c : Z) : bool := (c =? 32) || ((9 <=? c) && (c <=? 13)).
Definition isprint (c : Z) : bool := (32 <=? c) && (c <=? 126).

Definition is_hex_digit (c : Z) : bool :=
  ((48 <=? c) && (c <=? 57)) || ((97 <=? c) && (c <=? 102)) || ((65 <=? c) && (c <=? 70)).

Definition hex_digit_to_int (c : Z) : Z :=
  if (48 <=? c) && (c <=? 57) then c - 48
  else if (97 <=? c) && (c <=? 102) then c - 87
  else if (65 <=? c) && (c <=? 70) then c - 55
  else 0.

(** [%02x]. *)
Definition hex_char (n : Z) : Z := if n <? 10 then 48 + n else 87 + n.
Definition hex2 (c : Z) : list Z := [hex_char (c / 16); hex_char (c mod 16)].

(** ** sdscatrepr *)

Definition repr_char (c : Z) : list Z :=
  if (c =? 92) || (c =? 34) then [92; c]
  else if c =? 10 then [92; 110]
  else if c =? 13 then [92; 114]
  else if c =? 9 then [92; 116]
  else if c =? 7 then [92; 97]
  else if c =? 8 then [92; 98]
  else if isprint c then [c]
  else 92 :: 120 :: hex2 c.

Fixpoint repr_chars (p : list Z) : list Z :=
  match p with
  | [] => []
  | c :: p => repr_char c ++ repr_chars p
  end.

Definition sdscatrepr (s p : list Z) : list Z := s ++ 34 :: repr_chars p ++ [34].

(** ** sdssplitargs *)

(** [*(p+i)] of a NUL terminated string. *)
Definition at_ (p : list Z) (i : nat) : Z := nth i p 0.

Definition unescape (c : Z) : Z :=
  if c =? 110 then 10 else if c =? 114 then 13 else if c =? 116 then 9
  else if c =? 98 then 8 else if c =? 97 then 7 else c.

Inductive quoting : Type := Unquoted | InQ | InSq.

(** The loop that gets a token: [None] is the jump to err.  Each turn but
    the last moves past a character. *)
Fixpoint get_token (fuel : nat) (q : quoting) (p current : list Z) : res (option (list Z * list Z)) :=
  match fuel with
  | O => Fault OutOfFuel
  | S fuel =>
      let c := at_ p 0 in
      let closing :=
        if negb (at_ p 1 =? 0) && negb (isspace (at_ p 1)) then Ret None
        else Ret (Some (current, drop 1 p)) in
      match q with
      | InQ =>
          if (c =? 92) && (at_ p 1 =? 120) && is_hex_digit (at_ p 2) && is_hex_digit (at_ p 3) then
            get_token fuel InQ (drop 4 p)
              (current ++ [hex_digit_to_int (at_ p 2) * 16 + hex_digit_to_int (at_ p 3)])
          else if (c =? 92) && negb (at_ p 1 =? 0) then
            get_token fuel InQ (drop 2 p) (current ++ [unescape (at_ p 1)])
          else if c =? 34 then closing
          else if c =? 0 then Ret None
          else get_token fuel InQ (drop 1 p) (current ++ [c])
      | InSq =>
          if (c =? 92) && (at_ p 1 =? 39) then get_token fuel InSq (drop 2 p) (current ++ [39])
          else if c =? 39 then closing
          else if c =? 0 then Ret None
          else get_token fuel InSq (drop 1 p) (current ++ [c])
      | Unquoted =>
          if (c =? 32) || (c =? 10) || (c =? 13) || (c =? 9) then Ret (Some (current, drop 1 p))
          else if c =? 0 then Ret (Some (current, p))
          else if c =? 34 then get_token fuel InQ (drop 1 p) current
          else if c =? 39 then get_token fuel InSq (drop 1 p) current
          else get_token fuel Unquoted (drop 1 p) (current ++ [c])
      end
  end.

Fixpoint skip_blanks (p : list Z) : list Z :=
  match p with
  | [] => []
  | c :: p' => if negb (c =? 0) && isspace c then skip_blanks p' else p
  end.

Fixpoint split_loop (fuel : nat) (p : list Z) (vector : list (list Z)) : res (option (list (list Z))) :=
  match fuel with
  | O => Fault OutOfFuel
  | S fuel =>
      let p := skip_blanks p in
      if at_ p 0 =? 0 then Ret (Some vector)
      else
        t ← get_token (S (length p)) Unquoted p [];
        match t with
        | None => Ret None
        | Some (current, p) => split_loop fuel p (vector ++ [current])
        end
  end.

Definition sdssplitargs (line : list Z) : res (option (list (list Z))) :=
  split_loop (S (length line)) line [].

(** ** sdsrange *)

(** The parameters are ints, the length fits in one. *)
Definition sdsrange (s : list Z) (start end_ : Z) : list Z :=
  let len := Z.of_nat (length s) in
  if len =? 0 then s
  else
    let start := if start <? 0 then Z.max 0 (len + start) else start in
    let end_ := if end_ <? 0 then Z.max 0 (len + end_) else end_ in
    let newlen := if end_ <? start then 0 else end_ - start + 1 in
    let '(start, newlen) :=
      if negb (newlen =? 0) then
        if len <=? start then (start, 0)
        else if len <=? end_ then
          (start, if len - 1 <? start then 0 else len - 1 - start + 1)
        else (start, newlen)
      else (0, newlen) in
    take (Z.to_nat newlen) (drop (Z.to_nat start) s).
