(* ===== verification/SdsProofs.v ===== *)
(** * SdsProofs: quoting is undone by splitting *)

From S2P Require Import Prelude Util Sds.

(** ** Termination *)

Lemma at_nonzero p i : at_ p i <> 0 -> (i < length p)%nat.
Proof.
  intros H. destruct (Nat.lt_ge_cases i (length p)); [done|]. unfold at_ in H. by rewrite nth_overflow in H.
Qed.

(** A token was found; the rest is shorter, except at the end. *)
Definition token_ok (p : list Z) (r : res (option (list Z * list Z))) : Prop :=
  match r with
  | Ret (Some (_, rest)) => (length rest <= length p)%nat /\ (at_ p 0 <> 0 -> (length rest < length p)%nat)
  | Ret None => True
  | Fault _ => False
  end.

Lemma get_token_total fuel q p cur : (length p < fuel)%nat -> token_ok p (get_token fuel q p cur).
Proof.
  revert q p cur. induction fuel as [|fuel IH]; intros q p cur Hf; [lia|]. cbn [get_token].
  assert (Hrec : forall q' k cur', at_ p 0 <> 0 -> (1 <= k)%nat -> token_ok p (get_token fuel q' (drop k p) cur')).
  { intros q' k cur' H0 Hk. pose proof (at_nonzero p 0 H0) as Hl.
    assert (Hd : (length (drop k p) < fuel)%nat) by (rewrite length_drop; lia).
    specialize (IH q' (drop k p) cur' Hd). unfold token_ok in *. rewrite length_drop in IH.
    destruct (get_token fuel q' (drop k p) cur') as [[[t rest]|]|f]; try done. split; lia. }
  assert (Hclose : at_ p 0 <> 0 -> token_ok p
    (if negb (at_ p 1 =? 0) && negb (isspace (at_ p 1)) then Ret None else Ret (Some (cur, drop 1 p)))).
  { intros H0. pose proof (at_nonzero p 0 H0). destruct (_ && _); [done|]. cbn. rewrite length_drop. split; lia. }
  destruct q.
  - destruct ((at_ p 0 =? 32) || (at_ p 0 =? 10) || (at_ p 0 =? 13) || (at_ p 0 =? 9)) eqn:Es.
    { assert (at_ p 0 <> 0) as H0 by lia. pose proof (at_nonzero p 0 H0). cbn. rewrite length_drop. split; lia. }
    destruct (Z.eqb_spec (at_ p 0) 0); [cbn; split; lia|].
    destruct (at_ p 0 =? 34), (at_ p 0 =? 39); apply Hrec; lia.
  - destruct (Z.eqb_spec (at_ p 0) 92) as [H92|H92]; cbn [andb].
    + destruct ((at_ p 1 =? 120) && _ && _); [apply Hrec; lia|].
      destruct (negb (at_ p 1 =? 0)); [apply Hrec; lia|]. rewrite H92. cbn. apply Hrec; lia.
    + destruct (Z.eqb_spec (at_ p 0) 34); [apply Hclose; lia|].
      destruct (Z.eqb_spec (at_ p 0) 0); [done|]. apply Hrec; lia.
  - destruct ((at_ p 0 =? 92) && (at_ p 1 =? 39)) eqn:E; [apply Hrec; lia|].
    destruct (Z.eqb_spec (at_ p 0) 39); [apply Hclose; lia|].
    destruct (Z.eqb_spec (at_ p 0) 0); [done|]. apply Hrec; lia.
Qed.

Lemma skip_blanks_length p : (length (skip_blanks p) <= length p)%nat.
Proof. induction p as [|c p IH]; cbn; [lia|]. destruct (_ && _); cbn; lia. Qed.

Lemma split_loop_total fuel p v : (length p < fuel)%nat -> exists r, split_loop fuel p v = Ret r.
Proof.
  revert p v. induction fuel as [|fuel IH]; intros p v Hf; [lia|]. cbn [split_loop].
  pose proof (skip_blanks_length p). destruct (Z.eqb_spec (at_ (skip_blanks p) 0) 0); [eauto|].
  pose proof (get_token_total (S (length (skip_blanks p))) Unquoted (skip_blanks p) []) as Ht.
  cbn [mbind res_bind]. unfold token_ok in Ht.
  destruct (get_token _ _ _ _) as [[[t rest]|]|f]; cbn; [|eauto|exfalso; apply Ht; lia].
  apply IH. destruct Ht as [_ Ht]; [lia|]. specialize (Ht ltac:(done)). lia.
Qed.

(** ** Quoting and splitting *)

Definition byte_string (s : list Z) : Prop := Forall (fun c => 0 <= c < 256) s.

(** A token of [n] steps more has the same result. *)
Lemma get_token_fuel fuel fuel' q p cur r : get_token fuel q p cur = Ret r -> (fuel <= fuel')%nat ->
  get_token fuel' q p cur = Ret r.
Proof.
  revert fuel' q p cur. induction fuel as [|fuel IH]; intros fuel' q p cur; [done|].
  intros E Hf. destruct fuel' as [|fuel']; [lia|]. cbn [get_token] in *.
  destruct q; repeat match goal with
    | H : context [if ?b then _ else _] |- _ => destruct b
    end; try done; apply IH; (done || lia).
Qed.

(** One character, quoted: two to four characters of the line, one turn. *)
Lemma token_repr_char fuel c rest cur : 0 <= c < 256 ->
  get_token (S fuel) InQ (repr_char c ++ rest) cur = get_token fuel InQ rest (cur ++ [c]).
Proof.
  intros Hc. unfold repr_char.
  destruct (Z.eqb_spec c 92) as [->|H92]; [done|]. destruct (Z.eqb_spec c 34) as [->|H34]; [done|]. cbn [orb].
  destruct (Z.eqb_spec c 10) as [->|]; [done|]. destruct (Z.eqb_spec c 13) as [->|]; [done|].
  destruct (Z.eqb_spec c 9) as [->|]; [done|]. destruct (Z.eqb_spec c 7) as [->|]; [done|].
  destruct (Z.eqb_spec c 8) as [->|]; [done|]. destruct (isprint c) eqn:Ep.
  - cbn [get_token app at_ nth]. unfold isprint in Ep.
    destruct (Z.eqb_spec c 92); [done|]. cbn [andb]. destruct (Z.eqb_spec c 34); [done|].
    destruct (Z.eqb_spec c 0); [lia|]. done.
  - assert (Hx : is_hex_digit (hex_char (c / 16)) && is_hex_digit (hex_char (c mod 16)) = true /\
      hex_digit_to_int (hex_char (c / 16)) * 16 + hex_digit_to_int (hex_char (c mod 16)) = c).
    { pose proof (Z.div_mod c 16 ltac:(lia)). pose proof (Z.mod_pos_bound c 16 ltac:(lia)).
      assert (0 <= c / 16 < 16) by (split; [apply Z.div_pos|apply Z.div_lt_upper_bound]; lia).
      unfold is_hex_digit, hex_digit_to_int, hex_char.
      destruct (Z.ltb_spec (c / 16) 10), (Z.ltb_spec (c mod 16) 10);
        repeat match goal with |- context [(?a <=? ?b) && (?d <=? ?e)] =>
          destruct ((a <=? b) && (d <=? e)) eqn:?; try lia end; cbn; split; try done; lia. }
    destruct Hx as [Hx1 Hx2]. apply andb_true_iff in Hx1 as [Hd1 Hd2].
    cbn [get_token app at_ nth hex2 Z.eqb Pos.eqb]. cbn [andb]. rewrite Hd1, Hd2. cbn [andb drop]. by rewrite Hx2.
Qed.

Lemma token_repr fuel s rest cur : byte_string s ->
  get_token (fuel + length s) InQ (repr_chars s ++ rest) cur = get_token fuel InQ rest (cur ++ s).
Proof.
  intros Hs. revert cur. induction Hs as [|c s Hc Hs IH]; intros cur; cbn [repr_chars length].
  - by rewrite Nat.add_0_r, app_nil_r.
  - rewrite Nat.add_succ_r, <- app_assoc, token_repr_char by done. rewrite IH. by rewrite <- app_assoc.
Qed.

(** The arguments quoted one by one, with spaces between them. *)
Fixpoint repr_line (args : list (list Z)) : list Z :=
  match args with
  | [] => []
  | [a] => sdscatrepr [] a
  | a :: args => sdscatrepr [] a ++ 32 :: repr_line args
  end.

Lemma repr_chars_length s : (length s <= length (repr_chars s))%nat.
Proof.
  induction s as [|c s IH]; cbn; [lia|]. rewrite length_app.
  assert ((1 <= length (repr_char c))%nat); [|lia]. unfold repr_char. by repeat case_match; cbn; try lia.
Qed.

(** The token at the start of a quoted string, when a space or nothing
    follows. *)
Lemma token_quoted s tail : byte_string s -> tail = [] \/ (exists t, tail = 32 :: t) ->
  get_token (S (length (sdscatrepr [] s ++ tail))) Unquoted (sdscatrepr [] s ++ tail) [] = Ret (Some (s, tail)).
Proof.
  intros Hs Ht. apply (get_token_fuel (S (1 + length s))).
  - cbn [app sdscatrepr]. change (get_token (S (1 + length s)) Unquoted (34 :: (repr_chars s ++ [34]) ++ tail) [])
      with (get_token (1 + length s) InQ ((repr_chars s ++ [34]) ++ tail) []).
    rewrite <- app_assoc, token_repr by done. destruct Ht as [->|[t ->]]; done.
  - unfold sdscatrepr. rewrite !length_app. cbn. rewrite !length_app. pose proof (repr_chars_length s). cbn. lia.
Qed.

Lemma split_loop_quoted fuel s tail v : byte_string s -> tail = [] \/ (exists t, tail = 32 :: t) ->
  split_loop (S fuel) (sdscatrepr [] s ++ tail) v = split_loop fuel tail (v ++ [s]).
Proof.
  intros Hs Ht. cbn [split_loop].
  change (skip_blanks (sdscatrepr [] s ++ tail)) with (sdscatrepr [] s ++ tail).
  change (at_ (sdscatrepr [] s ++ tail) 0 =? 0) with false. by rewrite token_quoted.
Qed.

Lemma split_loop_space fuel p v : split_loop fuel (32 :: p) v = split_loop fuel p v.
Proof. by destruct fuel. Qed.

Lemma split_repr fuel args v : Forall byte_string args -> (length args < fuel)%nat ->
  split_loop fuel (repr_line args) v = Ret (Some (v ++ args)).
Proof.
  intros Ha. revert fuel v. induction Ha as [|a args Hb Ha IH]; intros fuel v Hf.
  - destruct fuel; [cbn in Hf; lia|]. cbn. by rewrite app_nil_r.
  - destruct fuel as [|fuel]; [cbn in Hf; lia|]. cbn [length] in Hf. cbn [repr_line]. destruct args as [|b args].
    + rewrite <- (app_nil_r (sdscatrepr [] a)), split_loop_quoted by auto. destruct fuel; [cbn in Hf; lia|]. done.
    + rewrite split_loop_quoted by eauto. rewrite split_loop_space, IH by lia. by rewrite <- app_assoc.
Qed.

Lemma repr_line_length args : (length args <= length (repr_line args))%nat.
Proof.
  induction args as [|a args IH]; [done|]. cbn [repr_line]. destruct args as [|b args]; [cbn; lia|].
  rewrite length_app. cbn [length] in *. lia.
Qed.

(** C20: splitting undoes quoting: a line made of arguments written by
    sdscatrepr, with spaces between them, is split by sdssplitargs into
    those arguments, whatever bytes they hold. *)
Theorem splitargs_repr (args : list (list Z)) : Forall byte_string args ->
  sdssplitargs (repr_line args) = Ret (Some args).
Proof.
  intros H. unfold sdssplitargs. rewrite split_repr; [done|done|]. pose proof (repr_line_length args). lia.
Qed.

(** Three arguments: text with a quote, nothing, and control bytes. *)
Lemma splitargs_repr_witness : sdssplitargs (repr_line [[72; 34; 105]; []; [0; 255; 10]]) =
  Ret (Some [[72; 34; 105]; []; [0; 255; 10]]).
Proof. apply splitargs_repr. apply (bool_decide_unpack (Forall (Forall (fun c => 0 <= c < 256)) _)). vm_compute. exact I. Defined.

(** ** sdsrange *)

(** With an end at the last character, what is left from [start] on. *)
Lemma sdsrange_drop s start : 0 <= start -> sdsrange s start (-1) = drop (Z.to_nat start) s.
Proof.
  intros Hs. unfold sdsrange. destruct s as [|c s']; [by rewrite drop_nil|]. set (s := c :: s').
  assert (Hl : 0 < Z.of_nat (length s)) by (subst s; cbn; lia).
  destruct (Z.eqb_spec (Z.of_nat (length s)) 0); [lia|]. destruct (Z.ltb_spec start 0); [lia|]. cbn [Z.ltb Z.compare].
  replace (Z.max 0 (Z.of_nat (length s) + -1)) with (Z.of_nat (length s) - 1) by lia.
  destruct (Z.ltb_spec (Z.of_nat (length s) - 1) start).
  - rewrite (drop_ge s (Z.to_nat start)) by lia. done.
  - destruct (Z.eqb_spec (Z.of_nat (length s) - 1 - start + 1) 0); [lia|]. cbn [negb].
    destruct (Z.leb_spec (Z.of_nat (length s)) start); [lia|].
    destruct (Z.leb_spec (Z.of_nat (length s)) (Z.of_nat (length s) - 1)); [lia|].
    apply take_ge. rewrite length_drop. lia.
Qed.

(** ** Sizes *)

(** A token is no longer than the characters it was read from. *)
Lemma get_token_size fuel q p cur t rest : get_token fuel q p cur = Ret (Some (t, rest)) ->
  (length t + length rest <= length cur + length p)%nat.
Proof.
  revert q p cur. induction fuel as [|fuel IH]; intros q p cur; [done|]. cbn [get_token].
  assert (Hrec : forall q' k x, at_ p (k - 1) <> 0 -> (1 <= k)%nat ->
    get_token fuel q' (drop k p) (cur ++ [x]) = Ret (Some (t, rest)) -> (length t + length rest <= length cur + length p)%nat).
  { intros q' k x Hk H1 E%IH. pose proof (at_nonzero _ _ Hk). rewrite length_app, length_drop in E. cbn in E. lia. }
  assert (Hq : forall q', get_token fuel q' (drop 1 p) cur = Ret (Some (t, rest)) ->
    (length t + length rest <= length cur + length p)%nat).
  { intros q' E%IH. rewrite length_drop in E. lia. }
  assert (Hclose : (if negb (at_ p 1 =? 0) && negb (isspace (at_ p 1)) then Ret None else Ret (Some (cur, drop 1 p))) =
    Ret (Some (t, rest)) -> (length t + length rest <= length cur + length p)%nat).
  { destruct (_ && _); [done|]. intros [= <- <-]. rewrite length_drop. lia. }
  destruct q.
  - destruct (_ || _ || _ || _); [intros [= <- <-]; rewrite length_drop; lia|].
    destruct (Z.eqb_spec (at_ p 0) 0); [intros [= <- <-]; lia|].
    destruct (at_ p 0 =? 34); [apply Hq|]. destruct (at_ p 0 =? 39); [apply Hq|]. apply (Hrec _ 1%nat); [done|lia].
  - destruct (_ && _ && _ && _) eqn:E1.
    { apply (Hrec _ 4%nat); [|lia]. cbn. intros E0. rewrite E0 in E1. cbn in E1. rewrite !andb_false_r in E1. done. }
    destruct ((at_ p 0 =? 92) && negb (at_ p 1 =? 0)) eqn:E2; [apply (Hrec _ 2%nat); [cbn; lia|lia]|].
    destruct (at_ p 0 =? 34); [apply Hclose|]. destruct (Z.eqb_spec (at_ p 0) 0); [done|]. apply (Hrec _ 1%nat); [done|lia].
  - destruct ((at_ p 0 =? 92) && (at_ p 1 =? 39)) eqn:E2; [apply (Hrec _ 2%nat); [cbn; lia|lia]|].
    destruct (at_ p 0 =? 39); [apply Hclose|]. destruct (Z.eqb_spec (at_ p 0) 0); [done|]. apply (Hrec _ 1%nat); [done|lia].
Qed.

Lemma split_loop_size fuel p v r B : split_loop fuel p v = Ret (Some r) -> (length p <= B)%nat ->
  Forall (fun a => length a <= B)%nat v ->
  Forall (fun a => length a <= B)%nat r /\ (length r <= length v + length p)%nat.
Proof.
  revert p v. induction fuel as [|fuel IH]; intros p v E Hp Hv; [done|]. cbn [split_loop] in E.
  pose proof (skip_blanks_length p) as Hs. destruct (Z.eqb_spec (at_ (skip_blanks p) 0) 0); [injection E as <-; split; [done|lia]|].
  pose proof (get_token_total (S (length (skip_blanks p))) Unquoted (skip_blanks p) []) as Ht.
  destruct (get_token _ _ _ _) as [[[t rest]|]|f] eqn:Et; [|done|done]. cbn in E.
  apply get_token_size in Et. cbn in Et. destruct Ht as [_ Ht]; [lia|]. specialize (Ht ltac:(done)).
  destruct (IH rest (v ++ [t]) E) as [H1 H2]; [lia| |].
  - apply Forall_app. split; [done|]. constructor; [lia|constructor].
  - split; [done|]. rewrite length_app in H2. cbn in H2. lia.
Qed.

Lemma splitargs_size line r : sdssplitargs line = Ret (Some r) ->
  Forall (fun a => length a <= length line)%nat r /\ (length r <= length line)%nat.
Proof. intros E. by apply (split_loop_size _ _ _ _ (length line)) in E. Qed.

Lemma splitargs_total line : exists r, sdssplitargs line = Ret r.
Proof. apply split_loop_total. lia. Qed.
