(* ===== verification/Protocol.v ===== *)
(** * Protocol: requests from the query buffer (networking.c)

    The parser of the protocol works on the connection: the bytes received
    so far, and how much of a request has been read.  What it finds is a
    list of arguments; [processInputBuffer] creates their objects and runs
    the command, as long as there are whole requests in the buffer. *)

From S2P Require Import Prelude Util Object Db TString Keyspace Server Sds.

Definition PROTO_INLINE_MAX_SIZE : Z := 1024 * 64.
Definition PROTO_MBULK_BIG_ARG : Z := 1024 * 32.

Inductive request_type : Type := PROTO_REQ_INLINE | PROTO_REQ_MULTIBULK.

Record conn : Type := mk_conn {
  querybuf : list Z;
  reqtype : option request_type;   (* 0 when unknown *)
  multibulklen : Z;
  bulklen : Z;
  close_after_reply : bool
}.

Definition with_buf (b : list Z) (c : conn) : conn :=
  mk_conn b (reqtype c) (multibulklen c) (bulklen c) (close_after_reply c).
Definition with_bulklen (n : Z) (c : conn) : conn :=
  mk_conn (querybuf c) (reqtype c) (multibulklen c) n (close_after_reply c).
Definition with_multibulklen (n : Z) (c : conn) : conn :=
  mk_conn (querybuf c) (reqtype c) n (bulklen c) (close_after_reply c).

(** strchr(): the search stops at a NUL, and the buffer ends with one. *)
Fixpoint strchr (s : list Z) (ch : Z) : option nat :=
  match s with
  | [] => None
  | c :: s => if c =? ch then Some O else if c =? 0 then None else S <$> strchr s ch
  end.

(** An argument found, and whether the buffer itself becomes its string. *)
Abbreviation found_arg := (bool * list Z)%type.

(** The end of a parse: the connection, the arguments found, the error
    sent if any, and C_OK. *)
Record parsed : Type := mk_parsed {
  p_conn : conn;
  p_args : list found_arg;
  p_error : option (list Z);
  p_ok : bool
}.

(** The message is logged as well. *)
Definition setProtocolError (c : conn) (pos : Z) : conn :=
  mk_conn (sdsrange (querybuf c) pos (-1)) (reqtype c) (multibulklen c) (bulklen c) true.

(** ** processInlineBuffer *)

Definition nonempty_args (v : list (list Z)) : list found_arg :=
  map (pair true) (filter (fun a => a <> []) v).

Definition processInlineBuffer (c : conn) : res parsed :=
  match strchr (querybuf c) 10 with
  | None =>
      if PROTO_INLINE_MAX_SIZE <? Z.of_nat (length (querybuf c)) then
        Ret (mk_parsed (setProtocolError c 0) []
          (Some (bytes_of_string "Protocol error: too big inline request")) false)
      else Ret (mk_parsed c [] None false)
  | Some newline =>
      let querylen :=
        if negb (Nat.eqb newline 0) && (nth (newline - 1) (querybuf c) 0 =? 13) then (newline - 1)%nat else newline in
      argv ← sdssplitargs (take querylen (querybuf c));
      match argv with
      | None =>
          Ret (mk_parsed (setProtocolError c 0) []
            (Some (bytes_of_string "Protocol error: unbalanced quotes in request")) false)
      | Some argv =>
          Ret (mk_parsed (with_buf (sdsrange (querybuf c) (Z.of_nat querylen + 2) (-1)) c)
            (nonempty_args argv) None true)
      end
  end.

(** ** processMultibulkBuffer *)

(** The length of the next argument is read at [pos]. *)
Inductive bulk_step : Type :=
  | Break
  | ProtocolError (c : conn) (msg : list Z)
  | Next (c : conn) (pos : Z).

Definition read_bulklen (c : conn) (pos : Z) : bulk_step :=
  let buf := querybuf c in
  let len := Z.of_nat (length buf) in
  match strchr (drop (Z.to_nat pos) buf) 13 with
  | None =>
      if PROTO_INLINE_MAX_SIZE <? len then
        ProtocolError (setProtocolError c 0) (bytes_of_string "Protocol error: too big bulk count string")
      else Break
  | Some off =>
      let newline := pos + Z.of_nat off in
      if len - 2 <? newline then Break
      else
        let first := nth (Z.to_nat pos) buf 0 in
        if negb (first =? 36) then
          ProtocolError (setProtocolError c pos)
            (no_newlines (bytes_of_string "Protocol error: expected '$', got '" ++ [first] ++ bytes_of_string "'"))
        else match string2ll (take (off - 1) (drop (S (Z.to_nat pos)) buf)) with
        | None => ProtocolError (setProtocolError c pos) (bytes_of_string "Protocol error: invalid bulk length")
        | Some ll =>
            if (ll <? 0) || (512 * 1024 * 1024 <? ll) then
              ProtocolError (setProtocolError c pos) (bytes_of_string "Protocol error: invalid bulk length")
            else
              let pos := newline + 2 in
              if PROTO_MBULK_BIG_ARG <=? ll then
                Next (with_bulklen ll (with_buf (sdsrange buf pos (-1)) c)) 0
              else Next (with_bulklen ll c) pos
        end
  end.

(** The end of the loop: trim to [pos]. *)
Definition trim (c : conn) (pos : Z) : conn :=
  if negb (pos =? 0) then with_buf (sdsrange (querybuf c) pos (-1)) c else c.

Definition multibulk_end (c : conn) (pos : Z) (args : list found_arg) : parsed :=
  mk_parsed (trim c pos) args None (multibulklen c =? 0).

(** The loop over the arguments; every turn that does not leave it reads
    one. *)
Fixpoint bulk_loop (fuel : nat) (c : conn) (pos : Z) (args : list found_arg) : res parsed :=
  if multibulklen c =? 0 then Ret (multibulk_end c pos args)
  else match fuel with
  | O => Fault OutOfFuel
  | S fuel =>
      match (if bulklen c =? -1 then read_bulklen c pos else Next c pos) with
      | Break => Ret (multibulk_end c pos args)
      | ProtocolError c msg => Ret (mk_parsed c args (Some msg) false)
      | Next c pos =>
          let buf := querybuf c in
          let len := Z.of_nat (length buf) in
          if len - pos <? bulklen c + 2 then Ret (multibulk_end c pos args)
          else
            let arg := take (Z.to_nat (bulklen c)) (drop (Z.to_nat pos) buf) in
            let read c := with_bulklen (-1) (with_multibulklen (multibulklen c - 1) c) in
            if (pos =? 0) && (PROTO_MBULK_BIG_ARG <=? bulklen c) && (len =? bulklen c + 2) then
              bulk_loop fuel (read (with_buf [] c)) 0 (args ++ [(true, arg)])
            else bulk_loop fuel (read c) (pos + bulklen c + 2) (args ++ [(false, arg)])
      end
  end.

(** [argc] is the number of arguments read before. *)
Definition processMultibulkBuffer (argc : Z) (c : conn) : res parsed :=
  let buf := querybuf c in
  let len := Z.of_nat (length buf) in
  if multibulklen c =? 0 then
    if negb (argc =? 0) then Fault AssertFailed
    else match strchr buf 13 with
    | None =>
        if PROTO_INLINE_MAX_SIZE <? len then
          Ret (mk_parsed (setProtocolError c 0) []
            (Some (bytes_of_string "Protocol error: too big mbulk count string")) false)
        else Ret (mk_parsed c [] None false)
    | Some newline =>
        if len - 2 <? Z.of_nat newline then Ret (mk_parsed c [] None false)
        else if negb (nth 0 buf 0 =? 42) then Fault AssertFailed
        else
          let invalid := Ret (mk_parsed (setProtocolError c 0) []
            (Some (bytes_of_string "Protocol error: invalid multibulk length")) false) in
          match string2ll (take (newline - 1) (drop 1 buf)) with
          | None => invalid
          | Some ll =>
              if 1024 * 1024 <? ll then invalid
              else
                let pos := Z.of_nat newline + 2 in
                if ll <=? 0 then Ret (mk_parsed (with_buf (sdsrange buf pos (-1)) c) [] None true)
                else bulk_loop (Z.to_nat ll) (with_multibulklen ll c) pos []
          end
    end
  else if multibulklen c <? 0 then Fault AssertFailed
  else bulk_loop (Z.to_nat (multibulklen c)) c 0 [].

(** ** processInputBuffer *)

(** [c->argv[c->argc++] = createObject(...)] or [createStringObject(...)]. *)
Definition push_arg (f : found_arg) : M unit :=
  a ← (if f.1 then createRawStringObject f.2 else createStringObject f.2);
  v ← get argv;
  set_argv (v ++ [a]).

Fixpoint push_args (l : list found_arg) : M unit :=
  match l with
  | [] => mret tt
  | f :: l => _ ← push_arg f; push_args l
  end.

(** What resetClient does to the connection. *)
Definition reset_conn (c : conn) : conn := mk_conn (querybuf c) None 0 (-1) (close_after_reply c).

Definition parse_request (argc : Z) (c : conn) : res parsed :=
  match reqtype c with
  | Some PROTO_REQ_MULTIBULK => processMultibulkBuffer argc c
  | _ => processInlineBuffer c
  end.

Definition with_reqtype (c : conn) : conn :=
  match reqtype c with
  | Some _ => c
  | None =>
      mk_conn (querybuf c)
        (Some (if nth 0 (querybuf c) 0 =? 42 then PROTO_REQ_MULTIBULK else PROTO_REQ_INLINE))
        (multibulklen c) (bulklen c) (close_after_reply c)
  end.

(** Every turn consumes a byte at least, or leaves the loop.  The client is
    neither paused nor blocked. *)
Fixpoint input_loop (table : list redisCommand) (fuel : nat) (c : conn) : M conn :=
  if bool_decide (querybuf c = []) then mret c
  else match fuel with
  | O => fail OutOfFuel
  | S fuel =>
      if close_after_reply c then mret c
      else
        let c := with_reqtype c in
        n ← argc;
        match parse_request n c with
        | Fault f => fail f
        | Ret p =>
            _ ← push_args (p_args p);
            _ ← (match p_error p with Some msg => addReplyError msg | None => mret tt end);
            if negb (p_ok p) then mret (p_conn p)
            else
              n ← argc;
              if n =? 0 then _ ← resetClient; input_loop table fuel (reset_conn (p_conn p))
              else
                o ← processCommand table;
                match o with
                | C_OK => _ ← resetClient; input_loop table fuel (reset_conn (p_conn p))
                | CLOSE_AFTER_REPLY =>
                    let c := p_conn p in
                    input_loop table fuel
                      (mk_conn (querybuf c) (reqtype c) (multibulklen c) (bulklen c) true)
                end
        end
  end.

Definition processInputBuffer (table : list redisCommand) (c : conn) : M conn :=
  input_loop table (S (length (querybuf c))) c.

(** What readQueryFromClient adds to the buffer. *)
Definition receive (bytes : list Z) (c : conn) : conn := with_buf (querybuf c ++ bytes) c.

Definition new_conn : conn := mk_conn [] None 0 (-1) false.
