(* ===== verification/ProtocolProofs.v ===== *)
(** * ProtocolProofs: requests are read back, whole or in pieces *)

From S2P Require Import Prelude Util Object Db ServerOk Abstract Keyspace Server Sds SdsProofs Protocol.

(** ** The encoding of a request *)

Definition bulk (a : list Z) : list Z := alen_header 36 (Z.of_nat (length a)) ++ a ++ shared_crlf.

Definition encode_request (args : list (list Z)) : list Z :=
  alen_header 42 (Z.of_nat (length args)) ++ concat (map bulk args).

(** What the parser accepts. *)
Definition request_ok (args : list (list Z)) : Prop :=
  (0 < length args)%nat /\ Z.of_nat (length args) <= 1024 * 1024 /\
  Forall (fun a => Z.of_nat (length a) <= 512 * 1024 * 1024) args.

(** ** Headers *)

Lemma strchr_app s ch rest : Forall (fun c => c <> ch /\ c <> 0) s -> strchr (s ++ ch :: rest) ch = Some (length s).
Proof.
  induction 1 as [|c s [H1 H2] Hs IH]; cbn; [by rewrite Z.eqb_refl|].
  destruct (Z.eqb_spec c ch); [done|]. destruct (Z.eqb_spec c 0); [done|]. by rewrite IH.
Qed.

Lemma decimal_chars n : 0 <= n -> Forall (fun c => c <> 13 /\ c <> 0) (decimal n).
Proof.
  intros Hn. unfold decimal. destruct (Z.ltb_spec n 0); [lia|].
  destruct (ndec_spec n Hn) as [_ Hd]. eapply Forall_impl; [exact Hd|]. cbn. intros c Hc%isdigit_iff. lia.
Qed.

Lemma header_strchr p n rest : p <> 13 -> p <> 0 -> 0 <= n ->
  strchr (alen_header p n ++ rest) 13 = Some (S (length (decimal n))).
Proof.
  intros H1 H2 Hn. unfold alen_header. change (p :: decimal n ++ shared_crlf) with ((p :: decimal n) ++ shared_crlf).
  rewrite <- app_assoc. apply (strchr_app (p :: decimal n)). constructor; [done|by apply decimal_chars].
Qed.

Lemma header_length p n : length (alen_header p n) = (length (decimal n) + 3)%nat.
Proof. unfold alen_header. cbn. rewrite length_app. cbn. lia. Qed.

Lemma header_digits p n rest : take (S (length (decimal n)) - 1) (drop 1 (alen_header p n ++ rest)) = decimal n.
Proof.
  unfold alen_header. cbn [app drop]. rewrite <- app_assoc. replace (S (length (decimal n)) - 1)%nat with (length (decimal n)) by lia.
  by rewrite drop_0, take_app_length.
Qed.

Lemma header_drop p n rest : drop (length (decimal n) + 3) (alen_header p n ++ rest) = rest.
Proof. rewrite <- (header_length p n). by rewrite drop_app_length. Qed.

(** ** Reading back an argument *)

(** Where the parser is: [rest] is what it has not read. *)
Definition at_pos (c : conn) (pos : Z) (rest : list Z) : Prop :=
  0 <= pos <= Z.of_nat (length (querybuf c)) /\ drop (Z.to_nat pos) (querybuf c) = rest.

Lemma at_pos_length c pos rest : at_pos c pos rest -> Z.of_nat (length rest) = Z.of_nat (length (querybuf c)) - pos.
Proof. intros [Hp <-]. rewrite length_drop. lia. Qed.

Lemma at_pos_skip c pos a rest : at_pos c pos (a ++ rest) -> at_pos c (pos + Z.of_nat (length a)) rest.
Proof.
  intros H. pose proof (at_pos_length _ _ _ H) as Hl. rewrite length_app in Hl. destruct H as [Hp Hd]. split; [lia|].
  rewrite Z2Nat.inj_add by lia. rewrite Nat2Z.id, <- drop_drop, Hd. by rewrite drop_app_length.
Qed.

Lemma at_pos_trim c pos rest : at_pos c pos rest -> trim c pos = with_buf rest c.
Proof.
  intros [Hp <-]. unfold trim. destruct (Z.eqb_spec pos 0) as [->|Hn]; cbn [negb].
  - rewrite drop_0. by destruct c.
  - by rewrite sdsrange_drop by lia.
Qed.

(** The header of an argument of [ll] bytes. *)
Lemma read_bulklen_ok c pos ll rest : at_pos c pos (alen_header 36 ll ++ rest) -> 0 <= ll <= 512 * 1024 * 1024 ->
  exists c' pos', read_bulklen c pos = Next c' pos' /\ at_pos c' pos' rest /\ bulklen c' = ll /\
    multibulklen c' = multibulklen c /\ reqtype c' = reqtype c /\ close_after_reply c' = close_after_reply c.
Proof.
  intros Hat Hll. pose proof (at_pos_length _ _ _ Hat) as Hl. pose proof (at_pos_skip _ _ _ _ Hat) as Hskip.
  pose proof Hat as [Hp Hd]. rewrite length_app, header_length in Hl. rewrite header_length in Hskip.
  unfold read_bulklen. rewrite Hd, header_strchr by lia.
  destruct (Z.ltb_spec (Z.of_nat (length (querybuf c)) - 2) (pos + Z.of_nat (S (length (decimal ll))))); [lia|].
  assert (Hfirst : nth (Z.to_nat pos) (querybuf c) 0 = 36).
  { rewrite nth_lookup. rewrite <- (Nat.add_0_r (Z.to_nat pos)), <- lookup_drop, Hd. done. }
  rewrite Hfirst. cbn [Z.eqb Pos.eqb negb].
  replace (drop (S (Z.to_nat pos)) (querybuf c)) with (drop 1 (drop (Z.to_nat pos) (querybuf c)))
    by (rewrite drop_drop; f_equal; lia).
  rewrite Hd, header_digits, string2ll_complete by (unfold in_s; change (64 - 1) with 63; lia).
  destruct (Z.ltb_spec ll 0); [lia|]. destruct (Z.ltb_spec (512 * 1024 * 1024) ll); [lia|]. cbn [orb].
  replace (pos + Z.of_nat (S (length (decimal ll))) + 2) with (pos + Z.of_nat (length (decimal ll) + 3)) by lia.
  destruct (PROTO_MBULK_BIG_ARG <=? ll).
  - do 2 eexists. split; [done|]. split; [|done]. destruct Hskip as [Hp' Hd']. split; [cbn; lia|].
    cbn. rewrite sdsrange_drop by lia. by rewrite drop_0.
  - do 2 eexists. split; [done|]. split; [|done]. exact Hskip.
Qed.

Lemma bulk_loop_ok args : forall c pos acc rest,
  at_pos c pos (concat (map bulk args) ++ rest) -> bulklen c = -1 -> multibulklen c = Z.of_nat (length args) ->
  Forall (fun a => Z.of_nat (length a) <= 512 * 1024 * 1024) args ->
  exists l, map snd l = args /\ bulk_loop (length args) c pos acc =
    Ret (mk_parsed (mk_conn rest (reqtype c) 0 (-1) (close_after_reply c)) (acc ++ l) None true).
Proof.
  induction args as [|a args IH]; intros c pos acc rest Hat Hb Hm Hargs.
  - exists []. split; [done|]. cbn [bulk_loop length]. rewrite Hm. cbn [length Z.of_nat Z.eqb].
    unfold multibulk_end. rewrite (at_pos_trim _ _ _ Hat). cbn in Hat. rewrite Hm, app_nil_r.
    unfold with_buf. by rewrite Hb, Hm.
  - apply Forall_cons in Hargs as [Ha Hargs]. cbn [bulk_loop length].
    cbn [length] in Hm. destruct (Z.eqb_spec (multibulklen c) 0) as [E|_]; [lia|]. rewrite Hb. cbn [Z.eqb Pos.eqb].
    cbn [map concat] in Hat.
    rewrite (eq_refl : bulk a = alen_header 36 (Z.of_nat (length a)) ++ a ++ shared_crlf), <- !app_assoc in Hat.
    destruct (read_bulklen_ok c pos _ _ Hat ltac:(lia)) as (c1 & pos1 & E1 & Hat1 & Hb1 & Hm1 & Hr1 & Hc1).
    rewrite E1. pose proof (at_pos_length _ _ _ Hat1) as Hl1. rewrite !length_app in Hl1. cbn [length shared_crlf] in Hl1.
    rewrite Hb1. destruct (Z.ltb_spec (Z.of_nat (length (querybuf c1)) - pos1) (Z.of_nat (length a) + 2)); [lia|].
    assert (Earg : take (Z.to_nat (Z.of_nat (length a))) (drop (Z.to_nat pos1) (querybuf c1)) = a).
    { destruct Hat1 as [_ ->]. rewrite Nat2Z.id. apply take_app_length. }
    rewrite Earg. pose proof (at_pos_skip _ _ _ _ Hat1) as Hat2. pose proof (at_pos_skip _ _ _ _ Hat2) as Hat3.
    change (Z.of_nat (length shared_crlf)) with 2 in Hat3.
    destruct ((pos1 =? 0) && _ && _) eqn:Ebig.
    + set (c2 := with_bulklen (-1) (with_multibulklen (multibulklen (with_buf [] c1) - 1) (with_buf [] c1))).
      destruct (IH c2 0 (acc ++ [(true, a)]) rest) as (l & El & E); [| |cbn; lia|done|].
      * assert (Hnil : concat (map bulk args) ++ rest = []); [|rewrite Hnil; split; [cbn; lia|done]].
        apply length_zero_iff_nil. apply andb_true_iff in Ebig as [[Hp _]%andb_true_iff Hl]. rewrite length_app. lia.
      * done.
      * exists ((true, a) :: l). split; [cbn; by rewrite El|]. rewrite E. cbn. rewrite <- app_assoc, Hr1, Hc1. done.
    + set (c2 := with_bulklen (-1) (with_multibulklen (multibulklen c1 - 1) c1)).
      destruct (IH c2 (pos1 + Z.of_nat (length a) + 2) (acc ++ [(false, a)]) rest) as (l & El & E);
        [exact Hat3|done|cbn; lia|done|].
      exists ((false, a) :: l). split; [cbn; by rewrite El|]. rewrite E. cbn. rewrite <- app_assoc, Hr1, Hc1. done.
Qed.

(** A whole request at the start of the buffer. *)
Lemma multibulk_ok args rest c : request_ok args -> querybuf c = encode_request args ++ rest ->
  multibulklen c = 0 -> bulklen c = -1 ->
  exists l, map snd l = args /\ processMultibulkBuffer 0 c =
    Ret (mk_parsed (mk_conn rest (reqtype c) 0 (-1) (close_after_reply c)) l None true).
Proof.
  intros (Hn & Hmax & Hargs) Hq Hm Hb. unfold processMultibulkBuffer. rewrite Hm. cbn [Z.eqb negb].
  unfold encode_request in Hq. rewrite <- app_assoc in Hq. set (n := Z.of_nat (length args)) in *.
  rewrite Hq, header_strchr by lia.
  assert (Hl : length (querybuf c) = (length (decimal n) + 3 + length (concat (map bulk args) ++ rest))%nat).
  { rewrite Hq, length_app, header_length. done. }
  rewrite <- Hq, Hl.
  destruct (_ <? Z.of_nat (S (length (decimal n)))) eqn:Elt.
  { exfalso. apply Z.ltb_lt in Elt. clear -Elt. lia. }
  assert (Hfirst : nth 0 (querybuf c) 0 = 42) by (by rewrite Hq). rewrite Hfirst. cbn [Z.eqb Pos.eqb negb].
  assert (Edig : take (S (length (decimal n)) - 1) (drop 1 (querybuf c)) = decimal n)
    by (rewrite Hq; apply header_digits).
  rewrite Edig, string2ll_complete by (unfold in_s; change (64 - 1) with 63; lia).
  destruct (Z.ltb_spec (1024 * 1024) n); [lia|]. destruct (Z.leb_spec n 0); [lia|].
  replace (Z.to_nat n) with (length args) by lia.
  destruct (bulk_loop_ok args (with_multibulklen n c) (Z.of_nat (S (length (decimal n))) + 2) [] rest)
    as (l & El & E); [|done|done|done|by exists l].
  split; [cbn; lia|]. cbn [with_multibulklen querybuf]. rewrite Hq.
  replace (Z.to_nat (Z.of_nat (S (length (decimal n))) + 2)) with (length (decimal n) + 3)%nat by lia. apply header_drop.
Qed.

(** ** A request that comes in pieces *)

(** The loop over the arguments on the bytes that are left, without
    positions and without the special case of big arguments. *)
Inductive ref_step : Type :=
  | RBreak
  | RError (msg : list Z)
  | RNext (ll : Z) (s : list Z).

Definition ref_bulklen (s : list Z) : ref_step :=
  match strchr s 13 with
  | None => RBreak
  | Some off =>
      if Z.of_nat (length s) - 2 <? Z.of_nat off then RBreak
      else if negb (nth 0 s 0 =? 36) then
        RError (no_newlines (bytes_of_string "Protocol error: expected '$', got '" ++ [nth 0 s 0] ++ bytes_of_string "'"))
      else match string2ll (take (off - 1) (drop 1 s)) with
      | None => RError (bytes_of_string "Protocol error: invalid bulk length")
      | Some ll =>
          if (ll <? 0) || (512 * 1024 * 1024 <? ll) then RError (bytes_of_string "Protocol error: invalid bulk length")
          else RNext ll (drop (off + 2) s)
      end
  end.

(** What is left: arguments to read, length of the next one, bytes; the
    arguments read; the error. *)
Record ref_parsed : Type := mk_ref {
  r_multibulklen : Z;
  r_bulklen : Z;
  r_rest : list Z;
  r_args : list (list Z);
  r_error : option (list Z)
}.

Fixpoint ref_loop (fuel : nat) (mb bl : Z) (s : list Z) (args : list (list Z)) : res ref_parsed :=
  if mb =? 0 then Ret (mk_ref mb bl s args None)
  else match fuel with
  | O => Fault OutOfFuel
  | S fuel =>
      match (if bl =? -1 then ref_bulklen s else RNext bl s) with
      | RBreak => Ret (mk_ref mb bl s args None)
      | RError msg => Ret (mk_ref mb bl s args (Some msg))
      | RNext bl s =>
          if Z.of_nat (length s) <? bl + 2 then Ret (mk_ref mb bl s args None)
          else ref_loop fuel (mb - 1) (-1) (drop (Z.to_nat (bl + 2)) s) (args ++ [take (Z.to_nat bl) s])
      end
  end.

Definition small (c : conn) : Prop := Z.of_nat (length (querybuf c)) <= PROTO_INLINE_MAX_SIZE.

(** The parser [p] and the reference [r] ended alike. *)
Definition ended_alike (c : conn) (p : res parsed) (r : res ref_parsed) : Prop :=
  match p, r with
  | Ret p, Ret r =>
      p_conn p = mk_conn (r_rest r) (reqtype c) (r_multibulklen r) (r_bulklen r)
        (match r_error r with Some _ => true | None => close_after_reply c end) /\
      map snd (p_args p) = r_args r /\ p_error p = r_error r /\
      p_ok p = match r_error r with Some _ => false | None => r_multibulklen r =? 0 end
  | Fault f, Fault g => f = g
  | _, _ => False
  end.

Lemma strchr_lt s ch i : strchr s ch = Some i -> (i < length s)%nat.
Proof.
  revert i. induction s as [|c s IH]; intros i; cbn; [done|]. destruct (c =? ch); [intros [= <-]; lia|].
  destruct (c =? 0); [done|]. destruct (strchr s ch) as [j|]; [|done]. intros [= <-]. specialize (IH j eq_refl). lia.
Qed.

(** The header, on the buffer and on the bytes that are left. *)
Lemma read_bulklen_ref c pos s : at_pos c pos s -> small c -> bulklen c = -1 ->
  match read_bulklen c pos, ref_bulklen s with
  | Break, RBreak => True
  | ProtocolError c' msg, RError msg' =>
      msg' = msg /\ c' = mk_conn s (reqtype c) (multibulklen c) (bulklen c) true
  | Next c' pos', RNext ll s' => at_pos c' pos' s' /\ small c' /\ 0 <= ll /\
      c' = mk_conn (querybuf c') (reqtype c) (multibulklen c) ll (close_after_reply c)
  | _, _ => False
  end.
Proof.
  intros Hat Hsm Hb. pose proof (at_pos_length _ _ _ Hat) as Hl. pose proof Hat as [Hp Hd].
  unfold read_bulklen, ref_bulklen. rewrite Hd.
  destruct (strchr s 13) as [off|] eqn:Eoff.
  2:{ destruct (Z.ltb_spec PROTO_INLINE_MAX_SIZE (Z.of_nat (length (querybuf c)))); [unfold small in Hsm; lia|done]. }
  replace (Z.of_nat (length (querybuf c)) - 2 <? pos + Z.of_nat off)
    with (Z.of_nat (length s) - 2 <? Z.of_nat off) by lia.
  destruct (Z.ltb_spec (Z.of_nat (length s) - 2) (Z.of_nat off)) as [|Hlt]; [done|].
  assert (Hfirst : nth (Z.to_nat pos) (querybuf c) 0 = nth 0 s 0).
  { rewrite <- Hd, nth_skipn. by rewrite Nat.add_0_r. }
  rewrite Hfirst. destruct (negb (nth 0 s 0 =? 36)).
  { split; [done|]. unfold setProtocolError. rewrite sdsrange_drop by lia. by rewrite Hd. }
  replace (drop (S (Z.to_nat pos)) (querybuf c)) with (drop 1 s)
    by (rewrite <- Hd, drop_drop; f_equal; lia).
  assert (Herr : setProtocolError c pos = mk_conn s (reqtype c) (multibulklen c) (bulklen c) true).
  { unfold setProtocolError. rewrite sdsrange_drop by lia. by rewrite Hd. }
  destruct (string2ll _) as [ll|]; [|by rewrite Herr].
  destruct ((ll <? 0) || (512 * 1024 * 1024 <? ll)) eqn:Ell; [by rewrite Herr|].
  assert (Hat' : at_pos c (pos + Z.of_nat off + 2) (drop (off + 2) s)).
  { split; [lia|]. rewrite <- Hd, drop_drop. f_equal. lia. }
  destruct (PROTO_MBULK_BIG_ARG <=? ll).
  - destruct Hat' as [Hp' Hd']. assert (Hr : sdsrange (querybuf c) (pos + Z.of_nat off + 2) (-1) = drop (off + 2) s).
    { rewrite sdsrange_drop by lia. exact Hd'. }
    split; [|split; [|split; [lia|done]]].
    + split; [cbn; lia|]. cbn. by rewrite Hr, drop_0.
    + unfold small in *. cbn. rewrite Hr, length_drop. lia.
  - split; [exact Hat'|]. split; [exact Hsm|]. split; [lia|done].
Qed.

(** A turn of the loop, when the turns that follow agree. *)
Section turn.
  Context (fuel : nat) (IH : forall c pos s args, at_pos c pos s -> small c -> -1 <= bulklen c ->
    ended_alike c (bulk_loop fuel c pos args) (ref_loop fuel (multibulklen c) (bulklen c) s (map snd args))).

Lemma end_ref c pos s args : at_pos c pos s -> (multibulklen c =? 0) = false ->
  ended_alike c (Ret (multibulk_end c pos args)) (Ret (mk_ref (multibulklen c) (bulklen c) s (map snd args) None)).
Proof using. intros Hat Em. unfold multibulk_end. rewrite (at_pos_trim _ _ _ Hat). cbn. by rewrite Em. Qed.

(** [c'] is the connection after the length [ll] has been read from [c]. *)
Lemma arg_ref c c' pos' ll s' args : at_pos c' pos' s' -> small c' -> 0 <= ll -> (multibulklen c =? 0) = false ->
  c' = mk_conn (querybuf c') (reqtype c) (multibulklen c) ll (close_after_reply c) ->
  ended_alike c
    (let buf := querybuf c' in let len := Z.of_nat (length buf) in
     if len - pos' <? bulklen c' + 2 then Ret (multibulk_end c' pos' args)
     else
       let arg := take (Z.to_nat (bulklen c')) (drop (Z.to_nat pos') buf) in
       let read c := with_bulklen (-1) (with_multibulklen (multibulklen c - 1) c) in
       if (pos' =? 0) && (PROTO_MBULK_BIG_ARG <=? bulklen c') && (len =? bulklen c' + 2) then
         bulk_loop fuel (read (with_buf [] c')) 0 (args ++ [(true, arg)])
       else bulk_loop fuel (read c') (pos' + bulklen c' + 2) (args ++ [(false, arg)]))
    (if Z.of_nat (length s') <? ll + 2 then Ret (mk_ref (multibulklen c) ll s' (map snd args) None)
     else ref_loop fuel (multibulklen c - 1) (-1) (drop (Z.to_nat (ll + 2)) s') (map snd args ++ [take (Z.to_nat ll) s'])).
Proof using IH.
  intros Hat' Hsm' Hll Em Ec'. pose proof (at_pos_length _ _ _ Hat') as Hl'. cbv zeta.
  assert (Eb : bulklen c' = ll) by (by rewrite Ec'). assert (Emb : multibulklen c' = multibulklen c) by (by rewrite Ec').
  assert (Er : reqtype c' = reqtype c) by (by rewrite Ec').
  assert (Ecl : close_after_reply c' = close_after_reply c) by (by rewrite Ec').
  rewrite Eb. replace (Z.of_nat (length (querybuf c')) - pos' <? ll + 2) with (Z.of_nat (length s') <? ll + 2) by lia.
  destruct (Z.ltb_spec (Z.of_nat (length s')) (ll + 2)) as [|Hge].
  { pose proof (end_ref c' pos' s' args Hat') as He. rewrite Emb, Eb in He. specialize (He Em).
    unfold ended_alike in He |- *. rewrite Er, Ecl in He. exact He. }
  destruct Hat' as [Hp' Hd']. rewrite Hd'.
  assert (Emap : forall b, map snd args ++ [take (Z.to_nat ll) s'] = map snd (args ++ [(b, take (Z.to_nat ll) s')]))
    by (intros b; by rewrite map_app).
  assert (Hnext : forall b c2 pos2, at_pos c2 pos2 (drop (Z.to_nat (ll + 2)) s') -> small c2 ->
    c2 = mk_conn (querybuf c2) (reqtype c) (multibulklen c - 1) (-1) (close_after_reply c) ->
    ended_alike c (bulk_loop fuel c2 pos2 (args ++ [(b, take (Z.to_nat ll) s')]))
      (ref_loop fuel (multibulklen c - 1) (-1) (drop (Z.to_nat (ll + 2)) s') (map snd args ++ [take (Z.to_nat ll) s']))).
  { intros b c2 pos2 H1 H2 E2. rewrite (Emap b). specialize (IH c2 pos2 _ (args ++ [(b, take (Z.to_nat ll) s')]) H1 H2).
    rewrite E2 in IH |- *. apply IH. cbn. lia. }
  destruct ((pos' =? 0) && _ && _) eqn:Ebig; apply Hnext.
  - split; [cbn; lia|]. cbn. symmetry. apply drop_ge. lia.
  - unfold small, PROTO_INLINE_MAX_SIZE. cbn. lia.
  - unfold with_bulklen, with_multibulklen, with_buf. cbn. by rewrite Er, Emb, Ecl.
  - split; [cbn; lia|]. cbn. rewrite <- Hd', drop_drop. f_equal. lia.
  - exact Hsm'.
  - unfold with_bulklen, with_multibulklen. cbn. by rewrite Er, Emb, Ecl.
Qed.
End turn.

Lemma bulk_loop_ref fuel c pos s args : at_pos c pos s -> small c -> -1 <= bulklen c ->
  ended_alike c (bulk_loop fuel c pos args) (ref_loop fuel (multibulklen c) (bulklen c) s (map snd args)).
Proof.
  revert c pos s args. induction fuel as [|fuel IH]; intros c pos s args Hat Hsm Hb; cbn [bulk_loop ref_loop];
    destruct (multibulklen c =? 0) eqn:Em.
  1,3: unfold multibulk_end; rewrite (at_pos_trim _ _ _ Hat); cbn; by rewrite Em.
  { done. }
  destruct (Z.eqb_spec (bulklen c) (-1)) as [Eb|Eb].
  - pose proof (read_bulklen_ref c pos s Hat Hsm Eb) as Hr.
    destruct (read_bulklen c pos) as [|c' msg|c' pos'], (ref_bulklen s) as [|msg'|ll s']; try done.
    + by apply end_ref.
    + destruct Hr as [-> ->]. cbn. done.
    + destruct Hr as (H1 & H2 & H3 & H4). by apply arg_ref.
  - apply arg_ref; [done|done|done|lia|done|by destruct c].
Qed.

(** More bytes do not change what was read. *)
Lemma strchr_more s t ch i : strchr s ch = Some i -> strchr (s ++ t) ch = Some i.
Proof.
  revert i. induction s as [|c s IH]; intros i; cbn; [done|]. destruct (c =? ch); [done|].
  destruct (c =? 0); [done|]. destruct (strchr s ch) as [j|]; [|done]. intros [= <-]. by rewrite (IH j).
Qed.

Lemma ref_bulklen_more s t ll s' : ref_bulklen s = RNext ll s' ->
  ref_bulklen (s ++ t) = RNext ll (s' ++ t) /\ 0 <= ll.
Proof.
  unfold ref_bulklen. destruct (strchr s 13) as [off|] eqn:E; [|done]. pose proof (strchr_lt _ _ _ E) as Hoff.
  rewrite (strchr_more _ t _ _ E). destruct (Z.ltb_spec (Z.of_nat (length s) - 2) (Z.of_nat off)); [done|].
  destruct (Z.ltb_spec (Z.of_nat (length (s ++ t)) - 2) (Z.of_nat off)) as [Hlt|_];
    [rewrite length_app in Hlt; lia|].
  destruct s as [|c s1]; [cbn in Hoff; lia|]. cbn [app nth]. destruct (negb (c =? 36)); [done|].
  assert (Et : take (off - 1) (drop 1 (c :: s1 ++ t)) = take (off - 1) (drop 1 (c :: s1))).
  { cbn [drop]. rewrite drop_0, take_app_le; [done|]. cbn in *. lia. }
  rewrite Et. destruct (string2ll _) as [v|]; [|done].
  destruct ((v <? 0) || (512 * 1024 * 1024 <? v)) eqn:Ev; [done|]. intros [= <- <-].
  split; [|lia]. f_equal. rewrite (app_comm_cons s1 t c). rewrite drop_app_le; [done|]. cbn in *. lia.
Qed.

Lemma ref_resume fuel mb bl s args t r : ref_loop fuel mb bl s args = Ret r -> r_error r = None ->
  r_multibulklen r <> 0 -> fuel = Z.to_nat mb -> -1 <= bl ->
  ref_loop fuel mb bl (s ++ t) args =
    ref_loop (Z.to_nat (r_multibulklen r)) (r_multibulklen r) (r_bulklen r) (r_rest r ++ t) (r_args r).
Proof.
  revert mb bl s args. induction fuel as [|fuel IH]; intros mb bl s args; cbn [ref_loop].
  { destruct (mb =? 0) eqn:E; [|done]. intros [= <-] _ Hn. cbn in Hn. lia. }
  destruct (mb =? 0) eqn:Em; [intros [= <-] _ Hn; cbn in Hn; lia|].
  assert (Harg : forall ll s', 0 <= ll ->
    (if Z.of_nat (length s') <? ll + 2 then Ret (mk_ref mb ll s' args None)
     else ref_loop fuel (mb - 1) (-1) (drop (Z.to_nat (ll + 2)) s') (args ++ [take (Z.to_nat ll) s'])) = Ret r ->
    r_error r = None -> r_multibulklen r <> 0 -> S fuel = Z.to_nat mb ->
    (if Z.of_nat (length (s' ++ t)) <? ll + 2 then Ret (mk_ref mb ll (s' ++ t) args None)
     else ref_loop fuel (mb - 1) (-1) (drop (Z.to_nat (ll + 2)) (s' ++ t)) (args ++ [take (Z.to_nat ll) (s' ++ t)])) =
    ref_loop (Z.to_nat (r_multibulklen r)) (r_multibulklen r) (r_bulklen r) (r_rest r ++ t) (r_args r)).
  { intros ll s' Hll E He Hn Hf. destruct (Z.ltb_spec (Z.of_nat (length s')) (ll + 2)) as [Hlt|Hge].
    - injection E as <-. cbn [r_multibulklen r_bulklen r_rest r_args]. rewrite <- Hf. cbn [ref_loop]. rewrite Em.
      destruct (Z.eqb_spec ll (-1)); [lia|]. done.
    - destruct (Z.ltb_spec (Z.of_nat (length (s' ++ t))) (ll + 2)) as [Hlt|_]; [rewrite length_app in Hlt; lia|].
      rewrite drop_app_le, take_app_le by lia. apply IH; [done|done|done|lia|lia]. }
  intros E He Hn Hf Hb. destruct (Z.eqb_spec bl (-1)) as [->|Hbl]; [|apply Harg; [lia|done|done|done|done]].
  destruct (ref_bulklen s) as [|msg|ll s'] eqn:Er.
  - injection E as <-. cbn [r_multibulklen r_bulklen r_rest r_args]. rewrite <- Hf. cbn [ref_loop]. by rewrite Em.
  - injection E as <-. done.
  - destruct (ref_bulklen_more s t ll s' Er) as [-> Hll]. by apply Harg.
Qed.

(** The arguments read before are carried along. *)
Definition prepend (pre : list (list Z)) (r : res ref_parsed) : res ref_parsed :=
  match r with
  | Ret r => Ret (mk_ref (r_multibulklen r) (r_bulklen r) (r_rest r) (pre ++ r_args r) (r_error r))
  | Fault f => Fault f
  end.

Lemma ref_loop_args fuel mb bl s pre args : ref_loop fuel mb bl s (pre ++ args) = prepend pre (ref_loop fuel mb bl s args).
Proof.
  revert mb bl s args. induction fuel as [|fuel IH]; intros mb bl s args; cbn [ref_loop]; destruct (mb =? 0); try done.
  destruct (if bl =? -1 then ref_bulklen s else RNext bl s) as [| |bl' s']; try done.
  destruct (_ <? _); [done|]. by rewrite <- app_assoc, IH.
Qed.

Lemma ref_loop_range fuel mb bl s args r : ref_loop fuel mb bl s args = Ret r -> 0 <= mb -> -1 <= bl ->
  0 <= r_multibulklen r /\ -1 <= r_bulklen r.
Proof.
  revert mb bl s args. induction fuel as [|fuel IH]; intros mb bl s args; cbn [ref_loop];
    destruct (Z.eqb_spec mb 0); try done; try (by intros [= <-]).
  intros E Hm Hb. destruct (Z.eqb_spec bl (-1)) as [->|Hbl].
  - destruct (ref_bulklen s) as [|msg|ll s'] eqn:Er; [by injection E as <-|by injection E as <-|].
    destruct (ref_bulklen_more s [] ll s' Er) as [_ Hll]. destruct (_ <? _); [injection E as <-; cbn; lia|].
    eapply IH; [exact E|lia|lia].
  - destruct (_ <? _); [injection E as <-; cbn; lia|]. eapply IH; [exact E|lia|lia].
Qed.

Lemma ref_bulklen_rest s ll s' : ref_bulklen s = RNext ll s' -> (length s' <= length s)%nat.
Proof.
  unfold ref_bulklen. destruct (strchr s 13) as [off|]; [|done]. destruct (_ <? _); [done|]. destruct (negb _); [done|].
  destruct (string2ll _) as [v|]; [|done]. destruct (_ || _); [done|]. intros [= <- <-]. rewrite length_drop. lia.
Qed.

Lemma ref_loop_rest fuel mb bl s args r : ref_loop fuel mb bl s args = Ret r -> (length (r_rest r) <= length s)%nat.
Proof.
  revert mb bl s args. induction fuel as [|fuel IH]; intros mb bl s args; cbn [ref_loop];
    destruct (mb =? 0); try done; try (by intros [= <-]).
  destruct (if bl =? -1 then ref_bulklen s else RNext bl s) as [|msg|bl' s'] eqn:Er; try (by intros [= <-]).
  assert (Hs : (length s' <= length s)%nat).
  { destruct (bl =? -1); [by eapply ref_bulklen_rest|]. by injection Er as <- <-. }
  destruct (_ <? _); [intros [= <-]; done|]. intros E%IH. rewrite length_drop in E. lia.
Qed.

(** Reading the whole and reading the second piece after the first, where
    [args] had been read, end alike. *)
Definition resumed (args : list (list Z)) (whole second : res parsed) : Prop :=
  match whole, second with
  | Ret p, Ret q =>
      p_conn p = p_conn q /\ map snd (p_args p) = args ++ map snd (p_args q) /\
      p_error p = p_error q /\ p_ok p = p_ok q
  | Fault f, Fault g => f = g
  | _, _ => False
  end.

Lemma alike_resumed args c d p q r : ended_alike c p (prepend args r) -> ended_alike d q r ->
  reqtype c = reqtype d -> close_after_reply c = close_after_reply d -> resumed args p q.
Proof.
  intros Hp Hq Er Ec. unfold ended_alike, resumed in *. destruct p as [p|f], q as [q|g], r as [r|h]; try done; cbn in *.
  - destruct Hp as (-> & -> & -> & ->), Hq as (-> & -> & -> & ->). by rewrite Er, Ec.
  - congruence.
Qed.

(** The loop stopped for want of bytes and goes on with [more]. *)
Lemma bulk_resume c pos s more p n : at_pos c pos s -> small (receive more c) -> 0 <= multibulklen c -> -1 <= bulklen c ->
  bulk_loop (Z.to_nat (multibulklen c)) c pos [] = Ret p -> p_ok p = false -> p_error p = None ->
  resumed (map snd (p_args p)) (bulk_loop (Z.to_nat (multibulklen c)) (receive more c) pos [])
    (processMultibulkBuffer n (receive more (p_conn p))).
Proof.
  intros Hat Hsm Hm Hb E Hok Herr.
  assert (Hsm0 : small c) by (unfold small in *; cbn in Hsm; rewrite length_app in Hsm; lia).
  pose proof (bulk_loop_ref (Z.to_nat (multibulklen c)) c pos s [] Hat Hsm0 Hb) as Hr. rewrite E in Hr. cbn [map] in Hr.
  destruct (ref_loop _ _ _ s []) as [r|] eqn:Er; [|done].
  destruct Hr as (Ec & Ea & Ee & Eo). rewrite Herr in Ee. rewrite <- Ee in Ec, Eo. rewrite Hok in Eo.
  assert (Hr0 : r_multibulklen r <> 0) by lia. destruct (ref_loop_range _ _ _ _ _ _ Er Hm Hb) as [Hr1 Hr2].
  assert (Hat' : at_pos (receive more c) pos (s ++ more)).
  { destruct Hat as [Hp <-]. split; [cbn; rewrite length_app; lia|]. cbn. by rewrite drop_app_le by lia. }
  pose proof (bulk_loop_ref (Z.to_nat (multibulklen c)) (receive more c) pos (s ++ more) [] Hat' Hsm Hb) as Hw.
  cbn [receive with_buf multibulklen bulklen map] in Hw.
  rewrite (ref_resume _ _ _ _ _ _ _ Er) in Hw by (done || lia).
  rewrite <- (app_nil_r (r_args r)), ref_loop_args, <- Ea in Hw.
  apply (alike_resumed _ _ (receive more (p_conn p)) _ _ _ Hw); [| |].
  - unfold processMultibulkBuffer. rewrite Ec. cbn [receive with_buf multibulklen bulklen querybuf].
    destruct (Z.eqb_spec (r_multibulklen r) 0); [done|]. destruct (Z.ltb_spec (r_multibulklen r) 0); [lia|].
    refine (bulk_loop_ref _ (mk_conn (r_rest r ++ more) (reqtype c) (r_multibulklen r) (r_bulklen r) (close_after_reply c))
      0 (r_rest r ++ more) [] _ _ _); [split; [cbn; lia|done]| |exact Hr2].
    pose proof (ref_loop_rest _ _ _ _ _ _ Er). pose proof (at_pos_length _ _ _ Hat). destruct Hat.
    unfold small in *. cbn in Hsm |- *. rewrite length_app in Hsm |- *. lia.
  - cbn. by rewrite Ec.
  - cbn. by rewrite Ec.
Qed.

Lemma receive_header c more newline : strchr (querybuf c) 13 = Some newline ->
  Z.of_nat newline <= Z.of_nat (length (querybuf c)) - 2 ->
  strchr (querybuf (receive more c)) 13 = Some newline /\
  (Z.of_nat (length (querybuf (receive more c))) - 2 <? Z.of_nat newline) = false /\
  nth 0 (querybuf (receive more c)) 0 = nth 0 (querybuf c) 0 /\
  take (newline - 1) (drop 1 (querybuf (receive more c))) = take (newline - 1) (drop 1 (querybuf c)).
Proof.
  intros E Hl. cbn [receive with_buf querybuf]. split; [by apply strchr_more|].
  split; [rewrite length_app; apply Z.ltb_ge; lia|].
  destruct (querybuf c) as [|b buf]; [cbn in Hl; lia|]. split; [done|].
  cbn [app drop]. rewrite !drop_0, take_app_le; [done|]. cbn in Hl. lia.
Qed.

(** C19: a request may arrive in pieces.  When the buffer ends before the
    request does, without an error, reading it with [more] bytes after it, and
    reading on with
    [more] from where the parser stopped, end in the same connection, with
    the same arguments, the same error and the same verdict: the cuts of the
    network do not show, as long as the buffer with the new bytes is not larger
    than PROTO_INLINE_MAX_SIZE. *)
Theorem multibulk_resume (n : Z) (c : conn) (more : list Z) (p : parsed) :
  0 <= multibulklen c -> -1 <= bulklen c -> small (receive more c) ->
  processMultibulkBuffer n c = Ret p -> p_ok p = false -> p_error p = None ->
  resumed (map snd (p_args p)) (processMultibulkBuffer n (receive more c))
    (processMultibulkBuffer (n + Z.of_nat (length (p_args p))) (receive more (p_conn p))).
Proof.
  intros Hm Hb Hsm E Hok Herr. unfold processMultibulkBuffer in E.
  assert (Hsame : p = mk_parsed c [] None false -> resumed (map snd (p_args p)) (processMultibulkBuffer n (receive more c))
    (processMultibulkBuffer (n + Z.of_nat (length (p_args p))) (receive more (p_conn p)))).
  { intros ->. cbn [p_args p_conn length map Z.of_nat]. rewrite Z.add_0_r.
    destruct (processMultibulkBuffer n (receive more c)); done. }
  destruct (Z.eqb_spec (multibulklen c) 0) as [E0|E0].
  - destruct (negb (n =? 0)) eqn:En; [done|].
    destruct (strchr (querybuf c) 13) as [newline|] eqn:Enl.
    2:{ destruct (_ <? _); injection E as <-; [done|by apply Hsame]. }
    destruct (Z.ltb_spec (Z.of_nat (length (querybuf c)) - 2) (Z.of_nat newline)); [injection E as <-; by apply Hsame|].
    destruct (receive_header c more newline Enl) as (Enl' & El' & Ef' & Ed'); [lia|].
    unfold processMultibulkBuffer at 1. cbn [receive with_buf multibulklen].
    rewrite E0. cbn [Z.eqb]. rewrite En, Enl', El', Ef', Ed'.
    destruct (negb (nth 0 (querybuf c) 0 =? 42)); [done|].
    destruct (string2ll _) as [ll|]; [|injection E as <-; done].
    destruct (Z.ltb_spec (1024 * 1024) ll); [injection E as <-; done|].
    destruct (Z.leb_spec ll 0); [injection E as <-; done|].
    eapply (bulk_resume (with_multibulklen ll c) (Z.of_nat newline + 2)); try done; [split; [|done]|]; cbn; lia.
  - destruct (multibulklen c <? 0) eqn:En; [done|].
    unfold processMultibulkBuffer at 1. cbn [receive with_buf multibulklen].
    destruct (Z.eqb_spec (multibulklen c) 0); [done|]. rewrite En.
    apply (bulk_resume c 0 (querybuf c) more p _); try done. split; [lia|done].
Qed.

Lemma multibulk_resume_witness :
  let c := mk_conn (bytes_of_string "*2" ++ [13; 10] ++ bytes_of_string "$3" ++ [13; 10] ++ bytes_of_string "GE")
    (Some PROTO_REQ_MULTIBULK) 0 (-1) false in
  let more := bytes_of_string "T" ++ [13; 10] ++ bytes_of_string "$1" ++ [13; 10] ++ bytes_of_string "k" ++ [13; 10] in
  exists p, processMultibulkBuffer 0 c = Ret p /\ multibulklen (p_conn p) = 2 /\ bulklen (p_conn p) = 3 /\
    resumed [] (processMultibulkBuffer 0 (receive more c)) (processMultibulkBuffer 0 (receive more (p_conn p))).
Proof.
  intros c more. eexists. split; [reflexivity|]. split; [reflexivity|]. split; [reflexivity|].
  apply (multibulk_resume 0 c more); [cbn; lia|cbn; lia|vm_compute; discriminate|reflexivity|reflexivity|reflexivity].
Defined.
