(* ===== verification/Pipeline.v ===== *)
(** * Pipeline: from the bytes of the client to the effects of its requests

    The composition of the protocol parser, the execution of commands and
    the release of the arguments: a buffer that holds requests one after
    the other is served as the specification serves the list of requests. *)

From S2P Require Import Prelude Util Object Db ServerOk Abstract ServerSim TString ValueSim AString StringSim.
From S2P Require Import Keyspace AKeyspace Frame KeyspaceSim Server ServerRefine Sds SdsProofs Protocol.
From S2P Require Import ProtocolProofs.

(** ** Specification *)

(** One request: its arguments, the command, and none after it. *)
Definition aserve (table : spec_table) (r : list (list Z)) : AM outcome :=
  _ ← aset_args r;
  o ← aprocessCommand table;
  match o with
  | C_OK => _ ← aset_args []; mret C_OK
  | CLOSE_AFTER_REPLY => mret CLOSE_AFTER_REPLY
  end.

(** The requests in order, up to one that closes the connection. *)
Fixpoint aserve_all (table : spec_table) (rs : list (list (list Z))) : AM bool :=
  match rs with
  | [] => mret false
  | r :: rs =>
      o ← aserve table r;
      match o with
      | C_OK => aserve_all table rs
      | CLOSE_AFTER_REPLY => mret true
      end
  end.

(** ** The objects of the arguments *)

Lemma raw_push s a k : raw_args any s -> is_sds s a k -> raw_args any (with_argv (argv s ++ [a]) s).
Proof.
  intros H Ha i b _ Hb. cbn in Hb. apply lookup_app_Some in Hb as [Hb|[_ Hb]]; [by apply (H i b)|].
  apply list_lookup_singleton_Some in Hb as [_ <-]. by exists k.
Qed.

(** A new string, by either function. *)
Lemma push_arg_spec f s : server_ok s -> raw_args any s -> Z.of_nat (length f.2) <= ALLOC_MAX ->
  exists s', push_arg f s = Ret (tt, s') /\ server_ok s' /\ raw_args any s' /\
    length (argv s') = S (length (argv s)) /\
    abs s' = mk_astate (adbs (abs s)) (aargs (abs s) ++ [f.2]) (acur (abs s)) (acf (abs s)) (alg (abs s)).
Proof.
  intros Hok Hraw Hl. unfold push_arg, mbind, M_bind.
  assert (Hcreate : exists s1 r, (if f.1 then createRawStringObject f.2 else createStringObject f.2) s = Ret (brk s, s1) /\
    type r = OBJ_STRING /\ sdsEncodedObject r = true /\ ptr r = PSds f.2 /\ obj_ok r /\
    ok (fun b => 0 + tok (brk s) b) s1 /\ abs s1 = abs s /\ kept s s1 /\ heap s1 = <[brk s := r]> (heap s)).
  { destruct f as [[] str]; cbn [fst snd] in *.
    - destruct (createObject_spec x0 s (PSds str) Hok) as (s1 & r & E & -> & H1 & H2 & H3 & H4 & H5 & H6); [done|].
      exists s1, (mk_robj OBJ_STRING OBJ_ENCODING_RAW (lruclock (cf s)) 1 (PSds str)). split; [exact E|]. by split_and!.
    - destruct (createStringObject_spec x0 s str Hok Hl) as (s1 & r & E & ? & ? & ? & ? & ? & ? & ? & ? & ? & ? & ?).
      exists s1, r. by split_and!. }
  destruct Hcreate as (s1 & r & E & Ht & He & Hp & Hor & Hok1 & Ha1 & Hk1 & Hh1). rewrite E.
  unfold get, set_argv. set (a := brk s) in *.
  assert (Hr1 : heap s1 !! a = Some r) by (by rewrite Hh1, lookup_insert_eq).
  assert (Hsds : is_sds s1 a f.2) by (exists r; by split_and!).
  exists (with_argv (argv s1 ++ [a]) s1). split; [done|]. split; [|split; [|split]].
  - eapply ok_ext; [|apply (with_argv_ok _ s1 (argv s1 ++ [a]) Hok1)].
    + intros b. cbv beta. rewrite argv_refs_app. cbn. lia.
    + intros b Hb. apply elem_of_app in Hb as [Hb|Hb].
      * destruct (args_live _ s1 b Hok1 Hb) as [o Ho]. exists o. split; [done|]. by eapply ok_args.
      * apply list_elem_of_singleton in Hb as ->. by exists r.
  - eapply raw_push; [by eapply raw_kept|exact Hsds].
  - cbn. rewrite length_app. destruct Hk1 as (-> & _). cbn. lia.
  - rewrite <- Ha1. unfold abs. cbn. f_equal. rewrite fmap_app. cbn.
    rewrite (abs_arg_str _ _ r) by done. unfold string_of. by rewrite Hp.
Qed.

Lemma push_args_spec l s : server_ok s -> raw_args any s -> Forall (fun f => Z.of_nat (length f.2) <= ALLOC_MAX) l ->
  exists s', push_args l s = Ret (tt, s') /\ server_ok s' /\ raw_args any s' /\
    length (argv s') = (length (argv s) + length l)%nat /\
    abs s' = mk_astate (adbs (abs s)) (aargs (abs s) ++ map snd l) (acur (abs s)) (acf (abs s)) (alg (abs s)).
Proof.
  intros Hok Hraw Hl. revert s Hok Hraw. induction Hl as [|f l Hf Hl IH]; intros s Hok Hraw.
  - exists s. split; [done|]. do 2 (split; [done|]). split; [cbn; lia|]. cbn. by rewrite app_nil_r.
  - destruct (push_arg_spec f s Hok Hraw Hf) as (s1 & E1 & Hok1 & Hraw1 & Hn1 & Ha1).
    destruct (IH s1 Hok1 Hraw1) as (s2 & E2 & Hok2 & Hraw2 & Hn2 & Ha2).
    exists s2. cbn [push_args]. unfold mbind, M_bind. rewrite E1, E2. split; [done|]. do 2 (split; [done|]).
    split; [cbn; lia|]. rewrite Ha2, Ha1. cbn. by rewrite <- app_assoc.
Qed.

(** ** Serving *)

(** A connection between two requests. *)
Definition idle (bytes : list Z) : conn := mk_conn bytes None 0 (-1) false.

Lemma encode_nonempty r rest : encode_request r ++ rest <> [].
Proof. done. Qed.

(** The server as it is between two requests. *)
Definition between (s : server) : Prop := server_ok s /\ argv s = [].

Lemma request_alloc r l : request_ok r -> map snd l = r ->
  Forall (fun f : found_arg => Z.of_nat (length f.2) <= ALLOC_MAX) l.
Proof.
  intros (_ & _ & H) <-. induction l as [|f l IH]; [done|]. apply Forall_cons in H as [H1 H2].
  constructor; [unfold ALLOC_MAX; lia|auto].
Qed.

(** The requests are served; [rest] is what is left to read. *)
Lemma input_loop_sim (table : spec_table) rs : forall fuel s, table_ok table -> between s -> Forall request_ok rs ->
  (length (concat (map encode_request rs)) < fuel)%nat ->
  sim s (input_loop (map fst table) fuel (idle (concat (map encode_request rs)))) (aserve_all table rs)
    (fun s' c closed => server_ok s' /\ close_after_reply c = closed /\ (closed = false -> c = idle [] /\ argv s' = [])).
Proof.
  induction rs as [|r rs IH]; intros fuel s Ht [Hok Harg] Hrs Hf.
  { destruct fuel; cbn [input_loop map concat idle querybuf aserve_all];
      rewrite bool_decide_true by done; by apply sim_ret. }
  apply Forall_cons in Hrs as [Hr Hrs]. cbn [map concat] in *. set (rest := concat (map encode_request rs)) in *.
  destruct fuel as [|fuel]; [lia|]. cbn [input_loop aserve_all].
  rewrite bool_decide_false by apply encode_nonempty. cbn [close_after_reply idle].
  assert (Ec : with_reqtype (idle (encode_request r ++ rest)) =
    mk_conn (encode_request r ++ rest) (Some PROTO_REQ_MULTIBULK) 0 (-1) false) by done.
  rewrite Ec. set (c := mk_conn _ _ 0 _ _).
  destruct (multibulk_ok r rest c Hr eq_refl eq_refl eq_refl) as (l & El & Ep).
  eapply sim_read; [apply argc_at|]. rewrite Harg.
  change (parse_request (Z.of_nat (length [])) c) with (processMultibulkBuffer 0 c).
  rewrite Ep. cbn [p_args p_error p_ok p_conn negb].
  destruct (push_args_spec l s Hok) as (s1 & E1 & Hok1 & Hraw1 & Hn1 & Ha1).
  { intros i a _ Hi. by rewrite Harg in Hi. }
  { by eapply request_alloc. }
  rewrite Harg in Hn1. cbn in Hn1. assert (Hnr : length (argv s1) = length r) by (rewrite Hn1, <- El; by rewrite length_map).
  assert (Ha1' : aset_args r (abs s) = Ret (tt, abs s1)).
  { unfold aset_args. rewrite Ha1. cbn. by rewrite Harg, El. }
  unfold aserve. apply sim_assoc_r. eapply sim_both; [exact E1|exact Ha1'|]. eapply sim_read; [done|].
  eapply sim_read; [apply argc_at|]. destruct Hr as (Hr1 & Hr2 & _).
  destruct (Z.eqb_spec (Z.of_nat (length (argv s1))) 0); [lia|].
  apply sim_assoc_r. eapply sim_bind; [apply processCommand_sim; [done|by split|unfold argc_ok; lia]|].
  intros s2 o o' (-> & Hok2). destruct o.
  - apply sim_assoc_r. eapply sim_bind; [by apply resetClient_sim|]. intros s3 [] [] (Hok3 & Harg3).
    eapply sim_right; [done|]. apply (IH fuel s3); [done|by split|done|]. rewrite length_app in Hf. cbn in Hf. lia.
  - eapply sim_right; [done|]. destruct fuel as [|fuel]; cbn [input_loop querybuf close_after_reply].
    + destruct (bool_decide _) eqn:Eb; [by apply sim_ret|]. rewrite length_app in Hf. cbn in Hf. lia.
    + destruct (bool_decide _); by apply sim_ret.
Qed.
