(* ===== verification/Safety.v ===== *)
(** * Safety: no request makes a command fail an assertion or go astray

    A fault analysis of the specifications of the commands: with the number
    of arguments that the table asks for, a command faults only where a
    signed integer overflows or memory runs out.  Together with the
    refinement this says that the code reads no freed object, indexes no
    array out of bounds and fails no assertion. *)

From S2P Require Import Prelude Util Object Db ServerOk Abstract TString AString Keyspace AKeyspace Server ServerRefine.

(** The faults that remain. *)
Definition soft (f : fault) : Prop := f = Overflow \/ f = OutOfMemory.

(** [L] databases, [N] arguments. *)
Definition aok (L : Z) (N : nat) (t : astate) : Prop :=
  Z.of_nat (length (adbs t)) = L /\ 0 <= acur t < L /\ length (aargs t) = N.

Definition benign {A} (L : Z) (N : nat) (m : AM A) : Prop := forall t, aok L N t ->
  match m t with
  | Ret (_, t') => aok L N t'
  | Fault f => soft f
  end.

(** The same for a whole command, which may replace the arguments. *)
Definition safe_spec (N : nat) (m : AM unit) : Prop := forall L t, aok L N t ->
  match m t with
  | Ret (_, t') => exists N', aok L N' t'
  | Fault f => soft f
  end.

Create HintDb safe.

Section rules.
  Context (L : Z) (N : nat).

Lemma benign_ret {A} (a : A) : benign L N (mret a).
Proof. by intros t H. Qed.
Lemma benign_bind {A B} (m : AM A) (k : A -> AM B) :
  benign L N m -> (forall a, benign L N (k a)) -> benign L N (m ≫= k).
Proof.
  intros Hm Hk t Ht. unfold mbind, AM_bind. specialize (Hm t Ht). destruct (m t) as [[a t']|f]; [|done]. by apply Hk.
Qed.
Lemma benign_cur {B} (k : Z -> AM B) : (forall d, 0 <= d < L -> benign L N (k d)) -> benign L N (aget acur ≫= k).
Proof. intros Hk t Ht. apply Hk; [apply Ht|exact Ht]. Qed.
Lemma benign_argc {B} (k : Z -> AM B) : benign L N (k (Z.of_nat N)) -> benign L N (aargc ≫= k).
Proof.
  intros Hk t Ht. unfold mbind, AM_bind, aargc, aget. pose proof Ht as (_ & _ & E). rewrite E. by apply Hk.
Qed.
Lemma benign_dbnum {B} (k : Z -> AM B) : benign L N (k L) -> benign L N (aget (fun t => Z.of_nat (length (adbs t))) ≫= k).
Proof.
  intros Hk t Ht. unfold mbind, AM_bind, aget. pose proof Ht as (E & _). rewrite E. by apply Hk.
Qed.
Lemma benign_get {A} (f : astate -> A) : benign L N (aget f).
Proof. by intros t H. Qed.
Lemma benign_record f : benign L N (arecord f).
Proof. by intros t H. Qed.
Lemma benign_reply bs : benign L N (areply bs).
Proof. by intros t H. Qed.
Lemma benign_arg j : (j < N)%nat -> benign L N (aarg j).
Proof.
  intros Hj t (H1 & H2 & H3). unfold aarg. destruct (aargs t !! j) eqn:E; [done|].
  apply lookup_ge_None in E. lia.
Qed.
Lemma benign_get_db d : 0 <= d < L -> benign L N (aget_db d).
Proof.
  intros Hd t (H1 & H2 & H3). unfold aget_db. destruct (Z.ltb_spec d 0); [lia|].
  destruct (adbs t !! Z.to_nat d) eqn:E; [done|]. apply lookup_ge_None in E. lia.
Qed.
Lemma benign_set_db d db : benign L N (aset_db d db).
Proof. intros t (H1 & H2 & H3). split; [cbn; by rewrite length_insert|done]. Qed.
Lemma benign_all_of v : benign L N (all_of v).
Proof. intros t H. unfold all_of. destruct (_ && _); [done|by left]. Qed.
Lemma benign_oom {A} : benign L N (afail (A := A) OutOfMemory).
Proof. intros t H. by right. Qed.
Lemma benign_overflow {A} : benign L N (afail (A := A) Overflow).
Proof. intros t H. by left. Qed.
End rules.

#[export] Hint Resolve benign_ret benign_get benign_record benign_reply benign_arg benign_get_db benign_set_db
  benign_all_of benign_oom benign_overflow : safe.

(** Take the code apart; the goals left are about positions and databases. *)
Ltac benign := repeat first
  [ progress intros | solve [auto with safe lia]
  | apply benign_cur | apply benign_argc | apply benign_dbnum | apply benign_bind
  | match goal with |- benign _ _ (match ?e with _ => _ end) => destruct e eqn:? end ].

Section keyspace.
  Context (L : Z) (N : nat) (d : Z) (Hd : 0 <= d < L).

Lemma benign_delete k : benign L N (adelete d k).
Proof using Hd. unfold adelete. benign. Qed.
Lemma benign_store k v : benign L N (astore d k v).
Proof using Hd. unfold astore. benign. Qed.
Lemma benign_set_expire k w : benign L N (aset_expire d k w).
Proof using Hd. unfold aset_expire. benign. Qed.
Lemma benign_expire k : benign L N (aexpire d k).
Proof using Hd. unfold aexpire. benign. Qed.
Lemma benign_expireIfNeeded k : benign L N (aexpireIfNeeded d k).
Proof using Hd. unfold aexpireIfNeeded, adelete. benign. Qed.
Lemma benign_lookupWrite k : benign L N (alookupWrite d k).
Proof using Hd. unfold alookupWrite, alookup. apply benign_bind; [apply benign_expireIfNeeded|]. benign. Qed.
Lemma benign_lookupRead k : benign L N (alookupRead d k).
Proof using Hd. unfold alookupRead, alookup. apply benign_bind; [apply benign_expireIfNeeded|]. benign. Qed.
End keyspace.

#[export] Hint Resolve benign_delete benign_store benign_set_expire benign_expire benign_expireIfNeeded
  benign_lookupWrite benign_lookupRead : safe.

Section values.
  Context (L : Z) (N : nat).

Lemma benign_bulk s : benign L N (aReplyBulk s).
Proof. unfold aReplyBulk. benign. Qed.
Lemma benign_longlong n : benign L N (aReplyLongLong n).
Proof. unfold aReplyLongLong. benign. Qed.
Lemma benign_multibulk n : benign L N (aReplyMultiBulkLen n).
Proof. unfold aReplyMultiBulkLen. benign. Qed.
Lemma benign_error e : benign L N (aReplyError e).
Proof. unfold aReplyError. benign. Qed.
Lemma benign_status e : benign L N (aReplyStatus e).
Proof. unfold aReplyStatus. benign. Qed.
Lemma benign_notify c e k d : benign L N (anotify c e k d).
Proof. unfold anotify. benign. Qed.
End values.
#[export] Hint Resolve benign_bulk benign_longlong benign_multibulk benign_error benign_status benign_notify : safe.

Section commands.
  Context (L : Z) (N : nat).

Lemma benign_readOrReply k r : benign L N (alookupReadOrReply k r).
Proof. unfold alookupReadOrReply. benign. Qed.
Lemma benign_writeOrReply k r : benign L N (alookupWriteOrReply k r).
Proof. unfold alookupWriteOrReply. benign. Qed.
Lemma benign_number s msg : benign L N (aLongLongOrReply s msg).
Proof. unfold aLongLongOrReply. benign. Qed.
Lemma benign_setKey d k v : 0 <= d < L -> benign L N (asetKey d k v).
Proof. unfold asetKey. benign. Qed.
Lemma benign_modify d k s e : 0 <= d < L -> benign L N (amodify d k s e).
Proof. unfold amodify. benign. Qed.
Lemma benign_size n : benign L N (asize_ok n).
Proof. unfold asize_ok. benign. Qed.
End commands.
#[export] Hint Resolve benign_readOrReply benign_writeOrReply benign_number benign_setKey benign_modify benign_size : safe.

#[export] Hint Extern 2 (_ < _)%nat => lia : safe.

(** ** The string commands *)

Section strings.
  Context (L : Z) (N : nat).

Lemma benign_setGeneric flags k v e tu r1 r2 : benign L N (aSetGeneric flags k v e tu r1 r2).
Proof. unfold aSetGeneric, aSetExpire, aSetForbidden. benign. Qed.

(** Each turn takes an argument at least, so the options run out before the
    fuel does. *)
Lemma benign_setOptions fuel j flags tu e : (N <= j + fuel)%nat -> benign L N (aSetOptions fuel j flags tu e).
Proof.
  revert j flags tu e. induction fuel as [|fuel IH]; intros j flags tu e Hf; cbn [aSetOptions]; apply benign_argc;
    destruct (Z.ltb_spec (Z.of_nat j) (Z.of_nat N)); cbn [negb]; try apply benign_ret; [lia|].
  apply benign_bind; [auto with safe|]. intros a. apply benign_bind; [destruct (Z.eqb_spec (Z.of_nat j) (Z.of_nat N - 1)); benign|].
  intros next. repeat (destruct (_ && _); [apply IH; lia|]). benign.
Qed.

Lemma benign_getGeneric : (2 <= N)%nat -> benign L N aGetGeneric.
Proof. intros HN. unfold aGetGeneric. benign. Qed.

Lemma benign_mgetLoop fuel j : (j + fuel <= N)%nat -> benign L N (aMgetLoop fuel j).
Proof.
  revert j. induction fuel as [|fuel IH]; intros j Hj; cbn [aMgetLoop]; [benign|].
  apply benign_cur. intros d Hd. apply benign_bind; [auto with safe|]. intros k. apply benign_bind; [auto with safe|].
  intros v. apply benign_bind; [benign|]. intros _. apply IH. lia.
Qed.

Lemma benign_busyLoop fuel j n : (j + 2 * fuel <= N)%nat -> benign L N (aBusyLoop fuel j n).
Proof.
  revert j n. induction fuel as [|fuel IH]; intros j n Hj; cbn [aBusyLoop]; [benign|].
  apply benign_cur. intros d Hd. apply benign_bind; [auto with safe|]. intros k. apply benign_bind; [auto with safe|].
  intros v. apply IH. lia.
Qed.

Lemma benign_msetLoop fuel j : (j + 2 * fuel <= N)%nat -> benign L N (aMsetLoop fuel j).
Proof.
  revert j. induction fuel as [|fuel IH]; intros j Hj; cbn [aMsetLoop]; [benign|].
  apply benign_bind; [auto with safe|]. intros v. apply benign_cur. intros d Hd.
  apply benign_bind; [auto with safe|]. intros k. apply benign_bind; [auto with safe|]. intros _.
  apply benign_bind; [auto with safe|]. intros _. apply IH. lia.
Qed.

Lemma benign_mset nx : (1 <= N)%nat -> benign L N (aMSET nx).
Proof.
  intros HN. unfold aMSET. apply benign_argc. destruct (Z.even _); [auto with safe|]. cbv zeta.
  assert (Hp : (1 + 2 * Z.to_nat ((Z.of_nat N - 1) / 2) <= N)%nat).
  { pose proof (Z.div_mod (Z.of_nat N - 1) 2 ltac:(lia)). pose proof (Z.mod_pos_bound (Z.of_nat N - 1) 2 ltac:(lia)).
    assert (0 <= (Z.of_nat N - 1) / 2) by (apply Z.div_pos; lia). lia. }
  apply benign_bind; [destruct nx; [by apply benign_busyLoop|auto with safe]|]. intros busy.
  destruct (negb _); [auto with safe|]. apply benign_bind; [by apply benign_msetLoop|]. benign.
Qed.

Lemma benign_incr n : (2 <= N)%nat -> benign L N (aINCR n).
Proof. intros HN. unfold aINCR. benign. Qed.

Lemma benign_delLoop fuel j n : (j + fuel <= N)%nat -> benign L N (aDelLoop fuel j n).
Proof.
  revert j n. induction fuel as [|fuel IH]; intros j n Hj; cbn [aDelLoop]; [benign|].
  apply benign_cur. intros d Hd. apply benign_bind; [auto with safe|]. intros k.
  do 2 (apply benign_bind; [auto with safe|]; intros ?). destruct a0; [|apply IH; lia].
  do 3 (apply benign_bind; [auto with safe|]; intros ?). apply IH; lia.
Qed.

Lemma benign_countLoop look fuel j n : (forall d k, 0 <= d < L -> benign L N (look d k)) ->
  (j + fuel <= N)%nat -> benign L N (aCountLoop look fuel j n).
Proof.
  intros Hl. revert j n. induction fuel as [|fuel IH]; intros j n Hj; cbn [aCountLoop]; [benign|].
  apply benign_cur. intros d Hd. apply benign_bind; [auto with safe|]. intros k.
  apply benign_bind; [by apply Hl|]. intros v. apply IH. lia.
Qed.
End strings.
#[export] Hint Resolve benign_setGeneric benign_getGeneric benign_incr benign_mset : safe.

Lemma safe_benign N m : (forall L, benign L N m) -> safe_spec N m.
Proof.
  intros H L t Ht. specialize (H L t Ht). destruct (m t) as [[a t']|f]; [by exists N|done].
Qed.

(** ** Every command of the table *)

Definition arity_ok (arity : Z) (N : nat) : Prop :=
  (0 <? arity) && negb (arity =? Z.of_nat N) || (Z.of_nat N <? - arity) = false.

Lemma arity_range a N : arity_ok a N -> (0 < a -> Z.of_nat N = a) /\ (a < 0 -> - a <= Z.of_nat N).
Proof. unfold arity_ok. lia. Qed.

Lemma benign_select L N d : benign L N (aselect d).
Proof.
  intros t (H1 & H2 & H3). unfold aselect. destruct (_ && _) eqn:E; [|done].
  split; [done|]. split; [cbn; lia|done].
Qed.
Lemma benign_empty_all L N : benign L N aempty_all.
Proof. intros t (H1 & H2 & H3). split; [cbn; by rewrite length_fmap|done]. Qed.
Lemma benign_set_cmd L N n b : benign L N (aset_cmd n b).
Proof. by intros t H. Qed.
#[export] Hint Resolve benign_select benign_empty_all benign_set_cmd : safe.

(** EXPIRE replaces the arguments of the client. *)
Section replace.
  Context (L : Z).

Definition safe_from (N : nat) (m : AM unit) : Prop := forall t, aok L N t ->
  match m t with
  | Ret (_, t') => exists N', aok L N' t'
  | Fault f => soft f
  end.

Lemma safe_from_benign N m : benign L N m -> safe_from N m.
Proof. intros H t Ht. specialize (H t Ht). destruct (m t) as [[a t']|f]; [by exists N|done]. Qed.

Lemma safe_from_bind {A} N (m : AM A) k : benign L N m -> (forall a, safe_from N (k a)) -> safe_from N (m ≫= k).
Proof.
  intros Hm Hk t Ht. unfold mbind, AM_bind. specialize (Hm t Ht). destruct (m t) as [[a t']|f]; [|done]. by apply Hk.
Qed.

Lemma safe_from_args N v k : safe_from (length v) (k tt) -> safe_from N (aset_args v ≫= k).
Proof. intros Hk t (H1 & H2 & H3). apply Hk. split; [exact H1|]. by split. Qed.

Lemma safe_from_cur N k : (forall d, 0 <= d < L -> safe_from N (k d)) -> safe_from N (aget acur ≫= k).
Proof. intros Hk t Ht. apply Hk; [apply Ht|exact Ht]. Qed.

Lemma safe_expire N relative tu : (3 <= N)%nat -> safe_from N (aEXPIRE relative tu).
Proof using.
  intros HN. unfold aEXPIRE. do 4 (apply safe_from_bind; [benign|]; intros ?). destruct a2 as [w|]; [|apply safe_from_benign; benign].
  do 2 (apply safe_from_bind; [benign|]; intros ?). apply safe_from_cur. intros d Hd.
  apply safe_from_bind; [benign|]. intros v. destruct v as [v|]; [|apply safe_from_benign; benign].
  apply safe_from_bind; [benign|]. intros c. destruct (_ && _ && _); [|apply safe_from_benign; benign].
  do 2 (apply safe_from_bind; [benign|]; intros _). apply safe_from_args. apply safe_from_benign. benign.
Qed.
End replace.

(** The table asks for enough arguments: no command of it faults other
    than by overflow or for want of memory. *)
Lemma table_safe : Forall (fun p => forall N, arity_ok (arity p.1) N -> (1 <= N)%nat -> safe_spec N p.2) specified_table.
Proof.
  repeat (apply Forall_cons; split); try apply Forall_nil; try done;
    intros N Ha%arity_range HN; cbn in Ha; destruct Ha as [Ha Ha'];
    try (intros L; apply safe_expire; lia); apply safe_benign; intros L; cbn [snd];
    unfold aGET, aSET, aSETNX, aSETEX, aAPPEND, aSTRLEN, aDEL, aEXISTS, aTOUCH, aCOUNT, aSETRANGE, aGETRANGE, aMGET, aINCRBY,
      aGETSET, aSELECT, aMOVE, aRENAME, aDBSIZE, aPING, aECHO, aTYPE, aFLUSHDB, aFLUSHALL, aTTL, aPERSIST;
    benign.
  - apply benign_setOptions. lia.
  - apply benign_delLoop. lia.
  - apply benign_countLoop; [auto with safe|lia].
  - apply benign_mgetLoop. lia.
  - apply benign_countLoop; [auto with safe|lia].
Qed.
