(* ===== verification/Session.v ===== *)
(** * Session: whatever a client sends

    Any bytes, in any pieces: the parser never fails an assertion and
    always stops, and the server stays well formed. *)

From S2P Require Import Prelude Util Object Db ServerOk Abstract ServerSim TString ValueSim AString StringSim.
From S2P Require Import Keyspace AKeyspace Frame KeyspaceSim Server ServerRefine Sds SdsProofs Protocol.
From S2P Require Import ProtocolProofs Pipeline Safety.

(** ** The parser on any input *)

Definition MAX_QUERYBUF : Z := 1024 * 1024 * 1024.

(** A connection between two reads; [n] arguments have been created. *)
Definition conn_ok (n : Z) (c : conn) : Prop :=
  (multibulklen c = 0 /\ n = 0 /\ bulklen c = -1 /\
     (reqtype c = Some PROTO_REQ_MULTIBULK -> nth 0 (querybuf c) 0 = 42)) \/
  (0 < multibulklen c /\ reqtype c = Some PROTO_REQ_MULTIBULK /\ 0 <= n /\ n + multibulklen c <= 1024 * 1024 /\
     -1 <= bulklen c <= 512 * 1024 * 1024).

(** What a parse leaves. *)
Definition parsed_ok (n : Z) (c : conn) (p : parsed) : Prop :=
  Forall (fun f => Z.of_nat (length f.2) <= MAX_QUERYBUF) (p_args p) /\
  n + Z.of_nat (length (p_args p)) <= MAX_QUERYBUF /\
  (length (querybuf (p_conn p)) <= length (querybuf c))%nat /\
  (p_ok p = true -> p_error p = None /\ (length (querybuf (p_conn p)) < length (querybuf c))%nat /\
     close_after_reply (p_conn p) = close_after_reply c) /\
  (p_ok p = false -> close_after_reply (p_conn p) = true \/ conn_ok (n + Z.of_nat (length (p_args p))) (p_conn p)).

Lemma sdsrange_length s start : 0 <= start -> (length (sdsrange s start (-1)) = length s - Z.to_nat start)%nat.
Proof. intros H. by rewrite sdsrange_drop, length_drop. Qed.

(** An error closes the connection. *)
Lemma error_ok n c pos msg args : 0 <= pos -> n + Z.of_nat (length args) <= MAX_QUERYBUF ->
  Forall (fun f => Z.of_nat (length f.2) <= MAX_QUERYBUF) args ->
  parsed_ok n c (mk_parsed (setProtocolError c pos) args (Some msg) false).
Proof.
  intros Hp Hn Ha. split; [done|]. split; [done|]. split; [cbn; rewrite sdsrange_length by done; lia|].
  split; [done|]. by left.
Qed.

Lemma nonempty_args_ok v B : Forall (fun a => length a <= B)%nat v ->
  Forall (fun f : found_arg => length f.2 <= B)%nat (nonempty_args v) /\ (length (nonempty_args v) <= length v)%nat.
Proof.
  intros H. unfold nonempty_args. rewrite length_map. split; [|apply length_filter].
  induction H as [|a v Ha Hv IH]; [done|]. rewrite filter_cons. destruct (decide (a <> [])); cbn; [by constructor|done].
Qed.

Lemma inline_ok c : multibulklen c = 0 -> bulklen c = -1 -> reqtype c = Some PROTO_REQ_INLINE ->
  querybuf c <> [] -> Z.of_nat (length (querybuf c)) <= MAX_QUERYBUF ->
  exists p, processInlineBuffer c = Ret p /\ parsed_ok 0 c p /\ (p_ok p = true -> multibulklen (p_conn p) = 0).
Proof.
  intros Hm Hb Hr Hne Hl. unfold processInlineBuffer. destruct (strchr (querybuf c) 10) as [newline|].
  - match goal with |- context [take ?q (querybuf c)] => set (querylen := q) end.
    destruct (splitargs_total (take querylen (querybuf c))) as [r Er]. rewrite Er.
    cbn [mbind res_bind]. destruct r as [v|].
    + eexists. split; [done|]. split; [|done]. destruct (splitargs_size _ _ Er) as [H1 H2].
      rewrite length_take in H1, H2. destruct (nonempty_args_ok v _ H1) as [H3 H4].
      assert (Hpos : (0 < length (querybuf c))%nat) by (destruct (querybuf c); [done|cbn; lia]).
      split; [|split; [|split; [|split]]]; cbn [p_args p_conn p_ok p_error with_buf querybuf close_after_reply].
      * eapply Forall_impl; [exact H3|]. cbn. intros f Hf. lia.
      * lia.
      * rewrite sdsrange_length by lia. lia.
      * intros _. split; [done|]. split; [rewrite sdsrange_length by lia; lia|done].
      * done.
    + eexists. split; [done|]. split; [|done]. apply error_ok; [lia|cbn; unfold MAX_QUERYBUF; lia|done].
  - destruct (_ <? _); eexists; (split; [done|]); split; try done.
    + apply error_ok; [lia|cbn; unfold MAX_QUERYBUF; lia|done].
    + split; [done|]. split; [cbn; unfold MAX_QUERYBUF; lia|]. split; [done|]. split; [done|]. right. left.
      split; [done|]. split; [done|]. split; [done|]. cbn. by rewrite Hr.
Qed.

(** The header of an argument, whatever is there. *)
Lemma read_bulklen_any c pos s : at_pos c pos s -> bulklen c = -1 ->
  match read_bulklen c pos with
  | Break => True
  | ProtocolError c' msg => exists pos', 0 <= pos' /\ c' = setProtocolError c pos'
  | Next c' pos' => 0 <= bulklen c' <= 512 * 1024 * 1024 /\ multibulklen c' = multibulklen c /\
      reqtype c' = reqtype c /\ close_after_reply c' = close_after_reply c /\
      (exists s', at_pos c' pos' s' /\ (length s' < length s)%nat) /\ (length (querybuf c') <= length (querybuf c))%nat
  end.
Proof.
  intros Hat Hb. pose proof (at_pos_length _ _ _ Hat) as Hl. pose proof Hat as [Hp Hd]. unfold read_bulklen. rewrite Hd.
  destruct (strchr s 13) as [off|] eqn:Eoff; [|destruct (_ <? _); [by exists 0|done]]. apply strchr_lt in Eoff.
  destruct (Z.ltb_spec (Z.of_nat (length (querybuf c)) - 2) (pos + Z.of_nat off)); [done|].
  destruct (negb _); [exists pos; split; [lia|done]|].
  destruct (string2ll _) as [ll|]; [|exists pos; split; [lia|done]].
  destruct ((ll <? 0) || _) eqn:Ell; [exists pos; split; [lia|done]|].
  assert (Hd' : drop (Z.to_nat (pos + Z.of_nat off + 2)) (querybuf c) = drop (off + 2) s).
  { rewrite <- Hd, drop_drop. f_equal. lia. }
  destruct (PROTO_MBULK_BIG_ARG <=? ll); cbn [with_bulklen with_buf bulklen multibulklen reqtype close_after_reply querybuf].
  - split; [lia|]. do 3 (split; [done|]). split; [|rewrite sdsrange_length by lia; lia].
    exists (drop (off + 2) s). split; [|rewrite length_drop; lia]. split; [cbn; lia|].
    cbn. rewrite sdsrange_drop by lia. by rewrite drop_0.
  - split; [lia|]. do 3 (split; [done|]). split; [|done].
    exists (drop (off + 2) s). split; [|rewrite length_drop; lia]. split; [cbn; lia|exact Hd'].
Qed.

Definition small_args (args : list found_arg) : Prop := Forall (fun f => Z.of_nat (length f.2) <= MAX_QUERYBUF) args.

Lemma small_nil : small_args [].
Proof. apply Forall_nil. done. Qed.

(** What the loop over the arguments leaves; [n] were created before. *)
Definition loop_ok (n : Z) (c : conn) (s : list Z) (p : parsed) : Prop :=
  small_args (p_args p) /\ n + Z.of_nat (length (p_args p)) <= 1024 * 1024 /\
  (length (querybuf (p_conn p)) <= length (querybuf c))%nat /\
  (p_ok p = true -> p_error p = None /\ multibulklen (p_conn p) = 0 /\
     close_after_reply (p_conn p) = close_after_reply c /\ (length (querybuf (p_conn p)) <= length s)%nat /\
     (0 < multibulklen c -> (length (querybuf (p_conn p)) < length s)%nat)) /\
  (p_ok p = false -> close_after_reply (p_conn p) = true \/ conn_ok (n + Z.of_nat (length (p_args p))) (p_conn p)).

(** The state of the loop. *)
Definition loop_at (n : Z) (c : conn) (pos : Z) (s : list Z) (args : list found_arg) : Prop :=
  at_pos c pos s /\ 0 <= multibulklen c /\ -1 <= bulklen c <= 512 * 1024 * 1024 /\
  reqtype c = Some PROTO_REQ_MULTIBULK /\ 0 <= n /\
  n + Z.of_nat (length args) + multibulklen c <= 1024 * 1024 /\ small_args args.

Lemma loop_end n c pos s args : loop_at n c pos s args -> 0 < multibulklen c ->
  loop_ok n c s (multibulk_end c pos args).
Proof.
  intros (Hat & Hm & Hb & Hr & Hn & Hmax & Ha) Hm'. pose proof (at_pos_length _ _ _ Hat). pose proof Hat as [Hp _].
  unfold multibulk_end. rewrite (at_pos_trim _ _ _ Hat). split; [done|].
  cbn [p_args p_conn p_ok p_error with_buf querybuf multibulklen close_after_reply]. split; [lia|]. split; [lia|].
  destruct (Z.eqb_spec (multibulklen c) 0); [lia|]. split; [done|]. right. right. cbn. split_and!; try done; lia.
Qed.

Lemma small_snoc args b a : small_args args -> Z.of_nat (length a) <= 512 * 1024 * 1024 -> small_args (args ++ [(b, a)]).
Proof.
  intros H Ha. apply Forall_app. split; [done|]. constructor; [unfold MAX_QUERYBUF; cbn; lia|constructor].
Qed.

Section any_turn.
  Context (n : Z) (fuel : nat) (IH : forall c pos s args, fuel = Z.to_nat (multibulklen c) -> loop_at n c pos s args ->
    exists p, bulk_loop fuel c pos args = Ret p /\ loop_ok n c s p).

(** The argument itself, when its length is known. *)
Lemma any_arg c pos s args : S fuel = Z.to_nat (multibulklen c) -> loop_at n c pos s args -> 0 <= bulklen c ->
  exists p,
    (let buf := querybuf c in let len := Z.of_nat (length buf) in
     if len - pos <? bulklen c + 2 then Ret (multibulk_end c pos args)
     else
       let arg := take (Z.to_nat (bulklen c)) (drop (Z.to_nat pos) buf) in
       let read c := with_bulklen (-1) (with_multibulklen (multibulklen c - 1) c) in
       if (pos =? 0) && (PROTO_MBULK_BIG_ARG <=? bulklen c) && (len =? bulklen c + 2) then
         bulk_loop fuel (read (with_buf [] c)) 0 (args ++ [(true, arg)])
       else bulk_loop fuel (read c) (pos + bulklen c + 2) (args ++ [(false, arg)])) = Ret p /\ loop_ok n c s p.
Proof using IH.
  intros Hf H Hb0. pose proof H as (Hat & Hm & Hb & Hr & Hn & Hmax & Ha). cbv zeta.
  pose proof (at_pos_length _ _ _ Hat) as Hl. pose proof Hat as [Hp Hd].
  destruct (Z.ltb_spec (Z.of_nat (length (querybuf c)) - pos) (bulklen c + 2)).
  { eexists. split; [done|]. apply loop_end; [done|lia]. }
  set (arg := take _ _).
  assert (Harg : Z.of_nat (length arg) <= 512 * 1024 * 1024) by (subst arg; rewrite length_take; lia).
  assert (Hnext : forall b c2 pos2 s2, at_pos c2 pos2 s2 -> (length s2 + 2 <= length s)%nat ->
    (length (querybuf c2) <= length (querybuf c))%nat ->
    c2 = mk_conn (querybuf c2) (reqtype c) (multibulklen c - 1) (-1) (close_after_reply c) ->
    exists p, bulk_loop fuel c2 pos2 (args ++ [(b, arg)]) = Ret p /\ loop_ok n c s p).
  { intros b c2 pos2 s2 H2 Hs2 Hq2 Ec2.
    destruct (IH c2 pos2 s2 (args ++ [(b, arg)])) as (p & Ep & K1 & K2 & K3 & K4 & K5).
    - rewrite Ec2. cbn. lia.
    - split; [done|]. rewrite Ec2. cbn [multibulklen bulklen reqtype]. rewrite length_app. cbn [length].
      split_and!; try done; try lia. by apply small_snoc.
    - exists p. split; [done|]. split; [done|]. split; [done|]. split; [lia|]. split; [|done].
      intros Hok. destruct (K4 Hok) as (L1 & L2 & L3 & L4 & L5). rewrite Ec2 in L3. cbn in L3.
      do 3 (split; [done|]). split; [lia|]. intros _. lia. }
  destruct ((pos =? 0) && _ && _) eqn:Ebig.
  - apply (Hnext true _ 0 []); [split; [cbn; lia|done]|cbn; lia|cbn; lia|done].
  - apply (Hnext false _ (pos + bulklen c + 2) (drop (Z.to_nat (bulklen c + 2)) s)); [|rewrite length_drop; lia|done|done].
    split; [cbn; lia|]. cbn. rewrite <- Hd, drop_drop. f_equal. lia.
Qed.
End any_turn.

Lemma bulk_loop_any n fuel : forall c pos s args, fuel = Z.to_nat (multibulklen c) -> loop_at n c pos s args ->
  exists p, bulk_loop fuel c pos args = Ret p /\ loop_ok n c s p.
Proof.
  induction fuel as [|fuel IH]; intros c pos s args Hf H; pose proof H as (Hat & Hm & Hb & Hr & Hn & Hmax & Ha);
    cbn [bulk_loop]; destruct (Z.eqb_spec (multibulklen c) 0) as [E|E]; try lia.
  { eexists. split; [done|]. unfold multibulk_end. rewrite (at_pos_trim _ _ _ Hat). pose proof (at_pos_length _ _ _ Hat).
    destruct Hat as [Hp _]. rewrite E. split; [done|]. cbn. split; [lia|]. split; [lia|]. split; [|done].
    intros _. split_and!; try done; lia. }
  destruct (Z.eqb_spec (bulklen c) (-1)) as [Eb|Eb]; [|apply any_arg; [done|done|done|lia]].
  pose proof (read_bulklen_any c pos s Hat Eb) as Hread. destruct (read_bulklen c pos) as [|c' msg|c' pos'].
  - eexists. split; [done|]. apply loop_end; [done|lia].
  - destruct Hread as (pos' & Hpos' & ->). eexists. split; [done|]. split; [done|]. split; [cbn; lia|].
    split; [cbn; rewrite sdsrange_length by done; lia|]. split; [done|]. by left.
  - destruct Hread as (Hb' & Hm' & Hr' & Hc' & (s' & Hat' & Hs') & Hq').
    destruct (any_arg n fuel IH c' pos' s' args) as (p & Ep & K1 & K2 & K3 & K4 & K5); [lia| |lia|].
    { split; [done|]. rewrite Hm', Hr'. split_and!; try done; lia. }
    exists p. split; [exact Ep|]. split; [done|]. split; [done|]. split; [lia|]. split; [|done].
    intros Hok. destruct (K4 Hok) as (L1 & L2 & L3 & L4 & L5). split; [done|]. split; [done|]. split; [congruence|].
    split; lia.
Qed.

Lemma loop_parsed n c c0 s p : loop_ok n c s p -> 0 < multibulklen c -> 0 <= n ->
  (length s <= length (querybuf c0))%nat -> (length (querybuf c) <= length (querybuf c0))%nat ->
  close_after_reply c = close_after_reply c0 ->
  parsed_ok n c0 p /\ (p_ok p = true -> multibulklen (p_conn p) = 0).
Proof.
  intros (K1 & K2 & K3 & K4 & K5) Hm Hn Hs Hq Hc. split; [|intros Hok; by apply (K4 Hok)].
  split; [done|]. split; [unfold MAX_QUERYBUF; lia|]. split; [lia|]. split; [|done].
  intros Hok. destruct (K4 Hok) as (L1 & L2 & L3 & L4 & L5). split; [done|]. split; [lia|congruence].
Qed.

Lemma multibulk_any n c : conn_ok n c -> reqtype c = Some PROTO_REQ_MULTIBULK -> querybuf c <> [] ->
  exists p, processMultibulkBuffer n c = Ret p /\ parsed_ok n c p /\ (p_ok p = true -> multibulklen (p_conn p) = 0).
Proof.
  intros Hc Hr Hne. unfold processMultibulkBuffer.
  assert (Hpos : (0 < length (querybuf c))%nat) by (destruct (querybuf c); [done|cbn; lia]).
  assert (Herr : forall msg, exists p, Ret (mk_parsed (setProtocolError c 0) [] (Some msg) false) = Ret p /\
    (n = 0 -> parsed_ok n c p) /\ (p_ok p = true -> multibulklen (p_conn p) = 0)).
  { intros msg. eexists. split; [done|]. split; [|done]. intros ->. apply error_ok; [lia|cbn; unfold MAX_QUERYBUF; lia|done]. }
  assert (Hwait : n = 0 -> multibulklen c = 0 -> exists p, Ret (mk_parsed c [] None false) = Ret p /\ parsed_ok n c p /\
    (p_ok p = true -> multibulklen (p_conn p) = 0)).
  { intros -> E. eexists. split; [done|]. split; [|done]. split; [done|]. split; [cbn; unfold MAX_QUERYBUF; lia|].
    split; [done|]. split; [done|]. by right. }
  destruct Hc as [(E0 & -> & Hb & Hhead)|(Hm & _ & Hn & Hmax & Hb)].
  - rewrite E0. cbn [Z.eqb negb]. destruct (strchr (querybuf c) 13) as [newline|].
    2:{ destruct (_ <? _); [|by apply Hwait]. destruct (Herr (bytes_of_string "Protocol error: too big mbulk count string"))
          as (p & ? & ? & ?). exists p. auto. }
    destruct (Z.ltb_spec (Z.of_nat (length (querybuf c)) - 2) (Z.of_nat newline)); [by apply Hwait|].
    rewrite (Hhead Hr). cbn [Z.eqb Pos.eqb negb].
    destruct (Herr (bytes_of_string "Protocol error: invalid multibulk length")) as (pe & Ee1 & Ee2 & Ee3).
    destruct (string2ll _) as [ll|]; [|exists pe; auto]. destruct (Z.ltb_spec (1024 * 1024) ll); [exists pe; auto|].
    destruct (Z.leb_spec ll 0).
    + eexists. split; [done|]. split; [|done]. split; [done|]. split; [cbn; unfold MAX_QUERYBUF; lia|].
      split; [cbn; rewrite sdsrange_length by lia; lia|]. split; [|done]. intros _. split; [done|].
      split; [cbn; rewrite sdsrange_length by lia; lia|done].
    + destruct (bulk_loop_any 0 (Z.to_nat ll) (with_multibulklen ll c) (Z.of_nat newline + 2)
        (drop (Z.to_nat (Z.of_nat newline + 2)) (querybuf c)) []) as (p & Ep & Hp); [done| |].
      * split; [split; [cbn; lia|done]|]. cbn. split_and!; try done; try lia. apply small_nil.
      * exists p. split; [exact Ep|]. eapply (loop_parsed 0 _ c _ _ Hp); cbn; try done; try lia. rewrite length_drop. lia.
  - destruct (Z.eqb_spec (multibulklen c) 0); [lia|]. destruct (Z.ltb_spec (multibulklen c) 0); [lia|].
    destruct (bulk_loop_any n (Z.to_nat (multibulklen c)) c 0 (querybuf c) []) as (p & Ep & Hp); [done| |].
    + split; [split; [lia|done]|]. cbn. split_and!; try done; try lia. apply small_nil.
    + exists p. split; [exact Ep|]. by apply (loop_parsed n c c _ _ Hp).
Qed.

Lemma parse_any n c : conn_ok n c -> querybuf c <> [] -> Z.of_nat (length (querybuf c)) <= MAX_QUERYBUF ->
  exists p, parse_request n (with_reqtype c) = Ret p /\ parsed_ok n (with_reqtype c) p /\
    (p_ok p = true -> multibulklen (p_conn p) = 0).
Proof.
  intros Hc Hne Hl. unfold parse_request. set (c1 := with_reqtype c).
  assert (Hc1 : conn_ok n c1 /\ querybuf c1 = querybuf c /\ reqtype c1 <> None).
  { subst c1. unfold with_reqtype. destruct (reqtype c) as [t|] eqn:Et; [by rewrite Et|]. split; [|done].
    destruct Hc as [(E0 & -> & Hb & Hhead)|(Hm & Hr & _)]; [|congruence]. left. cbn. do 3 (split; [done|]).
    destruct (Z.eqb_spec (nth 0 (querybuf c) 0) 42); done. }
  destruct Hc1 as (Hc1 & Eq & Hrt). destruct (reqtype c1) as [[]|] eqn:Er; [| |done].
  - destruct Hc1 as [(E0 & -> & Hb & _)|(_ & ? & _)]; [|congruence]. apply inline_ok; try done; by rewrite Eq.
  - apply multibulk_any; [done|done|by rewrite Eq].
Qed.

(** ** The commands *)

Lemma table_is : map fst specified_table = redisCommandTable.
Proof. reflexivity. Qed.

Lemma abs_aok s : server_ok s -> aok (Z.of_nat (length (dbs s))) (length (argv s)) (abs s).
Proof.
  intros H. split; [cbn; by rewrite length_fmap|]. split; [exact (ok_cur _ _ H)|]. cbn. by rewrite length_fmap.
Qed.

Lemma refuse_arity cmd n c : refuse cmd n c = None ->
  (0 <? arity cmd) && negb (arity cmd =? n) || (n <? - arity cmd) = false.
Proof. unfold refuse. by destruct (_ || _). Qed.

Lemma acall_fit N spec L t : safe_spec N spec -> aok L N t ->
  match acall spec t with Ret (_, t') => exists N', aok L N' t' | Fault f => soft f end.
Proof.
  intros Hs Ht. unfold acall, mbind, AM_bind, aget. specialize (Hs L t Ht).
  destruct (spec t) as [[[] t']|f]; [|done]. destruct Hs as [N' Hs]. destruct (_ <? _); by exists N'.
Qed.

Lemma aprocess_fit L N t : aok L N t -> (1 <= N)%nat ->
  match aprocessCommand specified_table t with Ret (_, t') => exists N', aok L N' t' | Fault f => soft f end.
Proof.
  intros Ht HN. unfold aprocessCommand. unfold mbind at 1, AM_bind at 1.
  pose proof (benign_arg L N 0 HN t Ht) as H0. destruct (aarg 0 t) as [[n0 t0]|f]; [|done].
  destruct (bool_decide _); [by exists N|]. destruct (alookupCommand specified_table n0) as [[cmd spec]|] eqn:E; [|by exists N].
  unfold mbind at 1, AM_bind at 1, aget. unfold mbind at 1, AM_bind at 1, aset_cmd.
  unfold mbind at 1, AM_bind at 1, aargc, aget. cbn [aargs].
  pose proof H0 as (_ & _ & Hlen). destruct (refuse cmd _ _) as [err|] eqn:Er; [by exists N|].
  apply refuse_arity in Er. rewrite Hlen in Er.
  assert (Hsafe : safe_spec N spec).
  { unfold alookupCommand in E. destruct (list_find _ specified_table) as [[i p]|] eqn:El; [|done]. injection E as ->.
    apply list_find_Some in El as (Hi & _). exact (Forall_lookup_1 _ _ _ _ table_safe Hi N Er HN). }
  unfold mbind, AM_bind. match goal with |- context [acall spec ?t1] => pose proof (acall_fit N spec L t1 Hsafe) as Hc end.
  specialize (Hc H0). destruct (acall spec _) as [[[] t']|f]; done.
Qed.

Lemma aprocess_soft L N t : aok L N t -> (1 <= N)%nat ->
  match aprocessCommand specified_table t with Ret _ => True | Fault f => soft f end.
Proof. intros Ht HN. pose proof (aprocess_fit L N t Ht HN) as H. by destruct (aprocessCommand specified_table t) as [[o t']|f]. Qed.

(** A relation on the state that every command keeps, and so does what the
    server does around the commands. *)
Class Preserved (R : astate -> astate -> Prop) : Prop := {
  preserved_preorder :: PreOrder R;
  preserved_args : forall t v, R t (mk_astate (adbs t) v (acur t) (acf t) (alg t));
  preserved_error : forall t msg t', aReplyError msg t = Ret (tt, t') -> R t t';
  preserved_command : forall t o t', aprocessCommand specified_table t = Ret (o, t') -> R t t'
}.

#[export] Instance anything_preserved : Preserved (fun _ _ => True).
Proof. by do 2 constructor. Qed.

(** ** The input loop *)

Definition client_state (c : conn) (s : server) : Prop :=
  close_after_reply c = true \/ (raw_args any s /\ conn_ok (Z.of_nat (length (argv s))) c).

Lemma idle_state c s : argv s = [] -> client_state (reset_conn c) s.
Proof.
  intros Ha. right. rewrite Ha. split; [intros i a _ Hi; by rewrite Ha in Hi|]. left. by cbn.
Qed.

Section input.
  Context (R : astate -> astate -> Prop) `{!Preserved R}.

Definition input_result (s : server) (r : res (conn * server)) : Prop :=
  match r with
  | Ret (c', s') => server_ok s' /\ client_state c' s' /\ R (abs s) (abs s')
  | Fault f => soft f
  end.

Lemma input_result_trans s1 s2 r : R (abs s1) (abs s2) -> input_result s2 r -> input_result s1 r.
Proof using Type*.
  intros H. destruct r as [[c s]|f]; [|done]. intros (H1 & H2 & H3). do 2 (split; [done|]). by etrans.
Qed.

Lemma input_result_ret c s : server_ok s -> client_state c s -> input_result s (Ret (c, s)).
Proof using Type*. by intros. Qed.

Lemma closed_loop table fuel c s : close_after_reply c = true -> (length (querybuf c) < S fuel)%nat ->
  server_ok s -> input_result s (input_loop table fuel c s).
Proof using Type*.
  intros Hc Hf Hok. destruct fuel as [|fuel]; cbn [input_loop].
  - rewrite bool_decide_true by (destruct (querybuf c); [done|cbn in Hf; lia]). apply input_result_ret; [done|by left].
  - rewrite Hc. destruct (bool_decide _); (apply input_result_ret; [done|by left]).
Qed.

Lemma process_any s : client_ok s -> argc_ok s ->
  match processCommand redisCommandTable s with
  | Ret (_, s') => server_ok s' /\ R (abs s) (abs s')
  | Fault f => soft f
  end.
Proof using Type*.
  intros Hc Hn. pose proof (processCommand_sim specified_table s specified_table_ok Hc Hn) as Hs.
  rewrite table_is in Hs. unfold sim in Hs. destruct (processCommand redisCommandTable s) as [[o s']|f].
  - destruct Hs as (o' & E & _ & H). split; [exact H|]. by eapply preserved_command.
  - destruct Hc as [Hok _]. pose proof (aprocess_soft _ _ _ (abs_aok s Hok)) as H. rewrite Hs in H. apply H.
    unfold argc_ok in Hn. lia.
Qed.

Lemma reset_any s k : server_ok s -> (forall s', server_ok s' -> argv s' = [] -> input_result s' (k s')) ->
  input_result s ((_ ← resetClient; k) s).
Proof using Type*.
  intros Hok Hk. unfold mbind, M_bind. pose proof (resetClient_sim s Hok) as H. unfold sim in H.
  destruct (resetClient s) as [[[] s4]|f]; [|done]. destruct H as ([] & E & Hok4 & Harg4).
  eapply input_result_trans; [|by apply Hk]. assert (E' : mk_astate (adbs (abs s)) [] (acur (abs s)) (acf (abs s)) (alg (abs s)) = abs s4) by (unfold aset_args in E; congruence).
  rewrite <- E'. apply preserved_args.
Qed.

(** The error of the parser, if there is one. *)
Lemma error_any (e : option (list Z)) s : server_ok s -> raw_args any s ->
  exists s', (match e with Some msg => addReplyError msg | None => mret tt end) s = Ret (tt, s') /\
    server_ok s' /\ raw_args any s' /\ argv s' = argv s /\ R (abs s) (abs s').
Proof using Type*.
  intros Hok Hraw. destruct e as [msg|]; [|by exists s].
  pose proof (addReplyError_sim x0 s msg Hok) as H. unfold sim in H.
  destruct (addReplyError msg s) as [[[] s2]|f]; [|done]. destruct H as ([] & E & Hok2 & Hk2 & _).
  exists s2. split; [done|]. split; [done|]. split; [by eapply raw_kept|]. split; [apply Hk2|]. by eapply preserved_error.
Qed.

Lemma push_any l s : server_ok s -> raw_args any s -> Forall (fun f => Z.of_nat (length f.2) <= MAX_QUERYBUF) l ->
  exists s', push_args l s = Ret (tt, s') /\ server_ok s' /\ raw_args any s' /\
    Z.of_nat (length (argv s')) = Z.of_nat (length (argv s)) + Z.of_nat (length l) /\ R (abs s) (abs s').
Proof using Type*.
  intros Hok Hraw Hl. destruct (push_args_spec l s Hok Hraw) as (s1 & E1 & Hok1 & Hraw1 & Hn1 & Ha1).
  { eapply Forall_impl; [exact Hl|]. cbn. unfold ALLOC_MAX, MAX_QUERYBUF. lia. }
  exists s1. do 3 (split; [done|]). split; [lia|]. rewrite Ha1. apply preserved_args.
Qed.

Lemma input_loop_any fuel : forall c s, server_ok s -> client_state c s ->
  Z.of_nat (length (querybuf c)) <= MAX_QUERYBUF -> (length (querybuf c) < fuel)%nat ->
  input_result s (input_loop redisCommandTable fuel c s).
Proof using Type*.
  induction fuel as [|fuel IH]; intros c s Hok Hst Hl Hf; [lia|].
  destruct Hst as [Hcl|[Hraw Hc]]; [apply closed_loop; [done|lia|done]|]. cbn [input_loop].
  destruct (bool_decide (querybuf c = [])) eqn:Ee; [apply input_result_ret; [done|by right]|]. apply bool_decide_eq_false in Ee.
  destruct (close_after_reply c) eqn:Hcl; [apply input_result_ret; [done|by left]|].
  destruct (parse_any _ c Hc Ee Hl) as (p & Ep & (K1 & K2 & K3 & K4 & K5) & Kmb).
  assert (Eq : querybuf (with_reqtype c) = querybuf c) by (unfold with_reqtype; by destruct (reqtype c)).
  assert (Ec : close_after_reply (with_reqtype c) = false) by (unfold with_reqtype; by destruct (reqtype c)).
  rewrite Eq in K3, K4. rewrite Ec in K4.
  unfold mbind at 1, M_bind at 1. rewrite argc_at, Ep. unfold mbind at 1, M_bind at 1.
  destruct (push_any (p_args p) s Hok Hraw K1) as (s1 & E1 & Hok1 & Hraw1 & Hn1 & HR1). rewrite E1.
  unfold mbind at 1, M_bind at 1.
  destruct (error_any (p_error p) s1 Hok1 Hraw1) as (s2 & E2 & Hok2 & Hraw2 & Harg2 & HR2). rewrite E2.
  eapply input_result_trans; [etrans; [exact HR1|exact HR2]|].
  destruct (p_ok p) eqn:Eok; cbn [negb].
  2:{ apply input_result_ret; [done|]. destruct (K5 eq_refl) as [H|H]; [by left|]. right. split; [done|]. rewrite Harg2, Hn1. exact H. }
  destruct (K4 eq_refl) as (_ & Klen & Kcl). unfold mbind at 1, M_bind at 1. rewrite argc_at.
  assert (Hnext : forall s3, server_ok s3 -> input_result s3 ((_ ← resetClient;
    input_loop redisCommandTable fuel (reset_conn (p_conn p))) s3)).
  { intros s3 Hok3. apply reset_any; [done|]. intros s4 Hok4 Harg4. apply IH; [done|by apply idle_state|cbn; lia|cbn; lia]. }
  destruct (Z.eqb_spec (Z.of_nat (length (argv s2))) 0) as [|Hn0]; [by apply Hnext|].
  unfold mbind at 1, M_bind at 1. pose proof (process_any s2) as Hp.
  destruct (processCommand redisCommandTable s2) as [[o s3]|f].
  - destruct Hp as [Hok3 HR3]; [by split|unfold argc_ok; rewrite Harg2 in *; unfold MAX_QUERYBUF in K2; lia|].
    eapply input_result_trans; [exact HR3|]. destruct o; [by apply Hnext|]. apply closed_loop; [done|cbn; lia|done].
  - apply Hp; [by split|]. unfold argc_ok. rewrite Harg2 in *. unfold MAX_QUERYBUF in K2. lia.
Qed.

(** A round of input on a connection. *)
Lemma receive_any c s bytes : server_ok s -> client_state c s ->
  Z.of_nat (length (querybuf (receive bytes c))) <= MAX_QUERYBUF ->
  input_result s (processInputBuffer redisCommandTable (receive bytes c) s).
Proof using Type*.
  intros Hok Hst Hl. apply input_loop_any; [done| |done|lia].
  destruct Hst as [Hc|[Hraw Hc]]; [by left|right]. split; [done|].
  destruct Hc as [(H1 & H2 & H3 & H4)|H]; [left|by right]. do 3 (split; [done|]). intros Hr. specialize (H4 Hr).
  cbn. by destruct (querybuf c).
Qed.
End input.
