(* ===== verification/Effects.v ===== *)
(** * Effects: what the commands that are not writes do to the data

    On a slave a command that is not flagged as a write leaves the data as
    they are, and nothing is given to the slaves below it: the keys that
    expire are only told, never removed. *)

From S2P Require Import Prelude Util Object Db ServerOk Abstract TString AString Keyspace AKeyspace Server ServerRefine Safety Session.

(** The data and all that is recorded about their changes. *)
Definition same_data (t t' : astate) : Prop :=
  adbs t' = adbs t /\ dirty (alg t') = dirty (alg t) /\ propagated (alg t') = propagated (alg t) /\
  events (alg t') = events (alg t) /\ touched (alg t') = touched (alg t) /\ flushed (alg t') = flushed (alg t) /\
  stat_expiredkeys (alg t') = stat_expiredkeys (alg t).

(** What makes a server a slave that takes no writes from this client. *)
Definition same_role (c c' : conf) : Prop := masterhost c' = masterhost c /\ gt c' = gt c.

Definition slave_same (t t' : astate) : Prop :=
  masterhost (acf t) = true -> same_role (acf t) (acf t') /\ same_data t t'.

#[export] Instance slave_same_preorder : PreOrder slave_same.
Proof.
  split; [intros t _; by do 2 split|]. intros t1 t2 t3 H1 H2 Hm. destruct (H1 Hm) as [[R1 R1'] D1].
  destruct H2 as [[R2 R2'] D2]; [congruence|]. unfold same_role, same_data in *. intuition congruence.
Qed.

Definition quiet {A} (m : AM A) : Prop := forall t,
  match m t with Ret (_, t') => slave_same t t' | Fault _ => True end.

Create HintDb quiet.

Lemma quiet_ret {A} (a : A) : quiet (mret a).
Proof. by intros t. Qed.
Lemma quiet_get {A} (f : astate -> A) : quiet (aget f).
Proof. by intros t. Qed.
Lemma quiet_fail {A} f : quiet (afail (A := A) f).
Proof. by intros t. Qed.
Lemma quiet_arg j : quiet (aarg j).
Proof. intros t. unfold aarg. by destruct (aargs t !! j). Qed.
Lemma quiet_argc : quiet aargc.
Proof. by intros t. Qed.
Lemma quiet_reply bs : quiet (areply bs).
Proof. by intros t. Qed.
Lemma quiet_hit : quiet (arecord add_hit).
Proof. by intros t. Qed.
Lemma quiet_miss : quiet (arecord add_miss).
Proof. by intros t. Qed.
Lemma quiet_get_db d : quiet (aget_db d).
Proof. intros t. unfold aget_db. destruct (_ <? _); [done|]. by destruct (adbs t !! _). Qed.
Lemma quiet_set_cmd n b : quiet (aset_cmd n b).
Proof. by intros t. Qed.
Lemma quiet_set_args v : quiet (aset_args v).
Proof. by intros t. Qed.
Lemma quiet_select d : quiet (aselect d).
Proof. intros t. unfold aselect. by destruct (_ && _). Qed.
Lemma quiet_all_of v : quiet (all_of v).
Proof. intros t. unfold all_of. by destruct (_ && _). Qed.
#[export] Hint Resolve quiet_ret quiet_get quiet_fail quiet_arg quiet_argc quiet_reply quiet_hit quiet_miss quiet_get_db
  quiet_set_cmd quiet_set_args quiet_select quiet_all_of : quiet.

Lemma quiet_bind {A B} (m : AM A) (k : A -> AM B) : quiet m -> (forall a, quiet (k a)) -> quiet (m ≫= k).
Proof.
  intros Hm Hk t. unfold mbind, AM_bind. specialize (Hm t). destruct (m t) as [[a t1]|f]; [|done].
  specialize (Hk a t1). destruct (k a t1) as [[b t2]|f]; [|done]. by etrans.
Qed.

(** On a slave only the look at the expire time is left of it. *)
Lemma quiet_expireIfNeeded d k : quiet (aexpireIfNeeded d k).
Proof.
  intros t. unfold aexpireIfNeeded, mbind, AM_bind. pose proof (quiet_get_db d t) as H.
  destruct (aget_db d t) as [[db t1]|f]; [|done]. cbn [aget]. destruct (expired_at _ _); [|exact H].
  destruct (masterhost (acf t1)) eqn:E; [exact H|]. cbn.
  match goal with |- match ?r with _ => _ end => destruct r as [[b t2]|f]; [|done] end.
  intros Hm. destruct (H Hm) as [[H1 _] _]. congruence.
Qed.
#[export] Hint Resolve quiet_expireIfNeeded : quiet.

Ltac quiet := repeat first
  [ progress intros | solve [auto with quiet] | apply quiet_bind
  | match goal with |- quiet (match ?e with _ => _ end) => destruct e eqn:? end ].

Lemma quiet_lookupRead d k : quiet (alookupRead d k).
Proof.
  unfold alookupRead, alookup. quiet.
  match goal with |- quiet (arecord (match ?v with _ => _ end)) => destruct v end; auto with quiet.
Qed.
Lemma quiet_lookupWrite d k : quiet (alookupWrite d k).
Proof. unfold alookupWrite, alookup. quiet. Qed.
#[export] Hint Resolve quiet_lookupRead quiet_lookupWrite : quiet.

Lemma quiet_readOrReply k r : quiet (alookupReadOrReply k r).
Proof. unfold alookupReadOrReply. quiet. Qed.
Lemma quiet_bulk s : quiet (aReplyBulk s).
Proof. unfold aReplyBulk. quiet. Qed.
Lemma quiet_longlong n : quiet (aReplyLongLong n).
Proof. unfold aReplyLongLong. quiet. Qed.
Lemma quiet_multibulk n : quiet (aReplyMultiBulkLen n).
Proof. unfold aReplyMultiBulkLen. quiet. Qed.
Lemma quiet_error e : quiet (aReplyError e).
Proof. unfold aReplyError. quiet. Qed.
Lemma quiet_status e : quiet (aReplyStatus e).
Proof. unfold aReplyStatus. quiet. Qed.
#[export] Hint Resolve quiet_readOrReply quiet_bulk quiet_longlong quiet_multibulk quiet_error quiet_status : quiet.

Lemma quiet_number s msg : quiet (aLongLongOrReply s msg).
Proof. unfold aLongLongOrReply. quiet. Qed.
Lemma quiet_mgetLoop fuel j : quiet (aMgetLoop fuel j).
Proof. revert j. induction fuel; intros j; cbn [aMgetLoop]; quiet. Qed.
Lemma quiet_countLoop look fuel j n : (forall d k, quiet (look d k)) -> quiet (aCountLoop look fuel j n).
Proof. intros Hl. revert j n. induction fuel; intros j n; cbn [aCountLoop]; quiet. Qed.
#[export] Hint Resolve quiet_number quiet_mgetLoop quiet_countLoop : quiet.

(** Every command of the table that is not flagged as a write. *)
Lemma table_quiet : Forall (fun p => CMD_WRITE p.1 = false -> quiet p.2) specified_table.
Proof.
  repeat (apply Forall_cons; split); try apply Forall_nil; try done; intros Hw; try done; cbn [snd];
    unfold aGET, aGetGeneric, aSTRLEN, aEXISTS, aTOUCH, aCOUNT, aGETRANGE, aMGET, aSELECT, aDBSIZE, aPING, aECHO, aTYPE,
      aTTL, aexpire; quiet.
Qed.

(** ** The whole request path *)

(** This client may not write: it is not the master of this slave, and the
    slave is read-only. *)
Definition read_only (c : conf) : bool := masterhost c && slave_ro (gt c) && negb (master_client (gt c)).

Definition read_only_same (t t' : astate) : Prop :=
  read_only (acf t) = true -> same_role (acf t) (acf t') /\ same_data t t'.

Lemma read_only_slave c : read_only c = true -> masterhost c = true.
Proof. unfold read_only. by destruct (masterhost c). Qed.

Lemma read_only_role c c' : same_role c c' -> read_only c' = read_only c.
Proof. intros [H1 H2]. unfold read_only. by rewrite H1, H2. Qed.

Lemma slave_same_read_only t t' : slave_same t t' -> read_only_same t t'.
Proof. intros H Hr. apply H. by apply read_only_slave. Qed.

Lemma quiet_call spec : quiet spec -> quiet (acall spec).
Proof.
  intros Hs t. unfold acall, mbind, AM_bind, aget. specialize (Hs t). destruct (spec t) as [[[] t']|f]; [|done].
  destruct (Z.ltb_spec (dirty (alg t)) (dirty (alg t'))) as [Hd|]; [|done].
  cbn. intros Hm. destruct (Hs Hm) as (_ & _ & E & _). lia.
Qed.

Lemma refuse_write cmd n c : read_only c = true -> refuse cmd n c = None -> CMD_WRITE cmd = false.
Proof.
  unfold refuse, read_only. intros [[-> ->]%andb_prop Hm]%andb_prop. rewrite Hm. cbn.
  destruct (CMD_WRITE cmd); [|done]. rewrite ?andb_false_r. destruct (_ || _); [done|]. destruct (noauth _); done.
Qed.

Lemma read_only_command t o t' : aprocessCommand specified_table t = Ret (o, t') -> read_only_same t t'.
Proof.
  unfold aprocessCommand. unfold mbind at 1, AM_bind at 1. unfold aarg. destruct (aargs t !! 0%nat) as [n0|]; [|done].
  destruct (bool_decide _); [by intros [= _ <-]|].
  destruct (alookupCommand specified_table n0) as [[cmd spec]|] eqn:El.
  2:{ unfold mbind, AM_bind. pose proof (quiet_error (no_newlines (bytes_of_string "unknown command '" ++ cstr n0 ++
        bytes_of_string "'")) t) as H. destruct (aReplyError _ t) as [[[] t1]|f]; [|done]. intros [= _ <-].
      by apply slave_same_read_only. }
  unfold mbind at 1, AM_bind at 1, aget. unfold mbind at 1, AM_bind at 1, aset_cmd.
  unfold mbind at 1, AM_bind at 1, aargc, aget. cbn [aargs].
  destruct (refuse _ _ _) as [err|] eqn:Er; [by intros [= _ <-]|].
  unfold mbind, AM_bind. intros E Hro. apply refuse_write in Er; [|done].
  assert (Hq : quiet spec).
  { unfold alookupCommand in El. destruct (list_find _ specified_table) as [[i p]|] eqn:Ef; [|done]. injection El as ->.
    apply list_find_Some in Ef as (Hi & _). exact (Forall_lookup_1 _ _ _ _ table_quiet Hi Er). }
  apply quiet_call in Hq.
  match type of E with match acall spec ?t1 with _ => _ end = _ => specialize (Hq t1) end.
  destruct (acall spec _) as [[[] t2]|f]; [|done]. injection E as _ <-. apply Hq. cbn. by apply read_only_slave.
Qed.

#[export] Instance read_only_preserved : Preserved read_only_same.
Proof.
  split.
  - split; [intros t _; by do 2 split|]. intros t1 t2 t3 H1 H2 Hr. destruct (H1 Hr) as [R1 D1].
    destruct H2 as [R2 D2]; [by rewrite (read_only_role _ _ R1)|].
    unfold same_role, same_data in *. intuition congruence.
  - by intros t v.
  - intros t msg t' E. apply slave_same_read_only. pose proof (quiet_error msg t) as H. by rewrite E in H.
  - by apply read_only_command.
Qed.
