(* ===== verification/ServerTheorems.v ===== *)
(** * ServerTheorems: what the server guarantees

    The refinement of the whole request path, the safety of the server on
    any input, its invariant in every reachable state, and what follows for
    clients: what was set is read, expired keys are not, a read-only slave
    keeps its data. *)

From S2P Require Import Prelude Util Object Db ServerOk Abstract ServerSim TString ValueSim AString StringSim.
From S2P Require Import Keyspace AKeyspace Frame KeyspaceSim Server ServerRefine Sds SdsProofs Protocol.
From S2P Require Import ProtocolProofs Pipeline Safety Session Effects.

(** ** The start of the server *)

Lemma shared_heap_lookup a o : shared_heap !! a = Some o <-> 0 <= a < OBJ_SHARED_INTEGERS /\ o = shared_object a.
Proof.
  unfold shared_heap. rewrite <- elem_of_list_to_map.
  - rewrite list_elem_of_fmap. split.
    + intros (i & [= -> ->] & Hi). by apply elem_of_seqZ in Hi.
    + intros [Ha ->]. exists a. split; [done|]. apply elem_of_seqZ. lia.
  - rewrite <- list_fmap_compose. cbn. rewrite list_fmap_id. apply NoDup_seqZ.
Qed.

Lemma db_refs_empty n a : db_refs (replicate n (mk_db ∅ ∅)) a = 0.
Proof. induction n as [|n IH]; [done|]. cbn [replicate db_refs]. rewrite IH. done. Qed.

Lemma initServer_ok dbnum c : (0 < dbnum)%nat -> server_ok (initServer dbnum c).
Proof.
  intros Hn. unfold server_ok, initServer. pose proof shared_heap_lookup as Hh. revert Hh. generalize shared_heap as h.
  intros h Hh. constructor; cbn [heap brk dbs argv curdb].
  - intros a o [Ha ->]%Hh. unfold obj_ok, shared_object, in_s, OBJ_SHARED_INTEGERS in *. cbn. lia.
  - intros a o [Ha _]%Hh. lia.
  - intros a o [Ha ->]%Hh. cbn [shared_object refcount]. split; [lia|]. unfold refs. cbn [dbs argv argv_refs].
    rewrite db_refs_empty. unfold shared_ref. destruct (decide _); [lia|done].
  - intros a [H|H]; [|lia]. unfold refs in H. cbn [dbs argv argv_refs] in H. rewrite db_refs_empty in H.
    unfold shared_ref in H. destruct (decide _) as [Ha|]; [|lia]. exists (shared_object a). by apply Hh.
  - intros i Hi. exists (shared_object i). split; [by apply Hh|done].
  - lia.
  - apply Forall_replicate. done.
  - rewrite length_replicate. lia.
  - intros a o Ha. by apply elem_of_nil in Ha.
Qed.

Lemma initServer_abs dbnum c : abs (initServer dbnum c) = mk_astate (replicate dbnum (mk_adb ∅ ∅)) [] 0 c empty_log.
Proof. unfold abs, initServer. cbn. f_equal. rewrite fmap_replicate. done. Qed.

(** ** Any input *)


(** ** Reachable states *)

(** What can happen to a server and its client: bytes arrive, the clock,
    the role or the configuration changes, the client leaves and another
    one connects. *)
Inductive step : conn * server -> conn * server -> Prop :=
  | step_input c s bytes c' s' :
      Z.of_nat (length (querybuf (receive bytes c))) <= MAX_QUERYBUF ->
      processInputBuffer redisCommandTable (receive bytes c) s = Ret (c', s') ->
      step (c, s) (c', s')
  | step_conf c s cf' : step (c, s) (c, with_cf cf' s)
  | step_client c s s' :
      resetClient s = Ret (tt, s') -> step (c, s) (new_conn, with_curdb 0 s').

Inductive reachable (dbnum : nat) : conn * server -> Prop :=
  | reachable_start cf0 : reachable dbnum (new_conn, initServer dbnum cf0)
  | reachable_step st st' : reachable dbnum st -> step st st' -> reachable dbnum st'.

Lemma server_ok_curdb s : server_ok s -> server_ok (with_curdb 0 s).
Proof.
  intros [H1 H2 H3 H4 H5 H6 H7 H8 H9]. constructor; try done. cbn. cbn in H8. lia.
Qed.

Lemma server_step_ok st st' : step st st' -> server_ok st.2 -> client_state st.1 st.2 ->
  server_ok st'.2 /\ client_state st'.1 st'.2.
Proof.
  intros [c s bytes c' s' Hl E|c s cf'|c s s' E] Hok Hst; cbn [fst snd] in *.
  - pose proof (receive_any (fun _ _ => True) c s bytes Hok Hst Hl) as H. rewrite E in H. by destruct H as (? & ? & _).
  - split; [by apply ok_with_cf|exact Hst].
  - pose proof (resetClient_sim s Hok) as H. unfold sim in H. rewrite E in H. destruct H as (_ & _ & Hok' & Ha).
    split; [by apply server_ok_curdb|]. by apply (idle_state new_conn).
Qed.

Lemma reachable_inv dbnum st : (0 < dbnum)%nat -> reachable dbnum st -> server_ok st.2 /\ client_state st.1 st.2.
Proof.
  intros Hn Hr. induction Hr as [cf0|st st' _ [Hok Hst] Hs]; cbn [fst snd].
  - split; [by apply initServer_ok|]. by apply (idle_state new_conn).
  - by eapply server_step_ok.
Qed.

Lemma server_ok_exact s : server_ok s -> (forall a, is_Some (heap s !! a) <-> 0 < refs s a) /\
  (forall a o, heap s !! a = Some o -> refcount o = refs s a).
Proof.
  intros Hok. split.
  - intros a. split; [|by intros H; apply (ok_live _ _ Hok); left].
    intros [o Ho]. destruct (ok_count _ _ Hok a o Ho). lia.
  - intros a o Ho. destruct (ok_count _ _ Hok a o Ho). lia.
Qed.

(** The same with at most [n] pointers to any object in each state on the
    way.  The counter of an object is an int, which 2^31 pointers overflow;
    an unbounded number stands for it in the model, so that the model is the
    code for as long as there are not so many. *)
Inductive reachable_within (n : Z) (dbnum : nat) : conn * server -> Prop :=
  | within_start cf0 : reachable_within n dbnum (new_conn, initServer dbnum cf0)
  | within_step st st' : reachable_within n dbnum st -> step st st' -> (forall a, refs st'.2 a <= n) -> reachable_within n dbnum st'.

Lemma within_reachable n dbnum st : reachable_within n dbnum st -> reachable dbnum st.
Proof. induction 1; [constructor|by eapply reachable_step]. Qed.

Lemma initServer_refs dbnum cf0 a : refs (initServer dbnum cf0) a <= 1.
Proof.
  unfold refs, initServer. cbn [dbs argv argv_refs]. rewrite db_refs_empty. unfold shared_ref. destruct (decide _); lia.
Qed.

Lemma within_bound n dbnum st a : 1 <= n -> reachable_within n dbnum st -> refs st.2 a <= n.
Proof. intros Hn [cf0|st0 st' _ _ H]; [|apply H]. cbn [snd]. pose proof (initServer_refs dbnum cf0 a). lia. Qed.

(** C3: in every state that the server reaches from its start through states
    in which no object has more than 2^30 pointers, the heap, the databases
    and the arguments of the client fit together: an object is in the heap
    exactly when a database, the client or the table of shared integers
    points to it, and its reference count is the number of those pointers and
    fits an int, so nothing is freed while in use and nothing leaks; every
    expire time belongs to a key, the shared integers are intact, and the
    parser's variables are consistent.  (While a round of input is served,
    a counter can exceed this bound by the number of arguments in the query
    buffer, which is of 1 GB at most and takes several bytes for each.) *)
Theorem reachable_ok (dbnum : nat) (c : conn) (s : server) :
  (0 < dbnum)%nat -> reachable_within (2 ^ 30) dbnum (c, s) ->
  server_ok s /\ client_state c s /\ (forall a, is_Some (heap s !! a) <-> 0 < refs s a) /\
  (forall a o, heap s !! a = Some o -> refcount o = refs s a /\ in_s 32 (refcount o)).
Proof.
  intros Hn Hr. destruct (reachable_inv dbnum (c, s) Hn (within_reachable _ _ _ Hr)) as [Hok Hst]. do 2 (split; [done|]).
  destruct (server_ok_exact s Hok) as [Hlive Hcount]. split; [done|]. intros a o Ho. pose proof (Hcount a o Ho) as E. split; [done|].
  pose proof (within_bound (2 ^ 30) dbnum (c, s) a ltac:(lia) Hr) as Hb. cbn [snd] in Hb. destruct (ok_count _ _ Hok a o Ho) as [Hpos _]. unfold in_s. lia.
Qed.

(** C9: in every reachable state every live object is well typed: its
    encoding is one that its type allows and its pointer holds what the
    encoding says, a string with the raw or embedded encoding its bytes, one
    with the integer encoding a number of 64 bits; and every key of every
    database leads to such an object, with a positive reference count. *)
Theorem reachable_typed (dbnum : nat) (c : conn) (s : server) (d : nat) (db : redisDb) (k : key) (a : addr) :
  (0 < dbnum)%nat -> reachable dbnum (c, s) -> dbs s !! d = Some db -> dict db !! k = Some a ->
  exists o, heap s !! a = Some o /\ 1 <= refcount o /\
    match type o, encoding o, ptr o with
    | OBJ_STRING, (OBJ_ENCODING_RAW | OBJ_ENCODING_EMBSTR), PSds str => Z.of_nat (length str) <= ALLOC_MAX
    | OBJ_STRING, OBJ_ENCODING_INT, PLong v => in_s 64 v
    | OBJ_LIST, OBJ_ENCODING_QUICKLIST, PAgg _ => True
    | OBJ_SET, (OBJ_ENCODING_HT | OBJ_ENCODING_INTSET), PAgg _ => True
    | OBJ_ZSET, (OBJ_ENCODING_SKIPLIST | OBJ_ENCODING_ZIPLIST), PAgg _ => True
    | OBJ_HASH, (OBJ_ENCODING_HT | OBJ_ENCODING_ZIPLIST), PAgg _ => True
    | _, _, _ => False
    end.
Proof.
  intros Hn Hr Hd Hk. destruct (reachable_inv dbnum (c, s) Hn Hr) as [Hok _]. cbn in Hok.
  destruct (ok_live _ _ Hok a) as [o Ho].
  { left. unfold refs. pose proof (db_refs_lookup _ _ _ _ _ Hd Hk). pose proof (argv_refs_nonneg (argv s) a).
    pose proof (shared_ref_range a). lia. }
  exists o. split; [done|]. split; [apply (ok_count _ _ Hok a o Ho)|]. exact (ok_obj _ _ Hok a o Ho).
Qed.

(** ** Serving requests *)

(** C2: the commands of the table do on the heap of reference-counted,
    shared and encoded objects what their specifications do on plain
    values: the same replies, keyspace, expire times, events, counters and
    propagated commands, or the same fault; and they leave the heap
    well-formed. *)
Theorem commands_refine (i : nat) (cmd : redisCommand) (spec : AM unit) (s : server) :
  redisCommandTable !! i = Some cmd -> command_specs !! i = Some spec -> client_ok s -> argc_ok s ->
  match proc cmd s with
  | Ret (_, s') => spec (abs s) = Ret (tt, abs s') /\ server_ok s'
  | Fault f => spec (abs s) = Fault f
  end.
Proof.
  intros Hc Hs Hok Hn. assert (Hi : specified_table !! i = Some (cmd, spec)).
  { unfold specified_table. apply lookup_zip_with_Some. eauto. }
  pose proof (Forall_lookup_1 _ _ _ _ specified_table_ok Hi s Hok Hn) as H. unfold sim in H. cbn [fst snd] in H.
  destruct (proc cmd s) as [[u s']|f]; [|exact H]. by destruct H as ([] & E & Hd).
Qed.

Lemma requests_sim s rs : between s -> Forall request_ok rs ->
  sim s (processInputBuffer redisCommandTable (idle (concat (map encode_request rs)))) (aserve_all specified_table rs)
    (fun s' c closed => server_ok s' /\ close_after_reply c = closed /\ (closed = false -> c = idle [] /\ argv s' = [])).
Proof.
  intros Hb Hr. rewrite <- table_is. apply input_loop_sim; [apply specified_table_ok|done|done|]. cbn [querybuf idle]. lia.
Qed.

(** C1: the path of a request, from the bytes in the query buffer through
    the protocol parser, the command table and the commands to the release
    of the arguments, refines the specification that serves the list of
    requests one after the other. *)
Theorem pipeline_refines (s : server) (rs : list (list (list Z))) :
  between s -> Forall request_ok rs ->
  match processInputBuffer redisCommandTable (idle (concat (map encode_request rs))) s with
  | Ret (c', s') =>
      aserve_all specified_table rs (abs s) = Ret (close_after_reply c', abs s') /\ server_ok s' /\
      (close_after_reply c' = false -> c' = idle [] /\ argv s' = [])
  | Fault f => aserve_all specified_table rs (abs s) = Fault f
  end.
Proof.
  intros Hb Hr. pose proof (requests_sim s rs Hb Hr) as H. unfold sim in H.
  destruct (processInputBuffer _ _ s) as [[c' s']|f]; [|exact H]. by destruct H as (b & E & Hok & <- & Hi).
Qed.

Lemma requests_served s rs t : between s -> Forall request_ok rs ->
  aserve_all specified_table rs (abs s) = Ret (false, t) ->
  exists s', processInputBuffer redisCommandTable (idle (concat (map encode_request rs))) s = Ret (idle [], s') /\
    between s' /\ abs s' = t.
Proof.
  intros Hb Hr E. pose proof (requests_sim s rs Hb Hr) as H. unfold sim in H. rewrite E in H.
  destruct (processInputBuffer _ _ s) as [[c' s']|f]; [|done]. destruct H as (b & [= <- Et] & Hok & _ & Hi).
  destruct (Hi eq_refl) as [-> Ha]. exists s'. by split_and!.
Qed.

(** ** A read-only slave *)


(** ** Single requests *)

(** The server is open to this client: nothing makes it refuse a command
    that has its arguments. *)
Definition serving (c : conf) : Prop :=
  loading c = false /\ gt c = mk_gates false None false false false false false false.

Lemma serving_refuse c cmd n : serving c -> arity_ok (arity cmd) n -> refuse cmd (Z.of_nat n) c = None.
Proof.
  intros [Hl Hg] Ha. unfold refuse, arity_ok in *. rewrite Ha, Hg, Hl. cbn. by rewrite !andb_false_r.
Qed.

(** The state in which the specification of a command runs. *)
Definition in_request (t : astate) (cmd : redisCommand) (r : list (list Z)) : astate :=
  mk_astate (adbs t) r (acur t)
    (with_cmd (name cmd) (CMD_READONLY cmd && negb (master_client (gt (acf t)))) (acf t)) (alg t).

Definition after_request (before t : astate) : astate :=
  mk_astate (adbs t) [] (acur t) (acf t)
    (if dirty (alg before) <? dirty (alg t) then add_propagated (acur t) (aargs t) (alg t) else alg t).

Lemma serve_command t r n0 cmd spec t' : head r = Some n0 ->
  map tolower (cstr n0) <> bytes_of_string "quit" -> alookupCommand specified_table n0 = Some (cmd, spec) ->
  refuse cmd (Z.of_nat (length r)) (acf t) = None -> spec (in_request t cmd r) = Ret (tt, t') ->
  aserve specified_table r t = Ret (C_OK, after_request t t').
Proof.
  intros Hh Hq El Er Es. destruct r as [|x r]; [done|]. injection Hh as ->.
  unfold aserve, aprocessCommand, acall, apropagate, mbind, AM_bind, aset_args, aarg, aargc, aget, aset_cmd.
  cbn [aargs acf adbs acur alg lookup list_lookup]. rewrite bool_decide_false by done. rewrite El. cbn [aargs acf]. rewrite Er.
  unfold in_request in Es. cbn [aargs acf adbs acur alg]. rewrite Es. unfold after_request. by destruct (_ <? _).
Qed.

Lemma serve_one r t t' : aserve specified_table r t = Ret (C_OK, t') ->
  forall rs, aserve_all specified_table (r :: rs) t = aserve_all specified_table rs t'.
Proof. intros E rs. cbn [aserve_all]. unfold mbind, AM_bind. by rewrite E. Qed.

Definition request (n : String.string) (args : list (list Z)) : list (list Z) := bytes_of_string n :: args.
Arguments request _%_string_scope _.

(** One request alone in the buffer. *)
Section one_request.
  Context (s : server) (n : String.string) (args : list (list Z)) (cmd : redisCommand) (spec : AM unit).
Let r := request n args.
  Context (Hb : between s) (El : alookupCommand specified_table (bytes_of_string n) = Some (cmd, spec))
    (Hr : request_ok r) (Hq : map tolower (cstr (bytes_of_string n)) <> bytes_of_string "quit")
    (Er : refuse cmd (Z.of_nat (length r)) (cf s) = None).
Let c := idle (concat (map encode_request [r])).

Lemma request_served t1 : spec (in_request (abs s) cmd r) = Ret (tt, t1) ->
  exists s', processInputBuffer redisCommandTable c s = Ret (idle [], s') /\ between s' /\
    abs s' = after_request (abs s) t1.
Proof using All.
  intros E. apply requests_served; [done|by constructor|]. erewrite serve_one; [done|]. by eapply serve_command.
Qed.

Lemma request_faults f : spec (in_request (abs s) cmd r) = Fault f -> processInputBuffer redisCommandTable c s = Fault f.
Proof using All.
  intros E. pose proof (requests_sim s [r] Hb) as H. unfold sim in H. fold c in H. specialize (H (Forall_cons_2 _ _ _ Hr (Forall_nil_2 _))).
  assert (Ef : aserve_all specified_table [r] (abs s) = Fault f).
  { cbn [aserve_all]. unfold mbind at 1, AM_bind at 1. unfold aserve, aprocessCommand, acall, mbind, AM_bind, aset_args, aarg, aargc, aget, aset_cmd.
    cbn [aargs acf adbs acur alg lookup list_lookup]. unfold r at 1, request at 1. cbn [aargs lookup list_lookup]. rewrite bool_decide_false by done. rewrite El. cbn [aargs acf].
    change (acf (abs s)) with (cf s). rewrite Er. unfold in_request in E. cbn [adbs aargs acur acf alg]. change (acf (abs s)) with (cf s) in E. by rewrite E. }
  rewrite Ef in H. destruct (processInputBuffer redisCommandTable c s) as [[c' s']|g]; [by destruct H as (? & ? & _)|congruence].
Qed.
End one_request.
Arguments request_served _ _%_string_scope _ {_ _} _ _ _ _ _ _ _.
Arguments request_faults _ _%_string_scope _ {_ _} _ _ _ _ _ _ _.

(** The current database of the client, and changes to it. *)
Definition cur_adb (t : astate) : adb := nth (Z.to_nat (acur t)) (adbs t) (mk_adb ∅ ∅).
Definition put (db : adb) (t : astate) : astate :=
  mk_astate (<[Z.to_nat (acur t) := db]> (adbs t)) (aargs t) (acur t) (acf t) (alg t).
Definition note (f : log -> log) (t : astate) : astate :=
  mk_astate (adbs t) (aargs t) (acur t) (acf t) (f (alg t)).
Definition in_range (t : astate) : Prop := 0 <= acur t < Z.of_nat (length (adbs t)).

Lemma in_range_put db t : in_range t -> in_range (put db t).
Proof. unfold in_range. cbn. by rewrite length_insert. Qed.
Lemma cur_put db t : in_range t -> cur_adb (put db t) = db.
Proof.
  intros H. unfold cur_adb, put. cbn. unfold in_range in H. apply nth_lookup_Some, list_lookup_insert_eq. lia.
Qed.
Lemma put_twice db db' t : put db (put db' t) = put db t.
Proof. unfold put. cbn. by rewrite list_insert_insert_eq. Qed.
Lemma put_note db f t : put db (note f t) = note f (put db t).
Proof. done. Qed.

Lemma get_db_in t d : d = acur t -> in_range t -> aget_db d t = Ret (cur_adb t, t).
Proof.
  intros -> H. unfold aget_db, in_range in *. destruct (Z.ltb_spec (acur t) 0); [lia|].
  destruct (adbs t !! Z.to_nat (acur t)) eqn:E; [|apply lookup_ge_None in E; lia].
  unfold cur_adb. by rewrite (nth_lookup_Some _ _ _ _ E).
Qed.

Lemma store_in t d k v : d = acur t -> in_range t ->
  astore d k v t = Ret (tt, put (mk_adb (<[k := v]> (adict (cur_adb t))) (aexpires (cur_adb t))) t).
Proof. intros -> H. unfold astore, mbind, AM_bind. by rewrite get_db_in. Qed.

Lemma set_expire_none t d k : d = acur t -> in_range t ->
  aset_expire d k None t = Ret (tt, put (mk_adb (adict (cur_adb t)) (delete k (aexpires (cur_adb t)))) t).
Proof. intros -> H. unfold aset_expire, mbind, AM_bind. by rewrite get_db_in. Qed.

(** An expired key is removed by a master at the first look, and the slaves
    are told to delete it. *)
Definition drop_key (k : key) (db : adb) : adb := mk_adb (delete k (adict db)) (delete k (aexpires db)).
Definition key_expired (t : astate) (k : key) : bool := expired_at (acf t) (aexpires (cur_adb t) !! k).
Definition expire_log (d : Z) (k : key) (l : log) : log :=
  add_event (NOTIFY_EXPIRED, bytes_of_string "expired", k, d)
    (add_propagated d [bytes_of_string "DEL"; k] (add_expired l)).
Definition expire_key (k : key) (t : astate) : astate :=
  if key_expired t k && negb (masterhost (acf t)) then
    note (expire_log (acur t) k) (put (drop_key k (cur_adb t)) t)
  else t.

Lemma expireIfNeeded_in t d k : d = acur t -> in_range t -> exists b, aexpireIfNeeded d k t = Ret (b, expire_key k t) /\
  (masterhost (acf t) = true -> b = key_expired t k) /\ (key_expired t k = false -> b = false).
Proof.
  intros -> H. unfold aexpireIfNeeded, mbind, AM_bind. rewrite get_db_in by done. cbn [aget]. unfold expire_key, key_expired.
  destruct (expired_at _ _); [|by exists false]. destruct (masterhost (acf t)); [by exists true|].
  unfold aget, arecord, adelete, mbind, AM_bind. rewrite get_db_in by done. by eexists.
Qed.

Lemma expire_key_range k t : in_range t -> in_range (expire_key k t).
Proof. intros H. unfold expire_key. destruct (_ && _); [by apply (in_range_put _ t)|done]. Qed.
Lemma expire_key_cur k t : acur (expire_key k t) = acur t.
Proof. unfold expire_key. by destruct (_ && _). Qed.
#[local] Hint Resolve expire_key_range in_range_put expire_key_cur : core.

(** What [setKey] leaves. *)
Definition set_key_log (k : key) (t : astate) : log :=
  if key_expired t k && negb (masterhost (acf t)) then expire_log (acur t) k (alg t) else alg t.
Definition bind_key (k : key) (v : sval) (db : adb) : adb := mk_adb (<[k := v]> (adict db)) (delete k (aexpires db)).

Lemma setKey_in t d k v : d = acur t -> in_range t ->
  asetKey d k v t = Ret (tt, note (fun _ => add_touched d k (set_key_log k t)) (put (bind_key k v (cur_adb t)) t)).
Proof.
  intros -> H. unfold asetKey, alookupWrite, alookup, mbind, AM_bind.
  destruct (expireIfNeeded_in t (acur t) k eq_refl H) as (b & -> & _). rewrite get_db_in by auto. cbn [mret AM_ret].
  rewrite store_in by auto. rewrite set_expire_none by (cbn; auto). unfold arecord. do 2 f_equal.
  rewrite put_twice, cur_put by auto. unfold expire_key, set_key_log, bind_key.
  destruct (_ && _); [|done]. rewrite put_note. rewrite put_twice.
  change (cur_adb (note _ ?u)) with (cur_adb u). rewrite cur_put by done. cbn [adict aexpires drop_key].
  by rewrite insert_delete_eq, delete_delete_eq.
Qed.

(** ** What is set is read *)

Lemma lookup_set : alookupCommand specified_table (bytes_of_string "SET") = Some (entry "set" setCommand (-3) "wm", aSET).
Proof. reflexivity. Qed.
Lemma lookup_get : alookupCommand specified_table (bytes_of_string "GET") = Some (entry "get" getCommand 2 "rF", aGET).
Proof. reflexivity. Qed.

Definition set_log (k v : list Z) (t : astate) : log :=
  let d := acur t in
  add_output shared_ok (add_event (NOTIFY_STRING, bytes_of_string "set", k, d)
    (add_dirty 1 (add_touched d k (set_key_log k t)))).

Lemma no_options fuel flags tu e t : length (aargs t) = 3%nat ->
  aSetOptions fuel 3 flags tu e t = Ret (Some (flags, tu, e), t).
Proof. intros Ha. destruct fuel; cbn; unfold mbind, AM_bind, aargc, aget; by rewrite Ha. Qed.

Lemma plain_set t k v : in_range t -> aSetGeneric OBJ_SET_NO_FLAGS k v None UNIT_SECONDS None None t =
  Ret (tt, note (fun _ => set_log k v t) (put (bind_key k (AStr v) (cur_adb t)) t)).
Proof.
  intros Hr. unfold aSetGeneric, aSetExpire, aSetForbidden, mbind, AM_bind, aget, mret, AM_ret.
  change (has OBJ_SET_NO_FLAGS OBJ_SET_NX) with false. change (has OBJ_SET_NO_FLAGS OBJ_SET_XX) with false. cbv iota beta.
  by rewrite setKey_in.
Qed.

Lemma set_runs t k v : in_range t -> aargs t = request "SET" [k; v] ->
  aSET t = Ret (tt, note (fun _ => set_log k v t) (put (bind_key k (AStr v) (cur_adb t)) t)).
Proof.
  intros Hr Ha. unfold aSET, mbind, AM_bind, aargc, aget. rewrite no_options by (by rewrite Ha). unfold aarg.
  rewrite Ha. cbn [lookup list_lookup request]. rewrite Ha. by apply plain_set.
Qed.

Lemma get_runs t k v : in_range t -> aargs t = request "GET" [k] -> adict (cur_adb t) !! k = Some (AStr v) ->
  key_expired t k = false -> aGET t = Ret (tt, note (fun l => add_output (bulk v) (add_hit l)) t).
Proof.
  intros Hr Ha Hk He. unfold aGET, aGetGeneric, mbind, AM_bind, aarg. rewrite Ha. cbn [lookup list_lookup request].
  unfold alookupReadOrReply, alookupRead, alookup, mbind, AM_bind, aget.
  destruct (expireIfNeeded_in t (acur t) k eq_refl Hr) as (b & -> & _ & ->); [|done].
  unfold expire_key. rewrite He. cbn [andb negb]. rewrite get_db_in by done. unfold mret, AM_ret. rewrite Hk.
  cbn. do 2 f_equal. unfold note. cbn. unfold aReplyBulk, bulk, add_output, add_hit. cbn. rewrite <- !app_assoc. cbn. by rewrite <- ?app_assoc.
Qed.

(** A read leaves the counter of changes, so nothing is propagated. *)
Lemma after_quiet t t' : dirty (alg t') = dirty (alg t) ->
  after_request t t' = mk_astate (adbs t') [] (acur t') (acf t') (alg t').
Proof. intros E. unfold after_request. by rewrite E, Z.ltb_irrefl. Qed.

(** The clock and the role stay; the command of the client changes. *)
Definition same_conf (c c' : conf) : Prop := exists n ro, c' = with_cmd n ro c.

Lemma serving_conf c c' : same_conf c c' -> serving c -> serving c'.
Proof. intros (n & ro & ->) H. exact H. Qed.

Lemma set_key_dirty k t : dirty (set_key_log k t) = dirty (alg t) /\ output (set_key_log k t) = output (alg t).
Proof. unfold set_key_log. by destruct (_ && _). Qed.

Lemma serve_set t k v : in_range t -> serving (acf t) ->
  exists t', aserve specified_table (request "SET" [k; v]) t = Ret (C_OK, t') /\
    adbs t' = adbs (put (bind_key k (AStr v) (cur_adb t)) t) /\ acur t' = acur t /\ same_conf (acf t) (acf t') /\
    output (alg t') = output (alg t) ++ shared_ok /\ dirty (alg t') = dirty (alg t) + 1 /\
    last (propagated (alg t')) = Some (acur t, request "SET" [k; v]).
Proof.
  intros Hr Hs. eexists. split.
  { eapply serve_command; [done|done|exact lookup_set|by apply (serving_refuse _ _ 3)|].
    apply set_runs; [exact Hr|done]. }
  unfold after_request. cbn [note put in_request adbs acur acf alg aargs set_log dirty output add_output add_event add_dirty add_touched].
  match goal with |- context [set_key_log k ?u] => destruct (set_key_dirty k u) as [Ed Eo] end. cbn [in_request alg] in Ed, Eo.
  rewrite Ed. destruct (Z.ltb_spec (dirty (alg t)) (dirty (alg t) + 1)) as [_|]; [|lia].
  cbn [add_propagated propagated output dirty]. rewrite last_snoc. cbn. rewrite Ed, Eo. split_and!; try done. by do 2 eexists.
Qed.

Lemma serve_get t k v : in_range t -> serving (acf t) -> adict (cur_adb t) !! k = Some (AStr v) -> key_expired t k = false ->
  exists t', aserve specified_table (request "GET" [k]) t = Ret (C_OK, t') /\
    adbs t' = adbs t /\ acur t' = acur t /\ same_conf (acf t) (acf t') /\
    output (alg t') = output (alg t) ++ bulk v /\ dirty (alg t') = dirty (alg t) /\ propagated (alg t') = propagated (alg t).
Proof.
  intros Hr Hs Hk He. eexists. split.
  { eapply serve_command; [done|done|exact lookup_get|by apply (serving_refuse _ _ 2)|].
    apply (get_runs _ k v); [exact Hr|done|exact Hk|exact He]. }
  rewrite after_quiet by done. split_and!; try done. by do 2 eexists.
Qed.

Lemma abs_in_range s : server_ok s -> in_range (abs s).
Proof. intros Hok. destruct (abs_aok s Hok) as (H1 & H2 & _). unfold in_range. by rewrite H1. Qed.

Lemma short_request n args : (length args <= 3)%nat -> Z.of_nat (length (bytes_of_string n)) <= 512 * 1024 * 1024 ->
  Forall (fun a => Z.of_nat (length a) <= 512 * 1024 * 1024) args -> request_ok (request n args).
Proof. intros Hl Hn Ha. split; [cbn; lia|]. split; [cbn [length request]; lia|]. by constructor. Qed.

Lemma set_served s k v : between s -> serving (cf s) -> Forall (fun a => Z.of_nat (length a) <= 512 * 1024 * 1024) [k; v] ->
  exists s', processInputBuffer redisCommandTable
      (idle (concat (map encode_request [request "SET" [k; v]]))) s = Ret (idle [], s') /\ between s' /\
    adbs (abs s') = adbs (put (bind_key k (AStr v) (cur_adb (abs s))) (abs s)).
Proof.
  intros Hb Hs Hkv. pose proof Hb as [Hok _]. pose proof (abs_in_range s Hok) as Hr.
  destruct (serve_set (abs s) k v Hr Hs) as (t1 & E1 & D1 & _).
  destruct (requests_served s [request "SET" [k; v]] t1) as (s' & E & Hb' & <-); [done| | |by exists s'].
  - constructor; [apply short_request; [cbn; lia|done|done]|done].
  - by rewrite (serve_one _ _ _ E1).
Qed.

(** C5: what a client sets it reads back, whatever bytes it sets and
    whatever was at the key.  SET k v and GET k sent in one buffer are
    answered +OK and the bytes of v, the key is bound to v with no expire
    time, the other keys stay, and SET is propagated. *)
Theorem set_then_get (s : server) (k v : list Z) :
  between s -> serving (cf s) -> Forall (fun a => Z.of_nat (length a) <= 512 * 1024 * 1024) [k; v] ->
  exists s', processInputBuffer redisCommandTable
      (idle (concat (map encode_request [request "SET" [k; v]; request "GET" [k]]))) s = Ret (idle [], s') /\
    between s' /\
    output (lg s') = output (lg s) ++ shared_ok ++ bulk v /\
    adbs (abs s') = adbs (put (bind_key k (AStr v) (cur_adb (abs s))) (abs s)) /\
    last (propagated (lg s')) = Some (curdb s, request "SET" [k; v]) /\ dirty (lg s') = dirty (lg s) + 1.
Proof.
  intros Hb Hs Hkv. pose proof Hb as [Hok _]. pose proof (abs_in_range s Hok) as Hr.
  destruct (serve_set (abs s) k v Hr Hs) as (t1 & E1 & D1 & C1 & F1 & O1 & N1 & P1).
  assert (Hdb : cur_adb t1 = bind_key k (AStr v) (cur_adb (abs s))).
  { unfold cur_adb. rewrite D1, C1. exact (cur_put _ _ Hr). }
  destruct (serve_get t1 k v) as (t2 & E2 & D2 & C2 & _ & O2 & N2 & P2).
  { unfold in_range. rewrite D1, C1. exact (in_range_put _ _ Hr). }
  { by eapply serving_conf. }
  { rewrite Hdb. apply lookup_insert_eq. }
  { unfold key_expired. rewrite Hdb. cbn. by rewrite lookup_delete_eq. }
  destruct (requests_served s [request "SET" [k; v]; request "GET" [k]] t2) as (s' & E & Hb' & <-).
  { done. }
  { apply Forall_cons in Hkv as [Hk Hv]. do 2 (apply Forall_cons; split; [apply short_request; [cbn; lia|done|by constructor]|]).
    by apply Forall_nil. }
  { by rewrite (serve_one _ _ _ E1), (serve_one _ _ _ E2). }
  exists s'. do 2 (split; [done|]). cbn [alg abs acur] in *. rewrite O2, O1, <- app_assoc, P2, N2. by rewrite D2, D1.
Qed.

(** ** Counters *)

Lemma lookupWrite_in t d k : d = acur t -> in_range t -> key_expired t k = false ->
  alookupWrite d k t = Ret (adict (cur_adb t) !! k, t).
Proof.
  intros -> Hr He. unfold alookupWrite, alookup, mbind, AM_bind.
  destruct (expireIfNeeded_in t (acur t) k eq_refl Hr) as (b & -> & _). unfold expire_key. rewrite He. cbn [andb].
  by rewrite get_db_in.
Qed.

Lemma lookup_incrby : alookupCommand specified_table (bytes_of_string "INCRBY") = Some (entry "incrby" incrbyCommand 3 "wmF", aINCRBY 1).
Proof. reflexivity. Qed.

(** A value that keeps the expire time of its key. *)
Definition rebind (k : key) (v : sval) (db : adb) : adb := mk_adb (<[k := v]> (adict db)) (aexpires db).
Definition incr_error : list Z := error_line (bytes_of_string "increment or decrement would overflow").

(** The sum is stored and sent if a long long holds it; otherwise there is
    an error and the data stay. *)
Definition incr_result (k : key) (sum : Z) (t t' : astate) : Prop :=
  acur t' = acur t /\ aargs t' = aargs t /\
  if (LLONG_MIN <=? sum) && (sum <=? LLONG_MAX) then
    adbs t' = adbs (put (rebind k (AStr (decimal sum)) (cur_adb t)) t) /\
    output (alg t') = output (alg t) ++ alen_header 58 sum /\ dirty (alg t') = dirty (alg t) + 1 /\
    propagated (alg t') = propagated (alg t)
  else
    adbs t' = adbs t /\ output (alg t') = output (alg t) ++ incr_error /\ dirty (alg t') = dirty (alg t) /\
    propagated (alg t') = propagated (alg t).

Ltac state_cbn := cbn [note adbs aargs acur acf alg put add_output add_dirty add_event add_touched output dirty propagated].

Lemma modify_in t d k x event : d = acur t -> in_range t -> amodify d k x event t = Ret (tt,
  note (fun l => add_dirty 1 (add_event (NOTIFY_STRING, event, k, d) (add_touched d k l)))
    (put (rebind k (AStr x) (cur_adb t)) t)).
Proof. intros Hd Hr. unfold amodify, mbind, AM_bind. by rewrite store_in. Qed.

Lemma outside_range lo hi v : (v <? lo) || (hi <? v) = negb ((lo <=? v) && (v <=? hi)).
Proof. lia. Qed.

Lemma incr_runs t k x n i : in_range t -> aargs t !! 1%nat = Some k -> key_expired t k = false ->
  adict (cur_adb t) !! k = Some (AStr x) -> string2ll x = Some n ->
  exists t', aINCR i t = Ret (tt, t') /\ incr_result k (n + i) t t'.
Proof.
  intros Hr Ha He Hk Hx. unfold aINCR, mbind, AM_bind, aget, aarg. rewrite Ha. rewrite lookupWrite_in by done. rewrite Hk.
  unfold aLongLongOrReply, incr_result. rewrite Hx. unfold mret, AM_ret.
  rewrite outside_range.
  destruct (_ && _) eqn:Hin; cbn [negb]; eexists.
  - rewrite modify_in by done.
    split; [reflexivity|]. state_cbn. do 3 (split; [done|]). split; [|done]. rewrite <- !app_assoc.
    by replace shared_colon with [58] by reflexivity.
  - unfold aReplyError, areply, arecord, mbind, AM_bind.
    split; [reflexivity|]. state_cbn. do 3 (split; [done|]). split; [|done]. by rewrite <- !app_assoc.
Qed.

Lemma incrby_runs t k x n a i : in_range t -> aargs t = request "INCRBY" [k; a] -> key_expired t k = false ->
  adict (cur_adb t) !! k = Some (AStr x) -> string2ll x = Some n -> string2ll a = Some i ->
  exists t', aINCRBY 1 t = Ret (tt, t') /\ incr_result k (n + i) t t'.
Proof.
  intros Hr Ha He Hk Hx Hi. unfold aINCRBY, aarg, mbind, AM_bind. rewrite Ha. cbn [lookup list_lookup request].
  unfold aLongLongOrReply, mret, AM_ret. rewrite Hi. apply string2ll_sound in Hi as [Hi _].
  unfold all_of. replace ((LLONG_MIN <=? 1 * i) && (1 * i <=? LLONG_MAX)) with true.
  2:{ unfold in_s in Hi. change (64 - 1) with 63 in Hi. unfold LLONG_MIN, LLONG_MAX. symmetry. lia. }
  unfold mret, AM_ret. rewrite Z.mul_1_l. eapply incr_runs; by try rewrite Ha.
Qed.

(** C8: a counter never wraps.  INCRBY on a key that holds the number n
    stores and answers n + i when a signed 64-bit integer can hold the sum,
    and keeps the expire time of the key; otherwise it answers an error and
    leaves the data and the stream of propagated commands as they are. *)
Theorem incrby_bounds (s : server) (k a x : list Z) (n i : Z) :
  between s -> serving (cf s) -> Forall (fun a => Z.of_nat (length a) <= 512 * 1024 * 1024) [k; a] ->
  key_expired (abs s) k = false -> adict (cur_adb (abs s)) !! k = Some (AStr x) ->
  string2ll x = Some n -> string2ll a = Some i ->
  exists s', processInputBuffer redisCommandTable
      (idle (concat (map encode_request [request "INCRBY" [k; a]]))) s = Ret (idle [], s') /\ between s' /\
    if (LLONG_MIN <=? n + i) && (n + i <=? LLONG_MAX) then
      adbs (abs s') = adbs (put (rebind k (AStr (decimal (n + i))) (cur_adb (abs s))) (abs s)) /\
      output (lg s') = output (lg s) ++ alen_header 58 (n + i) /\
      propagated (lg s') = propagated (lg s) ++ [(curdb s, request "INCRBY" [k; a])]
    else
      adbs (abs s') = adbs (abs s) /\ output (lg s') = output (lg s) ++ incr_error /\
      propagated (lg s') = propagated (lg s).
Proof.
  intros Hb Hs Hka He Hk Hx Ha. pose proof Hb as [Hok _]. pose proof (abs_in_range s Hok) as Hr.
  set (t := in_request (abs s) (entry "incrby" incrbyCommand 3 "wmF") (request "INCRBY" [k; a])).
  destruct (incrby_runs t k x n a i) as (t1 & E1 & Hc1 & Ha1 & H1); try done.
  destruct (request_served s "INCRBY" [k; a] Hb lookup_incrby) with (4 := E1) as (s' & E & Hb' & Es);
    [apply short_request; [cbn; lia|done|done]|done|by apply (serving_refuse _ _ 3)|].
  exists s'. do 2 (split; [done|]). unfold after_request in Es.
  change (output (lg s')) with (output (alg (abs s'))). change (propagated (lg s')) with (propagated (alg (abs s'))).
  rewrite Es. cbn [adbs alg].
  destruct (_ && _); destruct H1 as (D & O & N & P); rewrite N; cbn [t in_request alg].
  - destruct (Z.ltb_spec (dirty (alg (abs s))) (dirty (alg (abs s)) + 1)); [|lia]. cbn. rewrite P, D, O, Hc1, Ha1. done.
  - rewrite Z.ltb_irrefl. by rewrite P, D, O.
Qed.

(** ** Expired keys *)

(** What GET leaves of an expired key: the reply is that there is none. *)
Lemma get_expired t k : in_range t -> aargs t = request "GET" [k] -> key_expired t k = true ->
  (masterhost (acf t) = true -> readonly_client (acf t) = true) ->
  exists t', aGET t = Ret (tt, t') /\ acf t' = acf t /\ acur t' = acur t /\ adbs t' = adbs (expire_key k t) /\
    output (alg t') = output (alg t) ++ shared_nullbulk /\ dirty (alg t') = dirty (alg t) /\
    propagated (alg t') = propagated (alg (expire_key k t)).
Proof.
  intros Hr Ha He Hro. unfold aGET, aGetGeneric, mbind, AM_bind, aarg. rewrite Ha. cbn [lookup list_lookup request].
  unfold alookupReadOrReply, alookupRead, alookup, mbind, AM_bind, aget.
  destruct (expireIfNeeded_in t (acur t) k eq_refl Hr) as (b & -> & Hb & _).
  assert (Ef : acf (expire_key k t) = acf t) by (unfold expire_key; by destruct (_ && _)). rewrite Ef.
  assert (Eo : output (alg (expire_key k t)) = output (alg t) /\ dirty (alg (expire_key k t)) = dirty (alg t))
    by (unfold expire_key; by destruct (_ && _)). destruct Eo as [Eo Ed].
  destruct (b && (negb (masterhost (acf t)) || readonly_client (acf t))) eqn:Eb.
  { eexists. split; [reflexivity|]. cbn. rewrite Eo. split_and!; auto. }
  rewrite get_db_in by auto. assert (En : adict (cur_adb (expire_key k t)) !! k = None).
  { unfold expire_key. rewrite He. destruct (masterhost (acf t)) eqn:Em.
    - rewrite Hb, Hro, He in Eb by done. done.
    - cbn [andb negb]. change (cur_adb (note _ ?u)) with (cur_adb u). rewrite cur_put by done. apply lookup_delete_eq. }
  unfold mret, AM_ret. rewrite En. eexists. split; [reflexivity|]. cbn. rewrite Eo. split_and!; auto.
Qed.

(** C7: a client never reads a key past its expire time.  GET of an expired
    key is answered as GET of no key.  A master removes the key and its
    expire time and tells the slaves to delete it; a slave leaves its data
    and waits for its master. *)
Theorem expired_not_read (s : server) (k : list Z) :
  between s -> serving (cf s) -> Z.of_nat (length k) <= 512 * 1024 * 1024 -> key_expired (abs s) k = true ->
  exists s', processInputBuffer redisCommandTable
      (idle (concat (map encode_request [request "GET" [k]]))) s = Ret (idle [], s') /\ between s' /\
    output (lg s') = output (lg s) ++ shared_nullbulk /\
    if masterhost (cf s) then
      adbs (abs s') = adbs (abs s) /\ propagated (lg s') = propagated (lg s)
    else
      adbs (abs s') = adbs (put (drop_key k (cur_adb (abs s))) (abs s)) /\
      propagated (lg s') = propagated (lg s) ++ [(curdb s, [bytes_of_string "DEL"; k])].
Proof.
  intros Hb Hs Hk He. pose proof Hb as [Hok _]. pose proof (abs_in_range s Hok) as Hr.
  set (t := in_request (abs s) (entry "get" getCommand 2 "rF") (request "GET" [k])).
  destruct (get_expired t k) as (t1 & E1 & F1 & C1 & D1 & O1 & N1 & P1); try done.
  { intros _. destruct Hs as [_ Hg]. cbn [t in_request acf abs with_cmd readonly_client]. by rewrite Hg. }
  destruct (request_served s "GET" [k] Hb lookup_get) with (4 := E1) as (s' & E & Hb' & Es);
    [apply short_request; [cbn; lia|done|by constructor]|done|by apply (serving_refuse _ _ 2)|].
  exists s'. do 2 (split; [done|]). rewrite after_quiet in Es by exact N1.
  change (output (lg s')) with (output (alg (abs s'))). change (propagated (lg s')) with (propagated (alg (abs s'))).
  rewrite Es. cbn [adbs alg]. rewrite O1, P1, D1. split; [done|]. unfold expire_key.
  change (key_expired t k) with (key_expired (abs s) k). rewrite He. cbn [andb]. change (masterhost (acf t)) with (masterhost (cf s)).
  by destruct (masterhost (cf s)).
Qed.
