(* ===== verification/Limits.v ===== *)
(** * Limits: behaviours that the code does not intend

    Requests on which the server does something else than its comments and
    its documentation say, found while the commands were specified. *)

From S2P Require Import Prelude Util Object Db ServerOk Abstract ServerSim TString ValueSim AString StringSim.
From S2P Require Import Keyspace AKeyspace Frame KeyspaceSim Server ServerRefine Sds SdsProofs Protocol.
From S2P Require Import ProtocolProofs Pipeline Safety Session Effects ServerTheorems.

(** ** PERSIST *)

Lemma lookup_persist : alookupCommand specified_table (bytes_of_string "PERSIST") =
  Some (entry "persist" persistCommand 2 "wF", aPERSIST).
Proof. reflexivity. Qed.

Lemma serve_persist t k : in_range t -> serving (acf t) -> is_Some (adict (cur_adb t) !! k) ->
  is_Some (aexpires (cur_adb t) !! k) ->
  exists t', aserve specified_table (request "PERSIST" [k]) t = Ret (C_OK, t') /\
    adbs t' = adbs (put (mk_adb (adict (cur_adb t)) (delete k (aexpires (cur_adb t)))) t) /\ acur t' = acur t /\
    same_conf (acf t) (acf t') /\ output (alg t') = output (alg t) ++ shared_cone.
Proof.
  intros Hr Hs Hk He. eexists. split.
  { eapply serve_command; [done|done|exact lookup_persist|by apply (serving_refuse _ _ 2)|].
    unfold aPERSIST, mbind, AM_bind, aget, aarg. cbn [aargs acur in_request request lookup list_lookup].
    rewrite get_db_in by done. change (cur_adb (in_request t _ _)) with (cur_adb t). rewrite !bool_decide_true by done.
    cbn [andb]. rewrite set_expire_none by done. reflexivity. }
  unfold after_request. cbn. destruct (_ <? _); (split_and!; [done|done|by do 2 eexists|done]).
Qed.

(** PERSIST looks the key up without a look at its expire time: on a master
    it gives a key that has expired, and that no other command would still
    find, back to the clients. *)
Theorem persist_revives (s : server) (k v : list Z) :
  between s -> serving (cf s) -> Z.of_nat (length k) <= 512 * 1024 * 1024 ->
  key_expired (abs s) k = true -> adict (cur_adb (abs s)) !! k = Some (AStr v) ->
  exists s', processInputBuffer redisCommandTable
      (idle (concat (map encode_request [request "PERSIST" [k]; request "GET" [k]]))) s = Ret (idle [], s') /\
    between s' /\ output (lg s') = output (lg s) ++ shared_cone ++ bulk v.
Proof.
  intros Hb Hs Hk He Hv. pose proof Hb as [Hok _]. pose proof (abs_in_range s Hok) as Hr.
  assert (Hw : is_Some (aexpires (cur_adb (abs s)) !! k)).
  { unfold key_expired, expired_at in He. by destruct (aexpires (cur_adb (abs s)) !! k). }
  destruct (serve_persist (abs s) k Hr Hs ltac:(done) Hw) as (t1 & E1 & D1 & C1 & F1 & O1).
  assert (Hdb : cur_adb t1 = mk_adb (adict (cur_adb (abs s))) (delete k (aexpires (cur_adb (abs s))))).
  { unfold cur_adb at 1. rewrite D1, C1. exact (cur_put _ _ Hr). }
  destruct (serve_get t1 k v) as (t2 & E2 & _ & _ & _ & O2 & _ & _).
  { unfold in_range. rewrite D1, C1. exact (in_range_put _ _ Hr). }
  { by eapply serving_conf. }
  { by rewrite Hdb. }
  { unfold key_expired. rewrite Hdb. cbn. by rewrite lookup_delete_eq. }
  destruct (requests_served s [request "PERSIST" [k]; request "GET" [k]] t2) as (s' & E & Hb' & <-).
  { done. }
  { do 2 (apply Forall_cons; split; [apply short_request; [cbn; lia|done|by constructor]|]). by apply Forall_nil. }
  { by rewrite (serve_one _ _ _ E1), (serve_one _ _ _ E2). }
  exists s'. do 2 (split; [done|]). cbn [alg abs] in *. by rewrite O2, O1, <- app_assoc.
Qed.

(** ** FLUSHALL *)

Lemma lookup_flushall : alookupCommand specified_table (bytes_of_string "FLUSHALL") =
  Some (entry "flushall" flushallCommand 1 "w", aFLUSHALL).
Proof. reflexivity. Qed.

Definition key_count (l : list adb) : Z := foldr (fun db n => Z.of_nat (size (adict db)) + n) 0 l.

Lemma flushall_runs t : save_params (acf t) = true ->
  aFLUSHALL t = Ret (tt, mk_astate ((fun _ => mk_adb ∅ ∅) <$> adbs t) (aargs t) (acur t) (acf t)
    (add_dirty 1 (set_dirty (i32 (dirty (alg t) + key_count (adbs t)))
      (add_output shared_ok (add_dirty (key_count (adbs t)) (add_flushed (-1) (alg t))))))).
Proof.
  intros Hp. destruct t as [l v d c g]. unfold aFLUSHALL, aget, mbind, AM_bind, areply, arecord, aempty_all. cbn [acf] in *. by rewrite Hp.
Qed.

Lemma i32_range n : - 2 ^ 31 <= i32 n < 2 ^ 31.
Proof. exact (swrap_range 32 n ltac:(lia)). Qed.

(** The number of changes since the last save goes through an int: past
    2^31 the counter comes back lower than it was, so FLUSHALL empties the
    databases but is not given to the slaves nor to the AOF, which is what
    the comment of the code wants to avoid. *)
Theorem flushall_lost (s : server) :
  between s -> serving (cf s) -> save_params (cf s) = true -> 2 ^ 31 <= dirty (lg s) ->
  exists s', processInputBuffer redisCommandTable (idle (concat (map encode_request [request "FLUSHALL" []]))) s =
      Ret (idle [], s') /\ between s' /\
    adbs (abs s') = (fun _ => mk_adb ∅ ∅) <$> adbs (abs s) /\ propagated (lg s') = propagated (lg s).
Proof.
  intros Hb Hs Hp Hd. destruct (request_served s "FLUSHALL" [] Hb lookup_flushall) with (4 := flushall_runs
    (in_request (abs s) (entry "flushall" flushallCommand 1 "w") (request "FLUSHALL" [])) Hp) as (s' & E & Hb' & Es);
    [apply short_request; [cbn; lia|done|by constructor]|done|by apply (serving_refuse _ _ 1)|].
  exists s'. do 2 (split; [done|]). unfold after_request in Es. cbn [in_request adbs aargs acur acf alg add_dirty set_dirty dirty] in Es.
  pose proof (i32_range (dirty (alg (abs s)) + key_count (adbs (abs s)))) as Hi.
  destruct (Z.ltb_spec (dirty (alg (abs s))) (i32 (dirty (alg (abs s)) + key_count (adbs (abs s))) + 1)) as [Hlt|_].
  { cbn [alg abs] in Hlt, Hi. lia. }
  change (propagated (lg s')) with (propagated (alg (abs s'))). by rewrite Es.
Qed.

(** ** Overflow *)

Lemma lookup_decrby : alookupCommand specified_table (bytes_of_string "DECRBY") =
  Some (entry "decrby" decrbyCommand 3 "wmF", aINCRBY (-1)).
Proof. reflexivity. Qed.
Lemma lookup_expire : alookupCommand specified_table (bytes_of_string "EXPIRE") =
  Some (entry "expire" expireCommand 3 "wF", aEXPIRE true UNIT_SECONDS).
Proof. reflexivity. Qed.
Lemma lookup_setrange : alookupCommand specified_table (bytes_of_string "SETRANGE") =
  Some (entry "setrange" setrangeCommand 4 "wm", aSETRANGE).
Proof. reflexivity. Qed.

Definition llong_min : list Z := bytes_of_string "-9223372036854775808".
Definition llong_max : list Z := bytes_of_string "9223372036854775807".

Lemma arg_in t j a : aargs t !! j = Some a -> aarg j t = Ret (a, t).
Proof. intros E. unfold aarg. by rewrite E. Qed.

Lemma setrange_huge t k : in_range t -> aargs t = request "SETRANGE" [k; llong_max; [120]] -> key_expired t k = false ->
  adict (cur_adb t) !! k = None -> aSETRANGE t = Fault OutOfMemory.
Proof.
  intros Hr Ha He Hn. unfold aSETRANGE, mbind, AM_bind. rewrite (arg_in t 3 [120]) by (by rewrite Ha).
  rewrite (arg_in t 2 llong_max) by (by rewrite Ha).
  replace (aLongLongOrReply llong_max None t) with (Ret (Some LLONG_MAX, t)) by reflexivity.
  change (LLONG_MAX <? 0) with false. cbv iota. unfold aget. rewrite (arg_in t 1 k) by (by rewrite Ha).
  rewrite lookupWrite_in by done. by rewrite Hn.
Qed.

(** C38: decrbyCommand negates its argument, expireGenericCommand multiplies it
    by 1000, and the size that SETRANGE asks for wraps around past the
    check against the maximum: three requests on which a server that is
    otherwise in order overflows a signed integer, or asks for more memory
    than there is and aborts. *)
Theorem overflowing_requests (s : server) (k : list Z) :
  between s -> serving (cf s) -> Z.of_nat (length k) <= 512 * 1024 * 1024 ->
  key_expired (abs s) k = false -> adict (cur_adb (abs s)) !! k = None ->
  processInputBuffer redisCommandTable (idle (concat (map encode_request [request "DECRBY" [k; llong_min]]))) s = Fault Overflow /\
  processInputBuffer redisCommandTable (idle (concat (map encode_request [request "EXPIRE" [k; llong_max]]))) s = Fault Overflow /\
  processInputBuffer redisCommandTable (idle (concat (map encode_request [request "SETRANGE" [k; llong_max; [120]]]))) s = Fault OutOfMemory.
Proof.
  intros Hb Hs Hk He Hn. pose proof Hb as [Hok _]. pose proof (abs_in_range s Hok) as Hr. split_and!.
  - apply (request_faults s "DECRBY" [k; llong_min] Hb lookup_decrby);
      [apply short_request; [cbn; lia|done|by repeat constructor]|done|by apply (serving_refuse _ _ 3)|done].
  - apply (request_faults s "EXPIRE" [k; llong_max] Hb lookup_expire);
      [apply short_request; [cbn; lia|done|by repeat constructor]|done|by apply (serving_refuse _ _ 3)|done].
  - apply (request_faults s "SETRANGE" [k; llong_max; [120]] Hb lookup_setrange);
      [apply short_request; [cbn; lia|done|by repeat constructor]|done|by apply (serving_refuse _ _ 4)|].
    by apply (setrange_huge _ k).
Qed.

(** ** SELECT *)

Lemma lookup_select : alookupCommand specified_table (bytes_of_string "SELECT") =
  Some (entry "select" selectCommand 2 "lF", aSELECT).
Proof. reflexivity. Qed.

Lemma select_runs t a v : aargs t !! 1%nat = Some a -> string2ll a = Some v ->
  0 <= i32 v < Z.of_nat (length (adbs t)) ->
  aSELECT t = Ret (tt, note (add_output shared_ok) (mk_astate (adbs t) (aargs t) (i32 v) (acf t) (alg t))).
Proof.
  intros Ha Hv Hr. unfold aSELECT, mbind, AM_bind. rewrite (arg_in _ _ _ Ha). unfold aLongLongOrReply. rewrite Hv.
  unfold mret, AM_ret, aselect. destruct (Z.leb_spec 0 (i32 v)), (Z.ltb_spec (i32 v) (Z.of_nat (length (adbs t)))); try lia. done.
Qed.

(** The index of the database goes through an int: SELECT n + 2^32 is
    answered OK and selects database n. *)
Theorem select_wraps (s : server) (n : Z) :
  between s -> serving (cf s) -> 0 <= n < Z.of_nat (length (dbs s)) -> n <= INT_MAX ->
  exists s', processInputBuffer redisCommandTable
      (idle (concat (map encode_request [request "SELECT" [decimal (n + 2 ^ 32)]]))) s = Ret (idle [], s') /\
    between s' /\ curdb s' = n /\ output (lg s') = output (lg s) ++ shared_ok.
Proof.
  intros Hb Hs Hn Hmax. change INT_MAX with (2 ^ 31 - 1) in Hmax.
  assert (Hi : i32 (n + 2 ^ 32) = n).
  { unfold swrap. cbv zeta. replace ((n + 2 ^ 32) mod 2 ^ 32) with n.
    - change (32 - 1) with 31. destruct (Z.ltb_spec n (2 ^ 31)); lia.
    - apply (Z.mod_unique_pos _ _ 1); lia. }
  assert (Hd : string2ll (decimal (n + 2 ^ 32)) = Some (n + 2 ^ 32)).
  { apply string2ll_complete. unfold in_s. change (64 - 1) with 63. lia. }
  set (t := in_request (abs s) (entry "select" selectCommand 2 "lF") (request "SELECT" [decimal (n + 2 ^ 32)])).
  assert (Er : aSELECT t = Ret (tt, note (add_output shared_ok) (mk_astate (adbs t) (aargs t) n (acf t) (alg t)))).
  { rewrite <- Hi. apply (select_runs t (decimal (n + 2 ^ 32))); [done|done|]. rewrite Hi. cbn. by rewrite length_fmap. }
  destruct (request_served s "SELECT" [decimal (n + 2 ^ 32)] Hb lookup_select) with (4 := Er) as (s' & E & Hb' & Es);
    [|done|by apply (serving_refuse _ _ 2)|].
  { apply short_request; [cbn; lia|done|constructor; [|by constructor]].
    apply string2ll_sound in Hd as [Hd _]. pose proof (decimal_length _ Hd). lia. }
  exists s'. do 2 (split; [done|]). rewrite after_quiet in Es by done.
  change (curdb s') with (acur (abs s')). change (output (lg s')) with (output (alg (abs s'))). by rewrite Es.
Qed.

(** ** Inline requests *)

(** The line of an inline request is taken to end with two bytes: after a
    line that ends with a newline alone the first byte of the next request
    is lost. *)
Theorem inline_drops_byte (line rest : list Z) (x : Z) (argv : list (list Z)) :
  Forall (fun c => c <> 10 /\ c <> 0) line -> last line <> Some 13 -> sdssplitargs line = Ret (Some argv) ->
  processInlineBuffer (mk_conn (line ++ 10 :: x :: rest) (Some PROTO_REQ_INLINE) 0 (-1) false) =
  Ret (mk_parsed (mk_conn rest (Some PROTO_REQ_INLINE) 0 (-1) false) (nonempty_args argv) None true).
Proof.
  intros Hl H13 Hs. unfold processInlineBuffer. cbn [querybuf]. rewrite strchr_app by done.
  replace (negb (length line =? 0)%nat && _) with false.
  2:{ symmetry. destruct (Nat.eqb_spec (length line) 0) as [|Hn]; [done|]. cbn. apply Z.eqb_neq. intros E. apply H13.
      rewrite last_lookup. replace (Init.Nat.pred (length line)) with (length line - 1)%nat by lia.
      rewrite app_nth1 in E by lia. rewrite <- E.
      destruct (nth_lookup_or_length line (length line - 1) 0); [done|lia]. }
  cbv zeta iota. rewrite take_app_length, Hs. cbn. rewrite sdsrange_drop by lia. do 3 f_equal.
  rewrite (drop_app_ge line) by lia. replace (Z.to_nat (Z.of_nat (length line) + 2) - length line)%nat with 2%nat by lia. done.
Qed.
