(* ===== verification/Rdb.v ===== *)
(** * Rdb: the dump of the keyspace (rdb.c, rio.c, rio.h)

    A dump is written to and read from a rio, a stream that keeps the CRC64
    of what went through it.  The stream modelled is the file of rio.c: its
    bytes, and how many more the device takes.  fwrite() appends an item or,
    when the device has no room for all of it, reports that none was written;
    fread() takes an item or reports that there are not enough bytes.  The
    buffer that the C library keeps in front of the device is left out.
    Values are strings: the loops over the elements of the aggregate types
    are not modelled, and stand as parameters of the code that calls them. *)

From S2P Require Import Prelude Endian Util Lzf Crc Object Db TString Sds.

(** ** rio *)

Record rio : Type := mk_rio {
  io_ptr : list Z;               (* the bytes of the file io.file.fp *)
  io_pos : Z;                    (* where it is read or written *)
  io_room : option Z;            (* bytes that the device still takes, if bounded *)
  cksum : Z;
  update_cksum : bool;           (* rioGenericUpdateChecksum is installed *)
  processed_bytes : Z;
  max_processing_chunk : Z
}.

(** rioInitWithFile on a file with the bytes [s]; autosync is 0. *)
Definition rioInitWithFile (s : list Z) : rio := mk_rio s 0 None 0 false 0 0.

(** A function that works on a stream: [None] is the -1 or NULL that every
    caller passes on. *)
Definition IO (A : Type) : Type := rio -> res (option A * rio).

#[export] Instance IO_ret : MRet IO := fun _ a r => Ret (Some a, r).
#[export] Instance IO_bind : MBind IO := fun _ _ k m r =>
  match m r with
  | Ret (Some a, r) => k a r
  | Ret (None, r) => Ret (None, r)
  | Fault f => Fault f
  end.

Definition io_error {A} : IO A := fun r => Ret (None, r).
Definition io_res {A} (x : res A) : IO A := fun r =>
  match x with Ret a => Ret (Some a, r) | Fault f => Fault f end.

Definition rioGenericUpdateChecksum (bs : list Z) (r : rio) : res Z :=
  if update_cksum r then crc64 (cksum r) bs else Ret (cksum r).

(** The result of fwrite(buf,len,1,fp). *)
Definition rioFileWrite (bs : list Z) (r : rio) : option rio :=
  let len := Z.of_nat (length bs) in
  let after room := mk_rio (io_ptr r ++ bs) (io_pos r + len) room (cksum r) (update_cksum r)
    (processed_bytes r) (max_processing_chunk r) in
  match io_room r with
  | Some n => if n <? len then None else Some (after (Some (n - len)))
  | None => Some (after None)
  end.

(** The result of fread(buf,len,1,fp). *)
Definition rioFileRead (len : Z) (r : rio) : option (list Z * rio) :=
  if Z.of_nat (length (io_ptr r)) - io_pos r <? len then None
  else Some (take (Z.to_nat len) (drop (Z.to_nat (io_pos r)) (io_ptr r)),
    mk_rio (io_ptr r) (io_pos r + len) (io_room r) (cksum r) (update_cksum r)
      (processed_bytes r) (max_processing_chunk r)).

Definition chunk_of (len : Z) (r : rio) : Z :=
  if negb (max_processing_chunk r =? 0) && (max_processing_chunk r <? len) then max_processing_chunk r else len.

Definition with_cksum (c : Z) (r : rio) : rio :=
  mk_rio (io_ptr r) (io_pos r) (io_room r) c (update_cksum r) (processed_bytes r) (max_processing_chunk r).
Definition add_processed (n : Z) (r : rio) : rio :=
  mk_rio (io_ptr r) (io_pos r) (io_room r) (cksum r) (update_cksum r) (processed_bytes r + n) (max_processing_chunk r).

(** The loop over chunks takes a byte at least in each turn. *)
Fixpoint write_loop (fuel : nat) (bs : list Z) : IO unit := fun r =>
  if bool_decide (bs = []) then Ret (Some tt, r)
  else match fuel with
  | O => Fault OutOfFuel
  | S fuel =>
      let n := chunk_of (Z.of_nat (length bs)) r in
      let chunk := take (Z.to_nat n) bs in
      c ← rioGenericUpdateChecksum chunk r;
      match rioFileWrite chunk (with_cksum c r) with
      | None => Ret (None, with_cksum c r)
      | Some r => write_loop fuel (drop (Z.to_nat n) bs) (add_processed n r)
      end
  end.

Definition rioWrite (bs : list Z) : IO unit := write_loop (length bs) bs.

Fixpoint read_loop (fuel : nat) (len : Z) : IO (list Z) := fun r =>
  if len =? 0 then Ret (Some [], r)
  else match fuel with
  | O => Fault OutOfFuel
  | S fuel =>
      let n := chunk_of len r in
      match rioFileRead n r with
      | None => Ret (None, r)
      | Some (bs, r) =>
          c ← rioGenericUpdateChecksum bs r;
          (rest ← read_loop fuel (len - n); mret (bs ++ rest) : IO (list Z)) (add_processed n (with_cksum c r))
      end
  end.

Definition rioRead (len : Z) : IO (list Z) := read_loop (Z.to_nat len) len.

(** ** Integers and lengths *)

(** [n] is returned as an int, and -1 is the error of every caller. *)
Definition as_int (n : Z) : IO Z := if i32 n =? -1 then io_error else mret (i32 n).

Definition rdbWriteRaw (bs : list Z) : IO Z := _ ← rioWrite bs; as_int (Z.of_nat (length bs)).

Definition rdbSaveType (type : Z) : IO Z := rdbWriteRaw [u8 type].
Definition rdbLoadType : IO Z := bs ← rioRead 1; mret (nth 0 bs 0).

Definition rdbSaveMillisecondTime (t : Z) : IO Z := rdbWriteRaw (le_bytes 8 t).
Definition rdbLoadMillisecondTime : IO Z := bs ← rioRead 8; mret (i64 (le_value bs)).
Definition rdbLoadTime : IO Z := bs ← rioRead 4; mret (i32 (le_value bs)).

Definition RDB_6BITLEN : Z := 0.
Definition RDB_14BITLEN : Z := 1.
Definition RDB_32BITLEN : Z := 2.
Definition RDB_ENCVAL : Z := 3.
Definition RDB_LENERR : Z := 2 ^ 32 - 1.
Definition RDB_ENC_INT8 : Z := 0.
Definition RDB_ENC_INT16 : Z := 1.
Definition RDB_ENC_INT32 : Z := 2.
Definition RDB_ENC_LZF : Z := 3.

(** htonl() and ntohl() on a little-endian host. *)
Definition htonl (v : Z) : Z := le_value (rev (le_bytes 4 v)).

(** [len] is a uint32_t. *)
Definition rdbSaveLen (len : Z) : IO Z :=
  if len <? Z.shiftl 1 6 then
    rdbWriteRaw [Z.lor (Z.land len 255) (Z.shiftl RDB_6BITLEN 6)]
  else if len <? Z.shiftl 1 14 then
    rdbWriteRaw [Z.lor (Z.land (Z.shiftr len 8) 255) (Z.shiftl RDB_14BITLEN 6); Z.land len 255]
  else
    _ ← rdbWriteRaw [Z.shiftl RDB_32BITLEN 6];
    _ ← rdbWriteRaw (le_bytes 4 (htonl len));
    mret 5.

(** The length or RDB_LENERR, and [*isencoded]. *)
Definition rdbLoadLen : IO (Z * bool) := fun r =>
  let lenerr r := Ret (Some (RDB_LENERR, false), r) in
  match rioRead 1 r with
  | Fault f => Fault f
  | Ret (None, r) => lenerr r
  | Ret (Some buf, r) =>
      let b := nth 0 buf 0 in
      let type := Z.shiftr (Z.land b 192) 6 in
      if type =? RDB_ENCVAL then Ret (Some (Z.land b 63, true), r)
      else if type =? RDB_6BITLEN then Ret (Some (Z.land b 63, false), r)
      else if type =? RDB_14BITLEN then
        match rioRead 1 r with
        | Fault f => Fault f
        | Ret (None, r) => lenerr r
        | Ret (Some buf, r) => Ret (Some (Z.lor (Z.shiftl (Z.land b 63) 8) (nth 0 buf 0), false), r)
        end
      else if type =? RDB_32BITLEN then
        match rioRead 4 r with
        | Fault f => Fault f
        | Ret (None, r) => lenerr r
        | Ret (Some buf, r) => Ret (Some (htonl (le_value buf), false), r)
        end
      else Fault Exited
  end.

(** [if ((len = rdbLoadLen(rdb,NULL)) == RDB_LENERR) return NULL] *)
Definition load_len : IO Z :=
  '(len, _) ← rdbLoadLen;
  if len =? RDB_LENERR then io_error else mret len.

(** The bytes left in [enc]; none when the value does not fit. *)
Definition rdbEncodeInteger (value : Z) : list Z :=
  let enc t := Z.lor (Z.shiftl RDB_ENCVAL 6) t in
  if (- Z.shiftl 1 7 <=? value) && (value <=? Z.shiftl 1 7 - 1) then
    [enc RDB_ENC_INT8; Z.land value 255]
  else if (- Z.shiftl 1 15 <=? value) && (value <=? Z.shiftl 1 15 - 1) then
    [enc RDB_ENC_INT16; Z.land value 255; Z.land (Z.shiftr value 8) 255]
  else if (- Z.shiftl 1 31 <=? value) && (value <=? Z.shiftl 1 31 - 1) then
    [enc RDB_ENC_INT32; Z.land value 255; Z.land (Z.shiftr value 8) 255; Z.land (Z.shiftr value 16) 255;
     Z.land (Z.shiftr value 24) 255]
  else [].

(** strtoll(s,&endptr,10) on a NUL terminated string: blanks, a sign,
    digits; the value saturates.  The bytes from endptr on are returned;
    without digits nothing is converted. *)
Definition strtoll (s : list Z) : Z * list Z :=
  let t := skip_blanks s in
  let '(neg, t) := match t with
    | c :: q => if c =? 45 then (true, q) else if c =? 43 then (false, q) else (false, t)
    | [] => (false, t)
    end in
  match span_digits t with
  | ([], _) => (0, s)
  | (ds, rest) =>
      let v := if neg then - digits_value ds else digits_value ds in
      (Z.max LLONG_MIN (Z.min LLONG_MAX v), rest)
  end.

(** [ll2string(buf,n,value)], as the string it leaves in the buffer. *)
Definition ll2str (n value : Z) : res (list Z) :=
  '(len, buf) ← ll2string (replicate (Z.to_nat n) 0) n value;
  Ret (take (Z.to_nat len) buf).

Definition rdbTryIntegerEncoding (s : list Z) : res (list Z) :=
  let '(value, endptr) := strtoll s in
  if negb (nth 0 endptr 0 =? 0) then Ret []
  else
    buf ← ll2str 32 value;
    if bool_decide (buf <> s) then Ret [] else Ret (rdbEncodeInteger value).

(** ** Saving *)

Section save.
  (** The configuration, the contents of the hash table of the compressor
      and of fresh memory, the clock and the allocator's count, the order
      in which the iterator of a dict gives its entries, and the code that
      saves the aggregate types. *)
  Context (rdb_compression rdb_checksum : bool) (htab : Z -> Z) (junk : Z) (ctime used_memory : Z)
    (dict_order : gmap key addr -> list (key * addr)) (save_aggregate : robj -> IO Z).

Definition rdbSaveLzfBlob (data : list Z) (original_len : Z) : IO Z :=
  n1 ← rdbWriteRaw [Z.lor (Z.shiftl RDB_ENCVAL 6) RDB_ENC_LZF];
  n2 ← rdbSaveLen (u32 (Z.of_nat (length data)));
  n3 ← rdbSaveLen (u32 original_len);
  n4 ← rdbWriteRaw data;
  mret (n1 + n2 + n3 + n4).

(** 0 when the string cannot be compressed.  The compressor takes lengths of
    32 bits. *)
Definition rdbSaveLzfStringObject (s : list Z) : IO Z :=
  let len := Z.of_nat (length s) in
  if len <=? 4 then mret 0
  else
    '(comprlen, out) ← io_res (lzf_compress (take (Z.to_nat (u32 len)) s) htab (replicate (Z.to_nat (u32 (len - 4))) junk));
    if comprlen =? 0 then mret 0 else rdbSaveLzfBlob (take (Z.to_nat comprlen) out) len.

(** The string as it is, after its length. *)
Definition save_verbatim (s : list Z) : IO Z :=
  let len := Z.of_nat (length s) in
  n ← rdbSaveLen (u32 len);
  if 0 <? len then _ ← rdbWriteRaw s; mret (n + len) else mret n.

Definition rdbSaveRawString (s : list Z) : IO Z :=
  let len := Z.of_nat (length s) in
  enc ← (if len <=? 11 then io_res (rdbTryIntegerEncoding s) else mret []);
  if 0 <? Z.of_nat (length enc) then
    _ ← rdbWriteRaw enc; mret (Z.of_nat (length enc))
  else
    n ← (if rdb_compression && (20 <? len) then rdbSaveLzfStringObject s else mret 0);
    if n =? -1 then io_error else if 0 <? n then mret n else save_verbatim s.

Definition rdbSaveLongLongAsStringObject (value : Z) : IO Z :=
  let enc := rdbEncodeInteger value in
  if 0 <? Z.of_nat (length enc) then rdbWriteRaw enc
  else
    buf ← io_res (ll2str 32 value);
    if negb (Z.of_nat (length buf) <? 32) then io_res (Fault AssertFailed)
    else
      n ← rdbSaveLen (u32 (Z.of_nat (length buf)));
      m ← rdbWriteRaw buf;
      mret (n + m).

Definition rdbSaveStringObject (o : robj) : IO Z :=
  n ← (if bool_decide (encoding o = OBJ_ENCODING_INT) then
         match ptr o with PLong v => rdbSaveLongLongAsStringObject v | _ => io_res (Fault Undefined) end
       else if negb (sdsEncodedObject o) then io_res (Fault AssertFailed)
       else match ptr o with PSds s => rdbSaveRawString s | _ => io_res (Fault Undefined) end);
  as_int n.

Definition RDB_TYPE_STRING : Z := 0.

Definition rdbSaveObjectType (o : robj) : IO Z :=
  match type o, encoding o with
  | OBJ_STRING, _ => rdbSaveType RDB_TYPE_STRING
  | OBJ_LIST, OBJ_ENCODING_QUICKLIST => rdbSaveType 14
  | OBJ_SET, OBJ_ENCODING_INTSET => rdbSaveType 11
  | OBJ_SET, OBJ_ENCODING_HT => rdbSaveType 2
  | OBJ_ZSET, OBJ_ENCODING_ZIPLIST => rdbSaveType 12
  | OBJ_ZSET, OBJ_ENCODING_SKIPLIST => rdbSaveType 3
  | OBJ_HASH, OBJ_ENCODING_ZIPLIST => rdbSaveType 13
  | OBJ_HASH, OBJ_ENCODING_HT => rdbSaveType 4
  | _, _ => io_res (Fault AssertFailed)
  end.

Definition rdbSaveObject (o : robj) : IO Z :=
  match type o with
  | OBJ_STRING => rdbSaveStringObject o
  | _ => save_aggregate o
  end.

Definition RDB_OPCODE_AUX : Z := 250.
Definition RDB_OPCODE_RESIZEDB : Z := 251.
Definition RDB_OPCODE_EXPIRETIME_MS : Z := 252.
Definition RDB_OPCODE_EXPIRETIME : Z := 253.
Definition RDB_OPCODE_SELECTDB : Z := 254.
Definition RDB_OPCODE_EOF : Z := 255.

(** initStaticStringObject. *)
Definition static_string (k : list Z) : robj := mk_robj OBJ_STRING OBJ_ENCODING_RAW 0 1 (PSds k).

(** 0 when the key is left out because it has expired. *)
Definition rdbSaveKeyValuePair (key val : robj) (expiretime now : Z) : IO Z :=
  if negb (expiretime =? -1) && (expiretime <? now) then mret 0
  else
    _ ← (if negb (expiretime =? -1) then
           _ ← rdbSaveType RDB_OPCODE_EXPIRETIME_MS; rdbSaveMillisecondTime expiretime
         else mret 0);
    _ ← rdbSaveObjectType val;
    _ ← rdbSaveStringObject key;
    _ ← rdbSaveObject val;
    mret 1.

Definition rdbSaveAuxField (key val : list Z) : IO Z :=
  _ ← rdbSaveType RDB_OPCODE_AUX;
  _ ← rdbSaveRawString key;
  _ ← rdbSaveRawString val;
  mret 1.

Definition rdbSaveAuxFieldStrInt (key : list Z) (val : Z) : IO Z :=
  buf ← io_res (ll2str 21 val);
  rdbSaveAuxField key buf.

Definition rdbSaveInfoAuxFields : IO Z :=
  _ ← rdbSaveAuxField (bytes_of_string "redis-ver") (bytes_of_string "3.2.6");
  _ ← rdbSaveAuxFieldStrInt (bytes_of_string "redis-bits") 64;
  _ ← rdbSaveAuxFieldStrInt (bytes_of_string "ctime") ctime;
  _ ← rdbSaveAuxFieldStrInt (bytes_of_string "used-mem") used_memory;
  mret 1.

(** getExpire on the database. *)
Definition expire_of (db : redisDb) (k : key) : res Z :=
  match expires db !! k with
  | None => Ret (-1)
  | Some when => if bool_decide (is_Some (dict db !! k)) then Ret when else Fault AssertFailed
  end.

Fixpoint save_entries (h : gmap addr robj) (db : redisDb) (now : Z) (l : list (key * addr)) : IO unit :=
  match l with
  | [] => mret tt
  | (k, a) :: l =>
      o ← io_res (of_opt Undefined (h !! a));
      expire ← io_res (expire_of db k);
      _ ← rdbSaveKeyValuePair (static_string k) o expire now;
      save_entries h db now l
  end.

(** The size is trimmed to UINT32_MAX. *)
Definition trimmed (n : Z) : Z := if n <=? 2 ^ 32 - 1 then n else 2 ^ 32 - 1.

Definition save_db (h : gmap addr robj) (now j : Z) (db : redisDb) : IO unit :=
  if Z.of_nat (size (dict db)) =? 0 then mret tt
  else
    _ ← rdbSaveType RDB_OPCODE_SELECTDB;
    _ ← rdbSaveLen (u32 j);
    _ ← rdbSaveType RDB_OPCODE_RESIZEDB;
    _ ← rdbSaveLen (trimmed (Z.of_nat (size (dict db))));
    _ ← rdbSaveLen (trimmed (Z.of_nat (size (expires db))));
    save_entries h db now (dict_order (dict db)).

Fixpoint save_dbs (h : gmap addr robj) (now j : Z) (l : list redisDb) : IO unit :=
  match l with
  | [] => mret tt
  | db :: l => _ ← save_db h now j db; save_dbs h now (j + 1) l
  end.

Definition io_get {A} (f : rio -> A) : IO A := fun r => Ret (Some (f r), r).
Definition set_update_cksum : IO unit := fun r =>
  Ret (Some tt, mk_rio (io_ptr r) (io_pos r) (io_room r) (cksum r) true (processed_bytes r) (max_processing_chunk r)).

(** [Some] is C_OK. *)
Definition rdbSaveRio (s : server) : IO unit :=
  _ ← (if rdb_checksum then set_update_cksum else mret tt);
  _ ← rdbWriteRaw (bytes_of_string "REDIS0007");
  _ ← rdbSaveInfoAuxFields;
  _ ← save_dbs (heap s) (mstime (cf s)) 0 (dbs s);
  _ ← rdbSaveType RDB_OPCODE_EOF;
  c ← io_get cksum;
  rioWrite (le_bytes 8 c).
End save.

(** ** Loading *)

(** A function that reads a stream and works on the server. *)
Definition LM (A : Type) : Type := rio -> M (option A * rio).

#[export] Instance LM_ret : MRet LM := fun _ a r s => Ret ((Some a, r), s).
#[export] Instance LM_bind : MBind LM := fun _ _ k m r s =>
  match m r s with
  | Ret ((Some a, r), s) => k a r s
  | Ret ((None, r), s) => Ret ((None, r), s)
  | Fault f => Fault f
  end.

Definition of_io {A} (m : IO A) : LM A := fun r s =>
  match m r with Ret x => Ret (x, s) | Fault f => Fault f end.
Definition of_m {A} (m : M A) : LM A := fun r s =>
  match m s with Ret (a, s) => Ret ((Some a, r), s) | Fault f => Fault f end.
Definition null {A} : LM A := of_io io_error.

(** [m], and when it fails [k] before the failure is passed on. *)
Definition on_error {A} (m : LM A) (k : M unit) : LM A := fun r s =>
  match m r s with
  | Ret ((None, r), s) => match k s with Ret (_, s) => Ret ((None, r), s) | Fault f => Fault f end
  | x => x
  end.

(** What a void pointer returned by the functions below points to. *)
Inductive loaded : Type :=
  | LObj (a : addr)
  | LPlain (s : list Z).

Definition RDB_LOAD_NONE : Z := 0.
Definition RDB_LOAD_ENC : Z := 1.
Definition RDB_LOAD_PLAIN : Z := 2.

Definition rdbLoadIntegerObject (enctype flags : Z) : LM loaded :=
  val ← (if enctype =? RDB_ENC_INT8 then
           enc ← of_io (rioRead 1); mret (i8 (nth 0 enc 0))
         else if enctype =? RDB_ENC_INT16 then
           enc ← of_io (rioRead 2); mret (i16 (Z.lor (nth 0 enc 0) (Z.shiftl (nth 1 enc 0) 8)))
         else if enctype =? RDB_ENC_INT32 then
           enc ← of_io (rioRead 4);
           mret (i32 (Z.lor (Z.lor (Z.lor (nth 0 enc 0) (Z.shiftl (nth 1 enc 0) 8)) (Z.shiftl (nth 2 enc 0) 16))
             (Z.shiftl (nth 3 enc 0) 24)))
         else of_m (fail Exited));
  if has flags RDB_LOAD_PLAIN then
    buf ← of_io (io_res (ll2str 21 val)); mret (LPlain buf)
  else if has flags RDB_LOAD_ENC then
    a ← of_m (createStringObjectFromLongLong val); mret (LObj a)
  else
    a ← of_m (s ← ll2sds val; createObject OBJ_STRING (PSds s)); mret (LObj a).

(** The block that zmalloc() returns holds [junk]. *)
Definition rdbLoadLzfStringObject (junk flags : Z) : LM loaded :=
  clen ← of_io load_len;
  len ← of_io load_len;
  let plain := has flags RDB_LOAD_PLAIN in
  let val := replicate (Z.to_nat len) (if plain then junk else 0) in
  c ← of_io (rioRead clen);
  r ← of_io (io_res (lzf_decompress c val));
  match r with
  | inl _ => null
  | inr (n, val) =>
      if n =? 0 then null
      else if plain then mret (LPlain val)
      else a ← of_m (createObject OBJ_STRING (PSds val)); mret (LObj a)
  end.

Definition rdbGenericLoadStringObject (junk flags : Z) : LM loaded :=
  '(len, isencoded) ← of_io rdbLoadLen;
  if (isencoded : bool) then
    if (len =? RDB_ENC_INT8) || (len =? RDB_ENC_INT16) || (len =? RDB_ENC_INT32) then
      rdbLoadIntegerObject len flags
    else if len =? RDB_ENC_LZF then rdbLoadLzfStringObject junk flags
    else of_m (fail Exited)
  else if len =? RDB_LENERR then null
  else if negb (has flags RDB_LOAD_PLAIN) then
    let fresh := replicate (Z.to_nat len) 0 in
    o ← of_m (if has flags RDB_LOAD_ENC then createStringObject fresh else createRawStringObject fresh);
    if negb (len =? 0) then
      s ← on_error (of_io (rioRead len)) (decrRefCount o);
      _ ← of_m (set_sds o s);
      mret (LObj o)
    else mret (LObj o)
  else if negb (len =? 0) then s ← of_io (rioRead len); mret (LPlain s)
  else mret (LPlain []).

(** The pointer of an object. *)
Definition as_object (x : loaded) : LM addr :=
  match x with LObj a => mret a | LPlain _ => of_m (fail Undefined) end.

Definition rdbLoadStringObject (junk : Z) : LM addr :=
  x ← rdbGenericLoadStringObject junk RDB_LOAD_NONE; as_object x.
Definition rdbLoadEncodedStringObject (junk : Z) : LM addr :=
  x ← rdbGenericLoadStringObject junk RDB_LOAD_ENC; as_object x.

Section load.
  (** The configuration, fresh memory, and the code that loads the
      aggregate types. *)
  Context (rdb_checksum : bool) (loading_process_events_interval_bytes : Z) (junk : Z) (load_aggregate : Z -> LM addr).

Definition rdbLoadObject (rdbtype : Z) : LM addr :=
  if rdbtype =? RDB_TYPE_STRING then
    o ← rdbLoadEncodedStringObject junk; of_m (tryObjectEncoding o)
  else load_aggregate rdbtype.

(** The opcode AUX: the field is logged and dropped. *)
Definition skip_aux : LM unit :=
  auxkey ← rdbLoadStringObject junk;
  auxval ← rdbLoadStringObject junk;
  _ ← of_m (sds_of auxkey);
  _ ← of_m (decrRefCount auxkey);
  of_m (decrRefCount auxval).

(** The key and the value that follow the type. *)
Definition load_key (db now type expiretime : Z) : LM unit :=
  key ← rdbLoadStringObject junk;
  val ← rdbLoadObject type;
  slave ← of_m (get (fun s => masterhost (cf s)));
  if negb slave && negb (expiretime =? -1) && (expiretime <? now) then
    _ ← of_m (decrRefCount key); of_m (decrRefCount val)
  else
    _ ← of_m (dbAdd db key val);
    _ ← of_m (if negb (expiretime =? -1) then setExpire db key expiretime else mret tt);
    of_m (decrRefCount key).

(** Each turn reads the byte of a type at least. *)
Fixpoint load_loop (fuel : nat) (now db : Z) : LM unit :=
  match fuel with
  | O => of_m (fail OutOfFuel)
  | S fuel =>
      type ← of_io rdbLoadType;
      if type =? RDB_OPCODE_EXPIRETIME then
        t ← of_io rdbLoadTime;
        if t =? -1 then null
        else
          type ← of_io rdbLoadType;
          _ ← load_key db now type (t * 1000);
          load_loop fuel now db
      else if type =? RDB_OPCODE_EXPIRETIME_MS then
        t ← of_io rdbLoadMillisecondTime;
        if t =? -1 then null
        else
          type ← of_io rdbLoadType;
          _ ← load_key db now type t;
          load_loop fuel now db
      else if type =? RDB_OPCODE_EOF then mret tt
      else if type =? RDB_OPCODE_SELECTDB then
        dbid ← of_io load_len;
        dbnum ← of_m (get (fun s => Z.of_nat (length (dbs s))));
        if dbnum <=? dbid then of_m (fail Exited) else load_loop fuel now dbid
      else if type =? RDB_OPCODE_RESIZEDB then
        (* the sizes are hints for the hash tables *)
        _ ← of_io load_len;
        _ ← of_io load_len;
        load_loop fuel now db
      else if type =? RDB_OPCODE_AUX then
        _ ← skip_aux;
        load_loop fuel now db
      else
        _ ← load_key db now type (-1);
        load_loop fuel now db
  end.

Definition check_cksum : LM unit :=
  expected ← of_io (io_get cksum);
  bs ← of_io (rioRead 8);
  let c := le_value bs in
  if c =? 0 then mret tt
  else if negb (c =? expected) then of_m (fail Exited)
  else mret tt.

Definition with_loading (b : bool) (c : conf) : conf :=
  mk_conf (mstime c) (lruclock c) b (masterhost c) (lua_caller c) (lua_time_start c)
    (child_running c) (readonly_client c) (lru_policy c) (save_params c) (cmd_name c) (gt c).
Definition set_loading (b : bool) : M unit := fun s => Ret (tt, with_cf (with_loading b (cf s)) s).

(** [true] is C_OK; an unexpected end of the file exits. *)
Definition load_file : LM bool :=
  buf ← of_io (rioRead 9);
  if bool_decide (take 5 buf <> bytes_of_string "REDIS") then mret false
  else
    let rdbver := fst (strtoll (drop 5 buf)) in
    if (rdbver <? 1) || (7 <? rdbver) then mret false
    else
      now ← of_m (get (fun s => mstime (cf s)));
      _ ← of_m (set_loading true);
      n ← of_io (io_get (fun r => length (io_ptr r)));
      _ ← load_loop (S n) now 0;
      _ ← (if (5 <=? rdbver) && rdb_checksum then check_cksum else mret tt);
      _ ← of_m (set_loading false);
      mret true.

Definition rdbLoad (file : list Z) : M bool := fun s =>
  let r := mk_rio file 0 None 0 rdb_checksum 0 loading_process_events_interval_bytes in
  match load_file r s with
  | Ret ((Some b, _), s) => Ret (b, s)
  | Ret ((None, _), _) => Fault Exited
  | Fault f => Fault f
  end.
End load.
