(* ===== verification/RdbCodec.v ===== *)
(** * RdbCodec: what the functions of rdb.c put on a stream and take from it

    A function that saves is described by the bytes it appends and, when
    the device has no room for them, by its error; a function that loads by
    the bytes it consumes.  The lengths, integers and strings that are saved
    are the ones that are loaded. *)

From S2P Require Import Prelude Endian Util Lzf LzfProofs Crc Object Db TString ServerOk Sds Rdb.
From S2P Require Import Abstract ServerSim.

(** ** Streams *)

(** Room for a number of bytes that is not negative, chunks too. *)
Definition good (r : rio) : Prop :=
  0 <= max_processing_chunk r /\ match io_room r with Some n => 0 <= n | None => True end.

Definition fits (bs : list Z) (r : rio) : Prop :=
  match io_room r with Some n => Z.of_nat (length bs) <= n | None => True end.

(** The checksum after [bs] has gone through. *)
Definition sum (bs : list Z) (r : rio) : Z :=
  if update_cksum r then fold_left crc64_byte bs (cksum r) else cksum r.

Definition wrote (bs : list Z) (r : rio) : rio :=
  let len := Z.of_nat (length bs) in
  mk_rio (io_ptr r ++ bs) (io_pos r + len) ((fun n => n - len) <$> io_room r) (sum bs r) (update_cksum r)
    (processed_bytes r + len) (max_processing_chunk r).

(** [m] appends [bs] and returns [a], or fails when they do not fit. *)
Record writes {A} (m : IO A) (bs : list Z) (a : A) : Prop := mk_writes {
  writes_bytes : bytes_ok bs;
  writes_ok : forall r, good r -> fits bs r -> m r = Ret (Some a, wrote bs r);
  writes_full : forall r, good r -> ~ fits bs r -> exists r', m r = Ret (None, r')
}.

Lemma sum_app b1 b2 r : sum (b1 ++ b2) r = sum b2 (wrote b1 r).
Proof. unfold sum. cbn. unfold sum. destruct (update_cksum r); [apply fold_left_app|done]. Qed.

Lemma wrote_app b1 b2 r : wrote (b1 ++ b2) r = wrote b2 (wrote b1 r).
Proof.
  unfold wrote at 1 2. rewrite <- sum_app. cbn. rewrite length_app, app_assoc. f_equal; try lia.
  destruct (io_room r); [|done]. cbn. f_equal. lia.
Qed.

Lemma wrote_nil r : wrote [] r = r.
Proof.
  destruct r as [p i m c u b k]. unfold wrote, sum. cbn. rewrite app_nil_r, !Z.add_0_r.
  f_equal; [|by destruct u]. destruct m; [|done]. cbn. f_equal. lia.
Qed.

Lemma wrote_good bs r : good r -> fits bs r -> good (wrote bs r).
Proof. intros [H1 H2] Hf. split; [done|]. unfold fits in Hf. cbn. destruct (io_room r); [cbn; lia|done]. Qed.

Lemma fits_nil r : good r -> fits [] r.
Proof. intros [_ H]. unfold fits. destruct (io_room r); [cbn; lia|done]. Qed.

Lemma fits_app b1 b2 r : good r -> fits (b1 ++ b2) r <-> fits b1 r /\ fits b2 (wrote b1 r).
Proof.
  intros [_ H]. unfold fits. cbn. destruct (io_room r); [|tauto]. cbn. rewrite length_app. lia.
Qed.

#[export] Instance fits_dec bs r : Decision (fits bs r).
Proof. unfold fits. destruct (io_room r); apply _. Defined.

Lemma writes_ret {A} (a : A) : writes (mret a) [] a.
Proof.
  split; [constructor| |].
  - intros r _ _. by rewrite wrote_nil.
  - intros r Hg Hf. destruct Hf. by apply fits_nil.
Qed.

Lemma writes_bind {A B} (m : IO A) (k : A -> IO B) b1 b2 a b :
  writes m b1 a -> writes (k a) b2 b -> writes (m ≫= k) (b1 ++ b2) b.
Proof.
  intros [H1 H2 H3] [K1 K2 K3]. split; [by apply bytes_ok_app| |]; intros r Hg Hf.
  - apply fits_app in Hf as [Hf1 Hf2]; [|done]. unfold mbind, IO_bind. rewrite H2 by done.
    rewrite wrote_app. apply K2; [by apply wrote_good|done].
  - unfold mbind, IO_bind. destruct (decide (fits b1 r)) as [Hf1|Hf1].
    + rewrite H2 by done. apply K3; [by apply wrote_good|]. intros Hf2. apply Hf. by apply fits_app.
    + destruct (H3 r Hg Hf1) as [r' ->]. by exists r'.
Qed.

(** What follows a write and only computes. *)
Lemma writes_then {A B} (m : IO A) (k : A -> IO B) bs a b :
  writes m bs a -> writes (k a) [] b -> writes (m ≫= k) bs b.
Proof. intros H K. rewrite <- (app_nil_r bs). by eapply writes_bind. Qed.

Lemma writes_after {A B} (m : IO A) (k : A -> IO B) bs a b :
  writes m [] a -> writes (k a) bs b -> writes (m ≫= k) bs b.
Proof. intros H K. apply (writes_bind _ _ [] bs a b H K). Qed.

Lemma writes_res {A} (x : res A) a : x = Ret a -> writes (io_res x) [] a.
Proof. intros ->. apply (writes_ret a). Qed.

Lemma chunk_range len r : good r -> 0 < len -> 0 < chunk_of len r <= len.
Proof.
  intros [Hg _] Hl. unfold chunk_of. destruct (Z.eqb_spec (max_processing_chunk r) 0); cbn; [lia|].
  destruct (Z.ltb_spec (max_processing_chunk r) len); lia.
Qed.

(** One turn of the loop. *)
Lemma write_chunk fuel b1 b2 r : good r -> bytes_ok b1 -> b1 <> [] ->
  chunk_of (Z.of_nat (length (b1 ++ b2))) r = Z.of_nat (length b1) ->
  write_loop (S fuel) (b1 ++ b2) r =
  if decide (fits b1 r) then write_loop fuel b2 (wrote b1 r) else Ret (None, with_cksum (sum b1 r) r).
Proof.
  intros Hg Hb Hne Hc. cbn [write_loop]. rewrite bool_decide_false by (by destruct b1).
  rewrite Hc, Nat2Z.id, take_app_length, drop_app_length.
  assert (rioGenericUpdateChecksum b1 r = Ret (sum b1 r)) as ->.
  { unfold rioGenericUpdateChecksum, sum. rewrite crc64_ref by done. by destruct (update_cksum r). }
  cbn [mbind res_bind]. unfold rioFileWrite, with_cksum. cbn [io_room].
  destruct (decide (fits b1 r)) as [Hf|Hf]; unfold fits in Hf; destruct (io_room r) as [n|] eqn:E; cbn; try done.
  - destruct (Z.ltb_spec n (Z.of_nat (length b1))); [lia|]. f_equal. unfold add_processed, wrote. by rewrite E.
  - f_equal. unfold add_processed, wrote. by rewrite E.
  - by destruct (Z.ltb_spec n (Z.of_nat (length b1))); [|lia].
Qed.

Lemma chunk_split (bs : list Z) r : good r -> bs <> [] -> exists b1 b2 : list Z, bs = b1 ++ b2 /\ b1 <> [] /\
  chunk_of (Z.of_nat (length bs)) r = Z.of_nat (length b1).
Proof.
  intros Hg Hne. set (n := chunk_of (Z.of_nat (length bs)) r).
  assert (Hn : 0 < n <= Z.of_nat (length bs)) by (apply chunk_range; [done|destruct bs; [done|cbn; lia]]).
  exists (take (Z.to_nat n) bs), (drop (Z.to_nat n) bs). split; [by rewrite take_drop|].
  rewrite length_take. split; [|lia]. intros E%(f_equal length). rewrite length_take in E. cbn in E. lia.
Qed.

Lemma write_loop_writes fuel : forall bs, (length bs <= fuel)%nat -> bytes_ok bs -> writes (write_loop fuel bs) bs tt.
Proof.
  induction fuel as [|fuel IH]; intros bs Hl Hb; (destruct (decide (bs = [])) as [->|Hne]; [apply (writes_ret tt)|]).
  { destruct bs; [done|cbn in Hl; lia]. }
  split; [done| |]; intros r Hg Hf; destruct (chunk_split bs r Hg Hne) as (b1 & b2 & -> & Hne1 & Hc);
    apply bytes_ok_app in Hb as [Hb1 Hb2]; rewrite write_chunk by done; rewrite fits_app in Hf by done;
    assert (length b2 <= fuel)%nat by (rewrite length_app in Hl; destruct b1; [done|cbn in Hl; lia]);
    destruct (IH b2) as [_ K2 K3]; try done.
  - destruct Hf as [Hf1 Hf2]. rewrite decide_True, wrote_app by done. apply K2; [by apply wrote_good|done].
  - destruct (decide (fits b1 r)) as [Hf1|Hf1]; [|by eexists]. apply K3; [by apply wrote_good|tauto].
Qed.

(** A count below 2^31 is itself as an int, and any other that is not the
    error is some number. *)
Lemma as_int_small n : 0 <= n < 2 ^ 31 -> as_int n = mret n.
Proof.
  intros Hn. unfold as_int. rewrite swrap_id by (unfold in_s; lia). by destruct (Z.eqb_spec n (-1)); [lia|].
Qed.

Lemma as_int_count n : 0 <= n < 2 ^ 32 - 1 -> as_int n = mret (i32 n).
Proof.
  intros Hn. unfold as_int. destruct (Z.eqb_spec (i32 n) (-1)) as [E|]; [|done]. exfalso.
  pose proof (f_equal (uwrap 32) E) as E'. rewrite uwrap_swrap, uwrap_id in E' by (unfold in_u; lia). change (uwrap 32 (-1)) with (2 ^ 32 - 1) in E'. lia.
Qed.

Lemma rdbWriteRaw_writes bs : bytes_ok bs -> Z.of_nat (length bs) < 2 ^ 31 -> writes (rdbWriteRaw bs) bs (Z.of_nat (length bs)).
Proof.
  intros Hb Hl. eapply writes_then; [by apply write_loop_writes|]. rewrite as_int_small by lia. apply (writes_ret (Z.of_nat (length bs))).
Qed.

(** ** Reading *)

(** What is left of the stream. *)
Definition ahead (r : rio) (l : list Z) : Prop := 0 <= io_pos r /\ drop (Z.to_nat (io_pos r)) (io_ptr r) = l.

Definition past (bs : list Z) (r : rio) : rio :=
  let len := Z.of_nat (length bs) in
  mk_rio (io_ptr r) (io_pos r + len) (io_room r) (sum bs r) (update_cksum r) (processed_bytes r + len)
    (max_processing_chunk r).

(** [m] consumes [bs] and returns [a]. *)
Definition reads {A} (m : IO A) (bs : list Z) (a : A) : Prop :=
  forall r rest, good r -> ahead r (bs ++ rest) -> m r = Ret (Some a, past bs r).

Lemma past_app b1 b2 r : past (b1 ++ b2) r = past b2 (past b1 r).
Proof.
  unfold past, sum. cbn. rewrite length_app. unfold sum. f_equal; try lia.
  destruct (update_cksum r); [apply fold_left_app|done].
Qed.

Lemma past_nil r : past [] r = r.
Proof. destruct r as [p i m c u b k]. unfold past, sum. cbn. rewrite !Z.add_0_r. by destruct u. Qed.

Lemma past_good bs r : good r -> good (past bs r).
Proof. done. Qed.

Lemma past_ahead bs rest r : ahead r (bs ++ rest) -> ahead (past bs r) rest.
Proof.
  intros [Hp Hd]. split; [cbn; lia|]. cbn. rewrite Z2Nat.inj_add, Nat2Z.id, <- drop_drop, Hd by lia.
  apply drop_app_length.
Qed.

Lemma reads_ret {A} (a : A) : reads (mret a) [] a.
Proof. intros r rest _ _. by rewrite past_nil. Qed.

Lemma reads_bind {A B} (m : IO A) (k : A -> IO B) b1 b2 a b :
  reads m b1 a -> reads (k a) b2 b -> reads (m ≫= k) (b1 ++ b2) b.
Proof.
  intros H K r rest Hg Ha. rewrite <- app_assoc in Ha. unfold mbind, IO_bind.
  rewrite (H r _ Hg Ha), past_app. apply (K _ rest); [done|]. by apply past_ahead.
Qed.

Lemma reads_then {A B} (m : IO A) (k : A -> IO B) bs a b : reads m bs a -> reads (k a) [] b -> reads (m ≫= k) bs b.
Proof. intros H K. rewrite <- (app_nil_r bs). by eapply reads_bind. Qed.

Lemma read_chunk fuel b1 b2 rest r : good r -> ahead r (b1 ++ b2 ++ rest) -> bytes_ok b1 -> b1 <> [] ->
  chunk_of (Z.of_nat (length (b1 ++ b2))) r = Z.of_nat (length b1) ->
  read_loop (S fuel) (Z.of_nat (length (b1 ++ b2))) r =
  (rest ← read_loop fuel (Z.of_nat (length b2)); mret (b1 ++ rest) : IO (list Z)) (past b1 r).
Proof.
  intros Hg [Hp Hd] Hb Hne Hc. cbn [read_loop].
  destruct (Z.eqb_spec (Z.of_nat (length (b1 ++ b2))) 0) as [E|_].
  { rewrite length_app in E. destruct b1; [done|cbn in E; lia]. }
  rewrite Hc. unfold rioFileRead. pose proof (f_equal length Hd) as Hlen.
  rewrite length_drop, !length_app in Hlen.
  destruct (Z.ltb_spec (Z.of_nat (length (io_ptr r)) - io_pos r) (Z.of_nat (length b1))).
  { destruct b1; [done|]. cbn in *. lia. }
  rewrite Hd, Nat2Z.id, take_app_length.
  unfold rioGenericUpdateChecksum. cbn [update_cksum cksum].
  assert ((if update_cksum r then crc64 (cksum r) b1 else Ret (cksum r)) = Ret (sum b1 r)) as ->.
  { unfold sum. rewrite crc64_ref by done. by destruct (update_cksum r). }
  cbn [mbind res_bind]. f_equal. f_equal. f_equal. rewrite length_app. lia.
Qed.

Lemma read_loop_reads fuel : forall bs, (length bs <= fuel)%nat -> bytes_ok bs ->
  reads (read_loop fuel (Z.of_nat (length bs))) bs bs.
Proof.
  induction fuel as [|fuel IH]; intros bs Hl Hb; (destruct (decide (bs = [])) as [->|Hne]; [apply (reads_ret [])|]).
  { destruct bs; [done|cbn in Hl; lia]. }
  intros r rest Hg Ha. destruct (chunk_split bs r Hg Hne) as (b1 & b2 & -> & Hne1 & Hc).
  apply bytes_ok_app in Hb as [Hb1 Hb2]. rewrite <- app_assoc in Ha.
  rewrite (read_chunk fuel b1 b2 rest) by done. rewrite past_app. apply past_ahead in Ha as Ha2.
  assert (length b2 <= fuel)%nat by (rewrite length_app in Hl; destruct b1; [done|cbn in Hl; lia]).
  unfold mbind, IO_bind. by rewrite (IH b2 ltac:(done) Hb2 (past b1 r) rest).
Qed.

Lemma rioRead_reads bs len : len = Z.of_nat (length bs) -> bytes_ok bs -> reads (rioRead len) bs bs.
Proof. intros -> Hb. unfold rioRead. rewrite Nat2Z.id. by apply read_loop_reads. Qed.

(** ** Lengths *)

(** The three forms of a length: 6 bits, 14 bits, 32 bits big endian. *)
Definition len_bytes (n : Z) : list Z :=
  if n <? 64 then [n] else if n <? 16384 then [64 + n / 256; n mod 256] else 128 :: rev (le_bytes 4 n).

Lemma len_bytes_ok n : in_u 32 n -> bytes_ok (len_bytes n).
Proof.
  unfold in_u, len_bytes. intros Hn. pose proof (Z.mod_pos_bound n 256). pose proof (Z.div_mod n 256).
  destruct (Z.ltb_spec n 64); [|destruct (Z.ltb_spec n 16384)].
  - constructor; [|constructor]. unfold byte_ok. lia.
  - constructor; [|constructor; [|constructor]]; unfold byte_ok; lia.
  - constructor; [unfold byte_ok; lia|]. apply Forall_rev, le_bytes_ok.
Qed.

Lemma len_bytes_pos n : (0 < length (len_bytes n))%nat.
Proof. unfold len_bytes. destruct (_ <? _); [|destruct (_ <? _)]; cbn; lia. Qed.

Lemma len_bytes_short n : Z.of_nat (length (len_bytes n)) <= 5.
Proof. unfold len_bytes. destruct (_ <? _); [cbn; lia|]. destruct (_ <? _); [cbn; lia|]. cbn [length]. rewrite length_rev, length_le_bytes. lia. Qed.

Lemma htonl_bytes n : le_bytes 4 (htonl n) = rev (le_bytes 4 n).
Proof.
  unfold htonl. rewrite <- (le_bytes_value (rev (le_bytes 4 n))) at 2 by apply Forall_rev, le_bytes_ok.
  by rewrite length_rev, length_le_bytes.
Qed.

Lemma htonl_rev n : in_u 32 n -> htonl (le_value (rev (le_bytes 4 n))) = n.
Proof.
  intros Hn. unfold htonl. fold (htonl n). rewrite htonl_bytes, rev_involutive, le_value_bytes. by apply uwrap_id.
Qed.

Lemma rdbSaveLen_writes n : in_u 32 n -> writes (rdbSaveLen n) (len_bytes n) (Z.of_nat (length (len_bytes n))).
Proof.
  intros Hn. pose proof (len_bytes_ok n Hn) as Hb. unfold in_u in Hn. unfold rdbSaveLen, len_bytes in *.
  change (Z.shiftl 1 6) with 64. change (Z.shiftl 1 14) with 16384. rewrite !land_255.
  destruct (Z.ltb_spec n 64); [|destruct (Z.ltb_spec n 16384)].
  - change (Z.shiftl RDB_6BITLEN 6) with 0. rewrite Z.lor_0_r, Z.mod_small by lia. by apply rdbWriteRaw_writes.
  - rewrite Z.shiftr_div_pow2 by lia. change (2 ^ 8) with 256.
    assert (n / 256 < 64) by (apply Z.div_lt_upper_bound; lia). assert (0 <= n / 256) by (apply Z.div_pos; lia).
    rewrite (Z.mod_small (n / 256)) by lia. change (Z.shiftl RDB_14BITLEN 6) with (1 * 2 ^ 6).
    rewrite Z.lor_comm, lor_add by lia. by apply rdbWriteRaw_writes.
  - rewrite htonl_bytes. change (Z.shiftl RDB_32BITLEN 6) with 128. apply Forall_cons in Hb as [H1 H2].
    change (128 :: rev (le_bytes 4 n)) with ([128] ++ rev (le_bytes 4 n)).
    eapply writes_bind; [apply rdbWriteRaw_writes; by constructor|].
    eapply writes_then; [by apply rdbWriteRaw_writes|].
    rewrite length_app, length_rev, length_le_bytes. apply (writes_ret 5).
Qed.

Lemma type_bits b : byte_ok b -> Z.shiftr (Z.land b 192) 6 = b / 64 /\ Z.land b 63 = b mod 64.
Proof.
  intros Hb. pose proof (byte_cases (fun b => (Z.shiftr (Z.land b 192) 6 =? b / 64) && (Z.land b 63 =? b mod 64)) b) as H.
  specialize (H ltac:(vm_compute; reflexivity) Hb). cbv beta in H.
  apply andb_true_iff in H as [H1%Z.eqb_eq H2%Z.eqb_eq]. done.
Qed.

(** The first byte of a length is read, whatever follows. *)
Lemma reads_byte b : byte_ok b -> reads (rioRead 1) [b] [b].
Proof. intros. apply rioRead_reads; [done|]. by constructor. Qed.

Lemma rdbLoadLen_first b r rest : byte_ok b -> good r -> ahead r (b :: rest) -> rioRead 1 r = Ret (Some [b], past [b] r).
Proof. intros Hb Hg Ha. by apply (reads_byte b Hb r rest). Qed.

Lemma rdbLoadLen_reads n : in_u 32 n -> reads rdbLoadLen (len_bytes n) (n, false).
Proof.
  intros Hn r rest Hg Ha. pose proof (len_bytes_ok n Hn) as Hb. pose proof Hn as Hn'. unfold in_u in Hn.
  unfold rdbLoadLen, len_bytes in *. destruct (Z.ltb_spec n 64); [|destruct (Z.ltb_spec n 16384)].
  - apply Forall_cons in Hb as [H1 _]. rewrite (rdbLoadLen_first n r rest) by done. cbn [nth].
    destruct (type_bits n H1) as [-> ->]. rewrite Z.div_small, Z.mod_small by lia. done.
  - apply Forall_cons in Hb as [H1 H2]. change ([64 + n / 256; n mod 256] ++ rest) with ((64 + n / 256) :: (n mod 256 :: rest)) in Ha.
    rewrite (rdbLoadLen_first _ r (n mod 256 :: rest)) by done. cbn [nth].
    assert (n / 256 < 64) by (apply Z.div_lt_upper_bound; lia). assert (0 <= n / 256) by (apply Z.div_pos; lia).
    destruct (type_bits _ H1) as [-> ->]. replace ((64 + n / 256) / 64) with 1.
    2: { apply Z.div_unique with (n / 256); lia. }
    replace ((64 + n / 256) mod 64) with (n / 256) by (apply Z.mod_unique with 1; lia). cbn [Z.eqb RDB_ENCVAL].
    apply Forall_cons in H2 as [H2 _]. rewrite (rdbLoadLen_first (n mod 256) _ rest) by (done || by apply (past_ahead [_])).
    cbn. rewrite Z.shiftl_mul_pow2, (lor_add 8) by (pose proof (Z.mod_pos_bound n 256); lia).
    pose proof (Z.div_mod n 256). unfold mret. rewrite <- past_app. cbn [app]. repeat f_equal. lia.
  - apply Forall_cons in Hb as [H1 H2]. rewrite (rdbLoadLen_first 128 r (rev (le_bytes 4 n) ++ rest)) by done.
    cbn [nth]. change (Z.shiftr (Z.land 128 192) 6) with 2. cbn [Z.eqb RDB_ENCVAL].
    rewrite (rioRead_reads (rev (le_bytes 4 n)) 4 ltac:(by rewrite length_rev, length_le_bytes) H2 _ rest)
      by (done || by apply (past_ahead [_])).
    rewrite <- past_app. cbn [app]. by rewrite htonl_rev.
Qed.

Lemma load_len_reads n : 0 <= n < 2 ^ 32 - 1 -> reads load_len (len_bytes n) n.
Proof.
  intros Hn. unfold load_len. eapply reads_then; [apply rdbLoadLen_reads; unfold in_u; lia|].
  cbn. destruct (Z.eqb_spec n RDB_LENERR) as [E|_]; [unfold RDB_LENERR in E; lia|]. apply (reads_ret n).
Qed.

(** ** Strings *)

(** The encodings of a string: a small integer, a compressed block, the
    string itself. *)
Inductive str_code (s : list Z) : list Z -> Prop :=
  | code_int v : in_s 32 v -> s = decimal v -> str_code s (rdbEncodeInteger v)
  | code_lzf data : 0 < Z.of_nat (length data) < 2 ^ 32 - 1 -> bytes_ok data -> s <> [] ->
      (forall blk, length blk = length s -> lzf_decompress data blk = Ret (inr (Z.of_nat (length s), s))) ->
      str_code s (195 :: len_bytes (Z.of_nat (length data)) ++ len_bytes (Z.of_nat (length s)) ++ data)
  | code_raw : str_code s (len_bytes (Z.of_nat (length s)) ++ s).

(** A string that the format can hold. *)
Definition saveable (s : list Z) : Prop := bytes_ok s /\ Z.of_nat (length s) < 2 ^ 31.

Lemma shiftr_bytes v k : 0 <= k -> Z.land (Z.shiftr v (8 * k)) 255 = v / 256 ^ k mod 256.
Proof.
  intros. rewrite land_255, Z.shiftr_div_pow2, Z.pow_mul_r by lia. done.
Qed.

(** An encoded integer: the byte of its form, then its bytes. *)
Lemma rdbEncodeInteger_bytes v : in_s 32 v -> exists t, (t = 0%nat \/ t = 1%nat \/ t = 2%nat) /\
  let w := Nat.pow 2 t in
  rdbEncodeInteger v = (192 + Z.of_nat t) :: le_bytes w v /\ in_s (8 * Z.of_nat w) v.
Proof.
  unfold in_s. intros Hv. unfold rdbEncodeInteger.
  change (- Z.shiftl 1 7) with (-128). change (Z.shiftl 1 7 - 1) with 127.
  change (- Z.shiftl 1 15) with (-32768). change (Z.shiftl 1 15 - 1) with 32767.
  change (- Z.shiftl 1 31) with (-2147483648). change (Z.shiftl 1 31 - 1) with 2147483647.
  pose proof (shiftr_bytes v 1 ltac:(lia)) as E1. pose proof (shiftr_bytes v 2 ltac:(lia)) as E2.
  pose proof (shiftr_bytes v 3 ltac:(lia)) as E3. change (8 * 1) with 8 in E1. change (8 * 2) with 16 in E2.
  change (8 * 3) with 24 in E3. rewrite land_255, E1, E2, E3. change (256 ^ 1) with 256.
  change (256 ^ 2) with (256 * 256). change (256 ^ 3) with (256 * 256 * 256). rewrite <- !Z.div_div by lia.
  destruct (_ && _) eqn:H1; [|clear H1; destruct (_ && _) eqn:H1; [|clear H1; destruct (_ && _) eqn:H1]];
    [exists 0%nat|exists 1%nat|exists 2%nat|apply andb_false_iff in H1 as [?%Z.leb_gt|?%Z.leb_gt]; lia];
    apply andb_true_iff in H1 as [?%Z.leb_le ?%Z.leb_le]; (split; [tauto|]); (split; [done|cbn; lia]).
Qed.

Lemma rdbEncodeInteger_none v : ~ in_s 32 v -> rdbEncodeInteger v = [].
Proof.
  unfold in_s. intros Hv. unfold rdbEncodeInteger.
  change (- Z.shiftl 1 7) with (-128). change (Z.shiftl 1 7 - 1) with 127.
  change (- Z.shiftl 1 15) with (-32768). change (Z.shiftl 1 15 - 1) with 32767.
  change (- Z.shiftl 1 31) with (-2147483648). change (Z.shiftl 1 31 - 1) with 2147483647.
  repeat (destruct (_ && _) eqn:E; [apply andb_true_iff in E as [?%Z.leb_le ?%Z.leb_le]; lia|clear E]). done.
Qed.

Lemma rdbEncodeInteger_ok v : bytes_ok (rdbEncodeInteger v).
Proof.
  assert (D : in_s 32 v \/ ~ in_s 32 v) by (unfold in_s; lia). destruct D as [Hv|Hv].
  - destruct (rdbEncodeInteger_bytes v Hv) as (t & Ht & -> & _). constructor; [|apply le_bytes_ok].
    unfold byte_ok. lia.
  - rewrite rdbEncodeInteger_none by done. constructor.
Qed.

Lemma rdbEncodeInteger_short v : (length (rdbEncodeInteger v) <= 5)%nat.
Proof. unfold rdbEncodeInteger. repeat case_match; cbn; lia. Qed.

(** The bytes of compressed data are bytes. *)
Lemma copyk_prefix n off : forall d, exists t, copyk n off d = d ++ t.
Proof.
  induction n as [|n IH]; intros d; cbn; [exists []; by rewrite app_nil_r|].
  destruct (IH (d ++ [nth (length d - off - 1) d 0])) as [t ->]. eexists. by rewrite <- app_assoc.
Qed.

Lemma expand_prefix d it : exists t, expand d it = d ++ t.
Proof. destruct it; cbn; [by eexists|apply copyk_prefix]. Qed.

Lemma expand_all_prefix its : forall d, exists t, expand_all d its = d ++ t.
Proof.
  induction its as [|it its IH]; intros d; [exists []; by rewrite app_nil_r|].
  change (expand_all d (it :: its)) with (expand_all (expand d it) its). destruct (IH (expand d it)) as [t ->].
  destruct (expand_prefix d it) as [t' ->]. eexists. by rewrite <- app_assoc.
Qed.

Lemma enc_bytes d it : ok_item d it -> bytes_ok (expand d it) -> bytes_ok (enc it).
Proof.
  destruct it as [l|off len]; cbn; unfold bytes_ok, byte_ok.
  - intros Hl [_ Hb]%bytes_ok_app. constructor; [lia|done].
  - intros (Hl & Ho & _) _. assert (0 <= off / 256 < 32).
    { split; [apply Z.div_pos; lia|apply Z.div_lt_upper_bound; lia]. }
    pose proof (Z.mod_pos_bound off 256). destruct (Z.ltb_spec len 7); repeat constructor; lia.
Qed.

Lemma enc_all_bytes its : forall d, valid d its -> bytes_ok (expand_all d its) -> bytes_ok (enc_all its).
Proof.
  induction its as [|it its IH]; intros d Hv Hb; [constructor|]. destruct Hv as [H1 H2].
  change (expand_all d (it :: its)) with (expand_all (expand d it) its) in Hb.
  change (enc_all (it :: its)) with (enc it ++ enc_all its). apply bytes_ok_app. split; [|by apply (IH (expand d it))].
  apply (enc_bytes d); [done|]. destruct (expand_all_prefix its (expand d it)) as [t E]. rewrite E in Hb.
  apply bytes_ok_app in Hb as [Hb _]. exact Hb.
Qed.

Section save.
Context (rdb_compression : bool) (htab : Z -> Z) (junk : Z) (Hhtab : forall i, in_u 32 (htab i)).

Lemma rdbSaveLzfBlob_writes data len : bytes_ok data -> Z.of_nat (length data) < 2 ^ 31 -> 0 <= len < 2 ^ 31 ->
  exists n, 0 < n < 2 ^ 32 - 1 /\
    writes (rdbSaveLzfBlob data len) (195 :: len_bytes (Z.of_nat (length data)) ++ len_bytes len ++ data) n.
Proof.
  intros Hd Hl Hn. exists (Z.of_nat (length [195]) + Z.of_nat (length (len_bytes (Z.of_nat (length data)))) +
    Z.of_nat (length (len_bytes len)) + Z.of_nat (length data)).
  pose proof (len_bytes_short (Z.of_nat (length data))). pose proof (len_bytes_short len). split; [cbn [length]; lia|].
  unfold rdbSaveLzfBlob. rewrite !uwrap_id by (unfold in_u; lia).
  eapply (writes_bind _ _ [195]); [apply rdbWriteRaw_writes; by repeat constructor|].
  eapply writes_bind; [apply rdbSaveLen_writes; unfold in_u; lia|].
  eapply writes_bind; [apply rdbSaveLen_writes; unfold in_u; lia|].
  eapply writes_then; [by apply rdbWriteRaw_writes|]. apply (writes_ret (_ + _ + _ + _)).
Qed.

(** The compressor either gives up or leaves a code of the string. *)
Lemma rdbSaveLzfStringObject_writes s : saveable s ->
  writes (rdbSaveLzfStringObject htab junk s) [] 0 \/
  exists bs n, 0 < n < 2 ^ 32 - 1 /\ writes (rdbSaveLzfStringObject htab junk s) bs n /\ str_code s bs.
Proof.
  intros [Hb Hlen]. unfold rdbSaveLzfStringObject.
  destruct (Z.leb_spec (Z.of_nat (length s)) 4); [left; apply (writes_ret 0)|].
  rewrite !uwrap_id by (unfold in_u; lia). rewrite Nat2Z.id, take_ge by done.
  destruct (compress_items s ltac:(lia) htab (replicate (Z.to_nat (Z.of_nat (length s) - 4)) junk) ltac:(lia) Hhtab)
    as (n & out & E & _ & [->|(its & Hn & Ht & Hne & Hv & Hex & Hpos)]); rewrite E.
  { left. eapply writes_after; [by apply writes_res|]. apply (writes_ret 0). }
  right. rewrite length_replicate in Hpos.
  destruct (rdbSaveLzfBlob_writes (enc_all its) (Z.of_nat (length s))) as (m & Hm & Hw); [|lia|lia|].
  { apply (enc_all_bytes its []); [done|by rewrite Hex]. }
  eexists _, m. split; [done|]. split.
  - eapply writes_after; [by apply writes_res|]. cbn.
    destruct (Z.eqb_spec n 0); [lia|]. rewrite Ht. exact Hw.
  - apply code_lzf; [lia|apply (enc_all_bytes its []); [done|by rewrite Hex]|by destruct s|].
    intros blk Hblk. rewrite (decompress_items its s blk) by (done || lia).
    by rewrite <- Hblk, drop_all, app_nil_r.
Qed.

Lemma save_verbatim_writes s : saveable s -> exists n, 0 <= n < 2 ^ 32 - 1 /\
  writes (save_verbatim s) (len_bytes (Z.of_nat (length s)) ++ s) n.
Proof.
  intros [Hb Hl]. unfold save_verbatim. rewrite uwrap_id by (unfold in_u; lia).
  pose proof (len_bytes_short (Z.of_nat (length s))). destruct (Z.ltb_spec 0 (Z.of_nat (length s))).
  - eexists (_ + _). split; [|eapply writes_bind; [apply rdbSaveLen_writes; unfold in_u; lia|];
      eapply writes_then; [by apply rdbWriteRaw_writes|]; apply (writes_ret (_ + _))]. lia.
  - destruct s; [|cbn in *; lia]. exists (Z.of_nat (length (len_bytes (Z.of_nat (length (@nil Z)))))). split; [lia|].
    eapply writes_bind; [apply rdbSaveLen_writes; unfold in_u; lia|]. apply (writes_ret (Z.of_nat _)).
Qed.

Lemma ll2str_at n v : in_s 64 v -> Z.of_nat (length (decimal v)) < n -> ll2str n v = Ret (decimal v).
Proof.
  intros Hv Hn. unfold ll2str.
  rewrite ll2string_writes by (done || rewrite length_replicate; lia). cbv zeta.
  destruct (Z.leb_spec n (Z.of_nat (length (decimal v)))); [lia|]. cbn. by rewrite Nat2Z.id, take_app_length.
Qed.

Lemma strtoll_range s : in_s 64 (strtoll s).1.
Proof.
  unfold strtoll. destruct (match skip_blanks s with [] => _ | _ => _ end) as [neg t].
  destruct (span_digits t) as [[|d ds] rest]; [unfold in_s; cbn; lia|]. cbn.
  unfold in_s, LLONG_MIN, LLONG_MAX. change (2 ^ (64 - 1)) with 9223372036854775808. destruct neg; lia.
Qed.

Lemma rdbTryIntegerEncoding_code s : exists enc, rdbTryIntegerEncoding s = Ret enc /\ bytes_ok enc /\
  (enc <> [] -> str_code s enc) /\ (length enc <= 5)%nat.
Proof.
  unfold rdbTryIntegerEncoding. pose proof (strtoll_range s) as Hv. destruct (strtoll s) as [v endptr]. cbn in Hv.
  destruct (negb _); [exists []; repeat split; [constructor|done|cbn; lia]|]. rewrite ll2str_at by (done || pose proof (decimal_length v Hv); lia). cbn. case_bool_decide as E; [exists []; repeat split; [constructor|done|cbn; lia]|].
  eexists. split; [done|]. split; [apply rdbEncodeInteger_ok|]. split; [|apply rdbEncodeInteger_short]. intros Hne.
  assert (D : in_s 32 v \/ ~ in_s 32 v) by (unfold in_s; lia). destruct D as [D|D].
  - apply code_int; [done|]. destruct (decide (decimal v = s)); [done|tauto].
  - by rewrite rdbEncodeInteger_none in Hne.
Qed.

Lemma rdbSaveRawString_writes s : saveable s -> exists bs n, 0 <= n < 2 ^ 32 - 1 /\
  writes (rdbSaveRawString rdb_compression htab junk s) bs n /\ str_code s bs.
Proof.
  intros Hs. unfold rdbSaveRawString. destruct (rdbTryIntegerEncoding_code s) as (enc & Ee & Hb & He & Hle).
  assert (Hw : exists enc', writes (if Z.of_nat (length s) <=? 11 then io_res (rdbTryIntegerEncoding s) else mret []) [] enc' /\
    (enc' <> [] -> str_code s enc') /\ bytes_ok enc' /\ (length enc' <= 5)%nat).
  { destruct (_ <=? 11); [exists enc; split; [by apply writes_res|done]|]. exists []. split; [apply (writes_ret [])|].
    split; [done|split; [constructor|cbn; lia]]. }
  destruct Hw as (enc' & Hw & He' & Hb' & Hl'). clear Ee Hb He Hle. destruct (decide (enc' = [])) as [->|Hne].
  2: { exists enc', (Z.of_nat (length enc')). split; [lia|]. split; [|by apply He']. eapply writes_after; [exact Hw|].
       destruct (Z.ltb_spec 0 (Z.of_nat (length enc'))); [|destruct enc'; [done|cbn in *; lia]].
       eapply writes_then; [apply rdbWriteRaw_writes; [done|lia]|]. apply (writes_ret (Z.of_nat _)). }
  assert (Hk : exists bs n, 0 <= n < 2 ^ 32 - 1 /\ writes (n ← (if rdb_compression && (20 <? Z.of_nat (length s)) then rdbSaveLzfStringObject htab junk s else mret 0);
    if n =? -1 then io_error else if 0 <? n then mret n else save_verbatim s) bs n /\ str_code s bs).
  { destruct (save_verbatim_writes s Hs) as (n & Hr & Hn). destruct (_ && _).
    - destruct (rdbSaveLzfStringObject_writes s Hs) as [H0|(bs & m & Hm & Hbs & Hc)].
      + eexists _, n. split; [done|]. split; [eapply writes_after; [exact H0|exact Hn]|constructor].
      + exists bs, m. split; [lia|]. split; [|done]. eapply writes_then; [exact Hbs|]. destruct (Z.eqb_spec m (-1)); [lia|]. destruct (Z.ltb_spec 0 m); [|lia].
        apply (writes_ret m).
    - eexists _, n. split; [done|]. split; [eapply writes_after; [apply (writes_ret 0)|exact Hn]|constructor]. }
  destruct Hk as (bs & n & Hr & Hk & Hc). exists bs, n. split; [done|]. split; [|done]. eapply writes_after; [exact Hw|]. exact Hk.
Qed.

Lemma rdbSaveLongLong_writes v : in_s 64 v -> bytes_ok (decimal v) -> exists bs n, 0 <= n < 2 ^ 32 - 1 /\
  writes (rdbSaveLongLongAsStringObject v) bs n /\ str_code (decimal v) bs.
Proof.
  intros Hv Hb. unfold rdbSaveLongLongAsStringObject. assert (D : in_s 32 v \/ ~ in_s 32 v) by (unfold in_s; lia). destruct D as [D|D].
  - destruct (rdbEncodeInteger_bytes v D) as (t & _ & E & _). pose proof (rdbEncodeInteger_short v).
    exists (rdbEncodeInteger v), (Z.of_nat (length (rdbEncodeInteger v))). split; [lia|]. split; [|by apply code_int].
    destruct (Z.ltb_spec 0 (Z.of_nat (length (rdbEncodeInteger v)))); [|rewrite E in *; cbn in *; lia].
    apply rdbWriteRaw_writes; [apply rdbEncodeInteger_ok|lia].
  - rewrite rdbEncodeInteger_none by done. cbn [length]. pose proof (decimal_length v Hv). pose proof (len_bytes_short (Z.of_nat (length (decimal v)))).
    eexists _, (_ + _). split; [|split; [|apply code_raw]]; [|eapply writes_after; [apply writes_res, ll2str_at; [done|lia]|]];
      [|destruct (Z.ltb_spec (Z.of_nat (length (decimal v))) 32); [|lia]; cbn [negb];
      rewrite uwrap_id by (unfold in_u; lia); eapply writes_bind; [apply rdbSaveLen_writes; unfold in_u; lia|];
      eapply writes_then; [apply rdbWriteRaw_writes; [done|lia]|]; apply (writes_ret (_ + _))]. lia.
Qed.

Lemma rdbSaveStringObject_writes o : obj_ok o -> type o = OBJ_STRING -> saveable (string_of o) -> exists bs n,
  writes (rdbSaveStringObject rdb_compression htab junk o) bs n /\ str_code (string_of o) bs.
Proof.
  intros Ho Ht Hs. unfold rdbSaveStringObject. destruct (obj_string o Ho Ht) as (_ & [[He Hp]|(He & Hi & v & Hp & Hv)]).
  - rewrite bool_decide_false by (intros E; unfold sdsEncodedObject in He; by rewrite E in He).
    rewrite He, Hp. cbn [negb]. destruct (rdbSaveRawString_writes _ Hs) as (bs & n & Hn & Hw & Hc).
    exists bs, (i32 n). split; [|done]. eapply writes_then; [exact Hw|]. rewrite as_int_count by done. apply writes_ret.
  - rewrite bool_decide_true, Hp by done. unfold string_of in *. rewrite Hp in *. cbn in Hs |- *.
    destruct (rdbSaveLongLong_writes v Hv (proj1 Hs)) as (bs & n & Hn & Hw & Hc).
    exists bs, (i32 n). split; [|done]. eapply writes_then; [exact Hw|]. rewrite as_int_count by done. apply writes_ret.
Qed.
End save.
