(* ===== verification/RdbLoad.v ===== *)
(** * RdbLoad: loading the strings and the keys of a dump

    A function that loads consumes the bytes that were saved and leaves
    objects with the strings they encode; everything else in the server
    stays as it was. *)

From S2P Require Import Prelude Endian Util Lzf Crc Object Db TString ServerOk Sds Rdb.
From S2P Require Import Abstract ServerSim ValueSim Frame RdbCodec.

(** ** Loading functions *)

(** [m] run in [s] consumes [bs] and ends with a result as [Q] says. *)
Definition loads {A} (s : server) (m : LM A) (bs : list Z) (Q : A -> server -> Prop) : Prop :=
  forall r rest, good r -> ahead r (bs ++ rest) ->
  exists a s', m r s = Ret ((Some a, past bs r), s') /\ Q a s'.

Lemma loads_ret {A} s (a : A) (Q : A -> server -> Prop) : Q a s -> loads s (mret a) [] Q.
Proof. intros H r rest _ _. exists a, s. by rewrite past_nil. Qed.

Lemma loads_bind {A B} s (m : LM A) (k : A -> LM B) b1 b2 P Q :
  loads s m b1 P -> (forall a s', P a s' -> loads s' (k a) b2 Q) -> loads s (m ≫= k) (b1 ++ b2) Q.
Proof.
  intros H K r rest Hg Ha. rewrite <- app_assoc in Ha. destruct (H r _ Hg Ha) as (a & s' & E & HP).
  destruct (K a s' HP (past b1 r) rest) as (b & s2 & E2 & HQ); [done|by apply past_ahead|].
  exists b, s2. split; [|done]. unfold mbind, LM_bind. rewrite E, past_app. exact E2.
Qed.

Lemma loads_then {A B} s (m : LM A) (k : A -> LM B) bs P Q :
  loads s m bs P -> (forall a s', P a s' -> loads s' (k a) [] Q) -> loads s (m ≫= k) bs Q.
Proof. intros H K. rewrite <- (app_nil_r bs). by eapply loads_bind. Qed.

Lemma loads_io {A} s (m : IO A) bs a (Q : A -> server -> Prop) : reads m bs a -> Q a s -> loads s (of_io m) bs Q.
Proof. intros H HQ r rest Hg Ha. exists a, s. split; [|done]. unfold of_io. by rewrite (H r rest). Qed.

Lemma loads_m {A} s (m : M A) a s' (Q : A -> server -> Prop) : m s = Ret (a, s') -> Q a s' -> loads s (of_m m) [] Q.
Proof. intros H HQ r rest _ _. exists a, s'. split; [|done]. unfold of_m. by rewrite H, past_nil. Qed.

(** The first step reads, or works on the server only. *)
Lemma loads_read {A B} s (m : IO A) (k : A -> LM B) b1 b2 a Q :
  reads m b1 a -> loads s (k a) b2 Q -> loads s (of_io m ≫= k) (b1 ++ b2) Q.
Proof. intros H K. eapply loads_bind; [eapply (loads_io _ _ _ _ (fun a' s' => a' = a /\ s' = s)); done|]. by intros ? ? [-> ->]. Qed.

Lemma loads_read_last {A B} s (m : IO A) (k : A -> LM B) bs a Q :
  reads m bs a -> loads s (k a) [] Q -> loads s (of_io m ≫= k) bs Q.
Proof. intros H K. rewrite <- (app_nil_r bs). by eapply loads_read. Qed.

Lemma loads_step {A B} s (m : M A) (k : A -> LM B) bs a s' Q :
  m s = Ret (a, s') -> loads s' (k a) bs Q -> loads s (of_m m ≫= k) bs Q.
Proof.
  intros H K. rewrite <- (app_nil_l bs). eapply loads_bind; [eapply (loads_m _ _ _ _ (fun a' s2 => a' = a /\ s2 = s')); done|].
  by intros ? ? [-> ->].
Qed.

Lemma loads_conseq {A} s (m : LM A) bs (P Q : A -> server -> Prop) :
  loads s m bs P -> (forall a s', P a s' -> Q a s') -> loads s m bs Q.
Proof. intros H K r rest Hg Ha. destruct (H r rest Hg Ha) as (a & s' & E & HP). exists a, s'. auto. Qed.

Lemma loads_on_error {A} s (m : LM A) k bs Q : loads s m bs Q -> loads s (on_error m k) bs Q.
Proof.
  intros H r rest Hg Ha. destruct (H r rest Hg Ha) as (a & s' & E & HP). exists a, s'. split; [|done].
  unfold on_error. by rewrite E.
Qed.

(** ** Objects that are created *)

(** Every object is still there, with the same contents. *)
Definition grown (s s' : server) : Prop :=
  forall b o, heap s !! b = Some o -> exists o', heap s' !! b = Some o' /\ same_obj o o'.

(** [s'] has a new reference to a string [v] at [a]. *)
Record made (x : addr -> Z) (s : server) (v : list Z) (a : addr) (s' : server) : Prop := mk_made {
  made_ok : ok (fun b => x b + tok a b) s';
  made_abs : abs s' = abs s;
  made_kept : kept s s';
  made_grown : grown s s';
  made_str : exists r, str_at s' a r /\ string_of r = v
}.

Lemma grown_insert s s' a o : heap s !! a = None -> heap s' = <[a := o]> (heap s) -> grown s s'.
Proof.
  intros Hn E b ob Hb. exists ob. split; [|done]. rewrite E, lookup_insert_ne; [done|]. intros ->. congruence.
Qed.

Lemma made_string x s v : ok x s -> Z.of_nat (length v) <= ALLOC_MAX ->
  exists a s', createObject OBJ_STRING (PSds v) s = Ret (a, s') /\ made x s v a s' /\ is_sds s' a v.
Proof.
  intros Hok Hl. destruct (createObject_spec x s (PSds v) Hok) as (s' & r & E & Er & H1 & H2 & H3 & H4 & H5 & H6); [done|].
  assert (Hr : heap s' !! brk s = Some r) by (rewrite H5; apply lookup_insert_eq).
  exists (brk s), s'. split; [done|]. split.
  - split; try done; [by eapply grown_insert|]. exists r. split; [|by rewrite Er].
    split; [done|]. split; [by eapply ok_obj|by rewrite Er].
  - exists r. by rewrite Er in Hr |- *.
Qed.

Lemma made_number x s v : ok x s -> in_s 64 v ->
  exists a s', createStringObjectFromLongLong v s = Ret (a, s') /\ made x s (decimal v) a s'.
Proof.
  intros Hok Hv. destruct (createFromLongLong_spec x s v Hok Hv) as (s' & a & r & E & Hr & Hs & Hok' & Habs & Hk & Hd).
  exists a, s'. split; [done|]. split; try done; [|by exists r].
  revert E. unfold createStringObjectFromLongLong. destruct (_ && _).
  - run. unfold incrRefCount, obj, set_obj. run. destruct (heap s !! shared_integers v) as [o|] eqn:Eo; [|done].
    rewrite Eo. intros [= <- <-] b ob Hb. cbn. destruct (decide (shared_integers v = b)) as [<-|Hn].
    + rewrite lookup_insert_eq. eexists. split; [done|]. rewrite Eo in Hb. by injection Hb as <-.
    + rewrite lookup_insert_ne by done. by exists ob.
  - destruct (_ && _).
    + run. unfold createObject, malloc, obj, set_obj. run. cbn [heap]. rewrite lookup_insert_eq. cbn [heap].
      rewrite lookup_insert_eq. intros [= <- <-]. eapply grown_insert; [|cbn; by rewrite insert_insert_eq].
      destruct (heap s !! brk s) as [o|] eqn:Eo; [|done]. pose proof (ok_brk _ _ Hok _ _ Eo). lia.
    + unfold createObject, malloc. run. intros [= <- <-]. eapply grown_insert; [|done].
      destruct (heap s !! brk s) as [o|] eqn:Eo; [|done]. pose proof (ok_brk _ _ Hok _ _ Eo). lia.
Qed.

(** ** Strings *)

Lemma reads_encval t : 0 <= t < 64 -> reads rdbLoadLen [192 + t] (t, true).
Proof.
  intros Ht r rest Hg Ha. assert (Hb : byte_ok (192 + t)) by (unfold byte_ok; lia).
  unfold rdbLoadLen. rewrite (rdbLoadLen_first _ r rest) by done. cbn [nth].
  destruct (type_bits _ Hb) as [-> ->]. replace ((192 + t) / 64) with 3 by (apply Z.div_unique with t; lia).
  replace ((192 + t) mod 64) with t by (apply Z.mod_unique with 3; lia). done.
Qed.

Lemma lor_le2 b0 b1 : byte_ok b0 -> Z.lor b0 (Z.shiftl b1 8) = le_value [b0; b1].
Proof.
  intros H0. unfold byte_ok in *. rewrite Z.lor_comm, Z.shiftl_mul_pow2, (lor_add 8) by lia. cbn. lia.
Qed.

Lemma lor_le4 b0 b1 b2 b3 : byte_ok b0 -> byte_ok b1 -> byte_ok b2 -> byte_ok b3 ->
  Z.lor (Z.lor (Z.lor b0 (Z.shiftl b1 8)) (Z.shiftl b2 16)) (Z.shiftl b3 24) = le_value [b0; b1; b2; b3].
Proof.
  intros H0 H1 H2 H3. rewrite lor_le2 by done. unfold byte_ok in *. cbn [le_value].
  rewrite (Z.lor_comm _ (Z.shiftl b2 16)), Z.shiftl_mul_pow2, (lor_add 16) by lia.
  rewrite Z.lor_comm, Z.shiftl_mul_pow2, (lor_add 24) by lia. lia.
Qed.

(** An integer of [w] bytes is read back with its sign. *)
Lemma sign_back w v : (0 < w)%nat -> in_s (8 * Z.of_nat w) v -> swrap (8 * Z.of_nat w) (le_value (le_bytes w v)) = v.
Proof. intros Hw Hv. rewrite le_value_bytes, swrap_uwrap by lia. apply swrap_id; [lia|done]. Qed.

Definition load_flags (flags : Z) : Prop := flags = RDB_LOAD_NONE \/ flags = RDB_LOAD_ENC.

(** A reference to a new string, an sds one without RDB_LOAD_ENC. *)
Definition loaded_as (x : addr -> Z) (s : server) (flags : Z) (v : list Z) (l : loaded) (s' : server) : Prop :=
  exists a, l = LObj a /\ made x s v a s' /\ (flags = RDB_LOAD_NONE -> is_sds s' a v).

Lemma load_number x s flags v : load_flags flags -> ok x s -> in_s 32 v ->
  loads s (if has flags RDB_LOAD_PLAIN then buf ← of_io (io_res (ll2str 21 v)); mret (LPlain buf)
    else if has flags RDB_LOAD_ENC then a ← of_m (createStringObjectFromLongLong v); mret (LObj a)
    else a ← of_m (s ← ll2sds v; createObject OBJ_STRING (PSds s)); mret (LObj a)) []
    (loaded_as x s flags (decimal v)).
Proof.
  intros Hf Hok Hv. assert (Hv6 : in_s 64 v) by (apply (in_s_weaken 32); [lia|done]).
  destruct Hf as [->| ->]; cbn [has Z.land Z.eqb negb RDB_LOAD_NONE RDB_LOAD_ENC RDB_LOAD_PLAIN].
  - destruct (made_string x s (decimal v) Hok (decimal_alloc v Hv6)) as (a & s' & E & Hm & Hs).
    change (has 0 2) with false. change (has 0 1) with false. cbv iota. eapply loads_step.
    + unfold mbind, M_bind. rewrite ll2sds_at by done. exact E.
    + apply loads_ret. by exists a.
  - destruct (made_number x s v Hok Hv6) as (a & s' & E & Hm).
    change (has 1 2) with false. change (has 1 1) with true. cbv iota. eapply loads_step; [exact E|].
    apply loads_ret. by exists a.
Qed.

Lemma load_integer x s flags t v : load_flags flags -> ok x s -> in_s 32 v ->
  t = 0%nat \/ t = 1%nat \/ t = 2%nat -> let w := Nat.pow 2 t in in_s (8 * Z.of_nat w) v ->
  loads s (rdbLoadIntegerObject (Z.of_nat t) flags) (le_bytes w v) (loaded_as x s flags (decimal v)).
Proof.
  intros Hf Hok Hv Ht w Hw. unfold rdbLoadIntegerObject. rewrite <- (app_nil_r (le_bytes w v)).
  pose proof (le_bytes_ok w v) as Hb.
  assert (Hrd : reads (rioRead (Z.of_nat w)) (le_bytes w v) (le_bytes w v)).
  { apply rioRead_reads; [by rewrite length_le_bytes|done]. }
  eapply (loads_bind _ _ _ _ _ (fun val s' => val = v /\ s' = s)).
  2: { intros ? ? [-> ->]. by apply load_number. }
  assert (Hsign := sign_back w v ltac:(subst w; destruct Ht as [->|[->| ->]]; cbn; lia) Hw).
  destruct Ht as [->|[->| ->]]; subst w; cbn [Nat.pow Nat.mul Nat.add] in *; cbn [Z.of_nat Pos.of_succ_nat Pos.succ Z.eqb Pos.eqb
    RDB_ENC_INT8 RDB_ENC_INT16 RDB_ENC_INT32] in *.
  all: eapply loads_read_last; [exact Hrd|]; apply loads_ret; split; [|done].
  - cbn in Hsign |- *. rewrite Z.add_0_r in Hsign. exact Hsign.
  - remember (le_bytes 2 v) as l eqn:El. destruct l as [|b0 [|b1 [|]]]; try done.
    apply Forall_cons in Hb as [H0 Hb]. cbn [nth]. rewrite lor_le2 by done. exact Hsign.
  - remember (le_bytes 4 v) as l eqn:El. destruct l as [|b0 [|b1 [|b2 [|b3 [|]]]]]; try done.
    unfold bytes_ok in Hb. rewrite !Forall_cons in Hb. destruct Hb as (H0 & H1 & H2 & H3 & _). cbn [nth].
    rewrite lor_le4 by done. exact Hsign.
Qed.

(** Filling the fresh string gives the string. *)
Lemma create_fill x s v flags o s1 : ok x s -> Z.of_nat (length v) <= ALLOC_MAX -> load_flags flags ->
  (if has flags RDB_LOAD_ENC then createStringObject v else createRawStringObject v) s = Ret (o, s1) ->
  exists s0, (if has flags RDB_LOAD_ENC then createStringObject (replicate (length v) 0)
    else createRawStringObject (replicate (length v) 0)) s = Ret (o, s0) /\ set_sds o v s0 = Ret (tt, s1).
Proof.
  intros Hok Hl Hf E. unfold createStringObject, createEmbeddedStringObject, createRawStringObject, createObject, malloc, set_sds, obj, set_obj in *.
  rewrite length_replicate. revert E. run.
  destruct (has flags RDB_LOAD_ENC); [destruct (_ <=? OBJ_ENCODING_EMBSTR_SIZE_LIMIT); [destruct (_ <=? 255); [|done]|]|];
    intros [= <- <-]; eexists; (split; [reflexivity|]); cbn [heap]; rewrite lookup_insert_eq; cbn [heap with_ptr];
    rewrite lookup_insert_eq; unfold with_heap; cbn; by rewrite insert_insert_eq.
Qed.

Lemma made_fresh x s flags v : ok x s -> Z.of_nat (length v) <= ALLOC_MAX -> load_flags flags ->
  exists o s1, (if has flags RDB_LOAD_ENC then createStringObject v else createRawStringObject v) s = Ret (o, s1) /\
    loaded_as x s flags v (LObj o) s1.
Proof.
  intros Hok Hl [->| ->].
  - change (has RDB_LOAD_NONE RDB_LOAD_ENC) with false. cbv iota.
    destruct (made_string x s v Hok Hl) as (a & s' & E & Hm & Hs). exists a, s'. split; [exact E|]. by exists a.
  - change (has RDB_LOAD_ENC RDB_LOAD_ENC) with true. cbv iota.
    destruct (createStringObject_spec x s v Hok Hl) as (s' & r & E & Ht & _ & _ & Hp & Hor & H1 & H2 & H3 & H4 & H5 & H6).
    assert (Hr : heap s' !! brk s = Some r) by (rewrite H5; apply lookup_insert_eq).
    exists (brk s), s'. split; [done|]. eexists. split; [done|]. split; [|done]. split; try done; [by eapply grown_insert|].
    exists r. split; [done|]. unfold string_of. by rewrite Hp.
Qed.

Lemma load_plain x s flags v : load_flags flags -> ok x s -> saveable v ->
  loads s (o ← of_m (if has flags RDB_LOAD_ENC then createStringObject (replicate (length v) 0)
      else createRawStringObject (replicate (length v) 0));
    if negb (Z.of_nat (length v) =? 0) then
      s ← on_error (of_io (rioRead (Z.of_nat (length v)))) (decrRefCount o); _ ← of_m (set_sds o s); mret (LObj o)
    else mret (LObj o)) v (loaded_as x s flags v).
Proof.
  intros Hf Hok [Hb Hl]. destruct (made_fresh x s flags v Hok ltac:(unfold ALLOC_MAX; lia) Hf) as (o & s1 & E & Hm).
  destruct (create_fill x s v flags o s1 Hok ltac:(unfold ALLOC_MAX; lia) Hf E) as (s0 & E0 & Es).
  destruct (Z.eqb_spec (Z.of_nat (length v)) 0) as [Hz|Hz].
  - destruct v; [|done]. cbn [negb]. eapply loads_step; [exact E|]. by apply loads_ret.
  - cbn [negb]. eapply loads_step; [exact E0|].
    eapply (loads_then _ _ _ _ (fun v' s' => v' = v /\ s' = s0)).
    + apply loads_on_error, (loads_io _ _ _ v); [by apply rioRead_reads|done].
    + intros ? ? [-> ->]. eapply loads_step; [exact Es|]. by apply loads_ret.
Qed.

Lemma load_lzf x s junk flags v data : load_flags flags -> ok x s -> saveable v -> v <> [] ->
  0 < Z.of_nat (length data) < 2 ^ 32 - 1 -> bytes_ok data ->
  (forall blk, length blk = length v -> lzf_decompress data blk = Ret (inr (Z.of_nat (length v), v))) ->
  loads s (rdbLoadLzfStringObject junk flags)
    (len_bytes (Z.of_nat (length data)) ++ len_bytes (Z.of_nat (length v)) ++ data) (loaded_as x s flags v).
Proof.
  intros Hf Hok [Hb Hl] Hne Hd Hbd Hdec. unfold rdbLoadLzfStringObject.
  eapply loads_read; [apply load_len_reads; lia|]. eapply loads_read; [apply load_len_reads; lia|].
  assert (has flags RDB_LOAD_PLAIN = false) as -> by (by destruct Hf as [->| ->]). cbv zeta iota.
  eapply loads_read_last; [by apply rioRead_reads|]. eapply loads_read_last.
  { intros r rest _ _. unfold io_res. rewrite Hdec by (rewrite length_replicate; lia). by rewrite past_nil. }
  cbv iota. destruct (Z.eqb_spec (Z.of_nat (length v)) 0); [destruct v; [done|cbn in *; lia]|].
  destruct (made_string x s v Hok ltac:(unfold ALLOC_MAX; lia)) as (a & s' & E & Hm & Hs).
  eapply loads_step; [exact E|]. apply loads_ret. by exists a.
Qed.

Lemma load_string x s junk flags v bs : load_flags flags -> ok x s -> saveable v -> str_code v bs ->
  loads s (rdbGenericLoadStringObject junk flags) bs (loaded_as x s flags v).
Proof.
  intros Hf Hok Hs [n Hn E|data Hd Hbd Hne Hdec|]; unfold rdbGenericLoadStringObject.
  - destruct (rdbEncodeInteger_bytes n Hn) as (t & Ht & -> & Hw). rewrite E.
    change (192 + Z.of_nat t :: le_bytes (Nat.pow 2 t) n) with ([192 + Z.of_nat t] ++ le_bytes (Nat.pow 2 t) n).
    eapply loads_read; [apply reads_encval; lia|]. cbv iota beta.
    assert ((Z.of_nat t =? RDB_ENC_INT8) || (Z.of_nat t =? RDB_ENC_INT16) || (Z.of_nat t =? RDB_ENC_INT32) = true) as ->
      by (by destruct Ht as [->|[->| ->]]). by apply load_integer.
  - eapply (loads_read _ _ _ [195]); [apply (reads_encval 3); lia|]. by apply load_lzf.
  - destruct Hs as [Hb Hl]. eapply loads_read; [apply rdbLoadLen_reads; unfold in_u; lia|]. cbv iota beta.
    destruct (Z.eqb_spec (Z.of_nat (length v)) RDB_LENERR) as [Hx|_]; [unfold RDB_LENERR in Hx; lia|].
    assert (has flags RDB_LOAD_PLAIN = false) as -> by (by destruct Hf as [->| ->]). cbn [negb]. rewrite Nat2Z.id.
    by apply load_plain.
Qed.

Lemma load_sds x s junk v bs : ok x s -> saveable v -> str_code v bs ->
  loads s (rdbLoadStringObject junk) bs (fun a s' => made x s v a s' /\ is_sds s' a v).
Proof.
  intros Hok Hs Hc. eapply loads_then; [apply load_string; try done; by left|].
  intros l s' (a & -> & Hm & Hi). apply loads_ret. auto.
Qed.

Lemma load_encoded x s junk v bs : ok x s -> saveable v -> str_code v bs ->
  loads s (rdbLoadEncodedStringObject junk) bs (fun a s' => made x s v a s').
Proof.
  intros Hok Hs Hc. eapply loads_then; [apply load_string; try done; by right|].
  intros l s' (a & -> & Hm & _). by apply loads_ret.
Qed.

(** ** Encoding a held string *)

Lemma noargs_malloc o : noargs (malloc o).
Proof. done. Qed.
#[export] Hint Resolve noargs_malloc : frame.

Lemma noargs_tryObjectEncoding a : noargs (tryObjectEncoding a).
Proof. unfold tryObjectEncoding, createEmbeddedStringObject, serverAssert. noargs. Qed.

Lemma with_argv_same s : with_argv (argv s) s = s.
Proof. by destruct s. Qed.

(** Code that does not look at the arguments does not change them. *)
Lemma noargs_argv {A} (m : M A) s a s' : noargs m -> m s = Ret (a, s') -> argv s' = argv s.
Proof.
  intros Hm E. pose proof (Hm (argv s) s) as H. rewrite with_argv_same, E in H. cbn in H. injection H as H.
  by rewrite H.
Qed.

(** The references that the code holds to the strings [w] and [a] seen as
    arguments of the client: what is proved of the encoding of an argument
    holds of a string that is loaded. *)
Section Held.
Context (x : addr -> Z) (s : server) (a : addr) (r : robj) (w : list addr).
Hypothesis Hok : ok (fun b => x b + tok a b) s.
Hypothesis Hw : forall b, argv_refs w b <= x b.
Hypothesis Hws : forall b, b ∈ w -> exists o, heap s !! b = Some o /\ type o = OBJ_STRING.
Hypothesis Hr : str_at s a r.

Let args : list addr := argv s ++ w ++ [a].
Let j : nat := length (argv s ++ w).

Lemma as_args : ok (fun b => x b - argv_refs w b) (with_argv args s).
Proof.
  eapply ok_ext; [|apply (with_argv_ok _ s args Hok)].
  - intros b. cbn. unfold args. rewrite !argv_refs_app. cbn. lia.
  - intros b [Hb|[Hb|Hb]%elem_of_app]%elem_of_app; [|by apply Hws|].
    + pose proof (refs_arg s b Hb). destruct (ok_live _ _ Hok b) as [o Ho]; [left; lia|].
      exists o. split; [done|]. by apply (ok_args _ _ Hok b).
    + apply list_elem_of_singleton in Hb as ->. destruct Hr as (H1 & _ & H2). by exists r.
Qed.

Lemma last_arg : args !! j = Some a.
Proof. unfold args, j. rewrite app_assoc, lookup_app_r, Nat.sub_diag by lia. done. Qed.

Lemma encode_as_arg : sdsEncodedObject r = true ->
  exists a' s2, tryObjectEncoding a s = Ret (a', with_argv (argv s) s2) /\ argv s2 = argv s ++ w ++ [a'] /\
    ok (fun b => x b - argv_refs w b) s2 /\ abs s2 = abs (with_argv args s) /\
    curdb s2 = curdb s /\ cf s2 = cf s /\ dbs s2 = dbs s /\
    (forall b o, b ∈ argv s ++ w -> heap s !! b = Some o -> exists o', heap s2 !! b = Some o' /\ same_obj o o') /\
    exists r', str_at s2 a' r' /\ string_of r' = string_of r.
Proof.
  intros He. destruct Hr as (Ho & Hoo & Ht). destruct (obj_string r Hoo Ht) as (_ & [[_ Hp]|(Hf & _)]); [|congruence].
  destruct (encode_arg_spec _ (with_argv args s) j a (string_of r) r as_args) as (s2 & a' & E & Hok2 & Habs & Hre & Hs2);
    [intros b; specialize (Hw b); lia|exact last_arg|done..|]. exists a', s2.
  assert (E2 : rewith args (tryObjectEncoding a s) = tryObjectEncoding a (with_argv args s))
    by (symmetry; apply noargs_tryObjectEncoding).
  unfold encode_arg, arg in E. revert E. run. cbn [argv with_argv]. rewrite last_arg, <- E2.
  destruct (tryObjectEncoding a s) as [[a0 s0]|f] eqn:E0; cbn [rewith]; [|done].
  unfold set_arg. cbn [argv with_argv]. rewrite last_arg. intros [= <- <-].
  assert (Ha0 : argv s0 = argv s) by (eapply noargs_argv; [apply noargs_tryObjectEncoding|exact E0]).
  destruct Hre as (_ & Hc & Hcf & Hd & Hobj). cbn [with_argv heap argv curdb cf dbs] in *.
  split; [f_equal; f_equal; rewrite <- Ha0; by destruct s0|].
  split; [unfold args, j; rewrite app_assoc, insert_app_r_alt, Nat.sub_diag by lia; by rewrite <- app_assoc|].
  do 5 (split; [done|]). split; [|done].
  intros b o [i Hi]%list_elem_of_lookup Hb. apply (Hobj i b o); [|unfold args; by rewrite app_assoc, lookup_app_l by (by eapply lookup_lt_Some)|done].
  apply lookup_lt_Some in Hi. unfold j. lia.
Qed.

Lemma encode_held_list : exists a' s', tryObjectEncoding a s = Ret (a', s') /\
  ok (fun b => x b + tok a' b) s' /\ abs s' = abs s /\ kept s s' /\
  (forall b o, b ∈ w -> heap s !! b = Some o -> exists o', heap s' !! b = Some o' /\ same_obj o o') /\
  exists r', str_at s' a' r' /\ string_of r' = string_of r.
Proof.
  destruct (sdsEncodedObject r) eqn:He.
  2: { exists a, s. split; [|split; [done|split; [done|split; [done|split; [|by exists r]]]]].
       - destruct Hr as (Ho & _ & Ht). unfold tryObjectEncoding. run.
         by rewrite (obj_at _ _ _ Ho), bool_decide_true, He.
       - intros b o _ Hb. by exists o. }
  destruct (encode_as_arg He) as (a' & s2 & E & Ha2 & Hok2 & Habs & Hc & Hcf & Hd & Hobj & r' & Hr' & Hs').
  exists a', (with_argv (argv s) s2). split; [exact E|].
  assert (Harg : forall b o, b ∈ argv s -> heap s !! b = Some o -> exists o', heap s2 !! b = Some o' /\ same_obj o o').
  { intros b o Hb. apply Hobj. apply elem_of_app. by left. }
  split; [|split; [|split; [|split; [|by exists r']]]].
  - eapply ok_ext; [|apply (with_argv_ok _ s2 (argv s) Hok2)].
    + intros b. cbn. rewrite Ha2, !argv_refs_app. cbn. lia.
    + intros b Hb. pose proof (refs_arg s b Hb). destruct (ok_live _ _ Hok b) as [o Ho]; [left; lia|].
      destruct (Harg b o Hb Ho) as (o' & Ho' & (Et & _)). exists o'. split; [done|]. rewrite Et.
      by apply (ok_args _ _ Hok b).
  - unfold abs in *. cbn [with_argv heap argv curdb cf dbs lg] in *. injection Habs as H1 H2 H3 H4 H5.
    rewrite Ha2 in H2. unfold args in H2. rewrite !fmap_app in H2. apply app_inj_1 in H2 as [H2 _]; [|by rewrite !length_fmap].
    by rewrite H1, H2, H3, H4, H5.
  - split; [done|]. split; [done|]. split; [done|]. split; [cbn; by rewrite Hd|]. exact Harg.
  - intros b o Hb. apply Hobj. apply elem_of_app. by right.
Qed.
End Held.

(** A held string encoded; what else the code holds stays. *)
Lemma encode_held x s a r : ok (fun b => x b + tok a b) s -> held x -> str_at s a r ->
  exists a' s', tryObjectEncoding a s = Ret (a', s') /\ ok (fun b => x b + tok a' b) s' /\ abs s' = abs s /\ kept s s' /\
    (forall b o, 0 < x b -> heap s !! b = Some o -> type o = OBJ_STRING -> exists o', heap s' !! b = Some o' /\ same_obj o o') /\
    exists r', str_at s' a' r' /\ string_of r' = string_of r.
Proof.
  intros Hok Hx Hr. destruct (encode_held_list x s a r [] Hok) as (a' & s' & E & Hok' & Habs & Hk & _ & Hs); try done.
  { by intros b ?%elem_of_nil. }
  exists a', s'. do 4 (split; [done|]). split; [|done]. intros b o Hb Ho Ht.
  destruct (encode_held_list x s a r [b] Hok) as (a2 & s2 & E2 & _ & _ & _ & Hobj & _); try done.
  - intros c. cbn. unfold tok. destruct (decide (c = b)) as [->|]; [lia|]. specialize (Hx c). lia.
  - intros c ->%list_elem_of_singleton. by exists o.
  - rewrite E in E2. injection E2 as <- <-. apply Hobj; [|done]. by apply list_elem_of_singleton.
Qed.

(** ** Keys *)

(** A key put back in a database, with its expire time. *)
Definition arestore (d : Z) (k : key) (v : sval) (when : option Z) : AM unit :=
  _ ← astore d k v;
  match when with Some w => aset_expire d k (Some w) | None => mret tt end.

(** The key has expired for a server that is not a slave. *)
Definition dropped (c : conf) (now expiretime : Z) : bool :=
  negb (masterhost c) && negb (expiretime =? -1) && (expiretime <? now).

Definition when_of (expiretime : Z) : option Z := if negb (expiretime =? -1) then Some expiretime else None.

Lemma is_sds_same s s' a k : (forall o, heap s !! a = Some o -> type o = OBJ_STRING -> exists o', heap s' !! a = Some o' /\ same_obj o o') ->
  is_sds s a k -> is_sds s' a k.
Proof.
  intros H (o & Ho & Ht & He & Hp). destruct (H o Ho Ht) as (o' & Ho' & E1 & E2 & E3).
  exists o'. unfold sdsEncodedObject in *. by rewrite E1, E2, E3.
Qed.

Lemma absent_found x s d k db : ok x s -> db_exists s d -> adbs (abs s) !! Z.to_nat d = Some db -> adict db !! k = None ->
  found s d k None None.
Proof.
  intros Hok Hd Hdb Hk. destruct (db_at_exists s d Hd) as (db0 & Hd0). exists db0. split; [done|]. split; [|done].
  destruct Hd0 as [H1 H2]. cbn [abs adbs] in Hdb. rewrite list_lookup_fmap, H2 in Hdb. cbn in Hdb. injection Hdb as <-.
  destruct (dict db0 !! k) as [a|] eqn:E; [|done]. exfalso.
  destruct (abs_dict_is_Some x s d db0 k Hok (conj H1 H2)) as [_ H]. destruct H as [v Hv]; [by eexists|].
  cbn in Hk. congruence.
Qed.

(** The two references dropped. *)
Lemma drop_two x s ka a : ok (fun b => x b + tok ka b + tok a b) s -> held x ->
  exists s', (_ ← decrRefCount ka; decrRefCount a) s = Ret (tt, s') /\ ok x s' /\ abs s' = abs s /\ kept s s'.
Proof.
  intros Hok Hx. specialize (Hx ka) as Hk. specialize (Hx a) as Ha.
  destruct (ok_live _ _ Hok ka) as [o Ho]; [rewrite tok_eq; pose proof (tok_range a ka); lia|].
  destruct (decr_held _ s ka o Hok Ho) as (s1 & E1 & Hok1 & Ha1 & Hk1 & _);
    [rewrite tok_eq; pose proof (tok_range a ka); lia|].
  destruct (ok_live _ _ Hok1 a) as [o1 Ho1]; [rewrite tok_eq; lia|].
  destruct (decr_held _ s1 a o1 Hok1 Ho1) as (s2 & E2 & Hok2 & Ha2 & Hk2 & _); [rewrite tok_eq; lia|].
  exists s2. unfold mbind, M_bind. rewrite E1, E2. split; [done|]. split; [|split; [congruence|by etrans]].
  eapply ok_ext; [|exact Hok2]. intros b. cbn. lia.
Qed.

(** The key and its value go to the database. *)
Lemma add_key x s d ka k a r expiretime : ok (fun b => x b + tok ka b + tok a b) s -> held x -> is_sds s ka k ->
  found s d k None None -> heap s !! a = Some r ->
  exists s', (_ ← dbAdd d ka a; _ ← (if negb (expiretime =? -1) then setExpire d ka expiretime else mret tt);
      decrRefCount ka) s = Ret (tt, s') /\ ok x s' /\ kept s s' /\
    arestore d k (view r) (when_of expiretime) (abs s) = Ret (tt, abs s').
Proof.
  intros Hok Hx Hk Hf Hr. pose proof (dbAdd_sim _ s d ka k a r None Hok Hk Hf Hr) as H. unfold sim in H.
  destruct (dbAdd d ka a s) as [[[] s1]|f] eqn:E1.
  2: { exfalso. destruct Hf as (db & Hd & _). unfold astore, mbind, AM_bind in H. rewrite (aget_db_at _ _ _ Hd) in H. done. }
  destruct H as ([] & A1 & Hok1 & (Hk1 & db & r' & Hd1 & Hdk & Hr' & _) & Hh1).
  assert (Hok1' : ok (fun b => x b + tok ka b) s1) by (eapply ok_ext; [|exact Hok1]; intros b; cbn; lia).
  assert (Hs1 : is_sds s1 ka k) by (destruct Hk as (o & Ho & Ho2); exists o; by rewrite Hh1).
  assert (H2 : exists s2, (if negb (expiretime =? -1) then setExpire d ka expiretime else mret tt) s1 = Ret (tt, s2) /\
    ok (fun b => x b + tok ka b) s2 /\ kept s1 s2 /\
    match when_of expiretime with Some w => aset_expire d k (Some w) | None => mret tt end (abs s1) = Ret (tt, abs s2)).
  { unfold when_of. destruct (negb (expiretime =? -1)); [|by exists s1].
    pose proof (setExpire_sim _ s1 d ka k expiretime db a Hok1' Hs1 Hd1 Hdk) as H. unfold sim in H.
    destruct (setExpire d ka expiretime s1) as [[[] s2]|f] eqn:E2.
    2: { exfalso. unfold aset_expire, mbind, AM_bind in H. rewrite (aget_db_at _ _ _ Hd1) in H. done. }
    destruct H as ([] & A2 & Hok2 & Hk2 & _). by exists s2. }
  destruct H2 as (s2 & E2 & Hok2 & Hk2 & A2). specialize (Hx ka) as Hxk.
  destruct (ok_live _ _ Hok2 ka) as [o Ho]; [rewrite tok_eq; lia|].
  destruct (decr_held _ s2 ka o Hok2 Ho) as (s3 & E3 & Hok3 & A3 & Hk3 & _); [rewrite tok_eq; lia|].
  exists s3. unfold arestore, mbind, M_bind, AM_bind. rewrite E1, E2, E3, A1, A2. split; [done|].
  split; [eapply ok_ext; [|exact Hok3]; intros b; cbn; lia|]. split; [do 2 (etrans; [eassumption|]); done|].
  by rewrite A3.
Qed.

Lemma load_key_loads x s junk agg d now expiretime k v kbs vbs db : ok x s -> held x -> db_exists s d ->
  saveable k -> saveable v -> str_code k kbs -> str_code v vbs ->
  adbs (abs s) !! Z.to_nat d = Some db -> adict db !! k = None ->
  loads s (load_key junk agg d now RDB_TYPE_STRING expiretime) (kbs ++ vbs)
    (fun _ s' => ok x s' /\ kept s s' /\
       if dropped (cf s) now expiretime then abs s' = abs s
       else arestore d k (AStr v) (when_of expiretime) (abs s) = Ret (tt, abs s')).
Proof.
  intros Hok Hx Hd Hk Hv Hck Hcv Hdb Hn. unfold load_key.
  eapply loads_bind; [by apply (load_sds x s junk k)|]. intros ka s1 [[Hok1 Habs1 Hk1 Hg1 _] Hs1].
  unfold rdbLoadObject. cbn [Z.eqb RDB_TYPE_STRING].
  assert (Hx1 : held (fun b => x b + tok ka b)) by (intros b; pose proof (tok_range ka b); specialize (Hx b); lia).
  eapply (loads_then _ _ _ _ (fun a s3 => ok (fun b => x b + tok ka b + tok a b) s3 /\ abs s3 = abs s /\ kept s s3 /\
    is_sds s3 ka k /\ exists r, heap s3 !! a = Some r /\ view r = AStr v)).
  { eapply loads_then; [by apply (load_encoded _ s1 junk v vbs Hok1)|]. intros a s2 [Hok2 Habs2 Hk2 Hg2 (r & Hr & Hs)].
    destruct (encode_held _ s2 a r Hok2 Hx1 Hr) as (a' & s3 & E & Hok3 & Habs3 & Hk3 & Hkeep & (r' & Hr' & Hs')).
    eapply loads_m; [exact E|]. split; [done|]. split; [congruence|]. split; [do 2 (etrans; [eassumption|]); done|].
    split; [|exists r'; split; [by destruct Hr'|]].
    - apply (is_sds_same s2); [|apply (is_sds_same s1); [|done]].
      + intros o Ho Ht. apply Hkeep; [|done|done]. cbn. rewrite tok_eq. specialize (Hx ka). lia.
      + intros o Ho _. by apply Hg2.
    - destruct Hr' as (_ & Hor & Htr). destruct (obj_string r' Hor Htr) as [-> _]. congruence. }
  intros a s3 (Hok3 & Habs3 & Hk3 & Hs3 & r & Hr & Hview). pose proof Hk3 as (_ & _ & Hcf & _).
  eapply loads_step; [done|]. cbn. rewrite Hcf. fold (dropped (cf s) now expiretime).
  destruct (dropped (cf s) now expiretime).
  - destruct (drop_two x s3 ka a Hok3 Hx) as (s4 & E & Hok4 & Habs4 & Hk4). unfold mbind, M_bind in E.
    destruct (decrRefCount ka s3) as [[[] s3']|f] eqn:E1; [|done].
    eapply loads_step; [exact E1|]. eapply loads_m; [exact E|]. split; [done|]. split; [by etrans|congruence].
  - destruct (add_key x s3 d ka k a r expiretime Hok3 Hx Hs3) as (s4 & E & Hok4 & Hk4 & A4).
    { eapply absent_found; [exact Hok3|by eapply db_exists_kept| |exact Hn]. by rewrite Habs3. }
    { done. }
    unfold mbind, M_bind in E. destruct (dbAdd d ka a s3) as [[[] s31]|f] eqn:E1; [|done].
    eapply loads_step; [exact E1|]. 
    destruct ((if negb (expiretime =? -1) then setExpire d ka expiretime else mret tt) s31) as [[[] s32]|f] eqn:E2; [|done].
    eapply loads_step; [exact E2|]. eapply loads_m; [exact E|]. split; [done|]. split; [by etrans|].
    by rewrite <- Habs3, <- Hview.
Qed.
