(* ===== verification/RdbTheorems.v ===== *)
(** * RdbTheorems: a dump that is saved is loaded

    The bytes that saving a server writes, and what loading them does: the
    databases come back without the keys that have expired.  A device with
    no room for the dump makes the save fail. *)

From S2P Require Import Prelude Endian Util Lzf Crc Object Db TString ServerOk Sds Rdb.
From S2P Require Import Abstract ServerSim ValueSim Frame KeyspaceSim RdbCodec RdbLoad.

(** ** The format of the keys *)

(** The entries of a database as they are saved; [e] gives the expire
    times, -1 for none, [now] is the time of the save. *)
Section format.
Context (now : Z).

Definition gone (expiretime : Z) : bool := negb (expiretime =? -1) && (expiretime <? now).

Definition expire_bytes (w : Z) : list Z := if negb (w =? -1) then 252 :: le_bytes 8 w else [].

Inductive entries_code (e : key -> Z) : list (key * list Z) -> list Z -> Prop :=
  | ec_nil : entries_code e [] []
  | ec_gone k v l bs : gone (e k) = true -> entries_code e l bs -> entries_code e ((k, v) :: l) bs
  | ec_key k v l kbs vbs bs : gone (e k) = false -> in_s 64 (e k) -> saveable k -> saveable v ->
      str_code k kbs -> str_code v vbs -> entries_code e l bs ->
      entries_code e ((k, v) :: l) ((expire_bytes (e k) ++ 0 :: kbs ++ vbs) ++ bs).

(** A database has its entries, or is left out. *)
Inductive dbs_code : Z -> list (list (key * list Z) * (key -> Z)) -> list Z -> Prop :=
  | dc_nil j : dbs_code j [] []
  | dc_empty j e l bs : dbs_code (j + 1) l bs -> dbs_code j (([], e) :: l) bs
  | dc_db j es e l n1 n2 ebs bs : 0 <= j < 2 ^ 32 - 1 -> 0 <= n1 < 2 ^ 32 - 1 -> 0 <= n2 < 2 ^ 32 - 1 ->
      entries_code e es ebs -> dbs_code (j + 1) l bs ->
      dbs_code j ((es, e) :: l) (254 :: len_bytes j ++ 251 :: len_bytes n1 ++ len_bytes n2 ++ ebs ++ bs).
End format.

(** A field of the header. *)
Inductive aux_code : list Z -> Prop :=
  | ac_nil : aux_code []
  | ac_field k v kbs vbs bs : saveable k -> saveable v -> str_code k kbs -> str_code v vbs -> aux_code bs ->
      aux_code ((250 :: kbs ++ vbs) ++ bs).

(** ** Saving *)

Section save.
Context (rdb_compression rdb_checksum : bool) (htab : Z -> Z) (junk ctime used_memory : Z).
Context (dict_order : gmap key addr -> list (key * addr)) (save_aggregate : robj -> IO Z).
Hypothesis Hhtab : forall i, in_u 32 (htab i).
Hypothesis Hctime : 0 <= ctime < 2 ^ 63.
Hypothesis Hused : 0 <= used_memory < 2 ^ 63.
Hypothesis Horder : forall m, dict_order m ≡ₚ map_to_list m.

Lemma rdbSaveType_writes t : byte_ok t -> writes (rdbSaveType t) [t] 1.
Proof.
  intros Ht. unfold rdbSaveType. rewrite uwrap_id by exact Ht. apply (rdbWriteRaw_writes [t]); [by constructor|done].
Qed.

Lemma static_string_ok k : saveable k -> obj_ok (static_string k).
Proof. intros [_ H]. unfold obj_ok, ALLOC_MAX. cbn. lia. Qed.

Lemma rdbSaveKeyValuePair_writes now k o w : obj_ok o -> type o = OBJ_STRING -> saveable k -> saveable (string_of o) ->
  gone now w = false -> exists kbs vbs, str_code k kbs /\ str_code (string_of o) vbs /\
  writes (rdbSaveKeyValuePair rdb_compression htab junk save_aggregate (static_string k) o w now)
    (expire_bytes w ++ 0 :: kbs ++ vbs) 1.
Proof.
  intros Ho Ht Hk Hv Hg. unfold rdbSaveKeyValuePair. fold (gone now w). rewrite Hg.
  destruct (rdbSaveStringObject_writes rdb_compression htab junk Hhtab (static_string k)) as (kbs & n & Hkw & Hkc);
    [by apply static_string_ok|done|done|].
  destruct (rdbSaveStringObject_writes rdb_compression htab junk Hhtab o Ho Ht Hv) as (vbs & m & Hvw & Hvc).
  exists kbs, vbs. split; [done|]. split; [done|].
  assert (He : exists n, writes (if negb (w =? -1) then _ ← rdbSaveType RDB_OPCODE_EXPIRETIME_MS; rdbSaveMillisecondTime w else mret 0)
    (expire_bytes w) n).
  { unfold expire_bytes. destruct (negb (w =? -1)); [|eexists; apply (writes_ret 0)]. eexists.
    eapply (writes_bind _ _ [252]); [by apply rdbSaveType_writes|]. apply rdbWriteRaw_writes; [apply le_bytes_ok|by rewrite length_le_bytes]. }
  destruct He as (n0 & He). eapply writes_bind; [exact He|].
  apply (writes_bind _ _ [0] _ 1).
  { unfold rdbSaveObjectType. rewrite Ht. by apply rdbSaveType_writes. }
  eapply writes_bind; [exact Hkw|]. eapply writes_then; [unfold rdbSaveObject; rewrite Ht; exact Hvw|].
  apply (writes_ret 1).
Qed.

(** The expire times of a database, and its entries. *)
Definition times (db : redisDb) (k : key) : Z := default (-1) (expires db !! k).
Definition entries_of (h : gmap addr robj) (l : list (key * addr)) : list (key * list Z) :=
  (fun '(k, a) => (k, abs_arg h a)) <$> l.

(** An entry that the format can hold. *)
Definition entry_ok (h : gmap addr robj) (db : redisDb) (k : key) (a : addr) : Prop :=
  saveable k /\ (exists o, h !! a = Some o /\ obj_ok o /\ type o = OBJ_STRING /\ saveable (string_of o)) /\
  dict db !! k = Some a /\ in_s 64 (times db k).

Lemma expire_of_at db k a : dict db !! k = Some a -> expire_of db k = Ret (times db k).
Proof.
  intros Hk. unfold expire_of, times. destruct (expires db !! k); [|done]. by rewrite Hk.
Qed.

Lemma save_entries_writes h db now l : Forall (fun '(k, a) => entry_ok h db k a) l ->
  exists bs, writes (save_entries rdb_compression htab junk save_aggregate h db now l) bs tt /\
    entries_code now (times db) (entries_of h l) bs.
Proof.
  induction l as [|[k a] l IH]; intros H; [exists []; split; [apply (writes_ret tt)|constructor]|].
  apply Forall_cons in H as [(Hk & (o & Ho & Hoo & Ht & Hs) & Hd & Hw) Hl]. destruct (IH Hl) as (bs & Hbs & Hc).
  cbn [save_entries]. unfold entries_of. rewrite fmap_cons. fold (entries_of h l).
  rewrite (abs_arg_str _ _ _ Ho Hoo Ht).
  assert (Hread : forall A (f : robj -> Z -> IO A) b (x : A), writes (f o (times db k)) b x ->
    writes (o ← io_res (of_opt Undefined (h !! a)); expire ← io_res (expire_of db k); f o expire) b x).
  { intros A f b x Hf. eapply writes_after; [apply writes_res; by rewrite Ho|].
    eapply writes_after; [apply writes_res; by eapply expire_of_at|exact Hf]. }
  destruct (gone now (times db k)) eqn:Hg.
  - exists bs. split; [|by constructor]. apply Hread. eapply writes_after; [|exact Hbs].
    unfold rdbSaveKeyValuePair. fold (gone now (times db k)). rewrite Hg. apply (writes_ret 0).
  - destruct (rdbSaveKeyValuePair_writes now k o (times db k) Hoo Ht Hk Hs Hg) as (kbs & vbs & Hck & Hcv & Hkv).
    eexists. split; [|by apply ec_key]. apply Hread. eapply writes_bind; [exact Hkv|exact Hbs].
Qed.

(** A database that the format can hold. *)
Definition db_fits (h : gmap addr robj) (db : redisDb) : Prop :=
  (forall k a, dict db !! k = Some a -> entry_ok h db k a) /\ Z.of_nat (size (dict db)) < 2 ^ 32 - 1 /\ db_ok db.

Definition db_source (h : gmap addr robj) (db : redisDb) : list (key * list Z) * (key -> Z) :=
  (entries_of h (dict_order (dict db)), times db).

Lemma save_db_writes h now j db l lbs : db_fits h db -> 0 <= j < 2 ^ 32 - 1 -> dbs_code now (j + 1) l lbs ->
  exists bs, writes (save_db rdb_compression htab junk dict_order save_aggregate h now j db) bs tt /\
    dbs_code now j (db_source h db :: l) (bs ++ lbs).
Proof.
  intros (He & Hn & Hok) Hj Hl. unfold save_db, db_source. pose proof (Horder (dict db)) as Hp.
  destruct (Z.eqb_spec (Z.of_nat (size (dict db))) 0) as [Hz|Hz].
  { exists []. split; [apply (writes_ret tt)|]. assert (E : dict db = ∅) by (apply map_size_empty_inv; lia).
    rewrite E, map_to_list_empty in Hp. apply Permutation_sym, Permutation_nil in Hp. rewrite E, Hp. by constructor. }
  assert (Hall : Forall (fun '(k, a) => entry_ok h db k a) (dict_order (dict db))).
  { rewrite Hp. apply Forall_forall. intros [k a] Hka%elem_of_map_to_list. by apply He. }
  destruct (save_entries_writes h db now _ Hall) as (ebs & Hebs & Hc).
  assert (Hsub : (size (expires db) <= size (dict db))%nat).
  { rewrite <- !size_dom. by apply subseteq_size. }
  assert (Ht : forall n, Z.of_nat n < 2 ^ 32 - 1 -> trimmed (Z.of_nat n) = Z.of_nat n).
  { intros n H. unfold trimmed. destruct (Z.leb_spec (Z.of_nat n) (2 ^ 32 - 1)); [done|lia]. }
  rewrite !Ht, uwrap_id by (unfold in_u; lia). exists (254 :: len_bytes j ++ 251 :: len_bytes (Z.of_nat (size (dict db))) ++ len_bytes (Z.of_nat (size (expires db))) ++ ebs).
  split; [|cbn [app]; rewrite <- app_assoc; cbn [app]; rewrite <- !app_assoc; by apply dc_db; try lia].
  eapply (writes_bind _ _ [254]); [by apply rdbSaveType_writes|].
  eapply writes_bind; [apply rdbSaveLen_writes; unfold in_u; lia|].
  eapply (writes_bind _ _ [251]); [by apply rdbSaveType_writes|].
  eapply writes_bind; [apply rdbSaveLen_writes; unfold in_u; lia|].
  eapply writes_bind; [apply rdbSaveLen_writes; unfold in_u; lia|exact Hebs].
Qed.

Lemma save_dbs_writes h now l : forall j, Forall (db_fits h) l -> 0 <= j -> j + Z.of_nat (length l) < 2 ^ 32 - 1 ->
  exists bs, writes (save_dbs rdb_compression htab junk dict_order save_aggregate h now j l) bs tt /\
    dbs_code now j (db_source h <$> l) bs.
Proof.
  induction l as [|db l IH]; intros j Hl Hj Hn; [exists []; split; [apply (writes_ret tt)|constructor]|].
  apply Forall_cons in Hl as [Hd Hl]. cbn [length] in Hn. destruct (IH (j + 1) Hl) as (lbs & Hw & Hc); [lia|lia|].
  destruct (save_db_writes h now j db _ lbs Hd ltac:(lia) Hc) as (bs & Hb & Hbc).
  exists (bs ++ lbs). split; [|done]. cbn [save_dbs]. by eapply writes_bind.
Qed.

Lemma rdbSaveAuxField_writes k v : saveable k -> saveable v -> exists bs,
  writes (rdbSaveAuxField rdb_compression htab junk k v) bs 1 /\
  (forall rest, aux_code rest -> aux_code (bs ++ rest)).
Proof.
  intros Hk Hv. destruct (rdbSaveRawString_writes rdb_compression htab junk Hhtab k Hk) as (kbs & n & _ & Hkw & Hkc).
  destruct (rdbSaveRawString_writes rdb_compression htab junk Hhtab v Hv) as (vbs & m & _ & Hvw & Hvc).
  exists (250 :: kbs ++ vbs). split; [|intros rest Hr; by apply ac_field with k v].
  eapply (writes_bind _ _ [250]); [by apply rdbSaveType_writes|]. eapply writes_bind; [exact Hkw|].
  eapply writes_then; [exact Hvw|]. apply (writes_ret 1).
Qed.

Lemma decimal_digits v : 0 <= v < 2 ^ 63 -> saveable (decimal v) /\ ll2str 21 v = Ret (decimal v).
Proof.
  intros Hv. destruct (sign_magnitude v) as [Hn E]; [unfold in_s; lia|]. pose proof (length_ndec_le20 _ Hn) as Hl.
  assert (Ed : decimal v = ndec v) by (unfold decimal; destruct (Z.ltb_spec v 0); [lia|done]).
  assert (Hlen : (length (decimal v) <= 20)%nat).
  { rewrite E. destruct (Z.ltb_spec v 0); [lia|]. exact Hl. }
  split; [|apply ll2str_at; [unfold in_s; lia|lia]]. split; [|lia].
  rewrite Ed. destruct (ndec_spec v) as [_ Hd]; [lia|]. eapply Forall_impl; [exact Hd|]. cbn. intros c Hc%isdigit_iff.
  unfold byte_ok. lia.
Qed.

Lemma rdbSaveInfoAuxFields_writes : exists bs, writes (rdbSaveInfoAuxFields rdb_compression htab junk ctime used_memory) bs 1 /\ aux_code bs.
Proof.
  assert (Hstr : forall s, forallb (fun c => (0 <=? c) && (c <? 256)) (bytes_of_string s) &&
    (Z.of_nat (length (bytes_of_string s)) <? 100) = true -> saveable (bytes_of_string s)).
  { intros s [H1 H2%Z.ltb_lt]%andb_true_iff. split; [|lia]. apply Forall_forall. intros c Hc.
    rewrite forallb_forall in H1. specialize (H1 c (proj1 (list_elem_of_In _ _) Hc)). unfold byte_ok.
    apply andb_true_iff in H1 as [?%Z.leb_le ?%Z.ltb_lt]. lia. }
  assert (Hnum : forall k v, saveable k -> 0 <= v < 2 ^ 63 -> exists bs,
    writes (rdbSaveAuxFieldStrInt rdb_compression htab junk k v) bs 1 /\ (forall rest, aux_code rest -> aux_code (bs ++ rest))).
  { intros k v Hk Hv. destruct (decimal_digits v Hv) as [Hs E].
    destruct (rdbSaveAuxField_writes k (decimal v) Hk Hs) as (bs & Hb & Hc). exists bs. split; [|done].
    eapply writes_after; [by apply writes_res|exact Hb]. }
  destruct (rdbSaveAuxField_writes (bytes_of_string "redis-ver") (bytes_of_string "3.2.6")) as (b1 & W1 & C1); [by apply Hstr..|].
  destruct (Hnum (bytes_of_string "redis-bits") 64) as (b2 & W2 & C2); [by apply Hstr|lia|].
  destruct (Hnum (bytes_of_string "ctime") ctime) as (b3 & W3 & C3); [by apply Hstr|lia|].
  destruct (Hnum (bytes_of_string "used-mem") used_memory) as (b4 & W4 & C4); [by apply Hstr|lia|].
  exists (b1 ++ b2 ++ b3 ++ b4). split.
  - do 3 (eapply writes_bind; [eassumption|]). eapply writes_then; [eassumption|]. apply (writes_ret 1).
  - apply C1, C2, C3. rewrite <- (app_nil_r b4). apply C4. constructor.
Qed.

(** ** The file *)

Definition server_fits (s : server) : Prop :=
  Forall (db_fits (heap s)) (dbs s) /\ Z.of_nat (length (dbs s)) < 2 ^ 32 - 1.

Definition body (abytes dbytes : list Z) : list Z := bytes_of_string "REDIS0007" ++ abytes ++ dbytes ++ [255].

(** The stored checksum, 0 when it is off. *)
Definition stored_sum (bs : list Z) : Z := if rdb_checksum then fold_left crc64_byte bs 0 else 0.

(** A stream that has not been used. *)
Definition empty_rio (room : option Z) (chunk : Z) : rio := mk_rio [] 0 room 0 false 0 chunk.

Lemma rdbSaveRio_writes s : server_fits s -> exists abytes dbytes,
  aux_code abytes /\ dbs_code (mstime (cf s)) 0 (db_source (heap s) <$> dbs s) dbytes /\
  let bs := body abytes dbytes in
  let file := bs ++ le_bytes 8 (stored_sum bs) in
  bytes_ok bs /\
  forall room chunk, 0 <= chunk -> (match room with Some n => 0 <= n | None => True end) ->
    match rdbSaveRio rdb_compression rdb_checksum htab junk ctime used_memory dict_order save_aggregate s (empty_rio room chunk) with
    | Ret (Some tt, r) => io_ptr r = file /\ fits file (empty_rio room chunk)
    | Ret (None, _) => ~ fits file (empty_rio room chunk)
    | Fault _ => False
    end.
Proof.
  intros [Hdbs Hlen]. destruct rdbSaveInfoAuxFields_writes as (ab & Wa & Ca).
  destruct (save_dbs_writes (heap s) (mstime (cf s)) (dbs s) 0 Hdbs) as (db & Wd & Cd); [lia|lia|].
  exists ab, db. split; [done|]. split; [done|]. cbv zeta.
  set (m := (_ ← rdbWriteRaw (bytes_of_string "REDIS0007"); _ ← rdbSaveInfoAuxFields rdb_compression htab junk ctime used_memory;
    _ ← save_dbs rdb_compression htab junk dict_order save_aggregate (heap s) (mstime (cf s)) 0 (dbs s);
    rdbSaveType RDB_OPCODE_EOF) : IO Z).
  assert (Hm : writes m (body ab db) 1).
  { subst m. eapply writes_bind; [apply rdbWriteRaw_writes; [by repeat constructor|done]|]. eapply writes_bind; [exact Wa|].
    eapply writes_bind; [exact Wd|]. by apply rdbSaveType_writes. }
  split; [exact (writes_bytes _ _ _ Hm)|]. intros room chunk Hch Hroom.
  set (r1 := mk_rio [] 0 room 0 rdb_checksum 0 chunk).
  assert (E : rdbSaveRio rdb_compression rdb_checksum htab junk ctime used_memory dict_order save_aggregate s (empty_rio room chunk)
    = (_ ← m; c ← io_get cksum; rioWrite (le_bytes 8 c)) r1).
  { unfold rdbSaveRio, m, r1, empty_rio. clear m Hm r1 Wa Wd.
    generalize (rdbWriteRaw (bytes_of_string "REDIS0007")) as A.
    generalize (rdbSaveInfoAuxFields rdb_compression htab junk ctime used_memory) as B.
    generalize (save_dbs rdb_compression htab junk dict_order save_aggregate (heap s) (mstime (cf s)) 0 (dbs s)) as C.
    generalize (rdbSaveType RDB_OPCODE_EOF) as D. generalize (fun c => rioWrite (le_bytes 8 c)) as W. intros W D C B A.
    unfold mbind, IO_bind, set_update_cksum, mret, IO_ret. cbn.
    destruct rdb_checksum; cbn; (destruct (A _) as [[[] ?]|]; [|done|done]); (destruct (B _) as [[[] ?]|]; [|done|done]);
      by destruct (C _) as [[[] ?]|]. }
  rewrite E. clear E. assert (Hg : good r1) by done.
  assert (Hsum : sum (body ab db) r1 = stored_sum (body ab db)) by done.
  destruct Hm as [Hb Hw Hf]. unfold mbind, IO_bind. destruct (decide (fits (body ab db) r1)) as [F|F].
  2: { destruct (Hf r1 Hg F) as [r' ->]. intros F2. apply F.
       change (fits (body ab db ++ le_bytes 8 (stored_sum (body ab db))) r1) in F2. by apply fits_app in F2 as [? _]. }
  rewrite (Hw r1 Hg F). unfold io_get. cbn [wrote cksum]. rewrite Hsum.
  destruct (write_loop_writes 8 (le_bytes 8 (stored_sum (body ab db)))) as [_ K1 K2]; [by rewrite length_le_bytes|apply le_bytes_ok|].
  unfold rioWrite. rewrite length_le_bytes. pose proof (wrote_good _ _ Hg F) as Hg2.
  destruct (decide (fits (le_bytes 8 (stored_sum (body ab db))) (wrote (body ab db) r1))) as [F2|F2].
  - rewrite (K1 _ Hg2 F2). split; [done|]. change (fits (body ab db ++ le_bytes 8 (stored_sum (body ab db))) r1).
    by apply fits_app.
  - destruct (K2 _ Hg2 F2) as [r' ->]. intros F3. change (fits (body ab db ++ le_bytes 8 (stored_sum (body ab db))) r1) in F3.
    apply fits_app in F3 as [_ F3]; done.
Qed.
End save.

(** ** Loading *)

Definition aput (d : nat) (db : adb) (t : astate) : astate :=
  mk_astate (<[d := db]> (adbs t)) (aargs t) (acur t) (acf t) (alg t).

Definition restored (db : adb) (k : key) (v : sval) (w : option Z) : adb :=
  mk_adb (<[k := v]> (adict db)) (match w with Some w => <[k := w]> (aexpires db) | None => aexpires db end).

Lemma aput_put d db1 db2 t : aput d db2 (aput d db1 t) = aput d db2 t.
Proof. unfold aput. cbn. by rewrite list_insert_insert_eq. Qed.

Lemma aput_same d db t : adbs t !! d = Some db -> aput d db t = t.
Proof. intros H. unfold aput. rewrite list_insert_id by done. by destruct t. Qed.

Lemma aput_at d db db0 t : adbs t !! d = Some db0 -> adbs (aput d db t) !! d = Some db.
Proof. intros H. cbn. apply list_lookup_insert_eq. by eapply lookup_lt_Some. Qed.

Lemma arestore_at d k v w t db : 0 <= d -> adbs t !! Z.to_nat d = Some db ->
  arestore d k v w t = Ret (tt, aput (Z.to_nat d) (restored db k v w) t).
Proof.
  intros Hd H. unfold arestore, astore, aset_expire, aget_db, aset_db, mbind, AM_bind, mret, AM_ret.
  destruct (Z.ltb_spec d 0); [lia|]. rewrite H. destruct w as [w|]; [|done]. cbn [adbs].
  rewrite list_lookup_insert_eq by (by eapply lookup_lt_Some). cbn. by rewrite list_insert_insert_eq.
Qed.

Section restore.
Context (lost : key -> bool) (e : key -> Z).

(** The entries that are not lost put back one after the other. *)
Fixpoint restore_list (l : list (key * list Z)) (db : adb) : adb :=
  match l with
  | [] => db
  | (k, v) :: l => restore_list l (if lost k then db else restored db k (AStr v) (when_of (e k)))
  end.

Lemma restore_dict l : forall db k, NoDup l.*1 -> adict (restore_list l db) !! k =
  match (list_to_map l : gmap key (list Z)) !! k with
  | Some v => if lost k then adict db !! k else Some (AStr v)
  | None => adict db !! k
  end.
Proof.
  induction l as [|[k0 v0] l IH]; intros db k Hnd; [done|]. apply NoDup_cons in Hnd as [Hn Hnd].
  cbn [restore_list list_to_map]. rewrite IH by done. change (list_to_map ((k0, v0) :: l)) with (<[k0 := v0]> (list_to_map l : gmap key (list Z))).
  destruct (decide (k0 = k)) as [<-|Hne].
  - rewrite lookup_insert_eq. rewrite not_elem_of_list_to_map_1 by done. destruct (lost k0); [done|]. apply lookup_insert_eq.
  - rewrite lookup_insert_ne by done. assert (E : adict (if lost k0 then db else restored db k0 (AStr v0) (when_of (e k0))) !! k = adict db !! k).
    { destruct (lost k0); [done|]. cbn. by rewrite lookup_insert_ne. }
    by rewrite E.
Qed.

Lemma restore_expires l : forall db k, NoDup l.*1 -> aexpires (restore_list l db) !! k =
  match (list_to_map l : gmap key (list Z)) !! k with
  | Some v => if lost k then aexpires db !! k else match when_of (e k) with Some w => Some w | None => aexpires db !! k end
  | None => aexpires db !! k
  end.
Proof.
  induction l as [|[k0 v0] l IH]; intros db k Hnd; [done|]. apply NoDup_cons in Hnd as [Hn Hnd].
  cbn [restore_list list_to_map]. rewrite IH by done. change (list_to_map ((k0, v0) :: l)) with (<[k0 := v0]> (list_to_map l : gmap key (list Z))).
  destruct (decide (k0 = k)) as [<-|Hne].
  - rewrite lookup_insert_eq. rewrite not_elem_of_list_to_map_1 by done. destruct (lost k0); [done|]. cbn.
    destruct (when_of (e k0)); [apply lookup_insert_eq|done].
  - rewrite lookup_insert_ne by done. assert (E : aexpires (if lost k0 then db else restored db k0 (AStr v0) (when_of (e k0))) !! k = aexpires db !! k).
    { destruct (lost k0); [done|]. cbn. destruct (when_of (e k0)); [by rewrite lookup_insert_ne|done]. }
    by rewrite E.
Qed.
End restore.

Section load.
Context (load_checksum : bool) (interval junk : Z) (load_aggregate : Z -> LM addr) (x : addr -> Z).
Hypothesis Hx : held x.

Lemma rdbLoadType_reads b : byte_ok b -> reads rdbLoadType [b] b.
Proof. intros Hb. eapply reads_then; [by apply reads_byte|]. apply (reads_ret b). Qed.

Lemma rdbLoadMillisecondTime_reads w : in_s 64 w -> reads rdbLoadMillisecondTime (le_bytes 8 w) w.
Proof.
  intros Hw. eapply reads_then; [apply rioRead_reads; [by rewrite length_le_bytes|apply le_bytes_ok]|].
  pose proof (sign_back 8 w ltac:(lia) Hw) as E. change (8 * Z.of_nat 8) with 64 in E. rewrite E. apply (reads_ret w).
Qed.

Let turn := load_loop junk load_aggregate.

(** A turn on a key. *)
Lemma turn_key s fuel now d w kv rest P Q : in_s 64 w ->
  loads s (load_key junk load_aggregate d now RDB_TYPE_STRING w) kv P ->
  (forall s', P tt s' -> loads s' (turn fuel now d) rest Q) ->
  loads s (turn (S fuel) now d) ((expire_bytes w ++ 0 :: kv) ++ rest) Q.
Proof.
  intros Hw Hk K. subst turn. cbn [load_loop]. unfold expire_bytes.
  destruct (Z.eqb_spec w (-1)) as [->|Hne]; cbn [negb].
  - eapply (loads_read _ _ _ [0] (kv ++ rest)); [by apply rdbLoadType_reads|]. eapply loads_bind; [exact Hk|].
    intros [] s' HP. by apply K.
  - replace (((252 :: le_bytes 8 w) ++ 0 :: kv) ++ rest) with ([252] ++ le_bytes 8 w ++ [0] ++ kv ++ rest)
      by (cbn [app]; by rewrite <- app_assoc).
    eapply loads_read; [by apply rdbLoadType_reads|].
    eapply loads_read; [by apply rdbLoadMillisecondTime_reads|]. destruct (Z.eqb_spec w (-1)); [done|].
    eapply loads_read; [by apply rdbLoadType_reads|]. eapply loads_bind; [exact Hk|]. intros [] s' HP. by apply K.
Qed.

(** What is lost: expired at the save, or at the load on a master. *)
Definition lost_at (c : conf) (saved now w : Z) : bool := gone saved w || dropped c now w.

Lemma load_entries saved e l bs : entries_code saved e l bs -> forall s fuel now d db rest Q, ok x s -> db_exists s d ->
  NoDup l.*1 -> adbs (abs s) !! Z.to_nat d = Some db -> (forall k, k ∈ l.*1 -> adict db !! k = None) ->
  (length (bs ++ rest) < fuel)%nat ->
  (forall s' fuel', ok x s' -> kept s s' ->
     abs s' = aput (Z.to_nat d) (restore_list (fun k => lost_at (cf s) saved now (e k)) e l db) (abs s) ->
     (length rest < fuel')%nat -> loads s' (turn fuel' now d) rest Q) ->
  loads s (turn fuel now d) (bs ++ rest) Q.
Proof.
  induction 1 as [|k v l bs Hg Hc IH|k v l kbs vbs bs Hg Hw Hk Hv Hck Hcv Hc IH];
    intros s fuel now d db rest Q Hok Hd Hnd Hdb Hab Hfuel K.
  - apply K; [done|done|by rewrite aput_same|done].
  - apply NoDup_cons in Hnd as [Hn Hnd]. apply (IH s fuel now d db); try done.
    { intros k' Hk'. apply Hab. cbn. by apply elem_of_cons; right. }
    intros s' fuel' Hok' Hk' Habs' Hf. apply K; try done. rewrite Habs'. cbn [restore_list].
    assert (lost_at (cf s) saved now (e k) = true) as -> by (unfold lost_at; by rewrite Hg). done.
  - apply NoDup_cons in Hnd as [Hn Hnd]. destruct fuel as [|fuel]; [lia|].
    rewrite <- (app_assoc _ bs). eapply turn_key; [done| |].
    + apply (load_key_loads x s junk load_aggregate d now (e k) k v kbs vbs db); try done. apply Hab. cbn. by apply elem_of_cons; left.
    + intros s1 (Hok1 & Hk1 & Ha1). cbn beta in Ha1.
      set (db1 := if dropped (cf s) now (e k) then db else restored db k (AStr v) (when_of (e k))).
      assert (Habs1 : abs s1 = aput (Z.to_nat d) db1 (abs s)).
      { subst db1. destruct (dropped (cf s) now (e k)); [by rewrite aput_same|].
        rewrite (arestore_at d k (AStr v) _ _ db) in Ha1 by (done || by destruct Hd). congruence. }
      pose proof Hk1 as (_ & _ & Hcf1 & _).
      apply (IH s1 fuel now d db1 rest Q); try done.
      * by eapply db_exists_kept.
      * rewrite Habs1. by eapply aput_at.
      * intros k' Hk'. subst db1. destruct (dropped _ _ _); [apply Hab; cbn; by apply elem_of_cons; right|]. cbn.
        rewrite lookup_insert_ne by (intros ->; done). apply Hab. cbn. by apply elem_of_cons; right.
      * rewrite !length_app in *. cbn [length] in Hfuel. lia.
      * intros s' fuel' Hok' Hk' Habs' Hf. apply K; [done|by etrans| |done].
        rewrite Habs', Habs1, aput_put, Hcf1. cbn [restore_list].
        assert (lost_at (cf s) saved now (e k) = dropped (cf s) now (e k)) as -> by (unfold lost_at; by rewrite Hg). done.
Qed.

Definition with_adbs (l : list adb) (t : astate) : astate := mk_astate l (aargs t) (acur t) (acf t) (alg t).
Definition no_keys : adb := mk_adb ∅ ∅.

(** What a database becomes. *)
Definition loaded_db (c : conf) (saved now : Z) (src : list (key * list Z) * (key -> Z)) : adb :=
  restore_list (fun k => lost_at c saved now (src.2 k)) src.2 src.1 no_keys.

Lemma turn_select s fuel now d j n1 n2 rest Q : db_exists s j -> j < 2 ^ 32 - 1 ->
  0 <= n1 < 2 ^ 32 - 1 -> 0 <= n2 < 2 ^ 32 - 1 ->
  loads s (turn fuel now j) rest Q ->
  loads s (turn (S (S fuel)) now d) (254 :: len_bytes j ++ 251 :: len_bytes n1 ++ len_bytes n2 ++ rest) Q.
Proof.
  intros [Hj0 Hj1] Hj2 H1 H2 K. subst turn. cbn [load_loop].
  eapply (loads_read _ _ _ [254]); [by apply rdbLoadType_reads|]. cbn [Z.eqb Pos.eqb].
  eapply loads_read; [apply load_len_reads; lia|]. eapply loads_step; [done|]. cbv beta.
  destruct (Z.leb_spec (Z.of_nat (length (dbs s))) j); [lia|].
  eapply (loads_read _ _ _ [251]); [by apply rdbLoadType_reads|]. cbn [Z.eqb Pos.eqb].
  eapply loads_read; [apply load_len_reads; lia|]. eapply loads_read; [apply load_len_reads; lia|]. exact K.
Qed.

Lemma load_dbs saved j srcs bs : dbs_code saved j srcs bs -> forall s fuel now d pre rest Q, ok x s ->
  adbs (abs s) = pre ++ replicate (length srcs) no_keys -> j = Z.of_nat (length pre) ->
  Forall (fun src : list (key * list Z) * (key -> Z) => NoDup src.1.*1) srcs -> (length (bs ++ rest) < fuel)%nat ->
  (forall s' fuel' d', ok x s' -> kept s s' ->
     abs s' = with_adbs (pre ++ (loaded_db (cf s) saved now <$> srcs)) (abs s) -> (length rest < fuel')%nat ->
     loads s' (turn fuel' now d') rest Q) ->
  loads s (turn fuel now d) (bs ++ rest) Q.
Proof.
  induction 1 as [j|j e l bs Hc IH|j es e l n1 n2 ebs bs Hj H1 H2 He Hc IH]; intros s fuel now d pre rest Q Hok Habs Hpre Hnd Hfuel K.
  - apply K; [done|done| |done]. cbn in *. rewrite <- Habs. unfold with_adbs, abs. done.
  - apply Forall_cons in Hnd as [_ Hnd]. apply (IH s fuel now d (pre ++ [no_keys])); try done.
    + by rewrite Habs, <- app_assoc.
    + rewrite length_app. cbn. lia.
    + intros s' fuel' d' Hok' Hk' Habs' Hf. apply (K s' fuel' d'); try done. rewrite Habs', <- app_assoc. done.
  - apply Forall_cons in Hnd as [Hne Hnd].
    assert (Hlen : length (dbs s) = (length pre + S (length l))%nat).
    { apply (f_equal length) in Habs. cbn in Habs. rewrite length_fmap, length_app in Habs. cbn in Habs.
      by rewrite length_replicate in Habs. }
    cbn [app]. rewrite <- app_assoc. cbn [app]. rewrite <- !app_assoc. cbn [length] in Hfuel.
    pose proof (len_bytes_pos j). destruct fuel as [|[|fuel]]; [lia|rewrite !length_app in Hfuel; cbn in Hfuel; lia|].
    apply turn_select; try done; [unfold db_exists; lia|lia|].
    assert (Hdb : adbs (abs s) !! Z.to_nat j = Some no_keys).
    { rewrite Habs, Hpre, Nat2Z.id, lookup_app_r, Nat.sub_diag by lia. done. }
    eapply (load_entries saved e es ebs He s fuel now j no_keys); try done.
    + unfold db_exists. lia.
    + repeat first [rewrite length_app in Hfuel | progress cbn [length app] in Hfuel]. rewrite !length_app. lia.
    + intros s1 fuel1 Hok1 Hk1 Habs1 Hf1. pose proof Hk1 as (_ & _ & Hcf1 & _).
      apply (IH s1 fuel1 now j (pre ++ [loaded_db (cf s) saved now (es, e)])); try done.
      * rewrite Habs1. cbn [aput adbs]. rewrite Habs, Hpre, Nat2Z.id, insert_app_r_alt, Nat.sub_diag by lia.
        by rewrite <- app_assoc.
      * rewrite length_app. cbn. lia.
      * intros s' fuel' d' Hok' Hk' Habs' Hf. apply (K s' fuel' d'); [done|by etrans| |done].
        rewrite Habs', Habs1, Hcf1, <- app_assoc. done.
Qed.

Lemma skip_aux_loads s k v kbs vbs : ok x s -> saveable k -> saveable v -> str_code k kbs -> str_code v vbs ->
  loads s (skip_aux junk) (kbs ++ vbs) (fun _ s' => ok x s' /\ kept s s' /\ abs s' = abs s).
Proof.
  intros Hok Hk Hv Hck Hcv. unfold skip_aux. eapply loads_bind; [by apply (load_sds x s junk k)|].
  intros ka s1 [[Hok1 Habs1 Hk1 Hg1 _] Hs1].
  eapply loads_then; [by apply (load_sds _ s1 junk v vbs Hok1)|]. intros a s2 [[Hok2 Habs2 Hk2 Hg2 _] _].
  assert (Hs2 : is_sds s2 ka k) by (apply (is_sds_same s1); [intros o Ho _; by apply Hg2|done]).
  eapply loads_step; [by apply sds_of_at|].
  destruct (drop_two x s2 ka a Hok2 Hx) as (s3 & E & Hok3 & Habs3 & Hk3). unfold mbind, M_bind in E.
  destruct (decrRefCount ka s2) as [[[] s2']|f] eqn:E1; [|done]. eapply loads_step; [exact E1|].
  eapply loads_m; [exact E|]. split; [done|]. split; [|congruence]. do 2 (etrans; [eassumption|]). done.
Qed.

Lemma load_aux bs : aux_code bs -> forall s fuel now d rest Q, ok x s -> (length (bs ++ rest) < fuel)%nat ->
  (forall s' fuel', ok x s' -> kept s s' -> abs s' = abs s -> (length rest < fuel')%nat -> loads s' (turn fuel' now d) rest Q) ->
  loads s (turn fuel now d) (bs ++ rest) Q.
Proof.
  induction 1 as [|k v kbs vbs bs Hk Hv Hck Hcv Hc IH]; intros s fuel now d rest Q Hok Hfuel K; [by apply K|].
  destruct fuel as [|fuel]; [lia|]. subst turn. cbn [load_loop]. rewrite <- (app_assoc _ bs).
  eapply (loads_read _ _ _ [250] ((kbs ++ vbs) ++ bs ++ rest)); [by apply rdbLoadType_reads|]. cbn [Z.eqb Pos.eqb].
  eapply loads_bind; [by apply (skip_aux_loads s k v)|]. intros [] s1 (Hok1 & Hk1 & Habs1). apply IH; [done| |].
  - rewrite !length_app in *. cbn [length] in Hfuel. lia.
  - intros s' fuel' Hok' Hk' Habs' Hf. apply K; [done|by etrans|congruence|done].
Qed.
End load.

(** ** Loading a file *)

Section file.
Context (load_checksum : bool) (interval junk : Z) (load_aggregate : Z -> LM addr).
Hypothesis Hinterval : 0 <= interval.

Definition none_held : addr -> Z := fun _ => 0.

Lemma load_body saved srcs ab db s fuel now : aux_code ab -> dbs_code saved 0 srcs db ->
  Forall (fun src : list (key * list Z) * (key -> Z) => NoDup src.1.*1) srcs ->
  server_ok s -> adbs (abs s) = replicate (length srcs) no_keys -> (length (ab ++ db ++ [255%Z]) < fuel)%nat ->
  loads s (load_loop junk load_aggregate fuel now 0) (ab ++ db ++ [255])
    (fun _ s' => server_ok s' /\ kept s s' /\ abs s' = with_adbs (loaded_db (cf s) saved now <$> srcs) (abs s)).
Proof.
  intros Ha Hd Hnd Hok Habs Hfuel. assert (Hx : held none_held) by (intros b; done).
  eapply (load_aux junk load_aggregate none_held Hx ab Ha); [done|done|]. intros s1 f1 Hok1 Hk1 Ha1 Hf1.
  pose proof Hk1 as (_ & _ & Hcf1 & _).
  eapply (load_dbs junk load_aggregate none_held Hx saved 0 srcs db Hd s1 f1 now 0 []); try done.
  - by rewrite Ha1, Habs.
  - intros s2 f2 d2 Hok2 Hk2 Ha2 Hf2. destruct f2 as [|f2]; [cbn in Hf2; lia|]. cbn [load_loop].
    eapply loads_read_last; [by apply rdbLoadType_reads|]. cbn [Z.eqb Pos.eqb]. apply loads_ret.
    split; [done|]. split; [by etrans|]. by rewrite Ha2, Ha1, Hcf1.
Qed.

Lemma stored_sum_range b bs : bytes_ok bs -> in_u 64 (stored_sum b bs).
Proof.
  intros Hb. unfold stored_sum. destruct b; [|unfold in_u; lia]. apply (fold_ok (in_u 64)); [|unfold in_u; lia|done].
  intros c z. apply crc64_byte_ok.
Qed.

(** The checksum at the end of the file is accepted. *)
Lemma check_cksum_ok b bs r s rest : bytes_ok bs -> good r -> update_cksum r = load_checksum -> cksum r = 0 ->
  load_checksum = true -> ahead (past bs r) (le_bytes 8 (stored_sum b bs) ++ rest) ->
  exists r', check_cksum (past bs r) s = Ret ((Some tt, r'), s).
Proof.
  intros Hb Hg Hu Hc Hl Ha. unfold check_cksum, mbind, LM_bind, of_io, io_get.
  rewrite (rioRead_reads (le_bytes 8 (stored_sum b bs)) 8 ltac:(by rewrite length_le_bytes) ltac:(apply le_bytes_ok) (past bs r) rest)
    by done.
  rewrite le_value_bytes, uwrap_id by (by apply stored_sum_range). cbn [past cksum].
  destruct (Z.eqb_spec (stored_sum b bs) 0); [by eexists|].
  assert (E : sum bs r = stored_sum b bs); [|rewrite E, Z.eqb_refl; by eexists].
  unfold sum, stored_sum in *. rewrite Hu, Hl, Hc. by destruct b.
Qed.

Lemma rdbLoad_file b saved srcs ab db t : aux_code ab -> dbs_code saved 0 srcs db ->
  Forall (fun src : list (key * list Z) * (key -> Z) => NoDup src.1.*1) srcs -> bytes_ok (body ab db) ->
  server_ok t -> adbs (abs t) = replicate (length srcs) no_keys ->
  exists t', rdbLoad load_checksum interval junk load_aggregate (body ab db ++ le_bytes 8 (stored_sum b (body ab db))) t = Ret (true, t') /\
    server_ok t' /\
    abs t' = mk_astate (loaded_db (cf t) saved (mstime (cf t)) <$> srcs) (aargs (abs t)) (acur (abs t))
      (with_loading false (cf t)) (alg (abs t)).
Proof.
  intros Ha Hd Hnd Hb Hok Habs. set (file := body ab db ++ le_bytes 8 (stored_sum b (body ab db))).
  set (r0 := mk_rio file 0 None 0 load_checksum 0 interval). unfold rdbLoad. fold r0.
  set (hdr := bytes_of_string "REDIS0007"). set (tail := ab ++ db ++ [255]).
  assert (Hg : good r0) by done.
  assert (Hah : ahead r0 (hdr ++ tail ++ le_bytes 8 (stored_sum b (body ab db)))).
  { split; [done|]. cbn. subst file. unfold body, tail, hdr. by rewrite <- !app_assoc. }
  set (t1 := with_cf (with_loading true (cf t)) t).
  assert (Hok1 : server_ok t1) by (by apply ok_with_cf).
  destruct (load_body saved srcs ab db t1 (S (length file)) (mstime (cf t)) Ha Hd Hnd Hok1 Habs
    ltac:(subst file; unfold body; rewrite !length_app; cbn; lia) (past hdr r0) (le_bytes 8 (stored_sum b (body ab db))))
    as ([] & t2 & E2 & Hok2 & Hk2 & Habs2); [done|by apply past_ahead|]. fold tail in E2.
  assert (Hread : rioRead 9 r0 = Ret (Some hdr, past hdr r0)).
  { eapply rioRead_reads; [done|by repeat constructor|done|exact Hah]. }
  assert (Hpast : past tail (past hdr r0) = past (body ab db) r0) by (by rewrite <- past_app).
  rewrite Hpast in E2.
  assert (Hsum : exists r', (if (5 <=? 7) && load_checksum then check_cksum else mret tt) (past (body ab db) r0) t2 = Ret ((Some tt, r'), t2)).
  { destruct load_checksum eqn:El; [|by eexists]. eapply check_cksum_ok; try done. rewrite <- Hpast, app_nil_r.
    do 2 apply past_ahead. exact Hah. }
  destruct Hsum as [r' Hsum].
  assert (E : load_file load_checksum junk load_aggregate r0 t = Ret ((Some true, r'), with_cf (with_loading false (cf t2)) t2)).
  { unfold load_file, mbind, LM_bind, of_io at 1. rewrite Hread. rewrite bool_decide_false by (intros F; apply F; reflexivity).
    change (strtoll (drop 5 hdr)) with (7, @nil Z). cbv zeta. change ((fst (7, @nil Z) <? 1) || (7 <? fst (7, @nil Z))) with false. cbv iota beta.
    change (of_m (get (fun s => mstime (cf s))) (past hdr r0) t) with (Ret ((Some (mstime (cf t)), past hdr r0), t)).
    cbv iota beta. change (of_m (set_loading true) (past hdr r0) t) with (Ret ((Some tt, past hdr r0), t1)). cbv iota beta.
    change (of_io (io_get (fun r => length (io_ptr r))) (past hdr r0) t1) with (Ret ((Some (length file), past hdr r0), t1)).
    cbv iota beta. rewrite E2. cbn [fst]. rewrite Hsum. done. }
  rewrite E. eexists. split; [done|]. split; [by apply ok_with_cf|].
  destruct Hk2 as (_ & _ & Hcf2 & _). cbn [t1 cf with_cf] in Hcf2, Habs2.
  unfold abs in Habs2 |- *. cbn [with_cf heap dbs argv curdb cf lg] in *. injection Habs2 as H1 H2 H3 _ H5.
  rewrite H1, H2, H3, H5, Hcf2. done.
Qed.
End file.

(** ** Saving and loading *)

(** What the format can hold: strings of bytes shorter than 2^31 (their
    lengths go through results of type int; the commands that make strings
    stop at 512 MB), counts of keys and of databases below 2^32 - 1, the
    value that loading takes for an error, and expire times other than -1,
    which stands for none. *)
Definition db_dumpable (db : adb) : Prop :=
  Z.of_nat (size (adict db)) < 2 ^ 32 - 1 /\
  (forall k v, adict db !! k = Some v -> saveable k /\ exists str, v = AStr str /\ saveable str) /\
  (forall k w, aexpires db !! k = Some w -> in_s 64 w /\ w <> -1).

Definition dumpable (t : astate) : Prop :=
  Forall db_dumpable (adbs t) /\ Z.of_nat (length (adbs t)) < 2 ^ 32 - 1.

(** A key is there after the load: it had not expired when the dump was
    made and has not expired since, unless the server is a slave. *)
Definition survives (c : conf) (saved now : Z) (when : option Z) : bool :=
  match when with
  | Some w => negb (w <? saved) && (masterhost c || negb (w <? now))
  | None => true
  end.

Definition survivors (c : conf) (saved now : Z) (db : adb) : adb :=
  mk_adb (filter (fun kv : key * sval => survives c saved now (aexpires db !! kv.1) = true) (adict db))
    (filter (fun kv : key * Z => survives c saved now (Some kv.2) = true) (aexpires db)).

Lemma view_string o str : obj_ok o -> view o = AStr str -> type o = OBJ_STRING /\ string_of o = str.
Proof.
  destruct o as [ty en l rc p]. unfold obj_ok, view, string_of. cbn. intros H E.
  destruct ty, en, p; try done; by injection E.
Qed.

Section dump.
Context (dict_order : gmap key addr -> list (key * addr)).
Hypothesis Horder : forall m, dict_order m ≡ₚ map_to_list m.
Context (s : server) (Hok : server_ok s) (i : nat) (db : redisDb) (Hi : dbs s !! i = Some db).
Hypothesis Hdump : db_dumpable (abs_db (heap s) db).

Lemma dump_db_at : db_at s (Z.of_nat i) db.
Proof. split; [lia|]. by rewrite Nat2Z.id. Qed.

Lemma dump_string k a : dict db !! k = Some a -> saveable k /\ exists o, heap s !! a = Some o /\ obj_ok o /\
  type o = OBJ_STRING /\ saveable (string_of o) /\ adict (abs_db (heap s) db) !! k = Some (AStr (string_of o)).
Proof.
  intros Hk. destruct (dict_live _ s _ db k a Hok dump_db_at Hk) as (o & Ho & Hoo). 
  assert (E : adict (abs_db (heap s) db) !! k = Some (view o)).
  { cbn. rewrite (abs_dict_lookup _ s _ db k Hok dump_db_at), Hk, Ho. done. }
  destruct Hdump as (_ & Hd & _). destruct (Hd k _ E) as (Hsk & str & Ev & Hs). split; [done|].
  destruct (view_string o str) as [Ht Hstr]; [by eapply ok_obj|done|]. exists o. rewrite Hstr, E, Ev. 
  split; [done|]. split; [by eapply ok_obj|done].
Qed.

Lemma dump_fits : db_fits (heap s) db.
Proof.
  pose proof (db_at_ok _ _ _ _ Hok dump_db_at) as Hdb. destruct Hdump as (Hn & _ & Hw). split; [|split; [|done]].
  - intros k a Hk. destruct (dump_string k a Hk) as (Hs & o & Ho & Hoo & Ht & Hv & _). split; [done|].
    split; [by exists o|]. split; [done|]. unfold times. destruct (expires db !! k) as [w|] eqn:E; cbn.
    + by destruct (Hw k w E).
    + unfold in_s. lia.
  - cbn in Hn. by rewrite (abs_dict_size _ s _ db Hok dump_db_at) in Hn.
Qed.

Lemma dump_keys : NoDup (entries_of (heap s) (dict_order (dict db))).*1.
Proof.
  assert (E : (entries_of (heap s) (dict_order (dict db))).*1 = (dict_order (dict db)).*1).
  { unfold entries_of. rewrite <- list_fmap_compose. apply list_fmap_ext. by intros ? [? ?] _. }
  rewrite E, Horder. apply NoDup_fst_map_to_list.
Qed.

Lemma dump_lookup k : (list_to_map (entries_of (heap s) (dict_order (dict db))) : gmap key (list Z)) !! k =
  abs_arg (heap s) <$> dict db !! k.
Proof.
  assert (E : entries_of (heap s) (dict_order (dict db)) = prod_map id (abs_arg (heap s)) <$> dict_order (dict db)).
  { unfold entries_of. apply list_fmap_ext. by intros ? [? ?] _. }
  pose proof dump_keys as Hnd. rewrite E in Hnd |- *.
  rewrite (list_to_map_proper _ (prod_map id (abs_arg (heap s)) <$> map_to_list (dict db))) by (done || by rewrite Horder).
  by rewrite list_to_map_fmap, list_to_map_to_list, lookup_fmap.
Qed.

Lemma loaded_survivors c saved now : loaded_db c saved now (db_source dict_order (heap s) db) =
  survivors c saved now (abs_db (heap s) db).
Proof.
  pose proof dump_keys as Hnd. pose proof (db_at_ok _ _ _ _ Hok dump_db_at) as Hdb. destruct Hdump as (_ & _ & Hw).
  unfold loaded_db, db_source. cbn [fst snd].
  assert (Hlost : forall k, lost_at c saved now (times db k) = negb (survives c saved now (expires db !! k))).
  { intros k. unfold lost_at, gone, dropped, survives, times. destruct (expires db !! k) as [w|] eqn:E; cbn; [|by rewrite andb_false_r].
    destruct (Hw k w E) as [_ Hne]. destruct (Z.eqb_spec w (-1)); [done|]. cbn. rewrite andb_true_r.
    by destruct (w <? saved), (masterhost c), (w <? now). }
  assert (Hwhen : forall k, when_of (times db k) = expires db !! k).
  { intros k. unfold when_of, times. destruct (expires db !! k) as [w|] eqn:E; [|done]. cbn.
    destruct (Hw k w E) as [_ Hne]. by destruct (Z.eqb_spec w (-1)). }
  match goal with |- ?r = _ => transitivity (mk_adb (adict r) (aexpires r)); [by destruct r|] end.
  unfold survivors. f_equal; apply map_eq; intros k.
  - rewrite restore_dict, dump_lookup, map_lookup_filter by done. cbn [aexpires abs_db no_keys adict].
    rewrite Hlost. destruct (dict db !! k) as [a|] eqn:E; cbn [fmap option_fmap option_map].
    + destruct (dump_string k a E) as (_ & o & Ho & Hoo & Ht & _ & Ek). cbn in Ek. rewrite Ek, (abs_arg_str _ _ o) by done.
      cbn. destruct (survives c saved now (expires db !! k)) eqn:Es; cbn; [by rewrite option_guard_True by done|].
      by rewrite option_guard_False by done.
    + rewrite (abs_dict_lookup _ s _ db k Hok dump_db_at), E. done.
  - rewrite restore_expires, dump_lookup, map_lookup_filter by done. cbn [aexpires abs_db no_keys adict].
    rewrite Hlost, Hwhen. destruct (expires db !! k) as [w|] eqn:Ee.
    + assert (is_Some (dict db !! k)) as [a ->]. { apply elem_of_dom, Hdb, elem_of_dom. by eexists. }
      cbn [fmap option_fmap option_map]. cbn [mbind option_bind].
      destruct (survives c saved now (Some w)) eqn:Es; cbn [negb fst snd]; case_guard; cbn; rewrite ?lookup_empty; congruence.
    + cbn. destruct (dict db !! k); cbn; done.
Qed.
End dump.

Section roundtrip.
Context (rdb_compression rdb_checksum : bool) (htab : Z -> Z) (junk ctime used_memory : Z).
Context (dict_order : gmap key addr -> list (key * addr)) (save_aggregate : robj -> IO Z).
Context (load_checksum : bool) (interval junk' : Z) (load_aggregate : Z -> LM addr).

Lemma dumpable_fits s : server_ok s -> dumpable (abs s) -> server_fits s.
Proof.
  intros Hok [Hd Hn]. cbn in Hd, Hn. rewrite length_fmap in Hn. split; [|done]. apply Forall_lookup. intros i db Hi.
  apply dump_fits with i; try done. apply (Forall_lookup_1 _ _ _ _ Hd (list_lookup_fmap_Some_2 _ _ _ _ Hi)).
Qed.

(** C17: A dump of a server whose keys and values are strings of bytes
    shorter than 2^31, with fewer than 2^32 - 1 databases and keys in each,
    and with no expire time of -1, is loaded by a server with as many empty
    databases, whatever the configuration of the two (checksum on or off,
    compression, size of the chunks), into the databases that were saved
    without the keys that had expired at the save or, on a master, have
    expired at the load; all else in the loading server stays, and its
    reference counts are exact. *)
Theorem rdb_roundtrip s t : (forall i, in_u 32 (htab i)) -> 0 <= ctime < 2 ^ 63 -> 0 <= used_memory < 2 ^ 63 ->
  (forall m, dict_order m ≡ₚ map_to_list m) -> 0 <= interval ->
  server_ok s -> dumpable (abs s) -> server_ok t -> adbs (abs t) = replicate (length (dbs s)) no_keys ->
  exists r t',
    rdbSaveRio rdb_compression rdb_checksum htab junk ctime used_memory dict_order save_aggregate s (rioInitWithFile [])
      = Ret (Some tt, r) /\
    rdbLoad load_checksum interval junk' load_aggregate (io_ptr r) t = Ret (true, t') /\ server_ok t' /\
    abs t' = mk_astate (survivors (cf t) (mstime (cf s)) (mstime (cf t)) <$> adbs (abs s)) (aargs (abs t)) (acur (abs t))
      (with_loading false (cf t)) (alg (abs t)).
Proof.
  intros Hh Hc Hu Ho Hi Hs Hd Ht Habs.
  destruct (rdbSaveRio_writes rdb_compression rdb_checksum htab junk ctime used_memory dict_order save_aggregate Hh Hc Hu Ho s)
    as (ab & db & Ca & Cd & Hb & Hsave); [by apply dumpable_fits|].
  specialize (Hsave None 0 ltac:(lia) I). change (empty_rio None 0) with (rioInitWithFile []) in Hsave.
  destruct (rdbSaveRio _ _ _ _ _ _ _ _ _ _) as [[[[]|] r]|f]; [|exfalso; by apply Hsave|done]. destruct Hsave as [Hfile _].
  assert (Hall : forall i db0, dbs s !! i = Some db0 -> db_dumpable (abs_db (heap s) db0)).
  { intros i db0 H0. destruct Hd as [Hd _]. apply (Forall_lookup_1 _ _ _ _ Hd (list_lookup_fmap_Some_2 _ _ _ _ H0)). }
  destruct (rdbLoad_file load_checksum interval junk' load_aggregate Hi rdb_checksum (mstime (cf s)) _ ab db t Ca Cd) as (t' & E & Hok' & Ha').
  - apply Forall_lookup. intros i src H. rewrite list_lookup_fmap in H. destruct (dbs s !! i) as [db0|] eqn:E0; [|done].
    injection H as <-. apply dump_keys; done.
  - done.
  - done.
  - by rewrite length_fmap.
  - exists r, t'. split; [done|]. rewrite Hfile. split; [exact E|]. split; [done|]. rewrite Ha'. f_equal.
    cbn [abs adbs]. rewrite <- !list_fmap_compose. apply list_fmap_ext. intros i db0 H0. cbn.
    by apply loaded_survivors with i; [..|by apply Hall with i].
Qed.

(** C18: Saving such a server to a file on a device that takes [n] more
    bytes, where fwrite() reports that an item does not fit, ends in an error
    exactly when the dump, of 18 bytes at least, is longer; otherwise the
    whole dump is in the file. *)
Theorem rdb_save_full s : (forall i, in_u 32 (htab i)) -> 0 <= ctime < 2 ^ 63 -> 0 <= used_memory < 2 ^ 63 ->
  (forall m, dict_order m ≡ₚ map_to_list m) -> server_ok s -> dumpable (abs s) ->
  exists file, 18 <= Z.of_nat (length file) /\ forall n chunk, 0 <= n -> 0 <= chunk ->
    exists r, rdbSaveRio rdb_compression rdb_checksum htab junk ctime used_memory dict_order save_aggregate s (empty_rio (Some n) chunk)
      = Ret ((if Z.of_nat (length file) <=? n then Some tt else None), r) /\
    (Z.of_nat (length file) <= n -> io_ptr r = file).
Proof.
  intros Hh Hc Hu Ho Hs Hd.
  destruct (rdbSaveRio_writes rdb_compression rdb_checksum htab junk ctime used_memory dict_order save_aggregate Hh Hc Hu Ho s)
    as (ab & db & _ & _ & _ & Hsave); [by apply dumpable_fits|].
  exists (body ab db ++ le_bytes 8 (stored_sum rdb_checksum (body ab db))).
  split; [unfold body; rewrite !length_app, length_le_bytes; cbn; lia|]. intros n chunk Hn Hch. specialize (Hsave (Some n) chunk Hch Hn). unfold fits in Hsave. cbn [empty_rio io_room] in Hsave.
  destruct (rdbSaveRio _ _ _ _ _ _ _ _ _ _) as [[[[]|] r]|f]; [| |done]; exists r.
  - destruct Hsave as [Hf Hl]. destruct (Z.leb_spec (Z.of_nat (length (body ab db ++ le_bytes 8 (stored_sum rdb_checksum (body ab db))))) n); [|lia].
    split; [done|by intros].
  - destruct (Z.leb_spec (Z.of_nat (length (body ab db ++ le_bytes 8 (stored_sum rdb_checksum (body ab db))))) n); [lia|].
    split; [done|lia].
Qed.
End roundtrip.

(** ** Strings and files that cannot be saved or loaded *)

(** A string of 2^32 - 6 bytes, which is written with its length in five
    bytes: the sum is -1 as an int, and the save fails after it wrote all. *)
Theorem string_not_saved (htab : Z -> Z) (junk : Z) (s : list Z) r : bytes_ok s -> Z.of_nat (length s) = 2 ^ 32 - 6 -> good r -> io_room r = None ->
  rdbSaveStringObject false htab junk (static_string s) r = Ret (None, wrote (len_bytes (2 ^ 32 - 6) ++ s) r).
Proof.
  intros Hb Hl Hg Hr. assert (W : writes (save_verbatim s) (len_bytes (2 ^ 32 - 6) ++ s) (2 ^ 32 - 1)).
  { unfold save_verbatim. rewrite Hl, uwrap_id by (unfold in_u; lia). change (0 <? 2 ^ 32 - 6) with true. cbv iota.
    eapply writes_bind; [apply rdbSaveLen_writes; unfold in_u; lia|]. unfold rdbWriteRaw. rewrite Hl.
    eapply writes_then; [eapply writes_then; [by apply write_loop_writes|]; apply (writes_ret (-6))|]. apply (writes_ret (2 ^ 32 - 1)). }
  destruct W as [_ W _]. unfold rdbSaveStringObject, static_string. rewrite bool_decide_false by done. cbn [sdsEncodedObject encoding negb ptr].
  unfold rdbSaveRawString. rewrite Hl. change (2 ^ 32 - 6 <=? 11) with false. cbv iota. unfold mbind, IO_bind, mret, IO_ret. cbn [length andb].
  change (0 <? Z.of_nat 0) with false. cbv iota. change (0 =? -1) with false. change (0 <? 0) with false. cbv iota.
  rewrite W; [done|done|]. unfold fits. by rewrite Hr.
Qed.

(** A database of 2^32 - 1 keys or more has its size saved as the value
    that the loading function takes for an error, so that its dump is
    refused; and a compressed string of length zero, which no save writes,
    makes the decompressor read outside its input. *)
Theorem rdb_refused n r rest junk s : 2 ^ 32 - 1 <= n -> good r -> ahead r (len_bytes (trimmed n) ++ rest) ->
  writes (rdbSaveLen (trimmed n)) (len_bytes (trimmed n)) 5 /\ (exists r', load_len r = Ret (None, r')) /\
  rdbLoadStringObject junk (rioInitWithFile [195; 0; 5]) s = Fault OutOfBounds.
Proof.
  intros Hn Hg Ha. assert (E : trimmed n = 2 ^ 32 - 1).
  { unfold trimmed. destruct (Z.leb_spec n (2 ^ 32 - 1)); lia. }
  rewrite E in *. split; [apply (rdbSaveLen_writes (2 ^ 32 - 1)); unfold in_u; lia|]. split; [|reflexivity].
  unfold load_len, mbind, IO_bind. rewrite (rdbLoadLen_reads (2 ^ 32 - 1) ltac:(unfold in_u; lia) r rest) by done.
  by eexists.
Qed.

Lemma rdb_refused_witness : exists r', load_len (rioInitWithFile [128; 255; 255; 255; 255]) = Ret (None, r').
Proof.
  destruct (rdb_refused (2 ^ 32) (rioInitWithFile [128; 255; 255; 255; 255]) [] 0
    (mk_server ∅ 0 [] [] 0 (mk_conf 0 0 false false false 0 false false false false []
      (mk_gates false None false false false false false false)) (mk_log 0 0 0 0 [] [] [] [] []))) as (_ & H & _).
  - lia.
  - split; [cbn; lia|exact I].
  - split; [cbn; lia|reflexivity].
  - exact H.
Defined.
