(* ===== verification/Skiplist.v ===== *)
(** * Skiplist: the ordered index of sorted sets (t_zset.c)

    The nodes are blocks at addresses, each with an array of levels: on each
    level a pointer to the next node of at least that height and the span,
    the number of nodes that the pointer skips.  The loops that walk through
    the levels have one shape in the code and one definition here.  A member
    of the set is the string of its object (the references to objects are
    not counted here); a score is an IEEE 754 double, with the comparisons
    of the Standard Library's model of floating point numbers. *)

From Stdlib Require Export Floats.SpecFloat.
From stdpp Require Export gmap.
From S2P Require Import Prelude Object.
#[global] Open Scope Z_scope.

(** ** Data *)

Abbreviation double := spec_float.
Definition isnan (d : double) : bool := match d with S754_nan => true | _ => false end.

Record zskiplistLevel : Type := mk_zlevel { forward : option Z; span : Z }.

Record zskiplistNode : Type := mk_znode {
  z_obj : option (list Z);
  z_score : double;
  backward : option Z;
  levels : list zskiplistLevel
}.

Record zskiplist : Type := mk_zsl {
  header : Z;
  tail : option Z;
  zlength : Z;
  zlevel : Z
}.

(** The memory, the next address that is allocated, the list, and the hash
    table of the sorted set that the list belongs to. *)
Record zstate : Type := mk_zstate {
  znodes : gmap Z zskiplistNode;
  zbrk : Z;
  zsl : zskiplist;
  zdict : gmap (list Z) double
}.

Definition ZSKIPLIST_MAXLEVEL : nat := 32.

(** ** Memory accesses *)

Definition ZM (A : Type) : Type := zstate -> res (A * zstate).

#[export] Instance ZM_ret : MRet ZM := fun _ a s => Ret (a, s).
#[export] Instance ZM_bind : MBind ZM := fun _ _ k m s =>
  match m s with Ret (a, s) => k a s | Fault f => Fault f end.

Definition zfail {A} (f : fault) : ZM A := fun _ => Fault f.
Definition zget {A} (f : zstate -> A) : ZM A := fun s => Ret (f s, s).
Definition zres {A} (x : res A) : ZM A := fun s => match x with Ret a => Ret (a, s) | Fault f => Fault f end.

Definition node (a : Z) : ZM zskiplistNode := fun s =>
  match znodes s !! a with Some n => Ret (n, s) | None => Fault Undefined end.

Definition with_znodes (m : gmap Z zskiplistNode) (s : zstate) : zstate := mk_zstate m (zbrk s) (zsl s) (zdict s).
Definition with_zsl (z : zskiplist) (s : zstate) : zstate := mk_zstate (znodes s) (zbrk s) z (zdict s).

Definition set_node (a : Z) (n : zskiplistNode) : ZM unit := fun s =>
  match znodes s !! a with Some _ => Ret (tt, with_znodes (<[a := n]> (znodes s)) s) | None => Fault Undefined end.

(** [x->level[i]] *)
Definition level_of (a : Z) (i : nat) : ZM zskiplistLevel :=
  n ← node a; zres (of_opt OutOfBounds (levels n !! i)).

Definition set_level (a : Z) (i : nat) (l : zskiplistLevel) : ZM unit :=
  n ← node a;
  match levels n !! i with
  | Some _ => set_node a (mk_znode (z_obj n) (z_score n) (backward n) (<[i := l]> (levels n)))
  | None => zfail OutOfBounds
  end.

Definition set_backward (a : Z) (b : option Z) : ZM unit :=
  n ← node a; set_node a (mk_znode (z_obj n) (z_score n) b (levels n)).

Definition set_span (a : Z) (i : nat) (f : Z -> Z) : ZM unit :=
  l ← level_of a i; set_level a i (mk_zlevel (forward l) (f (span l))).

Definition set_tail (t : option Z) : ZM unit := fun s =>
  Ret (tt, with_zsl (mk_zsl (header (zsl s)) t (zlength (zsl s)) (zlevel (zsl s))) s).
Definition set_zlength (n : Z) : ZM unit := fun s =>
  Ret (tt, with_zsl (mk_zsl (header (zsl s)) (tail (zsl s)) n (zlevel (zsl s))) s).
Definition set_zlevel (n : Z) : ZM unit := fun s =>
  Ret (tt, with_zsl (mk_zsl (header (zsl s)) (tail (zsl s)) (zlength (zsl s)) n) s).

(** ** Creation *)

(** The levels of the node are not initialised; the caller fills them. *)
Definition zslCreateNode (level : nat) (score : double) (obj : option (list Z)) (junk : zskiplistLevel) (back : option Z) : ZM Z :=
  fun s => Ret (zbrk s, mk_zstate (<[zbrk s := mk_znode obj score back (replicate level junk)]> (znodes s)) (zbrk s + 1)
    (zsl s) (zdict s)).

Definition zslCreate (s : zstate) : zstate :=
  let h := mk_znode None (S754_zero false) None (replicate ZSKIPLIST_MAXLEVEL (mk_zlevel None 0)) in
  mk_zstate (<[zbrk s := h]> (znodes s)) (zbrk s + 1) (mk_zsl (zbrk s) None 0 1) (zdict s).

Definition zslFreeNode (a : Z) : ZM unit := fun s =>
  match znodes s !! a with
  | Some _ => Ret (tt, with_znodes (delete a (znodes s)) s)
  | None => Fault Undefined
  end.

(** The results of random() in turn; (random()&0xFFFF) < 0.25*0xFFFF. *)
Fixpoint random_level (random : list Z) (level : Z) : res Z :=
  match random with
  | [] => Fault OutOfFuel
  | r :: random => if Z.land r 65535 <? 16384 then random_level random (level + 1) else Ret level
  end.

Definition zslRandomLevel (random : list Z) : res Z :=
  level ← random_level random 1;
  Ret (if level <? Z.of_nat ZSKIPLIST_MAXLEVEL then level else Z.of_nat ZSKIPLIST_MAXLEVEL).

(** ** Comparisons *)

(** compareStringObjects and equalStringObjects on the strings. *)
Definition compare_strings (a b : list Z) : Z :=
  let cmp := memcmp_min a b in
  if cmp =? 0 then i32 (Z.of_nat (length a) - Z.of_nat (length b)) else cmp.

Definition obj_of (n : zskiplistNode) : res (list Z) := of_opt NullDeref (z_obj n).

(** [n->score < score || (n->score == score && compare(n->obj,obj) < 0)],
    or [<= 0]. *)
Definition before (strict : bool) (score : double) (obj : list Z) (n : zskiplistNode) : res bool :=
  if SFltb (z_score n) score then Ret true
  else if SFeqb (z_score n) score then
    o ← obj_of n;
    let c := compare_strings o obj in
    Ret (if strict then c <? 0 else c <=? 0)
  else Ret false.

(** ** Walking *)

Section walk.
  (** The width of the counter of skipped nodes, and the condition to go on
      to the next node, given the count up to it. *)
  Context (w : Z) (go : Z -> zskiplistNode -> res bool).

(** [while (x->level[i].forward && go) { rank += x->level[i].span; x = x->level[i].forward; }] *)
Fixpoint walk (fuel : nat) (i : nat) (x rank : Z) : ZM (Z * Z) :=
  l ← level_of x i;
  match forward l with
  | None => mret (x, rank)
  | Some y =>
      n ← node y;
      b ← zres (go (uwrap w (rank + span l)) n);
      if (b : bool) then
        match fuel with
        | O => zfail OutOfFuel
        | S fuel => walk fuel i y (uwrap w (rank + span l))
        end
      else mret (x, rank)
  end.

(** The levels from [i - 1] down to 0: the last node reached, and per level
    the node and the count (the arrays update and rank). *)
Fixpoint descend (fuel i : nat) (x rank : Z) : ZM (Z * list Z * list Z) :=
  match i with
  | O => mret (x, [], [])
  | S i =>
      '(x, rank) ← walk fuel i x rank;
      '(y, update, ranks) ← descend fuel i x rank;
      mret (y, update ++ [x], ranks ++ [rank])
  end.

(** The same with a test after each level that ends the search. *)
Fixpoint descend_until (stop : Z -> zskiplistNode -> res bool) (fuel i : nat) (x rank : Z) : ZM (option (Z * Z)) :=
  match i with
  | O => mret None
  | S i =>
      '(x, rank) ← walk fuel i x rank;
      n ← node x;
      b ← zres (stop rank n);
      if (b : bool) then mret (Some (x, rank)) else descend_until stop fuel i x rank
  end.
End walk.

(** The search from the header and the top level. *)
Definition search (w : Z) (go : Z -> zskiplistNode -> res bool) : ZM (Z * list Z * list Z) :=
  z ← zget zsl;
  fuel ← zget (fun s => S (Z.to_nat (zlength (zsl s))));
  descend w go fuel (Z.to_nat (zlevel z)) (header z) 0.

Definition next_of (x : Z) : ZM (option Z) := l ← level_of x 0; mret (forward l).

(** ** Insertion *)

(** [update[i] = header; rank[i] = 0; header->level[i].span = length] for the
    new levels. *)
Fixpoint raise_levels (n : nat) (i : nat) (h len : Z) : ZM unit :=
  match n with
  | O => mret tt
  | S n => _ ← set_span h i (fun _ => u32 len); raise_levels n (S i) h len
  end.

Fixpoint link_levels (n : nat) (i : nat) (x rank0 : Z) (update rank : list Z) : ZM unit :=
  match n with
  | O => mret tt
  | S n =>
      u ← zres (of_opt Undefined (update !! i));
      r ← zres (of_opt Undefined (rank !! i));
      l ← level_of u i;
      _ ← set_level x i (mk_zlevel (forward l) (u32 (span l - u32 (rank0 - r))));
      _ ← set_level u i (mk_zlevel (Some x) (u32 (u32 (rank0 - r) + 1)));
      link_levels n (S i) x rank0 update rank
  end.

Fixpoint bump_spans (n : nat) (i : nat) (update : list Z) : ZM unit :=
  match n with
  | O => mret tt
  | S n =>
      u ← zres (of_opt Undefined (update !! i));
      _ ← set_span u i (fun s => u32 (s + 1));
      bump_spans n (S i) update
  end.

(** [if (level > zsl->level) { ... }]: the arrays with the entries of the new
    levels. *)
Definition grow_levels (level : Z) (update rank : list Z) : ZM (list Z * list Z) :=
  z ← zget zsl;
  let n := (Z.to_nat level - Z.to_nat (zlevel z))%nat in
  if zlevel z <? level then
    _ ← raise_levels n (Z.to_nat (zlevel z)) (header z) (zlength z);
    _ ← set_zlevel level;
    mret (update ++ replicate n (header z), rank ++ replicate n 0)
  else mret (update, rank).

(** The new node [x] is linked, from the loop over its levels on. *)
Definition link_node (x : Z) (level : nat) (update rank : list Z) : ZM Z :=
  z ← zget zsl;
  rank0 ← zres (of_opt Undefined (rank !! 0%nat));
  _ ← link_levels level 0 x rank0 update rank;
  _ ← bump_spans (Z.to_nat (zlevel z) - level) level update;
  u0 ← zres (of_opt Undefined (update !! 0%nat));
  _ ← set_backward x (if u0 =? header z then None else Some u0);
  f ← next_of x;
  _ ← (match f with Some y => set_backward y (Some x) | None => set_tail (Some x) end);
  _ ← set_zlength (u64 (zlength z + 1));
  mret x.

Definition zslInsert (random : list Z) (junk : zskiplistLevel) (score : double) (obj : list Z) : ZM Z :=
  if isnan score then zfail AssertFailed
  else
    '(_, update, rank) ← search 32 (fun _ => before true score obj);
    level ← zres (zslRandomLevel random);
    '(update, rank) ← grow_levels level update rank;
    x ← zslCreateNode (Z.to_nat level) score (Some obj) junk None;
    link_node x (Z.to_nat level) update rank.

(** ** Deletion *)

Fixpoint unlink_levels (n : nat) (i : nat) (x : Z) (update : list Z) : ZM unit :=
  match n with
  | O => mret tt
  | S n =>
      u ← zres (of_opt Undefined (update !! i));
      l ← level_of u i;
      _ ← (if bool_decide (forward l = Some x) then
             lx ← level_of x i;
             set_level u i (mk_zlevel (forward lx) (u32 (span l + u32 (span lx - 1))))
           else set_level u i (mk_zlevel (forward l) (u32 (span l - 1))));
      unlink_levels n (S i) x update
  end.

(** [while(zsl->level > 1 && zsl->header->level[zsl->level-1].forward == NULL) zsl->level--] *)
Fixpoint lower_level (fuel : nat) : ZM unit :=
  z ← zget zsl;
  if 1 <? zlevel z then
    l ← level_of (header z) (Z.to_nat (zlevel z - 1));
    match forward l, fuel with
    | Some _, _ => mret tt
    | None, O => zfail OutOfFuel
    | None, S fuel => _ ← set_zlevel (zlevel z - 1); lower_level fuel
    end
  else mret tt.

Definition zslDeleteNode (x : Z) (update : list Z) : ZM unit :=
  z ← zget zsl;
  _ ← unlink_levels (Z.to_nat (zlevel z)) 0 x update;
  f ← next_of x;
  n ← node x;
  _ ← (match f with Some y => set_backward y (backward n) | None => set_tail (backward n) end);
  _ ← lower_level (Z.to_nat (zlevel z));
  set_zlength (u64 (zlength z - 1)).

Definition zslDelete (score : double) (obj : list Z) : ZM bool :=
  '(x, update, _) ← search 64 (fun _ => before true score obj);
  f ← next_of x;
  match f with
  | None => mret false
  | Some x =>
      n ← node x;
      same ← zres (if SFeqb score (z_score n) then o ← obj_of n; Ret (bool_decide (o = obj)) else Ret false);
      if (same : bool) then
        _ ← zslDeleteNode x update;
        _ ← zslFreeNode x;
        mret true
      else mret false
  end.

(** ** Ranges of scores *)

Record zrangespec : Type := mk_range { min : double; max : double; minex : bool; maxex : bool }.

Definition zslValueGteMin (value : double) (spec : zrangespec) : bool :=
  if minex spec then SFltb (min spec) value else SFleb (min spec) value.
Definition zslValueLteMax (value : double) (spec : zrangespec) : bool :=
  if maxex spec then SFltb value (max spec) else SFleb value (max spec).

Definition zslIsInRange (range : zrangespec) : ZM bool :=
  if SFltb (max range) (min range) || (SFeqb (min range) (max range) && (minex range || maxex range)) then mret false
  else
    z ← zget zsl;
    match tail z with
    | None => mret false
    | Some x =>
        n ← node x;
        if negb (zslValueGteMin (z_score n) range) then mret false
        else
          f ← next_of (header z);
          match f with
          | None => mret false
          | Some x => n ← node x; mret (zslValueLteMax (z_score n) range)
          end
    end.

Definition zslFirstInRange (range : zrangespec) : ZM (option Z) :=
  b ← zslIsInRange range;
  if negb (b : bool) then mret None
  else
    '(x, _, _) ← search 64 (fun _ n => Ret (negb (zslValueGteMin (z_score n) range)));
    f ← next_of x;
    match f with
    | None => zfail AssertFailed
    | Some x =>
        n ← node x;
        if negb (zslValueLteMax (z_score n) range) then mret None else mret (Some x)
    end.

Definition zslLastInRange (range : zrangespec) : ZM (option Z) :=
  b ← zslIsInRange range;
  if negb (b : bool) then mret None
  else
    '(x, _, _) ← search 64 (fun _ n => Ret (zslValueLteMax (z_score n) range));
    n ← node x;
    if negb (zslValueGteMin (z_score n) range) then mret None else mret (Some x).

(** ** Deletion of ranges *)

(** [while (x && in_range) { next; zslDeleteNode; dictDelete; zslFreeNode; removed++; traversed++ }] *)
Section delete_range.
  Context (in_range : Z -> zskiplistNode -> res bool).

Definition dict_delete_obj (o : list Z) : ZM unit := fun s =>
  Ret (tt, mk_zstate (znodes s) (zbrk s) (zsl s) (delete o (zdict s))).

Fixpoint delete_while (fuel : nat) (x : option Z) (update : list Z) (traversed removed : Z) : ZM Z :=
  match x with
  | None => mret removed
  | Some x =>
      n ← node x;
      b ← zres (in_range traversed n);
      if (b : bool) then
        match fuel with
        | O => zfail OutOfFuel
        | S fuel =>
            next ← next_of x;
            _ ← zslDeleteNode x update;
            o ← zres (obj_of n);
            _ ← dict_delete_obj o;
            _ ← zslFreeNode x;
            delete_while fuel next update (u64 (traversed + 1)) (u64 (removed + 1))
        end
      else mret removed
  end.

Definition delete_from (x : Z) (update : list Z) (traversed : Z) : ZM Z :=
  f ← next_of x;
  fuel ← zget (fun s => S (Z.to_nat (zlength (zsl s))));
  delete_while fuel f update traversed 0.
End delete_range.

Definition zslDeleteRangeByScore (range : zrangespec) : ZM Z :=
  '(x, update, _) ← search 64 (fun _ n =>
     Ret (if minex range then SFleb (z_score n) (min range) else SFltb (z_score n) (min range)));
  delete_from (fun _ n => Ret (if maxex range then SFltb (z_score n) (max range) else SFleb (z_score n) (max range))) x update 0.

(** [start] and [end_] are unsigned ints, from 1. *)
Definition zslDeleteRangeByRank (start end_ : Z) : ZM Z :=
  '(x, update, ranks) ← search 64 (fun traversed _ => Ret (traversed <? start));
  traversed ← zres (of_opt Undefined (ranks !! 0%nat));
  delete_from (fun traversed _ => Ret (traversed <=? end_)) x update (u64 (traversed + 1)).

(** ** Ranks *)

Definition zslGetRank (score : double) (o : list Z) : ZM Z :=
  z ← zget zsl;
  fuel ← zget (fun s => S (Z.to_nat (zlength (zsl s))));
  r ← descend_until 64 (fun _ => before false score o)
        (fun _ n => Ret (bool_decide (z_obj n = Some o))) fuel (Z.to_nat (zlevel z)) (header z) 0;
  mret (match r with Some (_, rank) => rank | None => 0 end).

Definition zslGetElementByRank (rank : Z) : ZM (option Z) :=
  z ← zget zsl;
  fuel ← zget (fun s => S (Z.to_nat (zlength (zsl s))));
  r ← descend_until 64 (fun traversed _ => Ret (traversed <=? rank))
        (fun traversed _ => Ret (traversed =? rank)) fuel (Z.to_nat (zlevel z)) (header z) 0;
  mret (match r with Some (x, _) => Some x | None => None end).

(** ** Ranges of strings *)

(** A bound is one of the shared objects minstring and maxstring, or an
    object of its own. *)
Inductive lexbound : Type :=
  | MinString
  | MaxString
  | LexString (s : list Z).

Record zlexrangespec : Type := mk_lexrange { lmin : lexbound; lmax : lexbound; lminex : bool; lmaxex : bool }.

(** [c[0]] and [c[1]] of the sds string; [None] is C_ERR. *)
Definition zslParseLexRangeItem (c : list Z) : option (lexbound * bool) :=
  let c0 := nth 0 c 0 in
  if c0 =? 43 then if negb (nth 1 c 0 =? 0) then None else Some (MaxString, false)
  else if c0 =? 45 then if negb (nth 1 c 0 =? 0) then None else Some (MinString, false)
  else if c0 =? 40 then Some (LexString (drop 1 c), true)
  else if c0 =? 91 then Some (LexString (drop 1 c), false)
  else None.

Definition zslParseLexRange (min max : robj) : res (option zlexrangespec) :=
  if bool_decide (encoding min = OBJ_ENCODING_INT) || bool_decide (encoding max = OBJ_ENCODING_INT) then Ret None
  else match ptr min, ptr max with
  | PSds cmin, PSds cmax =>
      Ret (match zslParseLexRangeItem cmin, zslParseLexRangeItem cmax with
           | Some (lo, loex), Some (hi, hiex) => Some (mk_lexrange lo hi loex hiex)
           | _, _ => None
           end)
  | _, _ => Fault Undefined
  end.

(** The contents of the objects. *)
Definition bound_string (b : lexbound) : list Z :=
  match b with
  | MinString => bytes_of_string "minstring"
  | MaxString => bytes_of_string "maxstring"
  | LexString s => s
  end.

Definition compareStringObjectsForLexRange (a b : lexbound) : Z :=
  match a, b with
  | MinString, MinString | MaxString, MaxString => 0
  | MinString, _ | _, MaxString => -1
  | MaxString, _ | _, MinString => 1
  | LexString x, LexString y => compare_strings x y
  end.

Definition zslLexValueGteMin (value : list Z) (spec : zlexrangespec) : bool :=
  let c := compareStringObjectsForLexRange (LexString value) (lmin spec) in
  if lminex spec then 0 <? c else 0 <=? c.
Definition zslLexValueLteMax (value : list Z) (spec : zlexrangespec) : bool :=
  let c := compareStringObjectsForLexRange (LexString value) (lmax spec) in
  if lmaxex spec then c <? 0 else c <=? 0.

Definition lex_gte (spec : zlexrangespec) (n : zskiplistNode) : res bool :=
  o ← obj_of n; Ret (zslLexValueGteMin o spec).
Definition lex_lte (spec : zlexrangespec) (n : zskiplistNode) : res bool :=
  o ← obj_of n; Ret (zslLexValueLteMax o spec).
Definition neg (x : res bool) : res bool := b ← x; Ret (negb b).

Definition zslIsInLexRange (range : zlexrangespec) : ZM bool :=
  if (1 <? compareStringObjectsForLexRange (lmin range) (lmax range)) ||
     ((compare_strings (bound_string (lmin range)) (bound_string (lmax range)) =? 0) && (lminex range || lmaxex range))
  then mret false
  else
    z ← zget zsl;
    match tail z with
    | None => mret false
    | Some x =>
        n ← node x;
        ge ← zres (lex_gte range n);
        if negb (ge : bool) then mret false
        else
          f ← next_of (header z);
          match f with
          | None => mret false
          | Some x => n ← node x; zres (lex_lte range n)
          end
    end.

Definition zslFirstInLexRange (range : zlexrangespec) : ZM (option Z) :=
  b ← zslIsInLexRange range;
  if negb (b : bool) then mret None
  else
    '(x, _, _) ← search 64 (fun _ n => neg (lex_gte range n));
    f ← next_of x;
    match f with
    | None => zfail AssertFailed
    | Some x =>
        n ← node x;
        le ← zres (lex_lte range n);
        if negb (le : bool) then mret None else mret (Some x)
    end.

Definition zslLastInLexRange (range : zlexrangespec) : ZM (option Z) :=
  b ← zslIsInLexRange range;
  if negb (b : bool) then mret None
  else
    '(x, _, _) ← search 64 (fun _ n => lex_lte range n);
    n ← node x;
    ge ← zres (lex_gte range n);
    if negb (ge : bool) then mret None else mret (Some x).

Definition zslDeleteRangeByLex (range : zlexrangespec) : ZM Z :=
  '(x, update, _) ← search 64 (fun _ n => neg (lex_gte range n));
  delete_from (fun _ n => lex_lte range n) x update 0.
