(* ===== verification/SkiplistProofs.v ===== *)
(** * SkiplistProofs: searching and inserting in a skip list

    The list that a skip list represents is the sequence of its nodes on the
    lowest level; on each level a pointer leads to the next node of more
    than that height, and its span is the distance.  Searching goes to the
    last node that satisfies the condition, with the last such node of each
    height on the way. *)

From S2P Require Import Prelude Object Skiplist.

(** ** Representation *)

Record zent : Type := mk_zent { e_addr : Z; e_score : double; e_obj : list Z; e_height : nat }.

(** The height at a position; the header is at position 0. *)
Definition hgt (es : list zent) (p : nat) : nat :=
  match p with
  | O => ZSKIPLIST_MAXLEVEL
  | S p => default 0%nat (e_height <$> es !! p)
  end.

Definition addr_at (h : Z) (es : list zent) (p : nat) : option Z :=
  match p with O => Some h | S p => e_addr <$> es !! p end.

(** The next position on level [i]. *)
Definition is_next (H : nat -> nat) (i p q : nat) : Prop :=
  (p < q)%nat /\ (i < H q)%nat /\ (forall r, p < r < q -> H r <= i)%nat.
Definition no_next (H : nat -> nat) (i p : nat) : Prop := forall r, (p < r -> H r <= i)%nat.

(** The last position up to [k] on level [i]. *)
Definition is_prev (H : nat -> nat) (i k q : nat) : Prop :=
  (q <= k)%nat /\ (i < H q)%nat /\ (forall r, q < r <= k -> H r <= i)%nat.

Definition lev (m : gmap Z zskiplistNode) (a : Z) (i : nat) : option zskiplistLevel :=
  m !! a ≫= fun n => levels n !! i.

(** All of a node but the contents of its levels. *)
Definition shape (m : gmap Z zskiplistNode) (a : Z) : option (option (list Z) * double * option Z * nat) :=
  (fun n => (z_obj n, z_score n, backward n, length (levels n))) <$> m !! a.

Definition back_at (es : list zent) (p : nat) : option Z :=
  match p with O => None | S p => e_addr <$> es !! p end.

(** The level of [p]: where it leads, and how far. *)
Definition good_level (h : Z) (es : list zent) (i p : nat) (l : zskiplistLevel) : Prop :=
  (exists q, is_next (hgt es) i p q /\ forward l = addr_at h es q /\ span l = Z.of_nat q - Z.of_nat p) \/
  (no_next (hgt es) i p /\ forward l = None /\ span l = Z.of_nat (length es) - Z.of_nat p).

Record rep (s : zstate) (es : list zent) : Prop := mk_rep {
  r_level : 1 <= zlevel (zsl s) <= Z.of_nat ZSKIPLIST_MAXLEVEL;
  r_length : zlength (zsl s) = Z.of_nat (length es);
  r_bound : Z.of_nat (length es) < 2 ^ 32 - 1;
  r_heights : forall p e, es !! p = Some e -> (1 <= e_height e)%nat /\ Z.of_nat (e_height e) <= zlevel (zsl s);
  r_distinct : forall p q a, addr_at (header (zsl s)) es p = Some a -> addr_at (header (zsl s)) es q = Some a -> p = q;
  r_fresh : forall a, is_Some (znodes s !! a) -> a < zbrk s;
  r_header : exists sc b, shape (znodes s) (header (zsl s)) = Some (None, sc, b, ZSKIPLIST_MAXLEVEL);
  r_nodes : forall p e, es !! p = Some e ->
    shape (znodes s) (e_addr e) = Some (Some (e_obj e), e_score e, back_at es p, e_height e);
  r_levels : forall p a i, addr_at (header (zsl s)) es p = Some a -> (i < hgt es p)%nat -> Z.of_nat i < zlevel (zsl s) ->
    exists l, lev (znodes s) a i = Some l /\ good_level (header (zsl s)) es i p l;
  r_top : forall i, zlevel (zsl s) <= Z.of_nat i < Z.of_nat ZSKIPLIST_MAXLEVEL ->
    exists sp, lev (znodes s) (header (zsl s)) i = Some (mk_zlevel None sp);
  r_tail : tail (zsl s) = e_addr <$> last es
}.

(** ** Accesses *)

Ltac zrun := unfold mbind, ZM_bind, mret, ZM_ret, zget, zres, zfail; cbv beta iota zeta.

Lemma lev_node m a i l : lev m a i = Some l -> exists n, m !! a = Some n /\ levels n !! i = Some l.
Proof. unfold lev. destruct (m !! a) as [n|]; [|done]. cbn. eauto. Qed.

Lemma level_of_at s a i l : lev (znodes s) a i = Some l -> level_of a i s = Ret (l, s).
Proof. intros (n & Hn & Hl)%lev_node. unfold level_of, node. zrun. by rewrite Hn, Hl. Qed.

Lemma next_of_at s a l : lev (znodes s) a 0 = Some l -> next_of a s = Ret (forward l, s).
Proof. intros H. unfold next_of. zrun. by rewrite (level_of_at _ _ _ _ H). Qed.

Lemma shape_node m a o sc b n : shape m a = Some (o, sc, b, n) ->
  exists nd, m !! a = Some nd /\ z_obj nd = o /\ z_score nd = sc /\ backward nd = b /\ length (levels nd) = n.
Proof. unfold shape. destruct (m !! a) as [nd|]; [|done]. cbn. intros [= <- <- <- <-]. by exists nd. Qed.

Lemma node_at s a nd : znodes s !! a = Some nd -> node a s = Ret (nd, s).
Proof. intros H. unfold node. by rewrite H. Qed.

Lemma addr_at_S h es p e : es !! p = Some e -> addr_at h es (S p) = Some (e_addr e).
Proof. intros H. cbn. by rewrite H. Qed.

Lemma addr_at_lt h es p : is_Some (addr_at h es p) <-> (p <= length es)%nat.
Proof.
  destruct p as [|p]; cbn; [split; [lia|by eexists]|]. rewrite fmap_is_Some, lookup_lt_is_Some. lia.
Qed.

Lemma hgt_out es p : (length es < p)%nat -> hgt es p = 0%nat.
Proof. destruct p as [|p]; [lia|]. intros H. cbn. rewrite lookup_ge_None_2 by lia. done. Qed.

Lemma hgt_in es i p : (i < hgt es p)%nat -> (p <= length es)%nat.
Proof. intros H. destruct (decide (p <= length es)%nat); [done|]. rewrite hgt_out in H; lia. Qed.

Lemma hgt_pos s es p : rep s es -> (p <= length es)%nat -> (1 <= hgt es p)%nat.
Proof.
  intros R Hp. destruct p as [|p]; cbn; [unfold ZSKIPLIST_MAXLEVEL; lia|].
  destruct (lookup_lt_is_Some_2 es p) as [e He]; [lia|]. rewrite He. cbn. by destruct (r_heights _ _ R p e He).
Qed.

Lemma is_prev_unique H i k q q' : is_prev H i k q -> is_prev H i k q' -> q = q'.
Proof.
  intros (A1 & A2 & A3) (B1 & B2 & B3). destruct (Nat.lt_trichotomy q q') as [L|[L|L]]; [|done|].
  - specialize (A3 q' ltac:(lia)). lia.
  - specialize (B3 q ltac:(lia)). lia.
Qed.

Lemma prev_zero s es k q : rep s es -> (k <= length es)%nat -> is_prev (hgt es) 0 k q -> q = k.
Proof.
  intros R Hk (A1 & A2 & A3). destruct (decide (q = k)) as [|Hn]; [done|]. specialize (A3 k ltac:(lia)).
  pose proof (hgt_pos s es k R Hk). lia.
Qed.

(** On the lowest level every position follows. *)
Lemma level0_next s es h p l : rep s es -> (p <= length es)%nat -> good_level h es 0 p l -> forward l = addr_at h es (S p).
Proof.
  intros R Hp [(q & (Q1 & Q2 & Q3) & -> & _)|(Hn & -> & _)].
  - f_equal. pose proof (hgt_in _ _ _ Q2). destruct (decide (q = S p)); [done|]. specialize (Q3 (S p) ltac:(lia)).
    pose proof (hgt_pos s es (S p) R ltac:(lia)). lia.
  - destruct (addr_at h es (S p)) as [a|] eqn:E; [|done]. exfalso.
    assert (S p <= length es)%nat by (apply (addr_at_lt h); by eexists). specialize (Hn (S p) ltac:(lia)).
    pose proof (hgt_pos s es (S p) R ltac:(lia)). lia.
Qed.

(** ** Searching *)

Section search.
Context (s : zstate) (es : list zent) (R : rep s es).
Context (w : Z) (go : Z -> zskiplistNode -> res bool) (k : nat).
Hypothesis Hw : 2 ^ 32 <= 2 ^ w.
Hypothesis Hk : (k <= length es)%nat.

(** The condition holds exactly up to position [k]. *)
Definition cuts : Prop := forall p e nd, es !! p = Some e -> z_obj nd = Some (e_obj e) -> z_score nd = e_score e ->
  go (Z.of_nat (S p)) nd = Ret (S p <=? k)%nat.
Hypothesis Hgo : cuts.

Let h := header (zsl s).

Lemma walk_spec i fuel : forall p a, (p <= k)%nat -> addr_at h es p = Some a -> (i < hgt es p)%nat -> Z.of_nat i < zlevel (zsl s) ->
  (k - p < fuel)%nat ->
  exists q b, walk w go fuel i a (Z.of_nat p) s = Ret ((b, Z.of_nat q), s) /\ is_prev (hgt es) i k q /\ addr_at h es q = Some b /\ (p <= q)%nat.
Proof.
  induction fuel as [|fuel IH]; intros p a Hp Ha Hi Hl Hf; [lia|].
  destruct (r_levels _ _ R p a i Ha Hi Hl) as (l & El & Hg). cbn [walk]. zrun. rewrite (level_of_at _ _ _ _ El).
  destruct Hg as [(q & (Hq1 & Hq2 & Hq3) & Ef & Es)|(Hn & Ef & _)].
  - pose proof (hgt_in _ _ _ Hq2) as Hq4. destruct q as [|q]; [lia|].
    destruct (lookup_lt_is_Some_2 es q) as [e He]; [lia|]. rewrite Ef. cbn [addr_at]. rewrite He. cbn.
    destruct (shape_node _ _ _ _ _ _ (r_nodes _ _ R q e He)) as (nd & Hnd & Ho & Hs & _). rewrite (node_at _ _ _ Hnd).
    pose proof (r_bound _ _ R).
    assert (Eu : uwrap w (Z.of_nat p + span l) = Z.of_nat (S q)) by (rewrite Es, uwrap_id by (unfold in_u; lia); lia).
    rewrite Eu, (Hgo q e nd He Ho Hs). destruct (Nat.leb_spec (S q) k) as [Hc|Hc].
    + destruct (IH (S q) (e_addr e)) as (q' & b & E & Hpr & Hb & Hle); [done|by apply addr_at_S|done|done|lia|].
      exists q', b. split; [exact E|]. split; [done|]. split; [done|lia].
    + exists p, a. split; [done|]. split; [|split; [done|lia]]. split; [done|]. split; [done|].
      intros r Hr. apply Hq3. lia.
  - rewrite Ef. exists p, a. split; [done|]. split; [|split; [done|lia]]. split; [done|]. split; [done|].
    intros r Hr. apply Hn. lia.
Qed.

(** The arrays update and rank. *)
Definition marks (i : nat) (us rs : list Z) : Prop :=
  length us = i /\ length rs = i /\
  forall j, (j < i)%nat -> exists q a, is_prev (hgt es) j k q /\ addr_at h es q = Some a /\ us !! j = Some a /\ rs !! j = Some (Z.of_nat q).

Lemma descend_spec i fuel : forall p a, (p <= k)%nat -> addr_at h es p = Some a -> (i <= hgt es p)%nat -> Z.of_nat i <= zlevel (zsl s) ->
  (k - p < fuel)%nat -> exists y us rs, descend w go fuel i a (Z.of_nat p) s = Ret ((y, us, rs), s) /\ marks i us rs /\
    (i <> 0%nat -> addr_at h es k = Some y).
Proof.
  induction i as [|i IH]; intros p a Hp Ha Hi Hl Hf.
  { exists a, [], []. split; [done|]. split; [|done]. split; [done|]. split; [done|lia]. }
  destruct (walk_spec i fuel p a Hp Ha) as (q & b & E & Hpr & Hb & Hle); [lia|lia|lia|].
  pose proof Hpr as (Hq1 & Hq2 & _).
  destruct (IH q b Hq1 Hb) as (y & us & rs & E2 & (L1 & L2 & Hm) & Hy); [lia|lia|lia|].
  exists y, (us ++ [b]), (rs ++ [Z.of_nat q]). cbn [descend]. zrun. rewrite E, E2. split; [done|]. split.
  - split; [rewrite length_app; cbn; lia|]. split; [rewrite length_app; cbn; lia|]. intros j Hj.
    destruct (decide (j < i)%nat) as [Hlt|Hge].
    + destruct (Hm j Hlt) as (q' & a' & H1 & H2 & H3 & H4). exists q', a'.
      rewrite !lookup_app_l by lia. done.
    + assert (j = i) as -> by lia. exists q, b. rewrite !lookup_app_r, L1, L2, Nat.sub_diag by lia. done.
  - intros _. destruct i as [|i]; [|by apply Hy]. cbn in E2. injection E2 as <- <- <-.
    by rewrite <- (prev_zero s es k q R Hk Hpr).
Qed.

Lemma search_spec : exists y us rs, search w go s = Ret ((y, us, rs), s) /\
  marks (Z.to_nat (zlevel (zsl s))) us rs /\ addr_at h es k = Some y.
Proof.
  pose proof (r_level _ _ R) as Hl. pose proof (r_length _ _ R) as Hn. unfold search. zrun.
  destruct (descend_spec (Z.to_nat (zlevel (zsl s))) (S (Z.to_nat (zlength (zsl s)))) 0 h) as (y & us & rs & E & Hm & Hy);
    [lia|done|cbn; lia|lia|lia|]. exists y, us, rs. split; [exact E|]. split; [done|]. apply Hy. lia.
Qed.

(** The search that stops at a node. *)
Lemma descend_until_spec stop (f : nat -> bool) i fuel : (forall q, (q < k)%nat -> f q = false) ->
  (forall q a nd, (q <= k)%nat -> addr_at h es q = Some a -> znodes s !! a = Some nd -> stop (Z.of_nat q) nd = Ret (f q)) ->
  forall p a, (p <= k)%nat -> addr_at h es p = Some a -> (i <= hgt es p)%nat -> (0 < i)%nat -> Z.of_nat i <= zlevel (zsl s) -> (k - p < fuel)%nat ->
  exists b, addr_at h es k = Some b /\
    descend_until w go stop fuel i a (Z.of_nat p) s = Ret (if f k then Some (b, Z.of_nat k) else None, s).
Proof.
  intros Hf Hstop. induction i as [|i IH]; intros p a Hp Ha Hi H0 Hl Hfu; [lia|].
  destruct (walk_spec i fuel p a Hp Ha) as (q & b & E & Hpr & Hb & Hle); [lia|lia|lia|].
  pose proof Hpr as (Hq1 & Hq2 & _). cbn [descend_until]. zrun. rewrite E.
  assert (Hnd : exists nd, znodes s !! b = Some nd).
  { destruct (r_levels _ _ R q b i Hb Hq2) as (l & (nd & Hnd & _)%lev_node & _); [lia|]. by exists nd. }
  destruct Hnd as [nd Hnd]. rewrite (node_at _ _ _ Hnd), (Hstop q b nd Hq1 Hb Hnd).
  destruct (decide (q = k)) as [->|Hqk].
  - exists b. split; [done|]. destruct (f k) eqn:Ef; [done|]. destruct i as [|i]; [done|].
    destruct (IH k b) as (b' & _ & E'); [done|done|lia|lia|lia|lia|]. rewrite E'. done.
  - rewrite Hf by lia. destruct i as [|i]; [by rewrite (prev_zero s es k q R Hk Hpr) in Hqk|].
    apply (IH q b); [done|done|lia|lia|lia|lia].
Qed.
End search.

(** ** Updates *)

(** Only the contents of levels differ. *)
Definition same_shape (s s' : zstate) : Prop :=
  zbrk s' = zbrk s /\ zsl s' = zsl s /\ zdict s' = zdict s /\ forall a, shape (znodes s') a = shape (znodes s) a.

#[export] Instance same_shape_preorder : PreOrder same_shape.
Proof.
  split; [by intros s|]. intros s1 s2 s3 (A1 & A2 & A3 & A4) (B1 & B2 & B3 & B4).
  split; [congruence|]. split; [congruence|]. split; [congruence|]. intros a. by rewrite B4.
Qed.

Lemma set_level_at s a i l l0 : lev (znodes s) a i = Some l0 -> exists s', set_level a i l s = Ret (tt, s') /\ same_shape s s' /\
  (forall b j, lev (znodes s') b j = if decide (b = a /\ j = i) then Some l else lev (znodes s) b j).
Proof.
  intros (n & Hn & Hl)%lev_node. unfold set_level, node, set_node. zrun. rewrite Hn, Hl, Hn.
  eexists. split; [done|]. split.
  - split; [done|]. split; [done|]. split; [done|]. intros b. unfold shape. cbn.
    destruct (decide (b = a)) as [->|Hb]; [|by rewrite lookup_insert_ne]. rewrite lookup_insert_eq, Hn. cbn.
    by rewrite length_insert.
  - intros b j. unfold lev. cbn. destruct (decide (b = a)) as [->|Hb].
    + rewrite lookup_insert_eq, Hn. cbn. destruct (decide (j = i)) as [->|Hj].
      * rewrite decide_True by done. rewrite list_lookup_insert_eq; [done|]. by eapply lookup_lt_Some.
      * rewrite decide_False by tauto. by rewrite list_lookup_insert_ne.
    + rewrite lookup_insert_ne by done. by rewrite decide_False by tauto.
Qed.

(** A step on level [i] and a loop over levels. *)
Definition on_level (i : nat) (f : Z -> option zskiplistLevel) (s s' : zstate) : Prop :=
  same_shape s s' /\ (forall a, lev (znodes s') a i = f a) /\
  (forall a j, j <> i -> lev (znodes s') a j = lev (znodes s) a j).

Section loop.
Context (loop : nat -> nat -> ZM unit) (step : nat -> ZM unit) (f : nat -> Z -> option zskiplistLevel) (s0 : zstate).
Hypothesis Hnil : forall i s, loop 0 i s = Ret (tt, s).
Hypothesis Hcons : forall n i s, loop (S n) i s = (_ ← step i; loop n (S i)) s.

Lemma loop_levels n : forall i s, same_shape s0 s -> (forall j a, (i <= j)%nat -> lev (znodes s) a j = lev (znodes s0) a j) ->
  (forall j s, (i <= j < i + n)%nat -> same_shape s0 s -> (forall a, lev (znodes s) a j = lev (znodes s0) a j) ->
     exists s', step j s = Ret (tt, s') /\ on_level j (f j) s s') ->
  exists s', loop n i s = Ret (tt, s') /\ same_shape s s' /\
    forall a j, lev (znodes s') a j = if decide (i <= j < i + n)%nat then f j a else lev (znodes s) a j.
Proof.
  induction n as [|n IH]; intros i s Hs Hl Hstep.
  { exists s. rewrite Hnil. split; [done|]. split; [done|]. intros a j. by rewrite decide_False by lia. }
  destruct (Hstep i s ltac:(lia) Hs ltac:(intros a; by apply Hl)) as (s1 & E1 & Hs1 & Hi & Hj).
  destruct (IH (S i) s1) as (s2 & E2 & Hs2 & Hl2).
  - by etrans.
  - intros j a Hja. rewrite Hj by lia. apply Hl. lia.
  - intros j s' Hjr. apply Hstep. lia.
  - exists s2. rewrite Hcons. zrun. rewrite E1, E2. split; [done|]. split; [by etrans|]. intros a j. rewrite Hl2.
    destruct (decide (S i <= j < S i + n)%nat); [by rewrite decide_True by lia|].
    destruct (decide (j = i)) as [->|Hne]; [by rewrite decide_True by lia|]. rewrite decide_False by lia. by apply Hj.
Qed.
End loop.

Lemma set_span_level s a i g l0 : lev (znodes s) a i = Some l0 -> exists s', set_span a i g s = Ret (tt, s') /\
  on_level i (fun b => if decide (b = a) then Some (mk_zlevel (forward l0) (g (span l0))) else lev (znodes s) b i) s s'.
Proof.
  intros H. unfold set_span. zrun. rewrite (level_of_at _ _ _ _ H).
  destruct (set_level_at s a i (mk_zlevel (forward l0) (g (span l0))) l0 H) as (s' & E & Hs & Hl).
  exists s'. split; [exact E|]. split; [done|]. split.
  - intros b. rewrite Hl. destruct (decide (b = a)); [by rewrite decide_True|by rewrite decide_False by tauto].
  - intros b j Hj. rewrite Hl. by rewrite decide_False by tauto.
Qed.

(** ** Raising the level *)

Definition with_level (n : Z) (s : zstate) : zstate :=
  with_zsl (mk_zsl (header (zsl s)) (tail (zsl s)) (zlength (zsl s)) n) s.

Lemma rep_above s es p i : rep s es -> zlevel (zsl s) <= Z.of_nat i -> (0 < p)%nat -> (hgt es p <= i)%nat.
Proof.
  intros R Hi Hp. destruct p as [|p]; [lia|]. cbn. destruct (es !! p) as [e|] eqn:E; cbn; [|lia].
  destruct (r_heights _ _ R p e E). lia.
Qed.

Lemma raise_rep s es n : rep s es -> zlevel (zsl s) <= n <= Z.of_nat ZSKIPLIST_MAXLEVEL ->
  exists s', raise_levels (Z.to_nat n - Z.to_nat (zlevel (zsl s))) (Z.to_nat (zlevel (zsl s))) (header (zsl s)) (zlength (zsl s)) s = Ret (tt, s') /\
    zbrk s' = zbrk s /\ zdict s' = zdict s /\ zsl s' = zsl s /\ rep (with_level n s') es.
Proof.
  intros R Hn. set (h := header (zsl s)). set (old := Z.to_nat (zlevel (zsl s))). pose proof (r_level _ _ R) as Hlv.
  pose proof (r_bound _ _ R) as Hb. pose proof (r_length _ _ R) as Hlen.
  destruct (loop_levels (fun n i => raise_levels n i h (zlength (zsl s))) (fun i => set_span h i (fun _ => u32 (zlength (zsl s))))
    (fun j a => if decide (a = h) then Some (mk_zlevel None (Z.of_nat (length es))) else lev (znodes s) a j) s
    ltac:(done) ltac:(done) (Z.to_nat n - old) old s ltac:(done) ltac:(done)) as (s' & E & (S1 & S2 & S3 & S4) & Hl).
  { intros j s1 Hj Hs1 Hl1. destruct (r_top _ _ R j) as [sp Hsp]; [lia|].
    destruct (set_span_level s1 h j (fun _ => u32 (zlength (zsl s))) (mk_zlevel None sp)) as (s2 & E2 & H2 & H3 & H4).
    { by rewrite Hl1. }
    exists s2. split; [exact E2|]. split; [done|]. split; [|done]. intros a. rewrite H3. cbn. rewrite Hl1, Hlen, uwrap_id; [done|].
    unfold in_u. lia. }
  exists s'. split; [exact E|]. do 3 (split; [done|]). subst h old. destruct R as [R1 R2 R3 R4 R5 R6 R7 R8 R9 R10 R11].
  split; cbn [zsl with_level with_zsl zlevel zlength header tail znodes zbrk]; rewrite ?S1, ?S2; try done.
  - lia.
  - intros p e He. destruct (R4 p e He). lia.
  - intros a [nd Ha]. apply R6. specialize (S4 a). unfold shape in S4. rewrite Ha in S4. destruct (znodes s !! a); [by eexists|done].
  - by rewrite S4.
  - intros p e He. rewrite S4. eauto.
  - intros p a i Ha Hi Hil. destruct (decide (Z.of_nat i < zlevel (zsl s))) as [Hlt|Hge].
    + rewrite Hl, decide_False by lia. by apply R9.
    + destruct p as [|p]; [|cbn in Ha, Hi; destruct (es !! p) as [e|] eqn:Ee; cbn in Hi; [destruct (R4 p e Ee); lia|lia]].
      injection Ha as <-. rewrite Hl, decide_True, decide_True by (done || lia). eexists. split; [done|]. right.
      split; [|split; [done|cbn; lia]]. intros r Hr. destruct r as [|r]; [lia|]. cbn.
      destruct (es !! r) as [e|] eqn:Ee; cbn; [destruct (R4 r e Ee); lia|lia].
  - intros i Hi. rewrite Hl, decide_False by lia. apply R10. lia.
Qed.

(** ** A new entry *)

Definition ins (k : nat) (e : zent) (es : list zent) : list zent := take k es ++ e :: drop k es.

Lemma ins_length k e es : length (ins k e es) = S (length es).
Proof. unfold ins. rewrite length_app, length_take. cbn. rewrite length_drop. lia. Qed.

Lemma ins_lookup k e es p : (k <= length es)%nat ->
  ins k e es !! p = if decide (p < k)%nat then es !! p else if decide (p = k) then Some e else es !! (p - 1)%nat.
Proof.
  intros Hk. unfold ins. assert (Hl : length (take k es) = k) by (rewrite length_take; lia).
  destruct (decide (p < k)%nat) as [H|H].
  - rewrite lookup_app_l by lia. by rewrite lookup_take_lt.
  - rewrite lookup_app_r, Hl by lia. destruct (decide (p = k)) as [->|Hn]; [by rewrite Nat.sub_diag|].
    destruct (p - k)%nat as [|q] eqn:E; [lia|]. change ((e :: drop k es) !! S q) with (drop k es !! q).
    rewrite lookup_drop. f_equal. lia.
Qed.

Lemma ins_addr h k e es p : (k <= length es)%nat -> addr_at h (ins k e es) p =
  if decide (p <= k)%nat then addr_at h es p else if decide (p = S k) then Some (e_addr e) else addr_at h es (p - 1).
Proof.
  intros Hk. destruct p as [|p]; [by rewrite decide_True by lia|]. cbn [addr_at]. rewrite ins_lookup by done.
  repeat destruct (decide _); try lia; try done. by replace (S p - 1)%nat with (S (p - 1)) by lia.
Qed.

Lemma ins_hgt k e es p : (k <= length es)%nat -> hgt (ins k e es) p =
  if decide (p <= k)%nat then hgt es p else if decide (p = S k) then e_height e else hgt es (p - 1).
Proof.
  intros Hk. destruct p as [|p]; [by rewrite decide_True by lia|]. cbn [hgt]. rewrite ins_lookup by done.
  repeat destruct (decide _); try lia; try done. by replace (S p - 1)%nat with (S (p - 1)) by lia.
Qed.

(** Levels after the insertion of an entry of height [L] after position
    [k], by the position of the node. *)
Section next.
Context (h : Z) (es : list zent) (k : nat) (e : zent) (Hk : (k <= length es)%nat).
Let es' := ins k e es.

Ltac at_pos := rewrite ins_hgt by exact Hk; repeat destruct (decide _); try lia.

Lemma next_shift i p l : (k < p)%nat -> good_level h es i p l -> good_level h es' i (S p) l.
Proof.
  intros Hp [(q & (Q1 & Q2 & Q3) & Ef & Es)|(Hn & Ef & Es)].
  - left. exists (S q). split; [|split].
    + split; [lia|]. split; [unfold es'; at_pos; by replace (S q - 1)%nat with q by lia|].
      intros r Hr. unfold es'. at_pos. apply Q3. lia.
    + unfold es'. rewrite ins_addr, decide_False, decide_False by lia. by replace (S q - 1)%nat with q by lia.
    + lia.
  - right. split; [intros r Hr; unfold es'; at_pos; apply Hn; lia|]. split; [done|]. unfold es'. rewrite ins_length. lia.
Qed.

Lemma next_before i p q l : (p < q <= k)%nat -> (i < hgt es q)%nat -> good_level h es i p l -> good_level h es' i p l.
Proof.
  intros Hq Hi [(q' & (Q1 & Q2 & Q3) & Ef & Es)|(Hn & _)]; [|specialize (Hn q ltac:(lia)); lia].
  assert (q' <= k)%nat. { destruct (decide (q' <= k)%nat); [done|]. specialize (Q3 q ltac:(lia)). lia. }
  left. exists q'. split; [|split; [unfold es'; by rewrite ins_addr, decide_True|done]].
  split; [done|]. split; [unfold es'; at_pos; done|]. intros r Hr. unfold es'. at_pos. by apply Q3.
Qed.

(** The last node before the new one, on a level that the new one has. *)
Lemma next_to_new i p : is_prev (hgt es) i k p -> (i < e_height e)%nat ->
  good_level h es' i p (mk_zlevel (Some (e_addr e)) (Z.of_nat (k - p) + 1)).
Proof.
  intros (P1 & P2 & P3) Hi. left. exists (S k). split; [|split].
  - split; [lia|]. split; [unfold es'; at_pos; done|]. intros r Hr. unfold es'. at_pos. apply P3. lia.
  - unfold es'. rewrite ins_addr, decide_False, decide_True by lia. done.
  - cbn. lia.
Qed.

Lemma next_of_prev i p l : is_prev (hgt es) i k p -> good_level h es i p l ->
  (exists q, (k < q)%nat /\ (i < hgt es q)%nat /\ (forall r, k < r < q -> hgt es r <= i)%nat /\
     forward l = addr_at h es q /\ span l = Z.of_nat q - Z.of_nat p) \/
  ((forall r, k < r -> hgt es r <= i)%nat /\ forward l = None /\ span l = Z.of_nat (length es) - Z.of_nat p).
Proof.
  intros (P1 & P2 & P3) [(q & (Q1 & Q2 & Q3) & Ef & Es)|(Hn & Ef & Es)]; [left|right].
  - exists q. assert (k < q)%nat. { destruct (decide (k < q)%nat); [done|]. specialize (P3 q ltac:(lia)). lia. }
    split; [done|]. split; [done|]. split; [|done]. intros r Hr. apply Q3. lia.
  - split; [|done]. intros r Hr. apply Hn. lia.
Qed.

Lemma next_of_new i p l : is_prev (hgt es) i k p -> good_level h es i p l ->
  good_level h es' i (S k) (mk_zlevel (forward l) (span l - Z.of_nat (k - p))).
Proof.
  intros Hp Hl. pose proof Hp as (P1 & _). destruct (next_of_prev i p l Hp Hl) as [(q & Q1 & Q2 & Q3 & Ef & Es)|(Hn & Ef & Es)].
  - left. exists (S q). split; [|split; [|cbn; lia]].
    + split; [lia|]. split; [unfold es'; at_pos; by replace (S q - 1)%nat with q by lia|].
      intros r Hr. unfold es'. at_pos. apply Q3. lia.
    + cbn [forward]. rewrite Ef. unfold es'. rewrite ins_addr, decide_False, decide_False by lia. by replace (S q - 1)%nat with q by lia.
  - right. split; [intros r Hr; unfold es'; at_pos; apply Hn; lia|]. split; [done|]. cbn. unfold es'. rewrite ins_length. lia.
Qed.

(** ... and on a level above the new one. *)
Lemma next_over_new i p l : is_prev (hgt es) i k p -> (e_height e <= i)%nat -> good_level h es i p l ->
  good_level h es' i p (mk_zlevel (forward l) (span l + 1)).
Proof.
  intros Hp Hi Hl. pose proof Hp as (P1 & _ & P3). destruct (next_of_prev i p l Hp Hl) as [(q & Q1 & Q2 & Q3 & Ef & Es)|(Hn & Ef & Es)].
  - left. exists (S q). split; [|split; [|cbn; lia]].
    + split; [lia|]. split; [unfold es'; at_pos; by replace (S q - 1)%nat with q by lia|].
      intros r Hr. unfold es'. at_pos; [apply P3; lia|apply Q3; lia].
    + cbn [forward]. rewrite Ef. unfold es'. rewrite ins_addr, decide_False, decide_False by lia. by replace (S q - 1)%nat with q by lia.
  - right. split; [|split; [done|cbn; unfold es'; rewrite ins_length; lia]].
    intros r Hr. unfold es'. at_pos; [apply P3; lia|apply Hn; lia].
Qed.
End next.

Lemma set_backward_at s a b o sc b0 n : shape (znodes s) a = Some (o, sc, b0, n) -> exists s', set_backward a b s = Ret (tt, s') /\
  zbrk s' = zbrk s /\ zsl s' = zsl s /\ zdict s' = zdict s /\ (forall c i, lev (znodes s') c i = lev (znodes s) c i) /\
  (forall c, shape (znodes s') c = if decide (c = a) then Some (o, sc, b, n) else shape (znodes s) c).
Proof.
  intros (nd & Hnd & <- & <- & _ & <-)%shape_node. unfold set_backward, node, set_node. zrun. rewrite Hnd, Hnd.
  eexists. split; [done|]. do 3 (split; [done|]). split.
  - intros c i. unfold lev. cbn. destruct (decide (c = a)) as [->|Hc]; [by rewrite lookup_insert_eq, Hnd|by rewrite lookup_insert_ne].
  - intros c. unfold shape. cbn. destruct (decide (c = a)) as [->|Hc]; [by rewrite lookup_insert_eq|by rewrite lookup_insert_ne].
Qed.

Lemma back_at_addr es p : back_at es p = match p with O => None | S _ => addr_at 0 es p end.
Proof. by destruct p. Qed.

(** ** Linking a new node *)

Section insert.
Context (s : zstate) (es : list zent) (k : nat) (us rs : list Z) (L : nat) (score : double) (obj : list Z) (junk : zskiplistLevel).
Hypothesis R : rep s es.
Hypothesis Hk : (k <= length es)%nat.
Hypothesis HL : (1 <= L)%nat /\ Z.of_nat L <= zlevel (zsl s).
Hypothesis Hn : Z.of_nat (S (length es)) < 2 ^ 32 - 1.
Hypothesis Hm : marks s es k (Z.to_nat (zlevel (zsl s))) us rs.

Let h := header (zsl s).
Let x := zbrk s.
Let lv := Z.to_nat (zlevel (zsl s)).
Let s1 := mk_zstate (<[x := mk_znode (Some obj) score None (replicate L junk)]> (znodes s)) (x + 1) (zsl s) (zdict s).

Lemma new_fresh : znodes s !! x = None.
Proof.
  destruct (znodes s !! x) as [n|] eqn:E; [|done]. pose proof (r_fresh _ _ R x ltac:(by eexists)). subst x. lia.
Qed.

Lemma new_other p a : addr_at h es p = Some a -> a <> x.
Proof.
  intros Ha ->. pose proof new_fresh as Hf. destruct p as [|p].
  - injection Ha as E. destruct (r_header _ _ R) as (sc & b & Hh). subst h. rewrite E in Hh. unfold shape in Hh. by rewrite Hf in Hh.
  - cbn in Ha. destruct (es !! p) as [e|] eqn:Ee; [|done]. injection Ha as E. pose proof (r_nodes _ _ R p e Ee) as Hs.
    rewrite E in Hs. unfold shape in Hs. by rewrite Hf in Hs.
Qed.

Lemma lev_s1 a i : a <> x -> lev (znodes s1) a i = lev (znodes s) a i.
Proof. intros H. unfold lev, s1. cbn. by rewrite lookup_insert_ne. Qed.

Lemma lev_new i : (i < L)%nat -> lev (znodes s1) x i = Some junk.
Proof. intros H. unfold lev, s1. cbn. rewrite lookup_insert_eq. cbn. by apply lookup_replicate_2. Qed.

(** The node before the new one on level [j], with its level there. *)
Lemma mark_at j : (j < lv)%nat -> exists q a l, is_prev (hgt es) j k q /\ addr_at h es q = Some a /\ us !! j = Some a /\
  rs !! j = Some (Z.of_nat q) /\ lev (znodes s) a j = Some l /\ good_level h es j q l /\ 0 <= span l < 2 ^ 32 - 1 /\
  Z.of_nat (k - q) <= span l.
Proof.
  intros Hj. destruct Hm as (_ & _ & H). destruct (H j Hj) as (q & a & Hq & Ha & Hu & Hr). pose proof Hq as (Q1 & Q2 & Q3).
  destruct (r_levels _ _ R q a j Ha Q2) as (l & El & Hg); [subst lv; lia|]. exists q, a, l. do 6 (split; [done|]).
  destruct (next_of_prev h es k Hk j q l Hq Hg) as [(q' & A1 & A2 & _ & _ & Es)|(_ & _ & Es)]; rewrite Es;
    [pose proof (hgt_in _ _ _ A2)|]; lia.
Qed.

Lemma mark_zero : exists a, addr_at h es k = Some a /\ us !! 0%nat = Some a /\ rs !! 0%nat = Some (Z.of_nat k).
Proof.
  destruct (mark_at 0) as (q & a & l & Hq & Ha & Hu & Hr & _); [subst lv; lia|].
  rewrite (prev_zero s es k q R Hk Hq) in *. by exists a.
Qed.

(** What the loops make of the levels. *)
Definition linked (j : nat) (a : Z) : option zskiplistLevel :=
  match us !! j, rs !! j with
  | Some u, Some r =>
      match lev (znodes s) u j with
      | Some l =>
          if decide (a = x) then Some (mk_zlevel (forward l) (span l - (Z.of_nat k - r)))
          else if decide (a = u) then Some (mk_zlevel (Some x) (Z.of_nat k - r + 1))
          else lev (znodes s) a j
      | None => None
      end
  | _, _ => None
  end.

Lemma link_spec : exists s2, link_levels L 0 x (Z.of_nat k) us rs s1 = Ret (tt, s2) /\ same_shape s1 s2 /\
  forall a j, lev (znodes s2) a j = if decide (j < L)%nat then linked j a else lev (znodes s1) a j.
Proof.
  destruct (loop_levels (fun n i => link_levels n i x (Z.of_nat k) us rs)
    (fun i => u ← zres (of_opt Undefined (us !! i)); r ← zres (of_opt Undefined (rs !! i)); l ← level_of u i;
       _ ← set_level x i (mk_zlevel (forward l) (u32 (span l - u32 (Z.of_nat k - r))));
       set_level u i (mk_zlevel (Some x) (u32 (u32 (Z.of_nat k - r) + 1)))) linked s1) with (n := L) (i := 0%nat) (s := s1)
    as (s2 & E & Hs & Hl); try done.
  - intros n i s'. cbn [link_levels]. zrun. destruct (of_opt Undefined (us !! i)); [|done].
    destruct (of_opt Undefined (rs !! i)); [|done]. destruct (level_of _ i s') as [[l s'']|]; [|done].
    destruct (set_level x i _ s'') as [[[] s3]|]; done.
  - intros j s' Hj Hs Hl. destruct (mark_at j) as (q & u & l & (Q1 & _) & Ha & Hu & Hr & El & _ & Hsp & Hle); [subst lv; lia|].
    pose proof (new_other q u Ha) as Hux. unfold linked. rewrite Hu, Hr, El. zrun. cbn [of_opt].
    rewrite (level_of_at s' u j l) by (rewrite Hl, lev_s1; done).
    assert (E1 : u32 (Z.of_nat k - Z.of_nat q) = Z.of_nat k - Z.of_nat q) by (apply uwrap_id; unfold in_u; lia).
    rewrite E1. rewrite !uwrap_id by (unfold in_u; lia).
    destruct (set_level_at s' x j (mk_zlevel (forward l) (span l - (Z.of_nat k - Z.of_nat q))) junk) as (s3 & E3 & S3 & L3).
    { rewrite Hl. apply lev_new. lia. }
    rewrite E3. destruct (set_level_at s3 u j (mk_zlevel (Some x) (Z.of_nat k - Z.of_nat q + 1)) l) as (s4 & E4 & S4 & L4).
    { rewrite L3, decide_False by tauto. by rewrite Hl, lev_s1. }
    exists s4. split; [exact E4|]. split; [by etrans|]. split.
    + intros a. rewrite L4, L3. destruct (decide (a = x)) as [->|Hax].
      * rewrite decide_False by (intros [? _]; congruence). by rewrite decide_True.
      * destruct (decide (a = u)) as [->|Hau]; [by rewrite decide_True|]. rewrite !decide_False by tauto.
        by rewrite Hl, lev_s1.
    + intros a j' Hj'. rewrite L4, L3. by rewrite !decide_False by tauto.
  - exists s2. split; [exact E|]. split; [done|]. intros a j. rewrite Hl. destruct (decide (0 <= j < 0 + L)%nat), (decide (j < L)%nat); done || lia.
Qed.

Definition bumped (j : nat) (a : Z) : option zskiplistLevel :=
  match us !! j with
  | Some u => if decide (a = u) then (fun l => mk_zlevel (forward l) (span l + 1)) <$> lev (znodes s1) u j else lev (znodes s1) a j
  | None => None
  end.

Lemma bump_spec s2 : same_shape s1 s2 ->
  (forall a j, lev (znodes s2) a j = if decide (j < L)%nat then linked j a else lev (znodes s1) a j) ->
  exists s3, bump_spans (lv - L) L us s2 = Ret (tt, s3) /\ same_shape s1 s3 /\
    forall a j, lev (znodes s3) a j = if decide (j < L)%nat then linked j a else if decide (j < lv)%nat then bumped j a else lev (znodes s1) a j.
Proof.
  intros Hs2 Hl2.
  destruct (loop_levels (fun n i => bump_spans n i us)
    (fun i => u ← zres (of_opt Undefined (us !! i)); set_span u i (fun s => u32 (s + 1))) bumped s2) with (n := (lv - L)%nat) (i := L) (s := s2)
    as (s3 & E & Hs & Hl); try done.
  - intros n i s'. cbn [bump_spans]. zrun. destruct (of_opt Undefined (us !! i)); [|done]. done.
  - intros j s' Hj Hs Hl. destruct (mark_at j) as (q & u & l & _ & Ha & Hu & Hr & El & _ & Hsp & Hle); [lia|].
    assert (Hlj : forall a, lev (znodes s') a j = lev (znodes s1) a j) by (intros a; rewrite Hl, Hl2, decide_False by lia; done).
    unfold bumped. rewrite Hu. zrun. cbn [of_opt]. pose proof (new_other q u Ha) as Hux.
    destruct (set_span_level s' u j (fun s => u32 (s + 1)) l) as (s4 & E4 & S4 & L4 & L5); [by rewrite Hlj, lev_s1|].
    exists s4. split; [exact E4|]. split; [done|]. split; [|done]. intros a. rewrite L4. destruct (decide (a = u)) as [->|]; [|done].
    rewrite lev_s1, El by done. cbn. rewrite uwrap_id by (unfold in_u; lia). done.
  - exists s3. split; [exact E|]. split; [by etrans|]. intros a j. rewrite Hl, Hl2.
    repeat destruct (decide _); done || lia.
Qed.

Lemma lv_eq : Z.of_nat lv = zlevel (zsl s).
Proof. pose proof (r_level _ _ R). subst lv. lia. Qed.

Let e := mk_zent x score obj L.
Let es' := ins k e es.

(** A state with the levels linked and the pointers backward set. *)
Record placed (s' : zstate) : Prop := mk_placed {
  p_brk : zbrk s' = x + 1;
  p_zsl : zsl s' = mk_zsl h (e_addr <$> last es') (zlength (zsl s) + 1) (zlevel (zsl s));
  p_lev : forall a j, lev (znodes s') a j = if decide (j < L)%nat then linked j a else if decide (j < lv)%nat then bumped j a else lev (znodes s1) a j;
  p_shape : forall a, shape (znodes s') a =
    if decide (a = x) then Some (Some obj, score, back_at es' k, L)
    else if decide (Some a = addr_at h es (S k)) then (fun '(o, sc, _, n) => (o, sc, Some x, n)) <$> shape (znodes s) a
    else shape (znodes s) a
}.

Lemma placed_nodes s' p e0 : placed s' -> es' !! p = Some e0 ->
  shape (znodes s') (e_addr e0) = Some (Some (e_obj e0), e_score e0, back_at es' p, e_height e0).
Proof.
  intros [_ _ _ Psh] Hp. rewrite Psh. unfold es' in Hp. rewrite ins_lookup in Hp by done.
  destruct (decide (p < k)%nat) as [H1|H1]; [|destruct (decide (p = k)) as [->|H2]].
  - rewrite decide_False by (apply (new_other (S p)); by apply addr_at_S).
    rewrite decide_False.
    2: { intros Ee. symmetry in Ee. pose proof (r_distinct _ _ R (S p) (S k) (e_addr e0) (addr_at_S _ _ _ _ Hp) Ee). lia. }
    rewrite (r_nodes _ _ R p e0 Hp). do 3 f_equal. destruct p as [|p]; [done|]. cbn. unfold es'.
    rewrite ins_lookup, decide_True by (done || lia). done.
  - injection Hp as <-. by rewrite decide_True.
  - rewrite decide_False by (apply (new_other (S (p - 1))); by apply addr_at_S).
    assert (Hb : back_at es' p = e_addr <$> es' !! (p - 1)%nat).
    { destruct p as [|p]; [lia|]. cbn. by replace (p - 0)%nat with p by lia. }
    rewrite Hb. unfold es'. rewrite ins_lookup by done. destruct (decide (p = S k)) as [->|Hpk].
    + replace (S k - 1)%nat with k in * by lia. rewrite decide_True by (cbn; by rewrite Hp).
      rewrite decide_False, decide_True by lia. rewrite (r_nodes _ _ R k e0 Hp). done.
    + rewrite decide_False.
      2: { intros Ee. symmetry in Ee.
           pose proof (r_distinct _ _ R (S (p - 1)) (S k) (e_addr e0) (addr_at_S _ _ _ _ Hp) Ee). lia. }
      rewrite (r_nodes _ _ R (p - 1) e0 Hp), decide_False, decide_False by lia. do 3 f_equal.
      destruct (p - 1)%nat as [|q] eqn:Eq; [lia|]. cbn. by replace (q - 0)%nat with q by lia.
Qed.

Lemma placed_levels s' p a i : placed s' -> addr_at h es' p = Some a -> (i < hgt es' p)%nat -> (i < lv)%nat ->
  exists l, lev (znodes s') a i = Some l /\ good_level h es' i p l.
Proof.
  intros [_ _ Pl _] Ha Hi Hlv. rewrite Pl. clear Pl. unfold es' in Ha, Hi. rewrite ins_addr in Ha by done. rewrite ins_hgt in Hi by done.
  destruct (mark_at i Hlv) as (q & u & l & Hq & Hu & Eu & Er & El & Hg & Hsp & Hle). pose proof Hq as (Q1 & Q2 & Q3).
  assert (Hlink : (i < L)%nat -> linked i a = if decide (a = x) then Some (mk_zlevel (forward l) (span l - Z.of_nat (k - q)))
    else if decide (a = u) then Some (mk_zlevel (Some x) (Z.of_nat (k - q) + 1)) else lev (znodes s) a i).
  { intros _. unfold linked. rewrite Eu, Er, El. by replace (Z.of_nat (k - q)) with (Z.of_nat k - Z.of_nat q) by lia. }
  assert (Hbump : a <> x -> bumped i a = if decide (a = u) then Some (mk_zlevel (forward l) (span l + 1)) else lev (znodes s) a i).
  { intros Hax. unfold bumped. rewrite Eu. destruct (decide (a = u)) as [->|]; rewrite lev_s1 by done; [|done]. by rewrite El. }
  destruct (decide (p <= k)%nat) as [Hpk|Hpk]; [|destruct (decide (p = S k)) as [->|Hps]].
  - assert (Hax : a <> x) by (by apply (new_other p)). destruct (decide (p = q)) as [->|Hpq].
    + assert (a = u) as -> by congruence. destruct (decide (i < L)%nat) as [HiL|HiL].
      * rewrite Hlink, decide_False, decide_True by done. eexists. split; [done|]. by apply (next_to_new h es k e Hk i q).
      * rewrite decide_True, Hbump, decide_True by done. eexists. split; [done|]. apply (next_over_new h es k e Hk i q); try done. cbn. lia.
    + assert (Hau : a <> u). { intros ->. by apply Hpq, (r_distinct _ _ R p q u). }
      assert (p < q)%nat. { destruct (decide (p < q)%nat); [done|]. specialize (Q3 p ltac:(lia)). lia. }
      destruct (r_levels _ _ R p a i Ha Hi) as (l' & El' & Hg'); [pose proof lv_eq; lia|]. exists l'.
      split; [|by apply (next_before h es k e Hk i p q)].
      destruct (decide (i < L)%nat); [by rewrite Hlink, !decide_False|]. by rewrite decide_True, Hbump, decide_False.
  - injection Ha as <-. cbn in Hi. rewrite decide_True, Hlink, decide_True by done. eexists. split; [done|].
    by apply (next_of_new h es k e Hk i q).
  - assert (Hax : a <> x) by (by apply (new_other (p - 1))).
    assert (Hau : a <> u). { intros ->. pose proof (r_distinct _ _ R (p - 1) q u Ha Hu). lia. }
    destruct (r_levels _ _ R (p - 1) a i Ha Hi) as (l' & El' & Hg'); [pose proof lv_eq; lia|]. exists l'. split.
    + destruct (decide (i < L)%nat); [by rewrite Hlink, !decide_False|]. by rewrite decide_True, Hbump, decide_False.
    + replace p with (S (p - 1)) by lia. apply (next_shift h es k e Hk); [lia|done].
Qed.

Lemma placed_rep s' : placed s' -> rep s' es'.
Proof.
  intros P. pose proof P as [Pb Pz Pl Psh]. pose proof (r_length _ _ R) as Hlen. split; rewrite ?Pz; cbn [zlevel zlength header tail].
  - exact (r_level _ _ R).
  - unfold es'. rewrite ins_length. lia.
  - unfold es'. rewrite ins_length. lia.
  - intros p e0. unfold es'. rewrite ins_lookup by done. destruct (decide (p < k)%nat); [by apply (r_heights _ _ R)|].
    destruct (decide (p = k)); [intros [= <-]; cbn; lia|]. by apply (r_heights _ _ R).
  - intros p q a. unfold es'. rewrite !ins_addr by done. intros H1 H2. pose proof (r_distinct _ _ R) as Hd.
    destruct (decide (p <= k)%nat), (decide (q <= k)%nat); [by apply (Hd p q a)|..];
      repeat destruct (decide (_ = S k)); subst; try done;
      try (injection H1 as <-); try (injection H2 as <-); try (exfalso; by eapply new_other);
      [pose proof (Hd p (q - 1)%nat a H1 H2)|pose proof (Hd (p - 1)%nat q a H1 H2)|pose proof (Hd (p - 1)%nat (q - 1)%nat a H1 H2)]; lia.
  - intros a [nd Ha]. rewrite Pb. specialize (Psh a). unfold shape at 1 in Psh. rewrite Ha in Psh.
    destruct (decide (a = x)) as [->|]; [lia|]. enough (a < x) by lia. apply (r_fresh _ _ R).
    destruct (znodes s !! a) as [nd'|] eqn:E; [by eexists|]. unfold shape in Psh. rewrite E in Psh.
    by destruct (decide _).
  - destruct (r_header _ _ R) as (sc & b & Hh). exists sc, b. rewrite Psh.
    rewrite decide_False by (by apply (new_other 0)). rewrite decide_False; [done|]. intros E. symmetry in E.
    pose proof (r_distinct _ _ R 0 (S k) (header (zsl s)) eq_refl E). lia.
  - intros p e0 Hp. by apply placed_nodes.
  - intros p a i Ha Hi Hil. apply placed_levels; try done. pose proof lv_eq. lia.
  - intros i Hi. rewrite Pl, decide_False, decide_False by (pose proof lv_eq; lia). rewrite lev_s1 by (by apply (new_other 0)).
    apply (r_top _ _ R). lia.
  - done.
Qed.

Lemma last_ins : e_addr <$> last es' = if decide (k = length es) then Some x else e_addr <$> last es.
Proof.
  rewrite !last_lookup. unfold es'. rewrite ins_length, ins_lookup by done. cbn [Nat.pred].
  destruct (decide (k = length es)) as [Ek|Ek].
  - rewrite decide_False, decide_True by lia. done.
  - rewrite decide_False, decide_False by lia. by replace (length es - 1)%nat with (pred (length es)) by lia.
Qed.

Lemma insert_tail : exists s', link_node x L us rs s1 = Ret (x, s') /\ placed s' /\ zdict s' = zdict s.
Proof.
  destruct mark_zero as (u0 & Hu0 & Eu & Er). destruct link_spec as (s2 & E2 & S2 & L2). destruct (bump_spec s2 S2 L2) as (s3 & E3 & (B1 & B2 & B3 & B4) & L3).
  destruct (mark_at 0) as (q & u & l & Hq & Hu & Eu' & Er' & El & Hg & _); [pose proof lv_eq; lia|].
  rewrite (prev_zero s es k q R Hk Hq) in *. assert (u = u0) as -> by congruence. clear Eu' Er'.
  pose proof (level0_next s es h k l R Hk Hg) as Hf.
  unfold link_node. zrun. rewrite Eu, Er. cbn [of_opt zsl s1]. fold lv h. rewrite E2, E3.
  assert (Hback : (if u0 =? h then None else Some u0) = back_at es' k).
  { rewrite back_at_addr. destruct k as [|k'] eqn:Ek; [injection Hu0 as <-; by rewrite Z.eqb_refl|].
    destruct (Z.eqb_spec u0 h) as [->|Hn0]; [exfalso; pose proof (r_distinct _ _ R (S k') 0 h Hu0 eq_refl); lia|].
    unfold es'. rewrite ins_addr, decide_True by (done || lia). symmetry. exact Hu0. }
  destruct (set_backward_at s3 x (if u0 =? h then None else Some u0) (Some obj) score None L) as (s4 & E4 & C1 & C2 & C3 & C4 & C5).
  { rewrite B4. unfold shape, s1. cbn. rewrite lookup_insert_eq. cbn. by rewrite length_replicate. }
  rewrite E4. assert (Elx : lev (znodes s4) x 0 = Some (mk_zlevel (forward l) (span l - (Z.of_nat k - Z.of_nat k)))).
  { rewrite C4, L3, decide_True by lia. unfold linked. rewrite Eu, Er, El, decide_True by done. done. }
  rewrite (next_of_at _ _ _ Elx). cbn [forward]. rewrite Hf.
  assert (Hsh : forall a, a <> x -> shape (znodes s4) a = shape (znodes s) a).
  { intros a Ha. rewrite C5, decide_False by done. rewrite B4. unfold shape, s1. cbn. by rewrite lookup_insert_ne. }
  assert (Hlen : u64 (zlength (zsl s) + 1) = zlength (zsl s) + 1) by (apply uwrap_id; pose proof (r_length _ _ R); unfold in_u; lia).
  rewrite Hlen. destruct (addr_at h es (S k)) as [y|] eqn:Ey.
  - cbn in Ey. destruct (es !! k) as [ey|] eqn:Eey; [|done]. injection Ey as <-.
    assert (Hyx : e_addr ey <> x) by (apply (new_other (S k)); by apply addr_at_S).
    destruct (set_backward_at s4 (e_addr ey) (Some x) (Some (e_obj ey)) (e_score ey) (back_at es k) (e_height ey))
      as (s5 & E5 & D1 & D2 & D3 & D4 & D5); [rewrite Hsh by done; by apply (r_nodes _ _ R)|].
    rewrite E5. eexists. split; [done|]. split; [|cbn; by rewrite D3, C3, B3]. split; cbn [zbrk zsl znodes with_zsl].
    + by rewrite D1, C1, B1.
    + rewrite last_ins, decide_False by (apply lookup_lt_Some in Eey; lia). rewrite D2, C2, B2. cbn.
      by rewrite (r_tail _ _ R).
    + intros a j. by rewrite D4, C4, L3.
    + intros a. rewrite D5. destruct (decide (a = e_addr ey)) as [->|Hay].
      * rewrite decide_False, decide_True by (done || cbn; by rewrite Eey). by rewrite (r_nodes _ _ R k ey Eey).
      * destruct (decide (a = x)) as [->|Hax]; [rewrite C5, decide_True, Hback by done; done|].
        rewrite decide_False by (cbn; rewrite Eey; cbn; congruence). by apply Hsh.
  - eexists. split; [done|]. split; [|cbn; by rewrite C3, B3].
    assert (k = length es) as Ekl.
    { destruct (decide (k = length es)); [done|]. destruct (lookup_lt_is_Some_2 es k) as [e0 He0]; [lia|]. cbn in Ey. by rewrite He0 in Ey. }
    split; cbn [zbrk zsl znodes with_zsl].
    + by rewrite C1, B1.
    + rewrite last_ins, decide_True by done. by rewrite C2, B2.
    + intros a j. by rewrite C4, L3.
    + intros a. destruct (decide (a = x)) as [->|Hax]; [rewrite C5, decide_True, Hback by done; done|].
      rewrite Ey, decide_False by done. by apply Hsh.
Qed.
End insert.

(** The level of a new node. *)
Lemma random_level_ge rnd : forall l n, random_level rnd l = Ret n -> l <= n.
Proof.
  induction rnd as [|r rnd IH]; intros l n H; [done|]. cbn in H. destruct (_ <? _); [|injection H as <-; lia].
  specialize (IH _ _ H). lia.
Qed.

Lemma zslRandomLevel_range rnd n : zslRandomLevel rnd = Ret n -> 1 <= n <= Z.of_nat ZSKIPLIST_MAXLEVEL.
Proof.
  unfold zslRandomLevel. destruct (random_level rnd 1) as [l|] eqn:E; [|done]. apply random_level_ge in E. cbn.
  destruct (Z.ltb_spec l (Z.of_nat ZSKIPLIST_MAXLEVEL)); intros [= <-]; unfold ZSKIPLIST_MAXLEVEL in *; lia.
Qed.

(** The state and the arrays once the level is high enough. *)
Lemma grow_spec s es k L us rs : rep s es -> (k <= length es)%nat -> 1 <= L <= Z.of_nat ZSKIPLIST_MAXLEVEL ->
  marks s es k (Z.to_nat (zlevel (zsl s))) us rs ->
  exists s0 us' rs', grow_levels L us rs s = Ret ((us', rs'), s0) /\ rep s0 es /\
    marks s0 es k (Z.to_nat (zlevel (zsl s0))) us' rs' /\ L <= zlevel (zsl s0) /\ zbrk s0 = zbrk s /\ zdict s0 = zdict s.
Proof.
  intros R Hk HL Hm. pose proof (r_level _ _ R) as Hlv. unfold grow_levels. zrun.
  destruct (Z.ltb_spec (zlevel (zsl s)) L) as [Hlt|Hge]; [|by exists s, us, rs; split_and!; try done; lia].
  destruct (raise_rep s es L R ltac:(lia)) as (s1 & E1 & Hb1 & Hd1 & Hz1 & R1). rewrite E1.
  set (old := Z.to_nat (zlevel (zsl s))) in *. set (new := Z.to_nat L) in *. unfold set_zlevel. fold (with_level L s1).
  eexists (with_level L s1), _, _. split; [done|]. split; [done|]. destruct Hm as (M1 & M2 & M3).
  split; [|cbn; split_and!; try done; lia]. cbn [zsl with_level with_zsl zlevel]. fold new.
  split; [rewrite length_app, length_replicate; lia|]. split; [rewrite length_app, length_replicate; lia|].
  intros j Hj. cbn [header zsl with_level with_zsl]. rewrite Hz1. destruct (decide (j < old)%nat) as [Hjo|Hjo].
  - destruct (M3 j Hjo) as (q & a & H1 & H2 & H3 & H4). exists q, a. rewrite !lookup_app_l by lia. done.
  - exists 0%nat, (header (zsl s)). rewrite !lookup_app_r, M1, M2, !lookup_replicate_2 by lia. split; [|by repeat split].
    split; [lia|]. split; [cbn; unfold ZSKIPLIST_MAXLEVEL in *; lia|]. intros r Hr. apply (rep_above s es r j R); lia.
Qed.

(** Insertion after position [k], where the search ends. *)
Lemma zslInsert_at s es k random junk score obj L : rep s es -> isnan score = false -> zslRandomLevel random = Ret L ->
  Z.of_nat (S (length es)) < 2 ^ 32 - 1 -> (k <= length es)%nat -> cuts es (fun _ => before true score obj) k ->
  exists s', zslInsert random junk score obj s = Ret (zbrk s, s') /\
    rep s' (ins k (mk_zent (zbrk s) score obj (Z.to_nat L)) es) /\ zdict s' = zdict s.
Proof.
  intros R Hnan HL Hn Hk Hc. pose proof (zslRandomLevel_range _ _ HL) as HLr.
  destruct (search_spec s es R 32 (fun _ => before true score obj) k ltac:(lia) Hk Hc) as (y & us & rs & E & Hm & _).
  destruct (grow_spec s es k L us rs R Hk HLr Hm) as (s0 & us' & rs' & E0 & R0 & Hm0 & HL0 & Hb0 & Hd0).
  destruct (insert_tail s0 es k us' rs' (Z.to_nat L) score obj junk R0 Hk ltac:(lia) Hn Hm0) as (s' & Et & Hp & Hd').
  exists s'. rewrite <- Hb0. unfold zslInsert. rewrite Hnan. zrun. rewrite E, HL, E0. unfold zslCreateNode. rewrite Et.
  split; [done|]. split; [|congruence]. by apply (placed_rep s0 es k us' rs' (Z.to_nat L) score obj junk R0 Hk ltac:(lia) Hn Hm0).
Qed.
