(* ===== verification/SkiplistDelete.v ===== *)
(** * SkiplistDelete: removing nodes of a skip list

    Unlinking a node leaves a skip list of the other nodes; the loops that
    remove ranges remove the nodes between two positions, and the strings of
    these nodes from the hash table. *)

From S2P Require Import Prelude Object Skiplist SkiplistProofs.

(** ** Levels are determined by the list *)

Lemma good_level_unique h es i p l l' : good_level h es i p l -> good_level h es i p l' -> l = l'.
Proof.
  destruct l as [f n], l' as [f' n']; cbn.
  intros [(q & (A1 & A2 & A3) & Ef & Es)|(Hn & Ef & Es)] [(q' & (B1 & B2 & B3) & Ef' & Es')|(Hn' & Ef' & Es')]; cbn in *.
  - assert (q = q') as ->; [|congruence]. destruct (Nat.lt_trichotomy q q') as [H|[H|H]]; [|done|].
    + specialize (B3 q ltac:(lia)). lia.
    + specialize (A3 q' ltac:(lia)). lia.
  - specialize (Hn' q A1). lia.
  - specialize (Hn q' B1). lia.
  - congruence.
Qed.

Lemma good_level_total h es i p : (p <= length es)%nat -> exists l, good_level h es i p l.
Proof.
  intros Hp.
  assert (H : forall n, (exists q, is_next (hgt es) i p q) \/ forall r, (p < r <= p + n -> hgt es r <= i)%nat).
  { induction n as [|n [IH|IH]]; [right; lia|by left|]. destruct (decide (i < hgt es (p + S n))%nat) as [Hi|Hi].
    - left. exists (p + S n)%nat. split; [lia|]. split; [done|]. intros r Hr. apply IH. lia.
    - right. intros r Hr. destruct (decide (r = p + S n)%nat) as [->|]; [lia|]. apply IH. lia. }
  destruct (H (length es)) as [[q Hq]|Hn]; [|exists (mk_zlevel None (Z.of_nat (length es) - Z.of_nat p)); right].
  - exists (mk_zlevel (addr_at h es q) (Z.of_nat q - Z.of_nat p)). left. by exists q.
  - split; [|done]. intros r Hr. destruct (decide (r <= length es)%nat); [apply Hn; lia|]. rewrite hgt_out; lia.
Qed.

(** ** Lowering the level *)

Definition with_zlen (n : Z) (s : zstate) : zstate :=
  with_zsl (mk_zsl (header (zsl s)) (tail (zsl s)) n (zlevel (zsl s))) s.

(** The top level is not in use. *)
Lemma lower_one s es l : rep s es -> 1 < zlevel (zsl s) ->
  lev (znodes s) (header (zsl s)) (Z.to_nat (zlevel (zsl s) - 1)) = Some l -> forward l = None ->
  rep (with_level (zlevel (zsl s) - 1) s) es.
Proof.
  intros R Hl El Ef. set (i := Z.to_nat (zlevel (zsl s) - 1)) in *. pose proof (r_level _ _ R) as Hlv.
  assert (Hno : no_next (hgt es) i 0).
  { destruct (r_levels _ _ R 0 (header (zsl s)) i) as (l' & El' & Hg); [done|cbn; lia|lia|].
    assert (l' = l) as -> by congruence. destruct Hg as [(q & (Q1 & Q2 & _) & Eq & _)|(Hn & _)]; [|done].
    apply hgt_in in Q2. apply (addr_at_lt (header (zsl s))) in Q2. rewrite <- Eq, Ef in Q2. by destruct Q2. }
  destruct R as [R1 R2 R3 R4 R5 R6 R7 R8 R9 R10 R11]. split; cbn [zsl with_level with_zsl zlevel zlength header tail znodes zbrk]; try done.
  - lia.
  - intros p e He. destruct (R4 p e He) as [A B]. split; [done|]. specialize (Hno (S p) ltac:(lia)). cbn in Hno. rewrite He in Hno. cbn in Hno. lia.
  - intros p a j Ha Hj Hjl. apply R9; [done|done|lia].
  - intros j Hj. destruct (decide (j = i)) as [->|Hne]; [|apply R10; lia]. exists (span l). rewrite El. destruct l; cbn in *. by subst.
Qed.

Lemma lower_spec n es fuel : forall s, rep (with_zlen n s) es -> zlevel (zsl s) <= Z.of_nat fuel + 1 ->
  exists m, lower_level fuel s = Ret (tt, with_level m s) /\ rep (with_level m (with_zlen n s)) es /\ m <= zlevel (zsl s).
Proof.
  induction fuel as [|fuel IH]; intros s R Hf; pose proof (r_level _ _ R) as Hlv; cbn in Hlv; cbn [lower_level]; zrun;
    (destruct (Z.ltb_spec 1 (zlevel (zsl s))) as [Hlt|Hge];
      [|exists (zlevel (zsl s)); destruct s as [? ? [] ?]; done]); [lia|].
  destruct (r_levels _ _ R 0 (header (zsl s)) (Z.to_nat (zlevel (zsl s) - 1))) as (l & El & _); [done|cbn; lia|cbn; lia|].
  rewrite (level_of_at s _ _ _ El). destruct (forward l) as [y|] eqn:Ef.
  - exists (zlevel (zsl s)). destruct s as [? ? [] ?]; done.
  - pose proof (lower_one _ _ l R Hlt El Ef) as R1. unfold set_zlevel.
    destruct (IH (with_level (zlevel (zsl s) - 1) s)) as (m & E & R2 & Hm); [done|cbn; lia|].
    exists m. split; [exact E|]. split; [done|]. cbn in Hm. lia.
Qed.

(** ** Unlinking a node *)

Section delete.
Context (s : zstate) (ds : list zent) (k : nat) (e : zent) (us : list Z).
Hypothesis Hk : (k <= length ds)%nat.
Let es := ins k e ds.
Let h := header (zsl s).
Let x := e_addr e.
Let lv := Z.to_nat (zlevel (zsl s)).
Hypothesis R : rep s es.
Hypothesis Hm : forall j, (j < lv)%nat -> exists q a, is_prev (hgt es) j k q /\ addr_at h es q = Some a /\ us !! j = Some a.

Lemma del_at : es !! k = Some e.
Proof. unfold es. rewrite ins_lookup, decide_False, decide_True by lia. done. Qed.

Lemma del_prev j q : is_prev (hgt es) j k q <-> is_prev (hgt ds) j k q.
Proof.
  unfold is_prev, es. split; intros (A1 & A2 & A3).
  - rewrite ins_hgt, decide_True in A2 by done. split; [done|]. split; [done|]. intros r Hr. specialize (A3 r Hr).
    rewrite ins_hgt, decide_True in A3 by lia. done.
  - rewrite ins_hgt, decide_True by done. split; [done|]. split; [done|]. intros r Hr. specialize (A3 r Hr).
    rewrite ins_hgt, decide_True by lia. done.
Qed.

(** The level of the node before, with and without the node. *)
Lemma del_mark j : (j < lv)%nat -> exists q u l l', is_prev (hgt ds) j k q /\ addr_at h ds q = Some u /\ us !! j = Some u /\ u <> x /\
  lev (znodes s) u j = Some l /\ good_level h es j q l /\ good_level h ds j q l' /\ 0 <= span l' < 2 ^ 32 - 1 /\
  if decide (j < e_height e)%nat then
    forward l = Some x /\ exists lx, lev (znodes s) x j = Some lx /\ forward lx = forward l' /\ span l + span lx - 1 = span l'
  else forward l <> Some x /\ forward l = forward l' /\ span l - 1 = span l'.
Proof.
  intros Hj. destruct (Hm j Hj) as (q & u & Hq & Hu & Eu). pose proof Hq as (Q1 & Q2 & Q3).
  destruct (r_levels _ _ R q u j Hu Q2) as (l & El & Hg); [subst lv; lia|].
  destruct (good_level_total h ds j q ltac:(lia)) as [l' Hg'].
  pose proof (r_bound _ _ R) as Hb. unfold es in Hb. rewrite ins_length in Hb.
  assert (Hx : addr_at h es (S k) = Some x) by (apply addr_at_S, del_at).
  assert (Hux : u <> x). { intros ->. pose proof (r_distinct _ _ R q (S k) x Hu Hx). lia. }
  assert (Hsp : 0 <= span l' < 2 ^ 32 - 1).
  { destruct Hg' as [(q' & (A1 & A2 & _) & _ & Es)|(_ & _ & Es)]; rewrite Es; [pose proof (hgt_in _ _ _ A2)|]; lia. }
  exists q, u, l, l'. split; [by apply del_prev|]. apply del_prev in Hq as Hq'.
  split; [unfold es in Hu; by rewrite ins_addr, decide_True in Hu|]. do 6 (split; [done|]).
  destruct (decide (j < e_height e)%nat) as [Hje|Hje].
  - pose proof (good_level_unique _ _ _ _ _ _ Hg (next_to_new h ds k e Hk j q Hq' Hje)) as ->. cbn. split; [done|].
    destruct (r_levels _ _ R (S k) x j Hx) as (lx & Elx & Hgx); [cbn [hgt]; rewrite del_at; cbn; lia|subst lv; lia|].
    exists lx. pose proof (good_level_unique _ _ _ _ _ _ Hgx (next_of_new h ds k e Hk j q l' Hq' Hg')) as ->. cbn.
    split; [done|]. split; [done|]. lia.
  - pose proof (good_level_unique _ _ _ _ _ _ Hg (next_over_new h ds k e Hk j q l' Hq' ltac:(lia) Hg')) as ->. cbn. split; [|split; [done|lia]].
    destruct Hg as [(q' & (A1 & A2 & _) & Ef & _)|(_ & Ef & _)]; cbn in Ef; rewrite Ef; [|done]. intros Ex.
    pose proof (r_distinct _ _ R q' (S k) x Ex Hx) as ->. unfold es in A2. rewrite ins_hgt, decide_False, decide_True in A2 by lia. lia.
Qed.

Definition unlinked (j : nat) (a : Z) : option zskiplistLevel :=
  match us !! j ≫= fun u => (u,.) <$> lev (znodes s) u j with
  | Some (u, l) =>
      if decide (a = u) then
        if decide (forward l = Some x) then (fun lx => mk_zlevel (forward lx) (span l + span lx - 1)) <$> lev (znodes s) x j
        else Some (mk_zlevel (forward l) (span l - 1))
      else lev (znodes s) a j
  | None => None
  end.

Lemma unlink_spec : exists s', unlink_levels lv 0 x us s = Ret (tt, s') /\ same_shape s s' /\
  forall a j, lev (znodes s') a j = if decide (j < lv)%nat then unlinked j a else lev (znodes s) a j.
Proof.
  destruct (loop_levels (fun n i => unlink_levels n i x us)
    (fun i => u ← zres (of_opt Undefined (us !! i)); l ← level_of u i;
       if bool_decide (forward l = Some x) then
         lx ← level_of x i; set_level u i (mk_zlevel (forward lx) (u32 (span l + u32 (span lx - 1))))
       else set_level u i (mk_zlevel (forward l) (u32 (span l - 1)))) unlinked s) with (n := lv) (i := 0%nat) (s := s)
    as (s2 & E & Hs & Hl); try done.
  - intros n i s'. cbn [unlink_levels]. zrun. destruct (of_opt Undefined (us !! i)); [|done].
    destruct (level_of _ i s') as [[l s'']|]; [|done]. done.
  - intros j s' Hj Hs Hl. destruct (del_mark j) as (q & u & l & l' & _ & _ & Hu & Hux & El & _ & _ & Hsp & Hc); [lia|].
    unfold unlinked. rewrite Hu. cbn [mbind option_bind]. rewrite El. cbn [fmap option_fmap option_map]. zrun. cbn [of_opt].
    rewrite (level_of_at s' u j l) by (by rewrite Hl). destruct (decide (j < e_height e)%nat).
    + destruct Hc as (Ef & lx & Elx & Efx & Esx). rewrite bool_decide_true by done.
      rewrite (level_of_at s' x j lx) by (by rewrite Hl). rewrite uwrap_add_r, uwrap_id by (unfold in_u; lia).
      destruct (set_level_at s' u j (mk_zlevel (forward lx) (span l + (span lx - 1))) l) as (s4 & E4 & S4 & L4); [by rewrite Hl|].
      exists s4. split; [exact E4|]. split; [done|]. split.
      * intros a. rewrite L4, Hl. rewrite (decide_True (P := forward l = Some x)), Elx by done. cbn.
        destruct (decide (a = u)) as [->|]; [rewrite decide_True by done|by rewrite decide_False by tauto].
        do 2 f_equal. lia.
      * intros a j' Hj'. rewrite L4. by rewrite decide_False by tauto.
    + destruct Hc as (Ef & Efl & Esl). rewrite bool_decide_false by done. rewrite uwrap_id by (unfold in_u; lia).
      destruct (set_level_at s' u j (mk_zlevel (forward l) (span l - 1)) l) as (s4 & E4 & S4 & L4); [by rewrite Hl|].
      exists s4. split; [exact E4|]. split; [done|]. split.
      * intros a. rewrite L4, Hl. rewrite (decide_False (P := forward l = Some x)) by done.
        destruct (decide (a = u)) as [->|]; [by rewrite decide_True by done|by rewrite decide_False by tauto].
      * intros a j' Hj'. rewrite L4. by rewrite decide_False by tauto.
  - exists s2. split; [exact E|]. split; [done|]. intros a j. rewrite Hl. destruct (decide (0 <= j < 0 + lv)%nat), (decide (j < lv)%nat); done || lia.
Qed.

(** A state with the levels unlinked and the pointers backward set. *)
Record removed (s' : zstate) : Prop := mk_removed {
  d_brk : zbrk s' = zbrk s;
  d_zsl : zsl s' = mk_zsl h (e_addr <$> last ds) (zlength (zsl s) - 1) (zlevel (zsl s));
  d_lev : forall a j, lev (znodes s') a j = if decide (j < lv)%nat then unlinked j a else lev (znodes s) a j;
  d_shape : forall a, shape (znodes s') a =
    if decide (Some a = addr_at h ds (S k)) then (fun '(o, sc, _, n) => (o, sc, back_at es k, n)) <$> shape (znodes s) a
    else shape (znodes s) a
}.

(** The position that a position had before. *)
Definition old_pos (p : nat) : nat := if decide (p <= k)%nat then p else S p.

Lemma old_addr p : addr_at h es (old_pos p) = addr_at h ds p.
Proof.
  unfold es, old_pos. rewrite ins_addr by done. destruct (decide (p <= k)%nat); [by rewrite decide_True|].
  rewrite !decide_False by lia. by replace (S p - 1)%nat with p by lia.
Qed.

Lemma old_hgt p : hgt es (old_pos p) = hgt ds p.
Proof.
  unfold es, old_pos. rewrite ins_hgt by done. destruct (decide (p <= k)%nat); [by rewrite decide_True|].
  rewrite !decide_False by lia. by replace (S p - 1)%nat with p by lia.
Qed.

Lemma old_pos_inj p q : old_pos p = old_pos q -> p = q.
Proof. unfold old_pos. repeat destruct (decide _); lia. Qed.

Lemma old_not_x p a : addr_at h ds p = Some a -> a <> x.
Proof.
  rewrite <- old_addr. intros Ha ->. pose proof (r_distinct _ _ R (old_pos p) (S k) x Ha (addr_at_S _ _ _ _ del_at)) as E.
  revert E. unfold old_pos. destruct (decide _); lia.
Qed.

Lemma old_lookup p e0 : ds !! p = Some e0 -> es !! (if decide (p < k)%nat then p else S p) = Some e0.
Proof.
  intros H. unfold es. rewrite ins_lookup by done. destruct (decide (p < k)%nat) as [|Hp]; [by rewrite decide_True|].
  rewrite !decide_False by lia. by replace (S p - 1)%nat with p by lia.
Qed.

Lemma removed_levels s' p a i : removed s' -> addr_at h ds p = Some a -> (i < hgt ds p)%nat -> (i < lv)%nat ->
  exists l, lev (znodes s') a i = Some l /\ good_level h ds i p l.
Proof.
  intros [_ _ Dl _] Ha Hi Hlv. rewrite Dl, decide_True by done. clear Dl.
  destruct (del_mark i Hlv) as (q & u & l & l' & Hq & Hu & Eu & Hux & El & Hg & Hg' & _ & Hc). pose proof Hq as (Q1 & Q2 & Q3).
  unfold unlinked. rewrite Eu. cbn [mbind option_bind]. rewrite El. cbn [fmap option_fmap option_map].
  assert (Hai : addr_at h es (old_pos p) = Some a) by (by rewrite old_addr). assert (Hii : (i < hgt es (old_pos p))%nat) by (by rewrite old_hgt).
  destruct (decide (p = q)) as [->|Hpq].
  - assert (a = u) as -> by congruence. rewrite decide_True by done. exists l'. split; [|done].
    destruct (decide (i < e_height e)%nat).
    + destruct Hc as (Ef & lx & Elx & Efx & Esx). rewrite decide_True, Elx by done. cbn. rewrite Efx, Esx. by destruct l'.
    + destruct Hc as (Ef & Efl & Esl). rewrite decide_False by done. rewrite Efl, Esl. by destruct l'.
  - assert (Hau : a <> u).
    { intros ->. apply Hpq, old_pos_inj, (r_distinct _ _ R (old_pos p) (old_pos q) u); [done|]. by rewrite old_addr. }
    rewrite decide_False by done. destruct (r_levels _ _ R (old_pos p) a i Hai Hii) as (l0 & El0 & Hg0); [subst lv; lia|].
    exists l0. split; [done|]. destruct (good_level_total h ds i p) as [l1 Hg1]; [by eapply hgt_in|].
    enough (l0 = l1) as -> by done. apply (good_level_unique h es i (old_pos p)); [done|]. unfold old_pos.
    destruct (decide (p <= k)%nat) as [Hpk|Hpk].
    + assert (p < q)%nat. { destruct (decide (p < q)%nat); [done|]. specialize (Q3 p ltac:(lia)). lia. }
      by apply (next_before h ds k e Hk i p q).
    + apply (next_shift h ds k e Hk); [lia|done].
Qed.

Lemma removed_nodes s' p e0 : removed s' -> ds !! p = Some e0 ->
  shape (znodes s') (e_addr e0) = Some (Some (e_obj e0), e_score e0, back_at ds p, e_height e0).
Proof.
  intros [_ _ _ Dsh] Hp. rewrite Dsh. pose proof (old_lookup p e0 Hp) as Ho. pose proof (r_nodes _ _ R _ _ Ho) as Hs. rewrite Hs. cbn [fmap option_fmap option_map].
  assert (Hpa : addr_at h es (old_pos (S p)) = Some (e_addr e0)) by (rewrite old_addr; cbn; by rewrite Hp).
  assert (Hbk : forall q, (q <= k)%nat -> back_at es q = back_at ds q).
  { intros [|q] Hq; [done|]. cbn. unfold es. by rewrite ins_lookup, decide_True. }
  destruct (decide (p = k)) as [->|Hpk].
  - rewrite decide_True by (cbn; by rewrite Hp). by rewrite Hbk.
  - rewrite decide_False.
    2: { intros E. symmetry in E. rewrite <- old_addr in E. pose proof (old_pos_inj _ _ (r_distinct _ _ R _ _ _ Hpa E)). lia. }
    do 3 f_equal. destruct (decide (p < k)%nat); [apply Hbk; lia|]. destruct p as [|p]; [lia|]. cbn.
    destruct (lookup_lt_is_Some_2 ds p) as [e1 He1]; [apply lookup_lt_Some in Hp; lia|]. pose proof (old_lookup p e1 He1) as Ho1.
    rewrite decide_False in Ho1 by lia. by rewrite Ho1, He1.
Qed.

Lemma removed_rep s' : removed s' -> rep s' ds.
Proof.
  intros D. pose proof D as [Db Dz Dl Dsh]. pose proof (r_length _ _ R) as Hlen. pose proof (r_bound _ _ R) as Hb.
  unfold es in Hlen, Hb. rewrite ins_length in Hlen, Hb.
  assert (Hsm : forall a, is_Some (shape (znodes s') a) -> is_Some (znodes s !! a)).
  { intros a. rewrite Dsh. unfold shape. destruct (znodes s !! a); [by eexists|]. destruct (decide _); intros [? [=]]. }
  split; rewrite ?Dz; cbn [zlevel zlength header tail].
  - exact (r_level _ _ R).
  - lia.
  - lia.
  - intros p e0 Hp. apply old_lookup in Hp. by apply (r_heights _ _ R) in Hp.
  - intros p q a Hp Hq. apply old_pos_inj, (r_distinct _ _ R _ _ a); by rewrite old_addr.
  - intros a [nd Ha]. rewrite Db. apply (r_fresh _ _ R), Hsm. unfold shape. rewrite Ha. by eexists.
  - destruct (r_header _ _ R) as (sc & b & Hh). exists sc, b. rewrite Dsh, decide_False; [done|]. intros E. symmetry in E.
    rewrite <- old_addr in E. pose proof (old_pos_inj _ 0 (r_distinct _ _ R _ 0 _ E eq_refl)). lia.
  - intros p e0. by apply removed_nodes.
  - intros p a i Ha Hi Hil. apply removed_levels; try done. unfold lv. lia.
  - intros i Hi. rewrite Dl, decide_False by (unfold lv; lia). apply (r_top _ _ R). lia.
  - done.
Qed.

Lemma del_last : e_addr <$> last ds = if decide (k = length ds) then back_at es k else tail (zsl s).
Proof.
  rewrite (r_tail _ _ R), !last_lookup. destruct (decide (k = length ds)) as [Ek|Ek].
  - rewrite <- Ek. destruct k as [|k']; cbn; [by rewrite lookup_ge_None_2 by lia|]. unfold es. by rewrite ins_lookup, decide_True by lia.
  - unfold es. rewrite ins_length, ins_lookup by done. cbn [Nat.pred]. rewrite !decide_False by lia.
    by replace (length ds - 1)%nat with (pred (length ds)) by lia.
Qed.

Lemma zslDeleteNode_at : exists s', zslDeleteNode x us s = Ret (tt, s') /\ rep s' ds /\ zdict s' = zdict s /\
  header (zsl s') = h /\ zlevel (zsl s') <= zlevel (zsl s) /\ is_Some (znodes s' !! x).
Proof.
  destruct unlink_spec as (s2 & E2 & (B1 & B2 & B3 & B4) & L2). unfold zslDeleteNode. zrun. fold lv. rewrite E2.
  assert (Hx : addr_at h es (S k) = Some x) by (apply addr_at_S, del_at). pose proof (r_level _ _ R) as Hlv.
  assert (H1 : (0 < lv)%nat) by (subst lv; lia).
  destruct (r_levels _ _ R (S k) x 0 Hx) as (lx & Elx & Hgx); [apply (hgt_pos s); [done|unfold es; rewrite ins_length; lia]|lia|].
  pose proof (level0_next s es h (S k) lx R ltac:(unfold es; rewrite ins_length; lia) Hgx) as Hf.
  destruct (del_mark 0 H1) as (q & u & l & l' & _ & _ & Eu & Hux & El & _).
  assert (Elx2 : lev (znodes s2) x 0 = Some lx).
  { rewrite L2, decide_True by done. unfold unlinked. rewrite Eu. cbn [mbind option_bind]. rewrite El. cbn. by rewrite decide_False. }
  rewrite (next_of_at _ _ _ Elx2). pose proof (r_nodes _ _ R k e del_at) as Hsx. fold x in Hsx. rewrite <- B4 in Hsx.
  destruct (shape_node _ _ _ _ _ _ Hsx) as (nx & Hnx & _ & _ & Hbx & _). rewrite (node_at _ _ _ Hnx), Hbx, Hf.
  assert (Hf2 : addr_at h es (S (S k)) = addr_at h ds (S k)).
  { rewrite <- old_addr. unfold old_pos. by rewrite decide_False by lia. }
  rewrite Hf2. assert (Hlen : u64 (zlength (zsl s) - 1) = zlength (zsl s) - 1).
  { apply uwrap_id. pose proof (r_length _ _ R) as Hl. pose proof (r_bound _ _ R). unfold es in *. rewrite ins_length in *. unfold in_u. lia. }
  rewrite Hlen.
  assert (Hrm : exists s3, match addr_at h ds (S k) with Some y => set_backward y (back_at es k) | None => set_tail (back_at es k) end s2 = Ret (tt, s3) /\
    removed (with_zlen (zlength (zsl s) - 1) s3) /\ zdict s3 = zdict s /\ zlevel (zsl s3) = zlevel (zsl s) /\ header (zsl s3) = h).
  { destruct (addr_at h ds (S k)) as [y|] eqn:Ey.
    - pose proof Ey as Ey'. cbn in Ey'. destruct (ds !! k) as [ey|] eqn:Eey; [|done]. injection Ey' as <-.
      destruct (set_backward_at s2 (e_addr ey) (back_at es k) (Some (e_obj ey)) (e_score ey) (back_at es (S k)) (e_height ey))
        as (s3 & E3 & C1 & C2 & C3 & C4 & C5).
      { rewrite B4. apply (r_nodes _ _ R). pose proof (old_lookup k ey Eey) as Ho. by rewrite decide_False in Ho by lia. }
      exists s3. split; [exact E3|]. split; [|by rewrite C3, C2, B2, B3]. split; cbn; rewrite ?C2, ?B2.
      + by rewrite C1.
      + rewrite del_last, decide_False by (apply lookup_lt_Some in Eey; lia). done.
      + intros a j. by rewrite C4.
      + intros a. rewrite C5, B4. pose proof (old_lookup k ey Eey) as Ho. rewrite decide_False in Ho by lia.
        destruct (decide (a = e_addr ey)) as [->|Ha].
        * rewrite decide_True by (by rewrite Eey). by rewrite (r_nodes _ _ R (S k) ey Ho).
        * rewrite decide_False; [done|]. rewrite Eey. cbn. congruence.
    - eexists. split; [done|]. cbn. rewrite B2. split; [|done]. split; cbn; rewrite ?B2; try done.
      + rewrite del_last, decide_True; [done|]. destruct (decide (k = length ds)); [done|].
        destruct (lookup_lt_is_Some_2 ds k) as [e0 He0]; [lia|]. cbn in Ey. by rewrite He0 in Ey.
      + intros a. rewrite B4. rewrite decide_False; [done|]. cbn in Ey. by rewrite Ey. }
  destruct Hrm as (s3 & E3 & Hrm & Hd3 & Hl3 & Hh3). rewrite E3. pose proof (removed_rep _ Hrm) as R3.
  destruct (lower_spec (zlength (zsl s) - 1) ds lv s3 R3) as (m & E4 & R4 & Hm4); [unfold lv; lia|]. rewrite E4.
  eexists. split; [done|]. split; [exact R4|]. cbn. split; [done|]. split; [done|]. split; [lia|].
  pose proof (d_shape _ Hrm x) as Hsh. cbn in Hsh. rewrite decide_False in Hsh.
  2: { intros E. symmetry in E. by apply (old_not_x (S k) x E). }
  rewrite <- B4, Hsx in Hsh. unfold shape in Hsh. destruct (znodes s3 !! x); [by eexists|done].
Qed.
End delete.

(** ** Freeing a node *)

Lemma rep_free s es a : rep s es -> (forall p, addr_at (header (zsl s)) es p <> Some a) ->
  rep (with_znodes (delete a (znodes s)) s) es.
Proof.
  intros R Ha. assert (Hsh : forall p b, addr_at (header (zsl s)) es p = Some b -> shape (delete a (znodes s)) b = shape (znodes s) b).
  { intros p b Hb. unfold shape. rewrite lookup_delete_ne; [done|]. intros ->. by apply (Ha p). }
  assert (Hlv : forall p b i, addr_at (header (zsl s)) es p = Some b -> lev (delete a (znodes s)) b i = lev (znodes s) b i).
  { intros p b i Hb. unfold lev. rewrite lookup_delete_ne; [done|]. intros ->. by apply (Ha p). }
  destruct R as [R1 R2 R3 R4 R5 R6 R7 R8 R9 R10 R11]. split; cbn [zsl with_znodes znodes zbrk]; try done.
  - intros b [nd Hb]. apply R6. apply lookup_delete_Some in Hb as [_ Hb]. by eexists.
  - by rewrite (Hsh 0%nat).
  - intros p e He. rewrite (Hsh (S p)) by (by apply addr_at_S). by apply R8.
  - intros p b i Hb Hi Hl. rewrite (Hlv p) by done. by apply R9.
  - intros i Hi. rewrite (Hlv 0%nat) by done. by apply R10.
Qed.

(** What a search leaves for a deletion after position [k]. *)
Definition trail (s : zstate) (es : list zent) (k : nat) (us : list Z) : Prop :=
  forall j, (j < Z.to_nat (zlevel (zsl s)))%nat -> exists q a, is_prev (hgt es) j k q /\ addr_at (header (zsl s)) es q = Some a /\ us !! j = Some a.

Lemma marks_trail s es k us rs : marks s es k (Z.to_nat (zlevel (zsl s))) us rs -> trail s es k us.
Proof. intros (_ & _ & H) j Hj. destruct (H j Hj) as (q & a & A & B & C & _). by exists q, a. Qed.

Definition with_zdict (d : gmap (list Z) double) (s : zstate) : zstate := mk_zstate (znodes s) (zbrk s) (zsl s) d.

Lemma rep_zdict s es d : rep s es -> rep (with_zdict d s) es.
Proof. intros []. by split. Qed.

(** zslDeleteNode and zslFreeNode. *)
Lemma delete_free s ds k e us d : (k <= length ds)%nat -> rep s (ins k e ds) -> trail s (ins k e ds) k us ->
  exists s1 s2, zslDeleteNode (e_addr e) us s = Ret (tt, s1) /\ zdict s1 = zdict s /\
    zslFreeNode (e_addr e) (with_zdict d s1) = Ret (tt, s2) /\ rep s2 ds /\ trail s2 ds k us /\ zdict s2 = d.
Proof.
  intros Hk R Ht. destruct (zslDeleteNode_at s ds k e us Hk R Ht) as (s1 & E1 & R1 & Hd & Hh & Hl & Hx).
  exists s1, (with_znodes (delete (e_addr e) (znodes s1)) (with_zdict d s1)). split; [done|]. split; [done|].
  split; [unfold zslFreeNode; cbn; by destruct Hx as [nd ->]|]. split; [|split; [|done]].
  - apply (rep_free (with_zdict d s1)); [by apply rep_zdict|]. cbn. rewrite Hh. intros p Hp. by apply (old_not_x s ds k e Hk R p _ Hp).
  - intros j Hj. cbn in Hj. destruct (Ht j) as (q & a & Hq & Ha & Hu); [lia|]. exists q, a. cbn. rewrite Hh.
    split; [by apply (del_prev s ds k e Hk)|]. split; [|done]. destruct Hq as (Q & _). by rewrite ins_addr, decide_True in Ha.
Qed.

Lemma ins_middle pre e post : ins (length pre) e (pre ++ post) = pre ++ e :: post.
Proof. unfold ins. by rewrite take_app_length, drop_app_length. Qed.

(** ** The loops over ranges *)

Section ranges.
Context (in_range : Z -> zskiplistNode -> res bool).

(** The condition holds for the entries [mid], at counts from [t], and not
    for the one after. *)
Fixpoint accepts (t : Z) (mid : list zent) (post : list zent) : Prop :=
  match mid with
  | e :: mid => (forall nd, z_obj nd = Some (e_obj e) -> z_score nd = e_score e -> in_range t nd = Ret true) /\ accepts (t + 1) mid post
  | [] => match post with
          | e :: _ => forall nd, z_obj nd = Some (e_obj e) -> z_score nd = e_score e -> in_range t nd = Ret false
          | [] => True
          end
  end.

Definition drop_objs (es : list zent) (d : gmap (list Z) double) : gmap (list Z) double :=
  foldl (fun d e => delete (e_obj e) d) d es.

Lemma delete_while_spec pre post us mid : forall s fuel t r, rep s (pre ++ mid ++ post) -> trail s (pre ++ mid ++ post) (length pre) us ->
  accepts t mid post -> (length mid <= fuel)%nat -> 0 <= t < 2 ^ 64 - Z.of_nat (length mid) -> 0 <= r < 2 ^ 64 - Z.of_nat (length mid) ->
  exists s', delete_while in_range fuel (addr_at (header (zsl s)) (pre ++ mid ++ post) (S (length pre))) us t r s = Ret (r + Z.of_nat (length mid), s') /\
    rep s' (pre ++ post) /\ zdict s' = drop_objs mid (zdict s).
Proof.
  induction mid as [|e mid IH]; intros s fuel t r R Ht Ha Hf Htr Hr.
  - cbn in *. rewrite Z.add_0_r. rewrite lookup_app_r, Nat.sub_diag by done.
    destruct post as [|e post]; [by exists s; destruct fuel|]. cbn in *.
    assert (He : (pre ++ e :: post) !! length pre = Some e) by (by rewrite list_lookup_middle).
    destruct (shape_node _ _ _ _ _ _ (r_nodes _ _ R _ _ He)) as (nd & Hnd & Ho & Hs & _). exists s.
    destruct fuel; cbn; zrun; by rewrite (node_at _ _ _ Hnd), Ha.
  - destruct fuel as [|fuel]; [cbn in Hf; lia|]. destruct Ha as [Ha1 Ha2].
    assert (He : (pre ++ (e :: mid) ++ post) !! length pre = Some e) by (by rewrite lookup_app_r, Nat.sub_diag by done).
    destruct (shape_node _ _ _ _ _ _ (r_nodes _ _ R _ _ He)) as (nd & Hnd & Ho & Hs & _).
    rewrite (addr_at_S _ _ _ _ He). cbn [delete_while]. zrun. rewrite (node_at _ _ _ Hnd), Ha1 by done.
    destruct (r_levels _ _ R (S (length pre)) (e_addr e) 0) as (l & El & Hg); [by apply addr_at_S| |pose proof (r_level _ _ R); lia|].
    { apply (hgt_pos s); [done|]. rewrite !length_app. cbn. lia. }
    rewrite (next_of_at _ _ _ El). rewrite (level0_next s (pre ++ (e :: mid) ++ post) _ (S (length pre)) l R ltac:(rewrite !length_app; cbn; lia) Hg).
    assert (Hi : pre ++ (e :: mid) ++ post = ins (length pre) e (pre ++ mid ++ post)) by (by rewrite ins_middle).
    rewrite Hi in R, Ht. pose proof (r_bound _ _ R) as Hb. rewrite ins_length in Hb.
    destruct (delete_free s (pre ++ mid ++ post) (length pre) e us (delete (e_obj e) (zdict s))) as (s1 & s2 & E1 & D1 & E2 & R2 & T2 & D2);
      [rewrite length_app; lia|done|done|].
    rewrite E1. unfold obj_of. rewrite Ho. cbn [of_opt]. unfold dict_delete_obj. rewrite D1. fold (with_zdict (delete (e_obj e) (zdict s)) s1). rewrite E2.
    assert (Hn : addr_at (header (zsl s)) (pre ++ (e :: mid) ++ post) (S (S (length pre))) = addr_at (header (zsl s2)) (pre ++ mid ++ post) (S (length pre))).
    { cbn. rewrite !lookup_app_r by lia. replace (S (length pre) - length pre)%nat with 1%nat by lia. by rewrite Nat.sub_diag. }
    rewrite Hn, !uwrap_id by (cbn in Htr, Hr; unfold in_u; lia).
    destruct (IH s2 fuel (t + 1) (r + 1) R2 T2 Ha2) as (s3 & E3 & R3 & D3); [cbn in Hf, Htr, Hr; lia..|].
    exists s3. rewrite E3. split; [do 2 f_equal; cbn; lia|]. split; [done|]. by rewrite D3, D2.
Qed.

Lemma delete_from_spec s pre mid post x us t : rep s (pre ++ mid ++ post) -> trail s (pre ++ mid ++ post) (length pre) us ->
  addr_at (header (zsl s)) (pre ++ mid ++ post) (length pre) = Some x -> accepts t mid post -> 0 <= t < 2 ^ 64 - 2 ^ 32 ->
  exists s', delete_from in_range x us t s = Ret (Z.of_nat (length mid), s') /\ rep s' (pre ++ post) /\ zdict s' = drop_objs mid (zdict s).
Proof.
  intros R Ht Hx Ha Htr. set (es := pre ++ mid ++ post) in *.
  assert (Hle : (length pre <= length es)%nat) by (unfold es; rewrite !length_app; lia).
  assert (Hlm : (length mid <= length es)%nat) by (unfold es; rewrite !length_app; lia).
  pose proof (r_bound _ _ R) as Hb.
  destruct (r_levels _ _ R (length pre) x 0 Hx) as (l & El & Hg); [by apply (hgt_pos s)|pose proof (r_level _ _ R); lia|].
  unfold delete_from. zrun. rewrite (next_of_at _ _ _ El), (level0_next s es _ _ l R Hle Hg).
  destruct (delete_while_spec pre post us mid s (S (Z.to_nat (zlength (zsl s)))) t 0 R Ht Ha) as (s' & E & R' & D); [|lia|lia|].
  { rewrite (r_length _ _ R). lia. }
  exists s'. fold es in E. rewrite E. done.
Qed.
End ranges.
