(* ===== verification/SkiplistOrder.v ===== *)
(** * SkiplistOrder: the order of sorted sets

    Doubles that are not NaN are ordered by sign, exponent and mantissa;
    strings are ordered as by memcmp() and their lengths.  The members of a
    sorted set are ordered by score and then by string. *)

From stdpp Require Import sorting.
From S2P Require Import Prelude Object Skiplist SkiplistProofs.

(** ** Scores *)

(** The class of a number, its exponent and its mantissa, with the order of
    negative numbers reversed. *)
Definition dkey (d : double) : Z * Z * Z :=
  match d with
  | S754_infinity true => (-2, 0, 0)
  | S754_finite true m e => (-1, - e, - Z.pos m)
  | S754_zero _ | S754_nan => (0, 0, 0)
  | S754_finite false m e => (1, e, Z.pos m)
  | S754_infinity false => (2, 0, 0)
  end.

Definition key_compare (a b : Z * Z * Z) : comparison :=
  let '(a1, a2, a3) := a in
  let '(b1, b2, b3) := b in
  match a1 ?= b1 with Eq => match a2 ?= b2 with Eq => a3 ?= b3 | c => c end | c => c end.

Lemma SFcompare_key a b : isnan a = false -> isnan b = false -> SFcompare a b = Some (key_compare (dkey a) (dkey b)).
Proof.
  destruct a as [[]|[]| |[] m e], b as [[]|[]| |[] m' e']; cbn; try done; intros _ _; f_equal.
  rewrite (Z.compare_opp e e'). destruct (Z.compare_spec e e') as [->|H|H].
  - by rewrite Z.compare_refl.
  - by rewrite (proj2 (Z.compare_gt_iff e' e)).
  - by rewrite (proj2 (Z.compare_lt_iff e' e)).
Qed.

Definition key_lt (a b : Z * Z * Z) : Prop :=
  let '(a1, a2, a3) := a in
  let '(b1, b2, b3) := b in a1 < b1 \/ a1 = b1 /\ (a2 < b2 \/ a2 = b2 /\ a3 < b3).

Lemma key_compare_spec a b : CompareSpec (a = b) (key_lt a b) (key_lt b a) (key_compare a b).
Proof.
  destruct a as [[a1 a2] a3], b as [[b1 b2] b3]. unfold key_compare.
  destruct (Z.compare_spec a1 b1); [subst|constructor; cbn; lia..].
  destruct (Z.compare_spec a2 b2); [subst|constructor; cbn; lia..].
  destruct (Z.compare_spec a3 b3); constructor; cbn; [by subst|lia..].
Qed.

Lemma key_lt_irrefl a : ~ key_lt a a.
Proof. destruct a as [[a1 a2] a3]. cbn. lia. Qed.

Lemma key_lt_trans a b c : key_lt a b -> key_lt b c -> key_lt a c.
Proof. destruct a as [[a1 a2] a3], b as [[b1 b2] b3], c as [[c1 c2] c3]. cbn. lia. Qed.

Section doubles.
Context (a b : double) (Ha : isnan a = false) (Hb : isnan b = false).

Lemma SFltb_key : SFltb a b = true <-> key_lt (dkey a) (dkey b).
Proof.
  unfold SFltb. rewrite SFcompare_key by done. destruct (key_compare_spec (dkey a) (dkey b)) as [E|H|H]; [|done|].
  - rewrite E. split; [done|]. by intros ?%key_lt_irrefl.
  - split; [done|]. intros H'. exfalso. eapply key_lt_irrefl, key_lt_trans; eassumption.
Qed.

Lemma SFeqb_key : SFeqb a b = true <-> dkey a = dkey b.
Proof.
  unfold SFeqb. rewrite SFcompare_key by done. destruct (key_compare_spec (dkey a) (dkey b)) as [E|H|H]; [done|..].
  all: split; [done|]; intros E; rewrite E in H; by apply key_lt_irrefl in H.
Qed.

Lemma SFleb_key : SFleb a b = true <-> ~ key_lt (dkey b) (dkey a).
Proof.
  unfold SFleb. rewrite SFcompare_key by done. destruct (key_compare_spec (dkey a) (dkey b)) as [E|H|H].
  - rewrite E. split; [|done]. intros _. apply key_lt_irrefl.
  - split; [|done]. intros _ H'. eapply key_lt_irrefl, key_lt_trans; eassumption.
  - split; [done|]. by intros [].
Qed.
End doubles.

(** ** Strings *)

(** The order of compareStringObjects() without the width of its result. *)
Fixpoint scmp (a b : list Z) : Z :=
  match a, b with
  | [], [] => 0
  | [], _ :: _ => -1
  | _ :: _, [] => 1
  | x :: a, y :: b => if x =? y then scmp a b else x - y
  end.

(** A string that an sds string can hold in a set: its length is an int. *)
Definition short (a : list Z) : Prop := Z.of_nat (length a) < 2 ^ 31.

Lemma compare_strings_sgn a b : short a -> short b -> Z.sgn (compare_strings a b) = Z.sgn (scmp a b).
Proof.
  unfold short. intros Ha Hb.
  assert (H : Z.sgn (if memcmp_min a b =? 0 then Z.of_nat (length a) - Z.of_nat (length b) else memcmp_min a b) = Z.sgn (scmp a b)).
  { clear Ha Hb. revert b; induction a as [|x a IH]; intros [|y b]; cbn [memcmp_min scmp length]; [done|cbn; lia|cbn; lia|].
    destruct (Z.eqb_spec x y) as [->|Hn]; [|destruct (Z.eqb_spec (x - y) 0); [lia|done]].
    rewrite <- IH. f_equal. destruct (_ =? 0); [lia|done]. }
  rewrite <- H. unfold compare_strings. destruct (_ =? 0); [|done]. rewrite swrap_id; [done|unfold in_s; lia..].
Qed.

Lemma scmp_eq a b : scmp a b = 0 <-> a = b.
Proof.
  revert b; induction a as [|x a IH]; intros [|y b]; cbn; try done.
  destruct (Z.eqb_spec x y) as [->|Hn]; [rewrite IH; split; congruence|]. split; [lia|congruence].
Qed.

Lemma scmp_flip a b : Z.sgn (scmp b a) = - Z.sgn (scmp a b).
Proof.
  revert b; induction a as [|x a IH]; intros [|y b]; cbn; try done. rewrite (Z.eqb_sym y x).
  destruct (Z.eqb_spec x y) as [->|Hn]; [apply IH|lia].
Qed.

Lemma scmp_trans a b c : scmp a b < 0 -> scmp b c < 0 -> scmp a c < 0.
Proof.
  revert b c; induction a as [|x a IH]; intros [|y b] [|z c]; cbn; try lia; try done.
  destruct (Z.eqb_spec x y) as [->|], (Z.eqb_spec y z) as [->|]; intros H1 H2.
  - rewrite ?Z.eqb_refl. eauto.
  - destruct (Z.eqb_spec y z); lia.
  - destruct (Z.eqb_spec x z); lia.
  - destruct (Z.eqb_spec x z) as [->|]; lia.
Qed.

(** ** Members *)

Abbreviation member := (double * list Z)%type.

Definition zlt (x y : member) : bool :=
  SFltb x.1 y.1 || (SFeqb x.1 y.1 && (compare_strings x.2 y.2 <? 0)).

Definition ok_member (x : member) : Prop := isnan x.1 = false /\ short x.2.

(** The same order, on the keys of the scores. *)
Lemma zlt_key x y : ok_member x -> ok_member y ->
  zlt x y = true <-> key_lt (dkey x.1) (dkey y.1) \/ dkey x.1 = dkey y.1 /\ scmp x.2 y.2 < 0.
Proof.
  intros [Hx Sx] [Hy Sy]. unfold zlt. rewrite orb_true_iff, andb_true_iff, SFltb_key, SFeqb_key, Z.ltb_lt by done.
  pose proof (compare_strings_sgn x.2 y.2 Sx Sy). enough (compare_strings x.2 y.2 < 0 <-> scmp x.2 y.2 < 0) by tauto. lia.
Qed.

Lemma zlt_trans x y z : ok_member x -> ok_member y -> ok_member z -> zlt x y = true -> zlt y z = true -> zlt x z = true.
Proof.
  intros Hx Hy Hz. rewrite !zlt_key by done. intros [H1|[E1 H1]] [H2|[E2 H2]].
  - left. by eapply key_lt_trans.
  - left. by rewrite <- E2.
  - left. by rewrite E1.
  - right. split; [congruence|]. by eapply scmp_trans.
Qed.

Lemma zlt_total x y : ok_member x -> ok_member y -> x.2 <> y.2 -> zlt x y = false -> zlt y x = true.
Proof.
  intros Hx Hy Hn H. apply not_true_iff_false in H. rewrite zlt_key in H by done. rewrite zlt_key by done.
  destruct (key_compare_spec (dkey x.1) (dkey y.1)) as [E|L|L]; [|tauto|by left].
  right. split; [done|]. pose proof (scmp_flip x.2 y.2) as Hf. assert (scmp x.2 y.2 <> 0) by (by rewrite scmp_eq).
  assert (~ scmp x.2 y.2 < 0) by tauto. lia.
Qed.

(** A sorted set: members that are not NaN, each string once, in order. *)
Record ordered (l : list member) : Prop := mk_ordered {
  o_members : Forall ok_member l;
  o_distinct : NoDup l.*2;
  o_sorted : StronglySorted (fun x y => zlt x y = true) l
}.

Lemma ordered_app l1 l2 : ordered (l1 ++ l2) <->
  ordered l1 /\ ordered l2 /\ (forall x y, x ∈ l1 -> y ∈ l2 -> zlt x y = true /\ x.2 <> y.2).
Proof.
  split.
  - intros [H1 H2 H3]. apply Forall_app in H1 as [A1 B1]. rewrite fmap_app in H2. apply NoDup_app in H2 as (A2 & C2 & B2).
    apply StronglySorted_app in H3 as (C3 & A3 & B3). split; [by split|]. split; [by split|]. intros x y Hx Hy. split; [by apply C3|].
    intros E. apply (C2 x.2); [by apply list_elem_of_fmap_2|]. rewrite E. by apply list_elem_of_fmap_2.
  - intros ([A1 A2 A3] & [B1 B2 B3] & C). split.
    + by apply Forall_app.
    + rewrite fmap_app. apply NoDup_app. split; [done|]. split; [|done]. intros o Hx Hy.
      apply list_elem_of_fmap in Hx as (x & -> & Hx). apply list_elem_of_fmap in Hy as (y & E & Hy). by destruct (C x y Hx Hy).
    + apply StronglySorted_app. split; [|done]. intros x y Hx Hy. by apply C.
Qed.

Lemma ordered_single x : ok_member x -> ordered [x].
Proof. intros H. split; [by constructor|apply NoDup_singleton|by repeat constructor]. Qed.

(** A condition that holds for a prefix of a sorted set. *)
Definition downward (P : member -> bool) (l : list member) : Prop :=
  forall x y, x ∈ l -> y ∈ l -> zlt x y = true -> P y = true -> P x = true.

Lemma downward_split P l : ordered l -> downward P l -> l = List.filter P l ++ List.filter (fun x => negb (P x)) l.
Proof.
  intros [_ _ H] Hd. induction H as [|x l Hs IH Hf]; [done|]. cbn. destruct (P x) eqn:Ex; cbn.
  - f_equal. apply IH. intros y z Hy Hz. apply Hd; by right.
  - assert (Hall : forall y, y ∈ l -> P y = false).
    { intros y Hy. destruct (P y) eqn:Ey; [|done]. rewrite <- Ex. symmetry. apply (Hd x y); [by left|by right| |done].
      rewrite Forall_forall in Hf. by apply Hf. }
    assert (E1 : List.filter P l = []).
    { clear -Hall. induction l as [|y l IH]; [done|]. cbn. rewrite Hall by left. apply IH. intros z Hz. apply Hall. by right. }
    rewrite E1. cbn. f_equal. clear -Hall. induction l as [|y l IH]; [done|]. cbn. rewrite Hall by left. cbn. f_equal. apply IH.
    intros z Hz. apply Hall. by right.
Qed.

Lemma filter_elem (P : member -> bool) l x : x ∈ List.filter P l <-> x ∈ l /\ P x = true.
Proof. rewrite !list_elem_of_In, filter_In. done. Qed.

(** The new member at its place. *)
Definition zins (x : member) (l : list member) : list member :=
  List.filter (fun y => zlt y x) l ++ x :: List.filter (fun y => negb (zlt y x)) l.

Lemma downward_zlt x l : ordered l -> ok_member x -> downward (fun y => zlt y x) l.
Proof.
  intros [Ho _ _] Hx y z Hy Hz Hl. rewrite Forall_forall in Ho. apply zlt_trans; auto.
Qed.

Lemma zins_ordered x l : ordered l -> ok_member x -> x.2 ∉ l.*2 -> ordered (zins x l).
Proof.
  intros H Hx Hn. pose proof H as [Ho _ _]. rewrite Forall_forall in Ho.
  pose proof (downward_split _ l H (downward_zlt x l H Hx)) as E. rewrite E in H. apply ordered_app in H as (HA & HB & HAB).
  unfold zins. apply ordered_app. split; [done|].
  assert (Hne : forall y, y ∈ l -> y.2 <> x.2). { intros y Hy Ey. apply Hn. rewrite <- Ey. by apply list_elem_of_fmap_2. }
  split.
  - change (x :: ?l) with ([x] ++ l). apply ordered_app. split; [by apply ordered_single|]. split; [done|].
    intros x' y ->%list_elem_of_singleton (Hy & Hz)%filter_elem. apply negb_true_iff in Hz.
    split; [apply zlt_total; auto|intros Ey; by apply (Hne y)].
  - intros y z Hy [->|Hz]%elem_of_cons; [|by apply HAB]. apply filter_elem in Hy as [Hy Hl]. auto.
Qed.
