(* ===== verification/SkiplistTheorems.v ===== *)
(** * SkiplistTheorems: the skip list of a sorted set

    The functions of the skip list of t_zset.c compute on its memory what
    the specification computes on the sorted list of the members. *)

From stdpp Require Import sorting.
From S2P Require Import Prelude Object Skiplist SkiplistProofs SkiplistDelete SkiplistOrder.

(** ** The set that a skip list represents *)

Definition pair_of (e : zent) : member := (e_score e, e_obj e).

Definition zrepr (s : zstate) (l : list member) : Prop := exists es, rep s es /\ pair_of <$> es = l /\ ordered l.

(** The node at an address holds a member. *)
Definition holds (s : zstate) (a : Z) (x : member) : Prop :=
  exists nd, znodes s !! a = Some nd /\ z_score nd = x.1 /\ z_obj nd = Some x.2.

(** The hash table of the set has the scores of the members. *)
Definition indexed (s : zstate) (l : list member) : Prop :=
  forall o sc, zdict s !! o = Some sc <-> (sc, o) ∈ l.

Lemma rep_holds s es p e : rep s es -> es !! p = Some e -> holds s (e_addr e) (pair_of e).
Proof. intros R He. destruct (shape_node _ _ _ _ _ _ (r_nodes _ _ R _ _ He)) as (nd & H1 & H2 & H3 & _). by exists nd. Qed.

(** A condition on members as the condition of a search. *)
Definition decides (go : Z -> zskiplistNode -> res bool) (P : member -> bool) : Prop :=
  forall t nd o, z_obj nd = Some o -> go t nd = Ret (P (z_score nd, o)).

Lemma split_lookup P (l : list member) p x : l = List.filter P l ++ List.filter (fun x => negb (P x)) l -> l !! p = Some x ->
  P x = (S p <=? length (List.filter P l))%nat.
Proof.
  intros E Hx. rewrite E in Hx. apply lookup_app_Some in Hx as [Hx|[Hp Hx]].
  - rewrite (proj2 (Nat.leb_le _ _)) by (apply lookup_lt_Some in Hx; lia). apply list_elem_of_lookup_2, filter_elem in Hx. tauto.
  - rewrite (proj2 (Nat.leb_gt _ _)) by lia. apply list_elem_of_lookup_2, filter_elem in Hx as [_ Hx]. by apply negb_true_iff.
Qed.

Lemma cuts_filter es go P : ordered (pair_of <$> es) -> downward P (pair_of <$> es) -> decides go P ->
  cuts es go (length (List.filter P (pair_of <$> es))).
Proof.
  intros Ho Hd Hgo p e nd He Hobj Hsc. rewrite (Hgo _ nd (e_obj e) Hobj), Hsc. f_equal.
  apply (split_lookup P (pair_of <$> es)); [by apply downward_split|]. rewrite list_lookup_fmap, He. done.
Qed.

Lemma filter_le {A} (P : A -> bool) l : (length (List.filter P l) <= length l)%nat.
Proof. induction l as [|x l IH]; [done|]. cbn. destruct (P x); cbn; lia. Qed.

(** The list cut where a condition ends. *)
Lemma take_filter es P : ordered (pair_of <$> es) -> downward P (pair_of <$> es) ->
  let k := length (List.filter P (pair_of <$> es)) in
  pair_of <$> take k es = List.filter P (pair_of <$> es) /\ pair_of <$> drop k es = List.filter (fun x => negb (P x)) (pair_of <$> es).
Proof.
  intros Ho Hd k. rewrite fmap_take, fmap_drop. pose proof (downward_split P _ Ho Hd) as E. subst k.
  set (l := pair_of <$> es) in *. split; [rewrite E at 2; by rewrite take_app_length|rewrite E at 2; by rewrite drop_app_length].
Qed.

(** A search for the end of a prefix. *)
Lemma search_prefix s es w go P : rep s es -> ordered (pair_of <$> es) -> 2 ^ 32 <= 2 ^ w -> downward P (pair_of <$> es) -> decides go P ->
  let k := length (List.filter P (pair_of <$> es)) in
  exists y us rs, search w go s = Ret ((y, us, rs), s) /\ marks s es k (Z.to_nat (zlevel (zsl s))) us rs /\ addr_at (header (zsl s)) es k = Some y.
Proof.
  intros R Ho Hw Hd Hgo k. apply (search_spec s es R w go k Hw); [|by apply cuts_filter].
  unfold k. rewrite filter_le. by rewrite length_fmap.
Qed.

Lemma before_decides strict score obj :
  decides (fun _ => before strict score obj)
    (fun x => SFltb x.1 score || (SFeqb x.1 score && (if strict then compare_strings x.2 obj <? 0 else compare_strings x.2 obj <=? 0))).
Proof.
  intros t nd o Ho. unfold before, obj_of. rewrite Ho. cbn. destruct (SFltb _ _); [done|]. by destruct (SFeqb _ _).
Qed.

(** ** Creation *)

Lemma zslCreate_rep s : (forall a, is_Some (znodes s !! a) -> a < zbrk s) -> rep (zslCreate s) [].
Proof.
  intros Hf. assert (Hh : znodes (zslCreate s) !! zbrk s =
    Some (mk_znode None (S754_zero false) None (replicate ZSKIPLIST_MAXLEVEL (mk_zlevel None 0)))) by (cbn; apply lookup_insert_eq).
  split; try done.
  - intros p q a. destruct p, q; cbn; try done.
  - intros a [nd Ha]. cbn in *. apply lookup_insert_Some in Ha as [[<- _]|[_ Ha]]; [lia|]. pose proof (Hf a ltac:(by eexists)). lia.
  - cbn [header zsl zslCreate]. eexists _, _. unfold shape. rewrite Hh. cbn [fmap option_fmap option_map z_obj z_score backward levels]. rewrite length_replicate. done.
  - intros p a i Ha Hi Hl. destruct p; [|done]. cbn in Ha. injection Ha as <-. exists (mk_zlevel None 0). split.
    + unfold lev. rewrite Hh. cbn [mbind option_bind levels]. apply lookup_replicate_2. cbn in Hl. unfold ZSKIPLIST_MAXLEVEL; lia.
    + right. split; [|done]. intros [|r] Hr; [lia|]. cbn [hgt]. rewrite lookup_nil. cbn. lia.
  - intros i Hi. exists 0. unfold lev. cbn [header zsl zslCreate]. rewrite Hh. cbn [mbind option_bind levels]. apply lookup_replicate_2. lia.
Qed.

Lemma ordered_nil : ordered [].
Proof. split; constructor. Qed.

(** The level of a new node is found as soon as random() gives a value that
    ends the loop. *)
Lemma zslRandomLevel_ends random : Exists (fun r => 16384 <= Z.land r 65535) random -> exists L, zslRandomLevel random = Ret L.
Proof.
  intros H. unfold zslRandomLevel. enough (forall l, exists L, random_level random l = Ret L) as Hl by (destruct (Hl 1) as [L ->]; by eexists).
  induction random as [|r random IH]; [by apply Exists_nil in H|]. intros l. cbn. destruct (Z.ltb_spec (Z.land r 65535) 16384); [|by eexists].
  apply IH. apply Exists_cons in H as [H|H]; [lia|done].
Qed.

Lemma zslInsert_spec s l random junk score obj : zrepr s l -> isnan score = false -> Z.of_nat (length obj) < 2 ^ 31 ->
  obj ∉ l.*2 -> Z.of_nat (length l) < 2 ^ 32 - 2 -> Exists (fun r => 16384 <= Z.land r 65535) random ->
  exists x s', zslInsert random junk score obj s = Ret (x, s') /\ zrepr s' (zins (score, obj) l) /\ holds s' x (score, obj) /\ zdict s' = zdict s.
Proof.
  intros (es & R & <- & Ho) Hnan Hs Hn Hlen Hr. destruct (zslRandomLevel_ends random Hr) as [L HL].
  set (P := fun y => zlt y (score, obj)). rewrite length_fmap in Hlen.
  assert (Hx : ok_member (score, obj)) by done. pose proof (downward_zlt _ _ Ho Hx) as Hd.
  set (k := length (List.filter P (pair_of <$> es))).
  assert (Hk : (k <= length es)%nat) by (unfold k; rewrite filter_le; by rewrite length_fmap).
  destruct (zslInsert_at s es k random junk score obj L R Hnan HL) as (s' & E & R' & D); [lia|done| |].
  { apply (cuts_filter es _ P Ho Hd). exact (before_decides true score obj). }
  exists (zbrk s), s'. split; [done|]. destruct (take_filter es P Ho Hd) as [T1 T2]. fold k in T1, T2.
  split; [|split; [|done]].
  - eexists. split; [exact R'|]. split; [|by apply zins_ordered]. unfold ins. rewrite fmap_app, fmap_cons, T1, T2. done.
  - apply (rep_holds s' _ k (mk_zent (zbrk s) score obj (Z.to_nat L)) R'). rewrite ins_lookup, decide_False, decide_True by lia. done.
Qed.

(** C21: zslInsert of t_zset.c, on a list whose members are in order, with a
    score that is not NaN and a string that is not a member: the call
    returns a new node that holds the member, and the list is the old one
    with the member at its place in the order of scores and strings, every
    span and pointer of every level included, whatever level random() gives.
    (random() has to end the loop of zslRandomLevel at some time.) *)
Theorem zslInsert_sorted s l random junk score obj : zrepr s l -> isnan score = false -> Z.of_nat (length obj) < 2 ^ 31 ->
  obj ∉ l.*2 -> Z.of_nat (length l) < 2 ^ 32 - 2 -> Exists (fun r => 16384 <= Z.land r 65535) random ->
  exists x s', zslInsert random junk score obj s = Ret (x, s') /\ zrepr s' (zins (score, obj) l) /\ holds s' x (score, obj) /\ zdict s' = zdict s.
Proof. apply zslInsert_spec. Qed.

(** ** Deletion *)

(** [score == x->score && equalStringObjects(x->obj,obj)] *)
Definition matches (score : double) (obj : list Z) (x : member) : bool := SFeqb score x.1 && bool_decide (x.2 = obj).

Lemma matches_key score obj x : isnan score = false -> ok_member x ->
  matches score obj x = true <-> dkey x.1 = dkey score /\ x.2 = obj.
Proof. intros H1 [H2 _]. unfold matches. rewrite andb_true_iff, bool_decide_eq_true, SFeqb_key by done. naive_solver. Qed.

Lemma matches_zlt score obj x y : ok_member (score, obj) -> ok_member x -> ok_member y -> matches score obj x = true ->
  zlt y x = zlt y (score, obj).
Proof.
  intros Hs Hx Hy Hm. apply matches_key in Hm as [H1 H2]; [|by destruct Hs|done].
  apply eq_iff_eq_true. rewrite !zlt_key by done. cbn. by rewrite H1, H2.
Qed.

Lemma zlt_irrefl x : ok_member x -> zlt x x = false.
Proof.
  intros Hx. apply not_true_iff_false. rewrite zlt_key by done. intros [H|[_ H]]; [by apply key_lt_irrefl in H|].
  assert (scmp x.2 x.2 = 0) by (by apply scmp_eq). lia.
Qed.

(** Where a member can be: right after the members before it. *)
Lemma match_at score obj A B : ordered (A ++ B) -> ok_member (score, obj) ->
  (forall x, x ∈ A -> zlt x (score, obj) = true) -> (forall x, x ∈ B -> zlt x (score, obj) = false) ->
  (forall x, x ∈ A -> matches score obj x = false) /\ (forall y x, head B = Some y -> x ∈ List.tl B -> matches score obj x = false).
Proof.
  intros Ho Hs HA HB. pose proof (o_members _ Ho) as Hok. rewrite Forall_app, !Forall_forall in Hok. destruct Hok as [OA OB]. split.
  - intros x Hx. apply not_true_iff_false. intros Hm. pose proof (matches_zlt _ _ x x Hs (OA x Hx) (OA x Hx) Hm) as E.
    rewrite HA, zlt_irrefl in E by auto. done.
  - intros y x Hy Hx. destruct B as [|y' B]; [done|]. injection Hy as ->. cbn in Hx. apply not_true_iff_false. intros Hm.
    assert (Hxb : x ∈ y :: B) by (by right). assert (Hyb : y ∈ y :: B) by (by left).
    pose proof (matches_zlt _ _ x y Hs (OB x Hxb) (OB y Hyb) Hm) as E. rewrite (HB y) in E by done.
    apply ordered_app in Ho as (_ & [_ _ Hss] & _). apply StronglySorted_cons in Hss as [Hf _]. rewrite Forall_forall in Hf.
    rewrite (Hf x Hx) in E. done.
Qed.

Lemma filter_none {A} (P : A -> bool) l : (forall x, x ∈ l -> P x = false) -> List.filter (fun x => negb (P x)) l = l.
Proof.
  induction l as [|x l IH]; intros H; [done|]. cbn. rewrite H by left. cbn. f_equal. apply IH. intros y Hy. apply H. by right.
Qed.

Lemma existsb_none {A} (P : A -> bool) l : (forall x, x ∈ l -> P x = false) -> existsb P l = false.
Proof.
  induction l as [|x l IH]; intros H; [done|]. cbn. rewrite H by left. apply IH. intros y Hy. apply H. by right.
Qed.

Lemma rep_next s es k a : rep s es -> (k <= length es)%nat -> addr_at (header (zsl s)) es k = Some a ->
  next_of a s = Ret (addr_at (header (zsl s)) es (S k), s).
Proof.
  intros R Hk Ha. destruct (r_levels _ _ R k a 0 Ha) as (l & El & Hg); [by apply (hgt_pos s)|pose proof (r_level _ _ R); lia|].
  by rewrite (next_of_at _ _ _ El), (level0_next s es _ k l R Hk Hg).
Qed.

(** C22: zslDelete of t_zset.c returns whether the list has the member with
    this score and string, and removes exactly this member; the list stays
    in order with all its spans and pointers right. *)
Theorem zslDelete_exact s l score obj : zrepr s l -> isnan score = false -> Z.of_nat (length obj) < 2 ^ 31 ->
  exists s', zslDelete score obj s = Ret (existsb (matches score obj) l, s') /\
    zrepr s' (List.filter (fun x => negb (matches score obj x)) l) /\ zdict s' = zdict s.
Proof.
  intros (es & R & <- & Ho) Hnan Hs. assert (Hx : ok_member (score, obj)) by done. pose proof (downward_zlt _ _ Ho Hx) as Hd.
  set (P := fun y => zlt y (score, obj)) in *. destruct (search_prefix s es 64 _ P R Ho ltac:(lia) Hd (before_decides true score obj)) as (y & us & rs & E & Hm & Hy).
  destruct (take_filter es P Ho Hd) as [T1 T2]. set (k := length (List.filter P (pair_of <$> es))) in *.
  assert (Hk : (k <= length es)%nat) by (unfold k; rewrite filter_le; by rewrite length_fmap).
  destruct (match_at score obj (pair_of <$> take k es) (pair_of <$> drop k es)) as [M1 M2]; [by rewrite <- fmap_app, take_drop|done|..].
  { intros x. rewrite T1. intros [_ H]%filter_elem. done. }
  { intros x. rewrite T2. intros [_ H]%filter_elem. by apply negb_true_iff. }
  unfold zslDelete. zrun. rewrite E, (rep_next s es k y R Hk Hy).
  assert (Hl : pair_of <$> es = (pair_of <$> take k es) ++ (pair_of <$> drop k es)) by (by rewrite <- fmap_app, take_drop).
  rewrite Hl, existsb_app, List.filter_app.
  rewrite (existsb_none _ _ M1), (filter_none _ _ M1). clear T1 T2. cbn [addr_at orb].
  destruct (es !! k) as [e|] eqn:He; cbn.
  2: { exists s. rewrite drop_ge by (by apply lookup_ge_None). split; [done|]. split; [|done]. exists es.
       rewrite take_ge by (by apply lookup_ge_None). cbn. by rewrite app_nil_r. }
  rewrite (drop_S es e k He) in *. cbn in M2. specialize (M2 (pair_of e)).
  destruct (shape_node _ _ _ _ _ _ (r_nodes _ _ R _ _ He)) as (nd & Hnd & Hno & Hns & _). rewrite (node_at _ _ _ Hnd), Hns. unfold obj_of. rewrite Hno.
  cbn [fmap list_fmap existsb List.filter]. rewrite (existsb_none _ (pair_of <$> drop (S k) es)), (filter_none _ (pair_of <$> drop (S k) es)), orb_false_r by auto.
  match goal with |- context [match ?r with Ret a => _ | Fault f => Fault f end] =>
    assert (Hsame : r = Ret (matches score obj (pair_of e))) by (unfold matches; cbn; by destruct (SFeqb _ _)) end.
  rewrite Hsame. destruct (matches score obj (pair_of e)) eqn:Em.
  - assert (Hi : es = ins k e (take k es ++ drop (S k) es)).
    { rewrite <- (take_drop_middle es k e He) at 1. rewrite <- ins_middle. rewrite length_take. by replace (k `min` length es)%nat with k by lia. }
    apply marks_trail in Hm. rewrite Hi in R, Hm.
    destruct (delete_free s (take k es ++ drop (S k) es) k e us (zdict s)) as (s1 & s2 & E1 & D1 & E2 & R2 & _ & D2); [|done|done|].
    { rewrite length_app, length_take. lia. }
    rewrite E1. rewrite <- D1 in E2. assert (with_zdict (zdict s1) s1 = s1) as Es by (by destruct s1). rewrite Es in E2. rewrite E2.
    exists s2. split; [done|]. split; [|done]. cbn. exists (take k es ++ drop (S k) es). split; [done|]. split; [by rewrite fmap_app|].
    rewrite <- (take_drop_middle es k e He), fmap_app, fmap_cons in Ho. apply ordered_app in Ho as (OA & OB & OAB).
    change (pair_of e :: ?l) with ([pair_of e] ++ l) in OB. apply ordered_app in OB as (_ & OB & _). apply ordered_app. split; [done|]. split; [done|].
    intros x z Hx' Hz. apply OAB; [done|by right].
  - exists s. split; [done|]. split; [|done]. exists es. split; [done|]. cbn. rewrite <- fmap_cons, <- (drop_S es e k He), <- fmap_app, take_drop. done.
Qed.

(** ** Ranks *)

(** The search that stops, from the header and the top level. *)
Lemma search_until s es w go stop k (f : nat -> bool) : rep s es -> 2 ^ 32 <= 2 ^ w -> (k <= length es)%nat -> cuts es go k ->
  (forall q, (q < k)%nat -> f q = false) ->
  (forall q a nd, (q <= k)%nat -> addr_at (header (zsl s)) es q = Some a -> znodes s !! a = Some nd -> stop (Z.of_nat q) nd = Ret (f q)) ->
  exists b, addr_at (header (zsl s)) es k = Some b /\
    descend_until w go stop (S (Z.to_nat (zlength (zsl s)))) (Z.to_nat (zlevel (zsl s))) (header (zsl s)) 0 s =
      Ret (if f k then Some (b, Z.of_nat k) else None, s).
Proof.
  intros R Hw Hk Hc Hf Hs. pose proof (r_level _ _ R). pose proof (r_length _ _ R).
  apply (descend_until_spec s es R w go k Hw Hk Hc stop f _ _ Hf Hs 0 (header (zsl s))); [lia|done|cbn; lia|lia|lia|lia].
Qed.

(** [compare(x->obj,o) <= 0] where the other loops have [< 0]. *)
Definition zle (y x : member) : bool := SFltb y.1 x.1 || (SFeqb y.1 x.1 && (compare_strings y.2 x.2 <=? 0)).

Lemma zle_key x y : ok_member x -> ok_member y ->
  zle x y = true <-> key_lt (dkey x.1) (dkey y.1) \/ dkey x.1 = dkey y.1 /\ scmp x.2 y.2 <= 0.
Proof.
  intros [Hx Sx] [Hy Sy]. unfold zle. rewrite orb_true_iff, andb_true_iff, SFltb_key, SFeqb_key, Z.leb_le by done.
  pose proof (compare_strings_sgn x.2 y.2 Sx Sy). enough (compare_strings x.2 y.2 <= 0 <-> scmp x.2 y.2 <= 0) by tauto. lia.
Qed.

Lemma zle_zlt x y : ok_member x -> ok_member y -> zle x y = true <-> zlt x y = true \/ matches y.1 y.2 x = true.
Proof.
  intros Hx Hy. pose proof Hy as [Ny _]. rewrite zle_key, zlt_key, matches_key by done. rewrite <- scmp_eq.
  assert (scmp x.2 y.2 <= 0 <-> scmp x.2 y.2 < 0 \/ scmp x.2 y.2 = 0) by lia. tauto.
Qed.

Lemma downward_zle x l : ordered l -> ok_member x -> downward (fun y => zle y x) l.
Proof.
  intros [Ho _ _] Hx y z Hy Hz Hl Hle. rewrite Forall_forall in Ho. destruct x as [sc o].
  apply zle_zlt in Hle as [H|H]; auto; apply zle_zlt; auto; left; [by apply (zlt_trans y z); auto|].
  by rewrite <- (matches_zlt sc o z y); auto.
Qed.

(** Members up to one of the list. *)
Lemma count_zle l p x sc o : ordered l -> ok_member (sc, o) -> l !! p = Some x -> matches sc o x = true ->
  length (List.filter (fun y => zle y (sc, o)) l) = S p.
Proof.
  intros Ho Hs Hp Hm. pose proof (o_members _ Ho) as Hok. rewrite Forall_forall in Hok.
  pose proof (downward_split _ l Ho (downward_zle (sc, o) l Ho Hs)) as E. set (P := fun y => zle y (sc, o)) in *.
  pose proof (split_lookup P l p x E Hp) as H1.
  assert (Hx : P x = true) by (apply zle_zlt; [by apply list_elem_of_lookup_2, Hok in Hp|done|by right]).
  rewrite Hx in H1. symmetry in H1. apply Nat.leb_le in H1.
  enough (length (List.filter P l) < S (S p))%nat by lia.
  destruct (decide (S (S p) <= length (List.filter P l))%nat) as [Hc|]; [exfalso|lia].
  destruct (lookup_lt_is_Some_2 l (S p)) as [y Hy]. { pose proof (filter_le P l). lia. }
  pose proof (split_lookup P l (S p) y E Hy) as H2. rewrite (proj2 (Nat.leb_le _ _)) in H2 by done.
  assert (Hl : zlt x y = true).
  { rewrite <- (take_drop_middle l p x Hp) in Ho. apply ordered_app in Ho as (_ & [_ _ Hss] & _).
    apply StronglySorted_cons in Hss as [Hf _]. rewrite Forall_forall in Hf. apply Hf, (list_elem_of_lookup_2 _ 0).
    rewrite lookup_drop. by replace (S p + 0)%nat with (S p) by lia. }
  apply list_elem_of_lookup_2, Hok in Hp. apply list_elem_of_lookup_2, Hok in Hy.
  apply zle_zlt in H2 as [H2|H2]; [| |done|done].
  - rewrite <- (matches_zlt sc o x y) in H2 by done. pose proof (zlt_trans x y x Hp Hy Hp Hl H2). by rewrite zlt_irrefl in * by done.
  - cbn in H2. rewrite (matches_zlt sc o y x) in Hl by done. rewrite <- (matches_zlt sc o x x) in Hl by done. by rewrite zlt_irrefl in Hl.
Qed.

Lemma member_obj es p e : es !! p = Some e -> (pair_of <$> es).*2 !! p = Some (e_obj e).
Proof. intros H. by rewrite !list_lookup_fmap, H. Qed.

Lemma zslGetRank_at s es score o p : rep s es -> ordered (pair_of <$> es) -> ok_member (score, o) ->
  (match p with
   | S p => exists e, es !! p = Some e /\ matches score o (pair_of e) = true
   | O => o ∉ (pair_of <$> es).*2
   end) -> zslGetRank score o s = Ret (Z.of_nat p, s).
Proof.
  intros R Ho Hs Hp. set (P := fun y => zle y (score, o)). set (k := length (List.filter P (pair_of <$> es))).
  assert (Hk : (k <= length es)%nat) by (unfold k; rewrite filter_le; by rewrite length_fmap).
  assert (Hc : cuts es (fun _ => before false score o) k).
  { apply (cuts_filter es _ P Ho (downward_zle _ _ Ho Hs)). exact (before_decides false score o). }
  set (f := fun q => match q with O => false | S q => bool_decide ((pair_of <$> es).*2 !! q = Some o) end).
  assert (Hf : forall q e, es !! q = Some e -> f (S q) = bool_decide (e_obj e = o)).
  { intros q e He. unfold f. rewrite (member_obj es q e He). apply bool_decide_ext. split; [by intros [= ->]|by intros ->]. }
  assert (Hfk : (forall q, (q < k)%nat -> f q = false) /\ (if f k then k = p else p = 0%nat)).
  { destruct p as [|p].
    - assert (Hn : forall q, f q = false); [|by rewrite Hn]. intros [|q]; [done|]. apply bool_decide_false. intros Hq.
      by apply list_elem_of_lookup_2 in Hq.
    - destruct Hp as (e & He & Hm). pose proof (member_obj es p e He) as Hmo. assert (Hle : (pair_of <$> es) !! p = Some (pair_of e)) by (by rewrite list_lookup_fmap, He).
      assert (Ek : k = S p) by (by apply (count_zle _ p (pair_of e))).
      assert (Heo : e_obj e = o) by (apply matches_key in Hm; [tauto|by destruct Hs|];
        pose proof (o_members _ Ho) as Hok; rewrite Forall_forall in Hok; by apply Hok, (list_elem_of_lookup_2 _ p)).
      rewrite Heo in Hmo. split; [|rewrite Ek; unfold f; by rewrite bool_decide_true].
      intros [|q] Hq; [done|]. apply bool_decide_false. intros Hq'. pose proof (NoDup_lookup _ _ _ _ (o_distinct _ Ho) Hmo Hq'). lia. }
  destruct Hfk as [Hf1 Hf2].
  destruct (search_until s es 64 (fun _ => before false score o) (fun _ n => Ret (bool_decide (z_obj n = Some o))) k f R ltac:(lia) Hk Hc Hf1) as (b & _ & E).
  { intros q a nd Hq Ha Hnd. f_equal. destruct q as [|q].
    - destruct (r_header _ _ R) as (sc & b & Hh). injection Ha as <-. destruct (shape_node _ _ _ _ _ _ Hh) as (nd' & H1 & H2 & _).
      assert (nd' = nd) as -> by congruence. by rewrite H2.
    - cbn in Ha. destruct (es !! q) as [e|] eqn:He; [|done]. injection Ha as <-. rewrite (Hf q e He).
      destruct (shape_node _ _ _ _ _ _ (r_nodes _ _ R _ _ He)) as (nd' & H1 & H2 & _). assert (nd' = nd) as -> by congruence. rewrite H2.
      apply bool_decide_ext. split; [by intros [= ->]|by intros ->]. }
  unfold zslGetRank. zrun. rewrite E. destruct (f k); by rewrite <- Hf2 || rewrite Hf2.
Qed.

Lemma zslGetElementByRank_at s es rank : rep s es -> 1 <= rank < 2 ^ 64 ->
  zslGetElementByRank rank s = Ret (e_addr <$> es !! Z.to_nat (rank - 1), s).
Proof.
  intros R Hr. set (k := Nat.min (Z.to_nat rank) (length es)).
  destruct (search_until s es 64 (fun t _ => Ret (t <=? rank)) (fun t _ => Ret (t =? rank)) k (fun q => Z.of_nat q =? rank) R ltac:(lia)) as (b & Hb & E).
  - unfold k. lia.
  - intros p e nd He _ _. f_equal. apply lookup_lt_Some in He. unfold k. destruct (Z.leb_spec (Z.of_nat (S p)) rank), (Nat.leb_spec (S p) (Z.to_nat rank `min` length es)); done || lia.
  - intros q Hq. unfold k in Hq. lia.
  - done.
  - unfold zslGetElementByRank. zrun. rewrite E. unfold k in *. destruct (Z.eqb_spec (Z.of_nat (Z.to_nat rank `min` length es)) rank) as [Ek|Ek].
    + replace (Z.to_nat rank `min` length es)%nat with (S (Z.to_nat (rank - 1))) in Hb by lia. cbn in Hb. by rewrite Hb.
    + by rewrite lookup_ge_None_2 by lia.
Qed.

(** C23: zslGetRank and zslGetElementByRank of t_zset.c are the two
    directions of the position in the set.  The rank of a member is its
    position, counted from 1, the rank of another string is 0, and the
    element of a rank is a node that holds the member at the position, or
    NULL above the last one.  (The ranks are the sums of the spans passed,
    so this says that the spans are right.) *)
Theorem zsl_ranks s l : zrepr s l ->
  (forall p x, l !! p = Some x -> zslGetRank x.1 x.2 s = Ret (Z.of_nat p + 1, s)) /\
  (forall score o, isnan score = false -> Z.of_nat (length o) < 2 ^ 31 -> o ∉ l.*2 -> zslGetRank score o s = Ret (0, s)) /\
  (forall rank, 1 <= rank < 2 ^ 64 -> match l !! Z.to_nat (rank - 1) with
     | Some x => exists a, zslGetElementByRank rank s = Ret (Some a, s) /\ holds s a x
     | None => zslGetElementByRank rank s = Ret (None, s)
     end).
Proof.
  intros (es & R & <- & Ho). pose proof (o_members _ Ho) as Hok. rewrite Forall_forall in Hok. split_and!.
  - intros p x Hp. pose proof (list_elem_of_lookup_2 _ _ _ Hp) as Hin. rewrite list_lookup_fmap in Hp.
    destruct (es !! p) as [e|] eqn:He; [|done]. injection Hp as <-. rewrite (zslGetRank_at s es _ _ (S p) R Ho).
    + by replace (Z.of_nat (S p)) with (Z.of_nat p + 1) by lia.
    + by apply Hok.
    + exists e. split; [done|]. by apply matches_key; [apply Hok in Hin as []|apply Hok|].
  - intros score o Hn Hs Hni. by apply (zslGetRank_at s es score o 0).
  - intros rank Hr. rewrite (zslGetElementByRank_at s es rank R Hr), list_lookup_fmap.
    destruct (es !! Z.to_nat (rank - 1)) as [e|] eqn:He; [|done]. cbn. exists (e_addr e). split; [done|]. by eapply rep_holds.
Qed.
