(* ===== verification/SkiplistRanges.v ===== *)
(** * SkiplistRanges: ranges of sorted sets

    A range is between two conditions, each of which holds for a prefix of
    the set.  The functions that find the first and the last member of a
    range and the ones that delete a range are proved for such conditions,
    and then for ranges of scores, ranges of strings and ranges of ranks. *)

From stdpp Require Import sorting.
From S2P Require Import Prelude Object Skiplist SkiplistProofs SkiplistDelete SkiplistOrder SkiplistTheorems.

(** ** Lists between two conditions *)

Section between.
Context (P Q : member -> bool) (l : list member).
Hypothesis Ho : ordered l.
Hypothesis HP : downward P l.
Hypothesis HQ : downward Q l.

Definition inside (x : member) : bool := negb (P x) && Q x.

Lemma filter_ext_in (f g : member -> bool) m : (forall x, x ∈ m -> f x = g x) -> List.filter f m = List.filter g m.
Proof.
  induction m as [|x m IH]; intros H; [done|]. cbn. rewrite H by left. destruct (g x); [f_equal|]; apply IH; intros y Hy; apply H; by right.
Qed.

Lemma filter_nil (f : member -> bool) m : (forall x, x ∈ m -> f x = false) -> List.filter f m = [].
Proof. induction m as [|x m IH]; intros H; [done|]. cbn. rewrite H by left. apply IH. intros y Hy. apply H. by right. Qed.

Lemma inside_nil : (forall x, x ∈ l -> inside x = false) -> List.filter inside l = [].
Proof. apply filter_nil. Qed.

(** The members inside are a segment. *)
Lemma inside_segment : exists A M B, l = A ++ M ++ B /\ A = List.filter P l /\ M = List.filter inside l /\
  A ++ B = List.filter (fun x => negb (inside x)) l /\ (forall x, x ∈ M -> Q x = true) /\ (forall x, x ∈ B -> Q x = false).
Proof.
  pose proof (downward_split P l Ho HP) as E. set (A := List.filter P l) in *. set (R := List.filter (fun x => negb (P x)) l) in *.
  assert (OR : ordered R) by (rewrite E in Ho; by apply ordered_app in Ho as (_ & ? & _)).
  assert (DR : downward Q R).
  { intros x y Hx Hy. apply HQ; unfold R in *; apply filter_elem in Hx, Hy; tauto. }
  pose proof (downward_split Q R OR DR) as E2. exists A, (List.filter Q R), (List.filter (fun x => negb (Q x)) R).
  assert (HA : forall x, x ∈ A -> inside x = false) by (intros x [_ Hx]%filter_elem; unfold inside; by rewrite Hx).
  assert (HR : forall x, x ∈ R -> inside x = Q x) by (intros x [_ Hx]%filter_elem; unfold inside; by rewrite Hx).
  split; [by rewrite <- E2|]. split; [done|]. split; [|split; [|split]].
  - rewrite E, List.filter_app, (filter_nil inside A HA). symmetry. by apply filter_ext_in.
  - rewrite E, List.filter_app. rewrite (filter_none inside A HA). f_equal. apply filter_ext_in. intros x Hx. by rewrite HR.
  - intros x [_ Hx]%filter_elem. done.
  - intros x [_ Hx]%filter_elem. by apply negb_true_iff.
Qed.

Lemma first_inside : head (List.filter inside l) =
  match l !! length (List.filter P l) with Some x => if Q x then Some x else None | None => None end.
Proof.
  destruct inside_segment as (A & M & B & E & EA & EM & _ & HM & HB). rewrite <- EA, <- EM, E.
  rewrite lookup_app_r, Nat.sub_diag by done. destruct M as [|x M]; cbn; [|by rewrite HM by left].
  destruct B as [|x B]; [done|]. cbn. by rewrite HB by left.
Qed.

Lemma last_inside : last (List.filter inside l) =
  match last (List.filter Q l) with Some x => if P x then None else Some x | None => None end.
Proof.
  destruct inside_segment as (A & M & B & E & EA & EM & _ & HM & HB). rewrite <- EM.
  assert (HF : List.filter Q l = List.filter Q A ++ M).
  { rewrite E, !List.filter_app, (filter_nil Q B HB), app_nil_r. f_equal. clear -HM. induction M as [|x M IH]; [done|].
    cbn. rewrite HM by left. f_equal. apply IH. intros y Hy. apply HM. by right. }
  assert (HAP : forall x, x ∈ A -> P x = true) by (intros x; rewrite EA; by intros [_ ?]%filter_elem).
  rewrite HF, last_app. destruct (last M) as [x|] eqn:El.
  - apply last_Some_elem_of in El. rewrite EM in El. apply filter_elem in El as [_ El]. unfold inside in El.
    apply andb_true_iff in El as [El _]. apply negb_true_iff in El. by rewrite El.
  - destruct (last (List.filter Q A)) as [x|] eqn:Ex; [|done]. apply last_Some_elem_of, filter_elem in Ex as [Ex _]. by rewrite HAP.
Qed.
End between.

(** ** Pointers to members *)

Definition points (s : zstate) (a : option Z) (x : option member) : Prop :=
  match x with
  | Some x => exists n, a = Some n /\ holds s n x
  | None => a = None
  end.

Lemma rep_points s es p : rep s es -> points s (e_addr <$> es !! p) ((pair_of <$> es) !! p).
Proof. intros R. rewrite list_lookup_fmap. destruct (es !! p) as [e|] eqn:E; [|done]. cbn. exists (e_addr e). split; [done|]. by eapply rep_holds. Qed.

Lemma points_node s a x : points s a (Some x) -> exists n nd, a = Some n /\ node n s = Ret (nd, s) /\ z_score nd = x.1 /\ z_obj nd = Some x.2.
Proof. intros (n & -> & nd & Hnd & Hs & Ho). exists n, nd. by rewrite (node_at _ _ _ Hnd). Qed.

(** The tail, and the first node. *)
Lemma rep_tail s es : rep s es -> points s (tail (zsl s)) (last (pair_of <$> es)).
Proof. intros R. rewrite (r_tail _ _ R), fmap_last, !last_lookup. rewrite <- (list_lookup_fmap pair_of). apply (rep_points s es _ R). Qed.

Lemma rep_first s es : rep s es -> exists a, next_of (header (zsl s)) s = Ret (a, s) /\ points s a (head (pair_of <$> es)).
Proof.
  intros R. eexists. split; [apply (rep_next s es 0 (header (zsl s)) R); [lia|done]|]. rewrite head_lookup. apply (rep_points s es 0 R).
Qed.

(** The node after a prefix, and the last of a prefix. *)
Section find.
Context (s : zstate) (l : list member) (R : zrepr s l) (go : Z -> zskiplistNode -> res bool) (P : member -> bool).
Hypothesis HP : downward P l.
Hypothesis Hgo : decides go P.

Lemma search_next : exists y us rs a, search 64 go s = Ret ((y, us, rs), s) /\ next_of y s = Ret (a, s) /\
  points s a (l !! length (List.filter P l)).
Proof.
  destruct R as (es & Re & <- & Ho). destruct (search_prefix s es 64 go P Re Ho ltac:(lia) HP Hgo) as (y & us & rs & E & _ & Hy).
  eexists y, us, rs, _. split; [done|]. split; [eapply (rep_next s es _ y Re); [|exact Hy]|].
  - rewrite filter_le. by rewrite length_fmap.
  - apply (rep_points s es _ Re).
Qed.

Lemma search_last x : last (List.filter P l) = Some x -> exists y us rs, search 64 go s = Ret ((y, us, rs), s) /\ holds s y x.
Proof.
  destruct R as (es & Re & <- & Ho). intros Hx. destruct (search_prefix s es 64 go P Re Ho ltac:(lia) HP Hgo) as (y & us & rs & E & _ & Hy).
  exists y, us, rs. split; [done|]. rewrite last_lookup in Hx. destruct (length (List.filter P (pair_of <$> es))) as [|k] eqn:Ek.
  { by rewrite lookup_ge_None_2 in Hx by lia. }
  cbn in Hx, Hy. assert (Hl : (pair_of <$> es) !! k = Some x).
  { rewrite (downward_split P _ Ho HP). by apply lookup_app_l_Some. }
  pose proof (rep_points s es k Re) as Hp. rewrite Hl in Hp. destruct Hp as (n & En & Hn). by rewrite Hy in En; injection En as ->.
Qed.
End find.

(** ** Deleting a segment *)

Lemma drop_objs_lookup mid : forall d o, drop_objs mid d !! o = if decide (o ∈ e_obj <$> mid) then None else d !! o.
Proof.
  unfold drop_objs. induction mid as [|e mid IH]; intros d o; [by rewrite decide_False by (apply not_elem_of_nil)|].
  cbn [foldl]. rewrite IH. cbn [fmap list_fmap]. destruct (decide (o ∈ e_obj <$> mid)) as [H|H]; [by rewrite decide_True by (by right)|].
  destruct (decide (o = e_obj e)) as [->|Hn]; [rewrite lookup_delete_eq, decide_True by left; done|].
  rewrite lookup_delete_ne by done. rewrite decide_False; [done|]. intros [?|?]%elem_of_cons; done.
Qed.

Lemma indexed_drop s s' A M B mid : ordered (A ++ M ++ B) -> pair_of <$> mid = M -> zdict s' = drop_objs mid (zdict s) ->
  indexed s (A ++ M ++ B) -> indexed s' (A ++ B).
Proof.
  intros Ho <- Hd Hi o sc. rewrite Hd, drop_objs_lookup. apply ordered_app in Ho as (_ & HB & HA). apply ordered_app in HB as (_ & _ & HB).
  assert (Hin : o ∈ e_obj <$> mid -> exists x, x ∈ pair_of <$> mid /\ x.2 = o).
  { intros (e & -> & He)%list_elem_of_fmap. exists (pair_of e). split; [by apply list_elem_of_fmap_2|done]. }
  destruct (decide (o ∈ e_obj <$> mid)) as [H|H].
  - split; [done|]. destruct (Hin H) as (x & Hx & Ex). intros [H1|H1]%elem_of_app; exfalso.
    + destruct (HA (sc, o) x H1) as [_ Hne]; [by apply elem_of_app; left|]. by apply Hne.
    + destruct (HB x (sc, o) Hx H1) as [_ Hne]. by apply Hne.
  - rewrite (Hi o sc), !elem_of_app. split; [|tauto]. intros [?|[Hm|?]]; [tauto| |tauto]. exfalso. apply H.
    apply list_elem_of_fmap in Hm as (e & E & He). injection E as _ ->. by apply list_elem_of_fmap_2.
Qed.

Section delete_segment.
Context (in_range : Z -> zskiplistNode -> res bool).

(** The loop deletes the members [M]. *)
Definition covers (t : Z) (M B : list member) : Prop :=
  (forall p x nd, M !! p = Some x -> z_obj nd = Some x.2 -> z_score nd = x.1 -> in_range (t + Z.of_nat p) nd = Ret true) /\
  (forall x nd, head B = Some x -> z_obj nd = Some x.2 -> z_score nd = x.1 -> in_range (t + Z.of_nat (length M)) nd = Ret false).

Lemma covers_accepts mid post : forall t, covers t (pair_of <$> mid) (pair_of <$> post) -> accepts in_range t mid post.
Proof.
  induction mid as [|e mid IH]; intros t [H1 H2].
  - destruct post as [|e post]; [done|]. intros nd Ho Hs. specialize (H2 (pair_of e) nd eq_refl Ho Hs). cbn in H2. by rewrite Z.add_0_r in H2.
  - split; [intros nd Ho Hs; specialize (H1 0%nat (pair_of e) nd eq_refl Ho Hs); cbn in H1; by rewrite Z.add_0_r in H1|].
    apply IH. split.
    + intros p x nd Hp Ho Hs. specialize (H1 (S p) x nd Hp Ho Hs). by replace (t + 1 + Z.of_nat p) with (t + Z.of_nat (S p)) by lia.
    + intros x nd Hx Ho Hs. specialize (H2 x nd Hx Ho Hs). cbn [fmap list_fmap length] in H2.
      by replace (t + 1 + Z.of_nat (length (pair_of <$> mid))) with (t + Z.of_nat (S (length (pair_of <$> mid)))) by lia.
Qed.

Lemma delete_segment s es A M B x us t : rep s es -> ordered (pair_of <$> es) -> pair_of <$> es = A ++ M ++ B ->
  trail s es (length A) us -> addr_at (header (zsl s)) es (length A) = Some x -> covers t M B -> 0 <= t < 2 ^ 64 - 2 ^ 32 ->
  exists s', delete_from in_range x us t s = Ret (Z.of_nat (length M), s') /\ zrepr s' (A ++ B) /\ (indexed s (A ++ M ++ B) -> indexed s' (A ++ B)).
Proof.
  intros R Ho E Ht Hx Hc Htr. rewrite E in Ho. apply fmap_app_inv in E as (pre & es2 & -> & E & ->). symmetry in E.
  apply fmap_app_inv in E as (mid & post & -> & -> & ->). rewrite length_fmap in *.
  destruct (delete_from_spec in_range s pre mid post x us t R Ht Hx (covers_accepts _ _ _ Hc) Htr) as (s' & E' & R' & D').
  exists s'. split; [by rewrite E'|]. split; [|by eapply indexed_drop]. exists (pre ++ post). split; [done|]. split; [by rewrite fmap_app|].
  apply ordered_app in Ho as (OA & OMB & HA). apply ordered_app in OMB as (_ & OB & _). apply ordered_app. split; [done|]. split; [done|].
  intros y z Hy Hz. apply HA; [done|]. apply elem_of_app. by right.
Qed.
End delete_segment.

(** A range between two conditions. *)
Lemma delete_inside s l go P in_range Q : zrepr s l -> downward P l -> decides go P -> downward Q l -> decides in_range Q ->
  exists s', ('(x, update, _) ← search 64 go; delete_from in_range x update 0) s = Ret (Z.of_nat (length (List.filter (inside P Q) l)), s') /\
    zrepr s' (List.filter (fun x => negb (inside P Q x)) l) /\ (indexed s l -> indexed s' (List.filter (fun x => negb (inside P Q x)) l)).
Proof.
  intros (es & R & <- & Ho) HP Hgo HQ Hin. destruct (search_prefix s es 64 go P R Ho ltac:(lia) HP Hgo) as (y & us & rs & E & Hm & Hy).
  destruct (inside_segment P Q _ Ho HP HQ) as (A & M & B & El & EA & EM & ER & HM & HB). rewrite <- EA in Hm, Hy.
  destruct (delete_segment in_range s es A M B y us 0 R Ho El (marks_trail _ _ _ _ _ Hm) Hy) as (s' & E' & R' & D'); [|lia|].
  - split.
    + intros p x nd Hp Hx Hs. rewrite (Hin _ nd x.2 Hx), Hs, <- surjective_pairing. f_equal. by apply HM, (list_elem_of_lookup_2 _ p).
    + intros x nd Hp Hx Hs. rewrite (Hin _ nd x.2 Hx), Hs, <- surjective_pairing. f_equal. apply HB. by apply head_Some_elem_of.
  - exists s'. zrun. rewrite E, E', EM, <- ER. split; [done|]. split; [done|]. by rewrite El.
Qed.

(** The ends of a sorted set. *)
Lemma ordered_last l x y : ordered l -> last l = Some x -> y ∈ l -> y = x \/ zlt y x = true.
Proof.
  intros Ho Hl Hy. apply last_Some in Hl as [l' ->]. apply ordered_app in Ho as (_ & _ & Ho).
  apply elem_of_app in Hy as [Hy| ->%list_elem_of_singleton]; [|by left]. right. apply Ho; [done|by left].
Qed.

Lemma ordered_head l x y : ordered l -> head l = Some x -> y ∈ l -> y = x \/ zlt x y = true.
Proof.
  intros [_ _ Ho] Hl Hy. destruct l as [|x' l]; [done|]. injection Hl as ->. apply elem_of_cons in Hy as [->|Hy]; [by left|].
  apply StronglySorted_cons in Ho as [Hf _]. rewrite Forall_forall in Hf. right. by apply Hf.
Qed.

Lemma filter_lt (P : member -> bool) l x : x ∈ l -> P x = false -> (length (List.filter P l) < length l)%nat.
Proof.
  induction l as [|y l IH]; intros Hx Hp; [by apply not_elem_of_nil in Hx|]. cbn. pose proof (filter_le P l).
  apply elem_of_cons in Hx as [<-|Hx]; [rewrite Hp; lia|]. specialize (IH Hx Hp). destruct (P y); cbn; lia.
Qed.

(** A range that ends before its start, or whose ends a sorted set is
    outside of, has no member. *)
Section outside.
Context (P Q : member -> bool) (l : list member).
Hypothesis Ho : ordered l.
Hypothesis HP : downward P l.
Hypothesis HQ : downward Q l.

Definition overlaps : bool := from_option (fun x => negb (P x)) false (last l) && from_option Q false (head l).

Lemma overlaps_false : overlaps = false -> List.filter (inside P Q) l = [].
Proof.
  intros H. apply filter_nil. intros y Hy. unfold inside. apply andb_false_iff in H as [H|H].
  - destruct (last l) as [x|] eqn:E; [|by apply last_None in E as ->; apply not_elem_of_nil in Hy]. cbn in H. apply negb_false_iff in H.
    destruct (ordered_last l x y Ho E Hy) as [->|Hl]; [by rewrite H|]. by rewrite (HP y x Hy (last_Some_elem_of _ _ E) Hl H).
  - destruct (head l) as [x|] eqn:E; [|by destruct l; [apply not_elem_of_nil in Hy|]]. cbn in H. apply andb_false_iff. right.
    destruct (ordered_head l x y Ho E Hy) as [->|Hl]; [done|]. apply not_true_iff_false. intros Hq.
    rewrite (HQ x y (head_Some_elem_of _ _ E) Hy Hl Hq) in H. done.
Qed.

Lemma overlaps_true : overlaps = true -> (length (List.filter P l) < length l)%nat /\ exists x, last (List.filter Q l) = Some x.
Proof.
  intros [H1 H2]%andb_true_iff. split.
  - destruct (last l) as [x|] eqn:E; [|done]. apply negb_true_iff in H1. apply (filter_lt P l x); [by apply last_Some_elem_of|done].
  - destruct (head l) as [x|] eqn:E; [|done]. cbn in H2. apply head_Some_elem_of in E.
    destruct (last (List.filter Q l)) as [y|] eqn:El; [by exists y|]. apply last_None in El.
    assert (x ∈ List.filter Q l) as Hx by (by apply filter_elem). rewrite El in Hx. by apply not_elem_of_nil in Hx.
Qed.
End outside.

(** ** Ranges of scores *)

Definition in_range (r : zrangespec) (x : member) : bool := zslValueGteMin x.1 r && zslValueLteMax x.1 r.

Section scores.
Context (s : zstate) (l : list member) (r : zrangespec).
Hypothesis R : zrepr s l.
Hypothesis Hmin : isnan (min r) = false.
Hypothesis Hmax : isnan (max r) = false.

Let below (x : member) : bool := negb (zslValueGteMin x.1 r).
Let upto (x : member) : bool := zslValueLteMax x.1 r.

Lemma ok_in x : x ∈ l -> ok_member x.
Proof. destruct R as (_ & _ & _ & [Ho _ _]). rewrite Forall_forall in Ho. auto. Qed.

Lemma gte_key x : x ∈ l -> zslValueGteMin x.1 r = true <->
  if minex r then key_lt (dkey (min r)) (dkey x.1) else ~ key_lt (dkey x.1) (dkey (min r)).
Proof. intros [Hx _]%ok_in. unfold zslValueGteMin. destruct (minex r); [by rewrite SFltb_key|by rewrite SFleb_key]. Qed.

Lemma lte_key x : x ∈ l -> zslValueLteMax x.1 r = true <->
  if maxex r then key_lt (dkey x.1) (dkey (max r)) else ~ key_lt (dkey (max r)) (dkey x.1).
Proof. intros [Hx _]%ok_in. unfold zslValueLteMax. destruct (maxex r); [by rewrite SFltb_key|by rewrite SFleb_key]. Qed.

(** The scores of a sorted set do not decrease. *)
Lemma zlt_scores x y : x ∈ l -> y ∈ l -> zlt x y = true -> ~ key_lt (dkey y.1) (dkey x.1).
Proof.
  intros Hx%ok_in Hy%ok_in. rewrite zlt_key by done. intros [H|[E _]] H'.
  - by eapply key_lt_irrefl, key_lt_trans.
  - rewrite E in H'. by apply key_lt_irrefl in H'.
Qed.

Ltac by_keys := repeat match goal with |- context [dkey ?d] => generalize (dkey d); intros [[? ?] ?] end; cbn; lia.

Lemma below_downward : downward below l.
Proof.
  intros x y Hx Hy Hl. pose proof (zlt_scores x y Hx Hy Hl) as Hs. unfold below. rewrite !negb_true_iff, <- !not_true_iff_false, !gte_key by done.
  revert Hs. destruct (minex r); by_keys.
Qed.

Lemma upto_downward : downward upto l.
Proof.
  intros x y Hx Hy Hl. pose proof (zlt_scores x y Hx Hy Hl) as Hs. unfold upto. rewrite !lte_key by done.
  revert Hs. destruct (maxex r); by_keys.
Qed.

Lemma in_range_inside : List.filter (in_range r) l = List.filter (inside below upto) l.
Proof. apply filter_ext_in. intros x _. unfold in_range, inside, below, upto. by rewrite negb_involutive. Qed.

Definition empty_range : bool := SFltb (max r) (min r) || (SFeqb (min r) (max r) && (minex r || maxex r)).

Lemma empty_range_none : empty_range = true -> List.filter (in_range r) l = [].
Proof.
  intros H. apply filter_nil. intros x Hx. apply not_true_iff_false. unfold in_range. rewrite andb_true_iff, gte_key, lte_key by done.
  revert H. unfold empty_range. rewrite orb_true_iff, !andb_true_iff, orb_true_iff, SFltb_key, SFeqb_key by done.
  destruct (minex r), (maxex r); generalize (dkey (min r)) (dkey (max r)) (dkey x.1); intros [[? ?] ?] [[? ?] ?] [[? ?] ?]; cbn;
    intros [H|[[= -> -> ->] [H|H]]]; done || lia.
Qed.

Lemma zslIsInRange_spec : zslIsInRange r s = Ret (negb empty_range && overlaps below upto l, s).
Proof.
  unfold zslIsInRange. fold empty_range. destruct empty_range; [done|]. destruct R as (es & Re & <- & Ho). cbn [negb andb]. unfold overlaps. zrun.
  pose proof (rep_tail s es Re) as Ht. destruct (last (pair_of <$> es)) as [x|] eqn:El; [|cbn in Ht; by rewrite Ht].
  destruct (points_node _ _ _ Ht) as (n & nd & -> & -> & Hs & _). rewrite Hs. unfold below. cbn. rewrite negb_involutive.
  destruct (zslValueGteMin x.1 r); [|done]. cbn. destruct (rep_first s es Re) as (a & -> & Ha).
  destruct (head (pair_of <$> es)) as [y|] eqn:Eh; [|by destruct es]. destruct (points_node _ _ _ Ha) as (n' & nd' & -> & -> & Hs' & _).
  cbn. by rewrite Hs'.
Qed.

Lemma zslFirstInRange_spec : exists a, zslFirstInRange r s = Ret (a, s) /\ points s a (head (List.filter (in_range r) l)).
Proof.
  unfold zslFirstInRange. zrun. rewrite zslIsInRange_spec. pose proof R as (es & _ & _ & Ho).
  destruct empty_range eqn:Ee; cbn [negb andb]; [rewrite empty_range_none by done; by exists None|].
  rewrite in_range_inside. destruct (overlaps below upto l) eqn:Eo; cbn [negb].
  2: { rewrite (overlaps_false _ _ _ Ho below_downward upto_downward Eo). by exists None. }
  destruct (overlaps_true _ _ _ Eo) as [Hlt _].
  destruct (search_next s l R (fun _ n => Ret (negb (zslValueGteMin (z_score n) r))) below below_downward ltac:(by intros t nd o _)) as (y & us & rs & a & -> & -> & Ha).
  rewrite (first_inside below upto l Ho below_downward upto_downward). destruct (lookup_lt_is_Some_2 _ _ Hlt) as [x Hx]. rewrite Hx in Ha |- *.
  pose proof Ha as Ha'. destruct (points_node _ _ _ Ha) as (n & nd & -> & -> & Hs & _). rewrite Hs. unfold upto. destruct (zslValueLteMax x.1 r); by eexists.
Qed.

Lemma zslLastInRange_spec : exists a, zslLastInRange r s = Ret (a, s) /\ points s a (last (List.filter (in_range r) l)).
Proof.
  unfold zslLastInRange. zrun. rewrite zslIsInRange_spec. pose proof R as (es & _ & _ & Ho).
  destruct empty_range eqn:Ee; cbn [negb andb]; [rewrite empty_range_none by done; by exists None|].
  rewrite in_range_inside. destruct (overlaps below upto l) eqn:Eo; cbn [negb].
  2: { rewrite (overlaps_false _ _ _ Ho below_downward upto_downward Eo). by exists None. }
  destruct (overlaps_true _ _ _ Eo) as [_ [x Hx]].
  destruct (search_last s l R (fun _ n => Ret (zslValueLteMax (z_score n) r)) upto upto_downward ltac:(by intros t nd o _) x Hx) as (y & us & rs & -> & Hy).
  rewrite (last_inside below upto l Ho below_downward upto_downward), Hx. destruct Hy as (nd & Hnd & Hs & Hobj).
  rewrite (node_at _ _ _ Hnd), Hs. unfold below. destruct (zslValueGteMin x.1 r); cbn; eexists; split; try done. exists y. split; [done|]. by exists nd.
Qed.

Lemma zslDeleteRangeByScore_spec : exists s', zslDeleteRangeByScore r s = Ret (Z.of_nat (length (List.filter (in_range r) l)), s') /\
  zrepr s' (List.filter (fun x => negb (in_range r x)) l) /\ (indexed s l -> indexed s' (List.filter (fun x => negb (in_range r x)) l)).
Proof.
  set (P (x : member) := if minex r then SFleb x.1 (min r) else SFltb x.1 (min r)).
  assert (HP : forall x, x ∈ l -> P x = below x).
  { intros x Hx. apply eq_iff_eq_true. unfold below. rewrite negb_true_iff, <- not_true_iff_false, gte_key by done. pose proof (ok_in x Hx) as [Hn _].
    unfold P. destruct (minex r); [rewrite SFleb_key by done; tauto|rewrite SFltb_key by done]. by_keys. }
  destruct (delete_inside s l (fun _ n => Ret (if minex r then SFleb (z_score n) (min r) else SFltb (z_score n) (min r))) P
    (fun _ n => Ret (if maxex r then SFltb (z_score n) (max r) else SFleb (z_score n) (max r))) upto) as (s' & E & R' & I'); [done|..].
  - intros x y Hx Hy. rewrite !HP by done. by apply below_downward.
  - by intros t nd o _.
  - exact upto_downward.
  - by intros t nd o _.
  - assert (HF : forall x, x ∈ l -> inside P upto x = in_range r x).
    { intros x Hx. unfold inside. rewrite HP by done. unfold below, in_range. by rewrite negb_involutive. }
    exists s'. rewrite <- (filter_ext_in _ _ l HF). rewrite <- (filter_ext_in (fun x => negb (inside P upto x)) (fun x => negb (in_range r x)) l) by (intros x Hx; by rewrite HF). done.
Qed.
End scores.

(** ** Ranges of ranks *)

Lemma zslDeleteRangeByRank_spec s l start end_ : zrepr s l -> 1 <= start <= end_ -> end_ < 2 ^ 32 ->
  let a := Z.to_nat (start - 1) in
  let b := Z.to_nat end_ in
  exists s', zslDeleteRangeByRank start end_ s = Ret (Z.of_nat (length (take (b - a) (drop a l))), s') /\
    zrepr s' (take a l ++ drop b l) /\ (indexed s l -> indexed s' (take a l ++ drop b l)).
Proof.
  intros (es & R & <- & Ho) Hs He a b. assert (Eab : Z.of_nat a = start - 1 /\ Z.of_nat b = end_) by lia. clearbody a b. set (l := pair_of <$> es) in *. assert (Hl : length l = length es) by (apply length_fmap).
  set (k := length (take a l)). assert (Ek : k = (a `min` length es)%nat) by (unfold k; rewrite length_take; lia).
  destruct (search_spec s es R 64 (fun t _ => Ret (t <? start)) k ltac:(lia)) as (y & us & rs & E & Hm & Hy); [lia| |].
  { intros p e nd Hp _ _. f_equal. apply lookup_lt_Some in Hp. destruct (Z.ltb_spec (Z.of_nat (S p)) start), (Nat.leb_spec (S p) k); done || lia. }
  assert (Hr : rs !! 0%nat = Some (Z.of_nat k)).
  { pose proof (r_level _ _ R). destruct Hm as (_ & _ & Hm). destruct (Hm 0%nat ltac:(lia)) as (q & u & Hq & _ & _ & ->). by rewrite (prev_zero s es k q R ltac:(lia) Hq). }
  assert (Hsplit : l = take a l ++ take (b - a) (drop a l) ++ drop b l).
  { replace (drop b l) with (drop (b - a) (drop a l)) by (rewrite drop_drop; f_equal; lia). by rewrite !take_drop. }
  pose proof (r_bound _ _ R) as Hb.
  destruct (delete_segment (fun t _ => Ret (t <=? end_)) s es (take a l) (take (b - a) (drop a l)) (drop b l) y us (Z.of_nat k + 1) R Ho Hsplit)
    as (s' & E' & R' & D'); [by apply (marks_trail _ _ _ _ _ Hm)|done| |lia|].
  - split.
    + intros p x nd Hp _ _. f_equal. apply lookup_take_Some in Hp as [Hp1 Hp2]. rewrite lookup_drop in Hp1. apply lookup_lt_Some in Hp1. lia.
    + intros x nd Hx _ _. f_equal. rewrite head_lookup, lookup_drop in Hx. apply lookup_lt_Some in Hx. rewrite length_take, length_drop. apply Z.leb_gt. clearbody k. rewrite Ek, Hl in *. lia.
  - exists s'. unfold zslDeleteRangeByRank. zrun. rewrite E, Hr. cbn [of_opt]. rewrite uwrap_id by (unfold in_u; lia). rewrite E'.
    split; [done|]. split; [done|]. by rewrite <- Hsplit in D'.
Qed.

(** ** Ranges of strings *)

Definition in_lex_range (r : zlexrangespec) (x : member) : bool := zslLexValueGteMin x.2 r && zslLexValueLteMax x.2 r.

Definition short_bound (b : lexbound) : Prop := match b with LexString s => short s | _ => True end.

(** All scores are the same, as the commands on ranges of strings assume. *)
Definition one_score (l : list member) : Prop := forall x y, x ∈ l -> y ∈ l -> SFeqb x.1 y.1 = true.

(** The contents of a bound are not those of the shared object that is the
    other bound. *)
Definition plain_bounds (r : zlexrangespec) : Prop :=
  (lmin r = MinString -> lmax r <> LexString (bytes_of_string "minstring")) /\
  (lmax r = MaxString -> lmin r <> LexString (bytes_of_string "maxstring")).

Section strings.
Context (s : zstate) (l : list member) (r : zlexrangespec).
Hypothesis R : zrepr s l.
Hypothesis H1 : one_score l.
Hypothesis Hmin : short_bound (lmin r).
Hypothesis Hmax : short_bound (lmax r).

Let below (x : member) : bool := negb (zslLexValueGteMin x.2 r).
Let upto (x : member) : bool := zslLexValueLteMax x.2 r.

(** A string against a bound. *)
Definition bcmp (v : list Z) (b : lexbound) : Z :=
  match b with MinString => 1 | MaxString => -1 | LexString w => scmp v w end.

Lemma bcmp_sgn v b : short v -> short_bound b -> Z.sgn (compareStringObjectsForLexRange (LexString v) b) = Z.sgn (bcmp v b).
Proof. intros Hv Hb. destruct b; [done|done|]. by apply compare_strings_sgn. Qed.

Lemma short_in x : x ∈ l -> short x.2.
Proof. intros Hx. by destruct (ok_in s l R x Hx). Qed.

Lemma lex_gte_key x : x ∈ l -> zslLexValueGteMin x.2 r = true <-> if lminex r then 0 < bcmp x.2 (lmin r) else 0 <= bcmp x.2 (lmin r).
Proof.
  intros Hx%short_in. pose proof (bcmp_sgn x.2 (lmin r) Hx Hmin). unfold zslLexValueGteMin. destruct (lminex r); lia.
Qed.

Lemma lex_lte_key x : x ∈ l -> zslLexValueLteMax x.2 r = true <-> if lmaxex r then bcmp x.2 (lmax r) < 0 else bcmp x.2 (lmax r) <= 0.
Proof.
  intros Hx%short_in. pose proof (bcmp_sgn x.2 (lmax r) Hx Hmax). unfold zslLexValueLteMax. destruct (lmaxex r); lia.
Qed.

Lemma zlt_strings x y : x ∈ l -> y ∈ l -> zlt x y = true -> scmp x.2 y.2 < 0.
Proof.
  intros Hx Hy. pose proof (H1 x y Hx Hy) as E. apply (ok_in s l R) in Hx, Hy. rewrite SFeqb_key in E by (by destruct Hx, Hy).
  rewrite zlt_key by done. rewrite E. intros [H|[_ H]]; [by apply key_lt_irrefl in H|done].
Qed.

Lemma bcmp_mono v w b : scmp v w < 0 -> (bcmp w b <= 0 -> bcmp v b < 0) /\ (bcmp w b < 0 -> bcmp v b < 0).
Proof.
  intros Hv. assert (Hle : bcmp w b <= 0 -> bcmp v b < 0); [|split; [done|intros; apply Hle; lia]].
  destruct b as [| |u]; cbn; [lia|lia|]. intros Hw. destruct (decide (scmp w u = 0)) as [E|E].
  - apply scmp_eq in E as ->. done.
  - apply (scmp_trans v w u); [done|lia].
Qed.

Lemma lex_below_downward : downward below l.
Proof.
  intros x y Hx Hy Hl. pose proof (bcmp_mono _ _ (lmin r) (zlt_strings x y Hx Hy Hl)). unfold below.
  rewrite !negb_true_iff, <- !not_true_iff_false, !lex_gte_key by done. destruct (lminex r); lia.
Qed.

Lemma lex_upto_downward : downward upto l.
Proof.
  intros x y Hx Hy Hl. pose proof (bcmp_mono _ _ (lmax r) (zlt_strings x y Hx Hy Hl)). unfold upto.
  rewrite !lex_lte_key by done. destruct (lmaxex r); lia.
Qed.

Lemma lex_inside : List.filter (in_lex_range r) l = List.filter (inside below upto) l.
Proof. apply filter_ext_in. intros x _. unfold in_lex_range, inside, below, upto. by rewrite negb_involutive. Qed.

Lemma lex_gte_node nd x : z_obj nd = Some x.2 -> lex_gte r nd = Ret (negb (below x)).
Proof. intros H. unfold lex_gte, obj_of, below. rewrite H. cbn. by rewrite negb_involutive. Qed.

Lemma lex_lte_node nd x : z_obj nd = Some x.2 -> lex_lte r nd = Ret (upto x).
Proof. intros H. unfold lex_lte, obj_of. by rewrite H. Qed.

Lemma below_decides : decides (fun _ n => neg (lex_gte r n)) below.
Proof. intros t nd o Ho. rewrite (lex_gte_node nd (z_score nd, o)) by done. cbn. by rewrite negb_involutive. Qed.

Lemma upto_decides : decides (fun _ n => lex_lte r n) upto.
Proof. intros t nd o Ho. by rewrite (lex_lte_node nd (z_score nd, o)) by done. Qed.

Lemma zslDeleteRangeByLex_spec : exists s', zslDeleteRangeByLex r s = Ret (Z.of_nat (length (List.filter (in_lex_range r) l)), s') /\
  zrepr s' (List.filter (fun x => negb (in_lex_range r x)) l) /\ (indexed s l -> indexed s' (List.filter (fun x => negb (in_lex_range r x)) l)).
Proof.
  destruct (delete_inside s l _ below _ upto R lex_below_downward below_decides lex_upto_downward upto_decides) as (s' & E & R' & I').
  exists s'. rewrite lex_inside.
  rewrite (filter_ext_in (fun x => negb (in_lex_range r x)) (fun x => negb (inside below upto x)) l); [done|].
  intros x _. unfold in_lex_range, inside, below, upto. by rewrite negb_involutive.
Qed.

Definition empty_lex : bool :=
  (1 <? compareStringObjectsForLexRange (lmin r) (lmax r)) ||
  ((compare_strings (bound_string (lmin r)) (bound_string (lmax r)) =? 0) && (lminex r || lmaxex r)).

Lemma compare_strings_eq a b : short a -> short b -> compare_strings a b = 0 <-> a = b.
Proof. intros Ha Hb. pose proof (compare_strings_sgn a b Ha Hb). rewrite <- scmp_eq. lia. Qed.

Lemma short_contents b : short_bound b -> short (bound_string b).
Proof. by destruct b. Qed.

(** No string is between bounds that the test refuses. *)
Lemma empty_lex_none : plain_bounds r -> empty_lex = true -> List.filter (in_lex_range r) l = [].
Proof.
  intros [Hp1 Hp2] H. apply filter_nil. intros x Hx. apply not_true_iff_false. unfold in_lex_range.
  rewrite andb_true_iff, lex_gte_key, lex_lte_key by done. revert H. unfold empty_lex.
  rewrite orb_true_iff, andb_true_iff, Z.ltb_lt, Z.eqb_eq, compare_strings_eq, orb_true_iff by (by apply short_contents).
  intros H [Hg Hl]. assert (Hge : 0 <= bcmp x.2 (lmin r)) by (destruct (lminex r); lia). assert (Hle : bcmp x.2 (lmax r) <= 0) by (destruct (lmaxex r); lia).
  destruct H as [H|[E H]].
  - destruct (lmin r) as [| |a], (lmax r) as [| |b]; cbn in *; try lia.
    pose proof (compare_strings_sgn a b Hmin Hmax). pose proof (scmp_flip x.2 a). pose proof (scmp_flip a b).
    assert (Hba : scmp b a < 0) by lia. destruct (decide (scmp x.2 b = 0)) as [E0%scmp_eq|]; [rewrite E0 in Hge; lia|].
    pose proof (scmp_trans x.2 b a ltac:(lia) Hba). lia.
  - destruct (lmin r) as [| |a] eqn:E1, (lmax r) as [| |b] eqn:E2; cbn in *; try lia; try done.
    + by destruct Hp1; rewrite ?E.
    + by destruct Hp2; rewrite <- ?E.
    + subst b. destruct (lminex r), (lmaxex r); lia || by destruct H.
Qed.

Lemma zslIsInLexRange_spec : zslIsInLexRange r s = Ret (negb empty_lex && overlaps below upto l, s).
Proof.
  unfold zslIsInLexRange. fold empty_lex. destruct empty_lex; [done|]. destruct R as (es & Re & <- & Ho). cbn [negb andb]. unfold overlaps. zrun.
  pose proof (rep_tail s es Re) as Ht. destruct (last (pair_of <$> es)) as [x|] eqn:El; [|cbn in Ht; by rewrite Ht].
  destruct (points_node _ _ _ Ht) as (n & nd & -> & -> & _ & Hobj). rewrite (lex_gte_node nd x Hobj). cbn [from_option].
  destruct (below x); [done|]. cbn [negb andb]. destruct (rep_first s es Re) as (a & -> & Ha).
  destruct (head (pair_of <$> es)) as [y|] eqn:Eh; [|by destruct es]. destruct (points_node _ _ _ Ha) as (n' & nd' & -> & -> & _ & Hobj').
  by rewrite (lex_lte_node nd' y Hobj').
Qed.

Hypothesis Hpl : plain_bounds r.

Lemma zslFirstInLexRange_spec : exists a, zslFirstInLexRange r s = Ret (a, s) /\ points s a (head (List.filter (in_lex_range r) l)).
Proof.
  unfold zslFirstInLexRange. zrun. rewrite zslIsInLexRange_spec. pose proof R as (es & _ & _ & Ho).
  destruct empty_lex eqn:Ee; cbn [negb andb]; [rewrite empty_lex_none by done; by exists None|].
  rewrite lex_inside. destruct (overlaps below upto l) eqn:Eo; cbn [negb].
  2: { rewrite (overlaps_false _ _ _ Ho lex_below_downward lex_upto_downward Eo). by exists None. }
  destruct (overlaps_true _ _ _ Eo) as [Hlt _].
  destruct (search_next s l R _ below lex_below_downward below_decides) as (y & us & rs & a & -> & -> & Ha).
  rewrite (first_inside below upto l Ho lex_below_downward lex_upto_downward). destruct (lookup_lt_is_Some_2 _ _ Hlt) as [x Hx]. rewrite Hx in Ha |- *.
  pose proof Ha as Ha'. destruct (points_node _ _ _ Ha) as (n & nd & -> & -> & _ & Hobj). rewrite (lex_lte_node nd x Hobj). destruct (upto x); by eexists.
Qed.

Lemma zslLastInLexRange_spec : exists a, zslLastInLexRange r s = Ret (a, s) /\ points s a (last (List.filter (in_lex_range r) l)).
Proof.
  unfold zslLastInLexRange. zrun. rewrite zslIsInLexRange_spec. pose proof R as (es & _ & _ & Ho).
  destruct empty_lex eqn:Ee; cbn [negb andb]; [rewrite empty_lex_none by done; by exists None|].
  rewrite lex_inside. destruct (overlaps below upto l) eqn:Eo; cbn [negb].
  2: { rewrite (overlaps_false _ _ _ Ho lex_below_downward lex_upto_downward Eo). by exists None. }
  destruct (overlaps_true _ _ _ Eo) as [_ [x Hx]].
  destruct (search_last s l R _ upto lex_upto_downward upto_decides x Hx) as (y & us & rs & -> & Hy).
  rewrite (last_inside below upto l Ho lex_below_downward lex_upto_downward), Hx. destruct Hy as (nd & Hnd & Hs & Hobj).
  rewrite (node_at _ _ _ Hnd), (lex_gte_node nd x Hobj). destruct (below x); cbn; eexists; split; try done. exists y. split; [done|]. by exists nd.
Qed.
End strings.

(** ** The theorems *)

(** C25: zslFirstInRange and zslLastInRange of t_zset.c, with bounds that are
    not NaN, return the first and the last member whose score is in the
    range, bounds that are excluded and infinities included, or NULL when no
    member is; the early exit of zslIsInRange and the assertion never go
    wrong. *)
Theorem zsl_score_range s l r : zrepr s l -> isnan (min r) = false -> isnan (max r) = false ->
  exists a b, zslFirstInRange r s = Ret (a, s) /\ points s a (head (List.filter (in_range r) l)) /\
    zslLastInRange r s = Ret (b, s) /\ points s b (last (List.filter (in_range r) l)).
Proof.
  intros R Hmin Hmax. destruct (zslFirstInRange_spec s l r R Hmin Hmax) as (a & Ea & Ha).
  destruct (zslLastInRange_spec s l r R Hmin Hmax) as (b & Eb & Hb). by exists a, b.
Qed.

(** zslFirstInLexRange, zslLastInLexRange and zslDeleteRangeByLex of
    t_zset.c, on a set whose scores are the same: the first and the last
    member in the range of strings, and the deletion of exactly the members
    in the range.  The first two need that no bound is the string
    minstring or maxstring next to the bound - or +. *)
Theorem zsl_lex_range s l r : zrepr s l -> one_score l -> short_bound (lmin r) -> short_bound (lmax r) ->
  (plain_bounds r -> exists a b, zslFirstInLexRange r s = Ret (a, s) /\ points s a (head (List.filter (in_lex_range r) l)) /\
    zslLastInLexRange r s = Ret (b, s) /\ points s b (last (List.filter (in_lex_range r) l))) /\
  exists s', zslDeleteRangeByLex r s = Ret (Z.of_nat (length (List.filter (in_lex_range r) l)), s') /\
    zrepr s' (List.filter (fun x => negb (in_lex_range r x)) l).
Proof.
  intros R H1 Hmin Hmax. split.
  - intros Hpl. destruct (zslFirstInLexRange_spec s l r R H1 Hmin Hmax Hpl) as (a & Ea & Ha).
    destruct (zslLastInLexRange_spec s l r R H1 Hmin Hmax Hpl) as (b & Eb & Hb). by exists a, b.
  - destruct (zslDeleteRangeByLex_spec s l r R H1 Hmin Hmax) as (s' & E & R' & _). by exists s'.
Qed.

(** C24: zslDeleteRangeByScore and zslDeleteRangeByRank of t_zset.c delete
    exactly the members in the range from the skip list and from the hash
    table of the set, return their number, and leave a list in order that
    agrees with the hash table. *)
Theorem zsl_delete_range s l : zrepr s l -> indexed s l ->
  (forall r, isnan (min r) = false -> isnan (max r) = false ->
    exists s', zslDeleteRangeByScore r s = Ret (Z.of_nat (length (List.filter (in_range r) l)), s') /\
      let l' := List.filter (fun x => negb (in_range r x)) l in zrepr s' l' /\ indexed s' l') /\
  (forall start end_, 1 <= start <= end_ -> end_ < 2 ^ 32 ->
    let a := Z.to_nat (start - 1) in
    let b := Z.to_nat end_ in
    exists s', zslDeleteRangeByRank start end_ s = Ret (Z.of_nat (length (take (b - a) (drop a l))), s') /\
      zrepr s' (take a l ++ drop b l) /\ indexed s' (take a l ++ drop b l)).
Proof.
  intros R Hi. split.
  - intros r Hmin Hmax. destruct (zslDeleteRangeByScore_spec s l r R Hmin Hmax) as (s' & E & R' & I'). exists s'. split; [done|]. split; [done|]. by apply I'.
  - intros start end_ Hs He a b. destruct (zslDeleteRangeByRank_spec s l start end_ R Hs He) as (s' & E & R' & I'). exists s'. split; [done|]. split; [done|]. by apply I'.
Qed.
