(* ===== verification/SkiplistWitness.v ===== *)
(** * SkiplistWitness: a concrete sorted set

    A sorted set of three members, built by the functions of the code, on
    which the hypotheses of the theorems hold; and the ranges of strings that
    zslIsInLexRange takes for empty. *)

From S2P Require Import Prelude Object Skiplist SkiplistProofs SkiplistDelete SkiplistOrder SkiplistTheorems SkiplistRanges.

Definition run {A} (m : ZM A) (s : zstate) : zstate := match m s with Ret (_, s) => s | Fault _ => s end.

(** 1.0 and 2.0 *)
Definition one : double := S754_finite false 4503599627370496 (-52).
Definition two : double := S754_finite false 4503599627370496 (-51).
Definition junk0 : zskiplistLevel := mk_zlevel None 77.

Definition str_a : list Z := bytes_of_string "a".
Definition str_b : list Z := bytes_of_string "b".
Definition str_c : list Z := bytes_of_string "c".

Definition zset0 : zstate := zslCreate (mk_zstate ∅ 1 (mk_zsl 0 None 0 0) {[str_a := one; str_b := two; str_c := one]}).
Definition zset1 : zstate := run (zslInsert [65535] junk0 two str_b) zset0.
Definition zset2 : zstate := run (zslInsert [1; 2; 65535] junk0 one str_c) zset1.
Definition zset3 : zstate := run (zslInsert [3; 65535] junk0 one str_a) zset2.

Definition members3 : list member := [(one, str_a); (one, str_c); (two, str_b)].

Lemma zset0_repr : zrepr zset0 [].
Proof. exists []. split; [|split; [done|apply ordered_nil]]. apply zslCreate_rep. intros a [n Hn]. by cbn in Hn; rewrite lookup_empty in Hn. Qed.

Lemma insert_run s l random junk score obj : zrepr s l -> isnan score = false -> Z.of_nat (length obj) < 2 ^ 31 ->
  obj ∉ l.*2 -> Z.of_nat (length l) < 2 ^ 32 - 2 -> Exists (fun r => 16384 <= Z.land r 65535) random ->
  zrepr (run (zslInsert random junk score obj) s) (zins (score, obj) l).
Proof.
  intros R Hn Hs Ho Hl Hr. destruct (zslInsert_spec s l random junk score obj R Hn Hs Ho Hl Hr) as (x & s' & E & R' & _). unfold run. by rewrite E.
Qed.

Lemma zset3_repr : zrepr zset3 members3.
Proof.
  change members3 with (zins (one, str_a) (zins (one, str_c) (zins (two, str_b) []))).
  apply insert_run; [apply insert_run; [apply insert_run; [exact zset0_repr|..]|..]|..];
    try done; try (vm_compute; by intros H; repeat (apply elem_of_cons in H as [H|H]; [discriminate|]); apply not_elem_of_nil in H).
  all: repeat (first [by apply Exists_cons; left|apply Exists_cons; right]).
Qed.

Lemma indexed_three s (a b c : list Z) (x y z : double) : zdict s = {[a := x; b := y; c := z]} -> a <> b -> a <> c -> b <> c ->
  indexed s [(x, a); (z, c); (y, b)].
Proof.
  intros Hd Hab Hac Hbc o sc. rewrite Hd, !elem_of_cons, !lookup_insert_Some, lookup_singleton_Some. split.
  - intros [[<- <-]|[Ha [[<- <-]|[Hb [<- <-]]]]]; auto.
  - intros [[= -> ->]|[[= -> ->]|[[= -> ->]|H]]]; [by left| | |by apply not_elem_of_nil in H].
    + right. split; [done|]. right. split; [done|]. done.
    + right. split; [done|]. by left.
Qed.

Lemma zset3_indexed : indexed zset3 members3.
Proof. apply indexed_three; [vm_compute; reflexivity|discriminate..]. Qed.

(** Two members with the same score. *)
Definition zset_lex : zstate := run (zslInsert [5; 65535] junk0 one str_c) (run (zslInsert [65535] junk0 one str_a) zset0).

Lemma zset_lex_repr : zrepr zset_lex [(one, str_a); (one, str_c)].
Proof.
  change [(one, str_a); (one, str_c)] with (zins (one, str_c) (zins (one, str_a) [])).
  apply insert_run; [apply insert_run; [exact zset0_repr|..]|..];
    try done; try (vm_compute; by intros H; repeat (apply elem_of_cons in H as [H|H]; [discriminate|]); apply not_elem_of_nil in H).
  all: repeat (first [by apply Exists_cons; left|apply Exists_cons; right]).
Qed.

Lemma zset_lex_one_score : one_score [(one, str_a); (one, str_c)].
Proof. intros x y [->|[->|[]%not_elem_of_nil]%elem_of_cons]%elem_of_cons [->|[->|[]%not_elem_of_nil]%elem_of_cons]%elem_of_cons; done. Qed.

(** ** Witnesses *)

Lemma zslInsert_sorted_witness : exists x s', zslInsert [9; 8; 7; 65535] junk0 two str_a zset1 = Ret (x, s') /\
  zrepr s' [(two, str_a); (two, str_b)] /\ holds s' x (two, str_a) /\ zdict s' = zdict zset1.
Proof.
  assert (R : zrepr zset1 [(two, str_b)]).
  { change [(two, str_b)] with (zins (two, str_b) []). apply insert_run; [exact zset0_repr|done|done|by apply not_elem_of_nil|done|].
    by apply Exists_cons; left. }
  apply (zslInsert_sorted zset1 [(two, str_b)] [9; 8; 7; 65535] junk0 two str_a); [exact R|done|done| |done|].
  - vm_compute. by intros H; repeat (apply elem_of_cons in H as [H|H]; [discriminate|]); apply not_elem_of_nil in H.
  - repeat (first [by apply Exists_cons; left|apply Exists_cons; right]).
Defined.

Lemma zslDelete_exact_witness : exists s', zslDelete one str_c zset3 = Ret (true, s') /\
  zrepr s' [(one, str_a); (two, str_b)] /\ zdict s' = zdict zset3.
Proof. exact (zslDelete_exact zset3 members3 one str_c zset3_repr eq_refl eq_refl). Defined.

Lemma zsl_ranks_witness : zslGetRank two str_b zset3 = Ret (3, zset3) /\
  exists a, zslGetElementByRank 3 zset3 = Ret (Some a, zset3) /\ holds zset3 a (two, str_b).
Proof.
  destruct (zsl_ranks zset3 members3 zset3_repr) as (H1 & _ & H3). split; [exact (H1 2%nat (two, str_b) eq_refl)|]. exact (H3 3 ltac:(lia)).
Defined.

Lemma zsl_score_range_witness : exists a b, let r := mk_range one two true false in
  zslFirstInRange r zset3 = Ret (a, zset3) /\ points zset3 a (Some (two, str_b)) /\
  zslLastInRange r zset3 = Ret (b, zset3) /\ points zset3 b (Some (two, str_b)).
Proof. exact (zsl_score_range zset3 members3 (mk_range one two true false) zset3_repr eq_refl eq_refl). Defined.

Lemma zsl_lex_range_witness : let r := mk_lexrange MinString (LexString str_b) false true in
  (exists a b, zslFirstInLexRange r zset_lex = Ret (a, zset_lex) /\ points zset_lex a (Some (one, str_a)) /\
    zslLastInLexRange r zset_lex = Ret (b, zset_lex) /\ points zset_lex b (Some (one, str_a))) /\
  exists s', zslDeleteRangeByLex r zset_lex = Ret (1, s') /\ zrepr s' [(one, str_c)].
Proof.
  destruct (zsl_lex_range zset_lex _ (mk_lexrange MinString (LexString str_b) false true) zset_lex_repr zset_lex_one_score I eq_refl) as [H1 H2].
  split; [apply H1; done|exact H2].
Defined.

Lemma zsl_delete_range_witness : exists s', zslDeleteRangeByRank 1 2 zset3 = Ret (2, s') /\
  zrepr s' [(two, str_b)] /\ indexed s' [(two, str_b)].
Proof. apply (proj2 (zsl_delete_range zset3 members3 zset3_repr zset3_indexed) 1 2); lia. Defined.

(** ** The contents of the shared bounds *)

(** ZRANGEBYLEX key - (minstring and (maxstring +: zslIsInLexRange compares
    the contents of the shared object of the bound - or + with the other
    bound, and takes a range that has members for empty. *)
Lemma lex_shared_contents :
  let r := mk_lexrange MinString (LexString (bytes_of_string "minstring")) false true in
  zslParseLexRangeItem (bytes_of_string "-") = Some (lmin r, lminex r) /\
  zslParseLexRangeItem (bytes_of_string "(minstring") = Some (lmax r, lmaxex r) /\
  in_lex_range r (one, str_a) = true /\ zslFirstInLexRange r zset_lex = Ret (None, zset_lex) /\
  zslLastInLexRange r zset_lex = Ret (None, zset_lex).
Proof. split_and!; vm_compute; reflexivity. Qed.
