(* ===== verification/Signals.v ===== *)
(** * Signals: changes of keys are signalled

    A command that changes a key tells the clients that watch it
    (signalModifiedKey, signalFlushedDb of db.c): the log has the key among
    the touched ones, or the database among the flushed ones.  Keys that are
    removed because their time has passed are not signalled, nor does
    PERSIST signal; MOVE changes two keys and signals none. *)

From S2P Require Import Prelude Util Object Db ServerOk Abstract TString AString Keyspace AKeyspace Server ServerRefine.

(** ** What is at a key *)

Definition db_at (t : astate) (d : Z) : option adb := if d <? 0 then None else adbs t !! Z.to_nat d.
Definition value_at (t : astate) (d : Z) (k : key) : option sval := db_at t d ≫= fun db => adict db !! k.
Definition expire_at (t : astate) (d : Z) (k : key) : option Z := db_at t d ≫= fun db => aexpires db !! k.

(** The value is the same; the expire time is the same or gone. *)
Definition keeps (d : Z) (k : key) (t t' : astate) : Prop :=
  value_at t' d k = value_at t d k /\ (expire_at t' d k = expire_at t d k \/ expire_at t' d k = None).

#[export] Instance keeps_preorder d k : PreOrder (keeps d k).
Proof.
  split; [intros t; split; auto|]. intros t1 t2 t3 [A1 A2] [B1 B2]. split; [congruence|].
  destruct B2 as [->|B2]; [|by right]. destruct A2 as [->|A2]; auto.
Qed.

(** The configuration but for the command of the client. *)
Definition same_clock (c c' : conf) : Prop := forall w, expired_at c' w = expired_at c w.

#[export] Instance same_clock_preorder : PreOrder same_clock.
Proof. split; [by intros c w|]. intros c1 c2 c3 H1 H2 w. by rewrite H2. Qed.

(** From [t] to [t'] the keys [T] are signalled, and every key that changes
    is signalled, or in [D], or expired. *)
Record told (D T : Z -> key -> Prop) (t t' : astate) : Prop := mk_told {
  t_clock : same_clock (acf t) (acf t');
  t_dbs : length (adbs t') = length (adbs t);
  t_flushed : flushed (alg t') = flushed (alg t);
  t_touched : exists ts, touched (alg t') = touched (alg t) ++ ts /\ (forall d k, T d k -> (d, k) ∈ ts) /\
    forall d k, keeps d k t t' \/ (d, k) ∈ ts \/ D d k \/ expired_at (acf t) (expire_at t d k) = true
}.

Definition none (d : Z) (k : key) : Prop := False.
Definition just (d0 : Z) (k0 : key) (d : Z) (k : key) : Prop := d = d0 /\ k = k0.

(** Changes that a later signal covers are no longer open. *)
Lemma told_trans D1 T1 D2 T2 D T t1 t2 t3 : told D1 T1 t1 t2 -> told D2 T2 t2 t3 ->
  (forall d k, D1 d k -> T2 d k \/ D d k) -> (forall d k, D2 d k -> T1 d k \/ D d k) -> (forall d k, T d k -> T1 d k \/ T2 d k) ->
  told D T t1 t3.
Proof.
  intros [C1 L1 F1 (ts1 & E1 & H1 & K1)] [C2 L2 F2 (ts2 & E2 & H2 & K2)] HD1 HD2 HT. split; [by etrans|congruence|congruence|].
  exists (ts1 ++ ts2). split; [by rewrite E2, E1, app_assoc|]. split.
  - intros d k [H|H]%HT; apply elem_of_app; [left|right]; auto.
  - intros d k. rewrite elem_of_app. destruct (K1 d k) as [HK1|[Hi|[Hd|Hx]]]; [|tauto|destruct (HD1 _ _ Hd); auto|tauto].
    destruct (K2 d k) as [HK2|[Hi|[Hd|Hx]]]; [left; by etrans|tauto|destruct (HD2 _ _ Hd); auto|].
    rewrite C1 in Hx. destruct HK1 as [_ [E|E]]; rewrite E in Hx; [tauto|done].
Qed.

Definition tells {A} (D T : Z -> key -> Prop) (m : AM A) : Prop := forall t,
  match m t with Ret (_, t') => told D T t t' | Fault _ => True end.

Lemma tells_bind {A B} D1 T1 D2 T2 D T (m : AM A) (k : A -> AM B) : tells D1 T1 m -> (forall a, tells D2 T2 (k a)) ->
  (forall d k, D1 d k -> T2 d k \/ D d k) -> (forall d k, D2 d k -> T1 d k \/ D d k) -> (forall d k, T d k -> T1 d k \/ T2 d k) ->
  tells D T (m ≫= k).
Proof.
  intros Hm Hk H1 H2 H3 t. unfold mbind, AM_bind. specialize (Hm t). destruct (m t) as [[a t1]|f]; [|done].
  specialize (Hk a t1). destruct (k a t1) as [[b t2]|f]; [|done]. by eapply told_trans.
Qed.

(** Nothing changes, nothing is signalled. *)
Definition still {A} (m : AM A) : Prop := forall t,
  match m t with
  | Ret (_, t') => adbs t' = adbs t /\ same_clock (acf t) (acf t') /\ touched (alg t') = touched (alg t) /\ flushed (alg t') = flushed (alg t)
  | Fault _ => True
  end.

Lemma keeps_dbs d k t t' : adbs t' = adbs t -> keeps d k t t'.
Proof. intros E. unfold keeps, value_at, expire_at, db_at. rewrite E. auto. Qed.

Lemma still_tells {A} (m : AM A) : still m -> tells none none m.
Proof.
  intros H t. specialize (H t). destruct (m t) as [[a t']|f]; [|done]. destruct H as (E & C & Et & Ef). split; [done|by rewrite E|done|].
  exists []. rewrite app_nil_r. split; [done|]. split; [done|]. intros d k. left. by apply keeps_dbs.
Qed.

(** Steps that leave no change open. *)
Definition telling {A} (m : AM A) : Prop := tells none none m.

Lemma telling_bind {A B} (m : AM A) (k : A -> AM B) : telling m -> (forall a, telling (k a)) -> telling (m ≫= k).
Proof. intros Hm Hk. eapply tells_bind; [exact Hm|exact Hk|..]; unfold none; tauto. Qed.

Lemma tells_telling {A} T (m : AM A) : tells none T m -> telling m.
Proof.
  intros H t. specialize (H t). destruct (m t) as [[a t']|f]; [|done]. destruct H as [C L F (ts & E & H1 & K)].
  split; [done|done|done|]. exists ts. split; [done|]. split; [done|exact K].
Qed.

Create HintDb telling.

Lemma telling_ret {A} (a : A) : telling (mret a).
Proof. apply still_tells. by intros t. Qed.
Lemma telling_get {A} (f : astate -> A) : telling (aget f).
Proof. apply still_tells. by intros t. Qed.
Lemma telling_fail {A} f : telling (afail (A := A) f).
Proof. by intros t. Qed.
Lemma telling_arg j : telling (aarg j).
Proof. apply still_tells. intros t. unfold aarg. by destruct (aargs t !! j). Qed.
Lemma telling_argc : telling aargc.
Proof. apply still_tells. by intros t. Qed.
Lemma telling_reply bs : telling (areply bs).
Proof. apply still_tells. by intros t. Qed.
Lemma telling_hit : telling (arecord add_hit).
Proof. apply still_tells. by intros t. Qed.
Lemma telling_miss : telling (arecord add_miss).
Proof. apply still_tells. by intros t. Qed.
Lemma telling_expired : telling (arecord add_expired).
Proof. apply still_tells. by intros t. Qed.
Lemma telling_dirty n : telling (arecord (add_dirty n)).
Proof. apply still_tells. by intros t. Qed.
Lemma telling_event e : telling (arecord (add_event e)).
Proof. apply still_tells. by intros t. Qed.
Lemma telling_propagated d v : telling (arecord (add_propagated d v)).
Proof. apply still_tells. by intros t. Qed.
Lemma telling_get_db d : telling (aget_db d).
Proof. apply still_tells. intros t. unfold aget_db. destruct (_ <? _); [done|]. by destruct (adbs t !! _). Qed.
Lemma telling_set_cmd n b : telling (aset_cmd n b).
Proof. apply still_tells. by intros t. Qed.
Lemma telling_set_args v : telling (aset_args v).
Proof. apply still_tells. by intros t. Qed.
Lemma telling_select d : telling (aselect d).
Proof. apply still_tells. intros t. unfold aselect. by destruct (_ && _). Qed.
Lemma telling_all_of v : telling (all_of v).
Proof. apply still_tells. intros t. unfold all_of. by destruct (_ && _). Qed.
#[export] Hint Resolve telling_ret telling_get telling_fail telling_arg telling_argc telling_reply telling_hit telling_miss telling_expired
  telling_dirty telling_event telling_propagated telling_get_db telling_set_cmd telling_set_args telling_select telling_all_of : telling.

Ltac telling := repeat first
  [ progress intros | solve [auto with telling] | apply telling_bind
  | match goal with |- telling (match ?e with _ => _ end) => destruct e eqn:? end ].

(** ** Changes of the data *)

Lemma db_at_get d t db t' : aget_db d t = Ret (db, t') -> t' = t /\ db_at t d = Some db /\ 0 <= d.
Proof.
  unfold aget_db, db_at. destruct (Z.ltb_spec d 0); [done|]. destruct (adbs t !! Z.to_nat d) as [db'|] eqn:E; [|done].
  intros [= -> ->]. done.
Qed.

Lemma db_at_set d db t d' : 0 <= d -> is_Some (db_at t d) -> db_at (mk_astate (<[Z.to_nat d := db]> (adbs t)) (aargs t) (acur t) (acf t) (alg t)) d' =
  if decide (d' = d) then Some db else db_at t d'.
Proof.
  intros Hd [db0 H]. unfold db_at in *. cbn. destruct (Z.ltb_spec d 0); [lia|]. destruct (Z.ltb_spec d' 0) as [Hl|Hl].
  - by rewrite decide_False by lia.
  - destruct (decide (d' = d)) as [->|Hn]; [by rewrite list_lookup_insert_eq by (by eapply lookup_lt_Some)|].
    rewrite list_lookup_insert_ne; [done|]. lia.
Qed.

(** A change of one database at one key. *)
Lemma tells_change d k (f : adb -> adb) {A} (r : adb -> A) :
  (forall db k', k' <> k -> adict (f db) !! k' = adict db !! k' /\ aexpires (f db) !! k' = aexpires db !! k') ->
  tells (just d k) none (db ← aget_db d; _ ← aset_db d (f db); mret (r db)).
Proof.
  intros Hf t. unfold mbind, AM_bind. destruct (aget_db d t) as [[db t1]|e] eqn:E; [|done]. apply db_at_get in E as (-> & E & Hd). cbn.
  split; [done|cbn; by rewrite length_insert|done|]. exists []. rewrite app_nil_r. split; [done|]. split; [done|]. intros d' k'.
  unfold keeps, value_at, expire_at. rewrite db_at_set by (done || by eexists). destruct (decide (d' = d)) as [->|]; [|auto].
  rewrite E. cbn. destruct (decide (k' = k)) as [->|Hk]; [right; right; left; done|]. destruct (Hf db k' Hk) as [-> ->]. auto.
Qed.

Lemma tells_ext {A} D T (m m' : AM A) : (forall t, m' t = m t) -> tells D T m -> tells D T m'.
Proof. intros E H t. rewrite E. apply H. Qed.

Lemma tells_store d k v : tells (just d k) none (astore d k v).
Proof.
  eapply tells_ext; [|apply (tells_change d k (fun db => mk_adb (<[k := v]> (adict db)) (aexpires db)) (fun _ => tt))].
  - intros t. unfold astore, mbind, AM_bind. destruct (aget_db d t) as [[db t1]|]; done.
  - intros db k' Hk. cbn. by rewrite lookup_insert_ne.
Qed.

Lemma tells_set_expire d k w : tells (just d k) none (aset_expire d k w).
Proof.
  eapply tells_ext; [|apply (tells_change d k (fun db => mk_adb (adict db)
    (match w with Some w => <[k := w]> (aexpires db) | None => delete k (aexpires db) end)) (fun _ => tt))].
  - intros t. unfold aset_expire, mbind, AM_bind. destruct (aget_db d t) as [[db t1]|]; done.
  - intros db k' Hk. cbn. destruct w; [by rewrite lookup_insert_ne|by rewrite lookup_delete_ne].
Qed.

Lemma tells_delete d k : tells (just d k) none (adelete d k).
Proof.
  apply (tells_change d k (fun db => mk_adb (delete k (adict db)) (delete k (aexpires db)))).
  intros db k' Hk. cbn. by rewrite !lookup_delete_ne.
Qed.

(** PERSIST only removes an expire time. *)
Lemma telling_persist d k : telling (aset_expire d k None).
Proof.
  intros t. unfold aset_expire, mbind, AM_bind. destruct (aget_db d t) as [[db t1]|e] eqn:E; [|done]. apply db_at_get in E as (-> & E & Hd). cbn.
  split; [done|cbn; by rewrite length_insert|done|]. exists []. rewrite app_nil_r. split; [done|]. split; [done|]. intros d' k'. left.
  unfold keeps, value_at, expire_at. rewrite db_at_set by (done || by eexists). destruct (decide (d' = d)) as [->|]; [|auto].
  rewrite E. cbn. split; [done|]. destruct (decide (k' = k)) as [->|Hk]; [by rewrite lookup_delete_eq; right|by rewrite lookup_delete_ne; auto].
Qed.

Lemma tells_touch d k : tells none (just d k) (arecord (add_touched d k)).
Proof.
  intros t. cbn. split; [done|done|done|]. exists [(d, k)]. split; [done|]. split.
  - intros d' k' [-> ->]. by left.
  - intros d' k'. left. by apply keeps_dbs.
Qed.

(** Keys are removed silently when their time has passed. *)
Lemma telling_expireIfNeeded d k : telling (aexpireIfNeeded d k).
Proof.
  intros t. unfold aexpireIfNeeded, mbind, AM_bind. destruct (aget_db d t) as [[db t1]|e] eqn:E; [|done]. apply db_at_get in E as (-> & E & Hd).
  cbn [aget]. destruct (expired_at (acf t) (aexpires db !! k)) eqn:Ex; [|apply telling_ret].
  destruct (masterhost (acf t)); [apply telling_ret|]. cbn [arecord].
  match goal with |- match adelete d k ?t1 with _ => _ end => pose proof (tells_delete d k t1) as H; destruct (adelete d k t1) as [[b t2]|f]; [|done] end.
  destruct H as [C L F (ts & Et & _ & K)]. split; [exact C|exact L|exact F|]. exists ts. split; [exact Et|]. split; [done|].
  intros d' k'. destruct (K d' k') as [HK|[Hi|[[-> ->]|Hx]]]; [left; exact HK|auto| |auto].
  right. right. right. unfold expire_at. rewrite E. exact Ex.
Qed.
#[export] Hint Resolve telling_persist telling_expireIfNeeded : telling.

(** Changes of one key that are signalled at the end. *)
Definition closes {A} (d : Z) (k : key) (m : AM A) : Prop := tells none (just d k) m.

Lemma closes_change {A B} d k (m : AM A) (c : A -> AM B) : tells (just d k) none m -> (forall a, closes d k (c a)) -> closes d k (m ≫= c).
Proof. intros H H'. eapply tells_bind; [exact H|exact H'|..]; unfold none; tauto. Qed.
Lemma closes_before {A B} d k (m : AM A) (c : A -> AM B) : telling m -> (forall a, closes d k (c a)) -> closes d k (m ≫= c).
Proof. intros H H'. eapply tells_bind; [exact H|exact H'|..]; unfold none; tauto. Qed.
Lemma closes_after {A B} d k (m : AM A) (c : A -> AM B) : closes d k m -> (forall a, telling (c a)) -> closes d k (m ≫= c).
Proof. intros H H'. eapply tells_bind; [exact H|exact H'|..]; unfold none; tauto. Qed.
Lemma closes_telling {A} d k (m : AM A) : closes d k m -> telling m.
Proof. apply tells_telling. Qed.

Lemma telling_setKey d k v : telling (asetKey d k v).
Proof.
  apply (closes_telling d k). apply closes_before; [unfold alookupWrite, alookup; telling|]. intros _.
  apply closes_change; [apply tells_store|]. intros _. apply closes_change; [apply tells_set_expire|]. intros _. apply tells_touch.
Qed.

Lemma telling_lookupRead d k : telling (alookupRead d k).
Proof.
  unfold alookupRead, alookup. telling.
  match goal with |- telling (arecord (match ?v with _ => _ end)) => destruct v end; auto with telling.
Qed.
Lemma telling_lookupWrite d k : telling (alookupWrite d k).
Proof. unfold alookupWrite, alookup. telling. Qed.
#[export] Hint Resolve telling_setKey telling_lookupRead telling_lookupWrite : telling.

Lemma telling_notify c e k d : telling (anotify c e k d).
Proof. apply telling_event. Qed.
#[export] Hint Resolve telling_notify : telling.

Lemma telling_modify d k s e : telling (amodify d k s e).
Proof.
  apply (closes_telling d k). apply closes_change; [apply tells_store|]. intros _. apply closes_after; [apply tells_touch|]. telling.
Qed.
Lemma telling_readOrReply k r : telling (alookupReadOrReply k r).
Proof. unfold alookupReadOrReply. telling. Qed.
Lemma telling_writeOrReply k r : telling (alookupWriteOrReply k r).
Proof. unfold alookupWriteOrReply. telling. Qed.
Lemma telling_bulk s : telling (aReplyBulk s).
Proof. unfold aReplyBulk. telling. Qed.
Lemma telling_longlong n : telling (aReplyLongLong n).
Proof. unfold aReplyLongLong. telling. Qed.
Lemma telling_multibulk n : telling (aReplyMultiBulkLen n).
Proof. unfold aReplyMultiBulkLen. telling. Qed.
Lemma telling_error e : telling (aReplyError e).
Proof. unfold aReplyError. telling. Qed.
Lemma telling_status e : telling (aReplyStatus e).
Proof. unfold aReplyStatus. telling. Qed.
#[export] Hint Resolve telling_modify telling_readOrReply telling_writeOrReply telling_bulk telling_longlong telling_multibulk telling_error
  telling_status : telling.

Lemma telling_number s msg : telling (aLongLongOrReply s msg).
Proof. unfold aLongLongOrReply. telling. Qed.
Lemma telling_mgetLoop fuel j : telling (aMgetLoop fuel j).
Proof. revert j. induction fuel; intros j; cbn [aMgetLoop]; telling. Qed.
Lemma telling_countLoop look fuel j n : (forall d k, telling (look d k)) -> telling (aCountLoop look fuel j n).
Proof. intros Hl. revert j n. induction fuel; intros j n; cbn [aCountLoop]; telling. Qed.
Lemma telling_busyLoop fuel j n : telling (aBusyLoop fuel j n).
Proof. revert j n. induction fuel; intros j n; cbn [aBusyLoop]; telling. Qed.
Lemma telling_msetLoop fuel j : telling (aMsetLoop fuel j).
Proof. revert j. induction fuel; intros j; cbn [aMsetLoop]; telling. Qed.
Lemma telling_setOptions fuel j f tu e : telling (aSetOptions fuel j f tu e).
Proof. revert j f tu e. induction fuel; intros j f tu e; cbn [aSetOptions]; telling. Qed.
Lemma telling_expire d k : telling (aexpire d k).
Proof. unfold aexpire. telling. Qed.
Lemma telling_size n : telling (asize_ok n).
Proof. unfold asize_ok. telling. Qed.
#[export] Hint Resolve telling_number telling_mgetLoop telling_countLoop telling_busyLoop telling_msetLoop telling_setOptions telling_expire
  telling_size : telling.

(** ** Commands that change keys *)

Lemma closes_setKey d k v : closes d k (asetKey d k v).
Proof.
  apply closes_before; [telling|]. intros _. apply closes_change; [apply tells_store|]. intros _.
  apply closes_change; [apply tells_set_expire|]. intros _. apply tells_touch.
Qed.

Lemma tells_late {A B} d k (m : AM A) (c : A -> AM B) : closes d k m -> (forall a, tells (just d k) none (c a)) -> telling (m ≫= c).
Proof. intros H H'. eapply tells_bind; [exact H|exact H'|..]; unfold none; tauto. Qed.

Lemma tells_front {A B} D (m : AM A) (c : A -> AM B) : telling m -> (forall a, tells D none (c a)) -> tells D none (m ≫= c).
Proof. intros H H'. eapply tells_bind; [exact H|exact H'|..]; unfold none; tauto. Qed.

Lemma tells_back {A B} D (m : AM A) (c : A -> AM B) : tells D none m -> (forall a, telling (c a)) -> tells D none (m ≫= c).
Proof. intros H H'. eapply tells_bind; [exact H|exact H'|..]; unfold none; tauto. Qed.

Lemma tells_more {A} (D D' : Z -> key -> Prop) (m : AM A) : (forall d k, D d k -> D' d k) -> tells D none m -> tells D' none m.
Proof.
  intros HD H t. specialize (H t). destruct (m t) as [[a t']|f]; [|done]. destruct H as [C L F (ts & E & H1 & K)].
  split; [done|done|done|]. exists ts. split; [done|]. split; [done|]. intros d k. destruct (K d k) as [?|[?|[?|?]]]; auto.
Qed.

Lemma telling_open {A} d k (m : AM A) : telling m -> tells (just d k) none m.
Proof. apply tells_more. by intros d' k' []. Qed.

Lemma telling_setGeneric flags k v e tu r1 r2 : telling (aSetGeneric flags k v e tu r1 r2).
Proof.
  unfold aSetGeneric. apply telling_bind; [unfold aSetExpire; telling|]. intros [ms|]; [|telling].
  apply telling_bind; [unfold aSetForbidden; telling|]. intros []; [telling|]. apply telling_bind; [telling|]. intros d.
  apply (tells_late d k); [apply closes_setKey|]. intros _. apply tells_front; [telling|]. intros _. apply tells_front; [telling|]. intros now.
  apply tells_back; [|telling]. destruct e; [|apply telling_open; telling]. apply tells_front; [telling|]. intros w. apply tells_set_expire.
Qed.
#[export] Hint Resolve telling_setGeneric : telling.

(** A key that is not there is deleted without a signal. *)
Lemma telling_delete_if d k {A} (c1 c2 : AM A) : closes d k c1 -> telling c2 ->
  telling (b ← adelete d k; if (b : bool) then c1 else c2).
Proof.
  intros H1 H2 t. pose proof (tells_delete d k t) as Hd. unfold mbind, AM_bind. destruct (adelete d k t) as [[b t1]|f] eqn:E; [|done].
  destruct b.
  - specialize (H1 t1). destruct (c1 t1) as [[a t2]|f]; [|done]. eapply told_trans; [exact Hd|exact H1|..]; unfold none; tauto.
  - specialize (H2 t1). destruct (c2 t1) as [[a t2]|f]; [|done].
    assert (Hk : told none none t t1); [|eapply told_trans; [exact Hk|exact H2|..]; unfold none; tauto].
    unfold adelete, mbind, AM_bind in E. destruct (aget_db d t) as [[db t0]|] eqn:Eg; [|done]. apply db_at_get in Eg as (-> & Eg & H0).
    cbn in E. injection E as E <-. apply bool_decide_eq_false in E. rewrite <- eq_None_not_Some in E.
    split; [done|cbn; by rewrite length_insert|done|]. exists []. rewrite app_nil_r. split; [done|]. split; [done|]. intros d' k'. left.
    unfold keeps, value_at, expire_at. rewrite db_at_set by (done || by eexists). destruct (decide (d' = d)) as [->|]; [|auto].
    rewrite Eg. cbn. destruct (decide (k' = k)) as [->|Hne]; [by rewrite !lookup_delete_eq, E; auto|by rewrite !lookup_delete_ne; auto].
Qed.

Lemma telling_delLoop fuel j n : telling (aDelLoop fuel j n).
Proof.
  revert j n. induction fuel as [|fuel IH]; intros j n; cbn [aDelLoop]; [telling|]. apply telling_bind; [telling|]. intros d.
  apply telling_bind; [telling|]. intros k. apply telling_bind; [telling|]. intros _. apply telling_delete_if; [|apply IH].
  apply closes_after; [apply tells_touch|]. telling.
Qed.
#[export] Hint Resolve telling_delLoop : telling.

Lemma telling_rename nx : telling (aRENAME nx).
Proof.
  unfold aRENAME. apply telling_bind; [telling|]. intros k1. apply telling_bind; [telling|]. intros k2. apply telling_bind; [telling|]. intros d.
  apply telling_bind; [telling|]. intros [v|]; [|telling]. destruct (bool_decide (k1 = k2)); [telling|]. apply telling_bind; [telling|]. intros when.
  apply telling_bind; [telling|]. intros dst. destruct (_ && nx); [telling|]. set (D := fun d' k' => just d k1 d' k' \/ just d k2 d' k').
  eapply (tells_bind D none none D); [eapply tells_more, tells_store; unfold D; tauto|intros _|unfold none; tauto..].
  eapply (tells_bind D none none D); [eapply tells_more, tells_set_expire; unfold D; tauto|intros _|unfold none; tauto..].
  eapply (tells_bind D none none D); [eapply tells_more, tells_delete; unfold D; tauto|intros _|unfold none; tauto..].
  eapply (tells_bind none (just d k1) none (just d k2)); [apply tells_touch|intros _|unfold none, D; tauto..].
  apply closes_after; [apply tells_touch|]. telling.
Qed.

Lemma telling_expire_command relative tu : telling (aEXPIRE relative tu).
Proof.
  unfold aEXPIRE. apply telling_bind; [telling|]. intros now. apply telling_bind; [telling|]. intros k. apply telling_bind; [telling|]. intros param.
  apply telling_bind; [telling|]. intros [w|]; [|telling]. apply telling_bind; [telling|]. intros ms. apply telling_bind; [telling|]. intros when.
  apply telling_bind; [telling|]. intros d. apply telling_bind; [telling|]. intros [v|]; [|telling]. apply telling_bind; [telling|]. intros c.
  destruct (_ && _); apply (closes_telling d k).
  - apply closes_change; [apply tells_delete|]. intros _. do 3 (apply closes_before; [telling|]; intros _).
    apply closes_after; [apply tells_touch|]. telling.
  - apply closes_change; [apply tells_set_expire|]. intros _. apply closes_before; [telling|]. intros _.
    apply closes_after; [apply tells_touch|]. telling.
Qed.
#[export] Hint Resolve telling_rename telling_expire_command : telling.

(** Every command of the table but MOVE and the flushes. *)
Definition silent_names : list (list Z) := [bytes_of_string "move"; bytes_of_string "flushdb"; bytes_of_string "flushall"].

Lemma table_telling : Forall (fun p => name p.1 ∉ silent_names -> telling p.2) specified_table.
Proof.
  repeat (apply Forall_cons; split); try apply Forall_nil; try done; intros Hn;
    try (exfalso; apply Hn; vm_compute; repeat (first [by left|right]); done); clear Hn; cbn [snd];
    unfold aGET, aGETSET, aGetGeneric, aSET, aSETNX, aSETEX, aAPPEND, aSTRLEN, aDEL, aEXISTS, aSETRANGE, aTOUCH, aCOUNT, aGETRANGE, aINCRBY, aINCR, aMGET,
      aMSET, aSELECT, aDBSIZE, aPING, aECHO, aTYPE, aTTL, aPERSIST; telling.
Qed.

(** ** The whole of a command *)

(** A key that changes is touched, or is there when its database is flushed,
    or has expired. *)
Record shown (t t' : astate) : Prop := mk_shown {
  s_clock : same_clock (acf t) (acf t');
  s_dbs : length (adbs t') = length (adbs t);
  s_keys : exists ts fs, touched (alg t') = touched (alg t) ++ ts /\ flushed (alg t') = flushed (alg t) ++ fs /\
    forall d k, keeps d k t t' \/ (d, k) ∈ ts \/ (is_Some (value_at t d k) /\ (d ∈ fs \/ -1 ∈ fs)) \/
      expired_at (acf t) (expire_at t d k) = true
}.

Definition shows {A} (m : AM A) : Prop := forall t, match m t with Ret (_, t') => shown t t' | Fault _ => True end.

Lemma telling_shows {A} (m : AM A) : telling m -> shows m.
Proof.
  intros H t. specialize (H t). destruct (m t) as [[a t']|f]; [|done]. destruct H as [C L F (ts & E & _ & K)]. split; [done|done|].
  exists ts, []. rewrite app_nil_r. split; [done|]. split; [done|]. intros d k. destruct (K d k) as [?|[?|[[]|?]]]; auto.
Qed.

(** Emptied databases. *)
Lemma empty_keeps t (ds : list adb) d k : length ds = length (adbs t) -> (forall i db, ds !! i = Some db -> adbs t !! i = Some db \/ db = mk_adb ∅ ∅) ->
  let t' := mk_astate ds (aargs t) (acur t) (acf t) (alg t) in
  keeps d k t t' \/ (is_Some (value_at t d k) /\ value_at t' d k = None /\ db_at t' d <> db_at t d).
Proof.
  intros Hl H t'. unfold keeps, value_at, expire_at, db_at. cbn. destruct (d <? 0); [auto|].
  destruct (ds !! Z.to_nat d) as [db|] eqn:E.
  - destruct (H _ _ E) as [E'| ->]; [rewrite E'; auto|]. cbn. rewrite !lookup_empty.
    destruct (adbs t !! Z.to_nat d) as [db0|] eqn:E0; cbn; [|auto]. destruct (adict db0 !! k) eqn:Ek; [|auto].
    right. split; [by eexists|]. split; [done|]. intros [= <-]. cbn in Ek; by rewrite lookup_empty in Ek.
  - apply lookup_ge_None in E. rewrite lookup_ge_None_2 by lia. auto.
Qed.

Lemma shows_flushdb : shows aFLUSHDB.
Proof.
  intros t. unfold aFLUSHDB, mbind, AM_bind. cbn [aget]. destruct (aget_db (acur t) t) as [[db t1]|] eqn:E; [|done].
  apply db_at_get in E as (-> & E & H0). unfold areply, arecord, aset_db.
  split; [done|cbn [adbs]; by rewrite length_insert|].
  exists [], [acur t]. rewrite app_nil_r. split; [done|]. split; [done|]. intros d k.
  destruct (empty_keeps t (<[Z.to_nat (acur t) := mk_adb ∅ ∅]> (adbs t)) d k) as [HK|(Hv & _ & Hd)].
  - by rewrite length_insert.
  - intros i db'. rewrite list_lookup_insert_Some. intros [(_ & <- & _)|[_ Hi]]; auto.
  - left. exact HK.
  - right. right. left. split; [done|]. left. destruct (decide (d = acur t)) as [->|Hn]; [by left|]. exfalso. apply Hd.
    rewrite db_at_set by (done || by eexists). by rewrite decide_False.
Qed.

Lemma shows_flushall : shows aFLUSHALL.
Proof.
  intros t. unfold aFLUSHALL, mbind, AM_bind. cbn [arecord aempty_all areply aget].
  assert (Hs : forall l, flushed l = flushed (alg t) ++ [-1] -> touched l = touched (alg t) -> shown t (mk_astate ((fun _ => mk_adb ∅ ∅) <$> adbs t) (aargs t) (acur t) (acf t) l)).
  { intros l Ef Et. split; [done|cbn; by rewrite length_fmap|]. exists [], [-1]. rewrite app_nil_r. split; [exact Et|]. split; [exact Ef|]. intros d k.
    destruct (empty_keeps t ((fun _ => mk_adb ∅ ∅) <$> adbs t) d k) as [HK|(Hv & _)].
    - by rewrite length_fmap.
    - intros i db'. rewrite list_lookup_fmap. destruct (adbs t !! i); [|done]. intros [= <-]. auto.
    - left. exact HK.
    - right. right. left. split; [done|]. right. by left. }
  cbn. destruct (save_params (acf t)); cbn; by apply Hs.
Qed.

(** Every command of the table but MOVE. *)
Lemma flush_entries : Forall (fun p => (name p.1 = bytes_of_string "flushdb" -> p.2 = aFLUSHDB) /\
  (name p.1 = bytes_of_string "flushall" -> p.2 = aFLUSHALL)) specified_table.
Proof. repeat (apply Forall_cons; split); try apply Forall_nil; try done; split; intros E; done || discriminate E. Qed.

Lemma table_shows : Forall (fun p => name p.1 <> bytes_of_string "move" -> shows p.2) specified_table.
Proof.
  pose proof table_telling as H. pose proof flush_entries as F. rewrite Forall_forall in H, F |- *. intros p Hp Hm. destruct (F p Hp) as [F1 F2].
  destruct (decide (name p.1 = bytes_of_string "flushdb")) as [E|E]; [rewrite F1 by done; apply shows_flushdb|].
  destruct (decide (name p.1 = bytes_of_string "flushall")) as [E'|E']; [rewrite F2 by done; apply shows_flushall|].
  apply telling_shows, H; [done|]. unfold silent_names. rewrite !elem_of_cons. intros [?|[?|[?|[]%not_elem_of_nil]]]; done.
Qed.

Lemma shows_call spec : shows spec -> shows (acall spec).
Proof.
  intros H t. unfold acall, mbind, AM_bind. cbn [aget]. specialize (H t). destruct (spec t) as [[[] t1]|f]; [|done]. cbn [aget].
  destruct (_ <? _); [|exact H]. destruct H as [C L (ts & fs & E1 & E2 & K)]. cbn. split; [done|done|]. exists ts, fs. split; [done|]. split; [done|exact K].
Qed.
