(* ===== verification/Multi.v ===== *)
(** * Multi: transactions (multi.c)

    Clients that queue commands after MULTI and run them at EXEC, and watch
    keys so that EXEC does nothing when one of them was changed.  The state
    is that of the specification of the commands, with the clients and the
    table of watched keys; a command is its specification, which the code of
    the command is proved to implement.  The arguments of queued commands and
    the watched keys are strings (the code counts references to them).  A
    command writes the keys it signals to its log, and [lift] marks the
    clients that watch them; the marks are only read by a later EXEC. *)

From S2P Require Import Prelude Util Object Db ServerOk Abstract TString AString Keyspace AKeyspace Server ServerRefine Signals.

(** ** State *)

(** What an entry of the command table points to. *)
Inductive mproc : Type :=
  | Plain (spec : AM unit)
  | multiProc
  | execProc
  | discardProc
  | watchProc
  | unwatchProc.

Record mcommand : Type := mk_mcommand { mc_cmd : redisCommand; mc_proc : mproc }.

(** A queued command and its arguments. *)
Record multiCmd : Type := mk_multiCmd { q_cmd : mcommand; q_argv : list (list Z) }.

Record client : Type := mk_client {
  c_db : Z;
  CLIENT_MULTI : bool;
  CLIENT_DIRTY_CAS : bool;
  CLIENT_DIRTY_EXEC : bool;
  mstate : list multiCmd;
  watched_keys : list (Z * key)
}.

(** The server, its clients, and per database and key the clients that watch
    it. *)
Record world : Type := mk_world {
  srv : astate;
  clients : gmap Z client;
  db_watched_keys : gmap (Z * key) (list Z)
}.

Definition with_srv (t : astate) (w : world) : world := mk_world t (clients w) (db_watched_keys w).
Definition with_clients (c : gmap Z client) (w : world) : world := mk_world (srv w) c (db_watched_keys w).
Definition with_watched (m : gmap (Z * key) (list Z)) (w : world) : world := mk_world (srv w) (clients w) m.

Definition WM (A : Type) : Type := world -> res (A * world).

#[export] Instance WM_ret : MRet WM := fun _ a w => Ret (a, w).
#[export] Instance WM_bind : MBind WM := fun _ _ k m w =>
  match m w with Ret (a, w) => k a w | Fault f => Fault f end.

Definition wfail {A} (f : fault) : WM A := fun _ => Fault f.
Definition wget {A} (f : world -> A) : WM A := fun w => Ret (f w, w).

Definition wset (f : world -> world) : WM unit := fun w => Ret (tt, f w).

Definition get_client (c : Z) : WM client := fun w =>
  match clients w !! c with Some cl => Ret (cl, w) | None => Fault Undefined end.
Definition set_client (c : Z) (cl : client) : WM unit := fun w =>
  Ret (tt, with_clients (<[c := cl]> (clients w)) w).

Definition with_flags (multi cas exec : bool) (cl : client) : client :=
  mk_client (c_db cl) multi cas exec (mstate cl) (watched_keys cl).
Definition with_mstate (q : list multiCmd) (cl : client) : client :=
  mk_client (c_db cl) (CLIENT_MULTI cl) (CLIENT_DIRTY_CAS cl) (CLIENT_DIRTY_EXEC cl) q (watched_keys cl).
Definition with_keys (l : list (Z * key)) (cl : client) : client :=
  mk_client (c_db cl) (CLIENT_MULTI cl) (CLIENT_DIRTY_CAS cl) (CLIENT_DIRTY_EXEC cl) (mstate cl) l.
Definition with_db (d : Z) (cl : client) : client :=
  mk_client d (CLIENT_MULTI cl) (CLIENT_DIRTY_CAS cl) (CLIENT_DIRTY_EXEC cl) (mstate cl) (watched_keys cl).
Definition set_cas (cl : client) : client := with_flags (CLIENT_MULTI cl) true (CLIENT_DIRTY_EXEC cl) cl.

(** ** Signals *)

(** Mark the clients that watch the key. *)
Definition touchWatchedKey (wk : Z * key) (w : world) : world :=
  match db_watched_keys w !! wk with
  | None => w
  | Some l => with_clients (foldr (alter set_cas) (clients w) l) w
  end.

(** Mark the clients that watch a key of the database (of all of them for
    -1) that is there in [t], before the flush. *)
Definition flush_hits (t : astate) (dbid : Z) (cl : client) : bool :=
  existsb (fun wk : Z * key => ((dbid =? -1) || (wk.1 =? dbid)) && bool_decide (is_Some (value_at t wk.1 wk.2))) (watched_keys cl).
Definition touchWatchedKeysOnFlush (t : astate) (dbid : Z) (w : world) : world :=
  with_clients ((fun cl => if flush_hits t dbid cl then set_cas cl else cl) <$> clients w) w.

(** A command and the signals it sent. *)
Definition signal (t t' : astate) (w : world) : world :=
  let ts := drop (length (touched (alg t))) (touched (alg t')) in
  let fs := drop (length (flushed (alg t))) (flushed (alg t')) in
  foldr (touchWatchedKeysOnFlush t) (foldr touchWatchedKey w ts) fs.

Definition lift {A} (m : AM A) : WM A := fun w =>
  match m (srv w) with
  | Ret (a, t) => Ret (a, signal (srv w) t (with_srv t w))
  | Fault f => Fault f
  end.

(** ** WATCH *)

Definition watchForKey (c : Z) (k : key) : WM unit :=
  cl ← get_client c;
  d ← lift (aget acur);
  if bool_decide ((d, k) ∈ watched_keys cl) then mret tt
  else
    m ← wget db_watched_keys;
    _ ← wset (with_watched (<[(d, k) := default [] (m !! (d, k)) ++ [c]]> m));
    set_client c (with_keys (watched_keys cl ++ [(d, k)]) cl).

(** listDelNode(clients,listSearchKey(clients,c)) *)
Fixpoint remove_client (c : Z) (l : list Z) : option (list Z) :=
  match l with
  | [] => None
  | x :: l => if decide (x = c) then Some l else (x ::.) <$> remove_client c l
  end.

Fixpoint unwatch_loop (c : Z) (l : list (Z * key)) : WM unit :=
  match l with
  | [] => mret tt
  | wk :: l =>
      m ← wget db_watched_keys;
      match m !! wk with
      | None => wfail AssertFailed
      | Some cs =>
          match remove_client c cs with
          | None => wfail NullDeref
          | Some cs =>
              _ ← wset (with_watched (match cs with [] => delete wk m | _ => <[wk := cs]> m end));
              cl ← get_client c;
              _ ← set_client c (with_keys l cl);
              unwatch_loop c l
          end
      end
  end.

Definition unwatchAllKeys (c : Z) : WM unit := cl ← get_client c; unwatch_loop c (watched_keys cl).

Fixpoint watch_loop (c : Z) (n j : nat) : WM unit :=
  match n with
  | O => mret tt
  | S n => k ← lift (aarg j); _ ← watchForKey c k; watch_loop c n (S j)
  end.

Definition watchCommand (c : Z) : WM unit :=
  cl ← get_client c;
  if CLIENT_MULTI cl then lift (aReplyError (bytes_of_string "WATCH inside MULTI is not allowed"))
  else
    n ← lift aargc;
    _ ← watch_loop c (Z.to_nat (n - 1)) 1;
    lift (areply shared_ok).

Definition unwatchCommand (c : Z) : WM unit :=
  _ ← unwatchAllKeys c;
  cl ← get_client c;
  _ ← set_client c (with_flags (CLIENT_MULTI cl) false (CLIENT_DIRTY_EXEC cl) cl);
  lift (areply shared_ok).

(** ** MULTI and EXEC *)

Definition queueMultiCommand (c : Z) (cmd : mcommand) : WM unit :=
  cl ← get_client c;
  v ← lift (aget aargs);
  set_client c (with_mstate (mstate cl ++ [mk_multiCmd cmd v]) cl).

Definition discardTransaction (c : Z) : WM unit :=
  cl ← get_client c;
  _ ← set_client c (with_flags false false false (with_mstate [] cl));
  unwatchAllKeys c.

Definition flagTransaction (c : Z) : WM unit :=
  cl ← get_client c;
  if CLIENT_MULTI cl then set_client c (with_flags true (CLIENT_DIRTY_CAS cl) true cl) else mret tt.

Definition multiCommand (c : Z) : WM unit :=
  cl ← get_client c;
  if CLIENT_MULTI cl then lift (aReplyError (bytes_of_string "MULTI calls can not be nested"))
  else
    _ ← set_client c (with_flags true (CLIENT_DIRTY_CAS cl) (CLIENT_DIRTY_EXEC cl) cl);
    lift (areply shared_ok).

Definition discardCommand (c : Z) : WM unit :=
  cl ← get_client c;
  if negb (CLIENT_MULTI cl) then lift (aReplyError (bytes_of_string "DISCARD without MULTI"))
  else
    _ ← discardTransaction c;
    lift (areply shared_ok).

Definition shared_nullmultibulk : list Z := crlf "*-1".
Definition shared_queued : list Z := crlf "+QUEUED".
Definition shared_execaborterr : list Z := crlf "-EXECABORT Transaction discarded because of previous errors.".

Definition execCommandPropagateMulti : AM unit :=
  d ← aget acur; arecord (add_propagated d [bytes_of_string "MULTI"]).

(** [exec] is what execProc does: nothing that is queued. *)
Definition run_proc (exec : WM unit) (c : Z) (p : mproc) : WM unit :=
  match p with
  | Plain spec => lift spec
  | multiProc => multiCommand c
  | execProc => exec
  | discardProc => discardCommand c
  | watchProc => watchCommand c
  | unwatchProc => unwatchCommand c
  end.

Definition mcall (exec : WM unit) (c : Z) (cmd : mcommand) : WM unit :=
  before ← lift (aget (fun t => dirty (alg t)));
  _ ← run_proc exec c (mc_proc cmd);
  after ← lift (aget (fun t => dirty (alg t)));
  if before <? after then lift apropagate else mret tt.

Definition readonly_of (cmd : mcommand) (c : conf) : bool := CMD_READONLY (mc_cmd cmd) && negb (master_client (gt c)).

Definition set_mcmd (cmd : mcommand) : AM unit := c ← aget acf; aset_cmd (name (mc_cmd cmd)) (readonly_of cmd c).

(** The loop over the queue; the result is must_propagate. *)
Fixpoint exec_loop (c : Z) (q : list multiCmd) (must : bool) : WM bool :=
  match q with
  | [] => mret must
  | x :: q =>
      _ ← lift (aset_args (q_argv x));
      _ ← lift (set_mcmd (q_cmd x));
      let first := negb must && negb (CMD_READONLY (mc_cmd (q_cmd x))) in
      _ ← (if first then lift execCommandPropagateMulti else mret tt);
      _ ← mcall (wfail Undefined) c (q_cmd x);
      exec_loop c q (must || first)
  end.

Definition exec_entry (p : mproc) : mcommand := mk_mcommand (entry "exec" (fail Undefined) 1 "sM") p.

(** The queue is run and the client leaves its transaction. *)
Definition exec_queue (c : Z) (q : list multiCmd) : WM unit :=
  orig ← lift (aget aargs);
  _ ← lift (aReplyMultiBulkLen (Z.of_nat (length q)));
  must ← exec_loop c q false;
  _ ← lift (aset_args orig);
  _ ← lift (set_mcmd (exec_entry execProc));
  _ ← discardTransaction c;
  if (must : bool) then lift (arecord (add_dirty 1)) else mret tt.

Definition execCommand (c : Z) : WM unit :=
  cl ← get_client c;
  if negb (CLIENT_MULTI cl) then lift (aReplyError (bytes_of_string "EXEC without MULTI"))
  else if CLIENT_DIRTY_CAS cl || CLIENT_DIRTY_EXEC cl then
    _ ← lift (areply (if CLIENT_DIRTY_EXEC cl then shared_execaborterr else shared_nullmultibulk));
    discardTransaction c
  else
    _ ← unwatchAllKeys c;
    exec_queue c (mstate cl).

(** ** The request path *)

(** The commands of the specification, and those of this file. *)
Definition mtable : list mcommand :=
  ((fun p : redisCommand * AM unit => mk_mcommand p.1 (Plain p.2)) <$> specified_table) ++
  [mk_mcommand (entry "multi" (fail Undefined) 1 "sF") multiProc;
   exec_entry execProc;
   mk_mcommand (entry "discard" (fail Undefined) 1 "sF") discardProc;
   mk_mcommand (entry "watch" (fail Undefined) (-2) "sF") watchProc;
   mk_mcommand (entry "unwatch" (fail Undefined) 1 "sF") unwatchProc].

Definition mlookupCommand (n : list Z) : option mcommand :=
  list_find (fun c => map tolower (name (mc_cmd c)) = map tolower n) mtable ≫= (fun p => Some p.2).

(** The checks of processCommand with whether they call flagTransaction. *)
Definition mrefuse (cmd : redisCommand) (argc : Z) (c : conf) : option (bool * list Z) :=
  let g := gt c in
  if ((0 <? arity cmd) && negb (arity cmd =? argc)) || (argc <? - arity cmd) then
    Some (true, error_line (no_newlines (wrong_arity (name cmd))))
  else if noauth g then Some (true, shared_noautherr)
  else if bool_decide (is_Some (write_error g)) && negb (masterhost c) && (CMD_WRITE cmd || is_ping cmd) then
    (true,.) <$> write_error g
  else if negb (masterhost c) && few_slaves g && CMD_WRITE cmd then Some (true, shared_noreplicaserr)
  else if masterhost c && slave_ro g && negb (master_client g) && CMD_WRITE cmd then Some (false, shared_roslaveerr)
  else if pubsub_client g && negb (is_ping cmd) then
    Some (false, error_line (bytes_of_string "only (P)SUBSCRIBE / (P)UNSUBSCRIBE / PING / QUIT allowed in this context"))
  else if masterhost c && master_down g && negb (CMD_STALE cmd) then Some (true, shared_masterdownerr)
  else if loading c && negb (CMD_LOADING cmd) then Some (false, shared_loadingerr)
  else if lua_timedout g then Some (true, shared_slowscripterr)
  else None.

(** The commands that are not queued. *)
Definition at_once (p : mproc) : bool :=
  match p with execProc | discardProc | multiProc | watchProc => true | Plain _ | unwatchProc => false end.

Definition mprocessCommand (c : Z) : WM outcome :=
  n0 ← lift (aarg 0);
  if bool_decide (map tolower (cstr n0) = bytes_of_string "quit") then
    _ ← lift (areply shared_ok); mret CLOSE_AFTER_REPLY
  else match mlookupCommand n0 with
  | None =>
      _ ← flagTransaction c;
      _ ← lift (aReplyError (no_newlines (bytes_of_string "unknown command '" ++ cstr n0 ++ bytes_of_string "'")));
      mret C_OK
  | Some cmd =>
      cf ← lift (aget acf);
      _ ← lift (set_mcmd cmd);
      n ← lift aargc;
      match mrefuse (mc_cmd cmd) n cf with
      | Some (flag, err) =>
          _ ← (if (flag : bool) then flagTransaction c else mret tt);
          _ ← lift (areply err);
          mret C_OK
      | None =>
          cl ← get_client c;
          if CLIENT_MULTI cl && negb (at_once (mc_proc cmd)) then
            _ ← queueMultiCommand c cmd;
            _ ← lift (areply shared_queued);
            mret C_OK
          else
            _ ← mcall (execCommand c) c cmd;
            mret C_OK
      end
  end.

(** ** Events *)

(** Make [c] the client that is served, with its arguments and database. *)
Definition load_client (c : Z) (args : list (list Z)) : WM unit :=
  cl ← get_client c;
  wset (fun w => let t := srv w in with_srv (mk_astate (adbs t) args (c_db cl) (acf t) (alg t)) w).

Definition save_client (c : Z) : WM unit :=
  cl ← get_client c;
  d ← lift (aget acur);
  _ ← set_client c (with_db d cl);
  lift (aset_args []).

Definition request (c : Z) (args : list (list Z)) : WM outcome :=
  _ ← load_client c args;
  o ← mprocessCommand c;
  _ ← save_client c;
  mret o.

(** createClient and freeClient, as far as transactions are concerned. *)
Definition createClient (c : Z) : WM unit :=
  m ← wget clients;
  match m !! c with
  | None => set_client c (mk_client 0 false false false [] [])
  | Some _ => wfail Undefined
  end.

Definition freeClient (c : Z) : WM unit :=
  _ ← unwatchAllKeys c;
  wset (fun w => with_clients (delete c (clients w)) w).

Inductive event : Type :=
  | Connect (c : Z)
  | Request (c : Z) (args : list (list Z))
  | Disconnect (c : Z)
  | Clock (now : Z).

Definition set_clock (now : Z) (c : conf) : conf :=
  mk_conf now (lruclock c) (loading c) (masterhost c) (lua_caller c) (lua_time_start c) (child_running c) (readonly_client c)
    (lru_policy c) (save_params c) (cmd_name c) (gt c).

Definition handle (e : event) : WM unit :=
  match e with
  | Connect c => createClient c
  | Request c args => _ ← request c args; mret tt
  | Disconnect c => freeClient c
  | Clock now => wset (fun w => let t := srv w in
      with_srv (mk_astate (adbs t) (aargs t) (acur t) (set_clock now (acf t)) (alg t)) w)
  end.

Inductive steps : world -> list event -> world -> Prop :=
  | steps_nil w : steps w [] w
  | steps_cons w e w1 es w2 : handle e w = Ret (tt, w1) -> steps w1 es w2 -> steps w (e :: es) w2.
