(* ===== verification/MultiProofs.v ===== *)
(** * MultiProofs: the invariant of transactions

    The keys that a client watches and the clients that watch a key are the
    two directions of one relation, what is queued can be run, and a key
    that is watched does not change unless the client is marked. *)

From S2P Require Import Prelude Util Object Db ServerOk Abstract TString AString Keyspace AKeyspace Server ServerRefine.
From S2P Require Import Safety Signals Multi.

(** ** Marks *)

(** Some clients are marked, and nothing else. *)
Record marked (w w' : world) : Prop := mk_marked {
  m_srv : srv w' = srv w;
  m_keys : db_watched_keys w' = db_watched_keys w;
  m_clients : forall c, clients w' !! c = clients w !! c \/ clients w' !! c = set_cas <$> clients w !! c
}.

Lemma set_cas_twice cl : set_cas (set_cas cl) = set_cas cl.
Proof. done. Qed.

#[export] Instance marked_preorder : PreOrder marked.
Proof.
  split; [intros w; split; auto|]. intros w1 w2 w3 [A1 A2 A3] [B1 B2 B3]. split; [congruence|congruence|]. intros c.
  destruct (B3 c) as [->| ->]; [apply A3|]. right. destruct (A3 c) as [->| ->]; [done|]. by destruct (clients w1 !! c).
Qed.

Definition is_marked (c : Z) (w : world) : Prop := exists cl, clients w !! c = Some cl /\ CLIENT_DIRTY_CAS cl = true.

Lemma marked_client w w' c cl : marked w w' -> clients w !! c = Some cl ->
  exists cl', clients w' !! c = Some cl' /\ (cl' = cl \/ cl' = set_cas cl).
Proof. intros [_ _ M] H. destruct (M c) as [E|E]; rewrite E, H; eexists; split; try done; auto. Qed.

Lemma marked_client_inv w w' c cl' : marked w w' -> clients w' !! c = Some cl' ->
  exists cl, clients w !! c = Some cl /\ (cl' = cl \/ cl' = set_cas cl).
Proof.
  intros [_ _ M] H. destruct (M c) as [E|E]; rewrite E in H; [eauto|]. destruct (clients w !! c) as [cl|]; [|done].
  injection H as <-. eauto.
Qed.

Lemma marked_stays w w' c : marked w w' -> is_marked c w -> is_marked c w'.
Proof. intros M (cl & H & Hc). destruct (marked_client w w' c cl M H) as (cl' & H' & [->| ->]); eexists; eauto. Qed.

Lemma mark_list l : forall (m : gmap Z client) c, foldr (alter set_cas) m l !! c = if decide (c ∈ l) then set_cas <$> m !! c else m !! c.
Proof.
  induction l as [|x l IH]; intros m c; cbn [foldr]; [by rewrite decide_False by apply not_elem_of_nil|].
  destruct (decide (x = c)) as [->|Hn].
  - rewrite lookup_alter_eq, IH, (decide_True (P := c ∈ c :: l)) by left. destruct (decide (c ∈ l)); [|done]. by destruct (m !! c).
  - rewrite lookup_alter_ne, IH by done. destruct (decide (c ∈ l)) as [H|H]; [by rewrite decide_True by (by right)|].
    rewrite decide_False; [done|]. intros [->|?]%elem_of_cons; done.
Qed.

Lemma touch_marked wk w : marked w (touchWatchedKey wk w).
Proof.
  unfold touchWatchedKey. destruct (db_watched_keys w !! wk) as [l|]; [|done]. split; [done|done|]. intros c. cbn. rewrite mark_list.
  destruct (decide _); auto.
Qed.

Lemma flush_marked t d w : marked w (touchWatchedKeysOnFlush t d w).
Proof.
  split; [done|done|]. intros c. cbn. rewrite lookup_fmap. destruct (clients w !! c) as [cl|]; [|auto]. cbn. destruct (flush_hits t d cl); auto.
Qed.

Lemma touches_marked ts w : marked w (foldr touchWatchedKey w ts).
Proof. induction ts as [|wk ts IH]; [done|]. cbn. etrans; [exact IH|apply touch_marked]. Qed.

Lemma flushes_marked t fs w : marked w (foldr (touchWatchedKeysOnFlush t) w fs).
Proof. induction fs as [|d fs IH]; [done|]. cbn. etrans; [exact IH|apply flush_marked]. Qed.

Lemma signal_marked t t' w : marked w (signal t t' w).
Proof. unfold signal. etrans; [apply touches_marked|apply flushes_marked]. Qed.

Lemma touch_mark w c wk l cl : db_watched_keys w !! wk = Some l -> c ∈ l -> clients w !! c = Some cl -> is_marked c (touchWatchedKey wk w).
Proof.
  intros Hl Hc Hcl. unfold touchWatchedKey. rewrite Hl. exists (set_cas cl). split; [|done]. cbn. rewrite mark_list, decide_True by done. by rewrite Hcl.
Qed.

(** A client that watches a touched key is marked. *)
Lemma touches_mark ts w c wk l cl : wk ∈ ts -> db_watched_keys w !! wk = Some l -> c ∈ l -> clients w !! c = Some cl ->
  is_marked c (foldr touchWatchedKey w ts).
Proof.
  intros Hin Hl Hc Hcl. induction ts as [|x ts IH]; [by apply not_elem_of_nil in Hin|]. cbn. apply elem_of_cons in Hin as [<-|Hin].
  - pose proof (touches_marked ts w) as M. destruct (marked_client _ _ _ _ M Hcl) as (cl' & Hcl' & _). destruct M as [_ Mk _].
    eapply touch_mark; [by rewrite Mk|done|done].
  - eapply marked_stays; [apply touch_marked|auto].
Qed.

(** A client that watches a key of a flushed database is marked. *)
Lemma flushes_mark t fs w c d k cl : d ∈ fs \/ -1 ∈ fs -> is_Some (value_at t d k) -> clients w !! c = Some cl -> (d, k) ∈ watched_keys cl ->
  is_marked c (foldr (touchWatchedKeysOnFlush t) w fs).
Proof.
  intros Hin Hv Hcl Hk.
  assert (Hhit : forall x cl', (x = d \/ x = -1) -> watched_keys cl' = watched_keys cl -> flush_hits t x cl' = true).
  { intros x cl' Hx E. unfold flush_hits. rewrite E. apply existsb_exists. exists (d, k). split; [by apply list_elem_of_In|]. cbn.
    rewrite bool_decide_true by done. destruct Hx as [->| ->]; [rewrite Z.eqb_refl; by rewrite orb_true_r|done]. }
  induction fs as [|x fs IH]; [destruct Hin as [H|H]; by apply not_elem_of_nil in H|]. cbn.
  destruct (decide (x = d \/ x = -1)) as [Hx|Hx].
  - destruct (marked_client _ _ _ _ (flushes_marked t fs w) Hcl) as (cl' & Hcl' & Hor).
    assert (E : watched_keys cl' = watched_keys cl) by (by destruct Hor as [->| ->]).
    exists (set_cas cl'). split; [|done]. cbn. rewrite lookup_fmap, Hcl'. cbn. by rewrite (Hhit x cl' Hx E).
  - eapply marked_stays; [apply flush_marked|]. apply IH. rewrite !elem_of_cons in Hin. destruct Hin as [[->|?]|[<-|?]]; auto; exfalso; auto.
Qed.

(** ** The invariant *)

(** A client that watches a key stays so, keeps its mark, and is marked if
    the key changes (keys with an expire time can expire without a mark). *)
Definition guards (c : Z) (d : Z) (k : key) (w w' : world) : Prop := forall cl, clients w !! c = Some cl -> (d, k) ∈ watched_keys cl ->
  exists cl', clients w' !! c = Some cl' /\ (d, k) ∈ watched_keys cl' /\ (CLIENT_DIRTY_CAS cl = true -> CLIENT_DIRTY_CAS cl' = true) /\
    (expire_at (srv w) d k = None -> CLIENT_DIRTY_CAS cl' = true \/
       value_at (srv w') d k = value_at (srv w) d k /\ expire_at (srv w') d k = None).

#[export] Instance guards_preorder c d k : PreOrder (guards c d k).
Proof.
  split; [intros w cl0 H1 H2; exists cl0; by split_and!; auto|]. intros w1 w2 w3 G1 G2 cl1 H Hk. destruct (G1 cl1 H Hk) as (cl2 & H2 & Hk2 & M2 & V2).
  destruct (G2 cl2 H2 Hk2) as (cl3 & H3 & Hk3 & M3 & V3). exists cl3. split; [done|]. split; [done|]. split; [auto|]. intros He.
  destruct (V2 He) as [?|[E2 He2]]; [auto|]. destruct (V3 He2) as [?|[E3 He3]]; [auto|]. right. split; [congruence|done].
Qed.

Section invariant.
(** [mv]: commands that change keys without a signal may be among those
    queued and run. *)
Context (mv : bool) (L : Z).

(** What is queued can be run. *)
Definition runnable (q : multiCmd) : Prop :=
  match mc_proc (q_cmd q) with
  | Plain spec => safe_spec (length (q_argv q)) spec /\ (mv = false -> shows spec)
  | unwatchProc => True
  | _ => False
  end.

Record client_inv (w : world) (c : Z) (cl : client) : Prop := mk_client_inv {
  ci_db : 0 <= c_db cl < L;
  ci_distinct : NoDup (watched_keys cl);
  ci_watched : forall wk, wk ∈ watched_keys cl -> exists l, db_watched_keys w !! wk = Some l /\ c ∈ l;
  ci_queue : Forall runnable (mstate cl);
  ci_multi : CLIENT_MULTI cl = false -> mstate cl = [] /\ CLIENT_DIRTY_EXEC cl = false
}.

Record winv (w : world) : Prop := mk_winv {
  i_dbs : Z.of_nat (length (adbs (srv w))) = L;
  i_client : forall c cl, clients w !! c = Some cl -> client_inv w c cl;
  i_watched : forall wk l, db_watched_keys w !! wk = Some l -> l <> [] /\ NoDup l /\
    forall c, c ∈ l -> exists cl, clients w !! c = Some cl /\ wk ∈ watched_keys cl
}.

Lemma winv_marked w w' : marked w w' -> winv w -> winv w'.
Proof.
  intros M [I1 I2 I3]. pose proof M as [Ms Mk _]. split; [by rewrite Ms| |].
  - intros c cl' H. destruct (marked_client_inv _ _ _ _ M H) as (cl & Hcl & Hor). destruct (I2 c cl Hcl) as [A1 A2 A3 A4 A5].
    destruct Hor as [->| ->]; split; cbn; rewrite ?Mk; auto.
  - intros wk l. rewrite Mk. intros H. destruct (I3 wk l H) as (B1 & B2 & B3). split; [done|]. split; [done|]. intros c Hc.
    destruct (B3 c Hc) as (cl & Hcl & Hw). destruct (marked_client _ _ _ _ M Hcl) as (cl' & Hcl' & [->| ->]); eauto.
Qed.

Lemma winv_srv w t : Z.of_nat (length (adbs t)) = L -> winv w -> winv (with_srv t w).
Proof. intros Hl [I1 I2 I3]. split; [done| |exact I3]. intros c cl H. destruct (I2 c cl H). by split. Qed.

(** What other clients, and the client itself unless it gives up its
    watches, can rely on. *)
Definition related (own : bool) (c : Z) (w w' : world) : Prop :=
  mv = false -> forall c0 d k, own = true \/ c0 <> c -> guards c0 d k w w'.

#[export] Instance related_preorder own c : PreOrder (related own c).
Proof.
  split; [intros w _ c0 d k _; reflexivity|]. intros w1 w2 w3 H1 H2 Hm c0 d k Ho. etrans; [by apply H1|by apply H2].
Qed.

Lemma related_own c w w' own : related true c w w' -> related own c w w'.
Proof. intros H Hm c0 d k _. apply H; auto. Qed.

Definition run_ok {A} (own : bool) (c : Z) (w : world) (m : WM A) (Q : A -> world -> Prop) : Prop :=
  match m w with
  | Ret (a, w') => winv w' /\ is_Some (clients w' !! c) /\ related own c w w' /\ Q a w'
  | Fault f => soft f
  end.

Lemma run_bind {A B} own c w (m : WM A) (k : A -> WM B) P Q : run_ok own c w m P ->
  (forall a w', winv w' -> is_Some (clients w' !! c) -> P a w' -> run_ok own c w' (k a) Q) -> run_ok own c w (m ≫= k) Q.
Proof.
  intros H K. unfold run_ok, mbind, WM_bind in *. destruct (m w) as [[a w1]|f]; [|done]. destruct H as (I1 & C1 & R1 & HP).
  specialize (K a w1 I1 C1 HP). destruct (k a w1) as [[b w2]|f]; [|done]. destruct K as (I2 & C2 & R2 & HQ).
  split; [done|]. split; [done|]. split; [by etrans|done].
Qed.

Lemma run_ret {A} own c w (a : A) (Q : A -> world -> Prop) : winv w -> is_Some (clients w !! c) -> Q a w -> run_ok own c w (mret a) Q.
Proof. intros. cbn. split; [done|]. split; [done|]. split; [reflexivity|done]. Qed.

Lemma run_conseq {A} own c w (m : WM A) (P Q : A -> world -> Prop) : run_ok own c w m P -> (forall a w', P a w' -> Q a w') -> run_ok own c w m Q.
Proof. intros H K. unfold run_ok in *. destruct (m w) as [[a w']|f]; [|done]. destruct H as (?&?&?&?). auto. Qed.

Lemma run_own {A} own c w (m : WM A) Q : run_ok true c w m Q -> run_ok own c w m Q.
Proof. intros H. unfold run_ok in *. destruct (m w) as [[a w']|f]; [|done]. destruct H as (?&?&?&?). split_and!; auto using related_own. Qed.

(** ** Commands of the specification *)

(** A watched key that a command changes marks its watchers. *)
Lemma shown_related w t' c own : winv w -> shown (srv w) t' -> related own c w (signal (srv w) t' (with_srv t' w)).
Proof.
  intros I [C D (ts & fs & Et & Ef & K)] _ c0 d k _ cl Hcl Hk. set (w1 := with_srv t' w).
  assert (Es : signal (srv w) t' w1 = foldr (touchWatchedKeysOnFlush (srv w)) (foldr touchWatchedKey w1 ts) fs).
  { unfold signal. by rewrite Et, Ef, !drop_app_length. }
  pose proof (signal_marked (srv w) t' w1) as M. destruct (marked_client _ _ c0 cl M Hcl) as (cl' & Hcl' & Hor). exists cl'.
  split; [done|]. split; [by destruct Hor as [->| ->]|]. split; [by destruct Hor as [->| ->]|]. intros He.
  destruct M as [Ms _ _]. rewrite Ms. cbn [srv w1 with_srv].
  assert (Hmark : is_marked c0 (signal (srv w) t' w1) -> CLIENT_DIRTY_CAS cl' = true).
  { intros (cl2 & H2 & Hc). congruence. }
  destruct (K d k) as [[HK1 HK2]|[Hin|[[Hv Hin]|Hx]]].
  - right. split; [done|]. destruct HK2 as [->|HK2]; [done|done].
  - left. apply Hmark. rewrite Es. eapply marked_stays; [apply flushes_marked|].
    destruct (ci_watched _ _ _ (i_client _ I c0 cl Hcl) (d, k) Hk) as (l & Hl & Hc). by apply (touches_mark ts w1 c0 (d, k) l cl).
  - left. apply Hmark. rewrite Es. destruct (marked_client _ _ c0 cl (touches_marked ts w1) Hcl) as (cl2 & Hcl2 & Hor2).
    apply (flushes_mark _ _ _ c0 d k cl2); [done|done|done|]. by destruct Hor2 as [->| ->].
  - rewrite He in Hx. done.
Qed.

(** The state after a command: the clients are the same but for marks. *)
Definition lifted (w w' : world) : Prop := marked (with_srv (srv w') w) w'.

Lemma lifted_client w w' c cl : lifted w w' -> clients w !! c = Some cl -> exists cl', clients w' !! c = Some cl' /\ (cl' = cl \/ cl' = set_cas cl).
Proof. intros M H. exact (marked_client _ _ c cl M H). Qed.

Lemma lift_ok {A} own c w (m : AM A) (Q : A -> astate -> Prop) : winv w -> is_Some (clients w !! c) ->
  match m (srv w) with Ret (a, t') => Z.of_nat (length (adbs t')) = L /\ Q a t' | Fault f => soft f end ->
  (mv = false -> shows m) -> run_ok own c w (lift m) (fun a w' => Q a (srv w') /\ lifted w w').
Proof.
  intros I [cl Hcl] Hm Hs. unfold run_ok, lift. destruct (m (srv w)) as [[a t']|f] eqn:E; [|done]. destruct Hm as [Hl HQ].
  pose proof (signal_marked (srv w) t' (with_srv t' w)) as M. pose proof M as [Ms _ _]. cbn [srv with_srv] in Ms.
  split; [eapply winv_marked; [exact M|by apply winv_srv]|]. split.
  { destruct (marked_client _ _ c cl M Hcl) as (cl' & H' & _). by eexists. }
  split.
  - destruct mv eqn:Em; [by intros H; rewrite Em in H|]. specialize (Hs eq_refl (srv w)). rewrite E in Hs. by apply shown_related.
  - unfold lifted. rewrite Ms. done.
Qed.

Lemma with_srv_same w : with_srv (srv w) w = w.
Proof. by destruct w. Qed.

(** A step without signals. *)
Lemma lift_still {A} (m : AM A) w a t : m (srv w) = Ret (a, t) -> touched (alg t) = touched (alg (srv w)) ->
  flushed (alg t) = flushed (alg (srv w)) -> lift m w = Ret (a, with_srv t w).
Proof. intros E Et Ef. unfold lift. rewrite E. unfold signal. by rewrite Et, Ef, !drop_all. Qed.

Lemma lift_get {A} (f : astate -> A) w : lift (aget f) w = Ret (f (srv w), w).
Proof. rewrite (lift_still (aget f) w (f (srv w)) (srv w)) by done. by rewrite with_srv_same. Qed.

Lemma lift_benign {A} own c w (m : AM A) N : winv w -> is_Some (clients w !! c) -> aok L N (srv w) -> benign L N m -> telling m ->
  run_ok own c w (lift m) (fun _ w' => aok L N (srv w') /\ lifted w w').
Proof.
  intros I C Ha Hb Ht. eapply run_conseq; [apply (lift_ok own c w m (fun _ t => aok L N t))|]; try done.
  - specialize (Hb (srv w) Ha). destruct (m (srv w)) as [[a t']|f]; [|done]. split; [by destruct Hb|done].
  - intros _. by apply telling_shows.
Qed.

(** ** The record of the client *)

Lemma guards_client own c w cl cl' : clients w !! c = Some cl -> (own = true -> (forall wk, wk ∈ watched_keys cl -> wk ∈ watched_keys cl') /\
  (CLIENT_DIRTY_CAS cl = true -> CLIENT_DIRTY_CAS cl' = true)) ->
  forall w', srv w' = srv w -> clients w' = <[c := cl']> (clients w) -> related own c w w'.
Proof.
  intros Hcl H w' Es Ec _ c0 d k Ho cl0 H0 Hk. rewrite Ec, Es. destruct (decide (c0 = c)) as [->|Hn].
  - assert (cl0 = cl) as -> by congruence. destruct H as [H1 H2]; [by destruct Ho|]. exists cl'. rewrite lookup_insert_eq. split_and!; auto.
  - exists cl0. rewrite lookup_insert_ne by done. split_and!; auto.
Qed.

Lemma set_client_ok own c w cl cl' : winv w -> clients w !! c = Some cl -> client_inv w c cl' -> watched_keys cl' = watched_keys cl ->
  (own = true -> CLIENT_DIRTY_CAS cl = true -> CLIENT_DIRTY_CAS cl' = true) ->
  run_ok own c w (set_client c cl') (fun _ w' => w' = with_clients (<[c := cl']> (clients w)) w).
Proof.
  intros I Hcl Hi Ek Hc. destruct I as [I1 I2 I3]. split; [|split; [|split; [|done]]].
  - split; [done| |].
    + intros c0 cl0. cbn. rewrite lookup_insert_Some. intros [[<- <-]|[_ H]]; [by destruct Hi; split|]. destruct (I2 c0 cl0 H). by split.
    + intros wk l Hl. destruct (I3 wk l Hl) as (B1 & B2 & B3). split; [done|]. split; [done|]. intros c0 H0. destruct (B3 c0 H0) as (cl0 & H1 & H2).
      cbn. destruct (decide (c0 = c)) as [->|Hn]; [exists cl'; rewrite lookup_insert_eq; split; [done|]; rewrite Ek; congruence|].
      exists cl0. by rewrite lookup_insert_ne.
  - cbn. rewrite lookup_insert_eq. by eexists.
  - apply (guards_client own c w cl cl'); [done| |done|done]. intros Ho. rewrite Ek. auto.
Qed.

Lemma get_client_run {A} own c w (k : client -> WM A) Q cl : clients w !! c = Some cl -> run_ok own c w (k cl) Q ->
  run_ok own c w (get_client c ≫= k) Q.
Proof. intros H K. unfold run_ok, mbind, WM_bind, get_client in *. by rewrite H. Qed.

Lemma get_run {A B} own c w (f : astate -> B) (k : B -> WM A) Q : run_ok own c w (k (f (srv w))) Q -> run_ok own c w (lift (aget f) ≫= k) Q.
Proof. intros K. unfold run_ok, mbind, WM_bind in *. by rewrite lift_get. Qed.

(** ** WATCH and UNWATCH *)

Lemma watchForKey_ok c k w : winv w -> is_Some (clients w !! c) -> run_ok true c w (watchForKey c k) (fun _ w' => srv w' = srv w).
Proof.
  intros I [cl Hcl]. unfold watchForKey. eapply get_client_run; [done|]. apply get_run. set (wk := (acur (srv w), k)).
  destruct (bool_decide (wk ∈ watched_keys cl)) eqn:Eb; [by apply run_ret; [|eexists|]|]. apply bool_decide_eq_false in Eb.
  destruct I as [I1 I2 I3]. pose proof (I2 c cl Hcl) as Hi. destruct Hi as [A1 A2 A3 A4 A5].
  unfold run_ok, mbind, WM_bind. cbn [wget wset set_client with_watched with_clients clients srv db_watched_keys]. split; [|split; [|split; [|done]]].
  - split; [done| |].
    + intros c0 cl0. cbn. rewrite lookup_insert_Some. intros [[<- <-]|[Hn H]].
      * split; cbn; auto.
        -- apply NoDup_app. split; [done|]. split; [|apply NoDup_singleton]. intros x Hx ->%list_elem_of_singleton. done.
        -- intros x [Hx|Hx%list_elem_of_singleton]%elem_of_app.
           ++ destruct (A3 x Hx) as (l & Hl & Hc). exists l. rewrite lookup_insert_ne; [done|]. intros <-. done.
           ++ subst x. rewrite lookup_insert_eq. eexists. split; [done|]. apply elem_of_app. right. by left.
      * destruct (I2 c0 cl0 H) as [B1 B2 B3 B4 B5]. split; cbn; auto. intros x Hx. destruct (B3 x Hx) as (l & Hl & Hc).
        destruct (decide (x = wk)) as [->|Hx']; [|exists l; by rewrite lookup_insert_ne]. rewrite lookup_insert_eq, Hl. cbn.
        eexists. split; [done|]. apply elem_of_app. by left.
    + intros x l. cbn. rewrite lookup_insert_Some. intros [[<- <-]|[Hn Hl]].
      * split; [by intros []%app_nil|]. destruct (db_watched_keys w !! wk) as [l|] eqn:El; cbn.
        -- destruct (I3 wk l El) as (B1 & B2 & B3). split.
           ++ apply NoDup_app. split; [done|]. split; [|apply NoDup_singleton]. intros x Hx ->%list_elem_of_singleton.
              destruct (B3 c Hx) as (cl' & H1 & H2). by assert (cl' = cl) as -> by congruence.
           ++ intros c0 [H0|H0%list_elem_of_singleton]%elem_of_app.
              ** destruct (B3 c0 H0) as (cl0 & H1 & H2). destruct (decide (c0 = c)) as [->|Hn].
                 --- exists (with_keys (watched_keys cl ++ [wk]) cl). rewrite lookup_insert_eq. split; [done|]. cbn. apply elem_of_app. right. by left.
                 --- exists cl0. by rewrite lookup_insert_ne.
              ** subst c0. rewrite lookup_insert_eq. eexists. split; [done|]. cbn. apply elem_of_app. right. by left.
        -- split; [apply NoDup_singleton|]. intros c0 ->%list_elem_of_singleton. rewrite lookup_insert_eq. eexists. split; [done|]. cbn.
           apply elem_of_app. right. by left.
      * destruct (I3 x l Hl) as (B1 & B2 & B3). split; [done|]. split; [done|]. intros c0 H0. destruct (B3 c0 H0) as (cl0 & H1 & H2).
        destruct (decide (c0 = c)) as [->|Hc]; [|exists cl0; by rewrite lookup_insert_ne]. rewrite lookup_insert_eq. eexists. split; [done|]. cbn.
        apply elem_of_app. left. congruence.
  - cbn. rewrite lookup_insert_eq. by eexists.
  - apply (guards_client true c w cl (with_keys (watched_keys cl ++ [wk]) cl)); [done| |done|done]. intros _. split; [|done]. intros x Hx. cbn.
    apply elem_of_app. by left.
Qed.

Lemma remove_client_spec c l : c ∈ l -> NoDup l -> exists l', remove_client c l = Some l' /\ NoDup l' /\ forall x, x ∈ l' <-> x ∈ l /\ x <> c.
Proof.
  induction l as [|y l IH]; intros Hc Hn; [by apply not_elem_of_nil in Hc|]. apply NoDup_cons in Hn as [Hy Hn]. cbn.
  destruct (decide (y = c)) as [->|Hne].
  - exists l. split; [done|]. split; [done|]. intros x. rewrite elem_of_cons. split; [|naive_solver]. intros Hx. split; [auto|]. by intros ->.
  - apply elem_of_cons in Hc as [Hc|Hc]; [congruence|]. destruct (IH Hc Hn) as (l' & -> & Hn' & Hx). cbn. exists (y :: l'). split; [done|]. split.
    + apply NoDup_cons. split; [|done]. rewrite Hx. tauto.
    + intros x. rewrite !elem_of_cons, Hx. naive_solver.
Qed.

(** One key is given up. *)
Lemma unwatch_one c w cl wk l cs cs' : winv w -> clients w !! c = Some cl -> watched_keys cl = wk :: l -> db_watched_keys w !! wk = Some cs ->
  NoDup cs' -> (forall x, x ∈ cs' <-> x ∈ cs /\ x <> c) ->
  winv (mk_world (srv w) (<[c := with_keys l cl]> (clients w)) (match cs' with [] => delete wk (db_watched_keys w) | _ => <[wk := cs']> (db_watched_keys w) end)).
Proof.
  intros [I1 I2 I3] Hcl Ek Hcs Hn' Hx. pose proof (I2 c cl Hcl) as [A1 A2 A3 A4 A5]. rewrite Ek in A2, A3. apply NoDup_cons in A2 as [Hwk A2].
  set (m := match cs' with [] => delete wk (db_watched_keys w) | _ => <[wk := cs']> (db_watched_keys w) end).
  assert (Hm : forall x, m !! x = if decide (x = wk) then (match cs' with [] => None | _ => Some cs' end) else db_watched_keys w !! x).
  { intros x. unfold m. destruct (decide (x = wk)) as [->|Hne]; destruct cs'; by rewrite ?lookup_delete_eq, ?lookup_insert_eq, ?lookup_delete_ne, ?lookup_insert_ne. }
  assert (Hin : forall x c0 l0, c0 <> c -> db_watched_keys w !! x = Some l0 -> c0 ∈ l0 -> exists l1, m !! x = Some l1 /\ c0 ∈ l1).
  { intros x c0 l0 Hc Hl H0. rewrite Hm. destruct (decide (x = wk)) as [->|]; [|eauto]. assert (l0 = cs) as -> by congruence.
    assert (H1 : c0 ∈ cs') by (by apply Hx). destruct cs'; [by apply not_elem_of_nil in H1|eauto]. }
  split; [done| |]; cbn.
  - intros c0 cl0. rewrite lookup_insert_Some. intros [[<- <-]|[Hn H]].
    + split; cbn; auto. intros x Hxl. destruct (A3 x ltac:(by right)) as (l0 & Hl0 & Hc0). exists l0. rewrite Hm.
      rewrite decide_False; [done|]. intros ->. done.
    + destruct (I2 c0 cl0 H) as [B1 B2 B3 B4 B5]. split; auto. intros x Hx0. destruct (B3 x Hx0) as (l0 & Hl0 & Hc0). apply (Hin x c0 l0); auto.
  - intros x l0. rewrite Hm. destruct (decide (x = wk)) as [->|Hne]; intros Hl0.
    + assert (l0 = cs' /\ cs' <> []) as [-> Hne] by (destruct cs'; [done|by injection Hl0 as <-]). split; [done|]. split; [done|]. intros c0 [H0 Hc]%Hx.
      destruct (I3 wk cs Hcs) as (_ & _ & B3). destruct (B3 c0 H0) as (cl0 & H1 & H2). exists cl0. by rewrite lookup_insert_ne.
    + destruct (I3 x l0 Hl0) as (B1 & B2 & B3). split; [done|]. split; [done|]. intros c0 H0. destruct (B3 c0 H0) as (cl0 & H1 & H2).
      destruct (decide (c0 = c)) as [->|Hc]; [|exists cl0; by rewrite lookup_insert_ne]. rewrite lookup_insert_eq. eexists. split; [done|]. cbn.
      assert (cl0 = cl) as -> by congruence. rewrite Ek in H2. apply elem_of_cons in H2 as [?|?]; done.
Qed.

Lemma unwatch_loop_ok c l : forall w cl, winv w -> clients w !! c = Some cl -> watched_keys cl = l ->
  run_ok false c w (unwatch_loop c l) (fun _ w' => srv w' = srv w /\ clients w' = <[c := with_keys [] cl]> (clients w)).
Proof.
  induction l as [|wk l IH]; intros w cl I Hcl Ek; cbn [unwatch_loop].
  { apply run_ret; [done|by eexists|]. split; [done|]. rewrite insert_id; [done|]. rewrite Hcl. destruct cl; cbn in *. by subst. }
  pose proof (i_client _ I c cl Hcl) as [_ _ A3 _ _]. destruct (A3 wk) as (cs & Hcs & Hc); [rewrite Ek; by left|].
  destruct (i_watched _ I wk cs Hcs) as (_ & Hnd & _). destruct (remove_client_spec c cs Hc Hnd) as (cs' & Er & Hn' & Hx).
  pose proof (unwatch_one c w cl wk l cs cs' I Hcl Ek Hcs Hn' Hx) as I'.
  set (w1 := mk_world (srv w) (<[c := with_keys l cl]> (clients w)) (match cs' with [] => delete wk (db_watched_keys w) | _ => <[wk := cs']> (db_watched_keys w) end)) in *.
  assert (Hcl1 : clients w1 !! c = Some (with_keys l cl)) by (apply lookup_insert_eq).
  specialize (IH w1 (with_keys l cl) I' Hcl1 eq_refl).
  unfold run_ok, mbind, WM_bind. cbn [wget]. rewrite Hcs, Er. cbn [wset]. unfold get_client. cbn [clients with_watched]. rewrite Hcl. cbn [set_client].
  change (with_clients _ _) with w1. unfold run_ok in IH. destruct (unwatch_loop c l w1) as [[[] w2]|f]; [|done].
  destruct IH as (I2 & C2 & R2 & Es & Ec). split; [done|]. split; [done|]. split.
  - etrans; [|exact R2]. by apply (guards_client false c w cl (with_keys l cl)).
  - split; [done|]. rewrite Ec. cbn [clients w1]. by rewrite insert_insert_eq.
Qed.

Lemma unwatchAllKeys_ok c w cl : winv w -> clients w !! c = Some cl ->
  run_ok false c w (unwatchAllKeys c) (fun _ w' => srv w' = srv w /\ clients w' = <[c := with_keys [] cl]> (clients w)).
Proof. intros I Hcl. unfold unwatchAllKeys. eapply get_client_run; [done|]. by apply unwatch_loop_ok. Qed.

Lemma watch_loop_ok c N n : forall j w, winv w -> is_Some (clients w !! c) -> aok L N (srv w) -> (j + n <= N)%nat ->
  run_ok true c w (watch_loop c n j) (fun _ w' => aok L N (srv w')).
Proof.
  induction n as [|n IH]; intros j w I C Ha Hj; cbn [watch_loop]; [by apply run_ret|].
  eapply run_bind; [apply (lift_benign true c w _ N); [done|done|done|apply benign_arg; lia|apply telling_arg]|]. intros k w1 I1 C1 [Ha1 _].
  eapply run_bind; [by apply watchForKey_ok|]. intros [] w2 I2 C2 E2. apply IH; [done|done|by rewrite E2|lia].
Qed.

(** ** MULTI, DISCARD and the queue *)

(** Some number of arguments. *)
Definition fit (t : astate) : Prop := exists N, aok L N t.

(** A reply, or another step that is the same for any arguments. *)
Lemma lift_plain {A} own c w (m : AM A) : winv w -> is_Some (clients w !! c) -> fit (srv w) -> (forall N, benign L N m) -> telling m ->
  run_ok own c w (lift m) (fun _ w' => fit (srv w') /\ lifted w w').
Proof. intros I C [N Ha] Hb Ht. eapply run_conseq; [by apply lift_benign|]. intros a w' [H1 H2]. split; [by exists N|done]. Qed.

Lemma reply_ok own c w (m : AM unit) : winv w -> is_Some (clients w !! c) -> fit (srv w) -> (forall N, benign L N m) -> telling m ->
  run_ok own c w (lift m) (fun _ w' => fit (srv w')).
Proof. intros I C Ha Hb Ht. eapply run_conseq; [by apply lift_plain|]. by intros a w' [H _]. Qed.

Lemma watchCommand_ok c w N : winv w -> is_Some (clients w !! c) -> aok L N (srv w) -> (1 <= N)%nat ->
  run_ok true c w (watchCommand c) (fun _ w' => fit (srv w')).
Proof.
  intros I [cl Hcl] Ha HN. unfold watchCommand. eapply get_client_run; [done|]. destruct (CLIENT_MULTI cl).
  { apply reply_ok; [done|by eexists|by exists N|intros; apply benign_error|apply telling_error]. }
  unfold aargc. apply get_run. eapply run_bind; [apply (watch_loop_ok c N); [done|by eexists|done|]|].
  { destruct Ha as (_ & _ & ->). lia. }
  intros [] w1 I1 C1 Ha1. apply reply_ok; [done|done|by exists N|intros; apply benign_reply|apply telling_reply].
Qed.

(** The record of a client changes, its keys do not. *)
Lemma client_inv_flags w c cl multi cas exec : client_inv w c cl -> (multi = false -> mstate cl = [] /\ exec = false) ->
  client_inv w c (with_flags multi cas exec cl).
Proof. intros [A1 A2 A3 A4 A5] H. by split. Qed.

Lemma unwatchCommand_ok c w : winv w -> is_Some (clients w !! c) -> fit (srv w) -> run_ok false c w (unwatchCommand c) (fun _ w' => fit (srv w')).
Proof.
  intros I [cl Hcl] Ha. unfold unwatchCommand. eapply run_bind; [by apply unwatchAllKeys_ok|]. intros [] w1 I1 _ [E1 C1].
  assert (Hcl1 : clients w1 !! c = Some (with_keys [] cl)) by (rewrite C1; apply lookup_insert_eq).
  eapply get_client_run; [exact Hcl1|]. eapply run_bind; [eapply set_client_ok; [done|exact Hcl1| |done|done]|].
  { apply client_inv_flags; [by apply (i_client _ I1)|]. apply (ci_multi _ _ _ (i_client _ I1 _ _ Hcl1)). }
  intros [] w2 I2 C2 ->. apply reply_ok; [done|done|by rewrite <- E1 in Ha|intros; apply benign_reply|apply telling_reply].
Qed.

Lemma multiCommand_ok c w : winv w -> is_Some (clients w !! c) -> fit (srv w) -> run_ok true c w (multiCommand c) (fun _ w' => fit (srv w')).
Proof.
  intros I [cl Hcl] Ha. unfold multiCommand. eapply get_client_run; [done|]. destruct (CLIENT_MULTI cl) eqn:Em.
  { apply reply_ok; [done|by eexists|done|intros; apply benign_error|apply telling_error]. }
  eapply run_bind; [eapply set_client_ok; [done|exact Hcl| |done|done]|].
  { by apply client_inv_flags; [by apply (i_client _ I)|]. }
  intros [] w2 I2 C2 ->. apply reply_ok; [done|done|done|intros; apply benign_reply|apply telling_reply].
Qed.

Lemma flagTransaction_ok c w : winv w -> is_Some (clients w !! c) -> run_ok true c w (flagTransaction c) (fun _ w' => srv w' = srv w).
Proof.
  intros I [cl Hcl]. unfold flagTransaction. eapply get_client_run; [done|]. destruct (CLIENT_MULTI cl) eqn:Em; [|by apply run_ret; [|eexists|]].
  eapply run_conseq; [eapply set_client_ok; [done|exact Hcl| |done|done]|by intros a w' ->]. by apply client_inv_flags; [by apply (i_client _ I)|].
Qed.

Lemma queueMultiCommand_ok c w cl cmd : winv w -> clients w !! c = Some cl -> CLIENT_MULTI cl = true -> runnable (mk_multiCmd cmd (aargs (srv w))) ->
  run_ok true c w (queueMultiCommand c cmd) (fun _ w' => srv w' = srv w).
Proof.
  intros I Hcl Em Hr. unfold queueMultiCommand. eapply get_client_run; [done|]. apply get_run.
  eapply run_conseq; [eapply set_client_ok; [done|exact Hcl| |done|done]|by intros a w' ->].
  destruct (i_client _ I c cl Hcl) as [A1 A2 A3 A4 A5]. split; cbn; auto; [|congruence]. apply Forall_app. split; [done|]. by apply Forall_singleton.
Qed.

(** The record of a client that has left its transaction. *)
Definition idle (cl : client) : client := mk_client (c_db cl) false false false [] [].

Lemma discardTransaction_ok c w cl : winv w -> clients w !! c = Some cl ->
  run_ok false c w (discardTransaction c) (fun _ w' => srv w' = srv w /\ clients w' = <[c := idle cl]> (clients w)).
Proof.
  intros I Hcl. unfold discardTransaction. eapply get_client_run; [done|].
  eapply run_bind; [eapply set_client_ok; [done|exact Hcl| |done|done]|].
  { destruct (i_client _ I c cl Hcl) as [A1 A2 A3 A4 A5]. split; cbn; auto. }
  intros [] w1 I1 C1 ->. eapply run_conseq; [apply unwatchAllKeys_ok; [done|]|].
  - cbn. apply lookup_insert_eq.
  - intros [] w2 [E2 C2]. split; [done|]. rewrite C2. cbn. by rewrite insert_insert_eq.
Qed.

Lemma discardCommand_ok c w : winv w -> is_Some (clients w !! c) -> fit (srv w) -> run_ok false c w (discardCommand c) (fun _ w' => fit (srv w')).
Proof.
  intros I [cl Hcl] Ha. unfold discardCommand. eapply get_client_run; [done|]. destruct (negb (CLIENT_MULTI cl)).
  { apply reply_ok; [done|by eexists|done|intros; apply benign_error|apply telling_error]. }
  eapply run_bind; [by apply discardTransaction_ok|]. intros [] w1 I1 C1 [E1 _].
  apply reply_ok; [done|done|by rewrite E1|intros; apply benign_reply|apply telling_reply].
Qed.

(** ** EXEC *)

Lemma benign_propagate N : benign L N apropagate.
Proof. apply benign_bind; [apply benign_get|]. intros d. apply benign_bind; [apply benign_get|]. intros v. apply benign_record. Qed.

Lemma telling_propagate : telling apropagate.
Proof. unfold apropagate. telling. Qed.

Lemma mcall_ok own exec c w cmd : winv w -> is_Some (clients w !! c) -> fit (srv w) ->
  run_ok own c w (run_proc exec c (mc_proc cmd)) (fun _ w' => fit (srv w')) ->
  run_ok own c w (mcall exec c cmd) (fun _ w' => fit (srv w')).
Proof.
  intros I C Ha Hp. unfold mcall. apply get_run. eapply run_bind; [exact Hp|]. intros [] w1 I1 C1 Ha1. apply get_run.
  destruct (_ <? _); [|by apply run_ret]. apply reply_ok; [done|done|done|apply benign_propagate|apply telling_propagate].
Qed.

Lemma plain_ok own exec c w spec N : winv w -> is_Some (clients w !! c) -> aok L N (srv w) -> safe_spec N spec -> (mv = false -> shows spec) ->
  run_ok own c w (run_proc exec c (Plain spec)) (fun _ w' => fit (srv w')).
Proof.
  intros I C Ha Hs Hsh. cbn [run_proc]. eapply run_conseq; [apply (lift_ok own c w spec (fun _ t => fit t)); try done|by intros a w' [H _]].
  specialize (Hs L (srv w) Ha). destruct (spec (srv w)) as [[[] t']|f]; [|done]. destruct Hs as [N' Ha']. split; [by destruct Ha'|by exists N'].
Qed.

Lemma benign_set_mcmd N cmd : benign L N (set_mcmd cmd).
Proof. apply benign_bind; [apply benign_get|]. intros c. apply benign_set_cmd. Qed.

Lemma telling_set_mcmd cmd : telling (set_mcmd cmd).
Proof. unfold set_mcmd. telling. Qed.

Lemma set_args_ok own c w v : winv w -> is_Some (clients w !! c) -> fit (srv w) ->
  run_ok own c w (lift (aset_args v)) (fun _ w' => aok L (length v) (srv w')).
Proof.
  intros I C [N (H1 & H2 & _)]. eapply run_conseq; [apply (lift_ok own c w _ (fun _ t => aok L (length v) t)); try done|by intros a w' [H _]].
  intros _. apply telling_shows, telling_set_args.
Qed.

Lemma exec_loop_ok c q : forall must w, winv w -> is_Some (clients w !! c) -> fit (srv w) -> Forall runnable q ->
  run_ok false c w (exec_loop c q must) (fun _ w' => fit (srv w')).
Proof.
  induction q as [|x q IH]; intros must w I C Ha Hq; cbn [exec_loop]; [by apply run_ret|]. apply Forall_cons in Hq as [Hx Hq].
  eapply run_bind; [by apply set_args_ok|]. intros [] w1 I1 C1 Ha1.
  eapply run_bind; [apply (lift_benign _ c w1 _ _ I1 C1 Ha1); [apply benign_set_mcmd|apply telling_set_mcmd]|]. intros [] w2 I2 C2 [Ha2 _].
  set (first := negb must && _). assert (Hf : run_ok false c w2 (if first then lift execCommandPropagateMulti else mret tt)
    (fun _ w' => aok L (length (q_argv x)) (srv w'))).
  { destruct first; [|by apply run_ret]. eapply run_conseq; [apply (lift_benign _ c w2 _ _ I2 C2 Ha2)|by intros a w' [H _]].
    - apply benign_bind; [apply benign_get|]. intros d. apply benign_record.
    - unfold execCommandPropagateMulti. telling. }
  eapply run_bind; [exact Hf|]. intros [] w3 I3 C3 Ha3. eapply run_bind; [apply mcall_ok; [done|done|by eexists|]|].
  - unfold runnable in Hx. destruct (mc_proc (q_cmd x)) as [spec| | | | |]; try done.
    + destruct Hx as [Hx1 Hx2]. by eapply plain_ok.
    + apply unwatchCommand_ok; [done|done|by eexists].
  - intros [] w4 I4 C4 Ha4. by apply IH.
Qed.

Lemma execCommand_ok c w : winv w -> is_Some (clients w !! c) -> fit (srv w) -> run_ok false c w (execCommand c) (fun _ w' => fit (srv w')).
Proof.
  intros I [cl Hcl] Ha. unfold execCommand. eapply get_client_run; [done|]. destruct (negb (CLIENT_MULTI cl)).
  { apply reply_ok; [done|by eexists|done|intros; apply benign_error|apply telling_error]. }
  destruct (_ || _).
  { eapply run_bind; [apply reply_ok; [done|by eexists|done|intros; apply benign_reply|apply telling_reply]|]. intros [] w1 I1 [cl1 C1] Ha1.
    eapply run_conseq; [by apply discardTransaction_ok|]. by intros [] w2 [-> _]. }
  eapply run_bind; [by apply unwatchAllKeys_ok|]. intros [] w1 I1 C1 [E1 _]. unfold exec_queue. apply get_run.
  eapply run_bind; [apply reply_ok; [done|done|by rewrite E1|intros; apply benign_multibulk|apply telling_multibulk]|]. intros [] w2 I2 C2 Ha2.
  eapply run_bind; [apply exec_loop_ok; [done|done|done|apply (ci_queue _ _ _ (i_client _ I c cl Hcl))]|]. intros must w3 I3 C3 Ha3.
  eapply run_bind; [by apply set_args_ok|]. intros [] w4 I4 C4 Ha4.
  eapply run_bind; [apply reply_ok; [done|done|by eexists|intros; apply benign_set_mcmd|apply telling_set_mcmd]|]. intros [] w5 I5 [cl5 C5] Ha5.
  eapply run_bind; [by apply discardTransaction_ok|]. intros [] w6 I6 C6 [E6 _].
  destruct must; [|apply run_ret; [done|done|by rewrite E6]].
  apply reply_ok; [done|done|by rewrite E6|intros; apply benign_record|apply telling_dirty].
Qed.

(** ** The table *)

(** The commands that give up the watches of their client. *)
Definition gives_up (p : mproc) : bool := match p with execProc | discardProc | unwatchProc => true | _ => false end.

Definition entry_ok (cmd : mcommand) : Prop := forall N, arity_ok (arity (mc_cmd cmd)) N -> (1 <= N)%nat ->
  match mc_proc cmd with Plain spec => safe_spec N spec /\ (mv = false -> shows spec) | _ => True end.

Lemma run_proc_ok c w cmd N : winv w -> is_Some (clients w !! c) -> aok L N (srv w) -> arity_ok (arity (mc_cmd cmd)) N -> (1 <= N)%nat -> entry_ok cmd ->
  run_ok (negb (gives_up (mc_proc cmd))) c w (run_proc (execCommand c) c (mc_proc cmd)) (fun _ w' => fit (srv w')).
Proof.
  intros I C Ha Har HN He. specialize (He N Har HN). assert (Hfit : fit (srv w)) by (by exists N). destruct (mc_proc cmd) as [spec| | | | |]; cbn.
  - destruct He as [H1 H2]. by apply (plain_ok _ (execCommand c) c w spec N).
  - by apply multiCommand_ok.
  - by apply execCommand_ok.
  - by apply discardCommand_ok.
  - by apply (watchCommand_ok c w N).
  - by apply unwatchCommand_ok.
Qed.
End invariant.

(** The checks are those of the server. *)
Lemma mrefuse_refuse cmd n c : snd <$> mrefuse cmd n c = refuse cmd n c.
Proof.
  unfold mrefuse, refuse. destruct (_ || _); [done|]. destruct (noauth _); [done|]. destruct (_ && _); [by destruct (write_error _)|].
  destruct (_ && _); [done|]. destruct (_ && _ && _ && _); [done|]. destruct (_ && _); [done|]. destruct (_ && _ && _); [done|].
  destruct (_ && _); [done|]. by destruct (lua_timedout _).
Qed.

Lemma mrefuse_arity cmd N c : mrefuse cmd (Z.of_nat N) c = None -> arity_ok (arity cmd) N.
Proof. unfold mrefuse, arity_ok. destruct (_ || _) eqn:E; [done|]. done. Qed.

(** A request by its name. *)
Definition named (s : String.string) (args : list (list Z)) : Prop := exists n, head args = Some n /\ map tolower n = bytes_of_string s.
Arguments named _%_string_scope _.

Lemma mtable_ok mv cmd : cmd ∈ mtable -> (mv = false -> name (mc_cmd cmd) <> bytes_of_string "move") -> entry_ok mv cmd.
Proof.
  intros Hin Hm N Har HN. unfold mtable in Hin. apply elem_of_app in Hin as [Hin|Hin].
  - apply list_elem_of_fmap in Hin as (p & -> & Hp). cbn in *. pose proof table_safe as S. pose proof table_shows as T. rewrite Forall_forall in S, T.
    split; [by apply S|]. intros E. by apply T, Hm.
  - repeat (apply elem_of_cons in Hin as [->|Hin]; [done|]). by apply not_elem_of_nil in Hin.
Qed.

Lemma mlookup_name n cmd : mlookupCommand n = Some cmd -> cmd ∈ mtable /\ map tolower (name (mc_cmd cmd)) = map tolower n.
Proof.
  unfold mlookupCommand. destruct (list_find _ mtable) as [[i x]|] eqn:E; [|done]. intros [= <-]. apply list_find_Some in E as (H1 & H2 & _).
  split; [by apply list_elem_of_lookup_2 in H1|done].
Qed.

(** The commands that give up watches are found under their names. *)
Definition resigns (args : list (list Z)) : Prop := named "exec" args \/ named "discard" args \/ named "unwatch" args.

Lemma gives_up_name cmd n args : cmd ∈ mtable -> gives_up (mc_proc cmd) = true -> map tolower (name (mc_cmd cmd)) = map tolower n ->
  head args = Some n -> resigns args.
Proof.
  intros Hin Hg Hn Hh. unfold mtable in Hin. apply elem_of_app in Hin as [Hin|Hin].
  - apply list_elem_of_fmap in Hin as (p & -> & _). done.
  - apply elem_of_cons in Hin as [->|Hin]; [done|]. apply elem_of_cons in Hin as [->|Hin]; [left; exists n; by rewrite <- Hn|].
    apply elem_of_cons in Hin as [->|Hin]; [right; left; exists n; by rewrite <- Hn|]. apply elem_of_cons in Hin as [->|Hin]; [done|].
    apply elem_of_cons in Hin as [->|Hin]; [right; right; exists n; by rewrite <- Hn|]. by apply not_elem_of_nil in Hin.
Qed.

Lemma move_name cmd n args : map tolower (name (mc_cmd cmd)) = map tolower n -> head args = Some n -> ~ named "move" args ->
  name (mc_cmd cmd) <> bytes_of_string "move".
Proof. intros Hn Hh Hm E. apply Hm. exists n. split; [done|]. by rewrite <- Hn, E. Qed.

Section requests.
Context (mv : bool) (L : Z).

(** The data and the clients are the same. *)
Lemma same_dbs_ok own c w t : winv mv L w -> is_Some (clients w !! c) -> adbs t = adbs (srv w) ->
  winv mv L (with_srv t w) /\ is_Some (clients (with_srv t w) !! c) /\ related mv own c w (with_srv t w).
Proof.
  intros I C E. split; [apply winv_srv; [rewrite E; apply (i_dbs _ _ _ I)|done]|]. split; [done|]. intros _ c0 d k _ cl Hcl Hk. exists cl.
  split; [done|]. split; [done|]. split; [done|]. intros He. right. unfold value_at, expire_at, db_at in *. cbn. by rewrite E.
Qed.

Lemma lift_arg j w a : aargs (srv w) !! j = Some a -> lift (aarg j) w = Ret (a, w).
Proof. intros H. rewrite (lift_still _ w a (srv w)); [by rewrite with_srv_same|unfold aarg; by rewrite H|done|done]. Qed.

Lemma arg_run {A} own c w j a (k : list Z -> WM A) Q : aargs (srv w) !! j = Some a -> run_ok mv L own c w (k a) Q ->
  run_ok mv L own c w (lift (aarg j) ≫= k) Q.
Proof. intros H K. unfold run_ok, mbind, WM_bind in *. by rewrite (lift_arg j w a H). Qed.

Lemma mprocessCommand_ok own c w args : winv mv L w -> is_Some (clients w !! c) -> aok L (length args) (srv w) -> aargs (srv w) = args -> args <> [] ->
  (own = true -> ~ resigns args) -> (mv = false -> ~ named "move" args) ->
  run_ok mv L own c w (mprocessCommand c) (fun _ w' => fit L (srv w')).
Proof.
  intros I C Ha Ea Hne Hown Hmv. destruct args as [|n0 args]; [done|]. assert (Hfit : fit L (srv w)) by (by eexists). unfold mprocessCommand.
  eapply arg_run; [by rewrite Ea|].
  destruct (bool_decide _).
  { eapply run_bind; [apply reply_ok; [done|done|done|intros; apply benign_reply|apply telling_reply]|]. intros [] w1 I1 C1 Ha1. by apply run_ret. }
  destruct (mlookupCommand n0) as [cmd|] eqn:El.
  2: { eapply run_bind; [by apply run_own, flagTransaction_ok|]. intros [] w1 I1 C1 E1.
       eapply run_bind; [apply reply_ok; [done|done|by rewrite E1|intros; apply benign_error|apply telling_error]|]. intros [] w2 I2 C2 Ha2. by apply run_ret. }
  apply mlookup_name in El as [Hin Hn]. assert (He : entry_ok mv cmd).
  { apply mtable_ok; [done|]. intros Em. by apply (move_name cmd n0 (n0 :: args)), Hmv. }
  apply get_run. set (t1 := mk_astate (adbs (srv w)) (aargs (srv w)) (acur (srv w)) (with_cmd (name (mc_cmd cmd)) (readonly_of cmd (acf (srv w))) (acf (srv w))) (alg (srv w))).
  destruct (same_dbs_ok own c w t1 I C eq_refl) as (I1 & C1 & R1). set (w1 := with_srv t1 w) in *.
  apply (run_bind mv L own c w _ _ (fun _ w' => w' = w1)).
  { unfold run_ok. rewrite (lift_still _ w tt t1) by done. done. }
  intros [] w' _ _ ->. unfold aargc. apply get_run. assert (Ha1 : aok L (length (n0 :: args)) (srv w1)) by done.
  assert (Hfit1 : fit L (srv w1)) by (by eexists). cbn [srv w1 with_srv aargs t1]. rewrite Ea.
  destruct (mrefuse (mc_cmd cmd) (Z.of_nat (length (n0 :: args))) (acf (srv w))) as [[flag err]|] eqn:Er.
  - apply (run_bind mv L own c w1 _ _ (fun _ w' => fit L (srv w'))).
    { destruct flag; [|by apply run_ret]. eapply run_conseq; [by apply run_own, flagTransaction_ok|]. by intros a w' ->. }
    intros [] w2 I2 C2 Ha2. eapply run_bind; [apply reply_ok; [done|done|done|intros; apply benign_reply|apply telling_reply]|].
    intros [] w3 I3 C3 Ha3. by apply run_ret.
  - apply mrefuse_arity in Er. pose proof C1 as [cl Hcl]. eapply get_client_run; [done|]. destruct (CLIENT_MULTI cl && _) eqn:Em.
    + apply andb_prop in Em as [Em Eo]. apply negb_true_iff in Eo. specialize (He _ Er ltac:(cbn; lia)).
      eapply run_bind; [apply run_own, (queueMultiCommand_ok mv L c w1 cl cmd); [done|done|done|]|].
      { unfold runnable. cbn. rewrite Ea. by destruct (mc_proc cmd). }
      intros [] w2 I2 C2 E2. eapply run_bind; [apply reply_ok; [done|done|by rewrite E2|intros; apply benign_reply|apply telling_reply]|].
      intros [] w3 I3 C3 Ha3. by apply run_ret.
    + eapply run_bind; [apply mcall_ok; [done|done|done|]|].
      * destruct own.
        -- assert (Eg : gives_up (mc_proc cmd) = false).
           { apply not_true_iff_false. intros Eg. by apply (Hown eq_refl), (gives_up_name cmd n0). }
           pose proof (run_proc_ok mv L c w1 cmd (length (n0 :: args)) I1 C1 Ha1 Er ltac:(cbn; lia) He) as H. by rewrite Eg in H.
        -- pose proof (run_proc_ok mv L c w1 cmd (length (n0 :: args)) I1 C1 Ha1 Er ltac:(cbn; lia) He) as H.
           destruct (negb (gives_up (mc_proc cmd))); [by apply run_own|done].
      * intros [] w2 I2 C2 Ha2. by apply run_ret.
Qed.
End requests.
