(* ===== verification/MultiTheorems.v ===== *)
(** * MultiTheorems: what transactions promise

    In every state that is reached the tables of watched keys agree, no
    request makes the code of transactions fail an assertion, and EXEC runs
    what was queued, in one step, or nothing; a key that a client watches
    has the value it had when EXEC runs, or EXEC runs nothing. *)

From S2P Require Import Prelude Util Object Db ServerOk Abstract TString AString Keyspace AKeyspace Server ServerRefine.
From S2P Require Import Safety Signals Multi MultiProofs.

Section events.
Context (mv : bool) (L : Z).

Lemma load_client_ok own c args w : winv mv L w -> is_Some (clients w !! c) ->
  run_ok mv L own c w (load_client c args) (fun _ w' => aok L (length args) (srv w') /\ aargs (srv w') = args).
Proof.
  intros I [cl Hcl]. unfold load_client. eapply get_client_run; [done|]. unfold run_ok, wset.
  destruct (same_dbs_ok mv L own c w (mk_astate (adbs (srv w)) args (c_db cl) (acf (srv w)) (alg (srv w))) I ltac:(by eexists) eq_refl) as (I1 & C1 & R1).
  split; [done|]. split; [done|]. split; [done|]. split; [|done]. split; [apply (i_dbs _ _ _ I)|]. split; [|done].
  apply (ci_db _ _ _ _ _ (i_client _ _ _ I c cl Hcl)).
Qed.

Lemma save_client_ok own c w : winv mv L w -> is_Some (clients w !! c) -> fit L (srv w) -> run_ok mv L own c w (save_client c) (fun _ _ => True).
Proof.
  intros I [cl Hcl] Ha. unfold save_client. eapply get_client_run; [done|]. apply get_run.
  eapply run_bind; [eapply set_client_ok; [done|exact Hcl| |done|done]|].
  { destruct (i_client _ _ _ I c cl Hcl) as [A1 A2 A3 A4 A5]. destruct Ha as (N & _ & Hc & _). by split. }
  intros [] w1 I1 C1 ->. eapply run_conseq; [by apply set_args_ok|]. done.
Qed.

Lemma request_ok own c args w : winv mv L w -> is_Some (clients w !! c) -> args <> [] -> (own = true -> ~ resigns args) ->
  (mv = false -> ~ named "move" args) -> run_ok mv L own c w (request c args) (fun _ _ => True).
Proof.
  intros I C Hne Hown Hmv. unfold request. eapply run_bind; [by apply load_client_ok|]. intros [] w1 I1 C1 [Ha1 Ea1].
  eapply run_bind; [by apply (mprocessCommand_ok mv L own c w1 args)|]. intros o w2 I2 C2 Ha2.
  eapply run_bind; [by apply save_client_ok|]. intros [] w3 I3 C3 _. by apply run_ret.
Qed.

Lemma createClient_ok c w : winv mv L w -> 0 < L -> clients w !! c = None ->
  run_ok mv L true c w (createClient c) (fun _ w' => clients w' = <[c := mk_client 0 false false false [] []]> (clients w)).
Proof.
  intros [I1 I2 I3] HL Hc. unfold createClient, run_ok, mbind, WM_bind. cbn [wget]. rewrite Hc. cbn [set_client].
  split; [|split; [|split; [|done]]].
  - split; [done| |].
    + intros c0 cl0. cbn. rewrite lookup_insert_Some. intros [[<- <-]|[_ H]]; [|by destruct (I2 c0 cl0 H); split].
      split; cbn; [lia|constructor|intros wk H; by apply not_elem_of_nil in H|constructor|done].
    + intros wk l Hl. destruct (I3 wk l Hl) as (B1 & B2 & B3). split; [done|]. split; [done|]. intros c0 H0. destruct (B3 c0 H0) as (cl0 & H1 & H2).
      exists cl0. cbn. rewrite lookup_insert_ne; [done|]. intros ->. congruence.
  - cbn. rewrite lookup_insert_eq. by eexists.
  - intros _ c0 d k _ cl0 H0 Hk. exists cl0. cbn. rewrite lookup_insert_ne by (intros ->; congruence). split_and!; auto.
Qed.

Lemma unwatch_loop_total c l : forall w cl, winv mv L w -> clients w !! c = Some cl -> watched_keys cl = l -> exists w', unwatch_loop c l w = Ret (tt, w').
Proof.
  induction l as [|wk l IH]; intros w cl I Hcl El; [by eexists|]. cbn [unwatch_loop].
  destruct (ci_watched _ _ _ _ _ (i_client _ _ _ I c cl Hcl) wk) as (cs & Hcs & Hc); [rewrite El; by left|].
  destruct (i_watched _ _ _ I wk cs Hcs) as (_ & Hnd & _). destruct (remove_client_spec c cs Hc Hnd) as (cs' & Er & Hn' & Hx).
  pose proof (unwatch_one mv L c w cl wk l cs cs' I Hcl El Hcs Hn' Hx) as I'.
  unfold mbind, WM_bind. cbn [wget]. rewrite Hcs, Er. cbn [wset]. unfold get_client. cbn [clients with_watched]. rewrite Hcl. cbn [set_client].
  eapply (IH _ (with_keys l cl)); [exact I'|cbn; apply lookup_insert_eq|done].
Qed.

Lemma unwatchAllKeys_total c w cl : winv mv L w -> clients w !! c = Some cl -> exists w', unwatchAllKeys c w = Ret (tt, w') /\ winv mv L w' /\
  srv w' = srv w /\ clients w' = <[c := with_keys [] cl]> (clients w) /\ related mv false c w w'.
Proof.
  intros I Hcl. pose proof (unwatchAllKeys_ok mv L c w cl I Hcl) as H. unfold run_ok in H.
  destruct (unwatch_loop_total c (watched_keys cl) w cl I Hcl eq_refl) as [w' E].
  assert (E' : unwatchAllKeys c w = Ret (tt, w')) by (unfold unwatchAllKeys, mbind, WM_bind, get_client; by rewrite Hcl).
  rewrite E' in H. exists w'. tauto.
Qed.

(** A client that is freed watches nothing. *)
Lemma freeClient_ok c w : winv mv L w -> is_Some (clients w !! c) ->
  exists w', freeClient c w = Ret (tt, w') /\ winv mv L w' /\ clients w' !! c = None /\ related mv false c w w'.
Proof.
  intros I [cl Hcl]. unfold freeClient, mbind, WM_bind. destruct (unwatchAllKeys_total c w cl I Hcl) as (w1 & -> & [I1 I2 I3] & Es & Ec & R1).
  eexists. split; [done|]. assert (Hcl1 : clients w1 !! c = Some (with_keys [] cl)) by (rewrite Ec; apply lookup_insert_eq).
  split; [|split; [cbn; apply lookup_delete_eq|]].
  - split; [done| |].
    + intros c0 cl0. cbn. rewrite lookup_delete_Some. intros [_ H]. by destruct (I2 c0 cl0 H); split.
    + intros wk l Hl. destruct (I3 wk l Hl) as (B1 & B2 & B3). split; [done|]. split; [done|]. intros c0 H0. destruct (B3 c0 H0) as (cl0 & H1 & H2).
      exists cl0. cbn. rewrite lookup_delete_ne; [done|]. intros <-. assert (cl0 = with_keys [] cl) as -> by congruence. by apply not_elem_of_nil in H2.
  - etrans; [exact R1|]. intros _ c0 d k [?|Hc] cl0 H0 Hk; [done|]. exists cl0. cbn. rewrite lookup_delete_ne by done. split_and!; auto.
Qed.

Lemma discard_total c w cl : winv mv L w -> clients w !! c = Some cl ->
  exists w', discardTransaction c w = Ret (tt, w') /\ winv mv L w' /\ srv w' = srv w /\ clients w' = <[c := idle cl]> (clients w).
Proof.
  intros I Hcl. unfold discardTransaction, mbind, WM_bind, get_client. rewrite Hcl. cbn [set_client].
  set (cl1 := with_flags false false false (with_mstate [] cl)). pose proof (set_client_ok mv L false c w cl cl1 I Hcl) as H.
  destruct H as (I1 & _); [|done|done|].
  { destruct (i_client _ _ _ I c cl Hcl) as [A1 A2 A3 A4 A5]. split; cbn; auto. }
  destruct (unwatchAllKeys_total c (with_clients (<[c := cl1]> (clients w)) w) cl1 I1) as (w2 & E2 & I2 & S2 & C2 & _); [cbn; apply lookup_insert_eq|].
  exists w2. split; [done|]. split; [done|]. split; [done|]. rewrite C2. cbn. by rewrite insert_insert_eq.
Qed.
End events.

(** ** Reachable states *)

(** The start: no client, [dbnum] databases. *)
Definition started (t : astate) : world := mk_world t ∅ ∅.

Lemma started_ok mv t : winv mv (Z.of_nat (length (adbs t))) (started t).
Proof. split; [done| |]; intros ? ? H; cbn in H; by rewrite lookup_empty in H. Qed.

(** A request has a name. *)
Definition proper (e : event) : Prop := match e with Request _ args => args <> [] | _ => True end.

Lemma handle_inv mv L e w w' : 0 < L -> winv mv L w -> proper e -> (forall c args, e = Request c args -> mv = false -> ~ named "move" args) ->
  handle e w = Ret (tt, w') -> winv mv L w'.
Proof.
  intros HL I Hp Hm E. destruct e as [c|c args|c|now]; cbn [handle] in E.
  - destruct (clients w !! c) as [cl|] eqn:Ec.
    + unfold createClient, mbind, WM_bind in E. cbn [wget] in E. rewrite Ec in E. done.
    + pose proof (createClient_ok mv L c w I HL Ec) as H. unfold run_ok in H. rewrite E in H. tauto.
  - unfold mbind, WM_bind in E. destruct (request c args w) as [[o w1]|] eqn:Er; [|done]. injection E as <-.
    destruct (clients w !! c) as [cl|] eqn:Ec.
    + pose proof (request_ok mv L false c args w I ltac:(by eexists) Hp ltac:(done) (Hm c args eq_refl)) as H. unfold run_ok in H. rewrite Er in H. tauto.
    + unfold request, load_client, get_client, mbind, WM_bind in Er. by rewrite Ec in Er.
  - destruct (clients w !! c) as [cl|] eqn:Ec.
    + destruct (freeClient_ok mv L c w I ltac:(by eexists)) as (w1 & E1 & I1 & _). congruence.
    + unfold freeClient, unwatchAllKeys, get_client, mbind, WM_bind in E. by rewrite Ec in E.
  - injection E as <-. apply winv_srv; [apply (i_dbs _ _ _ I)|done].
Qed.

Lemma steps_inv L w es w' : 0 < L -> winv true L w -> Forall proper es -> steps w es w' -> winv true L w'.
Proof.
  intros HL I Hp H. induction H as [w|w e w1 es w2 E _ IH]; [done|]. apply Forall_cons in Hp as [Hp Hps]. apply IH; [|done].
  by apply (handle_inv true L e w w1).
Qed.

(** C12: In every state of a server with transactions that is reached from
    the start by clients that connect, send requests and disconnect in any
    order: the list of the keys that a client watches and the table from
    keys to the clients that watch them agree and have no duplicates, a
    client outside of MULTI has nothing queued; and each request of a
    connected client, MULTI, EXEC, DISCARD, WATCH and UNWATCH and whatever
    EXEC runs included, returns, or faults only where a command overflows an
    integer or runs out of memory: no assertion fails, and no list is
    searched in vain. *)
Theorem multi_invariant t es w : adbs t <> [] -> Forall proper es -> steps (started t) es w ->
  (forall c cl, clients w !! c = Some cl -> NoDup (watched_keys cl) /\ (CLIENT_MULTI cl = false -> mstate cl = []) /\
     forall wk, wk ∈ watched_keys cl <-> exists l, db_watched_keys w !! wk = Some l /\ c ∈ l) /\
  (forall wk l, db_watched_keys w !! wk = Some l -> l <> [] /\ NoDup l) /\
  (forall c args, is_Some (clients w !! c) -> args <> [] -> match request c args w with Ret _ => True | Fault f => soft f end).
Proof.
  intros Hne Hp Hs. assert (HL : 0 < Z.of_nat (length (adbs t))) by (destruct (adbs t); cbn; [done|lia]).
  pose proof (steps_inv _ _ _ _ HL (started_ok true t) Hp Hs) as I. split_and!.
  - intros c cl Hcl. destruct (i_client _ _ _ I c cl Hcl) as [A1 A2 A3 A4 A5]. split; [done|]. split; [intros Em; by apply A5|]. intros wk.
    split; [by apply A3|]. intros (l & Hl & Hc). destruct (i_watched _ _ _ I wk l Hl) as (_ & _ & B3). destruct (B3 c Hc) as (cl' & H1 & H2). congruence.
  - intros wk l Hl. destruct (i_watched _ _ _ I wk l Hl) as (B1 & B2 & _). done.
  - intros c args Hc Ha. pose proof (request_ok true _ false c args w I Hc Ha ltac:(done) ltac:(done)) as H. unfold run_ok in H.
    by destruct (request c args w) as [[o w']|f].
Qed.

(** ** Optimistic locking *)

(** What may happen while a client relies on a key: it does not end its
    transaction, and no client uses MOVE. *)
Definition harmless (c : Z) (e : event) : Prop :=
  match e with
  | Request c' args => args <> [] /\ ~ named "move" args /\ (c' = c -> ~ resigns args)
  | Disconnect c' => c' <> c
  | _ => True
  end.

(** No client uses MOVE. *)
Definition no_move (e : event) : Prop := match e with Request _ args => args <> [] /\ ~ named "move" args | _ => True end.

Lemma steps_no_move L w es w' : 0 < L -> winv false L w -> Forall no_move es -> steps w es w' -> winv false L w'.
Proof.
  intros HL I Hp H. induction H as [w|w e w1 es w2 E _ IH]; [done|]. apply Forall_cons in Hp as [Hp Hps]. apply IH; [|done].
  apply (handle_inv false L e w w1); try done; [by destruct e as [| |c|now]; try done; destruct Hp|]. intros c args -> _. by destruct Hp.
Qed.

Lemma handle_guards L c e w w' : 0 < L -> winv false L w -> harmless c e -> handle e w = Ret (tt, w') ->
  winv false L w' /\ forall d k, guards c d k w w'.
Proof.
  intros HL I Hh E. destruct e as [c'|c' args|c'|now]; cbn [handle] in E.
  - destruct (clients w !! c') as [cl|] eqn:Ec.
    + unfold createClient, mbind, WM_bind in E. cbn [wget] in E. rewrite Ec in E. done.
    + pose proof (createClient_ok false L c' w I HL Ec) as H. unfold run_ok in H. rewrite E in H. destruct H as (I' & _ & R & _).
      split; [done|]. intros d k. apply R; auto.
  - destruct Hh as (Hne & Hmv & Hr). unfold mbind, WM_bind in E. destruct (request c' args w) as [[o w1]|] eqn:Er; [|done]. injection E as <-.
    destruct (clients w !! c') as [cl|] eqn:Ec.
    + pose proof (request_ok false L (bool_decide (c' = c)) c' args w I ltac:(by eexists) Hne) as H. unfold run_ok in H. rewrite Er in H.
      destruct H as (I' & _ & R & _); [intros Eb; apply bool_decide_eq_true in Eb; auto|auto|]. split; [done|]. intros d k. apply R; [done|].
      destruct (decide (c' = c)); [left; by apply bool_decide_eq_true|auto].
    + unfold request, load_client, get_client, mbind, WM_bind in Er. by rewrite Ec in Er.
  - destruct (clients w !! c') as [cl|] eqn:Ec.
    + destruct (freeClient_ok false L c' w I ltac:(by eexists)) as (w1 & E1 & I1 & _ & R). assert (w1 = w') as -> by congruence.
      split; [done|]. intros d k. apply R; auto.
    + unfold freeClient, unwatchAllKeys, get_client, mbind, WM_bind in E. by rewrite Ec in E.
  - injection E as <-. destruct (clients w !! c) as [cl|] eqn:Ec.
    + destruct (same_dbs_ok false L true c w (mk_astate (adbs (srv w)) (aargs (srv w)) (acur (srv w)) (set_clock now (acf (srv w))) (alg (srv w))) I
        ltac:(by eexists) eq_refl) as (I1 & _ & R). split; [done|]. intros d k. apply R; auto.
    + split; [by apply winv_srv; [apply (i_dbs _ _ _ I)|]|]. intros d k cl0 H0. congruence.
Qed.

Lemma steps_guards L c w es w' : 0 < L -> winv false L w -> Forall (harmless c) es -> steps w es w' ->
  winv false L w' /\ forall d k, guards c d k w w'.
Proof.
  intros HL I Hh H. induction H as [w|w e w1 es w2 E _ IH]; [split; [done|]; intros d k; reflexivity|]. apply Forall_cons in Hh as [Hh Hhs].
  destruct (handle_guards L c e w w1 HL I Hh E) as [I1 G1]. destruct (IH I1 Hhs) as [I2 G2]. split; [done|]. intros d k. etrans; [apply G1|apply G2].
Qed.

(** ** EXEC *)

Definition EXEC : list (list Z) := [bytes_of_string "EXEC"].

(** EXEC is not refused: the client is authenticated, and so on. *)
Definition may_exec (c : conf) : Prop := mrefuse (mc_cmd (exec_entry execProc)) 1 c = None.

(** The state in which the code of a request runs. *)
Definition serving (cl : client) (cmd : mcommand) (args : list (list Z)) (t : astate) : astate :=
  mk_astate (adbs t) args (c_db cl) (with_cmd (name (mc_cmd cmd)) (readonly_of cmd (acf t)) (acf t)) (alg t).

Lemma exec_found : mlookupCommand (bytes_of_string "EXEC") = Some (exec_entry execProc).
Proof. reflexivity. Qed.

Lemma request_exec c w cl : clients w !! c = Some cl -> may_exec (acf (srv w)) ->
  request c EXEC w = (_ ← mcall (execCommand c) c (exec_entry execProc); _ ← save_client c; mret C_OK) (with_srv (serving cl (exec_entry execProc) EXEC (srv w)) w).
Proof.
  intros Hcl Hm. unfold request, load_client, mbind, WM_bind. unfold get_client at 1. rewrite Hcl. cbn [wset].
  set (w1 := with_srv _ w). unfold mprocessCommand, mbind, WM_bind. rewrite (lift_arg 0 w1 (bytes_of_string "EXEC")) by done.
  assert (Eq : bool_decide (map tolower (cstr (bytes_of_string "EXEC")) = bytes_of_string "quit") = false) by reflexivity. rewrite Eq, exec_found.
  rewrite lift_get. rewrite (lift_still (set_mcmd (exec_entry execProc)) w1 tt (serving cl (exec_entry execProc) EXEC (srv w))) by done.
  unfold aargc. rewrite lift_get. unfold may_exec in Hm. change (Z.of_nat _) with 1. change (acf (srv w1)) with (acf (srv w)). rewrite Hm.
  unfold get_client at 1. cbn [clients with_srv w1]. rewrite Hcl. cbn [at_once mc_proc exec_entry negb]. rewrite andb_false_r.
  change (with_srv (serving cl (exec_entry execProc) EXEC (srv w)) w1) with (with_srv (serving cl (exec_entry execProc) EXEC (srv w)) w).
  destruct (mcall _ _ _ _) as [[[] w2]|f]; done.
Qed.

Lemma lift_reply bs w : lift (areply bs) w = Ret (tt, with_srv (mk_astate (adbs (srv w)) (aargs (srv w)) (acur (srv w)) (acf (srv w)) (add_output bs (alg (srv w)))) w).
Proof. by apply lift_still. Qed.

(** A marked client, or one with an error in its queue. *)
Lemma exec_aborts mv L c w cl : winv mv L w -> clients w !! c = Some cl -> may_exec (acf (srv w)) -> CLIENT_MULTI cl = true ->
  CLIENT_DIRTY_CAS cl || CLIENT_DIRTY_EXEC cl = true ->
  exists w', request c EXEC w = Ret (C_OK, w') /\ adbs (srv w') = adbs (srv w) /\ propagated (alg (srv w')) = propagated (alg (srv w)) /\
    output (alg (srv w')) = output (alg (srv w)) ++ (if CLIENT_DIRTY_EXEC cl then shared_execaborterr else shared_nullmultibulk) /\
    clients w' !! c = Some (idle cl).
Proof.
  intros I Hcl Hm Em Ed. rewrite (request_exec c w cl Hcl Hm). set (w1 := with_srv _ w).
  unfold mcall, mbind, WM_bind. rewrite lift_get. cbn [run_proc mc_proc exec_entry]. unfold execCommand, mbind, WM_bind. unfold get_client at 1.
  change (clients w1) with (clients w). rewrite Hcl, Em, Ed. cbn [negb]. rewrite lift_reply. set (w2 := with_srv _ w1).
  assert (I2 : winv mv L w2) by (apply winv_srv; [apply (i_dbs _ _ _ I)|apply winv_srv; [apply (i_dbs _ _ _ I)|done]]).
  destruct (discard_total mv L c w2 cl I2 Hcl) as (w3 & -> & I3 & S3 & C3). rewrite lift_get, S3.
  assert (Hlt : (dirty (alg (srv w1)) <? dirty (alg (srv w2))) = false) by (cbn; lia). rewrite Hlt. cbn [mret WM_ret].
  unfold save_client, mbind, WM_bind. unfold get_client. rewrite C3, lookup_insert_eq. rewrite lift_get, S3. cbn [set_client].
  rewrite (lift_still _ _ tt (mk_astate (adbs (srv w2)) [] (acur (srv w2)) (acf (srv w2)) (alg (srv w2)))); [|cbn; by rewrite S3..].
  eexists. split; [done|]. cbn [srv with_srv with_clients clients]. split; [done|]. split; [done|]. split; [done|].
  rewrite lookup_insert_eq. by destruct cl.
Qed.

(** C10: Optimistic locking.  From any reachable state (without MOVE), a
    client [c] that watches a key [k] without an expire time, while all
    clients send any requests but MOVE and [c] sends none of EXEC, DISCARD,
    UNWATCH or those that end its connection: [c] is still connected, and
    either the key has the value it had when it was watched, or EXEC of [c]
    inside MULTI, when the server does not refuse EXEC, replies nil (EXECABORT
    when a command could not be queued), changes no data, gives nothing to the
    slaves, and ends the transaction. *)
Theorem optimistic_lock t c d k es0 w0 cl0 es w : adbs t <> [] -> Forall no_move es0 -> steps (started t) es0 w0 ->
  clients w0 !! c = Some cl0 -> (d, k) ∈ watched_keys cl0 -> expire_at (srv w0) d k = None ->
  Forall (harmless c) es -> steps w0 es w ->
  exists cl, clients w !! c = Some cl /\ (value_at (srv w) d k = value_at (srv w0) d k \/
    (CLIENT_MULTI cl = true -> may_exec (acf (srv w)) -> exists w', request c EXEC w = Ret (C_OK, w') /\ adbs (srv w') = adbs (srv w) /\
       propagated (alg (srv w')) = propagated (alg (srv w)) /\
       output (alg (srv w')) = output (alg (srv w)) ++ (if CLIENT_DIRTY_EXEC cl then shared_execaborterr else shared_nullmultibulk) /\
       clients w' !! c = Some (idle cl))).
Proof.
  intros Hne H0 Hs0 Hcl0 Hk He Hh Hs. assert (HL : 0 < Z.of_nat (length (adbs t))) by (destruct (adbs t); cbn; [done|lia]).
  pose proof (steps_no_move _ _ _ _ HL (started_ok false t) H0 Hs0) as I0.
  destruct (steps_guards _ c _ _ _ HL I0 Hh Hs) as [I G]. destruct (G d k cl0 Hcl0 Hk) as (cl & Hcl & _ & _ & V). exists cl. split; [done|].
  destruct (V He) as [Hc|[Hv _]]; [right|by left]. intros Em Hm. apply (exec_aborts false _ c w cl I Hcl Hm Em). by rewrite Hc.
Qed.

(** ** What EXEC runs *)

(** The queued commands one after the other, with MULTI to the slaves before
    the first one that is not read-only. *)
Definition aqueued (p : mproc) : AM unit := match p with Plain spec => spec | _ => areply shared_ok end.

Fixpoint aexec_loop (q : list multiCmd) (must : bool) : AM bool :=
  match q with
  | [] => mret must
  | x :: q =>
      _ ← aset_args (q_argv x);
      _ ← set_mcmd (q_cmd x);
      let first := negb must && negb (CMD_READONLY (mc_cmd (q_cmd x))) in
      _ ← (if first then execCommandPropagateMulti else mret tt);
      _ ← acall (aqueued (mc_proc (q_cmd x)));
      aexec_loop q (must || first)
  end.

(** The reply is the array of their replies; EXEC goes to the slaves if MULTI
    did. *)
Definition aexec (q : list multiCmd) : AM unit :=
  _ ← aReplyMultiBulkLen (Z.of_nat (length q));
  must ← aexec_loop q false;
  _ ← aset_args EXEC;
  _ ← set_mcmd (exec_entry execProc);
  if (must : bool) then arecord (add_dirty 1) else mret tt.

(** The code does on its state what the specification does. *)
Definition follows {A} (w : world) (m : WM A) (am : AM A) (P : world -> Prop) : Prop :=
  match am (srv w) with
  | Ret (a, t) => exists w', m w = Ret (a, w') /\ srv w' = t /\ P w'
  | Fault f => m w = Fault f
  end.

Lemma follows_bind {A B} w (m : WM A) (am : AM A) (k : A -> WM B) (ak : A -> AM B) P Q : follows w m am P ->
  (forall a w', P w' -> follows w' (k a) (ak a) Q) -> follows w (m ≫= k) (am ≫= ak) Q.
Proof.
  intros H K. unfold follows, mbind, WM_bind, AM_bind in *. destruct (am (srv w)) as [[a t]|f]; [|by rewrite H].
  destruct H as (w1 & E & Es & HP). specialize (K a w1 HP). rewrite Es in K. rewrite E. exact K.
Qed.

Section follow.
Context (mv : bool) (L : Z) (c : Z).

(** Between steps: the invariant, and the client. *)
Definition fine (w : world) : Prop := winv mv L w /\ is_Some (clients w !! c) /\ fit L (srv w).

Lemma follows_lift {A} w (m : AM A) (Q : A -> world -> Prop) : run_ok mv L false c w (lift m) Q -> (forall a w', Q a w' -> fit L (srv w')) ->
  follows w (lift m) m fine.
Proof.
  intros H HQ. unfold follows, run_ok, lift in *. destruct (m (srv w)) as [[a t]|f]; [|done]. eexists. split; [done|].
  destruct (signal_marked (srv w) t (with_srv t w)) as [-> _ _]. split; [done|]. destruct H as (I & C & _ & HQ'). split; [done|]. split; [done|]. by eapply HQ.
Qed.

Lemma follows_set_args w v : fine w -> follows w (lift (aset_args v)) (aset_args v) (fun w' => fine w' /\ aok L (length v) (srv w')).
Proof.
  intros (I & C & Ha). unfold follows. cbn [aset_args]. pose proof (set_args_ok mv L false c w v I C Ha) as H. unfold run_ok in H.
  set (t := mk_astate _ _ _ _ _). rewrite (lift_still (aset_args v) w tt t) in H |- * by done. eexists. split; [done|]. split; [done|].
  destruct H as (I' & C' & _ & Ha'). split; [|done]. split; [done|]. split; [done|]. by eexists.
Qed.

Lemma follows_still w (m : AM unit) N : winv mv L w -> is_Some (clients w !! c) -> aok L N (srv w) -> benign L N m -> telling m ->
  follows w (lift m) m (fun w' => fine w' /\ aok L N (srv w')).
Proof.
  intros I C Ha Hb Ht. pose proof (lift_benign mv L false c w m N I C Ha Hb Ht) as H. unfold follows, run_ok, lift in *.
  destruct (m (srv w)) as [[a t]|f]; [|done]. eexists. split; [done|]. destruct H as (I' & C' & _ & Ha' & _).
  destruct (signal_marked (srv w) t (with_srv t w)) as [Es _ _]. split; [done|]. split; [|done]. split; [done|]. split; [done|]. by eexists.
Qed.

Lemma follows_unwatch w : fine w -> follows w (unwatchCommand c) (areply shared_ok) fine.
Proof.
  intros (I & [cl Hcl] & Ha). unfold follows. cbn [areply arecord]. unfold unwatchCommand, mbind, WM_bind.
  destruct (unwatchAllKeys_total mv L c w cl I Hcl) as (w1 & -> & I1 & S1 & C1 & _). assert (Hcl1 : clients w1 !! c = Some (with_keys [] cl)) by (rewrite C1; apply lookup_insert_eq).
  unfold get_client. rewrite Hcl1. cbn [set_client]. rewrite lift_reply. eexists. split; [done|]. cbn [srv with_srv with_clients]. rewrite S1. split; [done|].
  split; [|split; [cbn; rewrite lookup_insert_eq; by eexists|done]]. apply winv_srv; [rewrite <- (i_dbs _ _ _ I); done|].
  refine (proj1 (set_client_ok mv L false c w1 (with_keys [] cl)
    (with_flags (CLIENT_MULTI (with_keys [] cl)) false (CLIENT_DIRTY_EXEC (with_keys [] cl)) (with_keys [] cl)) I1 Hcl1 _ eq_refl _)); [|done].
  apply client_inv_flags; [by apply (i_client _ _ _ I1)|]. apply (ci_multi _ _ _ _ _ (i_client _ _ _ I1 _ _ Hcl1)).
Qed.

Lemma follows_proc w cmd v : fine w -> aok L (length v) (srv w) -> runnable mv (mk_multiCmd cmd v) ->
  follows w (run_proc (wfail Undefined) c (mc_proc cmd)) (aqueued (mc_proc cmd)) fine.
Proof.
  intros Hf Ha Hr. unfold runnable in Hr. cbn in Hr. destruct (mc_proc cmd) as [spec| | | | |]; try done; [|by apply follows_unwatch].
  destruct Hr as [H1 H2]. destruct Hf as (I & C & _). pose proof (plain_ok mv L false (wfail Undefined) c w spec _ I C Ha H1 H2) as H.
  eapply follows_lift; [exact H|done].
Qed.

Lemma follows_get {A B} w (f : astate -> A) (k : A -> WM B) (ak : A -> AM B) P : follows w (k (f (srv w))) (ak (f (srv w))) P ->
  follows w (lift (aget f) ≫= k) (aget f ≫= ak) P.
Proof. intros H. unfold follows, mbind, WM_bind, AM_bind in *. rewrite lift_get. exact H. Qed.

Lemma follows_ret {A} w (a : A) (P : world -> Prop) : P w -> follows w (mret a) (mret a) P.
Proof. intros H. exists w. done. Qed.

Lemma follows_propagate w : fine w -> follows w (lift apropagate) apropagate fine.
Proof.
  intros (I & C & Ha). eapply follows_lift; [apply (reply_ok mv L false c w apropagate I C Ha); [apply benign_propagate|apply telling_propagate]|]. done.
Qed.

Lemma follows_call w cmd v : fine w -> aok L (length v) (srv w) -> runnable mv (mk_multiCmd cmd v) ->
  follows w (mcall (wfail Undefined) c cmd) (acall (aqueued (mc_proc cmd))) fine.
Proof.
  intros Hf Ha Hr. unfold mcall, acall. apply follows_get. eapply follows_bind; [by eapply follows_proc|]. intros [] w1 Hf1. apply follows_get.
  destruct (_ <? _); [by apply follows_propagate|by apply follows_ret].
Qed.

Lemma follows_exec_loop q : forall must w, fine w -> Forall (runnable mv) q -> follows w (exec_loop c q must) (aexec_loop q must) fine.
Proof.
  induction q as [|x q IH]; intros must w Hf Hq; cbn [exec_loop aexec_loop]; [by apply follows_ret|]. apply Forall_cons in Hq as [Hx Hq].
  eapply follows_bind; [by apply follows_set_args|]. intros [] w1 ((I1 & C1 & _) & Ha1).
  eapply follows_bind; [eapply follows_still; [done|done|done|apply benign_set_mcmd|apply telling_set_mcmd]|]. intros [] w2 ((I2 & C2 & F2) & Ha2).
  apply (follows_bind _ _ _ _ _ (fun w' => fine w' /\ aok L (length (q_argv x)) (srv w'))).
  { destruct (negb must && _); [|by apply follows_ret]. eapply follows_still; [done|done|done| |].
    - apply benign_bind; [apply benign_get|]. intros d. apply benign_record.
    - unfold execCommandPropagateMulti. telling. }
  intros [] w3 [F3 Ha3]. eapply follows_bind; [eapply follows_call; [done|exact Ha3|by destruct x]|]. intros [] w4 F4. by apply IH.
Qed.
End follow.

Lemma follows_from {A} w w1 (m m' : WM A) (am : AM A) P : m w = m' w1 -> srv w1 = srv w -> follows w1 m' am P -> follows w m am P.
Proof. intros E Es H. unfold follows in *. by rewrite E, <- Es. Qed.

Lemma follows_get_l {A B} w (f : astate -> A) (k : A -> WM B) (am : AM B) P : follows w (k (f (srv w))) am P -> follows w (lift (aget f) ≫= k) am P.
Proof. intros H. unfold follows, mbind, WM_bind in *. rewrite lift_get. exact H. Qed.

(** EXEC of a client that is not marked. *)
Lemma follows_exec mv L c w cl : winv mv L w -> clients w !! c = Some cl -> fit L (srv w) -> aargs (srv w) = EXEC -> CLIENT_MULTI cl = true ->
  CLIENT_DIRTY_CAS cl || CLIENT_DIRTY_EXEC cl = false ->
  follows w (execCommand c) (aexec (mstate cl)) (fun w' => winv mv L w' /\ exists d, clients w' !! c = Some (mk_client d false false false [] [])).
Proof.
  intros I Hcl Ha Ea Em Ed. destruct (unwatchAllKeys_total mv L c w cl I Hcl) as (w1 & E1 & I1 & S1 & C1 & _).
  assert (Hcl1 : is_Some (clients w1 !! c)) by (rewrite C1, lookup_insert_eq; by eexists).
  assert (E : execCommand c w = exec_queue c (mstate cl) w1).
  { unfold execCommand, mbind, WM_bind, get_client. rewrite Hcl, Em, Ed. cbn [negb]. by rewrite E1. }
  eapply (follows_from w w1); [exact E|exact S1|]. unfold exec_queue. apply follows_get_l. rewrite S1, Ea.
  unfold aexec. eapply follows_bind.
  { eapply follows_lift; [apply (reply_ok mv L false c w1 _ I1 Hcl1); [by rewrite S1|intros; apply benign_multibulk|apply telling_multibulk]|done]. }
  intros [] w2 F2. eapply follows_bind; [apply follows_exec_loop; [exact F2|apply (ci_queue _ _ _ _ _ (i_client _ _ _ I c cl Hcl))]|]. intros must w3 F3.
  eapply follows_bind; [by apply (follows_set_args mv L c)|]. intros [] w4 ((I4 & C4 & _) & Ha4).
  eapply follows_bind; [eapply (follows_still mv L c); [done|done|exact Ha4|apply benign_set_mcmd|apply telling_set_mcmd]|]. intros [] w5 ((I5 & [cl5 C5] & _) & _).
  unfold mbind, WM_bind. destruct (discard_total mv L c w5 cl5 I5 C5) as (w6 & E6 & I6 & S6 & C6). unfold follows. rewrite E6, <- S6.
  assert (Hcl6 : clients w6 !! c = Some (idle cl5)) by (rewrite C6; apply lookup_insert_eq).
  destruct must; cbn [arecord mret AM_ret].
  - eexists. split; [by apply lift_still|]. split; [done|]. split; [|by eexists]. apply winv_srv; [apply (i_dbs _ _ _ I6)|done].
  - exists w6. split; [done|]. split; [done|]. split; [done|by eexists].
Qed.

(** C11: EXEC of a client that is in MULTI, is not marked and has no error in
    its queue does to the databases, the replies and what goes to the slaves
    exactly what the queued commands do, run one after the other in the
    database of the client, in one step: the reply starts with their number,
    MULTI goes to the slaves before the first of them that is not read-only
    and EXEC after the last one, and the client has left its transaction.
    If one of the commands faults, so does EXEC. *)
Theorem exec_runs_queue t es w c cl : adbs t <> [] -> Forall proper es -> steps (started t) es w ->
  clients w !! c = Some cl -> may_exec (acf (srv w)) -> CLIENT_MULTI cl = true -> CLIENT_DIRTY_CAS cl || CLIENT_DIRTY_EXEC cl = false ->
  match acall (aexec (mstate cl)) (serving cl (exec_entry execProc) EXEC (srv w)) with
  | Ret (_, t') => exists w', request c EXEC w = Ret (C_OK, w') /\ adbs (srv w') = adbs t' /\ alg (srv w') = alg t' /\
      clients w' !! c = Some (mk_client (acur t') false false false [] [])
  | Fault f => request c EXEC w = Fault f
  end.
Proof.
  intros Hne Hp Hs Hcl Hm Em Ed. assert (HL : 0 < Z.of_nat (length (adbs t))) by (destruct (adbs t); cbn; [done|lia]).
  pose proof (steps_inv _ _ _ _ HL (started_ok true t) Hp Hs) as I. set (L := Z.of_nat (length (adbs t))) in *.
  rewrite (request_exec c w cl Hcl Hm). set (t1 := serving cl (exec_entry execProc) EXEC (srv w)). set (w1 := with_srv t1 w).
  assert (I1 : winv true L w1) by (apply winv_srv; [apply (i_dbs _ _ _ I)|done]).
  assert (Ha1 : fit L (srv w1)) by (exists 1%nat; split; [apply (i_dbs _ _ _ I)|split; [apply (ci_db _ _ _ _ _ (i_client _ _ _ I c cl Hcl))|done]]).
  pose proof (follows_exec true L c w1 cl I1 Hcl Ha1 eq_refl Em Ed) as H.
  assert (F : follows w1 (mcall (execCommand c) c (exec_entry execProc)) (acall (aexec (mstate cl))) (fun w' => winv true L w' /\
    exists d, clients w' !! c = Some (mk_client d false false false [] []))).
  { unfold mcall, acall. apply follows_get. cbn [run_proc mc_proc exec_entry]. eapply follows_bind; [exact H|]. intros [] w2 (I2 & d & C2). apply follows_get.
    destruct (_ <? _); [|apply follows_ret; eauto]. unfold follows, apropagate, mbind, AM_bind. cbn [aget arecord].
    eexists. split; [by apply lift_still|]. split; [done|]. split; [|by eexists]. apply winv_srv; [apply (i_dbs _ _ _ I2)|done]. }
  unfold follows in F. change (srv w1) with t1 in F. unfold mbind, WM_bind. destruct (acall (aexec (mstate cl)) t1) as [[[] t2]|f]; [|by rewrite F].
  destruct F as (w2 & -> & <- & I2 & d & C2). unfold save_client, mbind, WM_bind, get_client. rewrite C2, lift_get. cbn [set_client].
  rewrite (lift_still _ _ tt (mk_astate (adbs (srv w2)) [] (acur (srv w2)) (acf (srv w2)) (alg (srv w2)))) by done.
  eexists. split; [done|]. cbn [srv with_srv with_clients clients]. split; [done|]. split; [done|]. by rewrite lookup_insert_eq.
Qed.
