(* ===== verification/MultiWitness.v ===== *)
(** * MultiWitness: transactions at concrete inputs

    Two clients of a server with two databases; and two cases in which a
    transaction runs although it should not. *)

From S2P Require Import Prelude Util Object Db ServerOk Abstract TString AString Keyspace AKeyspace Server ServerRefine.
From S2P Require Import Safety Signals Multi MultiProofs MultiTheorems.

Definition gates0 : gates := mk_gates false None false false false false false false.
Definition mconf (slave : bool) : conf :=
  mk_conf 1000 0 false slave false 0 false false false false [] (if slave then mk_gates false None false true false false false false else gates0).

Definition start (slave : bool) : astate := mk_astate (replicate 2 (mk_adb ∅ ∅)) [] 0 (mconf slave) empty_log.

(** The words of a line. *)
Fixpoint words (word : list Z) (s : list Z) : list (list Z) :=
  match s with
  | [] => [word]
  | x :: s => if x =? 32 then word :: words [] s else words (word ++ [x]) s
  end.

Definition req (c : Z) (line : String.string) : event := Request c (words [] (bytes_of_string line)).
Arguments req _ _%_string_scope.

Fixpoint run_events (es : list event) (w : world) : res world :=
  match es with
  | [] => Ret w
  | e :: es => match handle e w with Ret (_, w) => run_events es w | Fault f => Fault f end
  end.

Definition after (es : list event) (w : world) : world := match run_events es w with Ret w => w | Fault _ => w end.

Lemma run_steps es : forall w w', run_events es w = Ret w' -> steps w es w'.
Proof.
  induction es as [|e es IH]; intros w w' H; cbn in H; [injection H as ->; constructor|].
  destruct (handle e w) as [[[] w1]|f] eqn:E; [|done]. econstructor; [exact E|by apply IH].
Qed.

Lemma after_steps es w : is_Ret (run_events es w) = true -> steps w es (after es w).
Proof. unfold after. intros H. destruct (run_events es w) as [w'|f] eqn:E; [|done]. by apply run_steps. Qed.

Definition connect2 : list event := [Connect 1; Connect 2].

(** Client 1 watches a key that client 2 changes. *)
Definition before_watch : list event := connect2 ++ [req 1 "SET k a"; req 1 "WATCH k"].
Definition while_watched : list event := [req 1 "MULTI"; req 1 "SET k b"; req 2 "SET k c"].

Definition w_watch : world := after before_watch (started (start false)).
Definition w_changed : world := after while_watched w_watch.

Definition reply_of (w : world) : list Z := output (alg (srv w)).

(** Lists of concrete events. *)
Lemma no_name s x args : map tolower x <> bytes_of_string s -> ~ named s (x :: args).
Proof. by intros H (n & [= <-] & Hn). Qed.

Lemma no_resign x args : map tolower x <> bytes_of_string "exec" -> map tolower x <> bytes_of_string "discard" ->
  map tolower x <> bytes_of_string "unwatch" -> ~ resigns (x :: args).
Proof. intros H1 H2 H3 [H|[H|H]]; revert H; by apply no_name. Qed.

Ltac events := cbn [app connect2]; repeat (apply Forall_cons; split); try apply Forall_nil; try exact I;
  repeat match goal with
  | |- _ /\ _ => split
  | |- ~ named _ _ => apply no_name; vm_compute; discriminate
  | |- ~ resigns _ => apply no_resign; vm_compute; discriminate
  | |- _ <> [] => discriminate
  | |- _ = _ -> _ => intros ?
  | |- _ => progress cbn [harmless no_move proper req]
  end.

(** ** Witnesses *)

Lemma multi_invariant_witness :
  let w := after (connect2 ++ [req 1 "WATCH k j"; req 2 "WATCH k"; req 1 "MULTI"]) (started (start false)) in
  (exists cl, clients w !! 1 = Some cl /\ length (watched_keys cl) = 2%nat) /\
  match request 1 EXEC w with Ret _ => True | Fault f => soft f end.
Proof.
  set (es := connect2 ++ [req 1 "WATCH k j"; req 2 "WATCH k"; req 1 "MULTI"]).
  destruct (multi_invariant (start false) es (after es (started (start false)))) as (_ & _ & H); [done| |apply after_steps; vm_compute; reflexivity|].
  - events.
  - split; [eexists; split; vm_compute; reflexivity|]. apply H; [by vm_compute; eexists|discriminate].
Defined.

Lemma optimistic_lock_witness : exists cl, clients w_changed !! 1 = Some cl /\
  (value_at (srv w_changed) 0 (bytes_of_string "k") = value_at (srv w_watch) 0 (bytes_of_string "k") \/
    (CLIENT_MULTI cl = true -> may_exec (acf (srv w_changed)) -> exists w', request 1 EXEC w_changed = Ret (C_OK, w') /\
       adbs (srv w') = adbs (srv w_changed) /\ propagated (alg (srv w')) = propagated (alg (srv w_changed)) /\
       output (alg (srv w')) = output (alg (srv w_changed)) ++ (if CLIENT_DIRTY_EXEC cl then shared_execaborterr else shared_nullmultibulk) /\
       clients w' !! 1 = Some (idle cl))).
Proof.
  eapply (optimistic_lock (start false) 1 0 (bytes_of_string "k") before_watch w_watch _ while_watched w_changed).
  - discriminate.
  - events.
  - apply after_steps. vm_compute. reflexivity.
  - vm_compute. reflexivity.
  - by left.
  - vm_compute. reflexivity.
  - events.
  - apply after_steps. vm_compute. reflexivity.
Defined.

(** A transaction that runs. *)
Definition queueing : list event := connect2 ++ [req 1 "MULTI"; req 1 "SET k b"; req 1 "GET k"].
Definition w_queued : world := after queueing (started (start false)).
Definition cl_queued : client := default (mk_client 0 false false false [] []) (clients w_queued !! 1).

Lemma cl_queued_at : clients w_queued !! 1 = Some cl_queued.
Proof.
  unfold cl_queued. assert (H : bool_decide (is_Some (clients w_queued !! 1)) = true) by (vm_compute; reflexivity).
  apply bool_decide_eq_true in H as [cl E]. by rewrite E.
Qed.

Lemma exec_runs_queue_witness :
  match acall (aexec (mstate cl_queued)) (serving cl_queued (exec_entry execProc) EXEC (srv w_queued)) with
  | Ret (_, t') => exists w', request 1 EXEC w_queued = Ret (C_OK, w') /\ adbs (srv w') = adbs t' /\ alg (srv w') = alg t' /\
      clients w' !! 1 = Some (mk_client (acur t') false false false [] [])
  | Fault f => request 1 EXEC w_queued = Fault f
  end.
Proof.
  apply (exec_runs_queue (start false) queueing w_queued 1 cl_queued).
  - discriminate.
  - events.
  - apply after_steps. vm_compute. reflexivity.
  - exact cl_queued_at.
  - vm_compute. reflexivity.
  - vm_compute. reflexivity.
  - vm_compute. reflexivity.
Defined.

(** ** Transactions that should not run *)

Definition data (w : world) : option sval := value_at (srv w) 0 (bytes_of_string "k").

(** MOVE takes a watched key away and EXEC still runs the queue. *)
Lemma move_not_signalled :
  let w := after [req 1 "MULTI"; req 1 "APPEND k x"; req 2 "MOVE k 1"] w_watch in
  data w_watch = Some (AStr (bytes_of_string "a")) /\ data w = None /\
  match request 1 EXEC w with
  | Ret (_, w') => data w' = Some (AStr (bytes_of_string "x")) /\ output (alg (srv w')) = output (alg (srv w)) ++ crlf "*1" ++ crlf ":1"
  | Fault _ => False
  end.
Proof. vm_compute. done. Qed.

(** On a read-only slave a write inside MULTI is refused, and EXEC runs the
    rest of the transaction. *)
Lemma slave_error_not_flagged :
  let w := after [Connect 1; req 1 "MULTI"; req 1 "SET k v"; req 1 "GET k"] (started (start true)) in
  reply_of w = shared_ok ++ shared_roslaveerr ++ shared_queued /\
  match request 1 EXEC w with
  | Ret (_, w') => reply_of w' = reply_of w ++ crlf "*1" ++ shared_nullbulk
  | Fault _ => False
  end.
Proof. vm_compute. done. Qed.

(** A command that cannot be queued for another reason does abort it. *)
Lemma unknown_command_flagged :
  let w := after [Connect 1; req 1 "MULTI"; req 1 "SETT k v"; req 1 "GET k"] (started (start false)) in
  match request 1 EXEC w with
  | Ret (_, w') => reply_of w' = reply_of w ++ shared_execaborterr
  | Fault _ => False
  end.
Proof. vm_compute. done. Qed.
