(* ===== verification/Pubsub.v ===== *)
(** * Pubsub: channels, patterns and keyspace events (pubsub.c, notify.c)

    Clients subscribe to channels and to patterns of channel names; PUBLISH
    sends a message to those that listen.  Each client knows its channels
    and patterns; the server has the clients of every channel and a list of
    all patterns.  Commands on keys publish their events when the
    configuration asks for it; a command on keys is its specification, and
    the events it reports are taken from its log.  Channels, patterns and
    messages are strings (the code counts references to them), clients
    accept replies, and the counts of subscriptions fit an int. *)

From S2P Require Import Prelude Util Glob Object Db ServerOk Abstract TString AString Keyspace AKeyspace Server ServerRefine.

(** ** State *)

Record pclient : Type := mk_pclient {
  p_db : Z;
  pubsub_channels : gset key;
  pubsub_patterns : list key;
  CLIENT_PUBSUB : bool;
  p_reply : list Z              (* bytes queued for the client *)
}.

(** A pattern of the server is the client and the pattern. *)
Record pubsub : Type := mk_pubsub {
  p_clients : gmap Z pclient;
  server_channels : gmap key (list Z);
  server_patterns : list (Z * key);
  replicated : list (list (list Z))   (* commands given to the slaves only *)
}.

Definition with_p_clients (m : gmap Z pclient) (s : pubsub) : pubsub := mk_pubsub m (server_channels s) (server_patterns s) (replicated s).
Definition with_channels (m : gmap key (list Z)) (s : pubsub) : pubsub := mk_pubsub (p_clients s) m (server_patterns s) (replicated s).
Definition with_patterns (l : list (Z * key)) (s : pubsub) : pubsub := mk_pubsub (p_clients s) (server_channels s) l (replicated s).
Definition add_replicated (v : list (list Z)) (s : pubsub) : pubsub :=
  mk_pubsub (p_clients s) (server_channels s) (server_patterns s) (replicated s ++ [v]).

Definition with_subs (ch : gset key) (pat : list key) (cl : pclient) : pclient := mk_pclient (p_db cl) ch pat (CLIENT_PUBSUB cl) (p_reply cl).
Definition with_pubsub_flag (b : bool) (cl : pclient) : pclient :=
  mk_pclient (p_db cl) (pubsub_channels cl) (pubsub_patterns cl) b (p_reply cl).
Definition said (bs : list Z) (cl : pclient) : pclient :=
  mk_pclient (p_db cl) (pubsub_channels cl) (pubsub_patterns cl) (CLIENT_PUBSUB cl) (p_reply cl ++ bs).

Definition PM (A : Type) : Type := pubsub -> res (A * pubsub).

#[export] Instance PM_ret : MRet PM := fun _ a s => Ret (a, s).
#[export] Instance PM_bind : MBind PM := fun _ _ k m s =>
  match m s with Ret (a, s) => k a s | Fault f => Fault f end.

Definition pfail {A} (f : fault) : PM A := fun _ => Fault f.
Definition pget {A} (f : pubsub -> A) : PM A := fun s => Ret (f s, s).
Definition pset (f : pubsub -> pubsub) : PM unit := fun s => Ret (tt, f s).
Definition presult {A} (r : res A) : PM A := fun s => match r with Ret a => Ret (a, s) | Fault f => Fault f end.

(** A client that is not connected is a dangling pointer. *)
Definition get_pclient (c : Z) : PM pclient := fun s =>
  match p_clients s !! c with Some cl => Ret (cl, s) | None => Fault Undefined end.
Definition set_pclient (c : Z) (cl : pclient) : PM unit := pset (fun s => with_p_clients (<[c := cl]> (p_clients s)) s).

(** ** Replies *)

Definition bulk (s : list Z) : list Z := alen_header 36 (Z.of_nat (length s)) ++ s ++ shared_crlf.
Definition bulk_of (s : String.string) : list Z := bulk (bytes_of_string s).
Arguments bulk_of _%_string_scope.
Definition mbulkhdr (n : Z) : list Z := alen_header 42 n.
Definition integer (n : Z) : list Z := alen_header 58 n.

Definition preply (c : Z) (bs : list Z) : PM unit := cl ← get_pclient c; set_pclient c (said bs cl).

Definition clientSubscriptionsCount (cl : pclient) : Z :=
  Z.of_nat (size (pubsub_channels cl)) + Z.of_nat (length (pubsub_patterns cl)).

(** The notice of a change of subscriptions. *)
Definition notice (kind : String.string) (what : list Z) (cl : pclient) : list Z :=
  mbulkhdr 3 ++ bulk_of kind ++ what ++ integer (clientSubscriptionsCount cl).

Definition pnotice (kind : String.string) (what : list Z) (c : Z) : PM unit := cl ← get_pclient c; preply c (notice kind what cl).
Arguments notice _%_string_scope _ _.
Arguments pnotice _%_string_scope _ _.

(** ** Subscriptions *)

Definition pubsubSubscribeChannel (c : Z) (channel : key) : PM bool :=
  cl ← get_pclient c;
  retval ← (if bool_decide (channel ∈ pubsub_channels cl) then mret false
            else
              _ ← set_pclient c (with_subs ({[channel]} ∪ pubsub_channels cl) (pubsub_patterns cl) cl);
              m ← pget server_channels;
              _ ← pset (with_channels (<[channel := default [] (m !! channel) ++ [c]]> m));
              mret true);
  _ ← pnotice "subscribe" (bulk channel) c;
  mret retval.

(** listDelNode(l,listSearchKey(l,x)): the list without its first [x]. *)
Fixpoint del_first {A} `{EqDecision A} (x : A) (l : list A) : option (list A) :=
  match l with
  | [] => None
  | y :: l => if decide (y = x) then Some l else (y ::.) <$> del_first x l
  end.

Definition pubsubUnsubscribeChannel (c : Z) (channel : key) (notify : bool) : PM bool :=
  cl ← get_pclient c;
  retval ← (if bool_decide (channel ∈ pubsub_channels cl) then
              _ ← set_pclient c (with_subs (pubsub_channels cl ∖ {[channel]}) (pubsub_patterns cl) cl);
              m ← pget server_channels;
              match m !! channel with
              | None => pfail AssertFailed
              | Some clients =>
                  match del_first c clients with
                  | None => pfail AssertFailed
                  | Some clients =>
                      _ ← pset (with_channels (match clients with [] => delete channel m | _ => <[channel := clients]> m end));
                      mret true
                  end
              end
            else mret false);
  _ ← (if notify then pnotice "unsubscribe" (bulk channel) c else mret tt);
  mret retval.

Definition pubsubSubscribePattern (c : Z) (pattern : key) : PM bool :=
  cl ← get_pclient c;
  retval ← (if bool_decide (pattern ∈ pubsub_patterns cl) then mret false
            else
              _ ← set_pclient c (with_subs (pubsub_channels cl) (pubsub_patterns cl ++ [pattern]) cl);
              l ← pget server_patterns;
              _ ← pset (with_patterns (l ++ [(c, pattern)]));
              mret true);
  _ ← pnotice "psubscribe" (bulk pattern) c;
  mret retval.

Definition pubsubUnsubscribePattern (c : Z) (pattern : key) (notify : bool) : PM bool :=
  cl ← get_pclient c;
  retval ← match del_first pattern (pubsub_patterns cl) with
           | Some rest =>
               _ ← set_pclient c (with_subs (pubsub_channels cl) rest cl);
               l ← pget server_patterns;
               match del_first (c, pattern) l with
               | None => pfail NullDeref (* listDelNode(l,NULL) *)
               | Some l => _ ← pset (with_patterns l); mret true
               end
           | None => mret false
           end;
  _ ← (if notify then pnotice "punsubscribe" (bulk pattern) c else mret tt);
  mret retval.

(** A loop that counts the calls that changed something. *)
Fixpoint count_loop (f : key -> PM bool) (l : list key) (count : Z) : PM Z :=
  match l with
  | [] => mret count
  | x :: l => b ← f x; count_loop f l (if (b : bool) then count + 1 else count)
  end.

(** [order] is the order in which the iterator of the hash table, at the
    time of the call, yields its keys. *)
Definition pubsubUnsubscribeAllChannels (order : gset key -> list key) (c : Z) (notify : bool) : PM Z :=
  cl ← get_pclient c;
  count ← count_loop (fun ch => pubsubUnsubscribeChannel c ch notify) (order (pubsub_channels cl)) 0;
  _ ← (if notify && (count =? 0) then pnotice "unsubscribe" shared_nullbulk c else mret tt);
  mret count.

(** The iterator takes the next node before the body deletes the current
    one, and so walks through the list as it was. *)
Definition pubsubUnsubscribeAllPatterns (c : Z) (notify : bool) : PM Z :=
  cl ← get_pclient c;
  count ← count_loop (fun p => pubsubUnsubscribePattern c p notify) (pubsub_patterns cl) 0;
  _ ← (if notify && (count =? 0) then pnotice "punsubscribe" shared_nullbulk c else mret tt);
  mret count.

(** ** Messages *)

Definition message_frame (channel message : list Z) : list Z := mbulkhdr 3 ++ bulk_of "message" ++ bulk channel ++ bulk message.
Definition pmessage_frame (pattern channel message : list Z) : list Z :=
  mbulkhdr 4 ++ bulk_of "pmessage" ++ bulk pattern ++ bulk channel ++ bulk message.

Fixpoint send_clients (l : list Z) (channel message : list Z) (receivers : Z) : PM Z :=
  match l with
  | [] => mret receivers
  | c :: l => _ ← preply c (message_frame channel message); send_clients l channel message (receivers + 1)
  end.

Fixpoint send_patterns (l : list (Z * key)) (channel message : list Z) (receivers : Z) : PM Z :=
  match l with
  | [] => mret receivers
  | (c, pattern) :: l =>
      b ← presult (stringmatchlen pattern channel false);
      if (b : bool) then
        _ ← preply c (pmessage_frame pattern channel message);
        send_patterns l channel message (receivers + 1)
      else send_patterns l channel message receivers
  end.

Definition pubsubPublishMessage (channel message : list Z) : PM Z :=
  m ← pget server_channels;
  receivers ← match m !! channel with
              | Some clients => send_clients clients channel message 0
              | None => mret 0
              end;
  l ← pget server_patterns;
  send_patterns l channel message receivers.

(** ** The commands *)

Fixpoint each_arg (f : key -> PM bool) (l : list key) : PM unit :=
  match l with
  | [] => mret tt
  | x :: l => _ ← f x; each_arg f l
  end.

Definition subscribeCommand (c : Z) (argv : list key) : PM unit :=
  _ ← each_arg (pubsubSubscribeChannel c) (tail argv);
  cl ← get_pclient c;
  set_pclient c (with_pubsub_flag true cl).

(** if (clientSubscriptionsCount(c) == 0) c->flags &= ~CLIENT_PUBSUB; *)
Definition leave_pubsub (c : Z) : PM unit :=
  cl ← get_pclient c;
  if clientSubscriptionsCount cl =? 0 then set_pclient c (with_pubsub_flag false cl) else mret tt.

Definition unsubscribeCommand (order : gset key -> list key) (c : Z) (argv : list key) : PM unit :=
  _ ← (if bool_decide (length argv = 1%nat) then _ ← pubsubUnsubscribeAllChannels order c true; mret tt
       else each_arg (fun ch => pubsubUnsubscribeChannel c ch true) (tail argv));
  leave_pubsub c.

Definition psubscribeCommand (c : Z) (argv : list key) : PM unit :=
  _ ← each_arg (pubsubSubscribePattern c) (tail argv);
  cl ← get_pclient c;
  set_pclient c (with_pubsub_flag true cl).

Definition punsubscribeCommand (c : Z) (argv : list key) : PM unit :=
  _ ← (if bool_decide (length argv = 1%nat) then _ ← pubsubUnsubscribeAllPatterns c true; mret tt
       else each_arg (fun p => pubsubUnsubscribePattern c p true) (tail argv));
  leave_pubsub c.

Definition parg (argv : list key) (i : nat) : PM key := presult (of_opt OutOfBounds (argv !! i)).

(** forceCommandPropagation(c,PROPAGATE_REPL): the command goes to the slaves
    although it changes no data. *)
Definition publishCommand (c : Z) (argv : list key) : PM unit :=
  ch ← parg argv 1;
  msg ← parg argv 2;
  receivers ← pubsubPublishMessage ch msg;
  _ ← pset (add_replicated argv);
  preply c (integer receivers).

(** The channels that match, in the order of the iterator. *)
Fixpoint matching (pat : option key) (l : list key) : PM (list key) :=
  match l with
  | [] => mret []
  | ch :: l =>
      b ← (match pat with None => mret true | Some p => presult (stringmatchlen p ch false) end);
      rest ← matching pat l;
      mret (if (b : bool) then ch :: rest else rest)
  end.

Definition is_word (s : String.string) (a : key) : bool := bool_decide (map tolower (cstr a) = bytes_of_string s).
Arguments is_word _%_string_scope _.

Definition numsub (m : gmap key (list Z)) (ch : key) : Z := Z.of_nat (length (default [] (m !! ch))).

Definition pubsubCommand (order : gset key -> list key) (c : Z) (argv : list key) : PM unit :=
  sub ← parg argv 1;
  let argc := Z.of_nat (length argv) in
  if is_word "channels" sub && ((argc =? 2) || (argc =? 3)) then
    m ← pget server_channels;
    l ← matching (argv !! 2%nat) (order (dom m));
    preply c (mbulkhdr (Z.of_nat (length l)) ++ concat (bulk <$> l))
  else if is_word "numsub" sub && (2 <=? argc) then
    m ← pget server_channels;
    preply c (mbulkhdr ((argc - 2) * 2) ++ concat ((fun ch => bulk ch ++ integer (numsub m ch)) <$> drop 2 argv))
  else if is_word "numpat" sub && (argc =? 2) then
    l ← pget server_patterns;
    preply c (integer (Z.of_nat (length l)))
  else
    preply c (error_line (no_newlines
      (bytes_of_string "Unknown PUBSUB subcommand or wrong number of arguments for '" ++ cstr sub ++ bytes_of_string "'"))).

(** ** Keyspace events (notify.c) *)

Definition NOTIFY_KEYSPACE : Z := 1.
Definition NOTIFY_KEYEVENT : Z := 2.
Definition NOTIFY_ALL : Z := 1020.

(** The flag of a class. *)
Definition class_flag (c : notify_class) : Z :=
  match c with NOTIFY_GENERIC => 4 | NOTIFY_STRING => 8 | NOTIFY_EXPIRED => 256 end.

(** The classes of events by their letters, but for A. *)
Definition class_letters : list (Z * Z) :=
  [(103, 4); (36, 8); (108, 16); (115, 32); (104, 64); (122, 128); (120, 256); (101, 512)].
Definition kind_letters : list (Z * Z) := [(75, NOTIFY_KEYSPACE); (69, NOTIFY_KEYEVENT)].

Definition letter_flags (c : Z) : option Z :=
  if c =? 65 then Some NOTIFY_ALL
  else snd <$> (snd <$> list_find (fun p : Z * Z => p.1 = c) (class_letters ++ kind_letters)).

(** The loop stops at the terminator of the string. *)
Fixpoint string_to_flags (p : list Z) (flags : Z) : Z :=
  match p with
  | [] => flags
  | c :: p => match letter_flags c with
              | Some f => string_to_flags p (Z.lor flags f)
              | None => -1
              end
  end.
Definition keyspaceEventsStringToFlags (classes : list Z) : Z := string_to_flags (cstr classes) 0.

(** The letters of the flags that are set. *)
Definition letters_of (flags : Z) (l : list (Z * Z)) : list Z :=
  fst <$> filter (fun p : Z * Z => Z.land flags p.2 <> 0) l.
Definition keyspaceEventsFlagsToString (flags : Z) : list Z :=
  (if Z.land flags NOTIFY_ALL =? NOTIFY_ALL then [65] else letters_of flags class_letters) ++ letters_of flags kind_letters.

Definition keyspace_channel (k : key) (dbid : Z) : key := bytes_of_string "__keyspace@" ++ decimal dbid ++ bytes_of_string "__:" ++ k.
Definition keyevent_channel (event : list Z) (dbid : Z) : key :=
  bytes_of_string "__keyevent@" ++ decimal dbid ++ bytes_of_string "__:" ++ event.

(** [flags] is server.notify_keyspace_events. *)
Definition notifyEvent (flags : Z) (e : notify_class * list Z * key * Z) : PM unit :=
  let '(type, event, k, dbid) := e in
  if Z.land flags (class_flag type) =? 0 then mret tt
  else
    _ ← (if Z.land flags NOTIFY_KEYSPACE =? 0 then mret tt
         else _ ← pubsubPublishMessage (keyspace_channel k dbid) event; mret tt);
    if Z.land flags NOTIFY_KEYEVENT =? 0 then mret tt
    else _ ← pubsubPublishMessage (keyevent_channel event dbid) k; mret tt.

Fixpoint notify_all (flags : Z) (l : list (notify_class * list Z * key * Z)) : PM unit :=
  match l with
  | [] => mret tt
  | e :: l => _ ← notifyEvent flags e; notify_all flags l
  end.

(** ** The request path *)

Inductive pproc : Type := subscribeProc | unsubscribeProc | psubscribeProc | punsubscribeProc | publishProc | pubsubProc.

Definition pubsub_table : list (redisCommand * pproc) := [
  (entry "subscribe" (fail Undefined) (-2) "pslt", subscribeProc);
  (entry "unsubscribe" (fail Undefined) (-1) "pslt", unsubscribeProc);
  (entry "psubscribe" (fail Undefined) (-2) "pslt", psubscribeProc);
  (entry "punsubscribe" (fail Undefined) (-1) "pslt", punsubscribeProc);
  (entry "publish" (fail Undefined) 3 "pltF", publishProc);
  (entry "pubsub" (fail Undefined) (-2) "pltR", pubsubProc)].

Definition plookup (n : list Z) : option (redisCommand * pproc) :=
  snd <$> list_find (fun p : redisCommand * pproc => map tolower (name p.1) = map tolower n) pubsub_table.

Definition run_pproc (order : gset key -> list key) (p : pproc) (c : Z) (argv : list key) : PM unit :=
  match p with
  | subscribeProc => subscribeCommand c argv
  | unsubscribeProc => unsubscribeCommand order c argv
  | psubscribeProc => psubscribeCommand c argv
  | punsubscribeProc => punsubscribeCommand c argv
  | publishProc => publishCommand c argv
  | pubsubProc => pubsubCommand order c argv
  end.

(** The commands that are allowed in the context of Pub/Sub. *)
Definition in_context (p : pproc) : bool :=
  match p with subscribeProc | unsubscribeProc | psubscribeProc | punsubscribeProc => true | publishProc | pubsubProc => false end.

(** The state with the keyspace; [notify_keyspace_events] is the
    configuration. *)
Record pworld : Type := mk_pworld { p_srv : astate; p_ps : pubsub; notify_keyspace_events : Z }.

(** The gates of the client that is served. *)
Definition set_pubsub_gate (b : bool) (c : conf) : conf :=
  let g := gt c in
  mk_conf (mstime c) (lruclock c) (loading c) (masterhost c) (lua_caller c) (lua_time_start c) (child_running c) (readonly_client c)
    (lru_policy c) (save_params c) (cmd_name c)
    (mk_gates (noauth g) (write_error g) (few_slaves g) (slave_ro g) (master_client g) b (master_down g) (lua_timedout g)).

(** The keyspace with the client [cl] as the one that is served. *)
Definition serve_client (cl : pclient) (argv : list key) (t : astate) : astate :=
  mk_astate (adbs t) argv (p_db cl) (set_pubsub_gate (CLIENT_PUBSUB cl) (acf t)) (alg t).

(** What a command on keys sent to its client and reported, after [t]. *)
Definition sent (t t' : astate) : list Z := drop (length (output (alg t))) (output (alg t')).
Definition reported (t t' : astate) : list (notify_class * list Z * key * Z) := drop (length (events (alg t))) (events (alg t')).

Definition end_command (t : astate) : astate := mk_astate (adbs t) [] (acur t) (acf t) (alg t).

Definition with_p_db (d : Z) (cl : pclient) : pclient :=
  mk_pclient d (pubsub_channels cl) (pubsub_patterns cl) (CLIENT_PUBSUB cl) (p_reply cl).

(** processCommand for any client.  A command on keys: the client has no
    subscriptions (or it is PING), so that no event reaches the client that
    runs it, and the events may be sent after its replies. *)
Definition pprocessCommand (order : gset key -> list key) (c : Z) (argv : list key) (w : pworld) : res (outcome * pworld) :=
  '(cl, s) ← get_pclient c (p_ps w);
  let t := serve_client cl argv (p_srv w) in
  match plookup (default [] (head argv)) with
  | Some (cmd, p) =>
      match refuse cmd (Z.of_nat (length argv)) (set_pubsub_gate (CLIENT_PUBSUB cl && negb (in_context p)) (acf t)) with
      | Some err => '(_, s) ← preply c err s; Ret (C_OK, mk_pworld (p_srv w) s (notify_keyspace_events w))
      | None => '(_, s) ← run_pproc order p c argv s; Ret (C_OK, mk_pworld (p_srv w) s (notify_keyspace_events w))
      end
  | None =>
      '(o, t') ← aprocessCommand specified_table t;
      '(_, s) ← set_pclient c (with_p_db (acur t') (said (sent t t') cl)) s;
      '(_, s) ← notify_all (notify_keyspace_events w) (reported t t') s;
      Ret (o, mk_pworld (end_command t') s (notify_keyspace_events w))
  end.

(** createClient and freeClient, as far as subscriptions are concerned. *)
Definition pcreateClient (c : Z) : PM unit :=
  m ← pget p_clients;
  match m !! c with
  | None => set_pclient c (mk_pclient 0 ∅ [] false [])
  | Some _ => pfail Undefined
  end.

Definition pfreeClient (order : gset key -> list key) (c : Z) : PM unit :=
  _ ← pubsubUnsubscribeAllChannels order c false;
  _ ← pubsubUnsubscribeAllPatterns c false;
  pset (fun s => with_p_clients (delete c (p_clients s)) s).

Inductive pevent : Type :=
  | PConnect (c : Z)
  | PRequest (order : gset key -> list key) (c : Z) (argv : list key)
  | PDisconnect (order : gset key -> list key) (c : Z).

Definition phandle (e : pevent) (w : pworld) : res pworld :=
  match e with
  | PConnect c => '(_, s) ← pcreateClient c (p_ps w); Ret (mk_pworld (p_srv w) s (notify_keyspace_events w))
  | PRequest order c argv => '(_, w) ← pprocessCommand order c argv w; Ret w
  | PDisconnect order c => '(_, s) ← pfreeClient order c (p_ps w); Ret (mk_pworld (p_srv w) s (notify_keyspace_events w))
  end.

Inductive psteps : pworld -> list pevent -> pworld -> Prop :=
  | psteps_nil w : psteps w [] w
  | psteps_cons w e w1 es w2 : phandle e w = Ret w1 -> psteps w1 es w2 -> psteps w (e :: es) w2.
