(* ===== verification/PubsubProofs.v ===== *)
(** * PubsubProofs: the tables of Pub/Sub are indexes of the subscriptions

    The specification has the clients only, each with its channels and
    patterns: a message goes to every client that listens to its channel.
    The tables of the server are proved to agree with the clients, and the
    code to do what the specification does. *)

From S2P Require Import Prelude Util Glob Object Db ServerOk Abstract TString AString Keyspace AKeyspace Server ServerRefine.
From S2P Require Import Pubsub.

(** ** Specification *)

Definition matches (pattern channel : key) : option bool :=
  match stringmatchlen pattern channel false with Ret b => Some b | Fault _ => None end.
Definition hit (pattern channel : key) : Prop := matches pattern channel = Some true.
#[export] Instance hit_dec p ch : Decision (hit p ch).
Proof. unfold hit. apply _. Defined.

(** What a client does to itself. *)
Definition s_subscribe (ch : key) (cl : pclient) : pclient :=
  let cl := with_subs ({[ch]} ∪ pubsub_channels cl) (pubsub_patterns cl) cl in said (notice "subscribe" (bulk ch) cl) cl.
Definition s_unsubscribe (notify : bool) (ch : key) (cl : pclient) : pclient :=
  let cl := with_subs (pubsub_channels cl ∖ {[ch]}) (pubsub_patterns cl) cl in
  if notify then said (notice "unsubscribe" (bulk ch) cl) cl else cl.
Definition s_psubscribe (p : key) (cl : pclient) : pclient :=
  let cl := with_subs (pubsub_channels cl) (if bool_decide (p ∈ pubsub_patterns cl) then pubsub_patterns cl else pubsub_patterns cl ++ [p]) cl in
  said (notice "psubscribe" (bulk p) cl) cl.
Definition s_punsubscribe (notify : bool) (p : key) (cl : pclient) : pclient :=
  let cl := with_subs (pubsub_channels cl) (filter (fun q => q <> p) (pubsub_patterns cl)) cl in
  if notify then said (notice "punsubscribe" (bulk p) cl) cl else cl.

(** Of all of [l], or the notice that there was nothing. *)
Definition s_all (kind : String.string) (f : key -> pclient -> pclient) (l : list key) (notify : bool) (cl : pclient) : pclient :=
  let cl := foldl (fun cl x => f x cl) cl l in
  if notify && bool_decide (l = []) then said (notice kind shared_nullbulk cl) cl else cl.
Arguments s_all _%_string_scope _ _ _ _.

Definition s_leave (cl : pclient) : pclient := if clientSubscriptionsCount cl =? 0 then with_pubsub_flag false cl else cl.

(** What a client hears of a message, and how often. *)
Definition heard (ch msg : list Z) (cl : pclient) : list Z :=
  (if bool_decide (ch ∈ pubsub_channels cl) then message_frame ch msg else []) ++
  concat ((fun p => pmessage_frame p ch msg) <$> filter (fun p => hit p ch) (pubsub_patterns cl)).
Definition hears (ch : list Z) (cl : pclient) : nat :=
  (if bool_decide (ch ∈ pubsub_channels cl) then 1 else 0) + length (filter (fun p => hit p ch) (pubsub_patterns cl)).

Definition total (f : pclient -> nat) (m : gmap Z pclient) : nat := map_fold (fun _ cl n => (f cl + n)%nat) 0%nat m.

(** Every pattern can be compared with the channel. *)
Definition comparable (ch : list Z) (m : gmap Z pclient) : Prop :=
  map_Forall (fun _ cl => Forall (fun p => is_Some (matches p ch)) (pubsub_patterns cl)) m.

Definition s_publish (ch msg : list Z) (m : gmap Z pclient) : gmap Z pclient := (fun cl => said (heard ch msg cl) cl) <$> m.

(** ** Invariant *)

Definition of_channel (m : gmap key (list Z)) (ch : key) : list Z := default [] (m !! ch).
Definition patterns_of (c : Z) (l : list (Z * key)) : list key := snd <$> filter (fun x : Z * key => x.1 = c) l.

(** The table from channels to clients, and the channels of the clients. *)
Record chan_inv (subs : gmap Z (gset key)) (m : gmap key (list Z)) : Prop := {
  ci_nodup ch : NoDup (of_channel m ch);
  ci_nonempty ch : m !! ch <> Some [];
  ci_iff ch c : c ∈ of_channel m ch <-> exists s, subs !! c = Some s /\ ch ∈ s
}.

(** The list of all patterns, and the patterns of the clients. *)
Record pat_inv (subs : gmap Z (list key)) (l : list (Z * key)) : Prop := {
  pi_patterns c ps : subs !! c = Some ps -> patterns_of c l = ps;
  pi_connected c p : (c, p) ∈ l -> is_Some (subs !! c);
  pi_once c ps : subs !! c = Some ps -> NoDup ps
}.

Definition pinv (s : pubsub) : Prop :=
  chan_inv (pubsub_channels <$> p_clients s) (server_channels s) /\ pat_inv (pubsub_patterns <$> p_clients s) (server_patterns s).

(** *** Channels *)

Lemma of_channel_insert m ch l ch' : of_channel (<[ch := l]> m) ch' = if decide (ch' = ch) then l else of_channel m ch'.
Proof. unfold of_channel. case_decide; subst; [by rewrite lookup_insert_eq|by rewrite lookup_insert_ne]. Qed.

Lemma of_channel_delete m ch ch' : of_channel (delete ch m) ch' = if decide (ch' = ch) then [] else of_channel m ch'.
Proof. unfold of_channel. case_decide; subst; [by rewrite lookup_delete_eq|by rewrite lookup_delete_ne]. Qed.

Lemma subscribed_insert (subs : gmap Z (gset key)) c s ch c' :
  (exists t, <[c := s]> subs !! c' = Some t /\ ch ∈ t) <-> if decide (c' = c) then ch ∈ s else exists t, subs !! c' = Some t /\ ch ∈ t.
Proof. case_decide; subst; [rewrite lookup_insert_eq; naive_solver|by rewrite lookup_insert_ne]. Qed.

Lemma chan_here subs m c s ch : chan_inv subs m -> subs !! c = Some s -> c ∈ of_channel m ch <-> ch ∈ s.
Proof. intros I H. rewrite (ci_iff _ _ I), H. naive_solver. Qed.

Lemma chan_subscribe subs m c s ch : chan_inv subs m -> subs !! c = Some s -> ch ∉ s ->
  chan_inv (<[c := {[ch]} ∪ s]> subs) (<[ch := of_channel m ch ++ [c]]> m).
Proof.
  intros I H Hch. split.
  - intros ch'. rewrite of_channel_insert. case_decide as E; [subst ch'|apply I]. apply NoDup_app. split; [apply I|].
    split; [|apply NoDup_singleton]. intros x Hx ->%list_elem_of_singleton. by apply (chan_here _ _ _ _ _ I H) in Hx.
  - intros ch'. destruct (decide (ch' = ch)) as [->|N]; [rewrite lookup_insert_eq; by destruct (of_channel m ch)|rewrite lookup_insert_ne by done; apply I].
  - intros ch' c'. rewrite of_channel_insert, subscribed_insert. pose proof (chan_here _ _ _ _ ch' I H). pose proof (ci_iff _ _ I ch' c').
    repeat case_decide; subst; rewrite ?elem_of_app, ?list_elem_of_singleton, ?elem_of_union, ?elem_of_singleton; tauto.
Qed.

Lemma filter_keep {A} (P : A -> Prop) `{forall x, Decision (P x)} (l : list A) : (forall x, x ∈ l -> P x) -> filter P l = l.
Proof.
  induction l as [|x l IH]; intros Hl; [done|]. rewrite filter_cons_True by (apply Hl; left). f_equal. apply IH. intros y Hy. apply Hl. by right.
Qed.

Lemma del_first_spec {A} `{EqDecision A} (x : A) l : x ∈ l -> NoDup l -> del_first x l = Some (filter (fun y => y <> x) l).
Proof.
  intros Hx. induction 1 as [|y l Hy Hl IH]; [by apply elem_of_nil in Hx|]. cbn [del_first]. rewrite filter_cons. case_decide as E; subst.
  - rewrite decide_False by tauto. f_equal. symmetry. apply filter_keep. congruence.
  - rewrite decide_True by done. rewrite IH; [done|]. by apply elem_of_cons in Hx as [->|].
Qed.

Lemma del_first_none {A} `{EqDecision A} (x : A) l : x ∉ l -> del_first x l = None.
Proof. induction l as [|y l IH]; intros Hx; [done|]. cbn. apply not_elem_of_cons in Hx as [? ?]. by rewrite decide_False, IH by done. Qed.

Definition leave (c : Z) (ch : key) (m : gmap key (list Z)) : gmap key (list Z) :=
  match filter (fun y => y <> c) (of_channel m ch) with [] => delete ch m | l => <[ch := l]> m end.

Lemma of_channel_leave c ch m ch' :
  of_channel (leave c ch m) ch' = if decide (ch' = ch) then filter (fun y => y <> c) (of_channel m ch) else of_channel m ch'.
Proof. unfold leave. destruct (filter _ _); [apply of_channel_delete|apply of_channel_insert]. Qed.

Lemma chan_unsubscribe subs m c s ch : chan_inv subs m -> subs !! c = Some s -> chan_inv (<[c := s ∖ {[ch]}]> subs) (leave c ch m).
Proof.
  intros I H. split.
  - intros ch'. rewrite of_channel_leave. case_decide; [apply NoDup_filter|]; apply I.
  - intros ch' E. assert (L : of_channel (leave c ch m) ch' = []) by (unfold of_channel; by rewrite E).
    rewrite of_channel_leave in L. unfold leave in E. case_decide as D; [subst ch'; rewrite L in E; by rewrite lookup_delete_eq in E|].
    destruct (filter _ _); rewrite ?lookup_delete_ne, ?lookup_insert_ne in E by done; by apply I in E.
  - intros ch' c'. rewrite of_channel_leave, subscribed_insert. pose proof (chan_here _ _ _ _ ch' I H). pose proof (ci_iff _ _ I ch' c').
    repeat case_decide; subst; rewrite ?list_elem_of_filter, ?elem_of_difference, ?elem_of_singleton; tauto.
Qed.

(** *** Patterns *)

Lemma patterns_of_app c l1 l2 : patterns_of c (l1 ++ l2) = patterns_of c l1 ++ patterns_of c l2.
Proof. unfold patterns_of. by rewrite filter_app, fmap_app. Qed.

Lemma patterns_of_cons c c' p l : patterns_of c ((c', p) :: l) = if decide (c' = c) then p :: patterns_of c l else patterns_of c l.
Proof. unfold patterns_of. rewrite filter_cons. cbn. by case_decide. Qed.

Lemma elem_of_patterns c p l : p ∈ patterns_of c l <-> (c, p) ∈ l.
Proof.
  unfold patterns_of. rewrite list_elem_of_fmap. setoid_rewrite list_elem_of_filter. split; [|intros H; by exists (c, p)].
  by intros ([c' p'] & -> & <- & H).
Qed.

Lemma patterns_of_ne c p c' l : c' <> c -> patterns_of c' (filter (fun y => y <> (c, p)) l) = patterns_of c' l.
Proof.
  intros N. unfold patterns_of. f_equal. rewrite list_filter_filter_l; [done|]. intros [c1 p1]. cbn. congruence.
Qed.

Lemma patterns_of_eq c p l : patterns_of c (filter (fun y => y <> (c, p)) l) = filter (fun q => q <> p) (patterns_of c l).
Proof.
  induction l as [|[c1 p1] l IH]; [done|]. rewrite filter_cons, patterns_of_cons.
  destruct (decide (c1 = c)) as [->|N]; [rewrite filter_cons|]; (case_decide as D; [rewrite patterns_of_cons|]); repeat case_decide; congruence.
Qed.

Lemma nodup_pairs (l : list (Z * key)) : (forall c, NoDup (patterns_of c l)) -> NoDup l.
Proof.
  induction l as [|[c p] l IH]; intros H; constructor.
  - rewrite <- elem_of_patterns. specialize (H c). rewrite patterns_of_cons, decide_True in H by done. by inversion H.
  - apply IH. intros c'. specialize (H c'). rewrite patterns_of_cons in H. case_decide; [by inversion H|done].
Qed.

Lemma pat_nodup subs l : pat_inv subs l -> NoDup l.
Proof.
  intros I. apply nodup_pairs. intros c. destruct (subs !! c) as [ps|] eqn:E.
  - rewrite (pi_patterns _ _ I c ps E). by apply (pi_once _ _ I c).
  - replace (patterns_of c l) with (@nil key); [constructor|]. destruct (patterns_of c l) as [|p ps] eqn:Ep; [done|]. exfalso. assert (H : p ∈ patterns_of c l) by (rewrite Ep; left).
    apply elem_of_patterns, (pi_connected _ _ I) in H as [? ?]. congruence.
Qed.

Lemma pat_subscribe subs l c ps p : pat_inv subs l -> subs !! c = Some ps -> p ∉ ps -> pat_inv (<[c := ps ++ [p]]> subs) (l ++ [(c, p)]).
Proof.
  intros I H Hp. split.
  - intros c' ps'. rewrite patterns_of_app, patterns_of_cons. change (patterns_of c' []) with (@nil key). rewrite lookup_insert_Some.
    intros [[-> <-]|[N E]]; [rewrite decide_True by done|rewrite decide_False, app_nil_r by done]; by rewrite (pi_patterns _ _ I _ _ ltac:(eassumption)).
  - intros c' p'. rewrite elem_of_app, list_elem_of_singleton, lookup_insert_is_Some'. intros [E|[= -> ->]]; [right; by apply (pi_connected _ _ I c' p')|by left].
  - intros c' ps'. rewrite lookup_insert_Some. intros [[-> <-]|[N E]]; [|by apply (pi_once _ _ I c')]. apply NoDup_app.
    split; [by apply (pi_once _ _ I c')|]. split; [|apply NoDup_singleton]. intros x Hx ->%list_elem_of_singleton. done.
Qed.

Lemma pat_unsubscribe subs l c ps p : pat_inv subs l -> subs !! c = Some ps ->
  pat_inv (<[c := filter (fun q => q <> p) ps]> subs) (filter (fun y => y <> (c, p)) l).
Proof.
  intros I H. split.
  - intros c' ps'. rewrite lookup_insert_Some. intros [[-> <-]|[N E]]; [rewrite patterns_of_eq|rewrite patterns_of_ne by done];
      by rewrite (pi_patterns _ _ I _ _ ltac:(eassumption)).
  - intros c' p'. rewrite list_elem_of_filter, lookup_insert_is_Some'. intros [_ E]. right. by apply (pi_connected _ _ I c' p').
  - intros c' ps'. rewrite lookup_insert_Some. intros [[-> <-]|[N E]]; [apply NoDup_filter|]; by eapply (pi_once _ _ I).
Qed.

(** ** Operations of one client *)

(** [m] returns [a] and turns the client [c] into [cl']; nothing else that
    the specification has changes. *)
Definition turns {A} (s : pubsub) (c : Z) (m : PM A) (a : A) (cl' : pclient) : Prop :=
  exists s', m s = Ret (a, s') /\ pinv s' /\ p_clients s' = <[c := cl']> (p_clients s) /\ replicated s' = replicated s.

Lemma turns_bind {A B} s c (m : PM A) (k : A -> PM B) a b cl1 cl2 : turns s c m a cl1 ->
  (forall s', pinv s' -> p_clients s' !! c = Some cl1 -> turns s' c (k a) b cl2) -> turns s c (m ≫= k) b cl2.
Proof.
  intros (s1 & E & I & C & R) Hk. destruct (Hk s1 I) as (s2 & E2 & I2 & C2 & R2); [rewrite C; apply lookup_insert_eq|].
  exists s2. split; [unfold mbind, PM_bind; by rewrite E|]. split; [done|]. split; [by rewrite C2, C, insert_insert_eq|congruence].
Qed.

Lemma turns_ret {A} s c cl (a : A) : pinv s -> p_clients s !! c = Some cl -> turns s c (mret a) a cl.
Proof. intros I H. exists s. by rewrite insert_id. Qed.

Lemma turns_get {B} s c cl (k : pclient -> PM B) b cl' : p_clients s !! c = Some cl -> turns s c (k cl) b cl' -> turns s c (get_pclient c ≫= k) b cl'.
Proof. intros H (s' & E & HR). exists s'. split; [|done]. unfold mbind, PM_bind, get_pclient. by rewrite H. Qed.

Definition same_subs (cl cl' : pclient) : Prop := pubsub_channels cl' = pubsub_channels cl /\ pubsub_patterns cl' = pubsub_patterns cl.

Lemma turns_set s c cl cl' : pinv s -> p_clients s !! c = Some cl -> same_subs cl cl' -> turns s c (set_pclient c cl') tt cl'.
Proof.
  intros [I J] H [E1 E2]. eexists. split; [done|]. split; [|done]. split; cbn; rewrite fmap_insert, ?E1, ?E2, insert_id; try done; by rewrite lookup_fmap, H.
Qed.

Lemma turns_reply s c cl bs : pinv s -> p_clients s !! c = Some cl -> turns s c (preply c bs) tt (said bs cl).
Proof. intros I H. apply (turns_get s c cl); [done|]. by apply (turns_set s c cl). Qed.

Lemma turns_notice s c cl kind what : pinv s -> p_clients s !! c = Some cl -> turns s c (pnotice kind what c) tt (said (notice kind what cl) cl).
Proof. intros I H. apply (turns_get s c cl); [done|]. by apply turns_reply. Qed.

(** A notice, or none. *)
Lemma turns_end s c cl kind what (notify b : bool) : pinv s -> p_clients s !! c = Some cl ->
  turns s c (_ ← (if notify then pnotice kind what c else mret tt); mret b) b (if notify then said (notice kind what cl) cl else cl).
Proof.
  intros I H. destruct notify; (eapply turns_bind; [by apply turns_notice || by apply turns_ret|]); intros s' I' H'; by apply turns_ret.
Qed.

Lemma with_subs_same cl : with_subs (pubsub_channels cl) (pubsub_patterns cl) cl = cl.
Proof. by destruct cl. Qed.

Lemma subscribe_ok s c cl ch : pinv s -> p_clients s !! c = Some cl ->
  turns s c (pubsubSubscribeChannel c ch) (bool_decide (ch ∉ pubsub_channels cl)) (s_subscribe ch cl).
Proof.
  intros I H. unfold pubsubSubscribeChannel, s_subscribe. apply (turns_get s c cl); [done|].
  destruct (decide (ch ∈ pubsub_channels cl)) as [E|E].
  - rewrite bool_decide_eq_true_2, (bool_decide_eq_false_2 (_ ∉ _)) by tauto.
    replace ({[ch]} ∪ pubsub_channels cl) with (pubsub_channels cl) by set_solver. rewrite with_subs_same.
    eapply turns_bind; [by apply turns_ret|]. intros s1 I1 H1. by apply (turns_end s1 c _ _ _ true).
  - rewrite bool_decide_eq_false_2, (bool_decide_eq_true_2 (_ ∉ _)) by done.
    eapply turns_bind; [|intros s1 I1 H1; by apply (turns_end s1 c _ _ _ true)].
    destruct I as [I J]. eexists. split; [done|]. split; [|done]. split; cbn.
    + rewrite fmap_insert. cbn. apply chan_subscribe; [done|by rewrite lookup_fmap, H|done].
    + rewrite fmap_insert. cbn. rewrite insert_id; [done|by rewrite lookup_fmap, H].
Qed.

Lemma unsubscribe_ok s c cl ch notify : pinv s -> p_clients s !! c = Some cl ->
  turns s c (pubsubUnsubscribeChannel c ch notify) (bool_decide (ch ∈ pubsub_channels cl)) (s_unsubscribe notify ch cl).
Proof.
  intros I H. unfold pubsubUnsubscribeChannel, s_unsubscribe. apply (turns_get s c cl); [done|].
  destruct (decide (ch ∈ pubsub_channels cl)) as [E|E].
  - rewrite bool_decide_eq_true_2 by done. eapply turns_bind; [|intros s1 I1 H1; by apply turns_end].
    destruct I as [I J]. assert (Hc : c ∈ of_channel (server_channels s) ch) by (apply (ci_iff _ _ I); eexists; by rewrite lookup_fmap, H).
    exists (with_channels (leave c ch (server_channels s))
      (with_p_clients (<[c := with_subs (pubsub_channels cl ∖ {[ch]}) (pubsub_patterns cl) cl]> (p_clients s)) s)).
    split; [|split; [|done]].
    + unfold leave. pose proof (ci_nodup _ _ I ch) as N. unfold of_channel in *. unfold mbind, PM_bind, set_pclient, pset, pget.
      cbn [server_channels with_p_clients]. destruct (server_channels s !! ch) as [l|]; [|by apply elem_of_nil in Hc]. cbn in Hc, N |- *. unfold id in *.
      rewrite (del_first_spec c l Hc N). by destruct (filter _ l).
    + split; cbn; rewrite fmap_insert; cbn; [by apply chan_unsubscribe; [|rewrite lookup_fmap, H]|].
      rewrite insert_id; [done|by rewrite lookup_fmap, H].
  - rewrite bool_decide_eq_false_2 by done. replace (pubsub_channels cl ∖ {[ch]}) with (pubsub_channels cl) by set_solver. rewrite with_subs_same.
    eapply turns_bind; [by apply turns_ret|]. intros s1 I1 H1. by apply turns_end.
Qed.

Lemma psubscribe_ok s c cl p : pinv s -> p_clients s !! c = Some cl ->
  turns s c (pubsubSubscribePattern c p) (bool_decide (p ∉ pubsub_patterns cl)) (s_psubscribe p cl).
Proof.
  intros I H. unfold pubsubSubscribePattern, s_psubscribe. apply (turns_get s c cl); [done|].
  destruct (decide (p ∈ pubsub_patterns cl)) as [E|E].
  - rewrite bool_decide_eq_true_2, (bool_decide_eq_false_2 (_ ∉ _)) by tauto. rewrite with_subs_same.
    eapply turns_bind; [by apply turns_ret|]. intros s1 I1 H1. by apply (turns_end s1 c _ _ _ true).
  - rewrite bool_decide_eq_false_2, (bool_decide_eq_true_2 (_ ∉ _)) by done.
    eapply turns_bind; [|intros s1 I1 H1; by apply (turns_end s1 c _ _ _ true)].
    destruct I as [I J]. eexists. split; [done|]. split; [|done]. split; cbn; rewrite fmap_insert; cbn.
    + rewrite insert_id; [done|by rewrite lookup_fmap, H].
    + apply pat_subscribe; [done|by rewrite lookup_fmap, H|done].
Qed.

Lemma punsubscribe_ok s c cl p notify : pinv s -> p_clients s !! c = Some cl ->
  turns s c (pubsubUnsubscribePattern c p notify) (bool_decide (p ∈ pubsub_patterns cl)) (s_punsubscribe notify p cl).
Proof.
  intros I H. unfold pubsubUnsubscribePattern, s_punsubscribe. apply (turns_get s c cl); [done|].
  destruct (decide (p ∈ pubsub_patterns cl)) as [E|E].
  - destruct I as [I J]. assert (Hl : (pubsub_patterns <$> p_clients s) !! c = Some (pubsub_patterns cl)) by (by rewrite lookup_fmap, H).
    rewrite bool_decide_eq_true_2, del_first_spec by (done || by eapply (pi_once _ _ J)). eapply turns_bind; [|intros s1 I1 H1; by apply turns_end].
    exists (with_patterns (filter (fun y => y <> (c, p)) (server_patterns s))
      (with_p_clients (<[c := with_subs (pubsub_channels cl) (filter (fun q => q <> p) (pubsub_patterns cl)) cl]> (p_clients s)) s)).
    split; [|split; [|done]].
    + unfold mbind, PM_bind, set_pclient, pset, pget. cbn [server_patterns with_p_clients].
      rewrite del_first_spec; [done| |by eapply pat_nodup]. rewrite <- elem_of_patterns. by rewrite (pi_patterns _ _ J c _ Hl).
    + split; cbn; rewrite fmap_insert; cbn; [rewrite insert_id; [done|by rewrite lookup_fmap, H]|by apply pat_unsubscribe].
  - rewrite bool_decide_eq_false_2, del_first_none by done. rewrite filter_keep by congruence. rewrite with_subs_same.
    eapply turns_bind; [by apply turns_ret|]. intros s1 I1 H1. by apply turns_end.
Qed.

(** ** Loops over channels and patterns *)

Section loops.
Context (c : Z) (f : key -> PM bool) (r : key -> pclient -> bool) (g : key -> pclient -> pclient).
Hypothesis f_ok : forall s cl x, pinv s -> p_clients s !! c = Some cl -> turns s c (f x) (r x cl) (g x cl).

Lemma each_arg_ok l : forall s cl, pinv s -> p_clients s !! c = Some cl -> turns s c (each_arg f l) tt (foldl (fun cl x => g x cl) cl l).
Proof.
  induction l as [|x l IH]; intros s cl I H; [by apply turns_ret|]. eapply turns_bind; [by apply f_ok|]. intros s1 I1 H1. by apply IH.
Qed.

(** [good l cl]: each element of [l] is there when its turn comes. *)
Context (good : list key -> pclient -> Prop).
Hypothesis good_next : forall x l cl, good (x :: l) cl -> r x cl = true /\ good l (g x cl).

Lemma count_loop_ok l : forall s cl n, pinv s -> p_clients s !! c = Some cl -> good l cl ->
  turns s c (count_loop f l n) (n + Z.of_nat (length l)) (foldl (fun cl x => g x cl) cl l).
Proof.
  induction l as [|x l IH]; intros s cl n I H Hg.
  - cbn. rewrite Z.add_0_r. by apply turns_ret.
  - destruct (good_next x l cl Hg) as [Hr Hg']. cbn [count_loop foldl]. eapply turns_bind; [by apply f_ok|].
    rewrite Hr. intros s1 I1 H1. replace (n + Z.of_nat (length (x :: l))) with (n + 1 + Z.of_nat (length l)) by (cbn [length]; lia). by apply IH.
Qed.

Lemma all_ok l s cl kind (notify : bool) : pinv s -> p_clients s !! c = Some cl -> good l cl ->
  turns s c (count ← count_loop f l 0; _ ← (if notify && (count =? 0) then pnotice kind shared_nullbulk c else mret tt); mret count)
    (Z.of_nat (length l)) (s_all kind g l notify cl).
Proof.
  intros I H Hg. eapply turns_bind; [by apply count_loop_ok|]. intros s1 I1 H1. unfold s_all.
  replace (0 + Z.of_nat (length l) =? 0) with (bool_decide (l = [])) by (destruct l; [done|]; rewrite bool_decide_eq_false_2 by done; symmetry; by apply Z.eqb_neq; cbn; lia).
  rewrite Z.add_0_l. destruct (notify && bool_decide (l = [])); (eapply turns_bind; [by apply turns_notice || by apply turns_ret|]); intros s2 I2 H2; by apply turns_ret.
Qed.
End loops.

(** The order of an iterator: every key once. *)
Definition iterates (order : gset key -> list key) : Prop := forall s, order s ≡ₚ elements s.

Lemma channels_unsubscribe notify ch cl : pubsub_channels (s_unsubscribe notify ch cl) = pubsub_channels cl ∖ {[ch]}.
Proof. by destruct notify. Qed.
Lemma patterns_unsubscribe notify ch cl : pubsub_patterns (s_unsubscribe notify ch cl) = pubsub_patterns cl.
Proof. by destruct notify. Qed.
Lemma channels_punsubscribe notify p cl : pubsub_channels (s_punsubscribe notify p cl) = pubsub_channels cl.
Proof. by destruct notify. Qed.
Lemma patterns_punsubscribe notify p cl : pubsub_patterns (s_punsubscribe notify p cl) = filter (fun q => q <> p) (pubsub_patterns cl).
Proof. by destruct notify. Qed.

Definition s_unsubscribe_all (order : gset key -> list key) (notify : bool) (cl : pclient) : pclient :=
  s_all "unsubscribe" (s_unsubscribe notify) (order (pubsub_channels cl)) notify cl.
Definition s_punsubscribe_all (notify : bool) (cl : pclient) : pclient :=
  s_all "punsubscribe" (s_punsubscribe notify) (pubsub_patterns cl) notify cl.

Lemma unsubscribe_all_ok order s c cl notify : iterates order -> pinv s -> p_clients s !! c = Some cl ->
  turns s c (pubsubUnsubscribeAllChannels order c notify) (Z.of_nat (length (order (pubsub_channels cl)))) (s_unsubscribe_all order notify cl).
Proof.
  intros Ho I H. apply (turns_get s c cl); [done|].
  apply (all_ok c _ (fun x cl => bool_decide (x ∈ pubsub_channels cl)) _ ltac:(intros; by apply unsubscribe_ok)
    (fun l cl => NoDup l /\ forall x, x ∈ l -> x ∈ pubsub_channels cl)); [|done..|].
  - intros x l cl' [[Hx Hl]%NoDup_cons Hin]. split; [apply bool_decide_eq_true; apply Hin; left|]. split; [done|]. intros y Hy.
    rewrite channels_unsubscribe. assert (y ∈ pubsub_channels cl') by (apply Hin; by right). assert (y <> x) by congruence. set_solver.
  - split; [rewrite (Ho _); apply NoDup_elements|]. intros x. rewrite (Ho _). apply elem_of_elements.
Qed.

Lemma punsubscribe_all_ok s c cl notify : pinv s -> p_clients s !! c = Some cl ->
  turns s c (pubsubUnsubscribeAllPatterns c notify) (Z.of_nat (length (pubsub_patterns cl))) (s_punsubscribe_all notify cl).
Proof.
  intros I H. apply (turns_get s c cl); [done|].
  apply (all_ok c _ (fun x cl => bool_decide (x ∈ pubsub_patterns cl)) _ ltac:(intros; by apply punsubscribe_ok)
    (fun l cl => NoDup l /\ forall x, x ∈ l -> x ∈ pubsub_patterns cl)); [|done..|].
  - intros x l cl' [[Hx Hl]%NoDup_cons Hin]. split; [apply bool_decide_eq_true; apply Hin; left|]. split; [done|]. intros y Hy.
    rewrite patterns_punsubscribe. apply list_elem_of_filter. split; [congruence|]. apply Hin. by right.
  - split; [|done]. apply (pi_once _ _ (proj2 I) c). by rewrite lookup_fmap, H.
Qed.

(** ** Clients that come and go *)

Lemma chan_connect subs m c : chan_inv subs m -> subs !! c = None -> chan_inv (<[c := ∅]> subs) m.
Proof.
  intros I H. split; [apply I..|]. intros ch c'. rewrite subscribed_insert. pose proof (ci_iff _ _ I ch c') as E. case_decide; subst; [|done].
  rewrite E. split; [intros (s & Hs & _); congruence|]. intros F. by apply elem_of_empty in F.
Qed.

Lemma pat_connect subs l c : pat_inv subs l -> subs !! c = None -> pat_inv (<[c := []]> subs) l.
Proof.
  intros I H. split.
  - intros c' ps. rewrite lookup_insert_Some. intros [[-> <-]|[N E]]; [|by apply (pi_patterns _ _ I)].
    destruct (patterns_of c' l) as [|p ps] eqn:E; [done|]. assert (P : (c', p) ∈ l) by (apply elem_of_patterns; rewrite E; left).
    apply (pi_connected _ _ I) in P as [? P]. congruence.
  - intros c' p P. rewrite lookup_insert_is_Some'. right. by apply (pi_connected _ _ I c' p).
  - intros c' ps. rewrite lookup_insert_Some. intros [[-> <-]|[N E]]; [constructor|by apply (pi_once _ _ I c')].
Qed.

Lemma chan_leave subs m c : chan_inv subs m -> subs !! c = Some ∅ -> chan_inv (delete c subs) m.
Proof.
  intros I H. split; [apply I..|]. intros ch c'. rewrite (ci_iff _ _ I). destruct (decide (c' = c)) as [->|N]; [|by rewrite lookup_delete_ne].
  rewrite lookup_delete_eq, H. split; [|naive_solver]. intros (s & [= <-] & F). by apply elem_of_empty in F.
Qed.

Lemma pat_leave subs l c : pat_inv subs l -> subs !! c = Some [] -> pat_inv (delete c subs) l.
Proof.
  intros I H. split.
  - intros c' ps [N E]%lookup_delete_Some. by apply (pi_patterns _ _ I).
  - intros c' p P. rewrite lookup_delete_is_Some. split; [|by apply (pi_connected _ _ I c' p)]. intros ->.
    apply elem_of_patterns in P. rewrite (pi_patterns _ _ I _ _ H) in P. by apply elem_of_nil in P.
  - intros c' ps [N E]%lookup_delete_Some. by apply (pi_once _ _ I c').
Qed.

(** What is left after leaving all channels, or all patterns. *)
Lemma fold_unsubscribe notify l : forall cl, let cl' := foldl (fun cl x => s_unsubscribe notify x cl) cl l in
  pubsub_channels cl' = pubsub_channels cl ∖ list_to_set l /\ pubsub_patterns cl' = pubsub_patterns cl /\ CLIENT_PUBSUB cl' = CLIENT_PUBSUB cl.
Proof.
  induction l as [|x l IH]; intros cl; cbn [foldl list_to_set]; [split; [set_solver|done]|]. destruct (IH (s_unsubscribe notify x cl)) as (-> & -> & ->).
  rewrite channels_unsubscribe, patterns_unsubscribe. split; [set_solver|]. by destruct notify.
Qed.

Lemma fold_punsubscribe notify l : forall cl, let cl' := foldl (fun cl x => s_punsubscribe notify x cl) cl l in
  pubsub_patterns cl' = filter (fun q => q ∉ l) (pubsub_patterns cl) /\ pubsub_channels cl' = pubsub_channels cl /\ CLIENT_PUBSUB cl' = CLIENT_PUBSUB cl.
Proof.
  induction l as [|x l IH]; intros cl; cbn [foldl].
  - split; [|done]. rewrite filter_keep; [done|]. intros y _. by apply not_elem_of_nil.
  - destruct (IH (s_punsubscribe notify x cl)) as (-> & -> & ->). rewrite channels_punsubscribe, patterns_punsubscribe. split; [|by destruct notify].
    rewrite list_filter_filter. apply list_filter_iff. intros y. rewrite not_elem_of_cons. tauto.
Qed.
