(* ===== verification/PubsubDeliver.v ===== *)
(** * PubsubDeliver: a message reaches those that listen

    The loops of pubsubPublishMessage send every client what the
    specification says it hears, and count it. *)

From S2P Require Import Prelude Util Glob Object Db ServerOk Abstract TString AString Keyspace AKeyspace Server ServerRefine.
From S2P Require Import Pubsub PubsubProofs.

(** ** Faults of the matcher *)

(** stringmatchlen reads outside of a buffer, or does not stop. *)
Definition stray (f : fault) : Prop := f = OutOfBounds \/ f = OutOfFuel.
Definition strays {A} (r : res A) : Prop := match r with Ret _ => True | Fault f => stray f end.

Lemma strays_bind {A B} (r : res A) (k : A -> res B) : strays r -> (forall a, strays (k a)) -> strays (r ≫= k).
Proof. intros H Hk. destruct r; [apply Hk|exact H]. Qed.

Lemma chr_strays m i : strays (chr m i).
Proof. unfold chr. destruct (_ =? _); [done|]. apply strays_bind; [|done]. unfold rd, of_opt. destruct (_ <? _); [by left|]. destruct (_ !! _); [done|by left]. Qed.

Lemma fuel_strays {A} : strays (@Fault A OutOfFuel).
Proof. by right. Qed.

Create HintDb strays.
#[local] Hint Resolve strays_bind chr_strays fuel_strays : strays.

(** Walk through a function of the matcher. *)
Ltac strays := repeat (first [done | apply fuel_strays | apply chr_strays | (apply strays_bind; [|intros ?]) | case_match | solve [auto with strays]]).

Lemma skip_stars_strays fuel pat : forall p plen, strays (skip_stars fuel pat p plen).
Proof. induction fuel; intros; cbn [skip_stars]; strays. Qed.
Lemma trailing_stars_strays fuel pat : forall p plen, strays (trailing_stars fuel pat p plen).
Proof. induction fuel; intros; cbn [trailing_stars]; strays. Qed.
Lemma bracket_strays fuel pat str nocase : forall p plen s found, strays (bracket fuel pat p plen str s nocase found).
Proof. induction fuel; intros; cbn [bracket]; strays. Qed.
Lemma star_loop_strays try fuel : (forall s slen, strays (try s slen)) -> forall s slen, strays (star_loop try fuel s slen).
Proof. intros Ht. induction fuel; intros; cbn [star_loop]; strays. Qed.

#[local] Hint Resolve skip_stars_strays trailing_stars_strays bracket_strays star_loop_strays : strays.

Lemma match_rec_strays fuel pat str nocase : forall p plen s slen, strays (match_rec fuel pat p plen str s slen nocase).
Proof. induction fuel; intros; cbn [match_rec]; strays. Qed.

Lemma stringmatchlen_strays p ch nocase : strays (stringmatchlen p ch nocase).
Proof. apply match_rec_strays. Qed.

(** ** Delivery *)

(** Every client [c] is sent [f c]. *)
Definition told (f : Z -> list Z) (m : gmap Z pclient) : gmap Z pclient := map_imap (fun c cl => Some (said (f c) cl)) m.

Lemma lookup_told f m c : told f m !! c = said (f c) <$> m !! c.
Proof. unfold told. rewrite map_lookup_imap. by destruct (m !! c). Qed.

Lemma said_nil cl : said [] cl = cl.
Proof. unfold said. rewrite app_nil_r. by destruct cl. Qed.

Lemma said_said a b cl : said b (said a cl) = said (a ++ b) cl.
Proof. unfold said. cbn. by rewrite app_assoc. Qed.

Lemma told_told f g m : told g (told f m) = told (fun c => f c ++ g c) m.
Proof. apply map_eq. intros c. rewrite !lookup_told. destruct (m !! c); [|done]. cbn. by rewrite said_said. Qed.

Lemma told_ext f g m : (forall c, is_Some (m !! c) -> f c = g c) -> told f m = told g m.
Proof. intros H. apply map_eq. intros c. rewrite !lookup_told. destruct (m !! c) eqn:E; [|done]. cbn. by rewrite H. Qed.

Lemma told_nothing m : told (fun _ => []) m = m.
Proof. apply map_eq. intros c. rewrite lookup_told. destruct (m !! c); [|done]. cbn. by rewrite said_nil. Qed.

Lemma told_subs {B} (h : pclient -> B) f m : (forall bs cl, h (said bs cl) = h cl) -> h <$> told f m = h <$> m.
Proof. intros H. apply map_eq. intros c. rewrite !lookup_fmap, lookup_told. destruct (m !! c); [|done]. cbn. by rewrite H. Qed.

Lemma pinv_told f s : pinv s -> pinv (with_p_clients (told f (p_clients s)) s).
Proof. intros [I J]. split; cbn; by rewrite told_subs. Qed.

Lemma with_p_clients_same s : with_p_clients (p_clients s) s = s.
Proof. by destruct s. Qed.

Lemma preply_told s c bs : is_Some (p_clients s !! c) ->
  preply c bs s = Ret (tt, with_p_clients (told (fun c' => if decide (c' = c) then bs else []) (p_clients s)) s).
Proof.
  intros [cl H]. unfold preply, mbind, PM_bind, get_pclient, set_pclient, pset. rewrite H. do 2 f_equal. f_equal. apply map_eq. intros c'.
  rewrite lookup_told. case_decide; subst; [by rewrite lookup_insert_eq, H|]. rewrite lookup_insert_ne by done. destruct (p_clients s !! c'); [|done].
  cbn. by rewrite said_nil.
Qed.

Lemma send_clients_ok ch msg l : forall s n, NoDup l -> (forall c, c ∈ l -> is_Some (p_clients s !! c)) ->
  send_clients l ch msg n s =
  Ret (n + Z.of_nat (length l), with_p_clients (told (fun c => if bool_decide (c ∈ l) then message_frame ch msg else []) (p_clients s)) s).
Proof.
  induction l as [|c l IH]; intros s n Hl Hc.
  - cbn. rewrite Z.add_0_r, told_nothing. by rewrite with_p_clients_same.
  - apply NoDup_cons in Hl as [Hn Hl]. cbn [send_clients]. unfold mbind at 1, PM_bind at 1. rewrite preply_told by (apply Hc; left). rewrite IH; [|done|].
    + replace (n + Z.of_nat (length (c :: l))) with (n + 1 + Z.of_nat (length l)) by (cbn [length]; lia).
      unfold with_p_clients. cbn. do 3 f_equal. rewrite told_told. apply told_ext. intros c' _.
      case_decide; subst; [rewrite bool_decide_eq_false_2, (bool_decide_eq_true_2 (_ ∈ _ :: _)), app_nil_r by (done || left); done|].
      cbn. by rewrite (bool_decide_ext (c' ∈ c :: l) (c' ∈ l)) by (rewrite elem_of_cons; tauto).
    + intros c' Hc'. cbn. rewrite lookup_told. destruct (Hc c') as [cl ->]; [by right|by eexists].
Qed.

Definition pattern_frames (ch msg : list Z) (ps : list key) : list Z := concat ((fun p => pmessage_frame p ch msg) <$> filter (fun p => hit p ch) ps).

Lemma send_patterns_ok ch msg l : forall s n, (forall c p, (c, p) ∈ l -> is_Some (p_clients s !! c)) ->
  match send_patterns l ch msg n s with
  | Ret (r, s') => Forall (fun x => is_Some (matches x.2 ch)) l /\ r = n + Z.of_nat (length (filter (fun x => hit x.2 ch) l)) /\
      s' = with_p_clients (told (fun c => pattern_frames ch msg (patterns_of c l)) (p_clients s)) s
  | Fault f => stray f /\ exists x, x ∈ l /\ matches x.2 ch = None
  end.
Proof.
  induction l as [|[c p] l IH]; intros s n Hc.
  - cbn. rewrite told_nothing, with_p_clients_same. split; [constructor|]. split; [lia|done].
  - assert (M : matches p ch = match stringmatchlen p ch false with Ret b => Some b | Fault _ => None end) by done.
    cbn [send_patterns]. unfold mbind at 1, PM_bind at 1, presult. pose proof (stringmatchlen_strays p ch false) as St.
    destruct (stringmatchlen p ch false) as [[]|].
    + unfold mbind at 1, PM_bind at 1. rewrite preply_told by (apply (Hc c p); left).
      match goal with |- context [send_patterns l ch msg (n + 1) ?s1] => specialize (IH s1 (n + 1)) end.
      destruct (send_patterns _ _ _ _ _) as [[r s']|].
      * destruct IH as (A & -> & ->).
        { intros c' p' Hp. cbn. rewrite lookup_told. destruct (Hc c' p') as [cl ->]; [by right|by eexists]. }
        split; [constructor; [cbn; rewrite M; by eexists|done]|]. rewrite filter_cons_True by exact M.
        split; [cbn [length]; lia|]. unfold with_p_clients. cbn [p_clients server_channels server_patterns replicated]. f_equal. rewrite told_told. apply told_ext. intros c' _. rewrite patterns_of_cons.
        repeat case_decide; try congruence; [|done]. unfold pattern_frames. rewrite filter_cons_True by exact M. done.
      * destruct IH as (Sf & x & Hx & E); [|split; [done|]; exists x; split; [by right|done]].
        intros c' p' Hp. cbn. rewrite lookup_told. destruct (Hc c' p') as [cl ->]; [by right|by eexists].
    + assert (Hh : ~ hit p ch) by (unfold hit; by rewrite M). specialize (IH s n (fun c' p' H => Hc c' p' (list_elem_of_further _ _ _ H))). destruct (send_patterns _ _ _ _ _) as [[r s']|].
      * destruct IH as (A & -> & ->). split; [constructor; [cbn; rewrite M; by eexists|done]|]. rewrite filter_cons_False by exact Hh.
        split; [done|]. f_equal. apply told_ext. intros c' _. rewrite patterns_of_cons.
        case_decide; [|done]. unfold pattern_frames. by rewrite filter_cons_False by exact Hh.
      * destruct IH as (Sf & x & Hx & E). split; [done|]. exists x. split; [by right|done].
    + split; [done|]. exists (c, p). split; [left|done].
Qed.

(** *** Counting *)

Lemma total_insert f c cl m : m !! c = None -> total f (<[c := cl]> m) = (f cl + total f m)%nat.
Proof. intros H. unfold total. rewrite map_fold_insert_L; [done|intros; lia|done]. Qed.

Lemma total_ext f g m : (forall cl, f cl = g cl) -> total f m = total g m.
Proof. intros H. induction m as [|c cl m Hm IH] using map_ind; [done|]. rewrite !total_insert by done. by rewrite H, IH. Qed.

Lemma total_add f g m : total (fun cl => (f cl + g cl)%nat) m = (total f m + total g m)%nat.
Proof. induction m as [|c cl m H IH] using map_ind; [done|]. rewrite !total_insert by done. lia. Qed.

Lemma total_list (P : pclient -> Prop) `{forall cl, Decision (P cl)} m : forall l, NoDup l ->
  (forall c, c ∈ l <-> exists cl, m !! c = Some cl /\ P cl) -> length l = total (fun cl => if bool_decide (P cl) then 1 else 0)%nat m.
Proof.
  induction m as [|c cl m Hm IH] using map_ind; intros l Hl Hi.
  - destruct l as [|c l]; [done|]. destruct (Hi c) as [(cl & E & _) _]; [left|by rewrite lookup_empty in E].
  - rewrite total_insert, <- (IH (filter (fun x => x <> c) l)) by (done || by apply NoDup_filter || (intros c'; rewrite list_elem_of_filter, Hi;
      destruct (decide (c' = c)) as [->|N]; [rewrite lookup_insert_eq; naive_solver congruence|rewrite lookup_insert_ne by done; tauto])).
    assert (Hc : c ∈ l <-> P cl) by (rewrite Hi, lookup_insert_eq; naive_solver). case_bool_decide as D.
    + apply Hc in D. destruct (proj1 (elem_of_Permutation _ _) D) as [l' E]. pose proof Hl as Hl'. rewrite E in Hl'. apply NoDup_cons in Hl' as [Hn _].
      rewrite E. rewrite filter_cons_False by tauto. rewrite filter_keep by congruence. done.
    + rewrite filter_keep; [done|]. intros x Hx ->. tauto.
Qed.

Lemma filter_split {A} (Q P : A -> Prop) `{forall x, Decision (Q x), forall x, Decision (P x)} (l : list A) :
  length (filter Q l) = (length (filter Q (filter P l)) + length (filter Q (filter (fun x => ~ P x) l)))%nat.
Proof. rewrite <- (filter_app_complement P l) at 1. by rewrite filter_app, length_app. Qed.

Lemma length_filter_snd (Q : key -> Prop) `{forall p, Decision (Q p)} (l : list (Z * key)) :
  length (filter Q (snd <$> l)) = length (filter (fun x : Z * key => Q x.2) l).
Proof. induction l as [|x l IH]; [done|]. rewrite fmap_cons, !filter_cons. case_decide; cbn; by rewrite IH. Qed.

Lemma total_patterns (Q : key -> Prop) `{forall p, Decision (Q p)} m : forall l,
  (forall c cl, m !! c = Some cl -> patterns_of c l = pubsub_patterns cl) -> (forall c p, (c, p) ∈ l -> is_Some (m !! c)) ->
  length (filter (fun x : Z * key => Q x.2) l) = total (fun cl => length (filter Q (pubsub_patterns cl))) m.
Proof.
  induction m as [|c cl m Hm IH] using map_ind; intros l Hp Hc.
  - destruct l as [|[c p] l]; [done|]. destruct (Hc c p) as [? E]; [left|by rewrite lookup_empty in E].
  - rewrite total_insert by done. rewrite <- (Hp c cl (lookup_insert_eq _ _ _)), <- (IH (filter (fun x : Z * key => x.1 <> c) l)).
    + rewrite (filter_split _ (fun x : Z * key => x.1 = c)). f_equal. unfold patterns_of. by rewrite length_filter_snd.
    + intros c' cl' E. assert (c' <> c) by congruence. rewrite <- (Hp c' cl') by (by rewrite lookup_insert_ne). unfold patterns_of. f_equal.
      apply list_filter_filter_l. intros [c1 p1]. cbn. congruence.
    + intros c' p. rewrite list_elem_of_filter. cbn. intros [N E]. apply Hc in E. by rewrite lookup_insert_ne in E.
Qed.

Lemma of_channel_total s ch : pinv s -> length (of_channel (server_channels s) ch) =
  total (fun cl => if bool_decide (ch ∈ pubsub_channels cl) then 1 else 0)%nat (p_clients s).
Proof.
  intros [I J]. apply total_list; [apply I|]. intros c. rewrite (ci_iff _ _ I), lookup_fmap. destruct (p_clients s !! c); naive_solver.
Qed.

Lemma patterns_total s (Q : key -> Prop) `{forall p, Decision (Q p)} : pinv s ->
  length (filter (fun x : Z * key => Q x.2) (server_patterns s)) = total (fun cl => length (filter Q (pubsub_patterns cl))) (p_clients s).
Proof.
  intros [I J]. apply total_patterns.
  - intros c cl E. apply (pi_patterns _ _ J). by rewrite lookup_fmap, E.
  - intros c p E. apply (pi_connected _ _ J) in E as [ps E]. rewrite lookup_fmap in E. by destruct (p_clients s !! c).
Qed.

Lemma connected s c p : pinv s -> (c, p) ∈ server_patterns s -> exists cl, p_clients s !! c = Some cl /\ p ∈ pubsub_patterns cl.
Proof.
  intros [I J] H. destruct (pi_connected _ _ J c p H) as [ps E]. pose proof (pi_patterns _ _ J c ps E) as Hp. rewrite lookup_fmap in E.
  destruct (p_clients s !! c) as [cl|]; [|done]. injection E as <-. exists cl. split; [done|]. rewrite <- Hp. by apply elem_of_patterns.
Qed.

(** *** Publication *)

Lemma publish_told ch msg s : pinv s ->
  told (fun c => (if bool_decide (c ∈ of_channel (server_channels s) ch) then message_frame ch msg else []) ++
    pattern_frames ch msg (patterns_of c (server_patterns s))) (p_clients s) = s_publish ch msg (p_clients s).
Proof.
  intros [I J]. apply map_eq. intros c. unfold s_publish. rewrite lookup_told, lookup_fmap. destruct (p_clients s !! c) as [cl|] eqn:E; [|done]. cbn.
  unfold heard. do 3 f_equal.
  - rewrite (bool_decide_ext _ (ch ∈ pubsub_channels cl)); [done|]. apply (chan_here _ _ _ _ _ I). by rewrite lookup_fmap, E.
  - rewrite (pi_patterns _ _ J c (pubsub_patterns cl)); [done|]. by rewrite lookup_fmap, E.
Qed.

Lemma publish_ok ch msg s : pinv s ->
  match pubsubPublishMessage ch msg s with
  | Ret (n, s') => comparable ch (p_clients s) /\ n = Z.of_nat (total (hears ch) (p_clients s)) /\ pinv s' /\
      p_clients s' = s_publish ch msg (p_clients s) /\ replicated s' = replicated s
  | Fault f => stray f /\ ~ comparable ch (p_clients s)
  end.
Proof.
  intros I. unfold pubsubPublishMessage. unfold mbind at 1, PM_bind at 1. cbn [pget].
  assert (E : match server_channels s !! ch with Some clients => send_clients clients ch msg 0 | None => mret 0 end s =
    Ret (Z.of_nat (length (of_channel (server_channels s) ch)), with_p_clients (told (fun c => if bool_decide (c ∈ of_channel (server_channels s) ch)
      then message_frame ch msg else []) (p_clients s)) s)).
  { unfold of_channel. destruct (server_channels s !! ch) as [l|] eqn:El; cbn.
    - assert (L : of_channel (server_channels s) ch = l) by (unfold of_channel; by rewrite El). rewrite send_clients_ok; [done|..].
      + rewrite <- L. apply I.
      + rewrite <- L. intros c Hc. apply (ci_iff _ _ (proj1 I)) in Hc as (? & Hc & _). rewrite lookup_fmap in Hc. by destruct (p_clients s !! c).
    - by rewrite told_nothing, with_p_clients_same. }
  unfold mbind at 1, PM_bind at 1. rewrite E. unfold mbind at 1, PM_bind at 1. cbn [pget server_patterns with_p_clients].
  match goal with |- context [send_patterns ?l ch msg ?n ?s1] => pose proof (send_patterns_ok ch msg l s1 n) as H; destruct (send_patterns l ch msg n s1) as [[r s']|] end.
  - destruct H as (A & -> & ->).
    { intros c p Hp. cbn. rewrite lookup_told. destruct (connected s c p I Hp) as (cl & -> & _). by eexists. }
    split; [|split; [|split; [|split; [|done]]]].
    + intros c cl Hcl. apply Forall_forall. intros p Hp. rewrite Forall_forall in A. apply (A (c, p)). apply elem_of_patterns.
      by rewrite (pi_patterns _ _ (proj2 I) c (pubsub_patterns cl)) by (by rewrite lookup_fmap, Hcl).
    + pose proof (patterns_total s (fun p => hit p ch) I) as P. cbn beta in P. rewrite P, (of_channel_total s ch I), <- Nat2Z.inj_add, <- total_add. done.
    + apply (pinv_told _ (with_p_clients _ s)). by apply pinv_told.
    + cbn. rewrite told_told. by apply publish_told.
  - destruct H as (Sf & [c p] & Hp & Hm).
    { intros c p Hp. cbn. rewrite lookup_told. destruct (connected s c p I Hp) as (cl & -> & _). by eexists. }
    split; [done|]. destruct (connected s c p I Hp) as (cl & Hcl & Hin). intros Hcmp. specialize (Hcmp c cl Hcl). cbn in Hcmp. rewrite Forall_forall in Hcmp.
    apply Hcmp in Hin. cbn in Hm. rewrite Hm in Hin. by destruct Hin.
Qed.

