(* ===== verification/PubsubTheorems.v ===== *)
(** * PubsubTheorems: what Pub/Sub promises

    A message reaches the clients that listen to its channel, once for the
    channel and once for each pattern that matches, and no other; the server
    with its tables does what the specification over the clients alone does,
    for any sequence of requests; events of commands on keys are published
    to the channels of the key and of the event. *)

From S2P Require Import Prelude Util Glob Object Db ServerOk Abstract TString AString Keyspace AKeyspace Server ServerRefine.
From S2P Require Import Safety Session Pubsub PubsubProofs PubsubDeliver.

(** ** The specification of requests *)

#[export] Instance comparable_dec ch m : Decision (comparable ch m).
Proof. unfold comparable. apply _. Defined.

(** A message for the clients; nothing if a pattern cannot be compared. *)
Definition s_send (ch msg : list Z) (m : gmap Z pclient) : option (gmap Z pclient) :=
  if decide (comparable ch m) then Some (s_publish ch msg m) else None.

Definition s_notify (flags : Z) (e : notify_class * list Z * key * Z) (m : gmap Z pclient) : option (gmap Z pclient) :=
  let '(type, event, k, d) := e in
  if Z.land flags (class_flag type) =? 0 then Some m
  else
    m ← (if Z.land flags NOTIFY_KEYSPACE =? 0 then Some m else s_send (keyspace_channel k d) event m);
    (if Z.land flags NOTIFY_KEYEVENT =? 0 then Some m else s_send (keyevent_channel event d) k m).

Fixpoint s_notify_all (flags : Z) (l : list (notify_class * list Z * key * Z)) (m : gmap Z pclient) : option (gmap Z pclient) :=
  match l with
  | [] => Some m
  | e :: l => m ← s_notify flags e m; s_notify_all flags l m
  end.

(** The four commands that change the subscriptions of their client. *)
Definition s_command (order : gset key -> list key) (p : pproc) (argv : list key) (cl : pclient) : pclient :=
  match p with
  | subscribeProc => with_pubsub_flag true (foldl (fun cl ch => s_subscribe ch cl) cl (tail argv))
  | unsubscribeProc => s_leave (if bool_decide (length argv = 1%nat) then s_unsubscribe_all order true cl
                                else foldl (fun cl ch => s_unsubscribe true ch cl) cl (tail argv))
  | psubscribeProc => with_pubsub_flag true (foldl (fun cl p => s_psubscribe p cl) cl (tail argv))
  | punsubscribeProc => s_leave (if bool_decide (length argv = 1%nat) then s_punsubscribe_all true cl
                                 else foldl (fun cl p => s_punsubscribe true p cl) cl (tail argv))
  | publishProc | pubsubProc => cl
  end.

(** PUBSUB: the channels that have a client, and numbers. *)
Definition active (m : gmap Z pclient) : gset key := map_fold (fun _ cl s => pubsub_channels cl ∪ s) ∅ m.
Definition listeners (ch : key) (m : gmap Z pclient) : nat := total (fun cl => if bool_decide (ch ∈ pubsub_channels cl) then 1 else 0)%nat m.

Definition s_matching (pat : option key) (l : list key) : option (list key) :=
  match pat with
  | None => Some l
  | Some p => if decide (Forall (fun ch => is_Some (matches p ch)) l) then Some (filter (fun ch => hit p ch) l) else None
  end.

Definition s_pubsub (order : gset key -> list key) (argv : list key) (m : gmap Z pclient) : option (list Z) :=
  sub ← argv !! 1%nat;
  let argc := Z.of_nat (length argv) in
  if is_word "channels" sub && ((argc =? 2) || (argc =? 3)) then
    l ← s_matching (argv !! 2%nat) (order (active m)); Some (mbulkhdr (Z.of_nat (length l)) ++ concat (bulk <$> l))
  else if is_word "numsub" sub && (2 <=? argc) then
    Some (mbulkhdr ((argc - 2) * 2) ++ concat ((fun ch => bulk ch ++ integer (Z.of_nat (listeners ch m))) <$> drop 2 argv))
  else if is_word "numpat" sub && (argc =? 2) then Some (integer (Z.of_nat (total (fun cl => length (pubsub_patterns cl)) m)))
  else Some (error_line (no_newlines
    (bytes_of_string "Unknown PUBSUB subcommand or wrong number of arguments for '" ++ cstr sub ++ bytes_of_string "'"))).

(** The clients and the commands given to the slaves. *)
Definition s_run (order : gset key -> list key) (p : pproc) (c : Z) (argv : list key) (m : gmap Z pclient) :
    option (gmap Z pclient * list (list (list Z))) :=
  match p with
  | publishProc => ch ← argv !! 1%nat; msg ← argv !! 2%nat; m' ← s_send ch msg m;
      Some (alter (said (integer (Z.of_nat (total (hears ch) m)))) c m', [argv])
  | pubsubProc => r ← s_pubsub order argv m; Some (alter (said r) c m, [])
  | _ => Some (alter (s_command order p argv) c m, [])
  end.

Record sworld : Type := mk_sworld { s_srv : astate; s_clients : gmap Z pclient; s_replicated : list (list (list Z)) }.
Definition pabs (w : pworld) : sworld := mk_sworld (p_srv w) (p_clients (p_ps w)) (replicated (p_ps w)).

Definition option_of {A} (r : res A) : option A := match r with Ret a => Some a | Fault _ => None end.

Definition s_process (flags : Z) (order : gset key -> list key) (c : Z) (argv : list key) (w : sworld) : option sworld :=
  cl ← s_clients w !! c;
  let t := serve_client cl argv (s_srv w) in
  match plookup (default [] (head argv)) with
  | Some (cmd, p) =>
      match refuse cmd (Z.of_nat (length argv)) (set_pubsub_gate (CLIENT_PUBSUB cl && negb (in_context p)) (acf t)) with
      | Some err => Some (mk_sworld (s_srv w) (<[c := said err cl]> (s_clients w)) (s_replicated w))
      | None => '(m, r) ← s_run order p c argv (s_clients w); Some (mk_sworld (s_srv w) m (s_replicated w ++ r))
      end
  | None =>
      '(_, t') ← option_of (aprocessCommand specified_table t);
      m ← s_notify_all flags (reported t t') (<[c := with_p_db (acur t') (said (sent t t') cl)]> (s_clients w));
      Some (mk_sworld (end_command t') m (s_replicated w))
  end.

Definition s_handle (flags : Z) (e : pevent) (w : sworld) : option sworld :=
  match e with
  | PConnect c =>
      match s_clients w !! c with
      | None => Some (mk_sworld (s_srv w) (<[c := mk_pclient 0 ∅ [] false []]> (s_clients w)) (s_replicated w))
      | Some _ => None
      end
  | PRequest order c argv => s_process flags order c argv w
  | PDisconnect _ c =>
      match s_clients w !! c with
      | Some _ => Some (mk_sworld (s_srv w) (delete c (s_clients w)) (s_replicated w))
      | None => None
      end
  end.

(** ** The code follows the specification *)

Definition follows_spec {A} (s : pubsub) (r : res (A * pubsub)) (o : option (gmap Z pclient * list (list (list Z)))) : Prop :=
  match r, o with
  | Ret (_, s'), Some (m, rep) => pinv s' /\ p_clients s' = m /\ replicated s' = replicated s ++ rep
  | Fault f, None => stray f
  | _, _ => False
  end.

Lemma turns_follows {A} s c (m : PM A) a cl f : p_clients s !! c = Some cl -> turns s c m a (f cl) ->
  follows_spec s (m s) (Some (alter f c (p_clients s), [])).
Proof.
  intros H (s' & -> & I & C & R). split; [done|]. split; [|by rewrite app_nil_r]. rewrite C. apply map_eq. intros c'.
  destruct (decide (c' = c)) as [->|N]; [by rewrite lookup_insert_eq, lookup_alter_eq, H|by rewrite lookup_insert_ne, lookup_alter_ne].
Qed.

Lemma leave_ok s c cl : pinv s -> p_clients s !! c = Some cl -> turns s c (leave_pubsub c) tt (s_leave cl).
Proof.
  intros I H. apply (turns_get s c cl); [done|]. unfold s_leave. destruct (_ =? 0); [by apply (turns_set s c cl)|by apply turns_ret].
Qed.

Lemma flag_ok s c cl : pinv s -> p_clients s !! c = Some cl -> turns s c (cl ← get_pclient c; set_pclient c (with_pubsub_flag true cl)) tt (with_pubsub_flag true cl).
Proof. intros I H. apply (turns_get s c cl); [done|]. by apply (turns_set s c cl). Qed.

Lemma turns_drop {A} s c (m : PM A) a cl : turns s c m a cl -> turns s c (_ ← m; mret tt) tt cl.
Proof. intros H. eapply turns_bind; [exact H|]. intros s1 I1 H1. by apply turns_ret. Qed.

Lemma command_turns order p c argv s cl : iterates order -> pinv s -> p_clients s !! c = Some cl ->
  match p with publishProc | pubsubProc => False | _ => True end -> turns s c (run_pproc order p c argv) tt (s_command order p argv cl).
Proof.
  intros Ho I H Hp. destruct p; try done; cbn [run_pproc s_command].
  - eapply turns_bind; [by apply (each_arg_ok c _ _ _ ltac:(intros; by apply subscribe_ok))|]. intros s1 I1 H1. by apply flag_ok.
  - eapply turns_bind; [|intros s1 I1 H1; by apply leave_ok]. case_bool_decide; [eapply turns_drop; by apply unsubscribe_all_ok|].
    by apply (each_arg_ok c _ _ _ ltac:(intros; by apply unsubscribe_ok)).
  - eapply turns_bind; [by apply (each_arg_ok c _ _ _ ltac:(intros; by apply psubscribe_ok))|]. intros s1 I1 H1. by apply flag_ok.
  - eapply turns_bind; [|intros s1 I1 H1; by apply leave_ok]. case_bool_decide; [eapply turns_drop; by apply punsubscribe_all_ok|].
    by apply (each_arg_ok c _ _ _ ltac:(intros; by apply punsubscribe_ok)).
Qed.

(** *** PUBSUB *)

Lemma elem_of_active ch m : ch ∈ active m <-> exists c cl, m !! c = Some cl /\ ch ∈ pubsub_channels cl.
Proof.
  unfold active. induction m as [|c cl m H IH] using map_ind.
  - rewrite map_fold_empty. split; [set_solver|]. intros (c & cl & E & _). by rewrite lookup_empty in E.
  - rewrite map_fold_insert_L by (done || (intros; set_solver)). rewrite elem_of_union, IH. split.
    + intros [E|(c' & cl' & E & F)]; [exists c, cl; by rewrite lookup_insert_eq|]. exists c', cl'. rewrite lookup_insert_ne by congruence. done.
    + intros (c' & cl' & [[-> ->]|[N E]]%lookup_insert_Some & F); [by left|right; eauto].
Qed.

Lemma dom_active s : pinv s -> dom (server_channels s) = active (p_clients s).
Proof.
  intros [I J]. apply set_eq. intros ch. rewrite elem_of_dom, elem_of_active. transitivity (exists c, c ∈ of_channel (server_channels s) ch).
  - unfold of_channel. destruct (server_channels s !! ch) as [[|c l]|] eqn:E; [by apply I in E|..]; cbn.
    + split; [|by eexists]. intros _. exists c. left.
    + split; [by intros []|]. by intros [c ?%elem_of_nil].
  - setoid_rewrite (ci_iff _ _ I). setoid_rewrite lookup_fmap. split.
    + intros (c & X & E & F). destruct (p_clients s !! c) as [cl|] eqn:Ec; [|done]. injection E as <-. eauto.
    + intros (c & cl & E & F). exists c, (pubsub_channels cl). by rewrite E.
Qed.

Lemma matching_ok pat l s : match matching pat l s with
  | Ret (r, s') => s_matching pat l = Some r /\ s' = s
  | Fault f => stray f /\ s_matching pat l = None
  end.
Proof.
  induction l as [|ch l IH]; [destruct pat; [|done]; cbn; rewrite decide_True by constructor; done|]. cbn [matching]. destruct pat as [p|].
  - assert (M : matches p ch = match stringmatchlen p ch false with Ret b => Some b | Fault _ => None end) by done.
    unfold mbind at 1, PM_bind at 1, presult. cbn [s_matching] in *.
    pose proof (stringmatchlen_strays p ch false) as St. destruct (stringmatchlen p ch false) as [b|].
    + unfold mbind, PM_bind, mret, PM_ret. destruct (matching (Some p) l s) as [[r s']|].
      * destruct IH as [E ->]. destruct (decide (Forall _ l)) as [F|]; [|done]. injection E as <-.
        rewrite decide_True by (constructor; [rewrite M; by eexists|done]). split; [|done]. rewrite filter_cons.
        destruct b; [rewrite decide_True by exact M|rewrite decide_False by (unfold hit; by rewrite M)]; done.
      * destruct IH as [Sf IH]. split; [done|]. rewrite decide_False; [done|]. intros [_ F]%Forall_cons. by rewrite decide_True in IH.
    + split; [done|]. rewrite decide_False; [done|]. intros [F _]%Forall_cons. rewrite M in F. by destruct F.
  - unfold mbind, PM_bind, mret, PM_ret in *. cbn in *. destruct (matching None l s) as [[r s']|]; [|by destruct IH]. by destruct IH as [[= ->] ->].
Qed.

Lemma pubsub_ok order c argv s cl : pinv s -> p_clients s !! c = Some cl ->
  follows_spec s (pubsubCommand order c argv s) (s_run order pubsubProc c argv (p_clients s)).
Proof.
  intros I H. assert (R : forall r, follows_spec s (preply c r s) (Some (alter (said r) c (p_clients s), []))).
  { intros r. eapply turns_follows; [exact H|by apply turns_reply]. }
  unfold pubsubCommand, parg. cbn [s_run]. unfold s_pubsub. unfold mbind at 1, PM_bind at 1, presult, of_opt.
  destruct (argv !! 1%nat) as [sub|]; [|by left]. cbn [mbind option_bind]. destruct (_ && _).
  - unfold mbind at 1, PM_bind at 1. cbn [pget]. rewrite (dom_active s I). unfold mbind at 1, PM_bind at 1.
    pose proof (matching_ok (argv !! 2%nat) (order (active (p_clients s))) s) as M. destruct (matching _ _ _) as [[r s']|]; [|by destruct M as [? ->]].
    destruct M as [-> ->]. apply R.
  - destruct (_ && _); [|destruct (_ && _); [|apply R]]; unfold mbind at 1, PM_bind at 1; cbn [pget option_bind].
    + replace (concat ((fun ch => bulk ch ++ integer (Z.of_nat (listeners ch (p_clients s)))) <$> drop 2 argv))
        with (concat ((fun ch => bulk ch ++ integer (numsub (server_channels s) ch)) <$> drop 2 argv)); [apply R|].
      f_equal. apply list_fmap_ext. intros _ ch _. unfold numsub, listeners. by rewrite <- (of_channel_total s ch I).
    + pose proof (patterns_total s (fun _ => True) I) as P. cbn beta in P. rewrite filter_keep in P by done. rewrite P.
      rewrite (total_ext _ (fun cl => length (pubsub_patterns cl))); [apply R|]. intros cl'. by rewrite filter_keep.
Qed.

Lemma said_alter bs c (m : gmap Z pclient) cl : m !! c = Some cl -> <[c := said bs cl]> m = alter (said bs) c m.
Proof.
  intros H. apply map_eq. intros c'. destruct (decide (c' = c)) as [->|N]; [by rewrite lookup_insert_eq, lookup_alter_eq, H|by rewrite lookup_insert_ne, lookup_alter_ne].
Qed.

Lemma run_pproc_ok order p c argv s cl : iterates order -> pinv s -> p_clients s !! c = Some cl ->
  follows_spec s (run_pproc order p c argv s) (s_run order p c argv (p_clients s)).
Proof.
  intros Ho I H. destruct p.
  1-4: eapply turns_follows; [exact H|by apply command_turns].
  2: by eapply pubsub_ok.
  cbn [run_pproc s_run]. unfold publishCommand, parg, s_send. unfold mbind at 1, PM_bind at 1, presult, of_opt.
  destruct (argv !! 1%nat) as [ch|]; [|by left]. unfold mbind at 1, PM_bind at 1. destruct (argv !! 2%nat) as [msg|]; [|by left]. cbn [mbind option_bind].
  unfold mbind at 1, PM_bind at 1. pose proof (publish_ok ch msg s I) as P. destruct (pubsubPublishMessage ch msg s) as [[n s1]|].
  - destruct P as (C & -> & I1 & E1 & R1). rewrite decide_True by done. cbn [mbind option_bind]. unfold mbind at 1, PM_bind at 1. cbn [pset].
    assert (H1 : p_clients (add_replicated argv s1) !! c = Some (said (heard ch msg cl) cl)) by (cbn; by rewrite E1; unfold s_publish; rewrite lookup_fmap, H).
    destruct (turns_reply (add_replicated argv s1) c _ (integer (Z.of_nat (total (hears ch) (p_clients s)))) I1 H1) as (s2 & -> & I2 & C2 & R2).
    split; [done|]. split; [|rewrite R2; cbn; by rewrite R1]. rewrite C2, (said_alter _ _ _ _ H1). cbn. by rewrite E1.
  - destruct P as [Sf P]. by rewrite decide_False.
Qed.

(** *** Events *)

Lemma send_follows ch msg s : pinv s -> follows_spec s (pubsubPublishMessage ch msg s) (m ← s_send ch msg (p_clients s); Some (m, [])).
Proof.
  intros I. unfold s_send. pose proof (publish_ok ch msg s I) as P. destruct (pubsubPublishMessage ch msg s) as [[n s1]|].
  - destruct P as (C & _ & I1 & E1 & R1). rewrite decide_True by done. split; [done|]. by rewrite E1, R1, app_nil_r.
  - destruct P as [Sf P]. by rewrite decide_False.
Qed.

Definition quietly (o : option (gmap Z pclient)) : option (gmap Z pclient * list (list (list Z))) := m ← o; Some (m, []).

Lemma follows_seq {A B} s (m : PM A) (k : A -> PM B) o f : follows_spec s (m s) (quietly o) ->
  (forall a s', pinv s' -> follows_spec s' (k a s') (quietly (f (p_clients s')))) -> follows_spec s ((m ≫= k) s) (quietly (o ≫= f)).
Proof.
  intros H Hk. unfold mbind at 1, PM_bind. destruct (m s) as [[a s1]|]; destruct o as [cls|]; try done. destruct H as (I & <- & R). cbn in *.
  specialize (Hk a s1 I). destruct (k a s1) as [[b s2]|]; destruct (f (p_clients s1)); try done. destruct Hk as (I2 & E2 & R2). split; [done|].
  split; [done|]. by rewrite R2, R, app_nil_r.
Qed.

Lemma follows_same {A} s (a : A) : pinv s -> follows_spec s (@mret PM _ A a s) (quietly (Some (p_clients s))).
Proof. intros I. split; [done|]. by rewrite app_nil_r. Qed.

Lemma follows_drop {A} s (m : PM A) o : follows_spec s (m s) (quietly o) -> follows_spec s ((_ ← m; mret tt) s) (quietly o).
Proof. intros H. replace o with (o ≫= Some) by (by destruct o). eapply follows_seq; [exact H|]. intros a s' I. by apply follows_same. Qed.

Lemma notify_follows flags e s : pinv s -> follows_spec s (notifyEvent flags e s) (quietly (s_notify flags e (p_clients s))).
Proof.
  intros I. destruct e as [[[type event] k] d]. unfold notifyEvent, s_notify. destruct (_ =? 0); [by apply follows_same|].
  apply (follows_seq s _ _ _ (fun m => if Z.land flags NOTIFY_KEYEVENT =? 0 then Some m else s_send (keyevent_channel event d) k m)).
  - destruct (Z.land flags NOTIFY_KEYSPACE =? 0); [by apply follows_same|]. apply follows_drop. by apply send_follows.
  - intros _ s' I'. destruct (_ =? 0); [by apply follows_same|]. apply follows_drop. by apply send_follows.
Qed.

Lemma notify_all_follows flags l : forall s, pinv s -> follows_spec s (notify_all flags l s) (quietly (s_notify_all flags l (p_clients s))).
Proof.
  induction l as [|e l IH]; intros s I; [by apply follows_same|]. cbn [notify_all s_notify_all]. eapply follows_seq; [by apply notify_follows|].
  intros _ s' I'. by apply IH.
Qed.

(** ** Any sequence of events *)

(** The iterators of an event yield every key once. *)
Definition orderly (e : pevent) : Prop :=
  match e with PConnect _ => True | PRequest order _ _ => iterates order | PDisconnect order _ => iterates order end.

Fixpoint prun (es : list pevent) (w : pworld) : res pworld :=
  match es with
  | [] => Ret w
  | e :: es => w ← phandle e w; prun es w
  end.

Fixpoint s_runs (flags : Z) (es : list pevent) (w : sworld) : option sworld :=
  match es with
  | [] => Some w
  | e :: es => w ← s_handle flags e w; s_runs flags es w
  end.

(** No client is connected; [t] is the keyspace. *)
Definition pstart (t : astate) (flags : Z) : pworld := mk_pworld t (mk_pubsub ∅ ∅ [] []) flags.

Lemma pstart_ok t flags : pinv (p_ps (pstart t flags)).
Proof.
  split; cbn; rewrite fmap_empty; split; unfold of_channel; intros.
  - rewrite lookup_empty. constructor.
  - by rewrite lookup_empty.
  - rewrite lookup_empty. cbn. split; [by intros ?%elem_of_nil|]. by intros (? & E & _).
  - by rewrite lookup_empty in *.
  - by apply elem_of_nil in H.
  - by rewrite lookup_empty in *.
Qed.

Lemma connect_ok c s : pinv s -> match pcreateClient c s with
  | Ret (_, s') => p_clients s !! c = None /\ pinv s' /\ p_clients s' = <[c := mk_pclient 0 ∅ [] false []]> (p_clients s) /\ replicated s' = replicated s
  | Fault _ => is_Some (p_clients s !! c)
  end.
Proof.
  intros [I J]. unfold pcreateClient, mbind, PM_bind. cbn [pget]. destruct (p_clients s !! c) eqn:E; [by eexists|]. cbn. split; [done|]. split; [|done].
  split; cbn; rewrite fmap_insert; [apply chan_connect|apply pat_connect]; try done; by rewrite lookup_fmap, E.
Qed.

Lemma unsubscribe_all_none order cl : iterates order -> pubsub_channels (s_unsubscribe_all order false cl) = ∅ /\
  pubsub_patterns (s_unsubscribe_all order false cl) = pubsub_patterns cl.
Proof.
  intros Ho. unfold s_unsubscribe_all, s_all. cbn [andb]. destruct (fold_unsubscribe false (order (pubsub_channels cl)) cl) as (-> & -> & _). split; [|done].
  apply set_eq. intros x. rewrite elem_of_difference, elem_of_list_to_set, (Ho _), elem_of_elements. set_solver.
Qed.

Lemma punsubscribe_all_none cl : pubsub_patterns (s_punsubscribe_all false cl) = [] /\ pubsub_channels (s_punsubscribe_all false cl) = pubsub_channels cl.
Proof.
  unfold s_punsubscribe_all, s_all. cbn [andb]. destruct (fold_punsubscribe false (pubsub_patterns cl) cl) as (-> & -> & _). split; [|done].
  destruct (filter _ _) as [|p l] eqn:E; [done|]. assert (H : p ∈ p :: l) by left. rewrite <- E in H. apply list_elem_of_filter in H. tauto.
Qed.

Lemma disconnect_ok order c s : iterates order -> pinv s -> match pfreeClient order c s with
  | Ret (_, s') => is_Some (p_clients s !! c) /\ pinv s' /\ p_clients s' = delete c (p_clients s) /\ replicated s' = replicated s
  | Fault _ => p_clients s !! c = None
  end.
Proof.
  intros Ho I. unfold pfreeClient. destruct (p_clients s !! c) as [cl|] eqn:E.
  2: { unfold mbind at 1, PM_bind at 1, pubsubUnsubscribeAllChannels. unfold mbind at 1, PM_bind at 1, get_pclient. by rewrite E. }
  unfold mbind at 1, PM_bind at 1. destruct (unsubscribe_all_ok order s c cl false Ho I E) as (s1 & -> & I1 & C1 & R1).
  unfold mbind at 1, PM_bind at 1. assert (E1 : p_clients s1 !! c = Some (s_unsubscribe_all order false cl)) by (rewrite C1; apply lookup_insert_eq).
  destruct (punsubscribe_all_ok s1 c _ false I1 E1) as (s2 & -> & I2 & C2 & R2). cbn [pset]. split; [by eexists|].
  destruct (unsubscribe_all_none order cl Ho) as [N1 N2]. destruct (punsubscribe_all_none (s_unsubscribe_all order false cl)) as [N3 N4].
  assert (E2 : p_clients s2 !! c = Some (s_punsubscribe_all false (s_unsubscribe_all order false cl))) by (rewrite C2; apply lookup_insert_eq).
  split; [|split; [cbn; by rewrite C2, C1, !delete_insert_eq|cbn; congruence]].
  destruct I2 as [I2 J2]. split; cbn; rewrite fmap_delete; [apply chan_leave|apply pat_leave]; try done; rewrite lookup_fmap, E2; unfold fmap, option_fmap, option_map; congruence.
Qed.

Lemma process_ok order c argv w : iterates order -> pinv (p_ps w) -> match pprocessCommand order c argv w with
  | Ret (_, w') => pinv (p_ps w') /\ notify_keyspace_events w' = notify_keyspace_events w /\
      s_process (notify_keyspace_events w) order c argv (pabs w) = Some (pabs w')
  | Fault _ => s_process (notify_keyspace_events w) order c argv (pabs w) = None
  end.
Proof.
  intros Ho I. unfold pprocessCommand, s_process, pabs. cbn [s_clients s_srv s_replicated]. unfold mbind at 1, res_bind at 1, get_pclient.
  destruct (p_clients (p_ps w) !! c) as [cl|] eqn:E; [|done]. cbn [mbind option_bind]. destruct (plookup _) as [[cmd p]|].
  - destruct (refuse _ _ _) as [err|]; unfold mbind at 1, res_bind at 1.
    + destruct (turns_reply (p_ps w) c cl err I E) as (s' & -> & I' & C' & R'). split; [done|]. split; [done|]. cbn. by rewrite C', R'.
    + pose proof (run_pproc_ok order p c argv (p_ps w) cl Ho I E) as H. destruct (run_pproc _ _ _ _ _) as [[u s']|]; destruct (s_run _ _ _ _ _) as [[m r]|]; try done.
      destruct H as (I' & <- & R'). split; [done|]. split; [done|]. cbn. by rewrite R'.
  - unfold mbind at 1, res_bind at 1. destruct (aprocessCommand _ _) as [[o t']|]; [|done]. cbn [option_of mbind option_bind]. unfold mbind at 1, res_bind at 1.
    set (cl' := with_p_db _ _). destruct (turns_set (p_ps w) c cl cl' I E ltac:(done)) as (s' & -> & I' & C' & R').
    unfold mbind at 1, res_bind at 1. rewrite <- C'. match goal with |- context [notify_all ?f ?l s'] => pose proof (notify_all_follows f l s' I') as H; destruct (notify_all f l s') as [[u s2]|] end;
      (destruct (s_notify_all _ _ _) as [m|]; [|done]); try done. destruct H as (I2 & <- & R2). split; [done|]. split; [done|]. cbn. by rewrite R2, R', app_nil_r.
Qed.

Lemma handle_ok e w : orderly e -> pinv (p_ps w) -> match phandle e w with
  | Ret w' => pinv (p_ps w') /\ notify_keyspace_events w' = notify_keyspace_events w /\ s_handle (notify_keyspace_events w) e (pabs w) = Some (pabs w')
  | Fault _ => s_handle (notify_keyspace_events w) e (pabs w) = None
  end.
Proof.
  intros Ho I. destruct e as [c|order c argv|order c]; cbn [phandle s_handle]; unfold mbind, res_bind.
  - pose proof (connect_ok c (p_ps w) I) as H. destruct (pcreateClient c (p_ps w)) as [[u s']|]; cbn [pabs s_clients].
    + destruct H as (E & I' & C' & R'). rewrite E. split; [done|]. split; [done|]. unfold pabs. cbn. by rewrite C', R'.
    + by destruct H as [? ->].
  - pose proof (process_ok order c argv w Ho I) as H. by destruct (pprocessCommand order c argv w) as [[o w']|].
  - pose proof (disconnect_ok order c (p_ps w) Ho I) as H. destruct (pfreeClient order c (p_ps w)) as [[u s']|]; cbn [pabs s_clients].
    + destruct H as ([cl E] & I' & C' & R'). rewrite E. split; [done|]. split; [done|]. unfold pabs. cbn. by rewrite C', R'.
    + by rewrite H.
Qed.

Lemma prun_ok es : forall w, Forall orderly es -> pinv (p_ps w) -> match prun es w with
  | Ret w' => pinv (p_ps w') /\ notify_keyspace_events w' = notify_keyspace_events w /\ s_runs (notify_keyspace_events w) es (pabs w) = Some (pabs w')
  | Fault _ => s_runs (notify_keyspace_events w) es (pabs w) = None
  end.
Proof.
  induction es as [|e es IH]; intros w Ho I; [done|]. apply Forall_cons in Ho as [He Ho]. cbn [prun s_runs]. unfold mbind at 1, res_bind at 1.
  pose proof (handle_ok e w He I) as H. destruct (phandle e w) as [w1|]; [|by rewrite H]. destruct H as (I1 & F1 & ->). cbn [mbind option_bind].
  specialize (IH w1 Ho I1). rewrite F1 in IH. exact IH.
Qed.

(** *** The context of Pub/Sub *)

Definition flagged (cl : pclient) : Prop := CLIENT_PUBSUB cl = bool_decide (clientSubscriptionsCount cl <> 0).
Definition all_flagged (m : gmap Z pclient) : Prop := map_Forall (fun _ => flagged) m.

Lemma size_zero (s : gset key) : size s = 0%nat <-> s = ∅.
Proof. rewrite size_empty_iff. apply leibniz_equiv_iff. Qed.

Lemma count_zero cl : clientSubscriptionsCount cl = 0 <-> pubsub_channels cl = ∅ /\ pubsub_patterns cl = [].
Proof.
  unfold clientSubscriptionsCount. rewrite <- size_zero, <- length_zero_iff_nil. lia.
Qed.

Lemma all_flagged_alter f c m : all_flagged m -> (forall cl, m !! c = Some cl -> flagged cl -> flagged (f cl)) -> all_flagged (alter f c m).
Proof.
  intros H Hf c' cl. rewrite lookup_alter_Some. intros [(<- & x & E & ->)|[N E]]; [apply Hf; [done|]|]; by apply (H _ _ E).
Qed.

Lemma all_flagged_said bs c m : all_flagged m -> all_flagged (alter (said bs) c m).
Proof. intros H. by apply all_flagged_alter. Qed.

Lemma all_flagged_publish ch msg m : all_flagged m -> all_flagged (s_publish ch msg m).
Proof. intros H c cl. unfold s_publish. rewrite lookup_fmap_Some. intros (x & <- & E). exact (H _ _ E). Qed.

Lemma all_flagged_send ch msg m m' : s_send ch msg m = Some m' -> all_flagged m -> all_flagged m'.
Proof. unfold s_send. case_decide; [|done]. intros [= <-]. apply all_flagged_publish. Qed.

Lemma all_flagged_notify flags e m m' : s_notify flags e m = Some m' -> all_flagged m -> all_flagged m'.
Proof.
  destruct e as [[[type event] k] d]. unfold s_notify. destruct (_ =? 0); [by intros [= <-]|]. intros (m1 & H1 & H2)%bind_Some H.
  assert (all_flagged m1) by (destruct (Z.land flags NOTIFY_KEYSPACE =? 0); [by injection H1 as <-|by eapply all_flagged_send]).
  destruct (Z.land flags NOTIFY_KEYEVENT =? 0); [by injection H2 as <-|by eapply all_flagged_send].
Qed.

Lemma all_flagged_notify_all flags l : forall m m', s_notify_all flags l m = Some m' -> all_flagged m -> all_flagged m'.
Proof.
  induction l as [|e l IH]; intros m m'; [by intros [= <-]|]. cbn [s_notify_all]. intros (m1 & H1 & H2)%bind_Some H. eapply IH; [exact H2|]. by eapply all_flagged_notify.
Qed.

Lemma flagged_leave cl cl' : flagged cl -> CLIENT_PUBSUB cl' = CLIENT_PUBSUB cl -> (clientSubscriptionsCount cl = 0 -> clientSubscriptionsCount cl' = 0) ->
  flagged (s_leave cl').
Proof.
  unfold flagged, s_leave. intros H E Hz. destruct (Z.eqb_spec (clientSubscriptionsCount cl') 0) as [E0|E0].
  - change (clientSubscriptionsCount (with_pubsub_flag false cl')) with (clientSubscriptionsCount cl'). rewrite E0. done.
  - rewrite E, H, !bool_decide_eq_true_2; tauto.
Qed.

Lemma fold_subscribe l : forall cl, pubsub_channels (foldl (fun cl ch => s_subscribe ch cl) cl l) = list_to_set l ∪ pubsub_channels cl.
Proof. induction l as [|x l IH]; intros cl; cbn [foldl list_to_set]; [set_solver|]. rewrite IH. cbn. set_solver. Qed.

Lemma fold_psubscribe l : forall cl x, x ∈ l \/ x ∈ pubsub_patterns cl -> x ∈ pubsub_patterns (foldl (fun cl p => s_psubscribe p cl) cl l).
Proof.
  induction l as [|y l IH]; intros cl x; cbn [foldl]; [by intros [?%elem_of_nil|?]|]. intros H. apply IH. rewrite elem_of_cons in H.
  unfold s_psubscribe. cbn. case_bool_decide; rewrite ?elem_of_app, ?list_elem_of_singleton; destruct H as [[->|?]|?]; auto.
Qed.

Lemma flagged_on cl : clientSubscriptionsCount cl <> 0 -> flagged (with_pubsub_flag true cl).
Proof. intros H. unfold flagged. cbn. symmetry. by apply bool_decide_eq_true_2. Qed.

Lemma flagged_command order p argv cl : flagged cl -> match p with subscribeProc | psubscribeProc => tail argv <> [] | publishProc | pubsubProc => False | _ => True end ->
  flagged (s_command order p argv cl).
Proof.
  intros H Hp. destruct p; cbn [s_command]; [| | | |done..].
  - destruct (tail argv) as [|x l]; [done|]. apply flagged_on. rewrite count_zero, fold_subscribe. cbn [list_to_set]. set_solver.
  - apply (flagged_leave cl); [done|..]; case_bool_decide; unfold s_unsubscribe_all, s_all;
      match goal with |- context [foldl _ cl ?l] => destruct (fold_unsubscribe true l cl) as (E1 & E2 & E3) end.
    1, 2: (by destruct (_ && _)) || done.
    all: rewrite !count_zero; intros [Z1 Z2]; try destruct (_ && _); cbn [said pubsub_channels pubsub_patterns]; rewrite E1, E2, Z1, Z2; set_solver.
  - destruct (tail argv) as [|x l]; [done|]. apply flagged_on. rewrite count_zero. intros [_ E]. assert (F : x ∈ @nil key); [|by apply elem_of_nil in F].
    rewrite <- E. apply fold_psubscribe. left. left.
  - apply (flagged_leave cl); [done|..]; case_bool_decide; unfold s_punsubscribe_all, s_all;
      match goal with |- context [foldl _ cl ?l] => destruct (fold_punsubscribe true l cl) as (E1 & E2 & E3) end.
    1, 2: (by destruct (_ && _)) || done.
    all: rewrite !count_zero; intros [Z1 Z2]; try destruct (_ && _); cbn [said pubsub_channels pubsub_patterns]; rewrite E1, E2, Z1, Z2; done.
Qed.

Lemma run_flagged order p c argv m m' r : s_run order p c argv m = Some (m', r) -> all_flagged m ->
  match p with subscribeProc | psubscribeProc => tail argv <> [] | _ => True end -> all_flagged m'.
Proof.
  intros E H Hp. destruct p; cbn [s_run] in E.
  1-4: injection E as <- <-; apply all_flagged_alter; [done|]; intros cl _ Hcl; by apply flagged_command.
  - apply bind_Some in E as (ch & _ & E). apply bind_Some in E as (msg & _ & E). apply bind_Some in E as (m1 & E1 & [= <- <-]). apply all_flagged_said.
    by eapply all_flagged_send.
  - apply bind_Some in E as (x & _ & [= <- <-]). by apply all_flagged_said.
Qed.

Lemma plookup_arity n cmd p : plookup n = Some (cmd, p) -> match p with subscribeProc | psubscribeProc => arity cmd = -2 | _ => True end.
Proof.
  unfold plookup. destruct (list_find _ _) as [[i x]|] eqn:E; [|done]. intros [= ->]. apply list_find_Some in E as (H & _).
  repeat (destruct i as [|i]; [by injection H as <- <-|cbn in H]). done.
Qed.

Lemma process_flagged flags order c argv w w' : s_process flags order c argv w = Some w' -> all_flagged (s_clients w) -> all_flagged (s_clients w').
Proof.
  unfold s_process. intros (cl & Hcl & E)%bind_Some H. destruct (plookup _) as [[cmd p]|] eqn:Ep.
  - destruct (refuse _ _ _) as [err|] eqn:Er.
    + injection E as <-. cbn. rewrite (said_alter _ _ _ _ Hcl). by apply all_flagged_said.
    + apply bind_Some in E as ([m r] & E & [= <-]). cbn. eapply run_flagged; [exact E|done|]. apply plookup_arity in Ep. apply refuse_arity in Er.
      destruct p; try done; intros Et; rewrite Ep in Er; destruct argv as [|x [|y l]]; done.
  - apply bind_Some in E as ([o t'] & _ & E). apply bind_Some in E as (m & E & [= <-]). cbn. eapply all_flagged_notify_all; [exact E|].
    apply map_Forall_insert_2; [exact (H c cl Hcl)|done].
Qed.

Lemma handle_flagged flags e w w' : s_handle flags e w = Some w' -> all_flagged (s_clients w) -> all_flagged (s_clients w').
Proof.
  destruct e as [c|order c argv|order c]; cbn [s_handle].
  - destruct (s_clients w !! c); [done|]. intros [= <-] H. by apply map_Forall_insert_2.
  - apply process_flagged.
  - destruct (s_clients w !! c); [|done]. intros [= <-] H. by apply map_Forall_delete.
Qed.

(** *** Databases *)

(** [L] databases, and each client has selected one of them. *)
Definition placed (L : Z) (w : sworld) : Prop :=
  Z.of_nat (length (adbs (s_srv w))) = L /\ map_Forall (fun _ cl => 0 <= p_db cl < L) (s_clients w).

Lemma dbs_publish ch msg m m' : s_send ch msg m = Some m' -> p_db <$> m' = p_db <$> m.
Proof.
  unfold s_send. case_decide; [|done]. intros [= <-]. apply map_eq. intros c. unfold s_publish. rewrite !lookup_fmap. by destruct (m !! c).
Qed.

Lemma dbs_notify flags e m m' : s_notify flags e m = Some m' -> p_db <$> m' = p_db <$> m.
Proof.
  destruct e as [[[type event] k] d]. unfold s_notify. destruct (_ =? 0); [by intros [= <-]|]. intros (m1 & H1 & H2)%bind_Some.
  transitivity (p_db <$> m1); [destruct (Z.land flags NOTIFY_KEYEVENT =? 0)|destruct (Z.land flags NOTIFY_KEYSPACE =? 0)]; simplify_eq; done || by eapply dbs_publish.
Qed.

Lemma dbs_notify_all flags l : forall m m', s_notify_all flags l m = Some m' -> p_db <$> m' = p_db <$> m.
Proof.
  induction l as [|e l IH]; intros m m'; [by intros [= <-]|]. cbn [s_notify_all]. intros (m1 & H1 & H2)%bind_Some.
  rewrite (IH _ _ H2). by eapply dbs_notify.
Qed.

Lemma db_fold (f : key -> pclient -> pclient) l : (forall x cl, p_db (f x cl) = p_db cl) -> forall cl, p_db (foldl (fun cl x => f x cl) cl l) = p_db cl.
Proof. intros H. induction l as [|x l IH]; intros cl; [done|]. cbn. by rewrite IH. Qed.

Lemma db_all kind f l notify cl : (forall x cl, p_db (f x cl) = p_db cl) -> p_db (s_all kind f l notify cl) = p_db cl.
Proof. intros H. unfold s_all. destruct (_ && _); cbn; by apply db_fold. Qed.

Lemma db_leave cl : p_db (s_leave cl) = p_db cl.
Proof. unfold s_leave. by destruct (_ =? 0). Qed.

Lemma db_command order p argv cl : p_db (s_command order p argv cl) = p_db cl.
Proof.
  destruct p; cbn [s_command]; rewrite ?db_leave; try case_bool_decide; try done; cbn [with_pubsub_flag p_db];
    first [by apply db_fold | by apply db_all].
Qed.

Lemma placed_dbs L (m m' : gmap Z pclient) : p_db <$> m' = p_db <$> m -> map_Forall (fun _ cl => 0 <= p_db cl < L) m -> map_Forall (fun _ cl => 0 <= p_db cl < L) m'.
Proof.
  intros E H c cl' E'. assert (F : (p_db <$> m) !! c = Some (p_db cl')) by (by rewrite <- E, lookup_fmap, E'). rewrite lookup_fmap in F.
  destruct (m !! c) as [cl|] eqn:Ec; [|done]. injection F as <-. exact (H c cl Ec).
Qed.

Lemma alter_dbs f c (m : gmap Z pclient) : (forall cl, p_db (f cl) = p_db cl) -> p_db <$> alter f c m = p_db <$> m.
Proof.
  intros H. apply map_eq. intros c'. rewrite !lookup_fmap. destruct (decide (c' = c)) as [->|N]; [|by rewrite lookup_alter_ne].
  rewrite lookup_alter_eq. destruct (m !! c); [|done]. cbn. by rewrite H.
Qed.

Lemma run_dbs order p c argv m m' r : s_run order p c argv m = Some (m', r) -> p_db <$> m' = p_db <$> m.
Proof.
  destruct p; cbn [s_run]; intros E.
  1-4: injection E as <- <-; apply alter_dbs; intros; apply db_command.
  - apply bind_Some in E as (ch & _ & E). apply bind_Some in E as (msg & _ & E). apply bind_Some in E as (m1 & E1 & [= <- <-]).
    rewrite alter_dbs by done. by eapply dbs_publish.
  - apply bind_Some in E as (x & _ & [= <- <-]). by apply alter_dbs.
Qed.

Lemma serve_ok L w c cl argv : placed L w -> s_clients w !! c = Some cl -> aok L (length argv) (serve_client cl argv (s_srv w)).
Proof. intros [E H] Hcl. split; [done|]. split; [exact (H c cl Hcl)|done]. Qed.

Lemma process_placed L flags order c argv w w' : argv <> [] -> s_process flags order c argv w = Some w' -> placed L w -> placed L w'.
Proof.
  intros Hne. unfold s_process. intros (cl & Hcl & E)%bind_Some H. pose proof (serve_ok L w c cl argv H Hcl) as Ht. destruct H as [HL H].
  destruct (plookup _) as [[cmd p]|].
  - destruct (refuse _ _ _) as [err|].
    + injection E as <-. split; [done|]. cbn. rewrite (said_alter _ _ _ _ Hcl). eapply placed_dbs; [by apply alter_dbs|done].
    + apply bind_Some in E as ([m r] & E & [= <-]). split; [done|]. cbn. eapply placed_dbs; [by eapply run_dbs|done].
  - apply bind_Some in E as ([o t'] & Et & E). apply bind_Some in E as (m & E & [= <-]).
    pose proof (aprocess_fit L _ _ Ht ltac:(destruct argv; [done|cbn; lia])) as F. destruct (aprocessCommand _ _) as [[o1 t1]|]; [|done].
    injection Et as -> ->. destruct F as (N' & F1 & F2 & _). split; [done|]. cbn. eapply placed_dbs; [by eapply dbs_notify_all|].
    by apply map_Forall_insert_2.
Qed.

(** An event that the program can see. *)
Definition sound (e : pevent) : Prop := orderly e /\ match e with PRequest _ _ argv => argv <> [] | _ => True end.

Definition pworld_ok (L : Z) (w : pworld) : Prop := pinv (p_ps w) /\ all_flagged (p_clients (p_ps w)) /\ placed L (pabs w).

Lemma handle_placed L flags e w w' : sound e -> 0 < L -> s_handle flags e w = Some w' -> placed L w -> placed L w'.
Proof.
  intros [_ He] HL. destruct e as [c|order c argv|order c]; cbn [s_handle].
  - destruct (s_clients w !! c); [done|]. intros [= <-] [H1 H2]. split; [done|]. apply map_Forall_insert_2; [cbn; lia|done].
  - by apply process_placed.
  - destruct (s_clients w !! c); [|done]. intros [= <-] [H1 H2]. split; [done|]. by apply map_Forall_delete.
Qed.

Lemma handle_world_ok L e w w' : sound e -> 0 < L -> pworld_ok L w -> phandle e w = Ret w' -> pworld_ok L w'.
Proof.
  intros He HL (I & F & P) E. pose proof (handle_ok e w (proj1 He) I) as H. rewrite E in H. destruct H as (I' & _ & H). split; [done|].
  split; [by apply (handle_flagged _ _ _ _ H)|by apply (handle_placed L _ _ _ _ He HL H)].
Qed.

Lemma prun_world_ok L es : forall w w', Forall sound es -> 0 < L -> pworld_ok L w -> prun es w = Ret w' -> pworld_ok L w'.
Proof.
  induction es as [|e es IH]; intros w w' Hs HL H E; [by injection E as <-|]. apply Forall_cons in Hs as [He Hs]. cbn [prun] in E.
  unfold mbind, res_bind in E. destruct (phandle e w) as [w1|] eqn:E1; [|done]. eapply IH; [done|done| |exact E]. by eapply handle_world_ok.
Qed.

Lemma pstart_world_ok t flags : pworld_ok (Z.of_nat (length (adbs t))) (pstart t flags).
Proof. split; [apply pstart_ok|]. split; [apply map_Forall_empty|]. split; [done|apply map_Forall_empty]. Qed.

Lemma process_faults L order c argv w : iterates order -> argv <> [] -> pworld_ok L w -> is_Some (p_clients (p_ps w) !! c) ->
  match pprocessCommand order c argv w with Ret _ => True | Fault f => soft f \/ stray f end.
Proof.
  intros Ho Hne (I & F & P) [cl Hcl]. unfold pprocessCommand, mbind at 1, res_bind at 1, get_pclient. rewrite Hcl. destruct (plookup _) as [[cmd p]|].
  - destruct (refuse _ _ _) as [err|]; unfold mbind at 1, res_bind at 1.
    + by destruct (turns_reply (p_ps w) c cl err I Hcl) as (s' & -> & _).
    + pose proof (run_pproc_ok order p c argv (p_ps w) cl Ho I Hcl) as H. destruct (run_pproc _ _ _ _ _) as [[u s']|]; [done|].
      right. by destruct (s_run _ _ _ _ _) as [[]|].
  - pose proof (aprocess_fit L _ _ (serve_ok L (pabs w) c cl argv P Hcl) ltac:(destruct argv; [done|cbn; lia])) as Ha. cbn [pabs s_srv] in Ha.
    unfold mbind at 1, res_bind at 1. destruct (aprocessCommand _ _) as [[o t']|f]; [|by left]. unfold mbind at 1, res_bind at 1.
    set (cl' := with_p_db _ _). destruct (turns_set (p_ps w) c cl cl' I Hcl ltac:(done)) as (s' & -> & I' & _). unfold mbind at 1, res_bind at 1.
    match goal with |- context [notify_all ?f ?l s'] => pose proof (notify_all_follows f l s' I') as H; destruct (notify_all f l s') as [[u s2]|] end; [done|].
    right. unfold quietly in H. by destruct (s_notify_all _ _ _).
Qed.

(** ** Theorems *)

(** C13: Refinement.  For any sequence of clients that connect, send requests
    (of Pub/Sub or on keys) and disconnect, and any orders in which the hash
    tables are iterated: the server, which finds the receivers of a message
    in its table of channels and its list of patterns, ends with the same
    data, the same replies to every client and the same commands for the
    slaves as the specification, in which there are no such tables and a
    message goes to each client by what this client is subscribed to; and it
    faults exactly where the specification is undefined, which is where a
    command on keys faults or a pattern cannot be compared with a channel. *)
Theorem pubsub_refines t flags es : Forall orderly es ->
  pabs <$> option_of (prun es (pstart t flags)) = s_runs flags es (mk_sworld t ∅ []).
Proof.
  intros Ho. pose proof (prun_ok es (pstart t flags) Ho (pstart_ok t flags)) as H. change (pabs (pstart t flags)) with (mk_sworld t ∅ []) in H.
  destruct (prun es (pstart t flags)) as [w|]; cbn in *; [destruct H as (_ & _ & ->)|rewrite H]; done.
Qed.

(** C14: In every reachable state the tables of Pub/Sub agree with the clients:
    a client is once in the list of a channel if it is subscribed to it and
    not otherwise, no list is empty, the list of all patterns has for each
    client its patterns, each once and in its order, and only those of
    connected clients; a client is in the context of Pub/Sub (CLIENT_PUBSUB)
    just when it has a subscription.  A request then never fails an
    assertion or follows a dangling pointer: it returns, or a command on keys
    overflows or runs out of memory, or the comparison of a pattern leaves
    its buffer or does not stop. *)
Theorem pubsub_invariant t flags es w : adbs t <> [] -> Forall sound es -> prun es (pstart t flags) = Ret w ->
  let s := p_ps w in
  (forall ch, server_channels s !! ch <> Some [] /\ NoDup (of_channel (server_channels s) ch) /\
     forall c, c ∈ of_channel (server_channels s) ch <-> exists cl, p_clients s !! c = Some cl /\ ch ∈ pubsub_channels cl) /\
  (forall c p, (c, p) ∈ server_patterns s -> is_Some (p_clients s !! c)) /\
  (forall c cl, p_clients s !! c = Some cl -> patterns_of c (server_patterns s) = pubsub_patterns cl /\ NoDup (pubsub_patterns cl) /\
     (CLIENT_PUBSUB cl = true <-> pubsub_channels cl <> ∅ \/ pubsub_patterns cl <> [])) /\
  (forall order c argv, iterates order -> argv <> [] -> is_Some (p_clients s !! c) ->
     match pprocessCommand order c argv w with Ret _ => True | Fault f => soft f \/ stray f end).
Proof.
  intros Hne Hs E. assert (HL : 0 < Z.of_nat (length (adbs t))) by (destruct (adbs t); cbn; [done|lia]).
  pose proof (prun_world_ok _ es _ w Hs HL (pstart_world_ok t flags) E) as (I & F & P). cbn zeta. split_and!.
  - intros ch. split; [apply I|]. split; [apply I|]. intros c. rewrite (ci_iff _ _ (proj1 I)), lookup_fmap. destruct (p_clients (p_ps w) !! c); naive_solver.
  - intros c p H. by destruct (connected _ c p I H) as (cl & -> & _).
  - intros c cl H. assert (H' : (pubsub_patterns <$> p_clients (p_ps w)) !! c = Some (pubsub_patterns cl)) by (by rewrite lookup_fmap, H).
    split; [by apply (pi_patterns _ _ (proj2 I))|]. split; [by apply (pi_once _ _ (proj2 I) c)|]. rewrite (F c cl H), bool_decide_eq_true, count_zero.
    split; [|tauto]. intros Hn. destruct (decide (pubsub_channels cl = ∅)); [right|by left]. tauto.
  - intros order c argv Ho Ha Hc. by apply (process_faults (Z.of_nat (length (adbs t)))).
Qed.

(** *** Delivery of a message *)

(** A pattern that the matcher compares with any name that is not empty. *)
Definition plain_pattern (p : key) : Prop := bytes_ok p /\ Forall (fun c => c <> 92) p.

Lemma comparable_plain ch m : ch <> [] -> map_Forall (fun _ cl => Forall plain_pattern (pubsub_patterns cl)) m -> comparable ch m.
Proof.
  intros Hne H c cl E. specialize (H c cl E). eapply Forall_impl; [exact H|]. intros p [Hb H92]. unfold matches.
  destruct (stringmatchlen_safe p ch false Hb H92 Hne) as [b ->]. by eexists.
Qed.

Lemma hit_glob p ch : ch <> [] -> bytes_ok p -> Forall (fun c => c <> 91) p -> hit p ch <-> glob false (gparse p) ch.
Proof.
  intros Hne Hb H91. destruct (match_rec_ok false (S (length p)) [] p [] ch) as (b & E & Hb'); [by split|by left|lia|].
  unfold hit, matches. rewrite (E : stringmatchlen p ch false = Ret b), <- Hb'. split; [by intros [= ->]|by intros ->].
Qed.

Definition PUBLISH (ch msg : list Z) : list key := [bytes_of_string "PUBLISH"; ch; msg].

Lemma no_subscription cl ch msg : flagged cl -> CLIENT_PUBSUB cl = false -> heard ch msg cl = [].
Proof.
  unfold flagged. intros -> H. apply bool_decide_eq_false in H. apply dec_stable in H. apply count_zero in H as [E1 E2]. unfold heard. rewrite E1, E2.
  by rewrite bool_decide_eq_false_2.
Qed.

Lemma pubsub_outcome order c argv w o w' e : plookup (default [] (head argv)) = Some e -> pprocessCommand order c argv w = Ret (o, w') -> o = C_OK.
Proof.
  intros Hl. unfold pprocessCommand, mbind, res_bind. destruct (get_pclient c (p_ps w)) as [[cl s]|]; [|done]. rewrite Hl. destruct e as [cmd p].
  destruct (refuse _ _ _) as [err|]; [destruct (preply c err s) as [[]|]|destruct (run_pproc order p c argv s) as [[]|]]; congruence.
Qed.

(** C15: In every reachable state, a client that is not in the context of
    Pub/Sub publishes a message to a channel with a non-empty name, on a
    server that asks for no password and runs no script past its time, while
    no pattern that is subscribed to has a backslash: the command returns, every
    other client is sent the message once if it is subscribed to the channel,
    then once for each of its patterns that match, in the order in which it
    subscribed to them, and nothing else; the publisher is sent how often the
    message was sent; the data and the subscriptions stay as they are, and
    the command goes to the slaves.  A pattern without brackets matches when
    the channel is in the language of the glob. *)
Theorem publish_delivers t flags es w order c cl ch msg : adbs t <> [] -> Forall sound es -> prun es (pstart t flags) = Ret w ->
  iterates order -> p_clients (p_ps w) !! c = Some cl -> CLIENT_PUBSUB cl = false ->
  noauth (gt (acf (p_srv w))) = false -> lua_timedout (gt (acf (p_srv w))) = false ->
  ch <> [] -> map_Forall (fun _ cl => Forall plain_pattern (pubsub_patterns cl)) (p_clients (p_ps w)) ->
  exists w', pprocessCommand order c (PUBLISH ch msg) w = Ret (C_OK, w') /\ p_srv w' = p_srv w /\
    replicated (p_ps w') = replicated (p_ps w) ++ [PUBLISH ch msg] /\
    (forall c', p_clients (p_ps w') !! c' = (fun cl' => said (if decide (c' = c) then integer (Z.of_nat (total (hears ch) (p_clients (p_ps w))))
       else heard ch msg cl') cl') <$> p_clients (p_ps w) !! c') /\
    (forall p, bytes_ok p -> Forall (fun c => c <> 91) p -> hit p ch <-> glob false (gparse p) ch).
Proof.
  intros Hne Hs E Ho Hcl Hp Hn Hl Hch Hpl. assert (HL : 0 < Z.of_nat (length (adbs t))) by (destruct (adbs t); cbn; [done|lia]).
  pose proof (prun_world_ok _ es _ w Hs HL (pstart_world_ok t flags) E) as (I & F & P). pose proof (process_ok order c (PUBLISH ch msg) w Ho I) as H.
  assert (Hs' : s_process (notify_keyspace_events w) order c (PUBLISH ch msg) (pabs w) = Some (mk_sworld (p_srv w)
    (alter (said (integer (Z.of_nat (total (hears ch) (p_clients (p_ps w)))))) c (s_publish ch msg (p_clients (p_ps w)))) (replicated (p_ps w) ++ [PUBLISH ch msg]))).
  { unfold s_process, pabs. cbn [s_clients s_srv s_replicated]. rewrite Hcl. cbn [mbind option_bind].
    change (plookup (default [] (head (PUBLISH ch msg)))) with (Some (entry "publish" (fail Undefined) 3 "pltF", publishProc)).
    cbn [in_context negb andb]. rewrite Hp. cbn [andb].
    match goal with |- context [refuse ?x ?n ?g] => replace (refuse x n g) with (@None (list Z)) end.
    2: { unfold refuse. cbn. rewrite Hn, Hl, !andb_false_r. done. }
    cbn [s_run lookup PUBLISH list_lookup]. unfold s_send. cbn. rewrite decide_True by (by apply comparable_plain). done. }
  destruct (pprocessCommand order c (PUBLISH ch msg) w) as [[o w']|] eqn:Ew; [|congruence]. destruct H as (I' & _ & H). rewrite Hs' in H. injection H as H1 H2 H3.
  exists w'. assert (o = C_OK) as ->.
  { by apply (pubsub_outcome order c (PUBLISH ch msg) w o w' _ eq_refl). }
  split; [done|]. split; [done|]. split; [done|]. split; [|intros p; by apply hit_glob]. intros c'. rewrite <- H2. case_decide as D.
  - subst c'. rewrite lookup_alter_eq. unfold s_publish. rewrite lookup_fmap, Hcl. cbn. rewrite no_subscription by (done || exact (F c cl Hcl)). by rewrite said_nil.
  - rewrite lookup_alter_ne by done. unfold s_publish. by rewrite lookup_fmap.
Qed.
