(* ===== verification/PubsubEvents.v ===== *)
(** * PubsubEvents: the events of commands on keys reach their listeners

    The classes of events that a configuration selects, and what each client
    is sent when a command on keys reports its events. *)

From S2P Require Import Prelude Util Glob Object Db ServerOk Abstract TString AString Keyspace AKeyspace Server ServerRefine.
From S2P Require Import Safety Session Pubsub PubsubProofs PubsubDeliver PubsubTheorems.

(** ** Delivery of keyspace events *)

(** What a client hears of an event under the configuration. *)
Definition heard_event (flags : Z) (cl : pclient) (e : notify_class * list Z * key * Z) : list Z :=
  let '(type, event, k, d) := e in
  if Z.land flags (class_flag type) =? 0 then []
  else (if Z.land flags NOTIFY_KEYSPACE =? 0 then [] else heard (keyspace_channel k d) event cl) ++
       (if Z.land flags NOTIFY_KEYEVENT =? 0 then [] else heard (keyevent_channel event d) k cl).

Definition heard_events (flags : Z) (cl : pclient) (l : list (notify_class * list Z * key * Z)) : list Z := concat (heard_event flags cl <$> l).

Definition each_said (f : pclient -> list Z) (m : gmap Z pclient) : gmap Z pclient := (fun cl => said (f cl) cl) <$> m.

Lemma each_said_nil m : each_said (fun _ => []) m = m.
Proof. apply map_eq. intros c. unfold each_said. rewrite lookup_fmap. destruct (m !! c); [|done]. cbn. by rewrite said_nil. Qed.

Lemma each_said_twice f g m : (forall bs cl, g (said bs cl) = g cl) -> each_said g (each_said f m) = each_said (fun cl => f cl ++ g cl) m.
Proof.
  intros H. apply map_eq. intros c. unfold each_said. rewrite !lookup_fmap. destruct (m !! c); [|done]. cbn. by rewrite H, said_said.
Qed.

Lemma send_said ch msg m m' : s_send ch msg m = Some m' -> m' = each_said (heard ch msg) m.
Proof. unfold s_send. case_decide; [|done]. by intros [= <-]. Qed.

Lemma maybe_send_said (b : bool) ch msg m m' : (if b then Some m else s_send ch msg m) = Some m' -> m' = each_said (fun cl => if b then [] else heard ch msg cl) m.
Proof. destruct b; [intros [= <-]; by rewrite each_said_nil|apply send_said]. Qed.

Lemma notify_said flags e m m' : s_notify flags e m = Some m' -> m' = each_said (fun cl => heard_event flags cl e) m.
Proof.
  destruct e as [[[type event] k] d]. unfold s_notify, heard_event. destruct (_ =? 0); [intros [= <-]; by rewrite each_said_nil|].
  intros (m1 & H1 & H2)%bind_Some. rewrite (maybe_send_said _ _ _ _ _ H2), (maybe_send_said _ _ _ _ _ H1), each_said_twice; [done|].
  intros. by destruct (Z.land flags NOTIFY_KEYEVENT =? 0).
Qed.

Lemma notify_all_said flags l : forall m m', s_notify_all flags l m = Some m' -> m' = each_said (fun cl => heard_events flags cl l) m.
Proof.
  induction l as [|e l IH]; intros m m'; [intros [= <-]; by rewrite each_said_nil|]. cbn [s_notify_all]. intros (m1 & H1 & H2)%bind_Some.
  rewrite (IH _ _ H2), (notify_said _ _ _ _ H1), each_said_twice; [done|]. intros bs cl. unfold heard_events. f_equal.
Qed.

Lemma silent_event flags cl e : flagged cl -> CLIENT_PUBSUB cl = false -> heard_event flags cl e = [].
Proof.
  intros Hf Hp. destruct e as [[[type event] k] d]. unfold heard_event. rewrite !no_subscription by done. by repeat destruct (_ =? 0).
Qed.

Lemma silent_events flags cl l : flagged cl -> CLIENT_PUBSUB cl = false -> heard_events flags cl l = [].
Proof. intros Hf Hp. unfold heard_events. induction l as [|e l IH]; [done|]. cbn. by rewrite silent_event, IH. Qed.

(** ** Commands in the context of Pub/Sub *)

(** [m] reports no event. *)
Definition reports_nothing {A} (m : AM A) : Prop := forall t a t', m t = Ret (a, t') -> events (alg t') = events (alg t).

Lemma rn_ret {A} (a : A) : reports_nothing (mret a).
Proof. by intros t a' t' [= <- <-]. Qed.
Lemma rn_bind {A B} (m : AM A) (k : A -> AM B) : reports_nothing m -> (forall a, reports_nothing (k a)) -> reports_nothing (m ≫= k).
Proof.
  intros Hm Hk t b t'. unfold mbind, AM_bind. destruct (m t) as [[a t1]|] eqn:E; [|done]. intros E'. rewrite (Hk a t1 b t' E'). exact (Hm t a t1 E).
Qed.
Lemma rn_get {A} (f : astate -> A) : reports_nothing (aget f).
Proof. by intros t a t' [= <- <-]. Qed.
Lemma rn_reply bs : reports_nothing (areply bs).
Proof. by intros t a t' [= <- <-]. Qed.
Lemma rn_arg i : reports_nothing (aarg i).
Proof. intros t a t'. unfold aarg. case_match; [|done]. by intros [= <- <-]. Qed.

Create HintDb reports.
#[local] Hint Resolve rn_ret rn_get rn_reply rn_arg : reports.
Ltac rn := repeat (first [solve [auto with reports] | (apply rn_bind; [|intros ?]) | case_match]).

Lemma rn_ping : reports_nothing aPING.
Proof. unfold aPING, aargc, aReplyError, aReplyMultiBulkLen, aReplyBulk. rn. Qed.

Lemma rn_call m : reports_nothing m -> reports_nothing (acall m).
Proof.
  intros H. unfold acall. rn. unfold apropagate. rn. by intros t a' t' [= <- <-].
Qed.

(** A client in the context of Pub/Sub: only PING runs. *)
Lemma refuse_context cmd n c : pubsub_client (gt c) = true -> refuse cmd n c = None -> is_ping cmd = true.
Proof.
  intros H. unfold refuse. rewrite H. destruct (is_ping cmd); [done|]. destruct (_ || _); [done|]. destruct (noauth _); [done|].
  destruct (bool_decide _ && _ && _) eqn:E; [|do 2 (destruct (_ && CMD_WRITE cmd); [done|]); done].
  apply andb_true_iff in E as [E _]. apply andb_true_iff in E as [E _]. apply bool_decide_eq_true in E as [x ->]. done.
Qed.

Lemma ping_spec n cmd spec : alookupCommand specified_table n = Some (cmd, spec) -> is_ping cmd = true -> spec = aPING.
Proof.
  unfold alookupCommand. destruct (list_find _ _) as [[i x]|] eqn:E; [|done]. intros [= ->] Hp. apply list_find_Some in E as (H & _).
  assert (F : Forall (fun x => is_ping x.1 = true -> x.2 = aPING) specified_table).
  { repeat constructor; cbn; done. }
  rewrite Forall_lookup in F. exact (F i _ H Hp).
Qed.

Lemma context_reports_nothing t o t' : pubsub_client (gt (acf t)) = true -> aprocessCommand specified_table t = Ret (o, t') -> events (alg t') = events (alg t).
Proof.
  intros Hp. unfold aprocessCommand. unfold mbind at 1, AM_bind at 1. destruct (aarg 0 t) as [[n0 t0]|] eqn:E0; [|done].
  assert (t0 = t) as -> by (unfold aarg in E0; case_match; congruence). destruct (bool_decide _); [by intros [= <- <-]|].
  destruct (alookupCommand specified_table n0) as [[cmd spec]|] eqn:El; [|by intros [= <- <-]].
  unfold mbind at 1, AM_bind at 1, aget. unfold mbind at 1, AM_bind at 1, aset_cmd. unfold mbind at 1, AM_bind at 1, aargc, aget.
  destruct (refuse cmd _ _) as [err|] eqn:Er; [by intros [= <- <-]|]. pose proof (ping_spec _ _ _ El (refuse_context _ _ _ Hp Er)) as ->.
  unfold mbind, AM_bind. match goal with |- context [acall aPING ?t1] => destruct (acall aPING t1) as [[[] t2]|] eqn:Ec end; [|done]. intros [= <- <-].
  exact (rn_call aPING rn_ping _ _ _ Ec).
Qed.

(** ** Theorems *)

(** C16: In every reachable state, when a client runs a command that is not one
    of Pub/Sub and the server returns: the command did to the data what its
    specification does; the client is sent the replies of the command and no
    event; and every other client is sent, for each event that the command
    reported and whose class is selected, the message on the channel of the
    key and the one on the channel of the event, if it listens to them by
    name or by pattern, in the order of the events, and nothing else.  The
    subscriptions stay as they are. *)
Theorem events_delivered t flags es w order c cl argv o w' : adbs t <> [] -> Forall sound es -> prun es (pstart t flags) = Ret w ->
  iterates order -> p_clients (p_ps w) !! c = Some cl -> plookup (default [] (head argv)) = None -> pprocessCommand order c argv w = Ret (o, w') ->
  let t1 := serve_client cl argv (p_srv w) in
  exists t', aprocessCommand specified_table t1 = Ret (o, t') /\ p_srv w' = end_command t' /\
    p_clients (p_ps w') !! c = Some (with_p_db (acur t') (said (sent t1 t') cl)) /\
    forall c', c' <> c -> p_clients (p_ps w') !! c' =
      (fun cl' => said (heard_events (notify_keyspace_events w) cl' (reported t1 t')) cl') <$> p_clients (p_ps w) !! c'.
Proof.
  intros Hne Hs E Ho Hcl Hl Hp. cbn zeta. assert (HL : 0 < Z.of_nat (length (adbs t))) by (destruct (adbs t); cbn; [done|lia]).
  pose proof (prun_world_ok _ es _ w Hs HL (pstart_world_ok t flags) E) as (I & F & _). pose proof (process_ok order c argv w Ho I) as H. rewrite Hp in H.
  destruct H as (_ & _ & H). unfold s_process in H. cbn [pabs s_clients s_srv s_replicated] in H. rewrite Hcl in H. cbn [mbind option_bind] in H. rewrite Hl in H.
  unfold pprocessCommand in Hp. unfold mbind at 1, res_bind at 1, get_pclient in Hp. rewrite Hcl, Hl in Hp.
  unfold mbind at 1, res_bind at 1 in Hp. set (t1 := serve_client cl argv (p_srv w)) in *.
  destruct (aprocessCommand specified_table t1) as [[o1 t']|] eqn:Et; [|done]. cbn [option_of option_bind mbind] in H.
  apply bind_Some in H as (m & Hm & [= H1 H2 H3]). exists t'. assert (o1 = o) as ->.
  { unfold mbind, res_bind in Hp. destruct (set_pclient _ _ _) as [[u s1]|]; [|done]. destruct (notify_all _ _ _) as [[u2 s2]|]; congruence. }
  split; [done|]. split; [done|]. apply notify_all_said in Hm. subst m. rewrite <- H2. unfold each_said. split.
  - rewrite lookup_fmap, lookup_insert_eq. cbn. f_equal. set (cl' := with_p_db _ _). transitivity (said [] cl'); [f_equal|apply said_nil].
    assert (Fc : flagged cl') by exact (F c cl Hcl). destruct (CLIENT_PUBSUB cl) eqn:Ep.
    + assert (R : reported t1 t' = []); [|by rewrite R]. unfold reported. rewrite (context_reports_nothing t1 o t'); [apply drop_all|exact Ep|done].
    + by apply silent_events.
  - intros c' N. by rewrite lookup_fmap, lookup_insert_ne.
Qed.

(** *** The classes of events *)

Lemma letter_flags_range c f : letter_flags c = Some f -> 0 <= f < 1024.
Proof.
  unfold letter_flags. destruct (_ =? 65); [intros [= <-]; unfold NOTIFY_ALL; lia|]. destruct (list_find _ _) as [[i x]|] eqn:E; [|done].
  intros [= <-]. apply list_find_Some in E as (H & _).
  assert (R : Forall (fun x => 0 <= x.2 < 1024) (class_letters ++ kind_letters)) by (repeat constructor; cbn; unfold NOTIFY_KEYSPACE, NOTIFY_KEYEVENT; lia).
  rewrite Forall_lookup in R. exact (R i x H).
Qed.

Lemma string_to_flags_range p : forall flags, 0 <= flags < 1024 -> string_to_flags p flags <> -1 -> 0 <= string_to_flags p flags < 1024.
Proof.
  induction p as [|c p IH]; intros flags Hf H; [done|]. cbn [string_to_flags] in *. destruct (letter_flags c) as [f|] eqn:E; [|done]. apply IH; [|done].
  apply letter_flags_range in E. change 1024 with (2 ^ 10) in *. by apply in_u_lor.
Qed.

Lemma flags_print_back : forallb (fun f => keyspaceEventsStringToFlags (keyspaceEventsFlagsToString f) =? f) (seqZ 0 1024) = true.
Proof. vm_compute. reflexivity. Qed.

(** keyspaceEventsFlagsToString and keyspaceEventsStringToFlags are
    inverse: the string printed for any combination of classes is read back
    as the same flags; so the string that CONFIG GET shows for any setting
    that was accepted selects the same events as this setting. *)
Theorem events_flags_roundtrip s flags : 0 <= flags < 1024 ->
  keyspaceEventsStringToFlags (keyspaceEventsFlagsToString flags) = flags /\
  (keyspaceEventsStringToFlags s <> -1 ->
   keyspaceEventsStringToFlags (keyspaceEventsFlagsToString (keyspaceEventsStringToFlags s)) = keyspaceEventsStringToFlags s).
Proof.
  assert (R : forall f, 0 <= f < 1024 -> keyspaceEventsStringToFlags (keyspaceEventsFlagsToString f) = f).
  { intros f Hf. pose proof flags_print_back as H. rewrite forallb_forall in H. apply Z.eqb_eq, H, list_elem_of_In, elem_of_seqZ. lia. }
  intros Hf. split; [by apply R|]. intros Hs. apply R. by apply string_to_flags_range.
Qed.
