(* ===== verification/PubsubWitness.v ===== *)
(** * PubsubWitness: Pub/Sub at concrete inputs

    Three clients; and two requests by which a client makes the matcher read
    outside of its buffers, or not stop. *)

From S2P Require Import Prelude Util Glob Object Db ServerOk Abstract TString AString Keyspace AKeyspace Server ServerRefine.
From S2P Require Import Safety Session Pubsub PubsubProofs PubsubDeliver PubsubTheorems PubsubEvents.

Definition pgates : gates := mk_gates false None false false false false false false.
Definition pconf : conf := mk_conf 1000 0 false false false 0 false false false false [] pgates.
Definition pempty : astate := mk_astate (replicate 2 (mk_adb ∅ ∅)) [] 0 pconf empty_log.

(** The order in which [elements] lists a set. *)
Definition any_order : gset key -> list key := elements.

Lemma any_order_iterates : iterates any_order.
Proof. by intros s. Qed.

(** The words of a line. *)
Fixpoint split_line (word : list Z) (s : list Z) : list (list Z) :=
  match s with
  | [] => [word]
  | x :: s => if x =? 32 then word :: split_line [] s else split_line (word ++ [x]) s
  end.
Definition argv_of (line : String.string) : list key := split_line [] (bytes_of_string line).
Arguments argv_of _%_string_scope.
Definition preq (c : Z) (argv : String.string) : pevent := PRequest any_order c (argv_of argv).
Arguments preq _ _%_string_scope.

(** All events: classes K, E, A. *)
Definition KEA : Z := 1023.

(** Client 1 listens to a channel and to two patterns, client 2 to the events
    of a key, client 3 publishes. *)
Definition listening : list pevent :=
  [PConnect 1; PConnect 2; PConnect 3; preq 1 "SUBSCRIBE news sport"; preq 1 "PSUBSCRIBE n* x?";
   preq 1 "UNSUBSCRIBE sport"; preq 2 "PSUBSCRIBE __key*__:k n?ws"].

Definition presult_of (es : list pevent) : pworld := default (pstart pempty KEA) (option_of (prun es (pstart pempty KEA))).
Definition w_listening : pworld := presult_of listening.

Lemma presult_run es : is_Ret (prun es (pstart pempty KEA)) = true -> prun es (pstart pempty KEA) = Ret (presult_of es).
Proof. unfold presult_of. by destruct (prun es (pstart pempty KEA)). Qed.

Lemma sound_connect c : sound (PConnect c).
Proof. done. Qed.
Lemma sound_request c line : sound (preq c line).
Proof. split; [apply any_order_iterates|]. cbn. unfold argv_of. generalize (@nil Z). induction (bytes_of_string line) as [|x l IH]; intros w; cbn; [done|]. by destruct (_ =? _). Qed.

Lemma listening_sound : Forall sound listening.
Proof. unfold listening. repeat (apply Forall_cons_2; [apply sound_connect || apply sound_request|]). apply Forall_nil_2. Qed.

Lemma listening_run : prun listening (pstart pempty KEA) = Ret w_listening.
Proof. apply presult_run. vm_compute. reflexivity. Qed.

Definition client_at (c : Z) (w : pworld) : pclient := default (mk_pclient 0 ∅ [] false []) (p_clients (p_ps w) !! c).

Lemma client_at_some c w : bool_decide (is_Some (p_clients (p_ps w) !! c)) = true -> p_clients (p_ps w) !! c = Some (client_at c w).
Proof. intros [cl E]%bool_decide_eq_true. unfold client_at. by rewrite E. Qed.

(** ** Witnesses *)

Lemma pubsub_refines_witness :
  pabs <$> option_of (prun listening (pstart pempty KEA)) = s_runs KEA listening (mk_sworld pempty ∅ []) /\
  pubsub_patterns (client_at 1 w_listening) = [bytes_of_string "n*"; bytes_of_string "x?"].
Proof.
  split; [|vm_compute; reflexivity]. apply (pubsub_refines pempty KEA listening). eapply Forall_impl; [exact listening_sound|]. by intros e [H _].
Defined.

Lemma pubsub_invariant_witness : match pprocessCommand any_order 3 [bytes_of_string "PUBLISH"; bytes_of_string "news"; []] w_listening with
  Ret _ => True | Fault f => soft f \/ stray f end.
Proof.
  destruct (pubsub_invariant pempty KEA listening w_listening) as (_ & _ & _ & H); [discriminate|exact listening_sound|exact listening_run|].
  apply H; [apply any_order_iterates|discriminate|]. vm_compute. by eexists.
Defined.

Lemma publish_delivers_witness : exists w',
  pprocessCommand any_order 3 (PUBLISH (bytes_of_string "news") (bytes_of_string "hi")) w_listening = Ret (C_OK, w') /\
  p_clients (p_ps w') !! 1 = Some (said (message_frame (bytes_of_string "news") (bytes_of_string "hi") ++
    pmessage_frame (bytes_of_string "n*") (bytes_of_string "news") (bytes_of_string "hi")) (client_at 1 w_listening)) /\
  p_clients (p_ps w') !! 3 = Some (said (integer 3) (client_at 3 w_listening)).
Proof.
  destruct (publish_delivers pempty KEA listening w_listening any_order 3 (client_at 3 w_listening) (bytes_of_string "news") (bytes_of_string "hi"))
    as (w' & E & _ & _ & H & _).
  - discriminate.
  - exact listening_sound.
  - exact listening_run.
  - apply any_order_iterates.
  - apply client_at_some. vm_compute. reflexivity.
  - vm_compute. reflexivity.
  - reflexivity.
  - reflexivity.
  - discriminate.
  - apply map_Forall_to_list. vm_compute. repeat constructor; discriminate.
  - exists w'. split; [exact E|]. rewrite !H. split; vm_compute; reflexivity.
Defined.

Definition after_set : pworld := match pprocessCommand any_order 3 (argv_of "SET k v") w_listening with
  Ret (_, w') => w' | Fault _ => w_listening end.

Lemma events_delivered_witness : p_clients (p_ps after_set) !! 2 =
  Some (said (pmessage_frame (bytes_of_string "__key*__:k") (bytes_of_string "__keyspace@0__:k") (bytes_of_string "set")) (client_at 2 w_listening)).
Proof.
  destruct (events_delivered pempty KEA listening w_listening any_order 3 (client_at 3 w_listening) (argv_of "SET k v") C_OK after_set)
    as (t' & _ & _ & _ & H).
  - discriminate.
  - exact listening_sound.
  - exact listening_run.
  - apply any_order_iterates.
  - apply client_at_some. vm_compute. reflexivity.
  - vm_compute. reflexivity.
  - vm_compute. reflexivity.
  - vm_compute. reflexivity.
Defined.

Lemma events_flags_roundtrip_witness :
  keyspaceEventsFlagsToString 1020 = bytes_of_string "A" /\ keyspaceEventsStringToFlags (bytes_of_string "Kgx$") = 269 /\
  keyspaceEventsStringToFlags (keyspaceEventsFlagsToString (keyspaceEventsStringToFlags (bytes_of_string "Kgx$"))) = 269.
Proof.
  split; [reflexivity|]. split; [reflexivity|]. destruct (events_flags_roundtrip (bytes_of_string "Kgx$") 269) as [_ H]; [lia|]. apply H. discriminate.
Defined.

(** ** Patterns that the matcher does not stand *)

(** A pattern that ends in a backslash inside of brackets: the next message on
    any channel makes the server read past the pattern. *)
Lemma publish_overreads :
  match prun [PConnect 1; PConnect 2; PRequest any_order 1 [bytes_of_string "PSUBSCRIBE"; [91; 92]]; preq 2 "PUBLISH a x"] (pstart pempty 0) with
  | Ret _ => False | Fault f => f = OutOfBounds
  end.
Proof. vm_compute. reflexivity. Qed.

(** A message on the channel with the empty name, and the pattern [^a]*?: the
    remaining length of the name falls below zero and the loop of the star,
    which ends at zero, goes on, however long it may run. *)
Lemma star_never_stops fuel : forall s slen, slen < 0 ->
  star_loop (fun s slen => match_rec 2 (bytes_of_string "[^a]*?") 5 1 [] s slen false) fuel s slen = Fault OutOfFuel.
Proof.
  induction fuel as [|fuel IH]; intros s slen H; cbn [star_loop]; destruct (Z.eqb_spec slen 0) as [->|_]; try lia; [done|].
  assert (E : match_rec 2 (bytes_of_string "[^a]*?") 5 1 [] s slen false = Ret false).
  { cbn. destruct (Z.eqb_spec slen 0); [lia|]. destruct (Z.eqb_spec (slen - 1) 0); [lia|]. cbn. done. }
  rewrite E. cbn [mbind res_bind]. apply IH. lia.
Qed.

Lemma publish_never_stops :
  match prun [PConnect 1; PConnect 2; preq 1 "PSUBSCRIBE [^a]*?"; preq 2 "PUBLISH  x"] (pstart pempty 0) with
  | Ret _ => False | Fault f => f = OutOfFuel
  end.
Proof. vm_compute. reflexivity. Qed.
