(* ===== verification/Hll.v ===== *)
(** * Hll: HyperLogLogs (hyperloglog.c)

    An estimate of the size of a set is kept in 16384 registers of 6 bits: the
    hash of an element selects a register, which holds the longest run of
    zeros seen.  The registers are a string with a header, either dense, 6
    bits each, or sparse, a list of opcodes for runs of registers, which is
    changed in place and becomes dense when it gets too long.  The estimate
    itself is computed with floating point numbers and is not modelled. *)

From S2P Require Import Prelude Util.

(** ** The string *)

(** The bytes of the string with its terminator and its spare space, and its
    length. *)
Record hllobj : Type := mk_hll { hmem : list Z; hlen : Z }.

Definition HLL_P : Z := 14.
Definition HLL_REGISTERS : Z := 16384.
Definition HLL_P_MASK : Z := 16383.
Definition HLL_BITS : Z := 6.
Definition HLL_REGISTER_MAX : Z := 63.
Definition HLL_HDR_SIZE : Z := 16.
Definition HLL_DENSE_SIZE : Z := HLL_HDR_SIZE + (HLL_REGISTERS * HLL_BITS + 7) / 8.
Definition HLL_DENSE : Z := 0.
Definition HLL_SPARSE : Z := 1.
Definition HLL_MAX_ENCODING : Z := 1.

(** hdr->encoding *)
Definition encoding_of (m : list Z) : res Z := rd m 4.

(** HLL_INVALIDATE_CACHE: the top bit of the last byte of the cached
    cardinality. *)
Definition invalidate (m : list Z) : res (list Z) := b ← rd m 15; wr m 15 (Z.lor b 128).

(** ** Dense registers *)

(** [p] is the offset of the registers. *)
Definition dense_get (m : list Z) (p regnum : Z) : res Z :=
  let byte := p + regnum * HLL_BITS / 8 in
  let fb := Z.land (regnum * HLL_BITS) 7 in
  let fb8 := 8 - fb in
  b0 ← rd m byte;
  b1 ← rd m (byte + 1);
  Ret (Z.land (Z.lor (Z.shiftr b0 fb) (Z.shiftl b1 fb8)) HLL_REGISTER_MAX).

Definition dense_set (m : list Z) (p regnum val : Z) : res (list Z) :=
  let byte := p + regnum * HLL_BITS / 8 in
  let fb := Z.land (regnum * HLL_BITS) 7 in
  let fb8 := 8 - fb in
  b ← rd m byte; m ← wr m byte (u8 (Z.land b (Z.lnot (Z.shiftl HLL_REGISTER_MAX fb))));
  b ← rd m byte; m ← wr m byte (u8 (Z.lor b (Z.shiftl val fb)));
  b ← rd m (byte + 1); m ← wr m (byte + 1) (u8 (Z.land b (Z.lnot (Z.shiftr HLL_REGISTER_MAX fb8))));
  b ← rd m (byte + 1); wr m (byte + 1) (u8 (Z.lor b (Z.shiftr val fb8))).

(** ** Sparse opcodes *)

Definition HLL_SPARSE_IS_ZERO (b : Z) : bool := Z.land b 192 =? 0.
Definition HLL_SPARSE_IS_XZERO (b : Z) : bool := Z.land b 192 =? 64.
Definition HLL_SPARSE_IS_VAL (b : Z) : bool := negb (Z.land b 128 =? 0).
Definition HLL_SPARSE_ZERO_LEN (b : Z) : Z := Z.land b 63 + 1.
Definition HLL_SPARSE_XZERO_LEN (b b1 : Z) : Z := Z.lor (Z.shiftl (Z.land b 63) 8) b1 + 1.
Definition HLL_SPARSE_VAL_VALUE (b : Z) : Z := Z.land (Z.shiftr b 2) 31 + 1.
Definition HLL_SPARSE_VAL_LEN (b : Z) : Z := Z.land b 3 + 1.
Definition HLL_SPARSE_VAL_MAX_VALUE : Z := 32.
Definition HLL_SPARSE_VAL_MAX_LEN : Z := 4.
Definition HLL_SPARSE_ZERO_MAX_LEN : Z := 64.
Definition HLL_SPARSE_XZERO_MAX_LEN : Z := 16384.

(** The bytes that the SET macros store. *)
Definition val_byte (val len : Z) : Z := u8 (Z.lor (Z.lor (Z.shiftl (val - 1) 2) (len - 1)) 128).
Definition zero_byte (len : Z) : Z := u8 (len - 1).
Definition xzero_bytes (len : Z) : list Z := [u8 (Z.lor (Z.shiftr (len - 1) 8) 64); Z.land (len - 1) 255].

(** ** The hash of an element *)

Definition MURMUR_M : Z := 14313749767032793493. (* 0xc6a4a7935bd1e995 *)

Fixpoint murmur_blocks (n : nat) (data : list Z) (h : Z) : Z :=
  match n with
  | O => h
  | S n =>
      let k := le_value (take 8 data) in
      let k := u64 (k * MURMUR_M) in
      let k := Z.lxor k (Z.shiftr k 47) in
      let k := u64 (k * MURMUR_M) in
      murmur_blocks n (drop 8 data) (u64 (Z.lxor h k * MURMUR_M))
  end.

(** The cases of the switch fall through, from the last byte to the first. *)
Fixpoint murmur_tail (n : nat) (data : list Z) (h : Z) : Z :=
  match n with
  | O => h
  | S i => murmur_tail i data (Z.lxor h (Z.shiftl (nth i data 0) (8 * Z.of_nat i)))
  end.

(** The length is an int, which holds that of any argument of a request. *)
Definition MurmurHash64A (key : list Z) (seed : Z) : Z :=
  let len := i32 (Z.of_nat (length key)) in
  let h := Z.lxor seed (u64 (len * MURMUR_M)) in
  let blocks := Z.to_nat ((len - Z.land len 7) / 8) in
  let h := murmur_blocks blocks key h in
  let rest := Z.to_nat (Z.land len 7) in
  let h := if bool_decide (rest = 0%nat) then h else u64 (murmur_tail rest (drop (8 * blocks) key) h * MURMUR_M) in
  let h := Z.lxor h (Z.shiftr h 47) in
  let h := u64 (h * MURMUR_M) in
  Z.lxor h (Z.shiftr h 47).

(** [while((hash & bit) == 0)]: bit 63 of the hash is set. *)
Fixpoint count_zeros (fuel : nat) (hash bit count : Z) : res Z :=
  match fuel with
  | O => Fault OutOfFuel
  | S fuel => if Z.land hash bit =? 0 then count_zeros fuel hash (u64 (Z.shiftl bit 1)) (count + 1) else Ret count
  end.

(** The count and the register. *)
Definition hllPatLen (ele : list Z) : res (Z * Z) :=
  let hash := MurmurHash64A ele 2913680409 in (* 0xadc83b19 *)
  let index := Z.land hash HLL_P_MASK in
  let hash := Z.lor hash (Z.shiftl 1 63) in
  count ← count_zeros 64 hash HLL_REGISTERS 1;
  Ret (count, index).

(** ** Dense HyperLogLogs *)

Definition hllDenseAdd (m : list Z) (p : Z) (ele : list Z) : res (Z * list Z) :=
  '(count, index) ← hllPatLen ele;
  oldcount ← dense_get m p index;
  if oldcount <? count then m ← dense_set m p index count; Ret (1, m)
  else Ret (0, m).

(** ** Conversion *)

Definition C_OK : Z := 0.
Definition C_ERR : Z := -1.

(** while(runlen--) *)
Fixpoint set_run (n : nat) (dst : list Z) (idx regval : Z) : res (list Z) :=
  match n with
  | O => Ret dst
  | S n => dst ← dense_set dst HLL_HDR_SIZE idx regval; set_run n dst (idx + 1) regval
  end.

(** The registers and the next index. *)
Fixpoint to_dense_loop (fuel : nat) (src : list Z) (p end_ : Z) (dst : list Z) (idx : Z) : res (list Z * Z) :=
  match fuel with
  | O => Fault OutOfFuel
  | S fuel =>
      if end_ <=? p then Ret (dst, idx)
      else
        b ← rd src p;
        if HLL_SPARSE_IS_ZERO b then to_dense_loop fuel src (p + 1) end_ dst (idx + HLL_SPARSE_ZERO_LEN b)
        else if HLL_SPARSE_IS_XZERO b then
          b1 ← rd src (p + 1);
          to_dense_loop fuel src (p + 2) end_ dst (idx + HLL_SPARSE_XZERO_LEN b b1)
        else
          let runlen := HLL_SPARSE_VAL_LEN b in
          dst ← set_run (Z.to_nat runlen) dst idx (HLL_SPARSE_VAL_VALUE b);
          to_dense_loop fuel src (p + 1) end_ dst (idx + runlen)
  end.

(** sdsnewlen(NULL,len): zero bytes, and the terminator. *)
Definition sds_zeros (len : Z) : list Z := replicate (Z.to_nat (len + 1)) 0.

Definition hllSparseToDense (o : hllobj) : res (Z * hllobj) :=
  enc ← encoding_of (hmem o);
  if enc =? HLL_DENSE then Ret (C_OK, o)
  else
    hdr ← memread (hmem o) 0 16;
    dense ← memwrite (sds_zeros HLL_DENSE_SIZE) 0 hdr;
    dense ← wr dense 4 HLL_DENSE;
    '(dense, idx) ← to_dense_loop (S (length (hmem o))) (hmem o) HLL_HDR_SIZE (hlen o) dense 0;
    if idx =? HLL_REGISTERS then Ret (C_OK, mk_hll dense HLL_DENSE_SIZE)
    else Ret (C_ERR, o).

(** ** Sparse HyperLogLogs *)

(** sdsMakeRoomFor: the spare space doubles; the new bytes are [junk]. *)
Definition make_room (junk addlen : Z) (o : hllobj) : hllobj :=
  if addlen <=? Z.of_nat (length (hmem o)) - 1 - hlen o then o
  else
    let newlen := hlen o + addlen in
    let newlen := if newlen <? 1024 * 1024 then newlen * 2 else newlen + 1024 * 1024 in
    mk_hll (realloc junk (take (Z.to_nat (hlen o + 1)) (hmem o)) (Z.to_nat (newlen + 1))) (hlen o).

(** sdsIncrLen *)
Definition incr_len (o : hllobj) (incr : Z) : res hllobj :=
  if if 0 <=? incr then incr <=? Z.of_nat (length (hmem o)) - 1 - hlen o else - incr <=? hlen o then
    m ← wr (hmem o) (hlen o + incr) 0; Ret (mk_hll m (hlen o + incr))
  else Fault AssertFailed.

(** Step 1: the opcode that covers the register, the one before it, the first
    register it covers and how many. *)
Fixpoint find_opcode (fuel : nat) (m : list Z) (end_ index p : Z) (prev : option Z) (first span : Z) : res (Z * option Z * Z * Z) :=
  match fuel with
  | O => Fault OutOfFuel
  | S fuel =>
      if end_ <=? p then Ret (p, prev, first, span)
      else
        b ← rd m p;
        '(span, oplen) ← (if HLL_SPARSE_IS_ZERO b then Ret (HLL_SPARSE_ZERO_LEN b, 1)
                          else if HLL_SPARSE_IS_VAL b then Ret (HLL_SPARSE_VAL_LEN b, 1)
                          else b1 ← rd m (p + 1); Ret (HLL_SPARSE_XZERO_LEN b b1, 2));
        if index <=? first + span - 1 then Ret (p, prev, first, span)
        else find_opcode fuel m end_ index (p + oplen) (Some p) (first + span) span
  end.

(** A run of [len] zeros in the sequence, if there is any. *)
Definition zeros_seq (len : Z) : list Z :=
  if len =? 0 then [] else if HLL_SPARSE_ZERO_MAX_LEN <? len then xzero_bytes len else [zero_byte len].
Definition vals_seq (val len : Z) : list Z := if len =? 0 then [] else [val_byte val len].

(** Two values that are the same and fit one opcode: their length. *)
Definition mergeable (b : Z) (c : option Z) : option Z :=
  match c with
  | Some c =>
      let len := HLL_SPARSE_VAL_LEN b + HLL_SPARSE_VAL_LEN c in
      if HLL_SPARSE_IS_VAL c && (HLL_SPARSE_VAL_VALUE b =? HLL_SPARSE_VAL_VALUE c) && (len <=? HLL_SPARSE_VAL_MAX_LEN) then Some len else None
  | None => None
  end.

(** Step 4: merge adjacent values. *)
Fixpoint merge_values (scanlen : nat) (o : hllobj) (p end_ : Z) : res (hllobj * Z) :=
  match scanlen with
  | O => Ret (o, end_)
  | S scanlen =>
      if end_ <=? p then Ret (o, end_)
      else
        b ← rd (hmem o) p;
        if HLL_SPARSE_IS_XZERO b then merge_values scanlen o (p + 2) end_
        else if HLL_SPARSE_IS_ZERO b then merge_values scanlen o (p + 1) end_
        else
          c ← (if p + 1 <? end_ then c ← rd (hmem o) (p + 1); Ret (Some c) else Ret None);
          match mergeable b c with
          | Some len =>
              m ← wr (hmem o) (p + 1) (val_byte (HLL_SPARSE_VAL_VALUE b) len);
              bs ← memread m (p + 1) (Z.to_nat (end_ - p));
              m ← memwrite m p bs;
              o ← incr_len (mk_hll m (hlen o)) (-1);
              merge_values scanlen o p (end_ - 1)
          | None => merge_values scanlen o (p + 1) end_
          end
  end.

(** promote: *)
Definition promote (o : hllobj) (ele : list Z) : res (Z * hllobj) :=
  '(r, o) ← hllSparseToDense o;
  if r =? C_ERR then Ret (-1, o)
  else
    '(dense_retval, m) ← hllDenseAdd (hmem o) HLL_HDR_SIZE ele;
    if dense_retval =? 1 then Ret (dense_retval, mk_hll m (hlen o)) else Fault AssertFailed.

(** updated: *)
Definition updated (o : hllobj) (prev : option Z) (end_ : Z) : res (Z * hllobj) :=
  '(o, _) ← merge_values 5 o (default HLL_HDR_SIZE prev) end_;
  m ← invalidate (hmem o);
  Ret (1, mk_hll m (hlen o)).

(** Step 3: the bytes of the opcode are replaced by the sequence, and what is
    after them, at [next], is moved. *)
Definition replace_seq (o : hllobj) (p : Z) (seq : list Z) (oldlen : Z) : res hllobj :=
  let deltalen := Z.of_nat (length seq) - oldlen in
  m ← (if negb (deltalen =? 0) && (p + oldlen <? hlen o) then
         bs ← memread (hmem o) (p + oldlen) (Z.to_nat (hlen o - (p + oldlen))); memwrite (hmem o) (p + oldlen + deltalen) bs
       else Ret (hmem o));
  o ← incr_len (mk_hll m (hlen o)) deltalen;
  m ← memwrite (hmem o) p seq;
  Ret (mk_hll m (hlen o)).

(** Step 2: what the opcode becomes.  [max_bytes] is server.hll_sparse_max_bytes. *)
Definition update_opcode (max_bytes : Z) (o : hllobj) (ele : list Z) (count index : Z) (p : Z) (prev : option Z) (first span : Z) :
    res (Z * hllobj) :=
  let end_ := hlen o in
  b ← rd (hmem o) p;
  let is_xzero := HLL_SPARSE_IS_XZERO b in
  let is_zero := HLL_SPARSE_IS_ZERO b in
  let is_val := negb is_zero && negb is_xzero in
  runlen ← (if is_zero then Ret (HLL_SPARSE_ZERO_LEN b)
            else if is_xzero then b1 ← rd (hmem o) (p + 1); Ret (HLL_SPARSE_XZERO_LEN b b1)
            else Ret (HLL_SPARSE_VAL_LEN b));
  if is_val && (count <=? HLL_SPARSE_VAL_VALUE b) then Ret (0, o)
  else if (is_val || is_zero) && (runlen =? 1) then
    m ← wr (hmem o) p (val_byte count 1);
    updated (mk_hll m (hlen o)) prev end_
  else
    let last := i32 (first + span - 1) in
    let seq := if is_zero || is_xzero then zeros_seq (i32 (index - first)) ++ [val_byte count 1] ++ zeros_seq (i32 (last - index))
               else vals_seq (HLL_SPARSE_VAL_VALUE b) (i32 (index - first)) ++ [val_byte count 1] ++ vals_seq (HLL_SPARSE_VAL_VALUE b) (i32 (last - index)) in
    let oldlen := if is_xzero then 2 else 1 in
    let deltalen := Z.of_nat (length seq) - oldlen in
    if (0 <? deltalen) && (max_bytes <? hlen o + deltalen) then promote o ele
    else
      o ← replace_seq o p seq oldlen;
      updated o prev (end_ + deltalen).

Definition hllSparseAdd (max_bytes junk : Z) (o : hllobj) (ele : list Z) : res (Z * hllobj) :=
  '(count, index) ← hllPatLen ele;
  if HLL_SPARSE_VAL_MAX_VALUE <? count then promote o ele
  else
    let o := make_room junk 3 o in
    '(p, prev, first, span) ← find_opcode (S (length (hmem o))) (hmem o) (hlen o) index HLL_HDR_SIZE None 0 0;
    if span =? 0 then Ret (-1, o)
    else update_opcode max_bytes o ele count index p prev first span.

Definition hllAdd (max_bytes junk : Z) (o : hllobj) (ele : list Z) : res (Z * hllobj) :=
  enc ← encoding_of (hmem o);
  if enc =? HLL_DENSE then '(r, m) ← hllDenseAdd (hmem o) HLL_HDR_SIZE ele; Ret (r, mk_hll m (hlen o))
  else if enc =? HLL_SPARSE then hllSparseAdd max_bytes junk o ele
  else Ret (-1, o).

(** ** The union *)

(** The registers of [max] are bytes. *)
Definition max_at (max : list Z) (i v : Z) : res (list Z) := x ← rd max i; if x <? v then wr max i v else Ret max.

Fixpoint merge_dense (n : nat) (m max : list Z) (i : Z) : res (list Z) :=
  match n with
  | O => Ret max
  | S n => v ← dense_get m HLL_HDR_SIZE i; max ← max_at max i v; merge_dense n m max (i + 1)
  end.

Fixpoint max_run (n : nat) (max : list Z) (i regval : Z) : res (list Z) :=
  match n with
  | O => Ret max
  | S n => max ← max_at max i regval; max_run n max (i + 1) regval
  end.

Fixpoint merge_sparse (fuel : nat) (src : list Z) (p end_ : Z) (max : list Z) (i : Z) : res (list Z * Z) :=
  match fuel with
  | O => Fault OutOfFuel
  | S fuel =>
      if end_ <=? p then Ret (max, i)
      else
        b ← rd src p;
        if HLL_SPARSE_IS_ZERO b then merge_sparse fuel src (p + 1) end_ max (i + HLL_SPARSE_ZERO_LEN b)
        else if HLL_SPARSE_IS_XZERO b then
          b1 ← rd src (p + 1);
          merge_sparse fuel src (p + 2) end_ max (i + HLL_SPARSE_XZERO_LEN b b1)
        else
          let runlen := HLL_SPARSE_VAL_LEN b in
          max ← max_run (Z.to_nat runlen) max i (HLL_SPARSE_VAL_VALUE b);
          merge_sparse fuel src (p + 1) end_ max (i + runlen)
  end.

Definition hllMerge (max : list Z) (o : hllobj) : res (Z * list Z) :=
  enc ← encoding_of (hmem o);
  if enc =? HLL_DENSE then max ← merge_dense (Z.to_nat HLL_REGISTERS) (hmem o) max 0; Ret (C_OK, max)
  else
    '(max, i) ← merge_sparse (S (length (hmem o))) (hmem o) HLL_HDR_SIZE (hlen o) max 0;
    if i =? HLL_REGISTERS then Ret (C_OK, max) else Ret (C_ERR, max).

(** ** Objects *)

(** One opcode for all registers. *)
Definition createHLLObject : hllobj :=
  mk_hll ([72; 89; 76; 76; HLL_SPARSE; 0; 0; 0] ++ replicate 8 0 ++ xzero_bytes HLL_SPARSE_XZERO_MAX_LEN ++ [0]) 18.

(** The value of a key that holds a string: a number, whose [ptr] is its
    value, or the bytes; [raw] when they are a string of their own that only
    this key refers to. *)
Inductive hllval : Type :=
  | HllSds (raw : bool) (o : hllobj)
  | HllInt (v : Z).

(** stringObjectLen *)
Definition hll_len (v : hllval) : Z :=
  match v with HllSds _ o => hlen o | HllInt n => sdigits10 n end.

(** isHLLObjectOrReply: the string, when it is a HyperLogLog.  The header is
    read at [ptr], which for a number is no address of an object. *)
Definition isHLLObject (v : hllval) : res (option hllobj) :=
  if hll_len v <? HLL_HDR_SIZE then Ret None
  else
    match v with
    | HllInt _ => Fault OutOfBounds
    | HllSds _ o =>
        magic ← memread (hmem o) 0 4;
        enc ← encoding_of (hmem o);
        if negb (bool_decide (magic = [72; 89; 76; 76])) then Ret None
        else if HLL_MAX_ENCODING <? enc then Ret None
        else if (enc =? HLL_DENSE) && negb (hlen o =? HLL_DENSE_SIZE) then Ret None
        else Ret (Some o)
    end.

(** dbUnshareStringValue: a copy without spare space, unless the string is
    raw. *)
Definition unshare (v : hllval) : res hllobj :=
  match v with
  | HllSds true o => Ret o
  | HllSds false o => bs ← memread (hmem o) 0 (Z.to_nat (hlen o)); Ret (mk_hll (bs ++ [0]) (hlen o))
  | HllInt n => '(len, buf) ← ll2string (replicate 32 0) 32 n; bs ← memread buf 0 (Z.to_nat len); Ret (mk_hll (bs ++ [0]) len)
  end.

(** ** Commands *)

Inductive pf_reply : Type :=
  | PfWrongType
  | PfInvalid
  | PfInt (n : Z)
  | PfOk.

(** The loop of pfaddCommand: how many elements changed something; [None] for
    a corrupted object, which the command reports. *)
Fixpoint pfadd_loop (max_bytes junk : Z) (o : hllobj) (eles : list (list Z)) (updated : Z) : res (option Z * hllobj) :=
  match eles with
  | [] => Ret (Some updated, o)
  | ele :: eles =>
      '(retval, o) ← hllAdd max_bytes junk o ele;
      if retval =? -1 then Ret (None, o)
      else pfadd_loop max_bytes junk o eles (if retval =? 1 then updated + 1 else updated)
  end.

(** The reply, and the value of the key after the command. *)
Definition pfaddCommand (max_bytes junk : Z) (key : option hllval) (eles : list (list Z)) : res (pf_reply * option hllval) :=
  ok ← (match key with None => Ret true | Some v => hdr ← isHLLObject v; Ret (bool_decide (is_Some hdr)) end);
  if negb ok then Ret (PfWrongType, key)
  else
    '(o, updated) ← (match key with None => Ret (createHLLObject, 1) | Some v => o ← unshare v; Ret (o, 0) end);
    '(updated, o) ← pfadd_loop max_bytes junk o eles updated;
    match updated with
    | None => Ret (PfInvalid, Some (HllSds true o))
    | Some updated =>
        if updated =? 0 then Ret (PfInt 0, Some (HllSds true o))
        else m ← invalidate (hmem o); Ret (PfInt 1, Some (HllSds true (mk_hll m (hlen o))))
    end.

(** The loop of pfmergeCommand over the values of its keys: the registers, or
    the error. *)
Fixpoint merge_all (max : list Z) (l : list (option hllval)) : res (pf_reply * list Z) :=
  match l with
  | [] => Ret (PfOk, max)
  | None :: l => merge_all max l
  | Some v :: l =>
      hdr ← isHLLObject v;
      match hdr with
      | None => Ret (PfWrongType, max)
      | Some o =>
          '(r, max) ← hllMerge max o;
          if r =? C_ERR then Ret (PfInvalid, max) else merge_all max l
      end
  end.

Fixpoint write_registers (n : nat) (m max : list Z) (j : Z) : res (list Z) :=
  match n with
  | O => Ret m
  | S n => v ← rd max j; m ← dense_set m HLL_HDR_SIZE j v; write_registers n m max (j + 1)
  end.

(** The destination is the first of the keys. *)
Definition pfmergeCommand (dest : option hllval) (srcs : list (option hllval)) : res (pf_reply * option hllval) :=
  '(r, max) ← merge_all (replicate (Z.to_nat HLL_REGISTERS) 0) (dest :: srcs);
  match r with
  | PfOk =>
      o ← (match dest with None => Ret createHLLObject | Some v => unshare v end);
      '(r, o) ← hllSparseToDense o;
      if r =? C_ERR then Ret (PfInvalid, Some (HllSds true o))
      else
        m ← write_registers (Z.to_nat HLL_REGISTERS) (hmem o) max 0;
        m ← invalidate m;
        Ret (PfOk, Some (HllSds true (mk_hll m (hlen o))))
  | r => Ret (r, dest)
  end.
