(* ===== verification/HllDense.v ===== *)
(** * HllDense: registers of 6 bits in an array of bytes

    Reading and writing a register touches the bits [6 i] to [6 i + 5] of
    the array and no other. *)

From S2P Require Import Prelude Hll.

(** ** Bits of a block *)

Definition mbit (m : list Z) (k : Z) : bool := Z.testbit (nth (Z.to_nat (k / 8)) m 0) (k mod 8).

Lemma byte_high b t : byte_ok b -> 8 <= t -> Z.testbit b t = false.
Proof.
  unfold byte_ok. intros H Ht. destruct (Z.eq_dec b 0) as [->|]; [apply Z.bits_0|]. apply Z.bits_above_log2; [lia|].
  assert (Z.log2 b < 8) by (apply Z.log2_lt_pow2; lia). lia.
Qed.

Lemma u8_bit b t : 0 <= t -> Z.testbit (u8 b) t = (t <? 8) && Z.testbit b t.
Proof.
  intros Ht. unfold uwrap. destruct (Z.ltb_spec t 8); [rewrite Z.mod_pow2_bits_low by lia|rewrite Z.mod_pow2_bits_high by lia]; done.
Qed.

Lemma max_bit t : 0 <= t -> Z.testbit HLL_REGISTER_MAX t = (t <? 6).
Proof. intros. change HLL_REGISTER_MAX with (Z.ones 6). rewrite Z.testbit_ones by lia. lia. Qed.

Lemma rd_within m i : 0 <= i < Z.of_nat (length m) -> rd m i = Ret (nth (Z.to_nat i) m 0).
Proof.
  intros. unfold rd. destruct (Z.ltb_spec i 0); [lia|]. destruct (lookup_lt_is_Some_2 m (Z.to_nat i)) as [b E]; [lia|].
  rewrite E. cbn. by rewrite (nth_lookup_Some _ _ _ _ E).
Qed.

Lemma wr_in m i b : 0 <= i < Z.of_nat (length m) -> wr m i b = Ret (<[Z.to_nat i := b]> m).
Proof. intros. unfold wr. destruct (Z.ltb_spec i 0); [lia|]. destruct (Z.leb_spec (Z.of_nat (length m)) i); [lia|]. done. Qed.

Lemma nth_insert_dec m i j b : (i < length m)%nat -> nth j (<[i := b]> m) 0 = if decide (j = i) then b else nth j m 0.
Proof.
  intros. rewrite !nth_lookup. case_decide; [subst; by rewrite list_lookup_insert_eq|by rewrite list_lookup_insert_ne].
Qed.

Lemma nth_byte m i : bytes_ok m -> byte_ok (nth i m 0).
Proof.
  intros H. destruct (nth_in_or_default i m 0) as [E| ->]; [|unfold byte_ok; lia]. unfold bytes_ok in H. rewrite Forall_forall in H. apply H. by apply list_elem_of_In.
Qed.

Lemma bytes_insert m i b : bytes_ok m -> byte_ok b -> bytes_ok (<[i := b]> m).
Proof. intros. by apply Forall_insert. Qed.

Lemma u8_byte b : byte_ok (u8 b).
Proof. pose proof (uwrap_range 8 b ltac:(lia)) as H. exact H. Qed.

(** ** One register *)

(** The register [i] at the offset [p] of the block. *)
Definition in_block (m : list Z) (p i : Z) : Prop := 0 <= p /\ 0 <= i /\ p + 6 * i / 8 + 1 < Z.of_nat (length m).

(** The two bytes of a register, and where it starts in the first. *)
Lemma register_place i : 0 <= i -> let k := i * HLL_BITS / 8 in let fb := Z.land (i * HLL_BITS) 7 in
  6 * i = 8 * k + fb /\ 0 <= fb <= 6 /\ 0 <= k.
Proof.
  intros Hi. cbn zeta. unfold HLL_BITS. change 7 with (Z.ones 3). rewrite Z.land_ones by lia. change (2 ^ 3) with 8.
  Z.div_mod_to_equations. lia.
Qed.

Lemma bit_place m p i j : 0 <= p -> 0 <= i -> 0 <= j < 6 -> let k := i * HLL_BITS / 8 in let fb := Z.land (i * HLL_BITS) 7 in
  mbit m (8 * p + 6 * i + j) = if fb + j <? 8 then Z.testbit (nth (Z.to_nat (p + k)) m 0) (fb + j)
                               else Z.testbit (nth (Z.to_nat (p + k + 1)) m 0) (fb + j - 8).
Proof.
  intros Hp Hi Hj. cbn zeta. destruct (register_place i Hi) as (E & Hfb & Hk). set (k := i * HLL_BITS / 8) in *. set (fb := Z.land (i * HLL_BITS) 7) in *.
  unfold mbit. destruct (Z.ltb_spec (fb + j) 8).
  - replace ((8 * p + 6 * i + j) / 8) with (p + k) by (Z.div_mod_to_equations; lia).
    replace ((8 * p + 6 * i + j) mod 8) with (fb + j) by (Z.div_mod_to_equations; lia). done.
  - replace ((8 * p + 6 * i + j) / 8) with (p + k + 1) by (Z.div_mod_to_equations; lia).
    replace ((8 * p + 6 * i + j) mod 8) with (fb + j - 8) by (Z.div_mod_to_equations; lia). done.
Qed.

Lemma in_block_bytes m p i : in_block m p i -> let k := i * HLL_BITS / 8 in
  0 <= p + k < Z.of_nat (length m) /\ 0 <= p + k + 1 < Z.of_nat (length m).
Proof. intros (Hp & Hi & H). unfold HLL_BITS. rewrite (Z.mul_comm i 6). assert (0 <= 6 * i / 8) by (apply Z.div_pos; lia). lia. Qed.

(** What is read: bit [j] of the register is the bit [6 i + j]. *)
Lemma dense_get_ok m p i : bytes_ok m -> in_block m p i ->
  exists v, dense_get m p i = Ret v /\ 0 <= v <= 63 /\ forall j, 0 <= j -> Z.testbit v j = (j <? 6) && mbit m (8 * p + 6 * i + j).
Proof.
  intros Hm Hin. destruct (in_block_bytes m p i Hin) as [H0 H1]. destruct Hin as (Hp & Hi & _). destruct (register_place i Hi) as (E & Hfb & Hk).
  unfold dense_get. rewrite (rd_within m _ H0), (rd_within m _ H1). cbn [mbind res_bind]. eexists. split; [reflexivity|]. split.
  - change HLL_REGISTER_MAX with (Z.ones 6). rewrite Z.land_ones by lia. pose proof (Z.mod_pos_bound) as B. match goal with |- 0 <= ?x mod _ <= _ => specialize (B x (2 ^ 6) ltac:(lia)) end. lia.
  - intros j Hj. rewrite Z.land_spec, max_bit, andb_comm by lia. destruct (Z.ltb_spec j 6); [|done]. cbn [andb].
    rewrite (bit_place m p i j Hp Hi ltac:(lia)), Z.lor_spec, Z.shiftr_spec, Z.shiftl_spec by lia.
    rewrite (Z.add_comm j). destruct (Z.ltb_spec (Z.land (i * HLL_BITS) 7 + j) 8).
    + rewrite (Z.testbit_neg_r _ (j - _)) by lia. apply orb_false_r.
    + rewrite (byte_high _ (Z.land (i * HLL_BITS) 7 + j)) by (by apply nth_byte || lia). cbn [orb]. f_equal. lia.
Qed.

(** The masks of a write. *)
Lemma clear_low b v fb t : byte_ok b -> 0 <= fb -> 0 <= t < 8 -> 0 <= v <= 63 ->
  Z.testbit (u8 (Z.lor (u8 (Z.land b (Z.lnot (Z.shiftl HLL_REGISTER_MAX fb)))) (Z.shiftl v fb))) t =
  if fb <=? t then if t <? fb + 6 then Z.testbit v (t - fb) else Z.testbit b t else Z.testbit b t.
Proof.
  intros Hb Hfb Ht Hv. rewrite u8_bit, Z.lor_spec, u8_bit, Z.land_spec, Z.lnot_spec, !Z.shiftl_spec by lia.
  replace (t <? 8) with true by lia. cbn [andb]. destruct (Z.leb_spec fb t).
  - rewrite max_bit by lia. destruct (Z.ltb_spec t (fb + 6)).
    + replace (t - fb <? 6) with true by lia. by rewrite andb_false_r.
    + replace (t - fb <? 6) with false by lia. rewrite andb_true_r.
      rewrite (Z.bits_above_log2 v); [by rewrite orb_false_r|lia|]. destruct (Z.eq_dec v 0) as [->|]; [cbn; lia|]. assert (Z.log2 v < 6) by (apply Z.log2_lt_pow2; lia). lia.
  - rewrite !(Z.testbit_neg_r _ (t - fb)) by lia. by rewrite andb_true_r, orb_false_r.
Qed.

Lemma clear_high b v fb8 t : byte_ok b -> 0 <= fb8 -> 0 <= t < 8 -> 0 <= v <= 63 ->
  Z.testbit (u8 (Z.lor (u8 (Z.land b (Z.lnot (Z.shiftr HLL_REGISTER_MAX fb8)))) (Z.shiftr v fb8))) t =
  if t + fb8 <? 6 then Z.testbit v (t + fb8) else Z.testbit b t.
Proof.
  intros Hb Hfb Ht Hv. rewrite u8_bit, Z.lor_spec, u8_bit, Z.land_spec, Z.lnot_spec, !Z.shiftr_spec by lia.
  replace (t <? 8) with true by lia. cbn [andb]. rewrite max_bit by lia. destruct (Z.ltb_spec (t + fb8) 6).
  - by rewrite andb_false_r.
  - rewrite andb_true_r. rewrite (Z.bits_above_log2 v); [by rewrite orb_false_r|lia|].
    destruct (Z.eq_dec v 0) as [->|]; [cbn; lia|]. assert (Z.log2 v < 6) by (apply Z.log2_lt_pow2; lia). lia.
Qed.

(** What is written: the bits of the register, and no other. *)
Lemma dense_set_ok m p i v : bytes_ok m -> in_block m p i -> 0 <= v <= 63 ->
  exists m', dense_set m p i v = Ret m' /\ bytes_ok m' /\ length m' = length m /\
    (forall n, Z.of_nat n < p -> nth n m' 0 = nth n m 0) /\
    forall k, 0 <= k -> mbit m' k = if (8 * p + 6 * i <=? k) && (k <? 8 * p + 6 * i + 6) then Z.testbit v (k - (8 * p + 6 * i)) else mbit m k.
Proof.
  intros Hm Hin Hv. destruct (in_block_bytes m p i Hin) as [H0 H1]. destruct Hin as (Hp & Hi & _). destruct (register_place i Hi) as (E & Hfb & Hk).
  unfold dense_set. set (kk := i * HLL_BITS / 8) in *. set (fb := Z.land (i * HLL_BITS) 7) in *.
  set (n0 := Z.to_nat (p + kk)). set (n1 := Z.to_nat (p + kk + 1)). assert (N : n1 = S n0) by lia.
  set (b0 := nth n0 m 0). set (b1 := nth n1 m 0).
  set (c0 := u8 (Z.lor (u8 (Z.land b0 (Z.lnot (Z.shiftl HLL_REGISTER_MAX fb)))) (Z.shiftl v fb))).
  set (c1 := u8 (Z.lor (u8 (Z.land b1 (Z.lnot (Z.shiftr HLL_REGISTER_MAX (8 - fb))))) (Z.shiftr v (8 - fb)))).
  assert (Hb0 : byte_ok b0) by (by apply nth_byte). assert (Hb1 : byte_ok b1) by (by apply nth_byte).
  assert (L0 : (n0 < length m)%nat) by lia. assert (L1 : (n1 < length m)%nat) by lia.
  exists (<[n1 := c1]> (<[n0 := c0]> m)). split; [|split; [|split; [|split]]].
  - rewrite (rd_within m _ H0). cbn [mbind res_bind]. fold n0 b0. rewrite (wr_in m _ _ H0). cbn [mbind res_bind]. fold n0.
    rewrite rd_within, nth_insert_dec, decide_True by (rewrite ?length_insert; lia || done). cbn [mbind res_bind]. rewrite wr_in by (rewrite ?length_insert; lia). cbn [mbind res_bind].
    fold n0. rewrite list_insert_insert_eq. fold c0.
    rewrite rd_within, nth_insert_dec, decide_False by (rewrite ?length_insert; lia). cbn [mbind res_bind]. fold n1 b1. rewrite wr_in by (rewrite ?length_insert; lia). cbn [mbind res_bind].
    fold n1. rewrite rd_within, nth_insert_dec, decide_True by (rewrite ?length_insert; lia || done). cbn [mbind res_bind]. rewrite wr_in by (rewrite ?length_insert; lia).
    fold n1. by rewrite list_insert_insert_eq.
  - repeat apply bytes_insert; [done|apply u8_byte..].
  - by rewrite !length_insert.
  - intros n Hn. rewrite !nth_insert_dec by (rewrite ?length_insert; lia). rewrite !decide_False by lia. done.
  - intros k Hk'. unfold mbit. rewrite !nth_insert_dec by (rewrite ?length_insert; lia). pose proof (Z.mod_pos_bound k 8 ltac:(lia)) as Hmod.
    pose proof (Z.div_mod k 8 ltac:(lia)) as Hdm. assert (0 <= k / 8) by (apply Z.div_pos; lia). case_decide as D1; [|case_decide as D0].
    + subst c1. rewrite clear_high by (done || lia). assert (k / 8 = p + kk + 1) by lia. destruct (Z.ltb_spec (k mod 8 + (8 - fb)) 6).
      * replace ((8 * p + 6 * i <=? k) && (k <? 8 * p + 6 * i + 6)) with true by lia. f_equal. lia.
      * replace ((8 * p + 6 * i <=? k) && (k <? 8 * p + 6 * i + 6)) with false by lia. by rewrite D1.
    + subst c0. rewrite clear_low by (done || lia). assert (k / 8 = p + kk) by lia. destruct (Z.leb_spec fb (k mod 8)); [destruct (Z.ltb_spec (k mod 8) (fb + 6))|].
      * replace ((8 * p + 6 * i <=? k) && (k <? 8 * p + 6 * i + 6)) with true by lia. f_equal. lia.
      * replace ((8 * p + 6 * i <=? k) && (k <? 8 * p + 6 * i + 6)) with false by lia. by rewrite D0.
      * replace ((8 * p + 6 * i <=? k) && (k <? 8 * p + 6 * i + 6)) with false by lia. by rewrite D0.
    + replace ((8 * p + 6 * i <=? k) && (k <? 8 * p + 6 * i + 6)) with false by lia. done.
Qed.

(** ** All registers *)

(** The block of a dense object with the registers [regs]. *)
Record dense_ok (m : list Z) (regs : list Z) : Prop := {
  do_bytes : bytes_ok m;
  do_length : Z.of_nat (length m) = HLL_DENSE_SIZE + 1;
  do_end : nth (Z.to_nat HLL_DENSE_SIZE) m 0 = 0;
  do_count : Z.of_nat (length regs) = HLL_REGISTERS;
  do_get i v : regs !! i = Some v -> dense_get m HLL_HDR_SIZE (Z.of_nat i) = Ret v
}.

Lemma dense_size : HLL_DENSE_SIZE = 12304.
Proof. reflexivity. Qed.

Lemma dense_in_block m i : Z.of_nat (length m) = HLL_DENSE_SIZE + 1 -> 0 <= i < HLL_REGISTERS -> in_block m HLL_HDR_SIZE i.
Proof. rewrite dense_size. unfold HLL_REGISTERS, HLL_HDR_SIZE. intros E Hi. split; [lia|]. split; [lia|]. Z.div_mod_to_equations. lia. Qed.

Lemma get_after_set m m' p i j v : bytes_ok m -> bytes_ok m' -> length m' = length m -> in_block m p i -> in_block m p j -> 0 <= v <= 63 ->
  (forall k, 0 <= k -> mbit m' k = if (8 * p + 6 * i <=? k) && (k <? 8 * p + 6 * i + 6) then Z.testbit v (k - (8 * p + 6 * i)) else mbit m k) ->
  dense_get m' p j = if j =? i then Ret v else dense_get m p j.
Proof.
  intros Hm Hm' L Hi Hj Hv Hb. assert (Hj' : in_block m' p j) by (unfold in_block in *; lia).
  destruct (dense_get_ok m' p j Hm' Hj') as (x & -> & Hx & Bx). destruct (dense_get_ok m p j Hm Hj) as (y & -> & Hy & By).
  destruct Hi as (? & ? & _). destruct Hj as (_ & ? & _). destruct (Z.eqb_spec j i) as [->|N]; f_equal; apply Z.bits_inj'; intros t Ht; rewrite Bx by done.
  - destruct (Z.ltb_spec t 6); cbn [andb].
    + rewrite Hb by lia. replace ((8 * p + 6 * i <=? 8 * p + 6 * i + t) && (8 * p + 6 * i + t <? 8 * p + 6 * i + 6)) with true by lia. f_equal. lia.
    + symmetry. destruct (Z.eq_dec v 0) as [->|]; [apply Z.bits_0|]. apply Z.bits_above_log2; [lia|]. assert (Z.log2 v < 6) by (apply Z.log2_lt_pow2; lia). lia.
  - rewrite By by done. destruct (Z.ltb_spec t 6); cbn [andb]; [|done]. rewrite Hb by lia.
    replace ((8 * p + 6 * i <=? 8 * p + 6 * j + t) && (8 * p + 6 * j + t <? 8 * p + 6 * i + 6)) with false; [done|]. symmetry. apply andb_false_iff.
    destruct (Z.lt_ge_cases i j); [right|left]; lia.
Qed.

Lemma same_byte b b' : byte_ok b -> byte_ok b' -> (forall t, 0 <= t < 8 -> Z.testbit b t = Z.testbit b' t) -> b = b'.
Proof.
  intros Hb Hb' H. apply Z.bits_inj'. intros t Ht. destruct (Z.lt_ge_cases t 8); [by apply H|]. by rewrite !byte_high.
Qed.

Lemma dense_set_register m regs i v : dense_ok m regs -> (i < length regs)%nat -> 0 <= v <= 63 ->
  exists m', dense_set m HLL_HDR_SIZE (Z.of_nat i) v = Ret m' /\ dense_ok m' (<[i := v]> regs) /\ take 16 m' = take 16 m.
Proof.
  intros [H1 H2 H3 H4 H5] Hi Hv. assert (B : in_block m HLL_HDR_SIZE (Z.of_nat i)) by (apply dense_in_block; [done|lia]).
  destruct (dense_set_ok m HLL_HDR_SIZE (Z.of_nat i) v H1 B Hv) as (m' & E & Hb & L & Hn & Hk). exists m'. split; [done|]. rewrite dense_size in *. split; [split|].
  - done.
  - by rewrite L.
  - rewrite dense_size. apply same_byte; [by apply nth_byte|split; lia|]. intros t Ht. replace (Z.testbit 0 t) with (Z.testbit (nth (Z.to_nat 12304) m 0) t) by (by rewrite H3). specialize (Hk (8 * 12304 + t) ltac:(lia)). unfold mbit in Hk.
    replace ((8 * 12304 + t) / 8) with 12304 in Hk by (Z.div_mod_to_equations; lia). replace ((8 * 12304 + t) mod 8) with t in Hk by (Z.div_mod_to_equations; lia).
    rewrite Hk. unfold HLL_HDR_SIZE, HLL_REGISTERS in *. replace (_ <? _) with false; [by rewrite andb_false_r|]. symmetry. apply Z.ltb_ge. lia.
  - by rewrite length_insert.
  - intros j x. destruct (decide (j = i)) as [->|N].
    + rewrite list_lookup_insert_eq by done. intros [= <-]. rewrite (get_after_set m m' _ (Z.of_nat i) _ v) by done. by rewrite Z.eqb_refl.
    + rewrite list_lookup_insert_ne by done. intros Hx. pose proof (lookup_lt_Some _ _ _ Hx).
      rewrite (get_after_set m m' _ (Z.of_nat i) _ v) by (done || (apply dense_in_block; rewrite ?dense_size; lia)). destruct (Z.eqb_spec (Z.of_nat j) (Z.of_nat i)); [lia|]. by apply H5.
  - apply list_eq. intros n. destruct (decide (n < 16)%nat); [|by rewrite !lookup_take_ge by lia]. rewrite !lookup_take_lt by done.
    specialize (Hn n ltac:(unfold HLL_HDR_SIZE; lia)). rewrite !nth_lookup in Hn. destruct (lookup_lt_is_Some_2 m n) as [x Ex]; [lia|].
    destruct (lookup_lt_is_Some_2 m' n) as [x' Ex']; [lia|]. rewrite Ex, Ex' in *. by cbn in Hn; subst.
Qed.

(** A block of zeros. *)
Lemma dense_zeros m : bytes_ok m -> Z.of_nat (length m) = HLL_DENSE_SIZE + 1 -> (forall n, (16 <= n)%nat -> nth n m 0 = 0) ->
  dense_ok m (replicate (Z.to_nat HLL_REGISTERS) 0).
Proof.
  intros Hb L Hz. split; [done|done|apply Hz; rewrite dense_size; lia|by rewrite length_replicate|].
  intros i v [-> Hi]%lookup_replicate. destruct (dense_get_ok m HLL_HDR_SIZE (Z.of_nat i) Hb) as (x & -> & _ & Bx); [apply dense_in_block; [done|unfold HLL_REGISTERS in *; lia]|].
  f_equal. apply Z.bits_inj'. intros t Ht. rewrite Bx, Z.bits_0 by done. unfold mbit. rewrite Hz; [by rewrite Z.bits_0, andb_false_r|].
  unfold HLL_HDR_SIZE. assert (16 <= (8 * 16 + 6 * Z.of_nat i + t) / 8) by (apply Z.div_le_lower_bound; lia). lia.
Qed.
