(* ===== verification/HllSparse.v ===== *)
(** * HllSparse: the list of opcodes

    A sparse object is a list of opcodes that cover all registers.  The
    opcode of a register is found, split and merged in place. *)

From S2P Require Import Prelude Hll HllDense.

(** ** Opcodes *)

Inductive opcode : Type :=
  | OZero (n : Z)
  | OXzero (n : Z)
  | OVal (v n : Z).

Definition op_span (o : opcode) : Z := match o with OZero n | OXzero n | OVal _ n => n end.
Definition op_value (o : opcode) : Z := match o with OVal v _ => v | _ => 0 end.
Definition op_bytes (o : opcode) : list Z :=
  match o with OZero n => [zero_byte n] | OXzero n => xzero_bytes n | OVal v n => [val_byte v n] end.

Definition op_ok (o : opcode) : Prop :=
  match o with
  | OZero n => 1 <= n <= HLL_SPARSE_ZERO_MAX_LEN
  | OXzero n => 1 <= n <= HLL_SPARSE_XZERO_MAX_LEN
  | OVal v n => 1 <= v <= HLL_SPARSE_VAL_MAX_VALUE /\ 1 <= n <= HLL_SPARSE_VAL_MAX_LEN
  end.

Definition expand (o : opcode) : list Z := replicate (Z.to_nat (op_span o)) (op_value o).
Definition registers (l : list opcode) : list Z := concat (expand <$> l).
Definition flat (l : list opcode) : list Z := concat (op_bytes <$> l).
Definition spans (l : list opcode) : Z := Z.of_nat (length (registers l)).
Definition size_of (l : list opcode) : Z := Z.of_nat (length (flat l)).

(** What the macros say of the first byte, and of the second. *)
Definition decodes (o : opcode) (b c : Z) : bool :=
  match o with
  | OZero n => HLL_SPARSE_IS_ZERO b && negb (HLL_SPARSE_IS_XZERO b) && negb (HLL_SPARSE_IS_VAL b) && (HLL_SPARSE_ZERO_LEN b =? n)
  | OXzero n => negb (HLL_SPARSE_IS_ZERO b) && HLL_SPARSE_IS_XZERO b && negb (HLL_SPARSE_IS_VAL b) && (HLL_SPARSE_XZERO_LEN b c =? n)
  | OVal v n => negb (HLL_SPARSE_IS_ZERO b) && negb (HLL_SPARSE_IS_XZERO b) && HLL_SPARSE_IS_VAL b &&
      (HLL_SPARSE_VAL_VALUE b =? v) && (HLL_SPARSE_VAL_LEN b =? n)
  end.

Definition is_byte (b : Z) : bool := (0 <=? b) && (b <? 256).

Lemma all_in (f : Z -> bool) n : forallb f (seqZ 1 n) = true -> forall i, 1 <= i <= n -> f i = true.
Proof. intros H i Hi. rewrite forallb_forall in H. apply H, list_elem_of_In, elem_of_seqZ. lia. Qed.

Lemma zero_table : forallb (fun n => decodes (OZero n) (zero_byte n) 0 && is_byte (zero_byte n)) (seqZ 1 64) = true.
Proof. vm_compute. reflexivity. Qed.
Lemma xzero_table : forallb (fun n => match xzero_bytes n with [b; c] => decodes (OXzero n) b c && is_byte b && is_byte c | _ => false end) (seqZ 1 16384) = true.
Proof. vm_compute. reflexivity. Qed.
Lemma val_table : forallb (fun v => forallb (fun n => decodes (OVal v n) (val_byte v n) 0 && is_byte (val_byte v n)) (seqZ 1 4)) (seqZ 1 32) = true.
Proof. vm_compute. reflexivity. Qed.

(** The first byte of an opcode and what follows. *)
Lemma op_head o : op_ok o -> exists b tl, op_bytes o = b :: tl /\ decodes o b (nth 0 tl 0) = true /\ bytes_ok (op_bytes o) /\
  length tl = (match o with OXzero _ => 1 | _ => 0 end)%nat.
Proof.
  unfold bytes_ok, byte_ok. intros H. destruct o as [n|n|v n]; cbn in H.
  - pose proof (all_in _ _ zero_table n H) as T. apply andb_true_iff in T as [T1 T2]. exists (zero_byte n), []. split; [done|]. split; [exact T1|].
    split; [|done]. unfold is_byte in T2. constructor; [lia|constructor].
  - pose proof (all_in _ _ xzero_table n H) as T. exists (u8 (Z.lor (Z.shiftr (n - 1) 8) 64)), [Z.land (n - 1) 255]. split; [done|].
    cbn [xzero_bytes op_bytes nth] in *. apply andb_true_iff in T as [T T3]. apply andb_true_iff in T as [T1 T2]. split; [exact T1|]. split; [|done].
    unfold is_byte in *. constructor; [lia|]. constructor; [lia|constructor].
  - destruct H as [Hv Hn]. pose proof (all_in _ _ val_table v Hv) as T. pose proof (all_in _ _ T n Hn) as T'. apply andb_true_iff in T' as [T1 T2].
    exists (val_byte v n), []. split; [done|]. split; [exact T1|]. split; [|done]. unfold is_byte in T2. constructor; [lia|constructor].
Qed.

Lemma op_span_pos o : op_ok o -> 1 <= op_span o.
Proof. destruct o; cbn; lia. Qed.

Lemma op_span_length o : op_ok o -> Z.of_nat (length (expand o)) = op_span o.
Proof. intros H. pose proof (op_span_pos o H). unfold expand. rewrite length_replicate. lia. Qed.

Lemma opcodes_app a b : flat (a ++ b) = flat a ++ flat b.
Proof. unfold flat. by rewrite fmap_app, concat_app. Qed.
Lemma opcodes_cons o l : flat (o :: l) = op_bytes o ++ flat l.
Proof. done. Qed.
Lemma registers_app a b : registers (a ++ b) = registers a ++ registers b.
Proof. unfold registers. by rewrite fmap_app, concat_app. Qed.
Lemma registers_cons o l : registers (o :: l) = expand o ++ registers l.
Proof. done. Qed.
Lemma spans_app a b : spans (a ++ b) = spans a + spans b.
Proof. unfold spans. rewrite registers_app, length_app. lia. Qed.
Lemma spans_cons o l : op_ok o -> spans (o :: l) = op_span o + spans l.
Proof. intros H. unfold spans. rewrite registers_cons, length_app, Nat2Z.inj_add, op_span_length by done. done. Qed.
Lemma size_app a b : size_of (a ++ b) = size_of a + size_of b.
Proof. unfold size_of. rewrite opcodes_app, length_app. lia. Qed.
Lemma size_cons o l : size_of (o :: l) = Z.of_nat (length (op_bytes o)) + size_of l.
Proof. unfold size_of. rewrite opcodes_cons, length_app. lia. Qed.
Lemma size_nil : size_of [] = 0.
Proof. done. Qed.
Lemma spans_nil : spans [] = 0.
Proof. done. Qed.
Lemma size_nonneg l : 0 <= size_of l.
Proof. unfold size_of. lia. Qed.
Lemma spans_nonneg l : 0 <= spans l.
Proof. unfold spans. lia. Qed.

Lemma op_size o : op_ok o -> Z.of_nat (length (op_bytes o)) = match o with OXzero _ => 2 | _ => 1 end.
Proof. intros H. destruct (op_head o H) as (b & tl & -> & _ & _ & L). cbn [length]. rewrite L. by destruct o. Qed.

(** ** The block of a sparse object *)

Definition HYLL : list Z := [72; 89; 76; 76].

(** The opcodes [ops] are between the header and the terminator. *)
Definition sparse_mem (m : list Z) (hdr : list Z) (ops : list opcode) (rest : list Z) : Prop := m = hdr ++ flat ops ++ 0 :: rest.

Record sparse_ok (o : hllobj) (ops : list opcode) : Prop := {
  so_mem : exists hdr rest, sparse_mem (hmem o) hdr ops rest /\ length hdr = 16%nat /\ bytes_ok hdr /\ take 4 hdr = HYLL /\ nth 4 hdr 0 = HLL_SPARSE;
  so_len : hlen o = HLL_HDR_SIZE + size_of ops;
  so_ops : Forall op_ok ops;
  so_spans : spans ops = HLL_REGISTERS
}.

(** Reading an opcode that lies at [p]. *)
Lemma read_op m pre o post p : op_ok o -> m = pre ++ op_bytes o ++ post -> p = Z.of_nat (length pre) ->
  exists b c, rd m p = Ret b /\ decodes o b c = true /\ (match o with OXzero _ => rd m (p + 1) = Ret c | _ => True end).
Proof.
  intros H -> ->. destruct (op_head o H) as (b & tl & -> & D & _ & L). exists b, (nth 0 tl 0). split; [by apply rd_at|]. split; [done|].
  destruct o; try done. destruct tl as [|c [|]]; try done. cbn [app nth]. replace (pre ++ b :: c :: post) with ((pre ++ [b]) ++ c :: post) by (by rewrite <- app_assoc).
  apply rd_at. rewrite length_app. cbn. lia.
Qed.

Lemma decodes_zero n b c : decodes (OZero n) b c = true -> HLL_SPARSE_IS_ZERO b = true /\ HLL_SPARSE_IS_XZERO b = false /\ HLL_SPARSE_IS_VAL b = false /\ HLL_SPARSE_ZERO_LEN b = n.
Proof. cbn. rewrite !andb_true_iff, !negb_true_iff, Z.eqb_eq. tauto. Qed.
Lemma decodes_xzero n b c : decodes (OXzero n) b c = true -> HLL_SPARSE_IS_ZERO b = false /\ HLL_SPARSE_IS_XZERO b = true /\ HLL_SPARSE_IS_VAL b = false /\ HLL_SPARSE_XZERO_LEN b c = n.
Proof. cbn. rewrite !andb_true_iff, !negb_true_iff, Z.eqb_eq. tauto. Qed.
Lemma decodes_val v n b c : decodes (OVal v n) b c = true -> HLL_SPARSE_IS_ZERO b = false /\ HLL_SPARSE_IS_XZERO b = false /\ HLL_SPARSE_IS_VAL b = true /\
  HLL_SPARSE_VAL_VALUE b = v /\ HLL_SPARSE_VAL_LEN b = n.
Proof. cbn. rewrite !andb_true_iff, !negb_true_iff, !Z.eqb_eq. tauto. Qed.

(** ** Step 1: finding the opcode of a register *)

Definition prev_of (d : list opcode) : option Z := match d with [] => None | _ => Some (HLL_HDR_SIZE + size_of (removelast d)) end.

Lemma prev_of_snoc d o : prev_of (d ++ [o]) = Some (HLL_HDR_SIZE + size_of d).
Proof. unfold prev_of. rewrite removelast_last. by destruct d. Qed.

Lemma find_opcode_ok m hdr rest index r : forall d fuel first span, m = hdr ++ flat (d ++ r) ++ 0 :: rest -> length hdr = 16%nat -> Forall op_ok (d ++ r) ->
  first = spans d -> spans d <= index < spans (d ++ r) -> (length r < fuel)%nat ->
  exists d' o post, d ++ r = d' ++ o :: post /\ spans d' <= index < spans d' + op_span o /\
    find_opcode fuel m (HLL_HDR_SIZE + size_of (d ++ r)) index (HLL_HDR_SIZE + size_of d) (prev_of d) first span =
    Ret (HLL_HDR_SIZE + size_of d', prev_of d', spans d', op_span o).
Proof.
  induction r as [|o r IH]; intros d fuel first span Hm Hh Hok -> Hi Hf; [rewrite app_nil_r in Hi; lia|].
  destruct fuel as [|fuel]; [cbn in Hf; lia|]. cbn [find_opcode]. assert (Ho : op_ok o) by (apply Forall_app in Hok as [_ Hok]; by apply Forall_cons in Hok as [Hok _]).
  pose proof (size_nonneg r). pose proof (op_size o Ho) as Hs. rewrite size_app, size_cons. assert (Hz : 1 <= Z.of_nat (length (op_bytes o)) <= 2) by (rewrite Hs; destruct o; lia).
  destruct (Z.leb_spec (HLL_HDR_SIZE + (size_of d + (Z.of_nat (length (op_bytes o)) + size_of r))) (HLL_HDR_SIZE + size_of d)) as [|_]; [lia|].
  assert (Hpos : HLL_HDR_SIZE + size_of d = Z.of_nat (length (hdr ++ flat d))) by (rewrite length_app, Hh; unfold size_of, HLL_HDR_SIZE; lia).
  destruct (read_op m (hdr ++ flat d) o (flat r ++ 0 :: rest) (HLL_HDR_SIZE + size_of d) Ho) as (b & c & -> & D & E);
    [rewrite Hm, opcodes_app, opcodes_cons, <- !app_assoc; done|done|]. cbn [mbind res_bind].
  assert (R : (if HLL_SPARSE_IS_ZERO b then Ret (HLL_SPARSE_ZERO_LEN b, 1) else if HLL_SPARSE_IS_VAL b then Ret (HLL_SPARSE_VAL_LEN b, 1)
    else b1 ← rd m (HLL_HDR_SIZE + size_of d + 1); Ret (HLL_SPARSE_XZERO_LEN b b1, 2)) = Ret (op_span o, Z.of_nat (length (op_bytes o)))).
  { rewrite Hs. destruct o as [n|n|v n].
    - by apply decodes_zero in D as (-> & _ & _ & ->).
    - apply decodes_xzero in D as (-> & _ & -> & D). rewrite E. cbn [mbind res_bind]. by rewrite D.
    - by apply decodes_val in D as (-> & _ & -> & _ & ->). }
  rewrite R. cbn [mbind res_bind]. pose proof (spans_cons o r Ho). rewrite spans_app in Hi. destruct (Z.leb_spec index (spans d + op_span o - 1)).
  - exists d, o, r. split; [done|]. split; [lia|]. done.
  - destruct (IH (d ++ [o]) fuel (spans d + op_span o) (op_span o)) as (d' & o' & post & E1 & E2 & E3).
    + by rewrite <- app_assoc.
    + done.
    + by rewrite <- app_assoc.
    + by rewrite spans_app, spans_cons, spans_nil, Z.add_0_r.
    + rewrite <- app_assoc. cbn [app]. rewrite !spans_app, !spans_cons, spans_nil by done. lia.
    + cbn in Hf. lia.
    + exists d', o', post. rewrite <- app_assoc in E1. split; [done|]. split; [done|]. rewrite <- E3, prev_of_snoc. rewrite <- app_assoc. cbn [app].
      rewrite !size_app, !size_cons, size_nil. f_equal; lia.
Qed.

(** ** Step 3: replacing bytes *)

(** With room for the sequence, the tail and a terminator. *)
Lemma finish_replace A X tail y Y seq len : length X = length seq ->
  incr_len (mk_hll (A ++ X ++ tail ++ y :: Y) len) (Z.of_nat (length A + length X + length tail) - len) =
    Ret (mk_hll (A ++ X ++ tail ++ 0 :: Y) (Z.of_nat (length A + length X + length tail))) ->
  (o ← incr_len (mk_hll (A ++ X ++ tail ++ y :: Y) len) (Z.of_nat (length A + length X + length tail) - len);
   m ← memwrite (hmem o) (Z.of_nat (length A)) seq; Ret (mk_hll m (hlen o))) =
  Ret (mk_hll (A ++ seq ++ tail ++ 0 :: Y) (Z.of_nat (length A + length X + length tail))).
Proof.
  intros HX ->. cbn [mbind res_bind hmem]. rewrite memwrite_ok by (rewrite !length_app; lia). cbn [mbind res_bind hlen]. by rewrite blit_app_mid.
Qed.

Lemma incr_len_ok A X tail y Y len : 0 <= len -> len <= Z.of_nat (length A + length X + length tail + length Y) ->
  incr_len (mk_hll (A ++ X ++ tail ++ y :: Y) len) (Z.of_nat (length A + length X + length tail) - len) =
    Ret (mk_hll (A ++ X ++ tail ++ 0 :: Y) (Z.of_nat (length A + length X + length tail))).
Proof.
  intros H0 H1. unfold incr_len. cbn [hmem hlen]. rewrite !length_app. cbn [length].
  set (d := Z.of_nat (length A + length X + length tail)) in *. replace (len + (d - len)) with d by lia.
  replace (if 0 <=? d - len then _ else _) with true by (destruct (Z.leb_spec 0 (d - len)); symmetry; apply Z.leb_le; lia).
  replace (A ++ X ++ tail ++ y :: Y) with ((A ++ X ++ tail) ++ y :: Y) by (by rewrite <- !app_assoc). rewrite wr_at by (rewrite !length_app; lia).
  cbn [mbind res_bind]. by rewrite <- !app_assoc.
Qed.

(** The bytes [old] before [tail] are replaced by [seq], with the tail moved,
    the length and the terminator set. *)
Lemma replace_ok A old seq tail rest : (length seq <= length old + length rest)%nat ->
  exists rest', replace_seq (mk_hll (A ++ old ++ tail ++ 0 :: rest) (Z.of_nat (length A + length old + length tail))) (Z.of_nat (length A)) seq (Z.of_nat (length old)) =
  Ret (mk_hll (A ++ seq ++ tail ++ 0 :: rest') (Z.of_nat (length A + length seq + length tail))) /\
  (length seq + length rest' = length old + length rest)%nat.
Proof.
  intros Hroom. unfold replace_seq. cbn [hmem hlen]. set (len := Z.of_nat (length A + length old + length tail)).
  replace (Z.of_nat (length A) + Z.of_nat (length old) + (Z.of_nat (length seq) - Z.of_nat (length old))) with (Z.of_nat (length A + length seq)) by lia.
  assert (S : exists X y Y, (if negb (Z.of_nat (length seq) - Z.of_nat (length old) =? 0) && (Z.of_nat (length A) + Z.of_nat (length old) <? len)
      then bs ← memread (A ++ old ++ tail ++ 0 :: rest) (Z.of_nat (length A) + Z.of_nat (length old)) (Z.to_nat (len - (Z.of_nat (length A) + Z.of_nat (length old))));
           memwrite (A ++ old ++ tail ++ 0 :: rest) (Z.of_nat (length A + length seq)) bs
      else Ret (A ++ old ++ tail ++ 0 :: rest)) = Ret (A ++ X ++ tail ++ y :: Y) /\ length X = length seq /\ (length seq + length Y = length old + length rest)%nat).
  { destruct (Z.eqb_spec (Z.of_nat (length seq) - Z.of_nat (length old)) 0) as [E|E]; cbn [negb andb].
    - exists old, 0, rest. split; [done|]. lia.
    - destruct (Z.ltb_spec (Z.of_nat (length A) + Z.of_nat (length old)) len) as [F|F].
      + replace (Z.of_nat (length A) + Z.of_nat (length old)) with (Z.of_nat (length A + length old)) by lia.
        replace (Z.to_nat (len - Z.of_nat (length A + length old))) with (length tail) by lia.
        rewrite memread_ok by (rewrite !length_app; lia). cbn [mbind res_bind].
        replace (slice (A ++ old ++ tail ++ 0 :: rest) (length A + length old) (length tail)) with tail.
        2: { symmetry. rewrite (app_assoc A old), <- length_app. apply slice_app_mid. }
        rewrite memwrite_ok by (rewrite !length_app; cbn [length]; lia). unfold blit.
        rewrite take_app_ge, drop_app_ge by lia. replace (length A + length seq - length A)%nat with (length seq) by lia.
        replace (length A + length seq + length tail - length A)%nat with (length seq + length tail)%nat by lia.
        destruct (drop (length seq + length tail) (old ++ tail ++ 0 :: rest)) as [|y Y] eqn:ED.
        { apply (f_equal length) in ED. rewrite length_drop, !length_app in ED. cbn [length] in ED. lia. }
        exists (take (length seq) (old ++ tail ++ 0 :: rest)), y, Y. split; [by rewrite <- app_assoc|]. apply (f_equal length) in ED.
        rewrite length_drop, !length_app in ED. cbn [length] in ED. rewrite length_take, !length_app. cbn [length]. lia.
      + destruct tail as [|]; [|cbn [length] in *; lia]. cbn [app]. destruct (drop (length seq) (old ++ 0 :: rest)) as [|y Y] eqn:ED.
        { apply (f_equal length) in ED. rewrite length_drop, !length_app in ED. cbn [length] in ED. lia. }
        exists (take (length seq) (old ++ 0 :: rest)), y, Y. split; [by rewrite <- ED, take_drop|]. apply (f_equal length) in ED.
        rewrite length_drop, !length_app in ED. cbn [length] in ED. rewrite length_take, !length_app. cbn [length]. lia. }
  destruct S as (X & y & Y & -> & HX & HY). cbn [mbind res_bind]. exists Y. split; [|lia].
  replace (Z.of_nat (length seq) - Z.of_nat (length old)) with (Z.of_nat (length A + length X + length tail) - len) by lia. rewrite <- HX.
  rewrite finish_replace; [done|done|]. apply incr_len_ok; lia.
Qed.

(** ** Step 2: splitting an opcode *)

Definition zeros_ops (n : Z) : list opcode := if n =? 0 then [] else if HLL_SPARSE_ZERO_MAX_LEN <? n then [OXzero n] else [OZero n].
Definition vals_ops (v n : Z) : list opcode := if n =? 0 then [] else [OVal v n].
Definition split_op (o : opcode) (a count b : Z) : list opcode :=
  match o with
  | OVal v _ => vals_ops v a ++ [OVal count 1] ++ vals_ops v b
  | _ => zeros_ops a ++ [OVal count 1] ++ zeros_ops b
  end.

Lemma flat_zeros n : flat (zeros_ops n) = zeros_seq n.
Proof. unfold zeros_ops, zeros_seq. destruct (n =? 0); [done|]. by destruct (_ <? _). Qed.
Lemma flat_vals v n : flat (vals_ops v n) = vals_seq v n.
Proof. unfold vals_ops, vals_seq. by destruct (n =? 0). Qed.

Lemma zeros_ops_ok n : 0 <= n <= HLL_SPARSE_XZERO_MAX_LEN -> Forall op_ok (zeros_ops n).
Proof.
  unfold HLL_SPARSE_XZERO_MAX_LEN. intros H. unfold zeros_ops, HLL_SPARSE_ZERO_MAX_LEN. destruct (Z.eqb_spec n 0); [constructor|].
  destruct (Z.ltb_spec 64 n); constructor; try constructor; cbn; unfold HLL_SPARSE_XZERO_MAX_LEN, HLL_SPARSE_ZERO_MAX_LEN; lia.
Qed.
Lemma vals_ops_ok v n : 1 <= v <= 32 -> 0 <= n <= 4 -> Forall op_ok (vals_ops v n).
Proof.
  intros Hv H. unfold vals_ops. destruct (Z.eqb_spec n 0); [constructor|]. constructor; [|constructor]. cbn.
  unfold HLL_SPARSE_VAL_MAX_VALUE, HLL_SPARSE_VAL_MAX_LEN. lia.
Qed.

Lemma registers_zeros n : registers (zeros_ops n) = replicate (Z.to_nat n) 0.
Proof.
  unfold zeros_ops. destruct (Z.eqb_spec n 0) as [->|]; [done|]. destruct (_ <? _); rewrite registers_cons; apply app_nil_r.
Qed.
Lemma registers_vals v n : registers (vals_ops v n) = replicate (Z.to_nat n) v.
Proof. unfold vals_ops. destruct (Z.eqb_spec n 0) as [->|]; [done|]. rewrite registers_cons; apply app_nil_r. Qed.

Lemma split_registers o a count b : 0 <= a -> 0 <= b -> op_span o = a + 1 + b ->
  registers (split_op o a count b) = <[Z.to_nat a := count]> (expand o).
Proof.
  intros Ha Hb E. assert (R : forall v, registers (split_op o a count b) = replicate (Z.to_nat a) v ++ count :: replicate (Z.to_nat b) v ->
    v = op_value o -> registers (split_op o a count b) = <[Z.to_nat a := count]> (expand o)).
  { intros v -> ->. unfold expand. replace (Z.to_nat (op_span o)) with (Z.to_nat a + S (Z.to_nat b))%nat by lia. rewrite replicate_add, replicate_S.
    rewrite insert_app_r_alt by (by rewrite length_replicate). by rewrite length_replicate, Nat.sub_diag. }
  destruct o as [n|n|v n]; cbn [split_op] in *; (eapply R; [|reflexivity]); rewrite !registers_app, ?registers_zeros, ?registers_vals; done.
Qed.

Lemma split_ok o a count b : op_ok o -> 0 <= a -> 0 <= b -> op_span o = a + 1 + b -> 1 <= count <= 32 -> Forall op_ok (split_op o a count b).
Proof.
  intros Ho Ha Hb E Hc. assert (C : op_ok (OVal count 1)) by (cbn; unfold HLL_SPARSE_VAL_MAX_VALUE, HLL_SPARSE_VAL_MAX_LEN; lia).
  destruct o as [n|n|v n]; cbn in *; unfold HLL_SPARSE_XZERO_MAX_LEN, HLL_SPARSE_ZERO_MAX_LEN, HLL_SPARSE_VAL_MAX_VALUE, HLL_SPARSE_VAL_MAX_LEN in *;
    (apply Forall_app; split; [|apply Forall_cons; split; [exact C|]]);
    (apply zeros_ops_ok; unfold HLL_SPARSE_XZERO_MAX_LEN; lia) || (apply vals_ops_ok; lia).
Qed.

Lemma length_zeros_seq n : (length (zeros_seq n) <= 2)%nat.
Proof. unfold zeros_seq. destruct (_ =? _); [cbn; lia|]. destruct (_ <? _); cbn; lia. Qed.
Lemma length_zeros_short n : n <= 64 -> (length (zeros_seq n) <= 1)%nat.
Proof. intros. unfold zeros_seq, HLL_SPARSE_ZERO_MAX_LEN. destruct (_ =? _); [cbn; lia|]. destruct (Z.ltb_spec 64 n); [lia|cbn; lia]. Qed.
Lemma length_vals_seq v n : (length (vals_seq v n) <= 1)%nat.
Proof. unfold vals_seq. destruct (_ =? _); cbn; lia. Qed.

(** The sequence is at most three bytes longer than the opcode. *)
Lemma split_length o a count b : op_ok o -> 0 <= a -> 0 <= b -> op_span o = a + 1 + b ->
  (length (flat (split_op o a count b)) <= length (op_bytes o) + 3)%nat /\ (1 <= length (flat (split_op o a count b)))%nat.
Proof.
  intros Ho Ha Hb E. destruct o as [n|n|v n]; cbn in Ho, E; unfold split_op; rewrite !opcodes_app, ?flat_zeros, ?flat_vals, !length_app; cbn [flat fmap list_fmap concat op_bytes app length xzero_bytes].
  - unfold HLL_SPARSE_ZERO_MAX_LEN in Ho. pose proof (length_zeros_short a ltac:(lia)). pose proof (length_zeros_short b ltac:(lia)). lia.
  - pose proof (length_zeros_seq a). pose proof (length_zeros_seq b). lia.
  - pose proof (length_vals_seq v a). pose proof (length_vals_seq v b). lia.
Qed.

(** ** Step 4: merging adjacent values *)

(** The object has the opcodes [ops] behind the header [hdr]. *)
Definition holds (o : hllobj) (hdr : list Z) (ops : list opcode) : Prop :=
  (exists rest, sparse_mem (hmem o) hdr ops rest) /\ hlen o = HLL_HDR_SIZE + size_of ops.

Lemma expand_merge v a b : 0 <= a -> 0 <= b -> expand (OVal v a) ++ expand (OVal v b) = expand (OVal v (a + b)).
Proof. intros. unfold expand. cbn. by rewrite <- replicate_add, Z2Nat.inj_add. Qed.

(** Equal concatenations. *)
Ltac app_eq := repeat (rewrite <- app_assoc || rewrite <- app_comm_cons); reflexivity.

Lemma merge_step hdr d v n1 n2 r o : holds o hdr (d ++ OVal v n1 :: OVal v n2 :: r) -> length hdr = 16%nat ->
  exists o', (m ← wr (hmem o) (HLL_HDR_SIZE + size_of d + 1) (val_byte v (n1 + n2));
     bs ← memread m (HLL_HDR_SIZE + size_of d + 1) (Z.to_nat (hlen o - (HLL_HDR_SIZE + size_of d)));
     m ← memwrite m (HLL_HDR_SIZE + size_of d) bs; incr_len (mk_hll m (hlen o)) (-1)) = Ret o' /\ holds o' hdr (d ++ OVal v (n1 + n2) :: r) /\ hlen o' = hlen o - 1.
Proof.
  intros [[rest Hm] Hl] Hh. unfold sparse_mem in Hm. rewrite opcodes_app, !opcodes_cons in Hm. cbn [op_bytes app] in Hm. rewrite size_app, !size_cons in Hl. cbn [op_bytes length] in Hl.
  set (A := hdr ++ flat d). assert (HA : HLL_HDR_SIZE + size_of d = Z.of_nat (length A)) by (unfold A; rewrite length_app, Hh; unfold size_of, HLL_HDR_SIZE; lia).
  set (B := flat r). assert (HB : size_of r = Z.of_nat (length B)) by done. rewrite HA.
  assert (E : hmem o = (A ++ [val_byte v n1]) ++ val_byte v n2 :: B ++ 0 :: rest) by (rewrite Hm; unfold A, B; app_eq).
  rewrite E, wr_at by (rewrite length_app; cbn; lia). cbn [mbind res_bind]. 
  set (w := val_byte v (n1 + n2)).
  replace ((A ++ [val_byte v n1]) ++ w :: B ++ 0 :: rest) with ((A ++ [val_byte v n1]) ++ ((w :: B) ++ [0]) ++ rest) by app_eq.
  replace (Z.of_nat (length A) + 1) with (Z.of_nat (length (A ++ [val_byte v n1]))) by (rewrite length_app; cbn; lia).
  replace (Z.to_nat (hlen o - Z.of_nat (length A))) with (length ((w :: B) ++ [0])) by (rewrite length_app; cbn [length]; lia).
  rewrite memread_ok by (rewrite !length_app; lia). cbn [mbind res_bind]. rewrite slice_app_mid.
  replace ((A ++ [val_byte v n1]) ++ ((w :: B) ++ [0]) ++ rest) with (A ++ (val_byte v n1 :: w :: B) ++ 0 :: rest) by app_eq.
  rewrite memwrite_ok by (rewrite !length_app; cbn [length]; rewrite ?length_app; cbn [length]; lia). cbn [mbind res_bind].
  rewrite blit_app_mid by (rewrite length_app; cbn [length]; lia).
  eexists. split; [|split; [split|]].
  - replace (-1) with (Z.of_nat (length A + length [w] + length B) - hlen o) by (cbn [length]; lia).
    replace (A ++ ((w :: B) ++ [0]) ++ 0 :: rest) with (A ++ [w] ++ B ++ 0 :: 0 :: rest) by app_eq.
    apply incr_len_ok; cbn [length]; lia.
  - exists (0 :: rest). unfold sparse_mem. cbn [hmem]. unfold A, B. rewrite opcodes_app, opcodes_cons. app_eq.
  - cbn [hlen]. rewrite size_app, size_cons. cbn [op_bytes length]. lia.
  - cbn [hlen length]. lia.
Qed.

Lemma merge_values_ok hdr scanlen : length hdr = 16%nat -> forall d r o, holds o hdr (d ++ r) -> Forall op_ok (d ++ r) ->
  exists ops' o', merge_values scanlen o (HLL_HDR_SIZE + size_of d) (hlen o) = Ret (o', hlen o') /\ holds o' hdr ops' /\ Forall op_ok ops' /\
    registers ops' = registers (d ++ r) /\ hlen o' <= hlen o.
Proof.
  intros Hh. induction scanlen as [|scanlen IH]; intros d r o Ho Hok; cbn [merge_values]; [by exists (d ++ r), o|].
  destruct r as [|x r].
  { destruct Ho as [Hm Hl]. rewrite app_nil_r in Hl. destruct (Z.leb_spec (hlen o) (HLL_HDR_SIZE + size_of d)); [|lia]. exists (d ++ []), o. split; [done|].
    split; [split; [done|by rewrite app_nil_r]|done]. }
  assert (Hx : op_ok x) by (apply Forall_app in Hok as [_ Hok]; by apply Forall_cons in Hok as [Hok _]). pose proof (op_size x Hx) as Hs.
  pose proof Ho as [[rest Hm] Hl]. unfold sparse_mem in Hm. assert (HA : HLL_HDR_SIZE + size_of d = Z.of_nat (length (hdr ++ flat d))) by (rewrite length_app, Hh; unfold size_of, HLL_HDR_SIZE; lia).
  assert (Hend : hlen o = HLL_HDR_SIZE + size_of d + Z.of_nat (length (op_bytes x)) + size_of r) by (rewrite Hl, size_app, size_cons; lia). pose proof (size_nonneg r).
  destruct (Z.leb_spec (hlen o) (HLL_HDR_SIZE + size_of d)); [destruct x; lia|].
  assert (Next : forall k, k = Z.of_nat (length (op_bytes x)) -> exists ops' o', merge_values scanlen o (HLL_HDR_SIZE + size_of d + k) (hlen o) = Ret (o', hlen o') /\
    holds o' hdr ops' /\ Forall op_ok ops' /\ registers ops' = registers (d ++ x :: r) /\ hlen o' <= hlen o).
  { intros k ->. replace (d ++ x :: r) with ((d ++ [x]) ++ r) in * by (by rewrite <- app_assoc). destruct (IH (d ++ [x]) r o Ho Hok) as (ops' & o' & E & Hr).
    rewrite size_app, size_cons, size_nil in E. exists ops', o'. split; [|done]. rewrite <- E. f_equal. lia. }
  destruct (read_op (hmem o) (hdr ++ flat d) x (flat r ++ 0 :: rest) (HLL_HDR_SIZE + size_of d) Hx) as (b & c & -> & D & _); [rewrite Hm, opcodes_app, opcodes_cons, <- !app_assoc; done|done|].
  cbn [mbind res_bind]. destruct x as [n|n|v n].
  - apply decodes_zero in D as (-> & -> & _). by apply Next.
  - apply decodes_xzero in D as (_ & -> & _). by apply Next.
  - apply decodes_val in D as (Dz & -> & Dv & EV & EL). rewrite Dz. cbn [op_bytes length] in Hend. destruct (Z.ltb_spec (HLL_HDR_SIZE + size_of d + 1) (hlen o)) as [Hlt|Hlt].
    2: { cbn [mbind res_bind mergeable]. by apply Next. }
    destruct r as [|y r]; [rewrite size_nil in Hend; lia|].
    assert (Hy : op_ok y) by (apply Forall_app in Hok as [_ Hok]; apply Forall_cons in Hok as [_ Hok]; by apply Forall_cons in Hok as [Hok _]).
    destruct (read_op (hmem o) (hdr ++ flat d ++ [val_byte v n]) y (flat r ++ 0 :: rest) (HLL_HDR_SIZE + size_of d + 1) Hy) as (b2 & c2 & -> & D2 & _).
    { rewrite Hm, opcodes_app, !opcodes_cons, <- !app_assoc. done. }
    { rewrite app_assoc, length_app, Nat2Z.inj_add, <- HA. done. }
    cbn [mbind res_bind mergeable]. destruct (HLL_SPARSE_IS_VAL b2 && _ && _) eqn:Em; [|by apply Next].
    apply andb_true_iff in Em as [Em Hle]. apply andb_true_iff in Em as [Hv Heq]. apply Z.eqb_eq in Heq. apply Z.leb_le in Hle.
    destruct y as [n2|n2|v2 n2]; [by apply decodes_zero in D2 as (_ & _ & F & _); rewrite F in Hv|by apply decodes_xzero in D2 as (_ & _ & F & _); rewrite F in Hv|].
    apply decodes_val in D2 as (_ & _ & _ & EV2 & EL2). rewrite EV, EL, EL2 in *. assert (v2 = v) as -> by congruence.
    destruct (merge_step hdr d v n n2 r o Ho Hh) as (o1 & E1 & Ho1 & Hl1).
    assert (Hok1 : Forall op_ok (d ++ OVal v (n + n2) :: r)).
    { apply Forall_app in Hok as [Hd Hok]. apply Forall_cons in Hok as [_ Hok]. apply Forall_cons in Hok as [_ Hok]. apply Forall_app. split; [done|].
      apply Forall_cons. split; [|done]. cbn in Hx, Hy |- *. unfold HLL_SPARSE_VAL_MAX_LEN in *. lia. }
    destruct (IH d (OVal v (n + n2) :: r) o1 Ho1 Hok1) as (ops' & o' & E & H1 & H2 & H3 & H4). exists ops', o'. rewrite Hl1 in E, H4.
    split; [|split; [done|split; [done|split; [|lia]]]].
    + unfold mbind, res_bind in E1 |- *. repeat match type of E1 with context [match ?x with _ => _ end] => destruct x; [|done] end. by rewrite E1.
    + rewrite H3, !registers_app, !registers_cons, <- (expand_merge v n n2); [by rewrite <- app_assoc|cbn in Hx; lia|cbn in Hy; lia].
Qed.
