(* ===== verification/HllTheorems.v ===== *)
(** * HllTheorems: a HyperLogLog is an array of maxima

    Adding an element to an object of either encoding is the update of one
    register; the registers depend on the set of the elements only; merging
    takes the maximum of each register. *)

From S2P Require Import Prelude Hll HllDense HllSparse.

(** ** The counts *)

Lemma count_zeros_ok fuel hash : Z.testbit hash 63 = true -> forall k bit count, bit = 2 ^ k -> 14 <= k <= 63 -> count = k - 13 -> (Z.to_nat (63 - k) < fuel)%nat ->
  exists c, count_zeros fuel hash bit count = Ret c /\ count <= c <= 50.
Proof.
  intros Hh. induction fuel as [|fuel IH]; intros k bit count -> Hk -> Hf; [lia|]. cbn [count_zeros]. destruct (Z.eqb_spec (Z.land hash (2 ^ k)) 0) as [E|E].
  - destruct (Z.eq_dec k 63) as [->|N].
    { exfalso. assert (Z.testbit (Z.land hash (2 ^ 63)) 63 = true); [|by rewrite E in *]. by rewrite Z.land_spec, Hh, Z.pow2_bits_true by lia. }
    destruct (IH (k + 1) (u64 (Z.shiftl (2 ^ k) 1)) (k - 13 + 1)) as (c & -> & Hc); [|lia|lia|lia|exists c; split; [done|lia]].
    rewrite Z.shiftl_mul_pow2, <- Z.pow_add_r by lia. apply uwrap_id. split; [apply Z.pow_nonneg; lia|apply Z.pow_lt_mono_r; lia].
  - exists (k - 13). split; [done|lia].
Qed.

(** Any element has a register and a count. *)
Lemma hllPatLen_ok ele : exists count index, hllPatLen ele = Ret (count, index) /\ 1 <= count <= 50 /\ 0 <= index < HLL_REGISTERS.
Proof.
  unfold hllPatLen. set (h := MurmurHash64A ele _). destruct (count_zeros_ok 64 (Z.lor h (Z.shiftl 1 63))) with (k := 14) (bit := HLL_REGISTERS) (count := 1) as (c & -> & Hc); [|done|lia|done|lia|].
  { rewrite Z.lor_spec, Z.shiftl_spec by lia. cbn. apply orb_true_r. }
  cbn [mbind res_bind]. exists c, (Z.land h HLL_P_MASK). split; [done|]. split; [lia|]. unfold HLL_P_MASK, HLL_REGISTERS. change 16383 with (Z.ones 14). rewrite Z.land_ones by lia.
  apply Z.mod_pos_bound. lia.
Qed.

Definition count_of (ele : list Z) : Z := match hllPatLen ele with Ret (c, _) => c | Fault _ => 0 end.
Definition index_of (ele : list Z) : nat := match hllPatLen ele with Ret (_, i) => Z.to_nat i | Fault _ => 0%nat end.

Lemma pat_of ele : hllPatLen ele = Ret (count_of ele, Z.of_nat (index_of ele)) /\ 1 <= count_of ele <= 50 /\ Z.of_nat (index_of ele) < HLL_REGISTERS.
Proof.
  destruct (hllPatLen_ok ele) as (c & i & E & Hc & Hi). unfold count_of, index_of. rewrite E. rewrite Z2Nat.id by lia. auto with lia.
Qed.

(** ** Objects *)

(** The object has the registers [regs]. *)
Inductive hll_ok (o : hllobj) (regs : list Z) : Prop :=
  | is_sparse ops : sparse_ok o ops -> regs = registers ops -> hll_ok o regs
  | is_dense : dense_ok (hmem o) regs -> hlen o = HLL_DENSE_SIZE -> take 4 (hmem o) = HYLL -> nth 4 (hmem o) 0 = HLL_DENSE -> Forall (fun v => 0 <= v <= 63) regs -> hll_ok o regs.

Definition raise (i : nat) (c : Z) (regs : list Z) : list Z := alter (Z.max c) i regs.
Definition reg (i : nat) (regs : list Z) : Z := default 0 (regs !! i).

(** *** Dense objects *)

Lemma get_reg m regs i : dense_ok m regs -> Z.of_nat i < HLL_REGISTERS -> dense_get m HLL_HDR_SIZE (Z.of_nat i) = Ret (reg i regs).
Proof.
  intros H Hi. unfold reg. destruct (lookup_lt_is_Some_2 regs i) as [v E]; [pose proof (do_count _ _ H); lia|]. rewrite E. by apply (do_get _ _ H).
Qed.

Lemma raise_insert i c regs : reg i regs <= c -> raise i c regs = <[i := c]> regs.
Proof.
  intros H. apply list_eq. intros j. unfold raise, reg in *. destruct (decide (j = i)) as [->|N].
  - rewrite list_lookup_alter_eq. destruct (regs !! i) as [v|] eqn:E; cbn in *.
    + rewrite list_lookup_insert_eq by (by eapply lookup_lt_Some). by rewrite Z.max_l.
    + symmetry. apply lookup_ge_None. rewrite length_insert. by apply lookup_ge_None.
  - by rewrite list_lookup_alter_ne, list_lookup_insert_ne.
Qed.

Lemma raise_same i c regs : c <= reg i regs -> raise i c regs = regs.
Proof.
  intros H. apply list_eq. intros j. unfold raise, reg in *. destruct (decide (j = i)) as [->|N]; [|by rewrite list_lookup_alter_ne].
  rewrite list_lookup_alter_eq. destruct (regs !! i); [|done]. cbn in *. by rewrite Z.max_r.
Qed.

(** [ele] has the count [c] and the register [i]. *)
Definition element (ele : list Z) (c : Z) (i : nat) : Prop := hllPatLen ele = Ret (c, Z.of_nat i) /\ 1 <= c <= 50 /\ Z.of_nat i < HLL_REGISTERS.

Lemma dense_add_ok m regs ele c i : element ele c i -> dense_ok m regs -> Forall (fun v => 0 <= v <= 63) regs ->
  exists m', hllDenseAdd m HLL_HDR_SIZE ele = Ret (if reg i regs <? c then 1 else 0, m') /\
    dense_ok m' (raise i c regs) /\ Forall (fun v => 0 <= v <= 63) (raise i c regs) /\ take 16 m' = take 16 m.
Proof.
  intros (E & Hc & Hi) H Hv. unfold hllDenseAdd. rewrite E. cbn [mbind res_bind]. rewrite (get_reg m regs _ H Hi). cbn [mbind res_bind].
  destruct (Z.ltb_spec (reg i regs) c).
  - destruct (dense_set_register m regs i c H) as (m' & -> & H' & T); [pose proof (do_count _ _ H); lia|lia|].
    cbn [mbind res_bind]. exists m'. rewrite raise_insert by lia. split; [done|]. split; [done|]. split; [apply Forall_insert; [done|lia]|done].
  - exists m. by rewrite raise_same.
Qed.

(** *** Conversion *)

Lemma set_run_ok n : forall dst pre k v, dense_ok dst (pre ++ replicate (n + k) 0) -> 0 <= v <= 63 ->
  exists dst', set_run n dst (Z.of_nat (length pre)) v = Ret dst' /\ dense_ok dst' (pre ++ replicate n v ++ replicate k 0) /\ take 16 dst' = take 16 dst.
Proof.
  induction n as [|n IH]; intros dst pre k v H Hv; cbn [set_run replicate]; [by exists dst|].
  destruct (dense_set_register dst _ (length pre) v H) as (dst1 & -> & H1 & T1); [rewrite length_app, length_replicate; lia|done|].
  cbn [mbind res_bind]. cbn [Nat.add replicate] in H1. rewrite insert_app_r_alt, Nat.sub_diag in H1 by lia. cbn [insert list_insert] in H1.
  destruct (IH dst1 (pre ++ [v]) k v) as (dst' & E & H' & T'); [by rewrite <- app_assoc|done|].
  exists dst'. rewrite length_app in E. cbn [length] in E. replace (Z.of_nat (length pre) + 1) with (Z.of_nat (length pre + 1)) by lia.
  split; [done|]. split; [by rewrite <- app_assoc in H'|by rewrite T'].
Qed.

Definition padded (l : list opcode) : list Z := registers l ++ replicate (Z.to_nat (HLL_REGISTERS - spans l)) 0.

Lemma padded_zero d o : op_ok o -> op_value o = 0 -> spans (d ++ [o]) <= HLL_REGISTERS -> padded (d ++ [o]) = padded d.
Proof.
  intros Ho Hv Hs. unfold padded. rewrite registers_app, registers_cons, <- app_assoc. f_equal. cbn. unfold expand. rewrite Hv, app_nil_r, <- replicate_add. f_equal.
  rewrite spans_app, spans_cons, spans_nil in * by done. pose proof (op_span_pos o Ho). pose proof (spans_nonneg d). lia.
Qed.

Lemma to_dense_ok m hdr rest r : forall d fuel dst, m = hdr ++ flat (d ++ r) ++ 0 :: rest -> length hdr = 16%nat -> Forall op_ok (d ++ r) ->
  spans (d ++ r) <= HLL_REGISTERS -> dense_ok dst (padded d) -> (length r < fuel)%nat ->
  exists dst', to_dense_loop fuel m (HLL_HDR_SIZE + size_of d) (HLL_HDR_SIZE + size_of (d ++ r)) dst (spans d) = Ret (dst', spans (d ++ r)) /\
    dense_ok dst' (padded (d ++ r)) /\ take 16 dst' = take 16 dst.
Proof.
  induction r as [|o r IH]; intros d fuel dst Hm Hh Hok Hsp Hd Hf; (destruct fuel as [|fuel]; [cbn in Hf; lia|]); cbn [to_dense_loop].
  { rewrite app_nil_r. destruct (Z.leb_spec (HLL_HDR_SIZE + size_of d) (HLL_HDR_SIZE + size_of d)); [|lia]. by exists dst. }
  assert (Ho : op_ok o) by (apply Forall_app in Hok as [_ Hok]; by apply Forall_cons in Hok as [Hok _]). pose proof (size_nonneg r). pose proof (op_size o Ho) as Hs.
  rewrite size_app, size_cons. destruct (Z.leb_spec (HLL_HDR_SIZE + (size_of d + (Z.of_nat (length (op_bytes o)) + size_of r))) (HLL_HDR_SIZE + size_of d)) as [|_]; [destruct o; lia|].
  destruct (read_op m (hdr ++ flat d) o (flat r ++ 0 :: rest) (HLL_HDR_SIZE + size_of d) Ho) as (b & c & -> & D & E);
    [rewrite Hm, opcodes_app, opcodes_cons; app_eq|rewrite length_app, Hh; unfold size_of, HLL_HDR_SIZE; lia|]. cbn [mbind res_bind].
  assert (Step : forall dst1 k n, dense_ok dst1 (padded (d ++ [o])) -> take 16 dst1 = take 16 dst -> k = Z.of_nat (length (op_bytes o)) -> n = op_span o ->
    exists dst', to_dense_loop fuel m (HLL_HDR_SIZE + size_of d + k) (HLL_HDR_SIZE + (size_of d + (Z.of_nat (length (op_bytes o)) + size_of r))) dst1 (spans d + n) =
      Ret (dst', spans (d ++ o :: r)) /\ dense_ok dst' (padded (d ++ o :: r)) /\ take 16 dst' = take 16 dst).
  { intros dst1 k n H1 T1 -> ->. replace (d ++ o :: r) with ((d ++ [o]) ++ r) in * by (by rewrite <- app_assoc). destruct (IH (d ++ [o]) fuel dst1 Hm Hh Hok Hsp H1) as (dst' & E' & H' & T').
    { cbn in Hf. lia. }
    exists dst'. split; [|split; [done|congruence]]. rewrite <- E', !size_app, spans_app, size_cons, size_nil, spans_cons, spans_nil by done. f_equal; lia. }
  assert (Hsp' : spans (d ++ [o]) <= HLL_REGISTERS) by (revert Hsp; rewrite !spans_app, !spans_cons, ?spans_nil by done; pose proof (spans_nonneg r); lia).
  destruct o as [n|n|v n].
  - apply decodes_zero in D as (-> & _ & _ & ->). apply Step; [by rewrite padded_zero|done|done|done].
  - apply decodes_xzero in D as (-> & -> & _ & D). rewrite E. cbn [mbind res_bind]. rewrite D. apply Step; [by rewrite padded_zero|done|done|done].
  - apply decodes_val in D as (-> & -> & _ & -> & ->). pose proof Ho as [Hv Hn]. unfold HLL_SPARSE_VAL_MAX_VALUE in Hv.
    rewrite spans_app, spans_cons, spans_nil in Hsp' by done. cbn [op_span] in Hsp'.
    destruct (set_run_ok (Z.to_nat n) dst (registers d) (Z.to_nat (HLL_REGISTERS - spans d - n)) v) as (dst1 & E1 & H1 & T1); [|lia|].
    { unfold padded in Hd. replace (Z.to_nat n + Z.to_nat (HLL_REGISTERS - spans d - n))%nat with (Z.to_nat (HLL_REGISTERS - spans d)) by lia. done. }
    fold (spans d) in E1. rewrite E1. cbn [mbind res_bind]. apply Step; [|done|done|done]. unfold padded. rewrite registers_app, registers_cons, app_nil_r, <- app_assoc.
    rewrite spans_app, spans_cons, spans_nil by done. cbn [op_span]. replace (HLL_REGISTERS - (spans d + (n + 0))) with (HLL_REGISTERS - spans d - n) by lia. done.
Qed.

Lemma header_ok hdr : length hdr = 16%nat -> bytes_ok hdr ->
  exists dense, (dense ← memwrite (sds_zeros HLL_DENSE_SIZE) 0 hdr; wr dense 4 HLL_DENSE) = Ret dense /\ dense_ok dense (padded []) /\ nth 4 dense 0 = HLL_DENSE /\
    take 4 dense = take 4 hdr.
Proof.
  intros Hh Hb. change (memwrite (sds_zeros HLL_DENSE_SIZE) 0 hdr) with (memwrite (sds_zeros HLL_DENSE_SIZE) (Z.of_nat 0) hdr).
  assert (L : Z.of_nat (length (sds_zeros HLL_DENSE_SIZE)) = 12305) by (unfold sds_zeros; rewrite length_replicate, dense_size; lia).
  rewrite memwrite_ok by lia. cbn [mbind res_bind]. set (z := sds_zeros HLL_DENSE_SIZE) in *. unfold blit. rewrite take_0, Hh. cbn [app Nat.add].
  assert (LZ : Z.of_nat (length (hdr ++ drop 16 z)) = HLL_DENSE_SIZE + 1) by (rewrite length_app, length_drop, Hh, dense_size; lia).
  rewrite wr_in by (rewrite LZ, dense_size; lia). eexists. split; [done|]. split; [|split].
  - apply dense_zeros.
    + apply bytes_insert; [|unfold byte_ok, HLL_DENSE; lia]. apply bytes_ok_app. split; [done|]. apply bytes_ok_drop. unfold z, sds_zeros. apply Forall_replicate. unfold byte_ok; lia.
    + by rewrite length_insert.
    + intros n Hn. rewrite dense_size in LZ. rewrite nth_insert_dec by lia. rewrite decide_False by lia. rewrite app_nth2 by lia. unfold z, sds_zeros. rewrite drop_replicate. rewrite nth_lookup. by destruct (_ !! _) eqn:E; [apply lookup_replicate in E as [-> _]|].
  - rewrite dense_size in LZ. rewrite nth_insert_dec by lia. by rewrite decide_True.
  - change (Z.to_nat 4) with 4%nat. rewrite take_insert_ge by lia. by rewrite take_app_le by lia.
Qed.

Lemma flat_bytes l : Forall op_ok l -> bytes_ok (flat l).
Proof.
  induction 1 as [|o l Ho _ IH]; [constructor|]. rewrite opcodes_cons. apply bytes_ok_app. split; [|done]. by destruct (op_head o Ho) as (? & ? & _ & _ & H & _).
Qed.

Lemma registers_range l : Forall op_ok l -> Forall (fun v => 0 <= v <= 32) (registers l).
Proof.
  induction 1 as [|o l Ho _ IH]; [constructor|]. rewrite registers_cons. apply Forall_app. split; [|done]. apply Forall_replicate.
  destruct o; cbn in *; unfold HLL_SPARSE_VAL_MAX_VALUE in *; lia.
Qed.

Lemma nth4_take (m : list Z) : nth 4 (take 16 m) 0 = nth 4 m 0.
Proof. do 5 (destruct m as [|? m]; [done|]). done. Qed.

Lemma memread_head (hdr l : list Z) n : length hdr = n -> memread (hdr ++ l) 0 n = Ret hdr.
Proof. intros <-. change 0 with (Z.of_nat 0). rewrite memread_ok by (rewrite length_app; lia). unfold slice. by rewrite drop_0, take_app_length. Qed.

Lemma flat_length l : Forall op_ok l -> (length l <= length (flat l))%nat.
Proof.
  induction 1 as [|o l Ho _ IH]; [done|]. rewrite opcodes_cons, length_app. destruct (op_head o Ho) as (? & ? & -> & _). cbn [length]. lia.
Qed.

(** The magic and the encoding are in the header. *)
Lemma header_kept m m' : take 16 m' = take 16 m -> take 4 m' = take 4 m /\ nth 4 m' 0 = nth 4 m 0.
Proof.
  intros T. split; [|by rewrite <- nth4_take, T, nth4_take]. change 4%nat with (Nat.min 4 16). by rewrite <- !take_take, T.
Qed.

(** The registers are kept. *)
Lemma hllSparseToDense_ok o ops : sparse_ok o ops -> exists o', hllSparseToDense o = Ret (C_OK, o') /\
  dense_ok (hmem o') (registers ops) /\ hlen o' = HLL_DENSE_SIZE /\ take 4 (hmem o') = HYLL /\ nth 4 (hmem o') 0 = HLL_DENSE.
Proof.
  intros [(hdr & rest & Hm & Hh & Hb & Hy & He) Hl Hok Hsp]. unfold sparse_mem in Hm. unfold hllSparseToDense, encoding_of. rewrite Hm.
  rewrite rd_within by (rewrite length_app, Hh; lia). cbn [mbind res_bind]. change (Z.to_nat 4) with 4%nat. rewrite app_nth1, He by lia. cbn [Z.eqb HLL_SPARSE HLL_DENSE].
  rewrite memread_head by done. cbn [mbind res_bind].
  destruct (header_ok hdr Hh Hb) as (dense & E & Hd & H4 & Ht). destruct (memwrite (sds_zeros HLL_DENSE_SIZE) 0 hdr) as [z|]; [|done]. cbn [mbind res_bind] in E |- *. rewrite E. cbn [mbind res_bind].
  destruct (to_dense_ok (hdr ++ flat ops ++ 0 :: rest) hdr rest ops [] (S (length (hdr ++ flat ops ++ 0 :: rest))) dense) as (d' & E' & Hd' & T'); [done|done|done|cbn [app]; lia|done| |].
  { pose proof (flat_length ops Hok). rewrite !length_app. lia. }
  cbn [app] in E'. rewrite size_nil, Z.add_0_r, spans_nil in E'. rewrite Hl, E'. cbn [mbind res_bind]. rewrite Hsp. cbn [Z.eqb]. rewrite Z.eqb_refl. eexists. split; [done|]. cbn [hmem hlen].
  split; [|split; [done|]].
  - unfold padded in Hd'. cbn [app] in Hd'. rewrite Hsp, Z.sub_diag, app_nil_r in Hd'. done.
  - destruct (header_kept _ _ T') as [T4 T5]. split; congruence.
Qed.

(** *** Sparse objects *)

Lemma encoding_sparse o ops : sparse_ok o ops -> encoding_of (hmem o) = Ret HLL_SPARSE.
Proof.
  intros [(hdr & rest & Hm & Hh & _ & _ & He) _ _ _]. unfold sparse_mem in Hm. unfold encoding_of. rewrite rd_within by (rewrite Hm, length_app; lia). rewrite Hm, app_nth1 by (rewrite Hh; lia).
  by rewrite <- He.
Qed.

Lemma encoding_dense m regs : dense_ok m regs -> nth 4 m 0 = HLL_DENSE -> encoding_of m = Ret HLL_DENSE.
Proof. intros H He. pose proof (do_length _ _ H) as L. rewrite dense_size in L. unfold encoding_of. rewrite rd_within by lia. by f_equal. Qed.

(** A sparse object grows up to the limit only, and a dense one stays dense. *)
Definition bounded (max_bytes : Z) (o o' : hllobj) : Prop :=
  encoding_of (hmem o') = Ret HLL_DENSE \/
  (encoding_of (hmem o) = Ret HLL_SPARSE /\ encoding_of (hmem o') = Ret HLL_SPARSE /\ hlen o' <= Z.max max_bytes (hlen o)).

Lemma bounded_refl max_bytes o regs : hll_ok o regs -> bounded max_bytes o o.
Proof. intros [ops H _|H _ _ H4 _]; [right|left; by apply (encoding_dense _ regs)]. rewrite (encoding_sparse o ops H). split; [done|]. split; [done|lia]. Qed.

Lemma bounded_trans max_bytes o1 o2 o3 : bounded max_bytes o1 o2 -> bounded max_bytes o2 o3 -> bounded max_bytes o1 o3.
Proof. intros [H1|(H1 & H1' & L1)] [H2|(H2 & H2' & L2)]; [by left|by rewrite H1 in H2|by left|right]. split; [done|]. split; [done|lia]. Qed.

(** What an add leaves: the registers [regs]. *)
Definition grown (max_bytes : Z) (o o' : hllobj) (regs : list Z) : Prop := hll_ok o' regs /\ bounded max_bytes o o'.

Lemma is_hll_dense m regs len : dense_ok m regs -> len = HLL_DENSE_SIZE -> take 4 m = HYLL -> nth 4 m 0 = HLL_DENSE ->
  Forall (fun v => 0 <= v <= 63) regs -> hll_ok (mk_hll m len) regs /\ encoding_of m = Ret HLL_DENSE.
Proof.
  intros H Hl Hy He Hv. split; [by apply is_dense|]. unfold encoding_of. pose proof (do_length _ _ H) as L. rewrite dense_size in L. rewrite rd_within by lia. by f_equal.
Qed.

(** promote: the registers are kept, and the element is added. *)
Lemma promote_ok max_bytes o ops ele c i : sparse_ok o ops -> element ele c i -> reg i (registers ops) < c ->
  exists o', promote o ele = Ret (1, o') /\ grown max_bytes o o' (raise i c (registers ops)).
Proof.
  intros H He Hlt. unfold promote. destruct (hllSparseToDense_ok o ops H) as (o1 & -> & Hd & Hl & Hy & H4). cbn [mbind res_bind].
  pose proof (registers_range ops (so_ops _ _ H)) as Hr. assert (Hr' : Forall (fun v => 0 <= v <= 63) (registers ops)) by (eapply Forall_impl; [done|]; cbn; lia).
  destruct (dense_add_ok (hmem o1) (registers ops) ele c i He Hd Hr') as (m' & E & Hd' & Hv & T). cbn [Z.eqb C_OK C_ERR]. rewrite E. cbn [mbind res_bind].
  destruct (Z.ltb_spec (reg i (registers ops)) c); [|lia]. cbn [Z.eqb Pos.eqb]. eexists. split; [done|].
  destruct (header_kept _ _ T) as [T4 T5].
  destruct (is_hll_dense m' (raise i c (registers ops)) (hlen o1)) as [G1 G2]; [done|done|congruence|congruence|done|]. split; [done|by left].
Qed.

(** The cached cardinality is marked as wrong: nothing else is changed. *)
Lemma invalidate_sparse o ops : sparse_ok o ops -> exists m, invalidate (hmem o) = Ret m /\ sparse_ok (mk_hll m (hlen o)) ops.
Proof.
  intros [(hdr & rest & Hm & Hh & Hb & Hy & He) Hl Hok Hsp]. unfold sparse_mem in Hm. unfold invalidate.
  assert (L : (16 <= length (hmem o))%nat) by (rewrite Hm, length_app; lia). rewrite rd_within by lia. cbn [mbind res_bind]. rewrite wr_in by lia.
  eexists. split; [done|]. change (Z.to_nat 15) with 15%nat. set (b := nth 15 (hmem o) 0).
  split; cbn [hmem hlen]; [|done..]. exists (<[15%nat := Z.lor b 128]> hdr), rest. split; [|split; [|split; [|split]]].
  - unfold sparse_mem. rewrite Hm. by rewrite insert_app_l by lia.
  - by rewrite length_insert.
  - apply bytes_insert; [done|]. assert (byte_ok b) as Hbb by (unfold b; rewrite Hm, app_nth1 by lia; by apply nth_byte). apply (in_u_lor 8 b 128); [lia|exact Hbb|unfold in_u; lia].
  - by rewrite take_insert_ge by lia.
  - rewrite nth_insert_dec by lia. by rewrite decide_False.
Qed.

(** updated: the values that can be merged are, and the cached cardinality is
    marked as wrong. *)
Lemma updated_ok o hdr d r ops : holds o hdr (d ++ r) -> Forall op_ok (d ++ r) -> registers (d ++ r) = ops ->
  length hdr = 16%nat -> bytes_ok hdr -> take 4 hdr = HYLL -> nth 4 hdr 0 = HLL_SPARSE -> Z.of_nat (length ops) = HLL_REGISTERS ->
  exists o', updated o (prev_of d) (hlen o) = Ret (1, o') /\ hll_ok o' ops /\ encoding_of (hmem o') = Ret HLL_SPARSE /\ hlen o' <= hlen o.
Proof.
  intros Ho Hok Hr Hh Hb Hy He Hsp. unfold updated.
  assert (M : exists ops' o', merge_values 5 o (default HLL_HDR_SIZE (prev_of d)) (hlen o) = Ret (o', hlen o') /\ holds o' hdr ops' /\ Forall op_ok ops' /\
    registers ops' = registers (d ++ r) /\ hlen o' <= hlen o).
  { destruct d as [|x d] using rev_ind; [apply (merge_values_ok hdr 5 Hh [] r); done|]. rewrite prev_of_snoc. cbn [default]. rewrite <- app_assoc in *. by apply (merge_values_ok hdr 5 Hh d ([x] ++ r)). }
  destruct M as (ops' & o' & -> & [[rest Hm] Hl] & Hok' & Hreg & Hle). cbn [mbind res_bind].
  destruct (invalidate_sparse o' ops') as (m & -> & H'); [split; [by exists hdr, rest|done|done|unfold spans; congruence]|]. cbn [mbind res_bind].
  eexists. split; [done|]. split; [|split; [by apply (encoding_sparse _ ops')|done]]. apply (is_sparse _ _ ops'); [done|congruence].
Qed.

Lemma reg_at d x post i : op_ok x -> spans d <= Z.of_nat i < spans d + op_span x -> reg i (registers (d ++ x :: post)) = op_value x.
Proof.
  intros Hx Hi. unfold reg. pose proof (op_span_length x Hx) as L. rewrite registers_app, registers_cons. unfold spans in Hi.
  rewrite lookup_app_r, lookup_app_l by lia. unfold expand. by rewrite lookup_replicate_2 by lia.
Qed.

Lemma raise_at d x post i c : op_ok x -> spans d <= Z.of_nat i < spans d + op_span x -> op_value x <= c ->
  registers (d ++ split_op x (Z.of_nat i - spans d) c (spans d + op_span x - 1 - Z.of_nat i) ++ post) = raise i c (registers (d ++ x :: post)).
Proof.
  intros Hx Hi Hc. rewrite raise_insert by (by rewrite reg_at). pose proof (op_span_length x Hx) as L. rewrite !registers_app, split_registers, registers_cons by lia.
  unfold spans in *. rewrite insert_app_r_alt by lia. f_equal. rewrite insert_app_l by lia. do 2 f_equal. lia.
Qed.

(** After the bytes of the opcode are those of its parts. *)
Lemma parts_ok max_bytes o0 o hdr d x post i c : holds o hdr (d ++ split_op x (Z.of_nat i - spans d) c (spans d + op_span x - 1 - Z.of_nat i) ++ post) ->
  length hdr = 16%nat -> bytes_ok hdr -> take 4 hdr = HYLL -> nth 4 hdr 0 = HLL_SPARSE -> Forall op_ok (d ++ x :: post) -> spans (d ++ x :: post) = HLL_REGISTERS ->
  spans d <= Z.of_nat i < spans d + op_span x -> op_value x <= c -> 1 <= c <= 32 -> encoding_of (hmem o0) = Ret HLL_SPARSE -> hlen o <= Z.max max_bytes (hlen o0) ->
  exists o', updated o (prev_of d) (hlen o) = Ret (1, o') /\ grown max_bytes o0 o' (raise i c (registers (d ++ x :: post))).
Proof.
  intros Ho Hh Hb Hy He Hok Hsp Hi Hv Hc Henc Hl. assert (Hx : op_ok x) by (apply Forall_app in Hok as [_ Hok]; by apply Forall_cons in Hok as [Hok _]).
  destruct (updated_ok o hdr d _ (raise i c (registers (d ++ x :: post))) Ho) as (o' & E & H' & H'' & Hle); try done.
  - apply Forall_app in Hok as [Hd Hok]. apply Forall_cons in Hok as [_ Hp]. apply Forall_app. split; [done|]. apply Forall_app. split; [|done]. apply split_ok; [done|lia..].
  - by apply raise_at.
  - unfold raise. by rewrite length_alter.
  - exists o'. split; [done|]. split; [done|right; split; [done|split; [done|lia]]].
Qed.

Definition op_size_1 (x : opcode) : Prop := match x with OXzero _ => False | _ => True end.

(** The general case, for an opcode [x] that covers the register [i]. *)
Section add.
Context (max_bytes : Z) (o : hllobj) (hdr rest ele : list Z) (d post : list opcode) (x : opcode) (i : nat) (c : Z).
Context (Hm : sparse_mem (hmem o) hdr (d ++ x :: post) rest) (Hh : length hdr = 16%nat) (Hb : bytes_ok hdr) (Hy : take 4 hdr = HYLL) (He : nth 4 hdr 0 = HLL_SPARSE).
Context (Hl : hlen o = HLL_HDR_SIZE + size_of (d ++ x :: post)) (Hok : Forall op_ok (d ++ x :: post)) (Hsp : spans (d ++ x :: post) = HLL_REGISTERS).
Context (Hele : element ele c i) (Hi : spans d <= Z.of_nat i < spans d + op_span x) (Hv : op_value x < c) (Hc : c <= 32) (Hroom : (3 <= length rest)%nat).

Local Abbreviation parts := (split_op x (Z.of_nat i - spans d) c (spans d + op_span x - 1 - Z.of_nat i)).
Local Abbreviation regs := (registers (d ++ x :: post)).
Local Abbreviation delta := (Z.of_nat (length (flat parts)) - Z.of_nat (length (op_bytes x))).

Lemma covered : op_ok x.
Proof. clear - Hok. apply Forall_app in Hok as [_ H]. by apply Forall_cons in H as [H _]. Qed.

Lemma opcode_place : HLL_HDR_SIZE + size_of d = Z.of_nat (length (hdr ++ flat d)).
Proof. clear - Hh. rewrite length_app, Hh. unfold size_of, HLL_HDR_SIZE. lia. Qed.

Lemma opcode_mem : hmem o = (hdr ++ flat d) ++ op_bytes x ++ flat post ++ 0 :: rest.
Proof. clear - Hm. unfold sparse_mem in Hm. rewrite Hm, opcodes_app, opcodes_cons. app_eq. Qed.

Lemma opcode_end : hlen o = Z.of_nat (length (hdr ++ flat d) + length (op_bytes x) + length (flat post)).
Proof. clear - Hl Hh. rewrite Hl, size_app, size_cons, !length_app, Hh. unfold size_of, HLL_HDR_SIZE. lia. Qed.

Lemma opcode_enc : encoding_of (hmem o) = Ret HLL_SPARSE.
Proof. clear - Hm Hh Hb Hy He Hl Hok Hsp. apply (encoding_sparse o (d ++ x :: post)). split; [by exists hdr, rest|done..]. Qed.

(** In place. *)
Lemma in_place b : parts = [OVal c 1] -> op_bytes x = [b] ->
  exists o', (m ← wr (hmem o) (HLL_HDR_SIZE + size_of d) (val_byte c 1); updated (mk_hll m (hlen o)) (prev_of d) (hlen o)) = Ret (1, o') /\ grown max_bytes o o' (raise i c regs).
Proof.
  intros Hp Hx. rewrite opcode_place, opcode_mem, Hx. cbn [app]. rewrite wr_at by done. cbn [mbind res_bind]. destruct Hele as (_ & Hc1 & _).
  apply (parts_ok max_bytes o (mk_hll _ (hlen o)) hdr d x post i c); try done; [|lia|lia|apply opcode_enc|cbn [hlen]; lia]. rewrite Hp. split; cbn [hmem hlen].
  - exists rest. unfold sparse_mem. rewrite !opcodes_app, opcodes_cons. cbn [op_bytes]. app_eq.
  - rewrite Hl, !size_app, !size_cons, size_nil, Hx. cbn [op_bytes length]. lia.
Qed.

Lemma in_general : exists o', (if (0 <? delta) && (max_bytes <? hlen o + delta) then promote o ele
    else o' ← replace_seq o (HLL_HDR_SIZE + size_of d) (flat parts) (Z.of_nat (length (op_bytes x))); updated o' (prev_of d) (hlen o + delta)) = Ret (1, o') /\
  grown max_bytes o o' (raise i c regs).
Proof.
  destruct ((0 <? delta) && (max_bytes <? hlen o + delta)) eqn:G.
  - apply promote_ok; [|done|by rewrite reg_at by (apply covered || done)]. split; [|done..]. by exists hdr, rest.
  - destruct (split_length x (Z.of_nat i - spans d) c (spans d + op_span x - 1 - Z.of_nat i) covered) as [L1 L2]; [lia..|].
    destruct (replace_ok (hdr ++ flat d) (op_bytes x) (flat parts) (flat post) rest) as (rest' & E & _); [lia|].
    rewrite <- opcode_end, <- opcode_mem, <- opcode_place in E. replace (mk_hll (hmem o) (hlen o)) with o in E by (by destruct o). rewrite E. cbn [mbind res_bind].
    replace (hlen o + delta) with (Z.of_nat (length (hdr ++ flat d) + length (flat parts) + length (flat post))) by (rewrite opcode_end; lia). destruct Hele as (_ & Hc1 & _).
    apply (parts_ok max_bytes o (mk_hll _ _) hdr d x post i c); try done; [|lia|lia|apply opcode_enc|].
    + split; cbn [hmem hlen]; [exists rest'; unfold sparse_mem; rewrite !opcodes_app; app_eq|]. rewrite !size_app, length_app, Hh. unfold size_of, HLL_HDR_SIZE. lia.
    + cbn [hlen]. rewrite opcode_end in *. apply andb_false_iff in G as [G|G]; [apply Z.ltb_ge in G; lia|apply Z.ltb_ge in G; lia].
Qed.

Lemma i32_small n : 0 <= n <= HLL_REGISTERS -> i32 n = n.
Proof. clear. unfold HLL_REGISTERS. intros. apply swrap_id; [lia|]. unfold in_s. lia. Qed.

Lemma one_part : op_span x = 1 -> op_size_1 x -> parts = [OVal c 1].
Proof.
  clear - Hi. intros H1 H2. replace (Z.of_nat i - spans d) with 0 by lia. replace (spans d + op_span x - 1 - Z.of_nat i) with 0 by lia. by destruct x.
Qed.

(** The bytes of the parts, as the code writes them. *)
Lemma parts_bytes : let a := i32 (Z.of_nat i - spans d) in let b := i32 (i32 (spans d + op_span x - 1) - Z.of_nat i) in
  flat parts = match x with OVal v _ => vals_seq v a ++ [val_byte c 1] ++ vals_seq v b | _ => zeros_seq a ++ [val_byte c 1] ++ zeros_seq b end.
Proof.
  clear - Hok Hsp Hi. cbn zeta. assert (Hr : 0 <= spans d /\ spans d + op_span x <= HLL_REGISTERS).
  { rewrite <- Hsp, spans_app, spans_cons by exact covered. pose proof (spans_nonneg d). pose proof (spans_nonneg post). lia. }
  rewrite (i32_small (spans d + _ - 1)), !i32_small by lia. destruct x; cbn [split_op]; by rewrite !opcodes_app, ?flat_zeros, ?flat_vals.
Qed.

End add.

(** Steps 2 to 4. *)
Lemma update_opcode_ok max_bytes o d x post ele c i : sparse_ok o (d ++ x :: post) -> element ele c i -> c <= 32 ->
  spans d <= Z.of_nat i < spans d + op_span x -> hlen o + 4 <= Z.of_nat (length (hmem o)) ->
  exists o', update_opcode max_bytes o ele c (Z.of_nat i) (HLL_HDR_SIZE + size_of d) (prev_of d) (spans d) (op_span x) =
    Ret (if reg i (registers (d ++ x :: post)) <? c then 1 else 0, o') /\ grown max_bytes o o' (raise i c (registers (d ++ x :: post))).
Proof.
  intros Hso Hele Hc Hi Hroom. pose proof Hso as [(hdr & rest & Hm & Hh & Hb & Hy & He) Hl Hok Hsp]. pose proof (covered d post x Hok) as Hx. rewrite (reg_at d x post i Hx Hi).
  pose proof (opcode_mem o hdr rest d post x Hm) as Em. pose proof (opcode_end o hdr d post x Hh Hl) as El. pose proof (opcode_place hdr d Hh) as Ep.
  assert (Hrest : (3 <= length rest)%nat) by (rewrite Em, El, !length_app in Hroom; cbn [length] in Hroom; lia).
  destruct (read_op (hmem o) (hdr ++ flat d) x (flat post ++ 0 :: rest) (HLL_HDR_SIZE + size_of d) Hx Em Ep) as (b & b1 & R & D & R1).
  unfold update_opcode. rewrite R. cbn [mbind res_bind]. destruct (Z.ltb_spec (op_value x) c) as [Hlt|Hge].
  - pose proof (in_general max_bytes o hdr rest ele d post x i c Hm Hh Hb Hy He Hl Hok Hsp Hele Hi Hlt Hc Hrest) as G.
    pose proof (parts_bytes d post x i c Hok Hsp Hi) as P. pose proof (op_size x Hx) as S. cbn zeta in P.
    assert (I : op_span x = 1 -> op_size_1 x -> exists o', (m ← wr (hmem o) (HLL_HDR_SIZE + size_of d) (val_byte c 1); updated (mk_hll m (hlen o)) (prev_of d) (hlen o)) = Ret (1, o') /\
      grown max_bytes o o' (raise i c (registers (d ++ x :: post)))).
    { intros H1 H2. destruct (op_head x Hx) as (b' & tl & E & _ & _ & L). destruct tl; [|destruct x; cbn in *; done].
      apply (in_place max_bytes o hdr rest ele d post x i c Hm Hh Hb Hy He Hl Hok Hsp Hele Hi Hlt Hc Hrest b'); [by apply one_part|done]. }
    destruct x as [n|n|v n].
    + apply decodes_zero in D as (-> & -> & _ & ->). cbn [negb andb orb mbind res_bind]. destruct (Z.eqb_spec n 1) as [->|]; [by apply I|]. rewrite P, S in G. exact G.
    + apply decodes_xzero in D as (-> & -> & _ & D). rewrite R1. cbn [negb andb orb mbind res_bind]. rewrite P, S in G. exact G.
    + apply decodes_val in D as (-> & -> & _ & -> & ->). cbn [negb andb orb mbind res_bind]. cbn [op_value] in Hlt. destruct (Z.leb_spec c v); [lia|].
      destruct (Z.eqb_spec n 1) as [->|]; [by apply I|]. rewrite P, S in G. exact G.
  - destruct Hele as (_ & Hc1 & _). destruct x as [n|n|v n]; cbn [op_value] in Hge; try lia. apply decodes_val in D as (-> & -> & _ & -> & ->). cbn [negb andb orb mbind res_bind].
    destruct (Z.leb_spec c v); [|lia]. exists o. split; [done|]. rewrite raise_same by (by rewrite (reg_at d (OVal v n))). assert (H' : hll_ok o (registers (d ++ OVal v n :: post))) by (by apply (is_sparse _ _ (d ++ OVal v n :: post))). split; [done|by eapply bounded_refl].
Qed.

Lemma make_room_ok junk o ops : sparse_ok o ops -> sparse_ok (make_room junk 3 o) ops /\ hlen (make_room junk 3 o) = hlen o /\
  hlen o + 4 <= Z.of_nat (length (hmem (make_room junk 3 o))).
Proof.
  intros H. unfold make_room. destruct (Z.leb_spec 3 (Z.of_nat (length (hmem o)) - 1 - hlen o)); [split; [done|split; [done|lia]]|].
  set (n := if hlen o + 3 <? 1024 * 1024 then (hlen o + 3) * 2 else hlen o + 3 + 1024 * 1024). cbn [hlen hmem].
  assert (0 <= hlen o /\ hlen o + 3 <= n) as [Hpos Hn] by (pose proof (so_len _ _ H) as E; pose proof (size_nonneg ops); unfold HLL_HDR_SIZE in E; unfold n; destruct (Z.ltb_spec (hlen o + 3) (1024 * 1024)); lia).
  split; [|split; [done|rewrite length_realloc; lia]]. destruct H as [(hdr & rest & Hm & Hh & Hb & Hy & He) Hl Hok Hsp]. split; cbn [hmem hlen]; [|done..].
  unfold sparse_mem in Hm. assert (T : take (Z.to_nat (hlen o + 1)) (hmem o) = hdr ++ flat ops ++ [0]).
  { rewrite Hm. replace (hdr ++ flat ops ++ 0 :: rest) with ((hdr ++ flat ops ++ [0]) ++ rest) by app_eq. rewrite take_app_length'; [done|].
    rewrite !length_app, Hh, Hl. unfold size_of, HLL_HDR_SIZE. cbn [length]. lia. }
  exists hdr, (replicate (Z.to_nat (n + 1) - Z.to_nat (hlen o + 1)) junk). split; [|done]. unfold sparse_mem, realloc.
  assert (LT : length (take (Z.to_nat (hlen o + 1)) (hmem o)) = Z.to_nat (hlen o + 1)) by (rewrite T, !length_app, Hh, Hl; unfold size_of, HLL_HDR_SIZE; cbn [length]; lia).
  rewrite LT, take_ge by lia. rewrite T. app_eq.
Qed.

(** *** Adding an element *)

Lemma hllSparseAdd_ok max_bytes junk o ops ele c i : sparse_ok o ops -> element ele c i ->
  exists o', hllSparseAdd max_bytes junk o ele = Ret (if reg i (registers ops) <? c then 1 else 0, o') /\ grown max_bytes o o' (raise i c (registers ops)).
Proof.
  intros H He. pose proof He as (E & Hc & Hi). unfold hllSparseAdd. rewrite E. cbn [mbind res_bind]. unfold HLL_SPARSE_VAL_MAX_VALUE. destruct (Z.ltb_spec 32 c) as [Hc'|Hc'].
  - assert (reg i (registers ops) < c) as Hlt.
    { pose proof (registers_range ops (so_ops _ _ H)) as R. unfold reg. destruct (registers ops !! i) as [v|] eqn:Ev; cbn; [|lia]. rewrite Forall_lookup in R. specialize (R _ _ Ev). cbn in R. lia. }
    destruct (Z.ltb_spec (reg i (registers ops)) c); [|lia]. by apply promote_ok.
  - destruct (make_room_ok junk o ops H) as (H' & Hl & Hroom). set (o1 := make_room junk 3 o) in *. pose proof H' as [(hdr & rest & Hm & Hh & _) Hlen Hok Hsp]. unfold sparse_mem in Hm.
    destruct (find_opcode_ok (hmem o1) hdr rest (Z.of_nat i) ops [] (S (length (hmem o1))) 0 0) as (d & x & post & Eo & Hd & F); [done|done|done|done|cbn [app]; rewrite spans_nil; lia| |].
    { pose proof (flat_length ops Hok). rewrite Hm, !length_app. lia. }
    cbn [app] in Eo, F. rewrite size_nil, Z.add_0_r, <- Hlen in F. clear Hm Hlen. subst ops. cbn [prev_of] in F. rewrite F. cbn [mbind res_bind].
    pose proof (op_span_pos x (covered d post x Hok)). destruct (Z.eqb_spec (op_span x) 0); [lia|].
    destruct (update_opcode_ok max_bytes o1 d x post ele c i H' He Hc' Hd) as (o' & -> & G & G'); [lia|]. exists o'. split; [done|]. split; [done|].
    destruct G' as [G'|(G1 & G2 & G3)]; [by left|right]. split; [by apply (encoding_sparse o (d ++ x :: post))|]. split; [done|]. by rewrite Hl in G3.
Qed.

Lemma hllAdd_ok max_bytes junk o regs ele c i : hll_ok o regs -> element ele c i ->
  exists o', hllAdd max_bytes junk o ele = Ret (if reg i regs <? c then 1 else 0, o') /\ grown max_bytes o o' (raise i c regs).
Proof.
  intros H He. unfold hllAdd. destruct H as [ops H ->|H Hl Hy H4 Hv].
  - rewrite (encoding_sparse o ops H). cbn [mbind res_bind Z.eqb HLL_SPARSE HLL_DENSE]. by apply hllSparseAdd_ok.
  - rewrite (encoding_dense _ _ H H4). cbn [mbind res_bind]. rewrite Z.eqb_refl. destruct (dense_add_ok (hmem o) regs ele c i He H Hv) as (m' & -> & H' & Hv' & T). cbn [mbind res_bind].
    eexists. split; [done|]. destruct (header_kept _ _ T) as [T4 T5].
    destruct (is_hll_dense m' (raise i c regs) (hlen o)) as [G1 G2]; [done|done|congruence|congruence|done|]. split; [done|by left].
Qed.
