(* ===== verification/HllCommands.v ===== *)
(** * HllCommands: a HyperLogLog denotes a set

    The registers of an object are a function of the set of the elements that
    were added to it: PFADD adds elements to the set, whatever the encoding
    and the limit are, and PFMERGE makes the union. *)

From stdpp Require Import gmap.
From S2P Require Import Prelude Util Hll HllDense HllSparse HllTheorems.

(** ** The registers of a set *)

(** The greatest count of the elements of the register [i]. *)
Definition rank (eles : list (list Z)) (i : nat) : Z :=
  foldr (fun e m => if decide (index_of e = i) then Z.max (count_of e) m else m) 0 eles.
Definition sketch (eles : list (list Z)) : list Z := rank eles <$> seq 0 (Z.to_nat HLL_REGISTERS).

Lemma rank_nonneg eles i : 0 <= rank eles i.
Proof. induction eles as [|e eles IH]; cbn [rank foldr]; [done|]. fold (rank eles i). case_decide; lia. Qed.

Lemma rank_le eles i m : 0 <= m -> rank eles i <= m <-> forall e, e ∈ eles -> index_of e = i -> count_of e <= m.
Proof.
  intros Hm. induction eles as [|e eles IH]; cbn [rank foldr].
  - split; [intros _ e H; by apply not_elem_of_nil in H|done].
  - fold (rank eles i). case_decide as D; rewrite ?Z.max_lub_iff, IH.
    + split; [intros [H1 H2] x [->|H]%elem_of_cons; [done|by apply H2]|]. intros H. split; [apply H; [by left|done]|]. intros x Hx. apply H. by right.
    + split; [intros H x [->|Hx]%elem_of_cons; [done|by apply H]|]. intros H x Hx. apply H. by right.
Qed.

(** Duplicates and the order are of no importance. *)
Lemma rank_subset A B i : A ⊆ B -> rank A i <= rank B i.
Proof.
  intros H. apply rank_le; [apply rank_nonneg|]. intros e He Ei. pose proof (proj1 (rank_le B i (rank B i) (rank_nonneg B i))) as R. apply R; [done|by apply H|done].
Qed.

Lemma rank_app A B i : rank (A ++ B) i = Z.max (rank A i) (rank B i).
Proof.
  pose proof (rank_nonneg B i). induction A as [|e A IH]; cbn [app rank foldr]; [fold (rank B i); lia|]. fold (rank (A ++ B) i) (rank A i). rewrite IH. case_decide; lia.
Qed.

Lemma sketch_lookup A i : (i < Z.to_nat HLL_REGISTERS)%nat -> sketch A !! i = Some (rank A i).
Proof. intros. unfold sketch. by rewrite list_lookup_fmap, lookup_seq_lt. Qed.

Lemma length_sketch A : length (sketch A) = Z.to_nat HLL_REGISTERS.
Proof. unfold sketch. by rewrite length_fmap, length_seq. Qed.

Lemma sketch_ext A regs : length regs = Z.to_nat HLL_REGISTERS -> (forall i, (i < Z.to_nat HLL_REGISTERS)%nat -> regs !! i = Some (rank A i)) -> regs = sketch A.
Proof.
  intros L H. apply list_eq. intros i. destruct (decide (i < Z.to_nat HLL_REGISTERS)%nat).
  - by rewrite H, sketch_lookup.
  - rewrite !lookup_ge_None_2; rewrite ?length_sketch; [done|lia|lia].
Qed.

Lemma sketch_nil : sketch [] = replicate (Z.to_nat HLL_REGISTERS) 0.
Proof. symmetry. apply sketch_ext; [by rewrite length_replicate|]. intros i Hi. by rewrite lookup_replicate_2. Qed.

#[local] Opaque HLL_REGISTERS.

(** One more element. *)
Lemma sketch_snoc A e : raise (index_of e) (count_of e) (sketch A) = sketch (A ++ [e]).
Proof.
  apply sketch_ext; [unfold raise; by rewrite length_alter, length_sketch|]. intros i Hi. unfold raise. rewrite rank_app. cbn [rank foldr]. destruct (pat_of e) as (_ & Hc & _).
  pose proof (rank_nonneg A i). destruct (decide (index_of e = i)) as [<-|N].
  - rewrite list_lookup_alter_eq, sketch_lookup by done. cbn. f_equal. lia.
  - rewrite list_lookup_alter_ne, sketch_lookup by done. f_equal. lia.
Qed.

Lemma pat_element e : element e (count_of e) (index_of e).
Proof. exact (pat_of e). Qed.

Lemma reg_sketch A e : reg (index_of e) (sketch A) = rank A (index_of e).
Proof. destruct (pat_of e) as (_ & _ & Hi). unfold reg. rewrite sketch_lookup by lia. done. Qed.

#[local] Opaque sketch.

(** The set [A] was added to the object. *)
Definition denotes (o : hllobj) (A : list (list Z)) : Prop := hll_ok o (sketch A).

Lemma add_denotes max_bytes junk o A e : denotes o A ->
  exists o', hllAdd max_bytes junk o e = Ret (if rank A (index_of e) <? count_of e then 1 else 0, o') /\ denotes o' (A ++ [e]) /\
    bounded max_bytes o o'.
Proof.
  intros H. destruct (hllAdd_ok max_bytes junk o (sketch A) e _ _ H (pat_element e)) as (o' & E & G1 & G2). exists o'. rewrite reg_sketch in E. rewrite sketch_snoc in G1. done.
Qed.

(** ** Objects *)

Lemma create_denotes : denotes createHLLObject [].
Proof.
  unfold denotes. rewrite sketch_nil. apply (is_sparse _ _ [OXzero HLL_SPARSE_XZERO_MAX_LEN]).
  - split; [|done|by apply Forall_singleton|by rewrite spans_cons, spans_nil].
    exists ([72; 89; 76; 76; HLL_SPARSE; 0; 0; 0] ++ replicate 8 0), []. split; [done|]. split; [done|]. split; [|done].
    repeat (constructor; [unfold byte_ok, HLL_SPARSE; lia|]). constructor.
  - symmetry. apply app_nil_r.
Qed.

Lemma hll_head o regs : hll_ok o regs -> exists enc, take 4 (hmem o) = HYLL /\ encoding_of (hmem o) = Ret enc /\ HLL_HDR_SIZE <= hlen o < Z.of_nat (length (hmem o)) /\
  (enc = HLL_SPARSE \/ enc = HLL_DENSE /\ hlen o = HLL_DENSE_SIZE).
Proof.
  intros [ops H ->|H Hl Hy H4 _].
  - exists HLL_SPARSE. split; [|split; [by apply (encoding_sparse o ops)|split; [|by left]]].
    + destruct H as [(hdr & rest & Hm & Hh & _ & Hy & _) _ _ _]. unfold sparse_mem in Hm. by rewrite Hm, take_app_le by lia.
    + destruct H as [(hdr & rest & Hm & Hh & _) Hl _ _]. unfold sparse_mem in Hm. rewrite Hm, Hl, !length_app, Hh. unfold size_of, HLL_HDR_SIZE. cbn [length]. lia.
  - exists HLL_DENSE. split; [done|]. split; [by apply (encoding_dense _ regs)|]. split; [|by right]. rewrite (do_length _ _ H), Hl, dense_size. unfold HLL_HDR_SIZE. lia.
Qed.

Lemma isHLLObject_ok raw o regs : hll_ok o regs -> isHLLObject (HllSds raw o) = Ret (Some o).
Proof.
  intros H. destruct (hll_head o regs H) as (enc & Hy & He & Hl & Hc). unfold isHLLObject. cbn [hll_len]. destruct (Z.ltb_spec (hlen o) HLL_HDR_SIZE); [lia|].
  rewrite <- (take_drop 4 (hmem o)) at 1. rewrite Hy, memread_head by done. cbn [mbind res_bind]. rewrite He. cbn [mbind res_bind]. rewrite bool_decide_true by done. cbn [negb].
  by destruct Hc as [->|[-> ->]].
Qed.

(** A copy is as good as the object. *)
Lemma unshare_ok raw o regs : hll_ok o regs -> exists o', unshare (HllSds raw o) = Ret o' /\ hll_ok o' regs /\ hlen o' = hlen o.
Proof.
  intros H. destruct raw; [by exists o|]. cbn [unshare]. destruct (hll_head o regs H) as (enc & _ & _ & Hl & _). unfold HLL_HDR_SIZE in Hl.
  change (memread (hmem o) 0) with (memread (hmem o) (Z.of_nat 0)). rewrite memread_ok by lia. cbn [mbind res_bind]. unfold slice. rewrite drop_0. eexists. split; [done|]. split; [|done].
  destruct H as [ops H ->|H Hd Hy H4 Hv].
  - apply (is_sparse _ _ ops); [|done]. destruct H as [(hdr & rest & Hm & Hh & Hr) Hln Hok Hsp]. split; cbn [hmem hlen]; [|done..]. exists hdr, []. split; [|done]. unfold sparse_mem in *.
    rewrite Hm. replace (hdr ++ flat ops ++ 0 :: rest) with ((hdr ++ flat ops) ++ 0 :: rest) by app_eq. rewrite take_app_length'; [app_eq|]. rewrite length_app, Hh, Hln. unfold size_of, HLL_HDR_SIZE. lia.
  - assert (E : take (Z.to_nat (hlen o)) (hmem o) ++ [0] = hmem o).
    { pose proof (do_length _ _ H) as L. rewrite <- (take_drop (Z.to_nat (hlen o)) (hmem o)) at 2. f_equal. pose proof (do_end _ _ H) as E. rewrite <- Hd in E.
      rewrite nth_lookup in E. destruct (lookup_lt_is_Some_2 (hmem o) (Z.to_nat (hlen o))) as [x Ex]; [lia|]. rewrite Ex in E. cbn in E. subst x. rewrite (drop_S _ _ _ Ex), drop_ge by lia. done. }
    rewrite E. by apply is_dense.
Qed.

Lemma invalidate_ok o regs : hll_ok o regs -> exists m, invalidate (hmem o) = Ret m /\ hll_ok (mk_hll m (hlen o)) regs.
Proof.
  intros [ops H ->|H Hd Hy H4 Hv].
  - destruct (invalidate_sparse o ops H) as (m & E & H'). exists m. split; [done|]. by apply (is_sparse _ _ ops).
  - pose proof H as [Hb L He Hc Hg]. rewrite dense_size in L, He. unfold invalidate. rewrite rd_within by lia. cbn [mbind res_bind]. rewrite wr_in by lia. eexists. split; [done|]. change (Z.to_nat 15) with 15%nat.
    set (b := nth 15 (hmem o) 0). assert (Hn : forall j, j <> 15%nat -> nth j (<[15%nat := Z.lor b 128]> (hmem o)) 0 = nth j (hmem o) 0) by (intros j Hj; rewrite nth_insert_dec by lia; by rewrite decide_False).
    apply is_dense; cbn [hmem hlen]; [|done|by rewrite take_insert_ge by lia|by rewrite Hn|done]. split; [| |by rewrite dense_size, Hn by lia|done|].
    + apply bytes_insert; [done|]. apply (in_u_lor 8 b 128); [lia|by apply nth_byte|unfold in_u; lia].
    + by rewrite length_insert, dense_size.
    + intros i v Hi. rewrite <- (Hg i v Hi). pose proof (lookup_lt_Some _ _ _ Hi). destruct (in_block_bytes (hmem o) HLL_HDR_SIZE (Z.of_nat i)) as [B0 B1]; [apply dense_in_block; [by rewrite dense_size|lia]|].
      destruct (register_place (Z.of_nat i)) as (_ & _ & Hk); [lia|]. unfold dense_get. rewrite !(rd_within (hmem o)), !rd_within by (rewrite ?length_insert; done). rewrite !Hn by (unfold HLL_HDR_SIZE; lia). done.
Qed.

(** ** PFADD *)

Lemma sketch_eq A B : sketch A = sketch B <-> forall i, (i < Z.to_nat HLL_REGISTERS)%nat -> rank A i = rank B i.
Proof.
  split.
  - intros E i Hi. apply (f_equal (lookup i)) in E. rewrite !sketch_lookup in E by done. congruence.
  - intros H. symmetry. apply sketch_ext; [apply length_sketch|]. intros i Hi. rewrite sketch_lookup by done. by rewrite H.
Qed.

Lemma rank_snoc A e i : rank (A ++ [e]) i = if decide (index_of e = i) then Z.max (rank A i) (Z.max (count_of e) 0) else rank A i.
Proof. rewrite rank_app. cbn [rank foldr]. pose proof (rank_nonneg A i) as H. revert H. generalize (rank A i) (count_of e). intros r c H. case_decide; [done|]. lia. Qed.

Lemma raised_same (r : nat -> Z) (i n : nat) c : 1 <= c -> (i < n)%nat -> (forall j, 0 <= r j) ->
  r i < c <-> ~ forall j, (j < n)%nat -> (if decide (i = j) then Z.max (r j) (Z.max c 0) else r j) = r j.
Proof.
  intros Hc Hi Hr. split.
  - intros Hlt H. specialize (H i Hi). rewrite decide_True in H by done. lia.
  - intros N. apply Z.nle_gt. intros Hle. apply N. intros j _. case_decide; [subst; lia|done].
Qed.

(** An element whose count is not greater changes nothing. *)
Lemma sketch_same A e : rank A (index_of e) < count_of e <-> sketch (A ++ [e]) <> sketch A.
Proof.
  destruct (pat_of e) as (_ & [Hc _] & Hi). rewrite (raised_same (rank A) _ (Z.to_nat HLL_REGISTERS)); [|done|lia|apply rank_nonneg].
  rewrite sketch_eq. by setoid_rewrite rank_snoc.
Qed.

Lemma sketch_grows A B C : sketch (A ++ B ++ C) = sketch A -> sketch (A ++ B) = sketch A.
Proof. rewrite !sketch_eq. intros H i Hi. specialize (H i Hi). rewrite !rank_app in *. lia. Qed.

Lemma sketch_congr A B C : sketch A = sketch B -> sketch (A ++ C) = sketch (B ++ C).
Proof. rewrite !sketch_eq. intros H i Hi. rewrite !rank_app. by rewrite H. Qed.

(** What the loop leaves: the elements are added, and the number of updates
    says whether the registers changed. *)
Lemma pfadd_loop_ok max_bytes junk eles : forall o A n, denotes o A ->
  exists n' o', pfadd_loop max_bytes junk o eles n = Ret (Some n', o') /\ denotes o' (A ++ eles) /\ n <= n' /\ (n' = n <-> sketch (A ++ eles) = sketch A) /\
    bounded max_bytes o o'.
Proof.
  induction eles as [|e eles IH]; intros o A n H; cbn [pfadd_loop].
  { exists n, o. rewrite app_nil_r. split; [done|]. split; [done|]. split; [lia|]. split; [done|by eapply bounded_refl]. }
  destruct (add_denotes max_bytes junk o A e H) as (o1 & -> & H1 & G1). cbn [mbind res_bind]. pose proof (sketch_same A e) as S.
  destruct (Z.ltb_spec (rank A (index_of e)) (count_of e)) as [Hlt|Hge]; cbn [Z.eqb].
  - destruct (IH o1 (A ++ [e]) (n + 1) H1) as (n' & o' & E & H' & Hn & _ & G'). rewrite <- app_assoc in H'. exists n', o'. split; [done|]. split; [done|]. split; [lia|].
    split; [|by apply (bounded_trans _ _ o1)]. split; [lia|]. intros Es. exfalso. apply S; [done|]. by apply (sketch_grows A [e] eles).
  - destruct (IH o1 (A ++ [e]) n H1) as (n' & o' & E & H' & Hn & Hs & G'). rewrite <- app_assoc in H', Hs. exists n', o'. split; [done|]. split; [done|]. split; [lia|].
    assert (Es : sketch (A ++ [e]) = sketch A) by (destruct (decide (sketch (A ++ [e]) = sketch A)); [done|by apply S in n0; lia]). rewrite Es in Hs. split; [done|].
    by apply (bounded_trans _ _ o1).
Qed.

(** The key holds the set [A]; a key that does not exist, the empty set. *)
Definition key_denotes (key : option hllval) (A : list (list Z)) : Prop :=
  match key with
  | None => A = []
  | Some (HllSds _ o) => denotes o A
  | Some (HllInt _) => False
  end.

Lemma key_valid key A : key_denotes key A -> match key with None => True | Some v => exists o, isHLLObject v = Ret (Some o) /\ denotes o A end.
Proof. destruct key as [[raw o|v]|]; [|done..]. cbn. intros H. exists o. split; [by apply (isHLLObject_ok raw o (sketch A))|done]. Qed.

Lemma key_object key A : key_denotes key A -> exists o,
  (match key with None => Ret createHLLObject | Some v => unshare v end) = Ret o /\ denotes o A /\
  match key with None => o = createHLLObject | Some v => hlen o = hll_len v end.
Proof.
  destruct key as [[raw o|v]|]; cbn; [|done|].
  - intros H. destruct (unshare_ok raw o _ H) as (o' & E & H' & L). by exists o'.
  - intros ->. exists createHLLObject. split; [done|]. split; [apply create_denotes|done].
Qed.

(** The length of the value of a key, of a new one when there is none. *)
Definition key_len (key : option hllval) : Z := match key with None => hlen createHLLObject | Some v => hll_len v end.

Lemma pfadd_ok max_bytes junk key A eles : key_denotes key A ->
  exists o', pfaddCommand max_bytes junk key eles =
      Ret (PfInt (if decide (key = None \/ sketch (A ++ eles) <> sketch A) then 1 else 0), Some (HllSds true o')) /\
    denotes o' (A ++ eles) /\ (hlen o' <= Z.max max_bytes (key_len key) \/ hlen o' = HLL_DENSE_SIZE).
Proof.
  intros H. destruct (key_object key A H) as (o & Eo & Ho & El). unfold pfaddCommand.
  set (u := match key with None => 1 | Some _ => 0 end).
  assert (V : (ok ← (match key with None => Ret true | Some v => hdr ← isHLLObject v; Ret (bool_decide (is_Some hdr)) end : res bool); Ret ok) = Ret true).
  { pose proof (key_valid key A H) as V. destruct key as [v|]; [|done]. destruct V as (o1 & -> & _). done. }
  destruct (match key with None => Ret true | Some v => _ end) as [ok|]; [|done]. cbn in V. injection V as ->. cbn [mbind res_bind negb].
  replace (match key with None => Ret (createHLLObject, 1) | Some v => o0 ← unshare v; Ret (o0, 0) end) with (Ret (o, u)).
  2: { unfold u. destruct key; [by rewrite Eo|congruence]. }
  cbn [mbind res_bind]. destruct (pfadd_loop_ok max_bytes junk eles o A u Ho) as (n' & o1 & -> & H1 & Hn & Hs & B). cbn [mbind res_bind].
  assert (L : hlen o1 <= Z.max max_bytes (key_len key) \/ hlen o1 = HLL_DENSE_SIZE).
  { destruct B as [B|(_ & _ & B)]; [right|left; unfold key_len; destruct key; congruence]. destruct (hll_head o1 _ H1) as (enc & _ & E & _ & [->|[_ E']]); [by rewrite E in B|done]. }
  destruct (Z.eqb_spec n' 0) as [->|N].
  - exists o1. rewrite decide_False; [done|]. unfold u in *. destruct key as [v|]; [|lia]. intros [?|D]; [done|]. by apply D, Hs.
  - destruct (invalidate_ok o1 _ H1) as (m & -> & H2). cbn [mbind res_bind]. exists (mk_hll m (hlen o1)). rewrite decide_True; [done|].
    destruct key as [v|]; [right|by left]. intros E. apply Hs in E. unfold u in E. by apply N.
Qed.

(** ** PFMERGE *)

Lemma max_at_ok pre x post v : max_at (pre ++ x :: post) (Z.of_nat (length pre)) v = Ret (pre ++ Z.max x v :: post).
Proof.
  unfold max_at. rewrite rd_at by done. cbn [mbind res_bind]. destruct (Z.ltb_spec x v); [rewrite wr_at by done; by rewrite Z.max_r by lia|by rewrite Z.max_l by lia].
Qed.

Lemma next_index (pre : list Z) y : Z.of_nat (length pre) + 1 = Z.of_nat (length (pre ++ [y])).
Proof. rewrite length_app. cbn [length]. lia. Qed.

Lemma shift_one (pre : list Z) y post : pre ++ y :: post = (pre ++ [y]) ++ post.
Proof. by rewrite <- app_assoc. Qed.

Lemma merge_dense_ok m regs : dense_ok m regs -> forall n pre post, length (pre ++ post) = Z.to_nat HLL_REGISTERS -> length post = n ->
  merge_dense n m (pre ++ post) (Z.of_nat (length pre)) = Ret (pre ++ zip_with Z.max post (drop (length pre) regs)).
Proof.
  intros Hd. induction n as [|n IH]; intros pre post L Ln; (destruct post as [|x post]; [|cbn in Ln]); try done; cbn [merge_dense].
  rewrite length_app in L. cbn [length] in L. pose proof (do_count _ _ Hd) as Hc. destruct (lookup_lt_is_Some_2 regs (length pre)) as [v Ev]; [lia|].
  rewrite (do_get _ _ Hd _ _ Ev). cbn [mbind res_bind]. rewrite max_at_ok. cbn [mbind res_bind]. rewrite (next_index _ (Z.max x v)), shift_one, IH by (rewrite ?length_app; cbn [length]; lia).
  rewrite (drop_S _ _ _ Ev). cbn [zip_with]. rewrite <- app_assoc. cbn [app]. rewrite length_app. cbn [length]. by replace (length pre + 1)%nat with (S (length pre)) by lia.
Qed.

Lemma max_run_ok n v : forall pre mid post, length mid = n -> max_run n (pre ++ mid ++ post) (Z.of_nat (length pre)) v = Ret (pre ++ zip_with Z.max mid (replicate n v) ++ post).
Proof.
  induction n as [|n IH]; intros pre mid post L; (destruct mid as [|x mid]; [|cbn in L]); try done; cbn [max_run]. cbn [app]. rewrite max_at_ok. cbn [mbind res_bind].
  rewrite (next_index _ (Z.max x v)), (shift_one _ _ (mid ++ post)), IH by lia.
  cbn [replicate zip_with]. by rewrite <- app_assoc.
Qed.

Lemma zip_max_zeros l n : Forall (fun v => 0 <= v) l -> length l = n -> zip_with Z.max l (replicate n 0) = l.
Proof. intros H <-. induction H as [|v l Hv _ IH]; cbn; [done|]. rewrite IH. f_equal. lia. Qed.

Lemma split_len {A} (l : list A) n : (n <= length l)%nat -> exists a b, l = a ++ b /\ length a = n.
Proof. intros H. exists (take n l), (drop n l). rewrite take_drop, length_take. split; [done|lia]. Qed.

(** Any opcode raises the registers it covers to its value. *)
Lemma merge_sparse_ok m hdr rest r : forall d fuel done_ todo, m = hdr ++ flat (d ++ r) ++ 0 :: rest -> length hdr = 16%nat -> Forall op_ok (d ++ r) ->
  Z.of_nat (length done_) = spans d -> Z.of_nat (length todo) = spans r -> Forall (fun v => 0 <= v) todo -> (length r < fuel)%nat ->
  merge_sparse fuel m (HLL_HDR_SIZE + size_of d) (HLL_HDR_SIZE + size_of (d ++ r)) (done_ ++ todo) (spans d) = Ret (done_ ++ zip_with Z.max todo (registers r), spans (d ++ r)).
Proof.
  induction r as [|o r IH]; intros d fuel done_ todo Hm Hh Hok Hd Ht Hv Hf; (destruct fuel as [|fuel]; [cbn in Hf; lia|]); cbn [merge_sparse].
  { rewrite app_nil_r. destruct (Z.leb_spec (HLL_HDR_SIZE + size_of d) (HLL_HDR_SIZE + size_of d)); [|lia]. rewrite spans_nil in Ht. destruct todo; [done|cbn in Ht; lia]. }
  assert (Ho : op_ok o) by (apply Forall_app in Hok as [_ Hok]; by apply Forall_cons in Hok as [Hok _]). pose proof (size_nonneg r). pose proof (op_size o Ho) as Hs. pose proof (op_span_length o Ho) as Hl.
  rewrite size_app, size_cons. destruct (Z.leb_spec (HLL_HDR_SIZE + (size_of d + (Z.of_nat (length (op_bytes o)) + size_of r))) (HLL_HDR_SIZE + size_of d)) as [|_]; [destruct o; lia|].
  destruct (read_op m (hdr ++ flat d) o (flat r ++ 0 :: rest) (HLL_HDR_SIZE + size_of d) Ho) as (b & c & -> & D & E);
    [rewrite Hm, opcodes_app, opcodes_cons; app_eq|rewrite length_app, Hh; unfold size_of, HLL_HDR_SIZE; lia|]. cbn [mbind res_bind].
  rewrite spans_cons in Ht by done. pose proof (spans_nonneg r). destruct (split_len todo (length (expand o))) as (mid & post & -> & Lm); [lia|]. rewrite length_app in Ht. apply Forall_app in Hv as [Hv1 Hv2].
  rewrite registers_cons, zip_with_app by done.
  assert (Step : forall k n, k = Z.of_nat (length (op_bytes o)) -> n = op_span o ->
    merge_sparse fuel m (HLL_HDR_SIZE + size_of d + k) (HLL_HDR_SIZE + (size_of d + (Z.of_nat (length (op_bytes o)) + size_of r))) (done_ ++ zip_with Z.max mid (expand o) ++ post) (spans d + n) =
    Ret (done_ ++ zip_with Z.max mid (expand o) ++ zip_with Z.max post (registers r), spans (d ++ o :: r))).
  { intros k n -> ->. replace (d ++ o :: r) with ((d ++ [o]) ++ r) in * by (by rewrite <- app_assoc). rewrite (app_assoc done_), (app_assoc done_).
    rewrite <- (IH (d ++ [o]) fuel (done_ ++ zip_with Z.max mid (expand o)) post Hm Hh Hok); [| |lia|done|cbn in Hf; lia].
    - rewrite !size_app, spans_app, size_cons, size_nil, spans_cons, spans_nil by done. f_equal; lia.
    - rewrite length_app, length_zip_with, spans_app, spans_cons, spans_nil by done. lia. }
  destruct o as [n|n|v n].
  - apply decodes_zero in D as (-> & _ & _ & ->). unfold expand in *. cbn [op_value op_span] in *. rewrite length_replicate in *. rewrite zip_max_zeros in * by done. by apply Step.
  - apply decodes_xzero in D as (-> & -> & _ & D). rewrite E. cbn [mbind res_bind]. rewrite D. unfold expand in *. cbn [op_value op_span] in *. rewrite length_replicate in *. rewrite zip_max_zeros in * by done. by apply Step.
  - apply decodes_val in D as (-> & -> & _ & -> & ->). rewrite <- Hd. unfold expand in *. cbn [op_value op_span] in *. rewrite length_replicate in *. rewrite max_run_ok by done. cbn [mbind res_bind]. rewrite Hd. by apply Step.
Qed.

Lemma hllMerge_ok max o regs : hll_ok o regs -> length max = Z.to_nat HLL_REGISTERS -> Forall (fun v => 0 <= v) max ->
  hllMerge max o = Ret (C_OK, zip_with Z.max max regs).
Proof.
  intros [ops H ->|H _ _ H4 _] L Hv; unfold hllMerge.
  - rewrite (encoding_sparse o ops H). destruct H as [(hdr & rest & Hm & Hh & _) Hl Hok Hsp]. cbn [mbind res_bind Z.eqb HLL_SPARSE HLL_DENSE]. unfold sparse_mem in Hm.
    pose proof (merge_sparse_ok (hmem o) hdr rest ops [] (S (length (hmem o))) [] max Hm Hh Hok) as E. cbn [app] in E. rewrite size_nil, Z.add_0_r, spans_nil, <- Hl in E.
    rewrite E; [|done|pose proof (spans_nonneg ops); lia|done|pose proof (flat_length ops Hok); rewrite Hm, !length_app; lia]. cbn [mbind res_bind]. by rewrite Hsp, Z.eqb_refl.
  - rewrite (encoding_dense _ _ H H4). cbn [mbind res_bind]. rewrite Z.eqb_refl. pose proof (merge_dense_ok (hmem o) regs H (Z.to_nat HLL_REGISTERS) [] max L L) as E. cbn [app length] in E.
    change (Z.of_nat 0) with 0 in E. rewrite E. cbn [mbind res_bind]. by rewrite drop_0.
Qed.

Lemma write_registers_ok n : forall m pre post old, dense_ok m (pre ++ old) -> length old = length post -> length post = n -> Forall (fun v => 0 <= v <= 63) post ->
  exists m', write_registers n m (pre ++ post) (Z.of_nat (length pre)) = Ret m' /\ dense_ok m' (pre ++ post) /\ take 16 m' = take 16 m.
Proof.
  induction n as [|n IH]; intros m pre post old Hd Lo Ln Hv; (destruct post as [|v post]; [|cbn in Ln]); try done; cbn [write_registers]; (destruct old as [|x old]; [|cbn in Lo]); try done; [by exists m|].
  apply Forall_cons in Hv as [Hv1 Hv]. rewrite rd_at by done. cbn [mbind res_bind]. destruct (dense_set_register m _ (length pre) v Hd) as (m1 & -> & H1 & T1); [rewrite length_app; cbn; lia|done|]. cbn [mbind res_bind].
  rewrite insert_app_r_alt, Nat.sub_diag in H1 by lia. cbn [insert list_insert] in H1. rewrite shift_one in H1.
  destruct (IH m1 (pre ++ [v]) post old H1) as (m' & E & H' & T'); [lia|lia|done|]. exists m'. rewrite (next_index _ v), shift_one. split; [done|]. split; [done|congruence].
Qed.

Lemma sketch_union A B : zip_with Z.max (sketch A) (sketch B) = sketch (A ++ B).
Proof.
  apply sketch_ext; [rewrite length_zip_with, !length_sketch; lia|]. intros i Hi. by rewrite lookup_zip_with, !sketch_lookup, rank_app by done.
Qed.

Lemma rank_le_50 A i : rank A i <= 50.
Proof. apply rank_le; [done|]. intros e _ _. destruct (pat_of e) as (_ & [_ H] & _). exact H. Qed.

Lemma sketch_range A : Forall (fun v => 0 <= v <= 63) (sketch A).
Proof.
  rewrite Forall_lookup. intros i v E. pose proof (lookup_lt_Some _ _ _ E) as Hi. rewrite length_sketch in Hi. rewrite sketch_lookup in E by done. injection E as <-.
  pose proof (rank_nonneg A i). pose proof (rank_le_50 A i). lia.
Qed.

Lemma merge_all_ok keys As : Forall2 key_denotes keys As -> forall B, merge_all (sketch B) keys = Ret (PfOk, sketch (B ++ concat As)).
Proof.
  induction 1 as [|key A keys As Hk _ IH]; intros B; cbn [merge_all concat]; [by rewrite app_nil_r|]. pose proof (key_valid key A Hk) as V. destruct key as [v|].
  - destruct V as (o & -> & Ho). cbn [mbind res_bind]. rewrite (hllMerge_ok _ o (sketch A) Ho); [|apply length_sketch|eapply Forall_impl; [apply sketch_range|cbn; lia]].
    cbn [mbind res_bind]. rewrite sketch_union. cbn [Z.eqb C_OK C_ERR]. by rewrite IH, <- app_assoc.
  - cbn in Hk. subst A. cbn [app]. apply IH.
Qed.

Lemma to_dense_any o regs : hll_ok o regs -> exists o', hllSparseToDense o = Ret (C_OK, o') /\ dense_ok (hmem o') regs /\ hlen o' = HLL_DENSE_SIZE /\
  take 4 (hmem o') = HYLL /\ nth 4 (hmem o') 0 = HLL_DENSE.
Proof.
  intros [ops H ->|H Hl Hy H4 _]; [by apply hllSparseToDense_ok|]. exists o. split; [|done]. unfold hllSparseToDense. rewrite (encoding_dense _ _ H H4). cbn [mbind res_bind]. by rewrite Z.eqb_refl.
Qed.

(** What is written to the destination. *)
Lemma write_merged n o regs max : hll_ok o regs -> length regs = length max -> length max = n -> Forall (fun v => 0 <= v <= 63) max ->
  exists o1 m1 m2, hllSparseToDense o = Ret (C_OK, o1) /\ write_registers n (hmem o1) max 0 = Ret m1 /\ invalidate m1 = Ret m2 /\
    hll_ok (mk_hll m2 (hlen o1)) max /\ hlen o1 = HLL_DENSE_SIZE.
Proof.
  intros Ho Lr Lm Hm. destruct (to_dense_any o _ Ho) as (o1 & E1 & H1 & L1 & Hy & H4).
  destruct (write_registers_ok n (hmem o1) [] max regs H1) as (m1 & E & H2 & T); [done..|].
  assert (H3 : hll_ok (mk_hll m1 (hlen o1)) max).
  { destruct (header_kept _ _ T) as [T4 T5].
    apply is_dense; [exact H2|exact L1|by rewrite <- Hy|by rewrite <- H4|exact Hm]. }
  destruct (invalidate_ok _ _ H3) as (m2 & E2 & H5). exists o1, m1, m2. split; [exact E1|]. split; [exact E|]. split; [exact E2|]. split; [exact H5|exact L1].
Qed.

Lemma ok_no_err : (C_OK =? C_ERR) = false.
Proof. done. Qed.

Lemma pfmerge_ok dest srcs A As : key_denotes dest A -> Forall2 key_denotes srcs As ->
  exists o', pfmergeCommand dest srcs = Ret (PfOk, Some (HllSds true o')) /\ denotes o' (A ++ concat As) /\ hlen o' = HLL_DENSE_SIZE.
Proof.
  intros Hd Hs. assert (M : merge_all (replicate (Z.to_nat HLL_REGISTERS) 0) (dest :: srcs) = Ret (PfOk, sketch (A ++ concat As))).
  { rewrite <- sketch_nil. apply (merge_all_ok _ (A :: As)). by constructor. }
  destruct (key_object dest A Hd) as (o & Eo & Ho & _).
  destruct (write_merged (Z.to_nat HLL_REGISTERS) o _ (sketch (A ++ concat As)) Ho) as (o1 & m1 & m2 & E1 & E2 & E3 & H & L); [by rewrite !length_sketch|apply length_sketch|apply sketch_range|].
  unfold pfmergeCommand. rewrite M. cbn [mbind res_bind]. rewrite Eo. cbn [mbind res_bind]. rewrite E1. cbn [mbind res_bind]. rewrite ok_no_err.
  rewrite E2. cbn [mbind res_bind]. rewrite E3. cbn [mbind res_bind]. by exists (mk_hll m2 (hlen o1)).
Qed.

(** ** Sets *)

Lemma sketch_set A B : (forall e, e ∈ A <-> e ∈ B) -> sketch A = sketch B.
Proof. intros H. apply sketch_eq. intros i _. apply Z.le_antisymm; apply rank_subset; intros e; apply H. Qed.

Lemma denotes_set o A B : (forall e, e ∈ A <-> e ∈ B) -> denotes o A -> denotes o B.
Proof. intros H. unfold denotes. by rewrite (sketch_set A B H). Qed.

(** The registers of a set, and the keys that hold it. *)
Definition registers_of (X : gset (list Z)) : list Z := sketch (elements X).
Definition key_holds (key : option hllval) (X : gset (list Z)) : Prop := key_denotes key (elements X).

Lemma elements_union (X : gset (list Z)) l e : e ∈ elements X ++ l <-> e ∈ elements (X ∪ list_to_set l).
Proof. rewrite elem_of_app, !elem_of_elements, elem_of_union, elem_of_list_to_set. done. Qed.

Lemma elements_unions (Xs : list (gset (list Z))) e : e ∈ concat (elements <$> Xs) <-> e ∈ ⋃ Xs.
Proof.
  induction Xs as [|X Xs IH]; cbn [fmap list_fmap concat union_list foldr]; [set_solver|]. rewrite elem_of_app, elem_of_elements. rewrite elem_of_union. fold (⋃ Xs). by rewrite IH.
Qed.

(** C39: PFADD adds its elements to the set of the key: the registers depend
    on the set only, the reply says if the key is new or they changed, and
    the string grows up to the limit or becomes dense. *)
Theorem pfadd_refines max_bytes junk key X eles : key_holds key X ->
  exists o', pfaddCommand max_bytes junk key eles =
      Ret (PfInt (if decide (key = None \/ registers_of (X ∪ list_to_set eles) <> registers_of X) then 1 else 0), Some (HllSds true o')) /\
    hll_ok o' (registers_of (X ∪ list_to_set eles)) /\ key_holds (Some (HllSds true o')) (X ∪ list_to_set eles) /\
    (hlen o' <= Z.max max_bytes (key_len key) \/ hlen o' = HLL_DENSE_SIZE).
Proof.
  intros H. destruct (pfadd_ok max_bytes junk key (elements X) eles H) as (o' & E & Hd & L). exists o'. unfold registers_of.
  rewrite <- (sketch_set _ _ (elements_union X eles)). split; [exact E|]. split; [exact Hd|]. split; [|exact L]. unfold key_holds. cbn [key_denotes]. by apply (denotes_set _ _ _ (elements_union X eles)).
Qed.

(** C40: PFMERGE makes the destination, dense from then on, hold the union of
    its set and those of its sources. *)
Theorem pfmerge_refines dest srcs X Xs : key_holds dest X -> Forall2 key_holds srcs Xs ->
  exists o', pfmergeCommand dest srcs = Ret (PfOk, Some (HllSds true o')) /\ hlen o' = HLL_DENSE_SIZE /\
    hll_ok o' (registers_of (X ∪ ⋃ Xs)) /\ key_holds (Some (HllSds true o')) (X ∪ ⋃ Xs).
Proof.
  intros Hd Hs. assert (Hs' : Forall2 key_denotes srcs (elements <$> Xs)) by (by apply Forall2_fmap_r).
  destruct (pfmerge_ok dest srcs (elements X) _ Hd Hs') as (o' & E & Hm & L). exists o'. split; [exact E|]. split; [exact L|].
  assert (Hu : forall e, e ∈ elements X ++ concat (elements <$> Xs) <-> e ∈ elements (X ∪ ⋃ Xs)) by (intros e; by rewrite elem_of_app, elements_unions, !elem_of_elements, elem_of_union).
  pose proof (denotes_set _ _ _ Hu Hm) as Hm'. split; exact Hm'.
Qed.
