(* ===== verification/HllWitness.v ===== *)
(** * HllWitness: HyperLogLogs at concrete inputs

    The theorems on PFADD and PFMERGE at concrete keys, and what the commands
    do with values that are no valid objects. *)

From stdpp Require Import gmap.
From S2P Require Import Prelude Util Hll HllDense HllSparse HllTheorems HllCommands.

Definition foo : list Z := [102; 111; 111].
Definition bar : list Z := [98; 97; 114].

(** ** Valid objects *)

Lemma empty_holds : key_holds None ∅.
Proof. unfold key_holds, key_denotes. by rewrite elements_empty. Qed.

Lemma foo_holds : exists o, key_holds (Some (HllSds true o)) {[foo]}.
Proof.
  destruct (pfadd_ok 3000 0 None [] [foo] eq_refl) as (o & _ & H & _). exists o. unfold key_holds. cbn [key_denotes].
  refine (denotes_set o _ _ _ H). intros e. rewrite elem_of_elements. set_solver.
Qed.

Lemma pfadd_refines_witness : key_holds None ∅ /\ exists o', pfaddCommand 3000 0 None [foo; bar; foo] =
    Ret (PfInt (if decide (@None hllval = None \/ registers_of (∅ ∪ list_to_set [foo; bar; foo]) <> registers_of ∅) then 1 else 0), Some (HllSds true o')) /\
  hll_ok o' (registers_of (∅ ∪ list_to_set [foo; bar; foo])) /\ key_holds (Some (HllSds true o')) (∅ ∪ list_to_set [foo; bar; foo]) /\
  (hlen o' <= Z.max 3000 (key_len None) \/ hlen o' = HLL_DENSE_SIZE).
Proof. split; [exact empty_holds|]. exact (pfadd_refines 3000 0 None ∅ [foo; bar; foo] empty_holds). Defined.

Lemma pfmerge_refines_witness : exists o, key_holds (Some (HllSds true o)) {[foo]} /\ exists o', pfmergeCommand None [Some (HllSds true o); None] = Ret (PfOk, Some (HllSds true o')) /\
  hlen o' = HLL_DENSE_SIZE /\ hll_ok o' (registers_of (∅ ∪ ⋃ [{[foo]}; ∅])) /\ key_holds (Some (HllSds true o')) (∅ ∪ ⋃ [{[foo]}; ∅]).
Proof.
  destruct foo_holds as [o H]. exists o. split; [exact H|].
  apply (pfmerge_refines None [Some (HllSds true o); None] ∅ [{[foo]}; ∅] empty_holds).
  constructor; [exact H|]. constructor; [exact empty_holds|]. constructor.
Defined.

(** ** Other values *)

(** A number of 16 digits or more: its value is used as the address of the
    header. *)
Theorem pfadd_number max_bytes junk v eles : 10 ^ 15 <= v < 2 ^ 63 ->
  isHLLObject (HllInt v) = Fault OutOfBounds /\ pfaddCommand max_bytes junk (Some (HllInt v)) eles = Fault OutOfBounds.
Proof.
  intros Hv. assert (L : 16 <= sdigits10 v).
  { pose proof (Z.div_le_lower_bound v 1000000000000 1000 ltac:(lia) ltac:(lia)) as Hlo. assert (v / 1000000000000 < 1000000000000) as Hhi by (apply Z.div_lt_upper_bound; lia).
    unfold sdigits10, digits10. cbn [digits10_rec]. revert Hlo Hhi. generalize (v / 1000000000000). intros q Hlo Hhi.
    repeat match goal with |- context [if ?x <? ?y then _ else _] => destruct (Z.ltb_spec x y) end; try lia; unfold Z.b2z; repeat case_match; lia. }
  assert (E : isHLLObject (HllInt v) = Fault OutOfBounds) by (unfold isHLLObject; cbn [hll_len]; unfold HLL_HDR_SIZE; destruct (Z.ltb_spec (sdigits10 v) 16); [lia|done]).
  split; [exact E|]. unfold pfaddCommand. by rewrite E.
Qed.

Definition header : list Z := HYLL ++ [HLL_SPARSE] ++ replicate 11 0.

(** All registers, and one value more. *)
Definition too_long : hllobj := mk_hll (header ++ xzero_bytes 16384 ++ [val_byte 1 1] ++ [0]) 19.

(** The union writes behind the array of the registers, and so does the
    conversion to the dense encoding. *)
Theorem hllMerge_overflow : isHLLObject (HllSds true too_long) = Ret (Some too_long) /\
  pfmergeCommand None [Some (HllSds true too_long)] = Fault OutOfBounds /\
  pfaddCommand 0 0 (Some (HllSds true too_long)) [foo] = Fault OutOfBounds.
Proof. vm_compute. done. Qed.

(** One register only. *)
Definition too_short : hllobj := mk_hll (header ++ [zero_byte 1] ++ [0]) 17.

(** The element is added in place of the terminator: the reply is that of a
    change, no register has the count, and the string has no terminator. *)
Theorem hllSparseAdd_terminator : isHLLObject (HllSds true too_short) = Ret (Some too_short) /\
  exists o', pfaddCommand 3000 0 (Some (HllSds true too_short)) [foo] = Ret (PfInt 1, Some (HllSds true o')) /\
    hlen o' = hlen too_short /\ nth (Z.to_nat (hlen o')) (hmem o') 0 <> 0.
Proof. split; [by vm_compute|]. vm_compute. eexists. split; [reflexivity|]. by split. Qed.
