(* ===== verification/ServerWitness.v ===== *)
(** * ServerWitness: the theorems about the server at concrete inputs

    A server that has just started, and one with a single string in its
    keyspace; each theorem is applied to one of them. *)

From S2P Require Import Prelude Util Object Db ServerOk Abstract ServerSim TString ValueSim AString StringSim.
From S2P Require Import Keyspace AKeyspace Frame KeyspaceSim Server ServerRefine Sds SdsProofs Protocol.
From S2P Require Import ProtocolProofs Pipeline Safety Session Effects ServerTheorems Limits.
From S2P Require Import Rdb RdbCodec RdbLoad RdbTheorems.

(** ** Sample states *)

Definition sample_gates (ro : bool) : gates := mk_gates false None false ro false false false false.
(** At time 1000; [slave] for a read-only slave. *)
Definition sample_conf (slave : bool) : conf :=
  mk_conf 1000 0 false slave false 0 false false false true [] (sample_gates slave).

Definition fresh : server := initServer 16 (sample_conf false).

Lemma fresh_between : between fresh.
Proof. split; [|done]. apply initServer_ok. lia. Qed.
Lemma fresh_serving : serving (cf fresh).
Proof. done. Qed.

(** One string in database 0, with or without an expire time. *)
Definition one_key (k v : list Z) (when : option Z) (dirty : Z) : server :=
  mk_server (<[OBJ_SHARED_INTEGERS := mk_robj OBJ_STRING OBJ_ENCODING_EMBSTR 0 1 (PSds v)]> shared_heap)
    (OBJ_SHARED_INTEGERS + 1)
    [mk_db {[k := OBJ_SHARED_INTEGERS]} (match when with Some w => {[k := w]} | None => ∅ end)] [] 0
    (sample_conf false) (mk_log dirty 0 0 0 [] [] [] [] []).

Lemma count_one k a b : count_dict {[k := a]} b = tok a b.
Proof.
  unfold count_dict, tok. destruct (decide (b = a)) as [->|Hne].
  - by rewrite map_filter_singleton_True, map_size_singleton.
  - by rewrite map_filter_singleton_False.
Qed.

Lemma one_key_between k v when n : Z.of_nat (length v) <= ALLOC_MAX -> between (one_key k v when n).
Proof.
  intros Hv. split; [|done]. unfold server_ok, one_key. pose proof shared_heap_lookup as Hh. revert Hh. generalize shared_heap as h.
  intros h Hh. constructor; cbn [heap brk dbs argv curdb].
  - intros a o [[<- <-]|[_ [Ha ->]%Hh]]%lookup_insert_Some; [exact Hv|].
    unfold obj_ok, shared_object, in_s, OBJ_SHARED_INTEGERS in *. cbn. lia.
  - intros a o [[<- <-]|[_ [Ha _]%Hh]]%lookup_insert_Some; lia.
  - unfold refs. cbn [dbs argv argv_refs db_refs dict].
    intros a o [[<- <-]|[Hne [Ha ->]%Hh]]%lookup_insert_Some; rewrite count_one; unfold tok, shared_ref;
      repeat destruct (decide _); cbn; try lia.
  - unfold refs. cbn [dbs argv argv_refs db_refs dict]. intros a [H|H]; [|lia]. rewrite count_one in H. unfold tok, shared_ref in H.
    apply lookup_insert_is_Some. destruct (decide (a = OBJ_SHARED_INTEGERS)) as [->|Hne]; [by left|right]. split; [congruence|].
    destruct (decide (0 <= a < _)) as [Ha|]; [|lia]. exists (shared_object a). by apply Hh.
  - intros i Hi. exists (shared_object i). split; [|done]. rewrite lookup_insert_ne by lia. by apply Hh.
  - lia.
  - constructor; [|done]. unfold db_ok. cbn. destruct when; set_solver.
  - cbn. lia.
  - intros a o Ha. by apply elem_of_nil in Ha.
Qed.

Lemma one_key_abs k v when n : cur_adb (abs (one_key k v when n)) =
  mk_adb {[k := AStr v]} (match when with Some w => {[k := w]} | None => ∅ end).
Proof.
  unfold cur_adb, abs, one_key. cbn [acur adbs curdb dbs heap fmap list_fmap nth Z.to_nat]. unfold abs_db, abs_dict. cbn [dict expires].
  by rewrite omap_singleton, lookup_insert_eq.
Qed.

(** A client of [fresh] with the arguments of a request. *)
Definition with_request (l : list (list Z)) (s : server) : server :=
  match push_args (map (pair false) l) s with Ret (_, s') => s' | Fault _ => s end.

Lemma with_request_ok l s : server_ok s -> argv s = [] -> Forall (fun a => Z.of_nat (length a) <= ALLOC_MAX) l ->
  client_ok (with_request l s) /\ length (argv (with_request l s)) = length l.
Proof.
  intros Hok Ha Hl. unfold with_request.
  destruct (push_args_spec (map (pair false) l) s Hok) as (s' & -> & Hok' & Hraw & Hn & _).
  { intros i a _ Hi. by rewrite Ha in Hi. }
  { by apply Forall_map. }
  split; [by split|]. rewrite Hn, Ha, length_map. done.
Qed.

(** ** The theorems at work *)


Lemma reachable_ok_witness : server_ok (with_cf (sample_conf true) fresh) /\ client_state new_conn (with_cf (sample_conf true) fresh).
Proof.
  destruct (reachable_ok 16 new_conn (with_cf (sample_conf true) fresh)) as (H1 & H2 & _); [lia| |by split].
  eapply within_step; [apply (within_start (2 ^ 30) 16 (sample_conf false))|apply step_conf|].
  intros a. apply (Z.le_trans _ 1); [exact (initServer_refs 16 (sample_conf false) a)|lia].
Defined.

Definition kk : list Z := bytes_of_string "k".
Definition vv : list Z := bytes_of_string "value".

Lemma short_pair : Forall (fun a => Z.of_nat (length a) <= 512 * 1024 * 1024) [kk; vv].
Proof. repeat constructor; cbn; lia. Qed.

Lemma bound_key s k v db0 : adbs (abs s) !! 0%nat = Some (bind_key k v db0) ->
  exists db a, dbs s !! 0%nat = Some db /\ dict db !! k = Some a.
Proof.
  intros Hd. change (adbs (abs s)) with (abs_db (heap s) <$> dbs s) in Hd.
  rewrite list_lookup_fmap in Hd. destruct (dbs s !! 0%nat) as [db|]; [|done]. injection Hd as Hb Hb'. exists db.
  destruct (dict db !! k) as [a|] eqn:Ek; [by exists a|]. exfalso.
  apply (f_equal (lookup k)) in Hb. unfold abs_dict in Hb. by rewrite lookup_omap, Ek, lookup_insert_eq in Hb.
Qed.

Lemma reachable_typed_witness : exists c s db a, reachable 16 (c, s) /\ dbs s !! 0%nat = Some db /\ dict db !! kk = Some a /\
  exists o, heap s !! a = Some o /\ 1 <= refcount o.
Proof.
  destruct (set_served fresh kk vv fresh_between fresh_serving short_pair) as (s' & E & _ & D).
  assert (Hr : reachable 16 (idle [], s')).
  { eapply reachable_step; [apply (reachable_start 16 (sample_conf false))|]. eapply step_input; [|exact E].
    vm_compute. discriminate. }
  clear E. destruct (bound_key s' kk (AStr vv) (cur_adb (abs fresh))) as (db & a & Hd & Hk).
  { rewrite D. unfold fresh. rewrite initServer_abs. apply list_lookup_insert_eq. cbn [adbs acur]. rewrite length_replicate. apply (Nat.lt_0_succ 15). }
  clear D. exists (idle []), s', db, a. do 3 (split; [assumption|]).
  destruct (reachable_typed 16 (idle []) s' 0 db kk a (Nat.lt_0_succ 15) Hr Hd Hk) as (o & Ho & Hc & _). exists o. by split.
Defined.

Lemma commands_refine_witness :
  match proc (entry "get" getCommand 2 "rF") (with_request (request "GET" [kk]) fresh) with
  | Ret (_, s') => aGET (abs (with_request (request "GET" [kk]) fresh)) = Ret (tt, abs s') /\ server_ok s'
  | Fault f => aGET (abs (with_request (request "GET" [kk]) fresh)) = Fault f
  end.
Proof.
  destruct (with_request_ok (request "GET" [kk]) fresh) as [Hc Hn]; [apply fresh_between|done|repeat constructor; cbn; unfold ALLOC_MAX; lia|].
  apply (commands_refine 0 (entry "get" getCommand 2 "rF") aGET); [done|done|exact Hc|]. unfold argc_ok. rewrite Hn. cbn. lia.
Defined.

Lemma pipeline_refines_witness :
  match processInputBuffer redisCommandTable (idle (concat (map encode_request [request "SET" [kk; vv]; request "DEL" [kk]]))) fresh with
  | Ret (c', s') =>
      aserve_all specified_table [request "SET" [kk; vv]; request "DEL" [kk]] (abs fresh) = Ret (close_after_reply c', abs s') /\
      server_ok s' /\ (close_after_reply c' = false -> c' = idle [] /\ argv s' = [])
  | Fault f => aserve_all specified_table [request "SET" [kk; vv]; request "DEL" [kk]] (abs fresh) = Fault f
  end.
Proof.
  apply (pipeline_refines fresh [request "SET" [kk; vv]; request "DEL" [kk]]); [apply fresh_between|].
  do 2 (apply Forall_cons; split; [apply short_request; [cbn; lia|done|repeat constructor; cbn; lia]|]). by apply Forall_nil.
Defined.


Lemma set_then_get_witness : exists s', processInputBuffer redisCommandTable
    (idle (concat (map encode_request [request "SET" [kk; vv]; request "GET" [kk]]))) fresh = Ret (idle [], s') /\
  output (lg s') = shared_ok ++ bulk vv.
Proof.
  destruct (set_then_get fresh kk vv fresh_between fresh_serving short_pair) as (s' & E & _ & O & _). exists s'. by split.
Defined.

(** The largest number and one more. *)
Lemma incrby_bounds_witness : exists s', processInputBuffer redisCommandTable
    (idle (concat (map encode_request [request "INCRBY" [kk; [49]]]))) (one_key kk llong_max None 0) = Ret (idle [], s') /\
  output (lg s') = incr_error.
Proof.
  destruct (incrby_bounds (one_key kk llong_max None 0) kk [49] llong_max LLONG_MAX 1) as (s' & E & _ & H).
  - apply one_key_between. cbn. unfold ALLOC_MAX. lia.
  - done.
  - repeat constructor; cbn; lia.
  - unfold key_expired. rewrite one_key_abs. done.
  - rewrite one_key_abs. apply lookup_singleton_eq.
  - reflexivity.
  - reflexivity.
  - exists s'. split; [exact E|]. change ((LLONG_MIN <=? LLONG_MAX + 1) && (LLONG_MAX + 1 <=? LLONG_MAX)) with false in H.
    apply H.
Defined.

(** A key that expired at 999, at 1000. *)
Lemma expired_not_read_witness : exists s', processInputBuffer redisCommandTable
    (idle (concat (map encode_request [request "GET" [kk]]))) (one_key kk vv (Some 999) 0) = Ret (idle [], s') /\
  output (lg s') = shared_nullbulk /\ propagated (lg s') = [(0, [bytes_of_string "DEL"; kk])].
Proof.
  destruct (expired_not_read (one_key kk vv (Some 999) 0) kk) as (s' & E & _ & O & _ & P).
  - apply one_key_between. cbn. unfold ALLOC_MAX. lia.
  - done.
  - cbn. lia.
  - unfold key_expired. rewrite one_key_abs. cbn [aexpires]. by rewrite lookup_singleton_eq.
  - exists s'. by split_and!.
Defined.

Lemma persist_revives_witness : exists s', processInputBuffer redisCommandTable
    (idle (concat (map encode_request [request "PERSIST" [kk]; request "GET" [kk]]))) (one_key kk vv (Some 999) 0) =
  Ret (idle [], s') /\ output (lg s') = shared_cone ++ bulk vv.
Proof.
  destruct (persist_revives (one_key kk vv (Some 999) 0) kk vv) as (s' & E & _ & O).
  - apply one_key_between. cbn. unfold ALLOC_MAX. lia.
  - done.
  - cbn. lia.
  - unfold key_expired. rewrite one_key_abs. cbn [aexpires]. by rewrite lookup_singleton_eq.
  - rewrite one_key_abs. apply lookup_singleton_eq.
  - exists s'. by split.
Defined.

Lemma flushall_lost_witness : exists s', processInputBuffer redisCommandTable
    (idle (concat (map encode_request [request "FLUSHALL" []]))) (one_key kk vv None (2 ^ 31)) = Ret (idle [], s') /\
  adbs (abs s') = [mk_adb ∅ ∅] /\ propagated (lg s') = [].
Proof.
  destruct (flushall_lost (one_key kk vv None (2 ^ 31))) as (s' & E & _ & D & P).
  - apply one_key_between. cbn. unfold ALLOC_MAX. lia.
  - done.
  - done.
  - cbn. lia.
  - exists s'. by split_and!.
Defined.

Lemma overflowing_requests_witness :
  processInputBuffer redisCommandTable (idle (concat (map encode_request [request "DECRBY" [[107; 50]; llong_min]])))
    (one_key kk vv None 0) = Fault Overflow.
Proof.
  destruct (overflowing_requests (one_key kk vv None 0) [107; 50]) as [H _]; [| | | | |exact H].
  - apply one_key_between. cbn. unfold ALLOC_MAX. lia.
  - done.
  - cbn. lia.
  - unfold key_expired. by rewrite one_key_abs.
  - rewrite one_key_abs. by apply lookup_singleton_ne.
Defined.

(** ** Dumps *)

Lemma one_key_adbs k v w n : adbs (abs (one_key k v (Some w) n)) = [mk_adb {[k := AStr v]} {[k := w]}].
Proof.
  unfold abs, one_key. cbn [adbs dbs heap fmap list_fmap]. unfold abs_db, abs_dict. cbn [dict expires].
  by rewrite omap_singleton, lookup_insert_eq.
Qed.

Lemma one_key_dumpable w n : in_s 64 w -> w <> -1 -> dumpable (abs (one_key kk vv (Some w) n)).
Proof.
  intros Hw Hne. unfold dumpable. rewrite one_key_adbs. split; [|cbn; lia]. constructor; [|constructor].
  split; [cbn [adict]; rewrite map_size_singleton; lia|]. cbn [adict aexpires]. split.
  - intros k v [<- <-]%lookup_singleton_Some. split; [split; [by repeat constructor|cbn; lia]|].
    exists vv. split; [reflexivity|]. split; [by repeat constructor|cbn; lia].
  - by intros k w' [<- <-]%lookup_singleton_Some.
Qed.

Lemma rdb_roundtrip_witness : exists r t',
  rdbSaveRio true true (fun _ => 0) 7 1000 4096 map_to_list (fun _ => io_error) (one_key kk vv (Some 5000) 0)
    (rioInitWithFile []) = Ret (Some tt, r) /\
  rdbLoad true 2097152 7 (fun _ => null) (io_ptr r) (initServer 1 (sample_conf false)) = Ret (true, t') /\
  adbs (abs t') = [mk_adb {[kk := AStr vv]} {[kk := 5000]}].
Proof.
  destruct (rdb_roundtrip true true (fun _ => 0) 7 1000 4096 map_to_list (fun _ => io_error) true 2097152 7 (fun _ => null)
    (one_key kk vv (Some 5000) 0) (initServer 1 (sample_conf false))) as (r & t' & E1 & E2 & _ & E3).
  - intros i. unfold in_u. lia.
  - lia.
  - lia.
  - reflexivity.
  - lia.
  - apply one_key_between. cbn. unfold ALLOC_MAX. lia.
  - apply one_key_dumpable; [unfold in_s; lia|lia].
  - apply initServer_ok. lia.
  - rewrite initServer_abs. reflexivity.
  - exists r, t'. split; [exact E1|]. split; [exact E2|]. rewrite E3. cbn [adbs]. rewrite one_key_adbs.
    cbn [fmap list_fmap]. unfold survivors. cbn [adict aexpires].
    rewrite !map_filter_singleton_True; [reflexivity|reflexivity|]. cbn [fst]. by rewrite lookup_singleton_eq.
Defined.

Lemma rdb_save_full_witness : exists r,
  rdbSaveRio true true (fun _ => 0) 7 1000 4096 map_to_list (fun _ => io_error) (one_key kk vv (Some 5000) 0)
    (empty_rio (Some 0) 0) = Ret (None, r).
Proof.
  destruct (rdb_save_full true true (fun _ => 0) 7 1000 4096 map_to_list (fun _ => io_error)
    (one_key kk vv (Some 5000) 0)) as (file & Hf & H).
  - intros i. unfold in_u. lia.
  - lia.
  - lia.
  - reflexivity.
  - apply one_key_between. cbn. unfold ALLOC_MAX. lia.
  - apply one_key_dumpable; [unfold in_s; lia|lia].
  - destruct (H 0 0 ltac:(lia) ltac:(lia)) as (r & E & _). exists r.
    destruct (Z.leb_spec (Z.of_nat (length file)) 0) as [Hz|Hz]; [lia|exact E].
Defined.
